(* ===== verification/_CoqProject ===== *)
-Q . S2P
Prelude.v
GoStd.v
Block.v
StoreData.v
Store.v
Replication.v
ConfigSync.v
Maintenance.v
Paths.v
SyncPlan.v
Backup.v
Scheduling.v
Jobs.v
Settings.v
ApplyGate.v
Crawlers.v
Scrub.v
FolderTransfer.v
GoNet.v
Config.v
ConfigOps.v
FolderJournal.v
FolderSync.v
Routing.v
RoutingPaths.v
PeerPlans.v
GoBase64.v
Protocol.v
StreamMeta.v
BadgerKeys.v
BadgerStore.v
BadgerFolder.v
BadgerTables.v
BadgerPeer.v
Glob.v
Scanner.v
LocalSync.v
PerFolder.v
Engine.v
