(* ===== verification/Prelude.v ===== *)
(** * A verified model of the File Sync Engine

    The File Sync Engine keeps folders equal on several nodes.  Each node scans
    its folders, describes every file by a manifest of content-addressed blocks,
    records the manifests in a metadata store, hands the changes since a cursor
    to its peers, and rebuilds files from the blocks it and its peers hold.
    This library models the engine's own logic, written in Go under
    [src/internal/], and proves what makes it correct.

    ** How the parts interact

    A scan of the engine (Engine.v) saves and deletes manifests in the store
    (Store.v); each such operation takes the next revision of the folder.  A peer asks for the
    changes since the cursor it holds and applies them to its replica of the
    folder (Replication.v); the store drops a tombstone only when the listed
    peers have acknowledged it.  Where two nodes changed one file, the conflict
    policy decides (SyncPlan.v); a file that is to be written is assembled from
    blocks at hand (Block.v) in an order that fits the free disk space
    (SyncPlan.v), and a delete waits at the apply gate for the writes it depends
    on (ApplyGate.v).  Settings travel in two ways: as replicated records merged
    by hybrid logical clocks (ConfigSync.v), and as changes queued for a node
    that the node applies with an audit trail (Settings.v).  In the background a
    maintenance worker drives crawlers under a budget and resumes where it
    stopped (Maintenance.v, ApplyGate.v): some check the metadata (Crawlers.v),
    one reads the files and marks what rotted, and a repair keeps the damaged
    file in quarantine (Scrub.v).  Folders are scanned when they are due and
    transfers are paced (Scheduling.v), and backups archive or mirror what a
    snapshot protects (Backup.v, Jobs.v).  Two folders of one machine are kept
    equal without a store: a scan that honours the folder's ignore files
    (Glob.v, Scanner.v) finds what to move, write and delete (LocalSync.v).

    Beside the engine's metadata there is a lighter exchange of shared folders:
    each node keeps a journal with a revision per path (FolderJournal.v), asks
    its peers for what changed since a cursor, downloads blocks and small files
    (FolderTransfer.v), and repeats that in passes over its folders
    (FolderSync.v).  Which folders and peers there are says the configuration
    file, which is validated when it is loaded (Config.v) and changed by the
    commands of the API and by pairing (ConfigOps.v).  From the configuration and
    from live observations follow the candidate endpoints of a peer, the source
    of a block, the path of a command and the peers a folder is pulled from
    (Routing.v, RoutingPaths.v, PeerPlans.v).  Over an open stream two nodes speak
    a protocol of messages (Protocol.v), in which a client asks a server for the
    metadata and the settings changes it lacks (StreamMeta.v).

    ** Files

    - Prelude.v (this file): results, machine integers, comparators and sorting,
      loops that fill maps.
    - GoStd.v: what the code uses of Go's standard library ([path], [strings],
      hexadecimal and decimal text, bytes).
    - Block.v: [block/manifest.go] and [apply/assembler.go].
    - StoreData.v, Store.v, Replication.v, Jobs.v, Settings.v, and the first
      part of ApplyGate.v: [state/json_store.go].  The Go snapshot struct is the
      record [snapshot]; each method of [JSONStore] is the definition of the
      same name, which takes the store and returns the new store with the
      result.  The methods take no lock: see Assumptions below.
    - ConfigSync.v: [configsync/sync.go] and [store.go].
    - Maintenance.v: [maintenance/worker.go], [checkpoint.go],
      [repair_backoff.go], and the fingerprints of [file_scrub_crawler.go].
    - ApplyGate.v: also [maintenance/apply_gate_crawler.go].
    - Paths.v: what the code's path checks rely on.
    - SyncPlan.v: [syncplan/policy.go] and [applyplan/order.go].
    - Backup.v: [backup/planner.go] and [backup/mirror.go].
    - Crawlers.v: [maintenance/metadata_consistency_crawler.go],
      [manifest_crawler.go] and [block_index_crawler.go].
    - Scrub.v: [maintenance/file_scrub_crawler.go] and [repair_quarantine.go].
    - FolderTransfer.v: [foldershare/blocks.go] and [batch.go].
    - FolderJournal.v, FolderSync.v: [foldershare/sync.go] and
      [journal_state.go]; a node's maps and documents are [nodeState].
    - GoNet.v: what the configuration uses of Go's [net] and [time] (addresses,
      host and port, durations).
    - Config.v: [config/config.go], a record per section.
    - ConfigOps.v: [configops/mutate.go], [link/auth.go],
      [apicontrol/config_commands.go] and the repairs in [config/bootstrap.go],
      [discovery_default.go], [logging_output.go].
    - Routing.v: [routing/source_selection.go], [runtimesync/cooperative.go].
    - RoutingPaths.v: [routing/nat_traversal.go], [endpoint_candidates.go],
      [management_path.go].
    - PeerPlans.v: [peerpullplan/peerpullplan.go], the endpoints of
      [apistate/peer_state.go] and [metadatareconcile/metadatareconcile.go].
    - BadgerKeys.v, BadgerStore.v, BadgerFolder.v, BadgerTables.v, BadgerPeer.v:
      [state/badger_store.go], the second backend of the store.  The database is
      a class with the laws of its documented operations ([KVStore], [KVLaws]).
    - PerFolder.v: [state/per_folder_badger_store.go], a database per folder, with
      [metadatastore/open.go] and [metadataops/import.go].
    - GoBase64.v, Protocol.v: [protocol/messages.go] and the base64 it uses.
    - StreamMeta.v: the metadata and settings parts of [streamsync/streamsync.go].
    - Glob.v, Scanner.v: [scanner/scanner.go]; Glob.v also models [path.Match] and
      the regular expressions the scanner builds from patterns.
    - Engine.v: [engine/engine.go], [lazy_hash.go], [manual_seed.go] and
      [index_state.go], over any store with the laws of [ManifestStoreLaws].
    - LocalSync.v: [localsync/sync.go], [recovery/recovery.go], the retention of
      replaced files in [backup/archive.go], [foldersync/runner.go].
    - Scheduling.v: [scheduler/scheduler.go], [daemonloop/schedule.go],
      [ratelimit/limiter.go], [linkstats/tracker.go] and the name test of
      [recovery/recovery.go].

    ** Conventions

    A Go [(value, error)] result is a [result]; an [error] whose text matters to
    a caller keeps it, others are constructors.  A map is a [gmap].  Where the code
    sorts what it ranges over, the comparator is proved to leave no ties that
    matter ([sort_by_unique]) and the model ranges over [map_to_list]; so it does
    where a loop only fills another map.  Where the order can show, it is an
    argument that lists the map's entries in any order: [range] in Engine.v, the
    orders of the stores in PerFolder.v, the visit of a journal in FolderSync.v.
    Integers are [Z] with [u64], [u32] and [i64] written where Go's arithmetic
    wraps.  What may fail outside the program - a write of the store, a system call -
    is decided by an argument ([fault], [faults]); a theorem about faults says for
    which of them it holds.  Code that is not in the repository is an argument:
    [sha256], the clock, random bytes, formatting of times.  Where a property needs
    something of it (no collision of the hash), the property says so about the
    inputs at hand and has a witness with a concrete function.

    ** Assumptions

    - Calls follow one another.  The stores have no lock: a method of [JSONStore]
      loads the whole snapshot, changes it and saves it.  The program does run such
      calls side by side - [startAsyncMetadataCatchup] of streamsync.go catches up on
      metadata in a goroutine beside the pull that started it - and then an update
      can be lost although both calls report success ([lost_update] in Store.v).
      Every other theorem about a store is about calls that do not overlap.  The
      sixteen workers of a folder's transfers (FolderTransfer.v) are taken one
      download after another, in any order.  Nothing else changes the files while an
      operation of the engine, a local synchronisation or a pass runs, unless the
      model has an argument for it.
    - Documents survive their encoding.  What is stored as JSON - snapshots, journals,
      cursors, database records - is the value that was stored, or a value for a
      document that does not decode: encoding and decoding of Go's values is the
      identity.  That holds of values whose strings are valid UTF-8 and whose
      numbers JSON can carry; others (a file name that is not UTF-8) come back
      altered from the real stores.
    - A theorem holds under the hypotheses in its statement, which its comment
      names; the examples beside it show what happens where they fail.

    ** What the theorems show

    - Store and replication.  The store operations refine operations of an
      abstract folder - live manifests, tombstones, a cursor - and keep its
      well-formedness ([store_ops_refine]).  Sending the changes since a cursor
      at which a peer was synchronised makes it equal to the sender's folder
      if no rename of the batch is touched again ([ChangesSince_converges]);
      applying a batch is all or nothing
      ([ApplyPeerFolderChanges_atomic]); compaction leaves the list of
      changes of every peer it knows as it was ([CompactFolderMetadata_safe]), but not
      the hash that goes with it ([compaction_rejected]); history at a cursor is stable as long
      as no tombstoned path is touched, and equal summary hashes mean equal folders if
      the hash does not collide.
    - Settings.  Merging is commutative, associative and idempotent on the
      records of others, never writes a node's own record except by an edit
      queued for it, and clocks stay ahead of what was seen; queued edits are
      delivered unless something newer was there.  A pending change is applied once,
      only if fresh and authorised, and its audit trail only grows.
    - Blocks.  Manifests tile a file, delta plans partition it, assembly
      replaces the target only by verified content, and succeeds when no call fails
      and the first source listed for each block has it.
    - Apply gate and maintenance.  A skipped delete is released exactly when its
      prerequisites hold; the crawler removes only what nothing waits for; a run
      is resumable, bounded by its budget, and repairs back off.
    - Planning, backups, scheduling.  Decisions of two nodes are complementary,
      the apply order fits whenever any order does, every block of a snapshot
      is protected, an update of a mirror apart from its source touches only the
      mirror, no event is lost and a bandwidth cap is kept until its counter wraps.
    - Crawlers and scrub.  The consistency crawler lists exactly the
      contradictions of a stored folder, a manifest pass survives changes of
      the store, scrubbing marks exactly the silently corrupt files, and a repair
      keeps the damaged file whatever fails.
    - Folder shares.  A download installs only verified content; a scan makes the
      journal describe the folder and applying a peer's journal keeps that so
      ([scan_exact], [apply_remote_described], [receive_only_described]); a
      delta is as good as the whole journal while neither side loses its journal
      ([delta_equals_full]), and successful passes through a hub make all nodes
      agree, up to ties of revisions ([gossip_converges]).
    - Configuration.  Validation decides well-formedness of the document with its
      defaults ([Validate_wf]), and nine operations keep the file loadable
      ([config_ops_loadable]).
    - Routing.  A negotiation path is a shortest chain of usable links and is
      found whenever there is one ([PlanControlPlaneNegotiationPath_shortest]);
      a connected group downloads a block once
      ([PlanCooperativeBlockFetch_one_fetcher]); a tick accounts for every pending
      change once ([PlanMeshSettingsRetryDelivery_partition]); pulls use the best
      class of endpoint there is ([Plan_best_class]).
    - The Badger backend.  Every record has its own key, scans select exactly
      their records, and a saved snapshot is read back, its lists in the order
      of their keys ([Load_Save]).  Its folder
      operations refine the abstract folder with an exact block index whatever
      commits fail ([badger_history_refines], [badger_reads_exact]); on the other
      tables it answers as the JSON backend ([tables_simulate],
      [tables_read_alike]), and on the replicas of peers ([peers_simulate]), with the
      exceptions that [archive_ids_differ], [misfiled_change], [empty_state_differs]
      and [renamed_onto_deleted] show; two nodes on databases replicate a folder after a
      quiet batch ([badger_replication]), and compaction takes exactly the acknowledged tombstones
      ([compaction_exact]).  With a database per folder, saves are not atomic, yet
      every operation on a folder is ([per_folder_history]); a saved snapshot comes
      back without what belongs to no folder ([Save_Load_exact]; archive jobs of two
      folders must not share an identifier, [jobs_of_two_folders]); and an import
      never loses the store it replaces ([replaceStore_safe]).
    - Streams.  What one codec writes the other reads, if it fits the reader's limit
      ([codec_roundtrip], [limit_unreadable]); an undisturbed exchange of metadata after
      a quiet batch ends with the client up to date and ready for the next one
      ([exchange_catches_up]), and an acknowledgement of settings takes
      exactly its changes off the queue ([recordMeshSettingsAck_settles]).
    - The engine.  A successful scan leaves exactly the manifests that describe
      the folder ([Scan_exact]).  As long as size and times of a file identify its
      content, and along any history of the engine's operations, whatever fails, a
      manifest marked complete with the times of its file describes it, so that a
      quick index need not hash ([quick_index_trusted]); on macOS and Windows the times
      do not show every change ([restored_times_missed]).  Hashing in the
      background completes if every file can be hashed ([HashNextUnknown_completes]).
    - Local folders.  An ASCII pattern without classes matches exactly the paths of
      its language ([matchGlobPath_exact]); ignore files load, cyclic includes included, to
      the rules of the files they reach ([loadSyncIgnoreRules_exact]); scans list
      exactly the visible files ([ScanFolder_exact]).  A synchronisation loses
      no readable content whatever fails ([SyncOneWay_keeps_content]), makes the target equal
      to the source when it succeeds ([SyncOneWay_exact]), and succeeds into an empty
      target if no call fails ([SyncOneWay_first_copy]).

    Theorems are stated against interfaces where the code has them: a crawler
    and a checkpoint ([Crawler], [CheckpointStore] with [CheckpointLaws]), the
    apply gate's store ([ApplyGateStore] with [ApplyGateLaws], implemented by
    the JSON store and by the Badger backend), the repair backoff store, and the
    engine's store ([ManifestStore] with [ManifestStoreLaws], implemented by the
    JSON store).

    ** Fuel

    The definitions recurse on their data, except for a few loops with fuel.
    [readBlocks] reads blocks until the data ends: the fuel is the data's length
    plus one, and every block takes at least one byte ([BuildManifest_tiles]).
    [makeRoom] removes one of the remaining deletes per round and gets their
    number ([Order_optimal] shows that nothing is lost).  [backoffLoop] counts
    the attempts down, as the code's loop does.  [runLoop] of the worker takes
    its fuel as an argument, because a crawler need not end; a run never needs
    more than its file budget plus one ([RunOnce_terminates]).
    [freeCandidate] tries numbered names until one is free: one more than there
    are files suffices ([repair_keeps_everything]).  [readTransferBlocks],
    [hashPieces], [readFrames] and [applyChunks] get the length of what they
    consume, of which each round takes at least one element; [ipv6_groups],
    [durationParts] and [last_part] the length of the string they read.
    [coop_bfs] and [search_path] visit a peer once: they get the number of known
    identifiers and of links ([coop_group_spec], [search_path_spec]).
    [loadSyncIgnoreFile] opens each file of the disk once and gets one round more
    ([loadSyncIgnoreRules_exact]); [globToRegexp_from] and the loops of
    [path.Match] get the length of the pattern or the path, the parser of regular
    expressions that of its text; [nextConflictRel] has no bound in the code and
    gets one that suffices when [os.Stat] works ([nextConflictRel_terminates]).
    [exchange_run] counts rounds of an exchange; one is enough for an unlimited
    batch ([exchange_catches_up]).

    ** What is not modelled

    The encrypted archive format; HTTP, handshakes, discovery, pairing, the command
    line and the user interfaces, which are I/O and glue around the operations
    above; goroutines, tickers and locks (see Assumptions); the pull over HTTP of
    [internal/peersync].  The cache in front of a folder's journal file and the struct a
    failed validation leaves behind are not observed and left out.  Further
    parameters: how [time.ParseDuration] rounds a fraction ([float_fraction]),
    the host and port of a URL ([url_host_port]), whether a peer has a dialable
    address ([HasAPIEndpoint]).  Files are paths with
    content and modification time: permissions and directories of their own are
    left out.  Regular expressions outside the fragment the scanner builds are
    an argument ([otherRegexp]). *)

From stdpp Require Export prelude strings gmap list sorting fin_maps.
From Stdlib Require Export ZArith Lia Permutation.

#[export] Set Default Goal Selector "!".

Declare Scope go_scope.
Delimit Scope go_scope with go.

(** ** Results: a Go [(value, error)] pair in which exactly one side is used *)

Inductive result (E A : Type) : Type :=
| Ok (a : A)
| Err (e : E).
Arguments Ok {E A} a.
Arguments Err {E A} e.

#[export] Instance result_ret E : MRet (result E) := fun A a => Ok a.
#[export] Instance result_bind E : MBind (result E) := fun A B f m =>
  match m with Ok a => f a | Err e => Err e end.
#[export] Instance result_fmap E : FMap (result E) := fun A B f m =>
  match m with Ok a => Ok (f a) | Err e => Err e end.

Definition is_ok {E A} (r : result E A) : bool :=
  match r with Ok _ => true | Err _ => false end.

(** [guard] of the error monad: an early [return err]. *)
Definition fail_if {E} (b : bool) (e : E) : result E unit :=
  if b then Err e else Ok tt.

Lemma result_bind_ok {E A B} (m : result E A) (f : A -> result E B) (b : B) :
  m ≫= f = Ok b <-> exists a, m = Ok a /\ f a = Ok b.
Proof.
  destruct m as [a|e]; simpl; split.
  - intros H. by exists a.
  - by intros (a' & [= ->] & H).
  - done.
  - by intros (a' & ? & ?).
Qed.

Lemma fail_if_ok {E} (b : bool) (e : E) u : fail_if b e = Ok u <-> b = false.
Proof. by destruct b, u. Qed.

(** ** Machine integers: the wrapped value of a mathematical integer *)

Section machine_integers.
Local Open Scope Z_scope.

Definition u64 (z : Z) : Z := z mod 2 ^ 64.
Definition u32 (z : Z) : Z := z mod 2 ^ 32.
Definition i64 (z : Z) : Z := (z + 2 ^ 63) mod 2 ^ 64 - 2 ^ 63.

Definition maxInt64 : Z := 2 ^ 63 - 1.
Definition minInt64 : Z := - 2 ^ 63.
Definition int64_range (z : Z) : Prop := minInt64 <= z <= maxInt64.

Lemma u64_small z : 0 <= z < 2 ^ 64 -> u64 z = z.
Proof. apply Z.mod_small. Qed.

Lemma u64_bounds z : 0 <= u64 z < 2 ^ 64.
Proof. apply Z.mod_pos_bound. lia. Qed.

Lemma u32_small z : 0 <= z < 2 ^ 32 -> u32 z = z.
Proof. apply Z.mod_small. Qed.

Lemma u32_bounds z : 0 <= u32 z < 2 ^ 32.
Proof. apply Z.mod_pos_bound. lia. Qed.

Lemma i64_small z : int64_range z -> i64 z = z.
Proof.
  unfold int64_range, minInt64, maxInt64, i64. intros H.
  rewrite Z.mod_small by lia. lia.
Qed.

Lemma i64_range z : int64_range (i64 z).
Proof.
  unfold int64_range, minInt64, maxInt64, i64.
  pose proof (Z.mod_pos_bound (z + 2 ^ 63) (2 ^ 64)). lia.
Qed.

End machine_integers.

#[export] Hint Resolve u64_bounds u32_bounds i64_range : core.

(** ** String order: Go's [<] on strings compares bytes *)

Definition str_lt (a b : string) : bool := String.ltb a b.

Lemma ascii_compare_lt a b c :
  Ascii.compare a b = Lt -> Ascii.compare b c = Lt -> Ascii.compare a c = Lt.
Proof.
  unfold Ascii.compare. rewrite !N.compare_lt_iff. lia.
Qed.

Lemma ascii_compare_refl a : Ascii.compare a a = Eq.
Proof. unfold Ascii.compare. apply N.compare_refl. Qed.

Lemma string_compare_refl s : String.compare s s = Eq.
Proof. induction s as [|c s IH]; simpl; [done|]. by rewrite ascii_compare_refl. Qed.

Lemma string_compare_lt a b c :
  String.compare a b = Lt -> String.compare b c = Lt -> String.compare a c = Lt.
Proof.
  revert b c. induction a as [|x a IH]; intros [|y b] [|z c]; simpl; try done.
  destruct (Ascii.compare x y) eqn:Exy; try done;
    destruct (Ascii.compare y z) eqn:Eyz; try done; intros H1 H2.
  - apply Ascii.compare_eq_iff in Exy as ->. rewrite Eyz. eauto.
  - apply Ascii.compare_eq_iff in Exy as ->. by rewrite Eyz.
  - apply Ascii.compare_eq_iff in Eyz as <-. by rewrite Exy.
  - by rewrite (ascii_compare_lt x y z).
Qed.

(** ** Comparators: the [less] functions passed to Go's [sort] package *)

(** A strict weak order: what [sort.Slice] requires of [less]. *)
Class StrictWeak {A} (lt : A -> A -> bool) : Prop := {
  sw_irrefl x : lt x x = false;
  sw_trans x y z : lt x y = true -> lt y z = true -> lt x z = true;
  sw_incomp x y z : lt x y = false -> lt y z = false -> lt x z = false
}.

(** A strict total order: incomparable elements are equal. *)
Class StrictTotal {A} (lt : A -> A -> bool) : Prop := {
  st_weak :: StrictWeak lt;
  st_conn x y : lt x y = false -> lt y x = false -> x = y
}.

Lemma sw_asym {A} (lt : A -> A -> bool) `{!StrictWeak lt} x y :
  lt x y = true -> lt y x = false.
Proof.
  intros H. destruct (lt y x) eqn:E; [|done].
  rewrite <- (sw_irrefl (lt := lt) x). symmetry. by eapply sw_trans.
Qed.

#[export] Instance str_lt_total : StrictTotal str_lt.
Proof.
  unfold str_lt, String.ltb. split; [split|].
  - intros x. by rewrite string_compare_refl.
  - intros x y z. destruct (String.compare x y) eqn:E1; try done.
    destruct (String.compare y z) eqn:E2; try done. intros _ _.
    by rewrite (string_compare_lt x y z).
  - intros x y z H1 H2. destruct (String.compare x z) eqn:E; [done| |done].
    rewrite String.compare_antisym in H1.
    destruct (String.compare y x) eqn:Eyx; simpl in H1; try done.
    + apply String.compare_eq_iff in Eyx as ->. by rewrite E in H2.
    + by rewrite (string_compare_lt y x z) in H2.
  - intros x y H1 H2. destruct (String.compare x y) eqn:E; try done.
    + by apply String.compare_eq_iff.
    + rewrite String.compare_antisym in H2. by rewrite E in H2.
Qed.

#[export] Instance Z_ltb_total : StrictTotal Z.ltb.
Proof. split; [split|]; intros; lia. Qed.

#[export] Instance nat_ltb_total : StrictTotal Nat.ltb.
Proof.
  split; [split|]; intros *; rewrite ?Nat.ltb_lt, ?Nat.ltb_ge; try lia.
Qed.

(** [if l != r { return l }] on booleans: [true] sorts first. *)
Definition true_first (x y : bool) : bool := x && negb y.

#[export] Instance true_first_total : StrictTotal true_first.
Proof.
  split; [split|]; [intros []|intros [] [] []|intros [] [] []|intros [] []]; done.
Qed.

(** [if key(l) != key(r) { return key(l) < key(r) }; rest] *)
Definition by_key {A K} `{EqDecision K} (key : A -> K) (ltK : K -> K -> bool)
    (rest : A -> A -> bool) (x y : A) : bool :=
  if decide (key x = key y) then rest x y else ltK (key x) (key y).

(** The last comparison of a chain: [return key(l) < key(r)]. *)
Definition last_key {A K} (key : A -> K) (ltK : K -> K -> bool) (x y : A) : bool :=
  ltK (key x) (key y).

#[export] Instance last_key_weak {A K} (key : A -> K) (ltK : K -> K -> bool) :
  StrictWeak ltK -> StrictWeak (last_key key ltK).
Proof.
  intros H. unfold last_key. split.
  - intros. apply sw_irrefl.
  - intros x y z. apply sw_trans.
  - intros x y z. apply sw_incomp.
Qed.

#[export] Instance by_key_weak {A K} `{EqDecision K} (key : A -> K) ltK rest :
  StrictTotal ltK -> StrictWeak rest -> StrictWeak (by_key key ltK rest).
Proof.
  intros HK HR. unfold by_key. split.
  - intros x. rewrite decide_True by done. apply sw_irrefl.
  - intros x y z.
    destruct (decide (key x = key y)), (decide (key y = key z)),
      (decide (key x = key z)); try congruence.
    + apply sw_trans.
    + intros H2 H3. exfalso.
      replace (key z) with (key x) in H3 by congruence.
      by rewrite (sw_asym ltK _ _ H2) in H3.
    + apply sw_trans.
  - intros x y z.
    destruct (decide (key x = key y)), (decide (key y = key z)),
      (decide (key x = key z)); try congruence.
    + apply sw_incomp.
    + intros H2 H3. exfalso. replace (key z) with (key x) in H3 by congruence.
      assert (key x = key y) by by apply st_conn. done.
    + apply sw_incomp.
Qed.

(** [x] and [y] are interchangeable for a comparator. *)
Definition tied {A} (lt : A -> A -> bool) (x y : A) : Prop :=
  lt x y = false /\ lt y x = false.

Lemma tied_by_key {A K} `{EqDecision K} (key : A -> K) ltK rest x y :
  StrictTotal ltK -> tied (by_key key ltK rest) x y -> key x = key y /\ tied rest x y.
Proof.
  unfold tied, by_key. intros HK. repeat case_decide; try congruence; try done.
  intros [H1 H2]. exfalso. by assert (key x = key y) by by apply st_conn.
Qed.

Lemma tied_last_key {A K} (key : A -> K) (ltK : K -> K -> bool) x y :
  StrictTotal ltK -> tied (last_key key ltK) x y -> key x = key y.
Proof. unfold tied, last_key. intros HK [H1 H2]. by apply st_conn. Qed.

(** ** Sorting: [sort.SliceStable], and [sort.Slice] where ties do not matter *)

Fixpoint insert_by {A} (lt : A -> A -> bool) (x : A) (l : list A) : list A :=
  match l with
  | [] => [x]
  | y :: l' => if lt y x then y :: insert_by lt x l' else x :: y :: l'
  end.

Fixpoint sort_by {A} (lt : A -> A -> bool) (l : list A) : list A :=
  match l with
  | [] => []
  | x :: l' => insert_by lt x (sort_by lt l')
  end.

Section sorting.
Context {A : Type} (lt : A -> A -> bool).

Lemma insert_by_perm x l : insert_by lt x l ≡ₚ x :: l.
Proof.
  induction l as [|y l IH]; simpl; [done|]. destruct (lt y x); [|done].
  rewrite IH. apply Permutation_swap.
Qed.

Lemma sort_by_perm l : sort_by lt l ≡ₚ l.
Proof. induction l as [|x l IH]; simpl; [done|]. by rewrite insert_by_perm, IH. Qed.

Lemma elem_of_sort_by x l : x ∈ sort_by lt l <-> x ∈ l.
Proof. by rewrite sort_by_perm. Qed.

Lemma length_sort_by l : length (sort_by lt l) = length l.
Proof. by rewrite sort_by_perm. Qed.

Lemma sort_by_nil_inv l : sort_by lt l = [] -> l = [].
Proof. intros H. apply Permutation_nil. by rewrite <- H, sort_by_perm. Qed.

Context `{!StrictWeak lt}.

Definition not_after (x y : A) : Prop := lt y x = false.

#[local] Instance not_after_trans : Transitive not_after.
Proof. intros x y z H1 H2. unfold not_after in *. by eapply sw_incomp. Qed.

Lemma insert_by_sorted x l :
  StronglySorted not_after l -> StronglySorted not_after (insert_by lt x l).
Proof.
  induction 1 as [|y l Hl IH Hy]; simpl; [by repeat constructor|].
  destruct (lt y x) eqn:E.
  - constructor; [done|]. rewrite insert_by_perm. constructor; [|done].
    unfold not_after. by apply sw_asym.
  - constructor; [by constructor|]. constructor; [done|].
    eapply Forall_impl; [done|]. intros z Hz. by trans y.
Qed.

Lemma sort_by_sorted l : StronglySorted not_after (sort_by lt l).
Proof. induction l; simpl; [constructor|]. by apply insert_by_sorted. Qed.

(** The first element of a sorted list is a minimum. *)
Lemma sort_by_head l x l' :
  sort_by lt l = x :: l' -> x ∈ l /\ forall y, y ∈ l -> lt y x = false.
Proof.
  intros H. pose proof (sort_by_sorted l) as Hs. rewrite H in Hs.
  apply StronglySorted_inv in Hs as [_ Hx]. rewrite Forall_forall in Hx.
  split.
  - rewrite <- elem_of_sort_by, H. by left.
  - intros y Hy. rewrite <- elem_of_sort_by, H in Hy.
    apply elem_of_cons in Hy as [->|Hy]; [apply sw_irrefl|]. by apply Hx.
Qed.

(** Sorting does not touch a sorted list. *)
Lemma sort_by_sorted_id l : StronglySorted not_after l -> sort_by lt l = l.
Proof.
  induction 1 as [|x l Hl IH Hx]; [done|]. cbn [sort_by]. rewrite IH. destruct Hx as [|y l Hy _]; [done|].
  cbn [insert_by]. unfold not_after in Hy. by rewrite Hy.
Qed.

(** A sort whose ties are equalities does not see the order of its input:
    the iteration order of a Go map cannot show through it. *)
Lemma sort_by_unique l1 l2 :
  (forall x y, x ∈ l1 -> y ∈ l1 -> tied lt x y -> x = y) ->
  l1 ≡ₚ l2 -> sort_by lt l1 = sort_by lt l2.
Proof.
  intros Htie Hp. apply (StronglySorted_unique_strong not_after).
  - intros x y Hx Hy Hxy Hyx. rewrite elem_of_sort_by in Hx.
    rewrite elem_of_sort_by, <- Hp in Hy. apply Htie; [done..|]. done.
  - apply sort_by_sorted.
  - apply sort_by_sorted.
  - by rewrite !sort_by_perm.
Qed.
End sorting.

Lemma sorted_weaken {A} (R S : A -> A -> Prop) l : (forall x y, R x y -> S x y) -> StronglySorted R l -> StronglySorted S l.
Proof. intros HRS. induction 1; constructor; [done|]. eapply Forall_impl; [done|]. intros y. apply HRS. Qed.

(** Sorted by a key: the keys are sorted. *)
Lemma sorted_by_key {A K} (key : A -> K) (ltK : K -> K -> bool) l :
  StronglySorted (not_after ltK) (key <$> l) -> StronglySorted (not_after (last_key key ltK)) l.
Proof.
  induction l as [|x l IH]; intros H; [constructor|]. rewrite fmap_cons in H. apply StronglySorted_inv in H as [H Hx].
  constructor; [by apply IH|]. by apply (Forall_fmap key) in Hx.
Qed.

Lemma sorted_key {A K} (key : A -> K) (ltK : K -> K -> bool) l :
  StronglySorted (not_after (last_key key ltK)) l -> StronglySorted (not_after ltK) (key <$> l).
Proof. induction 1 as [|x l Hl IH Hx]; [constructor|]. rewrite fmap_cons. constructor; [done|]. by apply Forall_fmap. Qed.

(** Without repetitions a sorted list is strictly sorted. *)
Lemma sorted_strictly {A} (lt : A -> A -> bool) `{!StrictTotal lt} l :
  NoDup l -> StronglySorted (not_after lt) l -> StronglySorted (fun x y => lt x y = true) l.
Proof.
  induction l as [|x l IH]; intros Hnd Hs; [constructor|].
  apply NoDup_cons in Hnd as [Hx Hnd]. apply StronglySorted_inv in Hs as [Hs Hall].
  constructor; [by apply IH|]. rewrite Forall_forall in Hall |- *. intros y Hy. specialize (Hall y Hy).
  unfold not_after in Hall. destruct (lt x y) eqn:E; [done|]. by assert (x = y) as -> by by apply st_conn.
Qed.

Lemma sort_by_total_unique {A} (lt : A -> A -> bool) `{!StrictTotal lt} l1 l2 :
  l1 ≡ₚ l2 -> sort_by lt l1 = sort_by lt l2.
Proof. intros Hp. apply sort_by_unique; [apply _| |done]. intros x y _ _ []. by apply st_conn. Qed.

(** ** Loops over slices that fill a map *)

(** [if _, ok := m[key]; !ok { m[key] = val }]: the first value wins. *)
Definition put_new {K V X} `{Countable K} (key : X -> K) (val : X -> V)
    (m : gmap K V) (x : X) : gmap K V :=
  match m !! key x with
  | Some _ => m
  | None => <[key x := val x]> m
  end.

Section put_new.
Context {K V X : Type} `{Countable K} (key : X -> K) (val : X -> V).

Lemma lookup_put_new (m : gmap K V) x k :
  put_new key val m x !! k =
    match m !! k with
    | Some v => Some v
    | None => if decide (key x = k) then Some (val x) else None
    end.
Proof.
  unfold put_new. destruct (m !! key x) eqn:E.
  - destruct (m !! k) eqn:Ek; [done|]. case_decide; [congruence|done].
  - rewrite lookup_insert. case_decide as Hk.
    + subst. by rewrite E.
    + by destruct (m !! k).
Qed.

(** What a run of the loop leaves under a key: the value that was there, or
    the value of the first element with that key. *)
Lemma lookup_put_new_all (l : list X) (m : gmap K V) k :
  foldl (put_new key val) m l !! k =
    match m !! k with
    | Some v => Some v
    | None => val <$> head (filter (fun x => key x = k) l)
    end.
Proof.
  revert m. induction l as [|x l IH]; intros m; simpl; [by destruct (m !! k)|].
  rewrite IH, lookup_put_new, filter_cons. destruct (m !! k); [done|].
  by case_decide.
Qed.

Lemma put_new_all_sound (l : list X) k v :
  foldl (put_new key val) ∅ l !! k = Some v -> exists x, x ∈ l /\ key x = k /\ val x = v.
Proof.
  rewrite lookup_put_new_all, lookup_empty. intros (x & Hx & ->)%fmap_Some.
  apply head_Some_elem_of in Hx. apply list_elem_of_filter in Hx. naive_solver.
Qed.

Lemma put_new_all_complete (l : list X) x :
  x ∈ l -> is_Some (foldl (put_new key val) ∅ l !! key x).
Proof.
  intros Hx. rewrite lookup_put_new_all, lookup_empty, fmap_is_Some.
  assert (x ∈ filter (fun y => key y = key x) l) as Hf by by apply list_elem_of_filter.
  destruct (filter _ l); [by apply elem_of_nil in Hf|]. by eexists.
Qed.
End put_new.

(** [m[key] = val] for every element: the last value wins. *)
Definition put_all {K V X} `{Countable K} (key : X -> K) (val : X -> V)
    (m : gmap K V) (l : list X) : gmap K V :=
  foldl (fun m x => <[key x := val x]> m) m l.

Lemma put_all_cons {K V X} `{Countable K} (key : X -> K) (val : X -> V) m x l :
  put_all key val m (x :: l) = put_all key val (<[key x := val x]> m) l.
Proof. done. Qed.

Lemma put_all_None {K V X} `{Countable K} (key : X -> K) (val : X -> V) m l k :
  k ∉ key <$> l -> put_all key val m l !! k = m !! k.
Proof.
  revert m. induction l as [|y l IH]; intros m Hk; [done|].
  rewrite fmap_cons, not_elem_of_cons in Hk. rewrite put_all_cons, IH by naive_solver.
  apply lookup_insert_ne. naive_solver.
Qed.

Lemma put_all_mono {K V X} `{Countable K} (key : X -> K) (val : X -> V) l m k :
  is_Some (m !! k) -> is_Some (put_all key val m l !! k).
Proof.
  revert m. induction l as [|x l IH]; intros m Hm; [done|]. rewrite put_all_cons. apply IH.
  rewrite lookup_insert. case_decide; eauto.
Qed.

Lemma put_all_in {K V X} `{Countable K} (key : X -> K) (val : X -> V) l m x :
  x ∈ l -> is_Some (put_all key val m l !! key x).
Proof.
  revert m. induction l as [|y l IH]; intros m Hx; [by apply elem_of_nil in Hx|]. rewrite put_all_cons.
  apply elem_of_cons in Hx as [->|Hx]; [|by apply IH]. apply put_all_mono. rewrite lookup_insert_eq. eauto.
Qed.

Lemma put_all_from {K V X} `{Countable K} (key : X -> K) (val : X -> V) l m k v :
  put_all key val m l !! k = Some v -> m !! k = Some v \/ exists x, x ∈ l /\ key x = k /\ val x = v.
Proof.
  revert m. induction l as [|x l IH]; intros m H'; [by left|]. rewrite put_all_cons in H'.
  destruct (IH _ H') as [Hm|(y & Hy & Hk)]; [|right; exists y; split; [by right|done]].
  apply lookup_insert_Some in Hm as [[<- <-]|[_ Hm]]; [right; exists x; split; [by left|done]|by left].
Qed.

Lemma put_all_NoDup {K V X} `{Countable K} (key : X -> K) (val : X -> V) m l x :
  NoDup (key <$> l) -> x ∈ l -> put_all key val m l !! key x = Some (val x).
Proof.
  revert m. induction l as [|y l IH]; intros m Hnd Hx; [by apply elem_of_nil in Hx|].
  rewrite fmap_cons in Hnd. apply NoDup_cons in Hnd as [Hy Hnd]. rewrite put_all_cons.
  apply elem_of_cons in Hx as [->|Hx]; [|by apply IH].
  rewrite put_all_None by done. apply lookup_insert_eq.
Qed.

Lemma NoDup_fmap_elem {A B} (f : A -> B) l x y :
  NoDup (f <$> l) -> x ∈ l -> y ∈ l -> f x = f y -> x = y.
Proof.
  intros Hnd [i Hi]%list_elem_of_lookup [j Hj]%list_elem_of_lookup Hf.
  assert (i = j) as ->; [|congruence].
  eapply (NoDup_lookup (f <$> l)); [done|by rewrite list_lookup_fmap, Hi|].
  by rewrite list_lookup_fmap, Hj, Hf.
Qed.

Lemma size_list_to_set_le {A} `{Countable A} (l : list A) : (size (list_to_set l : gset A) <= length l)%nat.
Proof.
  induction l as [|x l IH]; cbn [list_to_set length]; [by rewrite size_empty|].
  rewrite size_union_alt, size_singleton.
  assert (size (list_to_set l ∖ {[x]} : gset A) <= size (list_to_set l : gset A))%nat by (apply subseteq_size; set_solver). lia.
Qed.

(** What a partial map makes of each key keeps the keys apart. *)
Lemma NoDup_omap_key {K A} (f : K -> option A) (key : A -> K) (l : list K) :
  (forall k a, f k = Some a -> key a = k) -> NoDup l -> NoDup (key <$> omap f l).
Proof.
  intros Hk. induction 1 as [|k l Hni Hn IH]; [apply NoDup_nil_2|]. cbn. destruct (f k) as [a|] eqn:E; [|done].
  cbn. apply NoDup_cons. split; [|done]. rewrite (Hk _ _ E). intros (b & -> & (k' & Hin & Ek)%list_elem_of_omap)%list_elem_of_fmap.
  by rewrite (Hk _ _ Ek) in Hni.
Qed.

Lemma filter_sublist {A} (f : A -> bool) l : sublist (List.filter f l) l.
Proof. induction l as [|x l IH]; simpl; [constructor|]. by destruct (f x); constructor. Qed.
