(* ===== verification/GoStd.v ===== *)
(** * The parts of Go's standard library the modelled code calls

    Bytes are [list Byte.byte]; a Go string is a [string] of 8-bit characters.
    Case folding and space trimming cover the ASCII range: the modelled code
    applies them to identifiers, URLs and pairing codes.  [path] functions work
    on slash-separated paths (Unix). *)

From S2P Require Import Prelude.
From Stdlib Require Import Ascii.
From Stdlib Require Strings.Byte.
From stdpp Require Export pretty.

Abbreviation byte := Byte.byte.
Abbreviation bytes := (list Byte.byte).

#[export] Instance byte_eq_dec : EqDecision byte := Byte.byte_eq_dec.
#[export] Program Instance byte_countable : Countable byte := {|
  encode b := encode (Byte.to_N b);
  decode p := n ← decode p; Byte.of_N n
|}.
Next Obligation. intros b. cbv beta. rewrite decode_encode. apply Byte.of_to_N. Qed.

(** ** strconv.Itoa, hex.EncodeToString *)

Definition itoa (z : Z) : string := pretty z.

Lemma itoa_inj x y : itoa x = itoa y -> x = y.
Proof. apply pretty_Z_inj. Qed.

Definition hex_digit (n : N) : ascii :=
  ascii_of_N (if (n <? 10)%N then 48 + n else 87 + n)%N.

Definition hex_byte (b : byte) : string :=
  let n := Byte.to_N b in
  String (hex_digit (n / 16)) (String (hex_digit (n mod 16)) EmptyString).

Fixpoint hex_encode (bs : bytes) : string :=
  match bs with
  | [] => EmptyString
  | b :: bs' => hex_byte b +:+ hex_encode bs'
  end.

Lemma hex_digit_inj m n : (m < 16)%N -> (n < 16)%N -> hex_digit m = hex_digit n -> m = n.
Proof.
  unfold hex_digit. intros Hm Hn H. apply (f_equal N_of_ascii) in H.
  destruct (N.ltb_spec m 10), (N.ltb_spec n 10);
    rewrite !N_ascii_embedding in H by lia; lia.
Qed.

Lemma hex_encode_inj l1 l2 : hex_encode l1 = hex_encode l2 -> l1 = l2.
Proof.
  revert l2. induction l1 as [|a l1 IH]; intros [|b l2]; simpl; try done.
  unfold hex_byte, String.app. simpl. intros [= H1 H2 H3]. f_equal; [|by apply IH].
  pose proof (Byte.to_N_bounded a). pose proof (Byte.to_N_bounded b).
  apply hex_digit_inj in H1; [|apply N.Div0.div_lt_upper_bound; lia..].
  apply hex_digit_inj in H2; [|apply N.mod_lt; lia..].
  assert (Byte.to_N a = Byte.to_N b) as Hab.
  { rewrite (N.div_mod (Byte.to_N a) 16), (N.div_mod (Byte.to_N b) 16) by done. lia. }
  apply (f_equal Byte.of_N) in Hab. rewrite !Byte.of_to_N in Hab. congruence.
Qed.

Lemma hex_encode_length bs : String.length (hex_encode bs) = 2 * length bs.
Proof. induction bs as [|b bs IH]; simpl; [done|]. unfold String.app. simpl. lia. Qed.

(** ** strings *)

Definition str_len (s : string) : Z := Z.of_nat (String.length s).

Fixpoint has_prefix (s p : string) : bool :=
  match p, s with
  | EmptyString, _ => true
  | String c p', String d s' => bool_decide (c = d) && has_prefix s' p'
  | String _ _, EmptyString => false
  end.

Fixpoint drop_str (n : nat) (s : string) : string :=
  match n, s with
  | O, _ => s
  | S n', String _ s' => drop_str n' s'
  | S _, EmptyString => EmptyString
  end.

Fixpoint take_str (n : nat) (s : string) : string :=
  match n, s with
  | O, _ => EmptyString
  | S n', String c s' => String c (take_str n' s')
  | S _, EmptyString => EmptyString
  end.

Definition has_suffix (s p : string) : bool :=
  (String.length p <=? String.length s)%nat &&
  bool_decide (drop_str (String.length s - String.length p) s = p).

Definition trim_suffix (s p : string) : string :=
  if has_suffix s p then take_str (String.length s - String.length p) s else s.

Fixpoint contains (s p : string) : bool :=
  has_prefix s p ||
  match s with EmptyString => false | String _ s' => contains s' p end.

Fixpoint contains_char (s : string) (c : ascii) : bool :=
  match s with
  | EmptyString => false
  | String d s' => bool_decide (c = d) || contains_char s' c
  end.

Definition lower_char (c : ascii) : ascii :=
  let n := N_of_ascii c in
  if (65 <=? n)%N && (n <=? 90)%N then ascii_of_N (n + 32) else c.

Definition upper_char (c : ascii) : ascii :=
  let n := N_of_ascii c in
  if (97 <=? n)%N && (n <=? 122)%N then ascii_of_N (n - 32) else c.

Fixpoint map_str (f : ascii -> ascii) (s : string) : string :=
  match s with EmptyString => EmptyString | String c s' => String (f c) (map_str f s') end.

Definition to_lower : string -> string := map_str lower_char.
Definition to_upper : string -> string := map_str upper_char.

Definition equal_fold (s t : string) : bool := bool_decide (to_lower s = to_lower t).

Fixpoint filter_str (f : ascii -> bool) (s : string) : string :=
  match s with
  | EmptyString => EmptyString
  | String c s' => if f c then String c (filter_str f s') else filter_str f s'
  end.

Fixpoint forallb_str (f : ascii -> bool) (s : string) : bool :=
  match s with EmptyString => true | String c s' => f c && forallb_str f s' end.

Definition is_space (c : ascii) : bool :=
  bool_decide (N_of_ascii c ∈ [9; 10; 11; 12; 13; 32]%N).

Fixpoint trim_left (s : string) : string :=
  match s with
  | EmptyString => EmptyString
  | String c s' => if is_space c then trim_left s' else s
  end.

Fixpoint trim_right (s : string) : string :=
  match s with
  | EmptyString => EmptyString
  | String c s' =>
      match trim_right s' with
      | EmptyString => if is_space c then EmptyString else String c EmptyString
      | t => String c t
      end
  end.

Definition trim_space (s : string) : string := trim_right (trim_left s).

(** [strings.Trim(s, "[]")] *)
Definition trim_brackets (s : string) : string :=
  let bracket c := bool_decide (c = "["%char \/ c = "]"%char) in
  (fix left s := match s with String c s' => if bracket c then left s' else s | EmptyString => EmptyString end)
    ((fix right s := match s with
       | EmptyString => EmptyString
       | String c s' => match right s' with EmptyString => if bracket c then EmptyString else String c EmptyString | t => String c t end
       end) s).

(** [strings.Split(s, c)] for a one-character separator. *)
Fixpoint split_on (sep : ascii) (s : string) : list string :=
  match s with
  | EmptyString => [EmptyString]
  | String c s' =>
      if bool_decide (c = sep) then EmptyString :: split_on sep s'
      else match split_on sep s' with
           | [] => [String c EmptyString]
           | w :: ws => String c w :: ws
           end
  end.

Fixpoint join (sep : string) (l : list string) : string :=
  match l with
  | [] => EmptyString
  | [s] => s
  | s :: l' => s +:+ sep +:+ join sep l'
  end.

(** ** path: Clean, Ext, Base *)

Definition slash : ascii := "/"%char.

(** One path element against the stack of elements kept so far (innermost
    first): empty and [.] elements vanish, [..] pops a real element, a rooted
    path drops a leading [..] and an unrooted one keeps it. *)
Definition clean_step (rooted : bool) (stack : list string) (elem : string) : list string :=
  if bool_decide (elem = EmptyString) || bool_decide (elem = ".") then stack
  else if bool_decide (elem = "..") then
    match stack with
    | [] => if rooted then [] else [".."]
    | e :: stack' => if bool_decide (e = "..") then ".." :: stack else stack'
    end
  else elem :: stack.

Definition clean_elems (p : string) : list string :=
  rev (foldl (clean_step (has_prefix p "/")) [] (split_on slash p)).

Definition path_clean (p : string) : string :=
  let elems := clean_elems p in
  if has_prefix p "/" then "/" +:+ join "/" elems
  else match elems with [] => "." | _ => join "/" elems end.

(** [path.Ext]: the suffix from the last dot of the last element, or nothing. *)
Fixpoint ext_aux (cur s : string) : string :=
  match s with
  | EmptyString => cur
  | String c s' =>
      if bool_decide (c = slash) then ext_aux EmptyString s'
      else if bool_decide (c = "."%char) then ext_aux s s'
      else ext_aux cur s'
  end.

Definition path_ext (p : string) : string := ext_aux EmptyString p.

(** [path.Base] of a non-empty path without trailing slashes. *)
Definition path_base (p : string) : string :=
  match last (split_on slash p) with Some e => e | None => EmptyString end.

(** ** Facts about keys built with a separator *)

Lemma contains_char_app s t c :
  contains_char (s +:+ t) c = contains_char s c || contains_char t c.
Proof.
  unfold String.app. induction s as [|d s IH]; simpl; [done|]. rewrite IH. by rewrite orb_assoc.
Qed.

Lemma str_app_assoc a b c : (a +:+ b) +:+ c = a +:+ (b +:+ c).
Proof. unfold String.app. induction a as [|x a IH]; simpl; [done|]. by rewrite IH. Qed.

(** Lengths, cancellation and splits of concatenated strings. *)
Lemma length_app_str a b : String.length (a +:+ b) = (String.length a + String.length b)%nat.
Proof. unfold String.app. induction a as [|c a IH]; simpl; [done|]. by rewrite IH. Qed.

Lemma app_cons_str c a b : String c a +:+ b = String c (a +:+ b).
Proof. done. Qed.

Lemma app_nil_str b : EmptyString +:+ b = b.
Proof. done. Qed.

Lemma app_eq_nil_str a b : a +:+ b = EmptyString -> a = EmptyString /\ b = EmptyString.
Proof. by destruct a. Qed.

Lemma app_cancel_str a b b' : a +:+ b = a +:+ b' -> b = b'.
Proof. unfold String.app. induction a as [|c a IH]; simpl; [done|]. intros [= H]. by apply IH. Qed.

Lemma forallb_str_app f a b : forallb_str f (a +:+ b) = forallb_str f a && forallb_str f b.
Proof. unfold String.app. induction a as [|c a IH]; simpl; [done|]. by rewrite IH, andb_assoc. Qed.

(** Where two splits of one text meet. *)
Lemma app_split_str a b a' b' : a +:+ b = a' +:+ b' -> (String.length a <= String.length a')%nat ->
  exists m, a' = a +:+ m /\ b = m +:+ b'.
Proof.
  unfold String.app. revert a'. induction a as [|c a IH]; intros a' H Hl; [by exists a'|].
  destruct a' as [|c' a']; simpl in *; [lia|]. injection H as -> H. destruct (IH a' H) as (m & -> & ->); [lia|]. by exists m.
Qed.

Lemma str_app_nil_r a : a +:+ EmptyString = a.
Proof. unfold String.app. induction a as [|x a IH]; simpl; [done|]. by rewrite IH. Qed.

Lemma sep_inj c a b a' b' :
  contains_char a c = false -> contains_char a' c = false ->
  a +:+ String c b = a' +:+ String c b' -> a = a' /\ b = b'.
Proof.
  unfold String.app. revert a'. induction a as [|d a IH]; intros [|d' a']; simpl.
  - naive_solver.
  - rewrite orb_false_iff, bool_decide_eq_false. naive_solver.
  - rewrite orb_false_iff, bool_decide_eq_false. naive_solver.
  - rewrite !orb_false_iff. intros [_ H1] [_ H2] [= -> H]. apply IH in H; naive_solver.
Qed.

(** Decimal numerals hold digits and a sign only. *)
Definition numeral_char (c : ascii) : bool := bool_decide (c ∈ [
  "0"; "1"; "2"; "3"; "4"; "5"; "6"; "7"; "8"; "9"; "-"]%char).

Lemma pretty_N_char_numeral n : numeral_char (pretty_N_char n) = true.
Proof. unfold pretty_N_char. by repeat case_match. Qed.

Lemma contains_char_forallb f s c :
  forallb_str f s = true -> f c = false -> contains_char s c = false.
Proof.
  intros Hs Hc. induction s as [|d s IH]; simpl in *; [done|].
  apply andb_true_iff in Hs as [Hd Hs]. rewrite (IH Hs), orb_false_r.
  apply bool_decide_eq_false. congruence.
Qed.

Lemma pretty_N_go_numeral x s :
  forallb_str numeral_char s = true -> forallb_str numeral_char (pretty_N_go x s) = true.
Proof.
  revert s. induction (N.lt_wf_0 x) as [x _ IH]; intros s Hs.
  assert (x = 0 \/ 0 < x)%N as [->|Hx] by lia; [by rewrite pretty_N_go_0|].
  rewrite pretty_N_go_step by done. apply IH; [by apply N.div_lt|].
  simpl. by rewrite pretty_N_char_numeral.
Qed.

Lemma itoa_numeral z : forallb_str numeral_char (itoa z) = true.
Proof.
  assert (forall n : N, forallb_str numeral_char (pretty n) = true) as Hn.
  { intros n. unfold pretty, pretty_N. case_decide; [done|]. by apply pretty_N_go_numeral. }
  destruct z as [|p|p]; [done|apply Hn|]. unfold itoa, pretty, pretty_Z, String.app. simpl.
  apply Hn.
Qed.

Lemma itoa_no_char z c : numeral_char c = false -> contains_char (itoa z) c = false.
Proof. apply contains_char_forallb, itoa_numeral. Qed.

(** ** Runes: unicode/utf8 *)

Abbreviation rune := N.

Definition RuneError : rune := 65533%N.

Definition in_range (lo hi x : N) : bool := (lo <=? x)%N && (x <=? hi)%N.

(** The range of the second byte and the number of bytes that follow, by the
    first byte. *)
Definition rune_shape (b : N) : option (N * N * nat) :=
  if in_range 194 223 b then Some (128, 191, 1%nat)%N
  else if (b =? 224)%N then Some (160, 191, 2%nat)%N
  else if (b =? 237)%N then Some (128, 159, 2%nat)%N
  else if in_range 225 239 b then Some (128, 191, 2%nat)%N
  else if (b =? 240)%N then Some (144, 191, 3%nat)%N
  else if in_range 241 243 b then Some (128, 191, 3%nat)%N
  else if (b =? 244)%N then Some (128, 143, 3%nat)%N
  else None.

Definition cont_byte (c : ascii) : option N :=
  let b := N_of_ascii c in if in_range 128 191 b then Some (b - 128)%N else None.

(** [utf8.DecodeRuneInString]: the rune and its width; a byte that begins no
    valid encoding counts as [RuneError] of width one. *)
Definition decode_rune (s : string) : rune * nat :=
  match s with
  | EmptyString => (RuneError, 0%nat)
  | String c s' =>
      let b := N_of_ascii c in
      if (b <? 128)%N then (b, 1%nat)
      else match rune_shape b, s' with
           | Some (lo, hi, more), String c1 s1 =>
               let b1 := N_of_ascii c1 in
               if negb (in_range lo hi b1) then (RuneError, 1%nat)
               else match more, s1 with
                    | 1%nat, _ => ((b - 192) * 64 + (b1 - 128), 2%nat)%N
                    | 2%nat, String c2 _ =>
                        match cont_byte c2 with
                        | Some x2 => ((b - 224) * 4096 + (b1 - 128) * 64 + x2, 3%nat)%N
                        | None => (RuneError, 1%nat)
                        end
                    | 3%nat, String c2 (String c3 _) =>
                        match cont_byte c2, cont_byte c3 with
                        | Some x2, Some x3 => ((b - 240) * 262144 + (b1 - 128) * 4096 + x2 * 64 + x3, 4%nat)%N
                        | _, _ => (RuneError, 1%nat)
                        end
                    | _, _ => (RuneError, 1%nat)
                    end
           | _, _ => (RuneError, 1%nat)
           end
  end.

(** [for _, r := range s] with a byte written per rune: [f] sees the first byte of
    the rune's encoding, the others ([skip] of them) are passed over. *)
Fixpoint map_runes (f : ascii -> ascii) (skip : nat) (s : string) : string :=
  match s with
  | EmptyString => EmptyString
  | String c s' =>
      match skip with
      | S skip' => map_runes f skip' s'
      | O => String (f c) (map_runes f (pred (decode_rune s).2) s')
      end
  end.
