(* ===== verification/Block.v ===== *)
(** * Block manifests and local assembly

    Models [internal/block/manifest.go] (manifests, delta plans) and
    [internal/apply/assembler.go] (staging a target file from local blocks,
    verifying it, replacing the target atomically).

    The file system is a map from paths to regular files.  [sha256] is an
    argument: no property below needs anything of it.  Every system call of the
    assembler may fail, as the argument [faults] decides, so that the error
    paths are those of the code.  A file does not change while it is read. *)

From S2P Require Import Prelude GoStd.

Local Open Scope Z_scope.

(** ** Data: manifest.go *)

Record Block := mkBlock {
  Block_Index : Z;
  Block_Offset : Z;
  Block_Size : Z;
  Block_Hash : bytes
}.

Record Manifest := mkManifest {
  Manifest_Path : string;
  Manifest_Size : Z;
  Manifest_BlockSize : Z;
  Manifest_Blocks : list Block;
  Manifest_HashState : string;
  Manifest_Damaged : bool;
  Manifest_ModTimeUnixNano : Z;
  Manifest_ChangeTimeUnixNano : Z;
  Manifest_SeedBaselineModTimeUnixNano : Z;
  Manifest_SeedBaselineChangeTimeUnixNano : Z
}.

Definition Manifest_zero : Manifest :=
  mkManifest EmptyString 0 0 [] EmptyString false 0 0 0 0.

Record Reuse := mkReuse {
  Reuse_TargetIndex : Z;
  Reuse_SourcePath : string;
  Reuse_SourceIndex : Z
}.

Record DeltaPlan := mkDeltaPlan {
  DeltaPlan_Needed : list Block;
  DeltaPlan_Reused : list Reuse
}.

#[export] Instance Block_eq_dec : EqDecision Block.
Proof. solve_decision. Defined.
#[export] Instance Manifest_eq_dec : EqDecision Manifest.
Proof. solve_decision. Defined.
#[export] Instance Reuse_eq_dec : EqDecision Reuse.
Proof. solve_decision. Defined.

(** ** Files *)

Record File := mkFile { File_data : bytes; File_mtime : Z }.

Definition file_size (f : File) : Z := Z.of_nat (length (File_data f)).

(** [n] bytes from offset [off], fewer at the end of the file. *)
Definition slice (data : bytes) (off n : Z) : bytes :=
  take (Z.to_nat n) (drop (Z.to_nat off) data).

Inductive BlockErr :=
| ErrBlockSize
| ErrOpen (path : string).

Section manifest.
Context (sha256 : bytes -> bytes).

(** The read loop of BuildManifest: [io.ReadFull] returns [EOF] on nothing
    read, a short count on the last partial block. *)
Fixpoint readBlocks (fuel : nat) (index blockSize : Z) (rest : bytes) : list Block :=
  match fuel with
  | O => []
  | S fuel' =>
      let buf := take (Z.to_nat blockSize) rest in
      let n := Z.of_nat (length buf) in
      if n =? 0 then []
      else mkBlock index (i64 (index * blockSize)) n (sha256 buf) ::
           (if n <? blockSize then []
            else readBlocks fuel' (index + 1) blockSize (drop (Z.to_nat blockSize) rest))
  end.

Definition BuildManifest (fs : gmap string File) (path : string) (blockSize : Z)
    : result BlockErr Manifest :=
  if blockSize <=? 0 then Err ErrBlockSize
  else match fs !! path with
       | None => Err (ErrOpen path)
       | Some f =>
           Ok (mkManifest path (file_size f) blockSize
                 (readBlocks (S (length (File_data f))) 0 blockSize (File_data f))
                 "complete" false (File_mtime f) 0 0 0)
       end.
End manifest.

(** [baseByIndex]: a later block with the same index replaces an earlier one. *)
Definition blocksByIndex (blocks : list Block) : gmap Z Block :=
  put_all Block_Index id ∅ blocks.

(** The pairs a nested range over manifests and their blocks visits. *)
Definition allBlocks (sources : list Manifest) : list (string * Block) :=
  source ← sources; (fun b => (Manifest_Path source, b)) <$> Manifest_Blocks source.

Definition PlanDelta (base target : Manifest) : DeltaPlan :=
  let baseByIndex := blocksByIndex (Manifest_Blocks base) in
  mkDeltaPlan
    (List.filter (fun want =>
       match baseByIndex !! Block_Index want with
       | None => true
       | Some have => bool_decide (Block_Size have <> Block_Size want)
                      || bool_decide (Block_Hash have <> Block_Hash want)
       end) (Manifest_Blocks target))
    [].

(** [string(block.Hash)]: the key is the byte sequence itself. *)
Definition blockKey (b : Block) : bytes := Block_Hash b.

Definition availableBlocks (sources : list Manifest) : gmap bytes Reuse :=
  foldl (put_new (fun pb => blockKey pb.2) (fun pb => mkReuse 0 pb.1 (Block_Index pb.2)))
    ∅ (allBlocks sources).

Definition contentStep (available : gmap bytes Reuse) (plan : DeltaPlan) (want : Block)
    : DeltaPlan :=
  match available !! blockKey want with
  | Some reuse =>
      mkDeltaPlan (DeltaPlan_Needed plan)
        (DeltaPlan_Reused plan ++
         [mkReuse (Block_Index want) (Reuse_SourcePath reuse) (Reuse_SourceIndex reuse)])
  | None => mkDeltaPlan (DeltaPlan_Needed plan ++ [want]) (DeltaPlan_Reused plan)
  end.

Definition PlanContentDelta (sources : list Manifest) (target : Manifest) : DeltaPlan :=
  foldl (contentStep (availableBlocks sources)) (mkDeltaPlan [] []) (Manifest_Blocks target).

(** ** Assembly: assembler.go *)

Module Apply.

Record blockSource := mkSource { source_path : string; source_block : Block }.

Inductive syscall :=
| SysMkdirAll | SysCreateTemp | SysOpen (want : Block) | SysCopy (want : Block)
| SysSync | SysClose | SysVerify | SysRename | SysRemove.

Inductive AssembleErr :=
| ErrIO (c : syscall)
| ErrMissingBlock (index : Z) (path : string)
| ErrSourceOpen (path : string)
| ErrSeek (off : Z)
| ErrShortSource (path : string)
| ErrManifest (e : BlockErr)
| ErrShape
| ErrVerify (i : nat)
| ErrBeforeRename (msg : string).

Definition blockKey (b : Block) : string :=
  itoa (Block_Size b) +:+ ":" +:+ hex_encode (Block_Hash b).

Definition indexSources (sources : list Manifest) : gmap string blockSource :=
  foldl (put_new (fun pb => blockKey pb.2) (fun pb => mkSource pb.1 pb.2)) ∅ (allBlocks sources).

(** A write at [off], filling a gap with zero bytes as a sparse file does. *)
Definition write_at (dst : bytes) (off : Z) (data : bytes) : bytes :=
  let o := Z.to_nat off in
  take o dst ++ replicate (o - length dst) Byte.x00 ++ data ++ drop (o + length data) dst.

Section assemble.
Context (sha256 : bytes -> bytes) (faults : syscall -> bool).

Definition sys (c : syscall) : result AssembleErr unit := fail_if (faults c) (ErrIO c).

(** The destination as it is left, and the error: [io.CopyN] writes what a
    short source holds before it reports the end of file. *)
Definition copyBlock (fs : gmap string File) (dst : bytes) (source : blockSource) (want : Block)
    : bytes * result AssembleErr unit :=
  if faults (SysOpen want) then (dst, Err (ErrIO (SysOpen want)))
  else match fs !! source_path source with
  | None => (dst, Err (ErrSourceOpen (source_path source)))
  | Some f =>
      let off := Block_Offset (source_block source) in
      if off <? 0 then (dst, Err (ErrSeek off))
      else if Block_Offset want <? 0 then (dst, Err (ErrSeek (Block_Offset want)))
      else if faults (SysCopy want) then (dst, Err (ErrIO (SysCopy want)))
      else
        let data := slice (File_data f) off (Block_Size want) in
        (match data with [] => dst | _ => write_at dst (Block_Offset want) data end,
         fail_if (Z.of_nat (length data) <? Block_Size want) (ErrShortSource (source_path source)))
  end.

Fixpoint copyBlocks (fs : gmap string File) (index : gmap string blockSource) (targetPath : string)
    (dst : bytes) (wants : list Block) : bytes * result AssembleErr unit :=
  match wants with
  | [] => (dst, Ok tt)
  | want :: wants' =>
      match index !! blockKey want with
      | None => (dst, Err (ErrMissingBlock (Block_Index want) targetPath))
      | Some source =>
          match copyBlock fs dst source want with
          | (dst', Ok _) => copyBlocks fs index targetPath dst' wants'
          | failed => failed
          end
      end
  end.

(** The comparison loop of verifyManifest, from index [i]. *)
Fixpoint verifyBlocks (i : nat) (got want : list Block) : result AssembleErr unit :=
  match want, got with
  | w :: want', g :: got' =>
      if bool_decide (Block_Size g <> Block_Size w) || bool_decide (Block_Hash g <> Block_Hash w)
      then Err (ErrVerify i) else verifyBlocks (S i) got' want'
  | _, _ => Ok tt
  end.

Definition verifyManifest (fs : gmap string File) (path : string) (want : Manifest)
    : result AssembleErr unit :=
  _ ← sys SysVerify;
  match BuildManifest sha256 fs path (Manifest_BlockSize want) with
  | Err e => Err (ErrManifest e)
  | Ok got =>
      if bool_decide (Manifest_Size got <> Manifest_Size want)
         || bool_decide (length (Manifest_Blocks got) <> length (Manifest_Blocks want))
      then Err ErrShape
      else verifyBlocks 0 (Manifest_Blocks got) (Manifest_Blocks want)
  end.

(** The deferred removal of the staging file. *)
Definition cleanup (tmpName : string) (fs : gmap string File) : gmap string File :=
  if faults SysRemove then fs else delete tmpName fs.

(** [fs] with the staging file [tmpName] holding [data]. *)
Definition staged (tmpName : string) (data : bytes) (now : Z) (fs : gmap string File) :=
  <[tmpName := mkFile data now]> fs.

(** Everything between CreateTemp and the final rename: the file system as
    it is left, and the outcome.  [beforeRename] may change files, or fail. *)
Definition stageAndVerify (fs : gmap string File) (tmpName : string) (now : Z)
    (target : Manifest) (sources : list Manifest)
    (beforeRename : option (gmap string File -> gmap string File * option string))
    : gmap string File * result AssembleErr unit :=
  let '(data, copied) :=
    copyBlocks fs (indexSources sources) (Manifest_Path target) [] (Manifest_Blocks target) in
  let fs1 := staged tmpName data now fs in
  match (_ ← copied; _ ← sys SysSync; _ ← sys SysClose; verifyManifest fs1 tmpName target) with
  | Err e => (fs1, Err e)
  | Ok _ =>
      match beforeRename with
      | None => (fs1, Ok tt)
      | Some f => let '(fs2, err) := f fs1 in
                  (fs2, match err with Some e => Err (ErrBeforeRename e) | None => Ok tt end)
      end
  end.

Definition AssembleFromLocalBlocksBeforeRename (fs : gmap string File)
    (targetPath tmpName : string) (now : Z) (target : Manifest) (sources : list Manifest)
    (beforeRename : option (gmap string File -> gmap string File * option string))
    : gmap string File * result AssembleErr unit :=
  if faults SysMkdirAll then (fs, Err (ErrIO SysMkdirAll))
  else if faults SysCreateTemp then (fs, Err (ErrIO SysCreateTemp))
  else match stageAndVerify fs tmpName now target sources beforeRename with
       | (fs', Err e) => (cleanup tmpName fs', Err e)
       | (fs', Ok _) =>
           if faults SysRename then (cleanup tmpName fs', Err (ErrIO SysRename))
           else match fs' !! tmpName with
                | None => (cleanup tmpName fs', Err (ErrIO SysRename))
                | Some f => (<[targetPath := f]> (delete tmpName fs'), Ok tt)
                end
       end.

Definition AssembleFromLocalBlocks (fs : gmap string File) (targetPath tmpName : string)
    (now : Z) (target : Manifest) (sources : list Manifest)
    : gmap string File * result AssembleErr unit :=
  AssembleFromLocalBlocksBeforeRename fs targetPath tmpName now target sources None.
End assemble.

End Apply.

(** ** Properties *)

(** The block list of a file in closed form: block [k] covers bytes
    [k * bs .. min((k+1) * bs, size)). *)
Definition blockCount (size bs : Z) : Z := (size + bs - 1) / bs.

Definition tile (sha256 : bytes -> bytes) (data : bytes) (bs k : Z) : Block :=
  mkBlock k (k * bs) (Z.min bs (Z.of_nat (length data) - k * bs))
    (sha256 (slice data (k * bs) bs)).

Definition tiles (sha256 : bytes -> bytes) (data : bytes) (bs : Z) : list Block :=
  tile sha256 data bs <$> seqZ 0 (blockCount (Z.of_nat (length data)) bs).

(** The bytes a block list covers. *)
Definition covered (data : bytes) (blocks : list Block) : bytes :=
  mjoin ((fun b => slice data (Block_Offset b) (Block_Size b)) <$> blocks).

Section tiling.
Context (sha256 : bytes -> bytes) (data : bytes) (bs : Z).
Hypothesis bs_pos : 0 < bs.
Abbreviation len := (Z.of_nat (length data)).

Lemma blockCount_le k : 0 <= k -> len <= k * bs -> blockCount len bs <= k.
Proof. intros ??. unfold blockCount. apply Z.lt_succ_r, Z.div_lt_upper_bound; nia. Qed.

Lemma blockCount_gt k : k * bs < len -> k < blockCount len bs.
Proof. intros ?. unfold blockCount. apply Z.le_succ_l, Z.div_le_lower_bound; nia. Qed.

Lemma blockCount_bound k : k < blockCount len bs -> k * bs < len.
Proof.
  intros Hk. destruct (Z_lt_ge_dec (k * bs) len) as [|Hge]; [done|].
  destruct (Z_le_gt_dec 0 k).
  - pose proof (blockCount_le k). lia.
  - destruct (decide (len = 0)); nia.
Qed.

Lemma slice_length k : 0 <= k ->
  Z.of_nat (length (slice data (k * bs) bs)) = Z.max 0 (Z.min bs (len - k * bs)).
Proof. intros ?. unfold slice. rewrite length_take, length_drop. nia. Qed.

Lemma slice_min k : 0 <= k ->
  slice data (k * bs) (Z.min bs (len - k * bs)) = slice data (k * bs) bs.
Proof.
  intros ?. unfold slice. destruct (Z.min_spec bs (len - k * bs)) as [[? ->]|[? ->]]; [done|].
  rewrite (take_ge _ (Z.to_nat (len - k * bs))), (take_ge _ (Z.to_nat bs));
    [done| |]; rewrite length_drop; nia.
Qed.

Lemma seqZ_step k n : k < n -> seqZ k (n - k) = k :: seqZ (k + 1) (n - (k + 1)).
Proof.
  intros ?. rewrite seqZ_cons by lia. f_equal. f_equal; lia.
Qed.

Lemma readBlocks_tiles fuel k :
  len <= maxInt64 -> 0 <= k -> (k - 1) * bs <= len -> (length data - Z.to_nat (k * bs) < fuel)%nat ->
  readBlocks sha256 fuel k bs (drop (Z.to_nat (k * bs)) data)
  = tile sha256 data bs <$> seqZ k (blockCount len bs - k).
Proof.
  intros Hmax. revert k. induction fuel as [|fuel IH]; intros k Hk Hkb Hf; [lia|].
  simpl. change (take _ (drop _ data)) with (slice data (k * bs) bs).
  rewrite slice_length by done. destruct (Z_lt_ge_dec (k * bs) len) as [Hlt|Hge].
  - rewrite (proj2 (Z.eqb_neq _ 0)) by nia. rewrite seqZ_step by by apply blockCount_gt.
    simpl. f_equal.
    + unfold tile. f_equal; [|nia]. apply i64_small. unfold int64_range, minInt64. nia.
    + destruct (Z.max 0 (Z.min bs (len - k * bs)) <? bs) eqn:E.
      * rewrite seqZ_nil; [done|]. pose proof (blockCount_le (k + 1)). nia.
      * rewrite drop_drop. replace (Z.to_nat (k * bs) + Z.to_nat bs)%nat
          with (Z.to_nat ((k + 1) * bs)) by nia. apply IH; nia.
  - rewrite (proj2 (Z.eqb_eq _ 0)) by nia. rewrite seqZ_nil; [done|].
    pose proof (blockCount_le k). nia.
Qed.

Lemma covered_tiles_from n k : 0 <= k -> Z.of_nat n = blockCount len bs - k ->
  covered data (tile sha256 data bs <$> seqZ k (Z.of_nat n)) = drop (Z.to_nat (k * bs)) data.
Proof.
  revert k. induction n as [|n IH]; intros k Hk Hn.
  - rewrite seqZ_nil by lia. simpl. symmetry. apply nil_length_inv.
    rewrite length_drop. destruct (Z_lt_ge_dec (k * bs) len) as [?%blockCount_gt|]; nia.
  - assert (k * bs < len) by (apply blockCount_bound; lia).
    rewrite seqZ_cons by lia. unfold covered in *. rewrite !fmap_cons. simpl.
    rewrite slice_min by done. replace (Z.succ k) with (k + 1) by lia.
    replace (Z.pred (Z.of_nat (S n))) with (Z.of_nat n) by lia.
    rewrite IH by lia. unfold slice.
    replace (Z.to_nat ((k + 1) * bs)) with (Z.to_nat (k * bs) + Z.to_nat bs)%nat by nia.
    rewrite <- drop_drop. apply take_drop.
Qed.

Lemma covered_tiles : covered data (tiles sha256 data bs) = data.
Proof.
  unfold tiles.
  assert (0 <= blockCount len bs) by (unfold blockCount; apply Z.div_pos; lia).
  rewrite <- (Z2Nat.id (blockCount len bs)) by done.
  rewrite covered_tiles_from by lia. by rewrite drop_0.
Qed.
End tiling.

Lemma elem_of_allBlocks sources p b :
  (p, b) ∈ allBlocks sources <->
  exists m, m ∈ sources /\ Manifest_Path m = p /\ b ∈ Manifest_Blocks m.
Proof.
  unfold allBlocks. rewrite list_elem_of_bind. split.
  - intros (m & Hpb & Hm). apply list_elem_of_fmap in Hpb as (b' & [= -> ->] & Hb'). eauto.
  - intros (m & Hm & <- & Hb). exists m. split; [|done]. apply list_elem_of_fmap. eauto.
Qed.

(** ** BuildManifest *)

Lemma BuildManifest_spec sha256 fs path bs f :
  0 < bs -> fs !! path = Some f -> file_size f <= maxInt64 ->
  BuildManifest sha256 fs path bs
  = Ok (mkManifest path (file_size f) bs (tiles sha256 (File_data f) bs) "complete" false
          (File_mtime f) 0 0 0).
Proof.
  intros Hbs Hf Hmax. unfold BuildManifest.
  rewrite (proj2 (Z.leb_gt _ _)), Hf by done. do 2 f_equal.
  pose proof (readBlocks_tiles sha256 (File_data f) bs Hbs (S (length (File_data f))) 0) as H.
  rewrite Z.mul_0_l, drop_0, Z.sub_0_r in H. apply H; unfold file_size in *; lia.
Qed.

(** BuildManifest of an existing file with a positive block size always
    returns a complete manifest whose blocks tile the file: block [k] starts at
    [k * blockSize], is full except possibly the last, carries the hash of its
    bytes, there are [ceil(size / blockSize)] of them, and together they cover
    the file's content exactly. *)
Theorem BuildManifest_tiles sha256 fs path bs f :
  0 < bs -> fs !! path = Some f -> file_size f <= maxInt64 ->
  exists m, BuildManifest sha256 fs path bs = Ok m
    /\ Manifest_Size m = file_size f /\ Manifest_BlockSize m = bs
    /\ Manifest_HashState m = "complete"
    /\ Manifest_Blocks m = tiles sha256 (File_data f) bs
    /\ Z.of_nat (length (Manifest_Blocks m)) = blockCount (file_size f) bs
    /\ covered (File_data f) (Manifest_Blocks m) = File_data f.
Proof.
  intros Hbs Hf Hmax. eexists. split; [by apply BuildManifest_spec|].
  cbn [Manifest_Size Manifest_BlockSize Manifest_HashState Manifest_Blocks].
  repeat split; [|by apply covered_tiles].
  unfold tiles. rewrite length_fmap, length_seqZ. unfold file_size.
  assert (0 <= blockCount (Z.of_nat (length (File_data f))) bs)
    by (unfold blockCount; apply Z.div_pos; lia). lia.
Qed.

Lemma BuildManifest_ok sha256 fs path bs m :
  BuildManifest sha256 fs path bs = Ok m ->
  exists f, fs !! path = Some f /\ 0 < bs /\ Manifest_Size m = file_size f
    /\ (file_size f <= maxInt64 -> Manifest_Blocks m = tiles sha256 (File_data f) bs).
Proof.
  destruct (Z.leb_spec bs 0) as [Hle|Hbs]; intros H.
  - unfold BuildManifest in H. by rewrite (proj2 (Z.leb_le _ _)) in H.
  - pose proof H as H0. unfold BuildManifest in H0. rewrite (proj2 (Z.leb_gt _ _)) in H0 by done.
    destruct (fs !! path) as [f|] eqn:Hf; [|done]. injection H0 as Hm. exists f.
    split; [done|]. split; [done|]. split; [by rewrite <- Hm|]. intros Hmax.
    rewrite (BuildManifest_spec _ _ _ _ f) in H by done. by injection H as <-.
Qed.

Lemma BuildManifest_tiles_witness :
  let fs := {["f" := mkFile [Byte.x61; Byte.x62; Byte.x63; Byte.x64; Byte.x65] 7]} : gmap string File in
  exists m, BuildManifest id fs "f" 2 = Ok m /\ length (Manifest_Blocks m) = 3%nat.
Proof.
  intros fs. destruct (BuildManifest_tiles id fs "f" 2
    (mkFile [Byte.x61; Byte.x62; Byte.x63; Byte.x64; Byte.x65] 7)) as (m & Hm & _ & _ & _ & Ht & _).
  - lia.
  - reflexivity.
  - vm_compute. discriminate.
  - exists m. split; [exact Hm|]. rewrite Ht. vm_compute. reflexivity.
Defined.

(** ** Delta plans *)

(** PlanDelta needs exactly the target blocks that no base block of the
    same index matches in size and hash, in the target's order. *)
Theorem PlanDelta_needed base target want :
  NoDup (Block_Index <$> Manifest_Blocks base) ->
  (want ∈ DeltaPlan_Needed (PlanDelta base target) <->
   want ∈ Manifest_Blocks target /\
   forall have, have ∈ Manifest_Blocks base -> Block_Index have = Block_Index want ->
     Block_Size have <> Block_Size want \/ Block_Hash have <> Block_Hash want)
  /\ sublist (DeltaPlan_Needed (PlanDelta base target)) (Manifest_Blocks target).
Proof.
  intros Hnd. unfold PlanDelta, blocksByIndex. cbn [DeltaPlan_Needed]. split.
  - rewrite list_elem_of_In, filter_In, <- list_elem_of_In.
    destruct (decide (Block_Index want ∈ Block_Index <$> Manifest_Blocks base)) as [Hin|Hout].
    + apply list_elem_of_fmap in Hin as (have & Hidx & Hhave).
      rewrite Hidx, (put_all_NoDup Block_Index id) by done. simpl.
      rewrite orb_true_iff, !bool_decide_eq_true. split.
      * intros [Hw Hd]. split; [done|]. intros have' Hhave' Hidx'.
        assert (have' = have) as ->; [|done].
        apply (NoDup_fmap_elem Block_Index (Manifest_Blocks base)); done.
      * intros [Hw Hd]. split; [done|]. by apply Hd.
    + rewrite put_all_None by done. rewrite lookup_empty. split; [|naive_solver].
      intros [Hw _]. split; [done|]. intros have Hhave Hidx.
      destruct Hout. rewrite <- Hidx. by apply list_elem_of_fmap_2.
  - apply filter_sublist.
Qed.

Lemma PlanDelta_needed_witness :
  let b i h := mkBlock i i 1 [h] in
  let base := mkManifest "f" 2 1 [b 0 Byte.x61; b 1 Byte.x62] EmptyString false 0 0 0 0 in
  let target := mkManifest "f" 2 1 [b 0 Byte.x61; b 1 Byte.x63] EmptyString false 0 0 0 0 in
  b 1 Byte.x63 ∈ DeltaPlan_Needed (PlanDelta base target).
Proof.
  intros b base target.
  apply (proj2 (proj1 (PlanDelta_needed base target (b 1 Byte.x63)
    ltac:(apply (bool_decide_unpack _); vm_compute; exact I)))).
  split.
  - right. left.
  - intros have [->|[->|[]%elem_of_nil]%elem_of_cons]%elem_of_cons Hi.
    + discriminate Hi.
    + right. vm_compute. discriminate.
Defined.

Definition hasHash (sources : list Manifest) (h : bytes) : bool :=
  existsb (fun pb => bool_decide (Block_Hash pb.2 = h)) (allBlocks sources).

Lemma availableBlocks_spec sources (w : Block) :
  match availableBlocks sources !! blockKey w with
  | Some r => hasHash sources (Block_Hash w) = true
      /\ exists m b, m ∈ sources /\ b ∈ Manifest_Blocks m /\ Block_Hash b = Block_Hash w
           /\ r = mkReuse 0 (Manifest_Path m) (Block_Index b)
  | None => hasHash sources (Block_Hash w) = false
  end.
Proof.
  unfold availableBlocks, hasHash. destruct (_ !! _) as [r|] eqn:E.
  - apply put_new_all_sound in E as ([p b] & Hpb & Hk & <-). simpl in *. split.
    + apply existsb_exists. exists (p, b). rewrite <- list_elem_of_In, bool_decide_eq_true. done.
    + apply elem_of_allBlocks in Hpb as (m & Hm & <- & Hb). eauto 10.
  - apply not_true_iff_false. intros ([p b] & Hpb & Hk)%existsb_exists.
    rewrite bool_decide_eq_true in Hk. simpl in Hk. rewrite <- list_elem_of_In in Hpb.
    apply (put_new_all_complete (fun pb => blockKey pb.2)
             (fun pb => mkReuse 0 pb.1 (Block_Index pb.2))) in Hpb as [r Hr].
    unfold blockKey in *. simpl in Hr. rewrite Hk in Hr. congruence.
Qed.

(** PlanContentDelta splits the target's blocks, in order, into those some
    source holds by hash and those it must fetch; every reuse names a source
    manifest and a block index that hold the very hash the target block wants. *)
Theorem PlanContentDelta_partition sources target :
  let plan := PlanContentDelta sources target in
  DeltaPlan_Needed plan
    = List.filter (fun w => negb (hasHash sources (Block_Hash w))) (Manifest_Blocks target)
  /\ Forall2 (fun r w => Reuse_TargetIndex r = Block_Index w /\
       exists m b, m ∈ sources /\ Manifest_Path m = Reuse_SourcePath r /\
         b ∈ Manifest_Blocks m /\ Block_Index b = Reuse_SourceIndex r /\
         Block_Hash b = Block_Hash w)
       (DeltaPlan_Reused plan)
       (List.filter (fun w => hasHash sources (Block_Hash w)) (Manifest_Blocks target)).
Proof.
  unfold PlanContentDelta. induction (Manifest_Blocks target) as [|w l [IH1 IH2]] using rev_ind;
    simpl; [by split|].
  rewrite !foldl_snoc, !List.filter_app. simpl. unfold contentStep at 1 3.
  pose proof (availableBlocks_spec sources w) as Hspec.
  destruct (availableBlocks sources !! blockKey w) as [r|]; simpl.
  - destruct Hspec as (-> & m & b & Hm & Hb & Hh & ->). simpl. split.
    + by rewrite app_nil_r.
    + apply Forall2_app; [done|]. constructor; [|done]. split; [done|]. exists m, b. done.
  - rewrite Hspec. simpl. split; [by rewrite IH1|]. by rewrite app_nil_r.
Qed.

(** ** Assembly *)

(** What verification compares of a block. *)
Definition digest (b : Block) : Z * bytes := (Block_Size b, Block_Hash b).

Lemma apply_blockKey_inj a b : Apply.blockKey a = Apply.blockKey b -> digest a = digest b.
Proof.
  unfold Apply.blockKey, digest. unfold String.app at 2 4. simpl. intros H.
  apply sep_inj in H as [Hs Hh].
  - by rewrite (itoa_inj _ _ Hs), (hex_encode_inj _ _ Hh).
  - by apply itoa_no_char.
  - by apply itoa_no_char.
Qed.

Lemma verifyBlocks_ok i got want :
  length got = length want ->
  Apply.verifyBlocks i got want = Ok tt <-> digest <$> got = digest <$> want.
Proof.
  revert i got. induction want as [|w want IH]; intros i [|g got]; simpl; try done.
  intros [= Hl]. unfold digest at 1 3.
  destruct (bool_decide_reflect (Block_Size g <> Block_Size w)) as [Hs|Hs%dec_stable]; simpl.
  { split; [done|]. intros [= ? ?]. congruence. }
  destruct (bool_decide_reflect (Block_Hash g <> Block_Hash w)) as [Hh|Hh%dec_stable]; simpl.
  { split; [done|]. intros [= ? ?]. congruence. }
  rewrite IH by done. rewrite Hs, Hh. split; [intros H; by f_equal|]. by intros [= H].
Qed.

Section assembly.
Context (sha256 : bytes -> bytes) (faults : Apply.syscall -> bool).

Lemma sys_ok c u : Apply.sys faults c = Ok u <-> faults c = false.
Proof. apply fail_if_ok. Qed.

Lemma verifyManifest_ok fs path want :
  Manifest_Size want <= maxInt64 ->
  Apply.verifyManifest sha256 faults fs path want = Ok tt <->
  faults Apply.SysVerify = false /\ 0 < Manifest_BlockSize want /\
  exists f, fs !! path = Some f /\ file_size f = Manifest_Size want /\
    digest <$> tiles sha256 (File_data f) (Manifest_BlockSize want) = digest <$> Manifest_Blocks want.
Proof.
  intros Hmax. unfold Apply.verifyManifest. rewrite result_bind_ok. setoid_rewrite sys_ok.
  transitivity (faults Apply.SysVerify = false /\
    match BuildManifest sha256 fs path (Manifest_BlockSize want) with
    | Err e => False
    | Ok got => Manifest_Size got = Manifest_Size want
        /\ digest <$> Manifest_Blocks got = digest <$> Manifest_Blocks want
    end).
  { destruct (BuildManifest _ _ _ _) as [got|e]; [|naive_solver].
    split; [intros (_ & ? & H)|intros (? & Hs & Hd); exists tt]; (split; [done|]).
    - destruct (bool_decide_reflect (Manifest_Size got <> Manifest_Size want)); [done|].
      destruct (bool_decide_reflect (length (Manifest_Blocks got) <> length (Manifest_Blocks want)));
        [done|]. apply verifyBlocks_ok in H; [|lia]. split; [lia|done].
    - assert (length (Manifest_Blocks got) = length (Manifest_Blocks want)) as Hl.
      { by rewrite <- (length_fmap digest), Hd, length_fmap. }
      rewrite !bool_decide_eq_false_2 by lia. by apply verifyBlocks_ok. }
  apply and_iff_compat_l. destruct (BuildManifest _ _ _ _) as [got|e] eqn:HB.
  - apply BuildManifest_ok in HB as (f & Hf & Hbs & Hsz & Ht). split.
    + intros [Hs Hd]. split; [done|]. exists f. rewrite <- Ht by lia. split; [done|]. split; [lia|done].
    + intros (_ & f' & Hf' & Hs & Hd). assert (f' = f) as -> by congruence.
      rewrite Ht by lia. split; [lia|done].
  - split; [done|]. intros (Hbs & f & Hf & Hs & _).
    rewrite (BuildManifest_spec _ _ _ _ f) in HB by (done || lia). done.
Qed.

(** [C25] Replacement is atomic under any combination of failing system calls:
    an assembly that returns an error leaves every file but its own staging
    file as it was; one that succeeds changes the target path only, and the
    content it put there has the size, and block for block the sizes and
    hashes, of the wanted manifest. *)
Theorem AssembleFromLocalBlocks_atomic fs targetPath tmpName now target sources :
  Manifest_Size target <= maxInt64 -> fs !! tmpName = None -> tmpName <> targetPath ->
  match Apply.AssembleFromLocalBlocks sha256 faults fs targetPath tmpName now target sources with
  | (fs', Err _) => forall p, p <> tmpName -> fs' !! p = fs !! p
  | (fs', Ok _) => exists data,
      fs' = <[targetPath := mkFile data now]> fs
      /\ Z.of_nat (length data) = Manifest_Size target
      /\ digest <$> tiles sha256 data (Manifest_BlockSize target) = digest <$> Manifest_Blocks target
  end.
Proof.
  intros Hmax Hfresh Hne. unfold Apply.AssembleFromLocalBlocks,
    Apply.AssembleFromLocalBlocksBeforeRename.
  destruct (faults Apply.SysMkdirAll); [done|]. destruct (faults Apply.SysCreateTemp); [done|].
  assert (Hclean : forall data p, p <> tmpName ->
    Apply.cleanup faults tmpName (Apply.staged tmpName data now fs) !! p = fs !! p).
  { intros data p Hp. unfold Apply.cleanup, Apply.staged.
    destruct (faults _); rewrite ?lookup_delete_ne, lookup_insert_ne; done. }
  unfold Apply.stageAndVerify.
  destruct (Apply.copyBlocks _ _ _ _ _ _) as [data copied].
  destruct (copied ≫= _) as [[]|e] eqn:Hv; [|by apply Hclean].
  apply result_bind_ok in Hv as (_ & _ & Hv). apply result_bind_ok in Hv as (_ & _ & Hv).
  apply result_bind_ok in Hv as (_ & _ & Hv).
  destruct (faults Apply.SysRename); [by apply Hclean|].
  apply verifyManifest_ok in Hv as (_ & _ & f & Hf & Hs & Hd); [|done].
  unfold Apply.staged in *. rewrite lookup_insert_eq in Hf. injection Hf as <-.
  rewrite lookup_insert_eq. exists data. split; [|done].
  by rewrite delete_insert_id.
Qed.
End assembly.

(** The file at [path] holds the bytes that [b] describes, at the offset it says. *)
Definition block_at (sha256 : bytes -> bytes) (fs : gmap string File) (path : string) (b : Block) : Prop :=
  exists f, fs !! path = Some f
    /\ 0 <= Block_Offset b
    /\ Z.of_nat (length (slice (File_data f) (Block_Offset b) (Block_Size b))) = Block_Size b
    /\ Block_Hash b = sha256 (slice (File_data f) (Block_Offset b) (Block_Size b)).

(** The first block the sources list with the size and hash of [w] is where they say. *)
Definition available (sha256 : bytes -> bytes) (fs : gmap string File) (sources : list Manifest) (w : Block) : Prop :=
  exists p b, head (filter (fun pb : string * Block => digest pb.2 = digest w) (allBlocks sources)) = Some (p, b) /\ block_at sha256 fs p b.

(** A source manifest that describes the file at its path. *)
Definition truthful (sha256 : bytes -> bytes) (fs : gmap string File) (m : Manifest) : Prop :=
  forall b, b ∈ Manifest_Blocks m -> block_at sha256 fs (Manifest_Path m) b.

Lemma truthful_available sha256 fs sources w : Forall (truthful sha256 fs) sources ->
  (exists m b, m ∈ sources /\ b ∈ Manifest_Blocks m /\ digest b = digest w) -> available sha256 fs sources w.
Proof.
  intros Htruth (m & b & Hm & Hb & Hd). unfold available.
  assert ((Manifest_Path m, b) ∈ filter (fun pb : string * Block => digest pb.2 = digest w) (allBlocks sources)) as Hin.
  { apply list_elem_of_filter. split; [done|]. apply elem_of_allBlocks. eauto. }
  destruct (filter _ (allBlocks sources)) as [|[p b'] l] eqn:E; [by apply elem_of_nil in Hin|].
  exists p, b'. split; [done|]. assert ((p, b') ∈ (p, b') :: l) as Hp by left. rewrite <- E in Hp.
  apply list_elem_of_filter in Hp as [_ (m' & Hm' & <- & Hb')%elem_of_allBlocks].
  rewrite Forall_forall in Htruth. by apply (Htruth m').
Qed.

(** The index holds the first block of the sources under a key. *)
Lemma indexSources_first sources w :
  Apply.indexSources sources !! Apply.blockKey w =
  (fun pb => Apply.mkSource pb.1 pb.2) <$> head (filter (fun pb : string * Block => digest pb.2 = digest w) (allBlocks sources)).
Proof.
  unfold Apply.indexSources. rewrite lookup_put_new_all, lookup_empty. f_equal. f_equal.
  apply list_filter_iff. intros [p b]. cbn. split; [apply apply_blockKey_inj|].
  intros [= Hs Hh]. unfold Apply.blockKey. by rewrite Hs, Hh.
Qed.

(** The bytes copied for each wanted block. *)
Definition piece_for (sha256 : bytes -> bytes) (p : bytes) (w : Block) : Prop :=
  Z.of_nat (length p) = Block_Size w /\ sha256 p = Block_Hash w.

Section completeness.
Context (sha256 : bytes -> bytes) (faults : Apply.syscall -> bool).
Hypothesis no_faults : forall c, faults c = false.

Lemma write_at_end dst data : Apply.write_at dst (Z.of_nat (length dst)) data = dst ++ data.
Proof.
  unfold Apply.write_at. rewrite Nat2Z.id, take_ge, Nat.sub_diag, drop_ge by lia.
  simpl. by rewrite app_nil_r.
Qed.

Lemma copyBlock_piece fs dst src want f :
  fs !! Apply.source_path src = Some f -> 0 <= Block_Offset (Apply.source_block src) ->
  Block_Offset want = Z.of_nat (length dst) ->
  Z.of_nat (length (slice (File_data f) (Block_Offset (Apply.source_block src)) (Block_Size want)))
    = Block_Size want ->
  Apply.copyBlock faults fs dst src want
  = (dst ++ slice (File_data f) (Block_Offset (Apply.source_block src)) (Block_Size want), Ok tt).
Proof.
  intros Hf Hoff Hw Hl. unfold Apply.copyBlock. rewrite !no_faults, Hf.
  rewrite (proj2 (Z.ltb_ge _ _)) by done. rewrite (proj2 (Z.ltb_ge (Block_Offset want) _)) by lia.
  rewrite (proj2 (Z.ltb_ge (Z.of_nat _) _)) by lia. rewrite Hw, write_at_end. simpl.
  destruct (slice _ _ _); [by rewrite app_nil_r|done].
Qed.

Lemma copyBlocks_pieces fs sources path wants dst k bs c :
  0 < bs -> 0 <= k ->
  wants = tile sha256 c bs <$> seqZ k (blockCount (Z.of_nat (length c)) bs - k) ->
  (wants <> [] -> Z.of_nat (length dst) = k * bs) ->
  (forall w, w ∈ wants -> available sha256 fs sources w) ->
  exists pieces,
    Apply.copyBlocks faults fs (Apply.indexSources sources) path dst wants = (dst ++ mjoin pieces, Ok tt)
    /\ Forall2 (piece_for sha256) pieces wants.
Proof.
  intros Hbs Hk. revert k dst Hk. induction wants as [|w wants IH]; intros k dst Hk Hw Hdst Hav.
  { exists []. simpl. by rewrite app_nil_r. }
  assert (k < blockCount (Z.of_nat (length c)) bs) as Hlt.
  { destruct (Z_lt_ge_dec k (blockCount (Z.of_nat (length c)) bs)); [done|].
    rewrite seqZ_nil in Hw by lia. cbn in Hw. done. }
  rewrite seqZ_step, fmap_cons in Hw by done. injection Hw as Hw Hws.
  specialize (Hdst ltac:(done)). pose proof (blockCount_bound c bs Hbs k Hlt).
  destruct (Hav w) as (p & b' & Hfirst & f & Hf & Hoff & Hlen & Hhash); [by left|].
  pose proof (indexSources_first sources w) as Hsrc. rewrite Hfirst in Hsrc.
  cbn [fmap option_fmap option_map fst snd] in Hsrc. cbn [Apply.copyBlocks].
  assert (digest b' = digest w) as [= Hsize Hh].
  { apply head_Some_elem_of, list_elem_of_filter in Hfirst. by destruct Hfirst. }
  rewrite Hsrc, (copyBlock_piece _ _ _ _ f); [|done|done| |by rewrite <- Hsize].
  2: { by rewrite Hw, Hdst. }
  cbn [Apply.source_path Apply.source_block fst snd]. destruct (IH (k + 1) (dst ++ slice (File_data f) (Block_Offset b') (Block_Size w)))
    as (pieces & Hc & Hp); [lia|done| |intros w' Hw'; apply Hav; by right|].
  - intros Hne. rewrite length_app, Nat2Z.inj_add, Hdst, <- Hsize, Hlen, Hsize, Hw. simpl.
    destruct (Z_lt_ge_dec (k + 1) (blockCount (Z.of_nat (length c)) bs)) as [Hk1|Hk1].
    + apply blockCount_bound in Hk1; [lia|done].
    + rewrite seqZ_nil in Hws by lia. by subst wants.
  - exists (slice (File_data f) (Block_Offset b') (Block_Size w) :: pieces). split.
    + rewrite Hc. cbn [mjoin list_join]. by rewrite <- app_assoc.
    + constructor; [|done]. unfold piece_for. rewrite <- Hsize, Hlen, <- Hhash. by split.
Qed.
End completeness.

Section rebuild.
Context (sha256 : bytes -> bytes) (c : bytes) (bs : Z).
Hypothesis bs_pos : 0 < bs.

Lemma pieces_length n k pieces : 0 <= k ->
  k + Z.of_nat n = blockCount (Z.of_nat (length c)) bs ->
  Forall2 (piece_for sha256) pieces (tile sha256 c bs <$> seqZ k (Z.of_nat n)) ->
  k * bs <= Z.of_nat (length c) ->
  Z.of_nat (length (mjoin pieces)) = Z.of_nat (length c) - k * bs.
Proof.
  revert k pieces. induction n as [|n IH]; intros k pieces Hk Hn Hp Hle.
  - rewrite seqZ_nil in Hp by lia. apply Forall2_nil_inv_r in Hp as ->. simpl.
    destruct (Z_lt_ge_dec (k * bs) (Z.of_nat (length c))) as [?%blockCount_gt|]; lia.
  - rewrite seqZ_cons in Hp by lia. rewrite fmap_cons in Hp.
    apply Forall2_cons_inv_r in Hp as (p & ps & [Hp _] & Hps & ->). simpl in *.
    replace (Z.succ k) with (k + 1) in Hps by lia.
    replace (Z.pred (Z.of_nat (S n))) with (Z.of_nat n) in Hps by lia.
    rewrite length_app, Nat2Z.inj_add, Hp.
    destruct (Z_lt_ge_dec (k + 1) (blockCount (Z.of_nat (length c)) bs)) as [Hlt|Hge].
    + apply blockCount_bound in Hlt; [|done]. rewrite (IH (k + 1)) by (done || lia). lia.
    + assert (n = 0%nat) as -> by lia. rewrite seqZ_nil in Hps by lia.
      apply Forall2_nil_inv_r in Hps as ->. simpl.
      assert (~ (k + 1) * bs < Z.of_nat (length c)).
      { intros H%blockCount_gt; lia. }
      lia.
Qed.

Lemma rebuild_tiles n k pre pieces : 0 <= k ->
  k + Z.of_nat n = blockCount (Z.of_nat (length c)) bs ->
  Forall2 (piece_for sha256) pieces (tile sha256 c bs <$> seqZ k (Z.of_nat n)) ->
  (n <> 0%nat -> Z.of_nat (length pre) = k * bs) ->
  length (pre ++ mjoin pieces) = length c ->
  digest <$> (tile sha256 (pre ++ mjoin pieces) bs <$> seqZ k (Z.of_nat n))
  = digest <$> (tile sha256 c bs <$> seqZ k (Z.of_nat n)).
Proof.
  revert k pre pieces. induction n as [|n IH]; intros k pre pieces Hk Hn Hp Hpre Hlen; [done|].
  specialize (Hpre ltac:(done)).
  assert (k * bs < Z.of_nat (length c)) by (apply blockCount_bound; [done|lia]).
  rewrite seqZ_cons in Hp |- * by lia. rewrite fmap_cons in Hp. rewrite !fmap_cons.
  apply Forall2_cons_inv_r in Hp as (p & ps & [Hp Hh] & Hps & ->). simpl in Hp, Hh.
  replace (Z.succ k) with (k + 1) in * by lia.
  replace (Z.pred (Z.of_nat (S n))) with (Z.of_nat n) in * by lia.
  change (mjoin (p :: ps)) with (p ++ mjoin ps) in *. f_equal.
  - assert (slice (pre ++ p ++ mjoin ps) (k * bs) bs = p) as Hsl.
    { unfold slice. replace (Z.to_nat (k * bs)) with (length pre) by lia.
      rewrite drop_app_length. destruct (Z.min_spec bs (Z.of_nat (length c) - k * bs)) as [[??]|[??]].
      - rewrite take_app_le by lia. apply take_ge. lia.
      - rewrite !length_app in Hlen. rewrite (nil_length_inv (mjoin ps)) by lia.
        rewrite app_nil_r. apply take_ge. lia. }
    unfold digest, tile. cbn [Block_Size Block_Hash]. by rewrite Hlen, Hsl, Hh.
  - rewrite app_assoc. apply IH; [lia|lia|done| |by rewrite <- app_assoc].
    intros Hn0. rewrite length_app. destruct n; [done|].
    assert ((k + 1) * bs < Z.of_nat (length c)) by (apply blockCount_bound; [done|lia]). lia.
Qed.
End rebuild.

Lemma digest_tiles_covered sha256 c1 c2 bs :
  0 < bs -> (forall x y, sha256 x = sha256 y -> x = y) ->
  length c1 = length c2 ->
  digest <$> tiles sha256 c1 bs = digest <$> tiles sha256 c2 bs -> c1 = c2.
Proof.
  intros Hbs Hinj Hlen Hd.
  assert (covered c1 (tiles sha256 c1 bs) = covered c2 (tiles sha256 c2 bs)) as H;
    [|by rewrite !covered_tiles in H].
  unfold covered, tiles in *. rewrite Hlen in Hd |- *. f_equal.
  rewrite <- !list_fmap_compose in Hd |- *. apply list_fmap_ext. intros i k Hk.
  assert (0 <= k) by (apply list_elem_of_lookup_2, elem_of_seqZ in Hk; lia).
  apply (f_equal (fun l => l !! i)) in Hd. rewrite !list_lookup_fmap, Hk in Hd.
  injection Hd as Hs Hh. apply Hinj in Hh. simpl. by rewrite !slice_min.
Qed.

(** Copying the blocks of a well-formed target makes a staging file that
    verifies. *)
Lemma stage_complete sha256 faults fs tmpName now target sources c :
  (forall call, faults call = false) ->
  0 < Manifest_BlockSize target -> Z.of_nat (length c) <= maxInt64 ->
  Manifest_Size target = Z.of_nat (length c) ->
  Manifest_Blocks target = tiles sha256 c (Manifest_BlockSize target) ->
  (forall w, w ∈ Manifest_Blocks target -> available sha256 fs sources w) ->
  exists data,
    Apply.copyBlocks faults fs (Apply.indexSources sources) (Manifest_Path target) [] (Manifest_Blocks target) = (data, Ok tt)
    /\ Apply.verifyManifest sha256 faults (Apply.staged tmpName data now fs) tmpName target = Ok tt
    /\ digest <$> tiles sha256 data (Manifest_BlockSize target) = digest <$> Manifest_Blocks target
    /\ ((forall x y, sha256 x = sha256 y -> x = y) -> data = c).
Proof.
  intros Hnf Hbs Hmax Hsize Hblocks Hav.
  set (bs := Manifest_BlockSize target) in *. set (n := blockCount (Z.of_nat (length c)) bs).
  assert (0 <= n) by (apply Z.div_pos; lia).
  destruct (copyBlocks_pieces sha256 faults Hnf fs sources (Manifest_Path target)
    (Manifest_Blocks target) [] 0 bs c) as (pieces & Hcopy & Hpieces); [done|done| |done|done|].
  { by rewrite Hblocks, Z.sub_0_r. }
  rewrite Hblocks in Hpieces. unfold tiles in Hpieces. fold n in Hpieces.
  rewrite <- (Z2Nat.id n) in Hpieces by done.
  assert (length (mjoin pieces) = length c) as Hlen.
  { enough (Z.of_nat (length (mjoin pieces)) = Z.of_nat (length c) - 0 * bs) by lia.
    apply (pieces_length sha256 c bs Hbs (Z.to_nat n)); done || lia. }
  assert (digest <$> tiles sha256 (mjoin pieces) bs = digest <$> Manifest_Blocks target) as Hd.
  { rewrite Hblocks. unfold tiles. rewrite Hlen. fold n. rewrite <- (Z2Nat.id n) by done.
    apply (rebuild_tiles sha256 c bs Hbs (Z.to_nat n) 0 []); done || lia. }
  exists (mjoin pieces). split; [done|]. split; [|split; [done|]].
  - apply verifyManifest_ok; [lia|]. split; [done|]. split; [done|].
    eexists. split; [apply lookup_insert_eq|]. unfold file_size. simpl. split; [lia|done].
  - intros Hinj. rewrite Hblocks in Hd. by apply (digest_tiles_covered sha256 _ _ bs).
Qed.

(** [C33] Assembly is complete. The target manifest is that of some content, no system
    call fails, the name of the staging file is free, and for every block of the
    target the first block that the sources list with its size and hash - the one
    the index takes - is in its file as listed; whatever else the sources list may
    be out of date. Then the assembly succeeds and the target path gets a file that
    verifies against the target; if SHA-256 does not collide, that file is byte for
    byte the content the target manifest was built from. A stale source listed first
    makes it fail: see [stale_source_first]. *)
Theorem AssembleFromLocalBlocks_complete sha256 faults fs targetPath tmpName now target sources c :
  (forall call, faults call = false) ->
  0 < Manifest_BlockSize target -> Z.of_nat (length c) <= maxInt64 ->
  Manifest_Size target = Z.of_nat (length c) ->
  Manifest_Blocks target = tiles sha256 c (Manifest_BlockSize target) ->
  (forall w, w ∈ Manifest_Blocks target -> available sha256 fs sources w) ->
  fs !! tmpName = None ->
  exists data,
    Apply.AssembleFromLocalBlocks sha256 faults fs targetPath tmpName now target sources
      = (<[targetPath := mkFile data now]> fs, Ok tt)
    /\ digest <$> tiles sha256 data (Manifest_BlockSize target) = digest <$> Manifest_Blocks target
    /\ ((forall x y, sha256 x = sha256 y -> x = y) -> data = c).
Proof.
  intros Hnf Hbs Hmax Hsize Hblocks Hav Hfresh.
  destruct (stage_complete sha256 faults fs tmpName now target sources c) as (data & Hcopy & Hver & Hd & Hinj); [done..|].
  exists data. split; [|done].
  unfold Apply.AssembleFromLocalBlocks, Apply.AssembleFromLocalBlocksBeforeRename, Apply.stageAndVerify.
  rewrite Hcopy, !Hnf. simpl. unfold Apply.sys. rewrite !Hnf. simpl. rewrite Hver.
  unfold Apply.staged. by rewrite lookup_insert_eq, delete_insert_id.
Qed.

(** A one-block file rebuilt from a copy of itself under another name. *)
Definition demo_fs : gmap string File := {["a" := mkFile [Byte.x61; Byte.x62] 1]}.
Definition demo_target : Manifest :=
  mkManifest "b" 2 4 (tiles id [Byte.x61; Byte.x62] 4) "complete" false 0 0 0 0.
Definition demo_sources : list Manifest :=
  [mkManifest "a" 2 4 (tiles id [Byte.x61; Byte.x62] 4) "complete" false 0 0 0 0].

Lemma AssembleFromLocalBlocks_atomic_witness :
  match Apply.AssembleFromLocalBlocks id (fun _ => false) demo_fs "b" ".b.staging" 9
          demo_target demo_sources with
  | (fs', Err _) => False
  | (fs', Ok _) => exists data, fs' = <["b" := mkFile data 9]> demo_fs /\ length data = 2%nat
  end.
Proof.
  pose proof (AssembleFromLocalBlocks_atomic id (fun _ => false) demo_fs "b" ".b.staging" 9
    demo_target demo_sources ltac:(vm_compute; discriminate) eq_refl ltac:(discriminate)) as H.
  destruct (Apply.AssembleFromLocalBlocks _ _ _ _ _ _ _ _) as [fs' [u|e]] eqn:E.
  - destruct H as (data & Hfs & Hlen & _). exists data. split; [exact Hfs|].
    change (Manifest_Size demo_target) with 2 in Hlen. lia.
  - vm_compute in E. discriminate E.
Defined.

(** A manifest of a file that is not there any more. *)
Definition demo_stale : Manifest :=
  mkManifest "gone" 2 4 (tiles id [Byte.x61; Byte.x62] 4) "complete" false 0 0 0 0.

(** The order matters: with the stale manifest first the assembly fails, although a
    later source has the block. *)
Example stale_source_first :
  (Apply.AssembleFromLocalBlocks id (fun _ => false) demo_fs "b" ".b.staging" 9 demo_target (demo_stale :: demo_sources)).2
  = Err (Apply.ErrSourceOpen "gone").
Proof. vm_compute. reflexivity. Qed.

Lemma AssembleFromLocalBlocks_complete_witness :
  Apply.AssembleFromLocalBlocks id (fun _ => false) demo_fs "b" ".b.staging" 9
    demo_target (demo_sources ++ [demo_stale]) = (<["b" := mkFile [Byte.x61; Byte.x62] 9]> demo_fs, Ok tt).
Proof.
  destruct (AssembleFromLocalBlocks_complete id (fun _ => false) demo_fs "b" ".b.staging" 9
    demo_target (demo_sources ++ [demo_stale]) [Byte.x61; Byte.x62]) as (data & Hrun & _ & Hdata).
  - reflexivity.
  - reflexivity.
  - vm_compute. discriminate.
  - reflexivity.
  - reflexivity.
  - intros w Hw. apply list_elem_of_singleton in Hw as ->. exists "a", (mkBlock 0 0 2 [Byte.x61; Byte.x62]).
    split; [reflexivity|]. exists (mkFile [Byte.x61; Byte.x62] 1). split; [reflexivity|]. split; [vm_compute; discriminate|]. split; reflexivity.
  - reflexivity.
  - rewrite (Hdata (fun x y H => H)) in Hrun. exact Hrun.
Defined.
