(* ===== verification/StoreData.v ===== *)
(** * The metadata store: data

    The types of [internal/state/json_store.go] and the snapshot the store
    keeps.  The Go [snapshot] is one flat struct of maps; here its fields are
    grouped ([folderMeta], [peerMeta], [jobMeta], [gateMeta], [settingsMeta]) by
    the operations that use them.  A nil map and an empty map behave alike in
    every operation and are the same [gmap]; a map of maps is a [gmap] of
    [gmap]s with the accessors at the end of the file. *)

From S2P Require Import Prelude GoStd Block.
From Stdlib Require Import Ascii.

Local Open Scope Z_scope.

(** ** Data *)

Record RenameHint := mkRenameHint {
  RenameHint_FromPath : string;
  RenameHint_ToPath : string;
  RenameHint_Revision : Z
}.

Record FolderSummary := mkFolderSummary {
  FolderSummary_FolderID : string;
  FolderSummary_Cursor : Z;
  FolderSummary_Files : Z;
  FolderSummary_Tombstones : Z;
  FolderSummary_StateHash : string
}.

Definition FolderSummary_zero : FolderSummary := mkFolderSummary EmptyString 0 0 0 EmptyString.

Record PeerApplyCheckpoint := mkPeerApplyCheckpoint {
  PeerApplyCheckpoint_FolderID : string;
  PeerApplyCheckpoint_FromCursor : Z;
  PeerApplyCheckpoint_ToCursor : Z;
  PeerApplyCheckpoint_ChangeCount : Z;
  PeerApplyCheckpoint_LastVerifiedCursor : Z;
  PeerApplyCheckpoint_LastVerifiedStateHash : string
}.

Record MetadataCompactionSnapshot := mkCompactionSnapshot {
  MetadataCompactionSnapshot_FolderID : string;
  MetadataCompactionSnapshot_Cursor : Z;
  MetadataCompactionSnapshot_StateHash : string;
  MetadataCompactionSnapshot_Files : Z;
  MetadataCompactionSnapshot_Tombstones : Z;
  MetadataCompactionSnapshot_SafeCursor : Z;
  MetadataCompactionSnapshot_CompactedTombstones : Z
}.

Record SnapshotMarker := mkSnapshotMarker {
  SnapshotMarker_ID : string;
  SnapshotMarker_FolderID : string;
  SnapshotMarker_Cursor : Z;
  SnapshotMarker_StateHash : string;
  SnapshotMarker_CreatedAt : string;
  SnapshotMarker_Description : string;
  SnapshotMarker_Pinned : bool;
  SnapshotMarker_Deprecated : bool;
  SnapshotMarker_ArchiveFullyProtected : bool;
  SnapshotMarker_DBCheckpointAvailable : bool
}.

Record ArchiveIntakeJob := mkArchiveIntakeJob {
  ArchiveIntakeJob_ID : string;
  ArchiveIntakeJob_SnapshotID : string;
  ArchiveIntakeJob_FolderID : string;
  ArchiveIntakeJob_Path : string;
  ArchiveIntakeJob_Block : Block;
  ArchiveIntakeJob_Status : string;
  ArchiveIntakeJob_CreatedAt : string;
  ArchiveIntakeJob_Attempts : Z;
  ArchiveIntakeJob_LastAttemptAt : string;
  ArchiveIntakeJob_NextAttemptAt : string;
  ArchiveIntakeJob_LastError : string;
  ArchiveIntakeJob_ArchivedAt : string
}.

Record BackupRestoreJobFile := mkBackupRestoreJobFile {
  BackupRestoreJobFile_Path : string;
  BackupRestoreJobFile_DestinationPath : string;
  BackupRestoreJobFile_Status : string;
  BackupRestoreJobFile_Size : Z;
  BackupRestoreJobFile_Error : string
}.

Record BackupRestoreJob := mkBackupRestoreJob {
  BackupRestoreJob_ID : string;
  BackupRestoreJob_SnapshotID : string;
  BackupRestoreJob_FolderID : string;
  BackupRestoreJob_Destination : string;
  BackupRestoreJob_Status : string;
  BackupRestoreJob_TotalFiles : Z;
  BackupRestoreJob_RestoredFiles : Z;
  BackupRestoreJob_RestoredBytes : Z;
  BackupRestoreJob_SkippedFiles : Z;
  BackupRestoreJob_RemainingFiles : Z;
  BackupRestoreJob_StartedAt : string;
  BackupRestoreJob_UpdatedAt : string;
  BackupRestoreJob_CompletedAt : string;
  BackupRestoreJob_LastError : string;
  BackupRestoreJob_JobFiles : list BackupRestoreJobFile
}.

Record BackupRetentionJob := mkBackupRetentionJob {
  BackupRetentionJob_ID : string;
  BackupRetentionJob_Status : string;
  BackupRetentionJob_KeepLast : Z;
  BackupRetentionJob_DeprecatedSnapshots : Z;
  BackupRetentionJob_DeletedSnapshots : Z;
  BackupRetentionJob_PromotedManifests : Z;
  BackupRetentionJob_SweptArchiveBlocks : Z;
  BackupRetentionJob_TotalOperations : Z;
  BackupRetentionJob_RemainingOperations : Z;
  BackupRetentionJob_StartedAt : string;
  BackupRetentionJob_UpdatedAt : string;
  BackupRetentionJob_CompletedAt : string;
  BackupRetentionJob_LastError : string
}.

Record BackupRepairJobBlock := mkBackupRepairJobBlock {
  BackupRepairJobBlock_SnapshotID : string;
  BackupRepairJobBlock_JobID : string;
  BackupRepairJobBlock_FolderID : string;
  BackupRepairJobBlock_Path : string;
  BackupRepairJobBlock_Hash : string;
  BackupRepairJobBlock_Status : string;
  BackupRepairJobBlock_SourceKind : string;
  BackupRepairJobBlock_Error : string
}.

Record BackupRepairJob := mkBackupRepairJob {
  BackupRepairJob_ID : string;
  BackupRepairJob_Status : string;
  BackupRepairJob_TotalBlocks : Z;
  BackupRepairJob_RepairedBlocks : Z;
  BackupRepairJob_UnresolvedBlocks : Z;
  BackupRepairJob_RemainingBlocks : Z;
  BackupRepairJob_StartedAt : string;
  BackupRepairJob_UpdatedAt : string;
  BackupRepairJob_CompletedAt : string;
  BackupRepairJob_LastError : string;
  BackupRepairJob_JobBlocks : list BackupRepairJobBlock
}.

Record VerifiedStagedBlock := mkVerifiedStagedBlock {
  VerifiedStagedBlock_Index : Z;
  VerifiedStagedBlock_Offset : Z;
  VerifiedStagedBlock_Size : Z;
  VerifiedStagedBlock_Hash : bytes
}.

Record PendingWrite := mkPendingWrite {
  PendingWrite_FolderID : string;
  PendingWrite_Path : string;
  PendingWrite_Manifest : Manifest;
  PendingWrite_ExpectedBaseManifest : option Manifest;
  PendingWrite_RequiredMetadataCursor : Z;
  PendingWrite_RequiredMetadataStateHash : string;
  PendingWrite_VerifiedBlocks : list VerifiedStagedBlock;
  PendingWrite_Committed : bool;
  PendingWrite_Reason : string
}.

Record SkippedDelete := mkSkippedDelete {
  SkippedDelete_FolderID : string;
  SkippedDelete_Path : string;
  SkippedDelete_RequiredMetadataCursor : Z;
  SkippedDelete_RequiredMetadataStateHash : string;
  SkippedDelete_RequiredWrites : list string;
  SkippedDelete_Reason : string
}.

(** A JSON value ([any]): what settings hold.  Numbers are kept as the text
    of their JSON form. *)
Inductive settingsValue :=
| SVNull
| SVBool (b : bool)
| SVNumber (text : string)
| SVString (s : string)
| SVList (l : list settingsValue)
| SVMap (m : list (string * settingsValue)).

Record NodeSettingsDocument := mkNodeSettingsDocument {
  NodeSettingsDocument_NodeID : string;
  NodeSettingsDocument_Revision : Z;
  NodeSettingsDocument_UpdatedAt : string;
  NodeSettingsDocument_Settings : gmap string settingsValue;
  NodeSettingsDocument_Source : string;
  NodeSettingsDocument_ApplyStatus : string
}.

Record PendingSettingsAuditEntry := mkPendingSettingsAuditEntry {
  PendingSettingsAuditEntry_Transition : string;
  PendingSettingsAuditEntry_Status : string;
  PendingSettingsAuditEntry_At : string;
  PendingSettingsAuditEntry_TargetNodeID : string;
  PendingSettingsAuditEntry_ChangeID : string;
  PendingSettingsAuditEntry_OriginNodeID : string;
  PendingSettingsAuditEntry_LastError : string
}.

Record PendingSettingsChange := mkPendingSettingsChange {
  PendingSettingsChange_ID : string;
  PendingSettingsChange_TargetNodeID : string;
  PendingSettingsChange_OriginNodeID : string;
  PendingSettingsChange_IdempotencyKey : string;
  PendingSettingsChange_Revision : Z;
  PendingSettingsChange_Status : string;
  PendingSettingsChange_CreatedAt : string;
  PendingSettingsChange_UpdatedAt : string;
  PendingSettingsChange_SettingsPatch : gmap string settingsValue;
  PendingSettingsChange_LastError : string;
  PendingSettingsChange_AuditTrail : list PendingSettingsAuditEntry
}.

#[export] Instance RenameHint_eq_dec : EqDecision RenameHint.
Proof. solve_decision. Defined.
#[export] Instance FolderSummary_eq_dec : EqDecision FolderSummary.
Proof. solve_decision. Defined.

(** ** The snapshot *)

Record folderMeta := mkFolderMeta {
  Folders : gmap string (gmap string Manifest);
  ManifestHistory : gmap string (gmap string (gmap Z Manifest));
  Revisions : gmap string (gmap string Z);
  Tombstones : gmap string (gmap string Z);
  RenameHints : gmap string (gmap string RenameHint);
  Cursors : gmap string Z
}.

Record peerMeta := mkPeerMeta {
  PeerStates : gmap string (gmap string FolderSummary);
  PeerFolders : gmap string (gmap string (gmap string Manifest));
  PeerRevisions : gmap string (gmap string (gmap string Z));
  PeerTombstones : gmap string (gmap string (gmap string Z));
  PeerRenameHints : gmap string (gmap string (gmap string RenameHint));
  PeerCursors : gmap string (gmap string Z);
  PeerApplyCheckpoints : gmap string (gmap string PeerApplyCheckpoint)
}.

Record jobMeta := mkJobMeta {
  SnapshotMarkers : gmap string SnapshotMarker;
  ArchiveIntakeJobs : gmap string (list ArchiveIntakeJob);
  BackupRestoreJobs : gmap string BackupRestoreJob;
  BackupRetentionJobs : gmap string BackupRetentionJob;
  BackupRepairJobs : gmap string BackupRepairJob
}.

Record gateMeta := mkGateMeta {
  PendingWrites : gmap string (gmap string PendingWrite);
  SkippedDeletes : gmap string (gmap string SkippedDelete)
}.

Record settingsMeta := mkSettingsMeta {
  NodeSettings : gmap string NodeSettingsDocument;
  PendingSettings : gmap string (gmap string PendingSettingsChange)
}.

Record snapshot := mkSnapshot {
  snap_local : folderMeta;
  snap_peer : peerMeta;
  CompactionSnapshots : gmap string (list MetadataCompactionSnapshot);
  snap_jobs : jobMeta;
  snap_gate : gateMeta;
  snap_settings : settingsMeta
}.

Definition folderMeta_zero : folderMeta := mkFolderMeta ∅ ∅ ∅ ∅ ∅ ∅.
Definition peerMeta_zero : peerMeta := mkPeerMeta ∅ ∅ ∅ ∅ ∅ ∅ ∅.
Definition snapshot_zero : snapshot :=
  mkSnapshot folderMeta_zero peerMeta_zero ∅ (mkJobMeta ∅ ∅ ∅ ∅ ∅) (mkGateMeta ∅ ∅)
    (mkSettingsMeta ∅ ∅).

Definition with_local (l : folderMeta) (s : snapshot) : snapshot :=
  mkSnapshot l (snap_peer s) (CompactionSnapshots s) (snap_jobs s) (snap_gate s) (snap_settings s).
Definition with_peer (p : peerMeta) (s : snapshot) : snapshot :=
  mkSnapshot (snap_local s) p (CompactionSnapshots s) (snap_jobs s) (snap_gate s) (snap_settings s).
Definition with_compaction (c : gmap string (list MetadataCompactionSnapshot)) (s : snapshot) : snapshot :=
  mkSnapshot (snap_local s) (snap_peer s) c (snap_jobs s) (snap_gate s) (snap_settings s).
Definition with_jobs (j : jobMeta) (s : snapshot) : snapshot :=
  mkSnapshot (snap_local s) (snap_peer s) (CompactionSnapshots s) j (snap_gate s) (snap_settings s).
Definition with_gate (g : gateMeta) (s : snapshot) : snapshot :=
  mkSnapshot (snap_local s) (snap_peer s) (CompactionSnapshots s) (snap_jobs s) g (snap_settings s).
Definition with_settings (g : settingsMeta) (s : snapshot) : snapshot :=
  mkSnapshot (snap_local s) (snap_peer s) (CompactionSnapshots s) (snap_jobs s) (snap_gate s) g.

(** ** Nested maps *)

(** [m[k]] of a map of maps: a missing inner map reads as an empty one. *)
Definition inner {V} (m : gmap string V) `{Empty V} (k : string) : V := default ∅ (m !! k).

(** [if m[k] == nil { m[k] = map{} }] *)
Definition ensure {V} `{Empty V} (k : string) (m : gmap string V) : gmap string V :=
  match m !! k with Some _ => m | None => <[k := ∅]> m end.

(** [ensure; m[k][x] = v] *)
Definition put2 {K V} `{Countable K} (k : string) (x : K) (v : V) (m : gmap string (gmap K V)) :=
  <[k := <[x := v]> (inner m k)]> m.

(** [delete(m[k], x)], which does nothing to a nil map. *)
Definition del2 {K V} `{Countable K} (k : string) (x : K) (m : gmap string (gmap K V)) :=
  alter (delete x) k m.

(** [m[k]] of a map of numbers: zero when missing. *)
Definition num {K} `{Countable K} (m : gmap K Z) (k : K) : Z := default 0 (m !! k).

(** The keys a range visits, and the same keys after [sort.Strings]. *)
Definition keys {V} (m : gmap string V) : list string := (map_to_list m).*1.
Definition sorted_keys {V} (m : gmap string V) : list string := sort_by str_lt (keys m).

(** The values a range visits. *)
Definition values {V} (m : gmap string V) : list V := (map_to_list m).*2.

(** The values of a map in the order of its sorted keys. *)
Definition in_key_order {V} (m : gmap string V) : list V := omap (fun id => m !! id) (sorted_keys m).
