(* ===== verification/Store.v ===== *)
(** * The metadata store: folder state

    Models the core of [internal/state/json_store.go]: the file backend,
    loading with its normalisation, the operations that change a folder's local
    metadata (SaveManifest, DeleteManifest, MoveManifest), the folder summary
    hash and the historical state at a cursor.

    [sha256] and the JSON encoding [marshal] of a manifest are arguments.  The
    Badger backend, which reimplements the operations on a database, is in
    BadgerStore.v, BadgerFolder.v and BadgerTables.v. *)

From S2P Require Import Prelude GoStd Block StoreData.
From Stdlib Require Import Ascii.

Local Open Scope Z_scope.

(** ** The backend *)

Inductive StoreErr :=
| ErrNotConfigured
| ErrReadFile
| ErrUnmarshal
| ErrKey (key : string)
| ErrSave
| ErrRequired (what : string)
| ErrNotFound (what : string)
| ErrPathCapacity (files tombstones : Z)
| ErrCompacted (folderID : string) (requested safe snapshotCursor : Z) (stateHash : string)
| ErrCursorMismatch (have start : Z)
| ErrRevisionRange (rev from to : Z)
| ErrMissingManifest (path : string)
| ErrMissingFromPath (path : string)
| ErrChangeKind (kind : string)
| ErrHashMismatch
| ErrMismatch (want got : string)
| ErrStatus (status : string)
| ErrSettings (msg : string).

(** The snapshot file: absent, not JSON, or the encoding of a snapshot. *)
Inductive diskFile := NoFile | BadFile | JSONFile (snap : snapshot).

(** [readFault] and [writeFault]: whether the system calls of Load and Save fail. *)
Record fileSnapshotBackend := mkBackend {
  backend_file : diskFile;
  backend_readFault : bool;
  backend_writeFault : bool
}.

Record JSONStore := mkStore { JSONStore_backend : option fileSnapshotBackend }.

Definition backend_Load (b : fileSnapshotBackend) : result StoreErr snapshot :=
  if backend_readFault b then Err ErrReadFile
  else match backend_file b with
       | NoFile => Ok snapshot_zero
       | BadFile => Err ErrUnmarshal
       | JSONFile snap => Ok snap
       end.

(** The new content is written beside the file and renamed over it: a failed
    save leaves the file as it was. *)
Definition backend_Save (b : fileSnapshotBackend) (snap : snapshot) : result StoreErr fileSnapshotBackend :=
  if backend_writeFault b then Err ErrSave
  else Ok (mkBackend (JSONFile snap) (backend_readFault b) (backend_writeFault b)).

(** ** Loading *)

(** Files without a revision are numbered in path order. *)
Definition numberFile (folderID : string) (m : folderMeta) (rel : string) : folderMeta :=
  let rev := u64 (num (Cursors m) folderID + 1) in
  mkFolderMeta (Folders m) (ManifestHistory m) (put2 folderID rel rev (Revisions m))
    (Tombstones m) (RenameHints m) (<[folderID := rev]> (Cursors m)).

Definition recordHistory (folderID : string) (m : folderMeta) (file : string * Manifest) : folderMeta :=
  let rev := num (inner (Revisions m) folderID) file.1 in
  if rev =? 0 then m
  else
    let history := inner (inner (ManifestHistory m) folderID) file.1 in
    mkFolderMeta (Folders m)
      (put2 folderID file.1
         (match history !! rev with Some _ => history | None => <[rev := file.2]> history end)
         (ManifestHistory m))
      (Revisions m) (Tombstones m) (RenameHints m) (Cursors m).

Definition normalizeFolder (m : folderMeta) (folder : string * gmap string Manifest) : folderMeta :=
  let folderID := folder.1 in
  let files := folder.2 in
  let m1 := mkFolderMeta (Folders m) (ensure folderID (ManifestHistory m))
              (ensure folderID (Revisions m)) (Tombstones m) (RenameHints m) (Cursors m) in
  let paths := sort_by str_lt
    (filter (fun rel => num (inner (Revisions m1) folderID) rel = 0) (keys files)) in
  foldl (recordHistory folderID) (foldl (numberFile folderID) m1 paths) (map_to_list files).

Definition raiseCursor (folderID : string) (m : folderMeta) (tomb : string * Z) : folderMeta :=
  if num (Cursors m) folderID <? tomb.2
  then mkFolderMeta (Folders m) (ManifestHistory m) (Revisions m) (Tombstones m) (RenameHints m)
         (<[folderID := tomb.2]> (Cursors m))
  else m.

Definition normalizeSnapshot (m : folderMeta) : folderMeta :=
  let m1 := foldl normalizeFolder m (map_to_list (Folders m)) in
  foldl (fun m folder => foldl (raiseCursor folder.1) m (map_to_list folder.2))
    m1 (map_to_list (Tombstones m1)).

Definition normalizeLoadedSnapshot (snap : snapshot) : snapshot :=
  with_local (normalizeSnapshot (snap_local snap)) snap.

Definition load (s : JSONStore) : result StoreErr snapshot :=
  match JSONStore_backend s with
  | None => Err ErrNotConfigured
  | Some b => normalizeLoadedSnapshot <$> backend_Load b
  end.

Definition save (s : JSONStore) (snap : snapshot) : JSONStore * result StoreErr unit :=
  match JSONStore_backend s with
  | None => (s, Err ErrNotConfigured)
  | Some b =>
      match backend_Save b snap with
      | Ok b' => (mkStore (Some b'), Ok tt)
      | Err e => (s, Err e)
      end
  end.

(** [snap, err := s.load(); ...; return s.save(snap)] *)
Definition modify (s : JSONStore) (f : snapshot -> result StoreErr snapshot)
    : JSONStore * result StoreErr unit :=
  match load s ≫= f with
  | Ok snap => save s snap
  | Err e => (s, Err e)
  end.

(** [if missing { return fmt.Errorf(...) }] before the store is loaded. *)
Definition require (what value : string) : result StoreErr unit :=
  fail_if (bool_decide (value = EmptyString)) (ErrRequired what).

Definition checked (s : JSONStore) (c : result StoreErr unit)
    (k : JSONStore * result StoreErr unit) : JSONStore * result StoreErr unit :=
  match c with Ok _ => k | Err e => (s, Err e) end.

(** ** Operations on a folder *)

Definition addHistory (folderID rel : string) (rev : Z) (manifest : Manifest)
    (h : gmap string (gmap string (gmap Z Manifest))) :=
  put2 folderID rel (<[rev := manifest]> (inner (inner h folderID) rel)) h.

Definition saveManifestSnap (folderID relativePath : string) (manifest : Manifest) (m : folderMeta)
    : folderMeta :=
  let rev := u64 (num (Cursors m) folderID + 1) in
  mkFolderMeta
    (put2 folderID relativePath manifest (Folders m))
    (addHistory folderID relativePath rev manifest (ManifestHistory m))
    (put2 folderID relativePath rev (Revisions m))
    (del2 folderID relativePath (ensure folderID (Tombstones m)))
    (RenameHints m)
    (<[folderID := rev]> (Cursors m)).

Definition SaveManifest (s : JSONStore) (folderID relativePath : string) (manifest : Manifest) :=
  modify s (fun snap =>
    Ok (with_local (saveManifestSnap folderID relativePath manifest (snap_local snap)) snap)).

Definition deleteManifestSnap (folderID relativePath : string) (m : folderMeta) : folderMeta :=
  let rev := u64 (num (Cursors m) folderID + 1) in
  mkFolderMeta
    (del2 folderID relativePath (Folders m))
    (ManifestHistory m)
    (del2 folderID relativePath (Revisions m))
    (put2 folderID relativePath rev (Tombstones m))
    (RenameHints m)
    (<[folderID := rev]> (Cursors m)).

Definition DeleteManifest (s : JSONStore) (folderID relativePath : string) :=
  modify s (fun snap =>
    Ok (with_local (deleteManifestSnap folderID relativePath (snap_local snap)) snap)).

Definition ensureFolderState (folderID : string) (m : folderMeta) : folderMeta :=
  mkFolderMeta (ensure folderID (Folders m)) (ensure folderID (ManifestHistory m))
    (ensure folderID (Revisions m)) (ensure folderID (Tombstones m))
    (ensure folderID (RenameHints m)) (Cursors m).

Definition moveManifestSnap (folderID fromPath toPath : string) (manifest : Manifest) (m0 : folderMeta)
    : folderMeta :=
  let m := ensureFolderState folderID m0 in
  let rev := u64 (num (Cursors m) folderID + 1) in
  mkFolderMeta
    (put2 folderID toPath manifest (del2 folderID fromPath (Folders m)))
    (addHistory folderID toPath rev manifest (ManifestHistory m))
    (put2 folderID toPath rev (del2 folderID fromPath (Revisions m)))
    (put2 folderID fromPath rev (Tombstones m))
    (put2 folderID fromPath (mkRenameHint fromPath toPath rev) (RenameHints m))
    (<[folderID := rev]> (Cursors m)).

Definition MoveManifest (s : JSONStore) (folderID fromPath toPath : string) (manifest : Manifest) :=
  checked s (_ ← require "folder id" folderID; _ ← require "move paths" fromPath;
             require "move paths" toPath)
    (modify s (fun snap =>
       Ok (with_local (moveManifestSnap folderID fromPath toPath manifest (snap_local snap)) snap))).

Definition LoadManifest (s : JSONStore) (folderID relativePath : string)
    : result StoreErr (option Manifest) :=
  (fun snap => inner (Folders (snap_local snap)) folderID !! relativePath) <$> load s.

Definition ListManifests (s : JSONStore) (folderID : string) : result StoreErr (gmap string Manifest) :=
  (fun snap => inner (Folders (snap_local snap)) folderID) <$> load s.

Definition ListManifestRevisions (s : JSONStore) (folderID : string) : result StoreErr (gmap string Z) :=
  (fun snap => inner (Revisions (snap_local snap)) folderID) <$> load s.

Definition ListTombstones (s : JSONStore) (folderID : string) : result StoreErr (gmap string Z) :=
  (fun snap => inner (Tombstones (snap_local snap)) folderID) <$> load s.

(** ** History *)

(** The newest entry at or below the cursor: revision 0 when there is none. *)
Definition selectRevision (cursor : Z) (selected : Z * Manifest) (entry : Z * Manifest) : Z * Manifest :=
  if (entry.1 <=? cursor) && (selected.1 <=? entry.1) then entry else selected.

Definition selectHistory (cursor : Z) (history : gmap Z Manifest) : option (Z * Manifest) :=
  let selected := foldl (selectRevision cursor) (0, Manifest_zero) (map_to_list history) in
  if 0 <? selected.1 then Some selected else None.

(** The loop over the current revisions adds what history does not hold. *)
Definition currentAt (files : gmap string Manifest) (cursor : Z) (rel : string) (rev : Z)
    : option (Z * Manifest) :=
  if rev <=? cursor then Some (rev, default Manifest_zero (files !! rel)) else None.

(** [for rel in deleted { delete(m, rel) }] *)
Definition without {V} (deleted : gmap string Z) (m : gmap string V) : gmap string V :=
  filter (fun kv => deleted !! kv.1 = None) m.

(** The tombstones at or below the cursor. *)
Definition tombstonesAt (m : folderMeta) (folderID : string) (cursor : Z) : gmap string Z :=
  filter (fun tomb => tomb.2 <= cursor) (inner (Tombstones m) folderID).

Definition manifestsAtCursorWithRevisions (m : folderMeta) (folderID : string) (cursor : Z)
    : gmap string Manifest * gmap string Z :=
  let fromHistory : gmap string (Z * Manifest) :=
    omap (selectHistory cursor) (inner (ManifestHistory m) folderID) in
  let current : gmap string (Z * Manifest) :=
    map_imap (currentAt (inner (Folders m) folderID) cursor) (inner (Revisions m) folderID) in
  let selected := without (tombstonesAt m folderID cursor) (fromHistory ∪ current) in
  (snd <$> selected, fst <$> selected).

Definition manifestsAtCursor (m : folderMeta) (folderID : string) (cursor : Z) : gmap string Manifest :=
  (manifestsAtCursorWithRevisions m folderID cursor).1.

(** ** The folder summary *)

Definition maxInt : Z := maxInt64.

Definition summaryPathCapacity (fileCount tombstoneCount : Z) : result StoreErr Z :=
  if (fileCount <? 0) || (tombstoneCount <? 0) then Err (ErrPathCapacity fileCount tombstoneCount)
  else if maxInt - fileCount <? tombstoneCount then Err (ErrPathCapacity fileCount tombstoneCount)
  else Ok (fileCount + tombstoneCount).

Definition NUL : string := String Ascii.zero EmptyString.

Section summary.
Context (sha256 : bytes -> bytes) (marshal : Manifest -> string).

(** What one tagged path adds to the hashed stream. *)
Definition hashEntry (files : gmap string Manifest) (revisions tombstones : gmap string Z)
    (tagged : string) : string :=
  let kind := take_str 1 tagged in
  let rel := drop_str 2 tagged in
  if bool_decide (kind = "f") then
    "file" +:+ NUL +:+ rel +:+ NUL +:+ itoa (num revisions rel) +:+ NUL
      +:+ marshal (default Manifest_zero (files !! rel)) +:+ NUL
  else if bool_decide (kind = "d") then
    "delete" +:+ NUL +:+ rel +:+ NUL +:+ itoa (num tombstones rel) +:+ NUL
  else EmptyString.

Definition hashStream (files : gmap string Manifest) (revisions tombstones : gmap string Z) : string :=
  let paths := sort_by str_lt
    (((fun rel => "f" +:+ NUL +:+ rel) <$> keys files) ++
     ((fun rel => "d" +:+ NUL +:+ rel) <$> keys tombstones)) in
  foldr (fun tagged acc => hashEntry files revisions tombstones tagged +:+ acc) EmptyString paths.

Definition stateHash (files : gmap string Manifest) (revisions tombstones : gmap string Z) : string :=
  hex_encode (sha256 (String.list_byte_of_string (hashStream files revisions tombstones))).

Definition folderSummary (m : folderMeta) (folderID : string) : result StoreErr FolderSummary :=
  let files := inner (Folders m) folderID in
  let revisions := inner (Revisions m) folderID in
  let tombstones := inner (Tombstones m) folderID in
  _ ← summaryPathCapacity (Z.of_nat (size files)) (Z.of_nat (size tombstones));
  Ok (mkFolderSummary folderID (num (Cursors m) folderID) (Z.of_nat (size files))
        (Z.of_nat (size tombstones)) (stateHash files revisions tombstones)).

Definition folderSummaryAtCursor (m : folderMeta) (folderID : string) (cursor : Z)
    : result StoreErr FolderSummary :=
  if num (Cursors m) folderID <=? cursor then folderSummary m folderID
  else
    let '(manifests, historicalRevisions) := manifestsAtCursorWithRevisions m folderID cursor in
    let deleted := tombstonesAt m folderID cursor in
    folderSummary
      (mkFolderMeta {[folderID := manifests]} ∅ {[folderID := without deleted historicalRevisions]}
         {[folderID := deleted]} ∅ {[folderID := cursor]}) folderID.

Definition FolderSummary_ (s : JSONStore) (folderID : string) : result StoreErr FolderSummary :=
  snap ← load s; folderSummary (snap_local snap) folderID.
End summary.

(** ** Snapshot markers' manifests *)

Definition SnapshotManifests (s : JSONStore) (snapshotID : string)
    : result StoreErr (gmap string Manifest) :=
  snap ← load s;
  match SnapshotMarkers (snap_jobs snap) !! snapshotID with
  | None => Err (ErrNotFound snapshotID)
  | Some marker =>
      Ok (manifestsAtCursor (snap_local snap) (SnapshotMarker_FolderID marker) (SnapshotMarker_Cursor marker))
  end.

Definition preserveSnap (folderID relativePath : string) (revision : Z) (manifest : Manifest)
    (m0 : folderMeta) : folderMeta :=
  let m := ensureFolderState folderID m0 in
  mkFolderMeta (Folders m) (addHistory folderID relativePath revision manifest (ManifestHistory m))
    (Revisions m) (Tombstones m) (RenameHints m) (Cursors m).

Definition PreserveSnapshotManifest (s : JSONStore) (folderID relativePath : string) (revision : Z)
    (manifest : Manifest) :=
  checked s (_ ← require "folder id" folderID; _ ← require "relative path" relativePath;
             fail_if (revision =? 0) (ErrRequired "revision"))
    (modify s (fun snap =>
       Ok (with_local (preserveSnap folderID relativePath revision manifest (snap_local snap)) snap))).

(** ** The abstract folder

    What the store promises about one folder, without the nested maps: its
    live files with their revisions, its tombstones, its rename hints, its
    history and its cursor. *)

Record folder := mkFolder {
  files : gmap string Manifest;
  history : gmap string (gmap Z Manifest);
  revs : gmap string Z;
  tombs : gmap string Z;
  hints : gmap string RenameHint;
  cursor : Z
}.

Definition view (m : folderMeta) (folderID : string) : folder :=
  mkFolder (inner (Folders m) folderID) (inner (ManifestHistory m) folderID)
    (inner (Revisions m) folderID) (inner (Tombstones m) folderID)
    (inner (RenameHints m) folderID) (num (Cursors m) folderID).

Inductive folderOp :=
| OpSave (rel : string) (manifest : Manifest)
| OpDelete (rel : string)
| OpMove (from to : string) (manifest : Manifest).

(** The operation as the code runs it, and as the specification states it. *)
Definition op_snap (folderID : string) (op : folderOp) (m : folderMeta) : folderMeta :=
  match op with
  | OpSave rel manifest => saveManifestSnap folderID rel manifest m
  | OpDelete rel => deleteManifestSnap folderID rel m
  | OpMove from to manifest => moveManifestSnap folderID from to manifest m
  end.

Definition op_store (s : JSONStore) (folderID : string) (op : folderOp) : JSONStore * result StoreErr unit :=
  match op with
  | OpSave rel manifest => SaveManifest s folderID rel manifest
  | OpDelete rel => DeleteManifest s folderID rel
  | OpMove from to manifest => MoveManifest s folderID from to manifest
  end.

Definition write_history (h : gmap string (gmap Z Manifest)) (rel : string) (rev : Z) (manifest : Manifest) :=
  <[rel := <[rev := manifest]> (inner h rel)]> h.

Definition apply_op (v : folder) (op : folderOp) : folder :=
  let rev := u64 (cursor v + 1) in
  match op with
  | OpSave rel manifest =>
      mkFolder (<[rel := manifest]> (files v)) (write_history (history v) rel rev manifest)
        (<[rel := rev]> (revs v)) (delete rel (tombs v)) (hints v) rev
  | OpDelete rel =>
      mkFolder (delete rel (files v)) (history v) (delete rel (revs v))
        (<[rel := rev]> (tombs v)) (hints v) rev
  | OpMove from to manifest =>
      mkFolder (<[to := manifest]> (delete from (files v))) (write_history (history v) to rev manifest)
        (<[to := rev]> (delete from (revs v))) (<[from := rev]> (tombs v))
        (<[from := mkRenameHint from to rev]> (hints v)) rev
  end.

(** A rename to the same path is accepted by the code; the invariant below
    does not cover it. *)
Definition op_ok (op : folderOp) : Prop :=
  match op with OpMove from to _ => from <> to | _ => True end.

(** ** Properties *)

(** *** Nested maps *)

Section nested.
Context {V : Type} `{Empty V}.

Lemma inner_insert_eq (m : gmap string V) k v : inner (<[k := v]> m) k = v.
Proof. unfold inner. by rewrite lookup_insert_eq. Qed.

Lemma inner_insert_ne (m : gmap string V) k k' v : k <> k' -> inner (<[k := v]> m) k' = inner m k'.
Proof. intros Hk. unfold inner. by rewrite lookup_insert_ne. Qed.

Lemma inner_ensure (m : gmap string V) k k' : inner (ensure k m) k' = inner m k'.
Proof.
  unfold ensure. destruct (m !! k) eqn:E; [done|]. unfold inner.
  destruct (decide (k = k')) as [->|Hk]; [by rewrite lookup_insert_eq, E|by rewrite lookup_insert_ne].
Qed.
End nested.

Section nested2.
Context {K V : Type} `{Countable K}.

Lemma inner_put2_eq (m : gmap string (gmap K V)) k x v : inner (put2 k x v m) k = <[x := v]> (inner m k).
Proof. apply inner_insert_eq. Qed.

Lemma inner_put2_ne (m : gmap string (gmap K V)) k k' x v : k <> k' -> inner (put2 k x v m) k' = inner m k'.
Proof. apply inner_insert_ne. Qed.

Lemma inner_del2_eq (m : gmap string (gmap K V)) k x : inner (del2 k x m) k = delete x (inner m k).
Proof.
  unfold inner, del2. rewrite lookup_alter_eq. destruct (m !! k); simpl; [done|]. by rewrite delete_empty.
Qed.

Lemma inner_del2_ne (m : gmap string (gmap K V)) k k' x : k <> k' -> inner (del2 k x m) k' = inner m k'.
Proof. intros Hk. unfold inner, del2. by rewrite lookup_alter_ne. Qed.

Lemma num_insert_eq (m : gmap K Z) k z : num (<[k := z]> m) k = z.
Proof. unfold num. by rewrite lookup_insert_eq. Qed.

Lemma num_insert_ne (m : gmap K Z) k k' z : k <> k' -> num (<[k := z]> m) k' = num m k'.
Proof. intros Hk. unfold num. by rewrite lookup_insert_ne. Qed.
End nested2.

Create Rewrite HintDb nested.
#[export] Hint Rewrite @inner_ensure @inner_insert_eq @inner_put2_eq @inner_del2_eq @num_insert_eq : nested.
#[export] Hint Rewrite @inner_insert_ne @inner_put2_ne @inner_del2_ne @num_insert_ne
  using (done || congruence) : nested.

(** *** Operations refine the abstract folder *)

Lemma view_op_snap folderID op m g :
  view (op_snap folderID op m) g =
  if decide (g = folderID) then apply_op (view m folderID) op else view m g.
Proof.
  destruct op; simpl; unfold saveManifestSnap, deleteManifestSnap, moveManifestSnap, ensureFolderState,
    addHistory, view; simpl; case_decide; subst; autorewrite with nested; done.
Qed.

(** *** The folder invariant *)

Record wf (v : folder) : Prop := {
  wf_cursor : 0 <= cursor v < 2 ^ 64;
  wf_dom x : is_Some (files v !! x) <-> is_Some (revs v !! x);
  wf_rev x r : revs v !! x = Some r -> 1 <= r <= cursor v;
  wf_tomb x r : tombs v !! x = Some r -> 1 <= r <= cursor v;
  wf_hint x h : hints v !! x = Some h -> RenameHint_FromPath h = x /\ 1 <= RenameHint_Revision h <= cursor v;
  wf_hint_ne x h : hints v !! x = Some h -> RenameHint_ToPath h <> x;
  (** a revision belongs to one live path and to one tombstone, and to both
      only when it is that of a rename *)
  wf_rev_inj x y r : revs v !! x = Some r -> revs v !! y = Some r -> x = y;
  wf_tomb_inj x y r : tombs v !! x = Some r -> tombs v !! y = Some r -> x = y;
  wf_hint_inj x y h h' : hints v !! x = Some h -> hints v !! y = Some h' ->
    RenameHint_Revision h = RenameHint_Revision h' -> x = y;
  wf_live_tomb x y r : revs v !! x = Some r -> tombs v !! y = Some r ->
    hints v !! y = Some (mkRenameHint y x r);
  wf_tomb_hint x y h : hints v !! x = Some h -> tombs v !! y = Some (RenameHint_Revision h) -> x = y;
  (** a path is live again only after it was deleted or renamed away *)
  wf_tomb_lt x r t : revs v !! x = Some r -> tombs v !! x = Some t -> t < r;
  wf_hint_lt x h r : hints v !! x = Some h -> revs v !! x = Some r -> RenameHint_Revision h < r;
  wf_hint_live x h : hints v !! x = Some h -> tombs v !! x = None -> is_Some (revs v !! x);
  wf_hint_le x h t : hints v !! x = Some h -> tombs v !! x = Some t -> RenameHint_Revision h <= t;
  (** the history of a live path ends with its current content; a path with a
      history is live or deleted *)
  wf_history x r m : revs v !! x = Some r -> files v !! x = Some m -> inner (history v) x !! r = Some m;
  wf_history_le x k r : is_Some (inner (history v) x !! k) -> revs v !! x = Some r -> k <= r;
  wf_history_pos x k : is_Some (inner (history v) x !! k) -> 1 <= k <= cursor v;
  wf_history_dead x k : is_Some (inner (history v) x !! k) -> revs v !! x = None -> is_Some (tombs v !! x);
  wf_history_tomb x k t : is_Some (inner (history v) x !! k) -> revs v !! x = None ->
    tombs v !! x = Some t -> k < t
}.

Definition folder_empty : folder := mkFolder ∅ ∅ ∅ ∅ ∅ 0.

Lemma wf_empty : wf folder_empty.
Proof.
  unfold folder_empty, inner. split; simpl; intros *; rewrite ?lookup_empty; simpl; rewrite ?lookup_empty;
    try done; try lia; by intros [].
Qed.

(** Splits the lookups of an updated map into its cases. *)
Ltac map_cases :=
  unfold write_history in *;
  repeat match goal with
  | H : <[_ := _]> _ !! _ = Some _ |- _ => apply lookup_insert_Some in H as [[??]|[??]]
  | H : delete _ _ !! _ = Some _ |- _ => apply lookup_delete_Some in H as [??]
  | H : <[_ := _]> _ !! _ = None |- _ => apply lookup_insert_None in H as [??]
  | H : delete _ _ !! _ = None |- _ => apply lookup_delete_None in H as [?|?]
  | H : context [inner (<[?i := _]> _) ?j] |- _ =>
      destruct (decide (i = j)); [subst; rewrite inner_insert_eq in H|rewrite inner_insert_ne in H by done]
  | H : is_Some (<[_ := _]> _ !! _) |- _ => apply lookup_insert_is_Some in H as [?|[??]]
  end; simplify_eq/=.

(** Adds [pf]'s statement once. *)
Ltac learn pf :=
  let T := type of pf in
  lazymatch goal with _ : T |- _ => fail | _ => pose proof pf end.

(** The bounds the invariant gives for the lookups in the context. *)
Ltac wf_bounds W :=
  repeat match goal with
  | H : revs _ !! _ = Some _ |- _ => learn (wf_rev _ W _ _ H)
  | H : tombs _ !! _ = Some _ |- _ => learn (wf_tomb _ W _ _ H)
  | H : hints _ !! _ = Some _ |- _ => learn (wf_hint _ W _ _ H)
  | H : is_Some (inner (history _) _ !! _) |- _ => learn (wf_history_pos _ W _ _ H)
  end.

Lemma inner_write_history h rel rev m x :
  inner (write_history h rel rev m) x =
  if decide (rel = x) then <[rev := m]> (inner h rel) else inner h x.
Proof.
  unfold write_history. case_decide; subst; by autorewrite with nested.
Qed.

Ltac wf_case W :=
  intros;
  rewrite ?inner_write_history, ?lookup_insert_is_Some', ?lookup_delete_is_Some in *;
  repeat case_decide; map_cases; try done; rewrite ?lookup_insert_eq, ?lookup_insert_ne by done; try done;
  wf_bounds W; destruct_and?; simplify_eq/=; split_and?; try done; try lia;
  try (destruct W; first [done | lia | by eauto 3 | by naive_solver]).

Lemma wf_save v rel m : wf v -> cursor v + 1 < 2 ^ 64 -> wf (apply_op v (OpSave rel m)).
Proof.
  intros W Hlt. pose proof (wf_cursor v W).
  simpl. rewrite u64_small by lia. split; simpl; intros *.
  all: wf_case W.
Qed.

Lemma wf_delete v rel : wf v -> cursor v + 1 < 2 ^ 64 -> wf (apply_op v (OpDelete rel)).
Proof.
  intros W Hlt. pose proof (wf_cursor v W).
  simpl. rewrite u64_small by lia. split; simpl; intros *.
  all: wf_case W.
Qed.

Lemma wf_move v from to m : wf v -> cursor v + 1 < 2 ^ 64 -> from <> to -> wf (apply_op v (OpMove from to m)).
Proof.
  intros W Hlt Hne. pose proof (wf_cursor v W).
  simpl. rewrite u64_small by lia. split; simpl; intros *.
  all: wf_case W.
Qed.

Lemma wf_op v op : wf v -> cursor v + 1 < 2 ^ 64 -> op_ok op -> wf (apply_op v op).
Proof. intros. destruct op; by auto using wf_save, wf_delete, wf_move. Qed.

(** *** Loading a well-formed snapshot changes nothing *)

(** Two folder states the store's operations cannot tell apart: they may
    differ in which empty inner maps exist. *)
Definition same_views (m m' : folderMeta) : Prop := forall f, view m f = view m' f.

#[export] Instance same_views_equiv : Equivalence same_views.
Proof. 
  unfold same_views. split.
  - by intros m f.
  - intros m m' H f. by rewrite H.
  - intros m1 m2 m3 H1 H2 f. by rewrite H1.
Qed.

Definition wf_meta (m : folderMeta) : Prop := forall f, wf (view m f).

#[export] Instance wf_meta_proper : Proper (same_views ==> iff) wf_meta.
Proof. intros m m' H. unfold wf_meta. split; intros W f; [rewrite <- H|rewrite H]; done. Qed.

(** What loading relies on: compacting tombstones keeps this much. *)
Record loadable (v : folder) : Prop := {
  loadable_dom x : is_Some (files v !! x) <-> is_Some (revs v !! x);
  loadable_rev x r : revs v !! x = Some r -> 1 <= r;
  loadable_tomb x r : tombs v !! x = Some r -> r <= cursor v;
  loadable_history x r m : revs v !! x = Some r -> files v !! x = Some m -> inner (history v) x !! r = Some m
}.

Lemma wf_loadable v : wf v -> loadable v.
Proof.
  intros W. split; [apply (wf_dom _ W)| | |apply (wf_history _ W)].
  - intros x r Hr. apply (wf_rev _ W) in Hr. lia.
  - intros x r Hr. apply (wf_tomb _ W) in Hr. lia.
Qed.

Definition loadable_meta (m : folderMeta) : Prop := forall f, loadable (view m f).

Lemma wf_loadable_meta m : wf_meta m -> loadable_meta m.
Proof. intros W f. apply wf_loadable, W. Qed.

Lemma foldl_same_views {X} (step : folderMeta -> X -> folderMeta) (l : list X) m m0 :
  same_views m m0 ->
  (forall x m', x ∈ l -> same_views m' m0 -> same_views (step m' x) m0) ->
  same_views (foldl step m l) m0.
Proof.
  revert m. induction l as [|x l IH]; intros m Hm Hstep; simpl; [done|].
  apply IH; [apply Hstep; [left|done]|]. intros y m' Hy. apply Hstep. by right.
Qed.

Lemma insert_inner_id {K V} `{Countable K} (m : gmap string (gmap K V)) x k v :
  inner m x !! k = Some v -> <[x := inner m x]> m = m.
Proof.
  unfold inner. intros Hk. destruct (m !! x) eqn:E; simpl in *; [by apply insert_id|].
  by rewrite lookup_empty in Hk.
Qed.

Lemma recordHistory_id f m rel man :
  loadable (view m f) -> files (view m f) !! rel = Some man -> same_views (recordHistory f m (rel, man)) m.
Proof.
  intros W Hf g. unfold recordHistory. simpl.
  assert (is_Some (revs (view m f) !! rel)) as [r Hr] by (apply (loadable_dom _ W); eauto).
  unfold num. simpl in Hr. rewrite Hr. simpl.
  pose proof (loadable_rev _ W _ _ Hr) as Hb. rewrite (proj2 (Z.eqb_neq _ _)) by lia.
  pose proof (loadable_history _ W _ _ _ Hr Hf) as Hh. simpl in Hh. rewrite Hh.
  unfold view. simpl. f_equal. destruct (decide (f = g)) as [<-|Hne]; autorewrite with nested; [|done].
  by eapply insert_inner_id.
Qed.

(** Every file of a loadable folder has a revision. *)
Lemma unnumbered_none m f fs : loadable_meta m -> inner (Folders m) f = fs ->
  filter (fun rel => num (inner (ensure f (Revisions m)) f) rel = 0) (keys fs) = [].
Proof.
  intros W Hfs. destruct (filter _ _) as [|rel l] eqn:E; [done|]. exfalso.
  assert (rel ∈ rel :: l) as Hin by left. rewrite <- E in Hin.
  apply list_elem_of_filter in Hin as [Hz Hin]. autorewrite with nested in Hz.
  apply list_elem_of_fmap in Hin as ([rel' man] & -> & Hin).
  apply elem_of_map_to_list in Hin. simpl in *.
  assert (is_Some (revs (view m f) !! rel')) as [r Hr]
    by (apply (loadable_dom _ (W f)); simpl; rewrite Hfs; eauto).
  pose proof (loadable_rev _ (W f) _ _ Hr). unfold num in Hz. simpl in Hr. rewrite Hr in Hz. simpl in Hz. lia.
Qed.

Lemma normalizeFolder_id m f fs :
  loadable_meta m -> inner (Folders m) f = fs -> same_views (normalizeFolder m (f, fs)) m.
Proof.
  intros W Hfs. unfold normalizeFolder. simpl.
  set (m1 := mkFolderMeta _ _ _ _ _ _).
  assert (same_views m1 m) as Hm1 by (intros g; unfold view; simpl; by autorewrite with nested).
  rewrite (unnumbered_none m f fs W Hfs).
  simpl. apply foldl_same_views; [done|]. intros [rel man] m' Hin Hm'.
  apply elem_of_map_to_list in Hin. rewrite recordHistory_id; [done| |].
  - rewrite (Hm' f). apply W.
  - rewrite (Hm' f). simpl. by rewrite Hfs.
Qed.

Lemma raiseCursor_id m f rel t :
  loadable (view m f) -> tombs (view m f) !! rel = Some t -> same_views (raiseCursor f m (rel, t)) m.
Proof.
  intros W Ht. pose proof (loadable_tomb _ W _ _ Ht) as Hb. simpl in Hb.
  unfold raiseCursor. simpl. rewrite (proj2 (Z.ltb_ge _ _)) by lia. done.
Qed.

Lemma inner_map_to_list {V} `{Empty V} (m : gmap string V) f v : (f, v) ∈ map_to_list m -> inner m f = v.
Proof. intros Hf%elem_of_map_to_list. unfold inner. by rewrite Hf. Qed.

Lemma normalizeSnapshot_id m : loadable_meta m -> same_views (normalizeSnapshot m) m.
Proof.
  intros W. unfold normalizeSnapshot.
  set (m1 := foldl normalizeFolder m _).
  assert (same_views m1 m) as Hm1.
  { apply foldl_same_views; [done|]. intros [f fs] m' Hf%inner_map_to_list Hm'.
    rewrite normalizeFolder_id; [done|by intros g; rewrite (Hm' g); apply W|]. rewrite <- Hf.
    exact (f_equal files (Hm' f)). }
  apply foldl_same_views; [done|]. intros [f ts] m' Hf%inner_map_to_list Hm'. simpl.
  apply foldl_same_views; [done|]. intros [rel t] m'' Hrel%elem_of_map_to_list Hm''.
  rewrite raiseCursor_id; [done|rewrite (Hm'' f); apply W|]. rewrite (Hm'' f), <- (Hm1 f). simpl. by rewrite Hf.
Qed.

(** Nor does it change which cursors are recorded. *)
Lemma foldl_Cursors {X} (step : folderMeta -> X -> folderMeta) (l : list X) m :
  (forall m' x, Cursors (step m' x) = Cursors m') -> Cursors (foldl step m l) = Cursors m.
Proof. intros Hs. revert m. induction l as [|x l IH]; intros m; simpl; [done|]. by rewrite IH. Qed.

Lemma normalizeFolder_Cursors m f fs :
  loadable_meta m -> inner (Folders m) f = fs -> Cursors (normalizeFolder m (f, fs)) = Cursors m.
Proof.
  intros W Hfs. unfold normalizeFolder. simpl. rewrite (unnumbered_none m f fs W Hfs). simpl.
  rewrite (foldl_Cursors (recordHistory f)); [done|]. intros m' e. unfold recordHistory. cbv zeta. by destruct (_ =? 0).
Qed.

Lemma raiseCursor_Cursors m f rel t :
  loadable (view m f) -> tombs (view m f) !! rel = Some t -> Cursors (raiseCursor f m (rel, t)) = Cursors m.
Proof.
  intros W Ht. pose proof (loadable_tomb _ W _ _ Ht) as Hb. simpl in Hb.
  unfold raiseCursor. simpl. by rewrite (proj2 (Z.ltb_ge _ _)) by lia.
Qed.

Lemma foldl_steady {X} (step : folderMeta -> X -> folderMeta) (l : list X) m m0 :
  same_views m m0 ->
  (forall x m', x ∈ l -> same_views m' m0 -> same_views (step m' x) m0 /\ Cursors (step m' x) = Cursors m') ->
  Cursors (foldl step m l) = Cursors m.
Proof.
  revert m. induction l as [|x l IH]; intros m Hm Hstep; simpl; [done|].
  destruct (Hstep x m) as [Hv Hc]; [left|done|]. rewrite IH; [done|done|]. intros y m' Hy. apply Hstep. by right.
Qed.

Lemma normalizeSnapshot_Cursors m : loadable_meta m -> Cursors (normalizeSnapshot m) = Cursors m.
Proof.
  intros W. unfold normalizeSnapshot.
  set (m1 := foldl normalizeFolder m _).
  assert (forall e m', e ∈ map_to_list (Folders m) -> same_views m' m ->
    same_views (normalizeFolder m' e) m /\ Cursors (normalizeFolder m' e) = Cursors m') as Hstep.
  { intros [f fs] m' Hf%inner_map_to_list Hm'. assert (loadable_meta m') as W' by (intros g; rewrite (Hm' g); apply W).
    assert (inner (Folders m') f = fs) as Hfs by (rewrite <- Hf; exact (f_equal files (Hm' f))).
    split; [rewrite normalizeFolder_id; done|by apply normalizeFolder_Cursors]. }
  assert (same_views m1 m) as Hm1 by (apply foldl_same_views; [done|]; intros e m' He Hm'; by apply Hstep).
  trans (Cursors m1); [|by apply (foldl_steady normalizeFolder _ _ m)].
  apply (foldl_steady (fun m folder => foldl (raiseCursor folder.1) m (map_to_list folder.2)) _ _ m); [done|].
  intros [f ts] m' Hf%inner_map_to_list Hm'. simpl.
  assert (forall e m'', e ∈ map_to_list ts -> same_views m'' m ->
    same_views (raiseCursor f m'' e) m /\ Cursors (raiseCursor f m'' e) = Cursors m'') as Hraise.
  { intros [rel t] m'' Hrel%elem_of_map_to_list Hm''.
    assert (tombs (view m'' f) !! rel = Some t) as Ht by (rewrite (Hm'' f), <- (Hm1 f); simpl; by rewrite Hf).
    assert (loadable (view m'' f)) as W'' by (rewrite (Hm'' f); apply W).
    split; [rewrite raiseCursor_id; done|by apply (raiseCursor_Cursors _ _ rel t)]. }
  split; [apply foldl_same_views; [done|]; intros e m'' He Hm''; by apply Hraise|by apply (foldl_steady _ _ _ m)].
Qed.

(** *** Stores *)

Lemma save_ok s snap snap' :
  load s = Ok snap ->
  match save s snap' with
  | (s', Ok _) => load s' = Ok (normalizeLoadedSnapshot snap')
  | (s', Err e) => s' = s /\ e = ErrSave
  end.
Proof.
  intros Hl. unfold save, load in *. destruct (JSONStore_backend s) as [b|]; [|done].
  unfold backend_Save. destruct (backend_writeFault b); [done|]. simpl.
  unfold backend_Load in *. simpl. destruct (backend_readFault b); done.
Qed.

Lemma modify_ok s f snap snap' :
  load s = Ok snap -> f snap = Ok snap' ->
  match modify s f with
  | (s', Ok _) => load s' = Ok (normalizeLoadedSnapshot snap')
  | (s', Err e) => s' = s /\ e = ErrSave
  end.
Proof. intros Hl Hf. unfold modify. rewrite Hl. simpl. rewrite Hf. by eapply save_ok. Qed.

Lemma modify_err s f e : load s ≫= f = Err e -> modify s f = (s, Err e).
Proof. intros H. unfold modify. by rewrite H. Qed.

Definition empty_path (op : folderOp) : bool :=
  match op with
  | OpMove from to _ => bool_decide (from = EmptyString) || bool_decide (to = EmptyString)
  | _ => false
  end.

Lemma op_store_modify s folderID op :
  folderID <> EmptyString -> empty_path op = false ->
  op_store s folderID op =
  modify s (fun snap => Ok (with_local (op_snap folderID op (snap_local snap)) snap)).
Proof.
  intros Hf Hp. destruct op as [| |from to m]; [done..|]. simpl in *. apply orb_false_iff in Hp as [H1 H2].
  unfold MoveManifest, require. rewrite (bool_decide_eq_false_2 _ Hf), H1, H2. done.
Qed.

(** [C3] SaveManifest, DeleteManifest and MoveManifest implement the abstract
    folder: on a store whose folders satisfy the invariant, an operation that
    reports an error leaves the store as it was; one that succeeds leaves a
    store that loads, in which the folder is the abstract operation's result,
    every other folder and all other metadata are unchanged, and every folder
    satisfies the invariant again.  Loading such a store changes no folder. *)
Theorem store_ops_refine s snap folderID op :
  load s = Ok snap -> wf_meta (snap_local snap) ->
  folderID <> EmptyString -> empty_path op = false -> op_ok op ->
  cursor (view (snap_local snap) folderID) + 1 < 2 ^ 64 ->
  match op_store s folderID op with
  | (s', Err _) => s' = s
  | (s', Ok _) => exists snap', load s' = Ok snap'
      /\ view (snap_local snap') folderID = apply_op (view (snap_local snap) folderID) op
      /\ (forall g, g <> folderID -> view (snap_local snap') g = view (snap_local snap) g)
      /\ wf_meta (snap_local snap')
      /\ snap_peer snap' = snap_peer snap /\ CompactionSnapshots snap' = CompactionSnapshots snap
      /\ snap_jobs snap' = snap_jobs snap /\ snap_gate snap' = snap_gate snap
      /\ snap_settings snap' = snap_settings snap
  end.
Proof.
  intros Hl W Hf Hp Hok Hlt. rewrite op_store_modify by done.
  pose proof (modify_ok s (fun snap => Ok (with_local (op_snap folderID op (snap_local snap)) snap)) _ _
    Hl eq_refl) as Hm.
  destruct (modify _ _) as [s' [u|e]]; [|by destruct Hm]. eexists. split; [exact Hm|]. simpl.
  set (m' := op_snap folderID op (snap_local snap)) in *.
  assert (wf_meta m') as W'.
  { intros g. unfold m'. rewrite view_op_snap. case_decide; [by apply wf_op|]. apply W. }
  pose proof (normalizeSnapshot_id m' (wf_loadable_meta _ W')) as Hn. split_and?; try done.
  - rewrite (Hn folderID). unfold m'. by rewrite view_op_snap, decide_True.
  - intros g Hg. rewrite (Hn g). unfold m'. by rewrite view_op_snap, decide_False.
  - by rewrite Hn.
Qed.

(** A fresh store on disk, and its first files. *)
Definition demo_store : JSONStore := mkStore (Some (mkBackend NoFile false false)).
Definition demo_manifest (h : byte) : Manifest :=
  mkManifest "a" 1 4 [mkBlock 0 0 1 [h]] "complete" false 0 0 0 0.

Lemma wf_meta_zero : wf_meta folderMeta_zero.
Proof. intros f. apply wf_empty. Qed.

Lemma store_ops_refine_witness :
  let s' := (op_store demo_store "docs" (OpSave "a" (demo_manifest Byte.x61))).1 in
  LoadManifest s' "docs" "a" = Ok (Some (demo_manifest Byte.x61)).
Proof.
  intros s'. assert (load demo_store = Ok snapshot_zero) as Hl by reflexivity.
  pose proof (store_ops_refine demo_store snapshot_zero "docs" (OpSave "a" (demo_manifest Byte.x61))
    Hl wf_meta_zero ltac:(discriminate) eq_refl I eq_refl) as H.
  assert ((op_store demo_store "docs" (OpSave "a" (demo_manifest Byte.x61))).2 = Ok tt) as Hok
    by reflexivity.
  unfold s'. destruct (op_store _ _ _) as [s1 [u|e]]; [|discriminate Hok]. simpl.
  destruct H as (snap' & Hl' & Hv & _). unfold LoadManifest. rewrite Hl'. simpl. do 2 f_equal.
  apply (f_equal files) in Hv. simpl in Hv. rewrite Hv. reflexivity.
Defined.

(** *** Calls that overlap

    The methods hold no lock: each loads the whole snapshot, changes it and saves
    it, and two calls in two goroutines (a catch-up of metadata runs beside the
    pull that started it, [startAsyncMetadataCatchup] of streamsync.go) may both
    load before either saves.  Everything else in this library is about calls that
    follow one another. *)

(** A call that loaded the store [s0] and saves when it has become [s]. *)
Definition late_save (s0 s : JSONStore) (f : snapshot -> result StoreErr snapshot) : JSONStore * result StoreErr unit :=
  match load s0 ≫= f with
  | Ok snap => save s snap
  | Err e => (s, Err e)
  end.

Lemma late_save_now s f : late_save s s f = modify s f.
Proof. done. Qed.

(** Both calls return no error, and the store is as if the one that saved first had
    not been made. *)
Theorem lost_update s f g : (modify s f).2 = Ok tt -> (modify s g).2 = Ok tt -> late_save s (modify s f).1 g = modify s g.
Proof.
  unfold late_save, modify. destruct (load s ≫= f) as [x|]; [|done]. destruct (load s ≫= g) as [y|]; [|done].
  unfold save. destruct (JSONStore_backend s) as [b|]; [|done]. unfold backend_Save. by destruct (backend_writeFault b).
Qed.

Lemma lost_update_witness :
  let save_file path h := fun snap => Ok (with_local (saveManifestSnap "docs" path (demo_manifest h) (snap_local snap)) snap) in
  let s1 := (SaveManifest demo_store "docs" "a" (demo_manifest Byte.x61)).1 in
  let s2 := (late_save demo_store s1 (save_file "b" Byte.x62)).1 in
  LoadManifest s1 "docs" "a" = Ok (Some (demo_manifest Byte.x61)) /\ LoadManifest s2 "docs" "a" = Ok None.
Proof.
  intros save_file s1 s2. split; [vm_compute; reflexivity|]. unfold s2, s1.
  change (SaveManifest demo_store "docs" "a" (demo_manifest Byte.x61)) with (modify demo_store (save_file "a" Byte.x61)).
  rewrite (lost_update demo_store (save_file "a" Byte.x61) (save_file "b" Byte.x62)); vm_compute; reflexivity.
Defined.

(** *** Histories of operations *)

Definition run (v : folder) (ops : list folderOp) : folder := foldl apply_op v ops.

Definition run_snap (folderID : string) (m : folderMeta) (ops : list folderOp) : folderMeta :=
  foldl (fun m op => op_snap folderID op m) m ops.

Lemma view_run_snap folderID m ops : view (run_snap folderID m ops) folderID = run (view m folderID) ops.
Proof.
  revert m. induction ops as [|op ops IH]; intros m; simpl; [done|].
  by rewrite IH, view_op_snap, decide_True.
Qed.

Lemma cursor_apply_op v op : 0 <= cursor v -> cursor v + 1 < 2 ^ 64 -> cursor (apply_op v op) = cursor v + 1.
Proof. intros. destruct op; simpl; rewrite u64_small by lia; done. Qed.

(** Induction along a history: the cursor counts the operations. *)
Lemma run_ind (P : folder -> Prop) v ops :
  wf v -> cursor v + Z.of_nat (length ops) < 2 ^ 64 -> Forall op_ok ops ->
  P v ->
  (forall v' op, wf v' -> cursor v <= cursor v' -> cursor v' + 1 < 2 ^ 64 -> op ∈ ops -> op_ok op ->
     P v' -> P (apply_op v' op)) ->
  wf (run v ops) /\ cursor (run v ops) = cursor v + Z.of_nat (length ops) /\ P (run v ops).
Proof.
  intros W Hlen Hok H0 Hstep. induction ops as [|op ops IH] using rev_ind.
  { simpl. split_and?; [done|lia|done]. }
  rewrite length_app in *. simpl in *. apply Forall_app in Hok as [Hok1 Hok2].
  destruct IH as (W' & Hc & HP); [lia|done| |].
  { intros v' op' ????. apply Hstep; try done. apply elem_of_app. by left. }
  assert (op_ok op) as Hop by by inversion Hok2.
  pose proof (wf_cursor _ W).
  unfold run in *. rewrite foldl_snoc. split_and?.
  - apply wf_op; [done|lia|done].
  - rewrite cursor_apply_op; lia.
  - apply Hstep; [done|lia|lia| |done|done]. apply elem_of_app. right. left.
Qed.

(** *** History *)

Lemma selectRevision_fold c l sel :
  let r := foldl (selectRevision c) sel l in
  (r = sel \/ (r ∈ l /\ r.1 <= c)) /\ sel.1 <= r.1 /\
  (forall e, e ∈ l -> e.1 <= c -> e.1 <= r.1).
Proof.
  revert sel. induction l as [|e l IH]; intros sel; simpl.
  { split; [by left|]. split; [done|]. by intros e He%elem_of_nil. }
  destruct (IH (selectRevision c sel e)) as (H1 & H2 & H3). clear IH.
  set (r := foldl _ _ _) in *. unfold selectRevision in H1, H2.
  destruct ((e.1 <=? c) && (sel.1 <=? e.1)) eqn:E.
  - apply andb_true_iff in E as [E1%Z.leb_le E2%Z.leb_le]. split_and?.
    + right. destruct H1 as [->|[H1 ?]]; [split; [by left|done]|]. split; [by right|done].
    + lia.
    + intros e' [->|He']%elem_of_cons Hc; [done|]. by apply H3.
  - apply andb_false_iff in E. split_and?.
    + destruct H1 as [->|[H1 ?]]; [by left|]. right. split; [by right|done].
    + done.
    + intros e' [->|He']%elem_of_cons Hc; [|by apply H3].
      destruct E as [E%Z.leb_gt|E%Z.leb_gt]; lia.
Qed.

Lemma selectHistory_Some c (h : gmap Z Manifest) r m :
  selectHistory c h = Some (r, m) -> h !! r = Some m /\ 1 <= r <= c /\
  forall k, is_Some (h !! k) -> k <= c -> k <= r.
Proof.
  unfold selectHistory. pose proof (selectRevision_fold c (map_to_list h) (0, Manifest_zero)) as (H1 & H2 & H3).
  destruct (foldl _ _ _) as [r' m']. simpl in *. destruct (Z.ltb_spec 0 r'); [|done]. intros [= -> ->].
  destruct H1 as [[= -> ->]|[H1 Hc]]; [lia|]. apply elem_of_map_to_list in H1. split_and?; try done; [lia|].
  intros k [mk Hk] Hkc. apply (H3 (k, mk)); [|done]. by apply elem_of_map_to_list.
Qed.

Lemma selectHistory_None c (h : gmap Z Manifest) :
  selectHistory c h = None -> forall k, is_Some (h !! k) -> k <= c -> k <= 0.
Proof.
  unfold selectHistory. pose proof (selectRevision_fold c (map_to_list h) (0, Manifest_zero)) as (_ & _ & H3).
  destruct (foldl _ _ _) as [r' m']. simpl in *. destruct (Z.ltb_spec 0 r'); [done|]. intros _ k [mk Hk] Hkc.
  assert (k <= r') by (apply (H3 (k, mk)); [by apply elem_of_map_to_list|done]). lia.
Qed.

Lemma selectHistory_empty c : selectHistory c ∅ = None.
Proof. unfold selectHistory. by rewrite map_to_list_empty. Qed.

Lemma selectHistory_inner c (h : gmap string (gmap Z Manifest)) x :
  h !! x ≫= selectHistory c = selectHistory c (inner h x).
Proof. unfold inner. destruct (h !! x); [done|]. by rewrite selectHistory_empty. Qed.

(** Only the entries at or below the cursor matter. *)
Lemma selectHistory_ext c (h h' : gmap Z Manifest) :
  (forall k, 1 <= k <= c -> h !! k = h' !! k) -> selectHistory c h = selectHistory c h'.
Proof.
  intros Heq. destruct (selectHistory c h) as [[r m]|] eqn:E, (selectHistory c h') as [[r' m']|] eqn:E'; [| | |done].
  - apply selectHistory_Some in E as (H1 & Hr & H2), E' as (H1' & Hr' & H2').
    assert (r = r') as ->.
    { apply Z.le_antisymm; [apply H2'|apply H2]; try lia; [rewrite <- Heq by lia|rewrite Heq by lia]; eauto. }
    rewrite Heq in H1 by lia. congruence.
  - apply selectHistory_Some in E as (H1 & Hr & H2).
    assert (r <= 0); [|lia]. apply (selectHistory_None _ _ E'); [|lia]. rewrite <- Heq by lia. eauto.
  - apply selectHistory_Some in E' as (H1 & Hr & H2).
    assert (r' <= 0); [|lia]. apply (selectHistory_None _ _ E); [|lia]. rewrite Heq by lia. eauto.
Qed.

(** What the historical state holds at a path, in terms of the view. *)
Definition at_cursor (v : folder) (c : Z) (x : string) : option (Z * Manifest) :=
  match tombs v !! x with
  | Some t => if t <=? c then None else selectHistory c (inner (history v) x)
  | None => selectHistory c (inner (history v) x)
  end.

Lemma lookup_without {V} (d : gmap string Z) (m : gmap string V) x :
  without d m !! x = match d !! x with None => m !! x | Some _ => None end.
Proof.
  unfold without. destruct (d !! x) eqn:Hd.
  - apply map_lookup_filter_None_2. right. intros v _. simpl. by rewrite Hd.
  - destruct (m !! x) eqn:Hm.
    + by apply map_lookup_filter_Some_2.
    + apply map_lookup_filter_None_2. by left.
Qed.

Lemma lookup_tombstonesAt m f c x :
  tombstonesAt m f c !! x =
  match tombs (view m f) !! x with Some t => if t <=? c then Some t else None | None => None end.
Proof.
  unfold tombstonesAt. simpl. destruct (inner (Tombstones m) f !! x) as [t|] eqn:Ht.
  - destruct (Z.leb_spec t c).
    + by apply map_lookup_filter_Some_2.
    + apply map_lookup_filter_None_2. right. intros t' Ht' Hc. simpl in Hc. simplify_eq. lia.
  - apply map_lookup_filter_None_2. by left.
Qed.

Lemma lookup_manifestsAtCursor m f c x :
  wf (view m f) ->
  (manifestsAtCursorWithRevisions m f c).1 !! x = snd <$> at_cursor (view m f) c x
  /\ (manifestsAtCursorWithRevisions m f c).2 !! x = fst <$> at_cursor (view m f) c x.
Proof.
  intros W. unfold manifestsAtCursorWithRevisions. cbn [fst snd]. rewrite !lookup_fmap, lookup_without, lookup_tombstonesAt.
  unfold at_cursor. destruct (tombs (view m f) !! x) as [t|] eqn:Ht; [destruct (t <=? c); [done|]|].
  all: rewrite lookup_union, lookup_omap, map_lookup_imap.
  all: assert (inner (ManifestHistory m) f !! x ≫= selectHistory c = selectHistory c (inner (history (view m f)) x)) as ->
    by apply selectHistory_inner.
  all: destruct (selectHistory c (inner (history (view m f)) x)) as [e|] eqn:Hsel;
    [by rewrite union_Some_l|].
  all: rewrite (left_id_L None _); destruct (inner (Revisions m) f !! x) as [r|] eqn:Hr; [|done]; simpl.
  all: unfold currentAt; destruct (Z.leb_spec r c); [|done]; exfalso.
  all: change (revs (view m f) !! x = Some r) in Hr; pose proof (wf_rev _ W _ _ Hr);
    assert (is_Some (files (view m f) !! x)) as [man Hman] by (apply (wf_dom _ W); eauto);
    pose proof (wf_history _ W _ _ _ Hr Hman);
    assert (r <= 0) by (apply (selectHistory_None _ _ Hsel); eauto); lia.
Qed.

(** Right after an operation the historical state is the current one, unless a
    path is both live and tombstoned. *)
Lemma at_cursor_now v x :
  wf v -> (is_Some (revs v !! x) -> tombs v !! x = None) ->
  snd <$> at_cursor v (cursor v) x = files v !! x.
Proof.
  intros W Hclean. unfold at_cursor. destruct (revs v !! x) as [r|] eqn:Hr.
  - rewrite Hclean by done. assert (is_Some (files v !! x)) as [m Hm] by (apply (wf_dom _ W); eauto).
    pose proof (wf_history _ W _ _ _ Hr Hm) as Hh. pose proof (wf_rev _ W _ _ Hr).
    destruct (selectHistory _ _) as [[r' m']|] eqn:E; simpl.
    + apply selectHistory_Some in E as (H1 & H2 & H3).
      assert (r' = r) as ->; [|congruence].
      apply Z.le_antisymm; [|apply H3; [eauto|lia]]. by apply (wf_history_le _ W x); eauto.
    + assert (r <= 0); [|lia]. apply (selectHistory_None _ _ E); [eauto|lia].
  - assert (files v !! x = None) as ->.
    { apply eq_None_not_Some. intros Hm%(wf_dom _ W). rewrite Hr in Hm. by destruct Hm. }
    destruct (tombs v !! x) as [t|] eqn:Ht.
    { pose proof (wf_tomb _ W _ _ Ht). by rewrite (proj2 (Z.leb_le _ _)) by lia. }
    destruct (selectHistory _ _) as [[r' m']|] eqn:E; [|done].
    apply selectHistory_Some in E as (H1 & _ & _).
    destruct (wf_history_dead _ W x r') as [t Ht']; [eauto|done|congruence].
Qed.

(** The path an operation takes a file away from, or writes one to. *)
Definition op_source (op : folderOp) : string :=
  match op with OpSave rel _ => rel | OpDelete rel => rel | OpMove from _ _ => from end.

(** The past does not change: every path whose tombstone the operation leaves
    alone reads as before at an earlier cursor. *)
Lemma at_cursor_op v op c x :
  wf v -> 0 <= c <= cursor v -> cursor v + 1 < 2 ^ 64 -> op_ok op ->
  (forall t, tombs v !! op_source op = Some t -> c < t) ->
  at_cursor (apply_op v op) c x = at_cursor v c x.
Proof.
  intros W Hc Hlt Hok Hsrc. unfold at_cursor.
  assert (selectHistory c (inner (history (apply_op v op)) x) = selectHistory c (inner (history v) x)) as ->.
  { apply selectHistory_ext. intros k Hk. destruct op; simpl; [|done|];
      rewrite inner_write_history, u64_small by lia; case_decide; subst; [|done| |done];
      rewrite lookup_insert_ne by lia; done. }
  assert (forall y t, tombs v !! y = Some t -> op_source op = y -> c < t) as Hlow by naive_solver.
  destruct op as [rel m|rel|from to m]; simpl in *; rewrite ?u64_small by lia.
  - destruct (decide (rel = x)) as [->|]; [|by rewrite lookup_delete_ne].
    rewrite lookup_delete_eq. destruct (tombs v !! x) as [t|] eqn:Ht; [|done].
    by rewrite (proj2 (Z.leb_gt _ _)) by eauto.
  - destruct (decide (rel = x)) as [->|]; [|by rewrite lookup_insert_ne].
    rewrite lookup_insert_eq, (proj2 (Z.leb_gt (cursor v + 1) _)) by lia.
    destruct (tombs v !! x) as [t|] eqn:Ht; [|done]. by rewrite (proj2 (Z.leb_gt _ _)) by eauto.
  - destruct (decide (from = x)) as [->|]; [|by rewrite lookup_insert_ne].
    rewrite lookup_insert_eq, (proj2 (Z.leb_gt (cursor v + 1) _)) by lia.
    destruct (tombs v !! x) as [t|] eqn:Ht; [|done]. by rewrite (proj2 (Z.leb_gt _ _)) by eauto.
Qed.

(** Snapshots are stable: the manifests the store reconstructs for a
    marker's cursor are exactly the files that were live when the marker was
    taken, whatever saves, deletes and renames follow, as long as no path was
    both live and tombstoned at the marker and no later operation touches a
    path that was already tombstoned there.  (Without those two conditions the
    reconstruction is wrong: see [rename_over_deleted_lost] and
    [resaved_path_resurrected].) *)
Theorem manifestsAtCursor_stable m folderID ops :
  let v := view m folderID in
  wf v -> (forall x, is_Some (revs v !! x) -> tombs v !! x = None) ->
  cursor v + Z.of_nat (length ops) < 2 ^ 64 -> Forall op_ok ops ->
  (forall op, op ∈ ops -> tombs v !! op_source op = None) ->
  manifestsAtCursor (run_snap folderID m ops) folderID (cursor v) = files v.
Proof.
  intros v W Hclean Hlen Hok Hsrc. pose proof (wf_cursor _ W).
  destruct (run_ind (fun v' => (forall x, at_cursor v' (cursor v) x = at_cursor v (cursor v) x)
      /\ forall x t, tombs v' !! x = Some t -> t <= cursor v -> tombs v !! x = Some t) v ops)
    as (W' & _ & Hat & _); [done..| |].
  - intros v' op W' Hc Hlt Hop Hopok [Hat Htomb]. split.
    + intros x. rewrite at_cursor_op; [done|done|lia|done|done|].
      intros t Ht. destruct (Z_lt_ge_dec (cursor v) t) as [|Hge]; [done|].
      pose proof (Hsrc _ Hop). rewrite (Htomb _ _ Ht) in *; [done|lia].
    + intros x t. destruct op; simpl; rewrite ?u64_small by lia; intros Ht Hle; map_cases; try lia; eauto.
  - apply map_eq. intros x. unfold manifestsAtCursor.
    assert (view (run_snap folderID m ops) folderID = run v ops) as Hv by apply view_run_snap.
    rewrite <- Hv in W', Hat.
    destruct (lookup_manifestsAtCursor (run_snap folderID m ops) folderID (cursor v) x W') as [-> _].
    rewrite Hat. apply at_cursor_now; [done|]. apply Hclean.
Qed.

Lemma manifestsAtCursor_stable_witness :
  let m := run_snap "docs" folderMeta_zero [OpSave "a" (demo_manifest Byte.x61)] in
  manifestsAtCursor (run_snap "docs" m [OpSave "a" (demo_manifest Byte.x62); OpDelete "a"]) "docs" 1
  = {["a" := demo_manifest Byte.x61]}.
Proof.
  intros m. refine (eq_trans (manifestsAtCursor_stable m "docs"
    [OpSave "a" (demo_manifest Byte.x62); OpDelete "a"] _ _ _ _ _) _).
  - unfold m. rewrite view_run_snap. apply wf_op; [apply wf_empty|reflexivity|exact I].
  - intros x _. reflexivity.
  - reflexivity.
  - repeat constructor.
  - intros op _. reflexivity.
  - reflexivity.
Defined.

(** A file renamed onto a path that was deleted before is live, but missing
    from every snapshot. *)
Example rename_over_deleted_lost :
  let m := run_snap "docs" folderMeta_zero
    [OpSave "a" (demo_manifest Byte.x61); OpSave "b" (demo_manifest Byte.x62); OpDelete "b";
     OpMove "a" "b" (demo_manifest Byte.x61)] in
  files (view m "docs") !! "b" = Some (demo_manifest Byte.x61)
  /\ manifestsAtCursor m "docs" (cursor (view m "docs")) = ∅.
Proof. split; vm_compute; reflexivity. Qed.

(** A deleted path that is saved again appears in the snapshots taken while it
    was deleted. *)
Example resaved_path_resurrected :
  let m := run_snap "docs" folderMeta_zero [OpSave "a" (demo_manifest Byte.x61); OpDelete "a"] in
  let m' := run_snap "docs" m [OpSave "a" (demo_manifest Byte.x62)] in
  manifestsAtCursor m "docs" 2 = ∅
  /\ manifestsAtCursor m' "docs" 2 = {["a" := demo_manifest Byte.x61]}.
Proof. split; vm_compute; reflexivity. Qed.

(** *** The summary hash determines the folder *)

Section hash_determines.
Context (sha256 : bytes -> bytes) (marshal : Manifest -> string).

Inductive hashItem :=
| HFile (rel : string) (rev : Z) (json : string)
| HDelete (rel : string) (rev : Z).

Definition encode_item (i : hashItem) : string :=
  match i with
  | HFile rel rev json => "file" +:+ NUL +:+ rel +:+ NUL +:+ itoa rev +:+ NUL +:+ json +:+ NUL
  | HDelete rel rev => "delete" +:+ NUL +:+ rel +:+ NUL +:+ itoa rev +:+ NUL
  end.

Definition no_nul (s : string) : Prop := contains_char s Ascii.zero = false.

Definition item_ok (i : hashItem) : Prop :=
  match i with HFile rel _ json => no_nul rel /\ no_nul json | HDelete rel _ => no_nul rel end.

Lemma nul_inj a b s t : no_nul a -> no_nul b -> a +:+ NUL +:+ s = b +:+ NUL +:+ t -> a = b /\ s = t.
Proof. intros Ha Hb H. by apply (sep_inj Ascii.zero) in H. Qed.

Lemma itoa_no_nul z : no_nul (itoa z).
Proof. by apply itoa_no_char. Qed.

Lemma encode_item_app_inj i j s t :
  item_ok i -> item_ok j -> encode_item i +:+ s = encode_item j +:+ t -> i = j /\ s = t.
Proof.
  destruct i as [rel rev json|rel rev], j as [rel' rev' json'|rel' rev'];
    unfold encode_item; rewrite !str_app_assoc; intros Hi Hj H.
  - destruct Hi as [H1 H2], Hj as [H1' H2'].
    apply nul_inj in H as [_ H]; [|done..]. apply nul_inj in H as [-> H]; [|done..].
    apply nul_inj in H as [->%itoa_inj H]; [|apply itoa_no_nul..].
    apply nul_inj in H as [-> H]; [|done..]. done.
  - by apply nul_inj in H as [? _].
  - by apply nul_inj in H as [? _].
  - apply nul_inj in H as [_ H]; [|done..]. apply nul_inj in H as [-> H]; [|done..].
    apply nul_inj in H as [->%itoa_inj H]; [|apply itoa_no_nul..]. done.
Qed.

Lemma encode_items_inj l l' :
  Forall item_ok l -> Forall item_ok l' ->
  foldr (fun i acc => encode_item i +:+ acc) EmptyString l
  = foldr (fun i acc => encode_item i +:+ acc) EmptyString l' -> l = l'.
Proof.
  intros Hl. revert l'. induction Hl as [|i l Hi Hl IH]; intros l' Hl' H.
  - destruct Hl' as [|[] l' ??]; done.
  - destruct Hl' as [|j l' Hj Hl']; [by destruct i|].
    simpl in H. apply encode_item_app_inj in H as [-> H]; [|done..]. f_equal. by apply IH.
Qed.

Definition item_of (files : gmap string Manifest) (revisions tombstones : gmap string Z) (tagged : string)
    : hashItem :=
  if bool_decide (take_str 1 tagged = "f")
  then HFile (drop_str 2 tagged) (num revisions (drop_str 2 tagged))
         (marshal (default Manifest_zero (files !! drop_str 2 tagged)))
  else HDelete (drop_str 2 tagged) (num tombstones (drop_str 2 tagged)).

Lemma item_of_file f r t rel :
  item_of f r t ("f" +:+ NUL +:+ rel) = HFile rel (num r rel) (marshal (default Manifest_zero (f !! rel))).
Proof. reflexivity. Qed.

Lemma item_of_delete f r t rel : item_of f r t ("d" +:+ NUL +:+ rel) = HDelete rel (num t rel).
Proof. reflexivity. Qed.

Definition tagged_paths (files : gmap string Manifest) (tombstones : gmap string Z) : list string :=
  ((fun rel => "f" +:+ NUL +:+ rel) <$> keys files) ++
  ((fun rel => "d" +:+ NUL +:+ rel) <$> keys tombstones).

Definition items (files : gmap string Manifest) (revisions tombstones : gmap string Z) : list hashItem :=
  item_of files revisions tombstones <$> sort_by str_lt (tagged_paths files tombstones).

Lemma elem_of_keys {V} (m : gmap string V) k : k ∈ keys m <-> is_Some (m !! k).
Proof.
  unfold keys. rewrite list_elem_of_fmap. split.
  - intros ([k' v] & -> & H%elem_of_map_to_list). by exists v.
  - intros [v Hv]. exists (k, v). split; [done|]. by apply elem_of_map_to_list.
Qed.

Lemma elem_of_items files revisions tombstones i :
  i ∈ items files revisions tombstones <->
  (exists rel m, files !! rel = Some m /\ i = HFile rel (num revisions rel) (marshal m)) \/
  (exists rel rev, tombstones !! rel = Some rev /\ i = HDelete rel rev).
Proof.
  unfold items. rewrite list_elem_of_fmap. setoid_rewrite elem_of_sort_by.
  unfold tagged_paths. setoid_rewrite elem_of_app. setoid_rewrite list_elem_of_fmap.
  setoid_rewrite elem_of_keys. split.
  - intros (tag & -> & [(rel & -> & m & Hm)|(rel & -> & rev & Hr)]); [left|right]; exists rel; eexists.
    + split; [done|]. by rewrite item_of_file, Hm.
    + split; [done|]. rewrite item_of_delete. unfold num. by rewrite Hr.
  - intros [(rel & m & Hm & ->)|(rel & rev & Hr & ->)].
    + exists ("f" +:+ NUL +:+ rel). split; [by rewrite item_of_file, Hm|left]. eauto.
    + exists ("d" +:+ NUL +:+ rel). split; [rewrite item_of_delete; unfold num; by rewrite Hr|right]. eauto.
Qed.

Lemma hashStream_items files revisions tombstones :
  hashStream marshal files revisions tombstones
  = foldr (fun i acc => encode_item i +:+ acc) EmptyString (items files revisions tombstones).
Proof.
  unfold hashStream, items. fold (tagged_paths files tombstones).
  assert (Forall (fun tag => hashEntry marshal files revisions tombstones tag
    = encode_item (item_of files revisions tombstones tag)) (sort_by str_lt (tagged_paths files tombstones))) as H.
  { rewrite sort_by_perm. unfold tagged_paths. apply Forall_app; split; apply Forall_fmap, Forall_true; done. }
  induction H as [|tag l Htag _ IH]; simpl; [done|]. by rewrite Htag, IH.
Qed.

(** Path names without NUL bytes, and manifests whose JSON has none. *)
Definition printable (files : gmap string Manifest) (tombstones : gmap string Z) : Prop :=
  (forall rel m, files !! rel = Some m -> no_nul rel /\ no_nul (marshal m)) /\
  (forall rel, is_Some (tombstones !! rel) -> no_nul rel).

Lemma items_ok files revisions tombstones :
  printable files tombstones -> Forall item_ok (items files revisions tombstones).
Proof.
  intros [Hf Ht]. apply Forall_forall. intros i [(rel & m & Hm & ->)|(rel & rev & Hr & ->)]%elem_of_items; simpl.
  - by apply Hf.
  - apply Ht. eauto.
Qed.

Lemma list_byte_of_string_inj s t : String.list_byte_of_string s = String.list_byte_of_string t -> s = t.
Proof.
  intros H. rewrite <- (String.string_of_list_byte_of_string s), H. apply String.string_of_list_byte_of_string.
Qed.

(** Equal state hashes mean equal folders: if the JSON encoding is
    injective on the manifests of the two folders and SHA-256 does not collide
    on the two hashed streams, two folders with the same state hash have the
    same live files, the same revisions of live files and the same tombstones.
    So a peer whose summary matches really is in sync. *)
Theorem stateHash_determines files1 revs1 tombs1 files2 revs2 tombs2 :
  printable files1 tombs1 -> printable files2 tombs2 ->
  (forall x m1 m2, files1 !! x = Some m1 -> files2 !! x = Some m2 -> marshal m1 = marshal m2 -> m1 = m2) ->
  (let stream f r t := String.list_byte_of_string (hashStream marshal f r t) in
   sha256 (stream files1 revs1 tombs1) = sha256 (stream files2 revs2 tombs2) ->
   stream files1 revs1 tombs1 = stream files2 revs2 tombs2) ->
  stateHash sha256 marshal files1 revs1 tombs1 = stateHash sha256 marshal files2 revs2 tombs2 ->
  files1 = files2 /\ tombs1 = tombs2 /\ (forall x, is_Some (files1 !! x) -> num revs1 x = num revs2 x).
Proof.
  intros P1 P2 Hm Hsha H. unfold stateHash in H. apply hex_encode_inj, Hsha, list_byte_of_string_inj in H.
  rewrite !hashStream_items in H. apply encode_items_inj in H; [|by apply items_ok..].
  assert (forall i, i ∈ items files1 revs1 tombs1 <-> i ∈ items files2 revs2 tombs2) as Hi by (intros; by rewrite H).
  setoid_rewrite elem_of_items in Hi.
  assert (forall x m, files1 !! x = Some m -> exists m', files2 !! x = Some m' /\ m = m' /\ num revs1 x = num revs2 x)
    as H12.
  { intros x m Hx. destruct (proj1 (Hi (HFile x (num revs1 x) (marshal m)))) as
      [(x' & m' & Hx' & [= -> -> E])|(? & ? & ? & [=])]; [left; eauto|]. exists m'. eauto. }
  assert (forall x m, files2 !! x = Some m -> exists m', files1 !! x = Some m' /\ m' = m) as H21.
  { intros x m Hx. destruct (proj2 (Hi (HFile x (num revs2 x) (marshal m)))) as
      [(x' & m' & Hx' & [= -> E])|(? & ? & ? & [=])]; [left; eauto|]. exists m'. eauto. }
  split_and?.
  - apply map_eq. intros x. destruct (files1 !! x) as [m|] eqn:E1.
    + destruct (H12 _ _ E1) as (m' & -> & -> & _). done.
    + destruct (files2 !! x) as [m|] eqn:E2; [|done]. destruct (H21 _ _ E2) as (m' & ? & _). congruence.
  - apply map_eq. intros x. apply option_eq. intros t.
    specialize (Hi (HDelete x t)). split; intros Ht.
    + destruct (proj1 Hi) as [(? & ? & ? & [=])|(x' & t' & Hx & [= -> ->])]; [right; eauto|done].
    + destruct (proj2 Hi) as [(? & ? & ? & [=])|(x' & t' & Hx & [= -> ->])]; [right; eauto|done].
  - intros x [m Hx]. by destruct (H12 _ _ Hx) as (_ & _ & _ & ?).
Qed.
End hash_determines.

(** A hash and an encoding under which the hypotheses hold. *)
Definition demo_marshal (m : Manifest) : string :=
  foldr (fun b acc => hex_encode (Block_Hash b) +:+ "," +:+ acc) EmptyString (Manifest_Blocks m).

Lemma stateHash_determines_witness :
  let f : gmap string Manifest := {["a" := demo_manifest Byte.x61]} in
  f = f /\ (∅ : gmap string Z) = ∅ /\
  (forall x, is_Some (f !! x) -> num ({["a" := 1]} : gmap string Z) x = num ({["a" := 1]} : gmap string Z) x).
Proof.
  intros f. apply (stateHash_determines id demo_marshal f {["a" := 1]} ∅ f {["a" := 1]} ∅).
  - split; [|by intros rel [? []%lookup_empty_Some]].
    intros rel m [<- <-]%lookup_singleton_Some. split; reflexivity.
  - split; [|by intros rel [? []%lookup_empty_Some]].
    intros rel m [<- <-]%lookup_singleton_Some. split; reflexivity.
  - intros x m1 m2 H1 H2 _. congruence.
  - intros stream H. exact H.
  - reflexivity.
Defined.

(** ** Values of maps *)

Lemma elem_of_values {V} (m : gmap string V) v : v ∈ values m <-> exists k, m !! k = Some v.
Proof.
  unfold values. rewrite list_elem_of_fmap. split.
  - intros ([k x] & -> & H%elem_of_map_to_list). by exists k.
  - intros (k & H%elem_of_map_to_list). by exists (k, v).
Qed.


Lemma values_NoDup_keys {V} (key : V -> string) (m : gmap string V) :
  (forall k v, m !! k = Some v -> key v = k) -> NoDup (key <$> values m).
Proof.
  intros Hk. unfold values. rewrite <- list_fmap_compose.
  replace ((key ∘ snd) <$> map_to_list m) with ((map_to_list m).*1); [apply NoDup_fst_map_to_list|].
  apply list_fmap_ext. intros i [k v] Hi%list_elem_of_lookup_2%elem_of_map_to_list. simpl. by rewrite (Hk k v).
Qed.


Lemma inner_singleton_Some {V} (k f p p' : string) (v v' : V) :
  inner ({[k := {[p := v]}]} : gmap string (gmap string V)) f !! p' = Some v' -> k = f /\ p = p' /\ v = v'.
Proof.
  unfold inner. destruct (decide (k = f)) as [->|Hf].
  - rewrite lookup_singleton_eq. cbn. rewrite lookup_singleton_Some. tauto.
  - rewrite lookup_singleton_ne by done. cbn. by rewrite lookup_empty.
Qed.

(** ** Histories of calls

    A sequence of calls, each with a flag that says whether the disk refuses
    the write this time; a run also returns the log of the calls that returned
    no error, newest first. *)

Definition with_fault (fault : bool) (s : JSONStore) : JSONStore :=
  mkStore ((fun b => mkBackend (backend_file b) (backend_readFault b) fault) <$> JSONStore_backend s).

Lemma load_with_fault b s : load (with_fault b s) = load s.
Proof. unfold load, with_fault. by destruct (JSONStore_backend s). Qed.


Section calls.
Context {X : Type} (op : JSONStore -> X -> JSONStore * result StoreErr unit).

Definition step_call (st : JSONStore * list X) (call : bool * X) : JSONStore * list X :=
  let '(s, log) := st in
  match op (with_fault call.1 s) call.2 with
  | (s', Ok _) => (s', call.2 :: log)
  | (s', Err _) => (s', log)
  end.

Definition run_calls (s : JSONStore) (calls : list (bool * X)) : JSONStore * list X :=
  foldl step_call (s, []) calls.

Lemma run_calls_inv (P : JSONStore -> list X -> Prop) s calls :
  (forall s log b x, P s log ->
     match op (with_fault b s) x with
     | (s', Ok _) => P s' (x :: log)
     | (s', Err _) => P s' log
     end) ->
  P s [] -> P (run_calls s calls).1 (run_calls s calls).2.
Proof.
  intros Hstep. unfold run_calls. generalize (@nil X). revert s.
  induction calls as [|[b x] calls IH]; intros s log HP; [done|].
  cbn [foldl step_call fst snd]. pose proof (Hstep s log b x HP) as H.
  destruct (op (with_fault b s) x) as [s' [u|e]]; by apply IH.
Qed.
End calls.
