(* ===== verification/Replication.v ===== *)
(** * Metadata replication between nodes

    Models the part of [internal/state/json_store.go] by which a node hands its
    folder changes to a peer and the peer keeps a replica of them:
    ChangesSince(Limit), ApplyPeerFolderChanges, full refreshes, peer state
    vectors and statuses, and the compaction of old tombstones. *)

From S2P Require Import Prelude GoStd Block StoreData Store.

Local Open Scope Z_scope.

(** ** Data *)

Definition ChangeUpsert : string := "upsert".
Definition ChangeDelete : string := "delete".
Definition ChangeMove : string := "move".

Record FolderChange := mkFolderChange {
  FolderChange_Kind : string;
  FolderChange_FromPath : string;
  FolderChange_Path : string;
  FolderChange_Revision : Z;
  FolderChange_Manifest : option Manifest
}.

Record FolderChanges := mkFolderChanges {
  FolderChanges_FolderID : string;
  FolderChanges_FromCursor : Z;
  FolderChanges_ToCursor : Z;
  FolderChanges_StateHash : string;
  FolderChanges_Changes : list FolderChange
}.

Record PeerFolderStatus := mkPeerFolderStatus {
  PeerFolderStatus_PeerID : string;
  PeerFolderStatus_FolderID : string;
  PeerFolderStatus_PeerCursor : Z;
  PeerFolderStatus_PeerStateHash : string;
  PeerFolderStatus_LocalCursor : Z;
  PeerFolderStatus_LocalStateHash : string;
  PeerFolderStatus_InSync : bool
}.

Record MetadataCompactionPolicy := mkCompactionPolicy {
  MetadataCompactionPolicy_PeerIDs : list string;
  MetadataCompactionPolicy_RetainLastCursors : Z
}.

Record MetadataCompactionPlan := mkCompactionPlan {
  MetadataCompactionPlan_FolderID : string;
  MetadataCompactionPlan_CurrentCursor : Z;
  MetadataCompactionPlan_SafeCursor : Z;
  MetadataCompactionPlan_PeerCursors : gmap string Z;
  MetadataCompactionPlan_BlockedPeers : list string;
  MetadataCompactionPlan_EligibleTombstones : Z;
  MetadataCompactionPlan_RetainedTombstones : Z
}.

(** ** The changes a node sends *)

(** Hints are searched in map order; a revision has at most one hint. *)
Definition renameHintForDestination (hints : gmap string RenameHint) (toPath : string) (revision : Z)
    : option RenameHint :=
  List.find (fun h => bool_decide (RenameHint_ToPath h = toPath) && (RenameHint_Revision h =? revision))
    ((map_to_list hints).*2).

Definition liveChange (m : folderMeta) (folderID : string) (cursor : Z) (entry : string * Z)
    : option FolderChange :=
  let '(rel, rev) := entry in
  if rev <=? cursor then None
  else
    let manifest := default Manifest_zero (inner (Folders m) folderID !! rel) in
    match renameHintForDestination (inner (RenameHints m) folderID) rel rev with
    | Some hint => Some (mkFolderChange ChangeMove (RenameHint_FromPath hint) rel rev (Some manifest))
    | None => Some (mkFolderChange ChangeUpsert EmptyString rel rev (Some manifest))
    end.

Definition deadChange (m : folderMeta) (folderID : string) (cursor : Z) (entry : string * Z)
    : option FolderChange :=
  let '(rel, rev) := entry in
  if rev <=? cursor then None
  else
    let deleted := Some (mkFolderChange ChangeDelete EmptyString rel rev None) in
    match inner (RenameHints m) folderID !! rel with
    | Some hint => if RenameHint_Revision hint =? rev then None else deleted
    | None => deleted
    end.

Definition change_lt : FolderChange -> FolderChange -> bool :=
  by_key FolderChange_Revision Z.ltb (last_key FolderChange_Path str_lt).

Definition collectChanges (m : folderMeta) (folderID : string) (cursor : Z) : list FolderChange :=
  sort_by change_lt
    (omap (liveChange m folderID cursor) (map_to_list (inner (Revisions m) folderID)) ++
     omap (deadChange m folderID cursor) (map_to_list (inner (Tombstones m) folderID))).

(** The latest compaction the cursor is too old for. *)
Definition newerCompaction (cursor : Z) (latest : option MetadataCompactionSnapshot)
    (snapshot : MetadataCompactionSnapshot) : option MetadataCompactionSnapshot :=
  if (MetadataCompactionSnapshot_CompactedTombstones snapshot =? 0)
     || (MetadataCompactionSnapshot_SafeCursor snapshot <=? cursor)
  then latest
  else match latest with
       | None => Some snapshot
       | Some l => if MetadataCompactionSnapshot_SafeCursor l <? MetadataCompactionSnapshot_SafeCursor snapshot
                   then Some snapshot else latest
       end.

Definition metadataCompactionCursorError (snap : snapshot) (folderID : string) (cursor : Z)
    : result StoreErr unit :=
  match foldl (newerCompaction cursor) None (default [] (CompactionSnapshots snap !! folderID)) with
  | None => Ok tt
  | Some latest =>
      Err (ErrCompacted folderID cursor (MetadataCompactionSnapshot_SafeCursor latest)
             (MetadataCompactionSnapshot_Cursor latest) (MetadataCompactionSnapshot_StateHash latest))
  end.

(** ** The replica a node keeps of a peer's folder *)

Record replica := mkReplica {
  rep_files : gmap string Manifest;
  rep_revs : gmap string Z;
  rep_tombs : gmap string Z;
  rep_hints : gmap string RenameHint
}.

Definition replica_of (p : peerMeta) (peerID folderID : string) : replica :=
  mkReplica (inner (inner (PeerFolders p) peerID) folderID)
    (inner (inner (PeerRevisions p) peerID) folderID)
    (inner (inner (PeerTombstones p) peerID) folderID)
    (inner (inner (PeerRenameHints p) peerID) folderID).

Definition applyChange (fromCursor toCursor : Z) (r : replica) (change : FolderChange)
    : result StoreErr replica :=
  let rev := FolderChange_Revision change in
  let path := FolderChange_Path change in
  let from := FolderChange_FromPath change in
  if (rev <=? fromCursor) || (toCursor <? rev) then Err (ErrRevisionRange rev fromCursor toCursor)
  else if bool_decide (FolderChange_Kind change = ChangeUpsert) then
    match FolderChange_Manifest change with
    | None => Err (ErrMissingManifest path)
    | Some manifest =>
        Ok (mkReplica (<[path := manifest]> (rep_files r)) (<[path := rev]> (rep_revs r))
              (delete path (rep_tombs r)) (rep_hints r))
    end
  else if bool_decide (FolderChange_Kind change = ChangeDelete) then
    Ok (mkReplica (delete path (rep_files r)) (delete path (rep_revs r))
          (<[path := rev]> (rep_tombs r)) (rep_hints r))
  else if bool_decide (FolderChange_Kind change = ChangeMove) then
    if bool_decide (from = EmptyString) then Err (ErrMissingFromPath path)
    else match FolderChange_Manifest change with
         | None => Err (ErrMissingManifest path)
         | Some manifest =>
             Ok (mkReplica (<[path := manifest]> (delete from (rep_files r)))
                   (<[path := rev]> (delete from (rep_revs r)))
                   (<[from := rev]> (rep_tombs r))
                   (<[from := mkRenameHint from path rev]> (rep_hints r)))
         end
  else Err (ErrChangeKind (FolderChange_Kind change)).

Fixpoint applyChanges (fromCursor toCursor : Z) (r : replica) (changes : list FolderChange)
    : result StoreErr replica :=
  match changes with
  | [] => Ok r
  | change :: changes' =>
      r' ← applyChange fromCursor toCursor r change; applyChanges fromCursor toCursor r' changes'
  end.

(** The peer part after [peerID]'s replica of [folderID], its cursor, its state
    and its checkpoint are written. *)
Definition with_replica (peerID folderID : string) (r : replica) (cur : Z) (state : FolderSummary)
    (checkpoint : PeerApplyCheckpoint) (p : peerMeta) : peerMeta :=
  mkPeerMeta (put2 peerID folderID state (PeerStates p))
    (put2 peerID folderID (rep_files r) (PeerFolders p))
    (put2 peerID folderID (rep_revs r) (PeerRevisions p))
    (put2 peerID folderID (rep_tombs r) (PeerTombstones p))
    (put2 peerID folderID (rep_hints r) (PeerRenameHints p))
    (put2 peerID folderID cur (PeerCursors p))
    (put2 peerID folderID checkpoint (PeerApplyCheckpoints p)).

Definition peerCursor (p : peerMeta) (peerID folderID : string) : Z :=
  num (inner (PeerCursors p) peerID) folderID.

Definition peerState (p : peerMeta) (peerID folderID : string) : FolderSummary :=
  default FolderSummary_zero (inner (PeerStates p) peerID !! folderID).

Section replication.
Context (sha256 : bytes -> bytes) (marshal : Manifest -> string).

(** The changes of a loaded snapshot. *)
Definition changesOf (snap : snapshot) (folderID : string) (cursor maxChanges : Z) : result StoreErr FolderChanges :=
  _ ← metadataCompactionCursorError snap folderID cursor;
  let m := snap_local snap in
  let all := collectChanges m folderID cursor in
  let '(changes, toCursor) :=
    if (0 <? maxChanges) && (maxChanges <? Z.of_nat (length all))
    then let changes := take (Z.to_nat maxChanges) all in
         (changes, default 0 (FolderChange_Revision <$> last changes))
    else (all, num (Cursors m) folderID) in
  summary ← folderSummaryAtCursor sha256 marshal m folderID toCursor;
  Ok (mkFolderChanges folderID cursor toCursor (FolderSummary_StateHash summary) changes).

Definition ChangesSinceLimit (s : JSONStore) (folderID : string) (cursor maxChanges : Z)
    : result StoreErr FolderChanges :=
  snap ← load s; changesOf snap folderID cursor maxChanges.

Definition ChangesSince (s : JSONStore) (folderID : string) (cursor : Z) : result StoreErr FolderChanges :=
  ChangesSinceLimit s folderID cursor 0.

Definition peerFolderSummary (folderID : string) (r : replica) (cur : Z) : result StoreErr FolderSummary :=
  folderSummary sha256 marshal
    (mkFolderMeta {[folderID := rep_files r]} ∅ {[folderID := rep_revs r]} {[folderID := rep_tombs r]}
       ∅ {[folderID := cur]}) folderID.

(** The checks and the new snapshot; [None] when the changes were applied
    before and nothing is to be saved. *)
Definition applyPeerChanges (peerID : string) (changes : FolderChanges) (snap : snapshot)
    : result StoreErr (option snapshot) :=
  let p := snap_peer snap in
  let folderID := FolderChanges_FolderID changes in
  let from := FolderChanges_FromCursor changes in
  let to := FolderChanges_ToCursor changes in
  let current := peerCursor p peerID folderID in
  if bool_decide (current <> from) then
    let summary := peerState p peerID folderID in
    if bool_decide (current = to) && bool_decide (FolderSummary_Cursor summary = to)
       && bool_decide (FolderSummary_StateHash summary = FolderChanges_StateHash changes)
    then Ok None
    else Err (ErrCursorMismatch current from)
  else
    r ← applyChanges from to (replica_of p peerID folderID) (FolderChanges_Changes changes);
    summary ← peerFolderSummary folderID r to;
    if bool_decide (FolderSummary_StateHash summary <> FolderChanges_StateHash changes)
    then Err ErrHashMismatch
    else
      let checkpoint := mkPeerApplyCheckpoint folderID from to
        (Z.of_nat (length (FolderChanges_Changes changes)))
        (FolderSummary_Cursor summary) (FolderSummary_StateHash summary) in
      Ok (Some (with_peer (with_replica peerID folderID r to summary checkpoint p) snap)).

Definition ApplyPeerFolderChanges (s : JSONStore) (peerID : string) (changes : FolderChanges)
    : JSONStore * result StoreErr unit :=
  checked s (_ ← require "peer id" peerID; require "folder id" (FolderChanges_FolderID changes))
    (match load s ≫= applyPeerChanges peerID changes with
     | Err e => (s, Err e)
     | Ok None => (s, Ok tt)
     | Ok (Some snap) => save s snap
     end).

(** [summary.FolderID] is filled in by the code when empty. *)
Definition refreshRevision (revisions : gmap string Z) (cur : Z) (rel : string) (_ : Manifest) : option Z :=
  Some (if num revisions rel =? 0 then cur else num revisions rel).

Definition refreshPeer (peerID folderID : string) (summary : FolderSummary)
    (manifests : gmap string Manifest) (revisions : gmap string Z) (p : peerMeta) : peerMeta :=
  let cur := FolderSummary_Cursor summary in
  with_replica peerID folderID
    (mkReplica manifests (map_imap (refreshRevision revisions cur) manifests) ∅
       (rep_hints (replica_of p peerID folderID)))
    cur summary
    (mkPeerApplyCheckpoint folderID 0 cur (Z.of_nat (size manifests)) cur (FolderSummary_StateHash summary))
    p.

Definition ReplacePeerFolderFromFullRefresh (s : JSONStore) (peerID folderID : string)
    (summary0 : FolderSummary) (manifests : gmap string Manifest) (revisions : gmap string Z) :=
  let summary :=
    if bool_decide (FolderSummary_FolderID summary0 = EmptyString)
    then mkFolderSummary folderID (FolderSummary_Cursor summary0) (FolderSummary_Files summary0)
           (FolderSummary_Tombstones summary0) (FolderSummary_StateHash summary0)
    else summary0 in
  checked s (_ ← require "peer id" peerID; _ ← require "folder id" folderID;
             fail_if (bool_decide (FolderSummary_FolderID summary <> folderID))
               (ErrMismatch folderID (FolderSummary_FolderID summary)))
    (modify s (fun snap =>
       Ok (with_peer (refreshPeer peerID folderID summary manifests revisions (snap_peer snap)) snap))).

(** ** Peer state *)

Definition savePeerState (peerID : string) (summary : FolderSummary) (p : peerMeta) : peerMeta :=
  mkPeerMeta (put2 peerID (FolderSummary_FolderID summary) summary (PeerStates p))
    (PeerFolders p) (PeerRevisions p) (PeerTombstones p) (PeerRenameHints p)
    (put2 peerID (FolderSummary_FolderID summary) (FolderSummary_Cursor summary) (PeerCursors p))
    (PeerApplyCheckpoints p).

Definition SavePeerFolderState (s : JSONStore) (peerID : string) (summary : FolderSummary) :=
  modify s (fun snap => Ok (with_peer (savePeerState peerID summary (snap_peer snap)) snap)).

Definition summary_lt : FolderSummary -> FolderSummary -> bool := last_key FolderSummary_FolderID str_lt.

Definition PeerStateVector (s : JSONStore) (peerID : string) : result StoreErr (list FolderSummary) :=
  snap ← load s;
  Ok (sort_by summary_lt ((map_to_list (inner (PeerStates (snap_peer snap)) peerID)).*2)).

Definition peerFolderStatus (snap : snapshot) (peerID folderID : string) : result StoreErr PeerFolderStatus :=
  local ← folderSummary sha256 marshal (snap_local snap) folderID;
  let peer := peerState (snap_peer snap) peerID folderID in
  Ok (mkPeerFolderStatus peerID folderID (FolderSummary_Cursor peer) (FolderSummary_StateHash peer)
        (FolderSummary_Cursor local) (FolderSummary_StateHash local)
        (bool_decide (FolderSummary_Cursor peer = FolderSummary_Cursor local)
         && bool_decide (FolderSummary_StateHash peer = FolderSummary_StateHash local))).

Fixpoint peerFolderStatuses (snap : snapshot) (peerID : string) (ids : list string)
    : result StoreErr (list PeerFolderStatus) :=
  match ids with
  | [] => Ok []
  | folderID :: ids' =>
      status ← peerFolderStatus snap peerID folderID;
      statuses ← peerFolderStatuses snap peerID ids';
      Ok (status :: statuses)
  end.

Definition statusFolders (snap : snapshot) (peerID : string) : gset string :=
  dom (Folders (snap_local snap)) ∪ dom (Cursors (snap_local snap)) ∪ dom (Tombstones (snap_local snap))
  ∪ dom (inner (PeerStates (snap_peer snap)) peerID).

Definition PeerFolderStatuses (s : JSONStore) (peerID : string) : result StoreErr (list PeerFolderStatus) :=
  snap ← load s;
  peerFolderStatuses snap peerID (sort_by str_lt (elements (statusFolders snap peerID))).

Definition GetPeerApplyCheckpoint (s : JSONStore) (peerID folderID : string)
    : result StoreErr (option PeerApplyCheckpoint) :=
  (fun snap => inner (PeerApplyCheckpoints (snap_peer snap)) peerID !! folderID) <$> load s.

Definition LoadPeerManifest (s : JSONStore) (peerID folderID relativePath : string)
    : result StoreErr (option Manifest) :=
  (fun snap => inner (inner (PeerFolders (snap_peer snap)) peerID) folderID !! relativePath) <$> load s.

(** ** Compaction *)

Definition planPeer (snap : snapshot) (folderID : string) (current : Z)
    (acc : Z * gmap string Z * list string) (peerID : string) : Z * gmap string Z * list string :=
  let '(safe, cursors, blocked) := acc in
  let cur := FolderSummary_Cursor (peerState (snap_peer snap) peerID folderID) in
  (if cur <? safe then cur else safe, <[peerID := cur]> cursors,
   if cur <? current then blocked ++ [peerID] else blocked).

Definition metadataCompactionPlan (snap : snapshot) (folderID : string) (policy : MetadataCompactionPolicy)
    : MetadataCompactionPlan :=
  let current := num (Cursors (snap_local snap)) folderID in
  let '(safe0, cursors, blocked) :=
    foldl (planPeer snap folderID current) (current, ∅, []) (MetadataCompactionPolicy_PeerIDs policy) in
  let retain := MetadataCompactionPolicy_RetainLastCursors policy in
  let safe :=
    if 0 <? retain then
      let floor := if retain <? current then current - retain else 0 in
      if floor <? safe0 then floor else safe0
    else safe0 in
  let tombstones := (map_to_list (inner (Tombstones (snap_local snap)) folderID)).*2 in
  mkCompactionPlan folderID current safe cursors (sort_by str_lt blocked)
    (Z.of_nat (length (List.filter (fun rev => rev <=? safe) tombstones)))
    (Z.of_nat (length (List.filter (fun rev => negb (rev <=? safe)) tombstones))).

(** [for rel, rev := range m[k] { if rev <= safe { delete(m[k], rel) } }] *)
Definition dropTombstones (folderID : string) (safe : Z) (m : folderMeta) : folderMeta :=
  mkFolderMeta (Folders m) (ManifestHistory m) (Revisions m)
    (alter (filter (fun tomb => safe < tomb.2)) folderID (Tombstones m)) (RenameHints m) (Cursors m).

(** The result, and the snapshot to save when a tombstone was dropped. *)
Definition compactSnap (folderID : string) (policy : MetadataCompactionPolicy) (snap : snapshot)
    : result StoreErr (MetadataCompactionPlan * MetadataCompactionSnapshot * snapshot) :=
  let plan := metadataCompactionPlan snap folderID policy in
  before ← folderSummary sha256 marshal (snap_local snap) folderID;
  let safe := MetadataCompactionPlan_SafeCursor plan in
  let compacted := MetadataCompactionPlan_EligibleTombstones plan in
  let record := mkCompactionSnapshot folderID (FolderSummary_Cursor before) (FolderSummary_StateHash before)
    (FolderSummary_Files before) (FolderSummary_Tombstones before) safe compacted in
  Ok (plan, record,
      with_compaction
        (<[folderID := default [] (CompactionSnapshots snap !! folderID) ++ [record]]> (CompactionSnapshots snap))
        (with_local (dropTombstones folderID safe (snap_local snap)) snap)).

Definition CompactFolderMetadata (s : JSONStore) (folderID : string) (policy : MetadataCompactionPolicy)
    : JSONStore * result StoreErr (MetadataCompactionPlan * MetadataCompactionSnapshot) :=
  match load s ≫= compactSnap folderID policy with
  | Err e => (s, Err e)
  | Ok (plan, record, snap) =>
      if 0 <? MetadataCompactionSnapshot_CompactedTombstones record then
        match save s snap with
        | (s', Ok _) => (s', Ok (plan, record))
        | (s', Err e) => (s', Err e)
        end
      else (s, Ok (plan, record))
  end.

Definition compaction_lt : MetadataCompactionSnapshot -> MetadataCompactionSnapshot -> bool :=
  last_key MetadataCompactionSnapshot_Cursor Z.ltb.

Definition MetadataCompactionSnapshots (s : JSONStore) (folderID : string)
    : result StoreErr (list MetadataCompactionSnapshot) :=
  snap ← load s;
  Ok (sort_by compaction_lt (default [] (CompactionSnapshots snap !! folderID))).

End replication.

(** ** Folding writes

    A loop over changes sorted by revision leaves at an observed place what the
    newest change that writes there wrote. *)

Section fold_writes.
Context {S C V : Type} (step : S -> C -> S) (get : S -> V) (write : C -> option V).
Hypothesis get_step : forall s c, get (step s c) = default (get s) (write c).

Lemma fold_untouched l s : (forall c, c ∈ l -> write c = None) -> get (foldl step s l) = get s.
Proof.
  induction l as [|c l IH] using rev_ind; intros Hw; [done|]. rewrite foldl_snoc, get_step, Hw by set_solver.
  apply IH. set_solver.
Qed.

Lemma fold_constant l s w :
  (forall c w', c ∈ l -> write c = Some w' -> w' = w) ->
  get s = w \/ (exists c, c ∈ l /\ is_Some (write c)) -> get (foldl step s l) = w.
Proof.
  induction l as [|c l IH] using rev_ind; intros Hw Hex.
  { destruct Hex as [?|[c [Hc _]]]; [done|by apply elem_of_nil in Hc]. }
  rewrite foldl_snoc, get_step. destruct (write c) as [w'|] eqn:E; simpl.
  - apply (Hw c); set_solver.
  - apply IH; [set_solver|]. destruct Hex as [?|[c0 [Hc0 Hs0]]]; [by left|right].
    exists c0. split; [|done].
    apply elem_of_app in Hc0 as [?|Hc0]; [done|]. apply list_elem_of_singleton in Hc0 as ->.
    rewrite E in Hs0. by destruct Hs0.
Qed.

Context (rev : C -> Z).

Lemma fold_newest l s c w :
  StronglySorted (fun a b => rev a <= rev b) l -> c ∈ l -> write c = Some w ->
  (forall c', c' ∈ l -> is_Some (write c') -> rev c' < rev c \/ c' = c) -> get (foldl step s l) = w.
Proof.
  induction l as [|d l IH] using rev_ind; intros Hs Hc Hw Hmax; [by apply elem_of_nil in Hc|].
  rewrite foldl_snoc, get_step. apply StronglySorted_app in Hs as (Hcross & Hs & _).
  assert (c ∈ l -> rev c <= rev d) as Hcd by (intros; apply Hcross; [done|by apply list_elem_of_singleton]).
  destruct (write d) as [w'|] eqn:E; simpl.
  - destruct (Hmax d) as [Hlt| ->]; [set_solver|by eauto| |congruence].
    apply elem_of_app in Hc as [Hc|Hc]; [apply Hcd in Hc; lia|]. apply list_elem_of_singleton in Hc as ->. lia.
  - apply IH; [done| |done|set_solver].
    apply elem_of_app in Hc as [?|Hc]; [done|]. apply list_elem_of_singleton in Hc as ->. congruence.
Qed.
End fold_writes.

(** ** What a change writes in a replica *)

Definition apply_total (r : replica) (change : FolderChange) : replica :=
  let rev := FolderChange_Revision change in
  let path := FolderChange_Path change in
  let from := FolderChange_FromPath change in
  let manifest := default Manifest_zero (FolderChange_Manifest change) in
  if bool_decide (FolderChange_Kind change = ChangeUpsert) then
    mkReplica (<[path := manifest]> (rep_files r)) (<[path := rev]> (rep_revs r))
      (delete path (rep_tombs r)) (rep_hints r)
  else if bool_decide (FolderChange_Kind change = ChangeDelete) then
    mkReplica (delete path (rep_files r)) (delete path (rep_revs r)) (<[path := rev]> (rep_tombs r)) (rep_hints r)
  else
    mkReplica (<[path := manifest]> (delete from (rep_files r))) (<[path := rev]> (delete from (rep_revs r)))
      (<[from := rev]> (rep_tombs r)) (<[from := mkRenameHint from path rev]> (rep_hints r)).

(** A change the peer accepts. *)
Definition valid_change (from to : Z) (change : FolderChange) : Prop :=
  from < FolderChange_Revision change <= to /\
  (FolderChange_Kind change = ChangeUpsert /\ is_Some (FolderChange_Manifest change)
   \/ FolderChange_Kind change = ChangeDelete
   \/ FolderChange_Kind change = ChangeMove /\ FolderChange_FromPath change <> EmptyString
      /\ is_Some (FolderChange_Manifest change)).

Lemma applyChange_valid from to r change :
  valid_change from to change -> applyChange from to r change = Ok (apply_total r change).
Proof.
  intros [Hr Hk]. unfold applyChange, apply_total.
  rewrite (proj2 (Z.leb_gt _ _)), (proj2 (Z.ltb_ge _ _)) by lia. simpl.
  destruct Hk as [[-> [m ->]]|[->|(-> & Hf & [m ->])]]; simpl; [done|done|].
  by rewrite (bool_decide_eq_false_2 _ Hf).
Qed.

Lemma applyChanges_valid from to r changes :
  Forall (valid_change from to) changes -> applyChanges from to r changes = Ok (foldl apply_total r changes).
Proof.
  intros H. revert r. induction H as [|c l Hc _ IH]; intros r; simpl; [done|].
  by rewrite applyChange_valid, <- IH.
Qed.

(** The file and revision it writes at a path, and the tombstone. *)
Definition live_write (x : string) (change : FolderChange) : option (option Manifest * option Z) :=
  let set := (Some (default Manifest_zero (FolderChange_Manifest change)), Some (FolderChange_Revision change)) in
  if bool_decide (FolderChange_Kind change = ChangeUpsert) then
    if bool_decide (FolderChange_Path change = x) then Some set else None
  else if bool_decide (FolderChange_Kind change = ChangeDelete) then
    if bool_decide (FolderChange_Path change = x) then Some (None, None) else None
  else if bool_decide (FolderChange_Path change = x) then Some set
  else if bool_decide (FolderChange_FromPath change = x) then Some (None, None) else None.

Definition tomb_write (x : string) (change : FolderChange) : option (option Z) :=
  if bool_decide (FolderChange_Kind change = ChangeUpsert) then
    if bool_decide (FolderChange_Path change = x) then Some None else None
  else if bool_decide (FolderChange_Kind change = ChangeDelete) then
    if bool_decide (FolderChange_Path change = x) then Some (Some (FolderChange_Revision change)) else None
  else if bool_decide (FolderChange_FromPath change = x) then Some (Some (FolderChange_Revision change)) else None.

Lemma live_write_step x r change :
  (rep_files (apply_total r change) !! x, rep_revs (apply_total r change) !! x)
  = default (rep_files r !! x, rep_revs r !! x) (live_write x change).
Proof.
  unfold apply_total, live_write.
  repeat case_bool_decide; simpl; subst; rewrite ?lookup_insert_eq, ?lookup_delete_eq; try done;
    rewrite ?lookup_insert_ne, ?lookup_delete_ne by done; rewrite ?lookup_delete_eq; done.
Qed.

Lemma tomb_write_step x r change :
  rep_tombs (apply_total r change) !! x = default (rep_tombs r !! x) (tomb_write x change).
Proof.
  unfold apply_total, tomb_write.
  repeat case_bool_decide; simpl; subst; rewrite ?lookup_insert_eq, ?lookup_delete_eq; try done;
    rewrite ?lookup_insert_ne, ?lookup_delete_ne by done; done.
Qed.

(** ** Which changes are sent *)

(** The current revision of [x] is that of a rename to it. *)
Definition renamed_to (v : folder) (x : string) (r : Z) (h : RenameHint) : Prop :=
  exists y, hints v !! y = Some h /\ RenameHint_FromPath h = y /\ RenameHint_ToPath h = x
    /\ RenameHint_Revision h = r.

Lemma renameHint_Some v x r h :
  wf v -> renameHintForDestination (hints v) x r = Some h -> renamed_to v x r h.
Proof.
  intros W Hf. unfold renameHintForDestination in Hf. apply find_some in Hf as [Hin Hb].
  apply list_elem_of_In, list_elem_of_fmap in Hin as ([y h'] & -> & Hin%elem_of_map_to_list).
  apply andb_true_iff in Hb as [Ht%bool_decide_eq_true Hr%Z.eqb_eq]. simpl in *.
  exists y. split_and?; [done| |done|done]. by apply (wf_hint _ W).
Qed.

Lemma renameHint_None v x r h :
  renameHintForDestination (hints v) x r = None -> ~ renamed_to v x r h.
Proof.
  intros Hf (y & Hy & _ & Ht & Hr). unfold renameHintForDestination in Hf.
  eapply find_none in Hf; [|apply list_elem_of_In, list_elem_of_fmap; exists (y, h); split;
    [done|by apply elem_of_map_to_list]].
  simpl in Hf. rewrite bool_decide_eq_true_2, Hr, Z.eqb_refl in Hf by done. done.
Qed.

Lemma renamed_to_inj v x r h x' h' :
  wf v -> renamed_to v x r h -> renamed_to v x' r h' -> h = h' /\ x = x'.
Proof.
  intros W (y & Hy & _ & Ht & Hr) (y' & Hy' & _ & Ht' & Hr').
  assert (y = y') as -> by (eapply (wf_hint_inj _ W); eauto; congruence). naive_solver.
Qed.

(** What [collectChanges] sends for a live path and for a tombstone. *)
Definition live_change (v : folder) (x : string) (r : Z) (change : FolderChange) : Prop :=
  let manifest := Some (default Manifest_zero (files v !! x)) in
  (exists h, renamed_to v x r h
     /\ change = mkFolderChange ChangeMove (RenameHint_FromPath h) x r manifest)
  \/ ((forall h, ~ renamed_to v x r h)
     /\ change = mkFolderChange ChangeUpsert EmptyString x r manifest).

Lemma elem_of_collectChanges m f c change :
  wf (view m f) ->
  change ∈ collectChanges m f c <->
  (exists x r, revs (view m f) !! x = Some r /\ c < r /\ live_change (view m f) x r change)
  \/ (exists x t, tombs (view m f) !! x = Some t /\ c < t
        /\ (forall h, hints (view m f) !! x = Some h -> RenameHint_Revision h <> t)
        /\ change = mkFolderChange ChangeDelete EmptyString x t None).
Proof.
  intros W. unfold collectChanges. rewrite elem_of_sort_by, elem_of_app, !list_elem_of_omap. f_equiv.
  - split.
    + intros ([x r] & Hx%elem_of_map_to_list & Hl). unfold liveChange in Hl.
      destruct (Z.leb_spec r c); [done|]. exists x, r. split; [done|]. split; [done|].
      change (inner (RenameHints m) f) with (hints (view m f)) in Hl.
      destruct (renameHintForDestination _ _ _) as [h|] eqn:Eh; injection Hl as <-.
      * left. exists h. split; [|done]. by apply renameHint_Some.
      * right. split; [|done]. intros h. by apply renameHint_None.
    + intros (x & r & Hx & Hc & Hl). exists (x, r). split; [by apply elem_of_map_to_list|].
      unfold liveChange. rewrite (proj2 (Z.leb_gt _ _)) by done.
      change (inner (RenameHints m) f) with (hints (view m f)).
      destruct (renameHintForDestination _ _ _) as [h|] eqn:Eh, Hl as [(h' & Hh & ->)|[Hno ->]]; [| | |done].
      * apply renameHint_Some in Eh; [|done]. by destruct (renamed_to_inj _ _ _ _ _ _ W Eh Hh) as [-> _].
      * apply renameHint_Some in Eh; [|done]. by apply Hno in Eh.
      * by eapply renameHint_None in Eh.
  - split.
    + intros ([x t] & Hx%elem_of_map_to_list & Hl). unfold deadChange in Hl.
      destruct (Z.leb_spec t c); [done|]. exists x, t. split; [done|]. split; [done|].
      change (inner (RenameHints m) f) with (hints (view m f)) in Hl.
      destruct (hints _ !! x) as [h|] eqn:Eh; [destruct (Z.eqb_spec (RenameHint_Revision h) t); [done|]|];
        injection Hl as <-; (split; [|done]); naive_solver.
    + intros (x & t & Hx & Hc & Hh & ->). exists (x, t). split; [by apply elem_of_map_to_list|].
      unfold deadChange. rewrite (proj2 (Z.leb_gt _ _)) by done.
      change (inner (RenameHints m) f) with (hints (view m f)).
      destruct (hints _ !! x) as [h|] eqn:Eh; [|done]. rewrite (proj2 (Z.eqb_neq _ _)); [done|]. by apply Hh.
Qed.

#[local] Instance change_lt_weak : StrictWeak change_lt.
Proof. unfold change_lt. apply _. Qed.

Lemma collectChanges_sorted m f c :
  StronglySorted (fun a b => FolderChange_Revision a <= FolderChange_Revision b) (collectChanges m f c).
Proof.
  assert (forall l, StronglySorted (not_after change_lt) l ->
    StronglySorted (fun a b => FolderChange_Revision a <= FolderChange_Revision b) l) as H.
  { induction 1 as [|a l Hs IH Ha]; constructor; [done|]. eapply Forall_impl; [exact Ha|].
    intros b Hb. unfold not_after, change_lt, by_key in Hb. case_decide; [lia|].
    by apply Z.ltb_ge in Hb. }
  apply H, sort_by_sorted, _.
Qed.

(** ** Convergence *)

(** The replica [p] was the folder's state at cursor [c], and the folder has
    reached [v] since. *)
Record behind (p : replica) (v : folder) (c : Z) : Prop := {
  behind_dom x : is_Some (rep_files p !! x) <-> is_Some (rep_revs p !! x);
  behind_live x r : revs v !! x = Some r -> r <= c ->
    rep_revs p !! x = Some r /\ rep_files p !! x = files v !! x;
  behind_gone x : revs v !! x = None -> is_Some (rep_revs p !! x) -> exists t, tombs v !! x = Some t /\ c < t;
  behind_dead x t : tombs v !! x = Some t -> t <= c -> rep_tombs p !! x = Some t;
  behind_saved x : tombs v !! x = None -> is_Some (rep_tombs p !! x) -> exists r, revs v !! x = Some r /\ c < r
}.

(** The renames since [c] are still in place: their destinations live at the
    revision of the rename, and nothing else happened to either end. *)
Record settled (p : replica) (v : folder) (c : Z) : Prop := {
  settled_named : hints v !! EmptyString = None;
  settled_tomb y h t : tombs v !! y = Some t -> c < t -> hints v !! y = Some h -> RenameHint_Revision h = t ->
    revs v !! RenameHint_ToPath h = Some t;
  settled_renamed x r h : revs v !! x = Some r -> c < r -> renamed_to v x r h ->
    (tombs v !! x = None -> rep_tombs p !! x = None) /\
    (forall h', hints v !! x = Some h' -> RenameHint_Revision h' <= c);
  settled_saved x r : revs v !! x = Some r -> c < r -> (forall h, ~ renamed_to v x r h) -> tombs v !! x = None
}.

Definition in_sync (p : replica) (v : folder) : Prop :=
  rep_files p = files v /\ rep_revs p = revs v /\ rep_tombs p = tombs v.

Section convergence.
Context (m : folderMeta) (f : string) (p : replica) (c : Z) (v : folder).
Hypothesis (Hv : view m f = v) (W : wf v) (B : behind p v c) (K : settled p v c).

Abbreviation changes := (collectChanges m f c).

Lemma elem_of_changes change :
  change ∈ changes <->
  (exists x r, revs v !! x = Some r /\ c < r /\ live_change v x r change)
  \/ (exists x t, tombs v !! x = Some t /\ c < t
        /\ (forall h, hints v !! x = Some h -> RenameHint_Revision h <> t)
        /\ change = mkFolderChange ChangeDelete EmptyString x t None).
Proof. rewrite <- Hv. apply elem_of_collectChanges. by rewrite Hv. Qed.

(** What the changes that write the live entry of [x] can be. *)
Lemma live_writers x change :
  change ∈ changes -> is_Some (live_write x change) ->
  (exists r, revs v !! x = Some r /\ c < r /\ live_change v x r change)
  \/ (live_write x change = Some (None, None) /\ c < FolderChange_Revision change
      /\ forall r, revs v !! x = Some r -> FolderChange_Revision change < r).
Proof.
  intros [(y & r & Hy & Hc & Hl)|(y & t & Hy & Hc & Hh & ->)]%elem_of_changes Hw.
  - destruct Hl as [(h & Hh & ->)|[Hno ->]]; unfold live_write in *; simpl in *.
    + case_bool_decide as Hyx; [subst; left; exists r; split_and?; [done|done|left; eauto]|].
      case_bool_decide as Hfx; [|by destruct Hw]. right. split_and?; [done|done|].
      destruct Hh as (y' & Hy' & Hf & Ht & Hr). intros r' Hr'. rewrite <- Hr.
      eapply (wf_hint_lt _ W); [|exact Hr']. congruence.
    + case_bool_decide as Hyx; [|by destruct Hw]. subst. left. exists r. split_and?; [done|done|right; eauto].
  - unfold live_write in *. simpl in *. case_bool_decide; [|by destruct Hw]. subst. right.
    split_and?; [done|done|]. intros r Hr. by eapply (wf_tomb_lt _ W).
Qed.

Lemma live_change_fun x r a b : live_change v x r a -> live_change v x r b -> a = b.
Proof.
  intros [(h & Hh & ->)|[Hno ->]] [(h' & Hh' & ->)|[Hno' ->]]; [| | |done].
  - by destruct (renamed_to_inj _ _ _ _ _ _ W Hh Hh') as [-> _].
  - by apply Hno' in Hh.
  - by apply Hno in Hh'.
Qed.

Lemma live_change_exists x r :
  revs v !! x = Some r -> c < r ->
  exists change, change ∈ changes /\ live_change v x r change
    /\ FolderChange_Revision change = r
    /\ live_write x change = Some (files v !! x, Some r).
Proof.
  intros Hx Hc. assert (is_Some (files v !! x)) as [man Hman] by (apply (wf_dom _ W); eauto).
  destruct (renameHintForDestination (hints v) x r) as [h|] eqn:Eh.
  - apply renameHint_Some in Eh; [|done]. eexists. split; [|split; [left; eauto|]].
    + apply elem_of_changes. left. exists x, r. split_and?; [done|done|left; eauto].
    + simpl. unfold live_write. simpl. rewrite bool_decide_eq_true_2, Hman by done. done.
  - assert (forall h, ~ renamed_to v x r h) as Hno by (intros h; by apply renameHint_None).
    eexists. split; [|split; [right; eauto|]].
    + apply elem_of_changes. left. exists x, r. split_and?; [done|done|right; eauto].
    + simpl. unfold live_write. simpl. rewrite bool_decide_eq_true_2, Hman by done. done.
Qed.

(** A recent tombstone is sent, as a deletion or as the origin of a rename. *)
Lemma dead_change_exists x t :
  tombs v !! x = Some t -> c < t ->
  exists ch, ch ∈ changes /\ FolderChange_Revision ch = t
    /\ (FolderChange_Path ch = x /\ FolderChange_Kind ch = ChangeDelete
        \/ FolderChange_FromPath ch = x /\ FolderChange_Kind ch = ChangeMove).
Proof.
  intros Ht Hc.
  assert ((exists h, hints v !! x = Some h /\ RenameHint_Revision h = t)
    \/ forall h, hints v !! x = Some h -> RenameHint_Revision h <> t) as [(h & Hh & Heq)|Hno].
  { destruct (hints v !! x) as [h|]; [destruct (decide (RenameHint_Revision h = t))|]; naive_solver. }
  - pose proof (settled_tomb _ _ _ K x h t Ht Hc Hh Heq) as Hd.
    destruct (live_change_exists _ _ Hd Hc) as (ch & Hin & Hl & Hrev & _).
    exists ch. split; [done|]. split; [done|]. right.
    assert (renamed_to v (RenameHint_ToPath h) t h) as Hren.
    { exists x. split_and?; [done| |done|done]. by apply (wf_hint _ W). }
    destruct Hl as [(h' & Hh' & ->)|[Hno _]]; [|by apply Hno in Hren].
    destruct (renamed_to_inj _ _ _ _ _ _ W Hren Hh') as [<- _]. simpl. split; [|done].
    by apply (wf_hint _ W).
  - exists (mkFolderChange ChangeDelete EmptyString x t None). split; [|split; [done|by left]].
    apply elem_of_changes. right. exists x, t. split_and?; done.
Qed.

Lemma converged_live x :
  (rep_files (foldl apply_total p changes) !! x, rep_revs (foldl apply_total p changes) !! x)
  = (files v !! x, revs v !! x).
Proof.
  pose (get := fun r => (rep_files r !! x, rep_revs r !! x)).
  change (get (foldl apply_total p changes) = (files v !! x, revs v !! x)).
  destruct (revs v !! x) as [r|] eqn:Hr.
  - destruct (Z_lt_ge_dec c r) as [Hc|Hc].
    + destruct (live_change_exists x r Hr Hc) as (ch & Hin & Hl & Hrev & Hw).
      eapply (fold_newest _ _ _ (live_write_step x)); [apply collectChanges_sorted|done|done|].
      intros ch' Hin' Hw'. destruct (live_writers x ch' Hin' Hw') as [(r' & Hr' & _ & Hl')|(_ & _ & Hlt)].
      * right. assert (r' = r) as -> by congruence. by eapply live_change_fun.
      * left. rewrite Hrev. by apply Hlt.
    + rewrite (fold_untouched _ get _ (live_write_step x)).
      * destruct (behind_live _ _ _ B x r Hr) as [H1 H2]; [lia|]. unfold get. by rewrite H1, H2.
      * intros ch Hin. apply eq_None_not_Some. intros Hw.
        destruct (live_writers x ch Hin Hw) as [(r' & Hr' & ? & _)|(_ & ? & Hlt)].
        -- assert (r' = r) by congruence. lia.
        -- specialize (Hlt r Hr). lia.
  - assert (files v !! x = None) as ->.
    { apply eq_None_not_Some. rewrite (wf_dom _ W), Hr. by intros []. }
    assert (forall ch, ch ∈ changes -> is_Some (live_write x ch) -> live_write x ch = Some (None, None)) as Hnone.
    { intros ch Hin Hw. destruct (live_writers x ch Hin Hw) as [(r' & Hr' & _)|(? & _)]; [congruence|done]. }
    apply (fold_constant _ _ _ (live_write_step x)).
    { intros ch w' Hin Hw. rewrite Hnone in Hw by eauto. congruence. }
    destruct (rep_revs p !! x) as [rp|] eqn:Hp.
    + right. destruct (behind_gone _ _ _ B x Hr) as (t & Ht & Hc); [by eauto|].
      destruct (dead_change_exists x t Ht Hc) as (ch & Hin & _ & Hch). exists ch. split; [done|].
      unfold live_write. destruct Hch as [[<- ->]|[<- ->]]; simpl.
      * by rewrite bool_decide_eq_true_2.
      * case_bool_decide; [by eauto|]. by rewrite bool_decide_eq_true_2.
    + left. simpl. f_equal. apply eq_None_not_Some.
      rewrite (behind_dom _ _ _ B), Hp. by intros [].
Qed.

(** What the changes that write the tombstone of [x] can be. *)
Lemma tomb_writers x change :
  change ∈ changes -> is_Some (tomb_write x change) ->
  (exists r, revs v !! x = Some r /\ c < r /\ (forall h, ~ renamed_to v x r h)
     /\ FolderChange_Revision change = r /\ tomb_write x change = Some None /\ live_change v x r change)
  \/ (exists r, c < r /\ FolderChange_Revision change = r /\ tomb_write x change = Some (Some r)
     /\ ((exists h, hints v !! x = Some h /\ RenameHint_Revision h = r /\ live_change v (RenameHint_ToPath h) r change)
         \/ tombs v !! x = Some r /\ change = mkFolderChange ChangeDelete EmptyString x r None)).
Proof.
  intros [(y & r & Hy & Hc & Hl)|(y & t & Hy & Hc & Hh & ->)]%elem_of_changes Hw.
  - pose proof Hl as [(h & Hh & ->)|[Hno ->]]; unfold tomb_write in *; simpl in *.
    + case_bool_decide as Hfx; [|by destruct Hw]. right. exists r. split_and?; [done..|]. left.
      destruct Hh as (y' & Hy' & Hf & Ht & Hr). exists h. split_and?; [congruence|done|by rewrite Ht].
    + case_bool_decide as Hyx; [|by destruct Hw]. subst. left. exists r. by split_and?.
  - unfold tomb_write in *. simpl in *. case_bool_decide; [|by destruct Hw]. subst. right.
    exists t. split_and?; [done..|]. by right.
Qed.

(** A plain delete of a path is sent only when no rename covers it. *)
Lemma plain_delete_sent x t h :
  mkFolderChange ChangeDelete EmptyString x t None ∈ changes -> hints v !! x = Some h ->
  RenameHint_Revision h <> t.
Proof.
  intros Hin Hh Ht. destruct (elem_of_changes (mkFolderChange ChangeDelete EmptyString x t None)) as [He _].
  destruct (He Hin) as [(z & rz & _ & _ & [(? & _ & [=])|[_ [=]]])|(z & tz & _ & _ & Hz & [= -> ->])].
  by apply (Hz h).
Qed.

Lemma converged_tomb_new x t :
  tombs v !! x = Some t -> c < t -> rep_tombs (foldl apply_total p changes) !! x = Some t.
Proof.
  intros Ht Hc. pose (get := fun r => rep_tombs r !! x). change (get (foldl apply_total p changes) = Some t).
  destruct (dead_change_exists x t Ht Hc) as (ch & Hin & Hrev & Hch).
  assert (tomb_write x ch = Some (Some t)) as Hw.
  { unfold tomb_write. destruct Hch as [[<- ->]|[<- ->]]; simpl;
      rewrite bool_decide_eq_true_2 by done; congruence. }
  eapply (fold_newest _ _ _ (tomb_write_step x)); [apply collectChanges_sorted|done|done|].
  intros ch' Hin' Hw'. rewrite Hrev.
  destruct (tomb_writers x ch' Hin' Hw') as [(r & Hr & Hcr & Hno & _)|(r & Hcr & Hrev' & _ & Hcase)].
  { by rewrite (settled_saved _ _ _ K x r Hr Hcr Hno) in Ht. }
  destruct (tomb_writers x ch Hin) as [(r0 & Hr0 & Hcr0 & Hno & _)|(r0 & _ & Hrev0 & _ & Hcase0)];
    [by eauto|by rewrite (settled_saved _ _ _ K x r0 Hr0 Hcr0 Hno) in Ht|].
  assert (r0 = t) as -> by congruence. rewrite Hrev'.
  destruct Hcase as [(h & Hh & Hhr & Hl)|[Ht' ->]]; [|destruct Hcase0 as [(h & Hh & Hhr & Hl)|[_ ->]]].
  - pose proof (wf_hint_le _ W _ _ _ Hh Ht). destruct (decide (r = t)) as [->|]; [|left; lia].
    destruct Hcase0 as [(h0 & Hh0 & _ & Hl0)|[_ ->]].
    + right. assert (h0 = h) as -> by congruence. by eapply live_change_fun.
    + by destruct (plain_delete_sent _ _ _ Hin Hh).
  - assert (r = t) as -> by congruence. by destruct (plain_delete_sent _ _ _ Hin' Hh).
  - right. congruence.
Qed.

Lemma converged_tomb_old x t :
  tombs v !! x = Some t -> t <= c -> rep_tombs (foldl apply_total p changes) !! x = Some t.
Proof.
  intros Ht Hc. pose (get := fun r => rep_tombs r !! x). change (get (foldl apply_total p changes) = Some t).
  rewrite (fold_untouched _ get _ (tomb_write_step x)); [by apply (behind_dead _ _ _ B)|].
  intros ch Hin. apply eq_None_not_Some. intros Hw.
  destruct (tomb_writers x ch Hin Hw) as [(r & Hr & Hcr & Hno & _)|(r & Hcr & _ & _ & [(h & Hh & Hhr & _)|[? _]])].
  - by rewrite (settled_saved _ _ _ K x r Hr Hcr Hno) in Ht.
  - pose proof (wf_hint_le _ W _ _ _ Hh Ht). lia.
  - assert (r = t) by congruence. lia.
Qed.

(** If a path is not tombstoned, a change that writes its tombstone means that
    the path was saved since. *)
Lemma tomb_writer_saved x ch :
  tombs v !! x = None -> ch ∈ changes -> is_Some (tomb_write x ch) ->
  exists r, revs v !! x = Some r /\ c < r /\ (forall h, ~ renamed_to v x r h).
Proof.
  intros Ht Hin Hw. destruct (tomb_writers x ch Hin Hw)
    as [(r & Hr & Hcr & Hno & _)|(r & Hcr & _ & _ & [(h & Hh & Hhr & _)|[? _]])]; [by eauto| |congruence].
  destruct (wf_hint_live _ W _ _ Hh Ht) as [r' Hr']. exists r'.
  pose proof (wf_hint_lt _ W _ _ _ Hh Hr'). split_and?; [done|lia|]. intros h' Hren.
  destruct (settled_renamed _ _ _ K x r' h' Hr') as [_ Hle]; [lia|done|]. specialize (Hle h Hh). lia.
Qed.

(** The save of a path is the last change that writes its tombstone. *)
Lemma converged_tomb_cleared x ch :
  tombs v !! x = None -> ch ∈ changes -> is_Some (tomb_write x ch) ->
  rep_tombs (foldl apply_total p changes) !! x = None.
Proof.
  intros Ht Hin Hw. pose (get := fun r => rep_tombs r !! x).
  change (get (foldl apply_total p changes) = None).
  destruct (tomb_writer_saved x ch Ht Hin Hw) as (r & Hr & Hcr & Hno).
  destruct (live_change_exists x r Hr Hcr) as (ch0 & Hin0 & Hl0 & Hrev0 & _).
  pose proof Hl0 as [(h & Hh & _)|[_ Heq]]; [by apply Hno in Hh|].
  assert (tomb_write x ch0 = Some None) as Hw0.
  { rewrite Heq. unfold tomb_write. simpl. by rewrite bool_decide_eq_true_2. }
  eapply (fold_newest _ _ _ (tomb_write_step x)); [apply collectChanges_sorted|exact Hin0|done|].
  intros ch' Hin' Hw'. rewrite Hrev0.
  destruct (tomb_writers x ch' Hin' Hw')
    as [(r' & Hr' & _ & _ & _ & _ & Hl')|(r' & Hcr' & Hrev' & _ & [(h & Hh & Hhr & _)|[? _]])]; [| |congruence].
  - right. assert (r' = r) as -> by congruence. by eapply live_change_fun.
  - left. pose proof (wf_hint_lt _ W _ _ _ Hh Hr). lia.
Qed.

Lemma converged_tomb_untouched x :
  tombs v !! x = None -> (forall ch, ch ∈ changes -> tomb_write x ch = None) ->
  rep_tombs (foldl apply_total p changes) !! x = None.
Proof.
  intros Ht Hno. pose (get := fun r => rep_tombs r !! x).
  change (get (foldl apply_total p changes) = None). rewrite (fold_untouched _ get _ (tomb_write_step x)); [|done].
  change (rep_tombs p !! x = None). apply eq_None_not_Some. intros Hp.
  destruct (behind_saved _ _ _ B x Ht Hp) as (r & Hr & Hcr).
  destruct (live_change_exists x r Hr Hcr) as (ch & Hin & [(h & Hh & _)|[_ ->]] & _).
  - destruct (settled_renamed _ _ _ K x r h Hr Hcr Hh) as [Hnone _]. rewrite Hnone in Hp by done. by destruct Hp.
  - apply Hno in Hin. unfold tomb_write in Hin. simpl in Hin. by rewrite bool_decide_eq_true_2 in Hin.
Qed.

Lemma converged_tomb x : rep_tombs (foldl apply_total p changes) !! x = tombs v !! x.
Proof.
  destruct (tombs v !! x) as [t|] eqn:Ht.
  - destruct (Z_lt_ge_dec c t); [by apply converged_tomb_new|apply converged_tomb_old; [done|lia]].
  - destruct (decide (Exists (fun ch => is_Some (tomb_write x ch)) changes)) as [Hex|Hno].
    + apply Exists_exists in Hex as (ch & Hin & Hw). by eapply converged_tomb_cleared.
    + apply converged_tomb_untouched; [done|]. intros ch Hin. apply eq_None_not_Some. intros Hw.
      apply Hno, Exists_exists. eauto.
Qed.

Lemma changes_valid : Forall (valid_change c (cursor v)) changes.
Proof.
  apply Forall_forall. intros ch [(x & r & Hx & Hc & Hl)|(x & t & Ht & Hc & _ & ->)]%elem_of_changes.
  - pose proof (wf_rev _ W _ _ Hx). destruct Hl as [(h & (y & Hy & Hf & _) & ->)|[_ ->]]; (split; simpl; [lia|]).
    + right. right. split_and?; [done| |by eauto]. intros Hfe. assert (y = EmptyString) as -> by congruence.
      by rewrite (settled_named _ _ _ K) in Hy.
    + left. by eauto.
  - pose proof (wf_tomb _ W _ _ Ht). split; simpl; [lia|]. right. by left.
Qed.

Lemma converged :
  exists p', applyChanges c (cursor v) p changes = Ok p' /\ in_sync p' v.
Proof.
  eexists. split; [apply applyChanges_valid, changes_valid|]. unfold in_sync. split_and?; apply map_eq; intros x.
  - by pose proof (converged_live x) as [= ? ?].
  - by pose proof (converged_live x) as [= ? ?].
  - apply converged_tomb.
Qed.
End convergence.

(** ** Batches of operations *)

Definition touches (op : folderOp) (x : string) : Prop :=
  match op with
  | OpSave rel _ | OpDelete rel => rel = x
  | OpMove from to _ => from = x \/ to = x
  end.

(** No other operation of the batch touches either end of a rename. *)
Definition quiet (ops : list folderOp) : Prop :=
  forall i j from to m op, ops !! i = Some (OpMove from to m) -> ops !! j = Some op -> i <> j ->
    ~ touches op from /\ ~ touches op to.

Lemma quiet_snoc l op :
  quiet (l ++ [op]) ->
  quiet l
  /\ (forall from to m, OpMove from to m ∈ l -> ~ touches op from /\ ~ touches op to)
  /\ (forall from to m op', op = OpMove from to m -> op' ∈ l -> ~ touches op' from /\ ~ touches op' to).
Proof.
  intros Q. split_and?.
  - intros i j from to m op' Hi Hj Hij. eapply (Q i j); [|by apply lookup_app_l_Some|done].
    by apply lookup_app_l_Some.
  - intros from to m [i Hi]%list_elem_of_lookup. eapply (Q i (length l)).
    + by apply lookup_app_l_Some.
    + by apply list_lookup_middle.
    + apply lookup_lt_Some in Hi. lia.
  - intros from to m op' -> [i Hi]%list_elem_of_lookup. eapply (Q (length l) i).
    + by apply list_lookup_middle.
    + by apply lookup_app_l_Some.
    + apply lookup_lt_Some in Hi. lia.
Qed.

Lemma behind_refl p v : wf v -> in_sync p v -> behind p v (cursor v).
Proof.
  intros W (Hf & Hr & Ht). split.
  - intros x. rewrite Hf, Hr. apply (wf_dom _ W).
  - intros x r. rewrite Hf, Hr. done.
  - intros x Hx. rewrite Hr, Hx. by intros [].
  - intros x t. by rewrite Ht.
  - intros x Hx. rewrite Ht, Hx. by intros [].
Qed.

Lemma behind_op p v c op :
  wf v -> 0 <= c <= cursor v -> cursor v + 1 < 2 ^ 64 -> op_ok op -> behind p v c -> behind p (apply_op v op) c.
Proof.
  intros W Hc Hlt Hok []. destruct op as [rel m|rel|from to m]; simpl in *; rewrite u64_small by lia;
    split; simpl; intros *; try done; intros; map_cases; try lia.
  all: try (destruct (decide (rel = x)) as [->|]; rewrite ?lookup_insert_eq, ?lookup_delete_eq,
    ?lookup_insert_ne, ?lookup_delete_ne by done).
  all: try (destruct (decide (from = x)) as [->|]; rewrite ?lookup_insert_eq, ?lookup_insert_ne by done).
  all: try (destruct (decide (to = x)) as [->|]; rewrite ?lookup_insert_eq, ?lookup_insert_ne,
    ?lookup_delete_ne by done).
  all: try done; eauto 3 with lia.
  all: exists (cursor v + 1); rewrite lookup_insert_eq; split; [done|lia].
Qed.

(** What a quiet batch [l] has made of [v0]. *)
Record batch (v0 : folder) (l : list folderOp) (v : folder) : Prop := {
  batch_untouched x : (forall op, op ∈ l -> ~ touches op x) ->
    tombs v !! x = tombs v0 !! x /\ hints v !! x = hints v0 !! x /\ revs v !! x = revs v0 !! x;
  batch_renamed from to m : OpMove from to m ∈ l -> exists n, cursor v0 < n /\ revs v !! to = Some n
    /\ hints v !! from = Some (mkRenameHint from to n) /\ revs v !! from = None
    /\ tombs v !! to = tombs v0 !! to /\ hints v !! to = hints v0 !! to;
  batch_saved x : (forall from to m, OpMove from to m ∈ l -> x <> from /\ x <> to) ->
    hints v !! x = hints v0 !! x
    /\ forall r, revs v !! x = Some r -> cursor v0 < r -> tombs v !! x = None
}.

Lemma batch_nil v0 : wf v0 -> batch v0 [] v0.
Proof.
  intros W. split; [done| |].
  - by intros from to m Hin%elem_of_nil.
  - intros x _. split; [done|]. intros r Hr%(wf_rev _ W). lia.
Qed.

Lemma batch_snoc v0 l v op :
  0 <= cursor v0 <= cursor v -> cursor v + 1 < 2 ^ 64 -> op_ok op -> quiet (l ++ [op]) ->
  batch v0 l v -> batch v0 (l ++ [op]) (apply_op v op).
Proof.
  intros Hc Hlt Hok Q B. apply quiet_snoc in Q as (_ & Q1 & Q2). split.
  - intros x Hx. destruct (batch_untouched _ _ _ B x) as (Ht & Hh & Hr); [set_solver|].
    assert (~ touches op x) as Hnx by set_solver. rewrite <- Ht, <- Hh, <- Hr.
    destruct op; simpl in *; rewrite ?lookup_insert_ne, ?lookup_delete_ne by tauto; done.
  - intros from to m Hin. rewrite elem_of_app, list_elem_of_singleton in Hin. destruct Hin as [Hin|<-].
    + destruct (batch_renamed _ _ _ B from to m Hin) as (n & Hn & H1 & H2 & H3 & H4 & H5). exists n.
      destruct (Q1 _ _ _ Hin) as [N1 N2]. split; [done|]. rewrite <- H1, <- H2, <- H3, <- H4, <- H5.
      destruct op; simpl in *; rewrite ?lookup_insert_ne, ?lookup_delete_ne by tauto; done.
    + simpl in *. rewrite u64_small by lia. exists (cursor v + 1).
      destruct (batch_untouched _ _ _ B to) as (Ht & Hh & Hr).
      { intros op' Hop'. by apply (Q2 from to m op'). }
      split_and?; [lia|by rewrite lookup_insert_eq..| | |].
      * rewrite lookup_insert_ne by congruence. apply lookup_delete_eq.
      * by rewrite lookup_insert_ne.
      * by rewrite lookup_insert_ne.
  - intros x Hx. destruct (batch_saved _ _ _ B x) as [Hh Hs]; [set_solver|]. rewrite <- Hh.
    destruct op as [rel m|rel|from to m]; simpl.
    + split; [done|]. intros r Hr Hcr. destruct (decide (rel = x)) as [->|].
      * by rewrite lookup_delete_eq.
      * rewrite lookup_insert_ne in Hr by done. rewrite lookup_delete_ne by done. eauto.
    + split; [done|]. intros r Hr Hcr. destruct (decide (rel = x)) as [->|].
      * by rewrite lookup_delete_eq in Hr.
      * rewrite lookup_delete_ne in Hr by done. rewrite lookup_insert_ne by done. eauto.
    + destruct (Hx from to m) as [N1 N2]; [set_solver|]. rewrite lookup_insert_ne by done.
      split; [done|]. intros r Hr Hcr. rewrite lookup_insert_ne, lookup_delete_ne in Hr by done.
      rewrite lookup_insert_ne by done. eauto.
Qed.

(** Whether a path is an end of a rename of the batch. *)
Lemma rename_end (l : list folderOp) x :
  (exists from to m, OpMove from to m ∈ l /\ (x = from \/ x = to))
  \/ (forall from to m, OpMove from to m ∈ l -> x <> from /\ x <> to).
Proof.
  induction l as [|op l IH]; [right; by intros from to m Hin%elem_of_nil|].
  destruct IH as [(a & b & m & Hin & Hx)|Hno]; [left; exists a, b, m; set_solver|].
  destruct op as [rel m|rel|from to m].
  1,2: right; intros a b m' Hin; apply (Hno a b m'); set_solver.
  destruct (decide (x = from \/ x = to)); [left; exists from, to, m; set_solver|].
  right. intros a b m' [[= -> -> ->]|Hin]%elem_of_cons; [tauto|by eapply Hno].
Qed.

Lemma batch_settled p v0 l v :
  wf v0 -> wf v -> in_sync p v0 -> hints v !! EmptyString = None -> batch v0 l v -> settled p v (cursor v0).
Proof.
  intros W0 W (_ & _ & Hpt) Hname B.
  assert (forall x h, hints v !! x = Some h -> cursor v0 < RenameHint_Revision h ->
    exists to m n, OpMove x to m ∈ l /\ h = mkRenameHint x to n /\ revs v !! to = Some n) as Hren.
  { intros x h Hh Hlt. destruct (rename_end l x) as [(from & to & m & Hin & Hx)|Hno].
    - destruct (batch_renamed _ _ _ B _ _ _ Hin) as (n & _ & H1 & H2 & _ & _ & H5).
      destruct Hx as [->| ->]; [exists to, m, n; split_and?; congruence|].
      rewrite H5 in Hh. apply (wf_hint _ W0) in Hh. lia.
    - destruct (batch_saved _ _ _ B x Hno) as [H1 _]. rewrite H1 in Hh. apply (wf_hint _ W0) in Hh. lia. }
  split; [done| | |].
  - intros y h t Ht Hlt Hh <-. destruct (Hren y h Hh Hlt) as (to & m & n & _ & -> & Hr). done.
  - intros x r h Hr Hlt (y & Hy & _ & Hto & Hrev).
    destruct (Hren y h Hy) as (to & m & n & Hin & -> & _); [lia|]. simpl in *. subst.
    destruct (batch_renamed _ _ _ B _ _ _ Hin) as (n' & _ & _ & _ & _ & H4 & H5).
    split; [by rewrite Hpt, H4|]. intros h' Hh'. rewrite H5 in Hh'. apply (wf_hint _ W0) in Hh'. lia.
  - intros x r Hr Hlt Hno. destruct (rename_end l x) as [(from & to & m & Hin & Hx)|Hnone].
    + destruct (batch_renamed _ _ _ B _ _ _ Hin) as (n & Hn & H1 & H2 & H3 & _).
      destruct Hx as [->| ->]; [congruence|]. exfalso. eapply Hno. exists from.
      split_and?; [exact H2|done|done|]. simpl. congruence.
    + by eapply (batch_saved _ _ _ B x Hnone).
Qed.

Lemma quiet_run p v0 ops :
  wf v0 -> in_sync p v0 -> hints v0 !! EmptyString = None ->
  cursor v0 + Z.of_nat (length ops) < 2 ^ 64 ->
  Forall op_ok ops -> Forall (fun op => empty_path op = false) ops -> quiet ops ->
  let v := run v0 ops in
  wf v /\ cursor v = cursor v0 + Z.of_nat (length ops) /\ behind p v (cursor v0)
  /\ batch v0 ops v /\ hints v !! EmptyString = None.
Proof.
  intros W S H0. pose proof (wf_cursor _ W).
  induction ops as [|op ops IH] using rev_ind; intros Hlen Hok Hne Q.
  { simpl. split_and?; [done|lia|by apply behind_refl|by apply batch_nil|done]. }
  rewrite length_app in *. simpl in Hlen |- *. apply Forall_app in Hok as [Hok1 Hok2].
  apply Forall_app in Hne as [Hne1 Hne2]. rewrite Forall_singleton in Hok2, Hne2.
  destruct IH as (W' & Hc & B & Bt & Hh); [lia|done|done|by destruct (quiet_snoc _ _ Q) as (? & _)|].
  unfold run in *. rewrite foldl_snoc. split_and?.
  - apply wf_op; [done|lia|done].
  - rewrite cursor_apply_op; lia.
  - apply behind_op; [done|lia|lia|done|done].
  - apply batch_snoc; [lia|lia|done..].
  - destruct op as [| |from to m]; simpl; [done..|]. simpl in Hne2. apply orb_false_iff in Hne2 as [Hf _].
    apply bool_decide_eq_false in Hf. by rewrite lookup_insert_ne.
Qed.

(** ** Stores *)

Lemma replica_of_with peerID f r cur state cp p : replica_of (with_replica peerID f r cur state cp p) peerID f = r.
Proof. unfold replica_of, with_replica. simpl. autorewrite with nested. by destruct r. Qed.

Lemma replica_of_with_ne peerID f r cur state cp p peer' f' :
  (peer', f') <> (peerID, f) -> replica_of (with_replica peerID f r cur state cp p) peer' f' = replica_of p peer' f'.
Proof.
  intros Hne. unfold replica_of, with_replica. simpl. destruct (decide (peer' = peerID)) as [->|].
  - assert (f' <> f) by congruence. autorewrite with nested. done.
  - autorewrite with nested. done.
Qed.

Section stores.
Context (sha256 : bytes -> bytes) (marshal : Manifest -> string).

Lemma inner_singleton {V} `{Empty V} k (v : V) : inner {[k := v]} k = v.
Proof. unfold inner. by rewrite lookup_singleton_eq. Qed.

Lemma num_singleton (k : string) z : num {[k := z]} k = z.
Proof. unfold num. by rewrite lookup_singleton_eq. Qed.

Lemma peerFolderSummary_in_sync folderID r m :
  in_sync r (view m folderID) ->
  peerFolderSummary sha256 marshal folderID r (cursor (view m folderID)) = folderSummary sha256 marshal m folderID.
Proof.
  intros (Hf & Hr & Ht). unfold peerFolderSummary, folderSummary. simpl in *.
  rewrite !inner_singleton, num_singleton, Hf, Hr, Ht. done.
Qed.

(** The summary of a folder whose sizes fit an [int]. *)
Definition fits (v : folder) : Prop := Z.of_nat (size (files v)) + Z.of_nat (size (tombs v)) <= maxInt.

Definition summary_of (folderID : string) (v : folder) : FolderSummary :=
  mkFolderSummary folderID (cursor v) (Z.of_nat (size (files v))) (Z.of_nat (size (tombs v)))
    (stateHash sha256 marshal (files v) (revs v) (tombs v)).

Lemma folderSummary_view m folderID :
  fits (view m folderID) -> folderSummary sha256 marshal m folderID = Ok (summary_of folderID (view m folderID)).
Proof.
  unfold fits, folderSummary, summaryPathCapacity. simpl. intros Hf.
  by rewrite !(proj2 (Z.ltb_ge _ _)) by lia.
Qed.

(** What the sender reports since a cursor, as one message. *)
Definition batch_of (m : folderMeta) (folderID : string) (from : Z) : FolderChanges :=
  mkFolderChanges folderID from (cursor (view m folderID))
    (FolderSummary_StateHash (summary_of folderID (view m folderID))) (collectChanges m folderID from).

Lemma changesOf_batch snap folderID from :
  fits (view (snap_local snap) folderID) -> metadataCompactionCursorError snap folderID from = Ok tt ->
  changesOf sha256 marshal snap folderID from 0 = Ok (batch_of (snap_local snap) folderID from).
Proof.
  intros Hfit Hc. unfold changesOf. rewrite Hc. simpl. unfold folderSummaryAtCursor. by rewrite Z.leb_refl, folderSummary_view.
Qed.

Lemma ChangesSince_batch s snap folderID from :
  load s = Ok snap -> fits (view (snap_local snap) folderID) ->
  metadataCompactionCursorError snap folderID from = Ok tt ->
  ChangesSince sha256 marshal s folderID from = Ok (batch_of (snap_local snap) folderID from).
Proof. intros Hl Hfit Hc. unfold ChangesSince, ChangesSinceLimit. rewrite Hl. by apply changesOf_batch. Qed.

(** The receiver holds the folder in the state [v] of its peer. *)
Definition holds (s : JSONStore) (peerID folderID : string) (v : folder) : Prop :=
  exists snap, load s = Ok snap
    /\ in_sync (replica_of (snap_peer snap) peerID folderID) v
    /\ peerCursor (snap_peer snap) peerID folderID = cursor v
    /\ peerState (snap_peer snap) peerID folderID = summary_of folderID v.

Lemma holds_saved s snap s' peerID folderID v r cp :
  load s = Ok snap -> in_sync r v ->
  save s (with_peer (with_replica peerID folderID r (cursor v) (summary_of folderID v) cp (snap_peer snap)) snap) = (s', Ok tt) ->
  holds s' peerID folderID v.
Proof.
  intros Hl Hr Hs. match type of Hs with save s ?sn = _ => pose proof (save_ok s snap sn Hl) as H end. rewrite Hs in H.
  eexists. split; [exact H|]. cbn [normalizeLoadedSnapshot with_local with_peer snap_peer].
  rewrite replica_of_with. split; [done|]. unfold peerCursor, peerState, with_replica. cbn [PeerCursors PeerStates].
  autorewrite with nested. by rewrite lookup_insert_eq.
Qed.

Lemma apply_batch v0 folderID m receiver rsnap peerID :
  let v := view m folderID in
  wf v -> behind (replica_of (snap_peer rsnap) peerID folderID) v (cursor v0) ->
  settled (replica_of (snap_peer rsnap) peerID folderID) v (cursor v0) -> fits v ->
  load receiver = Ok rsnap -> peerID <> EmptyString -> folderID <> EmptyString ->
  peerCursor (snap_peer rsnap) peerID folderID = cursor v0 ->
  exists r cp, in_sync r v /\
    ApplyPeerFolderChanges sha256 marshal receiver peerID (batch_of m folderID (cursor v0)) =
    save receiver (with_peer (with_replica peerID folderID r (cursor v) (summary_of folderID v) cp (snap_peer rsnap)) rsnap).
Proof.
  intros v W B K Hfit Hlr Hp Hfd Hcur.
  destruct (converged m folderID _ _ _ eq_refl W B K) as (p' & Happly & Hsync').
  fold v in Happly, Hsync'.
  pose proof (peerFolderSummary_in_sync folderID p' m Hsync') as Hps.
  rewrite (folderSummary_view m folderID Hfit) in Hps. fold v in Hps.
  unfold ApplyPeerFolderChanges, batch_of. cbn [FolderChanges_FolderID]. unfold require.
  rewrite (bool_decide_eq_false_2 _ Hp), (bool_decide_eq_false_2 _ Hfd). simpl. rewrite Hlr. simpl.
  unfold applyPeerChanges. change (num (Cursors m) folderID) with (cursor v).
  cbn [FolderChanges_FolderID FolderChanges_FromCursor FolderChanges_ToCursor FolderChanges_Changes FolderChanges_StateHash].
  rewrite bool_decide_eq_false_2 by (intros Hx; by apply Hx). rewrite Happly. simpl.
  change (num (Cursors m) folderID) with (cursor v). rewrite Hps. simpl. rewrite bool_decide_eq_false_2 by (intros Hx; by apply Hx).
  eexists p', _. split; [exact Hsync'|]. reflexivity.
Qed.

(** [C1] A peer that holds a folder as the sender had it at a cursor, and applies the
    changes the sender reports since that cursor, ends with a replica equal to the
    sender's folder - the same files, revisions and tombstones, the sender's cursor
    and the sender's summary. Between the two states the sender ran any batch of
    saves, deletes and renames (to another path), with non-empty paths, that is
    quiet: no other operation of the batch touches an end of a rename in it. The
    sender still has the cursor (no compaction passed it), the revisions fit 64 bits
    and the number of paths fits the summary. Only saving the receiver's own store
    can fail, and then nothing has changed. Without quietness the batch can be
    rejected: see [renamed_twice_rejected]. *)
Theorem ChangesSince_converges v0 folderID ops sender snap receiver rsnap peerID :
  let v := run v0 ops in
  wf v0 -> hints v0 !! EmptyString = None ->
  cursor v0 + Z.of_nat (length ops) < 2 ^ 64 -> fits v ->
  Forall op_ok ops -> Forall (fun op => empty_path op = false) ops -> quiet ops ->
  load sender = Ok snap -> view (snap_local snap) folderID = v ->
  metadataCompactionCursorError snap folderID (cursor v0) = Ok tt ->
  load receiver = Ok rsnap -> peerID <> EmptyString -> folderID <> EmptyString ->
  in_sync (replica_of (snap_peer rsnap) peerID folderID) v0 ->
  peerCursor (snap_peer rsnap) peerID folderID = cursor v0 ->
  exists changes,
    ChangesSince sha256 marshal sender folderID (cursor v0) = Ok changes /\
    match ApplyPeerFolderChanges sha256 marshal receiver peerID changes with
    | (receiver', Err e) => receiver' = receiver /\ e = ErrSave
    | (receiver', Ok _) => holds receiver' peerID folderID v
    end.
Proof.
  intros v W0 Hn Hlen Hfit Hok Hne Q Hls Hview Hcomp Hlr Hp Hfd Hsync Hcur.
  destruct (quiet_run _ v0 ops W0 Hsync Hn Hlen Hok Hne Q) as (W & Hc & B & Bt & Hh). fold v in W, Hc, B, Bt, Hh.
  pose proof (batch_settled _ _ _ _ W0 W Hsync Hh Bt) as K. clearbody v. subst v.
  eexists. split; [by apply ChangesSince_batch|].
  destruct (apply_batch v0 folderID (snap_local snap) receiver rsnap peerID W B K Hfit Hlr Hp Hfd Hcur) as (r & cp & Hr & ->).
  match goal with |- context [save receiver ?sn] => pose proof (save_ok receiver rsnap sn Hlr) as Hm end.
  destruct (save _ _) as [s' [[]|e]] eqn:Hs; [|done]. exact (holds_saved _ _ _ _ _ _ _ _ Hlr Hr Hs).
Qed.

(** The peer part of a store, as its operations see it. *)
Definition peers (s : JSONStore) : option peerMeta :=
  match load s with Ok snap => Some (snap_peer snap) | Err _ => None end.

Lemma folderSummary_fields m folderID summary :
  folderSummary sha256 marshal m folderID = Ok summary ->
  FolderSummary_FolderID summary = folderID /\ FolderSummary_Cursor summary = num (Cursors m) folderID
  /\ FolderSummary_StateHash summary
     = stateHash sha256 marshal (inner (Folders m) folderID) (inner (Revisions m) folderID)
         (inner (Tombstones m) folderID).
Proof. unfold folderSummary. destruct (summaryPathCapacity _ _); [|done]. intros [= <-]. done. Qed.

Definition replicaHash (r : replica) : string :=
  stateHash sha256 marshal (rep_files r) (rep_revs r) (rep_tombs r).

(** The whole effect of an accepted batch of changes. *)
Lemma applyPeerChanges_Some peerID changes snap snap' :
  applyPeerChanges sha256 marshal peerID changes snap = Ok (Some snap') ->
  let folderID := FolderChanges_FolderID changes in
  let p := snap_peer snap in
  peerCursor p peerID folderID = FolderChanges_FromCursor changes
  /\ exists r state cp,
       applyChanges (FolderChanges_FromCursor changes) (FolderChanges_ToCursor changes)
         (replica_of p peerID folderID) (FolderChanges_Changes changes) = Ok r
       /\ snap' = with_peer (with_replica peerID folderID r (FolderChanges_ToCursor changes) state cp p) snap
       /\ FolderSummary_Cursor state = FolderChanges_ToCursor changes
       /\ FolderSummary_StateHash state = FolderChanges_StateHash changes
       /\ replicaHash r = FolderChanges_StateHash changes.
Proof.
  intros H folderID p. unfold applyPeerChanges in H. fold folderID p in H.
  case_bool_decide as Hcur; [by destruct (_ && _)|].
  apply result_bind_ok in H as (r & Hr & H). apply result_bind_ok in H as (state & Hs & H).
  case_bool_decide as Hh; [done|]. injection H as <-.
  apply folderSummary_fields in Hs as (_ & Hc & Hs). cbn [Cursors Folders Revisions Tombstones] in Hc, Hs.
  rewrite !inner_singleton in Hs. rewrite num_singleton in Hc.
  split; [lia|]. eexists r, state, _. split; [done|]. split; [done|].
  split; [done|]. assert (FolderSummary_StateHash state = FolderChanges_StateHash changes) as He.
  { destruct (decide (FolderSummary_StateHash state = FolderChanges_StateHash changes)); done. }
  unfold replicaHash. split; congruence.
Qed.

Lemma applyPeerChanges_None peerID changes snap :
  applyPeerChanges sha256 marshal peerID changes snap = Ok None <->
  let p := snap_peer snap in
  let folderID := FolderChanges_FolderID changes in
  peerCursor p peerID folderID <> FolderChanges_FromCursor changes
  /\ peerCursor p peerID folderID = FolderChanges_ToCursor changes
  /\ FolderSummary_Cursor (peerState p peerID folderID) = FolderChanges_ToCursor changes
  /\ FolderSummary_StateHash (peerState p peerID folderID) = FolderChanges_StateHash changes.
Proof.
  intros. unfold applyPeerChanges. case_bool_decide as Hcur.
  - destruct (bool_decide_reflect (peerCursor (snap_peer snap) peerID (FolderChanges_FolderID changes) = FolderChanges_ToCursor changes));
    destruct (bool_decide_reflect (FolderSummary_Cursor (peerState (snap_peer snap) peerID (FolderChanges_FolderID changes)) = FolderChanges_ToCursor changes));
    destruct (bool_decide_reflect (FolderSummary_StateHash (peerState (snap_peer snap) peerID (FolderChanges_FolderID changes)) = FolderChanges_StateHash changes));
      simpl; split; naive_solver.
  - split; [|naive_solver]. intros H. apply result_bind_ok in H as (r & _ & H).
    apply result_bind_ok in H as (state & _ & H). by case_bool_decide.
Qed.

(** [C18] Applying a peer's changes is all or nothing, verified and idempotent:
    an error leaves the store untouched; success either finds the changes
    already applied (and writes nothing) or moves the replica from exactly the
    batch's first cursor to its last, with a content whose hash is the one the
    sender announced, leaving every other replica and all local metadata
    alone; and delivering the same batch again is then a no-op. *)
Theorem ApplyPeerFolderChanges_atomic s peerID changes snap :
  load s = Ok snap -> loadable_meta (snap_local snap) ->
  FolderChanges_FromCursor changes <> FolderChanges_ToCursor changes ->
  let folderID := FolderChanges_FolderID changes in
  match ApplyPeerFolderChanges sha256 marshal s peerID changes with
  | (s', Err _) => s' = s
  | (s', Ok _) =>
      ApplyPeerFolderChanges sha256 marshal s' peerID changes = (s', Ok tt) /\
      (s' = s \/ exists snap', load s' = Ok snap'
        /\ peerCursor (snap_peer snap) peerID folderID = FolderChanges_FromCursor changes
        /\ peerCursor (snap_peer snap') peerID folderID = FolderChanges_ToCursor changes
        /\ replicaHash (replica_of (snap_peer snap') peerID folderID) = FolderChanges_StateHash changes
        /\ (forall peer' f', (peer', f') <> (peerID, folderID) ->
             replica_of (snap_peer snap') peer' f' = replica_of (snap_peer snap) peer' f')
        /\ same_views (snap_local snap') (snap_local snap))
  end.
Proof.
  intros Hl Hload Hne folderID. subst folderID. unfold ApplyPeerFolderChanges.
  destruct (require "peer id" peerID ≫= _) as [[]|e] eqn:Hreq; [|done].
  simpl. rewrite Hl. simpl.
  destruct (applyPeerChanges _ _ _ _ _) as [[snap'|]|e] eqn:Happly; [| |done].
  - pose proof (save_ok s snap snap' Hl) as Hsave. destruct (save s snap') as [s' [[]|e]]; [|by destruct Hsave].
    apply applyPeerChanges_Some in Happly as (Hcur & r & state & cp & _ & -> & Hc & Hh & Hhash).
    split.
    + rewrite Hsave. simpl. rewrite (proj2 (applyPeerChanges_None _ _ _)); [done|].
      simpl. unfold peerCursor, peerState. simpl. autorewrite with nested. rewrite lookup_insert_eq. simpl.
      split_and?; done.
    + right. eexists. split; [exact Hsave|]. split; [done|].
      cbn [normalizeLoadedSnapshot with_local with_peer snap_peer snap_local].
      rewrite replica_of_with. split_and?; [|done| |].
      * unfold peerCursor. simpl. by autorewrite with nested.
      * intros peer' f' Hp. by apply replica_of_with_ne.
      * by apply normalizeSnapshot_id.
  - split; [|by left]. rewrite Hl. simpl. by rewrite Happly.
Qed.
End stores.

(** ** Compaction *)

Lemma map_to_list_filter {V} (P : string * V -> Prop) `{!forall x, Decision (P x)} (m : gmap string V) :
  map_to_list (filter P m) ≡ₚ filter P (map_to_list m).
Proof.
  rewrite map_filter_alt. apply map_to_list_to_map.
  eapply sublist_NoDup; [apply (NoDup_fst_map_to_list m)|]. apply fmap_sublist, sublist_filter.
Qed.

Lemma omap_filter {A B} (P : A -> Prop) `{!forall x, Decision (P x)} (f : A -> option B) (l : list A) :
  (forall x, x ∈ l -> ~ P x -> f x = None) -> omap f (filter P l) = omap f l.
Proof.
  induction l as [|x l IH]; intros Hf; [done|]. rewrite filter_cons. case_decide; csimpl.
  - rewrite IH; [done|]. intros y Hy. apply Hf. by right.
  - rewrite (Hf x); [|by left|done]. apply IH. intros y Hy. apply Hf. by right.
Qed.

(** What compaction leaves of a folder. *)
Definition compacted (v : folder) (safe : Z) : folder :=
  mkFolder (files v) (history v) (revs v) (filter (fun tomb => safe < tomb.2) (tombs v)) (hints v) (cursor v).

Lemma view_dropTombstones f safe m g :
  view (dropTombstones f safe m) g = if decide (g = f) then compacted (view m f) safe else view m g.
Proof.
  unfold view, dropTombstones, compacted. simpl. case_decide; subst; f_equal; unfold inner.
  - rewrite lookup_alter_eq. by destruct (Tombstones m !! f).
  - by rewrite lookup_alter_ne.
Qed.

Lemma loadable_compacted v safe : loadable v -> loadable (compacted v safe).
Proof.
  intros []. split; simpl; [done..| |done]. intros x r Hr%map_lookup_filter_Some_1_1. eauto.
Qed.

Lemma collectChanges_view m m' f c : view m f = view m' f -> collectChanges m f c = collectChanges m' f c.
Proof. intros [= Hf Hh Hr Ht Hhi Hc]. unfold collectChanges, liveChange, deadChange. by rewrite Hf, Hr, Ht, Hhi. Qed.

Lemma liveChange_shape m f c e ch :
  liveChange m f c e = Some ch ->
  FolderChange_Path ch = e.1 /\ FolderChange_Revision ch = e.2 /\ FolderChange_Manifest ch <> None.
Proof. destruct e as [x r]. unfold liveChange. by repeat case_match; intros [= <-]. Qed.

Lemma deadChange_shape m f c e ch :
  deadChange m f c e = Some ch -> ch = mkFolderChange ChangeDelete EmptyString e.1 e.2 None.
Proof. destruct e as [x r]. unfold deadChange. by repeat case_match; intros [= <-]. Qed.

(** The sort sees no ties: a live path and its own tombstone never share a
    revision. *)
Lemma changes_untied m f c x y :
  wf (view m f) ->
  let l := omap (liveChange m f c) (map_to_list (inner (Revisions m) f)) ++
           omap (deadChange m f c) (map_to_list (inner (Tombstones m) f)) in
  x ∈ l -> y ∈ l -> tied change_lt x y -> x = y.
Proof.
  intros W l Hx Hy Ht. unfold change_lt in Ht. apply tied_by_key in Ht as [Hrev Ht]; [|apply _].
  apply tied_last_key in Ht; [|apply _].
  assert (forall rel r t, revs (view m f) !! rel = Some r -> tombs (view m f) !! rel = Some t -> r <> t) as Hdiff.
  { intros rel r t Hr Htt. pose proof (wf_tomb_lt _ W _ _ _ Hr Htt). lia. }
  unfold l in *. rewrite elem_of_app, !list_elem_of_omap in Hx, Hy.
  destruct Hx as [([a ra] & Ha%elem_of_map_to_list & Hx)|([a ra] & Ha%elem_of_map_to_list & Hx)],
    Hy as [([b rb] & Hb%elem_of_map_to_list & Hy)|([b rb] & Hb%elem_of_map_to_list & Hy)].
  - pose proof (liveChange_shape _ _ _ _ _ Hx) as (? & ? & _).
    pose proof (liveChange_shape _ _ _ _ _ Hy) as (? & ? & _). cbn [fst snd] in *.
    assert (a = b) as -> by congruence. assert (ra = rb) as -> by congruence. congruence.
  - pose proof (liveChange_shape _ _ _ _ _ Hx) as (? & ? & _).
    apply deadChange_shape in Hy as ->. cbn in *. subst. exfalso. by eapply Hdiff.
  - pose proof (liveChange_shape _ _ _ _ _ Hy) as (? & ? & _).
    apply deadChange_shape in Hx as ->. cbn in *. subst. exfalso. by eapply Hdiff.
  - apply deadChange_shape in Hx as ->, Hy as ->. simpl in *. congruence.
Qed.

(** Peers at or past the safe cursor see the same changes as before. *)
Lemma collectChanges_compacted m f safe c :
  wf (view m f) -> safe <= c -> collectChanges (dropTombstones f safe m) f c = collectChanges m f c.
Proof.
  intros W Hc. unfold collectChanges. symmetry. apply sort_by_unique; [apply _| |].
  - intros x y Hx Hy. by apply (changes_untied m f c).
  - apply Permutation_app; [done|].
    pose proof (f_equal tombs (view_dropTombstones f safe m f)) as Ht. rewrite decide_True in Ht by done.
    simpl in Ht. change (deadChange (dropTombstones f safe m) f c) with (deadChange m f c).
    simpl. rewrite Ht, map_to_list_filter, omap_filter; [done|].
    intros [x t] _ Hle. unfold deadChange. simpl in Hle. by rewrite (proj2 (Z.leb_le _ _)) by lia.
Qed.

Lemma planPeer_fold snap f current ids acc :
  let safe := (foldl (planPeer snap f current) acc ids).1.1 in
  safe <= acc.1.1 /\ forall p, p ∈ ids -> safe <= FolderSummary_Cursor (peerState (snap_peer snap) p f).
Proof.
  revert acc. induction ids as [|id ids IH]; intros acc; simpl; [split; [lia|]; by intros p Hp%elem_of_nil|].
  destruct (IH (planPeer snap f current acc id)) as [H1 H2]. destruct acc as [[safe cursors] blocked]. simpl in *.
  set (r := foldl _ _ _) in *. split.
  - destruct (Z.ltb_spec (FolderSummary_Cursor (peerState (snap_peer snap) id f)) safe); lia.
  - intros p [->|Hp]%elem_of_cons; [|by apply H2].
    destruct (Z.ltb_spec (FolderSummary_Cursor (peerState (snap_peer snap) id f)) safe); lia.
Qed.

Lemma metadataCompactionPlan_safe snap f policy :
  let plan := metadataCompactionPlan snap f policy in
  let safe := MetadataCompactionPlan_SafeCursor plan in
  let current := num (Cursors (snap_local snap)) f in
  let retain := MetadataCompactionPolicy_RetainLastCursors policy in
  safe <= current
  /\ (forall p, p ∈ MetadataCompactionPolicy_PeerIDs policy ->
       safe <= FolderSummary_Cursor (peerState (snap_peer snap) p f))
  /\ (0 < retain -> safe <= Z.max 0 (current - retain))
  /\ (MetadataCompactionPlan_EligibleTombstones plan = 0 ->
       forall x t, inner (Tombstones (snap_local snap)) f !! x = Some t -> safe < t).
Proof.
  unfold metadataCompactionPlan.
  pose proof (planPeer_fold snap f (num (Cursors (snap_local snap)) f)
    (MetadataCompactionPolicy_PeerIDs policy) (num (Cursors (snap_local snap)) f, ∅, [])) as [H1 H2].
  destruct (foldl _ _ _) as [[safe0 cursors] blocked]. simpl in *.
  set (safe := if 0 <? _ then _ else _).
  assert (safe <= safe0) as Hs by (unfold safe; repeat case_match; lia).
  split_and?; [lia| | |].
  - intros p Hp. specialize (H2 p Hp). lia.
  - intros Hr. unfold safe. repeat case_match; lia.
  - intros Hz x t Ht. destruct (Z_lt_ge_dec safe t) as [|Hge]; [done|]. exfalso.
    assert (t ∈ List.filter (fun rev => rev <=? safe) (map_to_list (inner (Tombstones (snap_local snap)) f)).*2) as Hin.
    { apply list_elem_of_In, filter_In. split; [|apply Z.leb_le; lia]. apply list_elem_of_In, list_elem_of_fmap.
      exists (x, t). split; [done|]. by apply elem_of_map_to_list. }
    destruct (List.filter _ _); [by apply elem_of_nil in Hin|]. simpl in Hz. lia.
Qed.

(** When a cursor is too old. *)
Lemma newerCompaction_None c l latest :
  foldl (newerCompaction c) latest l = None <->
  latest = None /\ Forall (fun s => MetadataCompactionSnapshot_CompactedTombstones s = 0
                               \/ MetadataCompactionSnapshot_SafeCursor s <= c) l.
Proof.
  revert latest. induction l as [|s l IH]; intros latest; simpl; [by rewrite Forall_nil; naive_solver|].
  rewrite IH, Forall_cons. unfold newerCompaction.
  destruct (Z.eqb_spec (MetadataCompactionSnapshot_CompactedTombstones s) 0);
    destruct (Z.leb_spec (MetadataCompactionSnapshot_SafeCursor s) c); simpl; try naive_solver.
  split; [intros [Hn _]; by repeat case_match|]. intros (-> & [?|?] & _); lia.
Qed.

Lemma metadataCompactionCursorError_ok snap f c :
  metadataCompactionCursorError snap f c = Ok tt <->
  Forall (fun s => MetadataCompactionSnapshot_CompactedTombstones s = 0
              \/ MetadataCompactionSnapshot_SafeCursor s <= c) (default [] (CompactionSnapshots snap !! f)).
Proof.
  unfold metadataCompactionCursorError.
  pose proof (newerCompaction_None c (default [] (CompactionSnapshots snap !! f)) None) as H.
  destruct (foldl _ _ _); naive_solver.
Qed.

Section compaction.
Context (sha256 : bytes -> bytes) (marshal : Manifest -> string).

(** [C19] Compaction is safe for the peers it is told about: the safe cursor never
    passes a cursor one of them acknowledged, nor the retention window; only
    tombstones at or below it are dropped, nothing else of any folder changes; the
    list of changes for a peer at or past it stays what it was, and a peer is
    refused as too old exactly when it was before or is behind the safe cursor of a
    compaction that dropped something. The store is one whose folders are well
    formed. The state hash that goes with the changes does change with the dropped
    tombstones: [compaction_rejected] shows a peer that refuses the next batch for
    it. *)
Theorem CompactFolderMetadata_safe s snap folderID policy :
  load s = Ok snap -> wf_meta (snap_local snap) ->
  match CompactFolderMetadata sha256 marshal s folderID policy with
  | (s', Err _) => s' = s
  | (s', Ok (plan, record)) =>
      let safe := MetadataCompactionPlan_SafeCursor plan in
      (forall p, p ∈ MetadataCompactionPolicy_PeerIDs policy ->
         safe <= FolderSummary_Cursor (peerState (snap_peer snap) p folderID))
      /\ (0 < MetadataCompactionPolicy_RetainLastCursors policy ->
          safe <= Z.max 0 (cursor (view (snap_local snap) folderID) - MetadataCompactionPolicy_RetainLastCursors policy))
      /\ exists snap', load s' = Ok snap'
        /\ view (snap_local snap') folderID = compacted (view (snap_local snap) folderID) safe
        /\ (forall g, g <> folderID -> view (snap_local snap') g = view (snap_local snap) g)
        /\ (forall c, safe <= c ->
             collectChanges (snap_local snap') folderID c = collectChanges (snap_local snap) folderID c)
        /\ (forall c, metadataCompactionCursorError snap' folderID c = Ok tt <->
             metadataCompactionCursorError snap folderID c = Ok tt
             /\ (MetadataCompactionSnapshot_CompactedTombstones record = 0 \/ safe <= c))
  end.
Proof.
  intros Hl W. unfold CompactFolderMetadata. rewrite Hl. simpl. unfold compactSnap.
  destruct (folderSummary _ _ _ _) as [before|e]; [|done]. simpl.
  pose proof (metadataCompactionPlan_safe snap folderID policy) as (Hcur & Hpeers & Hretain & Hzero).
  set (plan := metadataCompactionPlan snap folderID policy) in *.
  set (safe := MetadataCompactionPlan_SafeCursor plan) in *.
  destruct (Z.ltb_spec 0 (MetadataCompactionPlan_EligibleTombstones plan)) as [Hpos|Hz].
  - match goal with |- context [save s ?sn] => pose proof (save_ok s snap sn Hl) as Hs end.
    destruct (save s _) as [s' [[]|e]]; [|by destruct Hs].
    split; [done|]. split; [done|]. eexists. split; [exact Hs|].
    cbn [normalizeLoadedSnapshot with_local with_compaction snap_local].
    set (m' := dropTombstones folderID safe (snap_local snap)).
    assert (same_views (normalizeSnapshot m') m') as Hn.
    { apply normalizeSnapshot_id. intros g. unfold m'. rewrite view_dropTombstones.
      case_decide; [apply loadable_compacted|]; apply wf_loadable, W. }
    split_and?.
    + rewrite (Hn folderID). unfold m'. by rewrite view_dropTombstones, decide_True.
    + intros g Hg. rewrite (Hn g). unfold m'. by rewrite view_dropTombstones, decide_False.
    + intros c Hc. rewrite (collectChanges_view _ _ _ _ (Hn folderID)). by apply collectChanges_compacted.
    + intros c. rewrite !metadataCompactionCursorError_ok. simpl. rewrite lookup_insert_eq. simpl.
      by rewrite Forall_app, Forall_singleton.
  - assert (MetadataCompactionPlan_EligibleTombstones plan = 0) as Hz0.
    { assert (0 <= MetadataCompactionPlan_EligibleTombstones plan); [|lia].
      unfold plan, metadataCompactionPlan. destruct (foldl _ _ _) as [[??]?]. simpl. lia. }
    split; [done|]. split; [done|]. exists snap. split; [done|]. split_and?; [|done|done|].
    + unfold compacted. rewrite map_filter_id; [by destruct (view _ _)|].
      intros x t Ht. by apply (Hzero Hz0 x).
    + intros c. simpl. rewrite Hz0. naive_solver.
Qed.
End compaction.

(** ** Concrete histories

    A store with one backend file, a hash that is the identity and an encoding
    of manifests by their block hashes. *)

Definition demo_sender (ops : list folderOp) : JSONStore :=
  foldl (fun s op => (op_store s "docs" op).1) demo_store ops.

Definition demo_m (h : byte) : Manifest := demo_manifest h.

Definition deliver (sender receiver : JSONStore) (cursor : Z) : JSONStore * result StoreErr unit :=
  match ChangesSince id demo_marshal sender "docs" cursor with
  | Ok changes => ApplyPeerFolderChanges id demo_marshal receiver "alice" changes
  | Err e => (receiver, Err e)
  end.

(** A file renamed twice between two exchanges: the first rename is not sent,
    the peer keeps the original path and rejects the batch. *)
Example renamed_twice_rejected :
  let ops := [OpSave "a" (demo_m Byte.x61)] in
  let receiver := (deliver (demo_sender ops) demo_store 0).1 in
  let sender := demo_sender (ops ++ [OpMove "a" "b" (demo_m Byte.x61); OpMove "b" "c" (demo_m Byte.x61)]) in
  (deliver sender receiver 1).2 = Err ErrHashMismatch.
Proof. vm_compute. reflexivity. Qed.

(** After a compaction, a peer that had acknowledged everything still holds the
    dropped tombstones: the next batch is rejected. *)
Example compaction_rejected :
  let ops := [OpSave "a" (demo_m Byte.x61); OpDelete "a"] in
  let receiver := (deliver (demo_sender ops) demo_store 0).1 in
  let acked := (SavePeerFolderState (demo_sender ops) "bob" (mkFolderSummary "docs" 2 0 1 EmptyString)).1 in
  let compacted := (CompactFolderMetadata id demo_marshal acked "docs" (mkCompactionPolicy ["bob"] 0)).1 in
  let sender := (op_store compacted "docs" (OpSave "b" (demo_m Byte.x62))).1 in
  (deliver sender receiver 2).2 = Err ErrHashMismatch.
Proof. vm_compute. reflexivity. Qed.

(** A full refresh carries no tombstones: the next batch of a sender that has
    one is rejected. *)
Example refresh_then_rejected :
  let ops := [OpSave "a" (demo_m Byte.x61); OpSave "b" (demo_m Byte.x62); OpDelete "a"] in
  let sender := demo_sender ops in
  let summary := match FolderSummary_ id demo_marshal sender "docs" with Ok x => x | Err _ => FolderSummary_zero end in
  let receiver := (ReplacePeerFolderFromFullRefresh demo_store "alice" "docs" summary
    {["b" := demo_m Byte.x62]} {["b" := 2]}).1 in
  let sender' := (op_store sender "docs" (OpSave "c" (demo_m Byte.x63))).1 in
  (deliver sender' receiver 3).2 = Err ErrHashMismatch.
Proof. vm_compute. reflexivity. Qed.

(** ** Witnesses *)

Definition demo_batch : list folderOp := [OpMove "a" "b" (demo_m Byte.x61); OpSave "c" (demo_m Byte.x62)].

Definition loaded (s : JSONStore) : snapshot := match load s with Ok snap => snap | Err _ => snapshot_zero end.

Lemma demo_batch_quiet : quiet demo_batch.
Proof.
  intros [|[|i]] [|[|j]] from to m op; try done.
  intros [= <- <- <-] [= <-] _. split; simpl; discriminate.
Qed.

Lemma ChangesSince_converges_witness :
  exists changes, ChangesSince id demo_marshal (demo_sender demo_batch) "docs" 0 = Ok changes /\
  match ApplyPeerFolderChanges id demo_marshal demo_store "alice" changes with
  | (_, Err e) => e = ErrSave
  | (r', Ok _) => exists rsnap', load r' = Ok rsnap'
      /\ in_sync (replica_of (snap_peer rsnap') "alice" "docs") (run folder_empty demo_batch)
  end.
Proof.
  destruct (ChangesSince_converges id demo_marshal folder_empty "docs" demo_batch (demo_sender demo_batch)
    (loaded (demo_sender demo_batch)) demo_store snapshot_zero "alice") as (changes & Hc & Ha).
  - apply wf_empty.
  - reflexivity.
  - reflexivity.
  - vm_compute. discriminate.
  - repeat constructor. discriminate.
  - repeat constructor.
  - apply demo_batch_quiet.
  - reflexivity.
  - vm_compute. reflexivity.
  - reflexivity.
  - reflexivity.
  - discriminate.
  - discriminate.
  - repeat split.
  - reflexivity.
  - exists changes. split; [exact Hc|].
    destruct (ApplyPeerFolderChanges _ _ _ _ _) as [r' [u|e]]; [|exact (proj2 Ha)].
    destruct Ha as (rsnap' & Hl & Hs & _). exists rsnap'. split; [exact Hl|exact Hs].
Defined.

Definition demo_changes : FolderChanges :=
  match ChangesSince id demo_marshal (demo_sender demo_batch) "docs" 0 with
  | Ok changes => changes
  | Err _ => mkFolderChanges EmptyString 0 0 EmptyString []
  end.

Lemma ApplyPeerFolderChanges_atomic_witness :
  let s' := (ApplyPeerFolderChanges id demo_marshal demo_store "alice" demo_changes).1 in
  ApplyPeerFolderChanges id demo_marshal s' "alice" demo_changes = (s', Ok tt).
Proof.
  intros s'.
  assert (load demo_store = Ok snapshot_zero) as Hl by reflexivity.
  pose proof (ApplyPeerFolderChanges_atomic id demo_marshal demo_store "alice" demo_changes snapshot_zero Hl
    (fun f => wf_loadable _ (wf_meta_zero f)) ltac:(vm_compute; discriminate)) as H.
  assert ((ApplyPeerFolderChanges id demo_marshal demo_store "alice" demo_changes).2 = Ok tt) as Hok
    by (vm_compute; reflexivity).
  unfold s'. destruct (ApplyPeerFolderChanges id demo_marshal demo_store "alice" demo_changes) as [s1 [u|e]].
  - exact (proj1 H).
  - discriminate Hok.
Defined.

(** Two files were saved and deleted; "bob" has acknowledged the first deletion, "carol"
    both. *)
Definition demo_deletions : folderMeta :=
  run_snap "docs" folderMeta_zero [OpSave "a" (demo_m Byte.x61); OpDelete "a"; OpSave "b" (demo_m Byte.x62); OpDelete "b"].
Definition demo_acknowledged : snapshot :=
  with_peer (savePeerState "carol" (mkFolderSummary "docs" 4 0 2 EmptyString)
    (savePeerState "bob" (mkFolderSummary "docs" 2 0 1 EmptyString) peerMeta_zero)) (with_local demo_deletions snapshot_zero).
Definition demo_acknowledged_store : JSONStore := mkStore (Some (mkBackend (JSONFile demo_acknowledged) false false)).

Lemma wf_meta_op folderID op m : wf_meta m -> op_ok op -> cursor (view m folderID) + 1 < 2 ^ 64 -> wf_meta (op_snap folderID op m).
Proof. intros W Hop Hc g. rewrite view_op_snap. case_decide; [by apply wf_op|apply W]. Qed.

Lemma demo_deletions_wf : wf_meta demo_deletions.
Proof. repeat (apply wf_meta_op; [|exact I|vm_compute; reflexivity]). apply wf_meta_zero. Qed.

(** The safe cursor is bob's: the tombstone of "a" goes, that of "b" stays, and carol is
    sent what she was sent before. *)
Lemma CompactFolderMetadata_safe_witness :
  match CompactFolderMetadata id demo_marshal demo_acknowledged_store "docs" (mkCompactionPolicy ["bob"; "carol"] 0) with
  | (_, Err _) => False
  | (s', Ok (plan, record)) => MetadataCompactionPlan_SafeCursor plan = 2 /\ MetadataCompactionSnapshot_CompactedTombstones record = 1 /\
      MetadataCompactionPlan_SafeCursor plan <= FolderSummary_Cursor (peerState (snap_peer demo_acknowledged) "bob" "docs") /\
      exists snap', load s' = Ok snap' /\ tombs (view (snap_local snap') "docs") = {["b" := 4]} /\
        collectChanges (snap_local snap') "docs" 3 = collectChanges demo_deletions "docs" 3
  end.
Proof.
  assert (load demo_acknowledged_store = Ok demo_acknowledged) as Hl by (vm_compute; reflexivity).
  pose proof (CompactFolderMetadata_safe id demo_marshal demo_acknowledged_store demo_acknowledged "docs"
    (mkCompactionPolicy ["bob"; "carol"] 0) Hl demo_deletions_wf) as H.
  assert ((fun r => (MetadataCompactionPlan_SafeCursor r.1, MetadataCompactionSnapshot_CompactedTombstones r.2)) <$>
    (CompactFolderMetadata id demo_marshal demo_acknowledged_store "docs" (mkCompactionPolicy ["bob"; "carol"] 0)).2 = Ok (2, 1)) as Hok
    by (vm_compute; reflexivity).
  destruct (CompactFolderMetadata _ _ _ _ _) as [s' [[plan record]|e]]; [|discriminate Hok].
  injection Hok as Hsafe Hrec. cbn [fst snd] in Hsafe, Hrec. split; [exact Hsafe|]. split; [exact Hrec|].
  cbv zeta in H. destruct H as (Hp & _ & snap' & Hl' & Hv & _ & Hc & _). split; [apply (Hp "bob"); left|].
  exists snap'. split; [exact Hl'|]. split.
  - rewrite Hv, Hsafe. vm_compute. reflexivity.
  - rewrite (Hc 3) by (rewrite Hsafe; lia). reflexivity.
Defined.
