(* ===== verification/ConfigSync.v ===== *)
(** * Replicated engine settings

    Models [internal/configsync/sync.go] and [store.go]: the hybrid logical
    clock, one instance's record, queued edits and onboarding commands, and the
    merge of two replicas.

    A value ([any]) is a [settingsValue]; [formatUnixMilli] (the RFC 3339 form
    of a time) and the random bytes of NewInstanceID are arguments.  A range
    over a map visits [map_to_list]; the theorems do not depend on that order. *)

From S2P Require Import Prelude GoStd Block StoreData.
From Stdlib Require Import Ascii.
From Stdlib Require Strings.Byte.

Local Open Scope Z_scope.

(** ** Data *)

Record Clock := mkClock { Clock_Wall : Z; Clock_Counter : Z; Clock_NodeID : string }.

Record Field := mkField {
  Field_Key : string;
  Field_Value : settingsValue;
  Field_Deleted : bool;
  Field_Clock : Clock;
  Field_Writer : string
}.

Record InstanceRecord := mkInstanceRecord {
  InstanceRecord_InstanceID : string;
  InstanceRecord_Fields : gmap string Field
}.

Record Connection := mkConnection {
  Connection_InstanceID : string;
  Connection_Label : string;
  Connection_APIURL : string;
  Connection_Addresses : list string;
  Connection_DiscoveryID : string;
  Connection_DHTPeerID : string;
  Connection_RelayAddrs : list string;
  Connection_MeshHelper : bool;
  Connection_Reachable : string;
  Connection_Online : bool;
  Connection_LastSeen : string;
  Connection_Clock : Clock
}.

Record Edit := mkEdit {
  Edit_ID : string;
  Edit_TargetInstanceID : string;
  Edit_Path : string;
  Edit_Value : settingsValue;
  Edit_Deleted : bool;
  Edit_Clock : Clock;
  Edit_OriginInstanceID : string;
  Edit_Status : string
}.

Record OnboardingCommand := mkOnboardingCommand {
  OnboardingCommand_ID : string;
  OnboardingCommand_TargetInstanceID : string;
  OnboardingCommand_Action : string;
  OnboardingCommand_Code : string;
  OnboardingCommand_ExpiresAt : string;
  OnboardingCommand_Status : string;
  OnboardingCommand_Message : string;
  OnboardingCommand_Clock : Clock;
  OnboardingCommand_OriginInstanceID : string
}.

Record Replica := mkReplica {
  Replica_GroupID : string;
  Replica_InstanceID : string;
  Replica_Records : gmap string InstanceRecord;
  Replica_Connections : gmap string Connection;
  Replica_Pending : list Edit;
  Replica_Onboarding : list OnboardingCommand;
  Replica_LocalClock : Clock
}.

Record InstanceView := mkInstanceView {
  InstanceView_InstanceID : string;
  InstanceView_Label : string;
  InstanceView_APIURL : string;
  InstanceView_Online : bool;
  InstanceView_LastSeen : string;
  InstanceView_PendingChanges : Z;
  InstanceView_Local : bool;
  InstanceView_AverageBytesPerSecond : Z;
  InstanceView_PendingBytes : Z;
  InstanceView_Settings : gmap string settingsValue
}.

Record MergeStats := mkMergeStats {
  MergeStats_FieldsAccepted : Z;
  MergeStats_FieldsKept : Z;
  MergeStats_EditsApplied : Z;
  MergeStats_EditsRelayed : Z
}.

Definition StatusPending : string := "pending".
Definition StatusApplied : string := "applied".
Definition StatusSuperseded : string := "superseded".
Definition OnboardingIssue : string := "issue".
Definition OnboardingAccept : string := "accept".
Definition OnboardingPending : string := "pending".
Definition OnboardingDone : string := "done".
Definition OnboardingFailed : string := "failed".

Inductive ConfigErr :=
| ErrInstanceID
| ErrKey (key : string)
| ErrSecret
| ErrIssueTakesNoCode
| ErrOnboardingAction
| ErrOnboardingStatus
| ErrOnlySelected
| ErrOnboardingNotFound
| ErrPairingCode
| ErrPathRequired
| ErrFile.

#[export] Instance Clock_eq_dec : EqDecision Clock.
Proof. solve_decision. Defined.

(** ** Clocks *)

(** [strings.Compare]. *)
Definition str_compare (a b : string) : Z :=
  if bool_decide (a = b) then 0 else if str_lt a b then -1 else 1.

Definition Compare (a b : Clock) : Z :=
  if bool_decide (Clock_Wall a <> Clock_Wall b) then
    if Clock_Wall b <? Clock_Wall a then 1 else -1
  else if bool_decide (Clock_Counter a <> Clock_Counter b) then
    if Clock_Counter b <? Clock_Counter a then 1 else -1
  else str_compare (Clock_NodeID a) (Clock_NodeID b).

(** ** Validation *)

Definition in_range (lo hi : N) (c : ascii) : bool :=
  let n := N_of_ascii c in (lo <=? n)%N && (n <=? hi)%N.

Definition is_hex (c : ascii) : bool := in_range 48 57 c || in_range 97 102 c || in_range 65 70 c.
Definition is_dash (c : ascii) : bool := bool_decide (c = "-"%char).
Definition is_version (c : ascii) : bool := in_range 49 56 c.
Definition is_variant (c : ascii) : bool := in_range 56 57 c || in_range 97 98 c || in_range 65 66 c.

Fixpoint match_classes (classes : list (ascii -> bool)) (s : string) : bool :=
  match classes, s with
  | [], EmptyString => true
  | f :: classes', String c s' => f c && match_classes classes' s'
  | _, _ => false
  end.

(** The pattern 8-4-4-4-12 of instanceIDPattern, one class per character. *)
Definition instanceIDPattern : list (ascii -> bool) :=
  replicate 8 is_hex ++ [is_dash] ++ replicate 4 is_hex ++ [is_dash] ++
  [is_version] ++ replicate 3 is_hex ++ [is_dash] ++
  [is_variant] ++ replicate 3 is_hex ++ [is_dash] ++ replicate 12 is_hex.

Definition ValidateInstanceID (id : string) : result ConfigErr unit :=
  fail_if (negb (match_classes instanceIDPattern id)) ErrInstanceID.

Definition ValidateKey (key : string) : result ConfigErr unit :=
  fail_if (bool_decide (key = EmptyString) || contains key ".."
           || contains_char key "/"%char || contains_char key "\"%char) (ErrKey key).

Definition byte_and_or (mask bits : N) (b : byte) : byte :=
  default Byte.x00 (Byte.of_N (N.lor (N.land (Byte.to_N b) mask) bits)).

(** [raw] is what [rand.Read] filled in. *)
Definition NewInstanceID (raw : bytes) : string :=
  let raw := alter (byte_and_or 15 64) 6%nat (alter (byte_and_or 63 128) 8%nat raw) in
  let part from n := hex_encode (take n (drop from raw)) in
  part 0%nat 4%nat +:+ "-" +:+ part 4%nat 2%nat +:+ "-" +:+ part 6%nat 2%nat +:+ "-" +:+
  part 8%nat 2%nat +:+ "-" +:+ part 10%nat 6%nat.

Definition secretMarkers : list string :=
  ["apikey"; "api_key"; "privatekey"; "private_key"; "password"; "secret"; "credential"].

Definition secretString (value : string) : bool :=
  existsb (contains (to_lower value)) secretMarkers.

Definition pair_lt {V} : string * V -> string * V -> bool := last_key fst str_lt.

(** [fmt.Sprint] of a JSON value: maps print in key order. *)
Fixpoint sprint (v : settingsValue) : string :=
  match v with
  | SVNull => "<nil>"
  | SVBool b => if b then "true" else "false"
  | SVNumber t => t
  | SVString s => s
  | SVList l => "[" +:+ join " " (map sprint l) +:+ "]"
  | SVMap m =>
      "map[" +:+ join " " (map (fun kv => kv.1 +:+ ":" +:+ kv.2)
        (sort_by pair_lt (map (fun kv => (kv.1, sprint kv.2)) m))) +:+ "]"
  end.

(** Whether RejectSecrets refuses one value. *)
Fixpoint hasSecret (v : settingsValue) : bool :=
  secretString (sprint v) ||
  match v with
  | SVMap m => existsb (fun kv => secretString kv.1 || hasSecret kv.2) m
  | _ => false
  end.

Definition RejectSecrets (values : list settingsValue) : result ConfigErr unit :=
  fail_if (existsb hasSecret values) ErrSecret.

(** ** A replica *)

Definition with_records (m : gmap string InstanceRecord) (r : Replica) : Replica :=
  mkReplica (Replica_GroupID r) (Replica_InstanceID r) m (Replica_Connections r) (Replica_Pending r)
    (Replica_Onboarding r) (Replica_LocalClock r).
Definition with_connections (m : gmap string Connection) (r : Replica) : Replica :=
  mkReplica (Replica_GroupID r) (Replica_InstanceID r) (Replica_Records r) m (Replica_Pending r)
    (Replica_Onboarding r) (Replica_LocalClock r).
Definition with_pending (l : list Edit) (r : Replica) : Replica :=
  mkReplica (Replica_GroupID r) (Replica_InstanceID r) (Replica_Records r) (Replica_Connections r) l
    (Replica_Onboarding r) (Replica_LocalClock r).
Definition with_onboarding (l : list OnboardingCommand) (r : Replica) : Replica :=
  mkReplica (Replica_GroupID r) (Replica_InstanceID r) (Replica_Records r) (Replica_Connections r)
    (Replica_Pending r) l (Replica_LocalClock r).
Definition with_clock (c : Clock) (r : Replica) : Replica :=
  mkReplica (Replica_GroupID r) (Replica_InstanceID r) (Replica_Records r) (Replica_Connections r)
    (Replica_Pending r) (Replica_Onboarding r) c.

(** NewReplica panics on an invalid id. *)
Definition NewReplica (groupID instanceID : string) : result ConfigErr Replica :=
  _ ← ValidateInstanceID instanceID;
  Ok (mkReplica groupID instanceID ∅ ∅ [] [] (mkClock 0 0 instanceID)).

(** The fields of a record; a missing record reads as an empty one. *)
Definition fieldsOf (r : Replica) (id : string) : gmap string Field :=
  match Replica_Records r !! id with Some rec => InstanceRecord_Fields rec | None => ∅ end.

Definition OwnRecord (r : Replica) : InstanceRecord :=
  mkInstanceRecord (Replica_InstanceID r) (fieldsOf r (Replica_InstanceID r)).

Definition Tick (wall : Z) (r : Replica) : Replica * Clock :=
  let local := Replica_LocalClock r in
  let wall := if wall <? Clock_Wall local then Clock_Wall local else wall in
  let counter := if wall =? Clock_Wall local then u32 (Clock_Counter local + 1) else 0 in
  let clock := mkClock wall counter (Replica_InstanceID r) in
  (with_clock clock r, clock).

Definition witness (remote : Clock) (r : Replica) : Replica :=
  if 0 <? Compare remote (Replica_LocalClock r)
  then with_clock (mkClock (Clock_Wall remote) (Clock_Counter remote) (Replica_InstanceID r)) r
  else r.

Definition putOwn (key : string) (value : settingsValue) (deleted : bool) (clock : Clock) (r : Replica) : Replica :=
  let id := Replica_InstanceID r in
  with_records (<[id := mkInstanceRecord id
    (<[key := mkField key value deleted clock id]> (fieldsOf r id))]> (Replica_Records r)) r.

Definition SetOwn (key : string) (value : settingsValue) (deleted : bool) (wall : Z) (r : Replica)
    : result ConfigErr (Replica * Field) :=
  _ ← ValidateKey key;
  _ ← RejectSecrets [SVString key; value];
  let '(r1, clock) := Tick wall r in
  Ok (putOwn key value deleted clock r1, mkField key value deleted clock (Replica_InstanceID r)).

Fixpoint upsertEditList (edit : Edit) (l : list Edit) : list Edit :=
  match l with
  | [] => [edit]
  | e :: l' => if bool_decide (Edit_ID e = Edit_ID edit) then edit :: l' else e :: upsertEditList edit l'
  end.

Definition upsertEdit (edit : Edit) (r : Replica) : Replica :=
  with_pending (upsertEditList edit (Replica_Pending r)) r.

Definition clockText (clock : Clock) : string :=
  itoa (Clock_Wall clock) +:+ "|" +:+ itoa (Clock_Counter clock) +:+ "|" +:+ Clock_NodeID clock.

Definition QueueEdit (target key : string) (value : settingsValue) (deleted : bool) (wall : Z) (r : Replica)
    : result ConfigErr (Replica * Edit) :=
  _ ← ValidateInstanceID target;
  _ ← ValidateKey key;
  _ ← RejectSecrets [SVString key; value];
  let '(r1, clock) := Tick wall r in
  let own := bool_decide (target = Replica_InstanceID r) in
  let edit := mkEdit (target +:+ "|" +:+ key +:+ "|" +:+ clockText clock) target key value deleted clock
    (Replica_InstanceID r) (if own then StatusApplied else StatusPending) in
  let r2 := if own then putOwn key value deleted clock r1 else r1 in
  Ok (upsertEdit edit r2, edit).

Definition codeAlphabet : string := "0123456789ABCDEFGHJKMNPQRSTVWXYZ".

Definition normalizeOnboardingCode (code : string) : result ConfigErr string :=
  let raw := filter_str (fun c => negb (is_dash c || bool_decide (c = " "%char))) (to_upper (trim_space code)) in
  if negb (forallb_str (contains_char codeAlphabet) raw) then Err ErrPairingCode
  else if bool_decide (String.length raw <> 16%nat) then Err ErrPairingCode
  else Ok (take_str 4 raw +:+ "-" +:+ take_str 4 (drop_str 4 raw) +:+ "-" +:+
           take_str 4 (drop_str 8 raw) +:+ "-" +:+ take_str 4 (drop_str 12 raw)).

Definition QueueOnboarding (target action code : string) (wall : Z) (r : Replica)
    : result ConfigErr (Replica * OnboardingCommand) :=
  _ ← ValidateInstanceID target;
  code' ← (if bool_decide (action = OnboardingIssue) then
             if bool_decide (trim_space code <> EmptyString) then Err ErrIssueTakesNoCode else Ok code
           else if bool_decide (action = OnboardingAccept) then normalizeOnboardingCode code
           else Err ErrOnboardingAction);
  let '(r1, clock) := Tick wall r in
  let command := mkOnboardingCommand
    ("onboard|" +:+ target +:+ "|" +:+ action +:+ "|" +:+ clockText clock)
    target action code' EmptyString OnboardingPending EmptyString clock (Replica_InstanceID r) in
  Ok (with_onboarding (Replica_Onboarding r1 ++ [command]) r1, command).

(** The first command with the id, and the list around it. *)
Fixpoint findCommand (id : string) (before l : list OnboardingCommand)
    : option (list OnboardingCommand * OnboardingCommand * list OnboardingCommand) :=
  match l with
  | [] => None
  | c :: l' => if bool_decide (OnboardingCommand_ID c = id) then Some (before, c, l')
               else findCommand id (before ++ [c]) l'
  end.

Definition CompleteOnboarding (id status code expires message : string) (wall : Z) (r : Replica)
    : result ConfigErr (Replica * OnboardingCommand) :=
  if bool_decide (status <> OnboardingDone) && bool_decide (status <> OnboardingFailed)
  then Err ErrOnboardingStatus
  else match findCommand id [] (Replica_Onboarding r) with
  | None => Err ErrOnboardingNotFound
  | Some (before, command, after) =>
      if bool_decide (OnboardingCommand_TargetInstanceID command <> Replica_InstanceID r) then Err ErrOnlySelected
      else if bool_decide (OnboardingCommand_Status command <> OnboardingPending) then Ok (r, command)
      else
        code' ← (if bool_decide (OnboardingCommand_Action command = OnboardingIssue)
                    && bool_decide (status = OnboardingDone)
                 then normalizeOnboardingCode code else Ok EmptyString);
        let '(r1, clock) := Tick wall r in
        let command' := mkOnboardingCommand (OnboardingCommand_ID command)
          (OnboardingCommand_TargetInstanceID command) (OnboardingCommand_Action command) code' expires
          status message clock (OnboardingCommand_OriginInstanceID command) in
        Ok (with_onboarding (before ++ command' :: after) r1, command')
  end.

Definition PublishConnection (formatUnixMilli : Z -> string) (conn : Connection) (wall : Z) (r : Replica)
    : result ConfigErr (Replica * Connection) :=
  _ ← ValidateInstanceID (Connection_InstanceID conn);
  _ ← RejectSecrets (SVString <$> [Connection_APIURL conn; Connection_Label conn; Connection_DiscoveryID conn;
                                   Connection_DHTPeerID conn; Connection_Reachable conn]);
  _ ← RejectSecrets (SVString <$> (Connection_Addresses conn ++ Connection_RelayAddrs conn));
  let '(r1, clock) := Tick wall r in
  let lastSeen := if bool_decide (Connection_LastSeen conn = EmptyString) && Connection_Online conn
                  then formatUnixMilli (Clock_Wall clock) else Connection_LastSeen conn in
  let conn' := mkConnection (Connection_InstanceID conn) (Connection_Label conn) (Connection_APIURL conn)
    (Connection_Addresses conn) (Connection_DiscoveryID conn) (Connection_DHTPeerID conn)
    (Connection_RelayAddrs conn) (Connection_MeshHelper conn) (Connection_Reachable conn)
    (Connection_Online conn) lastSeen clock in
  Ok (with_connections (<[Connection_InstanceID conn := conn']> (Replica_Connections r1)) r1, conn').

(** ** Merging *)

Definition later (a b : Clock) : bool := 0 <? Compare a b.

Definition stats_zero : MergeStats := mkMergeStats 0 0 0 0.
Definition accepted (s : MergeStats) : MergeStats :=
  mkMergeStats (MergeStats_FieldsAccepted s + 1) (MergeStats_FieldsKept s) (MergeStats_EditsApplied s)
    (MergeStats_EditsRelayed s).
Definition kept (s : MergeStats) : MergeStats :=
  mkMergeStats (MergeStats_FieldsAccepted s) (MergeStats_FieldsKept s + 1) (MergeStats_EditsApplied s)
    (MergeStats_EditsRelayed s).
Definition applied (s : MergeStats) : MergeStats :=
  mkMergeStats (MergeStats_FieldsAccepted s) (MergeStats_FieldsKept s) (MergeStats_EditsApplied s + 1)
    (MergeStats_EditsRelayed s).
Definition relayed (s : MergeStats) : MergeStats :=
  mkMergeStats (MergeStats_FieldsAccepted s) (MergeStats_FieldsKept s) (MergeStats_EditsApplied s)
    (MergeStats_EditsRelayed s + 1).

(** A key and a value a merge takes from another replica. *)
Definition acceptable (key : string) (value : settingsValue) : bool :=
  is_ok (ValidateKey key) && is_ok (RejectSecrets [SVString key; value]).

Definition mergeField (st : Replica * gmap string Field * MergeStats) (kf : string * Field)
    : Replica * gmap string Field * MergeStats :=
  let '(out, fields, stats) := st in
  let '(key, field) := kf in
  if negb (acceptable key (Field_Value field)) then st
  else
    let out := witness (Field_Clock field) out in
    let take := match fields !! key with
                | None => true
                | Some current => later (Field_Clock field) (Field_Clock current)
                end in
    if take
    then (out, <[key := mkField key (Field_Value field) (Field_Deleted field) (Field_Clock field)
                          (Field_Writer field)]> fields, accepted stats)
    else (out, fields, kept stats).

Definition mergeRecord (st : Replica * MergeStats) (ir : string * InstanceRecord) : Replica * MergeStats :=
  let '(out, stats) := st in
  let '(id, remoteRec) := ir in
  if negb (is_ok (ValidateInstanceID id)) || bool_decide (id = Replica_InstanceID out) then st
  else
    let '(out, fields, stats) :=
      foldl mergeField (out, fieldsOf out id, stats) (map_to_list (InstanceRecord_Fields remoteRec)) in
    (with_records (<[id := mkInstanceRecord id fields]> (Replica_Records out)) out, stats).

Definition mergeConnection (out : Replica) (ic : string * Connection) : Replica :=
  let '(id, conn) := ic in
  if negb (is_ok (ValidateInstanceID id)) then out
  else
    let out := witness (Connection_Clock conn) out in
    let take := match Replica_Connections out !! id with
                | None => true
                | Some current => later (Connection_Clock conn) (Connection_Clock current)
                end in
    if take then with_connections (<[id := conn]> (Replica_Connections out)) out else out.

Definition with_status (status : string) (e : Edit) : Edit :=
  mkEdit (Edit_ID e) (Edit_TargetInstanceID e) (Edit_Path e) (Edit_Value e) (Edit_Deleted e) (Edit_Clock e)
    (Edit_OriginInstanceID e) status.

Definition mergeEdit (st : Replica * MergeStats) (edit : Edit) : Replica * MergeStats :=
  let '(out, stats) := st in
  let out := witness (Edit_Clock edit) out in
  let pending := bool_decide (Edit_Status edit = StatusPending) in
  if bool_decide (Edit_TargetInstanceID edit = Replica_InstanceID out) && pending then
    if acceptable (Edit_Path edit) (Edit_Value edit) then
      let take := match InstanceRecord_Fields (OwnRecord out) !! Edit_Path edit with
                  | None => true
                  | Some current => later (Edit_Clock edit) (Field_Clock current)
                  end in
      if take then
        (upsertEdit (with_status StatusApplied edit)
           (putOwn (Edit_Path edit) (Edit_Value edit) (Edit_Deleted edit) (Edit_Clock edit) out), applied stats)
      else (upsertEdit (with_status StatusSuperseded edit) out, stats)
    else (upsertEdit edit out, stats)
  else (upsertEdit edit out, if pending then relayed stats else stats).

Fixpoint upsertCommandList (command : OnboardingCommand) (l : list OnboardingCommand) : list OnboardingCommand :=
  match l with
  | [] => [command]
  | c :: l' =>
      if bool_decide (OnboardingCommand_ID c <> OnboardingCommand_ID command) then c :: upsertCommandList command l'
      else if later (OnboardingCommand_Clock command) (OnboardingCommand_Clock c) then command :: l' else c :: l'
  end.

Definition upsertOnboarding (command : OnboardingCommand) (r : Replica) : Replica :=
  with_onboarding (upsertCommandList command (Replica_Onboarding r)) r.

Definition mergeOnboarding (out : Replica) (command : OnboardingCommand) : Replica :=
  if negb (is_ok (ValidateInstanceID (OnboardingCommand_TargetInstanceID command))) then out
  else if bool_decide (OnboardingCommand_Action command <> OnboardingIssue)
          && bool_decide (OnboardingCommand_Action command <> OnboardingAccept) then out
  else if bool_decide (OnboardingCommand_Action command = OnboardingAccept)
          && bool_decide (OnboardingCommand_Code command <> EmptyString)
          && negb (is_ok (normalizeOnboardingCode (OnboardingCommand_Code command))) then out
  else upsertOnboarding command (witness (OnboardingCommand_Clock command) out).

Definition edit_lt : Edit -> Edit -> bool := last_key Edit_ID str_lt.
Definition command_lt (a b : OnboardingCommand) : bool :=
  Compare (OnboardingCommand_Clock a) (OnboardingCommand_Clock b) <? 0.

Definition cloneReplica (r : Replica) : Replica := r.

Definition with_group (g : string) (r : Replica) : Replica :=
  mkReplica g (Replica_InstanceID r) (Replica_Records r) (Replica_Connections r) (Replica_Pending r)
    (Replica_Onboarding r) (Replica_LocalClock r).

Definition Merge (local remote : Replica) : Replica * MergeStats :=
  let out := cloneReplica local in
  let out := if bool_decide (Replica_GroupID out = EmptyString) then with_group (Replica_GroupID remote) out else out in
  let '(out, stats) := foldl mergeRecord (out, stats_zero) (map_to_list (Replica_Records remote)) in
  let out := foldl mergeConnection out (map_to_list (Replica_Connections remote)) in
  let '(out, stats) := foldl mergeEdit (out, stats) (Replica_Pending remote) in
  let out := foldl mergeOnboarding out (Replica_Onboarding remote) in
  (with_onboarding (sort_by command_lt (Replica_Onboarding out))
     (with_pending (sort_by edit_lt (Replica_Pending out)) out), stats).

(** ** Views *)

Definition view_lt : InstanceView -> InstanceView -> bool :=
  by_key InstanceView_Local true_first (last_key InstanceView_Label str_lt).

Definition instanceView (r : Replica) (id : string) : InstanceView :=
  let conn := Replica_Connections r !! id in
  let connLabel := default EmptyString (Connection_Label <$> conn) in
  let label := if bool_decide (connLabel = EmptyString) then id else connLabel in
  let own := bool_decide (id = Replica_InstanceID r) in
  mkInstanceView id
    (if own && bool_decide (label = id) then "This engine" else label)
    (default EmptyString (Connection_APIURL <$> conn))
    (own || default false (Connection_Online <$> conn))
    (default EmptyString (Connection_LastSeen <$> conn))
    (Z.of_nat (length (List.filter (fun e => bool_decide (Edit_TargetInstanceID e = id)
                                             && bool_decide (Edit_Status e = StatusPending)) (Replica_Pending r))))
    own
    0 0
    (omap (fun f => if Field_Deleted f then None else Some (Field_Value f)) (fieldsOf r id)).

Definition instanceIDs (r : Replica) : gset string :=
  {[Replica_InstanceID r]} ∪ dom (Replica_Connections r) ∪ dom (Replica_Records r)
  ∪ list_to_set (List.filter (fun id => bool_decide (id <> EmptyString)) (Edit_TargetInstanceID <$> Replica_Pending r)).

Definition Instances (r : Replica) : list InstanceView :=
  sort_by view_lt (instanceView r <$> elements (instanceIDs r)).

(** ** The file *)

(** The database file: absent, unreadable, or a replica. *)
Inductive replicaFile := NoReplica | BadReplica | ReplicaFile (r : Replica).

(** [fault]: whether writing fails; a failed write leaves the file alone. *)
Definition store_load (f : replicaFile) : result ConfigErr Replica :=
  match f with ReplicaFile r => Ok r | _ => Err ErrFile end.

Definition store_save (fault : bool) (f : replicaFile) (r : Replica) : replicaFile * result ConfigErr unit :=
  if fault then (f, Err ErrFile) else (ReplicaFile r, Ok tt).

Definition Update (fault : bool) (f : replicaFile) (fn : Replica -> result ConfigErr Replica)
    : replicaFile * result ConfigErr Replica :=
  match store_load f ≫= fn with
  | Err e => (f, Err e)
  | Ok r => match store_save fault f r with
            | (f', Ok _) => (f', Ok r)
            | (f', Err e) => (f', Err e)
            end
  end.

Definition Open (fault : bool) (f : replicaFile) (path groupID instanceID : string)
    : replicaFile * result ConfigErr unit :=
  if bool_decide (path = EmptyString) then (f, Err ErrPathRequired)
  else match f with
  | NoReplica =>
      match NewReplica groupID instanceID with
      | Err e => (f, Err e)
      | Ok r => store_save fault f r
      end
  | _ => (f, (r ← store_load f; ValidateInstanceID (Replica_InstanceID r)))
  end.

(** ** Properties *)

(** *** The clock order *)

Definition clock_chain : Clock -> Clock -> bool :=
  by_key Clock_Wall Z.ltb (by_key Clock_Counter Z.ltb (last_key Clock_NodeID str_lt)).

Lemma str_compare_neg a b : (str_compare a b <? 0) = str_lt a b.
Proof.
  unfold str_compare. case_bool_decide as H.
  - subst. symmetry. apply (sw_irrefl (lt := str_lt)).
  - by destruct (str_lt a b).
Qed.

Lemma Compare_chain a b : (Compare a b <? 0) = clock_chain a b.
Proof.
  unfold Compare, clock_chain, by_key, last_key.
  repeat case_bool_decide; repeat case_decide; try done; try apply str_compare_neg;
    repeat case_match; lia.
Qed.

Lemma Compare_antisym a b : Compare a b = - Compare b a.
Proof.
  unfold Compare, str_compare.
  repeat case_bool_decide; try lia; try congruence;
    repeat match goal with |- context [?x <? ?y] => destruct (Z.ltb_spec x y) end; try lia.
  destruct (str_lt (Clock_NodeID a) (Clock_NodeID b)) eqn:E1, (str_lt (Clock_NodeID b) (Clock_NodeID a)) eqn:E2;
    try lia.
  - by rewrite (sw_asym str_lt _ _ E1) in E2.
  - by assert (Clock_NodeID a = Clock_NodeID b) by by apply st_conn.
Qed.

#[export] Instance clock_chain_total : StrictTotal clock_chain.
Proof.
  split; [unfold clock_chain; apply _|]. intros [w c n] [w' c' n'] H1 H2.
  assert (tied clock_chain (mkClock w c n) (mkClock w' c' n')) as Ht by done.
  apply tied_by_key in Ht as [Hw Ht]; [|apply _]. apply tied_by_key in Ht as [Hc Ht]; [|apply _].
  apply tied_last_key in Ht; [|apply _]. simpl in *. congruence.
Qed.

Lemma later_chain a b : later a b = clock_chain b a.
Proof. unfold later. rewrite Compare_antisym, <- Compare_chain. lia. Qed.

Lemma later_trans a b c : later a b = true -> later b c = true -> later a c = true.
Proof. rewrite !later_chain. intros H1 H2. by eapply sw_trans. Qed.

Lemma later_irrefl a : later a a = false.
Proof. rewrite later_chain. apply sw_irrefl. Qed.

Lemma later_asym a b : later a b = true -> later b a = false.
Proof. rewrite !later_chain. apply sw_asym, _. Qed.

Lemma later_total a b : later a b = false -> later b a = false -> a = b.
Proof. rewrite !later_chain. intros. by apply st_conn. Qed.

Lemma later_not_trans a b c : later a b = false -> later b c = false -> later a c = false.
Proof. rewrite !later_chain. intros H1 H2. by eapply (sw_incomp (lt := clock_chain)). Qed.

(** *** The fields a merge leaves *)

Definition rekey (key : string) (f : Field) : Field :=
  mkField key (Field_Value f) (Field_Deleted f) (Field_Clock f) (Field_Writer f).

(** Last writer wins, on one field. *)
Definition lww (current remote : option Field) : option Field :=
  match remote, current with
  | None, _ => current
  | Some f, None => Some f
  | Some f, Some cur => if later (Field_Clock f) (Field_Clock cur) then Some f else Some cur
  end.

(** What of the remote's field counts. *)
Definition offered (key : string) (f : Field) : option Field :=
  if acceptable key (Field_Value f) then Some (rekey key f) else None.

Lemma witness_same c r :
  Replica_InstanceID (witness c r) = Replica_InstanceID r /\ Replica_Records (witness c r) = Replica_Records r
  /\ Replica_Connections (witness c r) = Replica_Connections r /\ Replica_Pending (witness c r) = Replica_Pending r
  /\ Replica_Onboarding (witness c r) = Replica_Onboarding r.
Proof. unfold witness. by case_match. Qed.

Lemma mergeFields_spec l out fields stats :
  NoDup l.*1 ->
  match foldl mergeField (out, fields, stats) l with
  | (out', fields', _) =>
      Replica_InstanceID out' = Replica_InstanceID out /\ Replica_Records out' = Replica_Records out /\
      forall key, fields' !! key = lww (fields !! key) ((list_to_map l : gmap string Field) !! key ≫= offered key)
  end.
Proof.
  revert out fields stats. induction l as [|[key f] l IH]; intros out fields stats Hnd; [done|].
  rewrite fmap_cons in Hnd. apply NoDup_cons in Hnd as [Hk Hnd]. cbn [foldl].
  assert (forall key', (list_to_map ((key, f) :: l) : gmap string Field) !! key' ≫= offered key'
    = if decide (key = key') then offered key f else (list_to_map l : gmap string Field) !! key' ≫= offered key') as Hmap.
  { intros key'. simpl. rewrite lookup_insert. by case_decide; subst. }
  assert ((list_to_map l : gmap string Field) !! key = None) as Hnone by by apply not_elem_of_list_to_map_1.
  assert (offered key f = if acceptable key (Field_Value f) then Some (rekey key f) else None) as Hoff by done.
  rewrite Hoff in Hmap. unfold mergeField at 2.
  destruct (acceptable key (Field_Value f)); cbn [negb].
  - destruct (witness_same (Field_Clock f) out) as (Hid & Hrec & _).
    match goal with |- context [foldl mergeField ?st l] =>
      assert (exists stats' fields', st = (witness (Field_Clock f) out, fields', stats')
        /\ fields' !! key = lww (fields !! key) (Some (rekey key f))
        /\ forall key', key <> key' -> fields' !! key' = fields !! key') as (stats' & fields' & -> & Heq & Hne) end.
    { simpl. unfold rekey. destruct (fields !! key) as [cur|] eqn:Hcur.
      - destruct (later (Field_Clock f) (Field_Clock cur)).
        + do 2 eexists. split_and?; [done|apply lookup_insert_eq|intros; by apply lookup_insert_ne].
        + do 2 eexists. split_and?; [done|done|done].
      - do 2 eexists. split_and?; [done|apply lookup_insert_eq|intros; by apply lookup_insert_ne]. }
    specialize (IH (witness (Field_Clock f) out) fields' stats' Hnd).
    destruct (foldl mergeField _ l) as [[out' fields''] ?]. destruct IH as (H1 & H2 & H3).
    split_and?; [congruence|congruence|]. intros key'. rewrite H3, Hmap. case_decide as Hd; subst.
    + by rewrite Heq, Hnone.
    + by rewrite Hne.
  - specialize (IH out fields stats Hnd). destruct (foldl mergeField _ l) as [[out' fields''] ?].
    destruct IH as (H1 & H2 & H3). split_and?; [done|done|]. intros key'. rewrite H3, Hmap.
    case_decide as Hd; subst; [by rewrite Hnone|done].
Qed.

Definition valid_id (id : string) : bool := is_ok (ValidateInstanceID id).

(** The fields of one foreign record after a merge. *)
Definition merged_fields (current remote : gmap string Field) (key : string) : option Field :=
  lww (current !! key) (remote !! key ≫= offered key).

Lemma mergeRecord_spec out stats id rec :
  match mergeRecord (out, stats) (id, rec) with
  | (out', _) =>
      Replica_InstanceID out' = Replica_InstanceID out /\
      forall id' key, fieldsOf out' id' !! key =
        if decide (id' = id /\ valid_id id /\ id <> Replica_InstanceID out)
        then merged_fields (fieldsOf out id) (InstanceRecord_Fields rec) key else fieldsOf out id' !! key
  end.
Proof.
  unfold mergeRecord, valid_id. destruct (is_ok (ValidateInstanceID id)); simpl.
  2: { split; [done|]. intros. rewrite decide_False; [done|]. naive_solver. }
  case_bool_decide as Hid; simpl.
  { split; [done|]. intros. rewrite decide_False; [done|]. naive_solver. }
  pose proof (mergeFields_spec (map_to_list (InstanceRecord_Fields rec)) out (fieldsOf out id) stats
    (NoDup_fst_map_to_list _)) as H.
  destruct (foldl mergeField _ _) as [[out' fields'] stats']. destruct H as (H1 & H2 & H3). simpl.
  split; [done|]. intros id' key. unfold fieldsOf at 1. simpl. destruct (decide (id' = id)) as [->|Hne].
  - rewrite lookup_insert_eq, decide_True by done. simpl. rewrite H3, list_to_map_to_list. done.
  - rewrite lookup_insert_ne, decide_False by naive_solver. by rewrite H2.
Qed.

Lemma mergeRecords_spec l out stats :
  NoDup l.*1 ->
  match foldl mergeRecord (out, stats) l with
  | (out', _) =>
      Replica_InstanceID out' = Replica_InstanceID out /\
      forall id key, fieldsOf out' id !! key =
        match (list_to_map l : gmap string InstanceRecord) !! id with
        | Some rec => if decide (valid_id id /\ id <> Replica_InstanceID out)
                      then merged_fields (fieldsOf out id) (InstanceRecord_Fields rec) key
                      else fieldsOf out id !! key
        | None => fieldsOf out id !! key
        end
  end.
Proof.
  revert out stats. induction l as [|[id rec] l IH]; intros out stats Hnd; [done|].
  rewrite fmap_cons in Hnd. apply NoDup_cons in Hnd as [Hk Hnd]. cbn [foldl].
  assert ((list_to_map l : gmap string InstanceRecord) !! id = None) as Hnone by by apply not_elem_of_list_to_map_1.
  pose proof (mergeRecord_spec out stats id rec) as Hr.
  destruct (mergeRecord _ _) as [out1 stats1]. destruct Hr as [Hid1 Hf1].
  specialize (IH out1 stats1 Hnd). destruct (foldl mergeRecord _ l) as [out2 ?]. destruct IH as [Hid2 Hf2].
  split; [congruence|]. intros id' key. rewrite Hf2. simpl. rewrite lookup_insert.
  destruct (decide (id = id')) as [<-|Hd].
  - rewrite Hnone, Hf1. repeat case_decide; naive_solver.
  - assert (forall k, fieldsOf out1 id' !! k = fieldsOf out id' !! k) as Heq.
    { intros k. rewrite Hf1, decide_False; [done|naive_solver]. }
    unfold merged_fields. rewrite !Heq, Hid1. done.
Qed.

Lemma mergeConnections_same l out :
  let out' := foldl mergeConnection out l in
  Replica_InstanceID out' = Replica_InstanceID out /\ Replica_Records out' = Replica_Records out
  /\ Replica_Pending out' = Replica_Pending out.
Proof.
  revert out. induction l as [|[id conn] l IH]; intros out; cbn [foldl]; [done|].
  destruct (IH (mergeConnection out (id, conn))) as (H1 & H2 & H3). rewrite H1, H2, H3.
  destruct (witness_same (Connection_Clock conn) out) as (W1 & W2 & _ & W4 & _).
  unfold mergeConnection. destruct (negb _); [done|]. by repeat case_match; simpl; rewrite ?W1, ?W2, ?W4.
Qed.

Lemma mergeOnboardings_same l out :
  let out' := foldl mergeOnboarding out l in
  Replica_InstanceID out' = Replica_InstanceID out /\ Replica_Records out' = Replica_Records out
  /\ Replica_Pending out' = Replica_Pending out.
Proof.
  revert out. induction l as [|c l IH]; intros out; cbn [foldl]; [done|].
  destruct (IH (mergeOnboarding out c)) as (H1 & H2 & H3). rewrite H1, H2, H3.
  destruct (witness_same (OnboardingCommand_Clock c) out) as (W1 & W2 & _ & W4 & _).
  unfold mergeOnboarding. by repeat (destruct (_ && _) || destruct (negb _)); simpl; rewrite ?W1, ?W2, ?W4.
Qed.

(** A queued edit that its target takes up. *)
Definition for_own (own : string) (e : Edit) : Prop :=
  Edit_TargetInstanceID e = own /\ Edit_Status e = StatusPending /\ acceptable (Edit_Path e) (Edit_Value e) = true.

Definition edit_field (own : string) (e : Edit) : Field :=
  mkField (Edit_Path e) (Edit_Value e) (Edit_Deleted e) (Edit_Clock e) own.

Lemma fieldsOf_putOwn key value deleted clock r id :
  fieldsOf (putOwn key value deleted clock r) id =
  if decide (id = Replica_InstanceID r)
  then <[key := mkField key value deleted clock (Replica_InstanceID r)]> (fieldsOf r id) else fieldsOf r id.
Proof.
  unfold fieldsOf at 1, putOwn. simpl. case_decide; subst; [by rewrite lookup_insert_eq|].
  by rewrite lookup_insert_ne.
Qed.

Lemma mergeEdit_spec out stats e :
  match mergeEdit (out, stats) e with
  | (out', _) =>
      Replica_InstanceID out' = Replica_InstanceID out
      /\ (forall id, id <> Replica_InstanceID out -> fieldsOf out' id = fieldsOf out id)
      /\ (for_own (Replica_InstanceID out) e -> forall key, fieldsOf out' (Replica_InstanceID out) !! key =
           if decide (key = Edit_Path e)
           then lww (fieldsOf out (Replica_InstanceID out) !! key) (Some (edit_field (Replica_InstanceID out) e))
           else fieldsOf out (Replica_InstanceID out) !! key)
      /\ (~ for_own (Replica_InstanceID out) e ->
           fieldsOf out' (Replica_InstanceID out) = fieldsOf out (Replica_InstanceID out))
  end.
Proof.
  unfold mergeEdit. destruct (witness_same (Edit_Clock e) out) as (W1 & W2 & _).
  set (w := witness (Edit_Clock e) out) in *. rewrite W1.
  assert (forall id, fieldsOf w id = fieldsOf out id) as Hw by (intros; unfold fieldsOf; by rewrite W2).
  assert (forall x, Replica_InstanceID (upsertEdit x w) = Replica_InstanceID out
    /\ forall id, fieldsOf (upsertEdit x w) id = fieldsOf out id) as Hup by (intros; simpl; split; [done|apply Hw]).
  case_bool_decide as Ht; simpl.
  2: { destruct (Hup e) as [H1 H2]. split_and?; [done|by intros; rewrite H2| |by rewrite H2].
       intros [? _]. done. }
  case_bool_decide as Hs; simpl.
  2: { destruct (Hup e) as [H1 H2]. split_and?; [done|by intros; rewrite H2| |by rewrite H2].
       intros (_ & ? & _). done. }
  destruct (acceptable _ _) eqn:Ha.
  2: { destruct (Hup e) as [H1 H2]. split_and?; [done|by intros; rewrite H2| |by rewrite H2].
       intros (_ & _ & ?). congruence. }
  assert (for_own (Replica_InstanceID out) e) as Hown by done. rewrite W1, Hw.
  set (t := match fieldsOf out (Replica_InstanceID out) !! Edit_Path e with None => true | _ => _ end).
  assert (forall key, (if decide (key = Edit_Path e)
    then lww (fieldsOf out (Replica_InstanceID out) !! key) (Some (edit_field (Replica_InstanceID out) e))
    else fieldsOf out (Replica_InstanceID out) !! key)
    = (if t then <[Edit_Path e := edit_field (Replica_InstanceID out) e]> (fieldsOf out (Replica_InstanceID out))
       else fieldsOf out (Replica_InstanceID out)) !! key) as Ht'.
  { intros key. case_decide as Hk; [subst key; unfold t|].
    - destruct (fieldsOf out _ !! Edit_Path e) as [cur|] eqn:Hc; simpl; [|by rewrite lookup_insert_eq].
      destruct (later _ _); [by rewrite lookup_insert_eq|done].
    - destruct t; [by rewrite lookup_insert_ne|done]. }
  destruct t.
  - assert (forall id, fieldsOf (upsertEdit (with_status StatusApplied e)
      (putOwn (Edit_Path e) (Edit_Value e) (Edit_Deleted e) (Edit_Clock e) w)) id
      = fieldsOf (putOwn (Edit_Path e) (Edit_Value e) (Edit_Deleted e) (Edit_Clock e) w) id) as Hf by done.
    split_and?; [done| | |done].
    + intros id Hid. rewrite Hf, fieldsOf_putOwn, W1, decide_False; done.
    + intros _ key. rewrite Hf, fieldsOf_putOwn, W1, decide_True, Ht', Hw by done. done.
  - destruct (Hup (with_status StatusSuperseded e)) as [H1 H2].
    split_and?; [done|by intros; rewrite H2| |done]. intros _ key. by rewrite H2, Ht'.
Qed.

(** The newest own-targeted edit wins, if it is newer than the value there. *)
Lemma mergeEdits_spec l out stats :
  match foldl mergeEdit (out, stats) l with
  | (out', _) =>
      let own := Replica_InstanceID out in
      Replica_InstanceID out' = own
      /\ (forall id, id <> own -> fieldsOf out' id = fieldsOf out id)
      /\ (forall key, fieldsOf out' own !! key = fieldsOf out own !! key
           \/ exists e, e ∈ l /\ for_own own e /\ Edit_Path e = key /\ fieldsOf out' own !! key = Some (edit_field own e)
              /\ forall cur, fieldsOf out own !! key = Some cur -> later (Edit_Clock e) (Field_Clock cur) = true)
      /\ (forall e, e ∈ l -> for_own own e -> exists f, fieldsOf out' own !! Edit_Path e = Some f
           /\ later (Edit_Clock e) (Field_Clock f) = false)
  end.
Proof.
  induction l as [|e l IH] using rev_ind; simpl.
  { split_and?; [done|done|by left|]. by intros e He%elem_of_nil. }
  rewrite foldl_snoc. destruct (foldl mergeEdit _ l) as [out1 stats1]. destruct IH as (H1 & H2 & H3 & H4).
  pose proof (mergeEdit_spec out1 stats1 e) as He. destruct (mergeEdit _ _) as [out2 ?].
  destruct He as (E1 & E2 & E3 & E4). rewrite H1 in *. set (own := Replica_InstanceID out) in *.
  split_and?; [done|intros id Hid; by rewrite E2, H2| |].
  - intros key. destruct (decide (for_own own e)) as [Hown|Hno].
    + specialize (E3 Hown key). case_decide as Hk; [subst key|].
      * rewrite E3. destruct (fieldsOf out1 own !! Edit_Path e) as [cur|] eqn:Hc; simpl.
        -- destruct (later (Edit_Clock e) (Field_Clock cur)) eqn:Hl.
           ++ right. exists e. split_and?; [set_solver|done|done|done|]. intros cur0 Hc0.
              destruct (H3 (Edit_Path e)) as [Heq|(e' & _ & _ & _ & Hf' & Hlt)].
              ** congruence.
              ** rewrite Hc in Hf'. injection Hf' as ->. simpl in Hl.
                 eapply later_trans; [exact Hl|by apply Hlt].
           ++ destruct (H3 (Edit_Path e)) as [Heq|(e' & He' & Ho & Hp & Hf' & Hlt)].
              ** left. congruence.
              ** right. exists e'. split_and?; [set_solver|done|done|congruence|done].
        -- right. exists e. split_and?; [set_solver|done|done|done|]. intros cur0 Hc0.
           destruct (H3 (Edit_Path e)) as [Heq|(e' & _ & _ & _ & Hf' & _)]; congruence.
      * rewrite E3. destruct (H3 key) as [?|(e' & He' & ?)]; [by left|right]. exists e'. split; [set_solver|done].
    + rewrite E4 by done. destruct (H3 key) as [?|(e' & He' & ?)]; [by left|right].
      exists e'. split; [set_solver|done].
  - intros e' He' Hown'. destruct (decide (for_own own e)) as [Hown|Hno].
    + rewrite E3 by done. apply elem_of_app in He' as [He'|He'].
      * destruct (H4 e' He' Hown') as (f & Hf & Hl). case_decide as Hk; [|by exists f].
        rewrite Hf. simpl. destruct (later (Edit_Clock e) (Field_Clock f)) eqn:Hlf; [|by exists f].
        eexists. split; [done|]. simpl. eapply later_not_trans; [exact Hl|]. by apply later_asym.
      * apply list_elem_of_singleton in He' as ->. rewrite decide_True by done.
        destruct (fieldsOf out1 own !! Edit_Path e) as [cur|]; simpl.
        -- destruct (later _ _) eqn:Hl; eexists; (split; [done|]); [apply later_irrefl|done].
        -- eexists. split; [done|]. apply later_irrefl.
    + rewrite E4 by done. apply elem_of_app in He' as [He'|He'].
      * by apply H4.
      * apply list_elem_of_singleton in He' as ->. done.
Qed.

(** *** Merge *)

(** What Merge starts from. *)
Definition merge_start (local remote : Replica) : Replica :=
  if bool_decide (Replica_GroupID local = EmptyString) then with_group (Replica_GroupID remote) local else local.

Lemma merge_start_same local remote :
  Replica_InstanceID (merge_start local remote) = Replica_InstanceID local
  /\ Replica_Records (merge_start local remote) = Replica_Records local
  /\ Replica_LocalClock (merge_start local remote) = Replica_LocalClock local.
Proof. unfold merge_start. by case_bool_decide. Qed.

(** Merge without its final sorts, phase by phase. *)
Lemma Merge_phases local remote :
  exists out1 stats1 out2 stats2,
    foldl mergeRecord (merge_start local remote, stats_zero)
      (map_to_list (Replica_Records remote)) = (out1, stats1)
    /\ foldl mergeEdit (foldl mergeConnection out1 (map_to_list (Replica_Connections remote)), stats1)
         (Replica_Pending remote) = (out2, stats2)
    /\ let out3 := foldl mergeOnboarding out2 (Replica_Onboarding remote) in
       Merge local remote = (with_onboarding (sort_by command_lt (Replica_Onboarding out3))
         (with_pending (sort_by edit_lt (Replica_Pending out3)) out3), stats2).
Proof.
  unfold Merge, cloneReplica. fold (merge_start local remote). destruct (foldl mergeRecord _ _) as [out1 stats1].
  destruct (foldl mergeEdit _ _) as [out2 stats2] eqn:E2. exists out1, stats1, out2, stats2. by rewrite E2.
Qed.

Lemma fieldsOf_records r r' id : Replica_Records r = Replica_Records r' -> fieldsOf r id = fieldsOf r' id.
Proof. unfold fieldsOf. by intros ->. Qed.

Lemma merged_fields_none current key : merged_fields current ∅ key = current !! key.
Proof. unfold merged_fields. rewrite lookup_empty. simpl. by destruct (current !! key). Qed.

Lemma Merge_fields local remote id key :
  id <> Replica_InstanceID local ->
  fieldsOf (Merge local remote).1 id !! key =
  if valid_id id then merged_fields (fieldsOf local id) (fieldsOf remote id) key else fieldsOf local id !! key.
Proof.
  intros Hid. destruct (Merge_phases local remote) as (out1 & stats1 & out2 & stats2 & H1 & H2 & ->).
  destruct (merge_start_same local remote) as (Hs1 & Hs2 & _).
  pose proof (mergeRecords_spec (map_to_list (Replica_Records remote)) (merge_start local remote) stats_zero (NoDup_fst_map_to_list _)) as HR.
  rewrite H1 in HR. destruct HR as [R1 R2].
  destruct (mergeConnections_same (map_to_list (Replica_Connections remote)) out1) as (C1 & C2 & _).
  pose proof (mergeEdits_spec (Replica_Pending remote)
    (foldl mergeConnection out1 (map_to_list (Replica_Connections remote))) stats1) as HE.
  rewrite H2 in HE. destruct HE as (E1 & E2 & _ & _).
  destruct (mergeOnboardings_same (Replica_Onboarding remote) out2) as (_ & O2 & _).
  set (out3 := foldl mergeOnboarding out2 (Replica_Onboarding remote)) in *. cbn [fst].
  replace (fieldsOf (with_onboarding _ _) id) with (fieldsOf out2 id) by (symmetry; by apply fieldsOf_records).
  rewrite E2, (fieldsOf_records _ _ _ C2), R2 by congruence.
  rewrite list_to_map_to_list, Hs1, (fieldsOf_records _ _ _ Hs2). unfold fieldsOf at 3 5.
  destruct (Replica_Records remote !! id) as [rec|].
  - destruct (valid_id id) eqn:Hv; [by rewrite decide_True by done|]. rewrite decide_False; [done|]. by intros [? _].
  - rewrite merged_fields_none. by destruct (valid_id id).
Qed.

Lemma Merge_own local remote :
  let out := (Merge local remote).1 in
  let own := Replica_InstanceID local in
  Replica_InstanceID out = own
  /\ (forall key, fieldsOf out own !! key = fieldsOf local own !! key
       \/ exists e, e ∈ Replica_Pending remote /\ for_own own e /\ Edit_Path e = key
            /\ fieldsOf out own !! key = Some (edit_field own e)
            /\ forall cur, fieldsOf local own !! key = Some cur -> later (Edit_Clock e) (Field_Clock cur) = true)
  /\ (forall e, e ∈ Replica_Pending remote -> for_own own e -> exists f, fieldsOf out own !! Edit_Path e = Some f
       /\ later (Edit_Clock e) (Field_Clock f) = false).
Proof.
  intros out own. unfold out. destruct (Merge_phases local remote) as (out1 & stats1 & out2 & stats2 & H1 & H2 & ->).
  destruct (merge_start_same local remote) as (Hs1 & Hs2 & _). fold own in Hs1.
  pose proof (mergeRecords_spec (map_to_list (Replica_Records remote)) (merge_start local remote) stats_zero (NoDup_fst_map_to_list _)) as HR.
  rewrite H1 in HR. destruct HR as [R1 R2].
  destruct (mergeConnections_same (map_to_list (Replica_Connections remote)) out1) as (C1 & C2 & _).
  pose proof (mergeEdits_spec (Replica_Pending remote)
    (foldl mergeConnection out1 (map_to_list (Replica_Connections remote))) stats1) as HE.
  rewrite H2 in HE. destruct HE as (E1 & _ & E3 & E4).
  destruct (mergeOnboardings_same (Replica_Onboarding remote) out2) as (O1 & O2 & _).
  rewrite C1, R1, Hs1 in E1, E3, E4.
  assert (forall key, fieldsOf (foldl mergeConnection out1 (map_to_list (Replica_Connections remote))) own !! key
    = fieldsOf local own !! key) as Hbase.
  { intros key. rewrite (fieldsOf_records _ _ _ C2), R2, Hs1, (fieldsOf_records _ _ _ Hs2).
    case_match; [|done]. rewrite decide_False; [done|]. naive_solver. }
  set (out3 := foldl mergeOnboarding out2 (Replica_Onboarding remote)) in *. cbn [fst].
  assert (forall (x : list OnboardingCommand) (y : list Edit) (id : string), fieldsOf (with_onboarding x (with_pending y out3)) id = fieldsOf out2 id) as Hf.
  { intros x y id. by apply fieldsOf_records. }
  split_and?; [simpl; congruence| |].
  - intros key. rewrite Hf, <- Hbase. destruct (E3 key) as [?|(e & ? & ? & ? & ? & ?)]; [by left|right].
    exists e. by split_and?.
  - intros e. rewrite Hf. apply E4.
Qed.

(** [C15] An engine applies only what is meant for it: a merge never takes a
    value for the local record from anybody's stored records.  A field of the
    own record stays as it was unless the remote carried a pending, acceptable
    edit targeted at this instance for that key, newer than the value here;
    and every such edit ends up no newer than the value kept.  The records of
    other instances become, field by field, the newer of the two copies. *)
Theorem Merge_ownership local remote :
  let out := (Merge local remote).1 in
  let own := Replica_InstanceID local in
  Replica_InstanceID out = own
  /\ (forall key, fieldsOf out own !! key = fieldsOf local own !! key
       \/ exists e, e ∈ Replica_Pending remote /\ for_own own e /\ Edit_Path e = key
            /\ fieldsOf out own !! key = Some (edit_field own e)
            /\ forall cur, fieldsOf local own !! key = Some cur -> later (Edit_Clock e) (Field_Clock cur) = true)
  /\ (forall e, e ∈ Replica_Pending remote -> for_own own e -> exists f, fieldsOf out own !! Edit_Path e = Some f
       /\ later (Edit_Clock e) (Field_Clock f) = false)
  /\ (forall id key, id <> own -> fieldsOf out id !! key =
       if valid_id id then merged_fields (fieldsOf local id) (fieldsOf remote id) key else fieldsOf local id !! key).
Proof.
  intros out own. destruct (Merge_own local remote) as (H1 & H2 & H3). split_and?; [done..|].
  intros id key. apply Merge_fields.
Qed.

(** Two copies of a record that a consistent system can hold: acceptable fields
    under their own keys, and equal clocks only on equal fields. *)
Definition clean_fields (m : gmap string Field) : Prop :=
  forall key f, m !! key = Some f -> Field_Key f = key /\ acceptable key (Field_Value f) = true.

Definition agree (m1 m2 : gmap string Field) : Prop :=
  forall key f1 f2, m1 !! key = Some f1 -> m2 !! key = Some f2 -> Field_Clock f1 = Field_Clock f2 -> f1 = f2.

Lemma offered_clean m key : clean_fields m -> m !! key ≫= offered key = m !! key.
Proof.
  intros Hc. destruct (m !! key) as [f|] eqn:Hf; [|done]. simpl. destruct (Hc _ _ Hf) as [Hk Ha].
  unfold offered. rewrite Ha. unfold rekey. destruct f. simpl in *. by subst.
Qed.

Lemma lww_comm a b :
  (forall f g, a = Some f -> b = Some g -> Field_Clock f = Field_Clock g -> f = g) -> lww a b = lww b a.
Proof.
  destruct a as [f|], b as [g|]; simpl; intros Heq; [|done..].
  destruct (later (Field_Clock g) (Field_Clock f)) eqn:E1, (later (Field_Clock f) (Field_Clock g)) eqn:E2; [|done|done|].
  - by rewrite (later_asym _ _ E1) in E2.
  - f_equal. apply Heq; [done..|]. by apply later_total.
Qed.

Lemma lww_assoc a b c : lww (lww a b) c = lww a (lww b c).
Proof.
  destruct a as [f|], b as [g|], c as [h|]; simpl; try done; try (by destruct (later _ _)).
  destruct (later (Field_Clock g) (Field_Clock f)) eqn:E1, (later (Field_Clock h) (Field_Clock g)) eqn:E2,
    (later (Field_Clock h) (Field_Clock f)) eqn:E3; simpl; rewrite ?E1, ?E2, ?E3; try done.
  - by rewrite (later_trans _ _ _ E2 E1) in E3.
  - by rewrite (later_not_trans _ _ _ E2 E1) in E3.
Qed.

Lemma lww_idem a b : lww (lww a b) b = lww a b.
Proof.
  destruct a as [f|], b as [g|]; simpl; try done.
  - destruct (later (Field_Clock g) (Field_Clock f)) eqn:E; simpl; [by rewrite later_irrefl|by rewrite E].
  - by rewrite later_irrefl.
Qed.

(** [C16] Replicas converge: on the record of any third instance, merging is
    commutative, associative and idempotent, provided the copies hold
    acceptable fields and never two different values under one clock.  So two
    engines that have exchanged the same replicas, in any order and any number
    of times, hold the same settings for every instance that is neither. *)
Theorem Merge_converges a b c id key :
  id <> Replica_InstanceID a -> id <> Replica_InstanceID b -> valid_id id = true ->
  clean_fields (fieldsOf a id) -> clean_fields (fieldsOf b id) -> clean_fields (fieldsOf c id) ->
  agree (fieldsOf a id) (fieldsOf b id) ->
  fieldsOf (Merge a b).1 id !! key = fieldsOf (Merge b a).1 id !! key
  /\ fieldsOf (Merge (Merge a b).1 c).1 id !! key = fieldsOf (Merge a (Merge b c).1).1 id !! key
  /\ fieldsOf (Merge (Merge a b).1 b).1 id !! key = fieldsOf (Merge a b).1 id !! key.
Proof.
  intros Ha Hb Hv Ca Cb Cc Hag.
  assert (forall x y k, id <> Replica_InstanceID x -> clean_fields (fieldsOf y id) ->
    fieldsOf (Merge x y).1 id !! k = lww (fieldsOf x id !! k) (fieldsOf y id !! k)) as Hm.
  { intros x y k Hx Hc. rewrite Merge_fields, Hv by done. unfold merged_fields. by rewrite offered_clean. }
  assert (forall x y, id <> Replica_InstanceID x -> clean_fields (fieldsOf x id) -> clean_fields (fieldsOf y id) ->
    clean_fields (fieldsOf (Merge x y).1 id)) as Hclean.
  { intros x y Hx Hcx Hcy k f. rewrite Hm by done.
    destruct (fieldsOf y id !! k) as [g|] eqn:Hg, (fieldsOf x id !! k) as [g'|] eqn:Hg'; simpl; try done;
      repeat case_match; intros [= <-]; eauto. }
  assert (forall x y, Replica_InstanceID (Merge x y).1 = Replica_InstanceID x) as Hid.
  { intros x y. by destruct (Merge_own x y) as [? _]. }
  split_and?.
  - rewrite !Hm by done. apply lww_comm. intros f g Hf Hg. by eapply Hag.
  - rewrite (Hm (Merge a b).1 c), (Hm a (Merge b c).1), !Hm by (rewrite ?Hid; auto). apply lww_assoc.
  - rewrite (Hm (Merge a b).1 b), !Hm by (rewrite ?Hid; auto). apply lww_idem.
Qed.

(** *** Clocks and causality *)

(** The order on the time part of a clock. *)
Definition wc_le (a b : Clock) : Prop :=
  Clock_Wall a < Clock_Wall b \/ (Clock_Wall a = Clock_Wall b /\ Clock_Counter a <= Clock_Counter b).

#[export] Instance wc_le_preorder : PreOrder wc_le.
Proof. split; [intros c; right; lia|]. intros a b c. unfold wc_le. lia. Qed.

Lemma later_wc a b : later a b = false -> wc_le a b.
Proof.
  rewrite later_chain. unfold clock_chain, by_key, wc_le. repeat case_decide; [|rewrite Z.ltb_ge|rewrite Z.ltb_ge]; lia.
Qed.

Lemma later_wc_true a b : later a b = true -> wc_le b a.
Proof. intros H%later_asym. by apply later_wc. Qed.

Lemma witness_clock c r :
  wc_le c (Replica_LocalClock (witness c r)) /\ wc_le (Replica_LocalClock r) (Replica_LocalClock (witness c r)).
Proof.
  unfold witness. fold (later c (Replica_LocalClock r)). destruct (later _ _) eqn:E; simpl.
  - split; [right; simpl; lia|]. exact (later_wc_true _ _ E).
  - split; [by apply later_wc|done].
Qed.

Lemma Tick_later wall r c :
  0 <= Clock_Counter (Replica_LocalClock r) -> Clock_Counter (Replica_LocalClock r) + 1 < 2 ^ 32 ->
  wc_le c (Replica_LocalClock r) -> later (Tick wall r).2 c = true.
Proof.
  intros H0 H1 Hc. destruct (later (Tick wall r).2 c) eqn:E; [done|]. exfalso. apply later_wc in E.
  unfold Tick, wc_le in *. simpl in *.
  destruct (Z.ltb_spec wall (Clock_Wall (Replica_LocalClock r)));
    repeat case_match; rewrite ?u32_small in * by lia; lia.
Qed.

(** A loop that only moves the clock forward and takes in what it sees. *)
Section clock_loops.
Context {St X : Type} (step : St -> X -> St) (clk : St -> Clock) (own : St -> string) (seen : string -> X -> Clock -> Prop).
Hypothesis step_mono : forall s x, wc_le (clk s) (clk (step s x)).
Hypothesis step_own : forall s x, own (step s x) = own s.
Hypothesis step_seen : forall s x c, seen (own s) x c -> wc_le c (clk (step s x)).

Lemma clock_loop l s :
  wc_le (clk s) (clk (foldl step s l)) /\ own (foldl step s l) = own s
  /\ forall x c, x ∈ l -> seen (own s) x c -> wc_le c (clk (foldl step s l)).
Proof.
  revert s. induction l as [|y l IH]; intros s; simpl.
  { split_and?; [done|done|]. by intros x c Hx%elem_of_nil. }
  destruct (IH (step s y)) as (H1 & H2 & H3). rewrite step_own in H2, H3.
  split_and?; [etrans; [apply step_mono|done]|done|]. intros x c [->|Hx]%elem_of_cons Hs; [|by apply (H3 x)].
  etrans; [by apply step_seen|done].
Qed.
End clock_loops.

Lemma mergeField_clock :
  let clk := fun st : Replica * gmap string Field * MergeStats => Replica_LocalClock st.1.1 in
  (forall st kf, wc_le (clk st) (clk (mergeField st kf)))
  /\ (forall st kf, Replica_InstanceID (mergeField st kf).1.1 = Replica_InstanceID st.1.1)
  /\ (forall st (kf : string * Field), acceptable kf.1 (Field_Value kf.2) = true ->
       wc_le (Field_Clock kf.2) (clk (mergeField st kf))).
Proof.
  intros clk. unfold clk. split_and?; intros [[out fields] stats] [key f]; simpl;
    destruct (witness_clock (Field_Clock f) out) as [W1 W2]; destruct (witness_same (Field_Clock f) out) as [W3 _];
    destruct (acceptable key (Field_Value f)) eqn:Ha; simpl; repeat case_match; simpl; try done.
Qed.

(** A clock an acceptable field of a foreign record carries. *)
Definition offers (own : string) (ir : string * InstanceRecord) (c : Clock) : Prop :=
  valid_id ir.1 = true /\ ir.1 <> own /\ exists key f, InstanceRecord_Fields ir.2 !! key = Some f
    /\ acceptable key (Field_Value f) = true /\ Field_Clock f = c.

Lemma mergeRecord_clock :
  let clk := fun st : Replica * MergeStats => Replica_LocalClock st.1 in
  (forall st ir, wc_le (clk st) (clk (mergeRecord st ir)))
  /\ (forall st ir, Replica_InstanceID (mergeRecord st ir).1 = Replica_InstanceID st.1)
  /\ (forall st ir c, offers (Replica_InstanceID st.1) ir c -> wc_le c (clk (mergeRecord st ir))).
Proof.
  intros clk. unfold clk, offers. destruct mergeField_clock as (F1 & F2 & F3).
  assert (forall out fields stats l,
    let st := foldl mergeField (out, fields, stats) l in
    wc_le (Replica_LocalClock out) (Replica_LocalClock st.1.1) /\ Replica_InstanceID st.1.1 = Replica_InstanceID out
    /\ forall (kf : string * Field) c, kf ∈ l -> acceptable kf.1 (Field_Value kf.2) = true /\ Field_Clock kf.2 = c ->
         wc_le c (Replica_LocalClock st.1.1)) as HF.
  { intros out fields stats l.
    refine (clock_loop mergeField (fun st => Replica_LocalClock st.1.1) (fun st => Replica_InstanceID st.1.1)
      (fun _ kf c => acceptable kf.1 (Field_Value kf.2) = true /\ Field_Clock kf.2 = c) F1 F2 _ l (out, fields, stats)).
    intros st kf c [Ha <-]. by apply F3. }
  split_and?; intros [out stats] [id rec]; simpl; [| |intros c (Hv & Hid & key & f & Hf & Ha & <-)];
    specialize (HF out (fieldsOf out id) stats (map_to_list (InstanceRecord_Fields rec)));
    destruct (foldl mergeField _ _) as [[out' fields'] stats']; destruct HF as (H1 & H2 & H3).
  - by destruct (_ || _).
  - by destruct (_ || _).
  - unfold valid_id in Hv. rewrite Hv, bool_decide_eq_false_2 by done. simpl.
    apply (H3 (key, f)); [by apply elem_of_map_to_list|done].
Qed.

Lemma mergeConnection_clock :
  (forall st ic, wc_le (Replica_LocalClock st) (Replica_LocalClock (mergeConnection st ic)))
  /\ (forall st ic, Replica_InstanceID (mergeConnection st ic) = Replica_InstanceID st)
  /\ (forall st (ic : string * Connection) c, valid_id ic.1 = true /\ Connection_Clock ic.2 = c ->
       wc_le c (Replica_LocalClock (mergeConnection st ic))).
Proof.
  split_and?; intros st [id conn]; simpl;
    destruct (witness_clock (Connection_Clock conn) st) as [W1 W2];
    destruct (witness_same (Connection_Clock conn) st) as [W3 _].
  - by destruct (negb _); [|repeat case_match].
  - by destruct (negb _); [|repeat case_match].
  - unfold valid_id. intros c [Hv <-]. rewrite Hv. simpl. by repeat case_match.
Qed.

Lemma mergeEdit_clock :
  let clk := fun st : Replica * MergeStats => Replica_LocalClock st.1 in
  (forall st e, wc_le (clk st) (clk (mergeEdit st e)))
  /\ (forall st e, Replica_InstanceID (mergeEdit st e).1 = Replica_InstanceID st.1)
  /\ (forall st e c, Edit_Clock e = c -> wc_le c (clk (mergeEdit st e))).
Proof.
  intros clk. unfold clk. split_and?; intros [out stats] e; [| |intros c <-]; unfold mergeEdit;
    destruct (witness_clock (Edit_Clock e) out) as [W1 W2]; destruct (witness_same (Edit_Clock e) out) as [W3 _];
    (destruct (_ && _); [destruct (acceptable _ _); [destruct (match _ with Some _ => _ | None => _ end)|]|]); done.
Qed.

Lemma mergeOnboarding_clock :
  (forall st c, wc_le (Replica_LocalClock st) (Replica_LocalClock (mergeOnboarding st c)))
  /\ (forall st c, Replica_InstanceID (mergeOnboarding st c) = Replica_InstanceID st).
Proof.
  split; intros st c; unfold mergeOnboarding; destruct (witness_clock (OnboardingCommand_Clock c) st) as [W1 W2];
    destruct (witness_same (OnboardingCommand_Clock c) st) as [W3 _]; by repeat case_match.
Qed.

(** Clocks respect causality: whatever an engine has merged, the clock of
    its next write is later than its own previous clock and than the clock of
    every acceptable field, connection and queued edit the remote replica held,
    as long as the 32-bit counter does not wrap; so a write made after seeing a
    value always wins over it. *)
Theorem Merge_then_Tick_later local remote wall :
  let out := (Merge local remote).1 in
  let clock := (Tick wall out).2 in
  0 <= Clock_Counter (Replica_LocalClock out) -> Clock_Counter (Replica_LocalClock out) + 1 < 2 ^ 32 ->
  later clock (Replica_LocalClock local) = true
  /\ (forall id key f, valid_id id = true -> id <> Replica_InstanceID local ->
       fieldsOf remote id !! key = Some f -> acceptable key (Field_Value f) = true ->
       later clock (Field_Clock f) = true)
  /\ (forall id conn, valid_id id = true -> Replica_Connections remote !! id = Some conn ->
       later clock (Connection_Clock conn) = true)
  /\ (forall e, e ∈ Replica_Pending remote -> later clock (Edit_Clock e) = true).
Proof.
  intros out clock Hc0 Hc1. unfold clock. clear clock.
  destruct (Merge_phases local remote) as (out1 & stats1 & out2 & stats2 & H1 & H2 & HM).
  destruct (merge_start_same local remote) as (S1 & _ & S3).
  pose proof (clock_loop mergeRecord (fun st => Replica_LocalClock st.1) (fun st => Replica_InstanceID st.1) offers
    (proj1 mergeRecord_clock) (proj1 (proj2 mergeRecord_clock))
    (proj2 (proj2 mergeRecord_clock)) (map_to_list (Replica_Records remote)) (merge_start local remote, stats_zero))
    as (R1 & R2 & R3). rewrite H1 in R1, R2, R3. cbn [fst snd] in R1, R2, R3. rewrite S3 in R1. rewrite S1 in R2, R3.
  pose proof (clock_loop mergeConnection Replica_LocalClock Replica_InstanceID
    (fun _ (ic : string * Connection) c => valid_id ic.1 = true /\ Connection_Clock ic.2 = c)
    (proj1 mergeConnection_clock) (proj1 (proj2 mergeConnection_clock)) (proj2 (proj2 mergeConnection_clock))
    (map_to_list (Replica_Connections remote)) out1) as (C1 & C2 & C3).
  set (outc := foldl mergeConnection out1 (map_to_list (Replica_Connections remote))) in *.
  pose proof (clock_loop mergeEdit (fun st => Replica_LocalClock st.1) (fun st => Replica_InstanceID st.1)
    (fun _ e c => Edit_Clock e = c) (proj1 mergeEdit_clock) (proj1 (proj2 mergeEdit_clock))
    (proj2 (proj2 mergeEdit_clock)) (Replica_Pending remote) (outc, stats1)) as (E1 & _ & E3).
  rewrite H2 in E1, E3. cbn [fst snd] in E1, E3.
  pose proof (clock_loop mergeOnboarding Replica_LocalClock Replica_InstanceID (fun _ _ _ => False) (proj1 mergeOnboarding_clock) (proj2 mergeOnboarding_clock)
    (fun _ _ _ (F : False) => match F with end) (Replica_Onboarding remote) out2) as (O1 & _ & _).
  assert (Replica_LocalClock out = Replica_LocalClock (foldl mergeOnboarding out2 (Replica_Onboarding remote))) as Hout
    by (unfold out; by rewrite HM).
  rewrite <- Hout in O1.
  split_and?.
  - apply Tick_later; [done..|]. etrans; [exact R1|]. etrans; [exact C1|]. by etrans.
  - intros id key f Hv Hid Hf Ha. apply Tick_later; [done..|]. etrans; [|exact O1]. etrans; [|exact E1].
    etrans; [|exact C1]. unfold fieldsOf in Hf. destruct (Replica_Records remote !! id) as [rec|] eqn:Hr;
      [|by rewrite lookup_empty in Hf].
    apply (R3 (id, rec)); [by apply elem_of_map_to_list|].
    split; [done|]. split; [done|]. by exists key, f.
  - intros id conn Hv Hconn. apply Tick_later; [done..|]. etrans; [|exact O1]. etrans; [|exact E1].
    apply (C3 (id, conn)); [by apply elem_of_map_to_list|done].
  - intros e He. apply Tick_later; [done..|]. etrans; [|exact O1]. by apply (E3 e).
Qed.

(** *** Edits *)

Lemma elem_of_upsertEditList edit l : edit ∈ upsertEditList edit l.
Proof. induction l as [|e l IH]; simpl; [by left|]. case_bool_decide; [by left|by right]. Qed.

Lemma Tick_same wall r :
  Replica_InstanceID (Tick wall r).1 = Replica_InstanceID r /\ Replica_Records (Tick wall r).1 = Replica_Records r.
Proof. done. Qed.

(** An edit queued for another instance leaves every stored record of this
    engine alone, target's included, and is kept pending; once the target has
    merged the queue, its own record holds under that key a field no older
    than the edit - the edit itself unless something newer was there. *)
Theorem QueueEdit_delivered a b key value deleted wall a' edit :
  QueueEdit (Replica_InstanceID b) key value deleted wall a = Ok (a', edit) ->
  Replica_InstanceID b <> Replica_InstanceID a ->
  Replica_Records a' = Replica_Records a
  /\ edit ∈ Replica_Pending a' /\ Edit_Status edit = StatusPending
  /\ exists f, fieldsOf (Merge b a').1 (Replica_InstanceID b) !! key = Some f
       /\ later (Edit_Clock edit) (Field_Clock f) = false
       /\ (Field_Clock f = Edit_Clock edit \/ later (Field_Clock f) (Edit_Clock edit) = true).
Proof.
  intros HQ Hne. unfold QueueEdit in HQ.
  apply result_bind_ok in HQ as ([] & Hv & HQ). apply result_bind_ok in HQ as ([] & Hk & HQ).
  apply result_bind_ok in HQ as ([] & Hs & HQ). destruct (Tick wall a) as [r1 clock] eqn:HT.
  rewrite bool_decide_eq_false_2 in HQ by done. injection HQ as <- <-.
  pose proof (Tick_same wall a) as [_ Hrec]. rewrite HT in Hrec. simpl in Hrec.
  set (edit := mkEdit _ _ _ _ _ _ _ _).
  assert (edit ∈ upsertEditList edit (Replica_Pending r1)) as Hin by apply elem_of_upsertEditList.
  split; [done|]. split; [exact Hin|]. split; [done|].
  destruct (Merge_own b (upsertEdit edit r1)) as (_ & _ & H3).
  destruct (H3 edit Hin) as (f & Hf & Hl).
  { split; [done|]. split; [done|]. unfold acceptable, edit. simpl. by rewrite Hk, Hs. }
  exists f. split; [done|]. split; [done|].
  destruct (later (Field_Clock f) (Edit_Clock edit)) eqn:E; [by right|left]. by apply later_total.
Qed.

(** *** Instance ids *)

Lemma hex_byte_is_hex b :
  forall s cs, match_classes (is_hex :: is_hex :: cs) (hex_byte b +:+ s) = match_classes cs s.
Proof. by destruct b. Qed.

Lemma hex_version b :
  forall s cs, match_classes (is_version :: is_hex :: cs) (hex_byte (byte_and_or 15 64 b) +:+ s) = match_classes cs s.
Proof. by destruct b. Qed.

Lemma hex_variant b :
  forall s cs, match_classes (is_variant :: is_hex :: cs) (hex_byte (byte_and_or 63 128 b) +:+ s) = match_classes cs s.
Proof. by destruct b. Qed.

Lemma match_dash s cs : match_classes (is_dash :: cs) ("-" +:+ s) = match_classes cs s.
Proof. done. Qed.

(** Every instance id the engine generates, from any sixteen random bytes,
    is one it accepts as a UUID. *)
Theorem NewInstanceID_valid raw : length raw = 16%nat -> ValidateInstanceID (NewInstanceID raw) = Ok tt.
Proof.
  intros Hl. do 16 (destruct raw as [|? raw]; [done|]). destruct raw; [|done]. clear Hl.
  unfold ValidateInstanceID, NewInstanceID, instanceIDPattern.
  cbn [alter list_alter take drop hex_encode replicate app].
  rewrite !str_app_nil_r, !str_app_assoc.
  rewrite !hex_byte_is_hex, match_dash, !hex_byte_is_hex, match_dash, hex_version, hex_byte_is_hex, match_dash,
    hex_variant, hex_byte_is_hex, match_dash, !hex_byte_is_hex.
  rewrite <- (str_app_nil_r (hex_byte _)), hex_byte_is_hex. done.
Qed.

(** ** Concrete replicas *)

Definition demo_id (b : byte) : string := NewInstanceID (replicate 16 b).
Definition demo_replica (id : string) : Replica := mkReplica "g" id ∅ ∅ [] [] (mkClock 0 0 id).
Definition demo_queued : Replica * Edit :=
  match QueueEdit (demo_id Byte.x02) "theme" (SVString "dark") false 5 (demo_replica (demo_id Byte.x01)) with
  | Ok qe => qe
  | Err _ => (demo_replica EmptyString, mkEdit EmptyString EmptyString EmptyString SVNull false (mkClock 0 0 EmptyString) EmptyString EmptyString)
  end.
Definition statuses (r : Replica) : list string := Edit_Status <$> Replica_Pending r.

(** The target applies an edit; merging the same, still pending copy again
    turns its status from applied to superseded. *)
Example applied_then_superseded :
  let target := demo_replica (demo_id Byte.x02) in
  let once := (Merge target demo_queued.1).1 in
  statuses once = [StatusApplied] /\ statuses (Merge once demo_queued.1).1 = [StatusSuperseded].
Proof. split; vm_compute; reflexivity. Qed.

(** A relay that has learnt that an edit was applied forgets it when it merges
    an older copy. *)
Example applied_then_pending :
  let once := (Merge (demo_replica (demo_id Byte.x02)) demo_queued.1).1 in
  let relay := (Merge (demo_replica (demo_id Byte.x03)) once).1 in
  statuses relay = [StatusApplied] /\ statuses (Merge relay demo_queued.1).1 = [StatusPending].
Proof. split; vm_compute; reflexivity. Qed.

(** The clock goes backwards when the counter wraps. *)
Example Tick_wraps :
  let r := with_clock (mkClock 7 (2 ^ 32 - 1) "n") (demo_replica "n") in
  later (Tick 7 r).2 (Replica_LocalClock r) = false.
Proof. vm_compute. reflexivity. Qed.

Lemma QueueEdit_delivered_witness :
  exists f, fieldsOf (Merge (demo_replica (demo_id Byte.x02)) demo_queued.1).1 (demo_id Byte.x02) !! "theme" = Some f
    /\ later (Edit_Clock demo_queued.2) (Field_Clock f) = false.
Proof.
  destruct (QueueEdit_delivered (demo_replica (demo_id Byte.x01)) (demo_replica (demo_id Byte.x02)) "theme"
    (SVString "dark") false 5 demo_queued.1 demo_queued.2) as (_ & _ & _ & f & Hf & Hl & _).
  - vm_compute. reflexivity.
  - vm_compute. discriminate.
  - exists f. split; [exact Hf|exact Hl].
Defined.

Lemma NewInstanceID_valid_witness : ValidateInstanceID (demo_id Byte.xab) = Ok tt.
Proof. apply (NewInstanceID_valid (replicate 16 Byte.xab)). reflexivity. Defined.

(** A replica of [own] that holds one field of a third instance. *)
Definition demo_holder (own : byte) (wall : Z) (value : string) : Replica :=
  let third := demo_id Byte.x09 in
  mkReplica "g" (demo_id own)
    {[third := mkInstanceRecord third
       {["theme" := mkField "theme" (SVString value) false (mkClock wall 0 third) third]}]}
    ∅ [] [] (mkClock 0 0 (demo_id own)).

Lemma demo_holder_clean own wall value :
  acceptable "theme" (SVString value) = true -> clean_fields (fieldsOf (demo_holder own wall value) (demo_id Byte.x09)).
Proof.
  intros Ha key f. unfold fieldsOf, demo_holder. cbn [Replica_Records]. rewrite lookup_singleton_eq. simpl.
  intros [<- <-]%lookup_singleton_Some. done.
Qed.

Lemma Merge_converges_witness :
  fieldsOf (Merge (demo_holder Byte.x01 1 "dark") (demo_holder Byte.x02 2 "light")).1 (demo_id Byte.x09) !! "theme"
  = fieldsOf (Merge (demo_holder Byte.x02 2 "light") (demo_holder Byte.x01 1 "dark")).1 (demo_id Byte.x09) !! "theme".
Proof.
  apply (Merge_converges (demo_holder Byte.x01 1 "dark") (demo_holder Byte.x02 2 "light") (demo_holder Byte.x03 1 "dark")).
  - vm_compute. discriminate.
  - vm_compute. discriminate.
  - vm_compute. reflexivity.
  - apply demo_holder_clean. vm_compute. reflexivity.
  - apply demo_holder_clean. vm_compute. reflexivity.
  - apply demo_holder_clean. vm_compute. reflexivity.
  - intros key f1 f2. unfold fieldsOf, demo_holder. cbn [Replica_Records]. rewrite !lookup_singleton_eq. simpl.
    intros [_ <-]%lookup_singleton_Some [_ <-]%lookup_singleton_Some Hc. discriminate Hc.
Defined.

Lemma Merge_then_Tick_later_witness :
  let out := (Merge (demo_replica (demo_id Byte.x01)) (demo_holder Byte.x02 9 "dark")).1 in
  later (Tick 3 out).2 (mkClock 9 0 (demo_id Byte.x09)) = true.
Proof.
  intros out.
  destruct (Merge_then_Tick_later (demo_replica (demo_id Byte.x01)) (demo_holder Byte.x02 9 "dark") 3) as (_ & H & _).
  - vm_compute. discriminate.
  - vm_compute. reflexivity.
  - apply (H (demo_id Byte.x09) "theme"
      (mkField "theme" (SVString "dark") false (mkClock 9 0 (demo_id Byte.x09)) (demo_id Byte.x09))).
    + vm_compute. reflexivity.
    + vm_compute. discriminate.
    + vm_compute. reflexivity.
    + vm_compute. reflexivity.
Defined.
