(* ===== verification/Maintenance.v ===== *)
(** * The maintenance worker: budgets, checkpoint and repair backoff

    Models [internal/maintenance/worker.go], [checkpoint.go] and
    [repair_backoff.go].  A run drives a crawler from the stored cursor, one
    step at a time, saves the cursor after each step and stops at the first
    exhausted budget.  Crawler and checkpoint are interfaces; what the clock,
    the context and [ShouldYield] answer is an argument of the run. *)

From S2P Require Import Prelude GoStd Block StoreData Store.
From Stdlib Require Import Ascii.

Local Open Scope Z_scope.

(** ** Cursors and steps *)

Inductive CrawlErr := CrawlCanceled | CrawlStore (e : StoreErr) | CrawlPanic.

Record Cursor := mkCursor {
  Cursor_Position : Z;
  Cursor_FolderID : string;
  Cursor_Path : string;
  Cursor_Revision : Z
}.
Definition Cursor_zero : Cursor := mkCursor 0 EmptyString EmptyString 0.

#[export] Instance Cursor_eq_dec : EqDecision Cursor.
Proof. solve_decision. Defined.

Record StepResult := mkStepResult {
  StepResult_Cursor : Cursor;
  StepResult_FilesScanned : Z;
  StepResult_BytesScanned : Z;
  StepResult_Pruned : Z;
  StepResult_Reported : Z;
  StepResult_Quarantined : Z;
  StepResult_Complete : bool
}.

Record RunResult := mkRunResult {
  RunResult_Cursor : Cursor;
  RunResult_FilesScanned : Z;
  RunResult_BytesScanned : Z;
  RunResult_Pruned : Z;
  RunResult_Reported : Z;
  RunResult_Quarantined : Z;
  RunResult_Complete : bool;
  RunResult_Yielded : bool;
  RunResult_StartedAt : Z;
  RunResult_FinishedAt : Z
}.
Definition RunResult_zero : RunResult := mkRunResult Cursor_zero 0 0 0 0 0 false false 0 0.

(** ** The interfaces *)

(** [type Crawler interface]; the world the crawler acts on is threaded. *)
Class Crawler (W : Type) := { Step : W -> Cursor -> W * result CrawlErr StepResult }.

(** [type CheckpointStore interface] and what an implementation promises: a
    saved cursor is the one loaded next, a failed save changes nothing. *)
Class CheckpointStore (K : Type) := {
  LoadMaintenanceCursor : K -> result StoreErr Cursor;
  SaveMaintenanceCursor : K -> Cursor -> K * result StoreErr unit
}.

Class CheckpointLaws (K : Type) `{!CheckpointStore K} := {
  checkpoint_readable : K -> Prop;
  checkpoint_save k c : checkpoint_readable k ->
    match SaveMaintenanceCursor k c with
    | (k', Ok _) => LoadMaintenanceCursor k' = Ok c /\ checkpoint_readable k'
    | (k', Err _) => k' = k
    end
}.

(** ** RunOnce *)

Record RunOptions := mkRunOptions {
  RunOptions_MaxFiles : Z;
  RunOptions_MaxBytes : Z;
  RunOptions_MaxDuration : Z
}.

(** What the environment answers during one iteration of the loop. *)
Record tick := mkTick {
  tick_canceled : bool;
  tick_yield : bool;
  tick_now : Z;
  tick_yieldAgain : bool;
  tick_finished : Z
}.

Inductive RunErr := RunCanceled | RunCheckpoint (e : StoreErr) | RunCrawler (e : CrawlErr).

Definition fileBudgetReached (scanned max : Z) : bool := (0 <? max) && (max <=? scanned).
Definition byteBudgetReached (scanned max : Z) : bool := (0 <? max) && (max <=? scanned).
Definition durationBudgetReached (deadline : option Z) (now : Z) : bool :=
  match deadline with None => false | Some d => d <=? now end.

(** [if no budget is set { opts.MaxFiles = 1 }] *)
Definition defaultBudget (opts : RunOptions) : RunOptions :=
  if (RunOptions_MaxFiles opts <=? 0) && (RunOptions_MaxBytes opts <=? 0) && (RunOptions_MaxDuration opts <=? 0)
  then mkRunOptions 1 (RunOptions_MaxBytes opts) (RunOptions_MaxDuration opts) else opts.

Definition deadlineOf (opts : RunOptions) (started : Z) : option Z :=
  if 0 <? RunOptions_MaxDuration opts then Some (started + RunOptions_MaxDuration opts) else None.

Definition set_finish (cursor : Cursor) (complete yielded : bool) (finished : Z) (r : RunResult) : RunResult :=
  mkRunResult cursor (RunResult_FilesScanned r) (RunResult_BytesScanned r) (RunResult_Pruned r)
    (RunResult_Reported r) (RunResult_Quarantined r) complete yielded (RunResult_StartedAt r) finished.

Definition next_cursor (step : StepResult) : Cursor :=
  if StepResult_Complete step then Cursor_zero else StepResult_Cursor step.

(** The sums of the run after a step. *)
Definition add_step (r : RunResult) (step : StepResult) : RunResult :=
  mkRunResult (next_cursor step)
    (i64 (RunResult_FilesScanned r + StepResult_FilesScanned step))
    (i64 (RunResult_BytesScanned r + StepResult_BytesScanned step))
    (i64 (RunResult_Pruned r + StepResult_Pruned step))
    (i64 (RunResult_Reported r + StepResult_Reported step))
    (i64 (RunResult_Quarantined r + StepResult_Quarantined step))
    (RunResult_Complete r) (RunResult_Yielded r) (RunResult_StartedAt r) (RunResult_FinishedAt r).

Section run.
Context {W K : Type} `{!Crawler W} `{!CheckpointStore K}.

Definition stop_now (opts : RunOptions) (deadline : option Z) (t : tick) (r : RunResult) : bool :=
  tick_yield t || durationBudgetReached deadline (tick_now t) ||
  fileBudgetReached (RunResult_FilesScanned r) (RunOptions_MaxFiles opts) ||
  byteBudgetReached (RunResult_BytesScanned r) (RunOptions_MaxBytes opts).

(** The [for] loop.  [None] is a loop that has not ended within the fuel. *)
Fixpoint runLoop (opts : RunOptions) (deadline : option Z) (ticks : nat -> tick) (n fuel : nat)
    (w : W) (k : K) (cursor : Cursor) (r : RunResult) : option (W * K * (RunResult * option RunErr)) :=
  match fuel with
  | O => None
  | S fuel' =>
      let t := ticks n in
      if tick_canceled t then Some (w, k, (r, Some RunCanceled))
      else if stop_now opts deadline t r then
        Some (w, k, (set_finish cursor (RunResult_Complete r) (tick_yieldAgain t) (tick_finished t) r, None))
      else match Step w cursor with
      | (w', Err e) => Some (w', k, (r, Some (RunCrawler e)))
      | (w', Ok step) =>
          let r' := add_step r step in
          match SaveMaintenanceCursor k (next_cursor step) with
          | (k', Err e) => Some (w', k', (r', Some (RunCheckpoint e)))
          | (k', Ok _) =>
              if StepResult_Complete step then
                Some (w', k', (set_finish (next_cursor step) true (RunResult_Yielded r') (tick_finished t) r', None))
              else runLoop opts deadline ticks (S n) fuel' w' k' (next_cursor step) r'
          end
      end
  end.

Definition RunOnce (opts0 : RunOptions) (started : Z) (yieldFirst : bool) (finishedFirst : Z)
    (ticks : nat -> tick) (fuel : nat) (w : W) (k : K) : option (W * K * (RunResult * option RunErr)) :=
  let r := mkRunResult Cursor_zero 0 0 0 0 0 false false started 0 in
  if yieldFirst then Some (w, k, (set_finish Cursor_zero false true finishedFirst r, None))
  else match LoadMaintenanceCursor k with
  | Err e => Some (w, k, (RunResult_zero, Some (RunCheckpoint e)))
  | Ok cursor =>
      let opts := defaultBudget opts0 in
      runLoop opts (deadlineOf opts started) ticks 0 fuel w k cursor r
  end.

(** *** The specification of a run: a chain of steps, each saved *)

Inductive chain : W -> K -> Cursor -> list StepResult -> W -> K -> Cursor -> Prop :=
| chain_nil w k c : chain w k c [] w k c
| chain_snoc w k c rs w1 k1 c1 step w2 k2 :
    chain w k c rs w1 k1 c1 ->
    Step w1 c1 = (w2, Ok step) ->
    SaveMaintenanceCursor k1 (next_cursor step) = (k2, Ok tt) ->
    chain w k c (rs ++ [step]) w2 k2 (next_cursor step).

(** The sums of a run that has taken these steps. *)
Definition totals (started : Z) (rs : list StepResult) : RunResult :=
  foldl add_step (mkRunResult Cursor_zero 0 0 0 0 0 false false started 0) rs.

(** Every step was started within the file and byte budgets. *)
Definition within_budget (opts : RunOptions) (started : Z) (rs : list StepResult) : Prop :=
  forall rs1 step rs2, rs = rs1 ++ step :: rs2 ->
    fileBudgetReached (RunResult_FilesScanned (totals started rs1)) (RunOptions_MaxFiles opts) = false /\
    byteBudgetReached (RunResult_BytesScanned (totals started rs1)) (RunOptions_MaxBytes opts) = false /\
    (rs2 <> [] -> StepResult_Complete step = false).

(** How a run that has taken the steps [rs] may end. *)
Inductive run_end (opts : RunOptions) (started : Z) (rs : list StepResult) (w1 : W) (k1 : K) (c1 : Cursor)
    : W -> K -> RunResult -> option RunErr -> Prop :=
| end_canceled : run_end opts started rs w1 k1 c1 w1 k1 (totals started rs) (Some RunCanceled)
| end_complete step rs1 fin : rs = rs1 ++ [step] -> StepResult_Complete step = true -> c1 = Cursor_zero ->
    run_end opts started rs w1 k1 c1 w1 k1 (set_finish c1 true false fin (totals started rs)) None
| end_budget t : stop_now opts (deadlineOf opts started) t (totals started rs) = true ->
    run_end opts started rs w1 k1 c1 w1 k1
      (set_finish c1 false (tick_yieldAgain t) (tick_finished t) (totals started rs)) None
| end_crawler w2 e : Step w1 c1 = (w2, Err e) ->
    run_end opts started rs w1 k1 c1 w2 k1 (totals started rs) (Some (RunCrawler e))
| end_checkpoint w2 step k2 e : Step w1 c1 = (w2, Ok step) ->
    SaveMaintenanceCursor k1 (next_cursor step) = (k2, Err e) ->
    run_end opts started rs w1 k1 c1 w2 k2 (add_step (totals started rs) step) (Some (RunCheckpoint e)).

Lemma totals_snoc started rs step : totals started (rs ++ [step]) = add_step (totals started rs) step.
Proof. unfold totals. by rewrite foldl_app. Qed.

Lemma totals_flags started rs :
  RunResult_Complete (totals started rs) = false /\ RunResult_Yielded (totals started rs) = false.
Proof. induction rs as [|x rs IH] using rev_ind; [done|]. rewrite totals_snoc. exact IH. Qed.

Lemma within_budget_snoc opts started rs step :
  within_budget opts started rs ->
  (forall x, x ∈ rs -> StepResult_Complete x = false) ->
  fileBudgetReached (RunResult_FilesScanned (totals started rs)) (RunOptions_MaxFiles opts) = false ->
  byteBudgetReached (RunResult_BytesScanned (totals started rs)) (RunOptions_MaxBytes opts) = false ->
  within_budget opts started (rs ++ [step]).
Proof.
  intros Hb Hc Hf Hy rs1 x rs2 Heq.
  destruct rs2 as [|y rs2 _] using rev_ind.
  - apply app_inj_tail in Heq as [-> ->]. done.
  - rewrite app_comm_cons, app_assoc in Heq. apply app_inj_tail in Heq as [-> ->].
    destruct (Hb rs1 x rs2 eq_refl) as (? & ? & _). split_and!; [done..|].
    intros _. apply Hc. rewrite elem_of_app. right. by left.
Qed.

Lemma runLoop_chain opts started ticks fuel n rs w0 k0 c0 w k c w' k' res err :
  chain w0 k0 c0 rs w k c ->
  within_budget opts started rs ->
  (forall x, x ∈ rs -> StepResult_Complete x = false) ->
  runLoop opts (deadlineOf opts started) ticks n fuel w k c (totals started rs) = Some (w', k', (res, err)) ->
  exists rs' w1 k1 c1, chain w0 k0 c0 rs' w1 k1 c1 /\ within_budget opts started rs' /\
    run_end opts started rs' w1 k1 c1 w' k' res err.
Proof.
  revert n rs w k c. induction fuel as [|fuel IH]; intros n rs w k c Hch Hb Hc; [done|].
  cbn [runLoop]. destruct (tick_canceled (ticks n)).
  { intros [= <- <- <- <-]. exists rs, w, k, c. split_and!; [done..|constructor]. }
  destruct (stop_now _ _ _ _) eqn:Es.
  { intros [= <- <- <- <-]. exists rs, w, k, c. split_and!; [done..|].
    rewrite (proj1 (totals_flags started rs)). by constructor. }
  destruct (Step w c) as [w2 [step|e]] eqn:Est.
  2:{ intros [= <- <- <- <-]. exists rs, w, k, c. split_and!; [done..|by constructor]. }
  unfold stop_now in Es. rewrite !orb_false_iff in Es. destruct Es as [[[_ _] Ef] Ey].
  destruct (SaveMaintenanceCursor k (next_cursor step)) as [k2 [[]|e]] eqn:Esv.
  2:{ intros [= <- <- <- <-]. exists rs, w, k, c. split_and!; [done..|by econstructor]. }
  assert (chain w0 k0 c0 (rs ++ [step]) w2 k2 (next_cursor step)) as Hch' by by econstructor.
  assert (within_budget opts started (rs ++ [step])) as Hb' by by apply within_budget_snoc.
  rewrite <- totals_snoc. destruct (StepResult_Complete step) eqn:Ec.
  - intros [= <- <- <- <-]. exists (rs ++ [step]), w2, k2, (next_cursor step). split_and!; [done..|].
    rewrite (proj2 (totals_flags started (rs ++ [step]))).
    apply (end_complete _ _ _ _ _ _ step rs); [done|done|]. unfold next_cursor. by rewrite Ec.
  - apply IH; [done..|]. intros x [Hx|Hx]%elem_of_app; [by apply Hc|].
    apply list_elem_of_singleton in Hx as ->. done.
Qed.

Lemma chain_saved `{!CheckpointLaws K} w k c rs w1 k1 c1 :
  checkpoint_readable k -> LoadMaintenanceCursor k = Ok c -> chain w k c rs w1 k1 c1 ->
  checkpoint_readable k1 /\ LoadMaintenanceCursor k1 = Ok c1.
Proof.
  intros Hr Hl Hch. induction Hch as [|w k c rs w1 k1 c1 step w2 k2 Hch IH Hst Hsv]; [done|].
  destruct (IH Hr Hl) as [Hr1 _]. pose proof (checkpoint_save k1 (next_cursor step) Hr1) as H.
  rewrite Hsv in H. tauto.
Qed.

(** A maintenance run is resumable and bounded.  Whatever makes it stop -
    cancellation, an exhausted budget, a crawler or checkpoint error, the end
    of the crawl - it has taken a chain of steps starting at the stored cursor,
    each begun within the file and byte budgets and only the last of them
    final; its totals are those of the chain, and the cursor loaded by the next
    run is the one the chain ended at: no finished step is repeated or lost. *)
Theorem RunOnce_resumable `{!CheckpointLaws K} opts started fin ticks fuel w k c w' k' res err :
  checkpoint_readable k -> LoadMaintenanceCursor k = Ok c ->
  RunOnce opts started false fin ticks fuel w k = Some (w', k', (res, err)) ->
  exists rs w1 k1 c1,
    chain w k c rs w1 k1 c1 /\ within_budget (defaultBudget opts) started rs /\
    run_end (defaultBudget opts) started rs w1 k1 c1 w' k' res err /\
    LoadMaintenanceCursor k' = Ok c1 /\ checkpoint_readable k'.
Proof.
  intros Hr Hl. unfold RunOnce. rewrite Hl. intros Hrun.
  assert (within_budget (defaultBudget opts) started []) as Hb0 by (by intros [] ? ?).
  apply (runLoop_chain (defaultBudget opts) started ticks fuel 0%nat [] w k c) in Hrun as
    (rs & w1 & k1 & c1 & Hch & Hb & He); [|constructor|done|by intros x Hx%elem_of_nil].
  exists rs, w1, k1, c1. destruct (chain_saved _ _ _ _ _ _ _ Hr Hl Hch) as [Hr1 Hl1].
  split_and!; [done..| |]; destruct He as [| | | |w2 step k2 e Hst Hsv]; try done;
    pose proof (checkpoint_save k1 (next_cursor step) Hr1) as H; rewrite Hsv in H; by subst.
Qed.

(** What every crawler of the package does: a step that does not end the crawl
    scans some file, and not more than fits the counter. *)
Definition scans_files (maxFiles : Z) : Prop := forall w c w' step,
  Step w c = (w', Ok step) -> StepResult_Complete step = false ->
  1 <= StepResult_FilesScanned step <= maxInt64 - maxFiles.

Lemma runLoop_ends opts deadline ticks fuel n w k c r :
  0 < RunOptions_MaxFiles opts -> scans_files (RunOptions_MaxFiles opts) ->
  0 <= RunResult_FilesScanned r ->
  (Z.to_nat (RunOptions_MaxFiles opts - RunResult_FilesScanned r) < fuel)%nat ->
  is_Some (runLoop opts deadline ticks n fuel w k c r).
Proof.
  intros Hmax Hscan. revert n w k c r. induction fuel as [|fuel IH]; intros n w k c r Hr Hf; [lia|].
  cbn [runLoop]. destruct (tick_canceled (ticks n)); [by eexists|].
  destruct (stop_now _ _ _ _) eqn:Es; [by eexists|].
  destruct (Step w c) as [w2 [step|e]] eqn:Est; [|by eexists].
  destruct (SaveMaintenanceCursor k (next_cursor step)) as [k2 [[]|e]]; [|by eexists].
  destruct (StepResult_Complete step) eqn:Ec; [by eexists|].
  unfold stop_now, fileBudgetReached in Es. rewrite !orb_false_iff, !andb_false_iff in Es.
  pose proof (Hscan _ _ _ _ Est Ec) as Hs.
  assert (RunResult_FilesScanned (add_step r step) =
    RunResult_FilesScanned r + StepResult_FilesScanned step) as Ea.
  { unfold add_step. cbn [RunResult_FilesScanned]. apply i64_small.
    unfold int64_range, minInt64, maxInt64 in *. lia. }
  apply IH; rewrite Ea; lia.
Qed.

(** A run with the default or any positive file budget ends: with at least
    budget + 1 iterations the loop has returned, whatever the checkpoint, the
    clock and the crawler's errors. *)
Theorem RunOnce_terminates opts started yieldFirst fin ticks fuel w k :
  0 < RunOptions_MaxFiles (defaultBudget opts) ->
  scans_files (RunOptions_MaxFiles (defaultBudget opts)) ->
  (Z.to_nat (RunOptions_MaxFiles (defaultBudget opts)) < fuel)%nat ->
  is_Some (RunOnce opts started yieldFirst fin ticks fuel w k).
Proof.
  intros Hm Hs Hf. unfold RunOnce. destruct yieldFirst; [by eexists|].
  destruct (LoadMaintenanceCursor k); [|by eexists].
  apply runLoop_ends; [done..|simpl; lia|]. simpl. rewrite Z.sub_0_r. done.
Qed.
End run.

(** ** The file checkpoint *)

Inductive checkpointFile := NoCheckpoint | BadCheckpoint | SavedCursor (c : Cursor).

(** [fc_faults]: whether MkdirAll, CreateTemp, Write, Sync, Close and Rename
    fail.  The cursor is written to a temporary file that is renamed over the
    checkpoint. *)
Record FileCheckpoint := mkFileCheckpoint {
  FileCheckpoint_Path : string;
  fc_file : checkpointFile;
  fc_readFault : bool;
  fc_faults : list bool
}.

Definition FileCheckpoint_Load (f : FileCheckpoint) : result StoreErr Cursor :=
  if fc_readFault f then Err ErrReadFile
  else match fc_file f with
  | NoCheckpoint => Ok Cursor_zero
  | BadCheckpoint => Err ErrUnmarshal
  | SavedCursor c => Ok c
  end.

Definition FileCheckpoint_Save (f : FileCheckpoint) (c : Cursor) : FileCheckpoint * result StoreErr unit :=
  if decide (FileCheckpoint_Path f = EmptyString) then (f, Err (ErrRequired "maintenance checkpoint path"))
  else if existsb id (fc_faults f) then (f, Err ErrSave)
  else (mkFileCheckpoint (FileCheckpoint_Path f) (SavedCursor c) (fc_readFault f) (fc_faults f), Ok tt).

#[export] Instance FileCheckpoint_store : CheckpointStore FileCheckpoint := {|
  LoadMaintenanceCursor := FileCheckpoint_Load;
  SaveMaintenanceCursor := FileCheckpoint_Save
|}.

#[export, program] Instance FileCheckpoint_laws : CheckpointLaws FileCheckpoint := {|
  checkpoint_readable f := fc_readFault f = false
|}.
Next Obligation.
  intros f c Hr. cbv beta in Hr. simpl. unfold FileCheckpoint_Save.
  destruct (decide _); [done|]. destruct (existsb _ _); [done|].
  unfold FileCheckpoint_Load. simpl. by rewrite Hr.
Qed.

(** A crawler that visits the cursor positions 0, 1, ..., for the witnesses. *)
#[export] Instance demo_crawler : Crawler Z := {|
  Step n c :=
    (n + 1, Ok (mkStepResult (mkCursor (Cursor_Position c + 1) "docs" "a" 0) 1 10 0 0 0
                  (Cursor_Position c =? 4)))
|}.
Definition demo_checkpoint : FileCheckpoint := mkFileCheckpoint "cursor.json" NoCheckpoint false [false].
Definition demo_tick (n : nat) : tick := mkTick false false (Z.of_nat n) false 7.

Lemma RunOnce_resumable_witness :
  exists res w' k', RunOnce (mkRunOptions 3 0 0) 0 false 0 demo_tick 10 0 demo_checkpoint = Some (w', k', (res, None)) /\
    RunResult_FilesScanned res = 3 /\
    exists c1, LoadMaintenanceCursor k' = Ok c1 /\ c1 = mkCursor 3 "docs" "a" 0.
Proof.
  destruct (RunOnce (mkRunOptions 3 0 0) 0 false 0 demo_tick 10 0 demo_checkpoint)
    as [[[w' k'] [res err]]|] eqn:E; [|vm_compute in E; discriminate].
  pose proof (RunOnce_resumable _ _ _ _ _ _ demo_checkpoint Cursor_zero _ _ _ _ eq_refl eq_refl E)
    as (rs & w1 & k1 & c1 & _ & _ & _ & Hl & _).
  vm_compute in E. injection E as <- <- <- <-. eexists _, _, _. split; [reflexivity|].
  split; [reflexivity|]. exists c1. split; [done|]. vm_compute in Hl. by injection Hl as <-.
Defined.

Lemma RunOnce_terminates_witness :
  is_Some (RunOnce (mkRunOptions 0 0 0) 0 false 0 demo_tick 2 0 demo_checkpoint).
Proof.
  apply RunOnce_terminates; [reflexivity| |simpl; lia].
  intros w c w' step [= <- <-] _. simpl. unfold maxInt64. lia.
Defined.

(** ** Fingerprints of manifests *)

Definition block_index_lt : Block -> Block -> bool := last_key Block_Index Z.ltb.

(** [%d:%d:%d:], the hash bytes and a semicolon. *)
Definition fingerprintBlock (b : Block) : string :=
  itoa (Block_Index b) +:+ ":" +:+ itoa (Block_Offset b) +:+ ":" +:+ itoa (Block_Size b) +:+ ":"
    +:+ String.string_of_list_byte (Block_Hash b) +:+ ";".

Definition fingerprintStream (m : Manifest) : string :=
  let blocks := sort_by block_index_lt (Manifest_Blocks m) in
  "size=" +:+ itoa (Manifest_Size m) +:+ ";blockSize=" +:+ itoa (Manifest_BlockSize m) +:+ ";blocks="
    +:+ itoa (Z.of_nat (length blocks)) +:+ ";"
    +:+ foldr (fun b acc => fingerprintBlock b +:+ acc) EmptyString blocks.

Section fingerprint.
Context (sha256 : bytes -> bytes).

Definition manifestFingerprint (m : Manifest) : string :=
  hex_encode (sha256 (String.list_byte_of_string (fingerprintStream m))).
End fingerprint.

(** The comparison of the scrub crawler: sizes, counts and blocks in index order. *)
Definition blockBytesMatch (want got : Block) : bool :=
  bool_decide (Block_Index want = Block_Index got) && bool_decide (Block_Offset want = Block_Offset got) &&
  bool_decide (Block_Size want = Block_Size got) && bool_decide (Block_Hash want = Block_Hash got).

Definition manifestBytesMatch (expected actual : Manifest) : bool :=
  bool_decide (Manifest_Size expected = Manifest_Size actual) &&
  bool_decide (length (Manifest_Blocks expected) = length (Manifest_Blocks actual)) &&
  forallb (fun '(want, got) => blockBytesMatch want got)
    (zip (sort_by block_index_lt (Manifest_Blocks expected)) (sort_by block_index_lt (Manifest_Blocks actual))).

(** *** Fingerprints identify the bytes a manifest describes *)

Definition hashes_are_sha256 (m : Manifest) : Prop :=
  Forall (fun b => length (Block_Hash b) = 32%nat) (Manifest_Blocks m).

Lemma itoa_sep z1 z2 (c : ascii) s1 s2 : numeral_char c = false ->
  itoa z1 +:+ String c s1 = itoa z2 +:+ String c s2 -> z1 = z2 /\ s1 = s2.
Proof.
  intros Hc H. apply sep_inj in H as [H1 H2]; [|by apply itoa_no_char..].
  split; [by apply itoa_inj|done].
Qed.

Lemma string_of_bytes_app_inj bs1 bs2 s1 s2 : length bs1 = length bs2 ->
  String.string_of_list_byte bs1 +:+ s1 = String.string_of_list_byte bs2 +:+ s2 -> bs1 = bs2 /\ s1 = s2.
Proof.
  unfold String.app. revert bs2. induction bs1 as [|b bs1 IH]; intros [|b2 bs2] Hl; try discriminate Hl; [done|].
  cbn. intros [= Hb Hs]. apply IH in Hs as [-> ->]; [|by injection Hl].
  split; [|done]. f_equal. apply (f_equal byte_of_ascii) in Hb. by rewrite !byte_of_ascii_of_byte in Hb.
Qed.

Lemma fingerprintBlock_inj b1 b2 s1 s2 :
  length (Block_Hash b1) = length (Block_Hash b2) ->
  fingerprintBlock b1 +:+ s1 = fingerprintBlock b2 +:+ s2 -> b1 = b2 /\ s1 = s2.
Proof.
  intros Hl. unfold fingerprintBlock. rewrite !str_app_assoc.
  intros [H1 H]%itoa_sep; [|done]. apply itoa_sep in H as [H2 H]; [|done].
  apply itoa_sep in H as [H3 H]; [|done]. apply string_of_bytes_app_inj in H as [H4 H]; [|done].
  injection H as H. split; [|exact H]. destruct b1, b2; simpl in *; congruence.
Qed.

Lemma fingerprintBlocks_inj l1 l2 : length l1 = length l2 ->
  Forall (fun b => length (Block_Hash b) = 32%nat) l1 ->
  Forall (fun b => length (Block_Hash b) = 32%nat) l2 ->
  foldr (fun b acc => fingerprintBlock b +:+ acc) EmptyString l1 =
  foldr (fun b acc => fingerprintBlock b +:+ acc) EmptyString l2 -> l1 = l2.
Proof.
  revert l2. induction l1 as [|b1 l1 IH]; intros [|b2 l2] Hl H1 H2; try discriminate Hl; [done|].
  apply Forall_cons in H1 as [Hb1 H1], H2 as [Hb2 H2]. simpl. intros H.
  apply fingerprintBlock_inj in H as [-> H]; [|congruence]. f_equal. apply IH; [by injection Hl|done..].
Qed.

Lemma blocksMatch_eq l1 l2 : length l1 = length l2 ->
  forallb (fun '(want, got) => blockBytesMatch want got) (zip l1 l2) = true <-> l1 = l2.
Proof.
  revert l2. induction l1 as [|b1 l1 IH]; intros [|b2 l2] Hl; try discriminate Hl; [done|].
  cbn [zip_with forallb]. rewrite andb_true_iff, IH by (by injection Hl).
  unfold blockBytesMatch. rewrite !andb_true_iff, !bool_decide_eq_true.
  destruct b1, b2. simpl.
  split; [intros [[[[-> ->] ->] ->] ->]; done|intros [= -> -> -> -> ->]; done].
Qed.

Lemma manifestBytesMatch_eq m1 m2 :
  manifestBytesMatch m1 m2 = true <->
  Manifest_Size m1 = Manifest_Size m2 /\
  sort_by block_index_lt (Manifest_Blocks m1) = sort_by block_index_lt (Manifest_Blocks m2).
Proof.
  unfold manifestBytesMatch. rewrite !andb_true_iff, !bool_decide_eq_true. split.
  - intros [[Hs Hl] H]. split; [done|]. apply blocksMatch_eq in H; [done|]. by rewrite !length_sort_by.
  - intros [Hs H]. assert (length (Manifest_Blocks m1) = length (Manifest_Blocks m2)) as Hl.
    { by rewrite <- (length_sort_by block_index_lt (Manifest_Blocks m1)), H, length_sort_by. }
    split_and!; [done..|]. apply blocksMatch_eq; [by rewrite !length_sort_by|done].
Qed.

(** When SHA-256 does not collide on their two streams, two manifests of
    SHA-256 blocks have the same fingerprint exactly when they have the same
    block size and the scrub comparison finds the same bytes in both: backoff
    state is dropped precisely when the trusted content changes. *)
Theorem manifestFingerprint_determines (sha256 : bytes -> bytes) m1 m2 :
  (sha256 (String.list_byte_of_string (fingerprintStream m1)) =
   sha256 (String.list_byte_of_string (fingerprintStream m2)) ->
   String.list_byte_of_string (fingerprintStream m1) = String.list_byte_of_string (fingerprintStream m2)) ->
  hashes_are_sha256 m1 -> hashes_are_sha256 m2 ->
  manifestFingerprint sha256 m1 = manifestFingerprint sha256 m2 <->
  Manifest_BlockSize m1 = Manifest_BlockSize m2 /\ manifestBytesMatch m1 m2 = true.
Proof.
  intros Hsha H1 H2. rewrite manifestBytesMatch_eq. unfold manifestFingerprint. split.
  - intros Heq%hex_encode_inj%Hsha%list_byte_of_string_inj. unfold fingerprintStream in Heq.
    apply (f_equal (drop_str 5)) in Heq. cbn in Heq.
    apply itoa_sep in Heq as [Hs Heq]; [|done].
    apply (f_equal (drop_str 10)) in Heq. cbn in Heq. apply itoa_sep in Heq as [Hb Heq]; [|done].
    apply (f_equal (drop_str 7)) in Heq. cbn in Heq. apply itoa_sep in Heq as [Hn Heq]; [|done].
    split_and!; [done..|]. apply fingerprintBlocks_inj in Heq; [done|lia|by rewrite sort_by_perm..].
  - intros (Hb & Hs & Hl). unfold fingerprintStream. by rewrite Hb, Hs, Hl.
Qed.

Lemma manifestFingerprint_determines_witness :
  let m := mkManifest "a" 1 4 [mkBlock 0 0 1 (replicate 32 Byte.x61)] "complete" false 0 0 0 0 in
  let m' := mkManifest "b" 1 4 [mkBlock 0 0 1 (replicate 32 Byte.x61)] "complete" true 9 0 0 0 in
  manifestFingerprint (fun bs => bs) m = manifestFingerprint (fun bs => bs) m'.
Proof.
  intros m m'. apply manifestFingerprint_determines; [done|by repeat constructor..|].
  split; reflexivity.
Defined.

(** ** Repair backoff *)

Record RepairAttemptState := mkRepairAttemptState {
  RepairAttemptState_FolderID : string;
  RepairAttemptState_Path : string;
  RepairAttemptState_Attempts : Z;
  RepairAttemptState_LastAttemptUnixNano : Z;
  RepairAttemptState_BackoffUntilUnixNano : Z;
  RepairAttemptState_TrustedFingerprint : string;
  RepairAttemptState_LastError : string
}.

Record RepairBackoffPolicy := mkRepairBackoffPolicy {
  RepairBackoffPolicy_BaseDelay : Z;
  RepairBackoffPolicy_MaxDelay : Z;
  RepairBackoffPolicy_MaxAttempts : Z
}.

(** [RepairDecision]; a zero [BackoffUntil] is [None]. *)
Record RepairDecision := mkRepairDecision {
  RepairDecision_Allowed : bool;
  RepairDecision_Reason : string;
  RepairDecision_Attempts : Z;
  RepairDecision_BackoffUntil : option Z
}.

Definition RepairDecisionBackoff : string := "backoff".
Definition RepairDecisionMaxAttempts : string := "max-attempts".
Definition RepairDecisionTrustedManifestChanged : string := "trusted-manifest-changed".

(** [type RepairBackoffStore interface] *)
Class RepairBackoffStore (R : Type) := {
  rs_get : R -> string -> string -> result StoreErr (option RepairAttemptState);
  rs_save : R -> RepairAttemptState -> R * result StoreErr unit;
  rs_clear : R -> string -> string -> R * result StoreErr unit
}.

Class RepairBackoffLaws (R : Type) `{!RepairBackoffStore R} := {
  rs_get_save r st r' : rs_save r st = (r', Ok tt) ->
    rs_get r' (RepairAttemptState_FolderID st) (RepairAttemptState_Path st) = Ok (Some st);
  rs_get_clear r f p r' : rs_clear r f p = (r', Ok tt) -> rs_get r' f p = Ok None
}.

Definition minute : Z := 60 * 10 ^ 9.

(** [for i := 1; i < attempts; i++ { ... }]; [n] is the number of iterations. *)
Fixpoint backoffLoop (n : nat) (delay max : Z) : Z :=
  match n with
  | O => delay
  | S n' => if max ÷ 2 <=? delay then max else backoffLoop n' (i64 (delay * 2)) max
  end.

Definition backoffBase (policy : RepairBackoffPolicy) : Z :=
  if RepairBackoffPolicy_BaseDelay policy <=? 0 then minute else RepairBackoffPolicy_BaseDelay policy.
Definition backoffMax (policy : RepairBackoffPolicy) : Z :=
  if RepairBackoffPolicy_MaxDelay policy <=? 0 then backoffBase policy else RepairBackoffPolicy_MaxDelay policy.

Definition backoffDelay (attempts0 : Z) (policy : RepairBackoffPolicy) : Z :=
  let base := backoffBase policy in
  let max := backoffMax policy in
  let attempts := if attempts0 <? 1 then 1 else attempts0 in
  let delay := backoffLoop (Z.to_nat (attempts - 1)) base max in
  if max <? delay then max else delay.

Definition unixNanoTime (n : Z) : option Z := if n =? 0 then None else Some n.

Section backoff.
Context (sha256 : bytes -> bytes) {R : Type} `{!RepairBackoffStore R}.

(** [now] is what the policy's clock answers, in nanoseconds. *)
Definition ShouldAttemptRepair (store : R) (folderID path : string) (trusted : Manifest)
    (policy : RepairBackoffPolicy) (now : Z) : result StoreErr RepairDecision :=
  found ← rs_get store folderID path;
  match found with
  | None => Ok (mkRepairDecision true EmptyString 0 None)
  | Some st =>
      let fingerprint := manifestFingerprint sha256 trusted in
      if bool_decide (RepairAttemptState_TrustedFingerprint st <> EmptyString) &&
         bool_decide (RepairAttemptState_TrustedFingerprint st <> fingerprint)
      then Ok (mkRepairDecision true RepairDecisionTrustedManifestChanged 0 None)
      else if (0 <? RepairBackoffPolicy_MaxAttempts policy) &&
              (RepairBackoffPolicy_MaxAttempts policy <=? RepairAttemptState_Attempts st)
      then Ok (mkRepairDecision false RepairDecisionMaxAttempts (RepairAttemptState_Attempts st)
                 (unixNanoTime (RepairAttemptState_BackoffUntilUnixNano st)))
      else match unixNanoTime (RepairAttemptState_BackoffUntilUnixNano st) with
      | Some until =>
          if now <? until
          then Ok (mkRepairDecision false RepairDecisionBackoff (RepairAttemptState_Attempts st) (Some until))
          else Ok (mkRepairDecision true EmptyString (RepairAttemptState_Attempts st) None)
      | None => Ok (mkRepairDecision true EmptyString (RepairAttemptState_Attempts st) None)
      end
  end.

(** The attempts a new failure counts from. *)
Definition priorAttempts (found : option RepairAttemptState) (fingerprint : string) : Z :=
  match found with
  | None => 0
  | Some st =>
      if bool_decide (RepairAttemptState_TrustedFingerprint st <> EmptyString) &&
         bool_decide (RepairAttemptState_TrustedFingerprint st <> fingerprint) then 0
      else RepairAttemptState_Attempts st
  end.

Definition RecordRepairFailure (store : R) (folderID path : string) (trusted : Manifest)
    (policy : RepairBackoffPolicy) (now : Z) (message : string) : R * result StoreErr unit :=
  match rs_get store folderID path with
  | Err e => (store, Err e)
  | Ok found =>
      let fingerprint := manifestFingerprint sha256 trusted in
      let attempts := i64 (priorAttempts found fingerprint + 1) in
      rs_save store (mkRepairAttemptState folderID path attempts (i64 now)
        (i64 (now + backoffDelay attempts policy)) fingerprint message)
  end.

Definition RecordRepairSuccess (store : R) (folderID path : string) : R * result StoreErr unit :=
  rs_clear store folderID path.
End backoff.

(** *** The delay *)

Lemma backoffLoop_spec n delay max :
  0 < delay -> 0 < max <= maxInt64 ->
  (n = 0%nat /\ backoffLoop n delay max = delay) \/
  (backoffLoop n delay max = max) \/
  (backoffLoop n delay max = delay * 2 ^ Z.of_nat n /\ delay * 2 ^ Z.of_nat n <= max).
Proof.
  intros Hd Hm. revert delay Hd. induction n as [|n IH]; intros delay Hd; [by left|]. right.
  cbn [backoffLoop]. rewrite Z.quot_div_nonneg by lia. destruct (Z.leb_spec (max / 2) delay) as [|Hlt]; [by left|].
  assert (2 * delay < max) as H2. { pose proof (Z.mul_div_le max 2). lia. }
  rewrite i64_small by (unfold int64_range, minInt64, maxInt64 in *; lia).
  rewrite Nat2Z.inj_succ, Z.pow_succ_r by lia.
  destruct (IH (delay * 2)) as [[-> H]|[H|[H Hle]]]; [lia|right; rewrite H; simpl; lia|by left|right; lia].
Qed.

Lemma backoffLoop_S n delay max :
  0 < delay -> 0 < max <= maxInt64 ->
  Z.min max (backoffLoop n delay max) <= Z.min max (backoffLoop (S n) delay max).
Proof.
  intros Hd Hm. revert delay Hd. induction n as [|n IH]; intros delay Hd.
  - cbn [backoffLoop]. rewrite Z.quot_div_nonneg by lia. destruct (Z.leb_spec (max / 2) delay) as [|Hlt]; [lia|].
    pose proof (Z.mul_div_le max 2).
    rewrite i64_small by (unfold int64_range, minInt64, maxInt64 in *; lia). lia.
  - change (backoffLoop (S (S n)) delay max)
      with (if max ÷ 2 <=? delay then max else backoffLoop (S n) (i64 (delay * 2)) max).
    change (backoffLoop (S n) delay max)
      with (if max ÷ 2 <=? delay then max else backoffLoop n (i64 (delay * 2)) max).
    rewrite Z.quot_div_nonneg by lia.
    destruct (Z.leb_spec (max / 2) delay) as [|Hlt]; [lia|].
    pose proof (Z.mul_div_le max 2).
    rewrite i64_small by (unfold int64_range, minInt64, maxInt64 in *; lia). apply IH. lia.
Qed.

Definition policy_int64 (policy : RepairBackoffPolicy) : Prop :=
  RepairBackoffPolicy_BaseDelay policy <= maxInt64 /\ RepairBackoffPolicy_MaxDelay policy <= maxInt64.

Lemma backoff_positive policy :
  policy_int64 policy -> 0 < backoffBase policy <= maxInt64 /\ 0 < backoffMax policy <= maxInt64.
Proof.
  unfold policy_int64, backoffMax, backoffBase, minute. intros [H1 H2].
  pose proof (eq_refl : maxInt64 = 9223372036854775807).
  destruct (Z.leb_spec (RepairBackoffPolicy_BaseDelay policy) 0), (Z.leb_spec (RepairBackoffPolicy_MaxDelay policy) 0);
    lia.
Qed.

Lemma backoffDelay_min attempts policy :
  backoffDelay attempts policy =
    Z.min (backoffMax policy) (backoffLoop (Z.to_nat (Z.max 1 attempts - 1)) (backoffBase policy) (backoffMax policy)).
Proof.
  unfold backoffDelay. destruct (Z.ltb_spec attempts 1).
  - rewrite Z.max_l by lia. destruct (Z.ltb_spec (backoffMax policy) (backoffLoop (Z.to_nat (1 - 1)) (backoffBase policy) (backoffMax policy))); lia.
  - rewrite Z.max_r by lia. destruct (Z.ltb_spec (backoffMax policy) (backoffLoop (Z.to_nat (attempts - 1)) (backoffBase policy) (backoffMax policy))); lia.
Qed.

Lemma backoffDelay_range attempts policy :
  policy_int64 policy -> 0 < backoffDelay attempts policy <= backoffMax policy.
Proof.
  intros H. rewrite backoffDelay_min. destruct (backoff_positive _ H) as [Hb Hm].
  destruct (backoffLoop_spec (Z.to_nat (Z.max 1 attempts - 1)) (backoffBase policy) (backoffMax policy))
    as [[_ ->]|[->|[-> _]]]; lia.
Qed.

(** The backoff delay stays between 1 ns and the maximum, never overflows,
    does not shrink as attempts grow, and is at least the base delay doubled
    once per earlier attempt, up to the maximum. *)
Theorem backoffDelay_bounds attempts policy :
  policy_int64 policy ->
  0 < backoffDelay attempts policy <= backoffMax policy /\
  backoffDelay attempts policy <= backoffDelay (attempts + 1) policy /\
  Z.min (backoffMax policy) (backoffBase policy * 2 ^ (Z.max 1 attempts - 1)) <= backoffDelay attempts policy.
Proof.
  intros H. split; [by apply backoffDelay_range|]. destruct (backoff_positive _ H) as [Hb Hm].
  rewrite !backoffDelay_min. split.
  - destruct (Z.le_gt_cases attempts 0).
    + rewrite !Z.max_l by lia. lia.
    + rewrite !Z.max_r by lia.
      replace (Z.to_nat (attempts + 1 - 1)) with (S (Z.to_nat (attempts - 1))) by lia.
      apply backoffLoop_S; lia.
  - set (n := Z.max 1 attempts - 1).
    assert (0 <= n) as Hn by lia. rewrite <- (Z2Nat.id n Hn) at 1.
    destruct (backoffLoop_spec (Z.to_nat n) (backoffBase policy) (backoffMax policy))
      as [[-> ->]|[->|[-> ?]]]; [lia|lia|simpl; lia|lia|lia].
Qed.

Lemma backoffDelay_bounds_witness :
  backoffDelay 4 (mkRepairBackoffPolicy 1000 5000 0) = 5000 /\
  0 < backoffDelay 3 (mkRepairBackoffPolicy 1000 5000 0) <= 5000.
Proof.
  split; [reflexivity|].
  apply (backoffDelay_bounds 3 (mkRepairBackoffPolicy 1000 5000 0)). by split.
Defined.

(** *** Attempts *)

(** After a recorded repair failure at time [now], a repair of the same
    trusted manifest is allowed again exactly when the attempts are not
    exhausted and the backoff delay has passed; one of a manifest with another
    fingerprint is allowed at once; and after a success nothing is remembered. *)
Theorem repair_backoff_contract (sha256 : bytes -> bytes) {R : Type} `{!RepairBackoffStore R} `{!RepairBackoffLaws R}
    (store store' : R) f p trusted policy now message found :
  rs_get store f p = Ok found ->
  manifestFingerprint sha256 trusted <> EmptyString ->
  policy_int64 policy -> 0 < now -> now + backoffMax policy <= maxInt64 ->
  RecordRepairFailure sha256 store f p trusted policy now message = (store', Ok tt) ->
  let attempts := i64 (priorAttempts found (manifestFingerprint sha256 trusted) + 1) in
  (forall now', exists d, ShouldAttemptRepair sha256 store' f p trusted policy now' = Ok d /\
     (RepairDecision_Allowed d = true <->
        (0 < RepairBackoffPolicy_MaxAttempts policy -> attempts < RepairBackoffPolicy_MaxAttempts policy) /\
        now + backoffDelay attempts policy <= now')) /\
  (forall now' trusted', manifestFingerprint sha256 trusted' <> manifestFingerprint sha256 trusted ->
     exists d, ShouldAttemptRepair sha256 store' f p trusted' policy now' = Ok d /\ RepairDecision_Allowed d = true) /\
  (forall store'' now' trusted', RecordRepairSuccess store' f p = (store'', Ok tt) ->
     exists d, ShouldAttemptRepair sha256 store'' f p trusted' policy now' = Ok d /\ RepairDecision_Allowed d = true).
Proof.
  intros Hget Hfp Hpol Hnow Hmax Hrec attempts.
  pose proof (backoffDelay_range attempts policy Hpol) as Hd.
  unfold RecordRepairFailure in Hrec. rewrite Hget in Hrec. fold attempts in Hrec.
  apply rs_get_save in Hrec. cbn [RepairAttemptState_FolderID RepairAttemptState_Path] in Hrec.
  assert (int64_range (now + backoffDelay attempts policy)) as Hr
    by (unfold int64_range, minInt64, maxInt64 in *; lia).
  rewrite (i64_small _ Hr) in Hrec.
  split_and!.
  - intros now'. unfold ShouldAttemptRepair. rewrite Hrec.
    cbn [mbind result_bind RepairAttemptState_TrustedFingerprint RepairAttemptState_Attempts
         RepairAttemptState_BackoffUntilUnixNano].
    rewrite (bool_decide_eq_false_2 (manifestFingerprint sha256 trusted <> manifestFingerprint sha256 trusted))
      by (intros Hn; by apply Hn).
    rewrite andb_false_r. unfold unixNanoTime.
    destruct (Z.eqb_spec (now + backoffDelay attempts policy) 0); [lia|].
    destruct (Z.ltb_spec 0 (RepairBackoffPolicy_MaxAttempts policy)),
      (Z.leb_spec (RepairBackoffPolicy_MaxAttempts policy) attempts),
      (Z.ltb_spec now' (now + backoffDelay attempts policy));
      (eexists; split; [reflexivity|]; cbn [RepairDecision_Allowed]; split; [done || lia|intros [? ?]; done || lia]).
  - intros now' trusted' Hne. unfold ShouldAttemptRepair. rewrite Hrec.
    cbn [mbind result_bind RepairAttemptState_TrustedFingerprint].
    rewrite !bool_decide_eq_true_2 by congruence. by eexists.
  - intros store'' now' trusted' Hclear. apply rs_get_clear in Hclear.
    unfold ShouldAttemptRepair. rewrite Hclear. by eexists.
Qed.

(** A store in memory, keyed like the code's tests do. *)
#[export] Instance map_backoff_store : RepairBackoffStore (gmap (string * string) RepairAttemptState) := {|
  rs_get r f p := Ok (r !! (f, p));
  rs_save r st := (<[(RepairAttemptState_FolderID st, RepairAttemptState_Path st) := st]> r, Ok tt);
  rs_clear r f p := (delete (f, p) r, Ok tt)
|}.

#[export] Instance map_backoff_laws : RepairBackoffLaws (gmap (string * string) RepairAttemptState).
Proof.
  split.
  - intros r st r' [= <-]. simpl. by rewrite lookup_insert_eq.
  - intros r f p r' [= <-]. simpl. by rewrite lookup_delete_eq.
Qed.

Lemma repair_backoff_contract_witness :
  let sha := fun bs : bytes => take 1 (reverse bs) in
  let policy := mkRepairBackoffPolicy 1000 8000 0 in
  let store' := (RecordRepairFailure sha (∅ : gmap (string * string) RepairAttemptState) "f" "p" (demo_manifest Byte.x61) policy 50 "x").1 in
  exists d, ShouldAttemptRepair sha store' "f" "p" (demo_manifest Byte.x61) policy 1050 = Ok d /\
    RepairDecision_Allowed d = true.
Proof.
  intros sha policy store'.
  pose proof (repair_backoff_contract sha (∅ : gmap (string * string) RepairAttemptState) store' "f" "p"
    (demo_manifest Byte.x61) policy 50 "x" None eq_refl ltac:(vm_compute; discriminate)
    ltac:(by split) ltac:(lia) ltac:(vm_compute; discriminate) eq_refl) as [H _].
  destruct (H 1050) as (d & Hd & Ha). exists d. split; [exact Hd|]. apply Ha. split; [vm_compute; discriminate|].
  vm_compute. discriminate.
Defined.
