(* ===== verification/Paths.v ===== *)
(** * Paths: what path.Clean, filepath.Join, Abs and Rel guarantee

    A path is compared through its elements.  [elem_ok] elements are real names;
    the lemmas say when cleaning a path leaves only such elements, which is what
    the code's checks against escaping a folder rely on.  Paths are those of a
    Unix system: the separator is a slash and ToSlash and FromSlash do nothing. *)

From S2P Require Import Prelude GoStd.
From Stdlib Require Import Ascii.

(** ** Elements *)

Record elem_ok (e : string) : Prop := {
  elem_nonempty : e <> EmptyString;
  elem_not_dot : e <> ".";
  elem_not_up : e <> "..";
  elem_no_slash : contains_char e slash = false
}.

Lemma split_on_nonempty c s : split_on c s <> [].
Proof. destruct s as [|d s]; simpl; [done|]. case_bool_decide; [done|]. by destruct (split_on c s). Qed.

Lemma split_on_no_char c s : Forall (fun w => contains_char w c = false) (split_on c s).
Proof.
  induction s as [|d s IH]; simpl; [by repeat constructor|]. case_bool_decide as Hd; [by constructor|].
  assert (contains_char (String d EmptyString) c = false) as Hc.
  { simpl. rewrite orb_false_r. apply bool_decide_eq_false. congruence. }
  destruct (split_on c s) as [|w ws]; [by constructor|]. apply Forall_cons in IH as [Hw Hws].
  constructor; [|done]. simpl. rewrite Hw, orb_false_r. apply bool_decide_eq_false. congruence.
Qed.

Lemma split_on_app c a b : split_on c (a +:+ String c b) = split_on c a ++ split_on c b.
Proof.
  unfold String.app. induction a as [|d a IH]; simpl.
  - by rewrite bool_decide_eq_true_2.
  - case_bool_decide; [by rewrite IH|]. rewrite IH.
    destruct (split_on c a) as [|w ws] eqn:E; [by apply split_on_nonempty in E|done].
Qed.

Lemma split_on_none c s : contains_char s c = false -> split_on c s = [s].
Proof.
  induction s as [|d s IH]; simpl; [done|]. rewrite orb_false_iff, bool_decide_eq_false. intros [Hd Hs].
  rewrite bool_decide_eq_false_2 by congruence. by rewrite IH.
Qed.

Lemma join_cons x y l : join "/" (x :: y :: l) = x +:+ String slash (join "/" (y :: l)).
Proof. done. Qed.

Lemma split_on_join l : l <> [] -> Forall (fun w => contains_char w slash = false) l ->
  split_on slash (join "/" l) = l.
Proof.
  intros Hne Hl. induction l as [|x l IH]; [done|]. apply Forall_cons in Hl as [Hx Hl].
  destruct l as [|y l]; [by apply split_on_none|].
  rewrite join_cons, split_on_app, IH, split_on_none by done. done.
Qed.

Lemma join_split s : join "/" (split_on slash s) = s.
Proof.
  induction s as [|d s IH]; simpl; [done|]. case_bool_decide as Hd.
  - subst d. destruct (split_on slash s) as [|w ws] eqn:E; [by apply split_on_nonempty in E|].
    rewrite join_cons. by rewrite IH.
  - destruct (split_on slash s) as [|w ws] eqn:E; [by apply split_on_nonempty in E|].
    destruct ws; simpl in *; [by rewrite IH|]. by rewrite <- IH.
Qed.

(** ** Cleaning *)

Lemma clean_step_ok rooted stack e : elem_ok e -> clean_step rooted stack e = e :: stack.
Proof. intros [H1 H2 H3 _]. unfold clean_step. by rewrite !bool_decide_eq_false_2. Qed.

Lemma clean_steps_ok rooted l stack : Forall elem_ok l -> foldl (clean_step rooted) stack l = rev l ++ stack.
Proof.
  revert stack. induction l as [|e l IH]; intros stack Hl; [done|]. apply Forall_cons in Hl as [He Hl].
  cbn [foldl rev]. rewrite clean_step_ok, IH by done. by rewrite <- app_assoc.
Qed.

(** The stack of elements: real names over the [..] of an unrooted path. *)
Definition stack_form (rooted : bool) (stack : list string) : Prop :=
  exists l n, stack = l ++ replicate n ".." /\ Forall elem_ok l /\ (rooted = true -> n = 0%nat).

Lemma clean_step_form rooted stack e :
  contains_char e slash = false -> stack_form rooted stack -> stack_form rooted (clean_step rooted stack e).
Proof.
  intros He (l & n & -> & Hl & Hn). unfold clean_step.
  destruct (bool_decide_reflect (e = EmptyString)) as [|H1]; simpl; [by exists l, n|].
  destruct (bool_decide_reflect (e = ".")) as [|H2]; simpl; [by exists l, n|].
  destruct (bool_decide_reflect (e = "..")) as [|H3].
  - destruct l as [|x l]; simpl.
    + destruct n as [|n]; simpl; [destruct rooted; [by exists [], 0%nat|by exists [], 1%nat]|].
      exists [], (S (S n)). split; [done|]. split; [done|]. intros Hr. specialize (Hn Hr). lia.
    + apply Forall_cons in Hl as [Hx Hl]. rewrite bool_decide_eq_false_2 by apply Hx. by exists l, n.
  - exists (e :: l), n. split; [done|]. split; [by constructor|done].
Qed.

Lemma clean_steps_form rooted l stack :
  Forall (fun w => contains_char w slash = false) l -> stack_form rooted stack ->
  stack_form rooted (foldl (clean_step rooted) stack l).
Proof.
  revert stack. induction l as [|e l IH]; intros stack Hl Hs; [done|]. apply Forall_cons in Hl as [He Hl].
  cbn [foldl]. apply IH; [done|]. by apply clean_step_form.
Qed.

Lemma rev_replicate {A} n (x : A) : rev (replicate n x) = replicate n x.
Proof.
  induction n as [|n IH]; [done|]. cbn [replicate rev]. rewrite IH, <- replicate_cons_app. done.
Qed.

(** A cleaned path is some [..] elements followed by real names; a rooted one
    has no [..]. *)
Lemma clean_elems_form p :
  exists n l, clean_elems p = replicate n ".." ++ l /\ Forall elem_ok l /\ (has_prefix p "/" = true -> n = 0%nat).
Proof.
  unfold clean_elems.
  destruct (clean_steps_form (has_prefix p "/") (split_on slash p) [] (split_on_no_char _ _)) as (l & n & E & Hl & Hn).
  { by exists [], 0%nat. }
  exists n, (rev l). rewrite E, rev_app_distr, rev_replicate. split; [done|]. split; [|done].
  by apply Forall_rev.
Qed.

Lemma has_prefix_nil s : has_prefix s EmptyString = true.
Proof. by destruct s. Qed.

(** Whether a path is rooted shows in its first character. *)
Lemma rooted_app p t : p <> EmptyString -> has_prefix (p +:+ t) "/" = has_prefix p "/".
Proof. intros Hp. destruct p as [|c p]; [done|]. unfold String.app. simpl. by rewrite !has_prefix_nil. Qed.

Lemma has_prefix_app a b : has_prefix (a +:+ b) a = true.
Proof.
  unfold String.app. induction a as [|c a IH]; simpl; [by destruct b|]. rewrite IH. by rewrite bool_decide_eq_true_2.
Qed.

Lemma has_prefix_inv s p : has_prefix s p = true -> exists t, s = p +:+ t.
Proof.
  unfold String.app. revert s. induction p as [|c p IH]; intros s; [by exists s|].
  destruct s as [|d s]; [done|]. cbn. case_bool_decide as Hc; [|done]. intros [t ->]%IH. exists t. by subst.
Qed.

Lemma join_ok_not_rooted l : Forall elem_ok l -> has_prefix (join "/" l) "/" = false.
Proof.
  intros Hl. destruct l as [|e l]; [done|]. apply Forall_cons in Hl as [[H1 _ _ H4] _].
  destruct e as [|c e]; [done|]. assert (c <> slash) as Hc.
  { intros ->. done. }
  destruct l; simpl; rewrite bool_decide_eq_false_2 by (unfold slash in Hc; congruence); done.
Qed.

(** Cleaning the join of real names gives them back. *)
Lemma clean_elems_join l : Forall elem_ok l -> clean_elems (join "/" l) = l.
Proof.
  intros Hl. unfold clean_elems. rewrite join_ok_not_rooted by done.
  destruct (decide (l = [])) as [->|Hne]; [done|].
  rewrite split_on_join; [|done|by eapply Forall_impl; [done|]; intros e []].
  rewrite clean_steps_ok, app_nil_r, rev_involutive by done. done.
Qed.

Lemma join_inj l1 l2 : l1 <> [] -> l2 <> [] -> Forall elem_ok l1 -> Forall elem_ok l2 ->
  join "/" l1 = join "/" l2 -> l1 = l2.
Proof.
  intros _ _ H1 H2 H. apply (f_equal clean_elems) in H. by rewrite !clean_elems_join in H.
Qed.

(** An unrooted path whose cleaned form is neither [.], [..] nor under [..] is
    a sequence of real names. *)
Lemma path_clean_inside p :
  has_prefix p "/" = false -> path_clean p <> "." -> path_clean p <> ".." ->
  has_prefix (path_clean p) "../" = false ->
  exists l, l <> [] /\ Forall elem_ok l /\ clean_elems p = l /\ path_clean p = join "/" l.
Proof.
  intros Hp. unfold path_clean. rewrite Hp. destruct (clean_elems_form p) as (n & l & E & Hl & _). rewrite E.
  destruct n as [|[|n]]; cbn [replicate app].
  - destruct l as [|e l]; [done|]. intros _ _ _. by exists (e :: l).
  - destruct l as [|e l]; [done|]. intros _ _ H.
    change (has_prefix ("../" +:+ join "/" (e :: l)) "../" = false) in H. by rewrite has_prefix_app in H.
  - intros _ _ H.
    change (has_prefix ("../" +:+ join "/" (".." :: replicate n ".." ++ l)) "../" = false) in H.
    by rewrite has_prefix_app in H.
Qed.

(** ** Abs, Join, Rel *)

Section paths.
Context (cwd : string).

(** The elements of [filepath.Abs(p)]. *)
Definition abs_elems (p : string) : list string :=
  clean_elems (if has_prefix p "/" then p else cwd +:+ "/" +:+ p).

(** [filepath.Join(root, rel)]: empty arguments are dropped. *)
Definition path_join (root rel : string) : string :=
  if bool_decide (root = EmptyString) then rel
  else if bool_decide (rel = EmptyString) then root
  else root +:+ "/" +:+ rel.

Lemma clean_elems_app p l : p <> EmptyString -> Forall elem_ok l -> l <> [] ->
  clean_elems (p +:+ "/" +:+ join "/" l) = clean_elems p ++ l.
Proof.
  intros Hp Hl Hne. unfold clean_elems.
  rewrite rooted_app by done.
  change (p +:+ "/" +:+ join "/" l) with (p +:+ String slash (join "/" l)).
  rewrite split_on_app, foldl_app.
  rewrite (split_on_join l); [|done|by eapply Forall_impl; [done|]; intros e []].
  rewrite clean_steps_ok by done. by rewrite rev_app_distr, rev_involutive.
Qed.

(** Joining real names below a root appends them to the root's elements. *)
Lemma abs_elems_join root l : cwd <> EmptyString -> Forall elem_ok l -> l <> [] ->
  abs_elems (path_join root (join "/" l)) = abs_elems root ++ l.
Proof.
  intros Hcwd Hl Hne. assert (join "/" l <> EmptyString) as Hj.
  { destruct l as [|e l]; [done|]. apply Forall_cons in Hl as [[H1 _ _ _] _]. destruct e as [|c e]; [done|].
    by destruct l. }
  unfold path_join, abs_elems. case_bool_decide as Hr.
  - subst root. rewrite join_ok_not_rooted by done. cbn [has_prefix].
    rewrite clean_elems_app by done. unfold clean_elems.
    rewrite rooted_app by done.
    change (cwd +:+ "/" +:+ EmptyString) with (cwd +:+ String slash EmptyString).
    rewrite split_on_app, foldl_app. done.
  - rewrite bool_decide_eq_false_2 by done.
    rewrite rooted_app by done.
    destruct (has_prefix root "/"); [by apply clean_elems_app|].
    replace (cwd +:+ "/" +:+ root +:+ "/" +:+ join "/" l) with ((cwd +:+ "/" +:+ root) +:+ "/" +:+ join "/" l)
      by (by rewrite !str_app_assoc).
    apply clean_elems_app; [|done..]. by destruct cwd.
Qed.

(** The elements of [filepath.Rel] between two absolute clean paths. *)
Fixpoint rel_elems (base targ : list string) : list string :=
  match base, targ with
  | b :: base', t :: targ' =>
      if bool_decide (b = t) then rel_elems base' targ' else replicate (length base) ".." ++ targ
  | _, _ => replicate (length base) ".." ++ targ
  end.

Definition path_rel (base targ : string) : string :=
  match rel_elems (abs_elems base) (abs_elems targ) with [] => "." | l => join "/" l end.

Lemma rel_elems_app base l : rel_elems base (base ++ l) = l.
Proof. induction base as [|b base IH]; [by destruct l|]. simpl. by rewrite bool_decide_eq_true_2. Qed.

Lemma rel_elems_prefix base targ l : Forall elem_ok targ -> Forall elem_ok l -> l <> [] ->
  rel_elems base targ = l -> targ = base ++ l.
Proof.
  intros Ht Hl Hne. revert targ Ht. induction base as [|b base IH]; intros targ Ht.
  - simpl. by destruct targ.
  - assert (".." :: replicate (length base) ".." ++ targ <> l) as Hup.
    { intros <-. apply Forall_cons in Hl as [[_ _ H _] _]. done. }
    destruct targ as [|t targ]; [simpl; intros H; by destruct Hup|].
    cbn [rel_elems]. case_bool_decide as Hbt; [|intros H; by destruct Hup].
    apply Forall_cons in Ht as [_ Ht]. intros H%IH; [|done]. by rewrite Hbt, H.
Qed.

Lemma abs_elems_ok p : has_prefix cwd "/" = true -> Forall elem_ok (abs_elems p).
Proof.
  intros Hcwd. unfold abs_elems. destruct (has_prefix p "/") eqn:Hp.
  - destruct (clean_elems_form p) as (n & l & -> & Hl & Hn). by rewrite (Hn Hp).
  - destruct (clean_elems_form (cwd +:+ "/" +:+ p)) as (n & l & -> & Hl & Hn).
    rewrite Hn; [done|]. rewrite rooted_app; [done|]. intros Hc. by rewrite Hc in Hcwd.
Qed.
End paths.

Definition hasParentSegment (p : string) : bool := existsb (fun part => bool_decide (part = "..")) (split_on slash p).
