(* ===== verification/SyncPlan.v ===== *)
(** * Planning a synchronisation: conflict policy and apply order

    Models [internal/syncplan/policy.go] (what to do with two versions of a
    file) and [internal/applyplan/order.go] (in which order to write and delete
    when space is short). *)

From S2P Require Import Prelude GoStd.
From Stdlib Require Import Ascii.

Local Open Scope Z_scope.

(** ** syncplan *)

(** [FolderMode] is a string; anything but the two named modes behaves as
    [sendrecv]. *)
Definition FolderMode : Type := string.
Definition ModeSendReceive : FolderMode := "sendrecv".
Definition ModeSendOnly : FolderMode := "sendonly".
Definition ModeReceiveOnly : FolderMode := "recvonly".

Record Policy := mkPolicy {
  Policy_AdvertiseLocalChanges : bool;
  Policy_ApplyRemoteChanges : bool;
  Policy_ReportLocalDrift : bool
}.

Definition PolicyForMode (mode : FolderMode) : Policy :=
  if decide (mode = ModeSendOnly) then mkPolicy true false false
  else if decide (mode = ModeReceiveOnly) then mkPolicy false true true
  else mkPolicy true true false.

Record FileVersion := mkFileVersion {
  FileVersion_Path : string;
  FileVersion_Version : Z;
  FileVersion_DeviceID : string;
  FileVersion_Hash : string
}.

Inductive Action := ActionNoop | ActionSendLocal | ActionApplyRemote | ActionConflictCopy | ActionReportDrift.

Record Decision := mkDecision {
  Decision_Action : Action;
  Decision_Reason : string;
  Decision_KeepLocalPath : string;
  Decision_ApplyRemotePath : string
}.

Definition decided (action : Action) (reason : string) : Decision := mkDecision action reason EmptyString EmptyString.

Definition conflictPath (path deviceID : string) : string :=
  let ext := path_ext path in
  trim_suffix path ext +:+ ".sync-conflict-" +:+ deviceID +:+ ext.

Definition Decide (local remote : FileVersion) (mode : FolderMode) : Decision :=
  if decide (FileVersion_Hash local = FileVersion_Hash remote) then decided ActionNoop "hashes match"
  else
    let policy := PolicyForMode mode in
    if Policy_ReportLocalDrift policy && bool_decide (FileVersion_Hash local <> FileVersion_Hash remote)
    then decided ActionReportDrift "receive-only folder has local drift"
    else if negb (Policy_ApplyRemoteChanges policy)
    then decided ActionSendLocal "send-only folder advertises local version"
    else if negb (Policy_AdvertiseLocalChanges policy)
    then decided ActionApplyRemote "receive-only folder applies remote version"
    else if (FileVersion_Version local =? FileVersion_Version remote) &&
            bool_decide (FileVersion_DeviceID local <> FileVersion_DeviceID remote)
    then mkDecision ActionConflictCopy "concurrent divergent edits" (FileVersion_Path local)
           (conflictPath (FileVersion_Path remote) (FileVersion_DeviceID remote))
    else if FileVersion_Version local <? FileVersion_Version remote
    then decided ActionApplyRemote "remote version is newer"
    else decided ActionSendLocal "local version is newer".

(** ** applyplan *)

Record Write := mkWrite { Write_Path : string; Write_BytesNeeded : Z }.
Record Delete := mkDelete { Delete_Path : string; Delete_BytesFreed : Z }.
Record Changes := mkChanges { Changes_Writes : list Write; Changes_Deletes : list Delete }.
Record Space := mkSpace { Space_Available : Z }.

Inductive StepKind := StepWrite | StepDelete.
Record Step := mkStep { Step_Kind : StepKind; Step_Path : string; Step_Bytes : Z }.
Record Plan := mkPlan { Plan_Steps : list Step }.

Definition write_step (w : Write) : Step := mkStep StepWrite (Write_Path w) (Write_BytesNeeded w).
Definition delete_step (d : Delete) : Step := mkStep StepDelete (Delete_Path d) (Delete_BytesFreed d).

Definition freed_at (deletes : list Delete) (i : nat) : Z :=
  match deletes !! i with Some d => Delete_BytesFreed d | None => 0 end.

Definition bestDeleteIndex (deletes : list Delete) : nat :=
  foldl (fun best i => if freed_at deletes best <? freed_at deletes i then i else best) 0%nat
    (seq 1 (length deletes - 1)).

(** [for available < write.BytesNeeded && len(deletes) > 0]: each iteration
    takes one delete away, which bounds the loop. *)
Fixpoint makeRoom (fuel : nat) (needed available : Z) (deletes : list Delete) : list Step * Z * list Delete :=
  match fuel with
  | O => ([], available, deletes)
  | S fuel' =>
      if available <? needed then
        let idx := bestDeleteIndex deletes in
        match deletes !! idx with
        | None => ([], available, deletes)
        | Some d =>
            let '(steps, available', deletes') :=
              makeRoom fuel' needed (i64 (available + Delete_BytesFreed d))
                (take idx deletes ++ drop (S idx) deletes) in
            (delete_step d :: steps, available', deletes')
        end
      else ([], available, deletes)
  end.

(** The loop over the writes: the steps and the deletes left over. *)
Fixpoint orderWrites (writes : list Write) (available : Z) (deletes : list Delete) : list Step * list Delete :=
  match writes with
  | [] => ([], deletes)
  | w :: writes' =>
      let '(room, available', deletes') := makeRoom (length deletes) (Write_BytesNeeded w) available deletes in
      let '(rest, unused) := orderWrites writes' (i64 (available' - Write_BytesNeeded w)) deletes' in
      (room ++ write_step w :: rest, unused)
  end.

Definition Order (changes : Changes) (space : Space) : Plan :=
  let '(steps, unused) := orderWrites (Changes_Writes changes) (Space_Available space) (Changes_Deletes changes) in
  mkPlan (steps ++ (delete_step <$> sort_by (last_key Delete_Path str_lt) unused)).

(** ** Properties *)

(** *** Conflicts *)

Definition mirror (a : Action) : Action :=
  match a with
  | ActionSendLocal => ActionApplyRemote
  | ActionApplyRemote => ActionSendLocal
  | a => a
  end.

Lemma length_str_app a b : String.length (a +:+ b) = (String.length a + String.length b)%nat.
Proof. unfold String.app. induction a as [|c a IH]; simpl; [done|]. by rewrite IH. Qed.

Lemma str_app_inj_l a b c : a +:+ b = a +:+ c -> b = c.
Proof. unfold String.app. induction a as [|x a IH]; simpl; [done|]. intros [= H]. by apply IH. Qed.

Lemma str_app_inj_r a b c : a +:+ c = b +:+ c -> a = b.
Proof.
  unfold String.app. revert b. induction a as [|x a IH]; intros [|y b] H; simpl in *; [done| | |].
  - apply (f_equal String.length) in H. simpl in H. fold (String.app b c) in H.
    rewrite (length_str_app b c) in H. lia.
  - apply (f_equal String.length) in H. simpl in H. fold (String.app a c) in H.
    rewrite (length_str_app a c) in H. lia.
  - injection H as -> H. f_equal. by apply IH.
Qed.

Lemma length_take_str n s : (n <= String.length s)%nat -> String.length (take_str n s) = n.
Proof. revert s. induction n as [|n IH]; intros [|c s] H; simpl in *; [done..|lia|]. f_equal. apply IH. lia. Qed.

Lemma length_trim_suffix s p : (String.length s <= String.length (trim_suffix s p) + String.length p)%nat.
Proof.
  unfold trim_suffix. destruct (has_suffix s p) eqn:E; [|lia].
  unfold has_suffix in E. apply andb_true_iff in E as [E%Nat.leb_le _]. rewrite length_take_str; lia.
Qed.

Lemma conflictPath_ne path deviceID : conflictPath path deviceID <> path.
Proof.
  unfold conflictPath. intros H. apply (f_equal String.length) in H. rewrite !length_str_app in H.
  pose proof (length_trim_suffix path (path_ext path)).
  change (String.length ".sync-conflict-") with 15%nat in H. lia.
Qed.

Lemma conflictPath_inj path d1 d2 : conflictPath path d1 = conflictPath path d2 -> d1 = d2.
Proof. unfold conflictPath. intros H%str_app_inj_l%str_app_inj_l%str_app_inj_r. done. Qed.

(** Two devices looking at the same pair of versions of a path take
    complementary decisions: both do nothing on equal content; otherwise the
    newer version is sent by one and applied by the other, and concurrent edits
    of different devices become conflict copies under two different names,
    neither of which is the path itself.  A send-only folder never takes a
    remote version; versions that agree in number and device but not in content
    are outside the claim (see [same_device_stuck]). *)
Theorem Decide_complementary (a b : FileVersion) :
  FileVersion_Path a = FileVersion_Path b ->
  FileVersion_DeviceID a <> FileVersion_DeviceID b \/ FileVersion_Version a <> FileVersion_Version b \/
    FileVersion_Hash a = FileVersion_Hash b ->
  let da := Decide a b ModeSendReceive in
  let db := Decide b a ModeSendReceive in
  Decision_Action db = mirror (Decision_Action da) /\
  (Decision_Action da = ActionNoop <-> FileVersion_Hash a = FileVersion_Hash b) /\
  (Decision_Action da = ActionApplyRemote <->
     FileVersion_Hash a <> FileVersion_Hash b /\ FileVersion_Version a < FileVersion_Version b) /\
  (Decision_Action da = ActionConflictCopy ->
     Decision_KeepLocalPath da = FileVersion_Path a /\
     Decision_ApplyRemotePath da <> FileVersion_Path a /\
     Decision_ApplyRemotePath da <> Decision_ApplyRemotePath db) /\
  Decision_Action (Decide a b ModeSendOnly) <> ActionApplyRemote.
Proof.
  intros Hpath Hside. unfold Decide. cbn [PolicyForMode].
  destruct (decide (FileVersion_Hash a = FileVersion_Hash b)) as [Hh|Hh].
  { rewrite decide_True by done. cbn. split_and!; [done|done| |done|done]. split; [done|]. by intros [? _]. }
  rewrite decide_False by congruence. cbn.
  destruct (Z.eqb_spec (FileVersion_Version a) (FileVersion_Version b)) as [Hv|Hv].
  - rewrite <- Hv, Z.eqb_refl. assert (FileVersion_DeviceID a <> FileVersion_DeviceID b) as Hd by (destruct Hside as [|[|]]; done).
    rewrite !bool_decide_eq_true_2 by congruence. cbn. split_and!; [done|split; done| | |done].
    + split; [done|]. intros [_ ?]. lia.
    + intros _. rewrite Hpath. split_and!; [done|apply conflictPath_ne|]. intros H%conflictPath_inj. congruence.
  - destruct (Z.eqb_spec (FileVersion_Version b) (FileVersion_Version a)) as [?|_]; [congruence|]. cbn.
    destruct (Z.ltb_spec (FileVersion_Version a) (FileVersion_Version b)),
      (Z.ltb_spec (FileVersion_Version b) (FileVersion_Version a)); try lia; cbn;
      (split_and!; [done|split; done| |done|done]); split; try done; by intros [_ ?]; lia.
Qed.

Lemma Decide_complementary_witness :
  Decision_Action (Decide (mkFileVersion "a.txt" 3 "d1" "h1") (mkFileVersion "a.txt" 3 "d2" "h2") ModeSendReceive) = ActionConflictCopy /\
  Decision_ApplyRemotePath (Decide (mkFileVersion "a.txt" 3 "d1" "h1") (mkFileVersion "a.txt" 3 "d2" "h2") ModeSendReceive) <> "a.txt".
Proof.
  split; [vm_compute; reflexivity|].
  set (a := mkFileVersion "a.txt" 3 "d1" "h1"). set (b := mkFileVersion "a.txt" 3 "d2" "h2").
  assert (FileVersion_DeviceID a <> FileVersion_DeviceID b) as Hd by discriminate.
  pose proof (Decide_complementary a b eq_refl (or_introl Hd)) as H. cbv zeta in H.
  destruct H as (_ & _ & _ & H & _). apply H. vm_compute. reflexivity.
Defined.

(** A receive-only folder that differs from the remote only ever reports drift:
    the branch that applies the remote version cannot be reached. *)
Example receive_only_never_applies l r : Decision_Action (Decide l r ModeReceiveOnly) <> ActionApplyRemote.
Proof.
  unfold Decide. case_decide as Hh; [done|]. cbn. by rewrite bool_decide_eq_true_2.
Qed.

(** Equal version and device, different content: both sides send, none applies. *)
Example same_device_stuck :
  let a := mkFileVersion "a" 3 "d" "h1" in
  let b := mkFileVersion "a" 3 "d" "h2" in
  Decision_Action (Decide a b ModeSendReceive) = ActionSendLocal /\
  Decision_Action (Decide b a ModeSendReceive) = ActionSendLocal.
Proof. by split. Qed.

(** *** Apply order *)

Definition freed (ds : list Delete) : Z := foldr (fun d acc => Delete_BytesFreed d + acc) 0 ds.
Definition needed (ws : list Write) : Z := foldr (fun w acc => Write_BytesNeeded w + acc) 0 ws.

(** The free space after a step, and whether every write of a sequence of steps
    finds the space it needs. *)
Definition space_after (available : Z) (s : Step) : Z :=
  match Step_Kind s with StepWrite => available - Step_Bytes s | StepDelete => available + Step_Bytes s end.

Fixpoint fits (available : Z) (steps : list Step) : bool :=
  match steps with
  | [] => true
  | s :: steps' =>
      match Step_Kind s with StepWrite => Step_Bytes s <=? available | StepDelete => true end &&
      fits (space_after available s) steps'
  end.

(** Each delete before the last write is made when the next write does not fit. *)
Fixpoint next_write (steps : list Step) : option Z :=
  match steps with
  | [] => None
  | s :: steps' => match Step_Kind s with StepWrite => Some (Step_Bytes s) | StepDelete => next_write steps' end
  end.

Fixpoint deletes_late (available : Z) (steps : list Step) : Prop :=
  match steps with
  | [] => True
  | s :: steps' =>
      match Step_Kind s, next_write steps' with
      | StepDelete, Some n => available < n
      | _, _ => True
      end /\ deletes_late (space_after available s) steps'
  end.

Definition is_write (s : Step) : bool := match Step_Kind s with StepWrite => true | StepDelete => false end.
Definition is_delete (s : Step) : bool := negb (is_write s).

(** The steps carry out the changes: the writes in their order, each delete once. *)
Definition carries_out (steps : list Step) (ws : list Write) (ds : list Delete) : Prop :=
  List.filter is_write steps = write_step <$> ws /\ List.filter is_delete steps ≡ₚ delete_step <$> ds.

Definition int64_changes (changes : Changes) (available : Z) : Prop :=
  Forall (fun w => 0 <= Write_BytesNeeded w) (Changes_Writes changes) /\
  Forall (fun d => 0 <= Delete_BytesFreed d) (Changes_Deletes changes) /\
  minInt64 <= available - needed (Changes_Writes changes) /\
  available + freed (Changes_Deletes changes) <= maxInt64.

Lemma freed_app l1 l2 : freed (l1 ++ l2) = freed l1 + freed l2.
Proof. unfold freed. induction l1 as [|d l1 IH]; simpl; lia. Qed.

#[export] Instance freed_perm : Proper ((≡ₚ) ==> eq) freed.
Proof. intros l1 l2 H. unfold freed. induction H; simpl; lia. Qed.

Lemma freed_nonneg l : Forall (fun d => 0 <= Delete_BytesFreed d) l -> 0 <= freed l.
Proof. unfold freed. induction 1; simpl; lia. Qed.

Lemma needed_nonneg l : Forall (fun w => 0 <= Write_BytesNeeded w) l -> 0 <= needed l.
Proof. unfold needed. induction 1; simpl; lia. Qed.

Lemma bestDeleteIndex_lt ds : ds <> [] -> (bestDeleteIndex ds < length ds)%nat.
Proof.
  intros Hne. unfold bestDeleteIndex.
  assert (forall l best, (best < length ds)%nat -> Forall (fun i => (i < length ds)%nat) l ->
    (foldl (fun best i => if (freed_at ds best <? freed_at ds i)%Z then i else best) best l < length ds)%nat) as H.
  { induction l as [|i l IH]; intros best Hb Hl; simpl; [done|]. apply Forall_cons in Hl as [Hi Hl].
    apply IH; [|done]. by destruct (_ <? _). }
  apply H; [destruct ds; [done|simpl; lia]|]. apply Forall_forall. intros i Hi%elem_of_seq. lia.
Qed.

Lemma remove_at {A} (l : list A) i x : l !! i = Some x -> x :: (take i l ++ drop (S i) l) ≡ₚ l.
Proof. intros H. rewrite Permutation_middle. by rewrite take_drop_middle. Qed.

Lemma Forall_freed_perm l1 l2 : l1 ≡ₚ l2 -> Forall (fun d => 0 <= Delete_BytesFreed d) l1 ->
  Forall (fun d => 0 <= Delete_BytesFreed d) l2.
Proof. by intros ->. Qed.

Lemma makeRoom_spec fuel n available ds :
  (length ds <= fuel)%nat -> Forall (fun d => 0 <= Delete_BytesFreed d) ds ->
  minInt64 <= available -> available + freed ds <= maxInt64 ->
  exists taken ds', makeRoom fuel n available ds = (delete_step <$> taken, available + freed taken, ds') /\
    taken ++ ds' ≡ₚ ds /\ (n <= available + freed taken \/ ds' = []) /\
    forall pre d post, taken = pre ++ d :: post -> available + freed pre < n.
Proof.
  revert available ds. induction fuel as [|fuel IH]; intros available ds Hf Hds Hmin Hmax; cbn [makeRoom].
  { exists [], ds. assert (ds = []) as -> by (destruct ds; [done|simpl in Hf; lia]).
    split; [simpl; f_equal; f_equal; unfold freed; simpl; lia|]. split; [done|]. split; [by right|].
    intros pre d post H. by destruct pre. }
  destruct (Z.ltb_spec available n) as [Hlt|Hge].
  2:{ exists [], ds. split; [f_equal; f_equal; unfold freed; simpl; lia|]. split; [done|].
      split; [left; unfold freed; simpl; lia|]. intros pre d post H. by destruct pre. }
  destruct (decide (ds = [])) as [->|Hne].
  { exists [], []. cbn. split; [f_equal; f_equal; lia|]. split; [done|]. split; [by right|].
    intros pre d post H. by destruct pre. }
  destruct (lookup_lt_is_Some_2 ds _ (bestDeleteIndex_lt ds Hne)) as [d Hd]. rewrite Hd.
  pose proof (remove_at ds _ d Hd) as Hperm. set (rest := take _ ds ++ _) in *.
  assert (Forall (fun d => 0 <= Delete_BytesFreed d) (d :: rest)) as Hnn by (by eapply Forall_freed_perm).
  apply Forall_cons in Hnn as [Hd0 Hrest].
  assert (freed ds = Delete_BytesFreed d + freed rest) as Hfr by (by rewrite <- Hperm).
  pose proof (freed_nonneg rest Hrest) as Hr0.
  rewrite i64_small by (unfold int64_range, minInt64, maxInt64 in *; lia).
  destruct (IH (available + Delete_BytesFreed d) rest) as (taken & ds' & -> & Hp & Hdone & Hlazy);
    [|done|lia|lia|].
  { apply (Permutation_length) in Hperm. simpl in Hperm. lia. }
  exists (d :: taken), ds'.
  assert (available + freed (d :: taken) = available + Delete_BytesFreed d + freed taken) as Ha
    by (unfold freed; simpl; lia).
  rewrite Ha. split; [done|]. split; [by rewrite <- Hperm, <- Hp|]. split; [done|].
  intros [|x pre] d' post [= <- Heq]; [unfold freed; simpl; lia|].
  pose proof (Hlazy _ _ _ Heq). unfold freed in *. simpl. lia.
Qed.

Lemma filter_delete_steps (l : list Delete) :
  List.filter is_write (delete_step <$> l) = [] /\ List.filter is_delete (delete_step <$> l) = delete_step <$> l.
Proof.
  induction l as [|d l [IH1 IH2]]; [done|]. split; [exact IH1|].
  change (delete_step d :: List.filter is_delete (delete_step <$> l) = delete_step d :: (delete_step <$> l)).
  by rewrite IH2.
Qed.

Lemma fits_deletes (l : list Delete) available steps :
  fits available ((delete_step <$> l) ++ steps) = fits (available + freed l) steps.
Proof.
  revert available. induction l as [|d l IH]; intros available; simpl.
  - f_equal. lia.
  - rewrite IH. f_equal. unfold space_after. simpl. unfold freed. simpl. lia.
Qed.

Lemma deletes_late_room (l : list Delete) available n steps :
  next_write steps = Some n -> (forall pre d post, l = pre ++ d :: post -> available + freed pre < n) ->
  deletes_late (available + freed l) steps -> deletes_late available ((delete_step <$> l) ++ steps).
Proof.
  intros Hn. revert available. induction l as [|d l IH]; intros available Hl Hs.
  - simpl. by replace available with (available + freed []) by (simpl; lia).
  - cbn [fmap list_fmap app deletes_late Step_Kind delete_step]. split.
    + assert (forall l, next_write ((delete_step <$> l) ++ steps) = Some n) as -> by (by intros l0; induction l0).
      specialize (Hl [] d l eq_refl). simpl in Hl. lia.
    + apply IH.
      * intros pre d' post ->. specialize (Hl (d :: pre) d' post eq_refl). unfold space_after, freed in *. simpl in *. lia.
      * unfold space_after, freed in *. simpl in *. by rewrite <- Z.add_assoc.
Qed.

Lemma deletes_late_only (l : list Delete) available : deletes_late available (delete_step <$> l).
Proof.
  revert available. induction l as [|d l IH]; intros available; [done|].
  cbn [fmap list_fmap deletes_late Step_Kind delete_step]. split; [|apply IH].
  assert (forall l' : list Delete, next_write (delete_step <$> l') = None) as Hn
    by (intros l'; by induction l').
  destruct (next_write _) eqn:E; [|done]. exfalso. by pose proof (eq_trans (eq_sym E) (Hn l)).
Qed.

(** What the space must allow, whatever the order of the deletes. *)
Fixpoint feasible (total : Z) (ws : list Write) : bool :=
  match ws with
  | [] => true
  | w :: ws' => (Write_BytesNeeded w <=? total) && feasible (total - Write_BytesNeeded w) ws'
  end.

Lemma feasible_mono t t' ws : t <= t' -> feasible t ws = true -> feasible t' ws = true.
Proof.
  revert t t'. induction ws as [|w ws IH]; intros t t' Ht; simpl; [done|].
  rewrite !andb_true_iff, !Z.leb_le. intros [H1 H2]. split; [lia|]. eapply IH; [|done]. lia.
Qed.

Lemma fits_feasible steps available ws ds :
  carries_out steps ws ds -> Forall (fun d => 0 <= Delete_BytesFreed d) ds ->
  fits available steps = true -> feasible (available + freed ds) ws = true.
Proof.
  revert available ws ds. induction steps as [|s steps IH]; intros available ws ds [Hw Hd] Hnn Hfit.
  { symmetry in Hw. apply fmap_nil_inv in Hw as ->. done. }
  simpl in Hfit. apply andb_true_iff in Hfit as [Hs Hfit]. destruct s as [[] p b].
  - cbn in Hw, Hd, Hs. destruct ws as [|w ws]; [done|]. injection Hw as Hp Hb Hw.
    simpl. subst p b. rewrite andb_true_iff. apply Z.leb_le in Hs. pose proof (freed_nonneg ds Hnn).
    split; [apply Z.leb_le; lia|].
    replace (available + freed ds - Write_BytesNeeded w) with ((available - Write_BytesNeeded w) + freed ds) by lia.
    by apply IH.
  - cbn in Hw, Hd. destruct (Permutation_cons_inv_l _ _ _ Hd) as (l1 & l2 & Heq & Hl). clear Hd.
    apply fmap_app_inv in Heq as (ds1 & ds2 & -> & Heq & ->).
    destruct ds2 as [|d ds2]; [done|]. cbn in Heq. injection Heq as Hdp Hdb Hl2; subst p b l2.
    assert (ds1 ++ d :: ds2 ≡ₚ d :: (ds1 ++ ds2)) as Hperm by (symmetry; apply Permutation_middle).
    rewrite Hperm in Hnn |- *. apply Forall_cons in Hnn as [Hd0 Hnn].
    cbn [freed foldr]. change (foldr _ 0 (ds1 ++ ds2)) with (freed (ds1 ++ ds2)).
    replace (available + (Delete_BytesFreed d + freed (ds1 ++ ds2))) with ((available + Delete_BytesFreed d) + freed (ds1 ++ ds2)) by lia.
    apply (IH (available + Delete_BytesFreed d)); [|done|exact Hfit]. split; [done|]. by rewrite fmap_app.
Qed.

Lemma orderWrites_spec ws available ds :
  Forall (fun w => 0 <= Write_BytesNeeded w) ws -> Forall (fun d => 0 <= Delete_BytesFreed d) ds ->
  minInt64 <= available - needed ws -> available + freed ds <= maxInt64 ->
  exists steps taken unused, orderWrites ws available ds = (steps, unused) /\
    taken ++ unused ≡ₚ ds /\ carries_out steps ws taken /\
    (feasible (available + freed ds) ws = true -> fits available steps = true) /\
    (forall (last : list Delete), deletes_late available (steps ++ (delete_step <$> last)) /\
       (fits available (steps ++ (delete_step <$> last)) = fits available steps)).
Proof.
  revert available ds. induction ws as [|w ws IH]; intros available ds Hws Hds Hmin Hmax.
  { exists [], [], ds. split_and!; [done|done|done|done|]. intros last. split; [apply deletes_late_only|].
    rewrite <- (app_nil_r (delete_step <$> last)), app_nil_l, fits_deletes. done. }
  apply Forall_cons in Hws as [Hw0 Hws]. pose proof (needed_nonneg ws Hws) as Hn0. pose proof (freed_nonneg ds Hds) as Hf0.
  cbn [needed foldr] in Hmin. change (foldr _ 0 ws) with (needed ws) in Hmin. cbn [orderWrites].
  destruct (makeRoom_spec (length ds) (Write_BytesNeeded w) available ds) as (room & ds' & -> & Hp & Hdone & Hlazy);
    [lia|done|lia|lia|].
  assert (Forall (fun d => 0 <= Delete_BytesFreed d) (room ++ ds')) as Hnn by (by rewrite Hp).
  apply Forall_app in Hnn as [Hr Hds']. pose proof (freed_nonneg room Hr). pose proof (freed_nonneg ds' Hds').
  assert (freed ds = freed room + freed ds') as Hfr by (by rewrite <- freed_app, Hp).
  rewrite i64_small by (unfold int64_range, minInt64, maxInt64 in *; lia).
  destruct (IH (available + freed room - Write_BytesNeeded w) ds') as (steps & taken & unused & -> & Hp' & [Hcw Hcd] & Hfit & Hlate);
    [done|done|lia|lia|].
  exists ((delete_step <$> room) ++ write_step w :: steps), (room ++ taken), unused. split_and!.
  - done.
  - by rewrite <- app_assoc, Hp'.
  - destruct (filter_delete_steps room) as [Hr1 Hr2]. split.
    + rewrite List.filter_app, Hr1. cbn. by rewrite Hcw.
    + rewrite List.filter_app, Hr2. cbn. by rewrite fmap_app, Hcd.
  - simpl. rewrite andb_true_iff, Z.leb_le. intros [Hle Hfeas]. rewrite fits_deletes. cbn.
    rewrite andb_true_iff, Z.leb_le. split.
    + destruct Hdone as [?| ->]; [done|]. simpl in *. lia.
    + apply Hfit. eapply feasible_mono; [|done]. lia.
  - intros last. rewrite <- app_assoc. cbn [app]. split.
    + apply (deletes_late_room room available (Write_BytesNeeded w)); [done|done|]. cbn. split; [done|]. apply Hlate.
    + rewrite !fits_deletes. cbn. f_equal. apply Hlate.
Qed.

(** The apply order is as good as any: its steps are the writes in their
    order and every delete exactly once; if any interleaving of the deletes
    into the same writes lets every write fit the free space, then so does this
    one; and a delete is done ahead of a write only while that write would not
    fit. *)
Theorem Order_optimal changes space :
  int64_changes changes (Space_Available space) ->
  let steps := Plan_Steps (Order changes space) in
  carries_out steps (Changes_Writes changes) (Changes_Deletes changes) /\
  (forall steps', carries_out steps' (Changes_Writes changes) (Changes_Deletes changes) ->
     fits (Space_Available space) steps' = true -> fits (Space_Available space) steps = true) /\
  deletes_late (Space_Available space) steps.
Proof.
  intros (Hws & Hds & Hmin & Hmax). unfold Order.
  destruct (orderWrites_spec _ _ _ Hws Hds Hmin Hmax) as (steps & taken & unused & -> & Hp & [Hcw Hcd] & Hfit & Hlate).
  cbn [Plan_Steps]. set (last := sort_by _ unused). destruct (Hlate last) as [Hl He]. split_and!.
  - destruct (filter_delete_steps last) as [H1 H2]. split.
    + by rewrite List.filter_app, H1, app_nil_r.
    + rewrite List.filter_app, H2, Hcd, <- fmap_app. apply Permutation_map. rewrite <- Hp.
      by apply Permutation_app_head, sort_by_perm.
  - intros steps' Hc' Hf'. rewrite He. apply Hfit. by eapply fits_feasible.
  - done.
Qed.

Lemma Order_optimal_witness :
  let changes := mkChanges [mkWrite "new" 5] [mkDelete "small" 1; mkDelete "big" 4] in
  Plan_Steps (Order changes (mkSpace 2)) = [mkStep StepDelete "big" 4; mkStep StepWrite "new" 5; mkStep StepDelete "small" 1] /\
  fits 2 (Plan_Steps (Order changes (mkSpace 2))) = true.
Proof.
  intros changes. split; [reflexivity|].
  destruct (Order_optimal changes (mkSpace 2)) as (_ & H & _).
  - split_and!; [by repeat constructor|by repeat constructor|vm_compute; discriminate|vm_compute; discriminate].
  - apply (H [mkStep StepDelete "big" 4; mkStep StepDelete "small" 1; mkStep StepWrite "new" 5]); [|reflexivity].
    split; [reflexivity|]. apply Permutation_swap.
Defined.
