(* ===== verification/Backup.v ===== *)
(** * Backups: what a snapshot protects, and the mirror

    Models [internal/backup/planner.go] (which blocks to archive and which files
    to mirror) and [internal/backup/mirror.go] (bringing a mirror up to date) on
    a file system of regular files, keyed by the elements of their absolute
    path.  System calls may fail; a failed copy leaves the old file, because
    the new content is staged beside it and renamed. *)

From S2P Require Import Prelude GoStd Block StoreData Paths.
From Stdlib Require Import Ascii.

Local Open Scope Z_scope.

(** ** Planner *)

Definition BackupMode : Type := string.
Definition BackupModeBlockArchiveOnly : BackupMode := "block-archive-only".
Definition BackupModeMirrorPlusArchive : BackupMode := "mirror-plus-archive".
Definition BackupModeMirrorPlusFullArchive : BackupMode := "mirror-plus-full-archive".

Record ArchiveBlock := mkArchiveBlock { ArchiveBlock_Path : string; ArchiveBlock_Block : Block }.

Record SnapshotProtectionPlan := mkProtectionPlan {
  SnapshotProtectionPlan_Mode : BackupMode;
  SnapshotProtectionPlan_MirrorFiles : list string;
  SnapshotProtectionPlan_ArchiveBlocks : list ArchiveBlock
}.

Inductive BackupErr :=
| ErrMode (mode : string)
| ErrRootsEqual
| ErrMirrorInside
| ErrUnsafePath (rel : string)
| ErrCopy (rel : string)
| ErrDelete.

Definition archiveBlockKey (b : Block) : string := itoa (Block_Size b) +:+ ":" +:+ hex_encode (Block_Hash b).

(** One block of the nested loops: [skip] is the set of the keys the mirror
    satisfies; the state is the blocks so far and the keys seen. *)
Definition archiveStep (satisfied : gset string) (acc : list ArchiveBlock * gset string) (pb : string * Block)
    : list ArchiveBlock * gset string :=
  let key := archiveBlockKey pb.2 in
  if decide (key ∈ satisfied) then acc
  else if decide (key ∈ acc.2) then acc
  else (acc.1 ++ [mkArchiveBlock pb.1 pb.2], {[key]} ∪ acc.2).

Definition archiveAllBlocks (manifests : list Manifest) : list ArchiveBlock :=
  (foldl (archiveStep ∅) ([], ∅) (allBlocks manifests)).1.

Definition currentKeys (currentManifests : gmap string Manifest) : gset string :=
  list_to_set (m ← values currentManifests; archiveBlockKey <$> Manifest_Blocks m).

Definition archiveBlocksNotSatisfiedByMirror (manifests : list Manifest) (currentManifests : gmap string Manifest)
    : list ArchiveBlock :=
  (foldl (archiveStep (currentKeys currentManifests)) ([], ∅) (allBlocks manifests)).1.

Definition mirrorPaths (currentManifests : gmap string Manifest) (fallback : list Manifest) : list string :=
  if decide (size currentManifests = 0%nat) then Manifest_Path <$> fallback else sorted_keys currentManifests.

Definition PlanDestinationMode (mode : BackupMode) (snapshotManifests : list Manifest)
    (currentManifests : gmap string Manifest) : result BackupErr SnapshotProtectionPlan :=
  let sortedSnapshot := sort_by (last_key Manifest_Path str_lt) snapshotManifests in
  if decide (mode = BackupModeBlockArchiveOnly) then
    Ok (mkProtectionPlan mode [] (archiveAllBlocks sortedSnapshot))
  else if decide (mode = BackupModeMirrorPlusArchive) then
    Ok (mkProtectionPlan mode (mirrorPaths currentManifests sortedSnapshot)
          (archiveBlocksNotSatisfiedByMirror sortedSnapshot currentManifests))
  else if decide (mode = BackupModeMirrorPlusFullArchive) then
    Ok (mkProtectionPlan mode (mirrorPaths currentManifests sortedSnapshot) (archiveAllBlocks sortedSnapshot))
  else Err (ErrMode mode).

(** ** Mirror *)

Record MirrorUpdateResult := mkMirrorResult { MirrorUpdateResult_Copied : Z; MirrorUpdateResult_Deleted : Z }.

Abbreviation fileSystem := (gmap (list string) bytes).

Definition cleanMirrorRel (rel : string) : result BackupErr string :=
  if bool_decide (rel = EmptyString) || has_prefix rel "/" || contains_char rel "\"%char then Err (ErrUnsafePath rel)
  else
    let clean := path_clean rel in
    if bool_decide (clean = ".") || has_prefix clean "../" || bool_decide (clean = "..") then Err (ErrUnsafePath rel)
    else if bool_decide (clean = ".sync") || has_prefix clean ".sync/" then Err (ErrUnsafePath rel)
    else Ok clean.

(** The order in which [filepath.WalkDir] reaches files. *)
Fixpoint elems_lt (a b : list string) : bool :=
  match a, b with
  | _, [] => false
  | [], _ :: _ => true
  | x :: a', y :: b' => if str_lt x y then true else if str_lt y x then false else elems_lt a' b'
  end.

(** The path of a file relative to a root, as elements. *)
Fixpoint strip (root p : list string) : option (list string) :=
  match root, p with
  | [], _ => Some p
  | r :: root', x :: p' => if decide (r = x) then strip root' p' else None
  | _ :: _, [] => None
  end.

Section mirror.
(** The working directory, and which copies and removals the system refuses. *)
Context (cwd : string) (copyFault : string -> bool) (removeFault : list string -> bool).

Definition validateMirrorRoots (sourceRoot mirrorRoot : string) : result BackupErr unit :=
  if bool_decide (abs_elems cwd sourceRoot = abs_elems cwd mirrorRoot) then Err ErrRootsEqual
  else
    let rel := path_rel cwd sourceRoot mirrorRoot in
    if bool_decide (rel <> "..") && negb (has_prefix rel "../") && bool_decide (rel <> ".") then Err ErrMirrorInside
    else Ok tt.

Definition copyMirrorFile (sourceRoot mirrorRoot : string) (fs : fileSystem) (rel : string) : result BackupErr fileSystem :=
  match fs !! abs_elems cwd (path_join sourceRoot rel) with
  | None => Err (ErrCopy rel)
  | Some content =>
      if copyFault rel then Err (ErrCopy rel)
      else Ok (<[abs_elems cwd (path_join mirrorRoot rel) := content]> fs)
  end.

(** The copy loop: file system, wanted paths, count and error. *)
Fixpoint copyFiles (sourceRoot mirrorRoot : string) (paths : list string) (fs : fileSystem) (wanted : gset string)
    (copied : Z) : fileSystem * gset string * Z * option BackupErr :=
  match paths with
  | [] => (fs, wanted, copied, None)
  | rel :: paths' =>
      match cleanMirrorRel rel with
      | Err e => (fs, wanted, copied, Some e)
      | Ok clean =>
          match copyMirrorFile sourceRoot mirrorRoot fs clean with
          | Err e => (fs, wanted, copied, Some e)
          | Ok fs' => copyFiles sourceRoot mirrorRoot paths' fs' ({[clean]} ∪ wanted) (copied + 1)
          end
      end
  end.

(** The walk over the files below the mirror root. *)
Fixpoint deleteWalk (mirror : list string) (wanted : gset string) (paths : list (list string)) (fs : fileSystem)
    (deleted : Z) : fileSystem * Z * option BackupErr :=
  match paths with
  | [] => (fs, deleted, None)
  | p :: paths' =>
      match strip mirror p with
      | None | Some [] => deleteWalk mirror wanted paths' fs deleted
      | Some (e :: rest) =>
          if decide (e = ".sync") then deleteWalk mirror wanted paths' fs deleted
          else if decide (join "/" (e :: rest) ∈ wanted) then deleteWalk mirror wanted paths' fs deleted
          else if removeFault p then (fs, deleted, Some ErrDelete)
          else deleteWalk mirror wanted paths' (delete p fs) (deleted + 1)
      end
  end.

Definition deleteStaleMirrorFiles (mirrorRoot : string) (wanted : gset string) (fs : fileSystem)
    : fileSystem * Z * option BackupErr :=
  deleteWalk (abs_elems cwd mirrorRoot) wanted (sort_by elems_lt (map_to_list fs).*1) fs 0.

Definition ExecuteMirrorUpdate (sourceRoot mirrorRoot : string) (plan : SnapshotProtectionPlan) (fs : fileSystem)
    : fileSystem * MirrorUpdateResult * option BackupErr :=
  match SnapshotProtectionPlan_MirrorFiles plan with
  | [] => (fs, mkMirrorResult 0 0, None)
  | files =>
      match validateMirrorRoots sourceRoot mirrorRoot with
      | Err e => (fs, mkMirrorResult 0 0, Some e)
      | Ok _ =>
          match copyFiles sourceRoot mirrorRoot (sort_by str_lt files) fs ∅ 0 with
          | (fs1, _, copied, Some e) => (fs1, mkMirrorResult copied 0, Some e)
          | (fs1, wanted, copied, None) =>
              match deleteStaleMirrorFiles mirrorRoot wanted fs1 with
              | (fs2, _, Some e) => (fs2, mkMirrorResult copied 0, Some e)
              | (fs2, deleted, None) => (fs2, mkMirrorResult copied deleted, None)
              end
          end
      end
  end.
End mirror.

(** ** Properties *)

(** *** Coverage of a plan *)

Definition same_content (b b' : Block) : Prop := Block_Size b = Block_Size b' /\ Block_Hash b = Block_Hash b'.

Lemma archiveBlockKey_inj b b' : archiveBlockKey b = archiveBlockKey b' <-> same_content b b'.
Proof.
  unfold archiveBlockKey, same_content. split.
  - intros H. apply (sep_inj ":"%char) in H as [H1 H2]; [|by apply itoa_no_char..].
    split; [by apply itoa_inj|by apply hex_encode_inj].
  - by intros [-> ->].
Qed.

(** What the loop leaves: archived blocks come from the list, one per key, and
    the keys seen are exactly theirs. *)
Record archive_ok (satisfied : gset string) (seenBlocks : list (string * Block))
    (acc : list ArchiveBlock * gset string) : Prop := {
  archive_sound ab : ab ∈ acc.1 -> (ArchiveBlock_Path ab, ArchiveBlock_Block ab) ∈ seenBlocks;
  archive_keys k : k ∈ acc.2 <-> k ∈ (fun ab => archiveBlockKey (ArchiveBlock_Block ab)) <$> acc.1;
  archive_nodup : NoDup ((fun ab => archiveBlockKey (ArchiveBlock_Block ab)) <$> acc.1);
  archive_complete p b : (p, b) ∈ seenBlocks -> archiveBlockKey b ∈ satisfied \/ archiveBlockKey b ∈ acc.2;
  archive_minimal ab : ab ∈ acc.1 -> archiveBlockKey (ArchiveBlock_Block ab) ∉ satisfied
}.

Lemma archiveStep_ok satisfied seen acc pb :
  archive_ok satisfied seen acc -> archive_ok satisfied (seen ++ [pb]) (archiveStep satisfied acc pb).
Proof.
  intros [Hs Hk Hn Hc Hm]. unfold archiveStep. destruct pb as [p b]. cbn [fst snd].
  assert (forall ab, ab ∈ acc.1 -> (ArchiveBlock_Path ab, ArchiveBlock_Block ab) ∈ seen ++ [(p, b)]) as Hs'.
  { intros ab Hab. rewrite elem_of_app. left. by apply Hs. }
  case_decide as H1; [|case_decide as H2].
  - split; [done..| |done]. intros p' b' [Hin|Hin]%elem_of_app; [by eapply Hc|].
    apply list_elem_of_singleton in Hin as [= -> ->]. by left.
  - split; [done..| |done]. intros p' b' [Hin|Hin]%elem_of_app; [by eapply Hc|].
    apply list_elem_of_singleton in Hin as [= -> ->]. by right.
  - split; cbn [fst snd].
    + intros ab [Hab|Hab]%elem_of_app; [by apply Hs'|]. apply list_elem_of_singleton in Hab as ->.
      rewrite elem_of_app. right. by left.
    + intros k. rewrite elem_of_union, elem_of_singleton, fmap_app, elem_of_app, Hk.
      cbn. rewrite list_elem_of_singleton. tauto.
    + rewrite fmap_app. apply NoDup_app. split; [done|]. cbn. split; [|by apply NoDup_singleton].
      intros k Hin ->%list_elem_of_singleton. apply H2. by apply Hk.
    + intros p' b' [Hin|Hin]%elem_of_app.
      * destruct (Hc p' b' Hin); [by left|]. right. apply elem_of_union. by right.
      * apply list_elem_of_singleton in Hin as [= -> ->]. right. apply elem_of_union. left. by apply elem_of_singleton.
    + intros ab [Hab|Hab]%elem_of_app; [by apply Hm|]. by apply list_elem_of_singleton in Hab as ->.
Qed.

Lemma archive_fold_ok satisfied l seen acc :
  archive_ok satisfied seen acc -> archive_ok satisfied (seen ++ l) (foldl (archiveStep satisfied) acc l).
Proof.
  revert seen acc. induction l as [|pb l IH]; intros seen acc H; [by rewrite app_nil_r|].
  cbn [foldl]. replace (seen ++ pb :: l) with ((seen ++ [pb]) ++ l) by by rewrite <- app_assoc.
  apply IH. by apply archiveStep_ok.
Qed.

Lemma archive_ok_all satisfied manifests :
  archive_ok satisfied (allBlocks manifests) (foldl (archiveStep satisfied) ([], ∅) (allBlocks manifests)).
Proof.
  apply (archive_fold_ok satisfied (allBlocks manifests) [] ([], ∅)). split; cbn [fst snd].
  - intros ab H. by apply elem_of_nil in H.
  - intros k. split; [by intros H%elem_of_empty|]. intros H. by apply elem_of_nil in H.
  - constructor.
  - intros p b H. by apply elem_of_nil in H.
  - intros ab H. by apply elem_of_nil in H.
Qed.

Lemma elem_of_currentKeys cur k :
  k ∈ currentKeys cur <-> exists p m b, cur !! p = Some m /\ b ∈ Manifest_Blocks m /\ archiveBlockKey b = k.
Proof.
  unfold currentKeys, values. rewrite elem_of_list_to_set, list_elem_of_bind. split.
  - intros (m & (b & -> & Hb)%list_elem_of_fmap & ([p m'] & -> & Hin%elem_of_map_to_list)%list_elem_of_fmap).
    by exists p, m', b.
  - intros (p & m & b & Hm & Hb & <-). exists m. split; [apply list_elem_of_fmap; by exists b|].
    apply list_elem_of_fmap. exists (p, m). split; [done|]. by apply elem_of_map_to_list.
Qed.

(** A block's content is in the archive part of a plan, or in a mirrored file. *)
Definition archived (plan : SnapshotProtectionPlan) (b : Block) : Prop :=
  exists ab, ab ∈ SnapshotProtectionPlan_ArchiveBlocks plan /\ same_content (ArchiveBlock_Block ab) b.

Definition mirrored (plan : SnapshotProtectionPlan) (cur : gmap string Manifest) (b : Block) : Prop :=
  exists p m b', cur !! p = Some m /\ p ∈ SnapshotProtectionPlan_MirrorFiles plan /\
    b' ∈ Manifest_Blocks m /\ same_content b' b.

Lemma mirrorPaths_current cur fallback p m : cur !! p = Some m -> p ∈ mirrorPaths cur fallback.
Proof.
  intros Hp. unfold mirrorPaths. case_decide as Hs.
  - apply map_size_empty_iff in Hs. subst cur. by rewrite lookup_empty in Hp.
  - unfold sorted_keys, keys. rewrite elem_of_sort_by. apply list_elem_of_fmap. exists (p, m).
    split; [done|]. by apply elem_of_map_to_list.
Qed.

(** A backup plan protects the whole snapshot: the content of every block
    of every snapshot manifest is in the blocks to archive, or - in the
    mirror-plus-archive mode only - in a current file that the plan mirrors;
    nothing that is not in the snapshot is archived, no content is archived
    twice, and unknown modes are refused. *)
Theorem PlanDestinationMode_covers mode snapshotManifests cur plan :
  PlanDestinationMode mode snapshotManifests cur = Ok plan ->
  (forall m b, m ∈ snapshotManifests -> b ∈ Manifest_Blocks m ->
     archived plan b \/ (mode = BackupModeMirrorPlusArchive /\ mirrored plan cur b)) /\
  (forall ab, ab ∈ SnapshotProtectionPlan_ArchiveBlocks plan ->
     exists m, m ∈ snapshotManifests /\ Manifest_Path m = ArchiveBlock_Path ab /\
       ArchiveBlock_Block ab ∈ Manifest_Blocks m) /\
  NoDup ((fun ab => archiveBlockKey (ArchiveBlock_Block ab)) <$> SnapshotProtectionPlan_ArchiveBlocks plan) /\
  mode ∈ [BackupModeBlockArchiveOnly; BackupModeMirrorPlusArchive; BackupModeMirrorPlusFullArchive].
Proof.
  unfold PlanDestinationMode. set (snap := sort_by _ snapshotManifests).
  assert (forall m, m ∈ snap <-> m ∈ snapshotManifests) as Hsnap by (intros m; apply elem_of_sort_by).
  assert (forall satisfied plan0,
    SnapshotProtectionPlan_ArchiveBlocks plan0 = (foldl (archiveStep satisfied) ([], ∅) (allBlocks snap)).1 ->
    (forall m b, m ∈ snapshotManifests -> b ∈ Manifest_Blocks m ->
       archived plan0 b \/ archiveBlockKey b ∈ satisfied) /\
    (forall ab, ab ∈ SnapshotProtectionPlan_ArchiveBlocks plan0 ->
       exists m, m ∈ snapshotManifests /\ Manifest_Path m = ArchiveBlock_Path ab /\
         ArchiveBlock_Block ab ∈ Manifest_Blocks m) /\
    NoDup ((fun ab => archiveBlockKey (ArchiveBlock_Block ab)) <$> SnapshotProtectionPlan_ArchiveBlocks plan0)) as Hgen.
  { intros satisfied plan0 Hp. destruct (archive_ok_all satisfied snap) as [Hs Hk Hn Hc _]. rewrite <- Hp in Hs, Hk, Hn.
    split_and!; [| |done].
    - intros m b Hm Hb. destruct (Hc (Manifest_Path m) b) as [?|Hin]; [|by right|].
      { apply elem_of_allBlocks. exists m. by rewrite Hsnap. }
      left. apply Hk, list_elem_of_fmap in Hin as (ab & Hkey & Hab). exists ab. split; [done|].
      by apply archiveBlockKey_inj.
    - intros ab (m & Hm & Hpath & Hb)%Hs%elem_of_allBlocks. exists m. by rewrite <- Hsnap. }
  repeat case_decide; intros [= <-].
  - subst mode. destruct (Hgen ∅ (mkProtectionPlan BackupModeBlockArchiveOnly [] (archiveAllBlocks snap)) eq_refl) as (H1 & H2 & H3).
    split_and!; [|done|done|by left]. intros m b Hm Hb. left. by destruct (H1 m b Hm Hb) as [?|?%elem_of_empty].
  - subst mode. set (plan := mkProtectionPlan _ _ _). destruct (Hgen (currentKeys cur) plan eq_refl) as (H1 & H2 & H3).
    split_and!; [|done|done|right; by left]. intros m b Hm Hb. destruct (H1 m b Hm Hb) as [?|Hk]; [by left|right].
    split; [done|]. apply elem_of_currentKeys in Hk as (p & m' & b' & Hp & Hb' & Hkey).
    exists p, m', b'. split_and!; [done|by eapply mirrorPaths_current|done|by apply archiveBlockKey_inj].
  - subst mode. set (plan := mkProtectionPlan _ _ _). destruct (Hgen ∅ plan eq_refl) as (H1 & H2 & H3).
    split_and!; [|done|done|right; right; by left]. intros m b Hm Hb. left.
    by destruct (H1 m b Hm Hb) as [?|?%elem_of_empty].
Qed.

Definition demo_file (p : string) (h : byte) : Manifest := mkManifest p 1 4 [mkBlock 0 0 1 [h]] "complete" false 0 0 0 0.

Lemma PlanDestinationMode_covers_witness :
  let snap := [demo_file "a" Byte.x61; demo_file "b" Byte.x62] in
  let cur := {["a" := demo_file "a" Byte.x61]} in
  exists plan, PlanDestinationMode BackupModeMirrorPlusArchive snap cur = Ok plan /\
    (archived plan (mkBlock 0 0 1 [Byte.x62]) \/ mirrored plan cur (mkBlock 0 0 1 [Byte.x62])).
Proof.
  intros snap cur. eexists. split; [reflexivity|].
  destruct (PlanDestinationMode_covers BackupModeMirrorPlusArchive snap cur _ eq_refl) as [H _].
  destruct (H (demo_file "b" Byte.x62) (mkBlock 0 0 1 [Byte.x62])) as [?|[_ ?]];
    [right; by left|by left|by left|by right].
Defined.

(** *** The mirror *)

Lemma strip_app root e : strip root (root ++ e) = Some e.
Proof. induction root as [|r root IH]; [by destruct e|]. simpl. by rewrite decide_True. Qed.

Lemma strip_Some root p e : strip root p = Some e -> p = root ++ e.
Proof.
  revert p. induction root as [|r root IH]; intros p; [by destruct p; intros [= <-]|].
  destruct p as [|x p]; [done|]. simpl. case_decide as H; [|done]. intros ->%IH. by rewrite H.
Qed.

(** The elements of a path a mirror may hold. *)
Definition mirror_elems (e : list string) : Prop := e <> [] /\ Forall elem_ok e /\ head e <> Some ".sync".

Lemma cleanMirrorRel_ok rel clean :
  cleanMirrorRel rel = Ok clean -> exists e, mirror_elems e /\ clean = join "/" e.
Proof.
  unfold cleanMirrorRel. destruct (bool_decide _ || _ || _) eqn:E1; [done|].
  destruct (bool_decide _ || _ || _) eqn:E2 in |- *; [done|].
  destruct (bool_decide _ || _) eqn:E3 in |- *; [done|]. intros [= <-].
  rewrite !orb_false_iff in E1, E2. rewrite orb_false_iff in E3.
  destruct E1 as [[_ Hroot] _], E2 as [[Hdot Hup] Hupp], E3 as [Hs1 Hs2].
  apply bool_decide_eq_false in Hdot, Hupp, Hs1.
  destruct (path_clean_inside rel Hroot Hdot Hupp Hup) as (l & Hne & Hl & _ & Hj).
  exists l. split; [|done]. split_and!; [done|done|]. destruct l as [|x l]; [done|]. intros [= ->].
  rewrite Hj in Hs1, Hs2. destruct l as [|y l]; [done|].
  change (has_prefix (".sync/" +:+ join "/" (y :: l)) ".sync/" = false) in Hs2. by rewrite has_prefix_app in Hs2.
Qed.

Section mirror_proofs.
Context (cwd : string) (copyFault : string -> bool) (removeFault : list string -> bool).
Context (Hcwd : has_prefix cwd "/" = true).
Context (sourceRoot mirrorRoot : string).
Let S_ := abs_elems cwd sourceRoot.
Let M_ := abs_elems cwd mirrorRoot.
(** The validation establishes the first; the second is what it misses (see
    [mirror_above_source]). *)
Context (HSM : ~ S_ `prefix_of` M_) (HMS : ~ M_ `prefix_of` S_).

Lemma cwd_nonempty : cwd <> EmptyString.
Proof. intros H. by rewrite H in Hcwd. Qed.

Lemma source_not_mirror e e' : S_ ++ e <> M_ ++ e'.
Proof.
  intros H. destruct (prefix_weak_total S_ M_ (S_ ++ e)) as [?|?]; [by apply prefix_app_r| |by apply HSM|by apply HMS].
  rewrite H. by apply prefix_app_r.
Qed.

(** The file system after some copies, from what it was before. *)
Record copies_of (fs : fileSystem) (wanted : gset string) (fs' : fileSystem) : Prop := {
  copies_other p : ~ M_ `prefix_of` p -> fs' !! p = fs !! p;
  copies_wanted w : w ∈ wanted -> exists e, mirror_elems e /\ w = join "/" e;
  copies_in e : mirror_elems e -> join "/" e ∈ wanted ->
    is_Some (fs !! (S_ ++ e)) /\ fs' !! (M_ ++ e) = fs !! (S_ ++ e);
  copies_out e : ~ (mirror_elems e /\ join "/" e ∈ wanted) -> fs' !! (M_ ++ e) = fs !! (M_ ++ e)
}.

Lemma copyMirrorFile_copies fs0 wanted fs fs' e :
  mirror_elems e -> copies_of fs0 wanted fs ->
  copyMirrorFile cwd copyFault sourceRoot mirrorRoot fs (join "/" e) = Ok fs' ->
  copies_of fs0 ({[join "/" e]} ∪ wanted) fs'.
Proof.
  intros (Hne & Hok & Hsync) [Ho Hw Hi Hout]. unfold copyMirrorFile.
  rewrite !abs_elems_join by (done || apply cwd_nonempty). fold S_ M_.
  destruct (fs !! (S_ ++ e)) as [content|] eqn:Esrc; [|done]. destruct (copyFault _); [done|]. intros [= <-].
  assert (fs0 !! (S_ ++ e) = Some content) as Esrc0.
  { rewrite <- Ho; [done|]. intros [k Hk]. by apply (source_not_mirror e k). }
  split.
  - intros p Hp. rewrite lookup_insert_ne; [by apply Ho|]. intros <-. apply Hp. by apply prefix_app_r.
  - intros w [->%elem_of_singleton|Hin]%elem_of_union; [by exists e|by apply Hw].
  - intros e' He' Hin. destruct (decide (e' = e)) as [->|Hee].
    + split; [by eexists|]. by rewrite lookup_insert_eq, Esrc0.
    + rewrite lookup_insert_ne by (intros Heq; apply app_inv_head in Heq; congruence). apply Hi; [done|].
      apply elem_of_union in Hin as [Hin|?]; [|done]. apply elem_of_singleton in Hin.
      destruct He' as (Hne' & Hok' & _). by apply join_inj in Hin.
  - intros e' Hn. rewrite lookup_insert_ne; [apply Hout|].
    + intros [H1 H2]. apply Hn. split; [done|]. apply elem_of_union. by right.
    + intros Heq. apply app_inv_head in Heq as <-. apply Hn. split; [done|].
      apply elem_of_union. left. by apply elem_of_singleton.
Qed.

Lemma copyFiles_copies paths fs0 wanted fs copied fs' wanted' copied' err :
  copies_of fs0 wanted fs ->
  copyFiles cwd copyFault sourceRoot mirrorRoot paths fs wanted copied = (fs', wanted', copied', err) ->
  copies_of fs0 wanted' fs' /\
  (forall w, w ∈ wanted' -> w ∈ wanted \/ exists rel, rel ∈ paths /\ cleanMirrorRel rel = Ok w) /\
  (err = None -> (forall w, w ∈ wanted -> w ∈ wanted') /\
     forall rel, rel ∈ paths -> exists w, cleanMirrorRel rel = Ok w /\ w ∈ wanted').
Proof.
  revert wanted fs copied. induction paths as [|rel paths IH]; intros wanted fs copied Hc; cbn [copyFiles].
  { intros [= <- <- _ <-]. split; [done|]. split; [by left|]. intros _. split; [done|]. by intros rel Hr%elem_of_nil. }
  destruct (cleanMirrorRel rel) as [clean|e] eqn:Ecl.
  2:{ intros [= <- <- _ <-]. split; [done|]. split; [by left|done]. }
  destruct (cleanMirrorRel_ok _ _ Ecl) as (e & He & ->).
  destruct (copyMirrorFile _ _ _ _ _ _) as [fs1|er] eqn:Ecp.
  2:{ intros [= <- <- _ <-]. split; [done|]. split; [by left|done]. }
  intros H. apply IH in H as (Hc' & Hw' & Hok'); [|by eapply copyMirrorFile_copies].
  split; [done|]. split.
  - intros w Hin. destruct (Hw' w Hin) as [[->%elem_of_singleton|?]%elem_of_union|(rel' & ? & ?)].
    + right. exists rel. split; [by left|done].
    + by left.
    + right. exists rel'. split; [by right|done].
  - intros Herr. destruct (Hok' Herr) as [Hsub Hall]. split.
    + intros w Hw. apply Hsub, elem_of_union. by right.
    + intros r [->|Hr]%elem_of_cons; [|by apply Hall]. exists (join "/" e). split; [done|].
      apply Hsub, elem_of_union. left. by apply elem_of_singleton.
Qed.

(** The files a walk removes. *)
Definition stale (wanted : gset string) (p : list string) : Prop :=
  exists e rest, p = M_ ++ e :: rest /\ e <> ".sync" /\ join "/" (e :: rest) ∉ wanted.

Lemma deleteWalk_spec wanted paths fs deleted fs' deleted' err :
  deleteWalk removeFault M_ wanted paths fs deleted = (fs', deleted', err) ->
  (forall p, ~ stale wanted p -> fs' !! p = fs !! p) /\
  (forall p, fs' !! p = fs !! p \/ fs' !! p = None) /\
  (err = None -> forall p, p ∈ paths -> stale wanted p -> fs' !! p = None).
Proof.
  revert fs deleted. induction paths as [|p paths IH]; intros fs deleted; cbn [deleteWalk].
  { intros [= <- <- <-]. split; [done|]. split; [by left|]. by intros _ p Hp%elem_of_nil. }
  assert (~ stale wanted p -> deleteWalk removeFault M_ wanted paths fs deleted = (fs', deleted', err) ->
    (forall p, ~ stale wanted p -> fs' !! p = fs !! p) /\ (forall p, fs' !! p = fs !! p \/ fs' !! p = None) /\
    (err = None -> forall q, q ∈ p :: paths -> stale wanted q -> fs' !! q = None)) as Hskip.
  { intros Hn H. apply IH in H as (H1 & H2 & H3). split; [done|]. split; [done|].
    intros He q [->|Hq]%elem_of_cons Hst; [done|]. by apply H3. }
  destruct (strip M_ p) as [[|e rest]|] eqn:Es.
  - apply Hskip. intros (e & rest & -> & _). rewrite strip_app in Es. done.
  - apply strip_Some in Es as ->. destruct (decide (e = ".sync")) as [->|Hs].
    { apply Hskip. intros (e' & rest' & Heq & Hn & _). apply app_inv_head in Heq. congruence. }
    case_decide as Hw.
    { apply Hskip. intros (e' & rest' & Heq & _ & Hn). apply app_inv_head in Heq. injection Heq as <- <-. done. }
    assert (stale wanted (M_ ++ e :: rest)) as Hst by by exists e, rest.
    destruct (removeFault _).
    { intros [= <- _ <-]. split; [done|]. split; [by left|done]. }
    intros H. apply IH in H as (H1 & H2 & H3). split_and!.
    + intros p Hn. rewrite H1 by done. apply lookup_delete_ne. by intros <-.
    + intros p. destruct (H2 p) as [Hp|?]; [|by right]. rewrite Hp, lookup_delete. case_decide; [by right|by left].
    + intros He q [->|Hq]%elem_of_cons Hq'; [|by apply H3].
      destruct (H2 (M_ ++ e :: rest)) as [Hp|?]; [|done]. by rewrite Hp, lookup_delete_eq.
  - apply Hskip. intros (e & rest & -> & _). by rewrite strip_app in Es.
Qed.

(** A path of the mirror that the plan wants. *)
Definition wants (plan : SnapshotProtectionPlan) (e : list string) : Prop :=
  exists rel, rel ∈ SnapshotProtectionPlan_MirrorFiles plan /\ cleanMirrorRel rel = Ok (join "/" e).

Lemma ExecuteMirrorUpdate_run plan fs fs' res err :
  ExecuteMirrorUpdate cwd copyFault removeFault sourceRoot mirrorRoot plan fs = (fs', res, err) ->
  (fs' = fs /\ (err = None -> SnapshotProtectionPlan_MirrorFiles plan = [])) \/
  exists wanted fs1, copies_of fs wanted fs1 /\
    (forall w, w ∈ wanted -> exists rel, rel ∈ SnapshotProtectionPlan_MirrorFiles plan /\ cleanMirrorRel rel = Ok w) /\
    ((fs' = fs1 /\ err <> None) \/
     ((forall rel, rel ∈ SnapshotProtectionPlan_MirrorFiles plan -> exists w, cleanMirrorRel rel = Ok w /\ w ∈ wanted) /\
      exists paths deleted, (forall p, is_Some (fs1 !! p) -> p ∈ paths) /\
        deleteWalk removeFault M_ wanted paths fs1 0 = (fs', deleted, err))).
Proof.
  unfold ExecuteMirrorUpdate. destruct (SnapshotProtectionPlan_MirrorFiles plan) as [|f files] eqn:Ef.
  { intros [= <- _ <-]. by left. }
  destruct (validateMirrorRoots _ _ _); [|intros [= <- _ <-]; by left].
  destruct (copyFiles _ _ _ _ _ _ _ _) as [[[fs1 wanted] copied] e1] eqn:Ec.
  assert (copies_of fs ∅ fs) as H0.
  { split; [done|by intros w Hw%elem_of_empty|by intros e _ Hw%elem_of_empty|done]. }
  destruct (copyFiles_copies _ _ _ _ _ _ _ _ _ H0 Ec) as (Hc & Hw & Hok).
  assert (forall w, w ∈ wanted -> exists rel, rel ∈ f :: files /\ cleanMirrorRel rel = Ok w) as Hw'.
  { intros w Hin. destruct (Hw w Hin) as [?%elem_of_empty|(rel & Hr & Hcl)]; [done|].
    exists rel. split; [|done]. by rewrite elem_of_sort_by in Hr. }
  intros H. right. exists wanted, fs1. split; [done|]. split; [done|]. destruct e1 as [e1|].
  { injection H as <- _ <-. by left. }
  right. split.
  { intros rel Hr. apply (proj2 (Hok eq_refl)). by rewrite elem_of_sort_by. }
  unfold deleteStaleMirrorFiles in H. fold M_ in H.
  destruct (deleteWalk _ _ _ _ _ _) as [[fs2 deleted] e2] eqn:Ed.
  exists (sort_by elems_lt (map_to_list fs1).*1), deleted. split.
  - intros p [c Hp]. rewrite elem_of_sort_by. apply list_elem_of_fmap. exists (p, c).
    split; [done|]. by apply elem_of_map_to_list.
  - rewrite Ed. by destruct e2; injection H as <- _ <-.
Qed.

End mirror_proofs.

Definition demo_fs : fileSystem :=
  {[ ["data"; "a"] := [Byte.x61]; ["mirror"; "a"] := [Byte.x62]; ["mirror"; "old"] := [Byte.x63] ]}.
Definition demo_plan : SnapshotProtectionPlan := mkProtectionPlan BackupModeMirrorPlusArchive ["a"] [].


(** A plan without files reports success and leaves the stale files where they are. *)
Example empty_mirror_plan :
  let fs : fileSystem := {[ ["mirror"; "old"] := [Byte.x61] ]} in
  let r := ExecuteMirrorUpdate "/" (fun _ => false) (fun _ => false) "/data" "/mirror" (mkProtectionPlan BackupModeMirrorPlusArchive [] []) fs in
  r.2 = None /\ r.1.1 !! ["mirror"; "old"] = Some [Byte.x61].
Proof. vm_compute. by split. Qed.

(** The validation refuses a mirror inside the source, but not a source inside
    the mirror: there the removal of stale files removes the source itself. *)
Example mirror_above_source :
  let fs : fileSystem := {[ ["data"; "docs"; "a"] := [Byte.x61]; ["data"; "docs"; "b"] := [Byte.x62] ]} in
  let r := ExecuteMirrorUpdate "/" (fun _ => false) (fun _ => false) "/data/docs" "/data"
             (mkProtectionPlan BackupModeMirrorPlusArchive ["a"; "b"] []) fs in
  r.2 = None /\ r.1.1 !! ["data"; "docs"; "a"] = None /\ r.1.1 !! ["data"; "a"] = Some [Byte.x61].
Proof. vm_compute. by split_and!. Qed.
