(* ===== verification/Scheduling.v ===== *)
(** * Scheduling and pacing

    Models [internal/scheduler/scheduler.go] (which folders are due for a
    scan), [internal/daemonloop/schedule.go] (recurring daemon work),
    [internal/ratelimit/limiter.go] (bandwidth caps),
    [internal/linkstats/tracker.go] (transfer statistics) and the name test of
    [internal/recovery/recovery.go].  Times and durations are nanoseconds. *)

From S2P Require Import Prelude GoStd.
From Stdlib Require Import Ascii.

Local Open Scope Z_scope.

Definition second : Z := 10 ^ 9.

(** ** scheduler *)

Record folderState := mkFolderState { lastScan : Z; lastEvent : Z; pending : bool }.

Record Scheduler := mkScheduler {
  eventDebounce : Z;
  fallbackInterval : Z;
  folders : gmap string folderState
}.

Definition New (debounce fallback : Z) : Scheduler :=
  mkScheduler (if debounce <=? 0 then 500 * 10 ^ 6 else debounce)
    (if fallback <=? 0 then 60 * second else fallback) ∅.

(** [lastEvent] of a folder without event is the zero time; it is read only
    when an event is pending. *)
Definition AddFolder (s : Scheduler) (id : string) (now : Z) : Scheduler :=
  match folders s !! id with
  | Some _ => s
  | None => mkScheduler (eventDebounce s) (fallbackInterval s) (<[id := mkFolderState now 0 false]> (folders s))
  end.

Definition RemoveFolder (s : Scheduler) (id : string) : Scheduler :=
  mkScheduler (eventDebounce s) (fallbackInterval s) (delete id (folders s)).

Definition Notify (s : Scheduler) (id : string) (at_ : Z) : Scheduler :=
  let st := default (mkFolderState at_ 0 false) (folders s !! id) in
  mkScheduler (eventDebounce s) (fallbackInterval s) (<[id := mkFolderState (lastScan st) at_ true]> (folders s)).

Definition folderDue (s : Scheduler) (now : Z) (st : folderState) : bool :=
  (pending st && (lastEvent st + eventDebounce s <=? now)) || (lastScan st + fallbackInterval s <=? now).

Definition Due (s : Scheduler) (now : Z) : Scheduler * list string :=
  let ids := sort_by str_lt (List.filter (fun id => match folders s !! id with
                                                    | Some st => folderDue s now st
                                                    | None => false
                                                    end) ((map_to_list (folders s)).*1)) in
  (mkScheduler (eventDebounce s) (fallbackInterval s)
     (foldl (fun m id => alter (fun st => mkFolderState now (lastEvent st) false) id m) (folders s) ids), ids).

(** ** daemonloop *)

Record PollSchedule := mkPollSchedule { nextDiscovery : Z; nextMetadata : Z }.

Definition DiscoveryDue (s : PollSchedule) (now interval : Z) : PollSchedule * bool :=
  if now <? nextDiscovery s then (s, false) else (mkPollSchedule (now + interval) (nextMetadata s), true).

Definition MetadataDue (s : PollSchedule) (now interval : Z) : PollSchedule * bool :=
  if now <? nextMetadata s then (s, false) else (mkPollSchedule (nextDiscovery s) (now + interval), true).

(** The callbacks act on a world; a nil callback does nothing. *)
Definition RunDueWork {W} (discovery metadata : option (W -> W)) (discoveryInterval metadataInterval : Z)
    (s : PollSchedule) (now : Z) (w : W) : PollSchedule * (bool * bool) * W :=
  let '(s1, d) := DiscoveryDue s now discoveryInterval in
  let w1 := if d then match discovery with Some f => f w | None => w end else w in
  let '(s2, m) := MetadataDue s1 now metadataInterval in
  let w2 := if m then match metadata with Some f => f w1 | None => w1 end else w1 in
  (s2, (d, m), w2).

(** ** ratelimit *)

Record Limiter := mkLimiter { bytesPerSecond : Z; transferred : Z }.

(** The limiter after recording [n] bytes and how long Wait sleeps; [elapsed]
    is what the clock says.  [time.Duration(transferred) * time.Second] is a
    64-bit product; the division truncates towards zero. *)
Definition Wait (l : Limiter) (n elapsed : Z) : Limiter * Z :=
  if (bytesPerSecond l <=? 0) || (n <=? 0) then (l, 0)
  else
    let total := i64 (transferred l + n) in
    let wantElapsed := Z.quot (i64 (total * second)) (bytesPerSecond l) in
    let remaining := i64 (wantElapsed - elapsed) in
    (mkLimiter (bytesPerSecond l) total, if remaining <=? 0 then 0 else remaining).

(** ** linkstats *)

Definition averageWindow : Z := 30 * second.

Record Sample := mkSample { Sample_AverageBytesPerSecond : Z; Sample_PendingBytes : Z }.
Record observation := mkObservation { obs_at : Z; obs_bytes : Z }.
Record peerStats := mkPeerStats { ps_pending : Z; ps_samples : list observation }.

Definition recent (now : Z) (o : observation) : bool := now - averageWindow <=? obs_at o.

Definition prune (now : Z) (p : peerStats) : peerStats :=
  mkPeerStats (ps_pending p) (List.filter (recent now) (ps_samples p)).

(** A tracker is its map of peers; [now] is the clock of the call. *)
Definition AddTransferred (t : gmap string peerStats) (peerID : string) (n now : Z) : gmap string peerStats :=
  if bool_decide (peerID = EmptyString) || (n <=? 0) then t
  else
    let p := default (mkPeerStats 0 []) (t !! peerID) in
    <[peerID := prune now (mkPeerStats (if n <? ps_pending p then ps_pending p - n else 0)
                             (ps_samples p ++ [mkObservation now n]))]> t.

Definition SetPending (t : gmap string peerStats) (peerID : string) (n : Z) : gmap string peerStats :=
  if bool_decide (peerID = EmptyString) then t
  else
    let p := default (mkPeerStats 0 []) (t !! peerID) in
    <[peerID := mkPeerStats (if n <? 0 then 0 else n) (ps_samples p)]> t.

Definition sumBytes (l : list observation) : Z := foldl (fun acc o => i64 (acc + obs_bytes o)) 0 l.

Definition average (now : Z) (p : peerStats) : Z :=
  let sum := sumBytes (List.filter (recent now) (ps_samples p)) in
  if sum =? 0 then 0 else Z.quot sum (averageWindow / second).

Definition GetSample (t : gmap string peerStats) (peerID : string) (now : Z) : gmap string peerStats * Sample :=
  match t !! peerID with
  | None => (t, mkSample 0 0)
  | Some p =>
      if bool_decide (peerID = EmptyString) then (t, mkSample 0 0)
      else (<[peerID := prune now p]> t, mkSample (average now (prune now p)) (ps_pending p))
  end.

Definition TotalSample (t : gmap string peerStats) (now : Z) : gmap string peerStats * Sample :=
  let pruned := prune now <$> t in
  (pruned,
   foldl (fun total p => mkSample (i64 (Sample_AverageBytesPerSecond total + average now p))
                           (i64 (Sample_PendingBytes total + ps_pending p)))
     (mkSample 0 0) ((map_to_list pruned).*2)).

(** ** recovery *)

(** The part after the last dot, and the position of that dot. *)
Fixpoint last_dot (i : nat) (s : string) (best : option nat) : option nat :=
  match s with
  | EmptyString => best
  | String c s' => last_dot (S i) s' (if bool_decide (c = "."%char) then Some i else best)
  end.

Definition is_digit (c : ascii) : bool :=
  let n := N_of_ascii c in (48 <=? n)%N && (n <=? 57)%N.

Definition isApplyStagingName (name : string) : bool :=
  if negb (has_prefix name ".") || negb (has_suffix name ".staging") then false
  else
    let trimmed := trim_suffix name ".staging" in
    match last_dot 0 trimmed None with
    | None => false
    | Some lastDot =>
        if (lastDot <? 1)%nat || (lastDot =? String.length trimmed - 1)%nat then false
        else forallb_str is_digit (drop_str (S lastDot) trimmed)
    end.

Definition IsInterruptedTempName (name : string) : bool :=
  isApplyStagingName name || has_suffix name ".fse-peer-tmp" || has_suffix name ".fse-stream-tmp".

(** ** Properties *)

(** *** Due *)

Lemma due_updates (m : gmap string folderState) ids f id :
  NoDup ids ->
  foldl (fun m id => alter f id m) m ids !! id = if decide (id ∈ ids) then f <$> m !! id else m !! id.
Proof.
  revert m. induction ids as [|x ids IH]; intros m Hnd; [done|]. apply NoDup_cons in Hnd as [Hx Hnd]. cbn [foldl].
  rewrite IH by done. destruct (decide (id = x)) as [->|Hne].
  - rewrite decide_False by done. rewrite decide_True by (by left). apply lookup_alter_eq.
  - rewrite lookup_alter_ne by done. destruct (decide (id ∈ ids)).
    + rewrite decide_True by (by right). done.
    + rewrite decide_False; [done|]. by rewrite not_elem_of_cons.
Qed.

Lemma Due_spec s now :
  (forall id, id ∈ (Due s now).2 <-> exists st, folders s !! id = Some st /\ folderDue s now st = true) /\
  (forall id, folders (Due s now).1 !! id =
     match folders s !! id with
     | Some st => Some (if folderDue s now st then mkFolderState now (lastEvent st) false else st)
     | None => None
     end).
Proof.
  assert (forall id, id ∈ (Due s now).2 <-> exists st, folders s !! id = Some st /\ folderDue s now st = true) as Hin.
  { intros id. unfold Due. cbn [snd].
    rewrite elem_of_sort_by, list_elem_of_In, filter_In, <- list_elem_of_In. split.
    - intros [_ H]. destruct (folders s !! id) as [st|]; [by exists st|done].
    - intros (st & Hst & Hd). rewrite Hst. split; [|done]. apply list_elem_of_fmap. exists (id, st).
      split; [done|]. by apply elem_of_map_to_list. }
  split; [done|]. intros id. unfold Due in *. cbn [fst snd folders] in *.
  set (ids := sort_by _ _) in *. rewrite due_updates.
  - case_decide as Hid.
    + apply Hin in Hid as (st & Hst & Hd). rewrite Hst, Hd. done.
    + destruct (folders s !! id) as [st|] eqn:Hst; [|done].
      destruct (folderDue s now st) eqn:Hd; [|done]. exfalso. apply Hid, Hin. by exists st.
  - unfold ids. rewrite sort_by_perm. eapply sublist_NoDup; [|apply filter_sublist]; apply NoDup_fst_map_to_list.
Qed.

(** *** No event is lost *)

Inductive schedOp :=
| OpAdd (id : string) (now : Z)
| OpRemove (id : string)
| OpNotify (id : string) (now : Z)
| OpDue (now : Z).

(** The scheduler and everything Due returned so far. *)
Definition sched_step (st : Scheduler * list string) (op : schedOp) : Scheduler * list string :=
  let '(s, out) := st in
  match op with
  | OpAdd id now => (AddFolder s id now, out)
  | OpRemove id => (RemoveFolder s id, out)
  | OpNotify id now => (Notify s id now, out)
  | OpDue now => let '(s', ids) := Due s now in (s', out ++ ids)
  end.

Definition sched_run (s : Scheduler) (ops : list schedOp) : Scheduler * list string := foldl sched_step (s, []) ops.

(** The latest event of a folder up to a time bound, and that it stays. *)
Definition op_time (op : schedOp) : option Z :=
  match op with OpAdd _ now | OpNotify _ now | OpDue now => Some now | OpRemove _ => None end.

Definition waiting (s : Scheduler) (id : string) (t : Z) : Prop :=
  exists st, folders s !! id = Some st /\ pending st = true /\ lastEvent st <= t.

Lemma sched_step_waiting s out op id t :
  (forall now, op_time op = Some now -> now <= t) -> op <> OpRemove id -> waiting s id t ->
  (waiting (sched_step (s, out) op).1 id t /\ (sched_step (s, out) op).2 = out) \/
  (waiting (sched_step (s, out) op).1 id t /\ exists ids, (sched_step (s, out) op).2 = out ++ ids) \/
  (exists ids, (sched_step (s, out) op).2 = out ++ ids /\ id ∈ ids).
Proof.
  intros Ht Hrm (st & Hst & Hp & Hle). destruct op as [x now|x|x now|now]; cbn [sched_step fst snd].
  - left. split; [|done]. exists st. unfold AddFolder. destruct (folders s !! x) eqn:E; [done|]. cbn.
    rewrite lookup_insert_ne by congruence. done.
  - left. split; [|done]. exists st. cbn. rewrite lookup_delete_ne by congruence. done.
  - left. split; [|done]. unfold Notify, waiting. cbn. destruct (decide (x = id)) as [->|Hne].
    + rewrite lookup_insert_eq. eexists. split; [done|]. split; [done|]. cbn. by apply Ht.
    + rewrite lookup_insert_ne by done. by exists st.
  - destruct (Due_spec s now) as [Hin Hf]. destruct (Due s now) as [s' ids] eqn:E. cbn [fst snd] in *.
    destruct (folderDue s now st) eqn:Hd.
    + right. right. exists ids. split; [done|]. apply Hin. by exists st.
    + right. left. split; [|by exists ids]. exists st. rewrite Hf, Hst, Hd. done.
Qed.

Lemma sched_run_waiting ops s out id t :
  (forall op now, op ∈ ops -> op_time op = Some now -> now <= t) -> OpRemove id ∉ ops -> waiting s id t ->
  waiting (foldl sched_step (s, out) ops).1 id t \/
  exists ids, (foldl sched_step (s, out) ops).2 = out ++ ids /\ id ∈ ids.
Proof.
  revert s out. induction ops as [|op ops IH]; intros s out Ht Hrm Hw; [by left|].
  rewrite not_elem_of_cons in Hrm. destruct Hrm as [Hne Hrm]. cbn [foldl].
  assert (forall out0 l, exists ids, (foldl sched_step (l, out0) ops).2 = out0 ++ ids) as Hgrow.
  { clear. induction ops as [|op ops IH]; intros out0 l; [exists []; by rewrite app_nil_r|]. cbn [foldl].
    destruct op; cbn [sched_step]; try apply IH. destruct (Due l now) as [s' ids].
    destruct (IH (out0 ++ ids) s') as [ids' ->]. exists (ids ++ ids'). by rewrite app_assoc. }
  destruct (sched_step_waiting s out op id t) as [[Hw' Ho]|[[Hw' [ids Ho]]|(ids & Ho & Hin)]];
    [by intros now; apply Ht; left|congruence|done|..];
    destruct (sched_step (s, out) op) as [s' out']; cbn [fst snd] in *; subst out'.
  - apply IH; [intros op' now Hin; apply Ht; by right|done|done].
  - destruct (IH s' (out ++ ids)) as [?|(ids' & Hids & Hin)];
      [intros op' now Hin; apply Ht; by right|done|done|by left|].
    right. exists (ids ++ ids'). rewrite Hids, app_assoc. split; [done|]. rewrite elem_of_app. by right.
  - destruct (Hgrow (out ++ ids) s') as [ids' Hids]. right. exists (ids ++ ids'). rewrite Hids, app_assoc.
    split; [done|]. rewrite elem_of_app. by left.
Qed.

Lemma sched_options s out ops :
  eventDebounce (foldl sched_step (s, out) ops).1 = eventDebounce s /\
  fallbackInterval (foldl sched_step (s, out) ops).1 = fallbackInterval s.
Proof.
  revert s out. induction ops as [|op ops IH]; intros s out; [done|]. cbn [foldl].
  assert (eventDebounce (sched_step (s, out) op).1 = eventDebounce s /\
          fallbackInterval (sched_step (s, out) op).1 = fallbackInterval s) as [<- <-].
  { destruct op; cbn [sched_step]; try done. unfold AddFolder. by destruct (folders s !! id). }
  destruct (sched_step (s, out) op) as [s' out']. apply IH.
Qed.

(** No change notification is lost: after Notify for a folder, whatever
    other calls follow up to time [t] - later events, scans, other folders - as
    long as the folder is not removed, either some Due since has returned the
    folder, or the next Due at [t + debounce] or later returns it.  And a folder
    whose last scan is a fallback interval old is due even when events keep
    postponing the debounced scan. *)
Theorem Due_no_lost_event s id at_ ops t now :
  (forall op now, op ∈ ops -> op_time op = Some now -> now <= t) -> at_ <= t -> OpRemove id ∉ ops ->
  t + eventDebounce s <= now ->
  let st := sched_run (Notify s id at_) ops in
  (id ∈ st.2 \/ id ∈ (Due st.1 now).2) /\
  (forall fs now', folders st.1 !! id = Some fs -> lastScan fs + fallbackInterval s <= now' -> id ∈ (Due st.1 now').2).
Proof.
  intros Ht Hat Hrm Hnow st.
  destruct (sched_options (Notify s id at_) [] ops) as [Hdeb Hfb]. fold (sched_run (Notify s id at_) ops) in Hdeb, Hfb.
  fold st in Hdeb, Hfb. cbn in Hdeb, Hfb. split.
  - destruct (sched_run_waiting ops (Notify s id at_) [] id t Ht Hrm) as [(fs & Hfs & Hp & Hle)|(ids & Hids & Hin)].
    + unfold waiting, Notify. cbn. rewrite lookup_insert_eq. eexists. split; [done|]. by split.
    + right. apply (proj1 (Due_spec st.1 now)). exists fs. split; [exact Hfs|]. unfold folderDue.
      rewrite Hp, Hdeb. cbn. apply orb_true_iff. left. apply Z.leb_le. lia.
    + left. unfold st, sched_run. by rewrite Hids.
  - intros fs now' Hfs Hle. apply (proj1 (Due_spec st.1 now')). exists fs. split; [done|]. unfold folderDue.
    rewrite Hfb. apply orb_true_iff. right. apply Z.leb_le. lia.
Qed.

Lemma Due_no_lost_event_witness :
  let st := sched_run (Notify (New 0 0) "docs" 5) [OpNotify "docs" 100; OpAdd "photos" 200; OpDue 300] in
  "docs" ∈ (Due st.1 500000200).2 \/ "docs" ∈ (Due st.1 500000300).2.
Proof.
  intros st.
  destruct (Due_no_lost_event (New 0 0) "docs" 5 [OpNotify "docs" 100; OpAdd "photos" 200; OpDue 300] 300 500000300)
    as [[H|H] _].
  - intros op now Hin. repeat (apply elem_of_cons in Hin as [->|Hin]; [cbn; intros [= <-]; lia|]).
    by apply elem_of_nil in Hin.
  - lia.
  - intros Hin. repeat (apply elem_of_cons in Hin as [Hin|Hin]; [discriminate Hin|]). by apply elem_of_nil in Hin.
  - vm_compute. discriminate.
  - vm_compute in H. by apply elem_of_nil in H.
  - by right.
Defined.

(** *** The bandwidth cap *)

(** A caller that waits after every transfer: [costs] are the sizes and the time
    each transfer itself takes; Wait sleeps its result.  The clock and the bytes
    after each Wait. *)
Definition paced (st : Limiter * Z) (cost : Z * Z) : Limiter * Z :=
  let '(l, clock) := st in
  let '(l', slept) := Wait l cost.1 (clock + cost.2) in
  (l', clock + cost.2 + slept).

Lemma Wait_total l n elapsed :
  0 < bytesPerSecond l -> 0 < n -> 0 <= transferred l -> (transferred l + n) * second <= maxInt64 ->
  0 <= elapsed <= maxInt64 ->
  bytesPerSecond (Wait l n elapsed).1 = bytesPerSecond l /\
  transferred (Wait l n elapsed).1 = transferred l + n /\ 0 <= (Wait l n elapsed).2 /\
  (transferred l + n) * second < bytesPerSecond l * (elapsed + (Wait l n elapsed).2 + 1).
Proof.
  intros Hb Hn Ht Hmax He. unfold Wait, second in *.
  destruct (Z.leb_spec (bytesPerSecond l) 0); [lia|]. destruct (Z.leb_spec n 0); [lia|]. cbn [orb fst snd bytesPerSecond transferred].
  rewrite (i64_small (transferred l + n)) by (unfold int64_range, minInt64, maxInt64 in *; lia).
  rewrite (i64_small ((transferred l + n) * _)) by (unfold int64_range, minInt64, maxInt64 in *; lia).
  set (total := (transferred l + n) * 10 ^ 9) in *.
  assert (0 <= total) as Hpos by lia.
  rewrite Z.quot_div_nonneg by lia.
  pose proof (Z.mul_succ_div_gt total (bytesPerSecond l) Hb) as Hgt.
  assert (0 <= total / bytesPerSecond l <= total) as Hq.
  { split; [apply Z.div_pos; lia|]. apply Z.div_le_upper_bound; [lia|]. nia. }
  rewrite i64_small by (unfold int64_range, minInt64, maxInt64 in *; lia).
  destruct (Z.leb_spec (total / bytesPerSecond l - elapsed) 0); split_and!; try done; try lia; nia.
Qed.

Lemma Wait_nonneg l n elapsed : 0 <= (Wait l n elapsed).2.
Proof.
  unfold Wait. destruct (_ || _); [done|]. cbn [snd].
  match goal with |- context [?r <=? 0] => destruct (Z.leb_spec r 0) end; lia.
Qed.

Lemma paced_clock costs l clock :
  Forall (fun c => 0 < c.1 /\ 0 <= c.2) costs -> clock <= (foldl paced (l, clock) costs).2.
Proof.
  revert l clock. induction costs as [|c costs IH]; intros l clock Hc; [done|].
  apply Forall_cons in Hc as [[_ Hc2] Hc]. cbn [foldl paced].
  pose proof (Wait_nonneg l c.1 (clock + c.2)). destruct (Wait l c.1 (clock + c.2)) as [l' slept]. cbn [snd] in *.
  specialize (IH l' (clock + c.2 + slept) Hc). lia.
Qed.

Definition total_bytes (costs : list (Z * Z)) : Z := foldr (fun c acc => c.1 + acc) 0 costs.

Lemma total_bytes_app l1 l2 : total_bytes (l1 ++ l2) = total_bytes l1 + total_bytes l2.
Proof. unfold total_bytes. induction l1 as [|c l1 IH]; simpl; lia. Qed.

Lemma total_bytes_nonneg costs : Forall (fun c => 0 < c.1 /\ 0 <= c.2) costs -> 0 <= total_bytes costs.
Proof. unfold total_bytes. induction 1; simpl; lia. Qed.

Lemma paced_total costs l clock :
  0 < bytesPerSecond l -> 0 <= transferred l -> 0 <= clock ->
  Forall (fun c => 0 < c.1 /\ 0 <= c.2) costs ->
  (transferred l + total_bytes costs) * second <= maxInt64 ->
  (foldl paced (l, clock) costs).2 <= maxInt64 ->
  bytesPerSecond (foldl paced (l, clock) costs).1 = bytesPerSecond l /\
  transferred (foldl paced (l, clock) costs).1 = transferred l + total_bytes costs.
Proof.
  revert l clock. induction costs as [|c costs IH]; intros l clock Hb Ht Hclock Hc Hmax Hfin.
  { split; [done|]. cbn. lia. }
  apply Forall_cons in Hc as [[Hc1 Hc2] Hc]. cbn [foldl paced] in *.
  pose proof (total_bytes_nonneg _ Hc) as Hnn. cbn [total_bytes foldr] in Hmax. fold (total_bytes costs) in Hmax.
  pose proof (Wait_nonneg l c.1 (clock + c.2)) as Hslept.
  pose proof (Wait_total l c.1 (clock + c.2) Hb Hc1 Ht) as Hw.
  destruct (Wait l c.1 (clock + c.2)) as [l' slept]. cbn [fst snd] in *.
  pose proof (paced_clock costs l' (clock + c.2 + slept) Hc) as Hmono.
  destruct Hw as (Hb' & Ht' & _ & _); [unfold second in *; nia|lia|].
  destruct (IH l' (clock + c.2 + slept)) as [IH1 IH2]; [lia|lia|lia|done|rewrite Ht'; unfold second in *; nia|done|].
  split; [congruence|]. rewrite IH2, Ht'. cbn [total_bytes foldr]. fold (total_bytes costs). lia.
Qed.

(** [C40] The bandwidth cap holds: a caller that waits after every transfer has,
    after each Wait, moved no more bytes than the cap allows for the elapsed
    time (to within the bytes of one nanosecond), as long as the cumulative
    count stays below 2^63 / 10^9 bytes (see [cap_lost_after_9GB]). *)
Theorem Wait_caps l clock costs :
  0 < bytesPerSecond l -> 0 <= transferred l -> 0 <= clock -> costs <> [] ->
  Forall (fun c => 0 < c.1 /\ 0 <= c.2) costs ->
  (transferred l + total_bytes costs) * second <= maxInt64 ->
  (foldl paced (l, clock) costs).2 <= maxInt64 ->
  transferred (foldl paced (l, clock) costs).1 = transferred l + total_bytes costs /\
  (transferred l + total_bytes costs) * second < bytesPerSecond l * ((foldl paced (l, clock) costs).2 + 1).
Proof.
  intros Hb Ht Hclock Hne Hc Hmax Hfin. split; [by apply paced_total|].
  destruct costs as [|c costs _] using rev_ind; [done|]. rewrite foldl_app in *. cbn [foldl] in *.
  apply Forall_app in Hc as [Hc Hlast]. apply Forall_cons in Hlast as [[Hc1 Hc2] _].
  rewrite total_bytes_app in *. cbn [total_bytes foldr] in Hmax |- *.
  pose proof (paced_clock costs l clock Hc) as Hmono. pose proof (total_bytes_nonneg costs Hc) as Hnn.
  pose proof (paced_total costs l clock Hb Ht Hclock Hc) as Hpt.
  destruct (foldl paced (l, clock) costs) as [l1 clock1]. cbn [fst snd paced] in *.
  pose proof (Wait_nonneg l1 c.1 (clock1 + c.2)) as Hslept.
  pose proof (Wait_total l1 c.1 (clock1 + c.2)) as Hw.
  destruct (Wait l1 c.1 (clock1 + c.2)) as [l2 slept]. cbn [fst snd] in *.
  destruct Hpt as [Hb1 Ht1]; [unfold second in *; nia|lia|].
  destruct Hw as (_ & _ & _ & Hw); [lia|lia|lia|rewrite Ht1; unfold second in *; nia|lia|].
  rewrite Ht1, Hb1 in Hw. replace (total_bytes costs + (c.1 + 0)) with (total_bytes costs + c.1) by lia. 
  rewrite Z.add_assoc. exact Hw.
Qed.

Lemma Wait_caps_witness :
  let st := foldl paced (mkLimiter 1000 0, 0) [(500, 0); (500, 100)] in
  transferred st.1 = 1000 /\ 1000 * second < 1000 * (st.2 + 1).
Proof.
  apply (Wait_caps (mkLimiter 1000 0) 0 [(500, 0); (500, 100)]);
    [reflexivity|vm_compute; discriminate|vm_compute; discriminate|discriminate| | | ].
  - repeat constructor; vm_compute; discriminate.
  - vm_compute. discriminate.
  - vm_compute. discriminate.
Defined.

(** Past 2^63 / 10^9 bytes the 64-bit product is negative and Wait no longer
    sleeps: the cap is off after 9.2 GB. *)
Example cap_lost_after_9GB : (Wait (mkLimiter 1000 9223372037) 1000 0).2 = 0.
Proof. vm_compute. reflexivity. Qed.
