(* ===== verification/Jobs.v ===== *)
(** * Snapshot markers, jobs and block references

    Models the keyed tables of [internal/state/json_store.go] - snapshot
    markers, archive intake, restore, retention and repair jobs - and the block
    references its JSON backend derives from the manifests. *)

From S2P Require Import Prelude GoStd Block StoreData Store.
From Stdlib Require Import Ascii.

Local Open Scope Z_scope.

(** ** Snapshot markers *)

Definition modify_jobs (s : JSONStore) (f : jobMeta -> jobMeta) : JSONStore * result StoreErr unit :=
  modify s (fun snap => Ok (with_jobs (f (snap_jobs snap)) snap)).

Definition put_marker (marker : SnapshotMarker) (j : jobMeta) : jobMeta :=
  mkJobMeta (<[SnapshotMarker_ID marker := marker]> (SnapshotMarkers j)) (ArchiveIntakeJobs j)
    (BackupRestoreJobs j) (BackupRetentionJobs j) (BackupRepairJobs j).

Definition SaveSnapshotMarker (s : JSONStore) (marker : SnapshotMarker) :=
  checked s (_ ← require "snapshot marker id" (SnapshotMarker_ID marker);
             require "snapshot marker folder id" (SnapshotMarker_FolderID marker))
    (modify_jobs s (put_marker marker)).

Definition LoadSnapshotMarker (s : JSONStore) (id : string) : result StoreErr (option SnapshotMarker) :=
  (fun snap => SnapshotMarkers (snap_jobs snap) !! id) <$> load s.

Definition marker_lt : SnapshotMarker -> SnapshotMarker -> bool :=
  by_key SnapshotMarker_CreatedAt str_lt (last_key SnapshotMarker_ID str_lt).

Definition ListSnapshotMarkers (s : JSONStore) (folderID : string) : result StoreErr (list SnapshotMarker) :=
  (fun snap =>
     sort_by marker_lt
       (List.filter (fun marker => bool_decide (folderID = EmptyString) ||
                                   bool_decide (SnapshotMarker_FolderID marker = folderID))
          (values (SnapshotMarkers (snap_jobs snap))))) <$> load s.

Definition del_marker (id : string) (j : jobMeta) : jobMeta :=
  mkJobMeta (delete id (SnapshotMarkers j)) (ArchiveIntakeJobs j)
    (BackupRestoreJobs j) (BackupRetentionJobs j) (BackupRepairJobs j).

Definition DeleteSnapshotMarker (s : JSONStore) (id : string) := modify_jobs s (del_marker id).

(** ** Jobs

    The clones of the Go code copy slices; a list value is its own copy. *)

Definition put_archive (snapshotID : string) (jobs : list ArchiveIntakeJob) (j : jobMeta) : jobMeta :=
  mkJobMeta (SnapshotMarkers j) (<[snapshotID := jobs]> (ArchiveIntakeJobs j))
    (BackupRestoreJobs j) (BackupRetentionJobs j) (BackupRepairJobs j).

Definition SaveArchiveIntakeJobs (s : JSONStore) (snapshotID : string) (jobs : list ArchiveIntakeJob) :=
  checked s (require "snapshot id" snapshotID) (modify_jobs s (put_archive snapshotID jobs)).

Definition ListArchiveIntakeJobs (s : JSONStore) (snapshotID : string) : result StoreErr (list ArchiveIntakeJob) :=
  (fun snap =>
     if bool_decide (snapshotID <> EmptyString)
     then default [] (ArchiveIntakeJobs (snap_jobs snap) !! snapshotID)
     else mjoin (in_key_order (ArchiveIntakeJobs (snap_jobs snap)))) <$> load s.

Definition put_restore (job : BackupRestoreJob) (j : jobMeta) : jobMeta :=
  mkJobMeta (SnapshotMarkers j) (ArchiveIntakeJobs j)
    (<[BackupRestoreJob_ID job := job]> (BackupRestoreJobs j)) (BackupRetentionJobs j) (BackupRepairJobs j).

Definition SaveBackupRestoreJob (s : JSONStore) (job : BackupRestoreJob) :=
  checked s (require "backup restore job id" (BackupRestoreJob_ID job)) (modify_jobs s (put_restore job)).

Definition LoadBackupRestoreJob (s : JSONStore) (id : string) : result StoreErr (option BackupRestoreJob) :=
  (fun snap => BackupRestoreJobs (snap_jobs snap) !! id) <$> load s.

Definition ListBackupRestoreJobs (s : JSONStore) (snapshotID : string) : result StoreErr (list BackupRestoreJob) :=
  (fun snap =>
     List.filter (fun job => bool_decide (snapshotID = EmptyString) ||
                             bool_decide (BackupRestoreJob_SnapshotID job = snapshotID))
       (in_key_order (BackupRestoreJobs (snap_jobs snap)))) <$> load s.

Definition put_retention (job : BackupRetentionJob) (j : jobMeta) : jobMeta :=
  mkJobMeta (SnapshotMarkers j) (ArchiveIntakeJobs j) (BackupRestoreJobs j)
    (<[BackupRetentionJob_ID job := job]> (BackupRetentionJobs j)) (BackupRepairJobs j).

Definition SaveBackupRetentionJob (s : JSONStore) (job : BackupRetentionJob) :=
  checked s (require "backup retention job id" (BackupRetentionJob_ID job)) (modify_jobs s (put_retention job)).

Definition LoadBackupRetentionJob (s : JSONStore) (id : string) : result StoreErr (option BackupRetentionJob) :=
  (fun snap => BackupRetentionJobs (snap_jobs snap) !! id) <$> load s.

Definition ListBackupRetentionJobs (s : JSONStore) : result StoreErr (list BackupRetentionJob) :=
  (fun snap => in_key_order (BackupRetentionJobs (snap_jobs snap))) <$> load s.

Definition put_repair (job : BackupRepairJob) (j : jobMeta) : jobMeta :=
  mkJobMeta (SnapshotMarkers j) (ArchiveIntakeJobs j) (BackupRestoreJobs j) (BackupRetentionJobs j)
    (<[BackupRepairJob_ID job := job]> (BackupRepairJobs j)).

Definition SaveBackupRepairJob (s : JSONStore) (job : BackupRepairJob) :=
  checked s (require "backup repair job id" (BackupRepairJob_ID job)) (modify_jobs s (put_repair job)).

Definition LoadBackupRepairJob (s : JSONStore) (id : string) : result StoreErr (option BackupRepairJob) :=
  (fun snap => BackupRepairJobs (snap_jobs snap) !! id) <$> load s.

Definition ListBackupRepairJobs (s : JSONStore) : result StoreErr (list BackupRepairJob) :=
  (fun snap => in_key_order (BackupRepairJobs (snap_jobs snap))) <$> load s.

(** ** Import of a whole store *)

Record ImportResult := mkImportResult {
  ImportResult_Folders : Z;
  ImportResult_ImportedManifests : Z
}.

(** [ImportStoreSnapshot]: the destination store and the result. *)
Definition ImportStoreSnapshot (source destination : JSONStore) : JSONStore * result StoreErr ImportResult :=
  match load source with
  | Err e => (destination, Err e)
  | Ok snap0 =>
      let snap := with_local (normalizeSnapshot (snap_local snap0)) snap0 in
      let res := mkImportResult (Z.of_nat (size (Folders (snap_local snap))))
        (foldr Z.add 0 ((fun manifests => Z.of_nat (size manifests)) <$> values (Folders (snap_local snap)))) in
      match save destination snap with
      | (destination', Ok _) => (destination', Ok res)
      | (destination', Err e) => (destination', Err e)
      end
  end.

(** ** Block references *)

Record BlockRef := mkBlockRef {
  BlockRef_FolderID : string;
  BlockRef_RelativePath : string;
  BlockRef_Block : Block
}.

(** [bytes.Compare(a, b) < 0] *)
Fixpoint bytes_lt (a b : bytes) : bool :=
  match a, b with
  | _, [] => false
  | [], _ :: _ => true
  | x :: a', y :: b' =>
      if (Byte.to_N x <? Byte.to_N y)%N then true
      else if (Byte.to_N y <? Byte.to_N x)%N then false
      else bytes_lt a' b'
  end.

Definition ref_lt : BlockRef -> BlockRef -> bool :=
  by_key BlockRef_FolderID str_lt (by_key BlockRef_RelativePath str_lt
    (by_key (fun r => Block_Index (BlockRef_Block r)) Z.ltb (by_key (fun r => Block_Offset (BlockRef_Block r)) Z.ltb
      (by_key (fun r => Block_Size (BlockRef_Block r)) Z.ltb
        (last_key (fun r => Block_Hash (BlockRef_Block r)) bytes_lt))))).

Definition sortBlockRefs : list BlockRef -> list BlockRef := sort_by ref_lt.

Definition manifestRefs (folderID rel : string) (manifest : Manifest) : list BlockRef :=
  if Manifest_Damaged manifest then []
  else mkBlockRef folderID rel <$> Manifest_Blocks manifest.

Definition folderRefs (folderID : string) (files : gmap string Manifest) : list BlockRef :=
  file ← map_to_list files; manifestRefs folderID file.1 file.2.

Definition ListBlockRefs (s : JSONStore) (folderID : string) : result StoreErr (list BlockRef) :=
  (fun snap =>
     sortBlockRefs
       (folder ← map_to_list (Folders (snap_local snap));
        if bool_decide (folderID <> EmptyString) && bool_decide (folder.1 <> folderID) then []
        else folderRefs folder.1 folder.2)) <$> load s.

Definition FindBlocks (s : JSONStore) (size : Z) (hash : bytes) : result StoreErr (list BlockRef) :=
  (fun refs =>
     sortBlockRefs
       (List.filter (fun ref => bool_decide (Block_Size (BlockRef_Block ref) = size) &&
                                bool_decide (Block_Hash (BlockRef_Block ref) = hash)) refs))
  <$> ListBlockRefs s EmptyString.

(** ** Properties *)

(** *** The order of references is total *)

#[export] Instance bytes_lt_total : StrictTotal bytes_lt.
Proof.
  split; [split|].
  - induction x as [|x a IH]; simpl; [done|]. by rewrite N.ltb_irrefl.
  - induction x as [|x a IH]; intros [|y b] [|z c]; simpl; try done.
    destruct (N.ltb_spec (Byte.to_N x) (Byte.to_N y)), (N.ltb_spec (Byte.to_N y) (Byte.to_N x)),
      (N.ltb_spec (Byte.to_N y) (Byte.to_N z)), (N.ltb_spec (Byte.to_N z) (Byte.to_N y)),
      (N.ltb_spec (Byte.to_N x) (Byte.to_N z)), (N.ltb_spec (Byte.to_N z) (Byte.to_N x)); try done; try lia.
    apply IH.
  - induction x as [|x a IH]; intros [|y b] [|z c]; simpl; try done.
    destruct (N.ltb_spec (Byte.to_N x) (Byte.to_N y)), (N.ltb_spec (Byte.to_N y) (Byte.to_N x)),
      (N.ltb_spec (Byte.to_N y) (Byte.to_N z)), (N.ltb_spec (Byte.to_N z) (Byte.to_N y)),
      (N.ltb_spec (Byte.to_N x) (Byte.to_N z)), (N.ltb_spec (Byte.to_N z) (Byte.to_N x)); try done; try lia.
    apply IH.
  - induction x as [|x a IH]; intros [|y b]; simpl; try done.
    destruct (N.ltb_spec (Byte.to_N x) (Byte.to_N y)), (N.ltb_spec (Byte.to_N y) (Byte.to_N x)); try done.
    intros H1 H2. assert (Byte.to_N x = Byte.to_N y) as Hxy by lia.
    apply (f_equal Byte.of_N) in Hxy. rewrite !Byte.of_to_N in Hxy. injection Hxy as ->. f_equal. by apply IH.
Qed.

Lemma ref_lt_tied x y : tied ref_lt x y -> x = y.
Proof.
  intros H. repeat (apply tied_by_key in H as [? H]; [|apply _]). apply tied_last_key in H; [|apply _].
  destruct x as [? ? []], y as [? ? []]. simpl in *. congruence.
Qed.

(** *** References *)

(** A reference names a block of a live, undamaged manifest. *)
Definition live_block (s : JSONStore) (ref : BlockRef) : Prop :=
  exists manifest, LoadManifest s (BlockRef_FolderID ref) (BlockRef_RelativePath ref) = Ok (Some manifest) /\
    Manifest_Damaged manifest = false /\ BlockRef_Block ref ∈ Manifest_Blocks manifest.

Lemma elem_of_manifestRefs f rel m ref :
  ref ∈ manifestRefs f rel m <->
  BlockRef_FolderID ref = f /\ BlockRef_RelativePath ref = rel /\ Manifest_Damaged m = false /\
  BlockRef_Block ref ∈ Manifest_Blocks m.
Proof.
  unfold manifestRefs. destruct (Manifest_Damaged m) eqn:E.
  - rewrite elem_of_nil. split; [done|]. intros (_ & _ & ? & _). done.
  - rewrite list_elem_of_fmap. split.
    + intros (b & -> & Hb). done.
    + intros (<- & <- & _ & Hb). exists (BlockRef_Block ref). split; [by destruct ref|done].
Qed.

Lemma elem_of_folderRefs f files ref :
  ref ∈ folderRefs f files <->
  BlockRef_FolderID ref = f /\ exists m, files !! BlockRef_RelativePath ref = Some m /\
    Manifest_Damaged m = false /\ BlockRef_Block ref ∈ Manifest_Blocks m.
Proof.
  unfold folderRefs. rewrite list_elem_of_bind. setoid_rewrite elem_of_manifestRefs. split.
  - intros ([rel m] & (Hf & Hrel & Hd & Hb) & Hin%elem_of_map_to_list). simpl in *. subst. eauto.
  - intros (Hf & m & Hm & Hd & Hb). exists (BlockRef_RelativePath ref, m).
    split; [done|]. by apply elem_of_map_to_list.
Qed.

Lemma elem_of_ListBlockRefs s folderID refs ref :
  ListBlockRefs s folderID = Ok refs ->
  ref ∈ refs <-> (folderID = EmptyString \/ BlockRef_FolderID ref = folderID) /\ live_block s ref.
Proof.
  unfold ListBlockRefs, live_block, LoadManifest. destruct (load s) as [snap|e]; [|done]. intros [= <-].
  unfold sortBlockRefs. rewrite elem_of_sort_by, list_elem_of_bind. cbn [fmap result_fmap]. split.
  - intros ([f files] & Href & Hin%elem_of_map_to_list). cbn [fst snd] in *.
    destruct (bool_decide_reflect (folderID <> EmptyString)) as [H1|H1],
      (bool_decide_reflect (f <> folderID)) as [H2|H2]; cbn [andb] in Href;
      try (by apply elem_of_nil in Href);
      apply elem_of_folderRefs in Href as (Hf & m & Hm & Hd & Hb);
      (split; [destruct (decide (folderID = EmptyString)); [by left|right; apply dec_stable; intros ?; subst; tauto]|]);
      exists m; (split; [|done]); unfold inner; rewrite Hf, Hin; cbn; by rewrite Hm.
  - intros [Hf (m & [= Hm] & Hd & Hb)]. unfold inner in Hm.
    destruct (Folders (snap_local snap) !! BlockRef_FolderID ref) as [files|] eqn:E;
      cbn [default from_option id] in Hm; [|by rewrite lookup_empty in Hm].
    exists (BlockRef_FolderID ref, files). split; [|by apply elem_of_map_to_list]. cbn [fst snd].
    replace (bool_decide (folderID <> EmptyString) && bool_decide (BlockRef_FolderID ref <> folderID)) with false.
    + apply elem_of_folderRefs. split; [done|]. by exists m.
    + symmetry. apply andb_false_iff. rewrite !bool_decide_eq_false. tauto.
Qed.

(** FindBlocks is exact: it returns, in a fixed order that does not depend
    on the iteration order of the store's maps, precisely the blocks with the
    wanted size and hash of the live manifests that are not marked damaged. *)
Theorem FindBlocks_exact s size hash refs :
  FindBlocks s size hash = Ok refs ->
  (forall ref, ref ∈ refs <->
     live_block s ref /\ Block_Size (BlockRef_Block ref) = size /\ Block_Hash (BlockRef_Block ref) = hash) /\
  StronglySorted (not_after ref_lt) refs /\
  (forall l, l ≡ₚ refs -> sortBlockRefs l = refs).
Proof.
  unfold FindBlocks. intros H. destruct (ListBlockRefs s EmptyString) as [all|e] eqn:E; [|done]. injection H as <-.
  set (kept := List.filter _ all). split_and!.
  - intros ref. unfold sortBlockRefs, kept. rewrite elem_of_sort_by, list_elem_of_In, filter_In, <- list_elem_of_In.
    rewrite (elem_of_ListBlockRefs _ _ _ _ E), andb_true_iff, !bool_decide_eq_true. tauto.
  - apply sort_by_sorted. apply _.
  - intros l Hl. apply sort_by_unique; [apply _|intros x y _ _; apply ref_lt_tied|].
    unfold sortBlockRefs in Hl. by rewrite Hl, sort_by_perm.
Qed.

Definition demo_full_store : JSONStore := (SaveManifest demo_store "docs" "a" (demo_manifest Byte.x61)).1.

Lemma FindBlocks_exact_witness :
  exists refs, FindBlocks demo_full_store 1 [Byte.x61] = Ok refs /\
    mkBlockRef "docs" "a" (mkBlock 0 0 1 [Byte.x61]) ∈ refs.
Proof.
  destruct (FindBlocks demo_full_store 1 [Byte.x61]) as [refs|e] eqn:E; [|vm_compute in E; discriminate].
  exists refs. split; [reflexivity|]. apply (FindBlocks_exact _ _ _ _ E). split; [|by split].
  eexists. split; [vm_compute; reflexivity|]. split; [reflexivity|]. by left.
Defined.

(** *** Tables *)

Inductive jobOp :=
| JSaveMarker (marker : SnapshotMarker)
| JDeleteMarker (id : string)
| JSaveArchive (snapshotID : string) (jobs : list ArchiveIntakeJob)
| JSaveRestore (job : BackupRestoreJob)
| JSaveRetention (job : BackupRetentionJob)
| JSaveRepair (job : BackupRepairJob).

Definition job_op (s : JSONStore) (op : jobOp) : JSONStore * result StoreErr unit :=
  match op with
  | JSaveMarker marker => SaveSnapshotMarker s marker
  | JDeleteMarker id => DeleteSnapshotMarker s id
  | JSaveArchive snapshotID jobs => SaveArchiveIntakeJobs s snapshotID jobs
  | JSaveRestore job => SaveBackupRestoreJob s job
  | JSaveRetention job => SaveBackupRetentionJob s job
  | JSaveRepair job => SaveBackupRepairJob s job
  end.

Definition job_effect (op : jobOp) : jobMeta -> jobMeta :=
  match op with
  | JSaveMarker marker => put_marker marker
  | JDeleteMarker id => del_marker id
  | JSaveArchive snapshotID jobs => put_archive snapshotID jobs
  | JSaveRestore job => put_restore job
  | JSaveRetention job => put_retention job
  | JSaveRepair job => put_repair job
  end.

(** The last write of a key in a log, newest first: [Some None] is a delete. *)
Fixpoint last_write {X V} (w : X -> option (string * option V)) (log : list X) (k : string) : option (option V) :=
  match log with
  | [] => None
  | x :: log' =>
      match w x with
      | Some (k', v) => if decide (k' = k) then Some v else last_write w log' k
      | None => last_write w log' k
      end
  end.

Definition marker_write (op : jobOp) : option (string * option SnapshotMarker) :=
  match op with
  | JSaveMarker marker => Some (SnapshotMarker_ID marker, Some marker)
  | JDeleteMarker id => Some (id, None)
  | _ => None
  end.
Definition archive_write (op : jobOp) : option (string * option (list ArchiveIntakeJob)) :=
  match op with JSaveArchive snapshotID jobs => Some (snapshotID, Some jobs) | _ => None end.
Definition restore_write (op : jobOp) : option (string * option BackupRestoreJob) :=
  match op with JSaveRestore job => Some (BackupRestoreJob_ID job, Some job) | _ => None end.
Definition retention_write (op : jobOp) : option (string * option BackupRetentionJob) :=
  match op with JSaveRetention job => Some (BackupRetentionJob_ID job, Some job) | _ => None end.
Definition repair_write (op : jobOp) : option (string * option BackupRepairJob) :=
  match op with JSaveRepair job => Some (BackupRepairJob_ID job, Some job) | _ => None end.

(** A table after a log, from what it held before. *)
Definition after_log {X V} (w : X -> option (string * option V)) (log : list X) (m : gmap string V) (k : string) :=
  default (m !! k) (last_write w log k).

Definition tables_agree (j0 : jobMeta) (log : list jobOp) (j : jobMeta) : Prop := forall k,
  SnapshotMarkers j !! k = after_log marker_write log (SnapshotMarkers j0) k /\
  ArchiveIntakeJobs j !! k = after_log archive_write log (ArchiveIntakeJobs j0) k /\
  BackupRestoreJobs j !! k = after_log restore_write log (BackupRestoreJobs j0) k /\
  BackupRetentionJobs j !! k = after_log retention_write log (BackupRetentionJobs j0) k /\
  BackupRepairJobs j !! k = after_log repair_write log (BackupRepairJobs j0) k.

Lemma job_effect_agrees j0 log op j :
  tables_agree j0 log j -> tables_agree j0 (op :: log) (job_effect op j).
Proof.
  intros H k. destruct (H k) as (H1 & H2 & H3 & H4 & H5). unfold after_log in *.
  destruct op; cbn [job_effect put_marker del_marker put_archive put_restore put_retention put_repair
    SnapshotMarkers ArchiveIntakeJobs BackupRestoreJobs BackupRetentionJobs BackupRepairJobs
    last_write marker_write archive_write restore_write retention_write repair_write];
    rewrite ?lookup_insert, ?lookup_delete; case_decide; split_and!; done.
Qed.

Lemma modify_jobs_cases s f snap :
  load s = Ok snap ->
  match modify_jobs s f with
  | (s', Ok _) => load s' = Ok (normalizeLoadedSnapshot (with_jobs (f (snap_jobs snap)) snap))
  | (s', Err e) => s' = s
  end.
Proof.
  intros Hl. pose proof (modify_ok s (fun snap => Ok (with_jobs (f (snap_jobs snap)) snap)) snap _ Hl eq_refl) as H.
  unfold modify_jobs. destruct (modify _ _) as [s' [u|e]]; tauto.
Qed.

Lemma job_op_cases s op snap :
  load s = Ok snap ->
  match job_op s op with
  | (s', Ok _) => load s' = Ok (normalizeLoadedSnapshot (with_jobs (job_effect op (snap_jobs snap)) snap))
  | (s', Err e) => s' = s
  end.
Proof.
  intros Hl. destruct op; cbn [job_op job_effect];
    unfold SaveSnapshotMarker, DeleteSnapshotMarker, SaveArchiveIntakeJobs, SaveBackupRestoreJob,
      SaveBackupRetentionJob, SaveBackupRepairJob, checked;
    try (destruct (mbind _ _) as [u|e]; [|done]); try (destruct (require _ _) as [u|e]; [|done]);
    by apply modify_jobs_cases.
Qed.

(** Everything the job operations leave alone. *)
Definition same_rest (snap snap' : snapshot) : Prop :=
  same_views (snap_local snap') (snap_local snap) /\ snap_peer snap' = snap_peer snap /\
  CompactionSnapshots snap' = CompactionSnapshots snap /\ snap_gate snap' = snap_gate snap /\
  snap_settings snap' = snap_settings snap.

Definition jobs_agree (snap0 : snapshot) (s : JSONStore) (log : list jobOp) : Prop :=
  exists snap, load s = Ok snap /\ same_rest snap0 snap /\ tables_agree (snap_jobs snap0) log (snap_jobs snap).

Lemma jobs_run_agrees s snap0 calls :
  loadable_meta (snap_local snap0) -> load s = Ok snap0 ->
  jobs_agree snap0 (run_calls job_op s calls).1 (run_calls job_op s calls).2.
Proof.
  intros Hload Hl. apply (run_calls_inv job_op (jobs_agree snap0)).
  - clear Hl s calls. intros s log b op (snap & Hl & (Hv & Hp & Hc & Hg & Hs) & Ht).
    pose proof (job_op_cases (with_fault b s) op snap) as H. rewrite load_with_fault in H. specialize (H Hl).
    destruct (job_op (with_fault b s) op) as [s' [u|e]].
    + eexists. split; [exact H|]. split; [|by apply job_effect_agrees].
      split; [|done]. cbn. trans (snap_local snap); [|done]. apply normalizeSnapshot_id.
      intros f. rewrite (Hv f). apply Hload.
    + subst s'. exists snap. by rewrite load_with_fault.
  - exists snap0. split; [done|]. split; [by split_and!|]. intros k. by split_and!.
Qed.

(** The job tables return what was last saved.  After any sequence of
    saves and marker deletions, some of which the disk may have refused, each
    Load returns the value of the last acknowledged save under the id (nothing
    after an acknowledged delete), ids never saved keep what they had, the
    tables do not disturb one another, and folder metadata, peer state, the
    apply gate and settings are untouched. *)
Theorem jobs_last_saved s snap0 calls :
  loadable_meta (snap_local snap0) -> load s = Ok snap0 ->
  let s' := (run_calls job_op s calls).1 in
  let log := (run_calls job_op s calls).2 in
  (exists snap', load s' = Ok snap' /\ same_rest snap0 snap') /\
  (forall id, LoadSnapshotMarker s' id = Ok (after_log marker_write log (SnapshotMarkers (snap_jobs snap0)) id) /\
     LoadBackupRestoreJob s' id = Ok (after_log restore_write log (BackupRestoreJobs (snap_jobs snap0)) id) /\
     LoadBackupRetentionJob s' id = Ok (after_log retention_write log (BackupRetentionJobs (snap_jobs snap0)) id) /\
     LoadBackupRepairJob s' id = Ok (after_log repair_write log (BackupRepairJobs (snap_jobs snap0)) id) /\
     (id <> EmptyString -> ListArchiveIntakeJobs s' id =
        Ok (default [] (after_log archive_write log (ArchiveIntakeJobs (snap_jobs snap0)) id)))).
Proof.
  intros Hload Hl s' log. destruct (jobs_run_agrees s snap0 calls Hload Hl) as (snap & Hl' & Hrest & Ht).
  split; [by exists snap|]. intros id. destruct (Ht id) as (H1 & H2 & H3 & H4 & H5). fold log in H1, H2, H3, H4, H5.
  unfold LoadSnapshotMarker, LoadBackupRestoreJob, LoadBackupRetentionJob, LoadBackupRepairJob, ListArchiveIntakeJobs.
  fold s' in Hl'. rewrite Hl'. cbn [fmap result_fmap]. rewrite H1, H2, H3, H4, H5. split_and!; try done.
  intros Hid. by rewrite bool_decide_eq_true_2.
Qed.

Definition demo_marker : SnapshotMarker :=
  mkSnapshotMarker "s1" "docs" 0 "h" "2026-01-01T00:00:00Z" EmptyString false false false false.

Lemma jobs_last_saved_witness :
  LoadSnapshotMarker (run_calls job_op demo_store [(false, JSaveMarker demo_marker); (true, JDeleteMarker "s1")]).1 "s1" =
    Ok (Some demo_marker).
Proof.
  destruct (jobs_last_saved demo_store snapshot_zero [(false, JSaveMarker demo_marker); (true, JDeleteMarker "s1")]
    (wf_loadable_meta _ wf_meta_zero) eq_refl) as [_ H].
  destruct (H "s1") as [Hm _]. rewrite Hm. vm_compute. reflexivity.
Defined.
