(* ===== verification/Settings.v ===== *)
(** * Node settings and pending settings changes

    Models the settings part of [internal/state/json_store.go]: the documents a
    node owns, the changes other nodes queue for it with their audit trail, and
    the application of a change, which saves the document and the change one
    after the other.  [quote] stands for the [%q] verb of [fmt]; it only shapes
    the text of stored error messages. *)

From S2P Require Import Prelude GoStd Block StoreData Store.
From Stdlib Require Import Ascii.

Local Open Scope Z_scope.

Definition NodeSettingsDocument_zero : NodeSettingsDocument :=
  mkNodeSettingsDocument EmptyString 0 EmptyString ∅ EmptyString EmptyString.
Definition PendingSettingsChange_zero : PendingSettingsChange :=
  mkPendingSettingsChange EmptyString EmptyString EmptyString EmptyString 0 EmptyString EmptyString EmptyString
    ∅ EmptyString [].

Definition modify_settings (s : JSONStore) (f : settingsMeta -> settingsMeta) : JSONStore * result StoreErr unit :=
  modify s (fun snap => Ok (with_settings (f (snap_settings snap)) snap)).

(** ** Documents *)

Definition put_document (nodeID : string) (doc : NodeSettingsDocument) (g : settingsMeta) : settingsMeta :=
  mkSettingsMeta (<[nodeID := doc]> (NodeSettings g)) (PendingSettings g).

Definition SaveNodeSettingsDocument (s : JSONStore) (nodeID0 : string) (doc : NodeSettingsDocument) :=
  if bool_decide (NodeSettingsDocument_NodeID doc = EmptyString)
  then (s, Err (ErrRequired "node settings document node id"))
  else
    let nodeID := if bool_decide (nodeID0 = EmptyString) then NodeSettingsDocument_NodeID doc else nodeID0 in
    if bool_decide (NodeSettingsDocument_NodeID doc <> nodeID)
    then (s, Err (ErrMismatch nodeID (NodeSettingsDocument_NodeID doc)))
    else modify_settings s (put_document nodeID doc).

Definition LoadNodeSettingsDocument (s : JSONStore) (nodeID : string) : result StoreErr (option NodeSettingsDocument) :=
  (fun snap => NodeSettings (snap_settings snap) !! nodeID) <$> load s.

Definition ListNodeSettingsDocuments (s : JSONStore) : result StoreErr (list NodeSettingsDocument) :=
  (fun snap => in_key_order (NodeSettings (snap_settings snap))) <$> load s.

(** ** Pending changes *)

(** The local reassignment of an empty [targetNodeID] stays local. *)
Definition validatePendingSettingsChangeTarget (targetNodeID0 : string) (change : PendingSettingsChange)
    : result StoreErr unit :=
  _ ← require "pending settings change id" (PendingSettingsChange_ID change);
  _ ← require "pending settings change target node id" (PendingSettingsChange_TargetNodeID change);
  let targetNodeID := if bool_decide (targetNodeID0 = EmptyString)
                      then PendingSettingsChange_TargetNodeID change else targetNodeID0 in
  _ ← fail_if (bool_decide (PendingSettingsChange_TargetNodeID change <> targetNodeID))
        (ErrMismatch targetNodeID (PendingSettingsChange_TargetNodeID change));
  _ ← require "pending settings change origin node id" (PendingSettingsChange_OriginNodeID change);
  require "pending settings change idempotency key" (PendingSettingsChange_IdempotencyKey change).

Definition pendingSettingsAuditTransition (status : string) : string :=
  if bool_decide (status = EmptyString) then "queued" else status.

Definition pendingSettingsAuditTime (change : PendingSettingsChange) : string :=
  if bool_decide (PendingSettingsChange_UpdatedAt change <> EmptyString)
  then PendingSettingsChange_UpdatedAt change else PendingSettingsChange_CreatedAt change.

Definition set_AuditTrail (trail : list PendingSettingsAuditEntry) (c : PendingSettingsChange) : PendingSettingsChange :=
  mkPendingSettingsChange (PendingSettingsChange_ID c) (PendingSettingsChange_TargetNodeID c)
    (PendingSettingsChange_OriginNodeID c) (PendingSettingsChange_IdempotencyKey c) (PendingSettingsChange_Revision c)
    (PendingSettingsChange_Status c) (PendingSettingsChange_CreatedAt c) (PendingSettingsChange_UpdatedAt c)
    (PendingSettingsChange_SettingsPatch c) (PendingSettingsChange_LastError c) trail.

(** [change.Status = ...; change.UpdatedAt = ...; change.LastError = ...] *)
Definition set_status (status updatedAt lastError : string) (c : PendingSettingsChange) : PendingSettingsChange :=
  mkPendingSettingsChange (PendingSettingsChange_ID c) (PendingSettingsChange_TargetNodeID c)
    (PendingSettingsChange_OriginNodeID c) (PendingSettingsChange_IdempotencyKey c) (PendingSettingsChange_Revision c)
    status (PendingSettingsChange_CreatedAt c) updatedAt
    (PendingSettingsChange_SettingsPatch c) lastError (PendingSettingsChange_AuditTrail c).

Definition auditEntry (next : PendingSettingsChange) : PendingSettingsAuditEntry :=
  mkPendingSettingsAuditEntry (pendingSettingsAuditTransition (PendingSettingsChange_Status next))
    (PendingSettingsChange_Status next) (pendingSettingsAuditTime next) (PendingSettingsChange_TargetNodeID next)
    (PendingSettingsChange_ID next) (PendingSettingsChange_OriginNodeID next) (PendingSettingsChange_LastError next).

(** [existing] is the zero change when nothing was stored. *)
Definition withPendingSettingsAudit (existing next : PendingSettingsChange) (existed : bool) : PendingSettingsChange :=
  let trail0 := PendingSettingsChange_AuditTrail existing in
  let trail1 := trail0 ++ drop (length trail0) (PendingSettingsChange_AuditTrail next) in
  let trail2 := if negb existed ||
                   bool_decide (PendingSettingsChange_Status existing <> PendingSettingsChange_Status next)
                then trail1 ++ [auditEntry next] else trail1 in
  set_AuditTrail trail2 next.

Definition LoadPendingSettingsChange (s : JSONStore) (targetNodeID changeID : string)
    : result StoreErr (option PendingSettingsChange) :=
  (fun snap => inner (PendingSettings (snap_settings snap)) targetNodeID !! changeID) <$> load s.

Definition put_change (targetNodeID : string) (change : PendingSettingsChange) (g : settingsMeta) : settingsMeta :=
  mkSettingsMeta (NodeSettings g) (put2 targetNodeID (PendingSettingsChange_ID change) change (PendingSettings g)).

Definition SavePendingSettingsChange (s : JSONStore) (targetNodeID : string) (change : PendingSettingsChange) :=
  match validatePendingSettingsChangeTarget targetNodeID change with
  | Err e => (s, Err e)
  | Ok _ =>
      match LoadPendingSettingsChange s targetNodeID (PendingSettingsChange_ID change) with
      | Err e => (s, Err e)
      | Ok found =>
          modify_settings s (put_change targetNodeID
            (withPendingSettingsAudit (default PendingSettingsChange_zero found) change (bool_decide (is_Some found))))
      end
  end.

Definition ListPendingSettingsChanges (s : JSONStore) (targetNodeID : string)
    : result StoreErr (list PendingSettingsChange) :=
  (fun snap =>
     let pending := PendingSettings (snap_settings snap) in
     if bool_decide (targetNodeID <> EmptyString) then in_key_order (inner pending targetNodeID)
     else mjoin (in_key_order <$> in_key_order pending)) <$> load s.

Definition UpdatePendingSettingsChangeStatus (s : JSONStore) (targetNodeID changeID status updatedAt lastError : string) :=
  if bool_decide (targetNodeID = EmptyString) then (s, Err (ErrRequired "target node id"))
  else if bool_decide (changeID = EmptyString) then (s, Err (ErrRequired "pending settings change id"))
  else if bool_decide (status <> "acked") && bool_decide (status <> "failed") then (s, Err (ErrStatus status))
  else if bool_decide (status = "failed") && bool_decide (lastError = EmptyString)
  then (s, Err (ErrRequired "failed pending settings change status last error"))
  else match LoadPendingSettingsChange s targetNodeID changeID with
  | Err e => (s, Err e)
  | Ok None => (s, Err (ErrNotFound changeID))
  | Ok (Some change) => SavePendingSettingsChange s targetNodeID (set_status status updatedAt lastError change)
  end.

(** ** Applying a change *)

Fixpoint cloneSettingsValue (value : settingsValue) : settingsValue :=
  match value with
  | SVMap m => SVMap ((fix go m := match m with [] => [] | (k, v) :: m' => (k, cloneSettingsValue v) :: go m' end) m)
  | SVList l => SVList ((fix go l := match l with [] => [] | v :: l' => cloneSettingsValue v :: go l' end) l)
  | _ => value
  end.

Definition authorizedKey : string := "mesh.authorizedSettingsPeers".

Definition settingsChangeOriginAuthorized (doc : NodeSettingsDocument) (originNodeID : string) : bool :=
  match NodeSettingsDocument_Settings doc !! authorizedKey with
  | None => true
  | Some (SVList peers) =>
      existsb (fun item => match item with SVString peer => bool_decide (peer = originNodeID) | _ => false end) peers
  | Some _ => false
  end.

(** The document a change leaves. *)
Definition patchDocument (doc : NodeSettingsDocument) (change : PendingSettingsChange) (appliedAt : string)
    : NodeSettingsDocument :=
  mkNodeSettingsDocument (NodeSettingsDocument_NodeID doc)
    (if NodeSettingsDocument_Revision doc <? PendingSettingsChange_Revision change
     then PendingSettingsChange_Revision change else NodeSettingsDocument_Revision doc)
    appliedAt
    (foldl (fun settings kv => <[kv.1 := cloneSettingsValue kv.2]> settings) (NodeSettingsDocument_Settings doc)
       (map_to_list (PendingSettingsChange_SettingsPatch change)))
    "mesh" "applied".

Section apply.
Context (quote : string -> string).

Definition unauthorizedMessage (change : PendingSettingsChange) (targetNodeID : string) : string :=
  "origin node " +:+ quote (PendingSettingsChange_OriginNodeID change) +:+
  " is not authorized to change settings for " +:+ quote targetNodeID.

Definition failedMessage (change : PendingSettingsChange) : string :=
  "pending settings change " +:+ quote (PendingSettingsChange_ID change) +:+ " is failed: "
    +:+ PendingSettingsChange_LastError change.

Definition staleMessage (change : PendingSettingsChange) (doc : NodeSettingsDocument) : string :=
  "stale pending settings change revision " +:+ itoa (PendingSettingsChange_Revision change) +:+
  " is not newer than node document revision " +:+ itoa (NodeSettingsDocument_Revision doc).

(** [change.Status = "failed"; ...; save; return NodeSettingsDocument{}, change, err] *)
Definition failChange (s : JSONStore) (targetNodeID appliedAt message : string) (change : PendingSettingsChange)
    : JSONStore * (NodeSettingsDocument * PendingSettingsChange * option StoreErr) :=
  let failed := set_status "failed" appliedAt message change in
  match SavePendingSettingsChange s targetNodeID failed with
  | (s', Err e) => (s', (NodeSettingsDocument_zero, PendingSettingsChange_zero, Some e))
  | (s', Ok _) => (s', (NodeSettingsDocument_zero, failed, Some (ErrSettings message)))
  end.

(** Past every guard: the document is saved, then the change, which is read back.
    [fault1] and [fault2] say whether the disk refuses the two writes. *)
Definition commitChange (fault1 fault2 : bool) (s : JSONStore) (targetNodeID appliedAt : string)
    (doc : NodeSettingsDocument) (change : PendingSettingsChange)
    : JSONStore * (NodeSettingsDocument * PendingSettingsChange * option StoreErr) :=
  let fail e := (NodeSettingsDocument_zero, PendingSettingsChange_zero, Some e) in
  let doc' := patchDocument doc change appliedAt in
  let change' := set_status "applied" appliedAt EmptyString change in
  match SaveNodeSettingsDocument (with_fault fault1 s) targetNodeID doc' with
  | (s1, Err e) => (s1, fail e)
  | (s1, Ok _) =>
      match SavePendingSettingsChange (with_fault fault2 s1) targetNodeID change' with
      | (s2, Err e) => (s2, fail e)
      | (s2, Ok _) =>
          match LoadPendingSettingsChange s2 targetNodeID (PendingSettingsChange_ID change') with
          | Err e => (s2, fail e)
          | Ok saved => (s2, (doc', default change' saved, None))
          end
      end
  end.

Definition ApplyPendingSettingsChange (fault1 fault2 : bool) (s : JSONStore) (targetNodeID changeID appliedAt : string)
    : JSONStore * (NodeSettingsDocument * PendingSettingsChange * option StoreErr) :=
  let fail e := (s, (NodeSettingsDocument_zero, PendingSettingsChange_zero, Some e)) in
  if bool_decide (targetNodeID = EmptyString) then fail (ErrRequired "target node id")
  else if bool_decide (changeID = EmptyString) then fail (ErrRequired "pending settings change id")
  else match LoadPendingSettingsChange s targetNodeID changeID with
  | Err e => fail e
  | Ok None => fail (ErrNotFound changeID)
  | Ok (Some change) =>
  match validatePendingSettingsChangeTarget targetNodeID change with
  | Err e => fail e
  | Ok _ =>
  match LoadNodeSettingsDocument s targetNodeID with
  | Err e => fail e
  | Ok found =>
      let doc := default (mkNodeSettingsDocument targetNodeID 0 EmptyString ∅ EmptyString EmptyString) found in
      if bool_decide (NodeSettingsDocument_NodeID doc <> targetNodeID)
      then fail (ErrMismatch targetNodeID (NodeSettingsDocument_NodeID doc))
      else if bool_decide (PendingSettingsChange_Status change = "applied") then (s, (doc, change, None))
      else if bool_decide (PendingSettingsChange_Status change = "failed")
      then (s, (NodeSettingsDocument_zero, change, Some (ErrSettings (failedMessage change))))
      else if negb (settingsChangeOriginAuthorized doc (PendingSettingsChange_OriginNodeID change))
      then failChange (with_fault fault1 s) targetNodeID appliedAt (unauthorizedMessage change targetNodeID) change
      else if PendingSettingsChange_Revision change <=? NodeSettingsDocument_Revision doc
      then failChange (with_fault fault1 s) targetNodeID appliedAt (staleMessage change doc) change
      else commitChange fault1 fault2 s targetNodeID appliedAt doc change
  end end end.
End apply.

(** ** Properties *)

(** *** What the operations do to the settings part of the store *)

Definition settings_of (s : JSONStore) : result StoreErr settingsMeta := snap_settings <$> load s.

Lemma settings_of_with_fault b s : settings_of (with_fault b s) = settings_of s.
Proof. unfold settings_of. by rewrite load_with_fault. Qed.

Lemma settings_of_Ok s g : settings_of s = Ok g -> exists snap, load s = Ok snap /\ snap_settings snap = g.
Proof. unfold settings_of. destruct (load s) as [snap|]; [|done]. intros [= <-]. by exists snap. Qed.

Lemma modify_settings_cases s f g :
  settings_of s = Ok g ->
  match modify_settings s f with
  | (s', Ok _) => settings_of s' = Ok (f g)
  | (s', Err e) => s' = s
  end.
Proof.
  intros (snap & Hl & <-)%settings_of_Ok.
  pose proof (modify_ok s (fun snap => Ok (with_settings (f (snap_settings snap)) snap)) snap _ Hl eq_refl) as H.
  unfold modify_settings. destruct (modify _ _) as [s' [u|e]]; [|tauto]. unfold settings_of. by rewrite H.
Qed.

Lemma modify_settings_ok s f g :
  settings_of s = Ok g -> exists s', modify_settings (with_fault false s) f = (s', Ok tt) /\ settings_of s' = Ok (f g).
Proof.
  intros Hg. pose proof (modify_settings_cases (with_fault false s) f g) as H.
  rewrite settings_of_with_fault in H. specialize (H Hg).
  destruct (modify_settings (with_fault false s) f) as [s' [[]|e]] eqn:E; [by exists s'|]. exfalso.
  apply settings_of_Ok in Hg as (snap & Hl & _). unfold modify_settings, modify in E. rewrite load_with_fault, Hl in E.
  unfold load, with_fault in *. simpl in E. unfold save in E. simpl in E.
  destruct (JSONStore_backend s) as [b|]; [|done]. simpl in E. done.
Qed.

Lemma LoadNodeSettingsDocument_of s n g :
  settings_of s = Ok g -> LoadNodeSettingsDocument s n = Ok (NodeSettings g !! n).
Proof. intros (snap & Hl & <-)%settings_of_Ok. unfold LoadNodeSettingsDocument. by rewrite Hl. Qed.

Lemma LoadPendingSettingsChange_of s t id g :
  settings_of s = Ok g -> LoadPendingSettingsChange s t id = Ok (inner (PendingSettings g) t !! id).
Proof. intros (snap & Hl & <-)%settings_of_Ok. unfold LoadPendingSettingsChange. by rewrite Hl. Qed.

(** The stored form of a saved change. *)
Definition audited_form (g : settingsMeta) (t : string) (change : PendingSettingsChange) : PendingSettingsChange :=
  let found := inner (PendingSettings g) t !! PendingSettingsChange_ID change in
  withPendingSettingsAudit (default PendingSettingsChange_zero found) change (bool_decide (is_Some found)).

Lemma SavePending_cases s t change g :
  settings_of s = Ok g ->
  match SavePendingSettingsChange s t change with
  | (s', Ok _) => settings_of s' = Ok (put_change t (audited_form g t change) g)
  | (s', Err e) => s' = s
  end.
Proof.
  intros Hg. unfold SavePendingSettingsChange. destruct (validatePendingSettingsChangeTarget _ _); [|done].
  rewrite (LoadPendingSettingsChange_of _ _ _ _ Hg). by apply modify_settings_cases.
Qed.

Lemma SavePending_ok s t change g :
  settings_of s = Ok g -> validatePendingSettingsChangeTarget t change = Ok tt ->
  exists s', SavePendingSettingsChange (with_fault false s) t change = (s', Ok tt) /\
    settings_of s' = Ok (put_change t (audited_form g t change) g).
Proof.
  intros Hg Hv. unfold SavePendingSettingsChange. rewrite Hv.
  rewrite (LoadPendingSettingsChange_of (with_fault false s) _ _ g) by by rewrite settings_of_with_fault.
  by apply modify_settings_ok.
Qed.

Lemma SaveDocument_cases s t doc g :
  settings_of s = Ok g -> NodeSettingsDocument_NodeID doc = t -> t <> EmptyString ->
  match SaveNodeSettingsDocument s t doc with
  | (s', Ok _) => settings_of s' = Ok (put_document t doc g)
  | (s', Err e) => s' = s
  end.
Proof.
  intros Hg Hid Ht. unfold SaveNodeSettingsDocument. rewrite Hid.
  rewrite !(bool_decide_eq_false_2 (t = EmptyString)) by done.
  rewrite bool_decide_eq_false_2 by (intros Hn; by apply Hn). by apply modify_settings_cases.
Qed.

Lemma SaveDocument_ok s t doc g :
  settings_of s = Ok g -> NodeSettingsDocument_NodeID doc = t -> t <> EmptyString ->
  exists s', SaveNodeSettingsDocument (with_fault false s) t doc = (s', Ok tt) /\
    settings_of s' = Ok (put_document t doc g).
Proof.
  intros Hg Hid Ht. unfold SaveNodeSettingsDocument. rewrite Hid.
  rewrite !(bool_decide_eq_false_2 (t = EmptyString)) by done.
  rewrite bool_decide_eq_false_2 by (intros Hn; by apply Hn). by apply modify_settings_ok.
Qed.

(** *** The patch *)

Fixpoint cloneSettingsValue_id (v : settingsValue) : cloneSettingsValue v = v.
Proof.
  destruct v as [| | | |l|m]; try reflexivity; cbn [cloneSettingsValue]; f_equal.
  - induction l as [|x l IH]; [done|]. by rewrite cloneSettingsValue_id, IH.
  - induction m as [|[k x] m IH]; [done|]. by rewrite cloneSettingsValue_id, IH.
Qed.

Lemma patch_settings (m0 patch : gmap string settingsValue) k :
  foldl (fun settings kv => <[kv.1 := cloneSettingsValue kv.2]> settings) m0 (map_to_list patch) !! k =
  match patch !! k with Some v => Some v | None => m0 !! k end.
Proof.
  change (foldl _ m0 (map_to_list patch)) with (put_all fst (fun kv => cloneSettingsValue kv.2) m0 (map_to_list patch)).
  destruct (patch !! k) as [v|] eqn:E.
  - apply elem_of_map_to_list in E.
    rewrite (put_all_NoDup fst (fun kv : string * settingsValue => cloneSettingsValue kv.2) m0 _ (k, v));
      [|apply NoDup_fst_map_to_list|done]. simpl. by rewrite cloneSettingsValue_id.
  - apply put_all_None. intros ([k' v] & -> & Hin%elem_of_map_to_list)%list_elem_of_fmap. simpl in E. congruence.
Qed.

(** The conditions under which a change may take effect on a document. *)
Definition applicable (doc : NodeSettingsDocument) (change : PendingSettingsChange) : Prop :=
  PendingSettingsChange_Status change <> "applied" /\ PendingSettingsChange_Status change <> "failed" /\
  settingsChangeOriginAuthorized doc (PendingSettingsChange_OriginNodeID change) = true /\
  NodeSettingsDocument_Revision doc < PendingSettingsChange_Revision change.

(** [doc'] is [doc] with the change in force. *)
Definition patched (doc doc' : NodeSettingsDocument) (change : PendingSettingsChange) : Prop :=
  NodeSettingsDocument_NodeID doc' = NodeSettingsDocument_NodeID doc /\
  NodeSettingsDocument_Revision doc' = PendingSettingsChange_Revision change /\
  forall k, NodeSettingsDocument_Settings doc' !! k =
    match PendingSettingsChange_SettingsPatch change !! k with
    | Some v => Some v
    | None => NodeSettingsDocument_Settings doc !! k
    end.

Lemma patchDocument_patched doc change appliedAt :
  NodeSettingsDocument_Revision doc < PendingSettingsChange_Revision change ->
  patched doc (patchDocument doc change appliedAt) change.
Proof.
  intros Hr. unfold patched, patchDocument. cbn. split_and!; [done| |apply patch_settings].
  by destruct (Z.ltb_spec (NodeSettingsDocument_Revision doc) (PendingSettingsChange_Revision change)); [|lia].
Qed.

Definition documentOf (g : settingsMeta) (t : string) : NodeSettingsDocument :=
  default (mkNodeSettingsDocument t 0 EmptyString ∅ EmptyString EmptyString) (NodeSettings g !! t).

(** *** The outcomes of ApplyPendingSettingsChange *)

Definition stored (g : settingsMeta) (t id : string) (c : PendingSettingsChange) : Prop :=
  inner (PendingSettings g) t !! id = Some c.

Definition keyed (g : settingsMeta) : Prop := forall t id c, stored g t id c -> PendingSettingsChange_ID c = id.

Inductive apply_outcome (g : settingsMeta) (t id appliedAt : string)
    : settingsMeta -> NodeSettingsDocument -> PendingSettingsChange -> option StoreErr -> Prop :=
| out_refused d c e : apply_outcome g t id appliedAt g d c (Some e)
| out_already c : stored g t id c -> PendingSettingsChange_Status c = "applied" ->
    apply_outcome g t id appliedAt g (documentOf g t) c None
| out_failed c message e : stored g t id c -> ~ applicable (documentOf g t) c ->
    apply_outcome g t id appliedAt
      (put_change t (audited_form g t (set_status "failed" appliedAt message c)) g)
      NodeSettingsDocument_zero (set_status "failed" appliedAt message c) (Some e)
| out_document c e : stored g t id c -> applicable (documentOf g t) c ->
    apply_outcome g t id appliedAt (put_document t (patchDocument (documentOf g t) c appliedAt) g)
      NodeSettingsDocument_zero PendingSettingsChange_zero (Some e)
| out_applied c : stored g t id c -> applicable (documentOf g t) c ->
    let c' := audited_form g t (set_status "applied" appliedAt EmptyString c) in
    apply_outcome g t id appliedAt
      (put_change t c' (put_document t (patchDocument (documentOf g t) c appliedAt) g))
      (patchDocument (documentOf g t) c appliedAt) c' None.

Section apply_proofs.
Context (quote : string -> string).

Lemma failChange_outcome s g t id appliedAt message c :
  settings_of s = Ok g -> stored g t id c -> ~ applicable (documentOf g t) c ->
  exists g', settings_of (failChange s t appliedAt message c).1 = Ok g' /\
    let r := (failChange s t appliedAt message c).2 in apply_outcome g t id appliedAt g' r.1.1 r.1.2 r.2.
Proof.
  intros Hg Hst Hna. unfold failChange.
  pose proof (SavePending_cases s t (set_status "failed" appliedAt message c) g Hg) as H.
  destruct (SavePendingSettingsChange _ _ _) as [s' [u|e]]; cbn [fst snd].
  - eexists. split; [exact H|]. by apply out_failed.
  - subst s'. exists g. split; [done|]. apply out_refused.
Qed.

Lemma commitChange_outcome f1 f2 s g t id appliedAt c :
  settings_of s = Ok g -> stored g t id c -> keyed g -> applicable (documentOf g t) c ->
  t <> EmptyString -> NodeSettingsDocument_NodeID (documentOf g t) = t ->
  exists g', settings_of (commitChange f1 f2 s t appliedAt (documentOf g t) c).1 = Ok g' /\
    let r := (commitChange f1 f2 s t appliedAt (documentOf g t) c).2 in
    apply_outcome g t id appliedAt g' r.1.1 r.1.2 r.2.
Proof.
  intros Hg Hst Hk Ha Ht Hid. unfold commitChange.
  set (doc' := patchDocument (documentOf g t) c appliedAt).
  pose proof (SaveDocument_cases (with_fault f1 s) t doc' g) as H1.
  rewrite settings_of_with_fault in H1. specialize (H1 Hg Hid Ht).
  destruct (SaveNodeSettingsDocument _ _ _) as [s1 [u|e]]; cbn [fst snd].
  2:{ subst s1. exists g. rewrite settings_of_with_fault. split; [done|]. apply out_refused. }
  pose proof (SavePending_cases (with_fault f2 s1) t (set_status "applied" appliedAt EmptyString c)
    (put_document t doc' g)) as H2.
  rewrite settings_of_with_fault in H2. specialize (H2 H1).
  destruct (SavePendingSettingsChange _ _ _) as [s2 [u2|e]]; cbn [fst snd].
  2:{ subst s2. eexists. rewrite settings_of_with_fault. split; [exact H1|]. by apply out_document. }
  rewrite (LoadPendingSettingsChange_of _ _ _ _ H2). cbn [put_change PendingSettings fst snd].
  eexists. split; [exact H2|].
  change (PendingSettingsChange_ID (audited_form (put_document t doc' g) t
    (set_status "applied" appliedAt EmptyString c))) with (PendingSettingsChange_ID c).
  change (PendingSettingsChange_ID (set_status "applied" appliedAt EmptyString c)) with (PendingSettingsChange_ID c).
  rewrite inner_put2_eq, lookup_insert_eq. cbn [fst snd].
  match goal with |- context [default ?a (Some ?b)] => change (default a (Some b)) with b end.
  exact (out_applied g t id appliedAt c Hst Ha).
Qed.

Lemma Apply_outcome f1 f2 s g t id appliedAt :
  settings_of s = Ok g -> keyed g ->
  exists g', settings_of (ApplyPendingSettingsChange quote f1 f2 s t id appliedAt).1 = Ok g' /\
    let r := (ApplyPendingSettingsChange quote f1 f2 s t id appliedAt).2 in
    apply_outcome g t id appliedAt g' r.1.1 r.1.2 r.2.
Proof.
  intros Hg Hk. unfold ApplyPendingSettingsChange.
  assert (forall d c e, exists g', settings_of s = Ok g' /\ apply_outcome g t id appliedAt g' d c (Some e)) as Hrefuse.
  { intros d c e. exists g. split; [done|]. apply out_refused. }
  destruct (bool_decide_reflect (t = EmptyString)) as [|Ht]; [apply Hrefuse|].
  destruct (bool_decide _); [apply Hrefuse|].
  rewrite (LoadPendingSettingsChange_of _ _ _ _ Hg).
  destruct (inner (PendingSettings g) t !! id) as [c|] eqn:Hst; [|apply Hrefuse].
  destruct (validatePendingSettingsChangeTarget t c); [|apply Hrefuse].
  rewrite (LoadNodeSettingsDocument_of _ _ _ Hg). fold (documentOf g t).
  destruct (bool_decide_reflect (NodeSettingsDocument_NodeID (documentOf g t) <> t)) as [|Hid]; [apply Hrefuse|].
  apply dec_stable in Hid.
  destruct (bool_decide_reflect (PendingSettingsChange_Status c = "applied")) as [Happ|Happ].
  { exists g. split; [done|]. by apply out_already. }
  destruct (bool_decide_reflect (PendingSettingsChange_Status c = "failed")) as [Hf|Hf]; [apply Hrefuse|].
  destruct (settingsChangeOriginAuthorized (documentOf g t) (PendingSettingsChange_OriginNodeID c)) eqn:Eauth; cbn [negb].
  2:{ apply failChange_outcome; [by rewrite settings_of_with_fault|done|]. intros (_ & _ & H & _). congruence. }
  destruct (Z.leb_spec (PendingSettingsChange_Revision c) (NodeSettingsDocument_Revision (documentOf g t))) as [Hr|Hr].
  { apply failChange_outcome; [by rewrite settings_of_with_fault|done|]. intros (_ & _ & _ & H). lia. }
  by apply commitChange_outcome.
Qed.

(** [C27] Settings changes take effect only when they may.  Whatever the disk
    refuses in between, applying a change leaves every other node's document
    alone, and the target's document is either untouched or exactly the old
    one with the patch in force at the change's revision - and the latter only
    for a change that was neither applied nor failed before, whose origin the
    document authorises and whose revision is newer; a call without error
    means that the returned document is the stored one and the stored change
    is recorded as applied. *)
Theorem ApplyPendingSettingsChange_safe f1 f2 s g t id appliedAt :
  settings_of s = Ok g -> keyed g ->
  exists g', settings_of (ApplyPendingSettingsChange quote f1 f2 s t id appliedAt).1 = Ok g' /\
    (forall n, n <> t -> NodeSettings g' !! n = NodeSettings g !! n) /\
    (NodeSettings g' !! t = NodeSettings g !! t \/
     exists c doc', stored g t id c /\ applicable (documentOf g t) c /\
       NodeSettings g' !! t = Some doc' /\ patched (documentOf g t) doc' c) /\
    (forall doc c, (ApplyPendingSettingsChange quote f1 f2 s t id appliedAt).2 = (doc, c, None) ->
       doc = documentOf g' t /\ stored g' t id c /\ PendingSettingsChange_Status c = "applied").
Proof.
  intros Hg Hk. destruct (Apply_outcome f1 f2 s g t id appliedAt Hg Hk) as (g' & Hg' & Hout).
  exists g'. split; [done|].
  destruct (ApplyPendingSettingsChange quote f1 f2 s t id appliedAt).2 as [[d c] err]. cbn [fst snd] in Hout.
  destruct Hout as [d c e|c Hst Hs|c m e Hst Hna|c e Hst Ha|c Hst Ha c'];
    cbn [put_change put_document NodeSettings PendingSettings].
  - split_and!; [done|by left|done].
  - split_and!; [done|by left|]. by intros ? ? [= <- <-].
  - split_and!; [done|by left|done].
  - split_and!; [intros n Hn; by rewrite lookup_insert_ne| |done].
    right. exists c, (patchDocument (documentOf g t) c appliedAt). split_and!; [done|done|apply lookup_insert_eq|].
    apply patchDocument_patched, Ha.
  - split_and!; [intros n Hn; by rewrite lookup_insert_ne| |].
    + right. exists c, (patchDocument (documentOf g t) c appliedAt). split_and!; [done|done|apply lookup_insert_eq|].
      apply patchDocument_patched, Ha.
    + intros ? ? [= <- <-]. split_and!; [by unfold documentOf; cbn; rewrite lookup_insert_eq| |done].
      unfold stored. cbn. rewrite inner_put2_eq.
      change (PendingSettingsChange_ID c') with (PendingSettingsChange_ID c). rewrite (Hk t id c Hst).
      apply lookup_insert_eq.
Qed.
End apply_proofs.

(** An applicable change is applied, once: with a working disk the call
    succeeds and leaves the patched document, and every later call for the same
    change returns the same document and change and does not touch the store. *)
Theorem ApplyPendingSettingsChange_once quote s g t id appliedAt c :
  settings_of s = Ok g -> keyed g -> t <> EmptyString -> id <> EmptyString ->
  stored g t id c -> validatePendingSettingsChangeTarget t c = Ok tt ->
  NodeSettingsDocument_NodeID (documentOf g t) = t -> applicable (documentOf g t) c ->
  exists s' doc' c',
    ApplyPendingSettingsChange quote false false s t id appliedAt = (s', (doc', c', None)) /\
    patched (documentOf g t) doc' c /\ PendingSettingsChange_Status c' = "applied" /\
    forall f1 f2 at', ApplyPendingSettingsChange quote f1 f2 s' t id at' = (s', (doc', c', None)).
Proof.
  intros Hg Hk Ht Hid Hst Hv Hn Ha. destruct Ha as (Ha1 & Ha2 & Ha3 & Ha4).
  set (doc' := patchDocument (documentOf g t) c appliedAt).
  set (c1 := set_status "applied" appliedAt EmptyString c).
  set (c' := audited_form g t c1).
  destruct (SaveDocument_ok s t doc' g Hg Hn Ht) as (s1 & E1 & Hg1).
  assert (validatePendingSettingsChangeTarget t c1 = Ok tt) as Hv1 by exact Hv.
  destruct (SavePending_ok s1 t c1 _ Hg1 Hv1) as (s2 & E2 & Hg2).
  change (audited_form (put_document t doc' g) t c1) with c' in Hg2.
  assert (PendingSettingsChange_ID c1 = id) as Hid1 by exact (Hk t id c Hst).
  assert (inner (PendingSettings (put_change t c' (put_document t doc' g))) t !! id = Some c') as Hst2.
  { cbn [put_change PendingSettings]. rewrite inner_put2_eq.
    change (PendingSettingsChange_ID c') with (PendingSettingsChange_ID c1). rewrite Hid1. apply lookup_insert_eq. }
  exists s2, doc', c'. split_and!; [| |done|].
  - unfold ApplyPendingSettingsChange. rewrite !bool_decide_eq_false_2 by done.
    rewrite (LoadPendingSettingsChange_of _ _ _ _ Hg), Hst, Hv, (LoadNodeSettingsDocument_of _ _ _ Hg).
    fold (documentOf g t). rewrite (bool_decide_eq_false_2 (_ <> t)) by (intros H; by apply H).
    rewrite !bool_decide_eq_false_2 by done. rewrite Ha3. cbn [negb].
    destruct (Z.leb_spec (PendingSettingsChange_Revision c) (NodeSettingsDocument_Revision (documentOf g t))); [lia|].
    unfold commitChange. fold doc' c1. rewrite E1, E2, Hid1.
    by rewrite (LoadPendingSettingsChange_of _ _ _ _ Hg2), Hst2.
  - by apply patchDocument_patched.
  - intros f1 f2 at'. unfold ApplyPendingSettingsChange. rewrite !bool_decide_eq_false_2 by done.
    rewrite (LoadPendingSettingsChange_of _ _ _ _ Hg2), Hst2.
    replace (validatePendingSettingsChangeTarget t c') with (Ok (E := StoreErr) tt) by (symmetry; exact Hv).
    rewrite (LoadNodeSettingsDocument_of _ _ _ Hg2).
    cbn [put_change put_document NodeSettings]. rewrite lookup_insert_eq.
    match goal with |- context [default ?a (Some ?b)] => change (default a (Some b)) with b end.
    rewrite (bool_decide_eq_false_2 (NodeSettingsDocument_NodeID doc' <> t)) by (intros H; by apply H).
    by rewrite (bool_decide_eq_true_2 (PendingSettingsChange_Status c' = "applied")).
Qed.

(** *** The audit trail *)

(** One call of an operation on settings, whatever the disk refuses in it.  New
    changes arrive without a trail of their own. *)
Inductive settings_step (quote : string -> string) (s : JSONStore) : JSONStore -> Prop :=
| step_document b nodeID doc :
    settings_step quote s (SaveNodeSettingsDocument (with_fault b s) nodeID doc).1
| step_queue b t c : PendingSettingsChange_AuditTrail c = [] ->
    settings_step quote s (SavePendingSettingsChange (with_fault b s) t c).1
| step_update b t id status updatedAt lastError :
    settings_step quote s (UpdatePendingSettingsChangeStatus (with_fault b s) t id status updatedAt lastError).1
| step_apply f1 f2 t id appliedAt :
    settings_step quote s (ApplyPendingSettingsChange quote f1 f2 s t id appliedAt).1.

(** The newest entry of a stored change's trail records its status. *)
Definition audited (c : PendingSettingsChange) : Prop :=
  exists e, last (PendingSettingsChange_AuditTrail c) = Some e /\
    PendingSettingsAuditEntry_Status e = PendingSettingsChange_Status c.

Definition settings_ok (g : settingsMeta) : Prop :=
  keyed g /\ forall t id c, stored g t id c -> audited c.

(** What a change of the settings may do to the stored changes. *)
Definition audit_grows (g g' : settingsMeta) : Prop := forall t id c, stored g t id c ->
  exists c', stored g' t id c' /\ PendingSettingsChange_AuditTrail c `prefix_of` PendingSettingsChange_AuditTrail c'.

#[export] Instance audit_grows_preorder : PreOrder audit_grows.
Proof.
  split.
  - intros g t id c H. by exists c.
  - intros g1 g2 g3 H1 H2 t id c H. destruct (H1 t id c H) as (c1 & Hc1 & Hp1).
    destruct (H2 t id c1 Hc1) as (c2 & Hc2 & Hp2). exists c2. split; [done|by etrans].
Qed.

Lemma audited_form_spec g t next :
  settings_ok g ->
  (forall c, stored g t (PendingSettingsChange_ID next) c ->
     (length (PendingSettingsChange_AuditTrail next) <= length (PendingSettingsChange_AuditTrail c))%nat) ->
  (~ (exists c, stored g t (PendingSettingsChange_ID next) c) -> PendingSettingsChange_AuditTrail next = []) ->
  audited (audited_form g t next) /\
  forall c, stored g t (PendingSettingsChange_ID next) c ->
    PendingSettingsChange_AuditTrail c `prefix_of` PendingSettingsChange_AuditTrail (audited_form g t next).
Proof.
  intros [Hk Hok] Hlen Hnew. unfold audited_form, stored in *.
  destruct (inner (PendingSettings g) t !! PendingSettingsChange_ID next) as [c|] eqn:E.
  - match goal with |- context [default ?a (Some ?b)] => change (default a (Some b)) with b end.
    rewrite bool_decide_eq_true_2 by by eexists.
    unfold withPendingSettingsAudit. rewrite (drop_ge (PendingSettingsChange_AuditTrail next)) by by apply Hlen.
    rewrite app_nil_r. cbn [negb orb].
    destruct (bool_decide_reflect (PendingSettingsChange_Status c <> PendingSettingsChange_Status next)) as [Hs|Hs].
    + split; [eexists; split; [apply last_snoc|done]|]. intros ? [= <-]. cbn. by apply prefix_app_r.
    + apply dec_stable in Hs. split; [|by intros ? [= <-]].
      destruct (Hok t _ c E) as (e & He & Hst). exists e. split; [done|]. cbn. congruence.
  - split; [|done]. exists (auditEntry next). split; [apply last_snoc|reflexivity].
Qed.

Lemma put_change_ok g t next :
  settings_ok g -> audited next ->
  (forall c, stored g t (PendingSettingsChange_ID next) c ->
     PendingSettingsChange_AuditTrail c `prefix_of` PendingSettingsChange_AuditTrail next) ->
  settings_ok (put_change t next g) /\ audit_grows g (put_change t next g).
Proof.
  intros [Hk Hok] Hn Hpre.
  assert (forall t' id c, stored (put_change t next g) t' id c <->
    (t = t' /\ PendingSettingsChange_ID next = id /\ c = next) \/
    (~ (t = t' /\ PendingSettingsChange_ID next = id) /\ stored g t' id c)) as Hput.
  { intros t' id c. unfold stored. cbn [put_change PendingSettings]. destruct (decide (t = t')) as [->|Ht].
    - rewrite inner_put2_eq, lookup_insert_Some. naive_solver.
    - rewrite inner_put2_ne by done. naive_solver. }
  split; [split|].
  - intros t' id c [(_ & <- & ->)|[_ H]]%Hput; [done|by eapply Hk].
  - intros t' id c [(_ & <- & ->)|[_ H]]%Hput; [done|by eapply Hok].
  - intros t' id c H. destruct (decide (t = t' /\ PendingSettingsChange_ID next = id)) as [[<- <-]|Hne].
    + exists next. split; [apply Hput; by left|by apply Hpre].
    + exists c. split; [apply Hput; by right|done].
Qed.

Lemma settings_ok_document g t doc : settings_ok g -> settings_ok (put_document t doc g) /\ audit_grows g (put_document t doc g).
Proof. intros H. split; [exact H|]. intros t' id c Hc. by exists c. Qed.

Lemma save_audited g t next :
  settings_ok g ->
  (PendingSettingsChange_AuditTrail next = [] \/
   exists c, stored g t (PendingSettingsChange_ID next) c /\
     PendingSettingsChange_AuditTrail next = PendingSettingsChange_AuditTrail c) ->
  settings_ok (put_change t (audited_form g t next) g) /\ audit_grows g (put_change t (audited_form g t next) g).
Proof.
  intros Hok Hnext. destruct (audited_form_spec g t next Hok) as [Ha Hp].
  - intros c Hc. destruct Hnext as [->|(c' & Hc' & ->)]; [simpl; lia|]. unfold stored in *. by simplify_eq.
  - intros Hn. destruct Hnext as [?|(c & Hc & _)]; [done|]. destruct Hn. by exists c.
  - by apply put_change_ok.
Qed.

(** What a call must leave: the invariant, and no trail shortened. *)
Definition keeps_settings (g : settingsMeta) (s : JSONStore) : Prop :=
  exists g', settings_of s = Ok g' /\ settings_ok g' /\ audit_grows g g'.

Lemma keeps_same g b s : settings_of s = Ok g -> settings_ok g -> keeps_settings g (with_fault b s).
Proof. intros Hg Hok. exists g. by rewrite settings_of_with_fault. Qed.

Lemma SavePending_keeps g b s t next :
  settings_of s = Ok g -> settings_ok g ->
  (PendingSettingsChange_AuditTrail next = [] \/
   exists c, stored g t (PendingSettingsChange_ID next) c /\
     PendingSettingsChange_AuditTrail next = PendingSettingsChange_AuditTrail c) ->
  keeps_settings g (SavePendingSettingsChange (with_fault b s) t next).1.
Proof.
  intros Hg Hok Hn. pose proof (SavePending_cases (with_fault b s) t next g) as H.
  rewrite settings_of_with_fault in H. specialize (H Hg).
  destruct (SavePendingSettingsChange _ _ _) as [s1 [u|e]]; cbn [fst].
  - eexists. split; [exact H|]. by apply save_audited.
  - subst s1. by apply keeps_same.
Qed.

Lemma SaveNodeSettingsDocument_keeps g b s nodeID doc :
  settings_of s = Ok g -> settings_ok g ->
  keeps_settings g (SaveNodeSettingsDocument (with_fault b s) nodeID doc).1.
Proof.
  intros Hg Hok. unfold SaveNodeSettingsDocument.
  destruct (bool_decide _); [by apply keeps_same|]. destruct (bool_decide (_ <> _)); [by apply keeps_same|].
  match goal with |- context [put_document ?n doc] => set (nn := n) end.
  pose proof (modify_settings_cases (with_fault b s) (put_document nn doc) g) as H.
  rewrite settings_of_with_fault in H. specialize (H Hg).
  destruct (modify_settings _ _) as [s1 [u|e]]; cbn [fst].
  - eexists. split; [exact H|]. by apply settings_ok_document.
  - subst s1. by apply keeps_same.
Qed.

Lemma UpdatePending_keeps g b s t id status updatedAt lastError :
  settings_of s = Ok g -> settings_ok g ->
  keeps_settings g (UpdatePendingSettingsChangeStatus (with_fault b s) t id status updatedAt lastError).1.
Proof.
  intros Hg Hok. unfold UpdatePendingSettingsChangeStatus.
  repeat (destruct (bool_decide _ && bool_decide _) || destruct (bool_decide _); try by apply keeps_same).
  all: rewrite (LoadPendingSettingsChange_of _ _ _ g) by (by rewrite settings_of_with_fault).
  all: destruct (inner (PendingSettings g) t !! id) as [c|] eqn:Hc; [|by apply keeps_same].
  all: apply SavePending_keeps; [done..|]; right; exists c; split; [|done].
  all: change (PendingSettingsChange_ID (set_status status updatedAt lastError c)) with (PendingSettingsChange_ID c).
  all: unfold stored; rewrite (proj1 Hok t id c Hc); exact Hc.
Qed.

Lemma Apply_keeps quote f1 f2 g s t id appliedAt :
  settings_of s = Ok g -> settings_ok g ->
  keeps_settings g (ApplyPendingSettingsChange quote f1 f2 s t id appliedAt).1.
Proof.
  intros Hg Hok. destruct (Apply_outcome quote f1 f2 s g t id appliedAt Hg (proj1 Hok)) as (g' & Hg' & Hout).
  exists g'. split; [done|].
  destruct (ApplyPendingSettingsChange quote f1 f2 s t id appliedAt).2 as [[d c] err]. cbn [fst snd] in Hout.
  assert (forall c st m, stored g t id c ->
    stored g t (PendingSettingsChange_ID (set_status st appliedAt m c)) c) as Hkey.
  { intros c0 st m Hc0. change (PendingSettingsChange_ID (set_status st appliedAt m c0)) with (PendingSettingsChange_ID c0).
    by rewrite (proj1 Hok t id c0 Hc0). }
  destruct Hout as [d c e|c Hst Hs|c m e Hst Hna|c e Hst Ha|c Hst Ha c']; [done|done| | |].
  - apply save_audited; [done|]. right. exists c. split; [by apply Hkey|done].
  - by apply settings_ok_document.
  - destruct (settings_ok_document g t (patchDocument (documentOf g t) c appliedAt) Hok) as [Hok1 Hgr1].
    destruct (save_audited (put_document t (patchDocument (documentOf g t) c appliedAt) g) t
      (set_status "applied" appliedAt EmptyString c) Hok1) as [Hok2 Hgr2].
    { right. exists c. split; [by apply Hkey|done]. }
    split; [exact Hok2|]. etrans; [exact Hgr1|exact Hgr2].
Qed.

Lemma settings_step_ok quote s s' g :
  settings_of s = Ok g -> settings_ok g -> settings_step quote s s' -> keeps_settings g s'.
Proof.
  intros Hg Hok Hstep. destruct Hstep as [b nodeID doc|b t c Hc|b t id status updatedAt lastError|f1 f2 t id appliedAt].
  - by apply SaveNodeSettingsDocument_keeps.
  - apply SavePending_keeps; [done..|]. by left.
  - by apply UpdatePending_keeps.
  - by apply Apply_keeps.
Qed.

(** Audit trails are append-only and up to date: along any sequence of
    calls, with any writes refused by the disk, a queued change is never
    dropped, its audit trail only grows, and the last entry of every stored
    change records the change's present status. *)
Theorem settings_audit_invariant quote s s' g :
  settings_of s = Ok g -> settings_ok g -> rtc (settings_step quote) s s' ->
  exists g', settings_of s' = Ok g' /\ settings_ok g' /\ audit_grows g g'.
Proof.
  intros Hg Hok Hrtc. revert g Hg Hok. induction Hrtc as [s|s s1 s2 Hstep _ IH]; intros g Hg Hok.
  - by exists g.
  - destruct (settings_step_ok _ _ _ _ Hg Hok Hstep) as (g1 & Hg1 & Hok1 & Hgr1).
    destruct (IH g1 Hg1 Hok1) as (g2 & Hg2 & Hok2 & Hgr2). exists g2. split_and!; [done|done|by etrans].
Qed.

(** *** Concrete runs *)

Definition demo_change : PendingSettingsChange :=
  mkPendingSettingsChange "c1" "n1" "n2" "key" 3 "pending" "t0" EmptyString {["theme" := SVString "dark"]} EmptyString [].
Definition demo_settings_store : JSONStore := (SavePendingSettingsChange demo_store "n1" demo_change).1.
Definition demo_settings : settingsMeta :=
  mkSettingsMeta ∅ {["n1" := {["c1" := set_AuditTrail [auditEntry demo_change] demo_change]}]}.
Definition demo_quote (s : string) : string := "'" +:+ s +:+ "'".

Lemma demo_settings_stored t id c : stored demo_settings t id c ->
  t = "n1" /\ id = "c1" /\ c = set_AuditTrail [auditEntry demo_change] demo_change.
Proof.
  by intros (<- & <- & <-)%inner_singleton_Some.
Qed.

Lemma demo_settings_ok : settings_ok demo_settings.
Proof.
  split; intros t id c (-> & -> & ->)%demo_settings_stored; [done|]. by eexists.
Qed.

Lemma ApplyPendingSettingsChange_safe_witness :
  let r := ApplyPendingSettingsChange demo_quote false false demo_settings_store "n1" "c1" "t1" in
  exists doc c, r.2 = (doc, c, None) /\ PendingSettingsChange_Status c = "applied".
Proof.
  intros r. destruct (ApplyPendingSettingsChange_safe demo_quote false false demo_settings_store demo_settings "n1" "c1" "t1"
    ltac:(vm_compute; reflexivity) (proj1 demo_settings_ok)) as (g' & _ & _ & _ & H).
  eexists _, _. assert (r.2 = _) as Hr by (vm_compute; reflexivity). split; [exact Hr|]. by apply (H _ _ Hr).
Defined.

Lemma ApplyPendingSettingsChange_once_witness :
  exists s' doc' c', ApplyPendingSettingsChange demo_quote false false demo_settings_store "n1" "c1" "t1" = (s', (doc', c', None)) /\
    NodeSettingsDocument_Settings doc' !! "theme" = Some (SVString "dark").
Proof.
  destruct (ApplyPendingSettingsChange_once demo_quote demo_settings_store demo_settings "n1" "c1" "t1"
    (set_AuditTrail [auditEntry demo_change] demo_change)) as (s' & doc' & c' & E & (_ & _ & Hp) & _).
  - vm_compute. reflexivity.
  - apply demo_settings_ok.
  - discriminate.
  - discriminate.
  - vm_compute. reflexivity.
  - reflexivity.
  - reflexivity.
  - split_and!; [discriminate|discriminate|reflexivity|vm_compute; reflexivity].
  - exists s', doc', c'. split; [exact E|]. rewrite Hp. vm_compute. reflexivity.
Defined.

Lemma settings_audit_invariant_witness :
  exists g', settings_of (ApplyPendingSettingsChange demo_quote false true demo_settings_store "n1" "c1" "t1").1 = Ok g' /\
    settings_ok g'.
Proof.
  destruct (settings_audit_invariant demo_quote demo_settings_store
    (ApplyPendingSettingsChange demo_quote false true demo_settings_store "n1" "c1" "t1").1 demo_settings
    ltac:(vm_compute; reflexivity) demo_settings_ok (rtc_once _ _ (step_apply _ _ _ _ _ _ _))) as (g' & Hg' & Hok & _).
  exists g'. exact (conj Hg' Hok).
Defined.

(** When only the second of the two writes is refused, the document holds the
    patch but the change is still pending; the retry finds the document at the
    change's revision and marks the change as failed. *)
Example retry_after_lost_save :
  let s1 := (ApplyPendingSettingsChange demo_quote false true demo_settings_store "n1" "c1" "t1").1 in
  let r2 := ApplyPendingSettingsChange demo_quote false false s1 "n1" "c1" "t2" in
  match LoadNodeSettingsDocument r2.1 "n1" with
  | Ok (Some doc) => NodeSettingsDocument_Settings doc !! "theme"
  | _ => None
  end = Some (SVString "dark") /\
  PendingSettingsChange_Status r2.2.1.2 = "failed".
Proof. vm_compute. by split. Qed.

(** A change saved with an empty target is filed under the empty key: its
    target never sees it. *)
Example saved_without_target :
  let r := SavePendingSettingsChange demo_store EmptyString demo_change in
  r.2 = Ok tt /\ ListPendingSettingsChanges r.1 "n1" = Ok [] /\
  LoadPendingSettingsChange r.1 "n1" "c1" = Ok None.
Proof. vm_compute. by split_and!. Qed.

(** An applied change that is acknowledged and then applied again is marked as
    failed. *)
Example acknowledged_then_failed :
  let s1 := (ApplyPendingSettingsChange demo_quote false false demo_settings_store "n1" "c1" "t1").1 in
  let s2 := (UpdatePendingSettingsChangeStatus s1 "n1" "c1" "acked" "t2" EmptyString).1 in
  PendingSettingsChange_Status (ApplyPendingSettingsChange demo_quote false false s2 "n1" "c1" "t3").2.1.2 = "failed".
Proof. vm_compute. done. Qed.
