(* ===== verification/ApplyGate.v ===== *)
(** * The apply gate: pending writes, skipped deletes and their crawler

    Models the apply-gate operations of [internal/state/json_store.go]
    (SavePendingWrite ... RemoveSkippedDelete) and
    [internal/maintenance/apply_gate_crawler.go].  A delete that arrives before
    the writes it depends on is skipped and recorded; it becomes ready when the
    writes are committed and the folder's metadata has reached the required
    state.  The crawler prunes the records nothing waits for any more; it is
    stated against the interface [ApplyGateStore], which the JSON store
    implements. *)

From S2P Require Import Prelude GoStd Block StoreData Store Maintenance.

Local Open Scope Z_scope.

(** ** Operations of the store *)

Definition ensureApplyGateState (folderID : string) (g : gateMeta) : gateMeta :=
  mkGateMeta (ensure folderID (PendingWrites g)) (ensure folderID (SkippedDeletes g)).

(** [snap, err := s.load(); ...; return s.save(snap)] on the gate's part. *)
Definition modify_gate (s : JSONStore) (f : gateMeta -> result StoreErr gateMeta)
    : JSONStore * result StoreErr unit :=
  modify s (fun snap => (fun g => with_gate g snap) <$> f (snap_gate snap)).

Definition put_write (folderID path : string) (write : PendingWrite) (g : gateMeta) : gateMeta :=
  mkGateMeta (put2 folderID path write (PendingWrites g)) (SkippedDeletes g).

Definition SavePendingWrite (s : JSONStore) (write : PendingWrite) :=
  checked s (_ ← require "folder id" (PendingWrite_FolderID write);
             require "pending write path" (PendingWrite_Path write))
    (modify_gate s (fun g =>
       Ok (put_write (PendingWrite_FolderID write) (PendingWrite_Path write) write
             (ensureApplyGateState (PendingWrite_FolderID write) g)))).

(** [PendingWrite(folderID, path)]: [ok] is [Some]. *)
Definition GetPendingWrite (s : JSONStore) (folderID path : string) : result StoreErr (option PendingWrite) :=
  (fun snap => inner (PendingWrites (snap_gate snap)) folderID !! path) <$> load s.

Definition write_lt : PendingWrite -> PendingWrite -> bool := last_key PendingWrite_Path str_lt.
Definition delete_lt : SkippedDelete -> SkippedDelete -> bool := last_key SkippedDelete_Path str_lt.

Definition ListPendingWrites (s : JSONStore) (folderID : string) : result StoreErr (list PendingWrite) :=
  (fun snap => sort_by write_lt (values (inner (PendingWrites (snap_gate snap)) folderID))) <$> load s.

Definition set_VerifiedBlocks (blocks : list VerifiedStagedBlock) (w : PendingWrite) : PendingWrite :=
  mkPendingWrite (PendingWrite_FolderID w) (PendingWrite_Path w) (PendingWrite_Manifest w)
    (PendingWrite_ExpectedBaseManifest w) (PendingWrite_RequiredMetadataCursor w)
    (PendingWrite_RequiredMetadataStateHash w) blocks (PendingWrite_Committed w) (PendingWrite_Reason w).

Definition set_Committed (committed : bool) (w : PendingWrite) : PendingWrite :=
  mkPendingWrite (PendingWrite_FolderID w) (PendingWrite_Path w) (PendingWrite_Manifest w)
    (PendingWrite_ExpectedBaseManifest w) (PendingWrite_RequiredMetadataCursor w)
    (PendingWrite_RequiredMetadataStateHash w) (PendingWrite_VerifiedBlocks w) committed (PendingWrite_Reason w).

(** [write, ok := m[f][p]; if !ok { error }; ...; m[f][p] = write] *)
Definition update_write (folderID path : string) (f : PendingWrite -> PendingWrite) (g0 : gateMeta)
    : result StoreErr gateMeta :=
  let g := ensureApplyGateState folderID g0 in
  match inner (PendingWrites g) folderID !! path with
  | None => Err (ErrNotFound (folderID +:+ "/" +:+ path))
  | Some write => Ok (put_write folderID path (f write) g)
  end.

Definition AddVerifiedStagedBlock (s : JSONStore) (folderID path : string) (verified : VerifiedStagedBlock) :=
  modify_gate s (update_write folderID path (fun w =>
    set_VerifiedBlocks (PendingWrite_VerifiedBlocks w ++ [verified]) w)).

Definition MarkPendingWriteCommitted (s : JSONStore) (folderID path : string) :=
  modify_gate s (update_write folderID path (set_Committed true)).

Definition RemovePendingWrite (s : JSONStore) (folderID path : string) :=
  modify_gate s (fun g =>
    Ok (mkGateMeta (del2 folderID path (PendingWrites g)) (SkippedDeletes g))).

Definition sort_required (d : SkippedDelete) : SkippedDelete :=
  mkSkippedDelete (SkippedDelete_FolderID d) (SkippedDelete_Path d)
    (SkippedDelete_RequiredMetadataCursor d) (SkippedDelete_RequiredMetadataStateHash d)
    (sort_by str_lt (SkippedDelete_RequiredWrites d)) (SkippedDelete_Reason d).

Definition SaveSkippedDelete (s : JSONStore) (d : SkippedDelete) :=
  checked s (_ ← require "folder id" (SkippedDelete_FolderID d);
             require "skipped delete path" (SkippedDelete_Path d))
    (modify_gate s (fun g0 =>
       let g := ensureApplyGateState (SkippedDelete_FolderID d) g0 in
       Ok (mkGateMeta (PendingWrites g)
             (put2 (SkippedDelete_FolderID d) (SkippedDelete_Path d) (sort_required d) (SkippedDeletes g))))).

Definition metadataPrerequisitesMet (d : SkippedDelete) (current : FolderSummary) : bool :=
  if (0 <? SkippedDelete_RequiredMetadataCursor d) &&
     (FolderSummary_Cursor current <? SkippedDelete_RequiredMetadataCursor d) then false
  else if bool_decide (SkippedDelete_RequiredMetadataStateHash d <> EmptyString) &&
          bool_decide (FolderSummary_StateHash current <> SkippedDelete_RequiredMetadataStateHash d) then false
  else true.

Fixpoint requiredWritesCommitted (writes : gmap string PendingWrite) (required : list string) : bool :=
  match required with
  | [] => true
  | path :: required' =>
      match writes !! path with
      | None => false
      | Some write => if PendingWrite_Committed write then requiredWritesCommitted writes required' else false
      end
  end.

Definition readyDelete (writes : gmap string PendingWrite) (current : FolderSummary) (d : SkippedDelete) : bool :=
  metadataPrerequisitesMet d current && requiredWritesCommitted writes (SkippedDelete_RequiredWrites d).

Definition ReadySkippedDeletes (s : JSONStore) (folderID : string) (current : FolderSummary)
    : result StoreErr (list SkippedDelete) :=
  (fun snap =>
     sort_by delete_lt
       (List.filter (readyDelete (inner (PendingWrites (snap_gate snap)) folderID) current)
          (values (inner (SkippedDeletes (snap_gate snap)) folderID)))) <$> load s.

Definition ListSkippedDeletes (s : JSONStore) (folderID : string) : result StoreErr (list SkippedDelete) :=
  (fun snap => sort_by delete_lt (values (inner (SkippedDeletes (snap_gate snap)) folderID))) <$> load s.

Definition RemoveSkippedDelete (s : JSONStore) (folderID path : string) :=
  modify_gate s (fun g =>
    Ok (mkGateMeta (PendingWrites g) (del2 folderID path (SkippedDeletes g)))).

(** ** Histories of the gate

    A sequence of operations, each with a flag that says whether the disk
    refuses the write this time, and the log of the operations that returned
    no error, newest first. *)

Inductive gateOp :=
| GSaveWrite (write : PendingWrite)
| GVerified (folderID path : string) (verified : VerifiedStagedBlock)
| GCommit (folderID path : string)
| GRemoveWrite (folderID path : string)
| GSaveDelete (d : SkippedDelete)
| GRemoveDelete (folderID path : string).

Definition gate_op (s : JSONStore) (op : gateOp) : JSONStore * result StoreErr unit :=
  match op with
  | GSaveWrite write => SavePendingWrite s write
  | GVerified folderID path verified => AddVerifiedStagedBlock s folderID path verified
  | GCommit folderID path => MarkPendingWriteCommitted s folderID path
  | GRemoveWrite folderID path => RemovePendingWrite s folderID path
  | GSaveDelete d => SaveSkippedDelete s d
  | GRemoveDelete folderID path => RemoveSkippedDelete s folderID path
  end.

Definition gate_run : JSONStore -> list (bool * gateOp) -> JSONStore * list gateOp := run_calls gate_op.

(** What the log says, read backwards from the present: was the write of a
    path committed, and which delete is recorded for a path. *)
Fixpoint logged_committed (log : list gateOp) (f p : string) : bool :=
  match log with
  | [] => false
  | GSaveWrite w :: log' =>
      if bool_decide (PendingWrite_FolderID w = f /\ PendingWrite_Path w = p)
      then PendingWrite_Committed w else logged_committed log' f p
  | GCommit f' p' :: log' => bool_decide (f' = f /\ p' = p) || logged_committed log' f p
  | GRemoveWrite f' p' :: log' => negb (bool_decide (f' = f /\ p' = p)) && logged_committed log' f p
  | _ :: log' => logged_committed log' f p
  end.

Fixpoint logged_delete (log : list gateOp) (f p : string) : option SkippedDelete :=
  match log with
  | [] => None
  | GSaveDelete d :: log' =>
      if decide (SkippedDelete_FolderID d = f /\ SkippedDelete_Path d = p) then Some (sort_required d)
      else logged_delete log' f p
  | GRemoveDelete f' p' :: log' =>
      if decide (f' = f /\ p' = p) then None else logged_delete log' f p
  | _ :: log' => logged_delete log' f p
  end.

(** ** The crawler's interface *)

(** [type ApplyGateStore interface]: the state is threaded explicitly. *)
Class ApplyGateStore (S : Type) := {
  gs_FolderSummary : S -> string -> result StoreErr FolderSummary;
  gs_PendingWrites : S -> string -> result StoreErr (list PendingWrite);
  gs_SkippedDeletes : S -> string -> result StoreErr (list SkippedDelete);
  gs_RemovePendingWrite : S -> string -> string -> S * result StoreErr unit;
  gs_RemoveSkippedDelete : S -> string -> string -> S * result StoreErr unit
}.

(** A folder's gate, and what an implementation promises about it. *)
Record gate := mkGate {
  gate_writes : gmap string PendingWrite;
  gate_deletes : gmap string SkippedDelete
}.

(** Records are filed under their own path. *)
Definition gate_keyed (g : gate) : Prop :=
  (forall p w, gate_writes g !! p = Some w -> PendingWrite_Path w = p) /\
  (forall p d, gate_deletes g !! p = Some d -> SkippedDelete_Path d = p).

Class ApplyGateLaws (S : Type) `{!ApplyGateStore S} := {
  gs_gate : S -> string -> option gate;
  gs_writes_spec s f g : gs_gate s f = Some g -> gate_keyed g ->
    exists l, gs_PendingWrites s f = Ok l /\ l ≡ₚ values (gate_writes g);
  gs_deletes_spec s f g : gs_gate s f = Some g -> gate_keyed g ->
    exists l, gs_SkippedDeletes s f = Ok l /\ l ≡ₚ values (gate_deletes g);
  gs_RemovePendingWrite_spec s f p g f' : gs_gate s f' = Some g ->
    match gs_RemovePendingWrite s f p with
    | (s', Ok _) => gs_gate s' f' =
        Some (if decide (f = f') then mkGate (delete p (gate_writes g)) (gate_deletes g) else g)
    | (s', Err _) => s' = s
    end;
  gs_RemoveSkippedDelete_spec s f p g f' : gs_gate s f' = Some g ->
    match gs_RemoveSkippedDelete s f p with
    | (s', Ok _) => gs_gate s' f' =
        Some (if decide (f = f') then mkGate (gate_writes g) (delete p (gate_deletes g)) else g)
    | (s', Err _) => s' = s
    end
}.

(** ** The crawler *)

Record applyGateRecord := mkGateRecord {
  gr_folderID : string;
  gr_path : string;
  gr_write : option PendingWrite;
  gr_delete : option SkippedDelete
}.

Definition record_lt : applyGateRecord -> applyGateRecord -> bool :=
  by_key gr_folderID str_lt (by_key gr_path str_lt
    (last_key (fun r => bool_decide (is_Some (gr_write r))) true_first)).

Fixpoint missingRequiredWrite (requiredWrites : list string) (pendingWrites : gset string) : bool :=
  match requiredWrites with
  | [] => false
  | path :: rest => if decide (path ∈ pendingWrites) then missingRequiredWrite rest pendingWrites else true
  end.

Definition metadataPrerequisitesUnsatisfiable (d : SkippedDelete) (current : FolderSummary) : bool :=
  if (SkippedDelete_RequiredMetadataCursor d =? 0) ||
     bool_decide (SkippedDelete_RequiredMetadataStateHash d = EmptyString) then false
  else (SkippedDelete_RequiredMetadataCursor d <=? FolderSummary_Cursor current) &&
       bool_decide (FolderSummary_StateHash current <> SkippedDelete_RequiredMetadataStateHash d).

Section crawler.
Context {S : Type} `{!ApplyGateStore S}.

(** What one pass over the folders collects. *)
Record gateScan := mkGateScan {
  scan_records : list applyGateRecord;
  scan_required : gmap string (gset string);
  scan_pending : gmap string (gset string);
  scan_summaries : gmap string FolderSummary
}.

Definition add_paths (f : string) (paths : list string) (m : gmap string (gset string)) :=
  <[f := inner m f ∪ list_to_set paths]> m.

Definition scanFolder (s : S) (acc : result StoreErr gateScan) (folderID : string) : result StoreErr gateScan :=
  scan ← acc;
  summary ← gs_FolderSummary s folderID;
  writes ← gs_PendingWrites s folderID;
  deletes ← gs_SkippedDeletes s folderID;
  Ok (mkGateScan
    (scan_records scan
      ++ ((fun w => mkGateRecord folderID (PendingWrite_Path w) (Some w) None) <$> sort_by write_lt writes)
      ++ ((fun d => mkGateRecord folderID (SkippedDelete_Path d) None (Some d)) <$> sort_by delete_lt deletes))
    (add_paths folderID (mjoin (SkippedDelete_RequiredWrites <$> deletes)) (scan_required scan))
    (add_paths folderID (PendingWrite_Path <$> writes) (scan_pending scan))
    (<[folderID := summary]> (scan_summaries scan))).

Definition records (s : S) (folderIDs : list string) : result StoreErr gateScan :=
  scan ← foldl (scanFolder s) (Ok (mkGateScan [] ∅ ∅ ∅)) (sort_by str_lt folderIDs);
  Ok (mkGateScan (sort_by record_lt (scan_records scan)) (scan_required scan) (scan_pending scan)
        (scan_summaries scan)).

Definition lift_store {A} (r : result StoreErr A) : result CrawlErr A :=
  match r with Ok a => Ok a | Err e => Err (CrawlStore e) end.

Definition prunable_write (scan : gateScan) (r : applyGateRecord) : bool :=
  match gr_write r with
  | Some w => PendingWrite_Committed w && bool_decide (gr_path r ∉ inner (scan_required scan) (gr_folderID r))
  | None => false
  end.

Definition prunable_delete (scan : gateScan) (r : applyGateRecord) : bool :=
  match gr_delete r with
  | Some d => missingRequiredWrite (SkippedDelete_RequiredWrites d) (inner (scan_pending scan) (gr_folderID r))
  | None => false
  end.

Definition reported_delete (scan : gateScan) (r : applyGateRecord) : bool :=
  match gr_delete r with
  | Some d => metadataPrerequisitesUnsatisfiable d
      (default FolderSummary_zero (scan_summaries scan !! gr_folderID r))
  | None => false
  end.

(** [Step]: one record.  [canceled] is [ctx.Err() != nil].  [int(Position)] is
    negative from 2^63 on, and indexing with it panics. *)
Definition gate_Step (canceled : bool) (folderIDs : list string) (s : S) (cursor : Cursor)
    : S * result CrawlErr StepResult :=
  if canceled then (s, Err CrawlCanceled)
  else match records s folderIDs with
  | Err e => (s, Err (CrawlStore e))
  | Ok scan =>
      let idx := i64 (Cursor_Position cursor) in
      let n := Z.of_nat (length (scan_records scan)) in
      if n <=? idx then (s, Ok (mkStepResult Cursor_zero 0 0 0 0 0 true))
      else if idx <? 0 then (s, Err CrawlPanic)
      else match scan_records scan !! Z.to_nat idx with
      | None => (s, Err CrawlPanic)
      | Some r =>
          let done pruned reported :=
            mkStepResult (mkCursor (u64 (idx + 1)) (gr_folderID r) (gr_path r) 0) 1 0 pruned reported 0
              (n <=? idx + 1) in
          let '(s1, r1) := if prunable_write scan r
            then gs_RemovePendingWrite s (gr_folderID r) (gr_path r) else (s, Ok tt) in
          match r1 with
          | Err e => (s1, Err (CrawlStore e))
          | Ok _ =>
              let pruned := if prunable_write scan r then 1 else 0 in
              if prunable_delete scan r then
                match gs_RemoveSkippedDelete s1 (gr_folderID r) (gr_path r) with
                | (s2, Err e) => (s2, Err (CrawlStore e))
                | (s2, Ok _) => (s2, Ok (done 1 0))
                end
              else (s1, Ok (done pruned (if reported_delete scan r then 1 else 0)))
          end
      end
  end.
End crawler.

(** ** Properties of the store's operations *)

Definition committed_at (writes : gmap string PendingWrite) (p : string) : bool :=
  match writes !! p with Some w => PendingWrite_Committed w | None => false end.

Lemma requiredWritesCommitted_forallb writes l :
  requiredWritesCommitted writes l = forallb (committed_at writes) l.
Proof.
  induction l as [|p l IH]; simpl; [done|]. unfold committed_at at 1. rewrite IH.
  destruct (writes !! p) as [w|]; [|done]. by destruct (PendingWrite_Committed w).
Qed.

Lemma modify_gate_cases s f snap :
  load s = Ok snap ->
  match f (snap_gate snap) with
  | Ok g =>
      match modify_gate s f with
      | (s', Ok _) => load s' = Ok (normalizeLoadedSnapshot (with_gate g snap))
      | (s', Err e) => s' = s /\ e = ErrSave
      end
  | Err e => modify_gate s f = (s, Err e)
  end.
Proof.
  intros Hl. destruct (f (snap_gate snap)) as [g|e] eqn:Ef.
  - apply (modify_ok _ _ snap); [done|]. by rewrite Ef.
  - apply modify_err. rewrite Hl. simpl. by rewrite Ef.
Qed.

Lemma checked_cases s c k :
  checked s c k = match c with Ok _ => k | Err e => (s, Err e) end.
Proof. done. Qed.

(** The part of an operation that changes the gate. *)
Definition gate_effect (op : gateOp) (g : gateMeta) : result StoreErr gateMeta :=
  match op with
  | GSaveWrite w => Ok (put_write (PendingWrite_FolderID w) (PendingWrite_Path w) w
                          (ensureApplyGateState (PendingWrite_FolderID w) g))
  | GVerified f p v => update_write f p (fun w => set_VerifiedBlocks (PendingWrite_VerifiedBlocks w ++ [v]) w) g
  | GCommit f p => update_write f p (set_Committed true) g
  | GRemoveWrite f p => Ok (mkGateMeta (del2 f p (PendingWrites g)) (SkippedDeletes g))
  | GSaveDelete d =>
      let g1 := ensureApplyGateState (SkippedDelete_FolderID d) g in
      Ok (mkGateMeta (PendingWrites g1)
            (put2 (SkippedDelete_FolderID d) (SkippedDelete_Path d) (sort_required d) (SkippedDeletes g1)))
  | GRemoveDelete f p => Ok (mkGateMeta (PendingWrites g) (del2 f p (SkippedDeletes g)))
  end.

Lemma gate_op_cases s op snap :
  load s = Ok snap ->
  match gate_op s op with
  | (s', Ok _) => exists g, gate_effect op (snap_gate snap) = Ok g /\
      load s' = Ok (normalizeLoadedSnapshot (with_gate g snap))
  | (s', Err _) => s' = s
  end.
Proof.
  intros Hl. assert (forall f, match modify_gate s f with
    | (s', Ok _) => exists g, f (snap_gate snap) = Ok g /\
        load s' = Ok (normalizeLoadedSnapshot (with_gate g snap))
    | (s', Err _) => s' = s
    end) as Hm.
  { intros f. pose proof (modify_gate_cases s f snap Hl) as H. destruct (f (snap_gate snap)) as [g|e].
    - destruct (modify_gate s f) as [s' [u|e]]; [by exists g|by destruct H].
    - by rewrite H. }
  destruct op; cbn [gate_op gate_effect]; try apply Hm;
    unfold SavePendingWrite, SaveSkippedDelete; rewrite checked_cases;
    (destruct (mbind _ _); [apply Hm|done]).
Qed.

(** What an effect does to one committed flag and to one recorded delete. *)
Lemma gate_effect_committed op g g' f p :
  gate_effect op g = Ok g' ->
  committed_at (inner (PendingWrites g') f) p =
    match op with
    | GSaveWrite w => if bool_decide (PendingWrite_FolderID w = f /\ PendingWrite_Path w = p)
                      then PendingWrite_Committed w else committed_at (inner (PendingWrites g) f) p
    | GCommit f' p' => bool_decide (f' = f /\ p' = p) || committed_at (inner (PendingWrites g) f) p
    | GRemoveWrite f' p' => negb (bool_decide (f' = f /\ p' = p)) && committed_at (inner (PendingWrites g) f) p
    | _ => committed_at (inner (PendingWrites g) f) p
    end.
Proof.
  assert (forall f' p' (w : PendingWrite) (m : gmap string (gmap string PendingWrite)), inner (put2 f' p' w (ensure f' m)) f !! p =
    if decide (f' = f /\ p' = p) then Some w else inner m f !! p) as Hput.
  { intros f' p' w m. destruct (decide (f' = f)) as [->|Hf].
    - rewrite inner_put2_eq, inner_ensure, lookup_insert. repeat case_decide; naive_solver.
    - rewrite inner_put2_ne, inner_ensure by done. case_decide; naive_solver. }
  destruct op as [w|f' p' v|f' p'|f' p'|d|f' p']; cbn [gate_effect]; unfold update_write.
  - intros [= <-]. unfold committed_at. cbn [put_write ensureApplyGateState PendingWrites]. rewrite Hput.
    case_decide; case_bool_decide; done.
  - cbn [ensureApplyGateState PendingWrites]. rewrite inner_ensure.
    destruct (inner (PendingWrites g) f' !! p') as [w|] eqn:E; [|done]. intros [= <-].
    unfold committed_at. cbn [put_write ensureApplyGateState PendingWrites]. rewrite Hput. case_decide as Hd; [|done].
    destruct Hd as [-> ->]. by rewrite E.
  - cbn [ensureApplyGateState PendingWrites]. rewrite inner_ensure.
    destruct (inner (PendingWrites g) f' !! p') as [w|] eqn:E; [|done]. intros [= <-].
    unfold committed_at. cbn [put_write ensureApplyGateState PendingWrites]. rewrite Hput.
    case_decide; case_bool_decide; done.
  - intros [= <-]. unfold committed_at. cbn [PendingWrites]. destruct (decide (f' = f)) as [->|Hf].
    + rewrite inner_del2_eq, lookup_delete. case_decide; case_bool_decide; naive_solver.
    + rewrite inner_del2_ne by done. rewrite bool_decide_eq_false_2 by naive_solver. done.
  - intros [= <-]. cbn [ensureApplyGateState PendingWrites]. by rewrite inner_ensure.
  - by intros [= <-].
Qed.

Lemma gate_effect_delete op g g' f p :
  gate_effect op g = Ok g' ->
  inner (SkippedDeletes g') f !! p =
    match op with
    | GSaveDelete d => if decide (SkippedDelete_FolderID d = f /\ SkippedDelete_Path d = p)
                       then Some (sort_required d) else inner (SkippedDeletes g) f !! p
    | GRemoveDelete f' p' => if decide (f' = f /\ p' = p) then None else inner (SkippedDeletes g) f !! p
    | _ => inner (SkippedDeletes g) f !! p
    end.
Proof.
  destruct op as [w|f' p' v|f' p'|f' p'|d|f' p']; cbn [gate_effect]; unfold update_write.
  - intros [= <-]. cbn [put_write ensureApplyGateState SkippedDeletes]. by rewrite inner_ensure.
  - destruct (_ !! p'); [|done]. intros [= <-]. cbn [put_write ensureApplyGateState SkippedDeletes].
    by rewrite inner_ensure.
  - destruct (_ !! p'); [|done]. intros [= <-]. cbn [put_write ensureApplyGateState SkippedDeletes].
    by rewrite inner_ensure.
  - by intros [= <-].
  - intros [= <-]. cbn [ensureApplyGateState SkippedDeletes].
    destruct (decide (SkippedDelete_FolderID d = f)) as [->|Hf].
    + rewrite inner_put2_eq, inner_ensure, lookup_insert. repeat case_decide; naive_solver.
    + rewrite inner_put2_ne, inner_ensure by done. case_decide; naive_solver.
  - intros [= <-]. cbn [SkippedDeletes]. destruct (decide (f' = f)) as [->|Hf].
    + rewrite inner_del2_eq, lookup_delete. repeat case_decide; naive_solver.
    + rewrite inner_del2_ne by done. case_decide; naive_solver.
Qed.

(** The store agrees with the log of what succeeded. *)
Definition gate_agrees (s : JSONStore) (log : list gateOp) : Prop :=
  exists snap, load s = Ok snap /\
    (forall f p, committed_at (inner (PendingWrites (snap_gate snap)) f) p = logged_committed log f p) /\
    (forall f p, inner (SkippedDeletes (snap_gate snap)) f !! p = logged_delete log f p).

Lemma gate_run_agrees s calls :
  gate_agrees s [] -> gate_agrees (gate_run s calls).1 (gate_run s calls).2.
Proof.
  apply (run_calls_inv gate_op gate_agrees). clear. intros s log b op (snap & Hl & Hc & Hd).
  pose proof (gate_op_cases (with_fault b s) op snap) as H. rewrite load_with_fault in H. specialize (H Hl).
  destruct (gate_op (with_fault b s) op) as [s' [u|e]].
  - destruct H as (g & Hg & Hl'). eexists. split; [exact Hl'|].
    change (snap_gate (normalizeLoadedSnapshot (with_gate g snap))) with g. split; intros f p.
    + rewrite (gate_effect_committed _ _ _ f p Hg), Hc. by destruct op.
    + rewrite (gate_effect_delete _ _ _ f p Hg), Hd. by destruct op.
  - subst s'. exists snap. by rewrite load_with_fault.
Qed.

Lemma logged_delete_path log f p d : logged_delete log f p = Some d -> SkippedDelete_Path d = p.
Proof.
  induction log as [|op log IH]; [done|]. destruct op; cbn [logged_delete]; try done.
  - case_decide as H; [|done]. intros [= <-]. apply H.
  - by case_decide.
Qed.

(** A folder's delete is ready, as the log tells it. *)
Definition ready_by_log (log : list gateOp) (f : string) (current : FolderSummary) (d : SkippedDelete) : Prop :=
  logged_delete log f (SkippedDelete_Path d) = Some d /\
  (0 < SkippedDelete_RequiredMetadataCursor d ->
     SkippedDelete_RequiredMetadataCursor d <= FolderSummary_Cursor current) /\
  (SkippedDelete_RequiredMetadataStateHash d <> EmptyString ->
     FolderSummary_StateHash current = SkippedDelete_RequiredMetadataStateHash d) /\
  (forall p, p ∈ SkippedDelete_RequiredWrites d -> logged_committed log f p = true).

Lemma metadataPrerequisitesMet_true d current :
  metadataPrerequisitesMet d current = true <->
  (0 < SkippedDelete_RequiredMetadataCursor d ->
     SkippedDelete_RequiredMetadataCursor d <= FolderSummary_Cursor current) /\
  (SkippedDelete_RequiredMetadataStateHash d <> EmptyString ->
     FolderSummary_StateHash current = SkippedDelete_RequiredMetadataStateHash d).
Proof.
  unfold metadataPrerequisitesMet.
  destruct (Z.ltb_spec 0 (SkippedDelete_RequiredMetadataCursor d)) as [H1|H1],
    (Z.ltb_spec (FolderSummary_Cursor current) (SkippedDelete_RequiredMetadataCursor d)) as [H2|H2];
    cbn [andb].
  { split; [done|intros [? _]; lia]. }
  all: destruct (bool_decide_reflect (SkippedDelete_RequiredMetadataStateHash d <> EmptyString)) as [H3|H3],
    (bool_decide_reflect (FolderSummary_StateHash current <> SkippedDelete_RequiredMetadataStateHash d)) as [H4|H4];
    cbn [andb].
  all: split; [intros ?; try done; (split; [lia|intros Hn; first [by destruct H3|by apply dec_stable in H4]])|intros [? H5]; try done].
  all: by apply H5 in H3.
Qed.

(** [C21] The apply gate releases a skipped delete exactly when its conditions
    hold.  After any sequence of gate operations, some of which the disk may
    have refused, ReadySkippedDeletes returns, sorted by path and each path
    once, precisely the deletes that were last recorded under their path, whose
    required cursor and state hash are met by the current summary, and each of
    whose required writes was last acknowledged as committed - and not saved
    again uncommitted, or removed, since. *)
Theorem ReadySkippedDeletes_released s calls f current :
  load s = Ok snapshot_zero ->
  exists ds, ReadySkippedDeletes (gate_run s calls).1 f current = Ok ds /\
    (forall d, d ∈ ds <-> ready_by_log (gate_run s calls).2 f current d) /\
    StronglySorted (not_after delete_lt) ds /\ NoDup (SkippedDelete_Path <$> ds).
Proof.
  intros Hl. destruct (gate_run_agrees s calls) as (snap & Hl' & Hc & Hd).
  { exists snapshot_zero. split; [done|]. split; intros f' p; [|done]. reflexivity. }
  set (log := (gate_run s calls).2) in *.
  unfold ReadySkippedDeletes. rewrite Hl'. eexists. split; [reflexivity|]. split_and!.
  - intros d. rewrite elem_of_sort_by. rewrite list_elem_of_In, filter_In, <- list_elem_of_In, elem_of_values.
    unfold readyDelete, ready_by_log. rewrite andb_true_iff, metadataPrerequisitesMet_true,
      requiredWritesCommitted_forallb, forallb_forall.
    assert ((exists k, inner (SkippedDeletes (snap_gate snap)) f !! k = Some d) <->
      logged_delete log f (SkippedDelete_Path d) = Some d) as ->.
    { split; [|intros H; eexists; by rewrite Hd].
      intros (k & H). rewrite Hd in H. by rewrite (logged_delete_path _ _ _ _ H). }
    setoid_rewrite Hc. setoid_rewrite <- list_elem_of_In. tauto.
  - apply sort_by_sorted. apply _.
  - rewrite sort_by_perm. eapply sublist_NoDup; [|apply fmap_sublist, filter_sublist].
    apply values_NoDup_keys. intros k v H. rewrite Hd in H. by eapply logged_delete_path.
Qed.

Definition demo_write : PendingWrite :=
  mkPendingWrite "docs" "new" (demo_manifest Byte.x61) None 0 EmptyString [] false EmptyString.
Definition demo_skipped : SkippedDelete := mkSkippedDelete "docs" "old" 3 EmptyString ["new"] EmptyString.

Lemma ReadySkippedDeletes_released_witness :
  exists ds, ReadySkippedDeletes (gate_run demo_store
      [(false, GSaveWrite demo_write); (false, GSaveDelete demo_skipped);
       (true, GRemoveWrite "docs" "new"); (false, GCommit "docs" "new")]).1
      "docs" (mkFolderSummary "docs" 4 1 0 "h") = Ok ds /\
    demo_skipped ∈ ds.
Proof.
  destruct (ReadySkippedDeletes_released demo_store
    [(false, GSaveWrite demo_write); (false, GSaveDelete demo_skipped);
     (true, GRemoveWrite "docs" "new"); (false, GCommit "docs" "new")] "docs"
    (mkFolderSummary "docs" 4 1 0 "h") eq_refl) as (ds & Hds & Hin & _).
  exists ds. split; [exact Hds|]. apply Hin. clear Hds Hin.
  set (log := (gate_run _ _).2). vm_compute in log.
  split; [vm_compute; reflexivity|]. split; [cbn; lia|]. split; [intros Hn; by destruct Hn|].
  intros p Hp. apply list_elem_of_singleton in Hp as ->. vm_compute. reflexivity.
Defined.

(** ** The crawler against the interface *)

Definition gate_ready (g : gate) (current : FolderSummary) (d : SkippedDelete) : Prop :=
  (exists p, gate_deletes g !! p = Some d) /\ readyDelete (gate_writes g) current d = true.

Definition required_by (g : gate) (q : string) : Prop :=
  exists p d, gate_deletes g !! p = Some d /\ q ∈ SkippedDelete_RequiredWrites d.

(** Nothing left to prune: no committed write is unneeded, no delete waits for
    a write that is gone. *)
Definition gate_clean (g : gate) : Prop :=
  (forall p w, gate_writes g !! p = Some w -> PendingWrite_Committed w = true -> required_by g p) /\
  (forall p d q, gate_deletes g !! p = Some d -> q ∈ SkippedDelete_RequiredWrites d -> is_Some (gate_writes g !! q)).

Lemma missingRequiredWrite_true l pending :
  missingRequiredWrite l pending = true <-> exists q, q ∈ l /\ q ∉ pending.
Proof.
  induction l as [|p l IH]; simpl.
  - split; [done|]. by intros (q & Hq%elem_of_nil & _).
  - case_decide as Hp.
    + rewrite IH. setoid_rewrite elem_of_cons. split; [intros (q & ? & ?); eauto|].
      intros (q & [->|?] & ?); [done|eauto].
    + split; [|done]. intros _. exists p. split; [by left|done].
Qed.

Section crawler_proofs.
Context {S : Type} `{!ApplyGateStore S} `{!ApplyGateLaws S}.
Context (s : S) (G : string -> gate).
Context (HG : forall f, gs_gate s f = Some (G f)) (Hkeyed : forall f, gate_keyed (G f)).

Definition record_of (r : applyGateRecord) : Prop :=
  (exists w, r = mkGateRecord (gr_folderID r) (gr_path r) (Some w) None /\
     gate_writes (G (gr_folderID r)) !! gr_path r = Some w) \/
  (exists d, r = mkGateRecord (gr_folderID r) (gr_path r) None (Some d) /\
     gate_deletes (G (gr_folderID r)) !! gr_path r = Some d).

(** What a scan of the folders [done] holds. *)
Record scan_of (done : list string) (scan : gateScan) : Prop := {
  scan_of_records r : r ∈ scan_records scan <-> gr_folderID r ∈ done /\ record_of r;
  scan_of_required f q : q ∈ inner (scan_required scan) f <-> f ∈ done /\ required_by (G f) q;
  scan_of_pending f q : q ∈ inner (scan_pending scan) f <-> f ∈ done /\ is_Some (gate_writes (G f) !! q)
}.

Lemma elem_of_add_paths f paths m f' q :
  q ∈ inner (add_paths f paths m) f' <-> q ∈ inner m f' \/ (f = f' /\ q ∈ paths).
Proof.
  unfold add_paths. destruct (decide (f = f')) as [->|Hf].
  - rewrite inner_insert_eq, elem_of_union, elem_of_list_to_set. naive_solver.
  - rewrite inner_insert_ne by done. naive_solver.
Qed.

Lemma required_by_list f q l : l ≡ₚ values (gate_deletes (G f)) ->
  q ∈ mjoin (SkippedDelete_RequiredWrites <$> l) <-> required_by (G f) q.
Proof.
  intros Hl. rewrite list_elem_of_join. unfold required_by. split.
  - intros (ws & Hq & (d & -> & Hd)%list_elem_of_fmap). rewrite Hl in Hd. apply elem_of_values in Hd as [p Hp]. eauto.
  - intros (p & d & Hp & Hq). exists (SkippedDelete_RequiredWrites d). split; [done|].
    apply list_elem_of_fmap. exists d. split; [done|]. rewrite Hl. apply elem_of_values. eauto.
Qed.

Lemma pending_list f q l : l ≡ₚ values (gate_writes (G f)) ->
  q ∈ PendingWrite_Path <$> l <-> is_Some (gate_writes (G f) !! q).
Proof.
  intros Hl. rewrite list_elem_of_fmap. destruct (Hkeyed f) as [Hw _]. split.
  - intros (w & -> & Hin). rewrite Hl in Hin. apply elem_of_values in Hin as [p Hp].
    rewrite (Hw p w Hp). by eexists.
  - intros [w Hq]. exists w. split; [by rewrite (Hw q w Hq)|]. rewrite Hl. apply elem_of_values. eauto.
Qed.

Lemma write_records f r l : l ≡ₚ values (gate_writes (G f)) ->
  r ∈ (fun w => mkGateRecord f (PendingWrite_Path w) (Some w) None) <$> sort_by write_lt l <->
  gr_folderID r = f /\ exists w, r = mkGateRecord f (gr_path r) (Some w) None /\ gate_writes (G f) !! gr_path r = Some w.
Proof.
  intros Hl. rewrite list_elem_of_fmap. destruct (Hkeyed f) as [Hw _]. split.
  - intros (w & -> & Hin). rewrite elem_of_sort_by, Hl in Hin. apply elem_of_values in Hin as [p Hp].
    split; [done|]. exists w. cbn [gr_path]. by rewrite (Hw p w Hp).
  - intros (Hf & w & Hr & Hq). exists w. rewrite (Hw _ w Hq). split; [done|].
    rewrite elem_of_sort_by, Hl. apply elem_of_values. eauto.
Qed.

Lemma delete_records f r l : l ≡ₚ values (gate_deletes (G f)) ->
  r ∈ (fun d => mkGateRecord f (SkippedDelete_Path d) None (Some d)) <$> sort_by delete_lt l <->
  gr_folderID r = f /\ exists d, r = mkGateRecord f (gr_path r) None (Some d) /\ gate_deletes (G f) !! gr_path r = Some d.
Proof.
  intros Hl. rewrite list_elem_of_fmap. destruct (Hkeyed f) as [_ Hd]. split.
  - intros (d & -> & Hin). rewrite elem_of_sort_by, Hl in Hin. apply elem_of_values in Hin as [p Hp].
    split; [done|]. exists d. cbn [gr_path]. by rewrite (Hd p d Hp).
  - intros (Hf & d & Hr & Hq). exists d. rewrite (Hd _ d Hq). split; [done|].
    rewrite elem_of_sort_by, Hl. apply elem_of_values. eauto.
Qed.

Lemma scanFolder_of done scan f scan' :
  scan_of done scan -> scanFolder s (Ok scan) f = Ok scan' -> scan_of (done ++ [f]) scan'.
Proof.
  intros [Hr Hq Hp]. unfold scanFolder. simpl. destruct (gs_FolderSummary s f) as [sum|]; [|done]. simpl.
  destruct (gs_writes_spec s f (G f) (HG f) (Hkeyed f)) as (ws & -> & Hws). simpl.
  destruct (gs_deletes_spec s f (G f) (HG f) (Hkeyed f)) as (ds & -> & Hds). simpl. intros [= <-].
  split; cbn [scan_records scan_required scan_pending].
  - intros r. rewrite !elem_of_app, Hr, (write_records f r ws Hws), (delete_records f r ds Hds), list_elem_of_singleton.
    unfold record_of. split.
    + intros [[? ?]|[[<- ?]|[<- ?]]]; (split; [tauto|tauto]).
    + intros [[Hin|<-] Hrec]; tauto.
  - intros f' q. rewrite elem_of_add_paths, Hq, elem_of_app, list_elem_of_singleton, (required_by_list f q ds Hds).
    split; [intros [?|[-> ?]]; tauto|intros [[? | ->] ?]; tauto].
  - intros f' q. rewrite elem_of_add_paths, Hp, elem_of_app, list_elem_of_singleton, (pending_list f q ws Hws).
    split; [intros [?|[-> ?]]; tauto|intros [[? | ->] ?]; tauto].
Qed.

Lemma scanFolder_err e fs : foldl (scanFolder s) (Err e) fs = Err e.
Proof. by induction fs. Qed.

Lemma scanFolders_of fs done scan scan' :
  scan_of done scan -> foldl (scanFolder s) (Ok scan) fs = Ok scan' -> scan_of (done ++ fs) scan'.
Proof.
  revert done scan. induction fs as [|f fs IH]; intros done scan Hs.
  - intros [= <-]. by rewrite app_nil_r.
  - cbn [foldl]. destruct (scanFolder s (Ok scan) f) as [scan1|e] eqn:E; [|by rewrite scanFolder_err].
    intros H. replace (done ++ f :: fs) with ((done ++ [f]) ++ fs) by by rewrite <- app_assoc.
    eapply IH; [by eapply scanFolder_of|done].
Qed.

Lemma records_of folderIDs scan :
  records s folderIDs = Ok scan ->
  (forall r, r ∈ scan_records scan <-> gr_folderID r ∈ folderIDs /\ record_of r) /\
  (forall f q, q ∈ inner (scan_required scan) f <-> f ∈ folderIDs /\ required_by (G f) q) /\
  (forall f q, q ∈ inner (scan_pending scan) f <-> f ∈ folderIDs /\ is_Some (gate_writes (G f) !! q)).
Proof.
  unfold records. intros (scan1 & Hfold & [= <-])%result_bind_ok.
  assert (scan_of [] (mkGateScan [] ∅ ∅ ∅)) as H0.
  { assert (forall (f q : string) (P : Prop), q ∈ inner (∅ : gmap string (gset string)) f <-> f ∈ ([] : list string) /\ P) as He.
    { intros f q P. unfold inner. rewrite lookup_empty. simpl. rewrite elem_of_nil.
      split; [intros Hin; by apply elem_of_empty in Hin|tauto]. }
    split; [|intros; apply He..]. intros r. cbn [scan_records]. rewrite !elem_of_nil. tauto. }
  destruct (scanFolders_of _ _ _ _ H0 Hfold) as [Hr Hq Hp]. simpl in Hr.
  cbn [scan_records scan_required scan_pending]. split_and!.
  - intros r. by rewrite elem_of_sort_by, Hr, elem_of_sort_by.
  - intros f q. by rewrite Hq, elem_of_app, elem_of_nil, elem_of_sort_by, (left_id False or).
  - intros f q. by rewrite Hp, elem_of_app, elem_of_nil, elem_of_sort_by, (left_id False or).
Qed.
End crawler_proofs.

(** ** The crawler's world: [type ApplyGateCrawler struct] *)

Record ApplyGateCrawler (S : Type) := mkApplyGateCrawler {
  ApplyGateCrawler_Store : S;
  ApplyGateCrawler_FolderIDs : list string
}.
Arguments mkApplyGateCrawler {S} _ _.
Arguments ApplyGateCrawler_Store {S} _.
Arguments ApplyGateCrawler_FolderIDs {S} _.

#[export] Instance ApplyGateCrawler_crawler {S} `{!ApplyGateStore S} : Crawler (ApplyGateCrawler S) := {|
  Step c cursor :=
    let '(s', r) := gate_Step false (ApplyGateCrawler_FolderIDs c) (ApplyGateCrawler_Store c) cursor in
    (mkApplyGateCrawler s' (ApplyGateCrawler_FolderIDs c), r)
|}.

Section crawler_theorems.
Context {S : Type} `{!ApplyGateStore S} `{!ApplyGateLaws S}.

Lemma prunable_write_sound s G folderIDs scan r :
  (forall f, gs_gate s f = Some (G f)) -> (forall f, gate_keyed (G f)) ->
  records s folderIDs = Ok scan -> r ∈ scan_records scan -> prunable_write scan r = true ->
  gr_folderID r ∈ folderIDs /\ ~ required_by (G (gr_folderID r)) (gr_path r) /\
  exists w, gate_writes (G (gr_folderID r)) !! gr_path r = Some w /\ PendingWrite_Committed w = true.
Proof.
  intros HG Hk Hscan Hr Hp. destruct (records_of s G HG Hk _ _ Hscan) as (Hrec & Hreq & _).
  apply Hrec in Hr as [Hf Hof]. unfold prunable_write in Hp. destruct (gr_write r) as [w|] eqn:Ew; [|done].
  rewrite andb_true_iff, bool_decide_eq_true in Hp. destruct Hp as [Hc Hn].
  rewrite Hreq in Hn. split_and!; [done|tauto|].
  destruct Hof as [(w' & Hr & Hq)|(d & Hr & _)]; rewrite Hr in Ew; simplify_eq/=. eauto.
Qed.

Lemma prunable_delete_sound s G folderIDs scan r :
  (forall f, gs_gate s f = Some (G f)) -> (forall f, gate_keyed (G f)) ->
  records s folderIDs = Ok scan -> r ∈ scan_records scan -> prunable_delete scan r = true ->
  gr_folderID r ∈ folderIDs /\
  exists d q, gate_deletes (G (gr_folderID r)) !! gr_path r = Some d /\
    q ∈ SkippedDelete_RequiredWrites d /\ gate_writes (G (gr_folderID r)) !! q = None.
Proof.
  intros HG Hk Hscan Hr Hp. destruct (records_of s G HG Hk _ _ Hscan) as (Hrec & _ & Hpend).
  apply Hrec in Hr as [Hf Hof]. unfold prunable_delete in Hp. destruct (gr_delete r) as [d|] eqn:Ed; [|done].
  apply missingRequiredWrite_true in Hp as (q & Hq & Hn). rewrite Hpend in Hn. split; [done|].
  destruct Hof as [(w & Hr & _)|(d' & Hr & Hl)]; rewrite Hr in Ed; simplify_eq/=.
  exists d, q. split_and!; [done..|]. apply eq_None_not_Some. tauto.
Qed.

(** What one step may do to a folder's gate. *)
Inductive gate_pruned (g : gate) : gate -> Prop :=
| pruned_nothing : gate_pruned g g
| pruned_write p w : gate_writes g !! p = Some w -> PendingWrite_Committed w = true -> ~ required_by g p ->
    gate_pruned g (mkGate (delete p (gate_writes g)) (gate_deletes g))
| pruned_delete p d q : gate_deletes g !! p = Some d -> q ∈ SkippedDelete_RequiredWrites d ->
    gate_writes g !! q = None ->
    gate_pruned g (mkGate (gate_writes g) (delete p (gate_deletes g))).

Lemma gate_Step_pruned canceled folderIDs s cursor s' r G :
  (forall f, gs_gate s f = Some (G f)) -> (forall f, gate_keyed (G f)) ->
  gate_Step canceled folderIDs s cursor = (s', r) ->
  forall f, exists g', gs_gate s' f = Some g' /\ gate_pruned (G f) g' /\ (f ∉ folderIDs -> g' = G f).
Proof.
  intros HG Hk Hstep f.
  assert (forall s1, s1 = s -> exists g', gs_gate s1 f = Some g' /\ gate_pruned (G f) g' /\ (f ∉ folderIDs -> g' = G f)) as Hsame.
  { intros s1 ->. exists (G f). split; [done|]. split; [constructor|done]. }
  revert Hstep. unfold gate_Step. destruct canceled; [intros [= <- _]; by apply Hsame|].
  destruct (records s folderIDs) as [scan|] eqn:Escan; [|intros [= <- _]; by apply Hsame].
  destruct (_ <=? _); [intros [= <- _]; by apply Hsame|].
  destruct (_ <? _); [intros [= <- _]; by apply Hsame|].
  destruct (_ !! _) as [rec|] eqn:Erec; [|intros [= <- _]; by apply Hsame].
  apply list_elem_of_lookup_2 in Erec.
  destruct (prunable_write scan rec) eqn:Ew.
  - destruct (prunable_write_sound s G _ _ _ HG Hk Escan Erec Ew) as (Hin & Hnr & w & Hl & Hc).
    assert (prunable_delete scan rec = false) as ->.
    { destruct (prunable_delete scan rec) eqn:Ed; [|done].
      unfold prunable_delete, prunable_write in *. destruct (records_of s G HG Hk _ _ Escan) as (Hrec & _ & _).
      apply Hrec in Erec as [_ [(? & Hr & _)|(? & Hr & _)]]; rewrite Hr in Ed, Ew; done. }
    pose proof (gs_RemovePendingWrite_spec s (gr_folderID rec) (gr_path rec) _ f (HG f)) as Hrm.
    destruct (gs_RemovePendingWrite _ _ _) as [s1 [[]|e]]; intros [= <- _]; [|by apply Hsame].
    eexists. split; [exact Hrm|]. case_decide as Hf; [subst f|split; [constructor|done]].
    split; [by eapply pruned_write|done].
  - destruct (prunable_delete scan rec) eqn:Ed; [|intros [= <- _]; by apply Hsame].
    destruct (prunable_delete_sound s G _ _ _ HG Hk Escan Erec Ed) as (Hin & d & q & Hl & Hq & Hn).
    pose proof (gs_RemoveSkippedDelete_spec s (gr_folderID rec) (gr_path rec) _ f (HG f)) as Hrm.
    destruct (gs_RemoveSkippedDelete _ _ _) as [s1 [u|e]]; intros [= <- _]; [|by apply Hsame].
    eexists. split; [exact Hrm|]. case_decide as Hf; [subst f|split; [constructor|done]].
    split; [by eapply pruned_delete|done].
Qed.

Lemma readyDelete_ext writes writes' current d :
  (forall q, q ∈ SkippedDelete_RequiredWrites d -> committed_at writes q = committed_at writes' q) ->
  readyDelete writes current d = readyDelete writes' current d.
Proof.
  intros H. unfold readyDelete. f_equal. rewrite !requiredWritesCommitted_forallb.
  induction (SkippedDelete_RequiredWrites d) as [|q l IH]; [done|]. simpl. rewrite H by by left.
  f_equal. apply IH. intros q' Hq. apply H. by right.
Qed.

Lemma committed_at_delete writes p q : p <> q -> committed_at (delete p writes) q = committed_at writes q.
Proof. intros Hne. unfold committed_at. by rewrite lookup_delete_ne. Qed.

Lemma gate_pruned_ready g g' current d :
  gate_keyed g -> gate_pruned g g' -> gate_ready g' current d <-> gate_ready g current d.
Proof.
  intros [_ Hkd] [|p w Hw Hc Hn|p d0 q Hd0 Hq Hn]; [done| |]; unfold gate_ready; cbn [gate_writes gate_deletes].
  - assert (forall k, gate_deletes g !! k = Some d ->
      readyDelete (delete p (gate_writes g)) current d = readyDelete (gate_writes g) current d) as He.
    { intros k Hk. apply readyDelete_ext. intros q Hq. apply committed_at_delete. intros ->. apply Hn.
      by exists k, d. }
    split; intros [[k Hk] Hr]; (split; [by exists k|]); rewrite <- Hr; [symmetry|]; by apply (He k).
  - split; intros [[k Hk] Hr]; (split; [|done]); exists k.
    + by apply lookup_delete_Some in Hk as [_ Hk].
    + rewrite lookup_delete_Some. split; [|done]. intros ->. simplify_eq.
      unfold readyDelete in Hr. rewrite andb_true_iff, requiredWritesCommitted_forallb, forallb_forall in Hr.
      destruct Hr as [_ Hr]. specialize (Hr q). rewrite <- list_elem_of_In in Hr. specialize (Hr Hq).
      unfold committed_at in Hr. by rewrite Hn in Hr.
Qed.

Lemma gate_pruned_keyed g g' : gate_keyed g -> gate_pruned g g' -> gate_keyed g'.
Proof.
  intros [Hw Hd] [|p w _ _ _|p d q _ _ _]; split; cbn [gate_writes gate_deletes]; try done;
    intros k v Hk; apply lookup_delete_Some in Hk as [_ Hk]; [by apply Hw|by apply Hd].
Qed.

(** The apply-gate crawler only removes what nothing waits for: one step,
    on any cursor and whatever fails in it, removes at most one record of the
    folders it was given - a committed write no skipped delete requires, or a
    skipped delete one of whose required writes is gone - and leaves every
    folder with exactly the same ready deletes as before. *)
Theorem gate_Step_safe canceled folderIDs s cursor s' r G :
  (forall f, gs_gate s f = Some (G f)) -> (forall f, gate_keyed (G f)) ->
  gate_Step canceled folderIDs s cursor = (s', r) ->
  forall f, exists g', gs_gate s' f = Some g' /\ gate_keyed g' /\ gate_pruned (G f) g' /\
    (f ∉ folderIDs -> g' = G f) /\
    (forall current d, gate_ready g' current d <-> gate_ready (G f) current d).
Proof.
  intros HG Hk Hstep f. destruct (gate_Step_pruned _ _ _ _ _ _ _ HG Hk Hstep f) as (g' & Hg' & Hp & Hf).
  exists g'. split_and!; [done|by eapply gate_pruned_keyed|done..|]. intros current d. by apply gate_pruned_ready.
Qed.

(** A step that prunes nothing leaves the store alone, and its record was not
    prunable. *)
Lemma gate_Step_kept folderIDs s cursor s' step scan :
  gate_Step false folderIDs s cursor = (s', Ok step) -> StepResult_Pruned step = 0 ->
  records s folderIDs = Ok scan -> 0 <= Cursor_Position cursor < Z.of_nat (length (scan_records scan)) ->
  Cursor_Position cursor < maxInt64 ->
  s' = s /\
  Cursor_Position (StepResult_Cursor step) = Cursor_Position cursor + 1 /\
  StepResult_Complete step = bool_decide (Z.of_nat (length (scan_records scan)) = Cursor_Position cursor + 1) /\
  exists r, scan_records scan !! Z.to_nat (Cursor_Position cursor) = Some r /\
    prunable_write scan r = false /\ prunable_delete scan r = false.
Proof.
  intros Hstep Hp Hscan Hpos Hmax. revert Hstep. unfold gate_Step. rewrite Hscan.
  rewrite i64_small by (unfold int64_range, minInt64, maxInt64 in *; lia).
  destruct (Z.leb_spec (Z.of_nat (length (scan_records scan))) (Cursor_Position cursor)); [lia|].
  destruct (Z.ltb_spec (Cursor_Position cursor) 0); [lia|].
  destruct (scan_records scan !! Z.to_nat (Cursor_Position cursor)) as [rec|] eqn:Erec.
  2:{ apply lookup_ge_None in Erec. lia. }
  destruct (prunable_write scan rec) eqn:Ew.
  - destruct (gs_RemovePendingWrite _ _ _) as [s1 [u|e]]; [|done].
    destruct (prunable_delete scan rec); [|by intros [= _ <-]].
    destruct (gs_RemoveSkippedDelete _ _ _) as [s2 [?|e]]; [|done]. by intros [= _ <-].
  - destruct (prunable_delete scan rec) eqn:Ed.
    + destruct (gs_RemoveSkippedDelete _ _ _) as [s2 [?|e]]; [|done]. by intros [= _ <-].
    + intros [= <- <-]. split_and!; [done..| | |by exists rec].
      * cbn. rewrite u64_small; unfold maxInt64 in *; lia.
      * cbn. case_bool_decide; destruct (Z.leb_spec (Z.of_nat (length (scan_records scan))) (Cursor_Position cursor + 1)); lia || done.
Qed.

Lemma gate_Step_records folderIDs s cursor s' step :
  gate_Step false folderIDs s cursor = (s', Ok step) -> exists scan, records s folderIDs = Ok scan.
Proof. unfold gate_Step. destruct (records s folderIDs) as [scan|]; [by exists scan|done]. Qed.

Lemma gate_Step_past folderIDs s cursor s' step scan :
  gate_Step false folderIDs s cursor = (s', Ok step) -> records s folderIDs = Ok scan ->
  Z.of_nat (length (scan_records scan)) <= Cursor_Position cursor <= maxInt64 -> StepResult_Complete step = true.
Proof.
  unfold gate_Step. intros Hstep Hscan Hpos. revert Hstep. rewrite Hscan.
  rewrite i64_small by (unfold int64_range, minInt64, maxInt64 in *; lia).
  destruct (Z.leb_spec (Z.of_nat (length (scan_records scan))) (Cursor_Position cursor)); [|lia].
  by intros [= <- <-].
Qed.

Lemma crawler_Step_inv s folderIDs cursor w r :
  Step (mkApplyGateCrawler s folderIDs) cursor = (w, r) ->
  exists s', gate_Step false folderIDs s cursor = (s', r) /\ w = mkApplyGateCrawler s' folderIDs.
Proof.
  cbn [Step ApplyGateCrawler_crawler ApplyGateCrawler_Store ApplyGateCrawler_FolderIDs].
  destruct (gate_Step false folderIDs s cursor) as [s' r']. intros [= <- <-]. by exists s'.
Qed.

Definition unprunable (scan : gateScan) (i : nat) : Prop :=
  exists r, scan_records scan !! i = Some r /\ prunable_write scan r = false /\ prunable_delete scan r = false.

Lemma chain_kept {K} `{!CheckpointStore K} s folderIDs scan (k : K) rs c1 k1 cur1 :
  records s folderIDs = Ok scan ->
  chain (mkApplyGateCrawler s folderIDs) k Cursor_zero rs c1 k1 cur1 ->
  Z.of_nat (length rs) <= maxInt64 ->
  (forall x, x ∈ rs -> StepResult_Complete x = false /\ StepResult_Pruned x = 0) ->
  c1 = mkApplyGateCrawler s folderIDs /\ Cursor_Position cur1 = Z.of_nat (length rs) /\
  forall i, (i < length rs)%nat -> unprunable scan i.
Proof.
  intros Hscan Hch. remember (mkApplyGateCrawler s folderIDs) as c0 eqn:Hc0.
  remember Cursor_zero as cur0 eqn:Hcur0.
  induction Hch as [w k c|w k c rs w1 k1 c1 step w2 k2 Hch IH Hst _]; intros Hlen Hall.
  { subst. split_and!; [done..|]. intros i Hi. simpl in Hi. lia. }
  rewrite length_app in Hlen. simpl in Hlen.
  destruct IH as (-> & Hpos & Hi); [done|done|lia|intros x Hx; apply Hall; rewrite elem_of_app; by left|].
  subst w. apply crawler_Step_inv in Hst as (s1 & Es & ->).
  destruct (Hall step) as [Hc Hp]; [rewrite elem_of_app; right; by left|].
  assert (Cursor_Position c1 < Z.of_nat (length (scan_records scan))) as Hlt.
  { destruct (Z.lt_ge_cases (Cursor_Position c1) (Z.of_nat (length (scan_records scan)))); [done|].
    rewrite (gate_Step_past _ _ _ _ _ _ Es Hscan) in Hc; [done|lia]. }
  destruct (gate_Step_kept _ _ _ _ _ _ Es Hp Hscan) as (-> & Hnext & _ & Hun); [lia|lia|].
  unfold next_cursor. rewrite Hc, length_app. cbn [length].
  split_and!; [done|lia|]. intros i Hlti. destruct (decide (i = length rs)) as [->|Hne].
  - rewrite Hpos, Nat2Z.id in Hun. exact Hun.
  - apply Hi. lia.
Qed.

Lemma chain_records {K} `{!CheckpointStore K} s folderIDs (k : K) cur rs c1 k1 cur1 :
  chain (mkApplyGateCrawler s folderIDs) k cur rs c1 k1 cur1 -> rs <> [] ->
  exists scan, records s folderIDs = Ok scan.
Proof.
  intros Hch. remember (mkApplyGateCrawler s folderIDs) as c eqn:Hc.
  induction Hch as [|w k c rs w1 k1 c1 step w2 k2 Hch IH Hst _]; intros Hne; [done|].
  destruct (decide (rs = [])) as [->|Hn]; [|by apply IH].
  inversion Hch; subst; [|by destruct rs]. apply crawler_Step_inv in Hst as (s1 & Es & ->).
  by eapply gate_Step_records.
Qed.

(** A pass of the crawler that prunes nothing certifies the gate: when the
    steps from the zero cursor to the one that reports completion have all
    pruned nothing, then no folder of the crawler holds a committed write that
    no delete requires, or a delete one of whose required writes is missing. *)
Theorem gate_pass_clean {K} `{!CheckpointStore K} s folderIDs (k : K) rs step c1 k1 cur1 G :
  (forall f, gs_gate s f = Some (G f)) -> (forall f, gate_keyed (G f)) ->
  chain (mkApplyGateCrawler s folderIDs) k Cursor_zero (rs ++ [step]) c1 k1 cur1 ->
  StepResult_Complete step = true -> StepResult_Pruned step = 0 ->
  (forall x, x ∈ rs -> StepResult_Complete x = false /\ StepResult_Pruned x = 0) ->
  Z.of_nat (length rs) < maxInt64 ->
  forall f, f ∈ folderIDs -> gate_clean (G f).
Proof.
  intros HG Hk Hch Hc Hp Hall Hlen.
  destruct (chain_records s folderIDs k Cursor_zero _ _ _ _ Hch) as [scan Hscan]; [by destruct rs|].
  inversion Hch as [|? ? ? rs0 w0 k0 c0 step0 w2 k2 Hch0 Hst _ Hw Hkk Hcc Heq]; subst.
  { by destruct rs. }
  apply app_inj_tail in Heq as [-> ->]. 
  destruct w0 as [s0 fs0]. apply crawler_Step_inv in Hst as (s1 & Es & ->).
  destruct (chain_kept s folderIDs scan k rs _ _ _ Hscan Hch0) as (Heq & Hpos & Hi); [lia|done|].
  injection Heq as -> ->.
  assert (forall i, (i < length (scan_records scan))%nat -> unprunable scan i) as Hun.
  { intros i Hlti. destruct (Nat.lt_ge_cases i (length rs)) as [Hlt|Hge]; [by apply Hi|].
    destruct (gate_Step_kept _ _ _ _ _ _ Es Hp Hscan) as (_ & _ & Hcomp & Hu); [lia|lia|].
    rewrite Hc in Hcomp. symmetry in Hcomp. apply bool_decide_eq_true in Hcomp.
    rewrite Hpos, Nat2Z.id in Hu. by replace i with (length rs) by lia. }
  destruct (records_of s G HG Hk _ _ Hscan) as (Hrec & Hreq & Hpend).
  assert (forall r, r ∈ scan_records scan -> prunable_write scan r = false /\ prunable_delete scan r = false) as Hnone.
  { intros r [i Hr]%list_elem_of_lookup. destruct (Hun i) as (r' & Hr' & H1 & H2); [by eapply lookup_lt_Some|].
    by simplify_eq. }
  intros f Hf. split.
  - intros p w Hw Hcw. destruct (Hnone (mkGateRecord f p (Some w) None)) as [Hnw _].
    { apply Hrec. split; [done|]. left. by exists w. }
    unfold prunable_write in Hnw. cbn [gr_write gr_path gr_folderID] in Hnw. rewrite Hcw in Hnw.
    apply bool_decide_eq_false, dec_stable in Hnw. by apply Hreq in Hnw as [_ ?].
  - intros p d q Hd Hq. destruct (Hnone (mkGateRecord f p None (Some d))) as [_ Hnd].
    { apply Hrec. split; [done|]. right. by exists d. }
    unfold prunable_delete in Hnd. cbn [gr_delete gr_folderID] in Hnd.
    destruct (decide (q ∈ inner (scan_pending scan) f)) as [Hin|Hnin]; [by apply Hpend in Hin as [_ ?]|].
    exfalso. rewrite (proj2 (missingRequiredWrite_true _ _)) in Hnd; [done|by exists q].
Qed.
End crawler_theorems.

(** ** The JSON store implements the interface *)

Section json_gate.
Context (sha256 : bytes -> bytes) (marshal : Manifest -> string).

Definition JSON_ApplyGateStore : ApplyGateStore JSONStore := {|
  gs_FolderSummary := FolderSummary_ sha256 marshal;
  gs_PendingWrites := ListPendingWrites;
  gs_SkippedDeletes := ListSkippedDeletes;
  gs_RemovePendingWrite := RemovePendingWrite;
  gs_RemoveSkippedDelete := RemoveSkippedDelete
|}.
#[local] Existing Instance JSON_ApplyGateStore.

Definition JSON_gate (s : JSONStore) (f : string) : option gate :=
  match load s with
  | Ok snap => Some (mkGate (inner (PendingWrites (snap_gate snap)) f) (inner (SkippedDeletes (snap_gate snap)) f))
  | Err _ => None
  end.

Lemma JSON_gate_remove s f' h :
  match modify_gate s (fun g => Ok (h g)) with
  | (s', Ok _) => forall g, JSON_gate s f' = Some g -> exists g0,
      g = mkGate (inner (PendingWrites g0) f') (inner (SkippedDeletes g0) f') /\
      JSON_gate s' f' = Some (mkGate (inner (PendingWrites (h g0)) f') (inner (SkippedDeletes (h g0)) f'))
  | (s', Err _) => s' = s
  end.
Proof.
  unfold JSON_gate. destruct (load s) as [snap|e] eqn:Hl.
  - pose proof (modify_gate_cases s (fun g => Ok (h g)) snap Hl) as Hm. cbv beta in Hm.
    destruct (modify_gate _ _) as [s' [u|e]]; [|tauto]. intros g [= <-]. exists (snap_gate snap).
    split; [done|]. by rewrite Hm.
  - unfold modify_gate, modify. by rewrite Hl.
Qed.

#[program] Definition JSON_ApplyGateLaws : ApplyGateLaws JSONStore := {| gs_gate := JSON_gate |}.
Next Obligation.
  intros s f g Hg _. unfold JSON_gate in Hg. simpl. unfold ListPendingWrites.
  destruct (load s) as [snap|]; [|done]. injection Hg as <-. eexists. split; [reflexivity|]. apply sort_by_perm.
Qed.
Next Obligation.
  intros s f g Hg _. unfold JSON_gate in Hg. simpl. unfold ListSkippedDeletes.
  destruct (load s) as [snap|]; [|done]. injection Hg as <-. eexists. split; [reflexivity|]. apply sort_by_perm.
Qed.
Next Obligation.
  intros s f p g f' Hg. pose proof (JSON_gate_remove s f'
    (fun g => mkGateMeta (del2 f p (PendingWrites g)) (SkippedDeletes g))) as Hm.
  cbn [gs_RemovePendingWrite JSON_ApplyGateStore]. unfold RemovePendingWrite.
  destruct (modify_gate _ _) as [s' [u|e]]; [|done]. destruct (Hm g Hg) as (g0 & -> & ->).
  cbn [PendingWrites SkippedDeletes gate_writes gate_deletes]. f_equal.
  case_decide as Hf; [subst; by rewrite inner_del2_eq|by rewrite inner_del2_ne].
Qed.
Next Obligation.
  intros s f p g f' Hg. pose proof (JSON_gate_remove s f'
    (fun g => mkGateMeta (PendingWrites g) (del2 f p (SkippedDeletes g)))) as Hm.
  cbn [gs_RemoveSkippedDelete JSON_ApplyGateStore]. unfold RemoveSkippedDelete.
  destruct (modify_gate _ _) as [s' [u|e]]; [|done]. destruct (Hm g Hg) as (g0 & -> & ->).
  cbn [PendingWrites SkippedDeletes gate_writes gate_deletes]. f_equal.
  case_decide as Hf; [subst; by rewrite inner_del2_eq|by rewrite inner_del2_ne].
Qed.
End json_gate.

(** A store that holds a committed write nothing requires. *)
Definition demo_gate_store : JSONStore :=
  mkStore (Some (mkBackend (JSONFile (with_gate (mkGateMeta {["docs" := {["new" := set_Committed true demo_write]}]} ∅)
    snapshot_zero)) false false)).
Definition demo_sha (bs : bytes) : bytes := take 1 (reverse bs).
Definition demo_gates (f : string) : gate :=
  mkGate (inner {["docs" := {["new" := set_Committed true demo_write]}]} f) ∅.

Lemma demo_gates_keyed f : gate_keyed (demo_gates f).
Proof.
  split; cbn [demo_gates gate_writes gate_deletes]; [by intros p v (_ & <- & <-)%inner_singleton_Some|].
  by intros p d Hd%lookup_empty_Some.
Qed.

Lemma gate_Step_safe_witness :
  let I := JSON_ApplyGateStore demo_sha demo_marshal in
  let r := @gate_Step _ I false ["docs"] demo_gate_store Cursor_zero in
  StepResult_Pruned <$> r.2 = Ok 1 /\
  exists g', @gs_gate _ I (JSON_ApplyGateLaws demo_sha demo_marshal) r.1 "docs" = Some g' /\ gate_keyed g'.
Proof.
  intros I r. split; [vm_compute; reflexivity|].
  destruct (@gate_Step_safe _ I (JSON_ApplyGateLaws demo_sha demo_marshal) false ["docs"] demo_gate_store Cursor_zero r.1 r.2
    demo_gates (fun f => eq_refl) demo_gates_keyed (surjective_pairing r) "docs") as (g' & Hg' & Hk & _).
  exists g'. exact (conj Hg' Hk).
Defined.

(** The same folder while a skipped delete still waits for the write. *)
Definition busy_gate : gateMeta :=
  mkGateMeta {["docs" := {["new" := set_Committed true demo_write]}]} {["docs" := {["old" := demo_skipped]}]}.
Definition busy_store : JSONStore := mkStore (Some (mkBackend (JSONFile (with_gate busy_gate snapshot_zero)) false false)).
Definition busy_gates (f : string) : gate := mkGate (inner (PendingWrites busy_gate) f) (inner (SkippedDeletes busy_gate) f).

Lemma busy_gates_keyed f : gate_keyed (busy_gates f).
Proof. by split; intros p v (_ & <- & <-)%inner_singleton_Some. Qed.

Lemma gate_pass_clean_witness : gate_clean (busy_gates "docs").
Proof.
  apply (@gate_pass_clean _ (JSON_ApplyGateStore demo_sha demo_marshal) (JSON_ApplyGateLaws demo_sha demo_marshal)
    _ _ busy_store ["docs"] demo_checkpoint
    [mkStepResult (mkCursor 1 "docs" "new" 0) 1 0 0 0 0 false] (mkStepResult (mkCursor 2 "docs" "old" 0) 1 0 0 0 0 true)
    (mkApplyGateCrawler busy_store ["docs"])
    (FileCheckpoint_Save demo_checkpoint Cursor_zero).1 Cursor_zero busy_gates).
  - reflexivity.
  - apply busy_gates_keyed.
  - apply (chain_snoc _ _ _ [_] (mkApplyGateCrawler busy_store ["docs"])
      (FileCheckpoint_Save demo_checkpoint (mkCursor 1 "docs" "new" 0)).1 (mkCursor 1 "docs" "new" 0)
      (mkStepResult (mkCursor 2 "docs" "old" 0) 1 0 0 0 0 true)); [|vm_compute; reflexivity|vm_compute; reflexivity].
    apply (chain_snoc _ _ _ [] (mkApplyGateCrawler busy_store ["docs"]) demo_checkpoint Cursor_zero
      (mkStepResult (mkCursor 1 "docs" "new" 0) 1 0 0 0 0 false));
      [constructor|vm_compute; reflexivity|vm_compute; reflexivity].
  - reflexivity.
  - reflexivity.
  - by intros x ->%list_elem_of_singleton.
  - vm_compute. reflexivity.
  - by left.
Defined.
