(* ===== verification/Crawlers.v ===== *)
(** * The report-only crawlers

    Models [internal/maintenance/metadata_consistency_crawler.go],
    [manifest_crawler.go] and [block_index_crawler.go].  Each lists its records
    in a fixed order and visits one per step.  The stores they read are
    interfaces, which the JSON store implements. *)

From S2P Require Import Prelude GoStd Block StoreData Store Maintenance Jobs.
From Stdlib Require Import Ascii.

Local Open Scope Z_scope.

(** ** One step of a crawler over a list of records

    [idx] is an [int]; from 2^63 on a cursor's position is negative as an [int],
    and indexing with it panics. *)
Definition stepAt {A B} (idx : Z) (records : list A) (atEnd panic : B) (visit : A -> B) : B :=
  if Z.of_nat (length records) <=? idx then atEnd
  else if idx <? 0 then panic
  else match records !! Z.to_nat idx with Some r => visit r | None => panic end.

(** [StepResult{Cursor: Cursor{}, Complete: true}] *)
Definition pass_done : StepResult := mkStepResult Cursor_zero 0 0 0 0 0 true.

Definition int_of_position (cursor : Cursor) : Z := i64 (Cursor_Position cursor).

(** ** Metadata consistency *)

(** [type MetadataConsistencyStore interface] *)
Class MetadataConsistencyStore (S : Type) := {
  mc_ListManifests : S -> string -> result StoreErr (gmap string Manifest);
  mc_ListManifestRevisions : S -> string -> result StoreErr (gmap string Z);
  mc_ListTombstones : S -> string -> result StoreErr (gmap string Z);
  mc_FolderSummary : S -> string -> result StoreErr FolderSummary
}.

Abbreviation metadataConsistencyKind := string (only parsing).
Definition metadataMissingRevision : metadataConsistencyKind := "missing-revision".
Definition metadataOrphanRevision : metadataConsistencyKind := "orphan-revision".
Definition metadataLiveAndTombstoned : metadataConsistencyKind := "live-and-tombstoned".
Definition metadataRevisionPastCursor : metadataConsistencyKind := "revision-past-cursor".

Record metadataConsistencyRecord := mkConsistencyRecord {
  cr_folderID : string;
  cr_path : string;
  cr_revision : Z;
  cr_kind : metadataConsistencyKind
}.

Definition consistency_lt : metadataConsistencyRecord -> metadataConsistencyRecord -> bool :=
  by_key cr_folderID str_lt (by_key cr_path str_lt (by_key cr_revision Z.ltb (last_key cr_kind str_lt))).

(** The three loops over one folder. *)
Definition manifestRecords (folderID : string) (revisions tombstones : gmap string Z) (cursor : Z)
    (file : string * Manifest) : list metadataConsistencyRecord :=
  let path := file.1 in
  match revisions !! path with
  | None => [mkConsistencyRecord folderID path 0 metadataMissingRevision]
  | Some _ => []
  end ++
  match tombstones !! path with
  | Some tombRevision => [mkConsistencyRecord folderID path tombRevision metadataLiveAndTombstoned]
  | None => []
  end ++
  match revisions !! path with
  | Some revision =>
      if cursor <? revision then [mkConsistencyRecord folderID path revision metadataRevisionPastCursor] else []
  | None => []
  end.

Definition revisionRecords (folderID : string) (manifests : gmap string Manifest) (tombstones : gmap string Z)
    (cursor : Z) (entry : string * Z) : list metadataConsistencyRecord :=
  let '(path, revision) := entry in
  match manifests !! path, tombstones !! path with
  | None, None => [mkConsistencyRecord folderID path revision metadataOrphanRevision]
  | _, _ => []
  end ++
  (if cursor <? revision then [mkConsistencyRecord folderID path revision metadataRevisionPastCursor] else []).

Definition tombstoneRecords (folderID : string) (cursor : Z) (entry : string * Z)
    : list metadataConsistencyRecord :=
  let '(path, revision) := entry in
  if cursor <? revision then [mkConsistencyRecord folderID path revision metadataRevisionPastCursor] else [].

Definition folderConsistency (folderID : string) (manifests : gmap string Manifest)
    (revisions tombstones : gmap string Z) (cursor : Z) : list metadataConsistencyRecord :=
  (map_to_list manifests ≫= manifestRecords folderID revisions tombstones cursor) ++
  (map_to_list revisions ≫= revisionRecords folderID manifests tombstones cursor) ++
  (map_to_list tombstones ≫= tombstoneRecords folderID cursor).

(** The loop over the sorted folder ids; the first error ends it. *)
Definition collect {A} (perFolder : string -> result StoreErr (list A)) (folderIDs : list string)
    : result StoreErr (list A) :=
  foldl (fun acc folderID => collected ← acc; more ← perFolder folderID; Ok (collected ++ more))
    (Ok []) (sort_by str_lt folderIDs).

Section metadata_consistency.
Context {S : Type} `{!MetadataConsistencyStore S}.

Definition scanConsistency (s : S) (folderID : string) : result StoreErr (list metadataConsistencyRecord) :=
  manifests ← mc_ListManifests s folderID;
  revisions ← mc_ListManifestRevisions s folderID;
  tombstones ← mc_ListTombstones s folderID;
  summary ← mc_FolderSummary s folderID;
  Ok (folderConsistency folderID manifests revisions tombstones (FolderSummary_Cursor summary)).

Definition consistencyRecords (s : S) (folderIDs : list string) : result StoreErr (list metadataConsistencyRecord) :=
  records ← collect (scanConsistency s) folderIDs;
  Ok (sort_by consistency_lt records).

Definition consistency_Step (canceled : bool) (folderIDs : list string) (s : S) (cursor : Cursor)
    : result CrawlErr StepResult :=
  if canceled then Err CrawlCanceled
  else match consistencyRecords s folderIDs with
  | Err e => Err (CrawlStore e)
  | Ok records =>
      let idx := int_of_position cursor in
      stepAt idx records (Ok pass_done) (Err CrawlPanic) (fun r =>
        Ok (mkStepResult (mkCursor (u64 (idx + 1)) (cr_folderID r) (cr_path r) (cr_revision r))
              1 0 0 1 0 (Z.of_nat (length records) <=? idx + 1)))
  end.
End metadata_consistency.

(** ** Manifests *)

(** [type ManifestStore interface]; [ManifestRevisionStore] is optional. *)
Class ManifestStore (S : Type) := {
  ms_ListManifests : S -> string -> result StoreErr (gmap string Manifest);
  ms_ListManifestRevisions : option (S -> string -> result StoreErr (gmap string Z))
}.

Record manifestRecord := mkManifestRecord {
  mr_folderID : string;
  mr_path : string;
  mr_revision : Z;
  mr_manifest : Manifest
}.

Section manifest_crawler.
Context {S : Type} `{!ManifestStore S}.

Definition revisions_of (s : S) (folderID : string) : result StoreErr (gmap string Z) :=
  match ms_ListManifestRevisions with
  | None => Ok ∅
  | Some list_revisions => list_revisions s folderID
  end.

Definition scanManifests (s : S) (folderID : string) : result StoreErr (list manifestRecord) :=
  manifests ← ms_ListManifests s folderID;
  revisions ← revisions_of s folderID;
  Ok (omap (fun path => mkManifestRecord folderID path (num revisions path) <$> manifests !! path)
        (sorted_keys manifests)).

Definition manifestRecordsOf (s : S) (folderIDs : list string) : result StoreErr (list manifestRecord) :=
  collect (scanManifests s) folderIDs.

(** [record.folderID == cursor.FolderID && ...] *)
Definition at_record (cursor : Cursor) (r : manifestRecord) : Prop :=
  mr_folderID r = Cursor_FolderID cursor /\ mr_path r = Cursor_Path cursor /\ mr_revision r = Cursor_Revision cursor.

Definition resumeIndex (records : list manifestRecord) (cursor : Cursor) : Z :=
  if bool_decide (Cursor_FolderID cursor = EmptyString) || bool_decide (Cursor_Path cursor = EmptyString)
  then int_of_position cursor
  else match list_find (at_record cursor) records with
  | Some (i, _) => Z.of_nat i + 1
  | None => int_of_position cursor
  end.

Definition manifest_Step (folderIDs : list string) (s : S) (cursor : Cursor) : result CrawlErr StepResult :=
  match manifestRecordsOf s folderIDs with
  | Err e => Err (CrawlStore e)
  | Ok records =>
      let idx := resumeIndex records cursor in
      stepAt idx records (Ok pass_done) (Err CrawlPanic) (fun r =>
        Ok (mkStepResult (mkCursor (u64 (idx + 1)) (mr_folderID r) (mr_path r) (mr_revision r))
              1 (Manifest_Size (mr_manifest r)) 0 0 0 (Z.of_nat (length records) <=? idx + 1)))
  end.
End manifest_crawler.

(** ** The block index *)

(** [type BlockIndexStore interface] *)
Class BlockIndexStore (S : Type) := {
  bi_ListBlockRefs : S -> string -> result StoreErr (list BlockRef);
  bi_LoadManifest : S -> string -> string -> result StoreErr (option Manifest)
}.

Definition manifestContainsBlock (manifest : Manifest) (target : Block) : bool :=
  existsb (fun candidate => blockBytesMatch candidate target) (Manifest_Blocks manifest).

Section block_index.
Context {S : Type} `{!BlockIndexStore S}.

Definition blockIndexRecords (s : S) (folderIDs : list string) : result StoreErr (list BlockRef) :=
  records ← collect (bi_ListBlockRefs s) folderIDs;
  Ok (sort_by ref_lt records).

Definition blockIndex_Step (canceled : bool) (folderIDs : list string) (s : S) (cursor : Cursor)
    : result CrawlErr StepResult :=
  if canceled then Err CrawlCanceled
  else match blockIndexRecords s folderIDs with
  | Err e => Err (CrawlStore e)
  | Ok records =>
      let idx := int_of_position cursor in
      stepAt idx records (Ok pass_done) (Err CrawlPanic) (fun ref =>
        match bi_LoadManifest s (BlockRef_FolderID ref) (BlockRef_RelativePath ref) with
        | Err e => Err (CrawlStore e)
        | Ok found =>
            let stale := match found with
                         | Some manifest => negb (manifestContainsBlock manifest (BlockRef_Block ref))
                         | None => true
                         end in
            Ok (mkStepResult (mkCursor (u64 (idx + 1)) (BlockRef_FolderID ref) (BlockRef_RelativePath ref) 0)
                  1 (Block_Size (BlockRef_Block ref)) 0 (if stale then 1 else 0) 0
                  (Z.of_nat (length records) <=? idx + 1))
        end)
  end.
End block_index.

(** ** The crawlers *)

Record ManifestCrawler (S : Type) := mkManifestCrawler {
  ManifestCrawler_Store : S;
  ManifestCrawler_FolderIDs : list string
}.
Arguments mkManifestCrawler {S} _ _.
Arguments ManifestCrawler_Store {S} _.
Arguments ManifestCrawler_FolderIDs {S} _.

#[export] Instance ManifestCrawler_crawler {S} `{!ManifestStore S} : Crawler (ManifestCrawler S) := {|
  Step c cursor := (c, manifest_Step (ManifestCrawler_FolderIDs c) (ManifestCrawler_Store c) cursor)
|}.

(** ** The JSON store implements the interfaces *)

Definition JSON_MetadataConsistencyStore (sha256 : bytes -> bytes) (marshal : Manifest -> string)
    : MetadataConsistencyStore JSONStore := {|
  mc_ListManifests := ListManifests;
  mc_ListManifestRevisions := ListManifestRevisions;
  mc_ListTombstones := ListTombstones;
  mc_FolderSummary := FolderSummary_ sha256 marshal
|}.

#[export] Instance JSON_ManifestStore : ManifestStore JSONStore := {|
  ms_ListManifests := ListManifests;
  ms_ListManifestRevisions := Some ListManifestRevisions
|}.

#[export] Instance JSON_BlockIndexStore : BlockIndexStore JSONStore := {|
  bi_ListBlockRefs := ListBlockRefs;
  bi_LoadManifest := LoadManifest
|}.

(** ** Properties *)

(** *** Lists *)

Lemma collect_Ok {A} (perFolder : string -> result StoreErr (list A)) folderIDs l :
  collect perFolder folderIDs = Ok l ->
  exists ls, Forall2 (fun f l' => perFolder f = Ok l') (sort_by str_lt folderIDs) ls /\ l = mjoin ls.
Proof.
  unfold collect. intros H. cut (exists ls, Forall2 (fun f l' => perFolder f = Ok l') (sort_by str_lt folderIDs) ls /\
    l = [] ++ mjoin ls); [done|]. revert H. generalize (@nil A) as acc.
  induction (sort_by str_lt folderIDs) as [|f fs IH]; intros acc; cbn [foldl].
  - intros [= <-]. exists []. split; [constructor|]. by rewrite app_nil_r.
  - cbn [mbind result_bind]. destruct (perFolder f) as [more|e] eqn:E; cbn [mbind result_bind].
    + intros (ls & Hls & ->)%IH. exists (more :: ls). split; [by constructor|]. by rewrite <- app_assoc.
    + intros H. exfalso. clear IH. induction fs as [|g fs IH]; [done|]. apply IH. exact H.
Qed.

Lemma elem_of_collect {A} (perFolder : string -> result StoreErr (list A)) folderIDs l x :
  collect perFolder folderIDs = Ok l ->
  x ∈ l <-> exists f l', f ∈ folderIDs /\ perFolder f = Ok l' /\ x ∈ l'.
Proof.
  intros (ls & Hls & ->)%collect_Ok. rewrite list_elem_of_join. split.
  - intros (l' & Hx & [i Hi]%list_elem_of_lookup). destruct (Forall2_lookup_r _ _ _ _ _ Hls Hi) as (f & Hf & Hl).
    exists f, l'. split_and!; [|done..]. rewrite <- (elem_of_sort_by str_lt). by eapply list_elem_of_lookup_2.
  - intros (f & l' & Hf & Hl & Hx). rewrite <- (elem_of_sort_by str_lt) in Hf.
    apply list_elem_of_lookup in Hf as [i Hi]. destruct (Forall2_lookup_l _ _ _ _ _ Hls Hi) as (l2 & Hl2 & E).
    assert (l2 = l') as -> by congruence. exists l'. split; [done|]. by eapply list_elem_of_lookup_2.
Qed.

(** *** Passes: the steps of a crawler until one completes *)

Fixpoint pass (step : Cursor -> result CrawlErr StepResult) (fuel : nat) (cursor : Cursor)
    : option (list StepResult) :=
  match fuel with
  | O => None
  | S fuel' =>
      match step cursor with
      | Err _ => None
      | Ok r =>
          if StepResult_Complete r then Some [r]
          else (fun rs => r :: rs) <$> pass step fuel' (StepResult_Cursor r)
      end
  end.

Section passes.
Context {A : Type} (step : Cursor -> result CrawlErr StepResult) (index : Cursor -> Z)
  (records : list A) (visit : Z -> A -> StepResult).
Hypothesis step_visits : forall c,
  step c = stepAt (index c) records (Ok pass_done) (Err CrawlPanic) (fun r => Ok (visit (index c) r)).
Hypothesis visit_moves : forall i r, records !! i = Some r ->
  index (StepResult_Cursor (visit (Z.of_nat i) r)) = Z.of_nat i + 1 /\
  StepResult_Complete (visit (Z.of_nat i) r) = (Z.of_nat (length records) <=? Z.of_nat i + 1).

Lemma step_at_record c i r : records !! i = Some r -> index c = Z.of_nat i -> step c = Ok (visit (Z.of_nat i) r).
Proof.
  intros Hr Hc. rewrite step_visits, Hc. unfold stepAt. pose proof (lookup_lt_Some _ _ _ Hr).
  rewrite (proj2 (Z.leb_gt _ _)), (proj2 (Z.ltb_ge _ _)), Nat2Z.id, Hr by lia. done.
Qed.

Lemma step_at_end c : Z.of_nat (length records) <= index c -> step c = Ok pass_done.
Proof. intros H. rewrite step_visits. unfold stepAt. by rewrite (proj2 (Z.leb_le _ _)). Qed.

(** From an index on, a pass visits each of the remaining records once. *)
Lemma pass_from c i :
  (i < length records)%nat -> index c = Z.of_nat i ->
  pass step (length records - i) c =
    Some (imap (fun k r => visit (Z.of_nat (i + k)) r) (drop i records)).
Proof.
  intros Hi. remember (length records - i)%nat as n eqn:Hn. revert i c Hi Hn.
  induction n as [|n IH]; intros i c Hi Hn Hc; [lia|].
  destruct (lookup_lt_is_Some_2 records i Hi) as [r Hr]. cbn [pass].
  rewrite (step_at_record c i r Hr Hc). destruct (visit_moves i r Hr) as [Hnext ->].
  rewrite (drop_S _ _ _ Hr), imap_cons, Nat.add_0_r.
  destruct (Z.leb_spec (Z.of_nat (length records)) (Z.of_nat i + 1)) as [Hle|Hgt].
  - rewrite drop_ge by lia. done.
  - rewrite (IH (S i)) by lia. cbn [fmap option_fmap option_map]. do 2 f_equal.
    apply imap_ext. intros k x _. cbn. do 2 f_equal. lia.
Qed.
End passes.

(** *** Metadata consistency *)

Section inconsistencies.
Context (manifests : gmap string Manifest) (revisions tombstones : gmap string Z) (cursor : Z).

(** What the crawler calls inconsistent in a folder. *)
Inductive inconsistent (path : string) : Z -> metadataConsistencyKind -> Prop :=
| no_revision m : manifests !! path = Some m -> revisions !! path = None ->
    inconsistent path 0 metadataMissingRevision
| no_file rev : revisions !! path = Some rev -> manifests !! path = None -> tombstones !! path = None ->
    inconsistent path rev metadataOrphanRevision
| live_and_dead m t : manifests !! path = Some m -> tombstones !! path = Some t ->
    inconsistent path t metadataLiveAndTombstoned
| live_ahead rev : revisions !! path = Some rev -> cursor < rev ->
    inconsistent path rev metadataRevisionPastCursor
| dead_ahead t : tombstones !! path = Some t -> cursor < t ->
    inconsistent path t metadataRevisionPastCursor.

Lemma elem_of_if {X} (b : bool) (x y : X) : x ∈ (if b then [y] else []) <-> b = true /\ x = y.
Proof. destruct b; rewrite ?list_elem_of_singleton, ?elem_of_nil; naive_solver. Qed.

Lemma elem_of_folderConsistency f r :
  r ∈ folderConsistency f manifests revisions tombstones cursor <->
  cr_folderID r = f /\ inconsistent (cr_path r) (cr_revision r) (cr_kind r).
Proof.
  unfold folderConsistency. rewrite !elem_of_app, !list_elem_of_bind. split.
  - intros [([p m] & Hr & Hin)|[([p rev] & Hr & Hin)|([p t] & Hr & Hin)]]; apply elem_of_map_to_list in Hin.
    + unfold manifestRecords in Hr. cbn [fst snd] in Hr. rewrite !elem_of_app in Hr.
      destruct Hr as [Hr|[Hr|Hr]].
      * destruct (revisions !! p) eqn:E; [by apply elem_of_nil in Hr|].
        apply list_elem_of_singleton in Hr as ->. split; [done|]. by eapply no_revision.
      * destruct (tombstones !! p) eqn:E; [|by apply elem_of_nil in Hr].
        apply list_elem_of_singleton in Hr as ->. split; [done|]. by eapply live_and_dead.
      * destruct (revisions !! p) eqn:E; [|by apply elem_of_nil in Hr].
        apply elem_of_if in Hr as [Hlt%Z.ltb_lt ->]. split; [done|]. by apply live_ahead.
    + cbn in Hr. rewrite elem_of_app, elem_of_if in Hr. destruct Hr as [Hr|[Hlt%Z.ltb_lt ->]].
      * destruct (manifests !! p) eqn:Em; [by apply elem_of_nil in Hr|].
        destruct (tombstones !! p) eqn:Et; [by apply elem_of_nil in Hr|].
        apply list_elem_of_singleton in Hr as ->. split; [done|]. by apply no_file.
      * split; [done|]. by apply live_ahead.
    + cbn in Hr. apply elem_of_if in Hr as [Hlt%Z.ltb_lt ->]. split; [done|]. by apply dead_ahead.
  - destruct r as [f' p rev k]. cbn. intros [-> H]. destruct H as [m Hm Hr|rev Hr Hm Ht|m t Hm Ht|rev Hr Hlt|t Ht Hlt].
    + left. exists (p, m). split; [|by apply elem_of_map_to_list]. unfold manifestRecords. cbn. rewrite Hr. by left.
    + right. left. exists (p, rev). split; [|by apply elem_of_map_to_list]. cbn. rewrite Hm, Ht. by left.
    + left. exists (p, m). split; [|by apply elem_of_map_to_list]. unfold manifestRecords. cbn.
      rewrite Ht, !elem_of_app. right. left. by left.
    + right. left. exists (p, rev). split; [|by apply elem_of_map_to_list]. cbn.
      rewrite elem_of_app, elem_of_if. right. split; [by apply Z.ltb_lt|done].
    + right. right. exists (p, t). split; [|by apply elem_of_map_to_list]. cbn.
      rewrite elem_of_if. split; [by apply Z.ltb_lt|done].
Qed.
End inconsistencies.

Lemma int_of_position_u64 z f p r : 0 <= z <= maxInt64 -> int_of_position (mkCursor (u64 z) f p r) = z.
Proof.
  unfold maxInt64, int_of_position. cbn [Cursor_Position]. intros H. rewrite u64_small by lia.
  apply i64_small. unfold int64_range, maxInt64, minInt64. lia.
Qed.

(** What a step names: folder, path and revision. *)
Definition named (r : StepResult) : string * string * Z :=
  (Cursor_FolderID (StepResult_Cursor r), Cursor_Path (StepResult_Cursor r), Cursor_Revision (StepResult_Cursor r)).

Section json_consistency.
Context (sha256 : bytes -> bytes) (marshal : Manifest -> string).
#[local] Instance mc_json : MetadataConsistencyStore JSONStore := JSON_MetadataConsistencyStore sha256 marshal.

Lemma scanConsistency_json s snap f l r :
  load s = Ok snap -> scanConsistency s f = Ok l ->
  r ∈ l <-> cr_folderID r = f /\
    let v := view (snap_local snap) f in
    inconsistent (files v) (revs v) (tombs v) (cursor v) (cr_path r) (cr_revision r) (cr_kind r).
Proof.
  intros Hl. unfold scanConsistency. cbn [mc_ListManifests mc_ListManifestRevisions mc_ListTombstones mc_FolderSummary
    mc_json JSON_MetadataConsistencyStore].
  unfold ListManifests, ListManifestRevisions, ListTombstones, FolderSummary_. rewrite Hl.
  cbn [mbind result_bind fmap result_fmap]. unfold folderSummary.
  destruct (summaryPathCapacity _ _); cbn [mbind result_bind]; [|done]. intros [= <-].
  rewrite elem_of_folderConsistency. done.
Qed.

(** In a well-formed folder the only suspicious paths are those a rename made
    live again over a tombstone. *)
Lemma inconsistent_wf v path rev kind :
  wf v -> inconsistent (files v) (revs v) (tombs v) (cursor v) path rev kind ->
  kind = metadataLiveAndTombstoned /\ tombs v !! path = Some rev /\
  exists live, revs v !! path = Some live /\ rev < live.
Proof.
  intros W [m Hm Hr|r Hr Hm _|m t Hm Ht|r Hr Hlt|t Ht Hlt].
  - destruct (proj1 (wf_dom _ W path)); [by eexists|congruence].
  - destruct (proj2 (wf_dom _ W path)); [by eexists|congruence].
  - destruct (proj1 (wf_dom _ W path)) as [live Hlive]; [by eexists|]. split_and!; [done..|].
    exists live. split; [done|]. by eapply wf_tomb_lt.
  - apply (wf_rev _ W) in Hr. lia.
  - apply (wf_tomb _ W) in Ht. lia.
Qed.

Lemma consistency_pass s folderIDs records :
  consistencyRecords s folderIDs = Ok records -> records <> [] -> Z.of_nat (length records) <= maxInt64 ->
  exists steps, pass (consistency_Step false folderIDs s) (length records) Cursor_zero = Some steps /\
    named <$> steps = (fun r => (cr_folderID r, cr_path r, cr_revision r)) <$> records /\
    Forall (fun st => StepResult_Reported st = 1) steps.
Proof.
  intros Hrec Hne Hlen.
  set (visit := fun (idx : Z) (r : metadataConsistencyRecord) =>
    mkStepResult (mkCursor (u64 (idx + 1)) (cr_folderID r) (cr_path r) (cr_revision r))
      1 0 0 1 0 (Z.of_nat (length records) <=? idx + 1)).
  pose proof (pass_from (consistency_Step false folderIDs s) int_of_position records visit) as Hp.
  specialize (Hp ltac:(intros c; unfold consistency_Step; by rewrite Hrec)).
  eexists. split.
  - replace (length records) with (length records - 0)%nat by lia. apply Hp.
    + intros i r Hi. split; [|done]. apply int_of_position_u64. apply lookup_lt_Some in Hi. lia.
    + destruct records; [done|simpl; lia].
    + done.
  - rewrite drop_0. split.
    + rewrite fmap_imap. exact (imap_const (fun r => (cr_folderID r, cr_path r, cr_revision r)) records).
    + apply Forall_lookup. intros i st Hst. rewrite list_lookup_imap in Hst.
      by apply fmap_Some in Hst as (r & _ & ->).
Qed.

(** The consistency crawler is exact: on a stored folder it lists a path
    precisely for each way in which manifests, revisions, tombstones and cursor
    contradict each other, and a pass from the start reports every listed record
    once, in order.  In folders that satisfy the store's invariant the only
    records are paths that a rename made live again over an older tombstone. *)
Theorem consistency_exact s snap folderIDs records :
  load s = Ok snap -> consistencyRecords s folderIDs = Ok records -> Z.of_nat (length records) <= maxInt64 ->
  (forall r, r ∈ records <-> cr_folderID r ∈ folderIDs /\
     let v := view (snap_local snap) (cr_folderID r) in
     inconsistent (files v) (revs v) (tombs v) (cursor v) (cr_path r) (cr_revision r) (cr_kind r)) /\
  match records with
  | [] => consistency_Step false folderIDs s Cursor_zero = Ok pass_done
  | _ => exists steps, pass (consistency_Step false folderIDs s) (length records) Cursor_zero = Some steps /\
      named <$> steps = (fun r => (cr_folderID r, cr_path r, cr_revision r)) <$> records /\
      Forall (fun st => StepResult_Reported st = 1) steps
  end /\
  (wf_meta (snap_local snap) -> forall r, r ∈ records ->
     let v := view (snap_local snap) (cr_folderID r) in
     cr_kind r = metadataLiveAndTombstoned /\ tombs v !! cr_path r = Some (cr_revision r) /\
     exists live, revs v !! cr_path r = Some live /\ cr_revision r < live).
Proof.
  intros Hl Hrec Hlen.
  assert (forall r, r ∈ records <-> cr_folderID r ∈ folderIDs /\
     let v := view (snap_local snap) (cr_folderID r) in
     inconsistent (files v) (revs v) (tombs v) (cursor v) (cr_path r) (cr_revision r) (cr_kind r)) as Hin.
  { intros r. pose proof Hrec as Hc. unfold consistencyRecords in Hc.
    destruct (collect (scanConsistency s) folderIDs) as [l|e] eqn:E; [|done]. injection Hc as <-.
    rewrite elem_of_sort_by, (elem_of_collect _ _ _ _ E). split.
    - intros (f & l' & Hf & Hl' & Hr). apply (scanConsistency_json _ _ _ _ _ Hl Hl') in Hr as [<- Hr]. done.
    - intros [Hf Hr]. apply collect_Ok in E as (ls & Hls & _). pose proof Hf as Hs.
      rewrite <- (elem_of_sort_by str_lt) in Hs. apply list_elem_of_lookup in Hs as [i Hi].
      destruct (Forall2_lookup_l _ _ _ _ _ Hls Hi) as (l' & _ & Hl'). exists (cr_folderID r), l'.
      split_and!; [done..|]. by apply (scanConsistency_json _ _ _ _ _ Hl Hl'). }
  split_and!; [done| |].
  - destruct records as [|r rs] eqn:E; [|by apply consistency_pass].
    unfold consistency_Step. by rewrite Hrec.
  - intros W r Hr. apply Hin in Hr as [_ Hr]. by apply (inconsistent_wf _ _ _ _ (W _)).
Qed.
End json_consistency.

(** A file renamed onto a path that had been deleted: a healthy folder whose
    destination the crawler lists on every pass. *)
Definition demo_renamed_store : JSONStore :=
  let s1 := (SaveManifest demo_store "docs" "a" (demo_manifest Byte.x61)).1 in
  let s2 := (SaveManifest s1 "docs" "b" (demo_manifest Byte.x62)).1 in
  let s3 := (DeleteManifest s2 "docs" "a").1 in
  (MoveManifest s3 "docs" "b" "a" (demo_manifest Byte.x62)).1.

Lemma consistency_exact_witness :
  exists snap records, load demo_renamed_store = Ok snap /\
    @consistencyRecords _ (JSON_MetadataConsistencyStore id demo_marshal) demo_renamed_store ["docs"] = Ok records /\
    records = [mkConsistencyRecord "docs" "a" 3 metadataLiveAndTombstoned] /\
    (mkConsistencyRecord "docs" "a" 3 metadataLiveAndTombstoned ∈ records <->
      "docs" ∈ ["docs"] /\ inconsistent (files (view (snap_local snap) "docs")) (revs (view (snap_local snap) "docs"))
        (tombs (view (snap_local snap) "docs")) (cursor (view (snap_local snap) "docs")) "a" 3 metadataLiveAndTombstoned).
Proof.
  destruct (load demo_renamed_store) as [snap|e] eqn:E; [|vm_compute in E; discriminate].
  exists snap. exists [mkConsistencyRecord "docs" "a" 3 metadataLiveAndTombstoned].
  assert (@consistencyRecords _ (JSON_MetadataConsistencyStore id demo_marshal) demo_renamed_store ["docs"]
    = Ok [mkConsistencyRecord "docs" "a" 3 metadataLiveAndTombstoned]) as Hr by (vm_compute; reflexivity).
  split; [reflexivity|]. split; [exact Hr|]. split; [reflexivity|].
  exact (proj1 (consistency_exact id demo_marshal _ _ _ _ E Hr ltac:(vm_compute; discriminate)) _).
Defined.

(** *** Manifests: records in key order, resumed by identity *)

Definition record_key_lt : manifestRecord -> manifestRecord -> bool :=
  by_key mr_folderID str_lt (last_key mr_path str_lt).

#[export] Instance record_key_weak : StrictWeak record_key_lt.
Proof. unfold record_key_lt. apply _. Qed.

(** The records a cursor has not passed yet. *)
Definition after_cursor (cursor : Cursor) (r : manifestRecord) : bool :=
  if decide (Cursor_FolderID cursor = mr_folderID r) then str_lt (Cursor_Path cursor) (mr_path r)
  else str_lt (Cursor_FolderID cursor) (mr_folderID r).

Definition key_sorted : list manifestRecord -> Prop := StronglySorted (fun x y => record_key_lt x y = true).

Lemma strictly_sorted (l : list string) :
  NoDup l -> StronglySorted (fun x y => str_lt x y = true) (sort_by str_lt l).
Proof.
  intros Hnd. apply sorted_strictly; [apply _|by rewrite sort_by_perm|apply sort_by_sorted, _].
Qed.

Lemma StronglySorted_omap {A B} (R : A -> A -> Prop) (R' : B -> B -> Prop) (f : A -> option B) l :
  (forall x y fx fy, R x y -> f x = Some fx -> f y = Some fy -> R' fx fy) ->
  StronglySorted R l -> StronglySorted R' (omap f l).
Proof.
  intros HR. induction 1 as [|x l Hl IH Hx]; cbn; [constructor|].
  destruct (f x) as [fx|] eqn:E; [|done]. constructor; [done|].
  apply Forall_forall. intros fy (y & Hy & Hfy)%list_elem_of_omap. rewrite Forall_forall in Hx. eauto.
Qed.

Lemma StronglySorted_app {A} (R : A -> A -> Prop) l1 l2 :
  StronglySorted R l1 -> StronglySorted R l2 -> (forall x y, x ∈ l1 -> y ∈ l2 -> R x y) ->
  StronglySorted R (l1 ++ l2).
Proof.
  induction 1 as [|x l1 Hl1 IH Hx]; intros H2 HR; [done|]. cbn. constructor.
  - apply IH; [done|]. intros y z Hy. apply HR. by right.
  - apply Forall_app. split; [done|]. apply Forall_forall. intros y Hy. apply HR; [by left|done].
Qed.

Section manifest_passes.
Context {S : Type} `{!ManifestStore S}.

Lemma scanManifests_sorted s f l :
  scanManifests s f = Ok l -> key_sorted l /\ Forall (fun r => mr_folderID r = f) l.
Proof.
  unfold scanManifests. destruct (ms_ListManifests s f) as [ms|]; cbn [mbind result_bind]; [|done].
  destruct (revisions_of s f) as [rs|]; cbn [mbind result_bind]; [|done]. intros [= <-]. split.
  - eapply StronglySorted_omap; [|apply strictly_sorted, NoDup_fst_map_to_list].
    intros x y fx fy Hxy (m & _ & ->)%fmap_Some (m' & _ & ->)%fmap_Some. unfold record_key_lt, by_key.
    rewrite decide_True by done. exact Hxy.
  - apply Forall_forall. intros r (p & _ & Hr)%list_elem_of_omap. by apply fmap_Some in Hr as (m & _ & ->).
Qed.

(** With distinct folder ids the records are listed in key order, no key twice. *)
Lemma manifestRecordsOf_sorted s folderIDs records :
  NoDup folderIDs -> manifestRecordsOf s folderIDs = Ok records -> key_sorted records.
Proof.
  intros Hnd (ls & Hls & ->)%collect_Ok. pose proof (strictly_sorted folderIDs Hnd) as Hs.
  revert Hs. induction Hls as [|f l fs ls Hf Hls IH]; intros Hs; cbn [mjoin list_join]; [constructor|].
  apply StronglySorted_inv in Hs as [Hs Hlt]. apply scanManifests_sorted in Hf as [Hsort Hall].
  apply StronglySorted_app; [done|by apply IH|]. intros x y Hx Hy.
  rewrite Forall_forall in Hall. apply Hall in Hx.
  apply list_elem_of_join in Hy as (l' & Hy & Hl'). apply list_elem_of_lookup in Hl' as [i Hi].
  destruct (Forall2_lookup_r _ _ _ _ _ Hls Hi) as (g & Hg & Hgl). apply scanManifests_sorted in Hgl as [_ Hgall].
  rewrite Forall_forall in Hgall. apply Hgall in Hy. rewrite Forall_forall in Hlt.
  assert (str_lt f g = true) as Hfg by (apply Hlt; by eapply list_elem_of_lookup_2).
  unfold record_key_lt, by_key. rewrite Hx, Hy. rewrite decide_False; [done|].
  intros ->. by rewrite (sw_irrefl (lt := str_lt)) in Hfg.
Qed.

Lemma key_sorted_lookup records i j r r' :
  key_sorted records -> records !! i = Some r -> records !! j = Some r' ->
  record_key_lt r r' = bool_decide (i < j)%nat.
Proof.
  intros Hs Hi Hj. assert (forall i j r r', (i < j)%nat -> records !! i = Some r -> records !! j = Some r' ->
    record_key_lt r r' = true) as Hlt.
  { clear -Hs. induction Hs as [|x l Hl IH Hx]; intros i j r r' Hij Hi Hj; [done|].
    destruct j as [|j]; [lia|]. destruct i as [|i]; cbn in Hi, Hj.
    - injection Hi as ->. rewrite Forall_forall in Hx. apply Hx. by eapply list_elem_of_lookup_2.
    - eapply (IH i j); [lia|done..]. }
  case_bool_decide as Hd; [by eapply Hlt|]. destruct (decide (i = j)) as [->|Hne].
  - assert (r = r') as -> by congruence. unfold record_key_lt, by_key, last_key.
    rewrite decide_True by done. apply sw_irrefl.
  - assert (record_key_lt r' r = true) as H by (apply (Hlt j i); [lia|done..]). exact (sw_asym record_key_lt _ _ H).
Qed.

Lemma after_cursor_key cursor r r' :
  at_record cursor r -> after_cursor cursor r' = record_key_lt r r'.
Proof.
  intros (Hf & Hp & _). unfold after_cursor, record_key_lt, by_key, last_key. by rewrite Hf, Hp.
Qed.

Lemma filter_after records i r cursor :
  key_sorted records -> records !! i = Some r -> at_record cursor r ->
  List.filter (after_cursor cursor) records = drop (1 + i) records.
Proof.
  intros Hs Hi Hat. rewrite <- (take_drop (1 + i) records) at 1. rewrite List.filter_app.
  rewrite (proj2 (List.filter_ext_in_iff (after_cursor cursor) (fun _ => false) (take (1 + i) records))).
  - rewrite (proj2 (List.filter_ext_in_iff (after_cursor cursor) (fun _ => true) (drop (1 + i) records))).
    + generalize (take (1 + i) records) as a, (drop (1 + i) records) as b. clear. intros a b.
      induction a as [|x a IH]; [|exact IH]. induction b as [|y b IHb]; cbn in *; congruence.
    + intros y Hy. apply list_elem_of_In, list_elem_of_lookup in Hy as [k Hk]. rewrite lookup_drop in Hk.
      rewrite (after_cursor_key _ r), (key_sorted_lookup records i (1 + i + k)) by done.
      apply bool_decide_eq_true. lia.
  - intros y Hy. apply list_elem_of_In, list_elem_of_lookup in Hy as [k Hk].
    apply lookup_take_Some in Hk as [Hk Hlt].
    rewrite (after_cursor_key _ r), (key_sorted_lookup records i k) by done.
    apply bool_decide_eq_false. lia.
Qed.

Lemma resumeIndex_at records cursor i r :
  key_sorted records -> records !! i = Some r -> at_record cursor r ->
  (Cursor_FolderID cursor = EmptyString \/ Cursor_Path cursor = EmptyString ->
    int_of_position cursor = Z.of_nat i + 1) ->
  resumeIndex records cursor = Z.of_nat i + 1.
Proof.
  intros Hs Hi Hat Hpos. unfold resumeIndex.
  destruct (bool_decide_reflect (Cursor_FolderID cursor = EmptyString)) as [|Hf]; [by apply Hpos; left|].
  destruct (bool_decide_reflect (Cursor_Path cursor = EmptyString)) as [|Hp]; [by apply Hpos; right|].
  cbn [orb]. assert (list_find (at_record cursor) records = Some (i, r)) as ->; [|done].
  apply list_find_Some. split_and!; [done..|]. intros j y Hj Hlt Haty.
  pose proof (key_sorted_lookup records j i y r Hs Hj Hi) as H.
  rewrite bool_decide_eq_true_2 in H by done. destruct Hat as (H1 & H2 & _), Haty as (H3 & H4 & _).
  unfold record_key_lt, by_key, last_key in H. rewrite H1, H2, H3, H4, decide_True in H by done. by rewrite (sw_irrefl (lt := str_lt)) in H.
Qed.

Definition manifest_visit (n : nat) (idx : Z) (r : manifestRecord) : StepResult :=
  mkStepResult (mkCursor (u64 (idx + 1)) (mr_folderID r) (mr_path r) (mr_revision r))
    1 (Manifest_Size (mr_manifest r)) 0 0 0 (Z.of_nat n <=? idx + 1).

(** A manifest pass survives changes of the store between its steps: as
    long as the record at the saved cursor is still there unchanged, the pass
    goes on to visit precisely the records behind it in (folder, path) order, each
    once - whatever was added, removed or rewritten elsewhere - and when nothing
    is behind it the pass is complete. *)
Theorem manifest_pass_resumes s folderIDs cursor records :
  NoDup folderIDs -> manifestRecordsOf s folderIDs = Ok records -> Z.of_nat (length records) <= maxInt64 ->
  Exists (at_record cursor) records -> Cursor_FolderID cursor <> EmptyString -> Cursor_Path cursor <> EmptyString ->
  let later := List.filter (after_cursor cursor) records in
  match later with
  | [] => manifest_Step folderIDs s cursor = Ok pass_done
  | _ => exists steps, pass (manifest_Step folderIDs s) (length later) cursor = Some steps /\
      named <$> steps = (fun r => (mr_folderID r, mr_path r, mr_revision r)) <$> later /\
      StepResult_BytesScanned <$> steps = (fun r => Manifest_Size (mr_manifest r)) <$> later
  end.
Proof.
  intros Hnd Hrec Hlen (r & Hr & Hat)%Exists_exists Hf Hp.
  apply list_elem_of_lookup in Hr as [i Hi]. pose proof (manifestRecordsOf_sorted _ _ _ Hnd Hrec) as Hs.
  pose proof (lookup_lt_Some _ _ _ Hi) as Hlt.
  cbv zeta. rewrite (filter_after records i r) by done.
  assert (forall c, manifest_Step folderIDs s c = stepAt (resumeIndex records c) records (Ok pass_done)
    (Err CrawlPanic) (fun x => Ok (manifest_visit (length records) (resumeIndex records c) x))) as Hstep.
  { intros c. unfold manifest_Step. by rewrite Hrec. }
  assert (resumeIndex records cursor = Z.of_nat (1 + i)) as Hidx.
  { rewrite (resumeIndex_at records cursor i r) by (try done; by intros [?|?]). lia. }
  destruct (drop (1 + i) records) as [|x later] eqn:Hd.
  - assert (length records <= 1 + i)%nat as Hend.
    { apply (f_equal length) in Hd. rewrite length_drop in Hd. cbn in Hd. lia. }
    rewrite (step_at_end _ (resumeIndex records) records _ Hstep); [done|]. rewrite Hidx. lia.
  - assert (1 + i < length records)%nat as Hin.
    { apply (f_equal length) in Hd. rewrite length_drop in Hd. cbn in Hd. lia. }
    rewrite <- Hd. eexists. rewrite length_drop. split.
    + apply (pass_from _ (resumeIndex records) records (manifest_visit (length records)) Hstep); [|done|done].
      intros k y Hk. split; [|done]. apply lookup_lt_Some in Hk as Hkl.
      apply (resumeIndex_at records _ k y Hs Hk); [done|]. intros _.
      apply int_of_position_u64. lia.
    + rewrite !fmap_imap. split.
      * exact (imap_const (fun r => (mr_folderID r, mr_path r, mr_revision r)) _).
      * exact (imap_const (fun r => Manifest_Size (mr_manifest r)) _).
Qed.
End manifest_passes.

(** Between two steps of a pass, [docs/a] was added and [docs/c] removed: the pass
    goes on behind [docs/b]. *)
Definition demo_crawl_store : JSONStore :=
  let s1 := (SaveManifest demo_store "docs" "b" (demo_manifest Byte.x61)).1 in
  let s2 := (SaveManifest s1 "docs" "c" (demo_manifest Byte.x62)).1 in
  let s3 := (SaveManifest s2 "docs" "d" (demo_manifest Byte.x63)).1 in
  let s4 := (SaveManifest s3 "docs" "a" (demo_manifest Byte.x64)).1 in
  (DeleteManifest s4 "docs" "c").1.

Lemma manifest_pass_resumes_witness :
  exists steps, pass (manifest_Step ["docs"] demo_crawl_store) 1 (mkCursor 1 "docs" "b" 1) = Some steps /\
    named <$> steps = [("docs"%string, "d"%string, 3)].
Proof.
  destruct (manifestRecordsOf demo_crawl_store ["docs"]) as [records|e] eqn:E; [|vm_compute in E; discriminate].
  pose proof (manifest_pass_resumes demo_crawl_store ["docs"] (mkCursor 1 "docs" "b" 1) records) as H.
  vm_compute in E. injection E as <-.
  destruct H as (steps & H1 & H2 & _).
  - apply NoDup_singleton.
  - vm_compute. reflexivity.
  - vm_compute. discriminate.
  - apply Exists_cons_tl, Exists_cons_hd. split; [reflexivity|split; reflexivity].
  - discriminate.
  - discriminate.
  - exists steps. split; [exact H1|exact H2].
Defined.

(** When the record at the cursor is gone the crawler falls back to the numeric
    position, which skips a record: after [a], which is then deleted, the pass
    over [b] and [c] goes on with [c]. *)
Definition demo_shrunk_store : JSONStore :=
  let s1 := (SaveManifest demo_store "docs" "a" (demo_manifest Byte.x61)).1 in
  let s2 := (SaveManifest s1 "docs" "b" (demo_manifest Byte.x62)).1 in
  let s3 := (SaveManifest s2 "docs" "c" (demo_manifest Byte.x63)).1 in
  (DeleteManifest s3 "docs" "a").1.

Example manifest_pass_skips :
  match manifest_Step ["docs"] demo_shrunk_store (mkCursor 1 "docs" "a" 1) with
  | Ok r => Cursor_Path (StepResult_Cursor r) = "c"%string /\ StepResult_Complete r = true
  | Err _ => False
  end.
Proof. vm_compute. by split. Qed.

(** *** The block index of the JSON store is never stale *)

Lemma manifestContainsBlock_spec m b : b ∈ Manifest_Blocks m -> manifestContainsBlock m b = true.
Proof.
  intros Hb. unfold manifestContainsBlock. apply existsb_exists. exists b. rewrite <- list_elem_of_In.
  split; [done|]. unfold blockBytesMatch. by rewrite !bool_decide_eq_true_2.
Qed.

(** The JSON store derives its references from the manifests, so that the
    crawler, which exists for stores with an index of their own, reports none. *)
Lemma blockIndex_json_clean canceled folderIDs s cursor step :
  Forall (fun f => f <> EmptyString) folderIDs ->
  blockIndex_Step canceled folderIDs s cursor = Ok step -> StepResult_Reported step = 0.
Proof.
  intros Hids. unfold blockIndex_Step. destruct canceled; [done|].
  destruct (blockIndexRecords s folderIDs) as [records|e] eqn:E; [|done]. cbv zeta. unfold stepAt.
  destruct (_ <=? _); [by intros [= <-]|]. destruct (_ <? 0); [done|].
  destruct (records !! _) as [ref|] eqn:Hr; [|done]. cbn [bi_LoadManifest JSON_BlockIndexStore].
  unfold blockIndexRecords in E. destruct (collect _ folderIDs) as [l|] eqn:Ec; [|done]. injection E as <-.
  apply list_elem_of_lookup_2 in Hr. rewrite elem_of_sort_by, (elem_of_collect _ _ _ _ Ec) in Hr.
  destruct Hr as (f & l' & Hf & Hl' & Hr). apply (elem_of_ListBlockRefs _ _ _ _ Hl') in Hr as [_ (m & Hm & _ & Hb)].
  rewrite Hm, (manifestContainsBlock_spec _ _ Hb). by intros [= <-].
Qed.
