(* ===== verification/Scrub.v ===== *)
(** * File scrubbing and repair with quarantine

    Models [internal/maintenance/file_scrub_crawler.go] (comparing the bytes of
    files with their stored manifests and classifying a difference) and
    [repair_quarantine.go] (putting verified bytes in place of damaged ones,
    which are kept).

    The file system maps canonical absolute paths to regular files;
    [unreadable] decides which paths an open, a stat or a read fails on.  The
    optional interfaces of the crawler's store, found there by type assertions,
    are options of one class. *)

From S2P Require Import Prelude GoStd Block StoreData Store Maintenance Jobs Paths ApplyGate Crawlers.
From Stdlib Require Import Ascii.

Local Open Scope Z_scope.

(** ** Data *)

Abbreviation FileScrubIssueKind := string (only parsing).
Definition FileScrubMissingFile : FileScrubIssueKind := "missing-file".
Definition FileScrubUnreadableFile : FileScrubIssueKind := "unreadable-file".
Definition FileScrubHashMismatch : FileScrubIssueKind := "hash-mismatch".
Definition FileScrubMetadataMismatch : FileScrubIssueKind := "metadata-mismatch".
Definition FileScrubUnsafePath : FileScrubIssueKind := "unsafe-path".

Abbreviation FileScrubClassification := string (only parsing).
Definition FileScrubLikelyLocalEdit : FileScrubClassification := "likely-local-edit".
Definition FileScrubSuspectedCorruption : FileScrubClassification := "suspected-corruption".
Definition FileScrubNeedsUserReview : FileScrubClassification := "needs-user-review".

Abbreviation FileScrubVerifyMode := string (only parsing).
Definition FileScrubFullBlocks : FileScrubVerifyMode := "full-blocks".
Definition FileScrubSampledBlocks : FileScrubVerifyMode := "sampled-blocks".
Definition FileScrubLightMetadata : FileScrubVerifyMode := "light-metadata".

(** Why a file could not be read: [os.ErrNotExist] or anything else. *)
Inductive FileErr := NotExist | Unreadable.

Record FileScrubIssue := mkScrubIssue {
  FileScrubIssue_FolderID : string;
  FileScrubIssue_Path : string;
  FileScrubIssue_Kind : FileScrubIssueKind;
  FileScrubIssue_Classification : FileScrubClassification;
  FileScrubIssue_ExpectedSize : Z;
  FileScrubIssue_ActualSize : Z;
  FileScrubIssue_ExpectedMTime : Z;
  FileScrubIssue_ActualMTime : Z;
  FileScrubIssue_Evidence : string;
  FileScrubIssue_Err : option FileErr
}.

Abbreviation FileScrubEvidenceKind := string (only parsing).
Definition FileScrubEvidenceWatcherError : FileScrubEvidenceKind := "watcher-error".
Definition FileScrubEvidenceReadError : FileScrubEvidenceKind := "read-error".
Definition FileScrubEvidenceChecksumError : FileScrubEvidenceKind := "checksum-error".

Record FileScrubEvidence := mkScrubEvidence {
  FileScrubEvidence_Kind : FileScrubEvidenceKind;
  FileScrubEvidence_Message : string
}.

Record FileScrubRetryEvidence := mkRetryEvidence {
  FileScrubRetryEvidence_ConsecutiveMismatches : Z;
  FileScrubRetryEvidence_ExpectedFingerprint : string;
  FileScrubRetryEvidence_ActualFingerprint : string
}.

Record FileScrubConsensusEvidence := mkConsensusEvidence {
  FileScrubConsensusEvidence_TrustedExpectedMatches : Z;
  FileScrubConsensusEvidence_TrustedActualMatches : Z
}.

(** The optional interfaces of the crawler's store. *)
Class FileScrubStore (S : Type) := {
  fss_PendingWrites : option (S -> string -> result StoreErr (list PendingWrite));
  fss_Evidence : option (S -> string -> string -> result StoreErr (list FileScrubEvidence));
  fss_RetryEvidence : option (S -> string -> string -> result StoreErr FileScrubRetryEvidence);
  fss_ConsensusEvidence :
    option (S -> string -> string -> Manifest -> Manifest -> result StoreErr FileScrubConsensusEvidence);
  fss_SaveManifest : option (S -> string -> string -> Manifest -> S * result StoreErr unit)
}.

Record FileScrubCrawler (S : Type) := mkScrubCrawler {
  FileScrubCrawler_Store : S;
  FileScrubCrawler_FolderIDs : list string;
  FileScrubCrawler_Roots : gmap string string;
  FileScrubCrawler_VerifyMode : FileScrubVerifyMode;
  FileScrubCrawler_SampleEveryNBlocks : Z
}.
Arguments mkScrubCrawler {S} _ _ _ _ _.
Arguments FileScrubCrawler_Store {S} _.
Arguments FileScrubCrawler_FolderIDs {S} _.
Arguments FileScrubCrawler_Roots {S} _.
Arguments FileScrubCrawler_VerifyMode {S} _.
Arguments FileScrubCrawler_SampleEveryNBlocks {S} _.

(** ** Paths *)

(** The canonical form of an absolute path. *)
Definition abs_string (l : list string) : string := "/" +:+ join "/" l.

Definition containedPath (cwd root rel : string) : option (list string) :=
  if bool_decide (root = EmptyString) || bool_decide (rel = EmptyString) || has_prefix rel "/" then None
  else
    let cleanRel := path_clean rel in
    if bool_decide (cleanRel = ".") || bool_decide (cleanRel = "..") || bool_decide (cleanRel = "/") then None
    else if hasParentSegment cleanRel then None
    else
      let rootClean := abs_elems cwd root in
      let full := abs_elems cwd (path_join root cleanRel) in
      let relToRoot := match rel_elems rootClean full with [] => "." | l => join "/" l end in
      if bool_decide (relToRoot = "..") || has_prefix relToRoot "/" || hasParentSegment relToRoot then None
      else Some full.

(** ** Classification *)

Definition isVerifiableManifest (manifest : Manifest) : bool :=
  if Manifest_BlockSize manifest <=? 0 then false
  else if bool_decide (Manifest_HashState manifest <> EmptyString) &&
          bool_decide (Manifest_HashState manifest <> "complete") then false
  else (Manifest_Size manifest =? 0) || (0 <? Z.of_nat (length (Manifest_Blocks manifest))).

Definition classifyCheapMetadata (expected : Manifest) (actualSize actualMTime : Z) : FileScrubClassification :=
  if bool_decide (Manifest_Size expected <> actualSize) then FileScrubLikelyLocalEdit
  else if (Manifest_ModTimeUnixNano expected =? 0) || (actualMTime =? 0) then FileScrubNeedsUserReview
  else if bool_decide (Manifest_ModTimeUnixNano expected <> actualMTime) then FileScrubLikelyLocalEdit
  else FileScrubSuspectedCorruption.

(** [func classifyMismatch], the function without a receiver. *)
Definition classifyMismatch (expected actual : Manifest) : FileScrubClassification :=
  classifyCheapMetadata expected (Manifest_Size actual) (Manifest_ModTimeUnixNano actual).

Section scrub.
Context (sha256 : bytes -> bytes) {S : Type} `{!ManifestStore S} `{!FileScrubStore S}.

Definition hasUncommittedPendingWrite (s : S) (folderID path : string) : bool :=
  match fss_PendingWrites with
  | None => false
  | Some pendingWrites =>
      match pendingWrites s folderID with
      | Err _ => false
      | Ok writes => existsb (fun w => bool_decide (PendingWrite_Path w = path) && negb (PendingWrite_Committed w)) writes
      end
  end.

(** The first item of a known kind decides. *)
Fixpoint readEvidence (evidence : list FileScrubEvidence) : option string :=
  match evidence with
  | [] => None
  | item :: rest =>
      if bool_decide (FileScrubEvidence_Kind item = FileScrubEvidenceReadError) ||
         bool_decide (FileScrubEvidence_Kind item = FileScrubEvidenceChecksumError)
      then Some "read-error-history"%string
      else if bool_decide (FileScrubEvidence_Kind item = FileScrubEvidenceWatcherError)
      then Some "watcher-error-history"%string
      else readEvidence rest
  end.

Definition hasRecentReadEvidence (s : S) (folderID path : string) : result StoreErr (option string) :=
  match fss_Evidence with
  | None => Ok None
  | Some evidenceOf => readEvidence <$> evidenceOf s folderID path
  end.

Definition classifyWithTrustedConsensus (s : S) (record : manifestRecord) (actual : Manifest)
    : result StoreErr (option (FileScrubClassification * string)) :=
  match fss_ConsensusEvidence with
  | None => Ok None
  | Some consensus =>
      evidence ← consensus s (mr_folderID record) (mr_path record) (mr_manifest record) actual;
      let expectedMatches := FileScrubConsensusEvidence_TrustedExpectedMatches evidence in
      let actualMatches := FileScrubConsensusEvidence_TrustedActualMatches evidence in
      Ok (if (0 <? expectedMatches) && (actualMatches =? 0)
          then Some (FileScrubSuspectedCorruption, "trusted-peer-consensus"%string)
          else if (0 <? actualMatches) && (expectedMatches =? 0)
          then Some (FileScrubNeedsUserReview, "trusted-peer-actual-consensus"%string)
          else None)
  end.

Definition awaiting : FileScrubClassification * string :=
  (FileScrubNeedsUserReview, "awaiting-repeated-verification"%string).

Definition classifyWithRepeatedVerification (s : S) (record : manifestRecord) (actual : Manifest)
    : result StoreErr (FileScrubClassification * string) :=
  match fss_RetryEvidence with
  | None => Ok (FileScrubSuspectedCorruption, EmptyString)
  | Some retries =>
      evidence ← retries s (mr_folderID record) (mr_path record);
      let expectedFingerprint := manifestFingerprint sha256 (mr_manifest record) in
      let actualFingerprint := manifestFingerprint sha256 actual in
      Ok (if bool_decide (FileScrubRetryEvidence_ExpectedFingerprint evidence <> EmptyString) &&
             bool_decide (FileScrubRetryEvidence_ExpectedFingerprint evidence <> expectedFingerprint) then awaiting
          else if bool_decide (FileScrubRetryEvidence_ActualFingerprint evidence <> EmptyString) &&
                  bool_decide (FileScrubRetryEvidence_ActualFingerprint evidence <> actualFingerprint) then awaiting
          else if FileScrubRetryEvidence_ConsecutiveMismatches evidence <? 2 then awaiting
          else (FileScrubSuspectedCorruption, "repeated-verification"%string))
  end.

(** [func (c FileScrubCrawler) classifyMismatch] *)
Definition crawler_classifyMismatch (s : S) (record : manifestRecord) (actual : Manifest)
    : result StoreErr (FileScrubClassification * string) :=
  if hasUncommittedPendingWrite s (mr_folderID record) (mr_path record)
  then Ok (FileScrubNeedsUserReview, "pending-write"%string)
  else
    readError ← hasRecentReadEvidence s (mr_folderID record) (mr_path record);
    match readError with
    | Some evidence => Ok (FileScrubNeedsUserReview, evidence)
    | None =>
        let classification := classifyMismatch (mr_manifest record) actual in
        if bool_decide (classification <> FileScrubSuspectedCorruption) then Ok (classification, EmptyString)
        else
          consensus ← classifyWithTrustedConsensus s record actual;
          match consensus with
          | Some verdict => Ok verdict
          | None => classifyWithRepeatedVerification s record actual
          end
    end.

Definition with_Damaged (m : Manifest) : Manifest :=
  mkManifest (Manifest_Path m) (Manifest_Size m) (Manifest_BlockSize m) (Manifest_Blocks m)
    (Manifest_HashState m) true (Manifest_ModTimeUnixNano m) (Manifest_ChangeTimeUnixNano m)
    (Manifest_SeedBaselineModTimeUnixNano m) (Manifest_SeedBaselineChangeTimeUnixNano m).

Definition markDamaged (s : S) (record : manifestRecord) : S * result StoreErr unit :=
  if Manifest_Damaged (mr_manifest record) then (s, Ok tt)
  else match fss_SaveManifest with
  | None => (s, Ok tt)
  | Some saveManifest => saveManifest s (mr_folderID record) (mr_path record) (with_Damaged (mr_manifest record))
  end.

(** *** Verification *)

Context (cwd : string) (unreadable : string -> bool) (fs : gmap string File).

(** [os.Open] or [os.Stat] of a canonical path. *)
Definition stat (path : string) : result FileErr File :=
  if unreadable path then Err Unreadable
  else match fs !! path with Some f => Ok f | None => Err NotExist end.

Definition err_issue (record : manifestRecord) (e : FileErr) : FileScrubIssue :=
  mkScrubIssue (mr_folderID record) (mr_path record)
    (match e with NotExist => FileScrubMissingFile | Unreadable => FileScrubUnreadableFile end)
    EmptyString 0 0 0 0 EmptyString (Some e).

Definition unsafe_issue (record : manifestRecord) : FileScrubIssue :=
  mkScrubIssue (mr_folderID record) (mr_path record) FileScrubUnsafePath EmptyString 0 0 0 0 EmptyString None.

Definition mismatch_issue (record : manifestRecord) (kind : FileScrubIssueKind)
    (classification : FileScrubClassification) (actualSize actualMTime : Z) (evidence : string) : FileScrubIssue :=
  mkScrubIssue (mr_folderID record) (mr_path record) kind classification
    (Manifest_Size (mr_manifest record)) actualSize
    (Manifest_ModTimeUnixNano (mr_manifest record)) actualMTime evidence None.

Definition verifyLightMetadata (record : manifestRecord) (path : string) : option FileScrubIssue :=
  match stat path with
  | Err e => Some (err_issue record e)
  | Ok f =>
      let expected := mr_manifest record in
      if (file_size f =? Manifest_Size expected) &&
         ((Manifest_ModTimeUnixNano expected =? 0) || (Manifest_ModTimeUnixNano expected =? File_mtime f))
      then None
      else Some (mismatch_issue record FileScrubMetadataMismatch
             (classifyCheapMetadata expected (file_size f) (File_mtime f)) (file_size f) (File_mtime f) "light-metadata")
  end.

Definition sampleEvery (every : Z) : Z := if every <=? 0 then 10 else every.

(** The loop over the blocks in index order, from position [i] of [n].  A
    negative size panics in [make]; a short or negative read is an error. *)
Fixpoint sampleBlocks (data : bytes) (n every i : Z) (blocks : list Block) : result CrawlErr (result FileErr bool) :=
  match blocks with
  | [] => Ok (Ok false)
  | expected :: rest =>
      if negb (i =? 0) && negb (i =? n - 1) && negb (Z.rem i every =? 0)
      then sampleBlocks data n every (i + 1) rest
      else if Block_Size expected <? 0 then Err CrawlPanic
      else if Block_Offset expected <? 0 then Ok (Err Unreadable)
      else
        let buf := slice data (Block_Offset expected) (Block_Size expected) in
        if Z.of_nat (length buf) <? Block_Size expected then Ok (Err Unreadable)
        else if bool_decide (sha256 buf <> Block_Hash expected) then Ok (Ok true)
        else sampleBlocks data n every (i + 1) rest
  end.

Definition sampledBlocksMismatch (path : string) (manifest : Manifest) (every : Z)
    : result CrawlErr (result FileErr bool) :=
  match stat path with
  | Err e => Ok (Err e)
  | Ok f =>
      let blocks := sort_by block_index_lt (Manifest_Blocks manifest) in
      sampleBlocks (File_data f) (Z.of_nat (length blocks)) every 0 blocks
  end.

Definition lift_crawl {A} (r : result StoreErr A) : result CrawlErr A := lift_store r.

(** [block.Manifest{Size: info.Size(), ModTimeUnixNano: actualMTime}] *)
Definition bare_manifest (size mtime : Z) : Manifest :=
  mkManifest EmptyString size 0 [] EmptyString false mtime 0 0 0.

Definition verifySampledBlocks (s : S) (every : Z) (record : manifestRecord) (path : string)
    : result CrawlErr (option FileScrubIssue) :=
  match stat path with
  | Err e => Ok (Some (err_issue record e))
  | Ok f =>
      if bool_decide (file_size f <> Manifest_Size (mr_manifest record)) then
        Ok (Some (mismatch_issue record FileScrubMetadataMismatch FileScrubLikelyLocalEdit
                    (file_size f) (File_mtime f) "sampled-block-verification"))
      else
        mismatched ← sampledBlocksMismatch path (mr_manifest record) (sampleEvery every);
        match mismatched with
        | Err e => Ok (Some (mkScrubIssue (mr_folderID record) (mr_path record) FileScrubUnreadableFile
                               EmptyString 0 0 0 0 EmptyString (Some e)))
        | Ok false => Ok None
        | Ok true =>
            verdict ← lift_crawl (crawler_classifyMismatch s record (bare_manifest (file_size f) (File_mtime f)));
            Ok (Some (mismatch_issue record FileScrubHashMismatch verdict.1
                        (file_size f) (File_mtime f) "sampled-block-verification"))
        end
  end.

(** [block.BuildManifest(path, blockSize)] on a file that may be unreadable. *)
Definition readManifest (path : string) (blockSize : Z) : result FileErr Manifest :=
  if unreadable path then Err Unreadable
  else match BuildManifest sha256 fs path blockSize with
  | Ok m => Ok m
  | Err (ErrOpen _) => Err NotExist
  | Err ErrBlockSize => Err Unreadable
  end.

Definition verifyFullBlocks (s : S) (record : manifestRecord) (path : string)
    : S * result CrawlErr (option FileScrubIssue) :=
  match readManifest path (Manifest_BlockSize (mr_manifest record)) with
  | Err e => (s, Ok (Some (err_issue record e)))
  | Ok actual =>
      if manifestBytesMatch (mr_manifest record) actual then (s, Ok None)
      else match lift_crawl (crawler_classifyMismatch s record actual) with
      | Err e => (s, Err e)
      | Ok (classification, evidence) =>
          let issue := mismatch_issue record FileScrubHashMismatch classification
                         (Manifest_Size actual) (Manifest_ModTimeUnixNano actual) evidence in
          if bool_decide (classification = FileScrubSuspectedCorruption) then
            match markDamaged s record with
            | (s', Ok _) => (s', Ok (Some issue))
            | (s', Err e) => (s', Err (CrawlStore e))
            end
          else (s, Ok (Some issue))
      end
  end.

Definition verifyMode (mode : FileScrubVerifyMode) : FileScrubVerifyMode :=
  if bool_decide (mode = EmptyString) then FileScrubFullBlocks else mode.

Definition verify (c : FileScrubCrawler S) (record : manifestRecord)
    : S * result CrawlErr (option FileScrubIssue) :=
  let s := FileScrubCrawler_Store c in
  match containedPath cwd (default EmptyString (FileScrubCrawler_Roots c !! mr_folderID record)) (mr_path record) with
  | None => (s, Ok (Some (unsafe_issue record)))
  | Some full =>
      let path := abs_string full in
      let mode := verifyMode (FileScrubCrawler_VerifyMode c) in
      if bool_decide (mode = FileScrubLightMetadata) then (s, Ok (verifyLightMetadata record path))
      else if negb (isVerifiableManifest (mr_manifest record)) then (s, Ok None)
      else if bool_decide (mode = FileScrubSampledBlocks)
      then (s, verifySampledBlocks s (FileScrubCrawler_SampleEveryNBlocks c) record path)
      else verifyFullBlocks s record path
  end.

(** The step, with the issue it hands to [Report]. *)
Definition scrub_Step (canceled : bool) (c : FileScrubCrawler S) (cursor : Cursor)
    : S * result CrawlErr (StepResult * option FileScrubIssue) :=
  let s := FileScrubCrawler_Store c in
  if canceled then (s, Err CrawlCanceled)
  else match manifestRecordsOf s (FileScrubCrawler_FolderIDs c) with
  | Err e => (s, Err (CrawlStore e))
  | Ok records =>
      let idx := int_of_position cursor in
      stepAt idx records (s, Ok (pass_done, None)) (s, Err CrawlPanic) (fun record =>
        match verify c record with
        | (s', Err e) => (s', Err e)
        | (s', Ok issue) =>
            (s', Ok (mkStepResult (mkCursor (u64 (idx + 1)) (mr_folderID record) (mr_path record) (mr_revision record))
                       1 (Manifest_Size (mr_manifest record)) 0 (match issue with Some _ => 1 | None => 0 end) 0
                       (Z.of_nat (length records) <=? idx + 1), issue))
        end)
  end.
End scrub.

#[export] Instance JSON_FileScrubStore : FileScrubStore JSONStore := {|
  fss_PendingWrites := Some ListPendingWrites;
  fss_Evidence := None;
  fss_RetryEvidence := None;
  fss_ConsensusEvidence := None;
  fss_SaveManifest := Some SaveManifest
|}.

(** ** Repair with quarantine *)

Record RepairReplacementPlan := mkRepairPlan {
  RepairReplacementPlan_Root : string;
  RepairReplacementPlan_RelativePath : string;
  RepairReplacementPlan_ReplacementPath : string;
  RepairReplacementPlan_DesiredManifest : Manifest;
  RepairReplacementPlan_Stamp : string   (* the formatted clock *)
}.

Record QuarantineRecord := mkQuarantineRecord {
  QuarantineRecord_OriginalPath : string;
  QuarantineRecord_QuarantinePath : string;
  QuarantineRecord_ReplacementPath : string
}.

Inductive repairCall :=
| RepairStatTarget | RepairMkdirTarget | RepairStatQuarantine (i : nat) | RepairMkdirQuarantine
| RepairRenameAway | RepairRenameIn | RepairRenameBack.

Inductive RepairErr :=
| ErrUnsafeTarget (rel : string)
| ErrReplacementRequired
| ErrReplacementOutside (path : string)
| ErrNotVerifiable
| ErrReadReplacement (e : FileErr)
| ErrReplacementMismatch
| ErrUnsafeQuarantine (rel : string)
| ErrRepairIO (c : repairCall).

Definition pathUnderRoot (cwd root path : string) : bool :=
  let rel := match rel_elems (abs_elems cwd root) (abs_elems cwd path) with [] => "." | l => join "/" l end in
  negb (bool_decide (rel = "..") || has_prefix rel "/" || hasParentSegment rel).

(** [base + suffix] on the elements of a path: the last name grows. *)
Definition on_last (suffix : string) (l : list string) : list string :=
  match rev l with
  | [] => []
  | e :: before => rev before ++ [e +:+ suffix]
  end.

Definition candidate_suffix (stamp : string) (i : nat) : string :=
  "." +:+ stamp +:+ ".damaged" +:+ (match i with O => EmptyString | _ => "." +:+ itoa (Z.of_nat i) end).

Section repair.
Context (sha256 : bytes -> bytes) (cwd : string) (unreadable : string -> bool) (faults : repairCall -> bool).

Definition verifyReplacementManifest (fs : gmap string File) (path : string) (desired : Manifest)
    : result RepairErr unit :=
  if negb (isVerifiableManifest desired) then Err ErrNotVerifiable
  else match readManifest sha256 unreadable fs (abs_string (abs_elems cwd path)) (Manifest_BlockSize desired) with
  | Err e => Err (ErrReadReplacement e)
  | Ok actual => if manifestBytesMatch desired actual then Ok tt else Err ErrReplacementMismatch
  end.

(** The loop over candidates: the first that does not exist. *)
Fixpoint freeCandidate (fs : gmap string File) (base : list string) (stamp : string) (i fuel : nat)
    : option (result RepairErr (list string)) :=
  match fuel with
  | O => None
  | S fuel' =>
      let candidate := on_last (candidate_suffix stamp i) base in
      if faults (RepairStatQuarantine i) then Some (Err (ErrRepairIO (RepairStatQuarantine i)))
      else match fs !! abs_string candidate with
      | None => Some (Ok candidate)
      | Some _ => freeCandidate fs base stamp (S i) fuel'
      end
  end.

Definition allocateQuarantinePath (fs : gmap string File) (root rel stamp : string) (fuel : nat)
    : option (result RepairErr (list string * string)) :=
  let cleanRel := path_clean rel in
  if has_prefix cleanRel "../" || bool_decide (cleanRel = "..") || has_prefix cleanRel "/"
  then Some (Err (ErrUnsafeQuarantine rel))
  else
    let base := abs_elems cwd (path_join root (".sync/quarantine/" +:+ cleanRel)) in
    match freeCandidate fs base stamp 0 fuel with
    | None => None
    | Some (Err e) => Some (Err e)
    | Some (Ok candidate) =>
        Some (Ok (candidate, join "/" (rel_elems (abs_elems cwd root) candidate)))
    end.

(** [os.Rename] of a regular file. *)
Definition rename (c : repairCall) (fs : gmap string File) (src dst : string) : result RepairErr (gmap string File) :=
  if faults c then Err (ErrRepairIO c)
  else match fs !! src with
  | None => Err (ErrRepairIO c)
  | Some f => Ok (<[dst := f]> (delete src fs))
  end.

Definition call (c : repairCall) : result RepairErr unit := fail_if (faults c) (ErrRepairIO c).

(** The second rename, undone by a rename back when it fails. *)
Definition renameIn (fs : gmap string File) (replacement target : string) (quarantine : option string)
    (record : QuarantineRecord) : gmap string File * result RepairErr QuarantineRecord :=
  match rename RepairRenameIn fs replacement target with
  | Ok fs' => (fs', Ok record)
  | Err e =>
      (match quarantine with
       | None => fs
       | Some path => match rename RepairRenameBack fs path target with Ok fs' => fs' | Err _ => fs end
       end, Err e)
  end.

(** The checks before the first change. *)
Definition repairChecks (fs : gmap string File) (plan : RepairReplacementPlan) : result RepairErr (list string) :=
  let root := RepairReplacementPlan_Root plan in
  match containedPath cwd root (RepairReplacementPlan_RelativePath plan) with
  | None => Err (ErrUnsafeTarget (RepairReplacementPlan_RelativePath plan))
  | Some target =>
      let replacement := RepairReplacementPlan_ReplacementPath plan in
      _ ← fail_if (bool_decide (replacement = EmptyString)) ErrReplacementRequired;
      _ ← fail_if (negb (pathUnderRoot cwd root replacement)) (ErrReplacementOutside replacement);
      _ ← verifyReplacementManifest fs replacement (RepairReplacementPlan_DesiredManifest plan);
      _ ← call RepairMkdirTarget;
      _ ← call RepairStatTarget;
      Ok target
  end.

Definition ApplyVerifiedReplacementWithQuarantine (fs : gmap string File) (plan : RepairReplacementPlan)
    : gmap string File * result RepairErr QuarantineRecord :=
  let root := RepairReplacementPlan_Root plan in
  let rel := RepairReplacementPlan_RelativePath plan in
  let replacement := abs_string (abs_elems cwd (RepairReplacementPlan_ReplacementPath plan)) in
  let record q := mkQuarantineRecord (path_clean rel) q (RepairReplacementPlan_ReplacementPath plan) in
  match repairChecks fs plan with
  | Err e => (fs, Err e)
  | Ok target =>
      match fs !! abs_string target with
      | None => renameIn fs replacement (abs_string target) None (record EmptyString)
      | Some _ =>
          match allocateQuarantinePath fs root rel (RepairReplacementPlan_Stamp plan) (S (size fs)) with
          | None => (fs, Err (ErrUnsafeQuarantine rel))   (* not reached: the fuel suffices *)
          | Some (Err e) => (fs, Err e)
          | Some (Ok (quarantine, quarantineRel)) =>
              match (_ ← call RepairMkdirQuarantine; rename RepairRenameAway fs (abs_string target) (abs_string quarantine)) with
              | Err e => (fs, Err e)
              | Ok fs1 => renameIn fs1 replacement (abs_string target) (Some (abs_string quarantine)) (record quarantineRel)
              end
          end
      end
  end.
End repair.

(** ** Properties *)

(** *** Contained paths *)

Lemma no_parent_prefix p : hasParentSegment p = false -> has_prefix p "../" = false.
Proof.
  intros H. destruct (has_prefix p "../") eqn:E; [|done]. apply has_prefix_inv in E as [t ->].
  unfold hasParentSegment in H. change ("../" +:+ t) with (".." +:+ String slash t) in H.
  rewrite split_on_app in H. done.
Qed.

(** A contained path lies strictly below the root: the root's elements followed
    by at least one real name. *)
Lemma containedPath_below cwd root rel full :
  has_prefix cwd "/" = true -> containedPath cwd root rel = Some full ->
  root <> EmptyString /\ exists l, l <> [] /\ Forall elem_ok l /\ path_clean rel = join "/" l /\ full = abs_elems cwd root ++ l.
Proof.
  intros Hcwd. unfold containedPath.
  destruct (bool_decide_reflect (root = EmptyString)) as [|Hroot]; [done|].
  destruct (bool_decide_reflect (rel = EmptyString)) as [|Hrel]; [done|]. cbn [orb].
  destruct (has_prefix rel "/") eqn:Habs; [done|].
  destruct (bool_decide_reflect (path_clean rel = ".")) as [|H1]; [done|].
  destruct (bool_decide_reflect (path_clean rel = "..")) as [|H2]; [done|]. cbn [orb].
  destruct (bool_decide _); [done|]. destruct (hasParentSegment (path_clean rel)) eqn:Hup; [done|].
  destruct (path_clean_inside rel Habs H1 H2) as (l & Hne & Hl & _ & Hclean).
  { by apply no_parent_prefix. }
  rewrite Hclean, abs_elems_join by (try done; by destruct cwd). cbv zeta.
  destruct (_ || _); [done|]. intros [= <-]. split; [done|]. by exists l.
Qed.

(** *** What marks a manifest as damaged *)

Section scrub_json.
Context (sha256 : bytes -> bytes) (cwd : string) (unreadable : string -> bool) (fs : gmap string File).

(** A file whose bytes changed although nothing says that somebody wrote it:
    it is readable, has the recorded size and the recorded (known) modification
    time, no write of it is pending, and its blocks are not the recorded ones. *)
Definition silently_corrupt (s : JSONStore) (root : string) (record : manifestRecord) : Prop :=
  exists full actual,
    containedPath cwd root (mr_path record) = Some full /\
    readManifest sha256 unreadable fs (abs_string full) (Manifest_BlockSize (mr_manifest record)) = Ok actual /\
    manifestBytesMatch (mr_manifest record) actual = false /\
    Manifest_Size actual = Manifest_Size (mr_manifest record) /\
    Manifest_ModTimeUnixNano actual = Manifest_ModTimeUnixNano (mr_manifest record) /\
    Manifest_ModTimeUnixNano actual <> 0 /\
    hasUncommittedPendingWrite s (mr_folderID record) (mr_path record) = false.

Lemma classifyMismatch_suspected expected actual :
  classifyMismatch expected actual = FileScrubSuspectedCorruption <->
  Manifest_Size actual = Manifest_Size expected /\
  Manifest_ModTimeUnixNano actual = Manifest_ModTimeUnixNano expected /\ Manifest_ModTimeUnixNano actual <> 0.
Proof.
  unfold classifyMismatch, classifyCheapMetadata.
  destruct (bool_decide_reflect (Manifest_Size expected <> Manifest_Size actual)) as [H1|H1]; [split; [done|intros []; congruence]|].
  apply dec_stable in H1.
  destruct (Z.eqb_spec (Manifest_ModTimeUnixNano expected) 0) as [H2|H2], (Z.eqb_spec (Manifest_ModTimeUnixNano actual) 0) as [H3|H3];
    cbn [orb]; try (split; [done|intros (_ & ? & ?); congruence]).
  destruct (bool_decide_reflect (Manifest_ModTimeUnixNano expected <> Manifest_ModTimeUnixNano actual)) as [H4|H4].
  - split; [done|]. intros (_ & ? & _). congruence.
  - apply dec_stable in H4. split; [by intros _|done].
Qed.

Lemma json_verdict s record actual :
  crawler_classifyMismatch sha256 s record actual =
    if hasUncommittedPendingWrite s (mr_folderID record) (mr_path record)
    then Ok (FileScrubNeedsUserReview, "pending-write"%string)
    else Ok (classifyMismatch (mr_manifest record) actual, EmptyString).
Proof.
  unfold crawler_classifyMismatch. destruct (hasUncommittedPendingWrite _ _ _); [done|]. cbn.
  case_bool_decide as H; [done|]. by rewrite H.
Qed.

Definition reports_corruption (issue : option FileScrubIssue) : Prop :=
  exists i, issue = Some i /\ FileScrubIssue_Classification i = FileScrubSuspectedCorruption.

Lemma verifyFull_corrupt s root record full :
  containedPath cwd root (mr_path record) = Some full -> silently_corrupt s root record ->
  exists issue, reports_corruption (Some issue) /\
    verifyFullBlocks sha256 unreadable fs s record (abs_string full) =
      match markDamaged s record with
      | (s', Ok _) => (s', Ok (Some issue))
      | (s', Err e) => (s', Err (CrawlStore e))
      end.
Proof.
  intros Hc (full' & actual & Hc' & Hr & Hm & Hsz & Hmt & Hnz & Hp). assert (full' = full) as -> by congruence.
  unfold verifyFullBlocks. rewrite Hr, Hm, json_verdict, Hp. cbn [lift_crawl lift_store].
  rewrite (proj2 (classifyMismatch_suspected (mr_manifest record) actual)) by done.
  rewrite bool_decide_eq_true_2 by done. eexists. split; [|reflexivity]. by eexists.
Qed.

Lemma verifyFull_clean s root record full s' r :
  containedPath cwd root (mr_path record) = Some full -> ~ silently_corrupt s root record ->
  verifyFullBlocks sha256 unreadable fs s record (abs_string full) = (s', r) ->
  s' = s /\ exists issue, r = Ok issue /\ ~ reports_corruption issue.
Proof.
  intros Hc Hn. unfold verifyFullBlocks.
  destruct (readManifest _ _ _ _ _) as [actual|e] eqn:Hr.
  - destruct (manifestBytesMatch _ _) eqn:Hm; [intros [= <- <-]; split; [done|]; eexists; split; [done|]; by intros (? & ? & _)|].
    rewrite json_verdict. destruct (hasUncommittedPendingWrite _ _ _) eqn:Hp; cbn [lift_crawl lift_store].
    + rewrite bool_decide_eq_false_2 by done. intros [= <- <-]. split; [done|]. eexists. split; [done|].
      by intros (i & [= <-] & ?).
    + case_bool_decide as Hs.
      * exfalso. apply Hn. apply classifyMismatch_suspected in Hs as (? & ? & ?). by exists full, actual.
      * intros [= <- <-]. split; [done|]. eexists. split; [done|]. by intros (i & [= <-] & ?).
  - intros [= <- <-]. split; [done|]. eexists. split; [done|]. by intros (i & [= <-] & ?).
Qed.
End scrub_json.

(** *** Marking reaches the block index *)

Lemma Folders_foldl {X} (step : folderMeta -> X -> folderMeta) l m :
  (forall m x, Folders (step m x) = Folders m) -> Folders (foldl step m l) = Folders m.
Proof. intros H. revert m. induction l as [|x l IH]; intros m; [done|]. cbn. by rewrite IH, H. Qed.

Lemma Folders_normalizeSnapshot m : Folders (normalizeSnapshot m) = Folders m.
Proof.
  unfold normalizeSnapshot. rewrite Folders_foldl, Folders_foldl; [done|..].
  - intros m' [f files]. unfold normalizeFolder. rewrite !Folders_foldl; [done|done|].
    intros m'' file. unfold recordHistory. by destruct (_ =? 0).
  - intros m' [f tombs]. apply Folders_foldl. intros m'' tomb. unfold raiseCursor. by destruct (_ <? _).
Qed.

Lemma LoadManifest_saved s f p m s' :
  SaveManifest s f p m = (s', Ok tt) -> LoadManifest s' f p = Ok (Some m).
Proof.
  unfold SaveManifest, modify, LoadManifest. destruct (load s) as [snap|e] eqn:Hl; cbn [mbind result_bind]; [|done].
  unfold save. unfold load in *. destruct (JSONStore_backend s) as [b|] eqn:Hb; [|done].
  unfold backend_Save. destruct (backend_writeFault b); [done|]. intros [= <-].
  cbn [JSONStore_backend]. unfold backend_Load in *. cbn [backend_readFault backend_file].
  destruct (backend_readFault b); [done|]. cbn [fmap result_fmap]. f_equal.
  unfold normalizeLoadedSnapshot. cbn [snap_local with_local]. rewrite Folders_normalizeSnapshot.
  cbn [saveManifestSnap Folders]. rewrite inner_put2_eq. apply lookup_insert_eq.
Qed.

Lemma SaveManifest_err s f p m s' e : SaveManifest s f p m = (s', Err e) -> s' = s.
Proof.
  unfold SaveManifest, modify. destruct (load s ≫= _) as [snap|e']; [|by intros [= <- _]].
  unfold save. destruct (JSONStore_backend s) as [b|]; [|by intros [= <- _]].
  destruct (backend_Save b snap); [done|]. by intros [= <- _].
Qed.

Lemma silently_corrupt_dec sha256 cwd unreadable fs s root record :
  Decision (silently_corrupt sha256 cwd unreadable fs s root record).
Proof.
  destruct (containedPath cwd root (mr_path record)) as [full|] eqn:Hc;
    [|right; intros (? & ? & ? & _); congruence].
  destruct (readManifest sha256 unreadable fs (abs_string full) (Manifest_BlockSize (mr_manifest record)))
    as [actual|e] eqn:Hr; [|right; intros (? & ? & ? & ? & _); congruence].
  destruct (decide (manifestBytesMatch (mr_manifest record) actual = false /\
    Manifest_Size actual = Manifest_Size (mr_manifest record) /\
    Manifest_ModTimeUnixNano actual = Manifest_ModTimeUnixNano (mr_manifest record) /\
    Manifest_ModTimeUnixNano actual <> 0 /\
    hasUncommittedPendingWrite s (mr_folderID record) (mr_path record) = false)) as [H|H].
  - left. exists full, actual. naive_solver.
  - right. intros (full' & actual' & Hc' & Hr' & H'). assert (full' = full) as -> by congruence.
    assert (actual' = actual) as -> by congruence. done.
Qed.

(** Scrubbing marks exactly the silently corrupt files.  A full-block step
    over a store marks the visited manifest as damaged, and reports suspected
    corruption, if and only if the file is readable, its blocks differ from the
    recorded ones, size and known modification time are the recorded ones and no
    write of it is pending; otherwise it leaves the store alone.  Once marked, no
    block of the file is offered for reuse any more. *)
Theorem scrub_marks_corruption sha256 cwd unreadable fs (c : FileScrubCrawler JSONStore) cursor records i record :
  let s := FileScrubCrawler_Store c in
  let root := default EmptyString (FileScrubCrawler_Roots c !! mr_folderID record) in
  verifyMode (FileScrubCrawler_VerifyMode c) = FileScrubFullBlocks ->
  manifestRecordsOf s (FileScrubCrawler_FolderIDs c) = Ok records ->
  records !! i = Some record -> int_of_position cursor = Z.of_nat i ->
  isVerifiableManifest (mr_manifest record) = true -> Manifest_Damaged (mr_manifest record) = false ->
  match scrub_Step sha256 cwd unreadable fs false c cursor with
  | (s', Ok (step, issue)) =>
      StepResult_Reported step = (match issue with Some _ => 1 | None => 0 end) /\
      (silently_corrupt sha256 cwd unreadable fs s root record ->
         reports_corruption issue /\
         LoadManifest s' (mr_folderID record) (mr_path record) = Ok (Some (with_Damaged (mr_manifest record))) /\
         forall refs ref, ListBlockRefs s' EmptyString = Ok refs -> ref ∈ refs ->
           ~ (BlockRef_FolderID ref = mr_folderID record /\ BlockRef_RelativePath ref = mr_path record)) /\
      (~ silently_corrupt sha256 cwd unreadable fs s root record -> s' = s /\ ~ reports_corruption issue)
  | (s', Err e) => silently_corrupt sha256 cwd unreadable fs s root record /\ s' = s /\
      exists e', e = CrawlStore e' /\ (markDamaged s record).2 = Err e'
  end.
Proof.
  intros s root Hmode Hrec Hi Hidx Hver Hdam. unfold scrub_Step. fold s. rewrite Hrec, Hidx.
  pose proof (lookup_lt_Some _ _ _ Hi) as Hlt. cbv zeta. unfold stepAt.
  rewrite (proj2 (Z.leb_gt _ _)), (proj2 (Z.ltb_ge _ _)), Nat2Z.id, Hi by lia.
  unfold verify. fold s. fold root. destruct (containedPath cwd root (mr_path record)) as [full|] eqn:Hc.
  - rewrite Hmode. rewrite bool_decide_eq_false_2 by done. rewrite Hver. cbn [negb].
    rewrite bool_decide_eq_false_2 by done.
    assert (Decision (silently_corrupt sha256 cwd unreadable fs s root record)) as Hdec by apply silently_corrupt_dec.
    destruct Hdec as [Hs|Hs].
    + destruct (verifyFull_corrupt _ _ _ _ _ _ _ _ Hc Hs) as (issue & Hrep & ->).
      unfold markDamaged. rewrite Hdam. cbn [fss_SaveManifest JSON_FileScrubStore].
      destruct (SaveManifest s _ _ _) as [s' [[]|e]] eqn:Hsave.
      * split_and!; [done| |done]. intros _. pose proof (LoadManifest_saved _ _ _ _ _ Hsave) as Hl.
        split_and!; [done|done|]. intros refs ref Hrefs Href [Hf Hp].
        apply (elem_of_ListBlockRefs _ _ _ _ Hrefs) in Href as [_ (m & Hm & Hd & _)].
        rewrite Hf, Hp, Hl in Hm. injection Hm as <-. done.
      * split; [done|]. split; [|by eexists]. by eapply SaveManifest_err.
    + destruct (verifyFullBlocks _ _ _ _ _ _) as [s' r] eqn:Hv.
      destruct (verifyFull_clean _ _ _ _ _ _ _ _ _ _ Hc Hs Hv) as (-> & issue & -> & Hn).
      split_and!; [done|done|done].
  - split_and!; [done| |].
    + intros (full & _ & Hc' & _). congruence.
    + intros _. split; [done|]. by intros (i' & [= <-] & ?).
Qed.

Definition demo_scrub_manifest : Manifest :=
  mkManifest "a" 1 4 [mkBlock 0 0 1 [Byte.x61]] "complete" false 5 0 0 0.
Definition demo_scrub_store : JSONStore := (SaveManifest demo_store "docs" "a" demo_scrub_manifest).1.
Definition demo_scrub_crawler : FileScrubCrawler JSONStore :=
  mkScrubCrawler demo_scrub_store ["docs"] {["docs" := "/data"]} EmptyString 0.
(** One byte of the file has flipped. *)
Definition demo_scrub_files : gmap string File := {["/data/a" := mkFile [Byte.x60] 5]}.

Lemma scrub_marks_corruption_witness :
  let '(s', r) := scrub_Step id "/" (fun _ => false) demo_scrub_files false demo_scrub_crawler Cursor_zero in
  LoadManifest s' "docs" "a" = Ok (Some (with_Damaged demo_scrub_manifest)).
Proof.
  pose proof (scrub_marks_corruption id "/" (fun _ => false) demo_scrub_files demo_scrub_crawler Cursor_zero
    [mkManifestRecord "docs" "a" 1 demo_scrub_manifest] 0 (mkManifestRecord "docs" "a" 1 demo_scrub_manifest)
    eq_refl ltac:(vm_compute; reflexivity) eq_refl eq_refl eq_refl eq_refl) as H.
  destruct (scrub_Step id "/" _ demo_scrub_files false demo_scrub_crawler Cursor_zero) as [s' [[step issue]|e]] eqn:E;
    [|vm_compute in E; discriminate].
  destruct H as (_ & H & _). apply H. exists ["data"; "a"]. eexists.
  split; [vm_compute; reflexivity|]. split; [vm_compute; reflexivity|].
  split; [vm_compute; reflexivity|]. split; [vm_compute; reflexivity|]. split; [vm_compute; reflexivity|].
  split; [vm_compute; discriminate|vm_compute; reflexivity].
Defined.

(** *** Quarantine: the free name is found *)

Lemma str_app_inj a b c : a +:+ b = a +:+ c -> b = c.
Proof. unfold String.app. induction a as [|x a IH]; cbn; [done|]. intros [= H]. by apply IH. Qed.

Lemma join_snoc_suffix l e suffix : join "/" (l ++ [e +:+ suffix]) = join "/" (l ++ [e]) +:+ suffix.
Proof.
  induction l as [|x l IH]; [done|]. cbn [app].
  destruct (l ++ [e +:+ suffix]) as [|y k] eqn:E1; [by destruct l|].
  destruct (l ++ [e]) as [|z k'] eqn:E2; [by destruct l|].
  rewrite !join_cons, IH, str_app_assoc. done.
Qed.

Lemma abs_string_on_last suffix l : l <> [] -> abs_string (on_last suffix l) = abs_string l +:+ suffix.
Proof.
  intros Hne. unfold on_last, abs_string. destruct (rev l) as [|e before] eqn:E.
  - by destruct l; [|apply (f_equal length) in E; rewrite length_rev in E].
  - apply (f_equal (@rev _)) in E. rewrite rev_involutive in E. cbn [rev] in E. subst l.
    by rewrite join_snoc_suffix, str_app_assoc.
Qed.

Lemma candidate_suffix_inj stamp i j : candidate_suffix stamp i = candidate_suffix stamp j -> i = j.
Proof.
  unfold candidate_suffix. intros H. do 3 apply str_app_inj in H. destruct i, j; [done|discriminate|discriminate|].
  apply str_app_inj, itoa_inj in H. lia.
Qed.

Section quarantine.
Context (sha256 : bytes -> bytes) (cwd : string) (unreadable : string -> bool) (faults : repairCall -> bool).

Lemma freeCandidate_None fs base stamp i fuel :
  freeCandidate faults fs base stamp i fuel = None ->
  forall k, (k < fuel)%nat -> is_Some (fs !! abs_string (on_last (candidate_suffix stamp (i + k)) base)).
Proof.
  revert i. induction fuel as [|fuel IH]; intros i H k Hk; [lia|]. cbn in H.
  destruct (faults _); [done|]. destruct (fs !! _) eqn:E; [|done].
  destruct k as [|k]; [rewrite Nat.add_0_r; by eexists|].
  replace (i + S k)%nat with (S i + k)%nat by lia. apply IH; [done|lia].
Qed.

(** One more candidate than there are files is enough. *)
Lemma freeCandidate_fuel fs base stamp :
  base <> [] -> is_Some (freeCandidate faults fs base stamp 0 (S (size fs))).
Proof.
  intros Hb. destruct (freeCandidate _ _ _ _ _ _) eqn:E; [by eexists|]. exfalso.
  pose proof (freeCandidate_None _ _ _ _ _ E) as H.
  set (name := fun k => abs_string (on_last (candidate_suffix stamp k) base)).
  assert (NoDup (name <$> seq 0 (S (size fs)))) as Hnd.
  { apply NoDup_fmap_2_strong; [|apply NoDup_seq]. intros x y _ _. unfold name.
    rewrite !abs_string_on_last by done. intros Hxy%str_app_inj. by eapply candidate_suffix_inj. }
  assert (length (name <$> seq 0 (S (size fs))) <= length (map_to_list fs).*1)%nat as Hlen.
  { apply submseteq_length, NoDup_submseteq; [done|]. intros x (k & -> & Hk)%list_elem_of_fmap.
    apply elem_of_seq in Hk. destruct (H k) as [f Hf]; [lia|]. apply list_elem_of_fmap.
    exists (name k, f). split; [done|]. by apply elem_of_map_to_list. }
  rewrite !length_fmap, length_seq, length_map_to_list in Hlen. lia.
Qed.

Lemma freeCandidate_free fs base stamp i fuel c :
  freeCandidate faults fs base stamp i fuel = Some (Ok c) ->
  fs !! abs_string c = None /\ exists k, c = on_last (candidate_suffix stamp k) base.
Proof.
  revert i. induction fuel as [|fuel IH]; intros i; cbn [freeCandidate]; [done|]. destruct (faults _); [done|].
  destruct (fs !! abs_string (on_last (candidate_suffix stamp i) base)) eqn:E; [apply IH|].
  intros [= <-]. split; [done|]. by eexists.
Qed.

Lemma freeCandidate_error fs base stamp i fuel e :
  freeCandidate faults fs base stamp i fuel = Some (Err e) -> exists k, e = ErrRepairIO (RepairStatQuarantine k).
Proof.
  revert i. induction fuel as [|fuel IH]; intros i; cbn; [done|]. destruct (faults _); [intros [= <-]; by eexists|].
  destruct (fs !! _); [apply IH|done].
Qed.

Lemma on_last_app suffix a l : l <> [] -> on_last suffix (a ++ l) = a ++ on_last suffix l.
Proof.
  intros Hne. unfold on_last. rewrite rev_app_distr. destruct (rev l) as [|e before] eqn:E.
  - by destruct l; [|apply (f_equal length) in E; rewrite length_rev in E].
  - cbn. by rewrite rev_app_distr, rev_involutive, <- app_assoc.
Qed.

(** For a contained path the allocation finds a name in the quarantine folder
    of the root that is not in use, unless a stat fails. *)
Lemma allocate_spec fs root rel stamp target :
  has_prefix cwd "/" = true -> containedPath cwd root rel = Some target ->
  match allocateQuarantinePath cwd faults fs root rel stamp (S (size fs)) with
  | Some (Ok (q, qrel)) => fs !! abs_string q = None /\
      exists l k, q = abs_elems cwd root ++ l /\ qrel = join "/" l /\
        l = [".sync"; "quarantine"] ++ on_last (candidate_suffix stamp k) (drop (length (abs_elems cwd root)) target)
  | Some (Err e) => exists k, e = ErrRepairIO (RepairStatQuarantine k)
  | None => False
  end.
Proof.
  intros Hcwd Hc. destruct (containedPath_below _ _ _ _ Hcwd Hc) as (Hroot & l & Hne & Hl & Hclean & ->).
  unfold allocateQuarantinePath. rewrite Hclean.
  assert (has_prefix (join "/" l) "../" = false /\ join "/" l <> ".." /\ has_prefix (join "/" l) "/" = false) as (H1 & H2 & H3).
  { pose proof (clean_elems_join l Hl) as Hce. split_and!.
    - destruct (has_prefix (join "/" l) "../") eqn:E; [|done]. apply has_prefix_inv in E as [t Ht].
      assert (split_on slash (join "/" l) = l) as Hs
        by (apply split_on_join; [done|eapply Forall_impl; [done|]; by intros e []]).
      rewrite Ht in Hs. change ("../" +:+ t) with (".." +:+ String slash t) in Hs. rewrite split_on_app in Hs.
      cbn in Hs. rewrite <- Hs in Hl. apply Forall_cons in Hl as [[_ _ ? _] _]. done.
    - intros E. rewrite E in Hce. cbn in Hce. rewrite <- Hce in Hl. apply Forall_cons in Hl as [[_ _ ? _] _]. done.
    - by apply join_ok_not_rooted. }
  rewrite H1, H3, bool_decide_eq_false_2 by done. cbn [orb].
  assert (abs_elems cwd (path_join root (".sync/quarantine/" +:+ join "/" l))
    = abs_elems cwd root ++ [".sync"; "quarantine"] ++ l) as ->.
  { destruct l as [|e l]; [done|]. change (".sync/quarantine/" +:+ join "/" (e :: l))
      with (join "/" (".sync" :: "quarantine" :: e :: l)). apply abs_elems_join; [by destruct cwd| |done].
    constructor; [by repeat split|]. constructor; [by repeat split|done]. }
  destruct (freeCandidate_fuel fs (abs_elems cwd root ++ [".sync"; "quarantine"] ++ l) stamp) as [[q|e] Hf].
  { by destruct (abs_elems cwd root). }
  - rewrite Hf. apply freeCandidate_free in Hf as [Hfree [k ->]]. split; [done|].
    rewrite drop_app_length. rewrite !on_last_app by done. rewrite rel_elems_app. by eexists _, k.
  - rewrite Hf. by apply freeCandidate_error in Hf.
Qed.

Lemma rename_Ok c fs src dst fs' :
  rename faults c fs src dst = Ok fs' <-> faults c = false /\ exists f, fs !! src = Some f /\ fs' = <[dst := f]> (delete src fs).
Proof.
  unfold rename. destruct (faults c); [split; [done|by intros []]|].
  destruct (fs !! src); [|split; [done|by intros (_ & f & ? & _)]]. split.
  - intros [= <-]. split; [done|]. by eexists.
  - by intros (_ & g & [= <-] & ->).
Qed.

Lemma rename_Err c fs src dst e : rename faults c fs src dst = Err e -> e = ErrRepairIO c.
Proof. unfold rename. destruct (faults c); [by intros [= <-]|]. destruct (fs !! src); [done|]. by intros [= <-]. Qed.

(** What a repair leaves behind. *)
Inductive repaired (fs : gmap string File) (root : string) (plan : RepairReplacementPlan) (target replacement : string)
    : gmap string File -> result RepairErr QuarantineRecord -> Prop :=
| repair_installed fresh :
    fs !! target = None -> fs !! replacement = Some fresh ->
    repaired fs root plan target replacement (<[target := fresh]> (delete replacement fs))
      (Ok (mkQuarantineRecord (path_clean (RepairReplacementPlan_RelativePath plan)) EmptyString
             (RepairReplacementPlan_ReplacementPath plan)))
| repair_swapped old fresh l :
    fs !! target = Some old -> fs !! replacement = Some fresh -> replacement <> target ->
    fs !! abs_string (abs_elems cwd root ++ ".sync" :: "quarantine" :: l) = None ->
    repaired fs root plan target replacement
      (<[target := fresh]> (delete replacement
         (<[abs_string (abs_elems cwd root ++ ".sync" :: "quarantine" :: l) := old]> (delete target fs))))
      (Ok (mkQuarantineRecord (path_clean (RepairReplacementPlan_RelativePath plan))
             (join "/" (".sync" :: "quarantine" :: l)) (RepairReplacementPlan_ReplacementPath plan)))
| repair_refused e : repaired fs root plan target replacement fs (Err e)
| repair_stranded old l :
    fs !! target = Some old -> faults RepairRenameBack = true ->
    fs !! abs_string (abs_elems cwd root ++ ".sync" :: "quarantine" :: l) = None ->
    repaired fs root plan target replacement
      (<[abs_string (abs_elems cwd root ++ ".sync" :: "quarantine" :: l) := old]> (delete target fs))
      (Err (ErrRepairIO RepairRenameIn)).

Lemma renameIn_away fs root plan target replacement old l :
  fs !! target = Some old ->
  fs !! abs_string (abs_elems cwd root ++ ".sync" :: "quarantine" :: l) = None ->
  let q := abs_string (abs_elems cwd root ++ ".sync" :: "quarantine" :: l) in
  let '(fs', r) := renameIn faults (<[q := old]> (delete target fs)) replacement target (Some q)
    (mkQuarantineRecord (path_clean (RepairReplacementPlan_RelativePath plan))
             (join "/" (".sync" :: "quarantine" :: l)) (RepairReplacementPlan_ReplacementPath plan)) in
  q <> replacement -> repaired fs root plan target replacement fs' r.
Proof.
  intros Ht Hq q. assert (q <> target) as Hqt by (intros E; unfold q in E; congruence).
  unfold renameIn. destruct (rename faults RepairRenameIn _ _ _) as [fs'|e] eqn:E.
  - intros Hqr. apply rename_Ok in E as (_ & fresh & Hf & ->). rewrite lookup_insert_ne in Hf by done.
    apply lookup_delete_Some in Hf as [Hne Hf]. by apply repair_swapped.
  - intros Hqr. assert (e = ErrRepairIO RepairRenameIn) as ->.
    { by apply rename_Err in E. }
    destruct (rename faults RepairRenameBack _ _ _) as [fs2|e2] eqn:E2.
    + apply rename_Ok in E2 as (_ & f & Hf & ->). rewrite lookup_insert_eq in Hf. injection Hf as <-.
      rewrite delete_insert_id by (by rewrite lookup_delete_ne).
      rewrite insert_delete_id by done. apply repair_refused.
    + apply repair_stranded; [done| |done]. unfold rename in E2. destruct (faults _); [done|].
      by rewrite lookup_insert_eq in E2.
Qed.

Lemma repairChecks_Ok fs plan target :
  repairChecks sha256 cwd unreadable faults fs plan = Ok target ->
  containedPath cwd (RepairReplacementPlan_Root plan) (RepairReplacementPlan_RelativePath plan) = Some target /\
  verifyReplacementManifest sha256 cwd unreadable fs (RepairReplacementPlan_ReplacementPath plan)
    (RepairReplacementPlan_DesiredManifest plan) = Ok tt.
Proof.
  unfold repairChecks. destruct (containedPath _ _ _) as [t|]; [|done]. cbv zeta.
  intros ([] & _ & H)%result_bind_ok. apply result_bind_ok in H as ([] & _ & H).
  apply result_bind_ok in H as ([] & Hv & H). apply result_bind_ok in H as ([] & _ & H).
  apply result_bind_ok in H as ([] & _ & H). by injection H as <-.
Qed.

Lemma readManifest_Ok fs path blockSize m :
  readManifest sha256 unreadable fs path blockSize = Ok m <->
  unreadable path = false /\ 0 < blockSize /\ exists f, fs !! path = Some f /\
    m = mkManifest path (file_size f) blockSize
          (readBlocks sha256 (S (length (File_data f))) 0 blockSize (File_data f)) "complete" false (File_mtime f) 0 0 0.
Proof.
  unfold readManifest, BuildManifest. destruct (unreadable path); [split; [done|by intros (? & _)]|].
  destruct (Z.leb_spec blockSize 0) as [H|H]; [split; [done|intros (_ & ? & _); lia]|].
  destruct (fs !! path) as [f|]; [|split; [done|by intros (_ & _ & f & ? & _)]].
  split.
  - intros [= <-]. split_and!; [done..|]. by exists f.
  - by intros (_ & _ & g & [= <-] & ->).
Qed.

(** The content the plan wants, as read from the replacement. *)
Definition trusted_content (plan : RepairReplacementPlan) (path : string) (f : File) : Prop :=
  manifestBytesMatch (RepairReplacementPlan_DesiredManifest plan)
    (mkManifest path (file_size f) (Manifest_BlockSize (RepairReplacementPlan_DesiredManifest plan))
       (readBlocks sha256 (S (length (File_data f))) 0
          (Manifest_BlockSize (RepairReplacementPlan_DesiredManifest plan)) (File_data f))
       "complete" false (File_mtime f) 0 0 0) = true.

Lemma verifyReplacement_Ok fs path plan :
  verifyReplacementManifest sha256 cwd unreadable fs path (RepairReplacementPlan_DesiredManifest plan) = Ok tt ->
  exists f, fs !! abs_string (abs_elems cwd path) = Some f /\ trusted_content plan (abs_string (abs_elems cwd path)) f.
Proof.
  unfold verifyReplacementManifest. destruct (negb _); [done|].
  destruct (readManifest _ _ _ _ _) as [m|e] eqn:E; [|done]. apply readManifest_Ok in E as (_ & _ & f & Hf & ->).
  destruct (manifestBytesMatch _ _) eqn:Hm; [|done]. intros _. by exists f.
Qed.

Lemma repair_outcome fs plan :
  has_prefix cwd "/" = true ->
  let '(fs', r) := ApplyVerifiedReplacementWithQuarantine sha256 cwd unreadable faults fs plan in
  (fs' = fs /\ exists e, r = Err e) \/
  exists target fresh, containedPath cwd (RepairReplacementPlan_Root plan) (RepairReplacementPlan_RelativePath plan) = Some target /\
    let replacement := abs_string (abs_elems cwd (RepairReplacementPlan_ReplacementPath plan)) in
    fs !! replacement = Some fresh /\ trusted_content plan replacement fresh /\
    repaired fs (RepairReplacementPlan_Root plan) plan (abs_string target) replacement fs' r.
Proof.
  intros Hcwd. unfold ApplyVerifiedReplacementWithQuarantine. cbv zeta.
  destruct (repairChecks _ _ _ _ _ _) as [target|e] eqn:Hchk; [|left; split; [done|by eexists]].
  apply repairChecks_Ok in Hchk as [Hc Hv]. apply verifyReplacement_Ok in Hv as (fresh & Hf & Htr).
  destruct (fs !! abs_string target) as [old|] eqn:Ht.
  - pose proof (allocate_spec fs _ _ (RepairReplacementPlan_Stamp plan) target Hcwd Hc) as Ha.
    destruct (allocateQuarantinePath _ _ _ _ _ _ _) as [[[q qrel]|e]|]; [|left; split; [done|by eexists]|done].
    destruct Ha as (Hq & l & k & -> & -> & ->). destruct (_ ≫= _) as [fs1|e] eqn:E; [|left; split; [done|by eexists]].
    apply result_bind_ok in E as (_ & _ & E). apply rename_Ok in E as (_ & f & Hf1 & ->).
    assert (f = old) as -> by congruence.
    pose proof (renameIn_away fs (RepairReplacementPlan_Root plan) plan (abs_string target)
      (abs_string (abs_elems cwd (RepairReplacementPlan_ReplacementPath plan))) old _ Ht Hq) as Hin.
    cbv zeta in Hin. cbn [app] in *. destruct (renameIn _ _ _ _ _ _) as [fs' r].
    right. exists target, fresh. split_and!; [done..|]. apply Hin. intros E. congruence.
  - unfold renameIn. destruct (rename _ _ _ _ _) as [fs'|e] eqn:E; right.
    + apply rename_Ok in E as (_ & f & Hf1 & ->). exists target, fresh. split_and!; [done..|].
      assert (f = fresh) as -> by congruence. by apply repair_installed.
    + exists target, fresh. split_and!; [done..|]. apply repair_refused.
Qed.
(** [C30] Repairs lose nothing.  Whatever system call fails, a repair either
    installs bytes that match the trusted manifest, with the damaged file kept
    under a fresh name in the quarantine folder, or leaves the file system as it
    was; only when undoing fails as well does the damaged file stay in the
    quarantine folder.  The search for a fresh name always ends. *)
Theorem repair_keeps_everything fs plan fs' r :
  has_prefix cwd "/" = true ->
  ApplyVerifiedReplacementWithQuarantine sha256 cwd unreadable faults fs plan = (fs', r) ->
  (fs' = fs /\ exists e, r = Err e) \/
  exists target fresh, containedPath cwd (RepairReplacementPlan_Root plan) (RepairReplacementPlan_RelativePath plan) = Some target /\
    let replacement := abs_string (abs_elems cwd (RepairReplacementPlan_ReplacementPath plan)) in
    fs !! replacement = Some fresh /\ trusted_content plan replacement fresh /\
    repaired fs (RepairReplacementPlan_Root plan) plan (abs_string target) replacement fs' r.
Proof. intros Hcwd E. pose proof (repair_outcome fs plan Hcwd) as H. by rewrite E in H. Qed.
End quarantine.

Definition demo_repair_files : gmap string File :=
  {["/data/a" := mkFile [Byte.x60] 5; "/data/.sync/r" := mkFile [Byte.x61] 6;
    "/data/.sync/quarantine/a.T.damaged" := mkFile [Byte.x00] 1]}.
Definition demo_repair_plan : RepairReplacementPlan :=
  mkRepairPlan "/data" "a" "/data/.sync/r" demo_scrub_manifest "T".

Definition demo_repair : gmap string File * result RepairErr QuarantineRecord :=
  ApplyVerifiedReplacementWithQuarantine id "/" (fun _ => false) (fun _ => false) demo_repair_files demo_repair_plan.

Lemma repair_keeps_everything_witness :
  demo_repair.1 !! "/data/a" = Some (mkFile [Byte.x61] 6) /\
  demo_repair.2 = Ok (mkQuarantineRecord "a" ".sync/quarantine/a.T.damaged.1" "/data/.sync/r") /\
  demo_repair.1 !! "/data/.sync/quarantine/a.T.damaged.1" = Some (mkFile [Byte.x60] 5) /\
  exists fresh, trusted_content id demo_repair_plan "/data/.sync/r" fresh.
Proof.
  assert (demo_repair.2 = Ok (mkQuarantineRecord "a" ".sync/quarantine/a.T.damaged.1" "/data/.sync/r")) as Hr
    by (vm_compute; reflexivity).
  split; [vm_compute; reflexivity|]. split; [exact Hr|]. split; [vm_compute; reflexivity|].
  destruct (repair_keeps_everything id "/" (fun _ => false) (fun _ => false) demo_repair_files demo_repair_plan
    demo_repair.1 demo_repair.2 eq_refl (surjective_pairing demo_repair))
    as [[_ [e He]]|(target & fresh & _ & _ & Htr & _)].
  - rewrite Hr in He. discriminate He.
  - exists fresh. exact Htr.
Defined.
