(* ===== verification/FolderTransfer.v ===== *)
(** * Folder shares: transferring files

    Models [internal/foldershare/blocks.go] and [batch.go]: block lists,
    resumable downloads that verify every block, transfers of the differing
    slices of a block only, and batches of small files.

    Files are keyed by the elements of their absolute path.  The state file a
    download leaves beside its target, a JSON document, is a [partialState] in a
    map of its own.  What the peer answers is an argument, one set of answers per
    attempt; so is which system calls fail. *)

From S2P Require Import Prelude GoStd Block Paths Scrub.
From Stdlib Require Import Ascii.

Local Open Scope Z_scope.

(** ** Data *)

Definition TransferBlockSize : Z := Z.shiftl 4 20.
Definition SubBlockSize : Z := Z.shiftl 128 10.
Definition SmallFileBatchCount : nat := 32.
Definition SmallFileBatchBytes : Z := Z.shiftl 256 10.

Record FileBlock := mkFileBlock {
  FileBlock_Index : Z;
  FileBlock_Offset : Z;
  FileBlock_Size : Z;
  FileBlock_Hash : string
}.
#[export] Instance FileBlock_eq_dec : EqDecision FileBlock.
Proof. solve_decision. Defined.

(** One path in a folder's sync journal. *)
Record Entry := mkEntry {
  Entry_Path : string;
  Entry_SHA256 : string;
  Entry_Size : Z;
  Entry_Deleted : bool;
  Entry_Revision : Z;
  Entry_Origin : string;
  Entry_Blocks : list FileBlock;
  Entry_Cursor : Z
}.
#[export] Instance Entry_eq_dec : EqDecision Entry.
Proof. solve_decision. Defined.

Record partialState := mkPartialState {
  partialState_SHA256 : string;
  partialState_Size : Z;
  partialState_BlockSize : Z;
  partialState_Have : list Z
}.

Record storedBlock := mkStoredBlock {
  storedBlock_path : list string;
  storedBlock_offset : Z;
  storedBlock_size : Z
}.

Record manifestBody := mkManifestBody {
  manifestBody_SHA256 : string;
  manifestBody_Size : Z;
  manifestBody_BlockSize : Z;
  manifestBody_Blocks : list FileBlock
}.

Abbreviation diskFiles := (gmap (list string) bytes) (only parsing).

Inductive TransferErr :=
| ErrNegativeSize
| ErrPeer                        (* the request failed or was answered with an error *)
| ErrLimit (endpoint : string)   (* the answer exceeds the read limit *)
| ErrManifestMismatch
| ErrManifestChecksum
| ErrNoBlocks
| ErrBadBlock (index : Z)
| ErrShortBlock (index : Z)
| ErrBlockHash (index : Z)
| ErrCoverage
| ErrBlockChecksum (index : Z)
| ErrLocalRead
| ErrDisk (what : string)
| ErrDownloadedSize
| ErrDownloadedChecksum.

(** ** Block lists *)

Section blocks.
Context (sha256 : bytes -> bytes).

Definition hexsha (data : bytes) : string := hex_encode (sha256 data).

(** The read loop of [blocksOf]: a reader that holds [rest] beyond [read]. *)
Fixpoint readTransferBlocks (fuel : nat) (index read size : Z) (rest : bytes) : list FileBlock :=
  match fuel with
  | O => []
  | S fuel' =>
      if read <? size then
        let want := Z.min TransferBlockSize (size - read) in
        let buf := take (Z.to_nat want) rest in
        mkFileBlock index read want (hexsha buf)
          :: readTransferBlocks fuel' (index + 1) (read + want) size (drop (Z.to_nat want) rest)
      else []
  end.

(** [blocksOf] of a file that does not change while it is read: the hash, the
    size and the blocks. *)
Definition blocksOf (data : bytes) : string * Z * list FileBlock :=
  let size := Z.of_nat (length data) in
  (hexsha data, size, readTransferBlocks (S (length data)) 0 0 size data).

(** [HashSubs]: the hashes of the [subSize] pieces of [data]. *)
Fixpoint hashPieces (fuel : nat) (subSize : Z) (rest : bytes) : list string :=
  match fuel with
  | O => []
  | S fuel' =>
      match rest with
      | [] => []
      | _ => let n := Z.to_nat (Z.min subSize (Z.of_nat (length rest))) in
             hexsha (take n rest) :: hashPieces fuel' subSize (drop n rest)
      end
  end.

Definition SubHashes (data : bytes) (subSize : Z) : list string :=
  hashPieces (length data) (if subSize <=? 0 then SubBlockSize else subSize) data.

Definition preferSubRanges (diffBytes blockSize ranges : Z) : bool :=
  if (ranges <=? 0) || (diffBytes <=? 0) || (blockSize <=? 0) || (blockSize <=? diffBytes) then false
  else i64 (diffBytes * 4) <=? blockSize.

Definition hashEquals (data : bytes) (want : string) : bool :=
  if bool_decide (str_len want <> 64) then false else equal_fold (hexsha data) want.

Definition subLength (blockSize index : Z) : Z :=
  let remain := blockSize - index * SubBlockSize in
  if remain <? SubBlockSize then remain else SubBlockSize.

(** The loop of [validateBlocks] from position [i], [covered] bytes so far. *)
Fixpoint validateFrom (i covered : Z) (blocks : list FileBlock) : result TransferErr Z :=
  match blocks with
  | [] => Ok covered
  | block :: rest =>
      if bool_decide (FileBlock_Index block <> i) || bool_decide (FileBlock_Offset block <> covered)
         || (FileBlock_Size block <=? 0) || (TransferBlockSize <? FileBlock_Size block)
      then Err (ErrBadBlock (FileBlock_Index block))
      else if (match rest with [] => false | _ => true end) && bool_decide (FileBlock_Size block <> TransferBlockSize)
      then Err (ErrShortBlock (FileBlock_Index block))
      else if bool_decide (str_len (FileBlock_Hash block) <> 64) then Err (ErrBlockHash (FileBlock_Index block))
      else validateFrom (i + 1) (i64 (covered + FileBlock_Size block)) rest
  end.

Definition validateBlocks (entry : Entry) : result TransferErr unit :=
  match Entry_Blocks entry with
  | [] => Err ErrNoBlocks
  | blocks =>
      covered ← validateFrom 0 0 blocks;
      fail_if (bool_decide (covered <> Entry_Size entry)) ErrCoverage
  end.

Definition storedKey (hash : string) (size : Z) : string := hash +:+ ":" +:+ itoa size.

(** ** What a peer answers during one attempt *)

Record peerAnswers := mkPeerAnswers {
  answer_manifest : result TransferErr (bytes * manifestBody);   (* the body and its decoding *)
  answer_block : FileBlock -> result TransferErr bytes;
  answer_subHashes : FileBlock -> result TransferErr (bytes * list string);
  answer_subRange : FileBlock -> Z -> result TransferErr bytes
}.

(** [peerBytes]: at most [limit] bytes are read. *)
Definition peerBytes (limit : Z) (answer : result TransferErr bytes) : result TransferErr bytes :=
  if limit <? 0 then Err (ErrLimit EmptyString)
  else
    body ← answer;
    if limit <? Z.of_nat (length body) then Err (ErrLimit EmptyString) else Ok body.

Definition set_Blocks (blocks : list FileBlock) (e : Entry) : Entry :=
  mkEntry (Entry_Path e) (Entry_SHA256 e) (Entry_Size e) (Entry_Deleted e) (Entry_Revision e) (Entry_Origin e)
    blocks (Entry_Cursor e).

Definition ensureBlocks (peer : peerAnswers) (entry : Entry) : result TransferErr Entry :=
  match Entry_Size entry =? 0, Entry_Blocks entry with
  | true, _ | _, _ :: _ => Ok entry
  | false, [] =>
      answer ← answer_manifest peer;
      _ ← peerBytes (Z.shiftl 64 20) (Ok answer.1);
      let manifest := answer.2 in
      if bool_decide (manifestBody_BlockSize manifest <> TransferBlockSize)
         || bool_decide (manifestBody_Size manifest <> Entry_Size entry) then Err ErrManifestMismatch
      else if bool_decide (Entry_SHA256 entry <> EmptyString)
              && negb (equal_fold (manifestBody_SHA256 manifest) (Entry_SHA256 entry)) then Err ErrManifestChecksum
      else Ok (set_Blocks (manifestBody_Blocks manifest) entry)
  end.

(** ** Reading local bytes *)

Definition readFileRange (files : diskFiles) (path : list string) (offset size : Z) : result TransferErr bytes :=
  if size <? 0 then Err ErrLocalRead
  else match files !! path with
  | None => Err ErrLocalRead
  | Some data =>
      if size =? 0 then Ok []
      else if offset <? 0 then Err ErrLocalRead
      else
        let buf := slice data offset size in
        if Z.of_nat (length buf) <? size then Err ErrLocalRead else Ok buf
  end.

Definition fetchWholeBlock (peer : peerAnswers) (block : FileBlock) : result TransferErr bytes :=
  body ← peerBytes (FileBlock_Size block) (answer_block peer block);
  if hashEquals body (FileBlock_Hash block) then Ok body else Err (ErrBlockChecksum (FileBlock_Index block)).

(** The slices that differ, by index, and their bytes. *)
Definition differing (blockSize : Z) (localSubs remoteSubs : list string) : list Z * Z :=
  foldl (fun acc i =>
    match localSubs !! Z.to_nat i, remoteSubs !! Z.to_nat i with
    | Some l, Some r => if equal_fold l r then acc else (acc.1 ++ [i], acc.2 + subLength blockSize i)
    | _, _ => acc
    end) ([], 0) (seqZ 0 (Z.of_nat (length remoteSubs))).

(** [copy(buf[i*SubBlockSize:], piece)] *)
Definition patch (buf : bytes) (off : Z) (piece : bytes) : bytes :=
  take (length buf) (take (Z.to_nat off) buf ++ piece ++ drop (Z.to_nat off + length piece) buf).

Fixpoint fetchPieces (peer : peerAnswers) (block : FileBlock) (remoteSubs : list string) (buf : bytes) (moved : Z)
    (diff : list Z) : option (bytes * Z) :=
  match diff with
  | [] => Some (buf, moved)
  | i :: rest =>
      match peerBytes (subLength (FileBlock_Size block) i) (answer_subRange peer block i) with
      | Err _ => None
      | Ok piece =>
          if bool_decide (Z.of_nat (length piece) <> subLength (FileBlock_Size block) i) then None
          else match remoteSubs !! Z.to_nat i with
          | None => None
          | Some want =>
              if equal_fold (hexsha piece) want
              then fetchPieces peer block remoteSubs (patch buf (i * SubBlockSize) piece)
                     (moved + Z.of_nat (length piece)) rest
              else None
          end
      end
  end.

Definition trySubBlock (peer : peerAnswers) (files : diskFiles) (block : FileBlock) (oldPath : option (list string))
    : option (bytes * Z) :=
  match oldPath with
  | None => None
  | Some path =>
      if FileBlock_Size block <=? SubBlockSize then None
      else match readFileRange files path (FileBlock_Offset block) (FileBlock_Size block) with
      | Err _ => None
      | Ok old =>
          if hashEquals old (FileBlock_Hash block) then Some (old, 0)
          else
            let localSubs := SubHashes old SubBlockSize in
            match answer_subHashes peer block with
            | Err _ => None
            | Ok (body, remoteSubs) =>
                if Z.shiftl 1 20 <? Z.of_nat (length body) then None
                else if bool_decide (length remoteSubs <> length localSubs) then None
                else
                  let '(diff, diffBytes) := differing (FileBlock_Size block) localSubs remoteSubs in
                  if negb (preferSubRanges diffBytes (FileBlock_Size block) (Z.of_nat (length diff))) then None
                  else match fetchPieces peer block remoteSubs old 0 diff with
                  | None => None
                  | Some (buf, moved) => if hashEquals buf (FileBlock_Hash block) then Some (buf, moved) else None
                  end
            end
      end
  end.

(** The data of a block and how many bytes crossed the network. *)
Definition fetchBlock (peer : peerAnswers) (files : diskFiles) (locals : gmap string storedBlock)
    (block : FileBlock) (oldPath : option (list string)) : result TransferErr (bytes * Z) :=
  let local :=
    match locals !! storedKey (FileBlock_Hash block) (FileBlock_Size block) with
    | None => None
    | Some src =>
        match readFileRange files (storedBlock_path src) (storedBlock_offset src) (storedBlock_size src) with
        | Ok data => if hashEquals data (FileBlock_Hash block) then Some data else None
        | Err _ => None
        end
    end in
  match local with
  | Some data => Ok (data, 0)
  | None =>
      match trySubBlock peer files block oldPath with
      | Some got => Ok got
      | None =>
          data ← fetchWholeBlock peer block;
          Ok (data, Z.of_nat (length data))
      end
  end.

(** ** Downloading a file *)

(** The files and, by target, the state documents of interrupted downloads. *)
Record disk := mkDisk {
  disk_files : diskFiles;
  disk_states : gmap (list string) partialState
}.

Inductive dlCall :=
| DlMkdir | DlOpen | DlTruncate | DlWrite (index : Z) | DlSync (index : Z) | DlSaveState (index : Z) | DlReadState | DlClose
| DlHash | DlRename | DlRemoveTmp | DlRemoveState | DlWriteEmpty.

Definition staging_suffix : string := ".fse-sync-tmp".
Definition tmpName (target : list string) : list string := on_last staging_suffix target.

Section download.
Context (faults : dlCall -> bool).

Definition dl (c : dlCall) (what : string) : result TransferErr unit := fail_if (faults c) (ErrDisk what).

Definition removeState (target : list string) (d : disk) : disk :=
  if faults DlRemoveState then d else mkDisk (disk_files d) (delete target (disk_states d)).

(** [finishDownload]: verify the staged file and rename it over the target. *)
Definition finishDownload (d : disk) (target : list string) (entry : Entry) : disk * result TransferErr unit :=
  let tmp := tmpName target in
  if faults DlHash then (d, Err (ErrDisk "hash"))
  else match disk_files d !! tmp with
  | None => (d, Err (ErrDisk "hash"))
  | Some data =>
      if (0 <? Entry_Size entry) && bool_decide (Z.of_nat (length data) <> Entry_Size entry)
      then (d, Err ErrDownloadedSize)
      else if bool_decide (Entry_SHA256 entry <> EmptyString) && negb (equal_fold (hexsha data) (Entry_SHA256 entry))
      then (if faults DlRemoveTmp then d else mkDisk (delete tmp (disk_files d)) (disk_states d), Err ErrDownloadedChecksum)
      else if faults DlRename then (d, Err (ErrDisk "rename"))
      else (mkDisk (<[target := data]> (delete tmp (disk_files d))) (disk_states d), Ok tt)
  end.

(** [confirmPartial]: the claimed blocks whose bytes are in the staged file. *)
Definition confirmPartial (staged : option bytes) (blocks : list FileBlock) (claimed : list Z) : gset Z :=
  match claimed, staged with
  | [], _ | _, None => ∅
  | _, Some data =>
      list_to_set (FileBlock_Index <$> List.filter (fun block =>
        bool_decide (FileBlock_Index block ∈ claimed) && (0 <=? FileBlock_Offset block) &&
        bool_decide (Z.of_nat (length (slice data (FileBlock_Offset block) (FileBlock_Size block))) = FileBlock_Size block) &&
        hashEquals (slice data (FileBlock_Offset block) (FileBlock_Size block)) (FileBlock_Hash block)) blocks)
  end.

(** [loadPartial]: a state document of another version of the file is removed. *)
Definition loadPartial (d : disk) (target : list string) (entry : Entry) : disk * gset Z :=
  match disk_states d !! target with
  | None => (d, ∅)
  | Some stored =>
      if faults DlReadState then (d, ∅)
      else if bool_decide (partialState_BlockSize stored <> TransferBlockSize)
              || bool_decide (partialState_Size stored <> Entry_Size entry)
              || negb (equal_fold (partialState_SHA256 stored) (Entry_SHA256 entry))
      then (removeState target d, ∅)
      else (d, confirmPartial (disk_files d !! tmpName target) (Entry_Blocks entry) (partialState_Have stored))
  end.

Definition savePartial (d : disk) (target : list string) (entry : Entry) (have : gset Z) : disk :=
  mkDisk (disk_files d)
    (<[target := mkPartialState (Entry_SHA256 entry) (Entry_Size entry) TransferBlockSize
                   (sort_by Z.ltb (elements have))]> (disk_states d)).

(** What the loop over the blocks keeps: the disk, the blocks at hand, the
    counters and the last failure. *)
Record progress := mkProgress {
  pr_disk : disk;
  pr_have : gset Z;
  pr_fetched : Z;
  pr_reused : Z;
  pr_failed : option TransferErr
}.

Definition writeVerified (d : disk) (target : list string) (block : FileBlock) (data : bytes)
    : disk * result TransferErr unit :=
  if hashEquals data (FileBlock_Hash block) then
    if faults (DlWrite (FileBlock_Index block)) then (d, Err (ErrDisk "write"))
    else (mkDisk (<[tmpName target :=
            Apply.write_at (default [] (disk_files d !! tmpName target)) (FileBlock_Offset block) data]> (disk_files d))
            (disk_states d), dl (DlSync (FileBlock_Index block)) "sync")
  else (d, Err (ErrBlockChecksum (FileBlock_Index block))).

(** One block; [Err] is an early return of the whole download. *)
Definition downloadBlock (peer : peerAnswers) (target : list string) (entry : Entry)
    (oldPath : option (list string)) (locals : gmap string storedBlock) (p : progress) (block : FileBlock)
    : progress * option TransferErr :=
  if decide (FileBlock_Index block ∈ pr_have p) then
    (mkProgress (pr_disk p) (pr_have p) (pr_fetched p) (pr_reused p + 1) (pr_failed p), None)
  else match fetchBlock peer (disk_files (pr_disk p)) locals block oldPath with
  | Err e => (mkProgress (pr_disk p) (pr_have p) (pr_fetched p) (pr_reused p) (Some e), None)
  | Ok (data, network) =>
      match writeVerified (pr_disk p) target block data with
      | (d, Err e) => (mkProgress d (pr_have p) (pr_fetched p) (pr_reused p) (Some e), None)
      | (d, Ok _) =>
          let have := {[FileBlock_Index block]} ∪ pr_have p in
          if faults (DlSaveState (FileBlock_Index block)) then
            (mkProgress d have (pr_fetched p) (pr_reused p) (pr_failed p), Some (ErrDisk "state"))
          else
            (mkProgress (savePartial d target entry have) have
               (if network =? 0 then pr_fetched p else pr_fetched p + 1)
               (if network =? 0 then pr_reused p + 1 else pr_reused p) (pr_failed p), None)
      end
  end.

Fixpoint downloadBlocks (peer : peerAnswers) (target : list string) (entry : Entry)
    (oldPath : option (list string)) (locals : gmap string storedBlock) (p : progress) (blocks : list FileBlock)
    : progress * option TransferErr :=
  match blocks with
  | [] => (p, None)
  | block :: rest =>
      match downloadBlock peer target entry oldPath locals p block with
      | (p', None) => downloadBlocks peer target entry oldPath locals p' rest
      | failed => failed
      end
  end.

(** The staged file, opened and, when nothing of it is usable, emptied. *)
Definition openStaged (d : disk) (target : list string) (have : gset Z) : disk * result TransferErr unit :=
  let staged data := mkDisk (<[tmpName target := data]> (disk_files d)) (disk_states d) in
  let data := default [] (disk_files d !! tmpName target) in
  if faults DlOpen then (d, Err (ErrDisk "open"))
  else if decide (have = ∅) then
    if faults DlTruncate then (staged data, Err (ErrDisk "truncate")) else (staged [], Ok tt)
  else (staged data, Ok tt).

(** An empty file: written, checked and renamed. *)
Definition downloadEmpty (d : disk) (target : list string) (entry : Entry)
    : disk * result TransferErr (Z * Z) :=
  match dl DlWriteEmpty "write" with
  | Err e => (d, Err e)
  | Ok _ =>
      match finishDownload (mkDisk (<[tmpName target := []]> (disk_files d)) (disk_states d)) target entry with
      | (d', Err e) => (d', Err e)
      | (d', Ok _) => (removeState target d', Ok (0, 0))
      end
  end.

(** The blocks of a non-empty file, then the final check. *)
Definition downloadStaged (peer : peerAnswers) (d : disk) (target : list string) (entry : Entry)
    (locals : gmap string storedBlock) : disk * result TransferErr (Z * Z) :=
  let '(d1, have) := loadPartial d target entry in
  match openStaged d1 target have with
  | (d2, Err e) => (d2, Err e)
  | (d2, Ok _) =>
      let oldPath := match disk_files d2 !! target with Some _ => Some target | None => None end in
      match downloadBlocks peer target entry oldPath locals (mkProgress d2 have 0 0 None) (Entry_Blocks entry) with
      | (p, Some e) => (pr_disk p, Err e)
      | (p, None) =>
          match pr_failed p, dl DlClose "close" with
          | Some e, _ => (pr_disk p, Err e)
          | None, Err e => (pr_disk p, Err e)
          | None, Ok _ =>
              match finishDownload (pr_disk p) target entry with
              | (d', Err e) => (removeState target d', Err e)
              | (d', Ok _) => (removeState target d', Ok (pr_fetched p, pr_reused p))
              end
          end
      end
  end.

Definition downloadFileOnce (peer : peerAnswers) (d : disk) (entry0 : Entry) (target : list string)
    (locals : gmap string storedBlock) : disk * result TransferErr (Z * Z) :=
  if Entry_Size entry0 <? 0 then (d, Err ErrNegativeSize)
  else match ensureBlocks peer entry0 with
  | Err e => (d, Err e)
  | Ok entry =>
      match dl DlMkdir "mkdir" with
      | Err e => (d, Err e)
      | Ok _ =>
          if Entry_Size entry =? 0 then downloadEmpty d target entry
          else match validateBlocks entry with
          | Err e => (d, Err e)
          | Ok _ => downloadStaged peer d target entry locals
          end
      end
  end.
End download.

(** [downloadFile]: one attempt and one per entry of [fileRetryBackoff]. *)
Fixpoint downloadAttempts (attempts : list (peerAnswers * (dlCall -> bool))) (d : disk) (entry : Entry)
    (target : list string) (locals : gmap string storedBlock) (last : TransferErr)
    : disk * result TransferErr (Z * Z) :=
  match attempts with
  | [] => (d, Err last)
  | (peer, faults) :: rest =>
      match downloadFileOnce faults peer d entry target locals with
      | (d', Ok r) => (d', Ok r)
      | (d', Err e) => downloadAttempts rest d' entry target locals e
      end
  end.

Definition fileRetryBackoff : list Z := [1000000000; 2000000000; 4000000000].

(** The environment gives the answers and faults of each attempt. *)
Definition downloadFile (env : nat -> peerAnswers * (dlCall -> bool)) (d : disk) (entry : Entry)
    (target : list string) (locals : gmap string storedBlock) : disk * result TransferErr (Z * Z) :=
  downloadAttempts (env <$> seq 0 (1 + length fileRetryBackoff)) d entry target locals ErrPeer.

(** ** Batches of small files *)

Record BatchFile := mkBatchFile { BatchFile_Path : string; BatchFile_Data : bytes }.

Inductive BatchErr :=
| ErrBatchFit (path : string)
| ErrBatchPathLength (n : Z)
| ErrBatchBodyLength (n : Z)
| ErrBatchShort
| ErrBatchTooMany.

Definition byte_at (n : Z) (shift : Z) : byte :=
  default Byte.x00 (Byte.of_N (Z.to_N (Z.land (Z.shiftr n shift) 255))).

(** [binary.Write(w, binary.BigEndian, uint32(n))] *)
Definition put_u32 (n : Z) : bytes := [byte_at (u32 n) 24; byte_at (u32 n) 16; byte_at (u32 n) 8; byte_at (u32 n) 0].

Definition get_u32 (b3 b2 b1 b0 : byte) : Z :=
  Z.of_N (Byte.to_N b3) * 2 ^ 24 + Z.of_N (Byte.to_N b2) * 2 ^ 16 + Z.of_N (Byte.to_N b1) * 2 ^ 8
    + Z.of_N (Byte.to_N b0).

Definition batchFits (file : BatchFile) : bool :=
  let n := Z.of_nat (String.length (BatchFile_Path file)) in
  (0 <? n) && (n <=? 4096) && (Z.of_nat (length (BatchFile_Data file)) <=? TransferBlockSize).

Definition frame (file : BatchFile) : bytes :=
  let path := String.list_byte_of_string (BatchFile_Path file) in
  put_u32 (Z.of_nat (length path)) ++ path ++ put_u32 (Z.of_nat (length (BatchFile_Data file))) ++ BatchFile_Data file.

(** What was written, and the error that stopped it. *)
Fixpoint WriteFileBatch (files : list BatchFile) : bytes * result BatchErr unit :=
  match files with
  | [] => ([], Ok tt)
  | file :: rest =>
      if batchFits file then let '(more, r) := WriteFileBatch rest in (frame file ++ more, r)
      else ([], Err (ErrBatchFit (BatchFile_Path file)))
  end.

(** [io.ReadFull] of [n] bytes. *)
Definition read_full (n : Z) (r : bytes) : option (bytes * bytes) :=
  if Z.of_nat (length r) <? n then None else Some (take (Z.to_nat n) r, drop (Z.to_nat n) r).

(** One frame behind its first length: the file and the rest of the input. *)
Definition readFrame (pathLen : Z) (r : bytes) : result BatchErr (BatchFile * bytes) :=
  if (pathLen =? 0) || (4096 <? pathLen) then Err (ErrBatchPathLength pathLen)
  else match read_full pathLen r with
  | None => Err ErrBatchShort
  | Some (path, b3 :: b2 :: b1 :: b0 :: r') =>
      let dataLen := get_u32 b3 b2 b1 b0 in
      if TransferBlockSize <? dataLen then Err (ErrBatchBodyLength dataLen)
      else match read_full dataLen r' with
      | None => Err ErrBatchShort
      | Some (data, r'') => Ok (mkBatchFile (String.string_of_list_byte path) data, r'')
      end
  | Some _ => Err ErrBatchShort
  end.

(** The loop: the files read so far come back with an error, too. *)
Fixpoint readFrames (fuel : nat) (out : list BatchFile) (r : bytes) : list BatchFile * option BatchErr :=
  match fuel, r with
  | _, [] => (out, None)
  | S fuel', b3 :: b2 :: b1 :: b0 :: r' =>
      match readFrame (get_u32 b3 b2 b1 b0) r' with
      | Err e => (out, Some e)
      | Ok (file, rest) =>
          let out' := out ++ [file] in
          if (SmallFileBatchCount <? length out')%nat then (out', Some ErrBatchTooMany)
          else readFrames fuel' out' rest
      end
  | _, _ => (out, Some ErrBatchShort)
  end.

Definition ReadFileBatch (r : bytes) : list BatchFile * option BatchErr := readFrames (S (length r)) [] r.

(** ** Applying a set of remote files *)

Record transferJob := mkTransferJob { job_entry : Entry; job_target : list string }.

Definition smallBatchEligible (entry : Entry) : bool :=
  (0 <? Entry_Size entry) && (Entry_Size entry <=? SmallFileBatchBytes) &&
  match Entry_Blocks entry with
  | [block] => (FileBlock_Index block =? 0) && (FileBlock_Size block =? Entry_Size entry)
  | _ => false
  end.

Definition writeSmallFile (faults : dlCall -> bool) (d : disk) (target : list string) (entry : Entry) (body : bytes)
    : disk * result TransferErr unit :=
  match dl faults DlMkdir "mkdir", dl faults DlWriteEmpty "write" with
  | Err e, _ | _, Err e => (d, Err e)
  | Ok _, Ok _ =>
      finishDownload faults (mkDisk (<[tmpName target := body]> (disk_files d)) (disk_states d)) target entry
  end.

(** [fetchSmallBatch]: the bodies by path, or nothing after any error. *)
Definition batchBodies (raw : result TransferErr bytes) (n : nat) : option (gmap string bytes) :=
  match raw with
  | Err _ => None
  | Ok raw =>
      let limit := Z.of_nat n * (TransferBlockSize + 4096) + 1 in
      match ReadFileBatch (if Z.of_nat (length raw) <=? limit then raw else take (Z.to_nat limit) raw) with
      | (files, None) => Some (put_all BatchFile_Path BatchFile_Data ∅ files)
      | (_, Some _) => None
      end
  end.

(** What a phase of the transfer leaves: the disk, the applied entries in order,
    the jobs left over, and whether an error was noted. *)
Record phase := mkPhase {
  ph_disk : disk;
  ph_applied : list Entry;
  ph_rest : list transferJob;
  ph_failed : bool
}.

(** One job of a batch whose bodies have arrived. *)
Definition applyBody (faults : dlCall -> bool) (bodies : gmap string bytes) (ph : phase) (job : transferJob) : phase :=
  let left_over failed := mkPhase (ph_disk ph) (ph_applied ph) (ph_rest ph ++ [job]) failed in
  match bodies !! Entry_Path (job_entry job), Entry_Blocks (job_entry job) with
  | Some body, block :: _ =>
      if hashEquals body (FileBlock_Hash block) && (Z.of_nat (length body) =? Entry_Size (job_entry job)) then
        match writeSmallFile faults (ph_disk ph) (job_target job) (job_entry job) body with
        | (d, Ok _) => mkPhase d (ph_applied ph ++ [job_entry job]) (ph_rest ph) (ph_failed ph)
        | (d, Err _) => mkPhase d (ph_applied ph) (ph_rest ph ++ [job]) true
        end
      else left_over (ph_failed ph)
  | _, _ => left_over (ph_failed ph)
  end.

(** The chunks of at most [SmallFileBatchCount] jobs, one request each. *)
Fixpoint applyChunks (fuel k : nat) (raw : nat -> result TransferErr bytes) (faults : Entry -> dlCall -> bool)
    (ph : phase) (small : list transferJob) : phase :=
  match fuel, small with
  | O, _ | _, [] => ph
  | S fuel', _ =>
      let chunk := take SmallFileBatchCount small in
      let ph' :=
        match batchBodies (raw k) (length chunk) with
        | None => mkPhase (ph_disk ph) (ph_applied ph) (ph_rest ph ++ chunk) (ph_failed ph)
        | Some bodies => foldl (fun ph job => applyBody (faults (job_entry job)) bodies ph job) ph chunk
        end in
      applyChunks fuel' (S k) raw faults ph' (drop SmallFileBatchCount small)
  end.

Definition applySmallBatches (raw : nat -> result TransferErr bytes) (faults : Entry -> dlCall -> bool)
    (d : disk) (jobs : list transferJob) : phase :=
  let small := List.filter (fun job => smallBatchEligible (job_entry job)) jobs in
  let rest := List.filter (fun job => negb (smallBatchEligible (job_entry job))) jobs in
  if (length small <? 2)%nat then mkPhase d [] jobs false
  else applyChunks (length small) 0 raw faults (mkPhase d [] rest false) small.

(** One of the workers' downloads. *)
Definition applyDownload (env : Entry -> nat -> peerAnswers * (dlCall -> bool)) (locals : gmap string storedBlock)
    (ph : phase) (job : transferJob) : phase :=
  match downloadFile (env (job_entry job)) (ph_disk ph) (job_entry job) (job_target job) locals with
  | (d, Ok _) => mkPhase d (ph_applied ph ++ [job_entry job]) (ph_rest ph) (ph_failed ph)
  | (d, Err _) => mkPhase d (ph_applied ph) (ph_rest ph ++ [job]) true
  end.

(** What the peer and the disk do during one application of remote entries.
    In the code sixteen workers download at the same time; here one download
    follows another, in the order [env_order], so that what two downloads of one
    pass do to each other's source files while both run is left out. *)
Record transferEnv := mkTransferEnv {
  env_batch : nat -> result TransferErr bytes;
  env_batchFaults : Entry -> dlCall -> bool;
  env_download : Entry -> nat -> peerAnswers * (dlCall -> bool);
  env_order : list transferJob -> list transferJob
}.

Definition transferJobs (env : transferEnv) (locals : gmap string storedBlock) (d : disk) (jobs : list transferJob)
    : phase :=
  let ph := applySmallBatches (env_batch env) (env_batchFaults env) d jobs in
  foldl (applyDownload (env_download env) locals) (mkPhase (ph_disk ph) (ph_applied ph) [] (ph_failed ph))
    (env_order env (ph_rest ph)).
End blocks.

(** ** Properties *)

(** *** Frames of small files *)

Lemma byte_at_N n shift :
  0 <= n -> 0 <= shift -> Z.of_N (Byte.to_N (byte_at n shift)) = (n / 2 ^ shift) mod 256.
Proof.
  intros Hn Hs. unfold byte_at. rewrite Z.shiftr_div_pow2 by done.
  change 255 with (Z.ones 8). rewrite Z.land_ones by lia.
  pose proof (Z.mod_pos_bound (n / 2 ^ shift) (2 ^ 8)) as Hb.
  destruct (Byte.of_N _) as [b|] eqn:E; cbn [default from_option id].
  - apply Byte.to_of_N in E. rewrite E, Z2N.id by lia. done.
  - apply Byte.of_N_None_iff in E. lia.
Qed.

Lemma get_put_u32 n : 0 <= n < 2 ^ 32 ->
  get_u32 (byte_at (u32 n) 24) (byte_at (u32 n) 16) (byte_at (u32 n) 8) (byte_at (u32 n) 0) = n.
Proof.
  intros Hn. unfold get_u32. rewrite u32_small, !byte_at_N by lia.
  change (2 ^ 24) with 16777216. change (2 ^ 16) with 65536. change (2 ^ 8) with 256. change (2 ^ 0) with 1.
  change (2 ^ 32) with 4294967296 in Hn. rewrite Z.div_1_r.
  pose proof (Z.div_mod n 256). pose proof (Z.div_mod (n / 256) 256). pose proof (Z.div_mod (n / 65536) 256).
  assert (n / 65536 = n / 256 / 256) as E1 by by rewrite Z.div_div.
  assert (n / 16777216 = n / 65536 / 256) as E2 by by rewrite Z.div_div.
  assert (n / 16777216 < 256) by (apply Z.div_lt_upper_bound; lia).
  assert (0 <= n / 16777216) by (apply Z.div_pos; lia).
  rewrite (Z.mod_small (n / 16777216)) by lia. lia.
Qed.

Lemma length_list_byte_of_string s : length (String.list_byte_of_string s) = String.length s.
Proof. induction s as [|c s IH]; [done|]. cbn. f_equal. exact IH. Qed.

Lemma read_full_app a b : read_full (Z.of_nat (length a)) (a ++ b) = Some (a, b).
Proof.
  unfold read_full. rewrite (proj2 (Z.ltb_ge _ _)) by (rewrite length_app; lia).
  by rewrite Nat2Z.id, take_app_length, drop_app_length.
Qed.

Lemma read_full_Some n r a b : read_full n r = Some (a, b) -> 0 <= n -> r = a ++ b /\ Z.of_nat (length a) = n.
Proof.
  unfold read_full. destruct (Z.ltb_spec (Z.of_nat (length r)) n) as [|H]; [done|]. intros [= <- <-] Hn.
  split; [by rewrite take_drop|]. rewrite length_take. lia.
Qed.

Lemma get_u32_bounds b3 b2 b1 b0 : 0 <= get_u32 b3 b2 b1 b0 < 2 ^ 32.
Proof.
  unfold get_u32. pose proof (Byte.to_N_bounded b3). pose proof (Byte.to_N_bounded b2).
  pose proof (Byte.to_N_bounded b1). pose proof (Byte.to_N_bounded b0). lia.
Qed.

Lemma batchFits_true file : batchFits file = true ->
  0 < Z.of_nat (String.length (BatchFile_Path file)) <= 4096 /\
  Z.of_nat (length (BatchFile_Data file)) <= TransferBlockSize.
Proof. unfold batchFits. rewrite !andb_true_iff, Z.ltb_lt, !Z.leb_le. lia. Qed.

(** One frame is read back, and the rest of the input is left alone. *)
Lemma readFrame_frame file rest :
  batchFits file = true ->
  exists b3 b2 b1 b0 body, frame file ++ rest = b3 :: b2 :: b1 :: b0 :: body /\
    readFrame (get_u32 b3 b2 b1 b0) body = Ok (file, rest).
Proof.
  intros Hfit. apply batchFits_true in Hfit as [Hp Hd]. unfold frame.
  set (path := String.list_byte_of_string (BatchFile_Path file)).
  assert (length path = String.length (BatchFile_Path file)) as Hlen by apply length_list_byte_of_string.
  rewrite <- Hlen in Hp. unfold TransferBlockSize in Hd. change (Z.shiftl 4 20) with 4194304 in Hd.
  exists (byte_at (u32 (Z.of_nat (length path))) 24), (byte_at (u32 (Z.of_nat (length path))) 16),
    (byte_at (u32 (Z.of_nat (length path))) 8), (byte_at (u32 (Z.of_nat (length path))) 0),
    (path ++ put_u32 (Z.of_nat (length (BatchFile_Data file))) ++ BatchFile_Data file ++ rest).
  split; [by rewrite <- !app_assoc|]. rewrite get_put_u32 by lia. unfold readFrame.
  rewrite (proj2 (Z.eqb_neq _ _)), (proj2 (Z.ltb_ge _ _)) by lia. cbn [orb].
  rewrite read_full_app. cbn [app put_u32]. rewrite get_put_u32 by lia.
  rewrite (proj2 (Z.ltb_ge _ _)) by (unfold TransferBlockSize; change (Z.shiftl 4 20) with 4194304; lia).
  rewrite read_full_app. subst path. rewrite String.string_of_list_byte_of_string. by destruct file.
Qed.

Lemma readFrame_fits n r file rest :
  0 <= n -> readFrame n r = Ok (file, rest) -> batchFits file = true /\ (length rest < length r)%nat.
Proof.
  intros Hn. unfold readFrame. destruct ((n =? 0) || (4096 <? n)) eqn:E; [done|].
  apply orb_false_iff in E as [E1%Z.eqb_neq E2%Z.ltb_ge].
  destruct (read_full n r) as [[path r1]|] eqn:Hp; [|done]. apply read_full_Some in Hp as [-> Hp]; [|done].
  destruct r1 as [|b3 [|b2 [|b1 [|b0 r2]]]]; try done. pose proof (get_u32_bounds b3 b2 b1 b0) as Hb.
  destruct (Z.ltb_spec TransferBlockSize (get_u32 b3 b2 b1 b0)) as [|Hd]; [done|].
  destruct (read_full _ r2) as [[data r3]|] eqn:Hd2; [|done]. apply read_full_Some in Hd2 as [-> Hlen]; [|lia].
  intros [= <- <-]. split.
  - unfold batchFits. cbn [BatchFile_Path BatchFile_Data]. rewrite <- (length_list_byte_of_string),
      String.list_byte_of_string_of_list_byte.
    rewrite !andb_true_iff, Z.ltb_lt, !Z.leb_le. lia.
  - rewrite !length_app. cbn. rewrite length_app. lia.
Qed.

Lemma readFrames_written files out fuel rest bytes :
  WriteFileBatch files = (bytes, Ok tt) -> (length out + length files <= SmallFileBatchCount)%nat ->
  (length files < fuel)%nat ->
  readFrames fuel out (bytes ++ rest) = readFrames (fuel - length files) (out ++ files) rest.
Proof.
  revert out fuel bytes. induction files as [|file files IH]; intros out fuel bytes Hw Hc Hf.
  - injection Hw as <-. cbn [length]. by rewrite Nat.sub_0_r, app_nil_r.
  - cbn [WriteFileBatch] in Hw. destruct (batchFits file) eqn:Hfit; [|done].
    destruct (WriteFileBatch files) as [more r]. apply pair_equal_spec in Hw as [<- ->].
    destruct fuel as [|fuel]; [lia|]. rewrite <- app_assoc.
    destruct (readFrame_frame file (more ++ rest) Hfit) as (b3 & b2 & b1 & b0 & body & -> & Hr).
    cbn [readFrames]. rewrite Hr. cbn [length] in *.
    rewrite (proj2 (Nat.ltb_ge _ _)) by (rewrite length_app; cbn; lia).
    rewrite (IH (out ++ [file]) fuel more eq_refl); [|rewrite length_app; cbn; lia|lia].
    by rewrite <- app_assoc.
Qed.

(** Whatever the input, only files within the limits come out, and not more
    than one beyond the count. *)
Lemma readFrames_bounded fuel out r :
  Forall (fun f => batchFits f = true) out -> (length out <= SmallFileBatchCount)%nat -> (length r < fuel)%nat ->
  let '(files, err) := readFrames fuel out r in
  Forall (fun f => batchFits f = true) files /\ (length files <= S SmallFileBatchCount)%nat /\
  (err = None -> (length files <= SmallFileBatchCount)%nat).
Proof.
  revert out r. induction fuel as [|fuel IH]; intros out r Hout Hn Hf; [lia|].
  cbn [readFrames]. destruct r as [|b3 [|b2 [|b1 [|b0 r]]]]; try (split_and!; [done|lia|done]).
  destruct (readFrame _ r) as [[file rest]|e] eqn:E; [|split_and!; [done|lia|done]].
  pose proof (get_u32_bounds b3 b2 b1 b0). apply readFrame_fits in E as [Hfit Hlen]; [|lia].
  assert (Forall (fun f => batchFits f = true) (out ++ [file])) as Hout'
    by (apply Forall_app; split; [done|by constructor]).
  destruct (Nat.ltb_spec SmallFileBatchCount (length (out ++ [file]))) as [Hmany|Hok].
  - split_and!; [done|rewrite length_app; cbn; lia|done].
  - apply IH; [done|done|]. cbn in *. lia.
Qed.

Lemma WriteFileBatch_length files bytes :
  WriteFileBatch files = (bytes, Ok tt) -> (length files <= length bytes)%nat.
Proof.
  revert bytes. induction files as [|f files IH]; intros bytes; cbn [WriteFileBatch]; [intros _; apply Nat.le_0_l|].
  destruct (batchFits f); [|done]. destruct (WriteFileBatch files) as [more r]. intros [<- ->]%pair_equal_spec.
  specialize (IH more eq_refl). rewrite length_app. cbn [length].
  assert (1 <= length (frame f))%nat by (unfold frame, put_u32; cbn; lia). lia.
Qed.

Lemma WriteFileBatch_ok files :
  (exists bytes, WriteFileBatch files = (bytes, Ok tt)) <-> Forall (fun f => batchFits f = true) files.
Proof.
  induction files as [|f files IH]; cbn [WriteFileBatch]; [split; [by constructor|by eexists]|].
  rewrite Forall_cons, <- IH. destruct (batchFits f); [|split; [by intros []|by intros []]].
  destruct (WriteFileBatch files) as [more r]. split.
  - intros [b [= <- ->]]. split; [done|by eexists].
  - intros [_ [b [= <- ->]]]. by eexists.
Qed.

(** Batches round trip and are robust.  A batch is written exactly when
    every file fits its frame; what was written is read back unchanged, up to the
    count limit; and from arbitrary bytes of a peer the reader returns only files
    within the limits, never more than one beyond the count, and none beyond it
    without an error. *)
Theorem batch_roundtrip files r :
  ((exists bytes, WriteFileBatch files = (bytes, Ok tt)) <-> Forall (fun f => batchFits f = true) files) /\
  (forall bytes, WriteFileBatch files = (bytes, Ok tt) -> (length files <= SmallFileBatchCount)%nat ->
     ReadFileBatch bytes = (files, None)) /\
  (let '(out, err) := ReadFileBatch r in
   Forall (fun f => batchFits f = true) out /\ (length out <= S SmallFileBatchCount)%nat /\
   (err = None -> (length out <= SmallFileBatchCount)%nat)).
Proof.
  split_and!.
  - apply WriteFileBatch_ok.
  - intros bytes Hw Hn. unfold ReadFileBatch. pose proof (WriteFileBatch_length _ _ Hw) as Hlen.
    pose proof (readFrames_written files [] (S (length bytes)) [] bytes Hw) as H. rewrite app_nil_r in H.
    rewrite H by (cbn; lia). destruct (S (length bytes) - length files)%nat eqn:E; [lia|]. done.
  - unfold ReadFileBatch. apply readFrames_bounded; [constructor|cbn; lia|lia].
Qed.

Definition demo_batch : list BatchFile := [mkBatchFile "a" [Byte.x61]; mkBatchFile "b/c" []].

Lemma batch_roundtrip_witness : ReadFileBatch (WriteFileBatch demo_batch).1 = (demo_batch, None).
Proof.
  apply (proj1 (proj2 (batch_roundtrip demo_batch []))); [vm_compute; reflexivity|vm_compute; lia].
Defined.

(** *** Downloads touch only their target and its staged file *)

Section safety.
Context (sha256 : bytes -> bytes).

(** [d'] differs from [d] at most in the staged file and the state of [target]. *)
Record staged_only (target : list string) (d d' : disk) : Prop := {
  so_files p : p <> tmpName target -> disk_files d' !! p = disk_files d !! p;
  so_states t : t <> target -> disk_states d' !! t = disk_states d !! t
}.

#[local] Instance staged_only_preorder target : PreOrder (staged_only target).
Proof.
  split; [by intros d; split|]. intros d1 d2 d3 [F1 S1] [F2 S2]. split; intros x Hx.
  - by rewrite F2, F1.
  - by rewrite S2, S1.
Qed.

(** The staged content of an entry: the right size and hash, where known. *)
Definition matches_entry (entry : Entry) (data : bytes) : Prop :=
  (0 < Entry_Size entry -> Z.of_nat (length data) = Entry_Size entry) /\
  (Entry_SHA256 entry <> EmptyString -> equal_fold (hexsha sha256 data) (Entry_SHA256 entry) = true).

(** What installing a download leaves: verified content at the target. *)
Record installed (target : list string) (entry : Entry) (d d' : disk) : Prop := {
  in_content : exists data, disk_files d' !! target = Some data /\ matches_entry entry data;
  in_staged : disk_files d' !! tmpName target = None;
  in_files p : p <> target -> p <> tmpName target -> disk_files d' !! p = disk_files d !! p;
  in_states t : t <> target -> disk_states d' !! t = disk_states d !! t
}.

Lemma tmpName_ne target : target <> [] -> tmpName target <> target.
Proof.
  unfold tmpName, on_last. intros Hne. destruct (rev target) as [|e before] eqn:E.
  { intros <-. done. }
  apply (f_equal (@rev _)) in E. rewrite rev_involutive in E. cbn [rev] in E. subst target.
  intros H. apply app_inj_tail in H as [_ H]. rewrite <- (str_app_nil_r e) in H at 2.
  by apply str_app_inj in H.
Qed.

Lemma finishDownload_spec faults d target entry d' r :
  target <> [] -> finishDownload sha256 faults d target entry = (d', r) ->
  match r with Ok _ => installed target entry d d' | Err _ => staged_only target d d' end.
Proof.
  intros Hne. pose proof (tmpName_ne target Hne) as Htt. unfold finishDownload. cbv zeta.
  destruct (faults DlHash); [by intros [= <- <-]|].
  destruct (disk_files d !! tmpName target) as [data|] eqn:Ed; [|by intros [= <- <-]].
  destruct (Z.ltb_spec 0 (Entry_Size entry)) as [Hpos|Hpos]; cbn [andb].
  1: destruct (bool_decide_reflect (Z.of_nat (length data) <> Entry_Size entry)) as [|Hsz]; [by intros [= <- <-]|apply dec_stable in Hsz].
  all: destruct (bool_decide_reflect (Entry_SHA256 entry <> EmptyString)) as [Hsha|Hsha]; cbn [andb];
    [destruct (equal_fold (hexsha sha256 data) (Entry_SHA256 entry)) eqn:Heq; cbn [negb]|].
  all: try (intros [= <- <-]; destruct (faults DlRemoveTmp); [done|]; split; [|done];
    intros p Hp; cbn; by rewrite lookup_delete_ne).
  all: destruct (faults DlRename); [by intros [= <- <-]|]; intros [= <- <-]; split; cbn.
  all: try (intros p H1 H2; by rewrite lookup_insert_ne, lookup_delete_ne); try done.
  all: try (by rewrite lookup_insert_ne, lookup_delete_eq).
  all: exists data; split; [apply lookup_insert_eq|]; split; intros; try lia; try done.
Qed.

Lemma removeState_staged faults target d : staged_only target d (removeState faults target d).
Proof.
  unfold removeState. destruct (faults _); [done|]. split; [done|]. intros t Ht. cbn. by rewrite lookup_delete_ne.
Qed.

Lemma set_staged target d data states :
  (forall t, t <> target -> states !! t = disk_states d !! t) ->
  staged_only target d (mkDisk (<[tmpName target := data]> (disk_files d)) states).
Proof. intros Hs. split; [|done]. intros p Hp. cbn. by rewrite lookup_insert_ne. Qed.

Lemma writeVerified_staged faults d target block data :
  staged_only target d (writeVerified sha256 faults d target block data).1.
Proof.
  unfold writeVerified. destruct (hashEquals _ _ _); [|done]. destruct (faults _); [done|]. by apply set_staged.
Qed.

Lemma downloadBlock_staged faults peer target entry oldPath locals p block :
  staged_only target (pr_disk p) (pr_disk (downloadBlock sha256 faults peer target entry oldPath locals p block).1).
Proof.
  unfold downloadBlock. case_decide; [done|]. destruct (fetchBlock _ _ _ _ _ _) as [[data network]|e]; [|done].
  pose proof (writeVerified_staged faults (pr_disk p) target block data) as Hw.
  destruct (writeVerified _ _ _ _ _ _) as [d [u|e]]; cbn [fst] in Hw; [|done].
  destruct (faults _); cbn [fst pr_disk]; [done|]. etrans; [exact Hw|]. split; [done|]. intros t Ht. cbn.
  by rewrite lookup_insert_ne.
Qed.

Lemma downloadBlocks_staged faults peer target entry oldPath locals p blocks :
  staged_only target (pr_disk p) (pr_disk (downloadBlocks sha256 faults peer target entry oldPath locals p blocks).1).
Proof.
  revert p. induction blocks as [|block blocks IH]; intros p; cbn [downloadBlocks]; [done|].
  pose proof (downloadBlock_staged faults peer target entry oldPath locals p block) as Hb.
  destruct (downloadBlock _ _ _ _ _ _ _ _ _) as [p' [e|]]; cbn [fst] in *; [done|]. by etrans.
Qed.

Lemma installed_after target entry d d1 d2 : staged_only target d d1 -> installed target entry d1 d2 -> installed target entry d d2.
Proof.
  intros [F S] [C T F2 S2]. split; [done|done| |]; intros x Hx.
  - intros Hx'. rewrite F2, F by done. done.
  - by rewrite S2, S.
Qed.

Lemma installed_removeState faults target entry d d1 :
  installed target entry d d1 -> installed target entry d (removeState faults target d1).
Proof.
  intros [C T F S]. unfold removeState. destruct (faults _); [done|]. split; [done|done|done|].
  intros t Ht. cbn. rewrite lookup_delete_ne by done. by apply S.
Qed.

Lemma loadPartial_staged faults d target entry : staged_only target d (loadPartial sha256 faults d target entry).1.
Proof.
  unfold loadPartial. destruct (_ !! _); [|done]. destruct (faults _); [done|].
  destruct (_ || _); [apply removeState_staged|done].
Qed.

Lemma openStaged_staged faults d target have : staged_only target d (openStaged faults d target have).1.
Proof.
  unfold openStaged. cbv zeta. destruct (faults _); [done|]. case_decide; [destruct (faults _)|]; by apply set_staged.
Qed.

(** [entry'] is [entry], or the entry with the block list the peer delivered. *)
Lemma ensureBlocks_same peer entry entry' :
  ensureBlocks peer entry = Ok entry' ->
  Entry_Size entry' = Entry_Size entry /\ Entry_SHA256 entry' = Entry_SHA256 entry.
Proof.
  unfold ensureBlocks. destruct (Entry_Size entry =? 0), (Entry_Blocks entry); try by intros [= <-].
  intros (a & _ & H)%result_bind_ok. apply result_bind_ok in H as (u & _ & H).
  destruct (_ || _); [done|]. destruct (_ && _); [done|]. by injection H as <-.
Qed.

Lemma installed_entry target e e' d d' :
  Entry_Size e' = Entry_Size e -> Entry_SHA256 e' = Entry_SHA256 e ->
  installed target e' d d' -> installed target e d d'.
Proof. intros H1 H2 [C T F S]. split; [|done..]. unfold matches_entry in *. by rewrite H1, H2 in C. Qed.

Lemma downloadStaged_spec faults peer d target entry locals d' r :
  target <> [] -> downloadStaged sha256 faults peer d target entry locals = (d', r) ->
  match r with Ok _ => installed target entry d d' | Err _ => staged_only target d d' end.
Proof.
  intros Hne. unfold downloadStaged.
  pose proof (loadPartial_staged faults d target entry) as Hl. destruct (loadPartial _ _ _ _ _) as [d1 have]. cbn [fst] in Hl.
  pose proof (openStaged_staged faults d1 target have) as Ho.
  destruct (openStaged _ _ _ _) as [d2 [u|e]]; cbn [fst] in Ho; [|intros [= <- <-]; by etrans].
  match goal with |- context [downloadBlocks _ _ _ _ _ ?o _ ?p _] =>
    pose proof (downloadBlocks_staged faults peer target entry o locals p (Entry_Blocks entry)) as Hb end.
  destruct (downloadBlocks _ _ _ _ _ _ _ _ _) as [p [e|]]; cbn [fst pr_disk] in Hb;
    [intros [= <- <-]; by do 2 (etrans; [eassumption|])|].
  assert (staged_only target d (pr_disk p)) as Hp by (do 2 (etrans; [eassumption|]); done).
  destruct (pr_failed p); [by intros [= <- <-]|]. destruct (dl _ _ _); [|by intros [= <- <-]].
  destruct (finishDownload _ _ _ _ _) as [d3 [u'|e]] eqn:Hf;
    pose proof (finishDownload_spec _ _ _ _ _ _ Hne Hf) as Hs; intros [= <- <-].
  - apply installed_removeState. exact (installed_after _ _ _ _ _ Hp Hs).
  - etrans; [exact Hp|]. etrans; [exact Hs|]. apply removeState_staged.
Qed.

Lemma downloadFileOnce_spec faults peer d entry target locals d' r :
  target <> [] -> downloadFileOnce sha256 faults peer d entry target locals = (d', r) ->
  match r with Ok _ => installed target entry d d' | Err _ => staged_only target d d' end.
Proof.
  intros Hne. unfold downloadFileOnce. destruct (_ <? _); [by intros [= <- <-]|].
  destruct (ensureBlocks peer entry) as [entry'|e] eqn:He; [|by intros [= <- <-]].
  apply ensureBlocks_same in He as [H1 H2]. destruct (dl _ _ _); [|by intros [= <- <-]].
  destruct (Entry_Size entry' =? 0).
  - unfold downloadEmpty. destruct (dl _ _ _); [|by intros [= <- <-]].
    match goal with |- context [finishDownload _ _ ?d0 _ _] => assert (staged_only target d d0) as Hd by by apply set_staged end.
    destruct (finishDownload _ _ _ _ _) as [d3 [u'|e]] eqn:Hf;
      pose proof (finishDownload_spec _ _ _ _ _ _ Hne Hf) as Hs; intros [= <- <-].
    + apply installed_removeState. apply (installed_entry target entry entry'); [done..|]. exact (installed_after _ _ _ _ _ Hd Hs).
    + etrans; [exact Hd|exact Hs].
  - destruct (validateBlocks entry'); [|by intros [= <- <-]]. intros Hs.
    pose proof (downloadStaged_spec _ _ _ _ _ _ _ _ Hne Hs) as H. destruct r; [|done]. by apply (installed_entry target entry entry').
Qed.

Lemma downloadAttempts_spec attempts d entry target locals last d' r :
  target <> [] -> downloadAttempts sha256 attempts d entry target locals last = (d', r) ->
  match r with Ok _ => installed target entry d d' | Err _ => staged_only target d d' end.
Proof.
  intros Hne. revert d last. induction attempts as [|[peer faults] attempts IH]; intros d last; cbn [downloadAttempts].
  - by intros [= <- <-].
  - destruct (downloadFileOnce _ _ _ _ _ _ _) as [d1 [u|e]] eqn:E;
      pose proof (downloadFileOnce_spec _ _ _ _ _ _ _ _ Hne E) as H; [by intros [= <- <-]|].
    intros Ha. apply IH in Ha. destruct r; [exact (installed_after _ _ _ _ _ H Ha)|etrans; [exact H|exact Ha]].
Qed.

(** [C17] Downloads are atomic and verified.  Whatever the peer sends and whatever
    fails, in any number of attempts: if a download succeeds, the target holds
    content of the entry's size and hash; if not, the target is what it was; and
    no other file and no other download's state is touched. *)
Theorem download_verified env d entry target locals d' r :
  target <> [] -> downloadFile sha256 env d entry target locals = (d', r) ->
  (forall p, p <> target -> p <> tmpName target -> disk_files d' !! p = disk_files d !! p) /\
  (forall t, t <> target -> disk_states d' !! t = disk_states d !! t) /\
  match r with
  | Ok _ => disk_files d' !! tmpName target = None /\ exists data, disk_files d' !! target = Some data /\
      (0 < Entry_Size entry -> Z.of_nat (length data) = Entry_Size entry) /\
      (Entry_SHA256 entry <> EmptyString -> equal_fold (hexsha sha256 data) (Entry_SHA256 entry) = true)
  | Err _ => disk_files d' !! target = disk_files d !! target
  end.
Proof.
  intros Hne H. apply downloadAttempts_spec in H; [|done]. destruct r as [u|e].
  - destruct H as [(data & Hd & H1 & H2) T F S]. split; [exact F|]. split; [exact S|]. split; [done|]. by exists data.
  - destruct H as [F S]. split; [intros p _ Hp; by apply F|]. split; [exact S|].
    apply F. intros E. exact (tmpName_ne target Hne (eq_sym E)).
Qed.
(** *** A whole set of transfers *)

Definition holds_entry (d : disk) (job : transferJob) : Prop :=
  exists data, disk_files d !! job_target job = Some data /\ matches_entry (job_entry job) data.

(** Targets are apart from each other and from the staged files. *)
Record separate (jobs : list transferJob) : Prop := {
  sep_nodup : NoDup (job_target <$> jobs);
  sep_nonempty job : job ∈ jobs -> job_target job <> [];
  sep_staged job job' : job ∈ jobs -> job' ∈ jobs -> tmpName (job_target job) <> job_target job'
}.

#[local] Instance separate_proper : Proper ((≡ₚ) ==> iff) separate.
Proof.
  intros js js' E. split; intros [H1 H2 H3]; split; [by rewrite <- E| | |by rewrite E| |]; intros *.
  1,2: rewrite <- E; auto. all: rewrite E; auto.
Qed.

(** [jobs] are the [done] ones, whose targets hold their entries, and those
    [todo], whose targets are as they were in [d0]; nothing else has changed. *)
Record transferring (d0 : disk) (done todo : list transferJob) (d : disk) : Prop := {
  tr_separate : separate (done ++ todo);
  tr_done job : job ∈ done -> holds_entry d job;
  tr_todo job : job ∈ todo -> disk_files d !! job_target job = disk_files d0 !! job_target job;
  tr_others p : (forall job, job ∈ done ++ todo -> p <> job_target job /\ p <> tmpName (job_target job)) ->
    disk_files d !! p = disk_files d0 !! p
}.

#[local] Instance transferring_proper d0 done : Proper ((≡ₚ) ==> eq ==> iff) (transferring d0 done).
Proof.
  intros t t' E d ? <-. split; intros [H1 H2 H3 H4]; split; try done.
  - by rewrite <- E.
  - intros job. rewrite <- E. apply H3.
  - intros p Hp. apply H4. intros job. rewrite E. apply Hp.
  - by rewrite E.
  - intros job. rewrite E. apply H3.
  - intros p Hp. apply H4. intros job. rewrite <- E. apply Hp.
Qed.

Lemma transferring_staged d0 done todo job d d' :
  transferring d0 done todo d -> job ∈ todo -> staged_only (job_target job) d d' -> transferring d0 done todo d'.
Proof.
  intros [H1 H2 H3 H4] Hj [F _]. split; [done| | |].
  - intros j Hjd. destruct (H2 j Hjd) as (data & Hd & Hm). exists data. split; [|done]. rewrite F; [done|].
    intros E. apply (sep_staged _ H1 job j); [set_solver..|done].
  - intros j Hjt. rewrite F; [by apply H3|]. intros E. apply (sep_staged _ H1 job j); [set_solver..|done].
  - intros p Hp. rewrite F; [by apply H4|]. apply Hp. set_solver.
Qed.

Lemma transferring_installed d0 done todo job d d' :
  transferring d0 done (job :: todo) d -> installed (job_target job) (job_entry job) d d' ->
  transferring d0 (done ++ [job]) todo d'.
Proof.
  intros [H1 H2 H3 H4] [(data & Hd & Hm) _ F _].
  assert (forall j, j ∈ done ++ todo -> job_target j <> job_target job) as Hne.
  { intros j Hj E. pose proof (sep_nodup _ H1) as Hn. rewrite <- Permutation_middle in Hn.
    apply NoDup_cons in Hn as [Hn _]. apply Hn. rewrite <- E. by apply list_elem_of_fmap_2. }
  assert (forall j, j ∈ done ++ todo -> job_target j <> tmpName (job_target job)) as Hnt.
  { intros j Hj E. apply (sep_staged _ H1 job j); [set_solver..|done]. }
  split.
  - by rewrite <- app_assoc.
  - intros j [Hj| ->%list_elem_of_singleton]%elem_of_app; [|by exists data].
    destruct (H2 j Hj) as (data' & Hd' & Hm'). exists data'. split; [|done].
    rewrite F; [done|apply Hne|apply Hnt]; set_solver.
  - intros j Hj. rewrite F; [apply H3; set_solver|apply Hne|apply Hnt]; set_solver.
  - intros p Hp. rewrite F by (apply Hp; set_solver). apply H4. intros j Hj. apply Hp. set_solver.
Qed.

(** A phase whose jobs still to come are [pending]. *)
Definition phase_ok (d0 : disk) (jobs pending : list transferJob) (ph : phase) : Prop :=
  exists done, ph_applied ph = job_entry <$> done /\ jobs ≡ₚ done ++ ph_rest ph ++ pending /\
    transferring d0 done (ph_rest ph ++ pending) (ph_disk ph).

Lemma phase_ok_left d0 jobs pending ph job d failed :
  phase_ok d0 jobs (job :: pending) ph -> staged_only (job_target job) (ph_disk ph) d ->
  phase_ok d0 jobs pending (mkPhase d (ph_applied ph) (ph_rest ph ++ [job]) failed).
Proof.
  intros (done & Ha & Hp & Ht) Hs. exists done. cbn [ph_applied ph_rest ph_disk].
  rewrite <- app_assoc. cbn [app]. split_and!; [done|done|].
  apply (transferring_staged d0 done _ job (ph_disk ph)); [done|set_solver|done].
Qed.

Lemma phase_ok_applied d0 jobs pending ph job d failed :
  phase_ok d0 jobs (job :: pending) ph -> installed (job_target job) (job_entry job) (ph_disk ph) d ->
  phase_ok d0 jobs pending (mkPhase d (ph_applied ph ++ [job_entry job]) (ph_rest ph) failed).
Proof.
  intros (done & Ha & Hp & Ht) Hs. exists (done ++ [job]). cbn [ph_applied ph_rest ph_disk].
  split_and!; [by rewrite Ha, fmap_app|rewrite Hp; solve_Permutation|].
  rewrite <- Permutation_middle in Ht. by apply (transferring_installed d0 done _ job (ph_disk ph)).
Qed.

Lemma phase_ok_target d0 jobs pending ph job : phase_ok d0 jobs (job :: pending) ph -> job_target job <> [].
Proof. intros (done & _ & _ & Ht). apply (sep_nonempty _ (tr_separate _ _ _ _ Ht)). set_solver. Qed.

Lemma writeSmallFile_spec faults d target entry body d' r :
  target <> [] -> writeSmallFile sha256 faults d target entry body = (d', r) ->
  match r with Ok _ => installed target entry d d' | Err _ => staged_only target d d' end.
Proof.
  intros Hne. unfold writeSmallFile. destruct (dl _ _ _); [|by intros [= <- <-]]. destruct (dl _ _ _); [|by intros [= <- <-]].
  intros Hf. apply finishDownload_spec in Hf; [|done]. destruct r.
  - eapply installed_after; [|exact Hf]. by apply set_staged.
  - etrans; [|exact Hf]. by apply set_staged.
Qed.

Lemma applyBody_ok d0 jobs pending faults bodies ph job :
  phase_ok d0 jobs (job :: pending) ph -> phase_ok d0 jobs pending (applyBody sha256 faults bodies ph job).
Proof.
  intros H. pose proof (phase_ok_target _ _ _ _ _ H) as Hne. unfold applyBody. cbv zeta.
  destruct (bodies !! _); [|by apply phase_ok_left]. destruct (Entry_Blocks _); [by apply phase_ok_left|].
  destruct (_ && _); [|by apply phase_ok_left].
  destruct (writeSmallFile _ _ _ _ _ _) as [d [u|e]] eqn:Hw; pose proof (writeSmallFile_spec _ _ _ _ _ _ _ Hne Hw) as Hs.
  - by apply phase_ok_applied.
  - by apply phase_ok_left.
Qed.

Lemma applyDownload_ok d0 jobs pending env locals ph job :
  phase_ok d0 jobs (job :: pending) ph -> phase_ok d0 jobs pending (applyDownload sha256 env locals ph job).
Proof.
  intros H. pose proof (phase_ok_target _ _ _ _ _ H) as Hne. unfold applyDownload.
  destruct (downloadFile _ _ _ _ _ _) as [d [u|e]] eqn:Hw; pose proof (downloadAttempts_spec _ _ _ _ _ _ _ _ Hne Hw) as Hs.
  - by apply phase_ok_applied.
  - by apply phase_ok_left.
Qed.

Lemma phase_ok_fold d0 jobs (f : phase -> transferJob -> phase) todo pending ph :
  (forall ph job rest, phase_ok d0 jobs (job :: rest) ph -> phase_ok d0 jobs rest (f ph job)) ->
  phase_ok d0 jobs (todo ++ pending) ph -> phase_ok d0 jobs pending (foldl f ph todo).
Proof. intros Hf. revert ph. induction todo as [|job todo IH]; intros ph H; cbn; [done|]. apply IH. by apply Hf. Qed.

Lemma applyChunks_ok fuel k raw faults d0 jobs ph small :
  (length small <= fuel)%nat -> phase_ok d0 jobs small ph -> phase_ok d0 jobs [] (applyChunks sha256 fuel k raw faults ph small).
Proof.
  revert k ph small. induction fuel as [|fuel IH]; intros k ph small Hf H; cbn [applyChunks].
  { destruct small; [done|cbn in Hf; lia]. }
  destruct small as [|job small]; [done|]. set (js := job :: small) in *.
  apply IH; [rewrite length_drop; subst js; cbn [length] in *; unfold SmallFileBatchCount; lia|].
  rewrite <- (take_drop SmallFileBatchCount js) in H. destruct (batchBodies _ _) as [bodies|].
  - apply (phase_ok_fold d0 jobs); [|done]. intros. by apply applyBody_ok.
  - destruct H as (done & Ha & Hp & Ht). exists done. cbn [ph_applied ph_rest ph_disk]. by rewrite <- app_assoc.
Qed.

Lemma filter_partition {A} (f : A -> bool) l : l ≡ₚ List.filter f l ++ List.filter (fun x => negb (f x)) l.
Proof.
  induction l as [|x l IH]; cbn; [done|]. destruct (f x); cbn; [by f_equiv|].
  rewrite <- Permutation_middle. by f_equiv.
Qed.

Lemma applySmallBatches_ok raw faults d jobs :
  separate jobs -> phase_ok d jobs [] (applySmallBatches sha256 raw faults d jobs).
Proof.
  intros Hs. unfold applySmallBatches. cbv zeta. destruct (_ <? 2)%nat.
  - exists []. cbn. rewrite app_nil_r. split_and!; [done..|]. by split; try set_solver.
  - apply applyChunks_ok; [done|]. exists []. cbn. split_and!; [done|by rewrite (Permutation_app_comm _ (List.filter _ _)), <- filter_partition|].
    rewrite (Permutation_app_comm _ (List.filter _ _)), <- filter_partition. by split; try set_solver.
Qed.

Lemma applyDownload_failed env locals ph jobs :
  (ph_rest ph <> [] -> ph_failed ph = true) ->
  ph_rest (foldl (applyDownload sha256 env locals) ph jobs) <> [] ->
  ph_failed (foldl (applyDownload sha256 env locals) ph jobs) = true.
Proof.
  revert ph. induction jobs as [|job jobs IH]; intros ph H; cbn; [done|]. apply IH. unfold applyDownload.
  by destruct (downloadFile _ _ _ _ _ _) as [d [u|e]].
Qed.

(** What a set of transfers leaves, whatever the peer answers, whichever calls
    fail and in whatever order the workers finish. *)
Lemma transferJobs_ok env locals d jobs :
  (forall js, env_order env js ≡ₚ js) -> separate jobs ->
  let ph := transferJobs sha256 env locals d jobs in
  phase_ok d jobs [] ph /\ (ph_failed ph = false -> ph_rest ph = []).
Proof.
  intros Ho Hs. cbv zeta. unfold transferJobs. cbv zeta. split.
  - apply (phase_ok_fold d jobs); [intros; by apply applyDownload_ok|]. rewrite app_nil_r.
    destruct (applySmallBatches_ok (env_batch env) (env_batchFaults env) d jobs Hs) as (done & Ha & Hp & Ht).
    exists done. cbn [ph_applied ph_rest ph_disk]. rewrite app_nil_r in Hp, Ht. cbn [app]. by rewrite Ho.
  - intros Hf. destruct (decide (ph_rest (foldl (applyDownload sha256 (env_download env) locals)
      (mkPhase (ph_disk (applySmallBatches sha256 (env_batch env) (env_batchFaults env) d jobs))
        (ph_applied (applySmallBatches sha256 (env_batch env) (env_batchFaults env) d jobs)) []
        (ph_failed (applySmallBatches sha256 (env_batch env) (env_batchFaults env) d jobs)))
      (env_order env (ph_rest (applySmallBatches sha256 (env_batch env) (env_batchFaults env) d jobs)))) = [])) as [|Hne]; [done|].
    apply applyDownload_failed in Hne; [congruence|]. by cbn.
Qed.
End safety.

(** *** A concrete download *)

Definition demo_sha (data : bytes) : bytes := repeat Byte.x61 31 ++ take 1 (rev data ++ [Byte.x00]).
Definition demo_data : bytes := [Byte.x61; Byte.x62; Byte.x63].
Definition demo_entry : Entry :=
  mkEntry "d/a" (hexsha demo_sha demo_data) 3 false 1 "n" [mkFileBlock 0 0 3 (hexsha demo_sha demo_data)] 0.

(** The first attempt is answered with the wrong bytes, the second honestly. *)
Definition demo_peer (attempt : nat) : peerAnswers * (dlCall -> bool) :=
  (mkPeerAnswers (Err ErrPeer) (fun _ => Ok (match attempt with O => [Byte.x00] | _ => demo_data end))
     (fun _ => Err ErrPeer) (fun _ _ => Err ErrPeer), fun _ => false).

Definition demo_disk : disk := mkDisk {[["r"; "d"; "a"] := [Byte.x7a]; ["r"; "b"] := [Byte.x62]]} ∅.
Definition demo_download : disk * result TransferErr (Z * Z) :=
  downloadFile demo_sha demo_peer demo_disk demo_entry ["r"; "d"; "a"] ∅.

Lemma download_verified_witness :
  demo_download.2 = Ok (1, 0) /\
  disk_files demo_download.1 !! ["r"; "b"] = disk_files demo_disk !! ["r"; "b"] /\
  disk_files demo_download.1 !! ["r"; "d"; "a"] = Some demo_data.
Proof.
  assert (demo_download.2 = Ok (1, 0)) as E by (vm_compute; reflexivity).
  destruct (download_verified demo_sha demo_peer demo_disk demo_entry ["r"; "d"; "a"] ∅ _ _
    ltac:(discriminate) (surjective_pairing demo_download)) as (F & _ & _).
  split; [exact E|]. split; [apply F; discriminate|vm_compute; reflexivity].
Defined.
