(* ===== verification/GoNet.v ===== *)
(** * Addresses and durations: the parts of Go's net and time packages in use

    [net.ParseIP], [net.ParseCIDR], [IPNet.Contains], [net.SplitHostPort] and
    [time.ParseDuration], as the standard library of Go 1.22 and later defines
    them.  An address is its sixteen bytes; an IPv4 address is mapped below
    [::ffff:0:0/96], as [net.IP] does. *)

From S2P Require Import Prelude GoStd.
From Stdlib Require Import Ascii.

Local Open Scope Z_scope.

(** ** Characters *)

Definition digit_val (c : ascii) : option Z :=
  let n := Z.of_N (N_of_ascii c) in if (48 <=? n) && (n <=? 57) then Some (n - 48) else None.

Definition hex_val (c : ascii) : option Z :=
  let n := Z.of_N (N_of_ascii c) in
  if (48 <=? n) && (n <=? 57) then Some (n - 48)
  else if (97 <=? n) && (n <=? 102) then Some (n - 87)
  else if (65 <=? n) && (n <=? 70) then Some (n - 55)
  else None.

Fixpoint index_char (c : ascii) (s : string) : option nat :=
  match s with
  | EmptyString => None
  | String d s' => if bool_decide (c = d) then Some O else S <$> index_char c s'
  end.

(** [strings.LastIndexByte] *)
Fixpoint last_index_char (c : ascii) (s : string) : option nat :=
  match s with
  | EmptyString => None
  | String d s' =>
      match last_index_char c s' with
      | Some i => Some (S i)
      | None => if bool_decide (c = d) then Some O else None
      end
  end.

(** ** net.ParseIP *)

Definition ip := list Z.

(** One field of an IPv4 address: at most 255, no leading zero. *)
Fixpoint octet (digits : nat) (acc : Z) (s : string) : option Z :=
  match s with
  | EmptyString => if (digits =? 0)%nat then None else Some acc
  | String c s' =>
      match digit_val c with
      | None => None
      | Some d =>
          if (digits =? 1)%nat && (acc =? 0) then None
          else let acc' := acc * 10 + d in if 255 <? acc' then None else octet (S digits) acc' s'
      end
  end.

Definition parseIPv4Fields (s : string) : option (list Z) :=
  match split_on "."%char s with
  | [a; b; c; d] =>
      w ← octet 0 0 a; x ← octet 0 0 b; y ← octet 0 0 c; z ← octet 0 0 d; Some [w; x; y; z]
  | _ => None
  end.

(** The hexadecimal digits at the front of [s], at most four: their value, their
    number and the rest. *)
Fixpoint hex_group (off : nat) (acc : Z) (s : string) : option (Z * nat * string) :=
  match s with
  | EmptyString => Some (acc, off, s)
  | String c s' =>
      match hex_val c with
      | None => Some (acc, off, s)
      | Some d => if (3 <? off)%nat then None else hex_group (S off) (acc * 16 + d) s'
      end
  end.

(** The bytes read so far, the place of the [::], and the rest of the input. *)
Fixpoint ipv6_groups (fuel : nat) (out : list Z) (ellipsis : option nat) (s : string)
    : option (list Z * option nat * string) :=
  match fuel with
  | O => Some (out, ellipsis, s)
  | S fuel' =>
      match hex_group 0 0 s with
      | None => None
      | Some (_, O, _) => None
      | Some (acc, _, String "." _) =>
          if bool_decide (ellipsis = None) && negb (length out =? 12)%nat then None
          else if (16 <? length out + 4)%nat then None
          else v4 ← parseIPv4Fields s; Some (out ++ v4, ellipsis, EmptyString)
      | Some (acc, _, rest) =>
          let out' := out ++ [acc / 256; acc mod 256] in
          match rest with
          | EmptyString => Some (out', ellipsis, EmptyString)
          | String ":" EmptyString => None
          | String ":" (String ":" rest') =>
              match ellipsis, rest' with
              | Some _, _ => None
              | None, EmptyString => Some (out', Some (length out'), EmptyString)
              | None, _ => ipv6_groups fuel' out' (Some (length out')) rest'
              end
          | String ":" rest' => ipv6_groups fuel' out' ellipsis rest'
          | _ => None
          end
      end
  end.

Definition ipv6_finish (r : list Z * option nat * string) : option ip :=
  let '(out, ellipsis, rest) := r in
  match rest, ellipsis with
  | String _ _, _ => None
  | EmptyString, None => if (length out =? 16)%nat then Some out else None
  | EmptyString, Some at_ =>
      if (length out <? 16)%nat then Some (take at_ out ++ replicate (16 - length out) 0 ++ drop at_ out) else None
  end.

Definition parseIPv6 (s : string) : option ip :=
  match s with
  | String ":" (String ":" EmptyString) => Some (replicate 16 0)
  | String ":" (String ":" s') => ipv6_groups 8 [] (Some 0%nat) s' ≫= ipv6_finish
  | _ => ipv6_groups 8 [] None s ≫= ipv6_finish
  end.

Definition v4_mapped (v4 : list Z) : ip := replicate 10 0 ++ [255; 255] ++ v4.

(** The first of [.], [:] and [%] decides the family; an address with a zone is
    refused. *)
Fixpoint ip_family (s : string) : option ascii :=
  match s with
  | EmptyString => None
  | String c s' => if bool_decide (c = "."%char \/ c = ":"%char \/ c = "%"%char) then Some c else ip_family s'
  end.

Definition ParseIP (s : string) : option ip :=
  match ip_family s with
  | Some "."%char => v4_mapped <$> parseIPv4Fields s
  | Some ":"%char => if contains_char s "%" then None else parseIPv6 s
  | _ => None
  end.

(** [IP.To4] *)
Definition To4 (a : ip) : option (list Z) :=
  if bool_decide (take 12 a = v4_mapped []) then Some (drop 12 a) else None.

Definition IsLoopback (a : ip) : bool :=
  match To4 a with
  | Some v4 => bool_decide (head v4 = Some 127)
  | None => bool_decide (a = replicate 15 0 ++ [1])
  end.

(** [IP.IsPrivate]: RFC 1918 and RFC 4193. *)
Definition IsPrivate (a : ip) : bool :=
  match To4 a with
  | Some (w :: x :: _) => (w =? 10) || ((w =? 172) && (Z.land x 240 =? 16)) || ((w =? 192) && (x =? 168))
  | Some _ => false
  | None => match a with w :: _ => Z.land w 254 =? 252 | [] => false end
  end.

(** [IP.IsLinkLocalUnicast] *)
Definition IsLinkLocalUnicast (a : ip) : bool :=
  match To4 a with
  | Some (w :: x :: _) => (w =? 169) && (x =? 254)
  | Some _ => false
  | None => match a with w :: x :: _ => (w =? 254) && (Z.land x 192 =? 128) | _ => false end
  end.

(** ** net.ParseCIDR *)

(** [dtoi]: at least one digit, below 0xFFFFFF, and nothing else. *)
Fixpoint dtoi (n : Z) (s : string) : option Z :=
  match s with
  | EmptyString => Some n
  | String c s' =>
      d ← digit_val c;
      let n' := n * 10 + d in if 16777215 <=? n' then None else dtoi n' s'
  end.

Record IPNet := mkIPNet { IPNet_IP : list Z; IPNet_Mask : list Z }.

Definition mask_byte (ones : Z) : Z := if 8 <=? ones then 255 else if ones <=? 0 then 0 else 256 - 2 ^ (8 - ones).

(** [CIDRMask(ones, 8 * len)] *)
Definition CIDRMask (ones : Z) (len : nat) : list Z :=
  (fun i => mask_byte (ones - 8 * Z.of_nat i)) <$> seq 0 len.

Definition land_all (a b : list Z) : list Z := zip_with Z.land a b.

Definition ParseCIDR (s : string) : option IPNet :=
  match index_char slash s with
  | None => None
  | Some i =>
      let addr := take_str i s in
      match ip_family addr, ParseIP addr, drop_str (S i) s with
      | Some fam, Some a, String _ _ as mask =>
          n ← dtoi 0 mask;
          let bytes := if bool_decide (fam = "."%char) then drop 12 a else a in
          if 8 * Z.of_nat (length bytes) <? n then None
          else let m := CIDRMask n (length bytes) in Some (mkIPNet (land_all bytes m) m)
      | _, _, _ => None
      end
  end.

(** [IPNet.Contains]: an IPv4-mapped network compares as IPv4. *)
Definition Contains (n : IPNet) (a : ip) : bool :=
  let mapped := (length (IPNet_IP n) =? 16)%nat && bool_decide (take 12 (IPNet_IP n) = v4_mapped []) in
  let nn := if mapped then drop 12 (IPNet_IP n) else IPNet_IP n in
  let m := if mapped then drop 12 (IPNet_Mask n) else IPNet_Mask n in
  let x := default a (To4 a) in
  (length x =? length nn)%nat && bool_decide (land_all nn m = land_all x m).

(** ** net.SplitHostPort *)

(** No opening bracket past [j], no closing one past [k]. *)
Definition brackets_ok (s : string) (j k : nat) : bool :=
  negb (contains_char (drop_str j s) "[") && negb (contains_char (drop_str k s) "]").

Definition SplitHostPort (s : string) : option (string * string) :=
  match last_index_char ":"%char s with
  | None => None
  | Some i =>
      let port := drop_str (S i) s in
      match s with
      | String "[" s' =>
          match index_char "]"%char s with
          | None => None
          | Some end_ =>
              if (S end_ =? i)%nat && brackets_ok s 1 (S end_) then Some (take_str (end_ - 1) s', port) else None
          end
      | _ =>
          let host := take_str i s in
          if negb (contains_char host ":") && brackets_ok s 0 0 then Some (host, port) else None
      end
  end.

(** ** time.ParseDuration *)

Section durations.
(** [uint64(float64(f) * (float64(unit) / scale))]: float64 arithmetic on the
    digits after a decimal point is not modelled. *)
Context (float_fraction : Z -> Z -> Z -> Z).

Definition maxMagnitude : Z := 2 ^ 63.

(** The number at the front of [s], unless it overflows, and the rest. *)
Fixpoint leadingInt (x : Z) (s : string) : option (Z * string) :=
  match s with
  | EmptyString => Some (x, s)
  | String c s' =>
      match digit_val c with
      | None => Some (x, s)
      | Some d =>
          if maxMagnitude / 10 <? x then None
          else let x' := x * 10 + d in if maxMagnitude <? x' then None else leadingInt x' s'
      end
  end.

(** Digits that no longer fit are skipped. *)
Fixpoint leadingFraction (x scale : Z) (overflow : bool) (s : string) : Z * Z * string :=
  match s with
  | EmptyString => (x, scale, s)
  | String c s' =>
      match digit_val c with
      | None => (x, scale, s)
      | Some d =>
          if overflow || ((maxMagnitude - 1) / 10 <? x) || (maxMagnitude <? x * 10 + d)
          then leadingFraction x scale true s'
          else leadingFraction (x * 10 + d) (scale * 10) false s'
      end
  end.

Fixpoint leadingUnit (s : string) : string * string :=
  match s with
  | EmptyString => (EmptyString, s)
  | String c s' =>
      if bool_decide (c = "."%char) || bool_decide (is_Some (digit_val c)) then (EmptyString, s)
      else let '(u, rest) := leadingUnit s' in (String c u, rest)
  end.

(** [µs] is accepted in both of its UTF-8 spellings. *)
Definition micro_sign : string := String "194" (String "181" EmptyString).
Definition greek_mu : string := String "206" (String "188" EmptyString).

Definition unitMap (u : string) : option Z :=
  if bool_decide (u = "ns") then Some 1
  else if bool_decide (u = "us" \/ u = micro_sign +:+ "s" \/ u = greek_mu +:+ "s") then Some 1000
  else if bool_decide (u = "ms") then Some 1000000
  else if bool_decide (u = "s") then Some 1000000000
  else if bool_decide (u = "m") then Some 60000000000
  else if bool_decide (u = "h") then Some 3600000000000
  else None.

(** One number with its unit: the nanoseconds and the rest of the input. *)
Definition durationPart (s : string) : option (Z * string) :=
  '(v, s1) ← leadingInt 0 s;
  let pre := negb (String.length s1 =? String.length s)%nat in
  let '(f, scale, s2, post) :=
    match s1 with
    | String "." s' =>
        let '(f, scale, rest) := leadingFraction 0 1 false s' in
        (f, scale, rest, negb (String.length rest =? String.length s')%nat)
    | _ => (0, 1, s1, false)
    end in
  if negb pre && negb post then None
  else
    let '(u, rest) := leadingUnit s2 in
    unit ← unitMap u;
    if maxMagnitude / unit <? v then None
    else
      let v' := v * unit + (if 0 <? f then float_fraction f unit scale else 0) in
      if maxMagnitude <? v' then None else Some (v', rest).

Fixpoint durationParts (fuel : nat) (d : Z) (s : string) : option Z :=
  match fuel, s with
  | _, EmptyString => Some d
  | O, _ => None
  | S fuel', _ =>
      '(v, rest) ← durationPart s;
      let d' := d + v in if maxMagnitude <? d' then None else durationParts fuel' d' rest
  end.

Definition ParseDuration (s : string) : option Z :=
  let '(neg, body) :=
    match s with
    | String "-" s' => (true, s')
    | String "+" s' => (false, s')
    | _ => (false, s)
    end in
  if bool_decide (body = "0") then Some 0
  else if bool_decide (body = EmptyString) then None
  else
    d ← durationParts (String.length body) 0 body;
    if neg then Some (- d) else if maxMagnitude - 1 <? d then None else Some d.
End durations.

(** ** Examples *)

Example parse_ip_examples :
  ParseIP "127.0.0.1" = Some (v4_mapped [127; 0; 0; 1]) /\ ParseIP "127.0.0.01" = None /\
  ParseIP "::1" = Some (replicate 15 0 ++ [1]) /\ ParseIP "::ffff:1.2.3.4" = Some (v4_mapped [1; 2; 3; 4]) /\
  ParseIP "fe80::1%eth0" = None /\ ParseIP "1:2:3:4:5:6:7:8:9" = None.
Proof. by vm_compute. Qed.

Example parse_other_examples :
  (fun n => Contains n (v4_mapped [10; 1; 2; 3])) <$> ParseCIDR "10.0.0.0/8" = Some true /\
  ParseCIDR "10.0.0.0/33" = None /\
  SplitHostPort "[::1]:80" = Some ("::1", "80") /\ SplitHostPort "a:b:80" = None /\
  ParseDuration (fun _ _ _ => 0) "1h30m" = Some 5400000000000 /\ ParseDuration (fun _ _ _ => 0) "5" = None.
Proof. by vm_compute. Qed.
