(* ===== verification/Config.v ===== *)
(** * Configuration: the document and its validation

    Models [internal/config/config.go]: the configuration a daemon loads, the
    defaults [Validate] fills in and the checks it makes, and the transfer limits
    two peers end up with.

    A document is the decoded [Config]; whether it spelled out a folder's
    [enabled] or an encryption level is in the [Set] fields, as in the code.
    Validation that fails leaves its argument partly filled in, which every caller
    drops; the model returns the filled-in document only on success. *)

From S2P Require Import Prelude GoStd GoNet.
From Stdlib Require Import Ascii.

Local Open Scope Z_scope.

(** ** The document *)

Record APIEncryptionConfig := mkAPIEncryptionConfig {
  APIEncryptionConfig_Mode : string;
  APIEncryptionConfig_CertFile : string;
  APIEncryptionConfig_KeyFile : string;
  APIEncryptionConfig_TrustedCertificateSHA256 : string
}.

Record APIConfig := mkAPIConfig {
  APIConfig_Listen : string;
  APIConfig_Key : string;
  APIConfig_AdvertiseURL : string;
  APIConfig_Encryption : APIEncryptionConfig
}.

Record LoggingConfig := mkLoggingConfig { LoggingConfig_Level : string; LoggingConfig_Output : string }.

Record TransferConfig := mkTransferConfig {
  TransferConfig_SendBytesPerSecond : Z;
  TransferConfig_ReceiveBytesPerSecond : Z
}.

Record BackupConfig := mkBackupConfig {
  BackupConfig_Enabled : bool;
  BackupConfig_Mode : string;
  BackupConfig_MirrorPath : string;
  BackupConfig_ArchivePath : string;
  BackupConfig_CheckpointPath : string
}.

Record WebGUIConfig := mkWebGUIConfig {
  WebGUIConfig_Enabled : bool;
  WebGUIConfig_Version : string;
  WebGUIConfig_PackagePath : string;
  WebGUIConfig_InstallDir : string;
  WebGUIConfig_Listen : string;
  WebGUIConfig_HTTPSListen : string;
  WebGUIConfig_TLSCertFile : string;
  WebGUIConfig_TLSKeyFile : string;
  WebGUIConfig_UpdateURL : string;
  WebGUIConfig_ChecksumSHA256 : string
}.

Record MaintenanceConfig := mkMaintenanceConfig {
  MaintenanceConfig_Enabled : bool;
  MaintenanceConfig_Frequency : string;
  MaintenanceConfig_IdleOnly : bool;
  MaintenanceConfig_MaxFilesPerRun : Z;
  MaintenanceConfig_MaxBytesPerRun : Z;
  MaintenanceConfig_MaxFilesPerDay : Z;
  MaintenanceConfig_MaxBytesPerDay : Z;
  MaintenanceConfig_ScrubMode : string;
  MaintenanceConfig_SampleEveryNBlocks : Z;
  MaintenanceConfig_AutoRepair : bool
}.

Record IdentityGroupConfig := mkIdentityGroupConfig {
  IdentityGroupConfig_ID : string;
  IdentityGroupConfig_Token : string;
  IdentityGroupConfig_Enabled : bool
}.

Record RevokedIdentityConfig := mkRevokedIdentityConfig {
  RevokedIdentityConfig_GroupID : string;
  RevokedIdentityConfig_DiscoveryID : string;
  RevokedIdentityConfig_BootstrapProofKeyHash : string;
  RevokedIdentityConfig_RevokedAt : Z
}.

Record IdentityConfig := mkIdentityConfig {
  IdentityConfig_PrivateKey : string;
  IdentityConfig_PublicKey : string;
  IdentityConfig_EncryptionLevel : Z;
  IdentityConfig_Groups : list IdentityGroupConfig;
  IdentityConfig_Revoked : list RevokedIdentityConfig;
  IdentityConfig_encryptionLevelSet : bool
}.

Record NATConfig := mkNATConfig {
  NATConfig_Disabled : bool;
  NATConfig_MeshHelperDisabled : bool;
  NATConfig_STUNServers : list string;
  NATConfig_RelayPeers : list string;
  NATConfig_MaxRelayReservations : Z
}.

Record PublishedPortMappingConfig := mkPublishedPortMappingConfig {
  PublishedPortMappingConfig_HostIP : string;
  PublishedPortMappingConfig_HostPort : Z;
  PublishedPortMappingConfig_ContainerIP : string;
  PublishedPortMappingConfig_ContainerPort : Z
}.

Record NetworkHintsConfig := mkNetworkHintsConfig {
  NetworkHintsConfig_LocalContainerGatewayIPs : list string;
  NetworkHintsConfig_LocalCIDRs : list string;
  NetworkHintsConfig_PublishedPortMappings : list PublishedPortMappingConfig
}.

Record DiscoveryConfig := mkDiscoveryConfig {
  DiscoveryConfig_Disabled : bool;
  DiscoveryConfig_DHT : bool;
  DiscoveryConfig_Local : bool;
  DiscoveryConfig_DHTNamespace : string;
  DiscoveryConfig_DHTBootstrapPeers : list string;
  DiscoveryConfig_PairingCodeTTL : string;
  DiscoveryConfig_NetworkHints : NetworkHintsConfig;
  DiscoveryConfig_NAT : NATConfig
}.

Record MetadataConfig := mkMetadataConfig {
  MetadataConfig_Backend : string;
  MetadataConfig_Path : string;
  MetadataConfig_PerFolder : bool
}.

Record EndpointConfig := mkEndpointConfig {
  EndpointConfig_Kind : string;
  EndpointConfig_Address : string;
  EndpointConfig_NetworkHint : string
}.

Record PeerConfig := mkPeerConfig {
  PeerConfig_ID : string;
  PeerConfig_APIKey : string;
  PeerConfig_APICertificateSHA256 : string;
  PeerConfig_IdentityPublicKey : string;
  PeerConfig_IdentityGroupID : string;
  PeerConfig_DHTPeerID : string;
  PeerConfig_Relays : list string;
  PeerConfig_EncryptionLevel : Z;
  PeerConfig_SendBytesPerSecond : Z;
  PeerConfig_ReceiveBytesPerSecond : Z;
  PeerConfig_Addresses : list string;
  PeerConfig_Endpoints : list EndpointConfig;
  PeerConfig_encryptionLevelSet : bool
}.

Record PermissionPolicy := mkPermissionPolicy {
  PermissionPolicy_Mode : string;
  PermissionPolicy_FileMode : string;
  PermissionPolicy_DirMode : string;
  PermissionPolicy_PreserveOwner : bool;
  PermissionPolicy_PreserveGroup : bool;
  PermissionPolicy_PreserveACL : bool
}.

Record FolderConfig := mkFolderConfig {
  FolderConfig_ID : string;
  FolderConfig_Path : string;
  FolderConfig_Enabled : bool;
  FolderConfig_AdvertisedBy : string;
  FolderConfig_IdentityGroup : string;
  FolderConfig_SyncGroup : string;
  FolderConfig_Mode : string;
  FolderConfig_BlockSize : Z;
  FolderConfig_SharedWith : list string;
  FolderConfig_Ignore : list string;
  FolderConfig_Permissions : PermissionPolicy;
  FolderConfig_Maintenance : MaintenanceConfig;
  FolderConfig_enabledSet : bool
}.

Record Config := mkConfig {
  Config_NodeName : string;
  Config_Listen : list string;
  Config_API : APIConfig;
  Config_Logging : LoggingConfig;
  Config_Transfer : TransferConfig;
  Config_Backup : BackupConfig;
  Config_WebGUI : WebGUIConfig;
  Config_Identity : IdentityConfig;
  Config_Discovery : DiscoveryConfig;
  Config_Metadata : MetadataConfig;
  Config_Maintenance : MaintenanceConfig;
  Config_Peers : list PeerConfig;
  Config_Folders : list FolderConfig
}.

Definition ModeSendReceive : string := "sendrecv".
Definition ModeSendOnly : string := "sendonly".
Definition ModeReceiveOnly : string := "recvonly".
Definition DefaultBlockSize : Z := 128 * 1024.

(** [SharingEnabled], [SetEnabled] *)
Definition SharingEnabled (f : FolderConfig) : bool :=
  if negb (FolderConfig_enabledSet f) && negb (FolderConfig_Enabled f) then true else FolderConfig_Enabled f.

Definition AllDisabled (d : DiscoveryConfig) : bool :=
  DiscoveryConfig_Disabled d || (negb (DiscoveryConfig_DHT d) && negb (DiscoveryConfig_Local d)).

(** ** Errors, one per message *)

Inductive ConfErr :=
| ErrRequired (what : string)
| ErrDiscoveryDisabled
| ErrInvalid (what value : string)
| ErrFingerprint
| ErrAPIFiles
| ErrAPIOffNotLoopback
| ErrNegative (what : string)
| ErrWebGUI (what : string)
| ErrPerFolderBackend
| ErrPairingCodeTTL
| ErrRange (what : string)
| ErrDuplicate (what id : string)
| ErrShortToken (group : string)
| ErrDuration (what : string)
| ErrBlockSize (folder : string)
| ErrOctal (folder what : string).

(** A check that fails with [e] when [bad]. *)
Abbreviation reject bad e := (fail_if bad e).

(** [f] applied to the elements in order, up to the first error. *)
Fixpoint each {A B E} (f : A -> result E B) (l : list A) : result E (list B) :=
  match l with
  | [] => Ok []
  | x :: l' => y ← f x; ys ← each f l'; Ok (y :: ys)
  end.

(** The same with the keys of the elements before it. *)
Fixpoint each_fresh {A B E} (key : A -> string) (f : gset string -> A -> result E B) (seen : gset string) (l : list A)
    : result E (list B) :=
  match l with
  | [] => Ok []
  | x :: l' => y ← f seen x; ys ← each_fresh key f ({[key x]} ∪ seen) l'; Ok (y :: ys)
  end.

Definition one_of (s : string) (l : list string) : bool := bool_decide (s ∈ l).

(** [if field == "" { field = default }] *)
Definition or_default (s default_ : string) : string := if bool_decide (s = EmptyString) then default_ else s.

(** ** Validation of the parts *)

Section validation.
Context (float_fraction : Z -> Z -> Z -> Z).

Definition validateLoggingConfig (cfg : LoggingConfig) : result ConfErr unit :=
  reject (negb (one_of (LoggingConfig_Level cfg) [EmptyString; "debug"; "info"; "warn"; "error"; "off"]))
    (ErrInvalid "logging.level" (LoggingConfig_Level cfg)).

Definition apiListenIsLoopback (listen : string) : bool :=
  let host := trim_brackets match SplitHostPort listen with Some (host, _) => host | None => listen end in
  if equal_fold host "localhost" then true
  else if bool_decide (host = EmptyString) then false
  else match ParseIP host with Some a => IsLoopback a | None => false end.

Definition RequiresTLS (a : APIConfig) : bool :=
  let mode := or_default (APIEncryptionConfig_Mode (APIConfig_Encryption a)) "auto" in
  if bool_decide (mode = "manual-tls") then true
  else if bool_decide (mode = "auto") then
    negb (bool_decide (APIConfig_Listen a = EmptyString)) && negb (apiListenIsLoopback (APIConfig_Listen a))
  else false.

Definition set_APIMode (mode : string) (a : APIConfig) : APIConfig :=
  let e := APIConfig_Encryption a in
  mkAPIConfig (APIConfig_Listen a) (APIConfig_Key a) (APIConfig_AdvertiseURL a)
    (mkAPIEncryptionConfig mode (APIEncryptionConfig_CertFile e) (APIEncryptionConfig_KeyFile e)
      (APIEncryptionConfig_TrustedCertificateSHA256 e)).

(** [hex.DecodeString] succeeds and gives [n] bytes. *)
Definition hex_bytes (s : string) (n : nat) : bool :=
  forallb_str (fun c => bool_decide (is_Some (hex_val c))) s && (String.length s =? 2 * n)%nat.

Definition validateAPIConfig (cfg : APIConfig) : result ConfErr APIConfig :=
  let mode := or_default (APIEncryptionConfig_Mode (APIConfig_Encryption cfg)) "auto" in
  let cfg' := set_APIMode mode cfg in
  let e := APIConfig_Encryption cfg' in
  let fp := APIEncryptionConfig_TrustedCertificateSHA256 e in
  let nocert := bool_decide (APIEncryptionConfig_CertFile e = EmptyString) in
  let nokey := bool_decide (APIEncryptionConfig_KeyFile e = EmptyString) in
  _ ← reject (negb (bool_decide (fp = EmptyString)) && (negb (hex_bytes fp 32) || negb (bool_decide (to_lower fp = fp))))
        ErrFingerprint;
  _ ← (if bool_decide (mode = "auto") then reject (RequiresTLS cfg' && negb (Bool.eqb nocert nokey)) ErrAPIFiles
       else if bool_decide (mode = "off") then
         reject (negb (bool_decide (APIConfig_Listen cfg' = EmptyString)) && negb (apiListenIsLoopback (APIConfig_Listen cfg')))
           ErrAPIOffNotLoopback
       else if bool_decide (mode = "manual-tls") then reject (nocert || nokey) ErrAPIFiles
       else Err (ErrInvalid "api.encryption.mode" mode));
  Ok cfg'.

Definition validateTransferConfig (label : string) (cfg : TransferConfig) : result ConfErr unit :=
  _ ← reject (TransferConfig_SendBytesPerSecond cfg <? 0) (ErrNegative (label +:+ ".sendBytesPerSecond"));
  reject (TransferConfig_ReceiveBytesPerSecond cfg <? 0) (ErrNegative (label +:+ ".receiveBytesPerSecond")).

Definition validateBackupConfig (cfg : BackupConfig) : result ConfErr unit :=
  reject (negb (one_of (BackupConfig_Mode cfg)
            [EmptyString; "block-archive-only"; "mirror-plus-archive"; "mirror-plus-full-archive"]))
    (ErrInvalid "backup.mode" (BackupConfig_Mode cfg)).

Definition empty (s : string) : bool := bool_decide (s = EmptyString).

Definition validateWebGUIConfig (cfg : WebGUIConfig) : result ConfErr unit :=
  if negb (WebGUIConfig_Enabled cfg) then Ok tt
  else
    _ ← reject (empty (WebGUIConfig_Version cfg)) (ErrWebGUI "version");
    _ ← reject (empty (WebGUIConfig_InstallDir cfg)) (ErrWebGUI "installDir");
    _ ← reject (empty (WebGUIConfig_PackagePath cfg) && empty (WebGUIConfig_UpdateURL cfg)) (ErrWebGUI "packagePath or updateURL");
    _ ← reject (empty (WebGUIConfig_ChecksumSHA256 cfg)) (ErrWebGUI "checksumSHA256");
    _ ← reject (negb (hex_bytes (WebGUIConfig_ChecksumSHA256 cfg) 32)) (ErrWebGUI "checksumSHA256 digest");
    _ ← reject (negb (empty (WebGUIConfig_UpdateURL cfg)) && negb (has_prefix (WebGUIConfig_UpdateURL cfg) "https://"))
          (ErrWebGUI "updateURL");
    reject (negb (Bool.eqb (empty (WebGUIConfig_TLSCertFile cfg)) (empty (WebGUIConfig_TLSKeyFile cfg))))
      (ErrWebGUI "tlsCertFile and tlsKeyFile").

Definition validateMaintenanceConfig (label : string) (cfg : MaintenanceConfig) : result ConfErr unit :=
  _ ← reject (negb (empty (MaintenanceConfig_Frequency cfg)) &&
              bool_decide (ParseDuration float_fraction (MaintenanceConfig_Frequency cfg) = None))
        (ErrDuration (label +:+ ".frequency"));
  _ ← reject (negb (one_of (MaintenanceConfig_ScrubMode cfg) [EmptyString; "light-metadata"; "sampled-blocks"; "full-blocks"]))
        (ErrInvalid (label +:+ ".scrubMode") (MaintenanceConfig_ScrubMode cfg));
  _ ← reject (MaintenanceConfig_SampleEveryNBlocks cfg <? 0) (ErrNegative (label +:+ ".sampleEveryNBlocks"));
  _ ← reject (bool_decide (MaintenanceConfig_ScrubMode cfg = "sampled-blocks") && (MaintenanceConfig_SampleEveryNBlocks cfg =? 0))
        (ErrRequired (label +:+ ".sampleEveryNBlocks"));
  _ ← reject (MaintenanceConfig_MaxFilesPerRun cfg <? 0) (ErrNegative (label +:+ ".maxFilesPerRun"));
  _ ← reject (MaintenanceConfig_MaxBytesPerRun cfg <? 0) (ErrNegative (label +:+ ".maxBytesPerRun"));
  _ ← reject (MaintenanceConfig_MaxFilesPerDay cfg <? 0) (ErrNegative (label +:+ ".maxFilesPerDay"));
  reject (MaintenanceConfig_MaxBytesPerDay cfg <? 0) (ErrNegative (label +:+ ".maxBytesPerDay")).

Definition validOctalMode (mode : string) : bool :=
  (String.length mode =? 4)%nat &&
  forallb_str (fun c => let n := N_of_ascii c in (48 <=? n) && (n <=? 55))%N mode.

Definition validatePermissionPolicy (folderID : string) (policy : PermissionPolicy) : result ConfErr PermissionPolicy :=
  let mode := or_default (PermissionPolicy_Mode policy) "ignore" in
  _ ← reject (negb (one_of mode ["ignore"; "sync"; "default"; "fixed"])) (ErrInvalid "permission mode" mode);
  _ ← reject (negb (empty (PermissionPolicy_FileMode policy)) && negb (validOctalMode (PermissionPolicy_FileMode policy)))
        (ErrOctal folderID "permissions.fileMode");
  _ ← reject (negb (empty (PermissionPolicy_DirMode policy)) && negb (validOctalMode (PermissionPolicy_DirMode policy)))
        (ErrOctal folderID "permissions.dirMode");
  Ok (mkPermissionPolicy mode (PermissionPolicy_FileMode policy) (PermissionPolicy_DirMode policy)
        (PermissionPolicy_PreserveOwner policy) (PermissionPolicy_PreserveGroup policy) (PermissionPolicy_PreserveACL policy)).

Definition validEndpointKind (kind : string) : bool := one_of kind ["manual"; "relay"; "proxy"; "vpn"; "pipe"; "sidecar"].

Definition validEndpointNetworkHint (hint : string) : bool :=
  one_of hint [EmptyString; "local"; "wan"; "vpn_overlay"; "container_bridge"].

Definition validTCPPort (port : Z) : bool := (1 <=? port) && (port <=? 65535).

Definition DefaultEncryptionLevel : Z := 4.

Definition ValidateEncryptionLevel (level : Z) : result ConfErr unit :=
  reject ((level <? 0) || (10 <? level)) (ErrRange "encryption level").

Definition PairingCodeLifetime (d : DiscoveryConfig) : result ConfErr Z :=
  let raw := trim_space (DiscoveryConfig_PairingCodeTTL d) in
  if bool_decide (raw = EmptyString) then Ok 3600000000000
  else match ParseDuration float_fraction raw with
  | None => Err ErrPairingCodeTTL
  | Some parsed => if (parsed <=? 0) || (86400000000000 <? parsed) then Err ErrPairingCodeTTL else Ok parsed
  end.

Definition validateSTUNServer (server : string) : result ConfErr unit :=
  let server := trim_space server in
  _ ← reject (empty server) (ErrRequired "discovery.nat.stunServers");
  reject (bool_decide (SplitHostPort server = None)) (ErrInvalid "discovery.nat.stunServers" server).

Definition validateNATConfig (cfg : NATConfig) : result ConfErr unit :=
  _ ← reject ((NATConfig_MaxRelayReservations cfg <? 0) || (128 <? NATConfig_MaxRelayReservations cfg))
        (ErrRange "discovery.nat.maxRelayReservations");
  _ ← each validateSTUNServer (NATConfig_STUNServers cfg);
  Ok tt.

Definition validateGatewayIP (addr : string) : result ConfErr string :=
  let trimmed := trim_space addr in
  _ ← reject (bool_decide (ParseIP trimmed = None)) (ErrInvalid "localContainerGatewayIPs" trimmed);
  Ok trimmed.

Definition validateLocalCIDR (cidr : string) : result ConfErr string :=
  let trimmed := trim_space cidr in
  _ ← reject (negb (bool_decide (is_Some (IPNet_IP <$> ParseCIDR trimmed)))) (ErrInvalid "localCIDRs" trimmed);
  Ok trimmed.

Definition validatePortMapping (m : PublishedPortMappingConfig) : result ConfErr PublishedPortMappingConfig :=
  let hostIP := trim_space (PublishedPortMappingConfig_HostIP m) in
  let containerIP := trim_space (PublishedPortMappingConfig_ContainerIP m) in
  _ ← reject (bool_decide (ParseIP hostIP = None)) (ErrInvalid "hostIP" hostIP);
  _ ← reject (negb (validTCPPort (PublishedPortMappingConfig_HostPort m))) (ErrRange "hostPort");
  _ ← reject (negb (empty containerIP) && bool_decide (ParseIP containerIP = None)) (ErrInvalid "containerIP" containerIP);
  _ ← reject (negb (PublishedPortMappingConfig_ContainerPort m =? 0) && negb (validTCPPort (PublishedPortMappingConfig_ContainerPort m)))
        (ErrRange "containerPort");
  Ok (mkPublishedPortMappingConfig hostIP (PublishedPortMappingConfig_HostPort m) containerIP
        (PublishedPortMappingConfig_ContainerPort m)).

Definition validateNetworkHints (h : NetworkHintsConfig) : result ConfErr NetworkHintsConfig :=
  ips ← each validateGatewayIP (NetworkHintsConfig_LocalContainerGatewayIPs h);
  cidrs ← each validateLocalCIDR (NetworkHintsConfig_LocalCIDRs h);
  mappings ← each validatePortMapping (NetworkHintsConfig_PublishedPortMappings h);
  Ok (mkNetworkHintsConfig ips cidrs mappings).
(** ** The whole document *)

Definition set_DHTNamespace (d : DiscoveryConfig) : DiscoveryConfig :=
  if DiscoveryConfig_DHT d && empty (DiscoveryConfig_DHTNamespace d) then
    mkDiscoveryConfig (DiscoveryConfig_Disabled d) (DiscoveryConfig_DHT d) (DiscoveryConfig_Local d) "filesyncengine/v1"
      (DiscoveryConfig_DHTBootstrapPeers d) (DiscoveryConfig_PairingCodeTTL d) (DiscoveryConfig_NetworkHints d)
      (DiscoveryConfig_NAT d)
  else d.

Definition set_NetworkHints (hints : NetworkHintsConfig) (d : DiscoveryConfig) : DiscoveryConfig :=
  mkDiscoveryConfig (DiscoveryConfig_Disabled d) (DiscoveryConfig_DHT d) (DiscoveryConfig_Local d)
    (DiscoveryConfig_DHTNamespace d) (DiscoveryConfig_DHTBootstrapPeers d) (DiscoveryConfig_PairingCodeTTL d) hints
    (DiscoveryConfig_NAT d).

Definition validateMetadata (m : MetadataConfig) : result ConfErr MetadataConfig :=
  let backend := or_default (MetadataConfig_Backend m) "json" in
  _ ← reject (negb (one_of backend ["json"; "badger"])) (ErrInvalid "metadata.backend" backend);
  _ ← reject (MetadataConfig_PerFolder m && negb (bool_decide (backend = "badger"))) ErrPerFolderBackend;
  Ok (mkMetadataConfig backend (MetadataConfig_Path m) (MetadataConfig_PerFolder m)).

(** What [Validate] checks of discovery past its namespace. *)
Definition validateDiscovery (d : DiscoveryConfig) : result ConfErr DiscoveryConfig :=
  _ ← PairingCodeLifetime d;
  _ ← validateNATConfig (DiscoveryConfig_NAT d);
  _ ← each (fun peer => reject (empty peer) (ErrRequired "discovery.dhtBootstrapPeers")) (DiscoveryConfig_DHTBootstrapPeers d);
  hints ← validateNetworkHints (DiscoveryConfig_NetworkHints d);
  Ok (set_NetworkHints hints d).

Definition set_IdentityLevel (level : Z) (i : IdentityConfig) : IdentityConfig :=
  mkIdentityConfig (IdentityConfig_PrivateKey i) (IdentityConfig_PublicKey i) level (IdentityConfig_Groups i)
    (IdentityConfig_Revoked i) (IdentityConfig_encryptionLevelSet i).

Definition default_level (level : Z) (set : bool) : Z := if (level =? 0) && negb set then DefaultEncryptionLevel else level.

Definition validateIdentityLevel (i : IdentityConfig) : result ConfErr IdentityConfig :=
  let level := default_level (IdentityConfig_EncryptionLevel i) (IdentityConfig_encryptionLevelSet i) in
  _ ← ValidateEncryptionLevel level;
  Ok (set_IdentityLevel level i).

Definition validateGroup (seen : gset string) (group : IdentityGroupConfig) : result ConfErr unit :=
  _ ← reject (empty (IdentityGroupConfig_ID group)) (ErrRequired "identity.groups id");
  _ ← reject (bool_decide (IdentityGroupConfig_ID group ∈ seen)) (ErrDuplicate "identity group id" (IdentityGroupConfig_ID group));
  reject (IdentityGroupConfig_Enabled group && (str_len (IdentityGroupConfig_Token group) <? 43))
    (ErrShortToken (IdentityGroupConfig_ID group)).

Definition validateRevoked (record : RevokedIdentityConfig) : result ConfErr unit :=
  _ ← reject (empty (RevokedIdentityConfig_GroupID record)) (ErrRequired "identity.revoked groupId");
  reject (empty (RevokedIdentityConfig_BootstrapProofKeyHash record)) (ErrRequired "identity.revoked bootstrapProofKeyHash").

Definition validateFolder (seen : gset string) (f : FolderConfig) : result ConfErr FolderConfig :=
  let id := FolderConfig_ID f in
  let enabled := if negb (FolderConfig_enabledSet f) && negb (FolderConfig_Enabled f) then true else FolderConfig_Enabled f in
  let path := FolderConfig_Path f in
  let mode := or_default (FolderConfig_Mode f) ModeSendReceive in
  let size := if FolderConfig_BlockSize f =? 0 then DefaultBlockSize else FolderConfig_BlockSize f in
  _ ← reject (empty id) (ErrRequired "folders id");
  _ ← reject (bool_decide (id ∈ seen)) (ErrDuplicate "folder id" id);
  _ ← reject (empty path && enabled) (ErrRequired ("path of " +:+ id));
  _ ← reject (negb enabled && empty path && empty (FolderConfig_AdvertisedBy f)) (ErrRequired ("advertisedBy of " +:+ id));
  _ ← reject (negb enabled && empty path && empty (FolderConfig_IdentityGroup f)) (ErrRequired ("identityGroup of " +:+ id));
  _ ← reject (negb (one_of mode [ModeSendReceive; ModeSendOnly; ModeReceiveOnly])) (ErrInvalid ("mode of " +:+ id) mode);
  _ ← reject (size <? 4096) (ErrBlockSize id);
  permissions ← validatePermissionPolicy id (FolderConfig_Permissions f);
  _ ← validateMaintenanceConfig ("folder " +:+ id +:+ " maintenance") (FolderConfig_Maintenance f);
  Ok (mkFolderConfig id path enabled (FolderConfig_AdvertisedBy f) (FolderConfig_IdentityGroup f) (FolderConfig_SyncGroup f)
        mode size (FolderConfig_SharedWith f) (FolderConfig_Ignore f) permissions (FolderConfig_Maintenance f)
        (FolderConfig_enabledSet f)).

Definition validateEndpoint (peer : string) (e : EndpointConfig) : result ConfErr unit :=
  _ ← reject (negb (validEndpointKind (EndpointConfig_Kind e))) (ErrInvalid ("endpoint kind of " +:+ peer) (EndpointConfig_Kind e));
  _ ← reject (empty (EndpointConfig_Address e)) (ErrRequired ("endpoint address of " +:+ peer));
  reject (negb (validEndpointNetworkHint (EndpointConfig_NetworkHint e)))
    (ErrInvalid ("endpoint networkHint of " +:+ peer) (EndpointConfig_NetworkHint e)).

(** The default level is given to the loop's copy of the peer: the document
    keeps the level it had. *)
Definition validatePeer (seen : gset string) (p : PeerConfig) : result ConfErr unit :=
  let id := PeerConfig_ID p in
  _ ← reject (empty id) (ErrRequired "peers id");
  _ ← reject (bool_decide (id ∈ seen)) (ErrDuplicate "peer id" id);
  _ ← ValidateEncryptionLevel (default_level (PeerConfig_EncryptionLevel p) (PeerConfig_encryptionLevelSet p));
  _ ← validateTransferConfig ("peer " +:+ id +:+ " transfer")
        (mkTransferConfig (PeerConfig_SendBytesPerSecond p) (PeerConfig_ReceiveBytesPerSecond p));
  _ ← each (validateEndpoint id) (PeerConfig_Endpoints p);
  Ok tt.

Definition Validate (c : Config) : result ConfErr Config :=
  let d := Config_Discovery c in
  _ ← reject (empty (Config_NodeName c)) (ErrRequired "nodeName");
  _ ← reject (DiscoveryConfig_Disabled d && (DiscoveryConfig_DHT d || DiscoveryConfig_Local d)) ErrDiscoveryDisabled;
  _ ← validateLoggingConfig (Config_Logging c);
  api ← validateAPIConfig (Config_API c);
  _ ← validateTransferConfig "transfer" (Config_Transfer c);
  _ ← validateBackupConfig (Config_Backup c);
  _ ← validateWebGUIConfig (Config_WebGUI c);
  metadata ← validateMetadata (Config_Metadata c);
  discovery ← validateDiscovery (set_DHTNamespace d);
  identity ← validateIdentityLevel (Config_Identity c);
  _ ← validateMaintenanceConfig "maintenance" (Config_Maintenance c);
  _ ← each_fresh IdentityGroupConfig_ID validateGroup ∅ (IdentityConfig_Groups (Config_Identity c));
  _ ← each validateRevoked (IdentityConfig_Revoked (Config_Identity c));
  folders ← each_fresh FolderConfig_ID validateFolder ∅ (Config_Folders c);
  _ ← each_fresh PeerConfig_ID validatePeer ∅ (Config_Peers c);
  Ok (mkConfig (Config_NodeName c) (Config_Listen c) api (Config_Logging c) (Config_Transfer c) (Config_Backup c)
        (Config_WebGUI c) identity discovery metadata (Config_Maintenance c) (Config_Peers c) folders).
End validation.

(** ** Transfer limits *)

Record TransferLimitDetails := mkTransferLimitDetails {
  TransferLimitDetails_Effective : TransferConfig;
  TransferLimitDetails_SendCause : string;
  TransferLimitDetails_ReceiveCause : string
}.

Definition peerCapOrGlobalWithCause (peerCap globalCap : Z) (peerCause globalCause : string) : Z * string :=
  if 0 <? peerCap then (peerCap, peerCause) else if 0 <? globalCap then (globalCap, globalCause) else (0, "unlimited").

Definition lowestNonZeroWithCause (a : Z) (aCause : string) (b : Z) (bCause : string) : Z * string :=
  if (a =? 0) && (b =? 0) then (0, "unlimited")
  else if a =? 0 then (b, bCause)
  else if (b =? 0) || (a <=? b) then (a, aCause)
  else (b, bCause).

Definition EffectiveTransferLimitDetails (localGlobal : TransferConfig) (localPeer : PeerConfig)
    (remoteGlobal : TransferConfig) (remotePeer : PeerConfig) : TransferLimitDetails :=
  let '(localSend, localSendCause) := peerCapOrGlobalWithCause (PeerConfig_SendBytesPerSecond localPeer)
    (TransferConfig_SendBytesPerSecond localGlobal) "local_peer" "local_global" in
  let '(localReceive, localReceiveCause) := peerCapOrGlobalWithCause (PeerConfig_ReceiveBytesPerSecond localPeer)
    (TransferConfig_ReceiveBytesPerSecond localGlobal) "local_peer" "local_global" in
  let '(remoteSend, remoteSendCause) := peerCapOrGlobalWithCause (PeerConfig_SendBytesPerSecond remotePeer)
    (TransferConfig_SendBytesPerSecond remoteGlobal) "remote_send" "remote_send" in
  let '(remoteReceive, remoteReceiveCause) := peerCapOrGlobalWithCause (PeerConfig_ReceiveBytesPerSecond remotePeer)
    (TransferConfig_ReceiveBytesPerSecond remoteGlobal) "remote_receive" "remote_receive" in
  let '(send, sendCause) := lowestNonZeroWithCause localSend localSendCause remoteReceive remoteReceiveCause in
  let '(receive, receiveCause) := lowestNonZeroWithCause localReceive localReceiveCause remoteSend remoteSendCause in
  mkTransferLimitDetails (mkTransferConfig send receive) sendCause receiveCause.

Definition EffectiveTransferLimits (localGlobal : TransferConfig) (localPeer : PeerConfig)
    (remoteGlobal : TransferConfig) (remotePeer : PeerConfig) : TransferConfig :=
  TransferLimitDetails_Effective (EffectiveTransferLimitDetails localGlobal localPeer remoteGlobal remotePeer).

(** Trimming twice is trimming once. *)
Lemma trim_left_idem s : trim_left (trim_left s) = trim_left s.
Proof. induction s as [|c s IH]; [done|]. cbn. destruct (is_space c) eqn:E; [done|]. cbn. by rewrite E. Qed.

Lemma trim_right_idem s : trim_right (trim_right s) = trim_right s.
Proof.
  induction s as [|c s IH]; [done|]. cbn [trim_right]. destruct (trim_right s) as [|d t] eqn:E.
  - destruct (is_space c) eqn:Ec; [done|]. cbn. by rewrite Ec.
  - change (trim_right (String c (String d t))) with
      (match trim_right (String d t) with EmptyString => if is_space c then EmptyString else String c EmptyString | u => String c u end).
    by rewrite IH.
Qed.

Lemma trim_left_right s : trim_left s = s -> trim_left (trim_right s) = trim_right s.
Proof.
  destruct s as [|c s]; [done|]. cbn [trim_left]. destruct (is_space c) eqn:Ec.
  - intros H. exfalso. assert (forall u, String.length (trim_left u) <= String.length u)%nat as Hl.
    { induction u as [|d u IH]; [done|]. cbn. destruct (is_space d); cbn; lia. }
    specialize (Hl s). rewrite H in Hl. cbn in Hl. lia.
  - intros _. cbn [trim_right]. destruct (trim_right s); rewrite ?Ec; cbn; by rewrite Ec.
Qed.

Lemma trim_space_idem s : trim_space (trim_space s) = trim_space s.
Proof. unfold trim_space. by rewrite (trim_left_right (trim_left s)), trim_right_idem by apply trim_left_idem. Qed.

(** ** Well-formed documents *)

Section wf.
Context (float_fraction : Z -> Z -> Z -> Z).

Definition optional (P : string -> Prop) (s : string) : Prop := s = EmptyString \/ P s.
Definition is_true (b : bool) : Prop := b = true.

Record wf_api (a : APIConfig) : Prop := {
  wa_mode : APIEncryptionConfig_Mode (APIConfig_Encryption a) ∈ ["auto"; "off"; "manual-tls"];
  wa_pin : optional (fun fp => hex_bytes fp 32 = true /\ to_lower fp = fp)
             (APIEncryptionConfig_TrustedCertificateSHA256 (APIConfig_Encryption a));
  wa_auto : APIEncryptionConfig_Mode (APIConfig_Encryption a) = "auto" -> RequiresTLS a = true ->
    (APIEncryptionConfig_CertFile (APIConfig_Encryption a) = EmptyString <->
     APIEncryptionConfig_KeyFile (APIConfig_Encryption a) = EmptyString);
  wa_off : APIEncryptionConfig_Mode (APIConfig_Encryption a) = "off" ->
    optional (fun listen => apiListenIsLoopback listen = true) (APIConfig_Listen a);
  wa_manual : APIEncryptionConfig_Mode (APIConfig_Encryption a) = "manual-tls" ->
    APIEncryptionConfig_CertFile (APIConfig_Encryption a) <> EmptyString /\
    APIEncryptionConfig_KeyFile (APIConfig_Encryption a) <> EmptyString
}.

Definition wf_transfer (t : TransferConfig) : Prop :=
  0 <= TransferConfig_SendBytesPerSecond t /\ 0 <= TransferConfig_ReceiveBytesPerSecond t.

Record wf_webgui (w : WebGUIConfig) : Prop := {
  ww_version : WebGUIConfig_Version w <> EmptyString;
  ww_dir : WebGUIConfig_InstallDir w <> EmptyString;
  ww_source : WebGUIConfig_PackagePath w <> EmptyString \/ WebGUIConfig_UpdateURL w <> EmptyString;
  ww_checksum : hex_bytes (WebGUIConfig_ChecksumSHA256 w) 32 = true;
  ww_url : optional (fun url => has_prefix url "https://" = true) (WebGUIConfig_UpdateURL w);
  ww_tls : WebGUIConfig_TLSCertFile w = EmptyString <-> WebGUIConfig_TLSKeyFile w = EmptyString
}.

Record wf_maintenance (m : MaintenanceConfig) : Prop := {
  wm_frequency : optional (fun s => is_Some (ParseDuration float_fraction s)) (MaintenanceConfig_Frequency m);
  wm_mode : MaintenanceConfig_ScrubMode m ∈ [EmptyString; "light-metadata"; "sampled-blocks"; "full-blocks"];
  wm_sample : 0 <= MaintenanceConfig_SampleEveryNBlocks m;
  wm_sampled : MaintenanceConfig_ScrubMode m = "sampled-blocks" -> 0 < MaintenanceConfig_SampleEveryNBlocks m;
  wm_files_run : 0 <= MaintenanceConfig_MaxFilesPerRun m;
  wm_bytes_run : 0 <= MaintenanceConfig_MaxBytesPerRun m;
  wm_files_day : 0 <= MaintenanceConfig_MaxFilesPerDay m;
  wm_bytes_day : 0 <= MaintenanceConfig_MaxBytesPerDay m
}.

Record wf_permissions (p : PermissionPolicy) : Prop := {
  wp_mode : PermissionPolicy_Mode p ∈ ["ignore"; "sync"; "default"; "fixed"];
  wp_file : optional (fun s => validOctalMode s = true) (PermissionPolicy_FileMode p);
  wp_dir : optional (fun s => validOctalMode s = true) (PermissionPolicy_DirMode p)
}.

Record wf_folder (f : FolderConfig) : Prop := {
  wf_id : FolderConfig_ID f <> EmptyString;
  wf_enabled : FolderConfig_enabledSet f = true \/ FolderConfig_Enabled f = true;
  wf_path : FolderConfig_Path f = EmptyString -> FolderConfig_Enabled f = false /\
    FolderConfig_AdvertisedBy f <> EmptyString /\ FolderConfig_IdentityGroup f <> EmptyString;
  wf_mode : FolderConfig_Mode f ∈ [ModeSendReceive; ModeSendOnly; ModeReceiveOnly];
  wf_size : 4096 <= FolderConfig_BlockSize f;
  wf_perms : wf_permissions (FolderConfig_Permissions f);
  wf_maint : wf_maintenance (FolderConfig_Maintenance f)
}.

Definition wf_endpoint (e : EndpointConfig) : Prop :=
  validEndpointKind (EndpointConfig_Kind e) = true /\ EndpointConfig_Address e <> EmptyString /\
  validEndpointNetworkHint (EndpointConfig_NetworkHint e) = true.

Definition wf_level (level : Z) : Prop := 0 <= level <= 10.

Record wf_peer (p : PeerConfig) : Prop := {
  wpe_id : PeerConfig_ID p <> EmptyString;
  wpe_level : wf_level (PeerConfig_EncryptionLevel p);
  wpe_send : 0 <= PeerConfig_SendBytesPerSecond p;
  wpe_receive : 0 <= PeerConfig_ReceiveBytesPerSecond p;
  wpe_endpoints : Forall wf_endpoint (PeerConfig_Endpoints p)
}.

Definition trimmed_ip (s : string) : Prop := trim_space s = s /\ is_Some (ParseIP s).

Record wf_mapping (m : PublishedPortMappingConfig) : Prop := {
  wpm_host : trimmed_ip (PublishedPortMappingConfig_HostIP m);
  wpm_port : validTCPPort (PublishedPortMappingConfig_HostPort m) = true;
  wpm_container : optional trimmed_ip (PublishedPortMappingConfig_ContainerIP m);
  wpm_cport : PublishedPortMappingConfig_ContainerPort m = 0 \/
    validTCPPort (PublishedPortMappingConfig_ContainerPort m) = true
}.

Record wf_discovery (d : DiscoveryConfig) : Prop := {
  wd_disabled : DiscoveryConfig_Disabled d = true -> DiscoveryConfig_DHT d = false /\ DiscoveryConfig_Local d = false;
  wd_namespace : DiscoveryConfig_DHT d = true -> DiscoveryConfig_DHTNamespace d <> EmptyString;
  wd_ttl : exists n, PairingCodeLifetime float_fraction d = Ok n /\ 0 < n <= 86400000000000;
  wd_relays : 0 <= NATConfig_MaxRelayReservations (DiscoveryConfig_NAT d) <= 128;
  wd_stun : Forall (fun s => trim_space s <> EmptyString /\ is_Some (SplitHostPort (trim_space s)))
              (NATConfig_STUNServers (DiscoveryConfig_NAT d));
  wd_bootstrap : Forall (fun s => s <> EmptyString) (DiscoveryConfig_DHTBootstrapPeers d);
  wd_ips : Forall trimmed_ip (NetworkHintsConfig_LocalContainerGatewayIPs (DiscoveryConfig_NetworkHints d));
  wd_cidrs : Forall (fun s => trim_space s = s /\ is_Some (IPNet_IP <$> ParseCIDR s))
               (NetworkHintsConfig_LocalCIDRs (DiscoveryConfig_NetworkHints d));
  wd_mappings : Forall wf_mapping (NetworkHintsConfig_PublishedPortMappings (DiscoveryConfig_NetworkHints d))
}.

Record wf_identity (i : IdentityConfig) : Prop := {
  wi_level : wf_level (IdentityConfig_EncryptionLevel i);
  wi_set : IdentityConfig_EncryptionLevel i = 0 -> IdentityConfig_encryptionLevelSet i = true;
  wi_groups : Forall (fun g => IdentityGroupConfig_ID g <> EmptyString /\
    (IdentityGroupConfig_Enabled g = true -> 43 <= str_len (IdentityGroupConfig_Token g))) (IdentityConfig_Groups i);
  wi_nodup : NoDup (IdentityGroupConfig_ID <$> IdentityConfig_Groups i);
  wi_revoked : Forall (fun r => RevokedIdentityConfig_GroupID r <> EmptyString /\
    RevokedIdentityConfig_BootstrapProofKeyHash r <> EmptyString) (IdentityConfig_Revoked i)
}.

Record wf_config (c : Config) : Prop := {
  wc_name : Config_NodeName c <> EmptyString;
  wc_log : LoggingConfig_Level (Config_Logging c) ∈ [EmptyString; "debug"; "info"; "warn"; "error"; "off"];
  wc_api : wf_api (Config_API c);
  wc_transfer : wf_transfer (Config_Transfer c);
  wc_backup : BackupConfig_Mode (Config_Backup c) ∈
    [EmptyString; "block-archive-only"; "mirror-plus-archive"; "mirror-plus-full-archive"];
  wc_webgui : WebGUIConfig_Enabled (Config_WebGUI c) = true -> wf_webgui (Config_WebGUI c);
  wc_backend : MetadataConfig_Backend (Config_Metadata c) ∈ ["json"; "badger"];
  wc_perfolder : MetadataConfig_PerFolder (Config_Metadata c) = true -> MetadataConfig_Backend (Config_Metadata c) = "badger";
  wc_discovery : wf_discovery (Config_Discovery c);
  wc_identity : wf_identity (Config_Identity c);
  wc_maintenance : wf_maintenance (Config_Maintenance c);
  wc_folders : Forall wf_folder (Config_Folders c);
  wc_folder_ids : NoDup (FolderConfig_ID <$> Config_Folders c);
  wc_peers : Forall wf_peer (Config_Peers c);
  wc_peer_ids : NoDup (PeerConfig_ID <$> Config_Peers c)
}.

(** ** Each check is what the predicate says *)

Lemma bind_unit_ok {E A} (m : result E unit) (k : result E A) x : ((_ ← m; k) = Ok x) <-> (m = Ok tt /\ k = Ok x).
Proof. destruct m as [[]|e]; cbn; naive_solver. Qed.

Lemma fail_if_tt {E} b (e : E) : fail_if b e = Ok tt <-> b = false.
Proof. apply fail_if_ok. Qed.

Lemma each_ok {A B E} (f : A -> result E B) l l' : (each f l = Ok l') <-> (Forall2 (fun x y => f x = Ok y) l l').
Proof.
  revert l'. induction l as [|x l IH]; intros l'; cbn [each].
  - split; [intros [= <-]; constructor|intros H; by inversion H].
  - rewrite result_bind_ok. split.
    + intros (y & Hy & H). apply result_bind_ok in H as (ys & Hys & [= <-]). constructor; [done|]. by apply IH.
    + intros H. inversion H as [|? y ? ys Hy Hys]; subst. exists y. split; [done|]. apply result_bind_ok. exists ys.
      split; [by apply IH|done].
Qed.

Lemma each_unit_ok {A E} (f : A -> result E unit) l us :
  each f l = Ok us <-> us = (fun _ => tt) <$> l /\ Forall (fun x => f x = Ok tt) l.
Proof.
  rewrite each_ok. revert us. induction l as [|x l IH]; intros us.
  - split; [intros H; inversion H; by split|intros [-> _]; constructor].
  - split.
    + intros H. inversion H as [|? [] ? ys Hy Hys]; subst. apply IH in Hys as [-> ?]. split; [done|by constructor].
    + intros [-> Hl]. apply Forall_cons in Hl as [Hx Hl]. constructor; [done|]. by apply IH.
Qed.

(** A validator that refuses the keys it has seen, and otherwise does [g]. *)
Lemma each_fresh_ok {A B E} (key : A -> string) (f : gset string -> A -> result E B) (g : A -> B -> Prop) seen l l' :
  (forall seen x y, f seen x = Ok y <-> (key x ∉ seen) /\ g x y) ->
  each_fresh key f seen l = Ok l' <-> (Forall2 g l l') /\ NoDup (key <$> l) /\ Forall (fun x => key x ∉ seen) l.
Proof.
  intros Hf. revert seen l'. induction l as [|x l IH]; intros seen l'; cbn [each_fresh].
  - split; [intros [= <-]; split_and!; constructor|intros [H _]; by inversion H].
  - rewrite result_bind_ok. split.
    + intros (y & Hy & H). apply Hf in Hy as [Hx Hg]. apply result_bind_ok in H as (ys & Hys & [= <-]).
      apply IH in Hys as (H2 & Hn & Hs). split_and!; [by constructor| |].
      * apply NoDup_cons. split; [|done]. intros (z & Hz & Hin)%list_elem_of_fmap.
        rewrite Forall_forall in Hs. specialize (Hs z Hin). set_solver.
      * constructor; [done|]. eapply Forall_impl; [exact Hs|]. set_solver.
    + intros (H2 & Hn & Hs). inversion H2 as [|? y ? ys Hg H2']; subst. apply NoDup_cons in Hn as [Hx Hn].
      apply Forall_cons in Hs as [Hxs Hs]. exists y. split; [by apply Hf|]. apply result_bind_ok. exists ys.
      split; [|done]. apply IH. split_and!; [done|done|]. rewrite Forall_forall in Hs |- *. intros z Hz.
      apply not_elem_of_union. split; [|by apply Hs]. apply not_elem_of_singleton. intros E'. apply Hx.
      rewrite <- E'. by apply list_elem_of_fmap_2.
Qed.

(** *** Booleans of the checks as propositions *)

Lemma empty_true s : empty s = true <-> s = EmptyString.
Proof. apply bool_decide_eq_true. Qed.

Lemma empty_false s : empty s = false <-> s <> EmptyString.
Proof. apply bool_decide_eq_false. Qed.

Lemma optional_check s b (P : string -> Prop) : (b = true <-> P s) -> negb (empty s) && negb b = false <-> optional P s.
Proof.
  intros Hb. unfold optional. rewrite <- Hb, <- empty_true. destruct (empty s), b; cbn; naive_solver.
Qed.

Lemma one_of_check s l : negb (one_of s l) = false <-> s ∈ l.
Proof. unfold one_of. by rewrite negb_false_iff, bool_decide_eq_true. Qed.

Lemma ltb_check a b : (a <? b) = false <-> b <= a.
Proof. apply Z.ltb_ge. Qed.

Lemma eqb_empty_check a b : negb (Bool.eqb (empty a) (empty b)) = false <-> (a = EmptyString <-> b = EmptyString).
Proof. rewrite <- !empty_true. destruct (empty a), (empty b); cbn; naive_solver. Qed.

Lemma or_default_same s d : s <> EmptyString -> or_default s d = s.
Proof. intros H. unfold or_default. by rewrite bool_decide_eq_false_2. Qed.

Lemma validateTransferConfig_ok label t : validateTransferConfig label t = Ok tt <-> wf_transfer t.
Proof. unfold validateTransferConfig, wf_transfer. by rewrite bind_unit_ok, !fail_if_tt, !ltb_check. Qed.

Lemma validateMaintenanceConfig_ok label m : validateMaintenanceConfig float_fraction label m = Ok tt <-> wf_maintenance m.
Proof.
  unfold validateMaintenanceConfig. rewrite !bind_unit_ok, !fail_if_tt, !ltb_check, one_of_check.
  assert (negb (empty (MaintenanceConfig_Frequency m)) &&
      bool_decide (ParseDuration float_fraction (MaintenanceConfig_Frequency m) = None) = false <->
    optional (fun s => is_Some (ParseDuration float_fraction s)) (MaintenanceConfig_Frequency m)) as ->.
  { unfold optional. rewrite <- empty_true, <- not_eq_None_Some. destruct (empty _); cbn; [naive_solver|].
    rewrite bool_decide_eq_false. naive_solver. }
  rewrite andb_false_iff, bool_decide_eq_false, Z.eqb_neq. split.
  - intros (? & ? & ? & H & ? & ? & ? & ?). split; try done. destruct H; [done|lia].
  - intros []. split_and!; try done. destruct (decide (MaintenanceConfig_ScrubMode m = "sampled-blocks")); [right|by left].
    specialize (wm_sampled0 e). lia.
Qed.

Lemma validatePermissionPolicy_ok id p p' : validatePermissionPolicy id p = Ok p' <->
  p' = mkPermissionPolicy (or_default (PermissionPolicy_Mode p) "ignore") (PermissionPolicy_FileMode p)
         (PermissionPolicy_DirMode p) (PermissionPolicy_PreserveOwner p) (PermissionPolicy_PreserveGroup p)
         (PermissionPolicy_PreserveACL p) /\ wf_permissions p'.
Proof.
  unfold validatePermissionPolicy. cbv zeta. rewrite !bind_unit_ok, !fail_if_tt, one_of_check.
  rewrite (optional_check _ _ (fun s => validOctalMode s = true) (iff_refl _)).
  rewrite (optional_check (PermissionPolicy_DirMode p) _ (fun s => validOctalMode s = true) (iff_refl _)). split.
  - intros (? & ? & ? & [= <-]). by split.
  - intros [-> [? ? ?]]. by split_and!.
Qed.

Lemma validateWebGUIConfig_ok w :
  validateWebGUIConfig w = Ok tt <-> (WebGUIConfig_Enabled w = true -> wf_webgui w).
Proof.
  unfold validateWebGUIConfig. destruct (WebGUIConfig_Enabled w); cbn [negb]; [|naive_solver].
  rewrite !bind_unit_ok, !fail_if_tt, !empty_false, eqb_empty_check, negb_false_iff.
  rewrite (optional_check _ _ (fun url => has_prefix url "https://" = true) (iff_refl _)).
  rewrite andb_false_iff, !empty_false. split.
  - intros (? & ? & ? & ? & ? & ? & ?) _. by split.
  - intros [? ? ? Hc ? ?]; [done|]. split_and!; try done. intros E. by rewrite E in Hc.
Qed.

(** *** The parts with defaults *)

Lemma or_default_nonempty s d : d <> EmptyString -> or_default s d <> EmptyString.
Proof. unfold or_default. by case_bool_decide. Qed.

Lemma validateAPIConfig_ok a a' : validateAPIConfig a = Ok a' <->
  a' = set_APIMode (or_default (APIEncryptionConfig_Mode (APIConfig_Encryption a)) "auto") a /\ wf_api a'.
Proof.
  unfold validateAPIConfig. cbv zeta. set (mode := or_default _ _). set (n := set_APIMode mode a).
  assert (APIEncryptionConfig_Mode (APIConfig_Encryption n) = mode) as Hm by done.
  rewrite !bind_unit_ok, fail_if_tt, <- negb_andb. fold (empty (APIEncryptionConfig_TrustedCertificateSHA256 (APIConfig_Encryption n))).
  rewrite (optional_check _ _ (fun fp => hex_bytes fp 32 = true /\ to_lower fp = fp)) by (rewrite andb_true_iff, bool_decide_eq_true; done).
  fold (empty (APIEncryptionConfig_CertFile (APIConfig_Encryption n))) (empty (APIEncryptionConfig_KeyFile (APIConfig_Encryption n))).
  fold (empty (APIConfig_Listen n)).
  assert (((if bool_decide (mode = "auto")
       then reject (RequiresTLS n && negb (Bool.eqb (empty (APIEncryptionConfig_CertFile (APIConfig_Encryption n)))
              (empty (APIEncryptionConfig_KeyFile (APIConfig_Encryption n))))) ErrAPIFiles
       else if bool_decide (mode = "off") then reject (negb (empty (APIConfig_Listen n)) && negb (apiListenIsLoopback (APIConfig_Listen n))) ErrAPIOffNotLoopback
       else if bool_decide (mode = "manual-tls") then reject (empty (APIEncryptionConfig_CertFile (APIConfig_Encryption n)) || empty (APIEncryptionConfig_KeyFile (APIConfig_Encryption n))) ErrAPIFiles
       else Err (ErrInvalid "api.encryption.mode" mode)) = Ok tt) <->
    mode ∈ ["auto"; "off"; "manual-tls"] /\
    (mode = "auto" -> RequiresTLS n = true -> (APIEncryptionConfig_CertFile (APIConfig_Encryption n) = EmptyString <-> APIEncryptionConfig_KeyFile (APIConfig_Encryption n) = EmptyString)) /\
    (mode = "off" -> optional (fun l => apiListenIsLoopback l = true) (APIConfig_Listen n)) /\
    (mode = "manual-tls" -> APIEncryptionConfig_CertFile (APIConfig_Encryption n) <> EmptyString /\ APIEncryptionConfig_KeyFile (APIConfig_Encryption n) <> EmptyString)) as Hcase.
  { case_bool_decide as H1; [|case_bool_decide as H2; [|case_bool_decide as H3]].
    - rewrite fail_if_tt, andb_false_iff, eqb_empty_check, H1. destruct (RequiresTLS n); set_solver.
    - rewrite fail_if_tt, (optional_check _ _ (fun l => apiListenIsLoopback l = true) (iff_refl _)), H2. set_solver.
    - rewrite fail_if_tt, orb_false_iff, !empty_false, H3. set_solver.
    - set_solver. }
  rewrite Hcase, <- Hm. split.
  - intros (? & (? & ? & ? & ?) & [= <-]). by split.
  - intros [-> [? ? ? ? ?]]. by split_and!.
Qed.

Definition norm_mapping (m : PublishedPortMappingConfig) : PublishedPortMappingConfig :=
  mkPublishedPortMappingConfig (trim_space (PublishedPortMappingConfig_HostIP m)) (PublishedPortMappingConfig_HostPort m)
    (trim_space (PublishedPortMappingConfig_ContainerIP m)) (PublishedPortMappingConfig_ContainerPort m).

Lemma validatePortMapping_ok m m' : validatePortMapping m = Ok m' <-> m' = norm_mapping m /\ wf_mapping m'.
Proof.
  unfold validatePortMapping. cbv zeta. rewrite !bind_unit_ok, !fail_if_tt, bool_decide_eq_false, negb_false_iff.
  assert (forall s, negb (empty (trim_space s)) && bool_decide (ParseIP (trim_space s) = None) = false <->
    optional trimmed_ip (trim_space s)) as Hc.
  { intros s. unfold optional, trimmed_ip. rewrite trim_space_idem, <- empty_true, <- not_eq_None_Some.
    destruct (empty _); cbn; [naive_solver|]. rewrite bool_decide_eq_false. naive_solver. }
  rewrite Hc, not_eq_None_Some, andb_false_iff, !negb_false_iff, Z.eqb_eq. split.
  - intros (? & ? & ? & ? & [= <-]). split; [done|]. split; cbn; try done. split; [apply trim_space_idem|done].
  - intros [-> [[] ? ? ?]]. by split_and!.
Qed.

Definition norm_hints (h : NetworkHintsConfig) : NetworkHintsConfig :=
  mkNetworkHintsConfig (trim_space <$> NetworkHintsConfig_LocalContainerGatewayIPs h)
    (trim_space <$> NetworkHintsConfig_LocalCIDRs h) (norm_mapping <$> NetworkHintsConfig_PublishedPortMappings h).

(** A list validated element by element, each normalised by [n]. *)
Lemma each_norm_ok {A E} (f : A -> result E A) (n : A -> A) (P : A -> Prop) l l' :
  (forall x y, f x = Ok y <-> y = n x /\ P y) -> each f l = Ok l' <-> l' = n <$> l /\ Forall P l'.
Proof.
  intros Hf. rewrite each_ok. revert l'. induction l as [|x l IH]; intros l'.
  - split; [intros H; inversion H; by split|intros [-> _]; constructor].
  - split.
    + intros H. inversion H as [|? y ? ys Hy Hys]; subst. apply Hf in Hy as [-> Hp]. apply IH in Hys as [-> Hps].
      split; [done|by constructor].
    + intros [-> H]. apply Forall_cons in H as [Hx Hl]. constructor; [by apply Hf|]. by apply IH.
Qed.

Lemma validateNetworkHints_ok h h' : validateNetworkHints h = Ok h' <->
  h' = norm_hints h /\ Forall trimmed_ip (NetworkHintsConfig_LocalContainerGatewayIPs h') /\
  Forall (fun s => trim_space s = s /\ is_Some (IPNet_IP <$> ParseCIDR s)) (NetworkHintsConfig_LocalCIDRs h') /\
  Forall wf_mapping (NetworkHintsConfig_PublishedPortMappings h').
Proof.
  assert (forall s t, validateGatewayIP s = Ok t <-> t = trim_space s /\ trimmed_ip t) as H1.
  { intros s t. unfold validateGatewayIP, trimmed_ip. cbv zeta.
    rewrite bind_unit_ok, fail_if_tt, bool_decide_eq_false, not_eq_None_Some. split.
    - intros [? [= <-]]. by rewrite trim_space_idem.
    - by intros [-> [_ ?]]. }
  assert (forall s t, validateLocalCIDR s = Ok t <-> t = trim_space s /\ (trim_space t = t /\ is_Some (IPNet_IP <$> ParseCIDR t))) as H2.
  { intros s t. unfold validateLocalCIDR. cbv zeta. rewrite bind_unit_ok, fail_if_tt, negb_false_iff, bool_decide_eq_true. split.
    - intros [? [= <-]]. by rewrite trim_space_idem.
    - by intros [-> [_ ?]]. }
  unfold validateNetworkHints. rewrite result_bind_ok.
  setoid_rewrite result_bind_ok. setoid_rewrite result_bind_ok.
  setoid_rewrite (each_norm_ok _ _ _ _ _ H1). setoid_rewrite (each_norm_ok _ _ _ _ _ H2).
  setoid_rewrite (each_norm_ok _ _ _ _ _ validatePortMapping_ok). split.
  - intros (? & [-> ?] & ? & [-> ?] & ? & [-> ?] & [= <-]). by split_and!.
  - intros (-> & ? & ? & ?). eexists. split; [by split|]. eexists. split; [by split|]. eexists. by split.
Qed.

Definition norm_discovery (d : DiscoveryConfig) : DiscoveryConfig :=
  set_NetworkHints (norm_hints (DiscoveryConfig_NetworkHints d)) (set_DHTNamespace d).

Lemma PairingCodeLifetime_bounds d n : PairingCodeLifetime float_fraction d = Ok n -> 0 < n <= 86400000000000.
Proof.
  unfold PairingCodeLifetime. cbv zeta. case_bool_decide; [intros [= <-]; lia|].
  destruct (ParseDuration _ _) as [p|]; [|done].
  destruct (Z.leb_spec p 0), (Z.ltb_spec 86400000000000 p); cbn; try done. intros [= <-]. lia.
Qed.

Lemma validateNATConfig_ok n : validateNATConfig n = Ok tt <->
  0 <= NATConfig_MaxRelayReservations n <= 128 /\
  Forall (fun s => trim_space s <> EmptyString /\ is_Some (SplitHostPort (trim_space s))) (NATConfig_STUNServers n).
Proof.
  unfold validateNATConfig. rewrite bind_unit_ok, fail_if_tt, orb_false_iff, !ltb_check, result_bind_ok.
  setoid_rewrite each_unit_ok.
  assert (forall s, validateSTUNServer s = Ok tt <-> trim_space s <> EmptyString /\ is_Some (SplitHostPort (trim_space s))) as H.
  { intros s. unfold validateSTUNServer. cbv zeta.
    by rewrite bind_unit_ok, !fail_if_tt, empty_false, bool_decide_eq_false, not_eq_None_Some. }
  assert (forall l, Forall (fun s => validateSTUNServer s = Ok tt) l <->
    Forall (fun s => trim_space s <> EmptyString /\ is_Some (SplitHostPort (trim_space s))) l) as Hl.
  { intros l. rewrite !Forall_forall. by setoid_rewrite H. }
  setoid_rewrite Hl. naive_solver.
Qed.

Lemma validateDiscovery_ok d d' :
  ~ (DiscoveryConfig_Disabled d = true /\ (DiscoveryConfig_DHT d = true \/ DiscoveryConfig_Local d = true)) ->
  validateDiscovery float_fraction (set_DHTNamespace d) = Ok d' <-> d' = norm_discovery d /\ wf_discovery d'.
Proof.
  intros Hdis. unfold validateDiscovery. rewrite result_bind_ok. setoid_rewrite bind_unit_ok. setoid_rewrite validateNATConfig_ok.
  setoid_rewrite result_bind_ok. setoid_rewrite each_unit_ok. setoid_rewrite result_bind_ok. setoid_rewrite validateNetworkHints_ok.
  assert (forall l, Forall (fun x => reject (empty x) (ErrRequired "discovery.dhtBootstrapPeers") = Ok tt) l <->
    Forall (fun s => s <> EmptyString) l) as Hb.
  { intros l. rewrite !Forall_forall. by setoid_rewrite fail_if_tt; setoid_rewrite empty_false. }
  setoid_rewrite Hb.
  assert (DiscoveryConfig_NetworkHints (set_DHTNamespace d) = DiscoveryConfig_NetworkHints d) as Hh
    by (unfold set_DHTNamespace; by destruct (_ && _)). rewrite Hh.
  assert (forall h, PairingCodeLifetime float_fraction (set_NetworkHints h (set_DHTNamespace d)) =
    PairingCodeLifetime float_fraction (set_DHTNamespace d)) as Hp by done.
  split.
  - intros (n & Hn & [? ?] & us & [-> ?] & h & (-> & ? & ? & ?) & [= <-]). split; [done|]. split; cbn; try done.
    + unfold set_DHTNamespace. destruct (_ && _); cbn; intros Hd; split; apply not_true_iff_false; intros E; apply Hdis; auto.
    + unfold set_DHTNamespace. destruct (DiscoveryConfig_DHT d) eqn:Ed; cbn; [|rewrite Ed; done].
      destruct (empty (DiscoveryConfig_DHTNamespace d)) eqn:Ee; cbn; [done|]. by apply empty_false in Ee.
    + exists n. rewrite Hp. split; [done|]. by eapply PairingCodeLifetime_bounds.
  - intros [-> H]. destruct H as [_ _ (n & Hn & _) Hr Hs Hbp Hi Hc Hm]. exists n. split; [exact Hn|]. split; [by split|].
    eexists. split; [by split|]. exists (norm_hints (DiscoveryConfig_NetworkHints d)). by split_and!.
Qed.

Definition norm_identity (i : IdentityConfig) : IdentityConfig :=
  set_IdentityLevel (default_level (IdentityConfig_EncryptionLevel i) (IdentityConfig_encryptionLevelSet i)) i.

Lemma ValidateEncryptionLevel_ok level : ValidateEncryptionLevel level = Ok tt <-> wf_level level.
Proof. unfold ValidateEncryptionLevel, wf_level. by rewrite fail_if_tt, orb_false_iff, !ltb_check. Qed.

Lemma default_level_ok level set : wf_level (default_level level set) <-> wf_level level.
Proof. unfold default_level, wf_level, DefaultEncryptionLevel. destruct (Z.eqb_spec level 0), set; cbn; lia. Qed.

(** The three checks of the identity part. *)
Lemma validateIdentity_ok i i' :
  (validateIdentityLevel i = Ok i' /\
   (exists us, each_fresh IdentityGroupConfig_ID validateGroup ∅ (IdentityConfig_Groups i) = Ok us) /\
   (exists us, each validateRevoked (IdentityConfig_Revoked i) = Ok us)) <->
  i' = norm_identity i /\ wf_identity i'.
Proof.
  assert (forall seen (g : IdentityGroupConfig) (y : unit), validateGroup seen g = Ok y <->
    (IdentityGroupConfig_ID g ∉ seen) /\ (IdentityGroupConfig_ID g <> EmptyString /\
      (IdentityGroupConfig_Enabled g = true -> 43 <= str_len (IdentityGroupConfig_Token g)))) as Hg.
  { intros seen g []. unfold validateGroup. rewrite !bind_unit_ok, !fail_if_tt, empty_false, bool_decide_eq_false,
      andb_false_iff, ltb_check. destruct (IdentityGroupConfig_Enabled g); naive_solver. }
  assert (forall r, validateRevoked r = Ok tt <-> RevokedIdentityConfig_GroupID r <> EmptyString /\
    RevokedIdentityConfig_BootstrapProofKeyHash r <> EmptyString) as Hr.
  { intros r. unfold validateRevoked. by rewrite bind_unit_ok, !fail_if_tt, !empty_false. }
  setoid_rewrite (each_fresh_ok _ _ _ _ _ _ Hg). setoid_rewrite each_unit_ok.
  unfold validateIdentityLevel. cbv zeta. rewrite bind_unit_ok, ValidateEncryptionLevel_ok. split.
  - intros ([? [= <-]] & (us & H2 & ? & _) & (us' & _ & H3)). split; [done|]. split; cbn.
    + done.
    + unfold default_level. destruct (Z.eqb_spec (IdentityConfig_EncryptionLevel i) 0), (IdentityConfig_encryptionLevelSet i); cbn;
        try done; unfold DefaultEncryptionLevel; lia.
    + rewrite Forall_forall. intros g Hin. apply list_elem_of_lookup in Hin as [k Hk].
      destruct (Forall2_lookup_l _ _ _ _ _ H2 Hk) as (u & _ & Hu). exact Hu.
    + done.
    + rewrite Forall_forall in H3 |- *. intros r Hin. by apply Hr, H3.
  - intros [-> [Hl Hs Hgs Hn Hrs]]. cbn in *. split; [by split|]. split.
    + exists ((fun _ => tt) <$> IdentityConfig_Groups i). split_and!; [|done|apply Forall_true; set_solver].
      apply Forall2_fmap_r. clear Hn. induction Hgs; by constructor.
    + eexists. split; [reflexivity|]. rewrite Forall_forall in Hrs |- *. intros r Hin. by apply Hr, Hrs.
Qed.

(** *** Folders and peers *)

Definition norm_permissions (p : PermissionPolicy) : PermissionPolicy :=
  mkPermissionPolicy (or_default (PermissionPolicy_Mode p) "ignore") (PermissionPolicy_FileMode p)
    (PermissionPolicy_DirMode p) (PermissionPolicy_PreserveOwner p) (PermissionPolicy_PreserveGroup p)
    (PermissionPolicy_PreserveACL p).

Definition norm_folder (f : FolderConfig) : FolderConfig :=
  mkFolderConfig (FolderConfig_ID f) (FolderConfig_Path f) (SharingEnabled f) (FolderConfig_AdvertisedBy f)
    (FolderConfig_IdentityGroup f) (FolderConfig_SyncGroup f) (or_default (FolderConfig_Mode f) ModeSendReceive)
    (if FolderConfig_BlockSize f =? 0 then DefaultBlockSize else FolderConfig_BlockSize f) (FolderConfig_SharedWith f)
    (FolderConfig_Ignore f) (norm_permissions (FolderConfig_Permissions f)) (FolderConfig_Maintenance f)
    (FolderConfig_enabledSet f).

Lemma SharingEnabled_set f : FolderConfig_enabledSet f = true \/ SharingEnabled f = true.
Proof. unfold SharingEnabled. destruct (FolderConfig_enabledSet f), (FolderConfig_Enabled f); auto. Qed.

Lemma folder_path_checks (enabled : bool) path adv group :
  empty path && enabled = false /\ negb enabled && empty path && empty adv = false /\
  negb enabled && empty path && empty group = false <->
  (path = EmptyString -> enabled = false /\ adv <> EmptyString /\ group <> EmptyString).
Proof.
  rewrite <- empty_true, <- !empty_false. destruct (empty path), enabled; cbn; intuition congruence.
Qed.

Lemma validateFolder_ok seen f f' :
  validateFolder float_fraction seen f = Ok f' <-> (FolderConfig_ID f ∉ seen) /\ (f' = norm_folder f /\ wf_folder f').
Proof.
  unfold validateFolder. cbv zeta. rewrite !bind_unit_ok, result_bind_ok. setoid_rewrite validatePermissionPolicy_ok.
  setoid_rewrite bind_unit_ok. setoid_rewrite validateMaintenanceConfig_ok. fold (SharingEnabled f).
  rewrite !fail_if_tt, empty_false, bool_decide_eq_false, one_of_check, ltb_check.
  pose proof (folder_path_checks (SharingEnabled f) (FolderConfig_Path f) (FolderConfig_AdvertisedBy f)
    (FolderConfig_IdentityGroup f)) as Hpath. split.
  - intros (? & ? & H1 & H2 & H3 & ? & ? & p & [-> ?] & ? & [= <-]). split; [done|]. split; [done|]. split; cbn; try done.
    + apply SharingEnabled_set.
    + by apply Hpath.
  - intros (? & -> & [? ? Hp ? ? ? ?]). cbn in *. apply Hpath in Hp as (? & ? & ?). split_and!; try done.
    eexists. by split_and!.
Qed.

Lemma validatePeer_ok seen p u :
  validatePeer seen p = Ok u <-> (PeerConfig_ID p ∉ seen) /\ wf_peer p.
Proof.
  unfold validatePeer. cbv zeta. destruct u. rewrite !bind_unit_ok, result_bind_ok, !fail_if_tt, empty_false,
    bool_decide_eq_false, ValidateEncryptionLevel_ok, default_level_ok, validateTransferConfig_ok. setoid_rewrite each_unit_ok.
  assert (forall e, validateEndpoint (PeerConfig_ID p) e = Ok tt <-> wf_endpoint e) as He.
  { intros e. unfold validateEndpoint, wf_endpoint.
    by rewrite !bind_unit_ok, !fail_if_tt, !negb_false_iff, empty_false. }
  assert (Forall (fun e => validateEndpoint (PeerConfig_ID p) e = Ok tt) (PeerConfig_Endpoints p) <->
    Forall wf_endpoint (PeerConfig_Endpoints p)) as Hes.
  { rewrite !Forall_forall. by setoid_rewrite He. }
  setoid_rewrite Hes. split.
  - intros (? & ? & ? & [? ?] & us & [_ ?] & _). split; [done|]. by split.
  - intros (? & [? ? ? ? ?]). split_and!; try done. eexists. by split_and!.
Qed.

(** *** The whole document *)

(** The document with the defaults filled in. *)
Definition with_defaults (c : Config) : Config :=
  let m := Config_Metadata c in
  mkConfig (Config_NodeName c) (Config_Listen c)
    (set_APIMode (or_default (APIEncryptionConfig_Mode (APIConfig_Encryption (Config_API c))) "auto") (Config_API c))
    (Config_Logging c) (Config_Transfer c) (Config_Backup c) (Config_WebGUI c) (norm_identity (Config_Identity c))
    (norm_discovery (Config_Discovery c))
    (mkMetadataConfig (or_default (MetadataConfig_Backend m) "json") (MetadataConfig_Path m) (MetadataConfig_PerFolder m))
    (Config_Maintenance c) (Config_Peers c) (norm_folder <$> Config_Folders c).

Lemma validateMetadata_ok m m' : validateMetadata m = Ok m' <->
  m' = mkMetadataConfig (or_default (MetadataConfig_Backend m) "json") (MetadataConfig_Path m) (MetadataConfig_PerFolder m) /\
  MetadataConfig_Backend m' ∈ ["json"; "badger"] /\ (MetadataConfig_PerFolder m' = true -> MetadataConfig_Backend m' = "badger").
Proof.
  unfold validateMetadata. cbv zeta. rewrite !bind_unit_ok, !fail_if_tt, one_of_check, andb_false_iff, negb_false_iff,
    bool_decide_eq_true. split.
  - intros (? & H & [= <-]). cbn. split_and!; try done. intros E. rewrite E in H. by destruct H.
  - intros (-> & ? & H). cbn in *. split_and!; [done| |done]. destruct (MetadataConfig_PerFolder m); auto.
Qed.

Lemma Forall2_norm {A} (n : A -> A) (P : A -> Prop) l l' :
  Forall2 (fun x y => y = n x /\ P y) l l' <-> l' = n <$> l /\ Forall P l'.
Proof.
  revert l'. induction l as [|x l IH]; intros l'.
  - split; [intros H; inversion H; by split|intros [-> _]; constructor].
  - split.
    + intros H. inversion H as [|? y ? ys [-> ?] Hys]; subst. apply IH in Hys as [-> ?]. split; [done|by constructor].
    + intros [-> H]. apply Forall_cons in H as [? ?]. constructor; [done|]. by apply IH.
Qed.

Lemma Forall2_left {A B} (P : A -> Prop) (l : list A) (l' : list B) :
  Forall2 (fun x _ => P x) l l' <-> length l = length l' /\ Forall P l.
Proof.
  revert l'. induction l as [|x l IH]; intros [|y l']; rewrite ?Forall_nil, ?Forall_cons.
  - split; [done|constructor].
  - split; [intros H; inversion H|by intros []].
  - split; [intros H; inversion H|by intros []].
  - rewrite Forall2_cons, IH. cbn. intuition lia.
Qed.

Lemma validateFolders_ok l l' :
  each_fresh FolderConfig_ID (validateFolder float_fraction) ∅ l = Ok l' <->
  l' = norm_folder <$> l /\ Forall wf_folder l' /\ NoDup (FolderConfig_ID <$> l').
Proof.
  rewrite (each_fresh_ok _ _ (fun f f' => f' = norm_folder f /\ wf_folder f') ∅ l l') by apply validateFolder_ok.
  rewrite Forall2_norm. assert (FolderConfig_ID <$> (norm_folder <$> l) = FolderConfig_ID <$> l) as Hid
    by (rewrite <- list_fmap_compose; by apply list_fmap_ext). split.
  - intros ([-> ?] & ? & _). by rewrite Hid.
  - intros (-> & ? & Hn). rewrite Hid in Hn. split; [done|]. split; [done|]. apply Forall_true. set_solver.
Qed.

Lemma validatePeers_ok l : (exists us, each_fresh PeerConfig_ID validatePeer ∅ l = Ok us) <->
  Forall wf_peer l /\ NoDup (PeerConfig_ID <$> l).
Proof.
  setoid_rewrite (each_fresh_ok _ _ (fun p _ => wf_peer p) ∅ l); [|apply validatePeer_ok].
  setoid_rewrite Forall2_left. split.
  - by intros (us & [_ ?] & ? & _).
  - intros [? ?]. exists ((fun _ => tt) <$> l). rewrite length_fmap. split; [done|]. split; [done|]. apply Forall_true. set_solver.
Qed.

Lemma discovery_enabled_check d : DiscoveryConfig_Disabled d && (DiscoveryConfig_DHT d || DiscoveryConfig_Local d) = false <->
  ~ (DiscoveryConfig_Disabled d = true /\ (DiscoveryConfig_DHT d = true \/ DiscoveryConfig_Local d = true)).
Proof. destruct (DiscoveryConfig_Disabled d), (DiscoveryConfig_DHT d), (DiscoveryConfig_Local d); cbn; intuition congruence. Qed.

(** Validation accepts exactly the documents whose completed form is well formed. *)
Lemma Validate_spec c c' : Validate float_fraction c = Ok c' <-> c' = with_defaults c /\ wf_config c'.
Proof.
  unfold Validate. cbv zeta. rewrite bind_unit_ok, fail_if_tt, empty_false, bind_unit_ok, fail_if_tt, discovery_enabled_check,
    bind_unit_ok. unfold validateLoggingConfig. rewrite fail_if_tt, one_of_check. split.
  - intros (Hname & Hdis & Hlog & H). apply result_bind_ok in H as (api & [-> Hapi]%validateAPIConfig_ok & H).
    apply bind_unit_ok in H as [Htr%validateTransferConfig_ok H]. apply bind_unit_ok in H as [Hb H].
    unfold validateBackupConfig in Hb. rewrite fail_if_tt, one_of_check in Hb.
    apply bind_unit_ok in H as [Hw0 H]. pose proof (proj1 (validateWebGUIConfig_ok _) Hw0) as Hw.
    apply result_bind_ok in H as (m & (-> & Hm1 & Hm2)%validateMetadata_ok & H).
    apply result_bind_ok in H as (d & Hdv & H). apply (validateDiscovery_ok _ _ Hdis) in Hdv as [-> Hd].
    apply result_bind_ok in H as (i & Hi & H). apply bind_unit_ok in H as [Hmn%validateMaintenanceConfig_ok H].
    apply result_bind_ok in H as (gs & Hg & H). apply result_bind_ok in H as (rs & Hr & H).
    destruct (proj1 (validateIdentity_ok (Config_Identity c) i)) as [-> Hwi]; [split_and!; [done|by eexists..]|].
    apply result_bind_ok in H as (fs & (-> & Hf & Hfn)%validateFolders_ok & H).
    apply result_bind_ok in H as (us & Hp & [= <-]).
    destruct (proj1 (validatePeers_ok (Config_Peers c))) as [Hps Hpn]; [by eexists|]. split; [done|]. by split.
  - intros [-> [Hname Hlog Hapi Htr Hb Hw Hm1 Hm2 Hd Hi Hmn Hf Hfn Hp Hpn]]. cbn in *. split; [done|].
    assert (~ (DiscoveryConfig_Disabled (Config_Discovery c) = true /\
      (DiscoveryConfig_DHT (Config_Discovery c) = true \/ DiscoveryConfig_Local (Config_Discovery c) = true))) as Hdis.
    { pose proof (wd_disabled _ Hd) as Hw0. unfold norm_discovery, set_NetworkHints, set_DHTNamespace in Hw0.
      destruct (_ && _) in Hw0; cbn in Hw0; intros [E1 E2]; destruct (Hw0 E1) as [E3 E4]; rewrite E3, E4 in E2; naive_solver. }
    split; [done|]. split; [done|]. apply result_bind_ok. eexists. split; [by apply validateAPIConfig_ok|].
    apply bind_unit_ok. split; [by apply validateTransferConfig_ok|]. apply bind_unit_ok. split.
    { unfold validateBackupConfig. by rewrite fail_if_tt, one_of_check. }
    apply bind_unit_ok. split; [by apply validateWebGUIConfig_ok|]. apply result_bind_ok. eexists.
    split; [by apply validateMetadata_ok|]. apply result_bind_ok. eexists. split; [by apply validateDiscovery_ok|].
    destruct (proj2 (validateIdentity_ok (Config_Identity c) _) (conj eq_refl Hi)) as (Hil & [gs Hg] & [rs Hr]).
    apply result_bind_ok. eexists. split; [exact Hil|]. apply bind_unit_ok. split; [by apply validateMaintenanceConfig_ok|].
    apply result_bind_ok. eexists. split; [exact Hg|]. apply result_bind_ok. eexists. split; [exact Hr|].
    apply result_bind_ok. eexists. split; [by apply validateFolders_ok|]. apply result_bind_ok.
    destruct (proj2 (validatePeers_ok (Config_Peers c)) (conj Hp Hpn)) as [us Hus]. eexists. by split; [exact Hus|].
Qed.

(** A well-formed document has nothing left to fill in. *)
Lemma norm_folder_wf f : wf_folder f -> norm_folder f = f.
Proof.
  intros [_ He _ Hm Hs [Hp _ _] _]. destruct f as [? ? en ? ? ? mode size ? ? [pmode ? ? ? ? ?] ? set]. cbn in *.
  unfold norm_folder, norm_permissions, SharingEnabled. cbn. f_equal.
  - destruct set, en; cbn; naive_solver.
  - apply or_default_same. set_solver.
  - destruct (Z.eqb_spec size 0); [lia|done].
  - f_equal. apply or_default_same. set_solver.
Qed.

Lemma norm_mapping_wf m : wf_mapping m -> norm_mapping m = m.
Proof.
  intros [[Hh _] _ Hc _]. destruct m as [h p c cp]. unfold norm_mapping. cbn in *. rewrite Hh. f_equal.
  destruct Hc as [-> | [Hc _]]; [done|exact Hc].
Qed.

Lemma fmap_fixed {A} (n : A -> A) (P : A -> Prop) l : (forall x, P x -> n x = x) -> Forall P l -> n <$> l = l.
Proof. intros H. induction 1 as [|x l Hx _ IH]; [done|]. rewrite fmap_cons, IH, H; done. Qed.

Lemma norm_discovery_wf d : wf_discovery d -> norm_discovery d = d.
Proof.
  intros [_ Hn _ _ _ _ Hi Hc Hm]. destruct d as [? dht ? ns ? ? [ips cidrs maps] ?]. cbn in *.
  unfold norm_discovery, set_DHTNamespace. cbn.
  assert (dht && empty ns = false) as -> by (destruct dht; cbn; [apply empty_false; auto|done]).
  unfold set_NetworkHints, norm_hints. cbn.
  rewrite (fmap_fixed trim_space trimmed_ip), (fmap_fixed trim_space _ cidrs (fun s H => proj1 H) Hc),
    (fmap_fixed norm_mapping wf_mapping); [done|apply norm_mapping_wf|done|by intros ? []|done].
Qed.

Lemma with_defaults_wf c : wf_config c -> with_defaults c = c.
Proof.
  intros [_ _ Ha _ _ _ Hm _ Hd Hi _ Hf _ _ _].
  destruct c as [? ? [? ? ? [mode ? ? ?]] ? ? ? ? [? ? level ? ? set] d [backend ? ?] ? ? fs]. cbn in *.
  unfold with_defaults. cbn. rewrite norm_discovery_wf by done. rewrite (fmap_fixed norm_folder wf_folder) by (done || apply norm_folder_wf).
  f_equal.
  - unfold set_APIMode. cbn. f_equal. f_equal. apply or_default_same. pose proof (wa_mode _ Ha) as H. cbn in H. set_solver.
  - unfold norm_identity, set_IdentityLevel, default_level. cbn. f_equal. pose proof (wi_set _ Hi) as H. cbn in H.
    destruct (Z.eqb_spec level 0), set; cbn; try done. by specialize (H e).
  - f_equal. apply or_default_same. set_solver.
Qed.
End wf.

(** [C31] Validation decides well-formedness.  [Validate] accepts a document exactly
    when the document with its defaults filled in is well formed: names present,
    folder, peer and group ids unique, every mode, level, port, address, duration
    and budget in range; it then returns that completed document, and a document it
    returned (or any other well-formed one) passes again unchanged. *)
Theorem Validate_wf float_fraction c c' :
  (Validate float_fraction c = Ok c' <-> c' = with_defaults c /\ wf_config float_fraction c') /\
  (Validate float_fraction c = Ok c <-> wf_config float_fraction c).
Proof.
  split; [apply Validate_spec|]. rewrite Validate_spec. split; [by intros []|].
  intros H. by rewrite with_defaults_wf with (float_fraction := float_fraction).
Qed.

(** The transfer limit of a direction, on the two sides of it. *)
Definition cap (peerCap globalCap : Z) : Z := (peerCapOrGlobalWithCause peerCap globalCap EmptyString EmptyString).1.

Definition lowest (a b : Z) : Z := (lowestNonZeroWithCause a EmptyString b EmptyString).1.

Lemma cap_pair p g pc gc : exists cause, peerCapOrGlobalWithCause p g pc gc = (cap p g, cause).
Proof. unfold cap, peerCapOrGlobalWithCause. repeat case_match; by eexists. Qed.

Lemma lowest_pair a ac b bc : exists cause, lowestNonZeroWithCause a ac b bc = (lowest a b, cause).
Proof. unfold lowest, lowestNonZeroWithCause. repeat case_match; by eexists. Qed.

Lemma cap_nonneg p g : 0 <= cap p g.
Proof. unfold cap, peerCapOrGlobalWithCause. destruct (Z.ltb_spec 0 p), (Z.ltb_spec 0 g); cbn; lia. Qed.

Lemma lowest_spec a b : 0 <= a -> 0 <= b ->
  lowest a b = lowest b a /\ (lowest a b = 0 <-> a = 0 /\ b = 0) /\ (a <> 0 -> lowest a b <= a) /\ (b <> 0 -> lowest a b <= b).
Proof.
  intros Ha Hb. unfold lowest, lowestNonZeroWithCause.
  destruct (Z.eqb_spec a 0), (Z.eqb_spec b 0), (Z.leb_spec a b), (Z.leb_spec b a); cbn; lia.
Qed.

Lemma EffectiveTransferLimits_eq lg lp rg rp : EffectiveTransferLimits lg lp rg rp =
  mkTransferConfig
    (lowest (cap (PeerConfig_SendBytesPerSecond lp) (TransferConfig_SendBytesPerSecond lg))
       (cap (PeerConfig_ReceiveBytesPerSecond rp) (TransferConfig_ReceiveBytesPerSecond rg)))
    (lowest (cap (PeerConfig_ReceiveBytesPerSecond lp) (TransferConfig_ReceiveBytesPerSecond lg))
       (cap (PeerConfig_SendBytesPerSecond rp) (TransferConfig_SendBytesPerSecond rg))).
Proof.
  unfold EffectiveTransferLimits, EffectiveTransferLimitDetails.
  do 4 match goal with |- context [peerCapOrGlobalWithCause ?p ?g ?pc ?gc] =>
    destruct (cap_pair p g pc gc) as [? ->]; cbn iota beta end.
  do 2 match goal with |- context [lowestNonZeroWithCause ?a ?ac ?b ?bc] =>
    destruct (lowest_pair a ac b bc) as [? ->]; cbn iota beta end.
  done.
Qed.

(** The two peers of a link compute the same limit for each direction: it is
    at most each of the caps in force, and there is none only when neither side
    has a cap. *)
Theorem transfer_limits_agree lg lp rg rp :
  let here := EffectiveTransferLimits lg lp rg rp in
  let there := EffectiveTransferLimits rg rp lg lp in
  let send := cap (PeerConfig_SendBytesPerSecond lp) (TransferConfig_SendBytesPerSecond lg) in
  let receive := cap (PeerConfig_ReceiveBytesPerSecond rp) (TransferConfig_ReceiveBytesPerSecond rg) in
  TransferConfig_SendBytesPerSecond here = TransferConfig_ReceiveBytesPerSecond there /\
  TransferConfig_ReceiveBytesPerSecond here = TransferConfig_SendBytesPerSecond there /\
  (TransferConfig_SendBytesPerSecond here = 0 <-> send = 0 /\ receive = 0) /\
  (send <> 0 -> TransferConfig_SendBytesPerSecond here <= send) /\
  (receive <> 0 -> TransferConfig_SendBytesPerSecond here <= receive).
Proof.
  cbv zeta. rewrite !EffectiveTransferLimits_eq. cbn.
  destruct (lowest_spec (cap (PeerConfig_SendBytesPerSecond lp) (TransferConfig_SendBytesPerSecond lg))
    (cap (PeerConfig_ReceiveBytesPerSecond rp) (TransferConfig_ReceiveBytesPerSecond rg))) as (? & ? & ? & ?); [apply cap_nonneg..|].
  split_and!; [done| |done..]. apply lowest_spec; apply cap_nonneg.
Qed.

(** *** A concrete document *)

Definition demo_maintenance : MaintenanceConfig := mkMaintenanceConfig false EmptyString false 0 0 0 0 EmptyString 0 false.

Definition demo_folder (id : string) : FolderConfig :=
  mkFolderConfig id "/srv" true EmptyString EmptyString EmptyString EmptyString 0 [] []
    (mkPermissionPolicy EmptyString EmptyString EmptyString false false false) demo_maintenance false.

Definition demo_peer (id kind : string) : PeerConfig :=
  mkPeerConfig id EmptyString EmptyString EmptyString EmptyString EmptyString [] 0 0 0 []
    [mkEndpointConfig kind "//host:1" EmptyString] false.

Definition demo_config (folders : list FolderConfig) (peers : list PeerConfig) : Config :=
  mkConfig "node" [] (mkAPIConfig "127.0.0.1:22420" "k" EmptyString (mkAPIEncryptionConfig EmptyString EmptyString EmptyString EmptyString))
    (mkLoggingConfig "info" "stderr") (mkTransferConfig 0 0) (mkBackupConfig false EmptyString EmptyString EmptyString EmptyString)
    (mkWebGUIConfig false EmptyString EmptyString EmptyString EmptyString EmptyString EmptyString EmptyString EmptyString EmptyString)
    (mkIdentityConfig EmptyString EmptyString 0 [] [] false)
    (mkDiscoveryConfig false true true EmptyString [] "30m" (mkNetworkHintsConfig [" 10.0.0.1"] ["10.0.0.0/8"] [])
       (mkNATConfig false false ["stun.example:3478"] [] 0))
    (mkMetadataConfig EmptyString EmptyString false) demo_maintenance peers folders.

Definition demo_document : Config := demo_config [demo_folder "a"; demo_folder "b"] [demo_peer "p" "manual"].

Lemma Validate_wf_witness :
  Validate (fun _ _ _ => 0) demo_document = Ok (with_defaults demo_document) /\
  wf_config (fun _ _ _ => 0) (with_defaults demo_document).
Proof.
  assert (Validate (fun _ _ _ => 0) demo_document = Ok (with_defaults demo_document)) as E by (vm_compute; reflexivity).
  split; [exact E|]. exact (proj2 (proj1 (proj1 (Validate_wf (fun _ _ _ => 0) demo_document (with_defaults demo_document))) E)).
Defined.

Example Validate_rejects_duplicates :
  Validate (fun _ _ _ => 0) (demo_config [demo_folder "a"; demo_folder "a"] []) = Err (ErrDuplicate "folder id" "a").
Proof. by vm_compute. Qed.
