(* ===== verification/ConfigOps.v ===== *)
(** * Changing the configuration file

    Models [internal/configops/mutate.go], the address checks of
    [internal/link/auth.go], the peer, folder and discovery commands of
    [internal/apicontrol/config_commands.go], and the repairs a daemon makes when it
    starts ([bootstrap.go], [discovery_default.go] and [logging_output.go] of
    [internal/config]).

    Each operation loads the file, computes a new document and replaces the file
    atomically.  A saved document spells out every encryption level and [enabled].
    Whether the replacement reaches the disk, the random API key, the environment
    and the parsing of HTTP URLs are arguments. *)

From S2P Require Import Prelude GoStd GoNet Config.
From Stdlib Require Import Ascii.

Local Open Scope Z_scope.

(** ** Strings *)

(** [strings.Cut] at a separator. *)
Fixpoint cut_str (sep s : string) : option (string * string) :=
  if has_prefix s sep then Some (EmptyString, drop_str (String.length sep) s)
  else match s with
  | EmptyString => None
  | String c s' => '(before, after) ← cut_str sep s'; Some (String c before, after)
  end.

(** The last part of [strings.Split(s, sep)]. *)
Fixpoint last_part (fuel : nat) (sep s : string) : string :=
  match fuel, cut_str sep s with
  | S fuel', Some (_, after) => last_part fuel' sep after
  | _, _ => s
  end.

Definition trim_right_slash (s : string) : string :=
  (fix right s := match s with
   | EmptyString => EmptyString
   | String c s' => match right s' with EmptyString => if bool_decide (c = slash) then EmptyString else String c EmptyString | t => String c t end
   end) s.

Definition safe_char (c : ascii) : bool :=
  let n := N_of_ascii c in
  ((97 <=? n) && (n <=? 122))%N || ((65 <=? n) && (n <=? 90))%N || ((48 <=? n) && (n <=? 57))%N
  || bool_decide (c = "-"%char) || bool_decide (c = "_"%char) || bool_decide (c = "."%char).

Definition sanitizePeerID (id : string) : string :=
  match map_runes (fun c => if safe_char c then c else "-"%char) 0 id with
  | EmptyString => "peer"
  | s => s
  end.

Definition PairedPeerID (nodeName discoveryID : string) : string :=
  let trimmed := trim_space nodeName in
  if empty trimmed || bool_decide (trimmed = "node-CHANGE-ME") then
    let prefix := take_str 12 (sanitizePeerID discoveryID) in
    "peer-" +:+ (if empty prefix then "peer" else prefix)
  else sanitizePeerID trimmed.

(** ** Addresses a pairing may keep *)

Section ops.
Context (float_fraction : Z -> Z -> Z -> Z).
(** The host name and port of an HTTP URL, as [url.Parse] finds them. *)
Context (url_host_port : string -> option (string * string)).

Definition multiaddrTarget (address : string) : string :=
  match cut_str "/p2p/" address with
  | None => EmptyString
  | Some _ =>
      let last := last_part (String.length address) "/p2p/" address in
      trim_space match index_char slash last with Some i => take_str i last | None => last end
  end.

Definition KeepPairedAddress (address dhtPeerID : string) : bool :=
  let address := trim_space address in
  if empty address then false
  else if has_prefix address "http://" || has_prefix address "https://" then
    match url_host_port address with
    | None => false
    | Some (host, port) => negb (empty host) && negb (bool_decide (port = "4001"))
    end
  else if negb (has_prefix address "/") then false
  else
    let target := multiaddrTarget address in
    let id := trim_space dhtPeerID in
    negb (empty target) && negb (empty id) && bool_decide (target = id).

Definition CircuitForPeer (address dhtPeerID : string) : string :=
  let address := trim_space address in
  let id := trim_space dhtPeerID in
  if empty address || empty id || negb (contains address "p2p-circuit") then address
  else if has_suffix address ("/p2p/" +:+ id) then address
  else
    let named := match cut_str "p2p-circuit" address with Some (_, after) => contains after "/p2p/" | None => false end in
    if named then address else trim_right_slash address +:+ "/p2p/" +:+ id.

(** ** The file *)

(** What is found under the config path: nothing, something that does not decode,
    or a document. *)
Inductive configFile := NoConfig | BadConfig | ConfigDoc (doc : Config).

Inductive OpErr :=
| OpLoad
| OpInvalid (e : ConfErr)
| OpRequired (what : string)
| OpExists (what id : string)
| OpNotFound (what id : string)
| OpBadEndpoint
| OpBadMode (mode : string)
| OpBadList (entry : string)
| OpRandom
| OpWrite
| OpUnsupported (action : string).

(** [WriteFileAtomic]: the new file is in place, it is not, or it is but syncing
    its directory failed. *)
Inductive writeOutcome := Written | NotWritten | NotSynced.

Definition validated (cfg : Config) : result OpErr Config :=
  match Validate float_fraction cfg with Ok c => Ok c | Err e => Err (OpInvalid e) end.

Definition LoadFile (file : configFile) : result OpErr Config :=
  match file with ConfigDoc doc => validated doc | _ => Err OpLoad end.

Definition set_level_flag (p : PeerConfig) : PeerConfig :=
  mkPeerConfig (PeerConfig_ID p) (PeerConfig_APIKey p) (PeerConfig_APICertificateSHA256 p) (PeerConfig_IdentityPublicKey p)
    (PeerConfig_IdentityGroupID p) (PeerConfig_DHTPeerID p) (PeerConfig_Relays p) (PeerConfig_EncryptionLevel p)
    (PeerConfig_SendBytesPerSecond p) (PeerConfig_ReceiveBytesPerSecond p) (PeerConfig_Addresses p) (PeerConfig_Endpoints p) true.

Definition set_enabled_flag (f : FolderConfig) : FolderConfig :=
  mkFolderConfig (FolderConfig_ID f) (FolderConfig_Path f) (FolderConfig_Enabled f) (FolderConfig_AdvertisedBy f)
    (FolderConfig_IdentityGroup f) (FolderConfig_SyncGroup f) (FolderConfig_Mode f) (FolderConfig_BlockSize f)
    (FolderConfig_SharedWith f) (FolderConfig_Ignore f) (FolderConfig_Permissions f) (FolderConfig_Maintenance f) true.

Definition set_identity_flag (i : IdentityConfig) : IdentityConfig :=
  mkIdentityConfig (IdentityConfig_PrivateKey i) (IdentityConfig_PublicKey i) (IdentityConfig_EncryptionLevel i)
    (IdentityConfig_Groups i) (IdentityConfig_Revoked i) true.

Definition with_sections (api : APIConfig) (logging : LoggingConfig) (identity : IdentityConfig) (discovery : DiscoveryConfig)
    (peers : list PeerConfig) (folders : list FolderConfig) (c : Config) : Config :=
  mkConfig (Config_NodeName c) (Config_Listen c) api logging (Config_Transfer c) (Config_Backup c) (Config_WebGUI c)
    identity discovery (Config_Metadata c) (Config_Maintenance c) peers folders.

(** The document a marshalled configuration decodes to. *)
Definition saved (c : Config) : Config :=
  with_sections (Config_API c) (Config_Logging c) (set_identity_flag (Config_Identity c)) (Config_Discovery c)
    (set_level_flag <$> Config_Peers c) (set_enabled_flag <$> Config_Folders c) c.

Definition set_Peers (peers : list PeerConfig) (c : Config) : Config :=
  with_sections (Config_API c) (Config_Logging c) (Config_Identity c) (Config_Discovery c) peers (Config_Folders c) c.
Definition set_Folders (folders : list FolderConfig) (c : Config) : Config :=
  with_sections (Config_API c) (Config_Logging c) (Config_Identity c) (Config_Discovery c) (Config_Peers c) folders c.
Definition set_Discovery (d : DiscoveryConfig) (c : Config) : Config :=
  with_sections (Config_API c) (Config_Logging c) (Config_Identity c) d (Config_Peers c) (Config_Folders c) c.

Definition save (w : writeOutcome) (cfg : Config) (file : configFile) : configFile * result OpErr unit :=
  match w with
  | Written => (ConfigDoc (saved cfg), Ok tt)
  | NotWritten => (file, Err OpWrite)
  | NotSynced => (ConfigDoc (saved cfg), Err OpWrite)
  end.

(** An operation: load, change, save. *)
Definition mutate (change : Config -> result OpErr Config) (w : writeOutcome) (file : configFile)
    : configFile * result OpErr unit :=
  match LoadFile file ≫= change with
  | Err e => (file, Err e)
  | Ok cfg => save w cfg file
  end.

(** ** Peers *)

(** [strings.SplitN(endpoint, ":", 2)], both parts non-empty. *)
Definition splitEndpoint (endpoint : string) : result OpErr (string * string) :=
  match index_char ":"%char endpoint with
  | None => Err OpBadEndpoint
  | Some i =>
      let kind := take_str i endpoint in
      let address := drop_str (S i) endpoint in
      if empty kind || empty address then Err OpBadEndpoint else Ok (kind, address)
  end.

Definition newPeer (id kind address : string) : PeerConfig :=
  mkPeerConfig id EmptyString EmptyString EmptyString EmptyString EmptyString [] 0 0 0 []
    [mkEndpointConfig kind address EmptyString] false.

Definition addPeer (id endpoint : string) (cfg : Config) : result OpErr Config :=
  _ ← fail_if (empty id) (OpRequired "peer id");
  '(kind, address) ← splitEndpoint endpoint;
  _ ← fail_if (existsb (fun p => bool_decide (PeerConfig_ID p = id)) (Config_Peers cfg)) (OpExists "peer" id);
  Ok (set_Peers (Config_Peers cfg ++ [newPeer id kind address]) cfg).

(** The first element that satisfies [p], changed. *)
Fixpoint update_first {A} (p : A -> bool) (f : A -> A) (l : list A) : option (list A) :=
  match l with
  | [] => None
  | x :: l' => if p x then Some (f x :: l') else (x ::.) <$> update_first p f l'
  end.

Fixpoint remove_first {A} (p : A -> bool) (l : list A) : option (list A) :=
  match l with
  | [] => None
  | x :: l' => if p x then Some l' else (x ::.) <$> remove_first p l'
  end.

Definition found {A} (what id : string) (r : option A) : result OpErr A :=
  match r with Some x => Ok x | None => Err (OpNotFound what id) end.

Definition set_Endpoints (endpoints : list EndpointConfig) (p : PeerConfig) : PeerConfig :=
  mkPeerConfig (PeerConfig_ID p) (PeerConfig_APIKey p) (PeerConfig_APICertificateSHA256 p) (PeerConfig_IdentityPublicKey p)
    (PeerConfig_IdentityGroupID p) (PeerConfig_DHTPeerID p) (PeerConfig_Relays p) (PeerConfig_EncryptionLevel p)
    (PeerConfig_SendBytesPerSecond p) (PeerConfig_ReceiveBytesPerSecond p) (PeerConfig_Addresses p) endpoints
    (PeerConfig_encryptionLevelSet p).

Definition has_peer_id (id : string) (p : PeerConfig) : bool := bool_decide (PeerConfig_ID p = id).

Definition updatePeer (id endpoint : string) (cfg : Config) : result OpErr Config :=
  '(kind, address) ← splitEndpoint endpoint;
  peers ← found "peer" id (update_first (has_peer_id id) (set_Endpoints [mkEndpointConfig kind address EmptyString]) (Config_Peers cfg));
  validated (set_Peers peers cfg).

Definition removePeer (id : string) (cfg : Config) : result OpErr Config :=
  peers ← found "peer" id (remove_first (has_peer_id id) (Config_Peers cfg));
  Ok (set_Peers peers cfg).

Definition authenticatedPeer (peer : PeerConfig) : PeerConfig :=
  mkPeerConfig (PeerConfig_ID peer) (PeerConfig_APIKey peer) (PeerConfig_APICertificateSHA256 peer)
    (PeerConfig_IdentityPublicKey peer) (PeerConfig_IdentityGroupID peer) (PeerConfig_DHTPeerID peer)
    (List.filter (fun relay => KeepPairedAddress relay (PeerConfig_DHTPeerID peer))
       ((fun relay => CircuitForPeer relay (PeerConfig_DHTPeerID peer)) <$> PeerConfig_Relays peer))
    (PeerConfig_EncryptionLevel peer) (PeerConfig_SendBytesPerSecond peer) (PeerConfig_ReceiveBytesPerSecond peer)
    (PeerConfig_Addresses peer)
    (List.filter (fun e => KeepPairedAddress (EndpointConfig_Address e) (PeerConfig_DHTPeerID peer)) (PeerConfig_Endpoints peer))
    (PeerConfig_encryptionLevelSet peer).

Definition set_peer_ID (id : string) (level : Z) (p : PeerConfig) : PeerConfig :=
  mkPeerConfig id (PeerConfig_APIKey p) (PeerConfig_APICertificateSHA256 p) (PeerConfig_IdentityPublicKey p)
    (PeerConfig_IdentityGroupID p) (PeerConfig_DHTPeerID p) (PeerConfig_Relays p) level
    (PeerConfig_SendBytesPerSecond p) (PeerConfig_ReceiveBytesPerSecond p) (PeerConfig_Addresses p) (PeerConfig_Endpoints p)
    (PeerConfig_encryptionLevelSet p).

Definition or_list {A} (new old : list A) : list A := match new with [] => old | _ => new end.

(** What a pairing changes in the peer it is for. *)
Definition pairedUpdate (peer old : PeerConfig) : PeerConfig :=
  mkPeerConfig (PeerConfig_ID old) (PeerConfig_APIKey peer) (PeerConfig_APICertificateSHA256 peer)
    (PeerConfig_IdentityPublicKey peer) (PeerConfig_IdentityGroupID old)
    (if empty (PeerConfig_DHTPeerID peer) then PeerConfig_DHTPeerID old else PeerConfig_DHTPeerID peer)
    (or_list (PeerConfig_Relays peer) (PeerConfig_Relays old)) (PeerConfig_EncryptionLevel old)
    (PeerConfig_SendBytesPerSecond old) (PeerConfig_ReceiveBytesPerSecond old) (PeerConfig_Addresses old)
    (or_list (PeerConfig_Endpoints peer) (PeerConfig_Endpoints old)) (PeerConfig_encryptionLevelSet old).

Definition samePeer (peer old : PeerConfig) : bool :=
  (negb (empty (PeerConfig_IdentityPublicKey peer)) && bool_decide (PeerConfig_IdentityPublicKey old = PeerConfig_IdentityPublicKey peer))
  || (bool_decide (PeerConfig_ID old = PeerConfig_ID peer) &&
      (empty (PeerConfig_IdentityPublicKey old) || bool_decide (PeerConfig_IdentityPublicKey old = PeerConfig_IdentityPublicKey peer))).

Definition upsertPairedPeer (peer0 : PeerConfig) (cfg : Config) : result OpErr Config :=
  let peer1 := authenticatedPeer peer0 in
  let id := if empty (PeerConfig_ID peer1) then PairedPeerID (PeerConfig_ID peer1) (PeerConfig_IdentityPublicKey peer1) else PeerConfig_ID peer1 in
  let level := if PeerConfig_EncryptionLevel peer1 =? 0 then DefaultEncryptionLevel else PeerConfig_EncryptionLevel peer1 in
  let peer := set_peer_ID id level peer1 in
  match update_first (samePeer peer) (pairedUpdate peer) (Config_Peers cfg) with
  | Some peers => validated (set_Peers peers cfg)
  | None =>
      let id' :=
        if existsb (has_peer_id id) (Config_Peers cfg)
        then take_str 48 (id +:+ "-" +:+ sanitizePeerID (PeerConfig_IdentityPublicKey peer)) else id in
      validated (set_Peers (Config_Peers cfg ++ [set_peer_ID id' level peer]) cfg)
  end.

Definition unionString (acc : gset string * list string) (value : string) : gset string * list string :=
  let value := trim_space value in
  if empty value || bool_decide (value ∈ acc.1) then acc else ({[value]} ∪ acc.1, acc.2 ++ [value]).

Definition unionStrings (left right : list string) : list string := (foldl unionString (∅, []) (left ++ right)).2.

Definition mergeEndpoint (acc : gset string * list EndpointConfig) (e : EndpointConfig) : gset string * list EndpointConfig :=
  if empty (EndpointConfig_Address e) || bool_decide (EndpointConfig_Address e ∈ acc.1) then acc
  else ({[EndpointConfig_Address e]} ∪ acc.1, acc.2 ++ [e]).

Definition mergeLink (peer old : PeerConfig) : PeerConfig :=
  mkPeerConfig (PeerConfig_ID old) (PeerConfig_APIKey old) (PeerConfig_APICertificateSHA256 old)
    (PeerConfig_IdentityPublicKey old) (PeerConfig_IdentityGroupID old)
    (if empty (PeerConfig_DHTPeerID peer) then PeerConfig_DHTPeerID old else PeerConfig_DHTPeerID peer)
    (unionStrings (PeerConfig_Relays old) (PeerConfig_Relays peer)) (PeerConfig_EncryptionLevel old)
    (PeerConfig_SendBytesPerSecond old) (PeerConfig_ReceiveBytesPerSecond old) (PeerConfig_Addresses old)
    (foldl mergeEndpoint (list_to_set (EndpointConfig_Address <$> PeerConfig_Endpoints old), PeerConfig_Endpoints old)
       (PeerConfig_Endpoints peer)).2
    (PeerConfig_encryptionLevelSet old).

Definition linkTarget (peerID : string) (peer old : PeerConfig) : bool :=
  bool_decide (PeerConfig_ID old = peerID) ||
  (negb (empty (PeerConfig_IdentityPublicKey peer)) && bool_decide (PeerConfig_IdentityPublicKey old = PeerConfig_IdentityPublicKey peer)).

Definition mergePairedPeerLink (peerID : string) (peer0 : PeerConfig) (cfg : Config) : result OpErr Config :=
  let peer := authenticatedPeer peer0 in
  peers ← found "peer" peerID (update_first (linkTarget peerID peer) (mergeLink peer) (Config_Peers cfg));
  validated (set_Peers peers cfg).

(** ** Folders *)

(** The mode, and whether one was named. *)
Definition NormalizeFolderMode (mode : string) : result OpErr (string * bool) :=
  let m := to_lower (trim_space mode) in
  if empty m then Ok (EmptyString, false)
  else if one_of m [ModeSendReceive; "sendreceive"; "send-recv"] then Ok (ModeSendReceive, true)
  else if one_of m [ModeSendOnly; "send"] then Ok (ModeSendOnly, true)
  else if one_of m [ModeReceiveOnly; "recv"; "receive"] then Ok (ModeReceiveOnly, true)
  else Err (OpBadMode mode).

Definition nul : ascii := "000"%char.

Fixpoint cleanList (seen : gset string) (values : list string) : result OpErr (list string) :=
  match values with
  | [] => Ok []
  | value :: rest =>
      let trimmed := trim_space value in
      if empty trimmed then cleanList seen rest
      else if (512 <? str_len trimmed) || contains_char trimmed nul then Err (OpBadList trimmed)
      else if bool_decide (trimmed ∈ seen) then cleanList seen rest
      else out ← cleanList ({[trimmed]} ∪ seen) rest; Ok (trimmed :: out)
  end.

(** A list that is not mentioned stays [None]. *)
Definition cleanFolderList (values : option (list string)) : result OpErr (option (list string)) :=
  match values with
  | None => Ok None
  | Some l => out ← cleanList ∅ l; Ok (Some out)
  end.

Definition has_folder_id (id : string) (f : FolderConfig) : bool := bool_decide (FolderConfig_ID f = id).

Definition newFolder (id path mode : string) (sharedWith : list string) : FolderConfig :=
  mkFolderConfig id path true EmptyString EmptyString EmptyString mode DefaultBlockSize sharedWith []
    (mkPermissionPolicy EmptyString EmptyString EmptyString false false false)
    (mkMaintenanceConfig false EmptyString false 0 0 0 0 EmptyString 0 false) false.

(** [AddFolder] and, with an allow-list, [AddFolderShared]. *)
Definition addFolder (id path mode : string) (sharedWith : option (list string)) (cfg : Config) : result OpErr Config :=
  '(normalized, _) ← NormalizeFolderMode mode;
  shared ← cleanFolderList sharedWith;
  _ ← fail_if (existsb (has_folder_id id) (Config_Folders cfg)) (OpExists "folder" id);
  validated (set_Folders (Config_Folders cfg ++ [newFolder id path (or_default normalized ModeSendReceive) (default [] shared)]) cfg).

Record FolderUpdate := mkFolderUpdate {
  FolderUpdate_Path : string;
  FolderUpdate_Mode : string;
  FolderUpdate_SharedWith : option (list string);
  FolderUpdate_Ignore : option (list string);
  FolderUpdate_Enabled : option bool
}.

Definition updateFolder (path : string) (mode : option string) (shared ignore : option (list string)) (enabled : option bool)
    (f : FolderConfig) : FolderConfig :=
  mkFolderConfig (FolderConfig_ID f) (if empty (trim_space path) then FolderConfig_Path f else trim_space path)
    (default (FolderConfig_Enabled f) enabled) (FolderConfig_AdvertisedBy f) (FolderConfig_IdentityGroup f)
    (FolderConfig_SyncGroup f) (default (FolderConfig_Mode f) mode) (FolderConfig_BlockSize f)
    (default (FolderConfig_SharedWith f) shared) (default (FolderConfig_Ignore f) ignore) (FolderConfig_Permissions f)
    (FolderConfig_Maintenance f) (match enabled with Some _ => true | None => FolderConfig_enabledSet f end).

Definition updateFolderDetails (id : string) (update : FolderUpdate) (cfg : Config) : result OpErr Config :=
  '(mode, setMode) ← NormalizeFolderMode (FolderUpdate_Mode update);
  shared ← cleanFolderList (FolderUpdate_SharedWith update);
  ignore ← cleanFolderList (FolderUpdate_Ignore update);
  folders ← found "folder" id (update_first (has_folder_id id)
    (updateFolder (FolderUpdate_Path update) (if setMode : bool then Some mode else None) shared ignore (FolderUpdate_Enabled update))
    (Config_Folders cfg));
  validated (set_Folders folders cfg).

Definition removeFolder (id : string) (cfg : Config) : result OpErr Config :=
  folders ← found "folder" id (remove_first (has_folder_id id) (Config_Folders cfg));
  Ok (set_Folders folders cfg).

Definition updateDiscovery (d : DiscoveryConfig) (cfg : Config) : result OpErr Config := validated (set_Discovery d cfg).

(** ** Commands of the API *)

Inductive peerAction := PeerAdd | PeerRemove | PeerUpdate | PeerOther (action : string).

Definition HandlePeerCommand (action : peerAction) (id endpoint : string) (w : writeOutcome) (file : configFile)
    : configFile * result OpErr unit :=
  match action with
  | PeerAdd => mutate (addPeer id endpoint) w file
  | PeerRemove => mutate (removePeer id) w file
  | PeerUpdate => mutate (updatePeer id endpoint) w file
  | PeerOther a => (file, Err (OpUnsupported a))
  end.

Inductive folderAction := FolderAdd | FolderRemove | FolderChange | FolderPause | FolderResume | FolderOther (action : string).

Record FolderCommandRequest := mkFolderCommandRequest {
  fcr_ID : string;
  fcr_Path : string;
  fcr_Mode : string;
  fcr_SharedWith : option (list string);
  fcr_Ignore : option (list string);
  fcr_Enabled : option bool
}.

Definition onlyIgnore (ignore : option (list string)) : FolderUpdate := mkFolderUpdate EmptyString EmptyString None ignore None.
Definition onlyEnabled (enabled : bool) : FolderUpdate := mkFolderUpdate EmptyString EmptyString None None (Some enabled).

(** [HandleFolderCommand], without the rescan action: adding with an ignore list
    writes the file twice. *)
Definition HandleFolderCommand (action : folderAction) (req : FolderCommandRequest) (w w' : writeOutcome) (file : configFile)
    : configFile * result OpErr unit :=
  let id := fcr_ID req in
  match action with
  | FolderAdd =>
      match mutate (addFolder id (fcr_Path req) (fcr_Mode req) (Some (default [] (fcr_SharedWith req)))) w file, fcr_Ignore req with
      | (file', Ok _), Some ignore => mutate (updateFolderDetails id (onlyIgnore (Some ignore))) w' file'
      | r, _ => r
      end
  | FolderRemove => mutate (removeFolder id) w file
  | FolderChange =>
      mutate (updateFolderDetails id
        (mkFolderUpdate (fcr_Path req) (fcr_Mode req) (fcr_SharedWith req) (fcr_Ignore req) (fcr_Enabled req))) w file
  | FolderPause => mutate (updateFolderDetails id (onlyEnabled false)) w file
  | FolderResume => mutate (updateFolderDetails id (onlyEnabled true)) w file
  | FolderOther a => (file, Err (OpUnsupported a))
  end.

Record DiscoveryCommandRequest := mkDiscoveryCommandRequest {
  dcr_Action : string;
  dcr_Disabled : bool;
  dcr_DHT : bool;
  dcr_Local : bool;
  dcr_DHTNamespace : string;
  dcr_DHTBootstrapPeers : list string;
  dcr_NetworkHints : NetworkHintsConfig
}.

Definition zeroNAT : NATConfig := mkNATConfig false false [] [] 0.

(** The request has no pairing-code lifetime and no NAT settings: both become
    empty. *)
Definition requestedDiscovery (req : DiscoveryCommandRequest) : DiscoveryConfig :=
  mkDiscoveryConfig (dcr_Disabled req) (dcr_DHT req) (dcr_Local req) (dcr_DHTNamespace req) (dcr_DHTBootstrapPeers req)
    EmptyString (dcr_NetworkHints req) zeroNAT.

Definition HandleDiscoveryCommand (req : DiscoveryCommandRequest) (w : writeOutcome) (file : configFile)
    : configFile * result OpErr unit :=
  if bool_decide (dcr_Action req = "update") then mutate (updateDiscovery (requestedDiscovery req)) w file
  else (file, Err (OpUnsupported (dcr_Action req))).

(** ** Repairs at start *)

Definition set_APIKey (key listen : string) (a : APIConfig) : APIConfig :=
  mkAPIConfig listen key (APIConfig_AdvertiseURL a) (APIConfig_Encryption a).

(** [EnsureAPIKey]: the loaded configuration and whether the file changed. *)
Definition EnsureAPIKey (random : option string) (w : writeOutcome) (file : configFile)
    : configFile * result OpErr (Config * bool) :=
  match LoadFile file with
  | Err e => (file, Err e)
  | Ok cfg =>
      if negb (empty (APIConfig_Key (Config_API cfg))) then (file, Ok (cfg, false))
      else match random with
      | None => (file, Err OpRandom)
      | Some key =>
          let api := Config_API cfg in
          let cfg' := with_sections (set_APIKey key (or_default (APIConfig_Listen api) "127.0.0.1:22420") api) (Config_Logging cfg)
                        (Config_Identity cfg) (Config_Discovery cfg) (Config_Peers cfg) (Config_Folders cfg) cfg in
          match save w cfg' file with
          | (file', Ok _) => (file', Ok (cfg', true))
          | (file', Err e) => (file', Err e)
          end
      end
  end.

Definition set_DHT (on : bool) (d : DiscoveryConfig) : DiscoveryConfig :=
  mkDiscoveryConfig (DiscoveryConfig_Disabled d) on (DiscoveryConfig_Local d) (DiscoveryConfig_DHTNamespace d)
    (DiscoveryConfig_DHTBootstrapPeers d) (DiscoveryConfig_PairingCodeTTL d) (DiscoveryConfig_NetworkHints d)
    (DiscoveryConfig_NAT d).

Definition shippedDHTBootstrapPeer : string := "/dnsaddr/bootstrap.libp2p.io".

Definition shippedBootstrap (peers : list string) : bool :=
  match peers with [] => true | [p] => bool_decide (p = shippedDHTBootstrapPeer) | _ => false end.

(** [env] is [FSE_DISCOVERY_DHT]. *)
Definition EnableShippedDefaultDHT (env : option string) (cfg : Config) : Config * bool :=
  let d := Config_Discovery cfg in
  let automatic :=
    if DiscoveryConfig_DHT d || DiscoveryConfig_Disabled d || negb (DiscoveryConfig_Local d) then (cfg, false)
    else if negb (shippedBootstrap (DiscoveryConfig_DHTBootstrapPeers d)) then (cfg, false)
    else (set_Discovery (set_DHT true d) cfg, true) in
  match env with
  | Some value =>
      if empty (trim_space value) then automatic
      else
        let want := equal_fold (trim_space value) "true" in
        if Bool.eqb (DiscoveryConfig_DHT d) want then (cfg, false) else (set_Discovery (set_DHT want d) cfg, true)
  | None => automatic
  end.

Definition PersistShippedDefaultDHT (env : option string) (cfg : Config) (w : writeOutcome) (file : configFile)
    : configFile * result OpErr Config :=
  match EnableShippedDefaultDHT env cfg with
  | (_, false) => (file, Ok cfg)
  | (updated, true) =>
      match save w updated file with
      | (file', Ok _) => (file', Ok updated)
      | (file', Err e) => (file', Err e)
      end
  end.

(** [PersistLoggingOutput]; [output] is [DefaultLogOutput]. *)
Definition PersistLoggingOutput (output : string) (cfg : Config) (w : writeOutcome) (file : configFile)
    : configFile * result OpErr Config :=
  if negb (empty (trim_space (LoggingConfig_Output (Config_Logging cfg)))) then (file, Ok cfg)
  else
    let cfg' := with_sections (Config_API cfg) (mkLoggingConfig (LoggingConfig_Level (Config_Logging cfg)) output)
                  (Config_Identity cfg) (Config_Discovery cfg) (Config_Peers cfg) (Config_Folders cfg) cfg in
    match save w cfg' file with
    | (file', Ok _) => (file', Ok cfg')
    | (file', Err e) => (file', Err e)
    end.
End ops.

(** ** Comments in a configuration file *)

Definition quote : ascii := "034"%char.
Definition newline : ascii := "010"%char.
Definition escape : ascii := "092"%char.

(** Where the scan of [stripJSONComments] is. *)
Inductive scanMode := Outside | InString | Escaped | InComment.

Fixpoint strip (mode : scanMode) (data : string) : string :=
  match data with
  | EmptyString => EmptyString
  | String ch rest =>
      match mode with
      | Escaped => String ch (strip InString rest)
      | InString =>
          String ch (strip (if bool_decide (ch = escape) then Escaped else if bool_decide (ch = quote) then Outside else InString) rest)
      | InComment => if bool_decide (ch = newline) then String ch (strip Outside rest) else strip InComment rest
      | Outside =>
          if bool_decide (ch = quote) then String ch (strip InString rest)
          else match rest with
          | String next _ =>
              if bool_decide (ch = slash) && bool_decide (next = slash) then strip InComment rest else String ch (strip Outside rest)
          | EmptyString => String ch (strip Outside rest)
          end
      end
  end.

Definition stripJSONComments (data : string) : string := strip Outside data.

(** ** Properties *)

Section preservation.
Context (float_fraction : Z -> Z -> Z -> Z) (url_host_port : string -> option (string * string)).

Abbreviation wf := (wf_config float_fraction).

Lemma validated_ok c c' : validated float_fraction c = Ok c' -> c' = with_defaults c /\ wf c'.
Proof.
  unfold validated. destruct (Validate float_fraction c) as [x|e] eqn:E; [|done]. intros [= <-]. by apply Validate_spec.
Qed.

Lemma validated_wf c : wf c -> validated float_fraction c = Ok c.
Proof.
  intros H. unfold validated. assert (Validate float_fraction c = Ok c) as ->; [|done].
  apply Validate_spec. split; [|done]. symmetry. by apply (with_defaults_wf float_fraction).
Qed.

Lemma LoadFile_wf file c : LoadFile float_fraction file = Ok c -> wf c.
Proof. destruct file; [done..|]. by intros [_ H]%validated_ok. Qed.

(** Spelling the levels and choices out keeps a document well formed. *)
Lemma wf_saved c : wf c -> wf (saved c).
Proof.
  intros [? ? ? ? ? ? ? ? ? Hi ? Hf Hfn Hp Hpn]. split; try done; cbn.
  - destruct Hi. by split.
  - apply Forall_fmap. eapply Forall_impl; [exact Hf|]. intros f []. split; try done. by left.
  - by rewrite <- list_fmap_compose.
  - apply Forall_fmap. eapply Forall_impl; [exact Hp|]. intros p []. by split.
  - by rewrite <- list_fmap_compose.
Qed.

Lemma LoadFile_saved c : wf c -> LoadFile float_fraction (ConfigDoc (saved c)) = Ok (saved c).
Proof. intros H. by apply validated_wf, wf_saved. Qed.

Lemma wf_peers c peers : wf c -> Forall wf_peer peers -> NoDup (PeerConfig_ID <$> peers) -> wf (set_Peers peers c).
Proof. intros [] ? ?. by split. Qed.

Lemma wf_folders c folders : wf c -> Forall (wf_folder float_fraction) folders -> NoDup (FolderConfig_ID <$> folders) ->
  wf (set_Folders folders c).
Proof. intros [] ? ?. by split. Qed.

Lemma remove_first_sublist {A} (p : A -> bool) l l' : remove_first p l = Some l' -> l' `sublist_of` l.
Proof.
  revert l'. induction l as [|x l IH]; intros l'; cbn; [done|]. destruct (p x).
  - intros [= <-]. by constructor.
  - intros (l1 & Hl1 & ->)%fmap_Some. constructor. by apply IH.
Qed.

Lemma sublist_Forall {A} (P : A -> Prop) l l' : l' `sublist_of` l -> Forall P l -> Forall P l'.
Proof. intros Hs Hl. rewrite Forall_forall in Hl |- *. intros x Hx. apply Hl. by eapply elem_of_sublist. Qed.

Lemma sublist_NoDup_fmap {A B} (f : A -> B) l l' : l' `sublist_of` l -> NoDup (f <$> l) -> NoDup (f <$> l').
Proof.
  intros Hs Hn. eapply sublist_NoDup; [exact Hn|]. by apply (fmap_sublist f).
Qed.

Lemma existsb_none {A} (p : A -> bool) l : existsb p l = false -> Forall (fun x => p x = false) l.
Proof. induction l as [|x l IH]; cbn; [constructor|]. intros [Hx Hl]%orb_false_iff. constructor; auto. Qed.

(** A fresh peer with a known kind of endpoint. *)
Lemma addPeer_wf id endpoint c c' :
  wf c -> (forall kind address, splitEndpoint endpoint = Ok (kind, address) -> validEndpointKind kind = true) ->
  addPeer id endpoint c = Ok c' -> wf c'.
Proof.
  intros Hc Hk. unfold addPeer. rewrite bind_unit_ok, fail_if_tt, empty_false. intros [Hid H].
  apply result_bind_ok in H as ([kind address] & Hs & H). apply bind_unit_ok in H as [Hex [= <-]].
  rewrite fail_if_tt in Hex. apply existsb_none in Hex. pose proof (Hk _ _ Hs) as Hkind.
  assert (address <> EmptyString) as Haddr.
  { unfold splitEndpoint in Hs. destruct (index_char _ _) as [n|]; [|done].
    destruct (empty (take_str n endpoint) || empty (drop_str (S n) endpoint)) eqn:E; [done|].
    apply orb_false_iff in E as [_ E]. injection Hs as <- <-. by apply empty_false. }
  destruct Hc as [? ? ? ? ? ? ? ? ? ? ? ? ? Hp Hn]. apply wf_peers; [by split|..].
  - apply Forall_app. split; [done|]. constructor; [|done]. split; cbn; try done.
    constructor; [|done]. by split_and!.
  - rewrite fmap_app. apply NoDup_app. split_and!; [done| |apply NoDup_singleton].
    intros x (p & -> & Hin)%list_elem_of_fmap Hx. rewrite Forall_forall in Hex. specialize (Hex p Hin).
    apply bool_decide_eq_false in Hex. set_solver.
Qed.

Lemma removePeer_wf id c c' : wf c -> removePeer id c = Ok c' -> wf c'.
Proof.
  intros Hc. unfold removePeer, found. destruct (remove_first _ _) as [peers|] eqn:E; [|done]. intros [= <-].
  apply remove_first_sublist in E. destruct Hc as [? ? ? ? ? ? ? ? ? ? ? ? ? Hp Hn].
  apply wf_peers; [by split|by eapply sublist_Forall|by eapply sublist_NoDup_fmap].
Qed.

Lemma removeFolder_wf id c c' : wf c -> removeFolder id c = Ok c' -> wf c'.
Proof.
  intros Hc. unfold removeFolder, found. destruct (remove_first _ _) as [folders|] eqn:E; [|done]. intros [= <-].
  apply remove_first_sublist in E. destruct Hc as [? ? ? ? ? ? ? ? ? ? ? Hf Hn ? ?].
  apply wf_folders; [by split|by eapply sublist_Forall|by eapply sublist_NoDup_fmap].
Qed.

(** ** The operations on a configuration *)

Inductive configOp :=
| OAddPeer (id endpoint : string)
| OUpdatePeer (id endpoint : string)
| ORemovePeer (id : string)
| OUpsertPairedPeer (peer : PeerConfig)
| OMergePairedPeerLink (id : string) (peer : PeerConfig)
| OAddFolder (id path mode : string) (sharedWith : option (list string))
| OUpdateFolder (id : string) (update : FolderUpdate)
| ORemoveFolder (id : string)
| OUpdateDiscovery (d : DiscoveryConfig).

Definition change (op : configOp) : Config -> result OpErr Config :=
  match op with
  | OAddPeer id endpoint => addPeer id endpoint
  | OUpdatePeer id endpoint => updatePeer float_fraction id endpoint
  | ORemovePeer id => removePeer id
  | OUpsertPairedPeer peer => upsertPairedPeer float_fraction url_host_port peer
  | OMergePairedPeerLink id peer => mergePairedPeerLink float_fraction url_host_port id peer
  | OAddFolder id path mode shared => addFolder float_fraction id path mode shared
  | OUpdateFolder id update => updateFolderDetails float_fraction id update
  | ORemoveFolder id => removeFolder id
  | OUpdateDiscovery d => updateDiscovery float_fraction d
  end.

(** Adding a peer is the one operation that saves without validating. *)
Definition known_kind (op : configOp) : Prop :=
  match op with
  | OAddPeer _ endpoint => forall kind address, splitEndpoint endpoint = Ok (kind, address) -> validEndpointKind kind = true
  | _ => True
  end.

Lemma change_wf op c c' : wf c -> known_kind op -> change op c = Ok c' -> wf c'.
Proof.
  intros Hc Hk. destruct op as [id e|id e|id|p|id p|id path mode sh|id u|id|d]; cbn [change].
  - by apply addPeer_wf.
  - unfold updatePeer. intros ([kind a] & _ & H)%result_bind_ok.
    apply result_bind_ok in H as (ps & _ & H). exact (proj2 (validated_ok _ _ H)).
  - by apply removePeer_wf.
  - unfold upsertPairedPeer. cbv zeta. destruct (update_first _ _ _); intros H; exact (proj2 (validated_ok _ _ H)).
  - unfold mergePairedPeerLink. cbv zeta. intros (ps & _ & H)%result_bind_ok. exact (proj2 (validated_ok _ _ H)).
  - unfold addFolder. intros ([m b] & _ & H)%result_bind_ok. apply result_bind_ok in H as (s & _ & H).
    apply bind_unit_ok in H as [_ H]. exact (proj2 (validated_ok _ _ H)).
  - unfold updateFolderDetails. intros ([m b] & _ & H)%result_bind_ok. apply result_bind_ok in H as (s & _ & H).
    apply result_bind_ok in H as (g & _ & H). apply result_bind_ok in H as (fs & _ & H). exact (proj2 (validated_ok _ _ H)).
  - by apply removeFolder_wf.
  - unfold updateDiscovery. intros H. exact (proj2 (validated_ok _ _ H)).
Qed.

Lemma mutate_cases (f : Config -> result OpErr Config) w file file' r :
  mutate float_fraction f w file = (file', r) ->
  (exists e, file' = file /\ r = Err e) \/
  (exists c c', LoadFile float_fraction file = Ok c /\ f c = Ok c' /\ file' = ConfigDoc (saved c') /\
     (r = Ok tt \/ w = NotSynced)).
Proof.
  unfold mutate. destruct (LoadFile float_fraction file ≫= f) as [c'|e] eqn:E.
  - apply result_bind_ok in E as (c & Hl & Hf). destruct w; intros [= <- <-]; [right|left|right]; eauto 10.
  - intros [= <- <-]. left. by exists e.
Qed.

Definition run (file : configFile) (step : configOp * writeOutcome) : configFile :=
  (mutate float_fraction (change step.1) step.2 file).1.

Lemma run_loadable file step c :
  LoadFile float_fraction file = Ok c -> known_kind step.1 -> exists c', LoadFile float_fraction (run file step) = Ok c'.
Proof.
  intros Hl Hk. unfold run. destruct (mutate _ _ _ _) as [file' r] eqn:E. cbn [fst].
  apply mutate_cases in E as [(e & -> & _)|(c0 & c1 & Hl0 & Hf & -> & _)]; [by exists c|].
  exists (saved c1). apply LoadFile_saved. eapply change_wf; [|exact Hk|exact Hf]. by eapply LoadFile_wf.
Qed.

(** [C26] Operations keep the file loadable. From a configuration that loads, any
    sequence of the nine operations modelled - adding, updating and removing a peer,
    upserting a paired peer, merging a paired peer's link, adding a folder, updating
    its details, removing it, updating discovery - in which peers are added with
    known endpoint kinds only, whichever of the writes reach the disk, leaves a file
    that loads, as a well-formed configuration; and an operation that fails leaves
    the file as it was, unless all that failed was syncing the directory. Other
    writers of the file are not covered: the repair that persists the discovery
    default can make it unloadable ([persist_dht_unloadable]). *)
Theorem config_ops_loadable file c steps :
  LoadFile float_fraction file = Ok c -> Forall (fun step => known_kind step.1) steps ->
  (exists c', LoadFile float_fraction (foldl run file steps) = Ok c' /\ wf_config float_fraction c') /\
  (forall op w file' e, mutate float_fraction (change op) w file = (file', Err e) -> file' = file \/ w = NotSynced).
Proof.
  intros Hl Hs. split.
  - revert file c Hl. induction Hs as [|step steps Hk Hs IH]; intros file c Hl; cbn [foldl].
    + exists c. split; [done|]. by eapply LoadFile_wf.
    + destruct (run_loadable _ _ _ Hl Hk) as [c' Hc']. by eapply IH.
  - intros op w file' e [(e' & -> & _)|(c0 & c1 & _ & _ & _ & [Hr|Hw])]%mutate_cases; [by left|done|by right].
Qed.
End preservation.

Definition no_fraction : Z -> Z -> Z -> Z := fun _ _ _ => 0.
Definition no_url : string -> option (string * string) := fun _ => None.

Definition demo_ops : list (configOp * writeOutcome) :=
  [(OAddPeer "q" "vpn:10.0.0.2:1", Written); (OAddFolder "c" "/srv/c" "send" (Some ["q"]), Written);
   (ORemoveFolder "a", NotWritten); (OUpdateFolder "b" (mkFolderUpdate EmptyString EmptyString None None (Some false)), NotSynced)].

Definition demo_file : configFile := ConfigDoc demo_document.

Lemma config_ops_loadable_witness :
  exists c', LoadFile no_fraction (foldl (run no_fraction no_url) demo_file demo_ops) = Ok c' /\ wf_config no_fraction c'.
Proof.
  refine (proj1 (config_ops_loadable no_fraction no_url demo_file (with_defaults demo_document) demo_ops _ _)).
  - vm_compute. reflexivity.
  - repeat constructor. cbn. intros kind address [= <- <-]. reflexivity.
Defined.

(** *** What the operations do not guarantee *)

(** A peer added with an unknown endpoint kind makes the file unloadable. *)
Example addPeer_unloadable :
  LoadFile no_fraction (mutate no_fraction (addPeer "q" "http://host:1") Written demo_file).1 =
    Err (OpInvalid (ErrInvalid "endpoint kind of q" "http")).
Proof. by vm_compute. Qed.

(** A peer that is added is validated at the default encryption level and stored
    at level 0, explicitly. *)
Example addPeer_level_zero :
  (fun c => (fun p => (PeerConfig_EncryptionLevel p, PeerConfig_encryptionLevelSet p)) <$> last (Config_Peers c)) <$>
    LoadFile no_fraction (mutate no_fraction (addPeer "q" "manual:host:1") Written demo_file).1 = Ok (Some (0, true)).
Proof. by vm_compute. Qed.

(** Forcing the DHT on where discovery is disabled makes the file unloadable. *)
Definition disabled_file : configFile :=
  ConfigDoc (set_Discovery (mkDiscoveryConfig true false false EmptyString [] EmptyString (mkNetworkHintsConfig [] [] []) zeroNAT) demo_document).

Example persist_dht_unloadable :
  match LoadFile no_fraction disabled_file with
  | Ok c => LoadFile no_fraction (PersistShippedDefaultDHT (Some "true") c Written disabled_file).1
  | Err e => Err e
  end = Err (OpInvalid ErrDiscoveryDisabled).
Proof. by vm_compute. Qed.

(** A discovery command drops the pairing-code lifetime and the NAT settings. *)
Example discovery_command_drops :
  (fun c => (DiscoveryConfig_PairingCodeTTL (Config_Discovery c), NATConfig_STUNServers (DiscoveryConfig_NAT (Config_Discovery c)))) <$>
    LoadFile no_fraction (HandleDiscoveryCommand no_fraction
      (mkDiscoveryCommandRequest "update" false true true EmptyString [] (mkNetworkHintsConfig [] [] [])) Written demo_file).1 =
  Ok (EmptyString, []) /\
  DiscoveryConfig_PairingCodeTTL (Config_Discovery demo_document) = "30m" /\
  NATConfig_STUNServers (DiscoveryConfig_NAT (Config_Discovery demo_document)) = ["stun.example:3478"].
Proof. by vm_compute. Qed.

(** *** Comments *)

Lemma strip_quote rest : strip Outside (String quote rest) = String quote (strip InString rest).
Proof. done. Qed.

(** A lone slash is not followed by another one once comments are gone. *)
Lemma strip_head d rest : d <> slash -> d <> quote -> strip Outside (String d rest) = String d (strip Outside rest).
Proof.
  intros Hs Hq. cbn. rewrite (bool_decide_eq_false_2 (d = quote)), (bool_decide_eq_false_2 (d = slash)) by done.
  by destruct rest.
Qed.

Lemma strip_slash c rest :
  c <> quote -> (c = slash -> match rest with String d _ => d <> slash | EmptyString => True end) ->
  strip Outside (String c rest) = String c (strip Outside rest).
Proof.
  intros Hq Hs. cbn. rewrite (bool_decide_eq_false_2 (c = quote)) by done. destruct rest as [|d rest]; [done|].
  destruct (bool_decide_reflect (c = slash)) as [E|]; [|done]. rewrite (bool_decide_eq_false_2 (d = slash)) by auto. done.
Qed.

(** Removing comments is done once: the result has none left. *)
Lemma strip_idempotent data :
  (forall mode, mode <> InComment -> strip mode (strip mode data) = strip mode data) /\
  strip Outside (strip InComment data) = strip InComment data.
Proof.
  induction data as [|ch rest [IH IHc]]; [by split|]. split.
  - intros [| | |]; intros Hm; [|cbn..|done].
    + destruct (decide (ch = quote)) as [->|Hq]; [by rewrite !strip_quote, IH|].
      assert (strip Outside (String ch EmptyString) = String ch EmptyString) as Hone by by rewrite strip_slash.
      destruct rest as [|next rest']; [by rewrite !Hone|].
      destruct (decide (ch = slash /\ next = slash)) as [[-> ->]|Hns]; [exact IHc|].
      rewrite !(strip_slash ch (String next rest')) by naive_solver. rewrite strip_slash; [by rewrite IH|done|].
      intros ->. assert (next <> slash) as Hn by naive_solver.
      destruct (decide (next = quote)) as [->|Hnq]; [by rewrite strip_quote|]. by rewrite strip_head.
    + rewrite !IH; [done|]. by repeat case_bool_decide.
    + by rewrite IH.
  - cbn. case_bool_decide as Hn; [|exact IHc]. subst ch. rewrite strip_slash by done. by rewrite IH.
Qed.

Example strip_example : stripJSONComments ("{" +:+ String quote ("a//b" +:+ String quote (" // c" +:+ String newline "}"))) =
  "{" +:+ String quote ("a//b" +:+ String quote (" " +:+ String newline "}")).
Proof. by vm_compute. Qed.
