(* ===== verification/FolderJournal.v ===== *)
(** * Folder shares: the sync journal

    Models [internal/foldershare/sync.go] and [journal_state.go]: the journal of a
    folder, how local changes enter it, which part of it a peer is sent, how a
    remote journal is applied, and one reconcile pass over the folders of a node.

    Each node gives every path a revision; a remote entry is applied only when its
    revision is newer.  Journals and cursor files are documents in a map keyed by
    their file name; the cache in front of a journal file is not modelled, nor is
    the wait between passes.  Which system calls fail, what a stat reports for
    paths that hold no file, and in which order a Go map is iterated are arguments. *)

From S2P Require Import Prelude GoStd Block Paths Scrub ConfigOps FolderTransfer.
From Stdlib Require Import Ascii.

Local Open Scope Z_scope.

(** ** Paths of a folder *)

Definition backslash : ascii := "092"%char.

Definition safeRel (rel : string) : bool :=
  if bool_decide (rel = EmptyString) || has_prefix rel "/" || contains_char rel backslash then false
  else
    let clean := path_clean rel in
    negb (bool_decide (clean = "..")) && negb (has_prefix clean "../") && negb (bool_decide (clean = ".")).

(** [filepath.Rel(root, target)] where both are relative or both absolute. *)
Definition rel_between (root target : string) : string :=
  match rel_elems (clean_elems root) (clean_elems target) with [] => "." | l => join "/" l end.

(** The elements of the absolute path the operating system resolves. *)
Definition safeJoin (cwd root rel : string) : option (list string) :=
  if negb (safeRel rel) then None
  else
    let target := path_join root rel in
    if has_prefix (rel_between root target) ".." then None else Some (abs_elems cwd target).

Definition safeID (id : string) : string :=
  match map_runes (fun c => if safe_char c then c else "_"%char) 0 id with
  | EmptyString => "folder"
  | s => s
  end.

(** The journal's file name in [sync-journals], beside the daemon's config. *)
Definition JournalPath (folderID : string) : string := safeID folderID +:+ ".json".

Definition cursorPath (folderID : string) : string := JournalPath folderID +:+ ".cursors".

(** ** Journals *)

Record journalFile := mkJournalFile {
  journalFile_Cursor : Z;
  journalFile_Entries : list Entry
}.

(** What is found under a journal's name; a missing file is [None]. *)
Inductive journalDoc :=
| Unreadable
| Document (stored : journalFile).

Inductive FolderErr :=
| ErrJournalMissing
| ErrJournal
| ErrScan
| ErrInspect
| ErrSave.

Definition loadJournalFile (doc : option journalDoc) : result FolderErr journalFile :=
  match doc with
  | None => Err ErrJournalMissing
  | Some Unreadable => Err ErrJournal
  | Some (Document stored) => Ok stored
  end.

Definition LoadJournal (doc : option journalDoc) : result FolderErr (list Entry) :=
  match loadJournalFile doc with
  | Ok stored => Ok (journalFile_Entries stored)
  | Err ErrJournalMissing => Ok []
  | Err e => Err e
  end.

Abbreviation journal := (gmap string Entry) (only parsing).

Definition indexEntry (out : journal) (entry : Entry) : journal :=
  if bool_decide (Entry_Path entry = EmptyString) || negb (safeRel (Entry_Path entry)) then out
  else <[Entry_Path entry := entry]> out.

Definition indexEntries (entries : list Entry) : journal := foldl indexEntry ∅ entries.

(** [sortEntries]: an element sinks back past the later ones of the sorted part,
    held here from its end. *)
Fixpoint sink (entry : Entry) (before : list Entry) : list Entry :=
  match before with
  | [] => [entry]
  | prev :: before' => if str_lt (Entry_Path entry) (Entry_Path prev) then prev :: sink entry before' else entry :: before
  end.

Definition sortEntries (entries : list Entry) : list Entry := rev (foldl (fun acc e => sink e acc) [] entries).

Definition set_Cursor (cursor : Z) (e : Entry) : Entry :=
  mkEntry (Entry_Path e) (Entry_SHA256 e) (Entry_Size e) (Entry_Deleted e) (Entry_Revision e) (Entry_Origin e)
    (Entry_Blocks e) cursor.

(** Whether an entry of [saveJournal] gets a new cursor. *)
Definition entryChanged (prev : journal) (entry : Entry) : bool :=
  match prev !! Entry_Path entry with
  | None => true
  | Some old =>
      bool_decide (Entry_Revision old <> Entry_Revision entry) || bool_decide (Entry_SHA256 old <> Entry_SHA256 entry)
      || negb (Bool.eqb (Entry_Deleted old) (Entry_Deleted entry)) || bool_decide (Entry_Size old <> Entry_Size entry)
      || (Entry_Cursor old =? 0)
  end.

Definition assignCursor (prev : journal) (acc : Z * list Entry) (entry : Entry) : Z * list Entry :=
  if entryChanged prev entry then
    let cursor := i64 (acc.1 + 1) in (cursor, acc.2 ++ [set_Cursor cursor entry])
  else
    let old := default entry (prev !! Entry_Path entry) in (acc.1, acc.2 ++ [set_Cursor (Entry_Cursor old) entry]).

(** The document [saveJournal] writes over [previous], the values of the map
    being visited as [entries]. *)
Definition journalDocument (previous : journalFile) (entries : list Entry) : journalFile :=
  let prev := indexEntries (journalFile_Entries previous) in
  let r := foldl (assignCursor prev) (journalFile_Cursor previous, []) entries in
  mkJournalFile r.1 (sortEntries r.2).

Definition emptyJournal : journalFile := mkJournalFile 0 [].

(** [saveJournal]: a previous document that does not load counts as empty, and
    an unchanged document is not written. *)
Definition saveJournal (writeFails : bool) (doc : option journalDoc) (entries : list Entry)
    : result FolderErr journalDoc :=
  let previous := match loadJournalFile doc with Ok stored => stored | Err _ => emptyJournal end in
  let stored := journalDocument previous entries in
  match doc with
  | Some (Document old) =>
      if bool_decide (journalFile_Cursor old = journalFile_Cursor stored /\
                      journalFile_Entries old = journalFile_Entries stored)
      then Ok (Document old) else if writeFails then Err ErrSave else Ok (Document stored)
  | _ => if writeFails then Err ErrSave else Ok (Document stored)
  end.

(** [JournalDelta]: the entries a peer that saw the cursor [after] is sent, the
    journal's cursor, and whether this is a delta. *)
Definition JournalDelta (doc : option journalDoc) (after : Z) : result FolderErr (list Entry * Z * bool) :=
  match loadJournalFile doc with
  | Err ErrJournalMissing => Ok ([], 0, false)
  | Err e => Err e
  | Ok stored =>
      if (after <=? 0) || (journalFile_Cursor stored =? 0) then
        Ok (journalFile_Entries stored, journalFile_Cursor stored, false)
      else Ok (List.filter (fun e => after <? Entry_Cursor e) (journalFile_Entries stored), journalFile_Cursor stored, true)
  end.

Definition CountLiveFiles (doc : option journalDoc) : nat :=
  match LoadJournal doc with
  | Err _ => 0
  | Ok entries =>
      length (List.filter (fun e => negb (bool_decide (Entry_Path e = EmptyString)) && negb (Entry_Deleted e)) entries)
  end%nat.

(** ** Local changes *)

Record scanned := mkScanned {
  scanned_sha : string;
  scanned_size : Z;
  scanned_blocks : list FileBlock
}.

Definition noteLocalFile (byPath : journal) (rel origin : string) (file : scanned) : journal :=
  let fresh revision :=
    <[rel := mkEntry rel (scanned_sha file) (scanned_size file) false revision origin (scanned_blocks file) 0]> byPath in
  match byPath !! rel with
  | None => fresh 1
  | Some current =>
      if negb (Entry_Deleted current) && bool_decide (Entry_SHA256 current = scanned_sha file) then
        match Entry_Blocks current, scanned_blocks file with
        | [], (_ :: _) as blocks => <[rel := set_Blocks blocks current]> byPath
        | _, _ => byPath
        end
      else fresh (if 1 <=? Entry_Revision current then i64 (Entry_Revision current + 1) else 1)
  end.

Definition deleteEntry (origin : string) (e : Entry) : Entry :=
  mkEntry (Entry_Path e) EmptyString 0 true (i64 (Entry_Revision e + 1)) origin [] (Entry_Cursor e).

Definition markDeleted (byPath : journal) (rel origin : string) : journal :=
  match byPath !! rel with
  | None => byPath
  | Some current => if Entry_Deleted current then byPath else <[rel := deleteEntry origin current]> byPath
  end.

(** What the operating system says about the root and the paths below it. *)
Inductive rootStat := RootAbsent (mkdirFails : bool) | RootFails | RootNotDir | RootDir.

Record localEnv := mkLocalEnv {
  le_root : rootStat;
  le_inspectFails : list string -> bool;   (* walking to or reading a file *)
  le_statFails : list string -> bool;      (* any error but a missing file *)
  le_isDir : list string -> bool
}.

Section local.
Context (sha256 : bytes -> bytes) (cwd : string).

Definition InspectFile (data : bytes) : scanned :=
  let '(hash, size, blocks) := blocksOf sha256 data in mkScanned hash size blocks.

(** The path of a file below the root, relative to it. *)
Definition below (root : list string) (p : list string) : option (list string) :=
  if bool_decide (take (length root) p = root) then
    match drop (length root) p with [] => None | l => Some l end
  else None.

Definition staging (base : string) : bool := has_prefix base ".fse-" || contains base ".fse-sync-".

(** The files a walk of the folder reads. *)
Definition walked (root : list string) (files : diskFiles) : list (string * (list string * bytes)) :=
  omap (fun file : list string * bytes =>
    match below root file.1 with
    | None => None
    | Some l =>
        let rel := join "/" l in
        if negb (safeRel rel) || staging (path_base rel) then None else Some (rel, file)
    end) (map_to_list files).

Definition scanFolder (env : localEnv) (root : string) (files : diskFiles) : result FolderErr (gmap string scanned) :=
  match le_root env with
  | RootAbsent mkdirFails => if mkdirFails then Err ErrScan else Ok ∅
  | RootFails | RootNotDir => Err ErrScan
  | RootDir =>
      let found := walked (abs_elems cwd root) files in
      if existsb (fun f => le_inspectFails env f.2.1) found then Err ErrInspect
      else Ok (list_to_map ((fun f : string * (list string * bytes) => (f.1, InspectFile f.2.2)) <$> found))
  end.

Definition noteSeen (origin : string) (byPath : journal) (file : string * scanned) : journal :=
  noteLocalFile byPath file.1 origin file.2.

Definition sweepDeleted (origin : string) (seen : gmap string scanned) (byPath : journal) (file : string * Entry) : journal :=
  if Entry_Deleted file.2 then byPath
  else match seen !! file.1 with Some _ => byPath | None => markDeleted byPath file.1 origin end.

Definition absorbLocal (env : localEnv) (root origin : string) (files : diskFiles) (byPath : journal)
    : result FolderErr journal :=
  seen ← scanFolder env root files;
  let noted := foldl (noteSeen origin) byPath (map_to_list seen) in
  Ok (foldl (sweepDeleted origin seen) noted (map_to_list noted)).

(** The journal name of a path an event reported: an absolute path is made
    relative to the root, which fails below a relative root. *)
Definition eventRel (root path : string) : option string :=
  if has_prefix path "/" then
    if has_prefix root "/" then Some (rel_between root path) else None
  else Some path.

Definition absorbPath (env : localEnv) (root origin : string) (files : diskFiles) (byPath : journal) (path : string)
    : result FolderErr journal :=
  match eventRel root path with
  | None => Ok byPath
  | Some rel =>
      if negb (safeRel rel) then Ok byPath
      else match safeJoin cwd root rel with
      | None => Ok byPath
      | Some target =>
          if le_statFails env target then Ok byPath
          else match files !! target with
          | None => Ok (if le_isDir env target then byPath else markDeleted byPath rel origin)
          | Some data =>
              if le_inspectFails env target then Err ErrInspect
              else Ok (noteLocalFile byPath rel origin (InspectFile data))
          end
      end
  end.

Fixpoint absorbPaths (env : localEnv) (root origin : string) (files : diskFiles) (byPath : journal) (paths : list string)
    : result FolderErr journal :=
  match paths with
  | [] => Ok byPath
  | path :: rest =>
      byPath' ← absorbPath env root origin files byPath path;
      absorbPaths env root origin files byPath' rest
  end.

(** ** Applying a remote journal *)

Definition noteBlock (target : list string) (out : gmap string storedBlock) (block : FileBlock) : gmap string storedBlock :=
  let key := storedKey (FileBlock_Hash block) (FileBlock_Size block) in
  match out !! key with
  | Some _ => out
  | None => <[key := mkStoredBlock target (FileBlock_Offset block) (FileBlock_Size block)]> out
  end.

Definition indexEntryBlocks (root : string) (out : gmap string storedBlock) (file : string * Entry) : gmap string storedBlock :=
  match Entry_Deleted file.2, Entry_Blocks file.2 with
  | true, _ | _, [] => out
  | false, blocks =>
      match safeJoin cwd root file.1 with
      | None => out
      | Some target => foldl (noteBlock target) out blocks
      end
  end.

Definition indexLocalBlocks (root : string) (files : list (string * Entry)) : gmap string storedBlock :=
  foldl (indexEntryBlocks root) ∅ files.

(** [re_visit] is the order in which the journal's map is visited. *)
Record remoteEnv := mkRemoteEnv {
  re_visit : journal -> list (string * Entry);
  re_removeFails : Entry -> bool;   (* any error but a missing file *)
  re_transfers : transferEnv
}.

(** What the first loop over the remote entries leaves. *)
Record plan := mkPlan {
  plan_byPath : journal;
  plan_disk : disk;
  plan_jobs : list transferJob;
  plan_failed : bool
}.

Definition planEntry (env : remoteEnv) (root : string) (p : plan) (entry : Entry) : plan :=
  let newer := match plan_byPath p !! Entry_Path entry with
               | Some current => negb (Entry_Revision entry <=? Entry_Revision current)
               | None => true
               end in
  if negb (safeRel (Entry_Path entry)) || negb newer then p
  else match safeJoin cwd root (Entry_Path entry) with
  | None => p
  | Some target =>
      if Entry_Deleted entry then
        if re_removeFails env entry then mkPlan (plan_byPath p) (plan_disk p) (plan_jobs p) true
        else mkPlan (<[Entry_Path entry := entry]> (plan_byPath p))
               (mkDisk (delete target (disk_files (plan_disk p))) (disk_states (plan_disk p))) (plan_jobs p) (plan_failed p)
      else mkPlan (plan_byPath p) (plan_disk p) (plan_jobs p ++ [mkTransferJob entry target]) (plan_failed p)
  end.

Definition applyRemote (env : remoteEnv) (root : string) (d : disk) (byPath : journal) (remote : list Entry)
    : journal * disk * bool :=
  let p := foldl (planEntry env root) (mkPlan byPath d [] false) remote in
  let locals := indexLocalBlocks root (re_visit env (plan_byPath p)) in
  let ph := transferJobs sha256 (re_transfers env) locals (plan_disk p) (plan_jobs p) in
  (put_all Entry_Path id (plan_byPath p) (ph_applied ph), ph_disk ph, plan_failed p || ph_failed ph).
End local.

(** ** Properties *)

(** *** Where a path of the folder is *)

Section joining.
Context (cwd : string).

Lemma clean_step_keeps_up stack e : ".." ∈ stack -> ".." ∈ clean_step false stack e.
Proof.
  intros H. unfold clean_step. destruct (_ || _); [done|]. destruct (bool_decide_reflect (e = "..")) as [->|].
  - destruct stack as [|x stack]; [set_solver|]. destruct (bool_decide_reflect (x = "..")); set_solver.
  - set_solver.
Qed.

Lemma clean_steps_keep_up l stack : ".." ∈ stack -> ".." ∈ foldl (clean_step false) stack l.
Proof. revert stack. induction l as [|e l IH]; intros stack H; cbn; [done|]. by apply IH, clean_step_keeps_up. Qed.

(** A relative path that never leaves its start does the same above any stack. *)
Lemma clean_steps_over rooted base l acc :
  ".." ∉ foldl (clean_step false) acc l ->
  foldl (clean_step rooted) (acc ++ base) l = foldl (clean_step false) acc l ++ base.
Proof.
  revert acc. induction l as [|e l IH]; intros acc Hup; cbn [foldl] in *; [done|].
  assert (".." ∉ clean_step false acc e) as Hstep by (intros H; by apply Hup, clean_steps_keep_up).
  rewrite <- IH by done. f_equal. unfold clean_step in *. destruct (_ || _); [done|].
  destruct (bool_decide_reflect (e = "..")) as [->|]; [|done]. destruct acc as [|x acc]; [set_solver|]. cbn [app].
  destruct (bool_decide_reflect (x = "..")) as [->|]; [set_solver|done].
Qed.

Lemma elem_ok_no_up l : Forall elem_ok l -> ".." ∉ l.
Proof. rewrite Forall_forall. intros H Hin. by destruct (H _ Hin). Qed.

Lemma clean_elems_below p rel : p <> EmptyString -> has_prefix rel "/" = false -> Forall elem_ok (clean_elems rel) ->
  clean_elems (p +:+ "/" +:+ rel) = clean_elems p ++ clean_elems rel.
Proof.
  intros Hp Hrel Hok. unfold clean_elems in *. rewrite Hrel in *. rewrite rooted_app by done.
  change (p +:+ "/" +:+ rel) with (p +:+ String slash rel). rewrite split_on_app, foldl_app.
  rewrite <- (app_nil_l (foldl _ [] (split_on slash p))), clean_steps_over.
  - by rewrite rev_app_distr.
  - apply elem_ok_no_up in Hok. by rewrite <- Permutation_rev in Hok.
Qed.

Lemma safeRel_inside rel : safeRel rel = true ->
  has_prefix rel "/" = false /\ rel <> EmptyString /\ clean_elems rel <> [] /\ Forall elem_ok (clean_elems rel) /\
  path_clean rel = join "/" (clean_elems rel).
Proof.
  unfold safeRel. cbv zeta. destruct (bool_decide_reflect (rel = EmptyString)) as [|Hne]; [done|].
  destruct (has_prefix rel "/") eqn:Hp; [done|]. destruct (contains_char rel backslash); [done|]. cbn [orb].
  rewrite !andb_true_iff, !negb_true_iff, !bool_decide_eq_false. intros [[H1 H2] H3].
  destruct (path_clean_inside rel Hp H3 H1 H2) as (l & Hl & Hok & He & Hc). by rewrite He.
Qed.

(** The whole of [safeJoin]. *)
Lemma safeJoin_spec root rel : cwd <> EmptyString ->
  safeJoin cwd root rel =
    if safeRel rel && negb (has_prefix (path_clean rel) "..") then Some (abs_elems cwd root ++ clean_elems rel) else None.
Proof.
  intros Hcwd. unfold safeJoin. destruct (safeRel rel) eqn:Hs; [|done]. cbn [negb andb]. cbv zeta.
  destruct (safeRel_inside rel Hs) as (Hp & Hne & Hn & Hok & Hc). unfold path_join, rel_between.
  assert (abs_elems cwd rel = clean_elems cwd ++ clean_elems rel) as Habs
    by (unfold abs_elems; rewrite Hp; by apply clean_elems_below).
  destruct (bool_decide_reflect (root = EmptyString)) as [->|Hr].
  - change (clean_elems EmptyString) with (@nil string). destruct (clean_elems rel) as [|e l] eqn:E; [done|]. cbn [rel_elems length replicate app].
    rewrite <- Hc. destruct (has_prefix (path_clean rel) ".."); [done|]. cbn [negb]. f_equal.
    rewrite Habs. f_equal. unfold abs_elems. cbn [has_prefix].
    unfold clean_elems. rewrite rooted_app by done.
    change (cwd +:+ "/" +:+ EmptyString) with (cwd +:+ String slash EmptyString).
    by rewrite split_on_app, foldl_app.
  - rewrite bool_decide_eq_false_2 by done. rewrite clean_elems_below, rel_elems_app by done.
    destruct (clean_elems rel) as [|e l] eqn:E; [done|]. rewrite <- E, <- Hc in *.
    destruct (has_prefix (path_clean rel) ".."); [done|]. cbn [negb]. f_equal.
    unfold abs_elems. rewrite rooted_app by done. destruct (has_prefix root "/"); [by apply clean_elems_below|].
    replace (cwd +:+ "/" +:+ root +:+ "/" +:+ rel) with ((cwd +:+ "/" +:+ root) +:+ "/" +:+ rel) by (by rewrite !str_app_assoc).
    apply clean_elems_below; [by destruct cwd|done..].
Qed.

(** A joined path is strictly below the root, whatever the name. *)
Lemma safeJoin_below root rel target : cwd <> EmptyString -> safeJoin cwd root rel = Some target ->
  safeRel rel = true /\ target = abs_elems cwd root ++ clean_elems rel /\ clean_elems rel <> [] /\ Forall elem_ok (clean_elems rel).
Proof.
  intros Hcwd. rewrite safeJoin_spec by done. destruct (safeRel rel) eqn:Hs; [|done]. cbn. destruct (has_prefix _ _); [done|].
  intros [= <-]. by destruct (safeRel_inside rel Hs) as (_ & _ & ? & ? & _).
Qed.
End joining.

(** *** Journals *)

Lemma indexEntries_put l : Forall (fun e => safeRel (Entry_Path e) = true) l ->
  forall m, foldl indexEntry m l = put_all Entry_Path id m l.
Proof.
  induction 1 as [|e l He Hl IH]; intros m; [done|]. rewrite put_all_cons. cbn [foldl]. rewrite IH. f_equal.
  unfold indexEntry. rewrite He. destruct (bool_decide_reflect (Entry_Path e = EmptyString)) as [E|]; [|done]. by rewrite E in He.
Qed.

Lemma put_all_id_Some (m : journal) l p e : NoDup (Entry_Path <$> l) ->
  put_all Entry_Path id m l !! p = Some e <-> (e ∈ l /\ Entry_Path e = p) \/ ((p ∉ Entry_Path <$> l) /\ m !! p = Some e).
Proof.
  intros Hn. destruct (decide (p ∈ Entry_Path <$> l)) as [Hp|Hp].
  - apply list_elem_of_fmap in Hp as (e0 & -> & He0). rewrite put_all_NoDup by done. unfold id. split.
    + intros [= ->]. by left.
    + intros [[He Hpe]|[Hno _]]; [f_equal; symmetry; by apply (NoDup_fmap_elem Entry_Path l)|].
      exfalso. apply Hno. by apply list_elem_of_fmap_2.
  - rewrite put_all_None by done. split; [by right|]. intros [[He <-]|[_ H]]; [|done].
    exfalso. apply Hp. by apply list_elem_of_fmap_2.
Qed.

Lemma indexEntries_Some l p e : NoDup (Entry_Path <$> l) -> Forall (fun e => safeRel (Entry_Path e) = true) l ->
  indexEntries l !! p = Some e <-> e ∈ l /\ Entry_Path e = p.
Proof.
  intros Hn Hs. unfold indexEntries. rewrite indexEntries_put, put_all_id_Some by done.
  rewrite lookup_empty. naive_solver.
Qed.

(** Sorting is a stable insertion from the front. *)
Definition path_after (e e' : Entry) : bool := str_lt (Entry_Path e') (Entry_Path e).

#[export] Instance path_after_weak : StrictWeak path_after.
Proof.
  unfold path_after. split; intros *.
  - apply sw_irrefl.
  - intros H1 H2. by eapply sw_trans.
  - intros H1 H2. by eapply sw_incomp.
Qed.

Lemma sink_insert e l : sink e l = insert_by path_after e l.
Proof. induction l as [|x l IH]; [done|]. cbn. by rewrite IH. Qed.

Lemma sortEntries_perm l : sortEntries l ≡ₚ l.
Proof.
  unfold sortEntries. rewrite <- Permutation_rev. enough (forall acc, foldl (fun acc e => sink e acc) acc l ≡ₚ l ++ acc) as H
    by by rewrite H, app_nil_r.
  induction l as [|e l IH]; intros acc; [done|]. cbn [foldl]. rewrite IH, sink_insert, insert_by_perm. solve_Permutation.
Qed.

Lemma sortEntries_sorted l : StronglySorted (fun e e' => str_lt (Entry_Path e') (Entry_Path e) = false) (sortEntries l).
Proof.
  unfold sortEntries. enough (forall acc, StronglySorted (not_after path_after) acc ->
    StronglySorted (not_after path_after) (foldl (fun acc e => sink e acc) acc l)) as H.
  { specialize (H [] (SSorted_nil _)). induction H as [|e acc Hacc IH He]; cbn [rev]; [constructor|].
    apply StronglySorted_app. split_and!; [|done|by repeat constructor].
    intros x y Hx ->%list_elem_of_singleton. rewrite <- Permutation_rev in Hx. rewrite Forall_forall in He. exact (He x Hx). }
  induction l as [|e l IH]; intros acc Hacc; [done|]. cbn [foldl]. apply IH. rewrite sink_insert. exact (insert_by_sorted path_after e acc Hacc).
Qed.

Record wf_journal (j : journalFile) : Prop := {
  wj_paths : NoDup (Entry_Path <$> journalFile_Entries j);
  wj_safe : Forall (fun e => safeRel (Entry_Path e) = true) (journalFile_Entries j);
  wj_cursor : 0 <= journalFile_Cursor j;
  wj_cursors : Forall (fun e => 0 < Entry_Cursor e <= journalFile_Cursor j) (journalFile_Entries j);
  wj_distinct : NoDup (Entry_Cursor <$> journalFile_Entries j);
  wj_sorted : StronglySorted (fun e e' => str_lt (Entry_Path e') (Entry_Path e) = false) (journalFile_Entries j)
}.

(** The part of an entry that counts as its content. *)
Definition same_version (e e' : Entry) : Prop :=
  Entry_Path e = Entry_Path e' /\ Entry_Revision e = Entry_Revision e' /\ Entry_SHA256 e = Entry_SHA256 e' /\
  Entry_Deleted e = Entry_Deleted e' /\ Entry_Size e = Entry_Size e'.

Lemma entryChanged_false prev e : entryChanged prev e = false <->
  exists old, prev !! Entry_Path e = Some old /\ Entry_Revision old = Entry_Revision e /\ Entry_SHA256 old = Entry_SHA256 e /\
    Entry_Deleted old = Entry_Deleted e /\ Entry_Size old = Entry_Size e /\ Entry_Cursor old <> 0.
Proof.
  unfold entryChanged. destruct (prev !! Entry_Path e) as [old|]; [|naive_solver].
  rewrite !orb_false_iff, !bool_decide_eq_false, negb_false_iff, eqb_true_iff, Z.eqb_neq. split.
  - intros ((((H1 & H2) & H3) & H4) & H5). apply dec_stable in H1, H2, H4. by exists old.
  - intros (? & [= <-] & ? & ? & ? & ? & ?). naive_solver.
Qed.

(** The cursor [k] an entry is given while the cursor goes from [c] to [c']. *)
Definition assigned (prev : journal) (c c' : Z) (e : Entry) (k : Z) : Prop :=
  if entryChanged prev e then c < k <= c' else exists old, prev !! Entry_Path e = Some old /\ k = Entry_Cursor old.

(** The cursors a journal holds are at most [c] and tell its paths apart. *)
Record cursors_below (prev : journal) (c : Z) : Prop := {
  cb_below p e : prev !! p = Some e -> Entry_Cursor e <= c;
  cb_inj p q e e' : prev !! p = Some e -> prev !! q = Some e' -> Entry_Cursor e = Entry_Cursor e' -> p = q
}.

Lemma assigned_mono prev c c1 c2 e k : c <= c1 -> assigned prev c1 c2 e k -> assigned prev c c2 e k.
Proof. intros H. unfold assigned. destruct (entryChanged prev e); [lia|done]. Qed.

(** The cursor of an entry is not given to one after it. *)
Lemma assigned_fresh prev c0 c c' es ks k e :
  cursors_below prev c0 -> c0 <= c -> (Entry_Path e ∉ Entry_Path <$> es) ->
  (k = c /\ c0 < c) \/ (exists old, prev !! Entry_Path e = Some old /\ k = Entry_Cursor old) ->
  Forall2 (assigned prev c c') es ks -> k ∉ ks.
Proof.
  intros [Hb Hi] Hc He Hk. induction 1 as [|e' k' es ks Ha _ IH]; [set_solver|].
  rewrite fmap_cons, not_elem_of_cons in He. destruct He as [He Hes]. apply not_elem_of_cons. split; [|by apply IH].
  intros <-. unfold assigned in Ha. destruct Hk as [[Hk Hlt]|(old & Ho & Hk)], (entryChanged prev e').
  - lia.
  - destruct Ha as (old' & Ho' & E). specialize (Hb _ _ Ho'). lia.
  - specialize (Hb _ _ Ho). lia.
  - destruct Ha as (old' & Ho' & E). apply He. eapply Hi; [exact Ho|exact Ho'|congruence].
Qed.

Lemma assign_spec prev c0 es c out :
  cursors_below prev c0 -> c0 <= c -> NoDup (Entry_Path <$> es) -> 0 <= c -> c + Z.of_nat (length es) <= maxInt64 ->
  exists c' ks, foldl (assignCursor prev) (c, out) es = (c', out ++ zip_with set_Cursor ks es) /\ length ks = length es /\
    c <= c' /\ Forall2 (assigned prev c c') es ks /\ NoDup ks.
Proof.
  intros Hprev. revert c out. induction es as [|e es IH]; intros c out Hc0 Hn Hc Hb.
  - exists c, []. cbn. rewrite app_nil_r. split_and!; [done|done|lia|constructor|constructor].
  - rewrite fmap_cons in Hn. apply NoDup_cons in Hn as [He Hn].
    cbn [foldl length] in *. unfold assignCursor at 2. cbn [fst snd]. destruct (entryChanged prev e) eqn:Ech.
    + rewrite i64_small by (unfold int64_range, minInt64; lia).
      destruct (IH (c + 1) (out ++ [set_Cursor (c + 1) e])) as (c' & ks & -> & Hl & Hle & Hks & Hnk); [lia|done|lia|lia|].
      exists c', ((c + 1) :: ks). cbn. rewrite <- app_assoc. split_and!; [done|lia|lia| |].
      * constructor; [unfold assigned; rewrite Ech; lia|]. eapply Forall2_impl; [exact Hks|]. intros e' k. apply assigned_mono. lia.
      * apply NoDup_cons. split; [|done].
        apply (assigned_fresh prev c0 (c + 1) c' es ks (c + 1) e); [done|lia|done|left; lia|done].
    + pose proof Ech as (old & Hold & _)%entryChanged_false. rewrite Hold. cbn [default from_option id].
      destruct (IH c (out ++ [set_Cursor (Entry_Cursor old) e])) as (c' & ks & -> & Hl & Hle & Hks & Hnk); [done|done|lia|lia|].
      exists c', (Entry_Cursor old :: ks). cbn. rewrite <- app_assoc. split_and!; [done|lia|lia| |].
      * constructor; [|done]. unfold assigned. rewrite Ech. by exists old.
      * apply NoDup_cons. split; [|done].
        apply (assigned_fresh prev c0 c c' es ks (Entry_Cursor old) e); [done|done|done|right; by exists old|done].
Qed.

Lemma wf_journal_below j : wf_journal j -> cursors_below (indexEntries (journalFile_Entries j)) (journalFile_Cursor j).
Proof.
  intros [Hn Hs _ Hc Hd _]. split.
  - intros p e [He _]%indexEntries_Some; [|done..]. rewrite Forall_forall in Hc. apply Hc in He. lia.
  - intros p q e e' [He <-]%indexEntries_Some [He' <-]%indexEntries_Some E; [|done..].
    f_equal. by apply (NoDup_fmap_elem Entry_Cursor (journalFile_Entries j)).
Qed.

(** What a save records of the entries of a map, and what it leaves of the
    cursors. *)
Record recorded (j : journalFile) (es : list Entry) (j' : journalFile) : Prop := {
  rec_wf : wf_journal j';
  rec_cursor : journalFile_Cursor j <= journalFile_Cursor j';
  rec_from e' : e' ∈ journalFile_Entries j' -> exists e, e ∈ es /\ e' = set_Cursor (Entry_Cursor e') e /\
    assigned (indexEntries (journalFile_Entries j)) (journalFile_Cursor j) (journalFile_Cursor j') e (Entry_Cursor e');
  rec_all e : e ∈ es -> exists k, set_Cursor k e ∈ journalFile_Entries j'
}.

Lemma set_Cursor_path k e : Entry_Path (set_Cursor k e) = Entry_Path e.
Proof. done. Qed.

Lemma zip_path ks es : length ks = length es -> Entry_Path <$> zip_with set_Cursor ks es = Entry_Path <$> es.
Proof.
  revert es. induction ks as [|k ks IH]; intros [|e es]; try done. intros [= H]. cbn. f_equal. by apply IH.
Qed.

Lemma zip_cursor ks es : length ks = length es -> Entry_Cursor <$> zip_with set_Cursor ks es = ks.
Proof.
  revert es. induction ks as [|k ks IH]; intros [|e es]; try done. intros [= H]. cbn. f_equal. by apply IH.
Qed.

Lemma journalDocument_spec j es :
  wf_journal j -> NoDup (Entry_Path <$> es) -> Forall (fun e => safeRel (Entry_Path e) = true) es ->
  journalFile_Cursor j + Z.of_nat (length es) <= maxInt64 -> recorded j es (journalDocument j es).
Proof.
  intros Hj Hn Hs Hb. unfold journalDocument. cbv zeta. set (prev := indexEntries (journalFile_Entries j)).
  destruct (assign_spec prev (journalFile_Cursor j) es (journalFile_Cursor j) []) as (c' & ks & E & Hl & Hle & Ha & Hd);
    [by apply wf_journal_below|lia|done|apply Hj|done|]. rewrite E. cbn [fst snd app].
  assert (forall e', e' ∈ sortEntries (zip_with set_Cursor ks es) -> exists e, e ∈ es /\ e' = set_Cursor (Entry_Cursor e') e /\
    assigned prev (journalFile_Cursor j) c' e (Entry_Cursor e')) as Hfrom.
  { intros e' He'. rewrite sortEntries_perm in He'. apply list_elem_of_lookup in He' as [i Hi].
    apply lookup_zip_with_Some in Hi as (k & e & -> & Hk & He). exists e. split; [by eapply list_elem_of_lookup_2|].
    split; [done|]. by apply (Forall2_lookup_lr _ _ _ _ _ _ Ha He Hk). }
  split; [split|done|exact Hfrom|]; cbn.
  - by rewrite sortEntries_perm, zip_path.
  - rewrite Forall_forall. intros e' (e & He & Ee & _)%Hfrom. rewrite Forall_forall in Hs. rewrite Ee. exact (Hs e He).
  - pose proof (wj_cursor _ Hj). lia.
  - rewrite Forall_forall. intros e' (e & _ & _ & Hk)%Hfrom. unfold assigned in Hk.
    pose proof (wj_cursor _ Hj) as H0. destruct (entryChanged prev e); [lia|]. destruct Hk as (old & Ho & ->).
    apply indexEntries_Some in Ho as [Ho _]; [|apply Hj..]. pose proof (wj_cursors _ Hj) as Hcs.
    rewrite Forall_forall in Hcs. apply Hcs in Ho. lia.
  - by rewrite sortEntries_perm, zip_cursor.
  - apply sortEntries_sorted.
  - intros e He. apply list_elem_of_lookup in He as [i Hi]. destruct (Forall2_lookup_l _ _ _ _ _ Ha Hi) as (k & Hk & _).
    exists k. rewrite sortEntries_perm. apply list_elem_of_lookup. exists i. apply lookup_zip_with_Some. by exists k, e.
Qed.

(** One save after another, each of the entries of some map. *)
Definition saves (j j' : journalFile) : Prop :=
  exists es, NoDup (Entry_Path <$> es) /\ Forall (fun e => safeRel (Entry_Path e) = true) es /\
    journalFile_Cursor j + Z.of_nat (length es) <= maxInt64 /\ j' = journalDocument j es.

(** An entry whose cursor a save has not moved is the version there was. *)
Lemma recorded_kept j es j' e' :
  wf_journal j -> recorded j es j' -> e' ∈ journalFile_Entries j' -> Entry_Cursor e' <= journalFile_Cursor j ->
  exists old, old ∈ journalFile_Entries j /\ Entry_Cursor old = Entry_Cursor e' /\ same_version old e'.
Proof.
  intros Hj Hr He' Hc. destruct (rec_from _ _ _ Hr e' He') as (e & He & E & Ha). unfold assigned in Ha.
  destruct (entryChanged _ e) eqn:Ech; [lia|]. destruct Ha as (old & Ho & Hk).
  apply entryChanged_false in Ech as (old' & Ho' & ? & ? & ? & ? & _). rewrite Ho in Ho'. injection Ho' as <-.
  apply indexEntries_Some in Ho as [Ho Hp]; [|apply Hj..]. exists old. split; [done|]. split; [done|].
  rewrite E. by split_and!.
Qed.

Lemma saves_recorded j j' : wf_journal j -> saves j j' -> exists es, recorded j es j'.
Proof. intros Hj (es & Hn & Hs & Hb & ->). exists es. by apply journalDocument_spec. Qed.

Lemma saves_wf j j' : wf_journal j -> rtc saves j j' -> wf_journal j' /\ journalFile_Cursor j <= journalFile_Cursor j'.
Proof.
  intros Hj. induction 1 as [j|j j1 j2 H1 _ IH]; [done|]. destruct (saves_recorded _ _ Hj H1) as [es Hr].
  destruct (IH (rec_wf _ _ _ Hr)) as [? ?]. split; [done|]. pose proof (rec_cursor _ _ _ Hr). lia.
Qed.

Lemma saves_kept j j' e' :
  wf_journal j -> rtc saves j j' -> e' ∈ journalFile_Entries j' -> Entry_Cursor e' <= journalFile_Cursor j ->
  exists old, old ∈ journalFile_Entries j /\ Entry_Cursor old = Entry_Cursor e' /\ same_version old e'.
Proof.
  intros Hj H. revert Hj e'. induction H as [j|j j1 j2 H1 H2 IH]; intros Hj e' He' Hc.
  - exists e'. split_and!; [done|done|by split_and!].
  - destruct (saves_recorded _ _ Hj H1) as [es Hr]. pose proof (rec_cursor _ _ _ Hr) as Hle.
    destruct (IH (rec_wf _ _ _ Hr) e' He') as (e1 & He1 & Hc1 & Hv1); [lia|].
    destruct (recorded_kept _ _ _ e1 Hj Hr He1) as (e0 & He0 & Hc0 & Hv0); [lia|].
    exists e0. split; [done|]. split; [lia|]. unfold same_version in *. naive_solver congruence.
Qed.

(** Deltas are complete.  However often a journal is saved after a peer saw its
    cursor, and whatever changed in between, the journal stays well formed; what the
    peer is sent is exactly the entries with a later cursor; and every entry it is
    not sent is the version the journal held when the peer saw it. *)
Theorem delta_complete j j' :
  wf_journal j -> rtc saves j j' -> 0 < journalFile_Cursor j ->
  exists delta, JournalDelta (Some (Document j')) (journalFile_Cursor j) = Ok (delta, journalFile_Cursor j', true) /\
    wf_journal j' /\ (forall e, e ∈ delta <-> e ∈ journalFile_Entries j' /\ journalFile_Cursor j < Entry_Cursor e) /\
    (forall e, e ∈ journalFile_Entries j' -> (e ∉ delta) -> exists old, old ∈ journalFile_Entries j /\ same_version old e).
Proof.
  intros Hj Hs Hpos. destruct (saves_wf _ _ Hj Hs) as [Hj' Hle].
  exists (List.filter (fun e => journalFile_Cursor j <? Entry_Cursor e) (journalFile_Entries j')). unfold JournalDelta, loadJournalFile.
  rewrite (proj2 (Z.leb_gt _ _)) by lia. rewrite (proj2 (Z.eqb_neq (journalFile_Cursor j') 0)) by lia. cbn [orb].
  assert (forall e, e ∈ List.filter (fun e => journalFile_Cursor j <? Entry_Cursor e) (journalFile_Entries j') <->
    e ∈ journalFile_Entries j' /\ journalFile_Cursor j < Entry_Cursor e) as Hd.
  { intros e. rewrite !list_elem_of_In, filter_In, Z.ltb_lt. done. }
  split_and!; [done|done|exact Hd|]. intros e He Hno. destruct (saves_kept _ _ e Hj Hs He) as (old & ? & _ & ?); [|by exists old].
  rewrite Hd in Hno. destruct (Z.le_gt_cases (Entry_Cursor e) (journalFile_Cursor j)); [done|]. exfalso. by apply Hno.
Qed.

Definition demo_file_entry (path sha : string) (revision : Z) : Entry := mkEntry path sha 1 false revision "n" [] 0.
Definition demo_journal : journalFile := journalDocument emptyJournal [demo_file_entry "b" "x" 1; demo_file_entry "a" "x" 1].
Definition demo_journal2 : journalFile := journalDocument demo_journal [demo_file_entry "a" "y" 2; demo_file_entry "b" "x" 1].

Lemma emptyJournal_wf : wf_journal emptyJournal.
Proof. split; cbn; try constructor. done. Qed.

Lemma demo_journal_wf : wf_journal demo_journal.
Proof.
  apply (journalDocument_spec emptyJournal); [apply emptyJournal_wf|vm_compute; repeat constructor; set_solver|repeat constructor|vm_compute; discriminate].
Qed.

Lemma delta_complete_witness :
  exists delta, JournalDelta (Some (Document demo_journal2)) 2 = Ok (delta, 3, true) /\ length delta = 1%nat.
Proof.
  destruct (delta_complete demo_journal demo_journal2 demo_journal_wf) as (delta & H & _).
  - apply rtc_once. exists [demo_file_entry "a" "y" 2; demo_file_entry "b" "x" 1].
    split_and!; [vm_compute; repeat constructor; set_solver|repeat constructor|vm_compute; discriminate|done].
  - vm_compute. reflexivity.
  - exists delta. split; [exact H|]. vm_compute in H. injection H as <-. reflexivity.
Defined.

(** *** Local scans *)

(** A loop over a map whose body touches only its own key. *)
Lemma foldl_pointwise {V W : Type} (f : gmap string W -> string * V -> gmap string W) (g : string -> V -> option W -> option W)
    (l : list (string * V)) (m : gmap string W) p :
  (forall m k v q, f m (k, v) !! q = if decide (q = k) then g k v (m !! k) else m !! q) -> NoDup l.*1 ->
  foldl f m l !! p = match (list_to_map l : gmap string V) !! p with Some v => g p v (m !! p) | None => m !! p end.
Proof.
  intros Hf. revert m. induction l as [|[k v] l IH]; intros m Hn; [done|]. apply NoDup_cons in Hn as [Hk Hn].
  cbn [foldl]. rewrite IH by done. rewrite Hf, list_to_map_cons, lookup_insert.
  destruct (decide (p = k)) as [->|Hne].
  - rewrite decide_True by done. by rewrite (proj1 (not_elem_of_list_to_map _ _) Hk).
  - rewrite decide_False by congruence. done.
Qed.

(** What one path's entry becomes when the scan finds [file] there. *)
Definition noted (rel origin : string) (file : scanned) (current : option Entry) : Entry :=
  let fresh revision := mkEntry rel (scanned_sha file) (scanned_size file) false revision origin (scanned_blocks file) 0 in
  match current with
  | None => fresh 1
  | Some e =>
      if negb (Entry_Deleted e) && bool_decide (Entry_SHA256 e = scanned_sha file) then
        match Entry_Blocks e, scanned_blocks file with [], (_ :: _) as blocks => set_Blocks blocks e | _, _ => e end
      else fresh (if 1 <=? Entry_Revision e then i64 (Entry_Revision e + 1) else 1)
  end.

Lemma noteLocalFile_eq byPath rel origin file q :
  noteLocalFile byPath rel origin file !! q =
    if decide (q = rel) then Some (noted rel origin file (byPath !! rel)) else byPath !! q.
Proof.
  unfold noteLocalFile, noted. destruct (byPath !! rel) as [e|] eqn:E.
  - destruct (_ && _).
    + destruct (Entry_Blocks e), (scanned_blocks file); rewrite ?lookup_insert; repeat case_decide; congruence.
    + rewrite lookup_insert. repeat case_decide; congruence.
  - rewrite lookup_insert. repeat case_decide; congruence.
Qed.

Definition swept (origin : string) (e : Entry) : Entry := if Entry_Deleted e then e else deleteEntry origin e.

Lemma markDeleted_eq byPath rel origin q :
  markDeleted byPath rel origin !! q = if decide (q = rel) then swept origin <$> byPath !! rel else byPath !! q.
Proof.
  unfold markDeleted, swept. destruct (byPath !! rel) as [e|] eqn:E; [|case_decide; [by subst|done]].
  destruct (Entry_Deleted e) eqn:Ed; rewrite ?lookup_insert; repeat case_decide; simplify_eq; simpl; rewrite ?Ed; congruence.
Qed.

Lemma map_to_list_keys {V} (m : gmap string V) : NoDup (map_to_list m).*1.
Proof. apply NoDup_fst_map_to_list. Qed.

Section scanning.
Context (sha256 : bytes -> bytes) (cwd : string).

Lemma NoDup_omap {A B} (f : A -> option B) l :
  (forall x y z, x ∈ l -> y ∈ l -> f x = Some z -> f y = Some z -> x = y) -> NoDup l -> NoDup (omap f l).
Proof.
  induction l as [|x l IH]; intros Hf Hn; [constructor|]. apply NoDup_cons in Hn as [Hx Hn]. cbn.
  assert (NoDup (omap f l)) as Hl by (apply IH; [intros; by apply (Hf x0 y z); [right..| |]|done]).
  destruct (f x) as [z|] eqn:E; [|done]. apply NoDup_cons. split; [|done].
  intros (y & Hy & Hfy)%list_elem_of_omap. apply Hx. by rewrite (Hf x y z); [|left|right| |].
Qed.

(** The whole effect of a scan on the journal. *)
Lemma absorbLocal_lookup env root origin files byPath seen p :
  scanFolder sha256 cwd env root files = Ok seen ->
  exists byPath', absorbLocal sha256 cwd env root origin files byPath = Ok byPath' /\
    byPath' !! p = match seen !! p with
      | Some file => Some (noted p origin file (byPath !! p))
      | None => swept origin <$> byPath !! p
      end.
Proof.
  intros Hs. unfold absorbLocal. rewrite Hs. cbn [mbind result_bind]. eexists. split; [reflexivity|]. cbv zeta.
  set (notedMap := foldl (noteSeen origin) byPath (map_to_list seen)).
  assert (forall q, notedMap !! q = match seen !! q with Some file => Some (noted q origin file (byPath !! q)) | None => byPath !! q end) as Hnoted.
  { intros q. unfold notedMap. rewrite (foldl_pointwise _ (fun k v cur => Some (noted k origin v cur))).
    - by rewrite list_to_map_to_list.
    - intros m k v q'. apply noteLocalFile_eq.
    - apply map_to_list_keys. }
  rewrite (foldl_pointwise _ (fun k (v : Entry) cur =>
    if Entry_Deleted v then cur else match seen !! k with Some _ => cur | None => swept origin <$> cur end)).
  - rewrite list_to_map_to_list, Hnoted. destruct (seen !! p) as [file|] eqn:E; [by destruct (Entry_Deleted _)|].
    destruct (byPath !! p) as [e|]; [|done]. unfold swept. cbn. by destruct (Entry_Deleted e).
  - intros m k v q. unfold sweepDeleted. cbn [fst snd]. destruct (Entry_Deleted v); [by case_decide; subst|].
    destruct (seen !! k); [by case_decide; subst|]. apply markDeleted_eq.
  - apply map_to_list_keys.
Qed.

(** The files a scan of [root] is about: below it, safe, and not staging files. *)
Definition scannable (root : list string) (files : diskFiles) (p : string) (data : bytes) : Prop :=
  exists l, l <> [] /\ p = join "/" l /\ files !! (root ++ l) = Some data /\ safeRel p = true /\ staging (path_base p) = false.

Definition real_names (files : diskFiles) : Prop := forall p data, files !! p = Some data -> Forall elem_ok p.

Lemma below_Some root p l : below root p = Some l <-> l <> [] /\ p = root ++ l.
Proof.
  unfold below. destruct (bool_decide_reflect (take (length root) p = root)) as [E|E].
  - rewrite <- (take_drop (length root) p) at 2. rewrite E. destruct (drop (length root) p) eqn:Ed; split.
    + done.
    + intros [Hl H]. apply app_inv_head in H. congruence.
    + intros [= <-]. done.
    + intros [_ H]. apply app_inv_head in H. congruence.
  - split; [done|]. intros [_ ->]. by rewrite take_app_length in E.
Qed.

Lemma walked_elem root files p q data :
  (p, (q, data)) ∈ walked root files <->
  exists l, l <> [] /\ p = join "/" l /\ q = root ++ l /\ files !! q = Some data /\ safeRel p = true /\ staging (path_base p) = false.
Proof.
  unfold walked. rewrite list_elem_of_omap. split.
  - intros ([q' data'] & Hin & H). cbn [fst] in H. destruct (below root q') as [l|] eqn:E; [|done].
    apply below_Some in E as [Hl ->]. destruct (safeRel (join "/" l)) eqn:Hsafe; [|done].
    destruct (staging (path_base (join "/" l))) eqn:Hst; [done|]. injection H as <- <- <-.
    apply elem_of_map_to_list in Hin. by exists l.
  - intros (l & Hl & -> & -> & Hf & Hs & Hst). exists (root ++ l, data). split; [by apply elem_of_map_to_list|].
    cbn [fst]. rewrite (proj2 (below_Some root (root ++ l) l)) by done. by rewrite Hs, Hst.
Qed.

Lemma walked_keys root files : real_names files -> NoDup ((fun f : string * (list string * bytes) => (f.1, InspectFile sha256 f.2.2)) <$> walked root files).*1.
Proof.
  intros Hr. rewrite <- list_fmap_compose. unfold compose. cbn [fst].
  assert (NoDup (walked root files)) as Hn.
  { unfold walked. apply NoDup_omap; [|apply NoDup_map_to_list].
    intros [q1 d1] [q2 d2] [p [q d]] _ _. cbn [fst]. intros H1 H2.
    destruct (below root q1); [|done]. destruct (_ || _) in H1; [done|]. destruct (below root q2); [|done].
    destruct (_ || _) in H2; [done|]. congruence. }
  apply NoDup_fmap_2_strong; [|done]. intros [p [q d]] [p' [q' d']] H H' E. cbn in E. subst p'.
  apply walked_elem in H as (l & Hl & -> & -> & Hf & _), H' as (l' & Hl' & E & -> & Hf' & _).
  apply Hr in Hf as Ho. apply Hr in Hf' as Ho'. apply Forall_app in Ho as [_ Ho], Ho' as [_ Ho'].
  apply join_inj in E as ->; [|done..]. congruence.
Qed.

Lemma scanFolder_lookup env root files seen p :
  real_names files -> le_root env = RootDir -> scanFolder sha256 cwd env root files = Ok seen ->
  forall file, seen !! p = Some file <-> exists data, scannable (abs_elems cwd root) files p data /\ file = InspectFile sha256 data.
Proof.
  intros Hr He. unfold scanFolder. rewrite He. cbv zeta. destruct (existsb _ _); [done|]. intros [= <-] file.
  rewrite <- elem_of_list_to_map by by apply walked_keys. rewrite list_elem_of_fmap. split.
  - intros ([p' [q data]] & E & Hin). cbn in E. injection E as -> ->. exists data. split; [|done].
    apply walked_elem in Hin as (l & ? & ? & -> & ? & ? & ?). by exists l.
  - intros (data & (l & Hl & Hp & Hf & Hs & Hst) & ->). exists (p, (abs_elems cwd root ++ l, data)). split; [done|].
    apply walked_elem. by exists l.
Qed.
End scanning.

(** Each entry is under its own path. *)
Definition keyed (byPath : journal) : Prop := forall p e, byPath !! p = Some e -> Entry_Path e = p.

Lemma noted_live p origin file cur : Entry_Deleted (noted p origin file cur) = false /\
  Entry_SHA256 (noted p origin file cur) = scanned_sha file.
Proof.
  unfold noted. destruct cur as [e|]; [|done].
  destruct (Entry_Deleted e) eqn:Ed; cbn [negb andb]; [done|].
  destruct (bool_decide_reflect (Entry_SHA256 e = scanned_sha file)) as [Hs|]; [|done].
  by destruct (Entry_Blocks e), (scanned_blocks file).
Qed.

Lemma noted_again p origin file cur : noted p origin file (Some (noted p origin file cur)) = noted p origin file cur.
Proof.
  destruct (noted_live p origin file cur) as [Hd Hs]. unfold noted at 1. rewrite Hd, Hs, bool_decide_eq_true_2 by done.
  cbn [negb andb]. unfold noted. destruct cur as [e|]; cbn; [|by destruct (scanned_blocks file)].
  destruct (_ && _); [|cbn; by destruct (scanned_blocks file)].
  destruct (Entry_Blocks e) eqn:Eb, (scanned_blocks file) eqn:Ef; cbn; rewrite ?Eb; done.
Qed.

Lemma swept_again origin e : swept origin (swept origin e) = swept origin e.
Proof. unfold swept. destruct (Entry_Deleted e) eqn:E; [by rewrite E|done]. Qed.

(** Revisions only grow, and stay put only if the content does. *)
Definition revised (e e' : Entry) : Prop :=
  Entry_Revision e <= Entry_Revision e' /\
  (Entry_Revision e = Entry_Revision e' -> Entry_SHA256 e = Entry_SHA256 e' /\ Entry_Deleted e = Entry_Deleted e' /\ Entry_Size e = Entry_Size e').

Lemma noted_revised p origin file e : Entry_Revision e < maxInt64 -> minInt64 <= Entry_Revision e -> revised e (noted p origin file (Some e)).
Proof.
  intros H1 H2. unfold noted, revised. destruct (_ && _).
  - destruct (Entry_Blocks e), (scanned_blocks file); by cbn.
  - destruct (Z.leb_spec 1 (Entry_Revision e)); cbn; [rewrite i64_small by (unfold int64_range; lia)|]; lia.
Qed.

Lemma swept_revised origin e : Entry_Revision e < maxInt64 -> minInt64 <= Entry_Revision e -> revised e (swept origin e).
Proof.
  intros H1 H2. unfold swept, revised. destruct (Entry_Deleted e) eqn:Ed; [split; [lia|by rewrite Ed]|]. cbn. rewrite i64_small by (unfold int64_range; lia). lia.
Qed.


Definition demo_env : localEnv := mkLocalEnv RootDir (fun _ => false) (fun _ => false) (fun _ => false).
Definition demo_files : diskFiles := {[["r"; "a"] := [Byte.x61]; ["r"; "b.fse-sync-tmp"] := []; ["s"] := []]}.
Definition demo_scanned : result FolderErr journal :=
  absorbLocal demo_sha "/" demo_env "/r" "n" demo_files (<["gone" := demo_file_entry "gone" "x" 3]> ∅).
Definition demo_scanned_journal : journal := match demo_scanned with Ok j => j | Err _ => ∅ end.


(** *** Applying a remote journal *)

(** A path as a scan writes it: clean, and not that of a staging file. *)
Record tidy (q : string) : Prop := {
  tidy_safe : safeRel q = true;
  tidy_clean : path_clean q = q;
  tidy_staging : staging (path_base q) = false
}.

Lemma contains_intro a p b : contains (a +:+ p +:+ b) p = true.
Proof.
  induction a as [|c a IH].
  - change (EmptyString +:+ p +:+ b) with (p +:+ b). unfold contains. destruct (p +:+ b) eqn:E; rewrite <- E, has_prefix_app; done.
  - change (String c a +:+ p +:+ b) with (String c (a +:+ p +:+ b)). cbn [contains]. rewrite IH. apply orb_true_r.
Qed.

Lemma staging_suffix_staged e : staging (e +:+ staging_suffix) = true.
Proof. unfold staging. change staging_suffix with (".fse-sync-" +:+ "tmp"). by rewrite contains_intro, orb_true_r. Qed.

Section applying.
Context (sha256 : bytes -> bytes) (cwd : string) (root : string).
Hypothesis cwd_nonempty : cwd <> EmptyString.

Lemma tidy_elems q : tidy q -> join "/" (clean_elems q) = q /\ clean_elems q <> [] /\ Forall elem_ok (clean_elems q).
Proof. intros [Hs Hc _]. destruct (safeRel_inside q Hs) as (_ & _ & Hn & Hok & E). by rewrite <- E. Qed.

(** Different tidy paths are at different places, and not at staged files. *)
Lemma tidy_target_inj q q' t : tidy q -> tidy q' -> safeJoin cwd root q = Some t -> safeJoin cwd root q' = Some t -> q = q'.
Proof.
  intros Hq Hq' (_ & -> & _)%safeJoin_below (_ & E & _)%safeJoin_below; [|done..].
  apply app_inv_head in E. destruct (tidy_elems q Hq) as [<- _], (tidy_elems q' Hq') as [<- _]. by rewrite E.
Qed.

Lemma tidy_not_staged q q' t t' : tidy q -> tidy q' -> safeJoin cwd root q = Some t -> safeJoin cwd root q' = Some t' -> tmpName t <> t'.
Proof.
  intros Hq Hq' (_ & -> & Hn & _)%safeJoin_below (_ & -> & Hn' & Hok')%safeJoin_below E; [|done..].
  unfold tmpName in E. rewrite on_last_app in E by done. apply app_inv_head in E.
  destruct (tidy_elems q' Hq') as [Hj _]. destruct Hq' as [_ _ Hst]. rewrite <- Hj in Hst.
  unfold path_base in Hst. rewrite split_on_join in Hst; [|done|by eapply Forall_impl; [exact Hok'|]; intros e []].
  rewrite <- E in Hst. unfold on_last in Hst. destruct (rev (clean_elems q)) as [|e before] eqn:Er.
  { apply (f_equal (@rev _)) in Er. by rewrite rev_involutive in Er. }
  cbn [rev] in Hst. rewrite last_snoc in Hst. by rewrite staging_suffix_staged in Hst.
Qed.

Lemma tidy_target_nonempty q t : safeJoin cwd root q = Some t -> t <> [].
Proof. intros (_ & -> & Hn & _)%safeJoin_below; [|done]. by destruct (abs_elems cwd root), (clean_elems q). Qed.

(** Where an entry of a remote journal goes, if it is newer. *)
Definition newer (byPath : journal) (e : Entry) : bool :=
  match byPath !! Entry_Path e with
  | Some current => negb (Entry_Revision e <=? Entry_Revision current)
  | None => true
  end.

Definition verdict (byPath : journal) (e : Entry) : option (list string) :=
  if newer byPath e then safeJoin cwd root (Entry_Path e) else None.

Definition removal (env : remoteEnv) (byPath : journal) (e : Entry) : option (Entry * list string) :=
  t ← verdict byPath e; if Entry_Deleted e && negb (re_removeFails env e) then Some (e, t) else None.

Definition transfer (byPath : journal) (e : Entry) : option transferJob :=
  t ← verdict byPath e; if Entry_Deleted e then None else Some (mkTransferJob e t).

Definition refused (env : remoteEnv) (byPath : journal) (e : Entry) : bool :=
  match verdict byPath e with Some _ => Entry_Deleted e && re_removeFails env e | None => false end.

Definition remove_all (files : diskFiles) (l : list (list string)) : diskFiles := foldl (fun f t => delete t f) files l.

Lemma planEntries_spec env byPath remote p :
  NoDup (Entry_Path <$> remote) -> (forall e, e ∈ remote -> plan_byPath p !! Entry_Path e = byPath !! Entry_Path e) ->
  foldl (planEntry cwd env root) p remote =
    mkPlan (put_all Entry_Path id (plan_byPath p) (fst <$> omap (removal env byPath) remote))
      (mkDisk (remove_all (disk_files (plan_disk p)) (snd <$> omap (removal env byPath) remote)) (disk_states (plan_disk p)))
      (plan_jobs p ++ omap (transfer byPath) remote) (plan_failed p || existsb (refused env byPath) remote).
Proof.
  revert p. induction remote as [|e remote IH]; intros p Hn Hp.
  - cbn. rewrite app_nil_r, orb_false_r. destruct p as [? [? ?] ? ?]. done.
  - apply NoDup_cons in Hn as [He Hn]. cbn [foldl]. rewrite IH; [|done|].
    + change (omap (removal env byPath) (e :: remote)) with
        (match removal env byPath e with Some x => x :: omap (removal env byPath) remote | None => omap (removal env byPath) remote end).
      change (omap (transfer byPath) (e :: remote)) with
        (match transfer byPath e with Some x => x :: omap (transfer byPath) remote | None => omap (transfer byPath) remote end).
      cbn [existsb]. unfold planEntry. rewrite (Hp e) by by left. fold (newer byPath e).
      assert (removal env byPath e = t ← verdict byPath e; if Entry_Deleted e && negb (re_removeFails env e) then Some (e, t) else None) as -> by done.
      assert (transfer byPath e = t ← verdict byPath e; if Entry_Deleted e then None else Some (mkTransferJob e t)) as -> by done.
      assert (refused env byPath e = match verdict byPath e with Some _ => Entry_Deleted e && re_removeFails env e | None => false end) as -> by done.
      unfold verdict. destruct (newer byPath e); cbn [negb orb]; rewrite ?orb_true_r, ?orb_false_r; [|done].
      destruct (safeRel (Entry_Path e)) eqn:Hs; cbn [negb]; [|unfold safeJoin; by rewrite Hs].
      destruct (safeJoin cwd root (Entry_Path e)) as [t|]; cbn; [|done].
      destruct (Entry_Deleted e); cbn; [destruct (re_removeFails env e); cbn|]; try done.
      * by rewrite orb_true_r.
      * by rewrite <- app_assoc.
    + intros e' He'. rewrite <- Hp by by right. unfold planEntry.
      destruct (_ || _); [done|]. destruct (safeJoin _ _ _); [|done]. destruct (Entry_Deleted e); [|done].
      destruct (re_removeFails env e); [done|]. cbn. apply lookup_insert_ne. intros E. apply He. rewrite E. by apply list_elem_of_fmap_2.
Qed.

Lemma remove_all_lookup files l p : remove_all files l !! p = if decide (p ∈ l) then None else files !! p.
Proof.
  clear cwd_nonempty. unfold remove_all. revert files. induction l as [|t l IH]; intros files; cbn [foldl].
  - by rewrite decide_False by set_solver.
  - rewrite IH. destruct (decide (p ∈ l)); [by rewrite decide_True by set_solver|].
    destruct (decide (p = t)) as [->|].
    + by rewrite lookup_delete_eq, decide_True by set_solver.
    + by rewrite lookup_delete_ne, decide_False by set_solver.
Qed.

(** The journal says what the folder holds. *)
Definition described (d : disk) (byPath : journal) : Prop :=
  forall q e t, byPath !! q = Some e -> safeJoin cwd root q = Some t ->
    if Entry_Deleted e then disk_files d !! t = None
    else exists data, disk_files d !! t = Some data /\ matches_entry sha256 e data.

Definition tidy_journal (byPath : journal) : Prop := forall q e, byPath !! q = Some e -> tidy q.

Lemma removal_Some env byPath e e' t : removal env byPath e = Some (e', t) ->
  e' = e /\ verdict byPath e = Some t /\ Entry_Deleted e = true /\ re_removeFails env e = false.
Proof.
  unfold removal. destruct (verdict byPath e) as [t'|]; [|done]. cbn. destruct (Entry_Deleted e); [|done].
  destruct (re_removeFails env e); [done|]. by intros [= <- <-].
Qed.

Lemma transfer_Some byPath e job : transfer byPath e = Some job ->
  job_entry job = e /\ verdict byPath e = Some (job_target job) /\ Entry_Deleted e = false.
Proof.
  unfold transfer. destruct (verdict byPath e) as [t'|]; [|done]. cbn. destruct (Entry_Deleted e); [done|].
  by intros [= <-].
Qed.

Lemma verdict_join byPath e t : verdict byPath e = Some t -> newer byPath e = true /\ safeJoin cwd root (Entry_Path e) = Some t.
Proof. unfold verdict. by destruct (newer byPath e). Qed.

Section outcome.
Context (env : remoteEnv) (d : disk) (byPath : journal) (remote : list Entry).
Hypothesis order_permutes : forall js, env_order (re_transfers env) js ≡ₚ js.
Hypothesis remote_nodup : NoDup (Entry_Path <$> remote).
Hypothesis remote_tidy : Forall (fun e => tidy (Entry_Path e)) remote.

#[local] Definition jobs : list transferJob := omap (transfer byPath) remote.
#[local] Definition removals : list (Entry * list string) := omap (removal env byPath) remote.

Lemma jobs_elem job : job ∈ jobs <-> job_entry job ∈ remote /\ transfer byPath (job_entry job) = Some job.
Proof.
  unfold jobs. rewrite list_elem_of_omap. split.
  - intros (e & He & Ht). destruct (transfer_Some _ _ _ Ht) as (-> & _). done.
  - intros [He Ht]. by exists (job_entry job).
Qed.

Lemma remote_tidy_elem e : e ∈ remote -> tidy (Entry_Path e).
Proof. rewrite Forall_forall in remote_tidy. apply remote_tidy. Qed.

Lemma jobs_tidy job : job ∈ jobs -> tidy (Entry_Path (job_entry job)) /\
  safeJoin cwd root (Entry_Path (job_entry job)) = Some (job_target job).
Proof.
  intros [He Ht]%jobs_elem. split; [by apply remote_tidy_elem|]. apply transfer_Some in Ht as (_ & Hv & _).
  by apply verdict_join in Hv as [_ ?].
Qed.

Lemma jobs_separate : separate jobs.
Proof.
  split.
  - unfold jobs. clear order_permutes. induction remote as [|e l IH]; [constructor|].
    apply NoDup_cons in remote_nodup as [He Hn]. inversion remote_tidy as [|? ? Hte Htl]; subst. cbn.
    destruct (transfer byPath e) as [job|] eqn:Ej; [|by apply IH]. apply NoDup_cons. split; [|by apply IH].
    intros (job' & Ht & (e' & He' & Ej')%list_elem_of_omap)%list_elem_of_fmap.
    apply transfer_Some in Ej as (_ & Hv & _), Ej' as (_ & Hv' & _).
    apply verdict_join in Hv as [_ Hv], Hv' as [_ Hv']. rewrite <- Ht in Hv'. apply He.
    rewrite Forall_forall in Htl. rewrite (tidy_target_inj (Entry_Path e) (Entry_Path e') (job_target job)); auto.
    by apply list_elem_of_fmap_2.
  - intros job Hj. destruct (jobs_tidy job Hj) as [_ H]. exact (tidy_target_nonempty _ _ H).
  - intros job job' Hj Hj'. destruct (jobs_tidy job Hj) as [H1 H2], (jobs_tidy job' Hj') as [H3 H4].
    exact (tidy_not_staged _ _ _ _ H1 H3 H2 H4).
Qed.

Definition outcome : journal * disk * bool := applyRemote sha256 cwd env root d byPath remote.

(** The pass in closed form: the jobs that were [done], and those left. *)
Lemma outcome_spec : exists done rest,
  jobs ≡ₚ done ++ rest /\
  outcome.1.1 = put_all Entry_Path id (put_all Entry_Path id byPath (fst <$> removals)) (job_entry <$> done) /\
  transferring sha256 (mkDisk (remove_all (disk_files d) (snd <$> removals)) (disk_states d)) done rest outcome.1.2 /\
  (outcome.2 = false -> rest = [] /\ existsb (refused env byPath) remote = false).
Proof.
  unfold outcome, applyRemote. cbv zeta. rewrite (planEntries_spec env byPath) by done. cbn [plan_byPath plan_disk plan_jobs plan_failed].
  cbn [app orb disk_files disk_states]. fold jobs removals.
  match goal with |- context [transferJobs sha256 ?t ?locals ?d0 jobs] =>
    destruct (transferJobs_ok sha256 t locals d0 jobs order_permutes jobs_separate) as [(done & Ha & Hp & Ht) Hf] end.
  rewrite app_nil_r in Hp, Ht. eexists done, _. split; [exact Hp|]. cbn [fst snd]. rewrite Ha. split; [done|]. split; [exact Ht|].
  intros [H1 H2]%orb_false_iff. by rewrite Hf.
Qed.

Lemma removals_elem e t : (e, t) ∈ removals <-> e ∈ remote /\ removal env byPath e = Some (e, t).
Proof.
  unfold removals. rewrite list_elem_of_omap. split.
  - intros (e' & He & Ht). by destruct (removal_Some _ _ _ _ _ Ht) as (-> & _).
  - intros [He Ht]. by exists e.
Qed.

Lemma removed_elem e : e ∈ fst <$> removals <-> e ∈ remote /\ exists t, removal env byPath e = Some (e, t).
Proof.
  rewrite list_elem_of_fmap. split.
  - intros ([e' t] & -> & [He Hr]%removals_elem). split; [done|by exists t].
  - intros [He [t Hr]]. exists (e, t). split; [done|]. by apply removals_elem.
Qed.

Lemma remote_path_inj e e' : e ∈ remote -> e' ∈ remote -> Entry_Path e = Entry_Path e' -> e = e'.
Proof. by apply NoDup_fmap_elem. Qed.

Lemma sub_nodup l : NoDup l -> (forall e, e ∈ l -> e ∈ remote) -> NoDup (Entry_Path <$> l).
Proof. intros Hl Hin. apply NoDup_fmap_2_strong; [|done]. intros e e' He He'. apply remote_path_inj; auto. Qed.

(** The entries that took effect: the removals and the jobs done. *)
Record taken (done rest : list transferJob) : Prop := {
  tk_jobs : jobs ≡ₚ done ++ rest;
  tk_done job : job ∈ done -> job ∈ jobs;
  tk_done_nodup : NoDup (Entry_Path <$> (job_entry <$> done));
  tk_removed_nodup : NoDup (Entry_Path <$> (fst <$> removals))
}.

Lemma taken_jobs done rest : jobs ≡ₚ done ++ rest -> taken done rest.
Proof.
  intros Hp. assert (forall job, job ∈ done -> job ∈ jobs) as Hd by (intros job Hj; rewrite Hp; set_solver).
  split; [done|done| |].
  - apply sub_nodup.
    + assert (NoDup (job_target <$> done)) as Ht.
      { pose proof (sep_nodup _ jobs_separate) as Hn. rewrite Hp, fmap_app in Hn. by apply NoDup_app in Hn as [? _]. }
      apply NoDup_fmap_1 in Ht. apply NoDup_fmap_2_strong; [|done]. intros j j' Hj Hj' E.
      apply Hd, jobs_elem in Hj as [_ Hj], Hj' as [_ Hj']. rewrite E in Hj. congruence.
    + intros e (job & -> & Hj)%list_elem_of_fmap. by apply Hd, jobs_elem in Hj as [? _].
  - apply sub_nodup; [|intros e [? _]%removed_elem; done].
    unfold removals. clear Hp Hd order_permutes remote_tidy. induction remote as [|e l IH]; [constructor|].
    apply NoDup_cons in remote_nodup as [He Hn]. cbn. destruct (removal env byPath e) as [[e' t]|] eqn:Er; [|by apply IH].
    rewrite fmap_cons. apply NoDup_cons. split; [|by apply IH]. apply removal_Some in Er as (-> & _). cbn [fst].
    intros (x & Ex & (e'' & Hin & Hr)%list_elem_of_omap)%list_elem_of_fmap. destruct x as [x1 x2].
    apply removal_Some in Hr as (-> & _). cbn in Ex. subst. apply He. by apply list_elem_of_fmap_2.
Qed.

Lemma outcome_lookup done rest q e : taken done rest ->
  put_all Entry_Path id (put_all Entry_Path id byPath (fst <$> removals)) (job_entry <$> done) !! q = Some e ->
  (exists job, job ∈ done /\ job_entry job = e /\ Entry_Path e = q) \/
  (e ∈ remote /\ Entry_Path e = q /\ exists t, removal env byPath e = Some (e, t)) \/
  (byPath !! q = Some e /\ (forall job, job ∈ done -> Entry_Path (job_entry job) <> q) /\
   forall e' t, e' ∈ remote -> removal env byPath e' = Some (e', t) -> Entry_Path e' <> q).
Proof.
  intros [_ _ Hn1 Hn2] H. apply put_all_id_Some in H as [[He <-]|[Hno H]]; [| |done].
  - left. apply list_elem_of_fmap in He as (job & -> & Hj). by exists job.
  - right. apply put_all_id_Some in H as [[He <-]|[Hno2 H]]; [| |done].
    + left. by apply removed_elem in He as [? ?].
    + right. split; [done|]. split.
      * intros job Hj <-. apply Hno. do 2 apply list_elem_of_fmap_2. done.
      * intros e' t He' Hr <-. apply Hno2. apply list_elem_of_fmap_2, removed_elem. split; [done|by exists t].
Qed.

(** What is at the place of a path the pass did not change. *)
Lemma untouched_place done rest d' q t :
  transferring sha256 (mkDisk (remove_all (disk_files d) (snd <$> removals)) (disk_states d)) done rest d' ->
  taken done rest -> tidy q -> safeJoin cwd root q = Some t ->
  (forall job, job ∈ done -> Entry_Path (job_entry job) <> q) ->
  disk_files d' !! t = remove_all (disk_files d) (snd <$> removals) !! t.
Proof.
  intros Htr Htk Hq Ht Hdone.
  destruct (decide (t ∈ job_target <$> rest)) as [(job & -> & Hj)%list_elem_of_fmap|Hrest]; [by apply (tr_todo _ _ _ _ _ Htr)|].
  apply (tr_others _ _ _ _ _ Htr). intros job Hj. assert (job ∈ jobs) as Hjj by by rewrite (tk_jobs _ _ Htk).
  destruct (jobs_tidy job Hjj) as [Htj Hsj]. split.
  - intros ->. apply elem_of_app in Hj as [Hj|Hj].
    + apply (Hdone job Hj). by eapply tidy_target_inj.
    + apply Hrest. by apply list_elem_of_fmap_2.
  - intros E. exact (tidy_not_staged _ _ _ _ Htj Hq Hsj Ht (eq_sym E)).
Qed.
End outcome.
End applying.

(** The disk after a pass, against the one before it. *)
Lemma outcome_described sha256 cwd root env d byPath remote :
  cwd <> EmptyString -> (forall js, env_order (re_transfers env) js ≡ₚ js) ->
  NoDup (Entry_Path <$> remote) -> Forall (fun e => tidy (Entry_Path e)) remote -> tidy_journal byPath ->
  described sha256 cwd root d byPath ->
  described sha256 cwd root (outcome sha256 cwd root env d byPath remote).1.2 (outcome sha256 cwd root env d byPath remote).1.1.
Proof.
  intros Hcwd Ho Hn Ht Htj Hd.
  destruct (outcome_spec sha256 cwd root Hcwd env d byPath remote Ho Hn Ht) as (done & rest & Hp & Hb & Htr & _).
  pose proof (taken_jobs cwd root Hcwd env byPath remote Ho Hn Ht done rest Hp) as Htk.
  intros q e t He Hq. rewrite Hb in He. destruct (outcome_lookup _ _ _ _ _ _ _ _ _ Htk He) as
    [(job & Hj & <- & Hpath)|[(Hr & Hpath & t' & Hrem)|(Hold & Hnd & Hnr)]].
  - pose proof (tk_done _ _ _ _ _ _ _ Htk job Hj) as Hjj.
    destruct (jobs_tidy cwd root byPath remote Ht job Hjj) as [_ Hsj].
    apply jobs_elem in Hjj as [_ (_ & _ & Hdel)%transfer_Some]. rewrite Hdel. rewrite Hpath in Hsj.
    assert (t = job_target job) as -> by congruence. exact (tr_done _ _ _ _ _ Htr job Hj).
  - apply removal_Some in Hrem as Hrem'. destruct Hrem' as (_ & Hv & Hdel & _). rewrite Hdel.
    apply verdict_join in Hv as [_ Hv]. rewrite Hpath in Hv. assert (t' = t) as -> by congruence.
    assert (tidy q) as Htq by (rewrite <- Hpath; exact (remote_tidy_elem remote Ht e Hr)).
    assert (forall job, job ∈ done -> Entry_Path (job_entry job) <> q) as Hnd.
    { intros job Hj E. pose proof (tk_done _ _ _ _ _ _ _ Htk job Hj) as Hjj.
      apply jobs_elem in Hjj as [Hjr (_ & _ & Hjd)%transfer_Some].
      assert (job_entry job = e) as Eq by (apply (remote_path_inj remote Hn); congruence). congruence. }
    rewrite (untouched_place sha256 cwd root Hcwd env d byPath remote Ht done rest _ q t Htr Htk Htq Hq Hnd), remove_all_lookup.
    apply decide_True. apply list_elem_of_fmap. exists (e, t). split; [done|]. by apply removals_elem.
  - specialize (Htj q e Hold) as Htq.
    rewrite (untouched_place sha256 cwd root Hcwd env d byPath remote Ht done rest _ q t Htr Htk Htq Hq Hnd), remove_all_lookup.
    rewrite decide_False; [by apply (Hd q)|]. intros ([e' t'] & -> & [He' Hr']%removals_elem)%list_elem_of_fmap.
    apply (Hnr e' t' He' Hr'). apply removal_Some in Hr' as (_ & [_ Hv]%verdict_join & _). cbn in Hq.
    apply (tidy_target_inj cwd root Hcwd _ _ t'); [exact (remote_tidy_elem remote Ht e' He')|done|done|done].
Qed.

(** Which entries a pass takes. *)
Lemma applyRemote_entries sha256 cwd root env d byPath remote byPath' d' failed :
  cwd <> EmptyString -> (forall js, env_order (re_transfers env) js ≡ₚ js) ->
  NoDup (Entry_Path <$> remote) -> Forall (fun e => tidy (Entry_Path e)) remote ->
  applyRemote sha256 cwd env root d byPath remote = (byPath', d', failed) ->
  (forall q, byPath' !! q = byPath !! q \/
     exists e, e ∈ remote /\ Entry_Path e = q /\ newer byPath e = true /\ byPath' !! q = Some e) /\
  (failed = false -> forall e, e ∈ remote -> verdict cwd root byPath e <> None -> byPath' !! Entry_Path e = Some e).
Proof.
  intros Hcwd Ho Hn Ht E.
  destruct (outcome_spec sha256 cwd root Hcwd env d byPath remote Ho Hn Ht) as (done & rest & Hp & Hb & Htr & Hf).
  pose proof (taken_jobs cwd root Hcwd env byPath remote Ho Hn Ht done rest Hp) as Htk.
  unfold outcome in *. rewrite E in *. cbn [fst snd] in *. split.
  - intros q. destruct (byPath' !! q) as [e|] eqn:Eq.
    + rewrite Hb in Eq. destruct (outcome_lookup _ _ _ _ _ _ _ _ _ Htk Eq) as
        [(job & Hj & <- & Hpath)|[(Hr & Hpath & t & Hrem)|(Hold & _)]]; [right..|by left].
      * pose proof (tk_done _ _ _ _ _ _ _ Htk job Hj) as [Hjr (_ & [Hnew _]%verdict_join & _)%transfer_Some]%jobs_elem.
        by exists (job_entry job).
      * apply removal_Some in Hrem as (_ & [Hnew _]%verdict_join & _). by exists e.
    + left. symmetry. destruct (byPath !! q) as [e|] eqn:Eo; [|done]. exfalso.
      assert (is_Some (byPath' !! q)) as [x Hx]; [|congruence]. rewrite Hb. do 2 apply put_all_mono. by eexists.
  - intros Hfail e He Hv. destruct (Hf Hfail) as [-> Href]. rewrite app_nil_r in Hp.
    destruct (verdict cwd root byPath e) as [t|] eqn:Ev; [|done]. rewrite Hb.
    destruct (Entry_Deleted e) eqn:Ed.
    + assert (re_removeFails env e = false) as Hrf.
      { apply existsb_none in Href. rewrite Forall_forall in Href. specialize (Href e He). unfold refused in Href.
        by rewrite Ev, Ed in Href. }
      apply put_all_id_Some; [apply Htk|]. right. split.
      * intros (x & Ex & (job & -> & Hj)%list_elem_of_fmap)%list_elem_of_fmap.
        rewrite <- Hp in Hj. apply jobs_elem in Hj as [Hjr (_ & _ & Hjd)%transfer_Some].
        assert (e = job_entry job) as Eq by by apply (remote_path_inj remote Hn). congruence.
      * apply put_all_id_Some; [apply Htk|]. left. split; [|done]. apply removed_elem. split; [done|]. exists t.
        unfold removal. by rewrite Ev, Ed, Hrf.
    + apply put_all_id_Some; [apply Htk|]. left. split; [|done]. apply list_elem_of_fmap.
      exists (mkTransferJob e t). split; [done|]. rewrite <- Hp. apply jobs_elem. split; [done|].
      cbn. unfold transfer. by rewrite Ev, Ed.
Qed.


Definition demo_transfers : transferEnv :=
  mkTransferEnv (fun _ => Err ErrPeer) (fun _ _ => false) (fun _ attempt => demo_peer attempt) (fun js => js).
Definition demo_remote_env : remoteEnv := mkRemoteEnv map_to_list (fun _ => false) demo_transfers.
Definition demo_remote : list Entry :=
  [demo_entry; mkEntry "old" EmptyString 0 true 4 "m" [] 7; mkEntry "kept" "ffff" 9 false 1 "m" [] 8].
Definition demo_folder_journal : journal :=
  {["old" := mkEntry "old" EmptyString 1 false 3 "n" [] 0; "kept" := mkEntry "kept" EmptyString 1 false 2 "n" [] 0]}.
Definition demo_folder_disk : disk := mkDisk {[["r"; "old"] := [Byte.x6f]; ["r"; "kept"] := [Byte.x6b]]} ∅.
Definition demo_applied : journal * disk * bool :=
  applyRemote demo_sha "/" demo_remote_env "/r" demo_folder_disk demo_folder_journal demo_remote.

Lemma demo_journal_cases q e : demo_folder_journal !! q = Some e ->
  (q = "old" /\ e = mkEntry "old" EmptyString 1 false 3 "n" [] 0) \/ (q = "kept" /\ e = mkEntry "kept" EmptyString 1 false 2 "n" [] 0).
Proof. unfold demo_folder_journal. intros [[<- <-]|[_ [<- <-]%lookup_singleton_Some]]%lookup_insert_Some; auto. Qed.

Lemma demo_described : described demo_sha "/" "/r" demo_folder_disk demo_folder_journal.
Proof.
  intros q e t [[-> ->]|[-> ->]]%demo_journal_cases; vm_compute; intros [= <-]; eexists; (split; [reflexivity|split; [done|]]);
    intros H; by destruct H.
Qed.

Lemma tidy_name q : safeRel q = true -> path_clean q = q -> staging (path_base q) = false -> tidy q.
Proof. by split. Qed.

