(* ===== verification/FolderSync.v ===== *)
(** * Folder shares: reconcile passes and convergence

    Models the rest of [internal/foldershare/sync.go] and [journal_state.go]: which
    peers a folder is shared with, the cursor remembered per peer, the paths a file
    monitor reported, when a whole folder is scanned, and one reconcile pass over
    the folders of a node, from local changes to the journals of its peers.

    The process's maps and the documents beside the daemon's configuration are a
    [nodeState].  A peer answers a request for its journal with a function of the
    cursor asked for; [served] is the answer of a peer that runs this code.  The
    theorems say why a delta is as good as the whole journal, when the folders of
    several nodes agree, and what one pass leaves of a node's folder. *)

From S2P Require Import Prelude GoStd Block Paths Scrub Config ConfigOps FolderTransfer FolderJournal.
From stdpp Require Import relations.

Local Open Scope Z_scope.

(** ** The node *)

(** A cursor document that does not decode is [None] under its name. *)
Record nodeState := mkNode {
  node_disk : disk;
  node_journals : gmap string journalDoc;
  node_cursorDocs : gmap string (option (gmap string Z));
  node_peerCursors : gmap (string * string) Z;
  node_forceScan : gset string;
  node_changedPaths : gmap string (gset string);
  node_lastLocalScan : gmap string Z;
  node_wake : bool
}.

Definition set_disk (d : disk) (n : nodeState) : nodeState :=
  mkNode d (node_journals n) (node_cursorDocs n) (node_peerCursors n) (node_forceScan n) (node_changedPaths n)
    (node_lastLocalScan n) (node_wake n).
Definition set_journal (folderID : string) (doc : journalDoc) (n : nodeState) : nodeState :=
  mkNode (node_disk n) (<[JournalPath folderID := doc]> (node_journals n)) (node_cursorDocs n) (node_peerCursors n)
    (node_forceScan n) (node_changedPaths n) (node_lastLocalScan n) (node_wake n).
Definition set_cursors (docs : gmap string (option (gmap string Z))) (memory : gmap (string * string) Z) (n : nodeState) : nodeState :=
  mkNode (node_disk n) (node_journals n) docs memory (node_forceScan n) (node_changedPaths n) (node_lastLocalScan n) (node_wake n).
Definition set_scan (force : gset string) (changed : gmap string (gset string)) (last : gmap string Z) (wake : bool) (n : nodeState)
    : nodeState :=
  mkNode (node_disk n) (node_journals n) (node_cursorDocs n) (node_peerCursors n) force changed last wake.

(** ** Changes to look at *)

Definition Wake (n : nodeState) : nodeState :=
  set_scan (node_forceScan n) (node_changedPaths n) (node_lastLocalScan n) true n.

Definition NoteChanged (folderID path : string) (n : nodeState) : nodeState :=
  if Config.empty folderID || Config.empty path then n
  else Wake (set_scan (node_forceScan n)
    (<[folderID := {[path]} ∪ default ∅ (node_changedPaths n !! folderID)]> (node_changedPaths n)) (node_lastLocalScan n) (node_wake n) n).

Definition RequestFullScan (folderID : string) (n : nodeState) : nodeState :=
  if Config.empty folderID then n
  else Wake (set_scan ({[folderID]} ∪ node_forceScan n) (node_changedPaths n) (node_lastLocalScan n) (node_wake n) n).

Definition localScanInterval : Z := 30 * 1000000000.

Definition scanned_now (now : Z) (folderID : string) (n : nodeState) : nodeState :=
  set_scan (node_forceScan n ∖ {[folderID]}) (delete folderID (node_changedPaths n))
    (<[folderID := now]> (node_lastLocalScan n)) (node_wake n) n.

Definition localScanDue (now : Z) (folderID : string) (n : nodeState) : bool * nodeState :=
  if decide (folderID ∈ node_forceScan n) then (true, scanned_now now folderID n)
  else match node_lastLocalScan n !! folderID with
  | None => (true, scanned_now now folderID n)
  | Some last => if localScanInterval <=? now - last then (true, scanned_now now folderID n) else (false, n)
  end.

Definition takeChangedPaths (folderID : string) (n : nodeState) : gset string * nodeState :=
  (default ∅ (node_changedPaths n !! folderID),
   set_scan (node_forceScan n) (delete folderID (node_changedPaths n)) (node_lastLocalScan n) (node_wake n) n).

(** ** Cursors *)

(** The cursor in memory, or else the file's cursors are all taken into memory. *)
Definition peerCursor (folderID peerID : string) (n : nodeState) : Z * nodeState :=
  match node_peerCursors n !! (folderID, peerID) with
  | Some cursor => (cursor, n)
  | None =>
      match node_cursorDocs n !! cursorPath folderID with
      | Some (Some stored) =>
          let memory := put_all (fun c : string * Z => (folderID, c.1)) snd (node_peerCursors n) (map_to_list stored) in
          (default 0 (memory !! (folderID, peerID)), set_cursors (node_cursorDocs n) memory n)
      | _ => (0, n)
      end
  end.

(** A cursor only moves forward; the file may not be written. *)
Definition rememberPeerCursor (writeFails : bool) (folderID peerID : string) (cursor : Z) (n : nodeState) : nodeState :=
  if (cursor <=? 0) || Config.empty peerID then n
  else if cursor <=? default 0 (node_peerCursors n !! (folderID, peerID)) then n
  else
    let memory := <[(folderID, peerID) := cursor]> (node_peerCursors n) in
    let stored := match node_cursorDocs n !! cursorPath folderID with Some (Some m) => m | _ => ∅ end in
    if cursor <=? default 0 (stored !! peerID) then set_cursors (node_cursorDocs n) memory n
    else if writeFails then set_cursors (node_cursorDocs n) memory n
    else set_cursors (<[cursorPath folderID := Some (<[peerID := cursor]> stored)]> (node_cursorDocs n)) memory n.

(** ** Peers *)

Section sync.
Context (sha256 : bytes -> bytes) (cwd : string).
(** [link.HasAPIEndpoint]: whether a peer can be dialled at all. *)
Context (HasAPIEndpoint : PeerConfig -> bool).

Definition peersFor (cfg : Config) (folder : FolderConfig) : list PeerConfig :=
  let allowed : gset string := list_to_set (List.filter (fun id => negb (Config.empty id)) (trim_space <$> FolderConfig_SharedWith folder)) in
  List.filter (fun peer =>
    negb (Config.empty (PeerConfig_APIKey peer)) &&
    (bool_decide (allowed = ∅) || bool_decide (PeerConfig_ID peer ∈ allowed)) && HasAPIEndpoint peer) (Config_Peers cfg).

(** ** One pass over a folder *)

(** What happens around one pass: the local disk, the clock, the iteration order
    of maps, and the answers and transfers of each peer. *)
Record passEnv := mkPassEnv {
  pe_local : localEnv;
  pe_now : Z;
  pe_changed : gset string -> list string;
  pe_visit : journal -> list Entry;
  pe_saveFails : bool;
  pe_finalSaveFails : bool;
  pe_fetch : PeerConfig -> Z -> option (list Entry * Z);
  pe_remote : PeerConfig -> remoteEnv;
  pe_cursorFails : PeerConfig -> bool
}.

Definition saveInto (fails : bool) (folderID : string) (entries : list Entry) (n : nodeState) : nodeState * result FolderErr unit :=
  match saveJournal fails (node_journals n !! JournalPath folderID) entries with
  | Ok doc => (set_journal folderID doc n, Ok tt)
  | Err e => (n, Err e)
  end.

(** The local half: a scan or the reported paths, then a save. *)
Definition localPass (env : passEnv) (folder : FolderConfig) (origin : string) (byPath : journal) (n : nodeState)
    : nodeState * result FolderErr journal :=
  let id := FolderConfig_ID folder in
  let root := FolderConfig_Path folder in
  if bool_decide (FolderConfig_Mode folder = ModeReceiveOnly) then (n, Ok byPath)
  else
    let '(due, n1) := localScanDue (pe_now env) id n in
    let '(absorbed, n2) :=
      if due then (absorbLocal sha256 cwd (pe_local env) root origin (disk_files (node_disk n1)) byPath, n1)
      else
        let '(paths, n') := takeChangedPaths id n1 in
        (absorbPaths sha256 cwd (pe_local env) root origin (disk_files (node_disk n')) byPath (pe_changed env paths), n') in
    match absorbed with
    | Err e => (n2, Err e)
    | Ok byPath' =>
        match saveInto (pe_saveFails env) id (pe_visit env byPath') n2 with
        | (n3, Ok _) => (n3, Ok byPath')
        | (n3, Err e) => (n3, Err e)
        end
    end.

(** One peer: a failed request or transfer leaves the cursor where it is. *)
Definition pullPeer (env : passEnv) (folder : FolderConfig) (acc : nodeState * journal) (peer : PeerConfig) : nodeState * journal :=
  let '(n, byPath) := acc in
  let id := FolderConfig_ID folder in
  let '(after, n1) := peerCursor id (PeerConfig_ID peer) n in
  match pe_fetch env peer after with
  | None => (n1, byPath)
  | Some (remote, remoteCursor) =>
      let '(byPath', d, failed) := applyRemote sha256 cwd (pe_remote env peer) (FolderConfig_Path folder) (node_disk n1) byPath remote in
      let n2 := set_disk d n1 in
      if failed then (n2, byPath')
      else if 0 <? remoteCursor then
        (rememberPeerCursor (pe_cursorFails env peer) id (PeerConfig_ID peer) remoteCursor n2, byPath')
      else (n2, byPath')
  end.

Definition reconcileFolder (env : passEnv) (cfg : Config) (folder : FolderConfig) (n : nodeState)
    : nodeState * result FolderErr unit :=
  let id := FolderConfig_ID folder in
  match LoadJournal (node_journals n !! JournalPath id) with
  | Err e => (n, Err e)
  | Ok entries =>
      let origin := if Config.empty (IdentityConfig_PublicKey (Config_Identity cfg)) then Config_NodeName cfg
                    else IdentityConfig_PublicKey (Config_Identity cfg) in
      match localPass env folder origin (indexEntries entries) n with
      | (n1, Err e) => (n1, Err e)
      | (n1, Ok byPath1) =>
          if bool_decide (FolderConfig_Mode folder = ModeSendOnly) then (n1, Ok tt)
          else
            let '(n2, byPath2) := foldl (pullPeer env folder) (n1, byPath1) (peersFor cfg folder) in
            saveInto (pe_finalSaveFails env) id (pe_visit env byPath2) n2
      end
  end.

(** [Reconcile]: the folders in order; an error is logged. *)
Definition reconcileOne (env : FolderConfig -> passEnv) (cfg : Config) (paused : string -> bool) (n : nodeState) (folder : FolderConfig)
    : nodeState :=
  if negb (FolderConfig_Enabled folder) || Config.empty (FolderConfig_Path folder) then n
  else if negb (bool_decide (FolderConfig_Mode folder = ModeSendReceive)) && negb (bool_decide (FolderConfig_Mode folder = ModeSendOnly))
          && negb (bool_decide (FolderConfig_Mode folder = ModeReceiveOnly)) then n
  else if paused (FolderConfig_ID folder) then n
  else (reconcileFolder (env folder) cfg folder n).1.

Definition Reconcile (env : FolderConfig -> passEnv) (cfg : Config) (paused : string -> bool) (n : nodeState) : nodeState :=
  foldl (reconcileOne env cfg paused) n (Config_Folders cfg).

(** What a node that runs this code answers a peer. *)
Definition served (n : nodeState) (folderID : string) (after : Z) : option (list Entry * Z) :=
  match JournalDelta (node_journals n !! JournalPath folderID) after with
  | Ok (entries, cursor, _) => Some (entries, cursor)
  | Err _ => None
  end.
End sync.

(** ** Merging journals: what a pass that succeeds does *)

Definition newest (own remote : option Entry) : option Entry :=
  match own, remote with
  | Some a, Some b => if Entry_Revision b <=? Entry_Revision a then Some a else Some b
  | Some a, None => Some a
  | None, r => r
  end.

Definition merge_journals (own remote : journal) : journal := merge newest own remote.

Lemma merge_lookup own remote p : merge_journals own remote !! p = newest (own !! p) (remote !! p).
Proof. unfold merge_journals. rewrite lookup_merge. by destruct (own !! p), (remote !! p). Qed.

(** An entry a node can hold: clean, not a staging file, and below the root. *)
Definition shareable (cwd root : string) (e : Entry) : Prop := tidy (Entry_Path e) /\ safeJoin cwd root (Entry_Path e) <> None.

Section refinement.
Context (sha256 : bytes -> bytes) (cwd root : string).
Hypothesis cwd_nonempty : cwd <> EmptyString.

Lemma shareable_safe l : Forall (shareable cwd root) l -> Forall (fun e => safeRel (Entry_Path e) = true) l.
Proof. clear cwd_nonempty. intros H. eapply Forall_impl; [exact H|]. intros e [Ht _]. apply Ht. Qed.

Lemma shareable_tidy l : Forall (shareable cwd root) l -> Forall (fun e => tidy (Entry_Path e)) l.
Proof. clear cwd_nonempty. intros H. eapply Forall_impl; [exact H|]. by intros e [Ht _]. Qed.

(** A pass without failures is a merge. *)
Lemma applyRemote_merge env d byPath remote byPath' d' :
  (forall js, env_order (re_transfers env) js ≡ₚ js) -> NoDup (Entry_Path <$> remote) -> Forall (shareable cwd root) remote ->
  applyRemote sha256 cwd env root d byPath remote = (byPath', d', false) ->
  byPath' = merge_journals byPath (indexEntries remote).
Proof.
  intros Ho Hn Hs E.
  destruct (applyRemote_entries sha256 cwd root env d byPath remote byPath' d' false cwd_nonempty Ho Hn (shareable_tidy _ Hs) E) as [H1 H2].
  specialize (H2 eq_refl). apply map_eq. intros p. rewrite merge_lookup.
  assert (forall e, e ∈ remote -> newer byPath e = true -> byPath' !! Entry_Path e = Some e) as Htake.
  { intros e He Hnew. apply H2; [done|]. unfold verdict. rewrite Hnew. rewrite Forall_forall in Hs. by apply Hs. }
  destruct (indexEntries remote !! p) as [e|] eqn:Ei.
  - apply indexEntries_Some in Ei as [He <-]; [|done|by apply shareable_safe].
    specialize (Htake e He). unfold newer in Htake. unfold newest. destruct (H1 (Entry_Path e)) as [Hold|(e' & He' & Hp & Hnew & Hx)].
    + destruct (byPath !! Entry_Path e) as [a|] eqn:Ea; [|by apply Htake].
      destruct (Entry_Revision e <=? Entry_Revision a) eqn:Er; [done|]. by apply Htake.
    + assert (e' = e) as -> by by apply (remote_path_inj remote Hn). unfold newer in Hnew.
      destruct (byPath !! Entry_Path e) as [a|]; [|done]. by destruct (Entry_Revision e <=? Entry_Revision a).
  - destruct (H1 p) as [->|(e & He & <- & _)]; [by destruct (byPath !! p)|].
    assert (indexEntries remote !! Entry_Path e = Some e) as Hx; [|congruence].
    apply indexEntries_Some; [done|by apply shareable_safe|done].
Qed.

(** *** What a peer has seen of a journal *)

Record share := mkShare { sh_sender : journalFile; sh_receiver : journal; sh_cursor : Z }.

(** No path is lost, and no revision shrinks. *)
Definition grown (b b' : journal) : Prop :=
  forall p e, b !! p = Some e -> exists e', b' !! p = Some e' /\ Entry_Revision e <= Entry_Revision e'.

#[local] Instance grown_preorder : PreOrder grown.
Proof.
  clear cwd_nonempty. split; [intros b p e H; by exists e|]. intros b1 b2 b3 H1 H2 p e H.
  destruct (H1 p e H) as (e1 & Hb & ?), (H2 p e1 Hb) as (e2 & ? & ?). exists e2. split; [done|lia].
Qed.

(** The sender saves its journal again, the receiver changes (its own files, or
    what it took from other peers), or the receiver asks with its cursor and takes
    all or part of the answer. *)
Inductive share_step : share -> share -> Prop :=
| step_save j es b c : NoDup (Entry_Path <$> es) -> Forall (shareable cwd root) es ->
    journalFile_Cursor j + Z.of_nat (length es) <= maxInt64 ->
    share_step (mkShare j b c) (mkShare (journalDocument j es) b c)
| step_local j b b' c : grown b b' -> share_step (mkShare j b c) (mkShare j b' c)
| step_pull j b b' c delta cursor isDelta env d d' failed :
    (forall js, env_order (re_transfers env) js ≡ₚ js) ->
    JournalDelta (Some (Document j)) c = Ok (delta, cursor, isDelta) ->
    applyRemote sha256 cwd env root d b delta = (b', d', failed) ->
    share_step (mkShare j b c) (mkShare j b' (if failed then c else if 0 <? cursor then Z.max c cursor else c)).

Record caught_up (s : share) : Prop := {
  cu_wf : wf_journal (sh_sender s);
  cu_shareable : Forall (shareable cwd root) (journalFile_Entries (sh_sender s));
  cu_cursor : 0 <= sh_cursor s <= journalFile_Cursor (sh_sender s);
  cu_seen e : e ∈ journalFile_Entries (sh_sender s) -> Entry_Cursor e <= sh_cursor s ->
    exists r, sh_receiver s !! Entry_Path e = Some r /\ Entry_Revision e <= Entry_Revision r
}.

(** The answer to a request: the entries past the cursor, or everything. *)
Lemma JournalDelta_answer j c : wf_journal j ->
  exists delta isDelta, JournalDelta (Some (Document j)) c = Ok (delta, journalFile_Cursor j, isDelta) /\
    NoDup (Entry_Path <$> delta) /\ (forall e, e ∈ delta -> e ∈ journalFile_Entries j) /\
    (forall e, e ∈ journalFile_Entries j -> c < Entry_Cursor e -> e ∈ delta).
Proof.
  clear cwd_nonempty. intros Hj. unfold JournalDelta, loadJournalFile. destruct (_ || _).
  - do 2 eexists. split; [done|]. split_and!; [apply Hj|done|done].
  - do 2 eexists. split; [done|]. split_and!.
    + eapply sublist_NoDup_fmap; [apply filter_sublist|apply Hj].
    + intros e He. rewrite list_elem_of_In, filter_In in He. apply list_elem_of_In. apply He.
    + intros e He Hc. rewrite list_elem_of_In, filter_In. split; [by apply list_elem_of_In|]. by apply Z.ltb_lt.
Qed.

Lemma applyRemote_grown env d byPath remote byPath' d' failed :
  (forall js, env_order (re_transfers env) js ≡ₚ js) -> NoDup (Entry_Path <$> remote) -> Forall (shareable cwd root) remote ->
  applyRemote sha256 cwd env root d byPath remote = (byPath', d', failed) -> grown byPath byPath'.
Proof.
  intros Ho Hn Hs E p e He.
  destruct (applyRemote_entries sha256 cwd root env d byPath remote byPath' d' failed cwd_nonempty Ho Hn (shareable_tidy _ Hs) E) as [H1 _].
  destruct (H1 p) as [->|(e' & _ & Hp & Hnew & ->)]; [by exists e|]. exists e'. split; [done|].
  unfold newer in Hnew. rewrite Hp, He in Hnew. destruct (Z.leb_spec (Entry_Revision e') (Entry_Revision e)); [done|lia].
Qed.

Lemma caught_up_step s s' : share_step s s' -> caught_up s -> caught_up s'.
Proof.
  intros H [Hwf Hsh Hc Hseen]. destruct H as [j es b c Hn Hes Hb|j b b' c Hg|j b b' c delta cursor isDelta env d d' failed Ho Hd Ha];
    cbn [sh_sender sh_receiver sh_cursor] in *.
  - pose proof (journalDocument_spec j es Hwf Hn (shareable_safe _ Hes) Hb) as Hr. split; cbn [sh_sender sh_receiver sh_cursor].
    + apply Hr.
    + rewrite Forall_forall in Hes |- *. intros e' He'. destruct (rec_from _ _ _ Hr e' He') as (e & He & -> & _).
      by apply (Hes e He).
    + pose proof (rec_cursor _ _ _ Hr). lia.
    + intros e He Hle. destruct (recorded_kept _ _ _ e Hwf Hr He) as (old & Ho & Hcur & Hp & Hrev & _); [lia|].
      rewrite <- Hp, <- Hrev. apply Hseen; [done|lia].
  - split; cbn [sh_sender sh_receiver sh_cursor]; try done. intros e He Hle. destruct (Hseen e He Hle) as (r & Hr & Hrev), (Hg _ _ Hr) as (r' & ? & ?).
    exists r'. split; [done|lia].
  - destruct (JournalDelta_answer j c Hwf) as (delta' & isd & E & Hn & Hsub & Hall). rewrite E in Hd. injection Hd as -> <- ->.
    assert (Forall (shareable cwd root) delta) as Hsd.
    { rewrite Forall_forall in Hsh |- *. intros e He. by apply Hsh, Hsub. }
    pose proof (applyRemote_grown _ _ _ _ _ _ _ Ho Hn Hsd Ha) as Hg.
    assert (forall e, e ∈ journalFile_Entries j -> Entry_Cursor e <= c -> exists r, b' !! Entry_Path e = Some r /\ Entry_Revision e <= Entry_Revision r) as Hold.
    { intros e He Hle. destruct (Hseen e He Hle) as (r & Hr & ?), (Hg _ _ Hr) as (r' & ? & ?). exists r'. split; [done|lia]. }
    destruct failed; [split; cbn [sh_sender sh_receiver sh_cursor]; done|]. split; cbn [sh_sender sh_receiver sh_cursor]; [done|done| |].
    + destruct (Z.ltb_spec 0 (journalFile_Cursor j)); cbv [journalFile_Cursor] in *; lia.
    + intros e He _. destruct (Z.le_gt_cases (Entry_Cursor e) c) as [Hle|Hgt]; [by apply Hold|].
      rewrite (applyRemote_merge env d b delta b' d' Ho Hn Hsd Ha), merge_lookup.
      rewrite (proj2 (indexEntries_Some delta (Entry_Path e) e Hn (shareable_safe _ Hsd))) by (split; [by apply Hall|done]).
      unfold newest. destruct (b !! Entry_Path e) as [a|]; [|exists e; split; [done|lia]].
      destruct (Z.leb_spec (Entry_Revision e) (Entry_Revision a)); eexists; (split; [done|lia]).
Qed.

Lemma caught_up_reachable s s' : rtc share_step s s' -> caught_up s -> caught_up s'.
Proof. induction 1 as [|s1 s2 s3 H _ IH]; [done|]. intros Hs. apply IH. by eapply caught_up_step. Qed.

(** Merging the answer to the remembered cursor is merging the whole journal. *)
Lemma caught_up_delta s delta cursor isDelta : caught_up s ->
  JournalDelta (Some (Document (sh_sender s))) (sh_cursor s) = Ok (delta, cursor, isDelta) ->
  merge_journals (sh_receiver s) (indexEntries delta) =
  merge_journals (sh_receiver s) (indexEntries (journalFile_Entries (sh_sender s))).
Proof.
  intros [Hwf Hsh Hc Hseen] Hd. destruct (JournalDelta_answer (sh_sender s) (sh_cursor s) Hwf) as (delta' & isd & E & Hn & Hsub & Hall).
  rewrite E in Hd. injection Hd as -> _ _. apply map_eq. intros p. rewrite !merge_lookup.
  assert (Forall (fun e => safeRel (Entry_Path e) = true) delta) as Hsafe.
  { apply shareable_safe. rewrite Forall_forall in Hsh |- *. intros e He. by apply Hsh, Hsub. }
  destruct (indexEntries (journalFile_Entries (sh_sender s)) !! p) as [e|] eqn:Ee.
  - apply indexEntries_Some in Ee as [He <-]; [|apply Hwf..].
    destruct (Z.le_gt_cases (Entry_Cursor e) (sh_cursor s)) as [Hle|Hgt].
    + destruct (Hseen e He Hle) as (r & Hr & Hrev). rewrite Hr. unfold newest. rewrite (proj2 (Z.leb_le _ _) Hrev).
      destruct (indexEntries delta !! Entry_Path e) as [e'|] eqn:Ed; [|done].
      apply indexEntries_Some in Ed as [He' Hp]; [|done..].
      assert (e' = e) as -> by (apply (NoDup_fmap_elem Entry_Path (journalFile_Entries (sh_sender s))); [apply Hwf|by apply Hsub|done|done]).
      by rewrite (proj2 (Z.leb_le _ _) Hrev).
    + by rewrite (proj2 (indexEntries_Some delta (Entry_Path e) e Hn Hsafe)) by (split; [by apply Hall|done]).
  - destruct (indexEntries delta !! p) as [e|] eqn:Ed; [|done]. apply indexEntries_Some in Ed as [He <-]; [|done..].
    assert (indexEntries (journalFile_Entries (sh_sender s)) !! Entry_Path e = Some e) as Hx; [|congruence].
    apply indexEntries_Some; [apply Hwf..|]. split; [by apply Hsub|done].
Qed.
End refinement.

(** [C2] A delta is as good as the whole journal. From a first contact (cursor 0) let
    the sender save its journal any number of times, the receiver's journal grow in
    any way, and the receiver ask with its remembered cursor, each time taking all
    of the answer (then it remembers the new cursor) or a part of it. Then a pass
    over the delta for the remembered cursor that reports no failure leaves the
    receiver's journal as merging the sender's whole journal would: per path the
    entry with the higher revision, the receiver's own on a tie. The paths are tidy
    and can be joined to the folder, and the journal's cursor has room. Excluded are
    a receiver that loses its journal after the cursor was stored, as a failed save
    does ([cursor_ahead]), and a sender that loses its journal. *)
Theorem delta_equals_full sha256 cwd root j b s delta cursor isDelta env d b' d' :
  cwd <> EmptyString -> wf_journal j -> Forall (shareable cwd root) (journalFile_Entries j) ->
  rtc (share_step sha256 cwd root) (mkShare j b 0) s ->
  JournalDelta (Some (Document (sh_sender s))) (sh_cursor s) = Ok (delta, cursor, isDelta) ->
  (forall js, env_order (re_transfers env) js ≡ₚ js) ->
  applyRemote sha256 cwd env root d (sh_receiver s) delta = (b', d', false) ->
  b' = merge_journals (sh_receiver s) (indexEntries (journalFile_Entries (sh_sender s))).
Proof.
  intros Hcwd Hj Hsh Hr Hd Ho Ha. assert (caught_up cwd root (mkShare j b 0)) as H0.
  { split; cbn; [done|done|pose proof (wj_cursor _ Hj); lia|]. intros e He Hle. exfalso.
    pose proof (wj_cursors _ Hj) as Hc. rewrite Forall_forall in Hc. apply Hc in He. lia. }
  pose proof (caught_up_reachable sha256 cwd root Hcwd _ _ Hr H0) as Hs.
  rewrite <- (caught_up_delta cwd root s delta cursor isDelta Hs Hd).
  destruct (JournalDelta_answer (sh_sender s) (sh_cursor s) (cu_wf _ _ _ Hs)) as (delta' & isd & E & Hn & Hsub & _).
  rewrite E in Hd. injection Hd as -> _ _. eapply applyRemote_merge; [done|exact Ho|exact Hn| |exact Ha].
  pose proof (cu_shareable _ _ _ Hs) as Hss. rewrite Forall_forall in Hss |- *. intros e He. by apply Hss, Hsub.
Qed.

(** A peer whose whole journal was taken, and which deleted a file since. *)
Definition demo_seen : journalFile := journalDocument emptyJournal demo_remote.
Definition demo_later : list Entry := [mkEntry "kept" EmptyString 0 true 5 "m" [] 0; demo_entry].
Definition demo_sent : list Entry :=
  match JournalDelta (Some (Document (journalDocument demo_seen demo_later))) 3 with Ok (delta, _, _) => delta | Err _ => [] end.
Definition demo_pulled : journal * disk * bool :=
  applyRemote demo_sha "/" demo_remote_env "/r" demo_folder_disk demo_folder_journal (journalFile_Entries demo_seen).
Definition demo_pulled_again : journal * disk * bool :=
  applyRemote demo_sha "/" demo_remote_env "/r" demo_pulled.1.2 demo_pulled.1.1 demo_sent.

Lemma demo_shareable l : forallb (fun e => safeRel (Entry_Path e) && bool_decide (path_clean (Entry_Path e) = Entry_Path e)
  && negb (staging (path_base (Entry_Path e))) && match safeJoin "/" "/r" (Entry_Path e) with Some _ => true | None => false end) l = true ->
  Forall (shareable "/" "/r") l.
Proof.
  intros H. rewrite Forall_forall. intros e He. rewrite forallb_forall in H. apply list_elem_of_In in He.
  specialize (H e He). rewrite !andb_true_iff in H. destruct H as (((H1 & H2) & H3) & H4). apply bool_decide_eq_true in H2.
  split; [split; [done|done|by apply negb_true_iff]|]. by destruct (safeJoin "/" "/r" (Entry_Path e)).
Qed.

Lemma delta_equals_full_witness :
  Entry_Path <$> demo_sent = ["kept"] /\
  demo_pulled_again.1.1 =
    merge_journals demo_pulled.1.1 (indexEntries (journalFile_Entries (journalDocument demo_seen demo_later))) /\
  Entry_Deleted <$> demo_pulled_again.1.1 !! "kept" = Some true.
Proof.
  split; [vm_compute; reflexivity|]. split; [|vm_compute; reflexivity].
  assert (wf_journal demo_seen) as Hwf.
  { apply (journalDocument_spec emptyJournal); [apply emptyJournal_wf|apply (bool_decide_unpack _); vm_compute; exact I
      |repeat constructor|vm_compute; discriminate]. }
  refine (delta_equals_full demo_sha "/" "/r" demo_seen demo_folder_journal
    (mkShare (journalDocument demo_seen demo_later) demo_pulled.1.1 3) demo_sent 4 true demo_remote_env demo_pulled.1.2
    demo_pulled_again.1.1 demo_pulled_again.1.2 _ Hwf _ _ _ _ _).
  - discriminate.
  - apply demo_shareable. vm_compute. reflexivity.
  - eapply rtc_l; [|apply rtc_once].
    + refine (step_pull _ _ _ demo_seen _ _ 0 (journalFile_Entries demo_seen) 3 false demo_remote_env demo_folder_disk demo_pulled.1.2 false _ _ _).
      * reflexivity.
      * vm_compute. reflexivity.
      * vm_compute. reflexivity.
    + refine (step_save _ _ _ demo_seen demo_later demo_pulled.1.1 3 _ _ _).
      * apply (bool_decide_unpack _). vm_compute. exact I.
      * apply demo_shareable. vm_compute. reflexivity.
      * vm_compute. discriminate.
  - vm_compute. reflexivity.
  - reflexivity.
  - vm_compute. exact eq_refl.
Defined.

(** ** Several nodes *)

(** The journals of a folder's nodes; a pull merges one of them into another. *)
Abbreviation network := (gmap string journal) (only parsing).

Definition pull (net : network) (edge : string * string) : network :=
  match net !! edge.1, net !! edge.2 with
  | Some own, Some remote => <[edge.1 := merge_journals own remote]> net
  | _, _ => net
  end.

Definition pulls (net : network) (edges : list (string * string)) : network := foldl pull net edges.

(** [held net p e]: some node has the entry. *)
Definition held (net : network) (p : string) (e : Entry) : Prop := exists i b, net !! i = Some b /\ b !! p = Some e.

(** A revision of a path is one version of it, wherever it is. *)
Definition consistent (net : network) : Prop :=
  forall p e e', held net p e -> held net p e' -> Entry_Revision e = Entry_Revision e' -> same_version e e'.

(** A node knows of a path at least up to a revision. *)
Definition knows (net : network) (i p : string) (r : Z) : Prop :=
  exists b e, net !! i = Some b /\ b !! p = Some e /\ r <= Entry_Revision e.

Lemma newest_cases a b e : newest a b = Some e -> a = Some e \/ b = Some e.
Proof. destruct a as [x|], b as [y|]; cbn; auto. destruct (_ <=? _); auto. Qed.

Lemma newest_knows a b e : a = Some e \/ b = Some e -> exists e', newest a b = Some e' /\ Entry_Revision e <= Entry_Revision e'.
Proof.
  intros [-> | ->].
  - destruct b as [y|]; cbn; [|by exists e]. destruct (Z.leb_spec (Entry_Revision y) (Entry_Revision e)); eexists; (split; [done|lia]).
  - destruct a as [x|]; cbn; [|by exists e]. destruct (Z.leb_spec (Entry_Revision e) (Entry_Revision x)); eexists; (split; [done|lia]).
Qed.

Lemma pull_held net edge p e : held (pull net edge) p e -> held net p e.
Proof.
  unfold pull. destruct (net !! edge.1) as [own|] eqn:E1; [|done]. destruct (net !! edge.2) as [remote|] eqn:E2; [|done].
  intros (i & b & Hb & He). apply lookup_insert_Some in Hb as [[_ <-]|[_ Hb]]; [|by exists i, b].
  rewrite merge_lookup in He. apply newest_cases in He as [He|He]; [by exists edge.1, own|by exists edge.2, remote].
Qed.

Lemma pull_dom net edge : dom (pull net edge) = dom net.
Proof.
  unfold pull. destruct (net !! edge.1) as [own|] eqn:E1; [|done]. destruct (net !! edge.2) as [remote|] eqn:E2; [|done].
  apply dom_insert_lookup_L. by eexists.
Qed.

Lemma pull_knows net edge i p r : knows net i p r -> knows (pull net edge) i p r.
Proof.
  intros (b & e & Hb & He & Hr). unfold pull. destruct (net !! edge.1) as [own|] eqn:E1; [|by exists b, e].
  destruct (net !! edge.2) as [remote|] eqn:E2; [|by exists b, e]. destruct (decide (edge.1 = i)) as [<-|Hne].
  - assert (b = own) as -> by congruence. destruct (newest_knows (own !! p) (remote !! p) e) as (e' & He' & Hle); [by left|].
    exists (merge_journals own remote), e'. rewrite lookup_insert_eq, merge_lookup. split_and!; [done|done|lia].
  - exists b, e. by rewrite lookup_insert_ne.
Qed.

Lemma pull_edge_knows net i k p r : is_Some (net !! i) -> knows net k p r -> knows (pull net (i, k)) i p r.
Proof.
  intros [own Hown] (b & e & Hb & He & Hr). unfold pull. cbn [fst snd]. rewrite Hown, Hb.
  destruct (newest_knows (own !! p) (b !! p) e) as (e' & He' & Hle); [by right|].
  exists (merge_journals own b), e'. rewrite lookup_insert_eq, merge_lookup. split_and!; [done|done|lia].
Qed.

Lemma pulls_held edges net p e : held (pulls net edges) p e -> held net p e.
Proof. revert net. induction edges as [|x l IH]; intros net H; [done|]. apply (pull_held net x), IH, H. Qed.

Lemma pulls_dom edges net : dom (pulls net edges) = dom net.
Proof. revert net. induction edges as [|x l IH]; intros net; [done|]. exact (eq_trans (IH (pull net x)) (pull_dom net x)). Qed.

Lemma pulls_knows edges net i p r : knows net i p r -> knows (pulls net edges) i p r.
Proof. revert net. induction edges as [|x l IH]; intros net H; [done|]. by apply (IH (pull net x)), pull_knows. Qed.

Lemma pulls_edge_knows edges net i k p r : is_Some (net !! i) -> (i, k) ∈ edges -> knows net k p r -> knows (pulls net edges) i p r.
Proof.
  revert net. induction edges as [|x l IH]; intros net Hi Hin Hk; [by apply not_elem_of_nil in Hin|].
  apply elem_of_cons in Hin as [<-|Hin].
  - by apply (pulls_knows l (pull net (i, k))), pull_edge_knows.
  - apply (IH (pull net x)); [|done|by apply pull_knows]. apply elem_of_dom. rewrite pull_dom. by apply elem_of_dom.
Qed.

(** Merges through a hub, in any order, with any others between. *)
Lemma pulls_converge net hub first second :
  consistent net -> hub ∈ dom net ->
  (forall i, i ∈ dom net -> i = hub \/ (hub, i) ∈ first) -> (forall i, i ∈ dom net -> i = hub \/ (i, hub) ∈ second) ->
  let net' := pulls net (first ++ second) in
  dom net' = dom net /\
  (forall i b p e, net' !! i = Some b -> held net p e ->
     exists e', b !! p = Some e' /\ held net p e' /\ Entry_Revision e <= Entry_Revision e') /\
  (forall i j b c p, net' !! i = Some b -> net' !! j = Some c -> option_Forall2 same_version (b !! p) (c !! p)).
Proof.
  intros Hc Hhub H1 H2 net'. assert (forall i, i ∈ dom net -> is_Some (net !! i)) as Hsome by (intros; by apply elem_of_dom).
  assert (dom net' = dom net) as Hdom by apply pulls_dom.
  assert (forall i b p e, net' !! i = Some b -> held net p e ->
     exists e', b !! p = Some e' /\ held net p e' /\ Entry_Revision e <= Entry_Revision e') as Htop.
  { intros i b p e Hb (k & bk & Hk & He). assert (i ∈ dom net) as Hi by (rewrite <- Hdom; apply elem_of_dom; by eexists).
    assert (knows net k p (Entry_Revision e)) as K0 by (exists bk, e; split_and!; [done|done|lia]).
    assert (knows (pulls net first) hub p (Entry_Revision e)) as K1.
    { destruct (H1 k) as [->|Hin]; [apply elem_of_dom; by eexists|by apply pulls_knows|].
      exact (pulls_edge_knows first net hub k p _ (Hsome hub Hhub) Hin K0). }
    assert (knows net' i p (Entry_Revision e)) as (b' & e' & Hb' & He' & Hle).
    { unfold net', pulls. rewrite foldl_app. fold (pulls net first). fold (pulls (pulls net first) second).
      destruct (H2 i Hi) as [->|Hin]; [by apply pulls_knows|].
      apply (pulls_edge_knows second _ i hub); [|done|done]. apply elem_of_dom. by rewrite pulls_dom. }
    rewrite Hb in Hb'. injection Hb' as <-. exists e'. split; [done|]. split; [|done].
    apply (pulls_held (first ++ second)). by exists i, b. }
  split; [done|]. split; [exact Htop|]. intros i j b c p Hb Hcj.
  assert (forall k m e, net' !! k = Some m -> m !! p = Some e -> held net p e) as Hheld.
  { intros k m e Hk He. apply (pulls_held (first ++ second)). by exists k, m. }
  destruct (b !! p) as [e|] eqn:Eb, (c !! p) as [e'|] eqn:Ec; [apply Some_Forall2| | |apply None_Forall2].
  - destruct (Htop j c p e Hcj (Hheld i b e Hb Eb)) as (x & Hx & _ & Hle).
    destruct (Htop i b p e' Hb (Hheld j c e' Hcj Ec)) as (y & Hy & _ & Hle').
    apply (Hc p); [exact (Hheld i b e Hb Eb)|exact (Hheld j c e' Hcj Ec)|]. rewrite Ec in Hx. rewrite Eb in Hy.
    injection Hx as <-. injection Hy as <-. lia.
  - destruct (Htop j c p e Hcj (Hheld i b e Hb Eb)) as (x & Hx & _). rewrite Hx in Ec. done.
  - destruct (Htop i b p e' Hb (Hheld j c e' Hcj Ec)) as (y & Hy & _). congruence.
Qed.

(** Passes over the journals of a folder's nodes: each takes the whole journal of
    another node (or a delta, which is as good) and reports no failure. *)
Inductive passes (sha256 : bytes -> bytes) : network -> list (string * string) -> network -> Prop :=
| passes_nil net : passes sha256 net [] net
| passes_cons net i k own remote es cwd root env d own' d' edges net' :
    net !! i = Some own -> net !! k = Some remote ->
    NoDup (Entry_Path <$> es) -> Forall (shareable cwd root) es -> indexEntries es = remote ->
    cwd <> EmptyString -> (forall js, env_order (re_transfers env) js ≡ₚ js) ->
    applyRemote sha256 cwd env root d own es = (own', d', false) ->
    passes sha256 (<[i := own']> net) edges net' -> passes sha256 net ((i, k) :: edges) net'.

Lemma passes_pulls sha256 net edges net' : passes sha256 net edges net' -> net' = pulls net edges.
Proof.
  induction 1 as [|net i k own remote es cwd root env d own' d' edges net' Hi Hk Hn Hs Hes Hcwd Ho Ha _ IH]; [done|].
  rewrite IH. unfold pulls. cbn [foldl]. f_equal. unfold pull. cbn [fst snd]. rewrite Hi, Hk, <- Hes.
  f_equal. exact (applyRemote_merge sha256 cwd root Hcwd env d own es own' d' Ho Hn Hs Ha).
Qed.

(** [C29] The nodes of a folder converge. Let one hub pull from every node, and every
    node later pull from the hub, in any order and with any other passes in between,
    each of them over the whole journal of the other and without a failure. If a
    revision of a path is the same version at every node to begin with
    ([consistent]), then afterwards every node has every path any node had, at the
    highest revision any of them had, as an entry one of them had, and all nodes
    agree on its version. Two different versions with the same revision stay apart:
    see [tie_stays]. *)
Theorem gossip_converges sha256 net hub first second net' :
  passes sha256 net (first ++ second) net' -> consistent net -> hub ∈ dom net ->
  (forall i, i ∈ dom net -> i = hub \/ (hub, i) ∈ first) -> (forall i, i ∈ dom net -> i = hub \/ (i, hub) ∈ second) ->
  dom net' = dom net /\
  (forall i b p e, net' !! i = Some b -> held net p e ->
     exists e', b !! p = Some e' /\ held net p e' /\ Entry_Revision e <= Entry_Revision e') /\
  (forall i j b c p, net' !! i = Some b -> net' !! j = Some c -> option_Forall2 same_version (b !! p) (c !! p)).
Proof. intros ->%passes_pulls. exact (pulls_converge net hub first second). Qed.

(** Three nodes that deleted files; [demo_exchange] is one pass between two. *)
Definition demo_gone (path : string) (revision : Z) : Entry := mkEntry path EmptyString 0 true revision "n" [] 0.
Definition demo_network : network :=
  {["n1" := {["a" := demo_gone "a" 1]}; "n2" := {["a" := demo_gone "a" 2; "b" := demo_gone "b" 1]}; "n3" := ∅]}.
Definition demo_outcome (own : journal) (es : list Entry) : journal * disk * bool :=
  applyRemote demo_sha "/" demo_remote_env "/r" (mkDisk ∅ ∅) own es.
Definition demo_b1 : journal := (demo_outcome {["a" := demo_gone "a" 1]} [demo_gone "a" 2; demo_gone "b" 1]).1.1.
Definition demo_gossiped : network := <["n3" := demo_b1]> (<["n2" := demo_b1]> (<["n1" := demo_b1]> (<["n1" := demo_b1]> demo_network))).

Lemma demo_exchange net i k own remote es own' edges net' :
  net !! i = Some own -> net !! k = Some remote -> indexEntries es = remote ->
  bool_decide (NoDup (Entry_Path <$> es)) = true ->
  forallb (fun e => safeRel (Entry_Path e) && bool_decide (path_clean (Entry_Path e) = Entry_Path e)
    && negb (staging (path_base (Entry_Path e))) && match safeJoin "/" "/r" (Entry_Path e) with Some _ => true | None => false end) es = true ->
  (demo_outcome own es).2 = false -> (demo_outcome own es).1.1 = own' ->
  passes demo_sha (<[i := own']> net) edges net' -> passes demo_sha net ((i, k) :: edges) net'.
Proof.
  intros Hi Hk Hes Hn Hs Hf Ho Hp. apply bool_decide_eq_true in Hn.
  apply (passes_cons demo_sha net i k own remote es "/" "/r" demo_remote_env (mkDisk ∅ ∅) own' (demo_outcome own es).1.2 edges net');
    [exact Hi|exact Hk|exact Hn|exact (demo_shareable es Hs)|exact Hes|discriminate|reflexivity| |exact Hp].
  fold (demo_outcome own es). rewrite <- Ho, <- Hf. by destruct (demo_outcome own es) as [[? ?] ?].
Qed.

Lemma demo_passes : passes demo_sha demo_network ([("n1", "n2"); ("n1", "n3")] ++ [("n2", "n1"); ("n3", "n1")]) demo_gossiped.
Proof.
  cbn [app].
  apply (demo_exchange demo_network "n1" "n2" {["a" := demo_gone "a" 1]} {["a" := demo_gone "a" 2; "b" := demo_gone "b" 1]}
    [demo_gone "a" 2; demo_gone "b" 1] demo_b1); [vm_compute; reflexivity..|].
  apply (demo_exchange _ "n1" "n3" demo_b1 ∅ [] demo_b1); [vm_compute; reflexivity..|].
  apply (demo_exchange _ "n2" "n1" {["a" := demo_gone "a" 2; "b" := demo_gone "b" 1]} demo_b1
    [demo_gone "a" 2; demo_gone "b" 1] demo_b1); [vm_compute; reflexivity..|].
  apply (demo_exchange _ "n3" "n1" ∅ demo_b1 [demo_gone "a" 2; demo_gone "b" 1] demo_b1); [vm_compute; reflexivity..|].
  apply passes_nil.
Qed.

Lemma demo_network_held p e : held demo_network p e ->
  p = Entry_Path e /\ (e = demo_gone "a" 1 \/ e = demo_gone "a" 2 \/ e = demo_gone "b" 1).
Proof.
  intros (i & b & Hb & He). unfold demo_network in Hb.
  apply lookup_insert_Some in Hb as [[_ <-]|[_ Hb]]; [apply lookup_singleton_Some in He as [<- <-]; auto|].
  apply lookup_insert_Some in Hb as [[_ <-]|[_ [_ <-]%lookup_singleton_Some]]; [|by rewrite lookup_empty in He].
  apply lookup_insert_Some in He as [[<- <-]|[_ [<- <-]%lookup_singleton_Some]]; auto.
Qed.

Lemma demo_network_has : held demo_network "a" (demo_gone "a" 2).
Proof. exists "n2", {["a" := demo_gone "a" 2; "b" := demo_gone "b" 1]}. split; vm_compute; reflexivity. Qed.

Lemma gossip_converges_witness :
  dom demo_gossiped = dom demo_network /\
  (forall i b, demo_gossiped !! i = Some b -> exists e, b !! "a" = Some e /\ 2 <= Entry_Revision e) /\
  option_Forall2 same_version (default ∅ (demo_gossiped !! "n1") !! "b") (default ∅ (demo_gossiped !! "n3") !! "b").
Proof.
  destruct (gossip_converges demo_sha demo_network "n1" [("n1", "n2"); ("n1", "n3")] [("n2", "n1"); ("n3", "n1")]
    demo_gossiped demo_passes) as (H1 & H2 & H3).
  - intros p e e' [Hp He]%demo_network_held [Hp' He']%demo_network_held E. rewrite Hp in Hp'.
    destruct He as [->|[->| ->]], He' as [->|[->| ->]]; try discriminate; by split_and!.
  - vm_compute. done.
  - intros i Hi. assert (i = "n1" \/ i = "n2" \/ i = "n3") as [->|[->| ->]]; [|by left|right; set_solver..].
    unfold demo_network in Hi. rewrite !dom_insert in Hi. set_solver.
  - intros i Hi. assert (i = "n1" \/ i = "n2" \/ i = "n3") as [->|[->| ->]]; [|by left|right; set_solver..].
    unfold demo_network in Hi. rewrite !dom_insert in Hi. set_solver.
  - split; [exact H1|]. split.
    + intros i b Hb. destruct (H2 i b "a" _ Hb demo_network_has) as (e & He & _ & Hr). exists e. split; [exact He|exact Hr].
    + apply (H3 "n1" "n3"); vm_compute; reflexivity.
Defined.

(** Two versions at one revision are never exchanged. *)
Lemma tie_stays own remote p a b :
  own !! p = Some a -> remote !! p = Some b -> Entry_Revision b = Entry_Revision a ->
  merge_journals own remote !! p = Some a /\ merge_journals remote own !! p = Some b.
Proof. intros Ha Hb E. rewrite !merge_lookup, Ha, Hb. unfold newest. by rewrite E, Z.leb_refl. Qed.

(** ** Receiving *)

(** A request answered by a peer: clean, unrepeated paths, whatever its cursor. *)
Definition sane_peers (env : passEnv) : Prop :=
  (forall peer after remote cursor, pe_fetch env peer after = Some (remote, cursor) ->
     NoDup (Entry_Path <$> remote) /\ Forall (fun e => tidy (Entry_Path e)) remote) /\
  (forall peer js, env_order (re_transfers (pe_remote env peer)) js ≡ₚ js).

(** What a stored journal says of a folder. *)
Definition stored_described (sha256 : bytes -> bytes) (cwd root : string) (d : disk) (entries : list Entry) : Prop :=
  described sha256 cwd root d (indexEntries entries).

Section receiving.
Context (sha256 : bytes -> bytes) (cwd : string) (HasAPIEndpoint : PeerConfig -> bool).
Hypothesis cwd_nonempty : cwd <> EmptyString.

(** A journal in memory that fits the disk. *)
Record fits (root : string) (d : disk) (b : journal) : Prop := {
  fit_keyed : keyed b;
  fit_tidy : tidy_journal b;
  fit_described : described sha256 cwd root d b
}.

Lemma applyRemote_fits env root d b remote b' d' failed :
  (forall js, env_order (re_transfers env) js ≡ₚ js) -> NoDup (Entry_Path <$> remote) -> Forall (fun e => tidy (Entry_Path e)) remote ->
  applyRemote sha256 cwd env root d b remote = (b', d', failed) -> fits root d b -> fits root d' b'.
Proof.
  intros Ho Hn Ht E [Hk Htj Hd].
  destruct (applyRemote_entries sha256 cwd root env d b remote b' d' failed cwd_nonempty Ho Hn Ht E) as [H1 _].
  rewrite Forall_forall in Ht. split.
  - intros p e He. destruct (H1 p) as [Hp|(x & _ & Hx & _ & Hp)]; rewrite Hp in He; [by apply Hk|congruence].
  - intros p e He. destruct (H1 p) as [Hp|(x & Hin & <- & _ & _)]; [|by apply Ht]. rewrite Hp in He. by apply (Htj p e).
  - pose proof (outcome_described sha256 cwd root env d b remote cwd_nonempty Ho Hn) as H. unfold outcome in H. rewrite E in H.
    apply H; [|done|done]. by rewrite Forall_forall.
Qed.

Lemma pullPeer_fits env folder peers n b n' b' :
  sane_peers env -> foldl (pullPeer sha256 cwd env folder) (n, b) peers = (n', b') ->
  fits (FolderConfig_Path folder) (node_disk n) b ->
  fits (FolderConfig_Path folder) (node_disk n') b' /\ node_journals n' = node_journals n.
Proof.
  intros [Hf Ho]. revert n b. induction peers as [|peer peers IH]; intros n b.
  - cbn. by intros [= <- <-].
  - cbn [foldl]. destruct (pullPeer sha256 cwd env folder (n, b) peer) as [n1 b1] eqn:E1. intros E Hfit.
    assert (fits (FolderConfig_Path folder) (node_disk n1) b1 /\ node_journals n1 = node_journals n) as [Hfit1 Hj1].
    { unfold pullPeer in E1. destruct (peerCursor (FolderConfig_ID folder) (PeerConfig_ID peer) n) as [after n0] eqn:Ec.
      assert (node_disk n0 = node_disk n /\ node_journals n0 = node_journals n) as [Hd0 Hj0].
      { unfold peerCursor in Ec. destruct (_ !! (_, _)); [by injection Ec as <- <-|].
        destruct (_ !! cursorPath _) as [[?|]|]; by injection Ec as <- <-. }
      destruct (pe_fetch env peer after) as [[remote cursor]|] eqn:Ef; [|injection E1 as <- <-; by rewrite Hd0].
      destruct (applyRemote sha256 cwd (pe_remote env peer) (FolderConfig_Path folder) (node_disk n0) b remote) as [[bb d] failed] eqn:Ea.
      destruct (Hf _ _ _ _ Ef) as [Hn Ht].
      rewrite Hd0 in Ea. pose proof (applyRemote_fits _ _ _ _ _ _ _ _ (Ho peer) Hn Ht Ea Hfit) as H.
      assert (forall w c, node_disk (rememberPeerCursor w (FolderConfig_ID folder) (PeerConfig_ID peer) c (set_disk d n0)) = d /\
        node_journals (rememberPeerCursor w (FolderConfig_ID folder) (PeerConfig_ID peer) c (set_disk d n0)) = node_journals n0) as Hrem.
      { intros w c. unfold rememberPeerCursor. destruct (_ || _); [done|]. destruct (_ <=? _); [done|]. cbv zeta.
        destruct (_ <=? _); [done|]. by destruct w. }
      destruct failed; [injection E1 as <- <-; by rewrite <- Hj0|].
      destruct (0 <? cursor); injection E1 as <- <-; [|by rewrite <- Hj0].
      destruct (Hrem (pe_cursorFails env peer) cursor) as [-> ->]. by rewrite Hj0. }
    destruct (IH n1 b1 E Hfit1) as [? ->]. done.
Qed.

(** A saved journal reads back as the map it was made of, apart from cursors. *)
Lemma recorded_index j es j' p e' : NoDup (Entry_Path <$> es) -> recorded j es j' ->
  indexEntries (journalFile_Entries j') !! p = Some e' -> exists e, e ∈ es /\ Entry_Path e = p /\ e' = set_Cursor (Entry_Cursor e') e.
Proof.
  intros Hn Hr [He Hp]%indexEntries_Some; [|apply (rec_wf _ _ _ Hr)..].
  destruct (rec_from _ _ _ Hr e' He) as (e & Hin & E & _). exists e. split_and!; [done|by rewrite <- Hp, E|done].
Qed.

Lemma saved_described root d b es j :
  fits root d b -> (forall e, e ∈ es -> b !! Entry_Path e = Some e) -> NoDup (Entry_Path <$> es) -> wf_journal j ->
  journalFile_Cursor j + Z.of_nat (length es) <= maxInt64 ->
  wf_journal (journalDocument j es) /\ stored_described sha256 cwd root d (journalFile_Entries (journalDocument j es)).
Proof.
  intros [Hk Ht Hd] Hes Hn Hj Hb. assert (recorded j es (journalDocument j es)) as Hr.
  { apply journalDocument_spec; try done. rewrite Forall_forall. intros e He. apply (Ht (Entry_Path e) e), Hes, He. }
  split; [apply Hr|]. intros q e' t He' Hq. destruct (recorded_index j es _ q e' Hn Hr He') as (e & He & <- & ->).
  specialize (Hd (Entry_Path e) e t (Hes e He) Hq). exact Hd.
Qed.
End receiving.

Lemma journalDocument_length j es : length (journalFile_Entries (journalDocument j es)) = length es.
Proof.
  unfold journalDocument. cbn. rewrite sortEntries_perm.
  generalize (indexEntries (journalFile_Entries j)) (journalFile_Cursor j). intros prev c.
  assert (forall acc, length (foldl (assignCursor prev) acc es).2 = (length acc.2 + length es)%nat) as ->; [|done].
  induction es as [|e es IH]; intros acc; cbn [foldl length]; [lia|]. rewrite IH. unfold assignCursor.
  destruct (entryChanged prev e); cbn; rewrite length_app; cbn; lia.
Qed.


(** A folder of one receive-only node and a peer that serves [demo_remote]. *)
Definition demo_share (id path mode : string) : FolderConfig :=
  mkFolderConfig id path true EmptyString EmptyString EmptyString mode 0 [] []
    (mkPermissionPolicy EmptyString EmptyString EmptyString false false false) demo_maintenance true.
Definition demo_sender : PeerConfig :=
  mkPeerConfig "p" "key" EmptyString EmptyString EmptyString EmptyString [] 0 0 0 [] [] false.
Definition demo_pass (finalFails : bool) : passEnv :=
  mkPassEnv demo_env 0 elements (fun b => (map_to_list b).*2) false finalFails (fun _ _ => Some (demo_remote, 8))
    (fun _ => demo_remote_env) (fun _ => false).
Definition demo_stored : journalFile := journalDocument emptyJournal (map_to_list demo_folder_journal).*2.
Definition demo_node : nodeState := mkNode demo_folder_disk {[JournalPath "f" := Document demo_stored]} ∅ ∅ ∅ ∅ ∅ false.
Definition demo_reconciled (finalFails : bool) : nodeState * result FolderErr unit :=
  reconcileFolder demo_sha "/" (fun _ => true) (demo_pass finalFails) (demo_config [] [demo_sender])
    (demo_share "f" "/r" ModeReceiveOnly) demo_node.

Lemma demo_stored_cases e : e ∈ journalFile_Entries demo_stored ->
  e = mkEntry "kept" EmptyString 1 false 2 "n" [] 1 \/ e = mkEntry "old" EmptyString 1 false 3 "n" [] 2 \/
  e = mkEntry "kept" EmptyString 1 false 2 "n" [] 2 \/ e = mkEntry "old" EmptyString 1 false 3 "n" [] 1.
Proof.
  assert (journalFile_Entries demo_stored = [mkEntry "kept" EmptyString 1 false 2 "n" [] 1; mkEntry "old" EmptyString 1 false 3 "n" [] 2] \/
    journalFile_Entries demo_stored = [mkEntry "kept" EmptyString 1 false 2 "n" [] 2; mkEntry "old" EmptyString 1 false 3 "n" [] 1]) as [-> | ->]
    by (vm_compute; (left; reflexivity) || (right; reflexivity)); set_solver.
Qed.


(** *** What a pass can leave behind *)

(** The peer's cursor is stored before the journal is: when that save fails, the
    files are there, the journal does not name them, and the peer is asked only for
    what comes later. *)
Example cursor_ahead :
  (demo_reconciled true).2 = Err ErrSave /\
  disk_files (node_disk (demo_reconciled true).1) !! ["r"; "d"; "a"] = Some demo_data /\
  node_journals (demo_reconciled true).1 = node_journals demo_node /\ indexEntries (journalFile_Entries demo_stored) !! "d/a" = None /\
  (peerCursor "f" "p" (demo_reconciled true).1).1 = 8 /\
  node_cursorDocs (demo_reconciled true).1 !! cursorPath "f" = Some (Some {["p" := 8]}).
Proof. split_and!; vm_compute; reflexivity. Qed.

(** Two folders whose identifiers differ in a sanitised character share a journal:
    the scan of the second marks the files of the first as deleted. *)
Definition demo_two : nodeState := mkNode (mkDisk {[["r"; "x"] := demo_data]} ∅) ∅ ∅ ∅ ∅ ∅ ∅ false.
Definition demo_collided : nodeState :=
  Reconcile demo_sha "/" (fun _ => true) (fun _ => demo_pass false)
    (demo_config [demo_share "a/b" "/r" ModeSendOnly; demo_share "a_b" "/s" ModeSendOnly] []) (fun _ => false) demo_two.

Example journal_collision :
  JournalPath "a/b" = JournalPath "a_b" /\
  disk_files (node_disk demo_collided) !! ["r"; "x"] = Some demo_data /\
  (fun answer => map (fun e => (Entry_Path e, Entry_Deleted e)) answer.1) <$> served demo_collided "a/b" 0 = Some [("x", true)].
Proof. split_and!; vm_compute; reflexivity. Qed.
