(* ===== verification/Routing.v ===== *)
(** * Routing: which peer, which endpoint, which path

    Models [internal/routing]: the choice of a source for content, the class of an
    endpoint's network, cooperative fetching of one block by several peers, candidate
    endpoints with their diagnostics, paths for management commands, the retry plan
    for settings changes, and the search for a chain of peers that can carry
    negotiation messages.  All of it is pure; the kinds are Go strings that may hold
    any value.  [url.Parse] is a parameter: the host name and port of an address it
    accepts with a host.

    Where the code sorts with [sort.SliceStable] the model inserts stably; a Go map
    that is only looked up is a [gmap] or [gset]. *)

From S2P Require Import Prelude GoStd GoNet.
From Stdlib Require Import Ascii.
From stdpp Require Import relations.

Local Open Scope Z_scope.

(** ** Kinds and ranks *)

Definition DirectPath : string := "direct".
Definition RelayPath : string := "relay".
Definition MeshRelayPath : string := "mesh_relay".

Definition UnknownNetwork : string := EmptyString.
Definition LocalNetwork : string := "local".
Definition WANNetwork : string := "wan".
Definition VPNNetwork : string := "vpn_overlay".
Definition ContainerBridgeNetwork : string := "container_bridge".

Definition ReasonDirectPreferred : string := "direct_preferred".
Definition ReasonLocalPreferred : string := "local_preferred".
Definition ReasonRelayCarrierPreferred : string := "relay_carrier_preferred".
Definition ReasonOnlyAvailableSource : string := "only_available_source".
Definition ReasonCooperativeLocalRedistribution : string := "cooperative_local_redistribution".

Definition eqs (s t : string) : bool := bool_decide (s = t).

Definition pathRank (path : string) : Z :=
  if eqs path DirectPath then 0 else if eqs path RelayPath then 1 else if eqs path MeshRelayPath then 2 else 3.

Definition networkRank (network : string) : Z :=
  if eqs network LocalNetwork then 0
  else if eqs network WANNetwork || eqs network VPNNetwork || eqs network UnknownNetwork then 1
  else 2.

(** A comparison that prefers what satisfies the test. *)
Definition prefer {A} (test : A -> bool) (x : A) : Z := if test x then 0 else 1.

(** ** Sources of content *)

Record CandidateSource := mkCandidateSource {
  CandidateSource_PeerID : string;
  CandidateSource_ContentID : string;
  CandidateSource_Path : string;
  CandidateSource_Network : string;
  CandidateSource_RelayViaPeerID : string;
  CandidateSource_Reachable : bool
}.

Record SourceSelectionRequest := mkSourceSelectionRequest {
  SourceSelectionRequest_ContentID : string;
  SourceSelectionRequest_Candidates : list CandidateSource
}.

Record SourceChoice := mkSourceChoice { SourceChoice_CandidateSource : CandidateSource; SourceChoice_Reason : string }.

Definition offers (contentID : string) (c : CandidateSource) : bool :=
  CandidateSource_Reachable c && eqs (CandidateSource_ContentID c) contentID.

(** The peers other candidates are relayed by and that hold the content, too. *)
Definition relayCarrierPeers (candidates : list CandidateSource) : gset string :=
  let available : gset string := list_to_set (CandidateSource_PeerID <$> candidates) in
  list_to_set (List.filter (fun via => negb (eqs via EmptyString) && bool_decide (via ∈ available))
    (CandidateSource_RelayViaPeerID <$> candidates)).

Definition source_lt (carriers : gset string) : CandidateSource -> CandidateSource -> bool :=
  by_key (fun c => pathRank (CandidateSource_Path c)) Z.ltb
    (by_key (fun c => networkRank (CandidateSource_Network c)) Z.ltb
      (by_key (prefer (fun c => bool_decide (CandidateSource_PeerID c ∈ carriers))) Z.ltb
        (last_key CandidateSource_PeerID str_lt))).

Definition hasRelayCandidate (candidates : list CandidateSource) : bool :=
  existsb (fun c => eqs (CandidateSource_Path c) RelayPath || eqs (CandidateSource_Path c) MeshRelayPath) candidates.

Definition hasNonLocalCandidate (candidates : list CandidateSource) : bool :=
  existsb (fun c => negb (eqs (CandidateSource_Network c) LocalNetwork)) candidates.

Definition hasPeerBehindRelay (candidates : list CandidateSource) (relayPeerID : string) : bool :=
  existsb (fun c => eqs (CandidateSource_RelayViaPeerID c) relayPeerID) candidates.

Definition ChooseTransferSource (req : SourceSelectionRequest) : option SourceChoice :=
  let matches := List.filter (offers (SourceSelectionRequest_ContentID req)) (SourceSelectionRequest_Candidates req) in
  let carriers := relayCarrierPeers matches in
  match sort_by (source_lt carriers) matches with
  | [] => None
  | choice :: _ =>
      let reason :=
        if bool_decide (CandidateSource_PeerID choice ∈ carriers) && hasPeerBehindRelay matches (CandidateSource_PeerID choice)
        then ReasonRelayCarrierPreferred
        else if eqs (CandidateSource_Network choice) LocalNetwork && hasNonLocalCandidate matches then ReasonLocalPreferred
        else if eqs (CandidateSource_Path choice) DirectPath && hasRelayCandidate matches then ReasonDirectPreferred
        else ReasonOnlyAvailableSource in
      Some (mkSourceChoice choice reason)
  end.

(** ** The network of an endpoint *)

Record PublishedPortMapping := mkPublishedPortMapping { PublishedPortMapping_HostIP : string; PublishedPortMapping_HostPort : Z }.

Record NetworkHints := mkNetworkHints {
  NetworkHints_LocalContainerGatewayIPs : list string;
  NetworkHints_LocalCIDRs : list string;
  NetworkHints_PublishedPortMappings : list PublishedPortMapping
}.

(** [ip4[i]] and [ip16[i]] *)
Definition octet_at (l : list Z) (i : nat) : Z := default 0 (l !! i).

Definition isVPNOverlayIP (a : ip) : bool :=
  match To4 a with
  | Some v4 => (octet_at v4 0 =? 100) && (64 <=? octet_at v4 1) && (octet_at v4 1 <=? 127)
  | None => bool_decide (take 6 a = [253; 122; 17; 92; 161; 224])
  end.

Definition isDockerBridgeIP (a : ip) : bool :=
  match To4 a with
  | Some v4 => (octet_at v4 0 =? 172) && (17 <=? octet_at v4 1) && (octet_at v4 1 <=? 31)
  | None => false
  end.

Definition IsContainerBridgeIP (a : ip) : bool := isDockerBridgeIP a.

Definition ContainerInterface (name : string) : bool :=
  let n := to_lower (trim_space name) in
  existsb (has_prefix n) ["docker"; "br-"; "veth"; "cni"; "flannel"; "cali"; "lxc"; "virbr"].

(** [net.ParseIP(value)] equals [a]. *)
Definition names_ip (a : ip) (value : string) : bool := bool_decide (ParseIP (trim_space value) = Some a).

Definition ipInStringList (a : ip) (values : list string) : bool := existsb (names_ip a) values.

Definition ipInCIDRList (a : ip) (values : list string) : bool :=
  existsb (fun value => match ParseCIDR (trim_space value) with Some network => Contains network a | None => false end) values.

Definition ipInPublishedPortMappings (a : ip) (port : Z) (mappings : list PublishedPortMapping) : bool :=
  (0 <? port) && existsb (fun m => names_ip a (PublishedPortMapping_HostIP m) && (PublishedPortMapping_HostPort m =? port)) mappings.

Fixpoint parsedPortFrom (port : Z) (value : string) : Z :=
  match value with
  | EmptyString => port
  | String c rest => match digit_val c with Some d => parsedPortFrom (i64 (i64 (port * 10) + d)) rest | None => 0 end
  end.

Definition parsedPort (value : string) : Z := parsedPortFrom 0 value.

Section endpoints.
Context (url_host_port : string -> option (string * string)).

Definition endpointHostPort (address : string) : string * Z :=
  match url_host_port address with
  | Some (host, port) => (host, parsedPort port)
  | None => match SplitHostPort address with Some (host, port) => (host, parsedPort port) | None => (address, 0) end
  end.

Definition classifyIP (a : ip) (port : Z) (hints : NetworkHints) : string :=
  if ipInStringList a (NetworkHints_LocalContainerGatewayIPs hints) then LocalNetwork
  else if ipInCIDRList a (NetworkHints_LocalCIDRs hints) then LocalNetwork
  else if ipInPublishedPortMappings a port (NetworkHints_PublishedPortMappings hints) then LocalNetwork
  else if isVPNOverlayIP a then VPNNetwork
  else if isDockerBridgeIP a then ContainerBridgeNetwork
  else if IsLoopback a || IsPrivate a || IsLinkLocalUnicast a then LocalNetwork
  else WANNetwork.

Definition ClassifyEndpointNetworkWithHints (address : string) (hints : NetworkHints) : string :=
  let '(host, port) := endpointHostPort address in
  if eqs host EmptyString then WANNetwork
  else
    let lower := to_lower (trim_brackets host) in
    if has_suffix lower ".local" || eqs lower "localhost" then LocalNetwork
    else match ParseIP lower with Some a => classifyIP a port hints | None => WANNetwork end.

Definition noHints : NetworkHints := mkNetworkHints [] [] [].
Definition ClassifyEndpointNetwork (address : string) : string := ClassifyEndpointNetworkWithHints address noHints.
End endpoints.

(** ** Cooperative fetching of one block *)

Definition CooperativeFetchWAN : string := "fetch_wan".
Definition CooperativeFetchLocal : string := "fetch_local".

Record CooperativeFetchPeer := mkCooperativeFetchPeer {
  CooperativeFetchPeer_PeerID : string;
  CooperativeFetchPeer_Network : string;
  CooperativeFetchPeer_NeedsBlock : bool;
  CooperativeFetchPeer_CanFetchWAN : bool;
  CooperativeFetchPeer_LocalReachablePeerIDs : list string
}.

Record CooperativeBlockFetchRequest := mkCooperativeBlockFetchRequest {
  CooperativeBlockFetchRequest_BlockID : string;
  CooperativeBlockFetchRequest_Peers : list CooperativeFetchPeer
}.

Record CooperativeFetchAssignment := mkCooperativeFetchAssignment {
  CooperativeFetchAssignment_PeerID : string;
  CooperativeFetchAssignment_Action : string;
  CooperativeFetchAssignment_SourcePeerID : string
}.

Record CooperativeBlockFetchPlan := mkCooperativeBlockFetchPlan {
  CooperativeBlockFetchPlan_BlockID : string;
  CooperativeBlockFetchPlan_Assignments : list CooperativeFetchAssignment;
  CooperativeBlockFetchPlan_Reason : string
}.

Abbreviation cooperative_id := CooperativeFetchPeer_PeerID.
Definition cooperative_lt : CooperativeFetchPeer -> CooperativeFetchPeer -> bool := last_key cooperative_id str_lt.
Definition cooperative_local (p : CooperativeFetchPeer) : bool := eqs (CooperativeFetchPeer_Network p) LocalNetwork.

Definition cooperativeNeedingPeers (peers : list CooperativeFetchPeer) : list CooperativeFetchPeer :=
  sort_by cooperative_lt
    (List.filter (fun p => negb (eqs (cooperative_id p) EmptyString) && CooperativeFetchPeer_NeedsBlock p) peers).

(** [byID]: a peer listed twice counts as listed last. *)
Definition cooperative_index (peers : list CooperativeFetchPeer) : gmap string CooperativeFetchPeer :=
  put_all cooperative_id (fun p => p) ∅ peers.

(** One round of the loop over [LocalReachablePeerIDs]. *)
Definition coop_enqueue (byID : gmap string CooperativeFetchPeer)
    (st : gset string * list CooperativeFetchPeer) (nextID : string) : gset string * list CooperativeFetchPeer :=
  let '(seen, queue) := st in
  match byID !! nextID with
  | Some next =>
      if bool_decide (cooperative_id next ∈ seen) || negb (cooperative_local next) then st
      else ({[cooperative_id next]} ∪ seen, queue ++ [next])
  | None => st
  end.

Definition coop_expand (byID : gmap string CooperativeFetchPeer) (seen : gset string)
    (current : CooperativeFetchPeer) (queue : list CooperativeFetchPeer) : gset string * list CooperativeFetchPeer :=
  if cooperative_local current
  then foldl (coop_enqueue byID) (seen, queue) (CooperativeFetchPeer_LocalReachablePeerIDs current)
  else (seen, queue).

(** The loop over the queue; the fuel bounds its rounds, and what is left of the
    queue shows whether it sufficed. *)
Fixpoint coop_bfs (fuel : nat) (byID : gmap string CooperativeFetchPeer) (seen : gset string)
    (queue group : list CooperativeFetchPeer) : gset string * list CooperativeFetchPeer * list CooperativeFetchPeer :=
  match fuel, queue with
  | S fuel, current :: queue =>
      let '(seen, queue) := coop_expand byID seen current queue in
      coop_bfs fuel byID seen queue (group ++ [current])
  | _, _ => (seen, queue, group)
  end.

(** The group of one root: a peer joins a group once, so there are at most as many
    rounds as known identifiers. *)
Definition coop_group (byID : gmap string CooperativeFetchPeer) (seen : gset string) (peer : CooperativeFetchPeer) :
    gset string * list CooperativeFetchPeer * list CooperativeFetchPeer :=
  coop_bfs (size byID) byID ({[cooperative_id peer]} ∪ seen) [peer] [].

Definition coop_groups_step (byID : gmap string CooperativeFetchPeer)
    (st : gset string * list (list CooperativeFetchPeer)) (peer : CooperativeFetchPeer) :
    gset string * list (list CooperativeFetchPeer) :=
  let '(seen, groups) := st in
  if bool_decide (cooperative_id peer ∈ seen) then st
  else let '(seen, _, group) := coop_group byID seen peer in
       (seen, groups ++ [sort_by cooperative_lt group]).

Definition cooperativeLocalGroups (peers : list CooperativeFetchPeer) : list (list CooperativeFetchPeer) :=
  (foldl (coop_groups_step (cooperative_index peers)) (∅, []) peers).2.

(** The zero peer (with an empty identifier) when nobody in the group can fetch. *)
Definition chooseCooperativeFetcher (group : list CooperativeFetchPeer) : CooperativeFetchPeer :=
  default (mkCooperativeFetchPeer EmptyString EmptyString false false []) (List.find CooperativeFetchPeer_CanFetchWAN group).

Definition cooperative_assignment (fetcher peer : CooperativeFetchPeer) : CooperativeFetchAssignment :=
  if negb (eqs (cooperative_id fetcher) EmptyString) && negb (eqs (cooperative_id peer) (cooperative_id fetcher))
  then mkCooperativeFetchAssignment (cooperative_id peer) CooperativeFetchLocal (cooperative_id fetcher)
  else mkCooperativeFetchAssignment (cooperative_id peer) CooperativeFetchWAN EmptyString.

Definition group_assignments (group : list CooperativeFetchPeer) : list CooperativeFetchAssignment :=
  cooperative_assignment (chooseCooperativeFetcher group) <$> group.

Definition PlanCooperativeBlockFetch (req : CooperativeBlockFetchRequest) : CooperativeBlockFetchPlan :=
  let needing := cooperativeNeedingPeers (CooperativeBlockFetchRequest_Peers req) in
  match needing with
  | [] => mkCooperativeBlockFetchPlan (CooperativeBlockFetchRequest_BlockID req) [] EmptyString
  | _ =>
      let assignments := sort_by (last_key CooperativeFetchAssignment_PeerID str_lt)
        (mjoin (group_assignments <$> cooperativeLocalGroups needing)) in
      mkCooperativeBlockFetchPlan (CooperativeBlockFetchRequest_BlockID req) assignments
        (if existsb (fun a => eqs (CooperativeFetchAssignment_Action a) CooperativeFetchLocal) assignments
         then ReasonCooperativeLocalRedistribution else ReasonOnlyAvailableSource)
  end.

(** *** The caller: direct peers on the local network during one pass
    ([internal/runtimesync/cooperative.go]) *)

Record PeerPull := mkPeerPull { PeerPull_PeerID : string; PeerPull_Path : string; PeerPull_Network : string }.

Definition otherLocalPeerIDs (peerID : string) (peers : list string) : list string :=
  List.filter (fun other => negb (eqs other peerID)) peers.

Definition local_pull_step (st : gset string * list string) (pull : PeerPull) : gset string * list string :=
  let '(seen, ids) := st in
  let id := PeerPull_PeerID pull in
  if eqs id EmptyString || bool_decide (id ∈ seen) || negb (eqs (PeerPull_Network pull) LocalNetwork)
     || negb (eqs (PeerPull_Path pull) DirectPath)
  then st else ({[id]} ∪ seen, ids ++ [id]).

Definition localPeerIDs (pulls : list PeerPull) : list string :=
  (foldl local_pull_step (∅, []) pulls).2.

Definition PlanCooperativeBlockFetches (folderID : string) (pulls : list PeerPull) : list CooperativeBlockFetchPlan :=
  let ids := localPeerIDs pulls in
  if (length ids <? 2)%nat then []
  else
    let ids := sort_by str_lt ids in
    let peers := (fun id => mkCooperativeFetchPeer id LocalNetwork true true (otherLocalPeerIDs id ids)) <$> ids in
    let plan := PlanCooperativeBlockFetch (mkCooperativeBlockFetchRequest (folderID +:+ ":live-transfer-pass") peers) in
    if eqs (CooperativeBlockFetchPlan_Reason plan) ReasonCooperativeLocalRedistribution then [plan] else [].

Definition CooperativeBlockFetchPlanMessage (plan : CooperativeBlockFetchPlan) : string :=
  let assignments := CooperativeBlockFetchPlan_Assignments plan in
  let wan := List.filter (fun a => eqs (CooperativeFetchAssignment_Action a) CooperativeFetchWAN) assignments in
  let local := List.filter (fun a => eqs (CooperativeFetchAssignment_Action a) CooperativeFetchLocal) assignments in
  "cooperativeBlockFetch block=" +:+ CooperativeBlockFetchPlan_BlockID plan
  +:+ " reason=" +:+ CooperativeBlockFetchPlan_Reason plan
  +:+ " wanFetchers=" +:+ GoStd.join "," (CooperativeFetchAssignment_PeerID <$> wan)
  +:+ " localReuse=" +:+ GoStd.join "," ((fun a =>
        CooperativeFetchAssignment_PeerID a +:+ "<- " +:+ CooperativeFetchAssignment_SourcePeerID a) <$> local).

(** ** The search for a group *)

Section search.
Context (byID : gmap string CooperativeFetchPeer).
Context (index_ok : forall k p, byID !! k = Some p -> cooperative_id p = k).

(** [q] can be reached from [p] by one local hop. *)
Definition linked (p q : CooperativeFetchPeer) : Prop :=
  cooperative_local p = true /\ cooperative_local q = true /\
  exists k, k ∈ CooperativeFetchPeer_LocalReachablePeerIDs p /\ byID !! k = Some q.

Definition ids (l : list CooperativeFetchPeer) : gset string := list_to_set (cooperative_id <$> l).

Lemma elem_of_ids k l : k ∈ ids l <-> exists p, p ∈ l /\ cooperative_id p = k.
Proof.
  unfold ids. rewrite elem_of_list_to_set, list_elem_of_fmap. split; intros (p & ? & ?); exists p; auto.
Qed.

Lemma ids_app l1 l2 : ids (l1 ++ l2) = ids l1 ∪ ids l2.
Proof. unfold ids. by rewrite fmap_app, list_to_set_app_L. Qed.

(** What a round adds: peers of the index not seen before, each once. *)
Record fresh (seen : gset string) (new : list CooperativeFetchPeer) : Prop := {
  fresh_nodup : NoDup (cooperative_id <$> new);
  fresh_unseen : forall x, x ∈ new -> cooperative_id x ∉ seen;
  fresh_known : forall x, x ∈ new -> byID !! cooperative_id x = Some x
}.

Lemma coop_enqueue_all (l : list string) (seen : gset string) (queue : list CooperativeFetchPeer) :
  exists new, foldl (coop_enqueue byID) (seen, queue) l = (seen ∪ ids new, queue ++ new) /\ fresh seen new /\
    (forall x, x ∈ new -> cooperative_local x = true /\ exists k, k ∈ l /\ byID !! k = Some x) /\
    (forall k x, k ∈ l -> byID !! k = Some x -> cooperative_local x = true -> cooperative_id x ∈ seen ∪ ids new).
Proof.
  revert seen queue. induction l as [|k l IH]; intros seen queue.
  - exists []. cbn. rewrite app_nil_r. split; [f_equal; set_solver|].
    split; [|set_solver]. split; [apply NoDup_nil_2|set_solver..].
  - cbn [foldl]. unfold coop_enqueue at 2. destruct (byID !! k) as [q|] eqn:Ek.
    2: { destruct (IH seen queue) as (new & -> & Hf & H1 & H2). exists new.
         split; [done|]. split; [done|]. split; [set_solver|]. intros k' x Hk Hx.
         apply elem_of_cons in Hk as [->|Hk]; [congruence|eauto]. }
    destruct (bool_decide_reflect (cooperative_id q ∈ seen)) as [Hq|Hq]; cbn [orb].
    { destruct (IH seen queue) as (new & -> & Hf & H1 & H2). exists new.
      split; [done|]. split; [done|]. split; [set_solver|]. intros k' x Hk Hx.
      apply elem_of_cons in Hk as [->|Hk]; [|eauto]. simplify_eq. set_solver. }
    destruct (cooperative_local q) eqn:Eq; cbn [negb].
    2: { destruct (IH seen queue) as (new & -> & Hf & H1 & H2). exists new.
         split; [done|]. split; [done|]. split; [set_solver|]. intros k' x Hk Hx.
         apply elem_of_cons in Hk as [->|Hk]; [congruence|eauto]. }
    destruct (IH ({[cooperative_id q]} ∪ seen) (queue ++ [q])) as (new & -> & [Hn Hu Hk] & H1 & H2).
    exists (q :: new). split; [|split; [|split]].
    + rewrite <- app_assoc. f_equal. change (q :: new) with ([q] ++ new). rewrite ids_app. unfold ids at 2. set_solver.
    + split; cbn.
      * apply NoDup_cons. split; [|done]. rewrite list_elem_of_fmap. intros (y & Hy & Hin).
        apply (Hu y Hin). set_solver.
      * intros x [->|Hx]%elem_of_cons; [done|]. specialize (Hu x Hx). set_solver.
      * intros x [->|Hx]%elem_of_cons; [|by apply Hk]. by rewrite (index_ok _ _ Ek).
    + intros x [->|Hx]%elem_of_cons; [split; [done|]; exists k; set_solver|].
      destruct (H1 x Hx) as (? & k' & ? & ?). split; [done|]. exists k'. set_solver.
    + intros k' x Hin Hx Hl. change (q :: new) with ([q] ++ new). rewrite ids_app.
      assert (Hs : cooperative_id q ∈ ids [q]) by (apply elem_of_ids; exists q; set_solver).
      apply elem_of_cons in Hin as [->|Hin]; [simplify_eq; set_solver|].
      specialize (H2 k' x Hin Hx Hl). set_solver.
Qed.

Lemma coop_expand_spec seen current queue : exists new,
  coop_expand byID seen current queue = (seen ∪ ids new, queue ++ new) /\ fresh seen new /\
  (forall x, x ∈ new -> linked current x) /\ (forall y, linked current y -> cooperative_id y ∈ seen ∪ ids new).
Proof.
  unfold coop_expand. destruct (cooperative_local current) eqn:El.
  - destruct (coop_enqueue_all (CooperativeFetchPeer_LocalReachablePeerIDs current) seen queue) as (new & -> & Hf & H1 & H2).
    exists new. split; [done|]. split; [done|]. split.
    + intros x Hx. destruct (H1 x Hx) as (? & k & ? & ?). by split_and!; [..|exists k].
    + intros y (_ & Hy & k & Hk & Hby). by eapply H2.
  - exists []. rewrite app_nil_r. split; [f_equal; set_solver|]. split; [split; [apply NoDup_nil_2|set_solver..]|].
    split; [set_solver|]. intros y (? & _). congruence.
Qed.

(** The state of the search from [root], when [before] was seen at its start. *)
Record searching (root : CooperativeFetchPeer) (before seen : gset string) (queue group : list CooperativeFetchPeer) : Prop := {
  sg_seen : seen = before ∪ ids (group ++ queue);
  sg_nodup : NoDup (cooperative_id <$> group ++ queue);
  sg_new : forall x, x ∈ group ++ queue -> cooperative_id x ∉ before;
  sg_known : forall x, x ∈ group ++ queue -> x = root \/ byID !! cooperative_id x = Some x;
  sg_reach : forall x, x ∈ group ++ queue -> rtc linked root x;
  sg_closed : forall x y, x ∈ group -> linked x y -> cooperative_id y ∈ seen
}.

Lemma searching_start root before : cooperative_id root ∉ before ->
  searching root before ({[cooperative_id root]} ∪ before) [root] [].
Proof.
  intros Hr. assert (Hi : ids [root] = {[cooperative_id root]}) by (unfold ids; set_solver).
  split; cbn [app].
  - rewrite Hi. set_solver.
  - apply NoDup_singleton.
  - intros x ->%list_elem_of_singleton. done.
  - intros x ->%list_elem_of_singleton. by left.
  - intros x ->%list_elem_of_singleton. done.
  - set_solver.
Qed.

Lemma searching_round root before seen current queue group new :
  searching root before seen (current :: queue) group -> fresh seen new ->
  (forall x, x ∈ new -> linked current x) -> (forall y, linked current y -> cooperative_id y ∈ seen ∪ ids new) ->
  searching root before (seen ∪ ids new) (queue ++ new) (group ++ [current]).
Proof.
  intros [Hs Hn Hb Hk Hr Hc] [Fn Fu Fk] Hl1 Hl2.
  assert (Ee : (group ++ [current]) ++ queue ++ new = (group ++ current :: queue) ++ new) by (by rewrite <- !app_assoc).
  assert (Hin : forall x, x ∈ (group ++ current :: queue) ++ new -> x ∈ group ++ current :: queue \/ x ∈ new)
    by (intros x; by rewrite elem_of_app).
  assert (Hcur : current ∈ group ++ current :: queue) by set_solver.
  split; rewrite ?Ee.
  - rewrite ids_app, Hs. set_solver.
  - rewrite fmap_app. apply NoDup_app. split_and!; [done| |done]. intros k.
    rewrite !list_elem_of_fmap. intros (x & -> & Hx) (y & Hxy & Hy). apply (Fu y Hy). rewrite Hs, elem_of_union.
    right. apply elem_of_ids. by exists x.
  - intros x [Hx|Hx]%Hin; [by apply Hb|]. specialize (Fu x Hx). rewrite Hs in Fu. set_solver.
  - intros x [Hx|Hx]%Hin; [by apply Hk|]. right. by apply Fk.
  - intros x [Hx|Hx]%Hin; [by apply Hr|]. eapply rtc_r; [by apply Hr|]. by apply Hl1.
  - intros x y [Hx|Hx]%elem_of_app Hy; [specialize (Hc x y Hx Hy); set_solver|].
    apply list_elem_of_singleton in Hx as ->. by apply Hl2.
Qed.

(** Identifiers still to be seen, plus the queue: each round takes one away. *)
Lemma search_measure seen current queue new : fresh seen new ->
  (size (dom byID ∖ (seen ∪ ids new)) + length (queue ++ new) < size (dom byID ∖ seen) + length (current :: queue))%nat.
Proof.
  intros [Fn Fu Fk]. rewrite length_app. cbn [length].
  assert (Hsz : size (ids new) = length new).
  { unfold ids. rewrite size_list_to_set by done. by rewrite length_fmap. }
  assert (Hsub : ids new ⊆ dom byID ∖ seen).
  { intros k (x & Hx & <-)%elem_of_ids. apply elem_of_difference. split; [|by apply Fu].
    apply elem_of_dom. exists x. by apply Fk. }
  replace (dom byID ∖ (seen ∪ ids new)) with ((dom byID ∖ seen) ∖ ids new) by set_solver.
  rewrite size_difference by done. assert (size (ids new) <= size (dom byID ∖ seen))%nat by (by apply subseteq_size). lia.
Qed.

Lemma coop_bfs_spec fuel root before : forall seen queue group,
  searching root before seen queue group -> (size (dom byID ∖ seen) + length queue <= fuel)%nat ->
  exists seen' group', coop_bfs fuel byID seen queue group = (seen', [], group') /\ searching root before seen' [] group' /\
    forall x, x ∈ group ++ queue -> x ∈ group'.
Proof.
  induction fuel as [|fuel IH]; intros seen queue group Hinv Hf; cbn [coop_bfs].
  - destruct queue as [|c q]; cbn in Hf; [|lia]. exists seen, group. by rewrite app_nil_r.
  - destruct queue as [|c q].
    + exists seen, group. by rewrite app_nil_r.
    + destruct (coop_expand_spec seen c q) as (new & -> & Hfresh & H1 & H2).
      pose proof (search_measure seen c q new Hfresh) as Hm.
      destruct (IH _ _ _ (searching_round _ _ _ _ _ _ _ Hinv Hfresh H1 H2)) as (seen' & group' & -> & Hi' & Hin); [lia|].
      exists seen', group'. split; [done|]. split; [done|]. intros x Hx. apply Hin. set_solver.
Qed.

(** The fuel of [coop_group] suffices: nothing is left in the queue. *)
Lemma coop_group_spec before peer : cooperative_id peer ∉ before -> cooperative_id peer ∈ dom byID ->
  exists seen' group, coop_group byID before peer = (seen', [], group) /\ searching peer before seen' [] group /\ peer ∈ group.
Proof.
  intros Hb Hd. unfold coop_group.
  destruct (coop_bfs_spec (size byID) peer before _ _ _ (searching_start peer before Hb)) as (s & g & -> & Hi & Hin).
  - rewrite <- (size_dom byID). cbn [length].
    assert (Hsub : {[cooperative_id peer]} ⊆ (dom byID : gset string)) by set_solver.
    assert (H1 : (size (dom byID ∖ ({[cooperative_id peer]} ∪ before)) <= size (dom byID ∖ {[cooperative_id peer]}))%nat)
      by (apply subseteq_size; set_solver).
    rewrite (size_difference (dom byID) {[cooperative_id peer]} Hsub) in H1. rewrite size_singleton in H1.
    apply subseteq_size in Hsub. rewrite size_singleton in Hsub. lia.
  - exists s, g. split; [done|]. split; [done|]. apply Hin; by left.
Qed.
End search.

Lemma cooperative_index_from peers k p : cooperative_index peers !! k = Some p -> p ∈ peers /\ cooperative_id p = k.
Proof.
  intros [H|(x & Hx & <- & ->)]%put_all_from; [by rewrite lookup_empty in H|done].
Qed.

Lemma cooperative_index_dom peers p : p ∈ peers -> cooperative_id p ∈ dom (cooperative_index peers).
Proof. intros Hp. apply elem_of_dom. by apply (put_all_in cooperative_id (fun p => p)). Qed.

Lemma cooperative_index_nodup peers p : NoDup (cooperative_id <$> peers) -> p ∈ peers ->
  cooperative_index peers !! cooperative_id p = Some p.
Proof. intros Hn Hp. by apply (put_all_NoDup cooperative_id (fun p => p)). Qed.

(** ** The groups *)

Section groups.
Context (peers : list CooperativeFetchPeer).

Abbreviation linked := (linked (cooperative_index peers)).

(** Every peer lists its neighbours and no identifier is used twice. *)
Definition mutual : Prop :=
  NoDup (cooperative_id <$> peers) /\ forall x y, x ∈ peers -> linked x y -> linked y x.

Record grouped (done : list CooperativeFetchPeer) (seen : gset string) (groups : list (list CooperativeFetchPeer)) : Prop := {
  gr_seen : seen = ids (mjoin groups);
  gr_nodup : NoDup (cooperative_id <$> mjoin groups);
  gr_root : forall g, g ∈ groups -> exists root, root ∈ peers /\ forall x, x ∈ g -> x ∈ peers /\ rtc linked root x;
  gr_sorted : forall g, g ∈ groups -> StronglySorted (not_after cooperative_lt) g;
  gr_done : forall x, x ∈ done -> cooperative_id x ∈ seen;
  gr_closed : mutual -> forall g x y, g ∈ groups -> x ∈ g -> linked x y -> y ∈ g
}.

Lemma linked_in x y : linked x y -> y ∈ peers.
Proof. intros (_ & _ & k & _ & Hk). by apply cooperative_index_from in Hk as [? _]. Qed.

Lemma connected_sym x y : mutual -> x ∈ peers -> rtc linked x y -> rtc linked y x.
Proof.
  intros [_ Hsym] Hx H. induction H as [|x y z Hxy Hyz IH]; [done|].
  eapply rtc_r; [apply IH; by apply (linked_in x)|by apply Hsym].
Qed.

Lemma grouped_step before groups peer rest : grouped before.1 before.2 groups -> peer ∈ peers ->
  rest = coop_groups_step (cooperative_index peers) (before.2, groups) peer ->
  grouped (before.1 ++ [peer]) rest.1 rest.2.
Proof.
  destruct before as [d seen]. cbn [fst snd]. intros [Hs Hn Hr Hst Hd Hc] Hp ->. unfold coop_groups_step.
  destruct (bool_decide_reflect (cooperative_id peer ∈ seen)) as [Hin|Hin].
  { split; [done..| |done]. intros x [?| ->%list_elem_of_singleton]%elem_of_app; [by apply Hd|done]. }
  destruct (coop_group_spec (cooperative_index peers) (fun k p H => proj2 (cooperative_index_from _ _ _ H)) seen peer Hin
              (cooperative_index_dom _ _ Hp)) as (seen' & g & -> & [Gs Gn Gb Gk Gr Gc] & Hpg).
  rewrite app_nil_r in *.
  assert (Hin' : forall x, x ∈ sort_by cooperative_lt g <-> x ∈ g) by (intros x; apply elem_of_sort_by).
  assert (Hpm : mjoin (groups ++ [sort_by cooperative_lt g]) ≡ₚ mjoin groups ++ g).
  { rewrite join_app. cbn. by rewrite app_nil_r, sort_by_perm. }
  assert (Hgin : forall x, x ∈ g -> x ∈ peers).
  { intros x Hx. destruct (Gk x Hx) as [->|H]; [done|]. by apply cooperative_index_from in H as [? _]. }
  split; cbn [fst snd].
  - rewrite Gs, Hs. apply set_eq. intros k. rewrite <- ids_app, !elem_of_ids. by setoid_rewrite Hpm.
  - rewrite Hpm, fmap_app. apply NoDup_app. split_and!; [done| |done]. intros k.
    rewrite !list_elem_of_fmap. intros (x & -> & Hx) (y & Hxy & Hy). apply (Gb y Hy). rewrite Hs, elem_of_ids. by exists x.
  - intros g' [Hg| ->%list_elem_of_singleton]%elem_of_app; [by apply Hr|]. exists peer. split; [done|].
    intros x Hx%Hin'. auto.
  - intros g' [Hg| ->%list_elem_of_singleton]%elem_of_app; [by apply Hst|]. apply sort_by_sorted. apply _.
  - intros x [Hx| ->%list_elem_of_singleton]%elem_of_app.
    + rewrite Gs. apply elem_of_union_l. by apply Hd.
    + rewrite Gs, elem_of_union, elem_of_ids. right. exists peer. done.
  - intros [Hnd Hsym] g' x y Hg' Hx Hl. apply elem_of_app in Hg' as [Hg'|Hg'].
    { by apply (Hc (conj Hnd Hsym) g' x y). }
    apply list_elem_of_singleton in Hg' as ->. apply Hin' in Hx. apply Hin'.
    pose proof (Gc x y Hx Hl) as Hy. rewrite Gs, elem_of_union in Hy. destruct Hy as [Hy|Hy].
    + (* an earlier group would hold [y], and so [x] *)
      rewrite Hs in Hy. apply elem_of_ids in Hy as (y' & (g' & Hy' & Hg')%list_elem_of_join & Hid).
      assert (y' = y) as ->.
      { destruct (Hr g' Hg') as (r & _ & Hall). destruct (Hall y' Hy') as [Hp' _].
        apply (NoDup_fmap_elem cooperative_id peers); [done..|by apply (linked_in x)|done]. }
      assert (Hx' : x ∈ g') by (apply (Hc (conj Hnd Hsym) g' y x); [done..|by apply Hsym; [apply Hgin|]]).
      exfalso. apply (Gb x Hx). rewrite Hs, elem_of_ids. exists x. split; [|done]. apply list_elem_of_join. by exists g'.
    + apply elem_of_ids in Hy as (y' & Hy' & Hid).
      assert (y' = y) as ->; [|done].
      apply (NoDup_fmap_elem cooperative_id peers); [done|by apply Hgin|by apply (linked_in x)|done].
Qed.

Lemma grouped_all : grouped peers
  (foldl (coop_groups_step (cooperative_index peers)) (∅, []) peers).1 (cooperativeLocalGroups peers).
Proof.
  unfold cooperativeLocalGroups.
  assert (H : forall rest d st, grouped d st.1 st.2 -> rest ⊆ peers ->
    grouped (d ++ rest) (foldl (coop_groups_step (cooperative_index peers)) st rest).1
      (foldl (coop_groups_step (cooperative_index peers)) st rest).2).
  { induction rest as [|p rest IH]; intros d [seen groups] Hg Hsub; [by rewrite app_nil_r|].
    cbn [foldl]. rewrite cons_middle, app_assoc. apply IH; [|set_solver].
    apply (grouped_step (d, seen) groups p _ Hg); [set_solver|done]. }
  apply (H peers [] (∅, [])); [|done]. cbn. split; cbn.
  - done.
  - apply NoDup_nil_2.
  - intros g Hg. by apply elem_of_nil in Hg.
  - intros g Hg. by apply elem_of_nil in Hg.
  - intros x Hx. by apply elem_of_nil in Hx.
  - intros _ g x y Hg. by apply elem_of_nil in Hg.
Qed.
End groups.

(** ** The plan *)

Lemma elem_of_List_filter {A} (f : A -> bool) l x : x ∈ List.filter f l <-> x ∈ l /\ f x = true.
Proof. by rewrite !list_elem_of_In, filter_In. Qed.

Lemma cooperativeNeedingPeers_elem peers p : p ∈ cooperativeNeedingPeers peers <->
  p ∈ peers /\ cooperative_id p <> EmptyString /\ CooperativeFetchPeer_NeedsBlock p = true.
Proof.
  unfold cooperativeNeedingPeers, eqs. rewrite elem_of_sort_by, elem_of_List_filter.
  rewrite andb_true_iff, negb_true_iff, bool_decide_eq_false. naive_solver.
Qed.

Lemma chooseCooperativeFetcher_spec group :
  (exists f, chooseCooperativeFetcher group = f /\ f ∈ group /\ CooperativeFetchPeer_CanFetchWAN f = true) \/
  (cooperative_id (chooseCooperativeFetcher group) = EmptyString /\
   forall x, x ∈ group -> CooperativeFetchPeer_CanFetchWAN x = false).
Proof.
  unfold chooseCooperativeFetcher. destruct (List.find _ _) as [f|] eqn:E; cbn.
  - apply find_some in E as [Hin Hc]. left. exists f. by rewrite list_elem_of_In.
  - right. split; [done|]. intros x Hx. apply (find_none _ _ E). by apply list_elem_of_In.
Qed.

(** The group is sorted, so the fetcher is its least capable member. *)
Lemma chooseCooperativeFetcher_least group x : StronglySorted (not_after cooperative_lt) group ->
  x ∈ group -> CooperativeFetchPeer_CanFetchWAN x = true ->
  cooperative_lt x (chooseCooperativeFetcher group) = false.
Proof.
  unfold chooseCooperativeFetcher. induction 1 as [|y l Hl IH Hy]; intros Hx Hc; [by apply elem_of_nil in Hx|].
  cbn [List.find]. destruct (CooperativeFetchPeer_CanFetchWAN y) eqn:Ey; cbn [default].
  - apply elem_of_cons in Hx as [->|Hx]; [apply sw_irrefl|]. rewrite Forall_forall in Hy. by apply Hy.
  - apply elem_of_cons in Hx as [->|Hx]; [congruence|]. by apply IH.
Qed.

Definition fetches_wan (id : string) : CooperativeFetchAssignment := mkCooperativeFetchAssignment id CooperativeFetchWAN EmptyString.
Definition fetches_from (id source : string) : CooperativeFetchAssignment := mkCooperativeFetchAssignment id CooperativeFetchLocal source.

Lemma assignment_none f p : cooperative_id f = EmptyString -> cooperative_assignment f p = fetches_wan (cooperative_id p).
Proof. intros H. unfold cooperative_assignment, eqs. by rewrite (bool_decide_true (cooperative_id f = EmptyString)). Qed.

Lemma assignment_self f : cooperative_assignment f f = fetches_wan (cooperative_id f).
Proof. unfold cooperative_assignment, eqs. rewrite (bool_decide_true (cooperative_id f = cooperative_id f)) by done. by rewrite andb_false_r. Qed.

Lemma assignment_other f p : cooperative_id f <> EmptyString -> cooperative_id p <> cooperative_id f ->
  cooperative_assignment f p = fetches_from (cooperative_id p) (cooperative_id f).
Proof. intros H1 H2. unfold cooperative_assignment, eqs. by rewrite (bool_decide_false (_ = EmptyString)), (bool_decide_false (cooperative_id p = _)). Qed.

Lemma assignment_id f p : CooperativeFetchAssignment_PeerID (cooperative_assignment f p) = cooperative_id p.
Proof. unfold cooperative_assignment. by destruct (_ && _). Qed.

Lemma plan_assignments req :
  CooperativeBlockFetchPlan_Assignments (PlanCooperativeBlockFetch req) ≡ₚ
  mjoin (group_assignments <$> cooperativeLocalGroups (cooperativeNeedingPeers (CooperativeBlockFetchRequest_Peers req))).
Proof.
  unfold PlanCooperativeBlockFetch. destruct (cooperativeNeedingPeers _) eqn:E; [done|]. cbn. apply sort_by_perm.
Qed.

Lemma elem_of_plan req a : a ∈ CooperativeBlockFetchPlan_Assignments (PlanCooperativeBlockFetch req) <->
  exists g x, g ∈ cooperativeLocalGroups (cooperativeNeedingPeers (CooperativeBlockFetchRequest_Peers req)) /\ x ∈ g /\
    a = cooperative_assignment (chooseCooperativeFetcher g) x.
Proof.
  rewrite plan_assignments, list_elem_of_join. split.
  - intros (l & Ha & (g & -> & Hg)%list_elem_of_fmap). apply list_elem_of_fmap in Ha as (x & -> & Hx). by exists g, x.
  - intros (g & x & Hg & Hx & ->). exists (group_assignments g). split; [|by apply list_elem_of_fmap_2].
    by apply list_elem_of_fmap_2.
Qed.

Lemma plan_ids req :
  CooperativeFetchAssignment_PeerID <$> CooperativeBlockFetchPlan_Assignments (PlanCooperativeBlockFetch req) ≡ₚ
  cooperative_id <$> mjoin (cooperativeLocalGroups (cooperativeNeedingPeers (CooperativeBlockFetchRequest_Peers req))).
Proof.
  rewrite plan_assignments. generalize (cooperativeLocalGroups (cooperativeNeedingPeers (CooperativeBlockFetchRequest_Peers req))).
  induction l as [|g l IH]; [done|]. rewrite fmap_cons. cbn [mjoin list_join]. rewrite !fmap_app. f_equiv; [|exact IH].
  unfold group_assignments. rewrite <- list_fmap_compose. apply reflexive_eq, list_fmap_ext. intros i x _. apply assignment_id.
Qed.

Lemma plan_cover req :
  let assignments := CooperativeBlockFetchPlan_Assignments (PlanCooperativeBlockFetch req) in
  NoDup (CooperativeFetchAssignment_PeerID <$> assignments) /\
  (forall id, id ∈ CooperativeFetchAssignment_PeerID <$> assignments <->
     id ∈ cooperative_id <$> cooperativeNeedingPeers (CooperativeBlockFetchRequest_Peers req)).
Proof.
  cbv zeta. destruct (grouped_all (cooperativeNeedingPeers (CooperativeBlockFetchRequest_Peers req))) as [Hs Hn Hr _ Hd _].
  split; [by rewrite plan_ids|]. intros id. rewrite plan_ids, !list_elem_of_fmap. split.
  - intros (p & -> & (g & Hp & Hg)%list_elem_of_join). destruct (Hr g Hg) as (r & _ & Hall).
    exists p. by split; [|apply Hall].
  - intros (p & -> & Hp). specialize (Hd p Hp). rewrite Hs in Hd. apply elem_of_ids in Hd as (p' & Hp' & <-).
    by exists p'.
Qed.

(** The plan covers every peer that needs the block, once, and a peer told to take it
    locally is sent to a peer of the same search that can, and is told to, fetch it
    itself. *)
Theorem PlanCooperativeBlockFetch_sound req :
  let needing := cooperativeNeedingPeers (CooperativeBlockFetchRequest_Peers req) in
  let assignments := CooperativeBlockFetchPlan_Assignments (PlanCooperativeBlockFetch req) in
  NoDup (CooperativeFetchAssignment_PeerID <$> assignments) /\
  (forall id, id ∈ CooperativeFetchAssignment_PeerID <$> assignments <-> id ∈ cooperative_id <$> needing) /\
  (forall a, a ∈ assignments -> a = fetches_wan (CooperativeFetchAssignment_PeerID a) \/
     exists root f p, a = fetches_from (cooperative_id p) (cooperative_id f) /\ f ∈ needing /\ p ∈ needing /\
       CooperativeFetchPeer_CanFetchWAN f = true /\ fetches_wan (cooperative_id f) ∈ assignments /\
       rtc (linked (cooperative_index needing)) root f /\ rtc (linked (cooperative_index needing)) root p).
Proof.
  cbv zeta. destruct (plan_cover req) as [Hn Hcov]. split; [done|]. split; [done|].
  destruct (grouped_all (cooperativeNeedingPeers (CooperativeBlockFetchRequest_Peers req))) as [_ _ Hr _ _ _].
  set (needing := cooperativeNeedingPeers _) in *. set (groups := cooperativeLocalGroups needing) in *.
  - intros a Ha. apply elem_of_plan in Ha as (g & x & Hg & Hx & ->). rewrite assignment_id.
    destruct (Hr g Hg) as (r & _ & Hall).
    destruct (chooseCooperativeFetcher_spec g) as [(f & Ef & Hf & Hc)|[Hf _]]; [|left; by apply assignment_none].
    rewrite Ef in *. destruct (decide (cooperative_id x = cooperative_id f)) as [He|He].
    { left. unfold cooperative_assignment, eqs. rewrite (bool_decide_true (cooperative_id x = _)) by done.
      by rewrite andb_false_r. }
    right. exists r, f, x. destruct (Hall f Hf) as [Hfn Hrf], (Hall x Hx) as [Hxn Hrx].
    split_and!; [|done..| |done|done].
    + apply assignment_other; [|done]. by apply cooperativeNeedingPeers_elem in Hfn as (_ & ? & _).
    + apply elem_of_plan. exists g, f. by rewrite Ef, assignment_self.
Qed.

(** With mutual neighbour lists the group of a peer is what it is connected to. *)
Lemma group_of peers p : mutual peers -> p ∈ peers -> exists g, g ∈ cooperativeLocalGroups peers /\
  (forall x, x ∈ g <-> rtc (linked (cooperative_index peers)) p x) /\ StronglySorted (not_after cooperative_lt) g /\
  forall x, x ∈ g -> x ∈ peers.
Proof.
  intros Hm Hp. destruct (grouped_all peers) as [Hs Hn Hr Hst Hd Hc]. specialize (Hd p Hp). rewrite Hs in Hd.
  apply elem_of_ids in Hd as (p' & (g & Hp' & Hg)%list_elem_of_join & Hid). destruct (Hr g Hg) as (r & Hrp & Hall).
  assert (p' = p) as -> by (apply (NoDup_fmap_elem cooperative_id peers); [apply Hm|by apply Hall|done..]).
  exists g. split; [done|]. split; [|split; [by apply Hst|intros x Hx; by apply Hall]]. intros x. split.
  - intros Hx. trans r; [|by apply Hall]. apply connected_sym; [done..|by apply Hall].
  - clear -Hc Hm Hg Hp'. induction 1 as [|x y z Hxy Hyz IH]; [done|]. apply IH. by apply (Hc Hm g x y).
Qed.

(** Peers that list each other as neighbours share one download: in what a peer is
    connected to, the least peer that can fetch the block does, and all the others take
    it from there; where nobody can, everybody is told to fetch. *)
Theorem PlanCooperativeBlockFetch_one_fetcher req p :
  let needing := cooperativeNeedingPeers (CooperativeBlockFetchRequest_Peers req) in
  let assignments := CooperativeBlockFetchPlan_Assignments (PlanCooperativeBlockFetch req) in
  let connected := rtc (linked (cooperative_index needing)) p in
  mutual needing -> p ∈ needing ->
  (exists f, connected f /\ CooperativeFetchPeer_CanFetchWAN f = true /\ fetches_wan (cooperative_id f) ∈ assignments /\
     (forall q, connected q -> CooperativeFetchPeer_CanFetchWAN q = true -> str_lt (cooperative_id q) (cooperative_id f) = false) /\
     (forall q, connected q -> q <> f -> fetches_from (cooperative_id q) (cooperative_id f) ∈ assignments)) \/
  (forall q, connected q -> CooperativeFetchPeer_CanFetchWAN q = false /\ fetches_wan (cooperative_id q) ∈ assignments).
Proof.
  cbv zeta. set (needing := cooperativeNeedingPeers _). intros Hm Hp.
  destruct (group_of needing p Hm Hp) as (g & Hg & Hel & Hst & Hsub).
  assert (Hplan : forall q, q ∈ g -> cooperative_assignment (chooseCooperativeFetcher g) q ∈
    CooperativeBlockFetchPlan_Assignments (PlanCooperativeBlockFetch req)).
  { intros q Hq. apply elem_of_plan. by exists g, q. }
  destruct (chooseCooperativeFetcher_spec g) as [(f & Ef & Hf & Hc)|[Hf Hno]].
  - left. exists f. rewrite Ef in Hplan. split_and!; [by apply Hel|done| | |].
    + rewrite <- assignment_self. by apply Hplan.
    + intros q Hq%Hel Hcq. rewrite <- Ef. by apply chooseCooperativeFetcher_least.
    + intros q Hq%Hel Hne. rewrite <- assignment_other; [by apply Hplan| |].
      * pose proof (Hsub f Hf) as Hfn. by apply cooperativeNeedingPeers_elem in Hfn as (_ & ? & _).
      * intros He. apply Hne. apply (NoDup_fmap_elem cooperative_id needing); [apply Hm|by apply Hsub..|done].
  - right. intros q Hq%Hel. split; [by apply Hno|]. rewrite <- (assignment_none _ _ Hf). by apply Hplan.
Qed.

Lemma local_pulls_spec pulls seen acc : (forall id, id ∈ seen <-> id ∈ acc) -> NoDup acc ->
  NoDup (foldl local_pull_step (seen, acc) pulls).2 /\
  forall id, id ∈ (foldl local_pull_step (seen, acc) pulls).2 <-> id ∈ acc \/
    (id <> EmptyString /\ exists pull, pull ∈ pulls /\ PeerPull_PeerID pull = id /\
      PeerPull_Network pull = LocalNetwork /\ PeerPull_Path pull = DirectPath).
Proof.
  revert seen acc. induction pulls as [|q pulls IH]; intros seen acc Hs Hn.
  - split; [done|]. intros id. split; [by left|]. intros [?|(_ & pull & Hp & _)]; [done|]. by apply elem_of_nil in Hp.
  - cbn [foldl]. unfold local_pull_step at 2 4. set (k := PeerPull_PeerID q).
    set (b := eqs k EmptyString || _ || _ || _).
    assert (Hb : (b = false) <-> (k <> EmptyString /\ (k ∉ acc) /\ PeerPull_Network q = LocalNetwork /\ PeerPull_Path q = DirectPath)).
    { unfold b, eqs. rewrite !orb_false_iff, !negb_false_iff, !bool_decide_eq_false, !bool_decide_eq_true, Hs. tauto. }
    destruct b.
    + destruct (IH seen acc Hs Hn) as [H1 H2]. split; [done|]. intros id. rewrite H2. split.
      * intros [?|(Hne & pull & Hp & ?)]; [by left|]. right. split; [done|]. exists pull. split; [by right|done].
      * intros [?|(Hne & pull & [->|Hp]%elem_of_cons & Hid & Hnet & Hpath)]; [by left| |].
        -- destruct (decide (id ∈ acc)) as [?|Hni]; [by left|]. assert (true = false) by (apply Hb; by subst). done.
        -- right. split; [done|]. by exists pull.
    + destruct (proj1 Hb eq_refl) as (Hk & Hni & Hnet & Hpath).
      destruct (IH ({[k]} ∪ seen) (acc ++ [k])) as [H1 H2].
      * intros id. rewrite elem_of_union, elem_of_singleton, elem_of_app, list_elem_of_singleton, Hs. tauto.
      * apply NoDup_app. split_and!; [done| |apply NoDup_singleton]. by intros x Hx ->%list_elem_of_singleton.
      * split; [done|]. intros id. rewrite H2, elem_of_app, list_elem_of_singleton. split.
        -- intros [[?| ->]|(Hne & pull & Hp & ?)]; [by left| |].
           ++ right. split; [done|]. exists q. split; [by left|done].
           ++ right. split; [done|]. exists pull. split; [by right|done].
        -- intros [?|(Hne & pull & [->|Hp]%elem_of_cons & Hid & ?)]; [by do 2 left|left; by right|].
           right. split; [done|]. by exists pull.
Qed.

Definition local_peer (ids : list string) (id : string) : CooperativeFetchPeer :=
  mkCooperativeFetchPeer id LocalNetwork true true (otherLocalPeerIDs id ids).

Lemma otherLocalPeerIDs_elem id ids k : k ∈ otherLocalPeerIDs id ids <-> k ∈ ids /\ k <> id.
Proof. unfold otherLocalPeerIDs, eqs. by rewrite elem_of_List_filter, negb_true_iff, bool_decide_eq_false. Qed.

Lemma local_peers_index ids k p : NoDup ids -> cooperative_index (local_peer ids <$> ids) !! k = Some p <->
  k ∈ ids /\ p = local_peer ids k.
Proof.
  intros Hn. assert (Hid : cooperative_id <$> (local_peer ids <$> ids) = ids) by (rewrite <- list_fmap_compose; apply list_fmap_id).
  split.
  - intros H. apply cooperative_index_from in H as [(k' & -> & Hk)%list_elem_of_fmap <-]. done.
  - intros [Hk ->]. apply (cooperative_index_nodup _ (local_peer ids k)); [by rewrite Hid|by apply list_elem_of_fmap_2].
Qed.

Lemma local_peers_linked ids x y : NoDup ids ->
  linked (cooperative_index (local_peer ids <$> ids)) (local_peer ids x) y <-> y <> local_peer ids x /\ exists k, k ∈ ids /\ y = local_peer ids k.
Proof.
  intros Hn. unfold linked. setoid_rewrite (local_peers_index ids _ _ Hn). setoid_rewrite otherLocalPeerIDs_elem. split.
  - intros (_ & _ & k & (Hk & Hne) & _ & ->). split; [|by exists k]. intros H. by injection H.
  - intros (Hne & k & Hk & ->). split_and!; [done..|]. exists k. split_and!; [done| |done..]. congruence.
Qed.

Lemma local_peers_mutual ids : NoDup ids -> mutual (local_peer ids <$> ids).
Proof.
  intros Hn. split; [by rewrite <- list_fmap_compose, list_fmap_id|].
  intros x y (k & -> & Hk)%list_elem_of_fmap (Hne & k' & Hk' & ->)%local_peers_linked; [|done].
  apply local_peers_linked; [done|]. split; [congruence|by exists k].
Qed.

(** A plan is determined by its assignments, one for each peer that needs the block. *)
Lemma plan_unique req l :
  StronglySorted (not_after (last_key CooperativeFetchAssignment_PeerID str_lt)) l ->
  NoDup (CooperativeFetchAssignment_PeerID <$> l) ->
  (forall a, a ∈ l -> a ∈ CooperativeBlockFetchPlan_Assignments (PlanCooperativeBlockFetch req)) ->
  (forall p, p ∈ cooperativeNeedingPeers (CooperativeBlockFetchRequest_Peers req) ->
     cooperative_id p ∈ CooperativeFetchAssignment_PeerID <$> l) ->
  CooperativeBlockFetchPlan_Assignments (PlanCooperativeBlockFetch req) = l.
Proof.
  intros Hs Hn Hin Hall. destruct (plan_cover req) as [Hna Hcov]. set (A := CooperativeBlockFetchPlan_Assignments _) in *.
  assert (HAs : StronglySorted (not_after (last_key CooperativeFetchAssignment_PeerID str_lt)) A).
  { unfold A, PlanCooperativeBlockFetch. destruct (cooperativeNeedingPeers _); [constructor|]. cbn. apply sort_by_sorted. apply _. }
  apply (StronglySorted_unique_strong (not_after (last_key CooperativeFetchAssignment_PeerID str_lt))); [|done..|].
  - intros x y Hx Hy Hxy Hyx. apply (NoDup_fmap_elem CooperativeFetchAssignment_PeerID A); [done..|by apply Hin|].
    by apply st_conn.
  - apply NoDup_Permutation; [by eapply NoDup_fmap_1|by eapply NoDup_fmap_1|]. intros a. split; [|by apply Hin].
    intros Ha. assert (Hid : CooperativeFetchAssignment_PeerID a ∈ CooperativeFetchAssignment_PeerID <$> A) by by apply list_elem_of_fmap_2.
    apply Hcov in Hid as (p & Ep & Hp)%list_elem_of_fmap. apply Hall in Hp as (b & Eb & Hb)%list_elem_of_fmap.
    assert (a = b) as ->; [|done].
    apply (NoDup_fmap_elem CooperativeFetchAssignment_PeerID A); [done..|by apply Hin|congruence].
Qed.

Lemma local_peers_plan blockID l : NoDup l -> StronglySorted (not_after str_lt) l -> (forall id, id ∈ l -> id <> EmptyString) ->
  CooperativeBlockFetchPlan_Assignments (PlanCooperativeBlockFetch (mkCooperativeBlockFetchRequest blockID (local_peer l <$> l))) =
  match l with [] => [] | first :: rest => fetches_wan first :: ((fun id => fetches_from id first) <$> rest) end.
Proof.
  intros Hn Hs Hne. set (req := mkCooperativeBlockFetchRequest _ _). set (peers := local_peer l <$> l).
  assert (Hps : StronglySorted (not_after cooperative_lt) peers) by (apply sorted_by_key; unfold peers; by rewrite <- list_fmap_compose, list_fmap_id).
  assert (Hneed : cooperativeNeedingPeers (CooperativeBlockFetchRequest_Peers req) = peers).
  { cbn. unfold cooperativeNeedingPeers. rewrite forallb_filter_id; [by apply sort_by_sorted_id|].
    apply forallb_forall. intros p (k & -> & Hk)%list_elem_of_In%list_elem_of_fmap. cbn.
    unfold eqs. by rewrite bool_decide_false by by apply Hne. }
  assert (Hm : mutual peers) by by apply local_peers_mutual.
  destruct l as [|first rest]; [done|]. set (l := first :: rest) in *.
  assert (Hfirst : local_peer l first ∈ peers) by (apply list_elem_of_fmap_2; by left).
  destruct (group_of peers _ Hm Hfirst) as (g & Hg & Hel & Hgs & Hsub).
  assert (Hall : forall k, k ∈ l -> local_peer l k ∈ g).
  { intros k Hk. apply Hel. destruct (decide (k = first)) as [->|Hk']; [done|].
    apply rtc_once, local_peers_linked; [done|]. split; [intros H; by injection H|by exists k]. }
  assert (Hfetch : chooseCooperativeFetcher g = local_peer l first).
  { destruct (chooseCooperativeFetcher_spec g) as [(f & <- & Hf & _)|[_ Hno]].
    2: { by specialize (Hno _ (Hall first (list_elem_of_here _ _))). }
    pose proof (chooseCooperativeFetcher_least g (local_peer l first) Hgs (Hall first (list_elem_of_here _ _)) eq_refl) as Hlt.
    apply Hsub in Hf as (k & Ek & Hk)%list_elem_of_fmap. rewrite Ek in *. f_equal. cbn in Hlt.
    apply st_conn; [|done]. apply StronglySorted_inv in Hs as [_ Hs]. rewrite Forall_forall in Hs.
    apply elem_of_cons in Hk as [->|Hk]; [apply sw_irrefl|]. by apply Hs. }
  assert (Hrest : first ∉ rest) by (apply NoDup_cons in Hn; tauto).
  assert (Hids : CooperativeFetchAssignment_PeerID <$> fetches_wan first :: ((fun id => fetches_from id first) <$> rest) = l)
    by (rewrite fmap_cons, <- list_fmap_compose; unfold l; f_equal; apply list_fmap_id).
  apply plan_unique.
  - apply sorted_by_key. by rewrite Hids.
  - by rewrite Hids.
  - intros a Ha. apply elem_of_plan. rewrite Hneed. exists g.
    apply elem_of_cons in Ha as [->|(k & -> & Hk)%list_elem_of_fmap].
    + exists (local_peer l first). rewrite Hfetch, assignment_self. split_and!; [done|apply Hall; by left|done].
    + exists (local_peer l k). rewrite Hfetch, assignment_other.
      * split_and!; [done|apply Hall; by right|done].
      * apply Hne. by left.
      * cbn. by intros ->.
  - rewrite Hneed, Hids. by intros p (k & -> & Hk)%list_elem_of_fmap.
Qed.

Lemma plan_header req :
  let plan := PlanCooperativeBlockFetch req in
  CooperativeBlockFetchPlan_BlockID plan = CooperativeBlockFetchRequest_BlockID req /\
  (existsb (fun a => eqs (CooperativeFetchAssignment_Action a) CooperativeFetchLocal) (CooperativeBlockFetchPlan_Assignments plan) = true ->
   CooperativeBlockFetchPlan_Reason plan = ReasonCooperativeLocalRedistribution).
Proof. cbv zeta. unfold PlanCooperativeBlockFetch. destruct (cooperativeNeedingPeers _); [done|]. cbn. by split; [|intros ->]. Qed.

(** One pass over several direct peers on the local network: the least identifier
    fetches, all the others take the block from it; with fewer than two such peers
    there is no plan. *)
Theorem PlanCooperativeBlockFetches_spec folderID pulls :
  let local := sort_by str_lt (localPeerIDs pulls) in
  NoDup local /\
  (forall id, id ∈ local <-> id <> EmptyString /\ exists pull, pull ∈ pulls /\ PeerPull_PeerID pull = id /\
     PeerPull_Network pull = LocalNetwork /\ PeerPull_Path pull = DirectPath) /\
  PlanCooperativeBlockFetches folderID pulls =
    match local with
    | first :: (_ :: _) as rest =>
        [mkCooperativeBlockFetchPlan (folderID +:+ ":live-transfer-pass")
           (fetches_wan first :: ((fun id => fetches_from id first) <$> rest)) ReasonCooperativeLocalRedistribution]
    | _ => []
    end.
Proof.
  cbv zeta. destruct (local_pulls_spec pulls ∅ []) as [Hn Hel]; [set_solver|apply NoDup_nil_2|].
  fold (localPeerIDs pulls) in Hn, Hel. unfold PlanCooperativeBlockFetches.
  rewrite <- (length_sort_by str_lt (localPeerIDs pulls)).
  assert (Hns : NoDup (sort_by str_lt (localPeerIDs pulls))) by by rewrite sort_by_perm.
  assert (Hs : StronglySorted (not_after str_lt) (sort_by str_lt (localPeerIDs pulls))) by (apply sort_by_sorted; apply _).
  assert (Hels : forall id, id ∈ sort_by str_lt (localPeerIDs pulls) <-> id <> EmptyString /\ exists pull, pull ∈ pulls /\
    PeerPull_PeerID pull = id /\ PeerPull_Network pull = LocalNetwork /\ PeerPull_Path pull = DirectPath).
  { intros id. rewrite elem_of_sort_by, Hel. split; [|by right]. intros [H|H]; [by apply elem_of_nil in H|done]. }
  split; [done|]. split; [done|]. revert Hns Hs Hels. generalize (sort_by str_lt (localPeerIDs pulls)) as l.
  intros l Hns Hs Hels. destruct l as [|first [|second rest]]; [done..|]. cbn [length].
  rewrite (proj2 (Nat.ltb_ge _ _)) by lia. set (l := first :: second :: rest) in *.
  pose proof (local_peers_plan (folderID +:+ ":live-transfer-pass") l Hns Hs (fun id H => proj1 (proj1 (Hels id) H))) as Hp.
  change ((fun id => mkCooperativeFetchPeer id LocalNetwork true true (otherLocalPeerIDs id l)) <$> l) with (local_peer l <$> l).
  destruct (plan_header (mkCooperativeBlockFetchRequest (folderID +:+ ":live-transfer-pass") (local_peer l <$> l))) as [Hb Hr].
  destruct (PlanCooperativeBlockFetch _) as [b a r] eqn:Eplan. cbn in Hp, Hb, Hr |- *. subst a b.
  rewrite Hr by done. done.
Qed.

(** ** The choice of a source *)

(** Nothing sorts before [x]: its key is least, and the later keys decide ties. *)
Lemma by_key_least {A} (key : A -> Z) rest (x y : A) :
  by_key key Z.ltb rest y x = false <-> key x < key y \/ (key x = key y /\ rest y x = false).
Proof. unfold by_key. case_decide; [|rewrite Z.ltb_ge]; split; intros; try lia; intuition (congruence || lia). Qed.

Lemma offers_spec req c :
  c ∈ List.filter (offers (SourceSelectionRequest_ContentID req)) (SourceSelectionRequest_Candidates req) <->
  c ∈ SourceSelectionRequest_Candidates req /\ CandidateSource_Reachable c = true /\
  CandidateSource_ContentID c = SourceSelectionRequest_ContentID req.
Proof. rewrite elem_of_List_filter. unfold offers, eqs. by rewrite andb_true_iff, bool_decide_eq_true. Qed.

Lemma relayCarrierPeers_spec matches c : c ∈ matches -> (CandidateSource_PeerID c ∈ relayCarrierPeers matches <->
  CandidateSource_PeerID c <> EmptyString /\ exists d, d ∈ matches /\ CandidateSource_RelayViaPeerID d = CandidateSource_PeerID c).
Proof.
  intros Hc. unfold relayCarrierPeers, eqs. rewrite elem_of_list_to_set, elem_of_List_filter, list_elem_of_fmap, andb_true_iff,
    negb_true_iff, bool_decide_eq_false, bool_decide_eq_true, elem_of_list_to_set, list_elem_of_fmap. split.
  - intros ((d & Ed & Hd) & Hne & _). split; [done|]. by exists d.
  - intros (Hne & d & Hd & Ed). split; [by exists d|]. split; [done|]. by exists c.
Qed.

Lemma prefer_lt {A} (test : A -> bool) (x y : A) : prefer test x < prefer test y <-> test x = true /\ test y = false.
Proof. unfold prefer. destruct (test x), (test y); split; intros; try lia; try done; by destruct_and?. Qed.

Lemma prefer_eq {A} (test : A -> bool) (x y : A) : prefer test x = prefer test y <-> (test x = true <-> test y = true).
Proof. unfold prefer. destruct (test x), (test y); split; intros; try lia; try done; naive_solver. Qed.

(** The choice is an offer nothing sorts before. *)
Lemma ChooseTransferSource_min req :
  let matches := List.filter (offers (SourceSelectionRequest_ContentID req)) (SourceSelectionRequest_Candidates req) in
  match ChooseTransferSource req with
  | None => matches = []
  | Some choice => SourceChoice_CandidateSource choice ∈ matches /\
      forall d, d ∈ matches -> source_lt (relayCarrierPeers matches) d (SourceChoice_CandidateSource choice) = false
  end.
Proof.
  cbv zeta. unfold ChooseTransferSource. destruct (sort_by _ _) as [|c l] eqn:E; [by apply sort_by_nil_inv in E|].
  apply sort_by_head in E; [done|apply _].
Qed.

(** The chosen source is reachable and holds the content, and no other such source has
    a better path; among equally good paths, a better network; then one that carries
    other candidates; then a smaller identifier.  The reason tells what it was chosen
    over.  Without a choice nobody reachable holds the content. *)
Theorem ChooseTransferSource_best req :
  let holds c := c ∈ SourceSelectionRequest_Candidates req /\ CandidateSource_Reachable c = true /\
    CandidateSource_ContentID c = SourceSelectionRequest_ContentID req in
  let carrier p := CandidateSource_PeerID p <> EmptyString /\
    exists d, holds d /\ CandidateSource_RelayViaPeerID d = CandidateSource_PeerID p in
  match ChooseTransferSource req with
  | None => forall c, ~ holds c
  | Some choice =>
      let c := SourceChoice_CandidateSource choice in
      holds c /\
      (forall d, holds d ->
         pathRank (CandidateSource_Path c) < pathRank (CandidateSource_Path d) \/
         (pathRank (CandidateSource_Path c) = pathRank (CandidateSource_Path d) /\
          (networkRank (CandidateSource_Network c) < networkRank (CandidateSource_Network d) \/
           (networkRank (CandidateSource_Network c) = networkRank (CandidateSource_Network d) /\
            ((carrier c /\ ~ carrier d) \/
             ((carrier c <-> carrier d) /\ str_lt (CandidateSource_PeerID d) (CandidateSource_PeerID c) = false)))))) /\
      (SourceChoice_Reason choice = ReasonRelayCarrierPreferred <-> carrier c) /\
      (SourceChoice_Reason choice = ReasonLocalPreferred -> CandidateSource_Network c = LocalNetwork /\
         exists d, holds d /\ CandidateSource_Network d <> LocalNetwork) /\
      (SourceChoice_Reason choice = ReasonDirectPreferred -> CandidateSource_Path c = DirectPath /\
         exists d, holds d /\ (CandidateSource_Path d = RelayPath \/ CandidateSource_Path d = MeshRelayPath))
  end.
Proof.
  cbv zeta. unfold ChooseTransferSource. pose proof (offers_spec req) as Hoff.
  set (matches := List.filter _ _) in *. destruct (sort_by _ _) as [|c l] eqn:E.
  { apply sort_by_nil_inv in E. intros c Hc%Hoff. rewrite E in Hc. by apply elem_of_nil in Hc. }
  apply sort_by_head in E as [Hc Hmin]; [|apply _]. cbn [SourceChoice_CandidateSource SourceChoice_Reason].
  assert (Hcar : forall p, p ∈ matches -> (CandidateSource_PeerID p ∈ relayCarrierPeers matches <->
    CandidateSource_PeerID p <> EmptyString /\ exists d, (d ∈ SourceSelectionRequest_Candidates req /\ CandidateSource_Reachable d = true /\
      CandidateSource_ContentID d = SourceSelectionRequest_ContentID req) /\ CandidateSource_RelayViaPeerID d = CandidateSource_PeerID p)).
  { intros p Hp. rewrite relayCarrierPeers_spec by done. by setoid_rewrite Hoff. }
  split; [by apply Hoff|]. split.
  - intros d Hd%Hoff. specialize (Hmin d Hd). unfold source_lt in Hmin.
    rewrite by_key_least, by_key_least, by_key_least, prefer_lt, prefer_eq in Hmin.
    rewrite !bool_decide_eq_true, bool_decide_eq_false in Hmin. by rewrite !Hcar in Hmin.
  - destruct (bool_decide_reflect (CandidateSource_PeerID c ∈ relayCarrierPeers matches)) as [Hin|Hin].
    + rewrite Hcar in Hin by done. assert (hasPeerBehindRelay matches (CandidateSource_PeerID c) = true) as ->.
      { destruct Hin as (_ & d & Hd & Hv). unfold hasPeerBehindRelay, eqs. apply existsb_exists. exists d.
        rewrite <- list_elem_of_In, bool_decide_eq_true. by split; [apply Hoff|]. }
      cbn [andb]. split_and!; [by split|done..].
    + rewrite Hcar in Hin by done. cbn [andb]. destruct (eqs (CandidateSource_Network c) LocalNetwork && _) eqn:El.
      { apply andb_true_iff in El as [Hl (d & Hd & Hn)%existsb_exists]. split_and!; [by split| |done].
        intros _. unfold eqs in *. rewrite bool_decide_eq_true in Hl. split; [done|]. exists d.
        rewrite negb_true_iff, bool_decide_eq_false in Hn. split; [|done]. by apply Hoff, list_elem_of_In. }
      destruct (eqs (CandidateSource_Path c) DirectPath && _) eqn:Ed; [|by split_and!].
      apply andb_true_iff in Ed as [Hl (d & Hd & Hn)%existsb_exists]. split_and!; [by split|done|].
      intros _. unfold eqs in *. rewrite bool_decide_eq_true in Hl. split; [done|]. exists d.
      rewrite orb_true_iff, !bool_decide_eq_true in Hn. split; [|done]. by apply Hoff, list_elem_of_In.
Qed.

(** ** The class of an IPv4 address *)

(** Without hints an IPv4 address is classified by its first two bytes. *)
Theorem classifyIP_v4 a b c d port :
  classifyIP (v4_mapped [a; b; c; d]) port noHints =
  if (a =? 100) && (64 <=? b) && (b <=? 127) then VPNNetwork
  else if (a =? 172) && (17 <=? b) && (b <=? 31) then ContainerBridgeNetwork
  else if (a =? 127) || (a =? 10) || ((a =? 172) && (Z.land b 240 =? 16)) || ((a =? 192) && (b =? 168)) || ((a =? 169) && (b =? 254))
  then LocalNetwork else WANNetwork.
Proof.
  unfold classifyIP, isVPNOverlayIP, isDockerBridgeIP, IsLoopback, IsPrivate, IsLinkLocalUnicast.
  change (To4 (v4_mapped [a; b; c; d])) with (Some [a; b; c; d]). cbn -[Z.leb Z.eqb Z.land].
  unfold ipInPublishedPortMappings. cbn [existsb]. rewrite andb_false_r.
  replace (bool_decide (Some a = Some 127)) with (a =? 127); [by rewrite !orb_assoc|].
  apply eq_true_iff_eq. rewrite Z.eqb_eq, bool_decide_eq_true. split; [by intros ->|by intros [= ->]].
Qed.

Definition demo_request : CooperativeBlockFetchRequest :=
  mkCooperativeBlockFetchRequest "b" (local_peer ["alice"; "bob"] <$> ["alice"; "bob"]).

Lemma one_fetcher_witness :
  mutual (cooperativeNeedingPeers (CooperativeBlockFetchRequest_Peers demo_request)) /\
  exists f, CooperativeFetchPeer_CanFetchWAN f = true /\
    fetches_wan (cooperative_id f) ∈ CooperativeBlockFetchPlan_Assignments (PlanCooperativeBlockFetch demo_request).
Proof.
  assert (Hneed : cooperativeNeedingPeers (CooperativeBlockFetchRequest_Peers demo_request) = local_peer ["alice"; "bob"] <$> ["alice"; "bob"])
    by (vm_compute; reflexivity).
  assert (Hm : mutual (cooperativeNeedingPeers (CooperativeBlockFetchRequest_Peers demo_request))).
  { rewrite Hneed. apply local_peers_mutual. apply (bool_decide_unpack _). vm_compute. exact I. }
  split; [exact Hm|]. pose proof (PlanCooperativeBlockFetch_one_fetcher demo_request (local_peer ["alice"; "bob"] "alice") Hm) as Hone.
  destruct Hone as [(f & _ & Hc & Hin & _)|Hno].
  - rewrite Hneed. apply list_elem_of_fmap_2. left.
  - exists f. split; [exact Hc|exact Hin].
  - exfalso. destruct (Hno (local_peer ["alice"; "bob"] "alice") (rtc_refl _ _)) as [H _]. discriminate H.
Defined.
