(* ===== verification/RoutingPaths.v ===== *)
(** * Candidate endpoints, management paths and negotiation paths

    The rest of [internal/routing]: merging endpoints into an ordered list of
    candidates and diagnosing degraded ones, the helper for a peer-assisted direct
    session, the path of a management command, the plan of one tick for pending
    settings changes, and the search for a chain of control links to a peer.  A zero
    [time.Time] is [None]; [time.Now] is an argument. *)

From S2P Require Import Prelude GoStd GoNet Routing.
From stdpp Require Import relations.

Local Open Scope Z_scope.

(** ** Peer-assisted direct sessions ([nat_traversal.go]) *)

Definition NATReasonPeerAssistedDirect : string := "peer_assisted_direct".

Record NATAssistPeer := mkNATAssistPeer {
  NATAssistPeer_PeerID : string;
  NATAssistPeer_PublicEndpoint : string;
  NATAssistPeer_Reachable : bool;
  NATAssistPeer_CanReachPeerIDs : list string
}.

Record NATPunchRequest := mkNATPunchRequest {
  NATPunchRequest_LocalPeerID : string;
  NATPunchRequest_TargetPeerID : string;
  NATPunchRequest_TargetDirectReachable : bool;
  NATPunchRequest_AssistPeers : list NATAssistPeer
}.

Record NATPunchPlan := mkNATPunchPlan {
  NATPunchPlan_TargetPeerID : string;
  NATPunchPlan_AssistPeerID : string;
  NATPunchPlan_AssistEndpoint : string;
  NATPunchPlan_Reason : string
}.

Definition peerCanReach (peer : NATAssistPeer) (peerID : string) : bool :=
  existsb (fun candidate => eqs candidate peerID) (NATAssistPeer_CanReachPeerIDs peer).

Definition assists (req : NATPunchRequest) (peer : NATAssistPeer) : bool :=
  let id := NATAssistPeer_PeerID peer in
  NATAssistPeer_Reachable peer && negb (eqs id EmptyString)
  && negb (eqs id (NATPunchRequest_LocalPeerID req)) && negb (eqs id (NATPunchRequest_TargetPeerID req))
  && peerCanReach peer (NATPunchRequest_LocalPeerID req) && peerCanReach peer (NATPunchRequest_TargetPeerID req).

Definition assist_lt : NATAssistPeer -> NATAssistPeer -> bool :=
  by_key NATAssistPeer_PublicEndpoint str_lt (last_key NATAssistPeer_PeerID str_lt).

(** Both ends are named and differ. *)
Definition two_ends (local target : string) : bool :=
  negb (eqs local EmptyString) && negb (eqs target EmptyString) && negb (eqs local target).

Definition PlanNATPunch (req : NATPunchRequest) : option NATPunchPlan :=
  if NATPunchRequest_TargetDirectReachable req
     || negb (two_ends (NATPunchRequest_LocalPeerID req) (NATPunchRequest_TargetPeerID req)) then None
  else match sort_by assist_lt (List.filter (assists req) (NATPunchRequest_AssistPeers req)) with
       | [] => None
       | chosen :: _ => Some (mkNATPunchPlan (NATPunchRequest_TargetPeerID req) (NATAssistPeer_PeerID chosen)
                                (NATAssistPeer_PublicEndpoint chosen) NATReasonPeerAssistedDirect)
       end.

(** *** A chain of control links *)

Record ControlPlaneLink := mkControlPlaneLink {
  ControlPlaneLink_FromPeerID : string;
  ControlPlaneLink_ToPeerID : string;
  ControlPlaneLink_Reachable : bool;
  ControlPlaneLink_Path : string
}.

Record ControlPlaneNegotiationRequest := mkControlPlaneNegotiationRequest {
  ControlPlaneNegotiationRequest_LocalPeerID : string;
  ControlPlaneNegotiationRequest_TargetPeerID : string;
  ControlPlaneNegotiationRequest_Links : list ControlPlaneLink
}.

Record ControlPlaneNegotiationPlan := mkControlPlaneNegotiationPlan {
  ControlPlaneNegotiationPlan_PeerPath : list string;
  ControlPlaneNegotiationPlan_ControlPlaneOnly : bool;
  ControlPlaneNegotiationPlan_Reason : string
}.

Abbreviation link_from := ControlPlaneLink_FromPeerID.
Abbreviation link_to := ControlPlaneLink_ToPeerID.

Definition usable_link (link : ControlPlaneLink) : bool :=
  ControlPlaneLink_Reachable link && two_ends (link_from link) (link_to link).

Definition link_lt : ControlPlaneLink -> ControlPlaneLink -> bool :=
  by_key link_from str_lt (by_key link_to str_lt (last_key (fun l => pathRank (ControlPlaneLink_Path l)) Z.ltb)).

(** The loop over the links at the end of [path]. *)
Definition follow_link (path : list string) (current : string) (st : gset string * list (list string))
    (link : ControlPlaneLink) : gset string * list (list string) :=
  let '(seen, queue) := st in
  if negb (eqs (link_from link) current) || bool_decide (link_to link ∈ seen) then st
  else ({[link_to link]} ∪ seen, queue ++ [path ++ [link_to link]]).

(** The loop over the queue of paths; the fuel bounds its rounds. *)
Fixpoint search_path (fuel : nat) (links : list ControlPlaneLink) (target : string)
    (seen : gset string) (queue : list (list string)) : option (list string) :=
  match fuel, queue with
  | S fuel, path :: queue =>
      let current := default EmptyString (last path) in
      if eqs current target then Some path
      else let '(seen, queue) := foldl (follow_link path current) (seen, queue) links in
           search_path fuel links target seen queue
  | _, _ => None
  end.

Definition usable_links (req : ControlPlaneNegotiationRequest) : list ControlPlaneLink :=
  sort_by link_lt (List.filter usable_link (ControlPlaneNegotiationRequest_Links req)).

(** A peer enters the queue once: there are at most as many rounds as ends of links,
    plus the first. *)
Definition PlanControlPlaneNegotiationPath (req : ControlPlaneNegotiationRequest) : option ControlPlaneNegotiationPlan :=
  let local := ControlPlaneNegotiationRequest_LocalPeerID req in
  let target := ControlPlaneNegotiationRequest_TargetPeerID req in
  if negb (two_ends local target) then None
  else
    let links := usable_links req in
    match search_path (S (length links)) links target {[local]} [[local]] with
    | Some path => Some (mkControlPlaneNegotiationPlan path true NATReasonPeerAssistedDirect)
    | None => None
    end.

(** ** Candidate endpoints ([endpoint_candidates.go]) *)

Definition EndpointSourceManual : string := "manual".
Definition EndpointSourceSidecar : string := "sidecar".
Definition EndpointSourceRendezvous : string := "rendezvous".
Definition DiagnosticContainerBridgeIsolated : string := "container_bridge_isolated".

Record EndpointObservation := mkEndpointObservation {
  EndpointObservation_PeerID : string;
  EndpointObservation_Address : string;
  EndpointObservation_Reachable : bool;
  EndpointObservation_Path : string;
  EndpointObservation_NetworkHint : string
}.

Record EndpointCandidateRequest := mkEndpointCandidateRequest {
  EndpointCandidateRequest_LocalPeerID : string;
  EndpointCandidateRequest_TargetPeerID : string;
  EndpointCandidateRequest_ManualEndpoints : list EndpointObservation;
  EndpointCandidateRequest_SidecarEndpoints : list EndpointObservation;
  EndpointCandidateRequest_AssistPeers : list NATAssistPeer;
  EndpointCandidateRequest_NetworkHints : NetworkHints
}.

Record EndpointCandidate := mkEndpointCandidate {
  EndpointCandidate_PeerID : string;
  EndpointCandidate_Address : string;
  EndpointCandidate_Path : string;
  EndpointCandidate_Network : string;
  EndpointCandidate_Reachable : bool;
  EndpointCandidate_Source : string;
  EndpointCandidate_ViaPeerID : string;
  EndpointCandidate_ControlPlaneOnly : bool
}.

Record EndpointDiagnostic := mkEndpointDiagnostic {
  EndpointDiagnostic_PeerID : string;
  EndpointDiagnostic_Code : string;
  EndpointDiagnostic_Address : string;
  EndpointDiagnostic_RoutePath : string;
  EndpointDiagnostic_Network : string;
  EndpointDiagnostic_Guidance : string
}.

Definition reachable_data (c : EndpointCandidate) : bool :=
  EndpointCandidate_Reachable c && negb (EndpointCandidate_ControlPlaneOnly c).

Definition reachable_control (c : EndpointCandidate) : bool :=
  EndpointCandidate_Reachable c && EndpointCandidate_ControlPlaneOnly c.

Definition endpointCandidateRank (c : EndpointCandidate) : Z :=
  if reachable_data c then 0 else if reachable_control c then 1 else 2.

Definition endpoint_lt : EndpointCandidate -> EndpointCandidate -> bool :=
  by_key endpointCandidateRank Z.ltb
    (by_key (fun c => pathRank (EndpointCandidate_Path c)) Z.ltb
      (by_key (fun c => networkRank (EndpointCandidate_Network c)) Z.ltb
        (by_key EndpointCandidate_PeerID str_lt
          (by_key EndpointCandidate_Address str_lt (last_key EndpointCandidate_Source str_lt))))).

Definition hasReachableDirectTarget (candidates : list EndpointCandidate) (targetPeerID : string) : bool :=
  existsb (fun c => eqs (EndpointCandidate_PeerID c) targetPeerID && EndpointCandidate_Reachable c
                    && eqs (EndpointCandidate_Path c) DirectPath && negb (EndpointCandidate_ControlPlaneOnly c)) candidates.

Definition hasReachableLocalDataCandidate (candidates : list EndpointCandidate) : bool :=
  existsb (fun c => reachable_data c && eqs (EndpointCandidate_Network c) LocalNetwork) candidates.

Definition firstContainerBridgeCandidate (candidates : list EndpointCandidate) : option EndpointCandidate :=
  List.find (fun c => eqs (EndpointCandidate_Network c) ContainerBridgeNetwork) candidates.

Definition firstReachableControlPlaneCandidate (candidates : list EndpointCandidate) : option EndpointCandidate :=
  List.find reachable_control candidates.

(** [byPeer] and [peerOrder] *)
Definition group_by_peer (st : gmap string (list EndpointCandidate) * list string) (c : EndpointCandidate) :
    gmap string (list EndpointCandidate) * list string :=
  let '(byPeer, order) := st in
  let id := EndpointCandidate_PeerID c in
  if eqs id EmptyString then st
  else (<[id := default [] (byPeer !! id) ++ [c]]> byPeer,
        match byPeer !! id with Some _ => order | None => order ++ [id] end).

Definition bridge_guidance : string := "container bridge endpoint is not reachable as true LAN; publish the daemon port and add a published-port mapping through discovery.networkHints.publishedPortMappings, localContainerGatewayIPs, or localCIDRs, or run a trusted sidecar/helper so direct local paths can be discovered before using relay/mesh".

(** The body of the second loop, for one peer. *)
Definition diagnose_peer (peerID : string) (candidates : list EndpointCandidate) : option EndpointDiagnostic :=
  if hasReachableLocalDataCandidate candidates then None
  else match firstContainerBridgeCandidate candidates with
       | None => None
       | Some container =>
           let routePath := match firstReachableControlPlaneCandidate candidates with
                            | Some relay => EndpointCandidate_Path relay
                            | None => EndpointCandidate_Path container
                            end in
           Some (mkEndpointDiagnostic peerID DiagnosticContainerBridgeIsolated (EndpointCandidate_Address container)
                   routePath ContainerBridgeNetwork bridge_guidance)
       end.

Definition DiagnoseEndpointCandidates (candidates : list EndpointCandidate) : list EndpointDiagnostic :=
  let '(byPeer, order) := foldl group_by_peer (∅, []) candidates in
  omap (fun id => diagnose_peer id (default [] (byPeer !! id))) order.

Section building.
Context (url_host_port : string -> option (string * string)).

Definition endpointCandidateFromObservation (endpoint : EndpointObservation) (source : string) (hints : NetworkHints) :
    option EndpointCandidate :=
  if eqs (EndpointObservation_PeerID endpoint) EmptyString || eqs (EndpointObservation_Address endpoint) EmptyString then None
  else
    let path := if eqs (EndpointObservation_Path endpoint) EmptyString then DirectPath else EndpointObservation_Path endpoint in
    let network := ClassifyEndpointNetworkWithHints url_host_port (EndpointObservation_Address endpoint) hints in
    let network := if eqs (EndpointObservation_NetworkHint endpoint) EmptyString then network
                   else EndpointObservation_NetworkHint endpoint in
    Some (mkEndpointCandidate (EndpointObservation_PeerID endpoint) (EndpointObservation_Address endpoint) path network
            (EndpointObservation_Reachable endpoint) source EmptyString false).

Definition rendezvousCandidate (req : EndpointCandidateRequest) : list EndpointCandidate :=
  match PlanNATPunch (mkNATPunchRequest (EndpointCandidateRequest_LocalPeerID req) (EndpointCandidateRequest_TargetPeerID req)
                        false (EndpointCandidateRequest_AssistPeers req)) with
  | Some plan =>
      [mkEndpointCandidate (EndpointCandidateRequest_TargetPeerID req) (NATPunchPlan_AssistEndpoint plan) MeshRelayPath
         (ClassifyEndpointNetworkWithHints url_host_port (NATPunchPlan_AssistEndpoint plan) (EndpointCandidateRequest_NetworkHints req))
         true EndpointSourceRendezvous (NATPunchPlan_AssistPeerID plan) true]
  | None => []
  end.

Definition BuildEndpointCandidates (req : EndpointCandidateRequest) : list EndpointCandidate :=
  let hints := EndpointCandidateRequest_NetworkHints req in
  let manual := omap (fun e => endpointCandidateFromObservation e EndpointSourceManual hints) (EndpointCandidateRequest_ManualEndpoints req) in
  let sidecar := omap (fun e => endpointCandidateFromObservation e EndpointSourceSidecar hints) (EndpointCandidateRequest_SidecarEndpoints req) in
  sort_by endpoint_lt (manual ++ sidecar ++ rendezvousCandidate req).
End building.

(** ** Management commands ([management_path.go]) *)

Record ManagementCommandPathRequest := mkManagementCommandPathRequest {
  ManagementCommandPathRequest_Purpose : string;
  ManagementCommandPathRequest_Candidates : list EndpointCandidate
}.

Record ManagementCommandPath := mkManagementCommandPath {
  ManagementCommandPath_EndpointCandidate : EndpointCandidate;
  ManagementCommandPath_Purpose : string;
  ManagementCommandPath_AllowedForManagement : bool;
  ManagementCommandPath_RelayedMayBeSlow : bool;
  ManagementCommandPath_UserMessage : string
}.

Definition relayed (c : EndpointCandidate) : bool :=
  eqs (EndpointCandidate_Path c) RelayPath || eqs (EndpointCandidate_Path c) MeshRelayPath || EndpointCandidate_ControlPlaneOnly c.

Definition managementPathRank (c : EndpointCandidate) : Z :=
  if eqs (EndpointCandidate_Path c) DirectPath && negb (EndpointCandidate_ControlPlaneOnly c) then 0
  else if relayed c then 1 else 2.

Definition management_lt : EndpointCandidate -> EndpointCandidate -> bool :=
  by_key managementPathRank Z.ltb
    (by_key (fun c => networkRank (EndpointCandidate_Network c)) Z.ltb
      (by_key EndpointCandidate_PeerID str_lt (last_key EndpointCandidate_Address str_lt))).

Definition sortManagementCandidates : list EndpointCandidate -> list EndpointCandidate := sort_by management_lt.

Definition managementCandidates (candidates : list EndpointCandidate) (peerID : string) : list EndpointCandidate :=
  List.filter (fun c => EndpointCandidate_Reachable c && (eqs peerID EmptyString || eqs (EndpointCandidate_PeerID c) peerID)) candidates.

Definition direct_message : string := "management command can use a direct encrypted control path".
Definition relayed_message : string :=
  "management command is relayed through the trusted control mesh and may take longer while messages hop between peers".

Definition PlanManagementCommandPath (req : ManagementCommandPathRequest) : option ManagementCommandPath :=
  match sortManagementCandidates (managementCandidates (ManagementCommandPathRequest_Candidates req) EmptyString) with
  | [] => None
  | choice :: _ =>
      Some (mkManagementCommandPath choice (ManagementCommandPathRequest_Purpose req) true (relayed choice)
              (if relayed choice then relayed_message else direct_message))
  end.

(** *** One tick for pending settings changes *)

Record MeshSettingsRetryChange := mkMeshSettingsRetryChange {
  MeshSettingsRetryChange_ID : string;
  MeshSettingsRetryChange_TargetNodeID : string;
  MeshSettingsRetryChange_Status : string;
  MeshSettingsRetryChange_Attempts : Z;
  MeshSettingsRetryChange_NextAttemptAt : option Z
}.

Record MeshSettingsRetryRequest := mkMeshSettingsRetryRequest {
  MeshSettingsRetryRequest_Now : option Z;
  MeshSettingsRetryRequest_MaxAttempts : Z;
  MeshSettingsRetryRequest_Changes : list MeshSettingsRetryChange;
  MeshSettingsRetryRequest_Candidates : list EndpointCandidate
}.

Record MeshSettingsRetryDelivery := mkMeshSettingsRetryDelivery {
  MeshSettingsRetryDelivery_EndpointCandidate : EndpointCandidate;
  MeshSettingsRetryDelivery_ChangeID : string;
  MeshSettingsRetryDelivery_TargetNodeID : string;
  MeshSettingsRetryDelivery_Attempt : Z;
  MeshSettingsRetryDelivery_RelayedMayBeSlow : bool;
  MeshSettingsRetryDelivery_Reason : string
}.

Record MeshSettingsRetrySkip := mkMeshSettingsRetrySkip {
  MeshSettingsRetrySkip_ChangeID : string;
  MeshSettingsRetrySkip_TargetNodeID : string;
  MeshSettingsRetrySkip_Reason : string
}.

Record MeshSettingsRetryPlan := mkMeshSettingsRetryPlan {
  MeshSettingsRetryPlan_Deliveries : list MeshSettingsRetryDelivery;
  MeshSettingsRetryPlan_Skipped : list MeshSettingsRetrySkip
}.

Definition meshSettingsRetryableStatus (status : string) : bool :=
  existsb (eqs status) [EmptyString; "queued"; "pending"; "delivered"].

Definition change_lt : MeshSettingsRetryChange -> MeshSettingsRetryChange -> bool :=
  by_key MeshSettingsRetryChange_TargetNodeID str_lt (last_key MeshSettingsRetryChange_ID str_lt).

(** The body of the loop: a delivery, or why the change is skipped. *)
Definition plan_change (req : MeshSettingsRetryRequest) (now : Z) (change : MeshSettingsRetryChange) :
    MeshSettingsRetryDelivery + MeshSettingsRetrySkip :=
  let skip reason := inr (mkMeshSettingsRetrySkip (MeshSettingsRetryChange_ID change) (MeshSettingsRetryChange_TargetNodeID change) reason) in
  if negb (meshSettingsRetryableStatus (MeshSettingsRetryChange_Status change)) then skip "terminal_status"
  else if match MeshSettingsRetryChange_NextAttemptAt change with Some at_ => now <? at_ | None => false end then skip "not_due"
  else if (0 <? MeshSettingsRetryRequest_MaxAttempts req)
          && (MeshSettingsRetryRequest_MaxAttempts req <=? MeshSettingsRetryChange_Attempts change) then skip "max_attempts_reached"
  else match PlanManagementCommandPath (mkManagementCommandPathRequest "mesh_settings_retry"
               (managementCandidates (MeshSettingsRetryRequest_Candidates req) (MeshSettingsRetryChange_TargetNodeID change))) with
       | None => skip "no_reachable_management_path"
       | Some choice =>
           inl (mkMeshSettingsRetryDelivery (ManagementCommandPath_EndpointCandidate choice) (MeshSettingsRetryChange_ID change)
                  (MeshSettingsRetryChange_TargetNodeID change) (i64 (MeshSettingsRetryChange_Attempts change + 1))
                  (ManagementCommandPath_RelayedMayBeSlow choice) (ManagementCommandPath_UserMessage choice))
       end.

Definition add_planned (plan : MeshSettingsRetryPlan) (r : MeshSettingsRetryDelivery + MeshSettingsRetrySkip) : MeshSettingsRetryPlan :=
  match r with
  | inl d => mkMeshSettingsRetryPlan (MeshSettingsRetryPlan_Deliveries plan ++ [d]) (MeshSettingsRetryPlan_Skipped plan)
  | inr s => mkMeshSettingsRetryPlan (MeshSettingsRetryPlan_Deliveries plan) (MeshSettingsRetryPlan_Skipped plan ++ [s])
  end.

(** [clock] is what [time.Now] gives. *)
Definition PlanMeshSettingsRetryDelivery (clock : Z) (req : MeshSettingsRetryRequest) : MeshSettingsRetryPlan :=
  let now := default clock (MeshSettingsRetryRequest_Now req) in
  foldl (fun plan change => add_planned plan (plan_change req now change)) (mkMeshSettingsRetryPlan [] [])
    (sort_by change_lt (MeshSettingsRetryRequest_Changes req)).

(** ** The search for a chain of links *)

Section chains.
Context (links : list ControlPlaneLink) (target : string).

(** One hop over a link. *)
Definition hop (a b : string) : Prop := exists l, l ∈ links /\ link_from l = a /\ link_to l = b.

(** [path] leads from [a] to [b], every step over a link. *)
Record chain (a : string) (path : list string) (b : string) : Prop := {
  ch_head : head path = Some a;
  ch_last : last path = Some b;
  ch_hops : forall i x y, path !! i = Some x -> path !! S i = Some y -> hop x y
}.

Lemma chain_one a : chain a [a] a.
Proof. split; [done..|]. by intros [|i] x y. Qed.

Lemma chain_snoc a path b c : chain a path b -> hop b c -> chain a (path ++ [c]) c.
Proof.
  intros [Hh Hl Hs] Hbc. split; [by destruct path|apply last_snoc|]. intros i x y Hx Hy.
  apply lookup_app_Some in Hy as [Hy|[Hge Hy]].
  - rewrite lookup_app_l in Hx by (apply lookup_lt_Some in Hy; lia). by eapply Hs.
  - apply list_lookup_singleton_Some in Hy as [Hi <-]. rewrite lookup_app_l in Hx by lia.
    rewrite last_lookup in Hl. replace (pred (length path)) with i in Hl by lia. congruence.
Qed.

Lemma chain_steps a path b : chain a path b -> nsteps hop (pred (length path)) a b.
Proof.
  revert b. induction path as [|z path IH] using rev_ind; intros b [Hh Hl Hs]; [done|].
  rewrite last_snoc in Hl. injection Hl as ->. rewrite length_app, Nat.add_comm. cbn [length plus pred].
  destruct (last path) as [y|] eqn:Ey.
  2: { apply last_None in Ey as ->. injection Hh as ->. constructor. }
  assert (Hlen : length path = S (pred (length path))) by (destruct path; [done|done]).
  rewrite Hlen. apply (nsteps_r _ _ y).
  - apply IH. split; [by destruct path|done|]. intros i x x' Hx Hx'. apply (Hs i); by apply lookup_app_l_Some.
  - apply (Hs (pred (length path))).
    + apply lookup_app_l_Some. by rewrite <- last_lookup.
    + rewrite <- Hlen. by rewrite list_lookup_middle.
Qed.

(** What the loop over the links adds for the end of a path. *)
Lemma follow_links path e l seen queue : exists ns,
  foldl (follow_link path e) (seen, queue) l = (seen ∪ list_to_set ns, queue ++ ((fun n => path ++ [n]) <$> ns)) /\
  NoDup ns /\ (forall n, n ∈ ns -> (n ∉ seen) /\ exists x, x ∈ l /\ link_from x = e /\ link_to x = n) /\
  (forall x, x ∈ l -> link_from x = e -> link_to x ∈ seen ∪ list_to_set ns).
Proof.
  revert seen queue. induction l as [|x l IH]; intros seen queue.
  - exists []. cbn. rewrite app_nil_r. split; [f_equal; set_solver|]. split; [apply NoDup_nil_2|]. split; set_solver.
  - cbn [foldl]. unfold follow_link at 2, eqs. destruct (bool_decide_reflect (link_from x = e)) as [He|He]; cbn [negb orb].
    2: { destruct (IH seen queue) as (ns & -> & Hn & H1 & H2). exists ns. split; [done|]. split; [done|].
         split; [|intros y [->|Hy]%elem_of_cons; [done|by apply H2]].
         intros n Hin. destruct (H1 n Hin) as (? & y & ? & ?). split; [done|]. exists y. split; [by right|done]. }
    destruct (bool_decide_reflect (link_to x ∈ seen)) as [Hs|Hs].
    { destruct (IH seen queue) as (ns & -> & Hn & H1 & H2). exists ns. split; [done|]. split; [done|].
      split; [|intros y [->|Hy]%elem_of_cons; [set_solver|by apply H2]].
      intros n Hin. destruct (H1 n Hin) as (? & y & ? & ?). split; [done|]. exists y. split; [by right|done]. }
    destruct (IH ({[link_to x]} ∪ seen) (queue ++ [path ++ [link_to x]])) as (ns & -> & Hn & H1 & H2).
    exists (link_to x :: ns). split; [|split; [|split]].
    + rewrite <- app_assoc. f_equal. set_solver.
    + apply NoDup_cons. split; [|done]. intros Hin. destruct (H1 _ Hin) as [Hni _]. set_solver.
    + intros n [->|Hin]%elem_of_cons; [split; [done|]; exists x; split; [by left|done]|].
      destruct (H1 n Hin) as (? & y & ? & ?). split; [set_solver|]. exists y. split; [by right|done].
    + intros y [->|Hy]%elem_of_cons Hf; [set_solver|]. specialize (H2 y Hy Hf). set_solver.
Qed.

(** The state of the search from [src]: paths of [k] or [k + 1] hops wait in order,
    all of them shortest; what is seen waits or is done; nothing within [k] hops is
    left unseen. *)
Record searching_path (src : string) (k : nat) (seen : gset string) (near far : list (list string)) : Prop := {
  sp_path : forall path, path ∈ near ++ far -> exists e, chain src path e /\
    forall j, nsteps hop j src e -> (length path <= S j)%nat;
  sp_near : forall path, path ∈ near -> length path = S k;
  sp_far : forall path, path ∈ far -> length path = S (S k);
  sp_seen : forall x, x ∈ seen -> (x <> target /\ forall y, hop x y -> y ∈ seen) \/ exists path, path ∈ near ++ far /\ last path = Some x;
  sp_all : forall j y, (j <= k)%nat -> nsteps hop j src y -> y ∈ seen
}.

(** When no path of [k] hops is left, those of [k + 1] hops come next. *)
Lemma searching_path_next src k seen far : searching_path src k seen [] far -> searching_path src (S k) seen far [].
Proof.
  intros [Hp _ Hf Hs Ha]. split; rewrite ?app_nil_r; [done..|by intros path ?%elem_of_nil|done|].
  intros j y Hj Hy. destruct (decide (j = S k)) as [->|]; [|apply (Ha j); [lia|done]].
  apply nsteps_inv_r in Hy as (z & Hz & Hzy). destruct (Hs z) as [[_ Hc]|(path & Hin & Hl)]; [by apply (Ha k)|by apply Hc|].
  destruct (Hp path Hin) as (e & He & Hmin). assert (e = z) as -> by (destruct He; congruence).
  specialize (Hmin k Hz). rewrite (Hf path Hin) in Hmin. lia.
Qed.

Lemma searching_path_round src k seen path near far e ns : chain src path e -> e <> target ->
  searching_path src k seen (path :: near) far ->
  (forall n, n ∈ ns -> (n ∉ seen) /\ hop e n) -> (forall n, hop e n -> n ∈ seen ∪ list_to_set ns) ->
  searching_path src k (seen ∪ list_to_set ns) near (far ++ ((fun n => path ++ [n]) <$> ns)).
Proof.
  intros He Ht [Hp Hn Hf Hs Ha] H1 H2. assert (Hlen : length path = S k) by (apply Hn; by left).
  assert (Hnew : forall q, q ∈ (fun n => path ++ [n]) <$> ns -> exists n, n ∈ ns /\ q = path ++ [n])
    by (intros q (n & -> & Hin)%list_elem_of_fmap; by exists n).
  split.
  - intros q. rewrite app_assoc, elem_of_app. intros [Hq|Hq]; [apply Hp; cbn; by right|].
    apply Hnew in Hq as (n & Hin & ->). destruct (H1 n Hin) as [Hni Hh]. exists n. split; [by apply (chain_snoc _ _ e)|].
    intros j Hj. rewrite length_app, Hlen. cbn. destruct (decide (j <= k)%nat) as [Hle|]; [|lia].
    exfalso. apply Hni. by apply (Ha j).
  - intros q Hq. apply Hn. by right.
  - intros q [Hq|Hq]%elem_of_app; [by apply Hf|]. apply Hnew in Hq as (n & _ & ->). rewrite length_app, Hlen. cbn. lia.
  - intros x [Hx|Hx]%elem_of_union.
    + destruct (Hs x Hx) as [[Hne Hc]|(q & Hq & Hl)]; [left; split; [done|]; intros y Hy; apply elem_of_union_l; by apply Hc|].
      apply elem_of_cons in Hq as [->|Hq].
      * destruct He as [_ He _]. assert (x = e) as -> by congruence. left. by split.
      * right. exists q. split; [|done]. rewrite app_assoc. apply elem_of_app. by left.
    + apply elem_of_list_to_set in Hx. right. exists (path ++ [x]). split; [|apply last_snoc].
      rewrite app_assoc. apply elem_of_app. right. apply list_elem_of_fmap. by exists x.
  - intros j y Hj Hy. apply elem_of_union_l. by apply (Ha j).
Qed.

Definition link_ends : gset string := list_to_set (link_to <$> links).

Definition found (src : string) (result : option (list string)) : Prop :=
  match result with
  | Some path => chain src path target /\ forall j, nsteps hop j src target -> (length path <= S j)%nat
  | None => ~ rtc hop src target
  end.

Lemma search_path_done src k seen : searching_path src k seen [] [] -> src ∈ seen -> ~ rtc hop src target.
Proof.
  intros [_ _ _ Hs _] Hsrc Hr. assert (Hcl : forall x, x ∈ seen -> x <> target /\ forall y, hop x y -> y ∈ seen).
  { intros x Hx. destruct (Hs x Hx) as [?|(path & Hp & _)]; [done|]. by apply elem_of_nil in Hp. }
  assert (Hstay : forall x y, rtc hop x y -> x ∈ seen -> y ∈ seen)
    by (induction 1 as [|x y z Hxy _ IH]; [done|]; intros Hx; by apply IH, (Hcl x)).
  by destruct (Hcl target (Hstay src target Hr Hsrc)).
Qed.

Lemma search_path_spec fuel : forall src k seen near far, searching_path src k seen near far -> src ∈ seen ->
  (size (link_ends ∖ seen) + length (near ++ far) <= fuel)%nat ->
  found src (search_path fuel links target seen (near ++ far)).
Proof.
  induction fuel as [|fuel IH]; intros src k seen near far Hinv Hsrc Hf.
  { destruct near, far; cbn in Hf; try lia. by apply (search_path_done src k seen). }
  assert (Hround : forall k path near far, searching_path src k seen (path :: near) far ->
    (size (link_ends ∖ seen) + length ((path :: near) ++ far) <= S fuel)%nat ->
    found src (search_path (S fuel) links target seen ((path :: near) ++ far))).
  { clear k near far Hinv Hf. intros k path near far Hinv Hf.
    destruct (sp_path _ _ _ _ _ Hinv path) as (e & He & Hmin); [by left|].
    cbn [search_path app]. replace (default EmptyString (last path)) with e by (destruct He as [_ -> _]; done).
    unfold eqs. destruct (bool_decide_reflect (e = target)) as [->|Ht]; [by split|].
    destruct (follow_links path e links seen (near ++ far)) as (ns & -> & Hnd & H1 & H2).
    rewrite <- app_assoc. apply (IH src k).
    - apply (searching_path_round src k seen path near far e ns); [done..|]. intros n (l & Hl & Hfrom & <-). by apply H2.
    - by apply elem_of_union_l.
    - assert (Hsub : list_to_set ns ⊆ link_ends ∖ seen).
      { intros n Hn%elem_of_list_to_set. destruct (H1 n Hn) as [Hni (l & Hl & _ & <-)]. apply elem_of_difference.
        split; [|done]. apply elem_of_list_to_set. by apply list_elem_of_fmap_2. }
      replace (link_ends ∖ (seen ∪ list_to_set ns)) with ((link_ends ∖ seen) ∖ list_to_set ns) by set_solver.
      rewrite size_difference by done. apply subseteq_size in Hsub. rewrite size_list_to_set in * by done.
      cbn in Hf. rewrite !length_app, length_fmap in *. lia. }
  destruct near as [|path near]; [|by apply (Hround k)].
  destruct far as [|path far]; [by apply (search_path_done src k seen)|].
  apply searching_path_next in Hinv. rewrite <- (app_nil_r ([] ++ path :: far)). apply (Hround (S k) path far []); [done|].
  cbn in *. rewrite app_nil_r. lia.
Qed.
End chains.

(** [C34] The negotiation path is a chain of usable links from the local peer to the target
    with as few hops as any walk between them, and there is one exactly when the target
    can be reached over usable links. *)
Theorem PlanControlPlaneNegotiationPath_shortest req :
  let local := ControlPlaneNegotiationRequest_LocalPeerID req in
  let target := ControlPlaneNegotiationRequest_TargetPeerID req in
  let links := List.filter usable_link (ControlPlaneNegotiationRequest_Links req) in
  match PlanControlPlaneNegotiationPath req with
  | Some plan =>
      ControlPlaneNegotiationPlan_ControlPlaneOnly plan = true /\ local <> EmptyString /\ local <> target /\
      chain links local (ControlPlaneNegotiationPlan_PeerPath plan) target /\
      forall j, nsteps (hop links) j local target -> (length (ControlPlaneNegotiationPlan_PeerPath plan) <= S j)%nat
  | None => local = EmptyString \/ target = EmptyString \/ local = target \/ ~ rtc (hop links) local target
  end.
Proof.
  cbv zeta. unfold PlanControlPlaneNegotiationPath. set (local := ControlPlaneNegotiationRequest_LocalPeerID req).
  set (target := ControlPlaneNegotiationRequest_TargetPeerID req).
  assert (Hhop : forall a b, hop (usable_links req) a b <-> hop (List.filter usable_link (ControlPlaneNegotiationRequest_Links req)) a b).
  { intros a b. unfold hop, usable_links. by setoid_rewrite elem_of_sort_by. }
  destruct (two_ends local target) eqn:E2; unfold two_ends, eqs in E2; cbn [negb].
  2: { rewrite !andb_false_iff, !negb_false_iff, !bool_decide_eq_true in E2. naive_solver. }
  rewrite !andb_true_iff, !negb_true_iff, !bool_decide_eq_false in E2. destruct E2 as [[Hl Ht] Hne].
  assert (Hs : searching_path (usable_links req) target local 0 {[local]} [[local]] []).
  { split; cbn.
    - intros p ->%list_elem_of_singleton. exists local. split; [apply chain_one|]. cbn. lia.
    - by intros p ->%list_elem_of_singleton.
    - by intros p ?%elem_of_nil.
    - intros x ->%elem_of_singleton. right. exists [local]. split; [by left|done].
    - intros j y Hj Hy. replace j with 0%nat in Hy by lia. inversion Hy; subst. set_solver. }
  assert (Hf := search_path_spec (usable_links req) target (S (length (usable_links req))) local 0 _ _ _ Hs).
  cbn [app] in Hf. specialize (Hf ltac:(set_solver)).
  assert (Hfuel : (size (link_ends (usable_links req) ∖ {[local]}) + length [[local]] <= S (length (usable_links req)))%nat).
  { cbn [length]. assert (H1 : (size (link_ends (usable_links req) ∖ {[local]}) <= size (link_ends (usable_links req)))%nat)
      by (apply subseteq_size; set_solver).
    assert (H2 : (size (link_ends (usable_links req)) <= length (link_to <$> usable_links req))%nat) by apply size_list_to_set_le.
    rewrite length_fmap in H2. lia. }
  specialize (Hf Hfuel). destruct (search_path _ _ _ _ _) as [path|]; cbn in Hf |- *.
  - destruct Hf as [Hc Hmin]. split_and!; [done..| |].
    + destruct Hc as [Hh Hlast Hhops]. split; [done..|]. intros i x y Hx Hy. apply Hhop. by apply (Hhops i).
    + intros j Hj. apply Hmin. by eapply (nsteps_congruence (fun x => x)); [intros x y; apply Hhop|].
  - do 3 right. intros Hr. apply Hf. revert Hr. apply rtc_subrel. intros x y. apply Hhop.
Qed.

(** The helper of a peer-assisted session is reachable, is neither end, can reach both,
    and has the least endpoint of those; there is none only when no peer can help or a
    session needs none. *)
Theorem PlanNATPunch_spec req :
  match PlanNATPunch req with
  | Some plan =>
      NATPunchRequest_TargetDirectReachable req = false /\
      NATPunchRequest_LocalPeerID req <> NATPunchRequest_TargetPeerID req /\
      exists peer, peer ∈ NATPunchRequest_AssistPeers req /\ assists req peer = true /\
        plan = mkNATPunchPlan (NATPunchRequest_TargetPeerID req) (NATAssistPeer_PeerID peer)
                 (NATAssistPeer_PublicEndpoint peer) NATReasonPeerAssistedDirect /\
        forall other, other ∈ NATPunchRequest_AssistPeers req -> assists req other = true ->
          str_lt (NATAssistPeer_PublicEndpoint other) (NATAssistPeer_PublicEndpoint peer) = false
  | None =>
      NATPunchRequest_TargetDirectReachable req = true \/ NATPunchRequest_LocalPeerID req = EmptyString \/
      NATPunchRequest_TargetPeerID req = EmptyString \/ NATPunchRequest_LocalPeerID req = NATPunchRequest_TargetPeerID req \/
      forall peer, peer ∈ NATPunchRequest_AssistPeers req -> assists req peer = false
  end.
Proof.
  unfold PlanNATPunch. destruct (NATPunchRequest_TargetDirectReachable req); [by left|]. cbn [orb].
  destruct (two_ends _ _) eqn:E2; unfold two_ends, eqs in E2; cbn [negb].
  2: { rewrite !andb_false_iff, !negb_false_iff, !bool_decide_eq_true in E2. naive_solver. }
  rewrite !andb_true_iff, !negb_true_iff, !bool_decide_eq_false in E2. destruct E2 as [_ Hne].
  destruct (sort_by _ _) as [|c l] eqn:E.
  - apply sort_by_nil_inv in E. do 4 right. intros peer Hp. destruct (assists req peer) eqn:Ea; [|done]. exfalso.
    assert (Hin : peer ∈ List.filter (assists req) (NATPunchRequest_AssistPeers req)) by by apply elem_of_List_filter.
    rewrite E in Hin. by apply elem_of_nil in Hin.
  - apply sort_by_head in E as [Hc Hmin]; [|apply _]. apply elem_of_List_filter in Hc as [Hc Ha].
    split_and!; [done..|]. exists c. split_and!; [done..|]. intros other Ho Hao.
    specialize (Hmin other (proj2 (elem_of_List_filter _ _ _) (conj Ho Hao))). unfold assist_lt, by_key in Hmin.
    case_decide as He; [|done]. rewrite He. apply sw_irrefl.
Qed.

(** ** Diagnostics *)

Lemma group_by_peer_spec cands byPeer order : (forall id, is_Some (byPeer !! id) <-> id ∈ order) -> NoDup order ->
  let '(byPeer', order') := foldl group_by_peer (byPeer, order) cands in
  NoDup order' /\ (forall id, id ∈ order' <-> id ∈ order \/ (id <> EmptyString /\ id ∈ EndpointCandidate_PeerID <$> cands)) /\
  forall id, id <> EmptyString -> default [] (byPeer' !! id) =
    default [] (byPeer !! id) ++ List.filter (fun c => eqs (EndpointCandidate_PeerID c) id) cands.
Proof.
  revert byPeer order. induction cands as [|c cands IH]; intros byPeer order Hdom Hn; cbn [foldl].
  - split; [done|]. split; [|intros id _; by rewrite app_nil_r]. intros id. cbn. rewrite elem_of_nil. tauto.
  - unfold group_by_peer at 2, eqs. destruct (bool_decide_reflect (EndpointCandidate_PeerID c = EmptyString)) as [He|He].
    + specialize (IH byPeer order Hdom Hn). destruct (foldl _ _ _) as [m o]. destruct IH as (H1 & H2 & H3).
      split; [done|]. split.
      * intros id. rewrite H2, fmap_cons, elem_of_cons. naive_solver congruence.
      * intros id Hid. rewrite (H3 id Hid). cbn. by rewrite bool_decide_false by congruence.
    + set (id0 := EndpointCandidate_PeerID c) in *.
      set (order0 := match byPeer !! id0 with Some _ => order | None => order ++ [id0] end).
      assert (Ho : forall id, id ∈ order0 <-> id ∈ order \/ id = id0).
      { intros id. unfold order0. pose proof (Hdom id0) as Hd0. destruct (byPeer !! id0) as [x|].
        - split; [by left|]. intros [?| ->]; [done|]. apply Hd0. by eexists.
        - by rewrite elem_of_app, list_elem_of_singleton. }
      specialize (IH (<[id0 := default [] (byPeer !! id0) ++ [c]]> byPeer) order0).
      destruct (foldl _ _ _) as [m o]. destruct IH as (H1 & H2 & H3).
      * intros id. rewrite Ho, <- Hdom, lookup_insert_is_Some. destruct (decide (id0 = id)) as [->|]; naive_solver.
      * unfold order0. pose proof (Hdom id0) as Hd0. destruct (byPeer !! id0) as [x|] eqn:E; [done|].
        apply NoDup_app. split_and!; [done| |apply NoDup_singleton]. intros x Hx ->%list_elem_of_singleton.
        apply Hd0 in Hx as [? ?]. done.
      * split; [done|]. split.
        -- intros id. rewrite H2, Ho, fmap_cons, elem_of_cons. fold id0. naive_solver.
        -- intros id Hid. rewrite (H3 id Hid). cbn. fold id0. rewrite lookup_insert. case_decide as Hd; [subst id|].
           ++ rewrite bool_decide_true by done. cbn. by rewrite <- app_assoc.
           ++ by rewrite bool_decide_false by done.
Qed.

Lemma diagnose_peer_id id l d : diagnose_peer id l = Some d -> EndpointDiagnostic_PeerID d = id.
Proof.
  unfold diagnose_peer. destruct (hasReachableLocalDataCandidate l); [done|].
  destruct (firstContainerBridgeCandidate l); [|done]. by intros [= <-].
Qed.

Lemma diagnose_peer_Some candidates id :
  is_Some (diagnose_peer id (List.filter (fun c => eqs (EndpointCandidate_PeerID c) id) candidates)) <->
  (exists c, c ∈ candidates /\ EndpointCandidate_PeerID c = id /\ EndpointCandidate_Network c = ContainerBridgeNetwork) /\
  ~ (exists c, c ∈ candidates /\ EndpointCandidate_PeerID c = id /\ reachable_data c = true /\ EndpointCandidate_Network c = LocalNetwork).
Proof.
  assert (Hin : forall c, c ∈ List.filter (fun c => eqs (EndpointCandidate_PeerID c) id) candidates <->
    c ∈ candidates /\ EndpointCandidate_PeerID c = id)
    by (intros c; unfold eqs; by rewrite elem_of_List_filter, bool_decide_eq_true).
  revert Hin. generalize (List.filter (fun c => eqs (EndpointCandidate_PeerID c) id) candidates) as l. intros l Hin.
  unfold diagnose_peer. destruct (hasReachableLocalDataCandidate l) eqn:El.
  - split; [by intros []|]. intros [_ []]. apply existsb_exists in El as (c & Hc & Hl). unfold eqs in Hl.
    rewrite andb_true_iff, bool_decide_eq_true in Hl. apply list_elem_of_In, Hin in Hc. exists c. naive_solver.
  - assert (Hno : ~ exists c, c ∈ candidates /\ EndpointCandidate_PeerID c = id /\ reachable_data c = true /\
      EndpointCandidate_Network c = LocalNetwork).
    { intros (c & Hc & Hid & Hr & Hn). apply not_true_iff_false in El. apply El, existsb_exists. exists c.
      unfold eqs. rewrite <- list_elem_of_In, Hin, Hr, andb_true_l, bool_decide_eq_true. done. }
    unfold firstContainerBridgeCandidate. destruct (List.find _ l) as [c|] eqn:Ef; (split; [intros Hs|intros [(c' & Hc' & Hid & Hn) _]]).
    + apply find_some in Ef as [Hc Hn]. unfold eqs in Hn. rewrite bool_decide_eq_true in Hn.
      apply list_elem_of_In, Hin in Hc. split; [|done]. exists c. naive_solver.
    + by eexists.
    + by destruct Hs.
    + exfalso. assert (Hin' : In c' l) by by apply list_elem_of_In, Hin.
      pose proof (find_none _ _ Ef c' Hin') as Hf. unfold eqs in Hf. by rewrite bool_decide_eq_false in Hf.
Qed.

(** A peer gets one diagnostic, and gets it exactly when it has an address on a
    container bridge and no reachable data endpoint on the local network. *)
Theorem DiagnoseEndpointCandidates_spec candidates :
  let diagnostics := DiagnoseEndpointCandidates candidates in
  NoDup (EndpointDiagnostic_PeerID <$> diagnostics) /\
  forall id, id ∈ EndpointDiagnostic_PeerID <$> diagnostics <-> id <> EmptyString /\
    (exists c, c ∈ candidates /\ EndpointCandidate_PeerID c = id /\ EndpointCandidate_Network c = ContainerBridgeNetwork) /\
    ~ (exists c, c ∈ candidates /\ EndpointCandidate_PeerID c = id /\ reachable_data c = true /\ EndpointCandidate_Network c = LocalNetwork).
Proof.
  cbv zeta. unfold DiagnoseEndpointCandidates.
  pose proof (group_by_peer_spec candidates ∅ []) as H. destruct (foldl _ _ _) as [m order].
  destruct H as (Hn & Ho & Hm); [intros id; rewrite lookup_empty, elem_of_nil; split; [by intros []|done]|apply NoDup_nil_2|].
  assert (Hf : forall id, id <> EmptyString ->
    default [] (m !! id) = List.filter (fun c => eqs (EndpointCandidate_PeerID c) id) candidates)
    by (intros id Hid; by rewrite (Hm id Hid), lookup_empty).
  assert (Hd : forall id d, diagnose_peer id (default [] (m !! id)) = Some d -> EndpointDiagnostic_PeerID d = id)
    by (intros id d; apply diagnose_peer_id).
  split; [by apply NoDup_omap_key|]. intros id. rewrite list_elem_of_fmap. split.
  - intros (d & -> & (id' & Hin & Hdiag)%list_elem_of_omap). rewrite (Hd _ _ Hdiag). apply Ho in Hin as [Hin|[Hne _]].
    { by apply elem_of_nil in Hin. }
    split; [done|]. apply diagnose_peer_Some. rewrite <- (Hf id' Hne). by eexists.
  - intros (Hne & Hb & Hl). destruct (proj2 (diagnose_peer_Some candidates id) (conj Hb Hl)) as [d Ed].
    exists d. assert (Hdiag : diagnose_peer id (default [] (m !! id)) = Some d) by by rewrite (Hf id Hne).
    split; [symmetry; by apply Hd|]. apply list_elem_of_omap. exists id. split; [|done]. apply Ho. right. split; [done|].
    destruct Hb as (c & Hc & <- & _). by apply list_elem_of_fmap_2.
Qed.

(** ** Management paths *)

Lemma managementCandidates_elem l peerID c : c ∈ managementCandidates l peerID <->
  c ∈ l /\ EndpointCandidate_Reachable c = true /\ (peerID = EmptyString \/ EndpointCandidate_PeerID c = peerID).
Proof.
  unfold managementCandidates, eqs. by rewrite elem_of_List_filter, andb_true_iff, orb_true_iff, !bool_decide_eq_true.
Qed.

(** A management command takes a reachable candidate of the best kind: direct, then
    relayed or control-plane-only, then the rest; it is marked slow when relayed. *)
Lemma PlanManagementCommandPath_spec req :
  match PlanManagementCommandPath req with
  | Some p =>
      let c := ManagementCommandPath_EndpointCandidate p in
      c ∈ ManagementCommandPathRequest_Candidates req /\ EndpointCandidate_Reachable c = true /\
      p = mkManagementCommandPath c (ManagementCommandPathRequest_Purpose req) true (relayed c)
            (if relayed c then relayed_message else direct_message) /\
      forall d, d ∈ ManagementCommandPathRequest_Candidates req -> EndpointCandidate_Reachable d = true ->
        managementPathRank c <= managementPathRank d
  | None => forall c, c ∈ ManagementCommandPathRequest_Candidates req -> EndpointCandidate_Reachable c = false
  end.
Proof.
  unfold PlanManagementCommandPath, sortManagementCandidates. destruct (sort_by _ _) as [|c l] eqn:E.
  - apply sort_by_nil_inv in E. intros c Hc. destruct (EndpointCandidate_Reachable c) eqn:Er; [|done]. exfalso.
    apply (not_elem_of_nil c). rewrite <- E. apply managementCandidates_elem. naive_solver.
  - apply sort_by_head in E as [Hc Hmin]; [|apply _]. apply managementCandidates_elem in Hc as (Hc & Hr & _). cbn.
    split_and!; [done..|]. intros d Hd Hrd. specialize (Hmin d). unfold management_lt in Hmin.
    rewrite managementCandidates_elem, by_key_least in Hmin. destruct Hmin as [?|[? _]]; [naive_solver|lia|lia].
Qed.

(** A change that may be tried now. *)
Definition due (req : MeshSettingsRetryRequest) (now : Z) (change : MeshSettingsRetryChange) : Prop :=
  meshSettingsRetryableStatus (MeshSettingsRetryChange_Status change) = true /\
  (forall at_, MeshSettingsRetryChange_NextAttemptAt change = Some at_ -> at_ <= now) /\
  (0 < MeshSettingsRetryRequest_MaxAttempts req ->
   MeshSettingsRetryChange_Attempts change < MeshSettingsRetryRequest_MaxAttempts req).

Definition path_to (req : MeshSettingsRetryRequest) (change : MeshSettingsRetryChange) (c : EndpointCandidate) : Prop :=
  c ∈ MeshSettingsRetryRequest_Candidates req /\ EndpointCandidate_Reachable c = true /\
  (MeshSettingsRetryChange_TargetNodeID change = EmptyString \/ EndpointCandidate_PeerID c = MeshSettingsRetryChange_TargetNodeID change).

Definition delivery_of (req : MeshSettingsRetryRequest) (change : MeshSettingsRetryChange) (d : MeshSettingsRetryDelivery) : Prop :=
  let c := MeshSettingsRetryDelivery_EndpointCandidate d in
  MeshSettingsRetryDelivery_ChangeID d = MeshSettingsRetryChange_ID change /\
  MeshSettingsRetryDelivery_TargetNodeID d = MeshSettingsRetryChange_TargetNodeID change /\
  MeshSettingsRetryDelivery_Attempt d = i64 (MeshSettingsRetryChange_Attempts change + 1) /\
  MeshSettingsRetryDelivery_RelayedMayBeSlow d = relayed c /\ path_to req change c /\
  forall c', path_to req change c' -> managementPathRank c <= managementPathRank c'.

Lemma plan_change_spec req now change :
  match plan_change req now change with
  | inl d => due req now change /\ delivery_of req change d
  | inr s => MeshSettingsRetrySkip_ChangeID s = MeshSettingsRetryChange_ID change /\
      MeshSettingsRetrySkip_TargetNodeID s = MeshSettingsRetryChange_TargetNodeID change /\
      ~ (due req now change /\ exists c, path_to req change c)
  end.
Proof.
  unfold plan_change. destruct (meshSettingsRetryableStatus _) eqn:Est; cbn [negb].
  2: { split_and!; [done..|]. intros [[? _] _]. congruence. }
  destruct (match MeshSettingsRetryChange_NextAttemptAt change with Some at_ => now <? at_ | None => false end) eqn:Enext.
  { split_and!; [done..|]. intros [(_ & Hat & _) _]. destruct (MeshSettingsRetryChange_NextAttemptAt change) as [t|]; [|done].
    specialize (Hat t eq_refl). apply Z.ltb_lt in Enext. lia. }
  destruct (_ && _) eqn:Emax.
  { split_and!; [done..|]. intros [(_ & _ & Hmax) _]. apply andb_true_iff in Emax as [?%Z.ltb_lt ?%Z.leb_le]. lia. }
  pose proof (PlanManagementCommandPath_spec (mkManagementCommandPathRequest "mesh_settings_retry"
    (managementCandidates (MeshSettingsRetryRequest_Candidates req) (MeshSettingsRetryChange_TargetNodeID change)))) as Hp.
  destruct (PlanManagementCommandPath _) as [p|]; cbn in Hp |- *.
  - destruct Hp as ((Hc & Hr & Ht)%managementCandidates_elem & _ & Hpe & Hmin). split.
    + split; [done|]. split.
      * intros t Et. rewrite Et in Enext. by apply Z.ltb_ge.
      * intros Hpos. apply andb_false_iff in Emax as [?%Z.ltb_ge|?%Z.leb_gt]; lia.
    + unfold delivery_of, path_to. cbn. split_and!; try done; [by rewrite Hpe|]. intros c' (H1 & H2 & H3).
      apply Hmin; [|done]. by apply managementCandidates_elem.
  - split_and!; [done..|]. intros [_ (c & Hc & Hr & Ht)]. rewrite (Hp c) in Hr; [done|]. by apply managementCandidates_elem.
Qed.

Lemma add_planned_all (f : MeshSettingsRetryChange -> MeshSettingsRetryDelivery + MeshSettingsRetrySkip) changes plan :
  let plan' := foldl (fun plan change => add_planned plan (f change)) plan changes in
  MeshSettingsRetryPlan_Deliveries plan' =
    MeshSettingsRetryPlan_Deliveries plan ++ omap (fun c => match f c with inl d => Some d | inr _ => None end) changes /\
  MeshSettingsRetryPlan_Skipped plan' =
    MeshSettingsRetryPlan_Skipped plan ++ omap (fun c => match f c with inl _ => None | inr s => Some s end) changes.
Proof.
  cbv zeta. revert plan. induction changes as [|c changes IH]; intros plan; cbn [foldl]; [by rewrite !app_nil_r|].
  destruct (IH (add_planned plan (f c))) as [-> ->]. unfold add_planned. cbn. destruct (f c); cbn; by rewrite <- ?app_assoc.
Qed.

(** One tick accounts for every pending change exactly once.  A change that may be
    tried and has a reachable candidate is delivered over the best of them, with its
    attempt counted; every other change is skipped. *)
Theorem PlanMeshSettingsRetryDelivery_partition clock req :
  let now := default clock (MeshSettingsRetryRequest_Now req) in
  let plan := PlanMeshSettingsRetryDelivery clock req in
  ((fun d => (MeshSettingsRetryDelivery_ChangeID d, MeshSettingsRetryDelivery_TargetNodeID d)) <$> MeshSettingsRetryPlan_Deliveries plan) ++
  ((fun s => (MeshSettingsRetrySkip_ChangeID s, MeshSettingsRetrySkip_TargetNodeID s)) <$> MeshSettingsRetryPlan_Skipped plan) ≡ₚ
  ((fun c => (MeshSettingsRetryChange_ID c, MeshSettingsRetryChange_TargetNodeID c)) <$> MeshSettingsRetryRequest_Changes req) /\
  (forall d, d ∈ MeshSettingsRetryPlan_Deliveries plan -> exists change, change ∈ MeshSettingsRetryRequest_Changes req /\
     due req now change /\ delivery_of req change d) /\
  (forall change, change ∈ MeshSettingsRetryRequest_Changes req -> due req now change -> (exists c, path_to req change c) ->
     exists d, d ∈ MeshSettingsRetryPlan_Deliveries plan /\ delivery_of req change d) /\
  (forall s, s ∈ MeshSettingsRetryPlan_Skipped plan -> exists change, change ∈ MeshSettingsRetryRequest_Changes req /\
     MeshSettingsRetrySkip_ChangeID s = MeshSettingsRetryChange_ID change /\
     ~ (due req now change /\ exists c, path_to req change c)).
Proof.
  cbv zeta. unfold PlanMeshSettingsRetryDelivery. set (now := default clock _).
  destruct (add_planned_all (plan_change req now) (sort_by change_lt (MeshSettingsRetryRequest_Changes req)) (mkMeshSettingsRetryPlan [] []))
    as [-> ->]. cbn [MeshSettingsRetryPlan_Deliveries MeshSettingsRetryPlan_Skipped app]. split; [|split; [|split]].
  - rewrite <- (sort_by_perm change_lt (MeshSettingsRetryRequest_Changes req)) at 3.
    induction (sort_by change_lt (MeshSettingsRetryRequest_Changes req)) as [|c l IH]; [done|]. cbn [omap list_omap].
    pose proof (plan_change_spec req now c) as Hc. rewrite (fmap_cons _ c l), <- IH. destruct (plan_change req now c) as [d|s].
    + destruct Hc as [_ (H1 & H2 & _)]. cbn. by rewrite H1, H2.
    + destruct Hc as (H1 & H2 & _). cbn. rewrite H1, H2. by rewrite <- Permutation_middle.
  - intros d (c & Hc & Ed)%list_elem_of_omap. apply elem_of_sort_by in Hc. pose proof (plan_change_spec req now c) as Hs.
    destruct (plan_change req now c); [|done]. injection Ed as ->. by exists c.
  - intros c Hc Hdue Hpath. pose proof (plan_change_spec req now c) as Hs. destruct (plan_change req now c) as [d|s] eqn:E; [|tauto].
    exists d. split; [|apply Hs]. apply list_elem_of_omap. exists c. by rewrite elem_of_sort_by, E.
  - intros s (c & Hc & Es)%list_elem_of_omap. apply elem_of_sort_by in Hc. pose proof (plan_change_spec req now c) as Hs.
    destruct (plan_change req now c); [done|]. injection Es as ->. exists c. split; [done|]. split; apply Hs.
Qed.

(** ** The list of candidates *)

Lemma observation_Some url_host_port e source hints c :
  endpointCandidateFromObservation url_host_port e source hints = Some c ->
  EndpointObservation_PeerID e <> EmptyString /\ EndpointObservation_Address e <> EmptyString /\
  EndpointCandidate_PeerID c = EndpointObservation_PeerID e /\ EndpointCandidate_Address c = EndpointObservation_Address e /\
  EndpointCandidate_Reachable c = EndpointObservation_Reachable e /\ EndpointCandidate_Source c = source /\
  EndpointCandidate_ControlPlaneOnly c = false.
Proof.
  unfold endpointCandidateFromObservation, eqs. destruct (_ || _) eqn:E; [done|]. intros [= <-].
  rewrite orb_false_iff, !bool_decide_eq_false in E. cbn. tauto.
Qed.

Lemma observation_kept url_host_port e source hints : EndpointObservation_PeerID e <> EmptyString ->
  EndpointObservation_Address e <> EmptyString -> is_Some (endpointCandidateFromObservation url_host_port e source hints).
Proof. intros H1 H2. unfold endpointCandidateFromObservation, eqs. rewrite !bool_decide_false by done. by eexists. Qed.

(** The candidates are the named observations, as observed, and at most one endpoint
    of a helper, for control messages only; what can carry data comes first, then what
    can carry control messages, then what cannot be reached. *)
Theorem BuildEndpointCandidates_spec url_host_port req :
  let l := BuildEndpointCandidates url_host_port req in
  StronglySorted (fun x y => endpointCandidateRank x <= endpointCandidateRank y) l /\
  (forall c, c ∈ l -> EndpointCandidate_ControlPlaneOnly c = true ->
     EndpointCandidate_PeerID c = EndpointCandidateRequest_TargetPeerID req /\ EndpointCandidate_Reachable c = true /\
     exists peer, peer ∈ EndpointCandidateRequest_AssistPeers req /\ NATAssistPeer_Reachable peer = true /\
       EndpointCandidate_ViaPeerID c = NATAssistPeer_PeerID peer /\ EndpointCandidate_Address c = NATAssistPeer_PublicEndpoint peer) /\
  (forall c, c ∈ l -> EndpointCandidate_ControlPlaneOnly c = false ->
     exists e, e ∈ EndpointCandidateRequest_ManualEndpoints req ++ EndpointCandidateRequest_SidecarEndpoints req /\
       EndpointCandidate_PeerID c = EndpointObservation_PeerID e /\ EndpointCandidate_Address c = EndpointObservation_Address e /\
       EndpointCandidate_Reachable c = EndpointObservation_Reachable e) /\
  (forall e, e ∈ EndpointCandidateRequest_ManualEndpoints req ++ EndpointCandidateRequest_SidecarEndpoints req ->
     EndpointObservation_PeerID e <> EmptyString -> EndpointObservation_Address e <> EmptyString ->
     exists c, c ∈ l /\ EndpointCandidate_PeerID c = EndpointObservation_PeerID e /\
       EndpointCandidate_Address c = EndpointObservation_Address e /\ EndpointCandidate_Reachable c = EndpointObservation_Reachable e).
Proof.
  cbv zeta. unfold BuildEndpointCandidates. set (hints := EndpointCandidateRequest_NetworkHints req). split.
  - eapply sorted_weaken; [|apply sort_by_sorted; apply _]. intros x y. unfold not_after, endpoint_lt.
    rewrite by_key_least. lia.
  - setoid_rewrite elem_of_sort_by. setoid_rewrite elem_of_app. setoid_rewrite elem_of_app. setoid_rewrite list_elem_of_omap. split; [|split].
    + intros c Hc Ht. destruct Hc as [(e & _ & He)|[(e & _ & He)|Hc]]; [apply observation_Some in He; naive_solver congruence..|].
      unfold rendezvousCandidate, PlanNATPunch in Hc. cbn [NATPunchRequest_TargetDirectReachable NATPunchRequest_LocalPeerID NATPunchRequest_TargetPeerID NATPunchRequest_AssistPeers orb] in Hc.
      destruct (negb _); [by apply elem_of_nil in Hc|]. destruct (sort_by _ _) as [|p ps] eqn:E; [by apply elem_of_nil in Hc|].
      apply list_elem_of_singleton in Hc as ->. apply sort_by_head in E as [Hp _]; [|apply _].
      apply elem_of_List_filter in Hp as [Hp Ha]. cbn. split_and!; [done..|]. exists p. split_and!; [done| |done..].
      unfold assists in Ha. by destruct (NATAssistPeer_Reachable p).
    + intros c Hc Hf. destruct Hc as [(e & Hin & He)|[(e & Hin & He)|Hc]].
      * apply observation_Some in He. exists e. naive_solver.
      * apply observation_Some in He. exists e. naive_solver.
      * unfold rendezvousCandidate in Hc. destruct (PlanNATPunch _); [|by apply elem_of_nil in Hc].
        by apply list_elem_of_singleton in Hc as ->.
    + intros e [He|He] H1 H2.
      * destruct (observation_kept url_host_port e EndpointSourceManual hints H1 H2) as [c Hc]. exists c.
        split; [left; by exists e|]. apply observation_Some in Hc. naive_solver.
      * destruct (observation_kept url_host_port e EndpointSourceSidecar hints H1 H2) as [c Hc]. exists c.
        split; [right; left; by exists e|]. apply observation_Some in Hc. naive_solver.
Qed.
