(* ===== verification/PeerPlans.v ===== *)
(** * Plans for talking to configured peers

    Models [internal/peerpullplan] (which peers a folder is pulled from),
    the endpoint part of [internal/apistate/peer_state.go] (a configured peer's
    candidates) and the endpoint choice of [internal/metadatareconcile] with
    [StreamTCPAddress] of [internal/discoverycontrol].  They put the configuration of
    [Config] and the routing decisions of [Routing] and [RoutingPaths] together. *)

From S2P Require Import Prelude GoStd GoNet Config Routing RoutingPaths.

Local Open Scope Z_scope.

(** ** Candidates of a configured peer ([apistate]) *)

Definition RoutingPublishedPortMappings (mappings : list PublishedPortMappingConfig) : list PublishedPortMapping :=
  (fun m => mkPublishedPortMapping (PublishedPortMappingConfig_HostIP m) (PublishedPortMappingConfig_HostPort m)) <$> mappings.

Definition RoutingNetworkHints (cfg : Config) : NetworkHints :=
  let hints := DiscoveryConfig_NetworkHints (Config_Discovery cfg) in
  mkNetworkHints (NetworkHintsConfig_LocalContainerGatewayIPs hints) (NetworkHintsConfig_LocalCIDRs hints)
    (RoutingPublishedPortMappings (NetworkHintsConfig_PublishedPortMappings hints)).

(** The path of an endpoint kind. *)
Definition kind_path (kind : string) : option string :=
  if existsb (eqs kind) ["manual"; "vpn"; "sidecar"] then Some DirectPath
  else if existsb (eqs kind) ["relay"; "proxy"] then Some RelayPath else None.

Definition PeerEndpointPath (endpoint : EndpointConfig) : option string :=
  if has_prefix (EndpointConfig_Address endpoint) "http" then kind_path (EndpointConfig_Kind endpoint) else None.

(** [internal/metadatareconcile] *)
Definition StreamEndpointPath (endpoint : EndpointConfig) : option string := kind_path (EndpointConfig_Kind endpoint).

(** [internal/discoverycontrol] *)
Definition StreamTCPAddress (address : string) : option string :=
  if has_prefix address "tcp://" then Some (drop_str 6 address)
  else if contains address "://" || has_prefix address "/" then None
  else if contains address ":" then Some address else None.

Section plans.
Context (url_host_port : string -> option (string * string)).

Definition PeerEndpointNetwork (cfg : Config) (endpoint : EndpointConfig) : string :=
  let kind := EndpointConfig_Kind endpoint in
  if eqs kind "vpn" then VPNNetwork
  else if eqs kind "relay" || eqs kind "proxy" then WANNetwork
  else if negb (eqs (EndpointConfig_NetworkHint endpoint) EmptyString) then EndpointConfig_NetworkHint endpoint
  else ClassifyEndpointNetworkWithHints url_host_port (EndpointConfig_Address endpoint) (RoutingNetworkHints cfg).

(** The loops over the endpoints and the observations, for a given test of paths. *)
Definition configured_observations (endpoint_path : EndpointConfig -> option string) (peer : PeerConfig) (sidecar : bool) :
    list EndpointObservation :=
  omap (fun e => path ← endpoint_path e;
          if Bool.eqb (eqs (EndpointConfig_Kind e) "sidecar") sidecar
          then Some (mkEndpointObservation (PeerConfig_ID peer) (EndpointConfig_Address e) true path (EndpointConfig_NetworkHint e))
          else None) (PeerConfig_Endpoints peer).

Definition live_observation (admitted : string -> bool) (peer : PeerConfig) (o : EndpointObservation) : option EndpointObservation :=
  if eqs (EndpointObservation_PeerID o) (PeerConfig_ID peer) && admitted (EndpointObservation_Address o)
  then Some (if eqs (EndpointObservation_Path o) EmptyString
             then mkEndpointObservation (EndpointObservation_PeerID o) (EndpointObservation_Address o)
                    (EndpointObservation_Reachable o) DirectPath (EndpointObservation_NetworkHint o)
             else o)
  else None.

Definition PeerEndpointCandidates (peer : PeerConfig) (sidecarObservations : list EndpointObservation)
    (networkHints : NetworkHints) : list EndpointCandidate :=
  BuildEndpointCandidates url_host_port (mkEndpointCandidateRequest EmptyString (PeerConfig_ID peer)
    (configured_observations PeerEndpointPath peer false)
    (configured_observations PeerEndpointPath peer true ++ omap (live_observation (fun _ => true) peer) sidecarObservations)
    [] networkHints).

(** [internal/metadatareconcile]: only addresses a TCP stream can use. *)
Definition stream_address_ok (address : string) : bool :=
  match StreamTCPAddress address with Some _ => true | None => false end.

Definition stream_endpoint (endpoint : EndpointConfig) : option string :=
  path ← StreamEndpointPath endpoint;
  if stream_address_ok (EndpointConfig_Address endpoint) then Some path else None.

Definition PeerStreamEndpointCandidates (peer : PeerConfig) (sidecarObservations : list EndpointObservation)
    (networkHints : NetworkHints) : list EndpointCandidate :=
  BuildEndpointCandidates url_host_port (mkEndpointCandidateRequest EmptyString (PeerConfig_ID peer)
    (configured_observations stream_endpoint peer false)
    (configured_observations stream_endpoint peer true ++ omap (live_observation stream_address_ok peer) sidecarObservations)
    [] networkHints).

(** The address [RuntimeDialer] dials, or none. *)
Definition RuntimeDialer_address (peer : PeerConfig) (observations : list EndpointObservation) (hints : NetworkHints) : option string :=
  head (omap (fun c => if reachable_data c then StreamTCPAddress (EndpointCandidate_Address c) else None)
          (PeerStreamEndpointCandidates peer observations hints)).

(** ** Pulls of one folder ([peerpullplan]) *)

Record BlockSource := mkBlockSource {
  BlockSource_PeerID : string;
  BlockSource_BaseURL : string;
  BlockSource_APIKey : string;
  BlockSource_Path : string;
  BlockSource_Network : string;
  BlockSource_RelayViaPeerID : string;
  BlockSource_Reachable : bool
}.

Record Pull := mkPull {
  Pull_PeerID : string;
  Pull_BaseURL : string;
  Pull_APIKey : string;
  Pull_FolderID : string;
  Pull_LocalPath : string;
  Pull_ReceiveBytesPerSecond : Z;
  Pull_Path : string;
  Pull_Network : string;
  Pull_RouteReason : string;
  Pull_BlockSources : list BlockSource
}.

Definition findFolder (cfg : Config) (folderID : string) : option FolderConfig :=
  List.find (fun f => eqs (FolderConfig_ID f) folderID) (Config_Folders cfg).

Definition receives (f : FolderConfig) : bool :=
  eqs (FolderConfig_Mode f) ModeReceiveOnly || eqs (FolderConfig_Mode f) ModeSendReceive.

Definition zero_transfer : TransferConfig := mkTransferConfig 0 0.
Definition zero_peer : PeerConfig :=
  mkPeerConfig EmptyString EmptyString EmptyString EmptyString EmptyString EmptyString [] 0 0 0 [] [] false.

Definition usable_candidate (c : EndpointCandidate) : bool :=
  reachable_data c && has_prefix (EndpointCandidate_Address c) "http".

(** The peers and candidates the nested loops reach. *)
Definition usable_endpoints (cfg : Config) (observations : list EndpointObservation) : list (PeerConfig * EndpointCandidate) :=
  mjoin ((fun peer =>
    if eqs (PeerConfig_APIKey peer) EmptyString then []
    else pair peer <$> List.filter usable_candidate (PeerEndpointCandidates peer observations (RoutingNetworkHints cfg)))
    <$> Config_Peers cfg).

Definition pull_of (cfg : Config) (folder : FolderConfig) (reason : string) (sources : list BlockSource)
    (pc : PeerConfig * EndpointCandidate) : Pull :=
  let '(peer, c) := pc in
  mkPull (PeerConfig_ID peer) (EndpointCandidate_Address c) (PeerConfig_APIKey peer) (FolderConfig_ID folder) (FolderConfig_Path folder)
    (TransferConfig_ReceiveBytesPerSecond (EffectiveTransferLimits (Config_Transfer cfg) peer zero_transfer zero_peer))
    (EndpointCandidate_Path c) (EndpointCandidate_Network c) reason sources.

Definition block_source_of (pc : PeerConfig * EndpointCandidate) : BlockSource :=
  let '(peer, c) := pc in
  mkBlockSource (PeerConfig_ID peer) (EndpointCandidate_Address c) (PeerConfig_APIKey peer) (EndpointCandidate_Path c)
    (EndpointCandidate_Network c) EmptyString true.

Definition source_of (folder : FolderConfig) (pc : PeerConfig * EndpointCandidate) : CandidateSource :=
  let '(peer, c) := pc in
  mkCandidateSource (PeerConfig_ID peer) (FolderConfig_ID folder) (EndpointCandidate_Path c) (EndpointCandidate_Network c) EmptyString true.

(** The last loop: which candidates are of the chosen class. *)
Definition of_chosen_class (choice : SourceChoice) (pc : PeerConfig * EndpointCandidate) : bool :=
  let c := SourceChoice_CandidateSource choice in
  negb (eqs (CandidateSource_Path c) DirectPath && negb (eqs (EndpointCandidate_Path pc.2) DirectPath)) &&
  negb (eqs (CandidateSource_Network c) LocalNetwork && negb (eqs (EndpointCandidate_Network pc.2) LocalNetwork)).

Definition Plan (cfg : Config) (folderID : string) (sidecarObservations : list EndpointObservation) : list Pull :=
  match findFolder cfg folderID with
  | Some folder =>
      if receives folder then
        let usable := usable_endpoints cfg sidecarObservations in
        match ChooseTransferSource (mkSourceSelectionRequest (FolderConfig_ID folder) (source_of folder <$> usable)) with
        | Some choice =>
            pull_of cfg folder (SourceChoice_Reason choice) (block_source_of <$> usable) <$> List.filter (of_chosen_class choice) usable
        | None => []
        end
      else []
  | None => []
  end.
End plans.

(** [internal/runtimesync]: what cooperative planning sees of the pulls. *)
Definition PeerPullsFromPlans (plans : list Pull) : list PeerPull :=
  (fun p => mkPeerPull (Pull_PeerID p) (Pull_Path p) (Pull_Network p)) <$> plans.

(** ** The pulls of a folder *)

Lemma elem_of_usable url_host_port cfg obs peer c : (peer, c) ∈ usable_endpoints url_host_port cfg obs <->
  peer ∈ Config_Peers cfg /\ PeerConfig_APIKey peer <> EmptyString /\
  c ∈ PeerEndpointCandidates url_host_port peer obs (RoutingNetworkHints cfg) /\ usable_candidate c = true.
Proof.
  unfold usable_endpoints, eqs. rewrite list_elem_of_join. split.
  - intros (l & Hin & (peer' & -> & Hp)%list_elem_of_fmap). case_bool_decide as Hk; [by apply elem_of_nil in Hin|].
    apply list_elem_of_fmap in Hin as (c' & [= -> ->] & Hc). by apply elem_of_List_filter in Hc as [? ?].
  - intros (Hp & Hk & Hc & Hu). eexists. split; [|by apply list_elem_of_fmap_2]. cbn. rewrite bool_decide_false by done.
    apply list_elem_of_fmap_2. by apply elem_of_List_filter.
Qed.

Lemma source_of_offers folder usable :
  List.filter (offers (FolderConfig_ID folder)) (source_of folder <$> usable) = source_of folder <$> usable.
Proof.
  apply forallb_filter_id, forallb_forall. intros x ([peer c] & -> & _)%list_elem_of_In%list_elem_of_fmap.
  unfold offers, eqs. cbn. by apply bool_decide_eq_true.
Qed.

Lemma pathRank_direct p : pathRank p = 0 <-> p = DirectPath.
Proof.
  unfold pathRank, eqs. repeat case_bool_decide; subst; split; intros; try lia; done.
Qed.

Lemma pathRank_nonneg p : 0 <= pathRank p.
Proof. unfold pathRank. repeat case_match; lia. Qed.

Lemma networkRank_local n : networkRank n = 0 <-> n = LocalNetwork.
Proof.
  unfold networkRank, eqs. destruct (bool_decide_reflect (n = LocalNetwork)) as [->|Hn]; [done|]. case_match; split; intros; (lia || done).
Qed.

Lemma networkRank_nonneg n : 0 <= networkRank n.
Proof. unfold networkRank. repeat case_match; lia. Qed.

(** A folder that receives is pulled whenever one usable endpoint of a peer is known.
    When one of them is direct, only direct ones are used; when one is direct and local,
    only direct local ones; and every pull keeps all usable endpoints as sources of
    blocks. *)
Theorem Plan_best_class url_host_port cfg folderID obs :
  let usable := usable_endpoints url_host_port cfg obs in
  let pulls := Plan url_host_port cfg folderID obs in
  (pulls <> [] <-> usable <> [] /\ exists folder, findFolder cfg folderID = Some folder /\ receives folder = true) /\
  forall p, p ∈ pulls ->
    Pull_FolderID p = folderID /\ Pull_BlockSources p = block_source_of <$> usable /\
    (exists peer c, (peer, c) ∈ usable /\ Pull_PeerID p = PeerConfig_ID peer /\ Pull_BaseURL p = EndpointCandidate_Address c /\
       Pull_Path p = EndpointCandidate_Path c /\ Pull_Network p = EndpointCandidate_Network c) /\
    ((exists peer c, (peer, c) ∈ usable /\ EndpointCandidate_Path c = DirectPath) -> Pull_Path p = DirectPath) /\
    ((exists peer c, (peer, c) ∈ usable /\ EndpointCandidate_Path c = DirectPath /\ EndpointCandidate_Network c = LocalNetwork) ->
     Pull_Network p = LocalNetwork).
Proof.
  cbv zeta. unfold Plan. destruct (findFolder cfg folderID) as [folder|] eqn:Ef.
  2: { split; [|by intros p ?%elem_of_nil]. split; [done|]. intros [_ (f & ? & _)]. done. }
  assert (Hid : FolderConfig_ID folder = folderID).
  { apply find_some in Ef as [_ Ef]. by apply bool_decide_eq_true in Ef. }
  destruct (receives folder) eqn:Er.
  2: { split; [|by intros p ?%elem_of_nil]. split; [done|]. intros [_ (f & [= <-] & ?)]. congruence. }
  set (usable := usable_endpoints url_host_port cfg obs).
  pose proof (ChooseTransferSource_min (mkSourceSelectionRequest (FolderConfig_ID folder) (source_of folder <$> usable))) as Hmin.
  cbn [SourceSelectionRequest_ContentID SourceSelectionRequest_Candidates] in Hmin. rewrite source_of_offers in Hmin.
  destruct (ChooseTransferSource _) as [choice|].
  2: { apply fmap_nil_inv in Hmin. rewrite Hmin. split; [by split; [|intros []]|by intros p ?%elem_of_nil]. }
  destruct Hmin as [([peer0 c0] & Ec & Hin0)%list_elem_of_fmap Hmin]. split.
  - split; [intros Hne; split; [|by exists folder]|].
    + intros E. rewrite E in Hin0. by apply elem_of_nil in Hin0.
    + intros _ E. apply fmap_nil_inv in E. apply (not_elem_of_nil (peer0, c0)). rewrite <- E. apply elem_of_List_filter.
      split; [done|]. unfold of_chosen_class. rewrite Ec. cbn. destruct (eqs (EndpointCandidate_Path c0) DirectPath), (eqs (EndpointCandidate_Network c0) LocalNetwork); done.
  - intros p ([peer c] & -> & (Hin & Hclass)%elem_of_List_filter)%list_elem_of_fmap.
    unfold of_chosen_class, eqs in Hclass. rewrite Ec in Hclass. cbn in Hclass |- *.
    rewrite !andb_true_iff, !negb_true_iff, !andb_false_iff, !negb_false_iff, !bool_decide_eq_false, !bool_decide_eq_true in Hclass.
    assert (Hbest : forall peer' c', (peer', c') ∈ usable -> EndpointCandidate_Path c' = DirectPath ->
      EndpointCandidate_Path c0 = DirectPath /\ (EndpointCandidate_Network c' = LocalNetwork -> EndpointCandidate_Network c0 = LocalNetwork)).
    { intros peer' c' Hin' Hd. assert (Hs : source_of folder (peer', c') ∈ source_of folder <$> usable) by by apply list_elem_of_fmap_2.
      specialize (Hmin _ Hs). unfold source_lt in Hmin. rewrite Ec, !by_key_least in Hmin. cbn in Hmin. rewrite <- !pathRank_direct, <- !networkRank_local in *.
      pose proof (pathRank_nonneg (EndpointCandidate_Path c0)). pose proof (networkRank_nonneg (EndpointCandidate_Network c0)). lia. }
    split_and!; [done|done|by exists peer, c|..].
    + intros (peer' & c' & Hin' & Hd). destruct (Hbest peer' c' Hin' Hd) as [H0 _]. tauto.
    + intros (peer' & c' & Hin' & Hd & Hl). destruct (Hbest peer' c' Hin' Hd) as [_ H0]. specialize (H0 Hl). tauto.
Qed.
