(* ===== verification/GoBase64.v ===== *)
(** * Base64 and big-endian integers

    What [internal/protocol] and [internal/state] use of Go's [encoding/base64] (the
    standard and the URL alphabet, without padding) and [encoding/binary].  The decoder skips line ends, refuses any
    other byte outside the alphabet and a lone trailing character, and, as Go's does
    unless it is strict, ignores the trailing bits of the last group. *)

From S2P Require Import Prelude GoStd.
From Stdlib Require Import Ascii.
From Stdlib Require Strings.Byte.

Local Open Scope Z_scope.

(** ** Bytes as numbers *)

Definition byte_Z (b : byte) : Z := Z.of_N (Byte.to_N b).
Definition Z_byte (z : Z) : byte := default Byte.x00 (Byte.of_N (Z.to_N (z mod 256))).

Lemma byte_Z_range b : 0 <= byte_Z b < 256.
Proof. unfold byte_Z. pose proof (Byte.to_N_bounded b). lia. Qed.

Lemma Z_byte_Z b : Z_byte (byte_Z b) = b.
Proof.
  unfold Z_byte. rewrite Z.mod_small by apply byte_Z_range. unfold byte_Z. rewrite N2Z.id. by rewrite Byte.of_to_N.
Qed.

Lemma byte_Z_byte z : byte_Z (Z_byte z) = z mod 256.
Proof.
  unfold byte_Z, Z_byte. pose proof (Z.mod_pos_bound z 256). destruct (Byte.of_N _) as [b|] eqn:E; cbn [default from_option id].
  - apply Byte.to_of_N in E. rewrite E. lia.
  - apply Byte.of_N_None_iff in E. lia.
Qed.

(** [binary.BigEndian.PutUint64] *)
Definition be64 (z : Z) : bytes := (fun i => Z_byte (z / 2 ^ (8 * i))) <$> [7; 6; 5; 4; 3; 2; 1; 0].

Lemma be64_length z : length (be64 z) = 8%nat.
Proof. done. Qed.

Lemma Z_byte_inj_mod a b : Z_byte a = Z_byte b -> a mod 256 = b mod 256.
Proof. intros H. rewrite <- !byte_Z_byte. by rewrite H. Qed.

Lemma be64_inj a b : 0 <= a < 2 ^ 64 -> 0 <= b < 2 ^ 64 -> be64 a = be64 b -> a = b.
Proof.
  intros Ha Hb H. unfold be64 in H. cbn [fmap list_fmap] in H.
  injection H as H7 H6 H5 H4 H3 H2 H1 H0. apply Z_byte_inj_mod in H7, H6, H5, H4, H3, H2, H1, H0.
  change (2 ^ (8 * 0)) with 1 in *. change (2 ^ (8 * 1)) with 256 in *. change (2 ^ (8 * 2)) with 65536 in *.
  change (2 ^ (8 * 3)) with 16777216 in *. change (2 ^ (8 * 4)) with 4294967296 in *.
  change (2 ^ (8 * 5)) with 1099511627776 in *. change (2 ^ (8 * 6)) with 281474976710656 in *.
  change (2 ^ (8 * 7)) with 72057594037927936 in *. change (2 ^ 64) with 18446744073709551616 in *.
  assert (Hdigits : forall x, 0 <= x < 18446744073709551616 -> x = x / 72057594037927936 mod 256 * 72057594037927936
    + x / 281474976710656 mod 256 * 281474976710656 + x / 1099511627776 mod 256 * 1099511627776
    + x / 4294967296 mod 256 * 4294967296 + x / 16777216 mod 256 * 16777216 + x / 65536 mod 256 * 65536
    + x / 256 mod 256 * 256 + x / 1 mod 256) by (intros x Hx; Z.to_euclidean_division_equations; lia).
  rewrite (Hdigits a Ha), (Hdigits b Hb). congruence.
Qed.

(** ** Base64 *)

Definition line_end (c : byte) : bool := bool_decide (c = Byte.x0a \/ c = Byte.x0d).

Definition table_char (table : list byte) (z : Z) : byte := default Byte.x00 (table !! Z.to_nat z).

Definition table_val (table : list byte) (c : byte) : option Z :=
  fst <$> List.find (fun p => bool_decide (p.2 = c)) (zip (Z.of_nat <$> seq 0 64) table).

(** An alphabet: sixty-four different characters, no line end among them. *)
Definition table_ok (table : list byte) : bool :=
  bool_decide (length table = 64%nat)
  && forallb (fun n => bool_decide (table_val table (table_char table (Z.of_nat n)) = Some (Z.of_nat n))
                       && negb (line_end (table_char table (Z.of_nat n)))) (seq 0 64).

Class Alphabet := { sextets : list byte; sextets_ok : table_ok sextets = true }.

Definition table_of (s : string) : list byte := Ascii.byte_of_ascii <$> String.list_ascii_of_string s.

(** [StdEncoding] and [URLEncoding] *)
Definition std_alphabet : Alphabet.
Proof.
  refine {| sextets := table_of "ABCDEFGHIJKLMNOPQRSTUVWXYZabcdefghijklmnopqrstuvwxyz0123456789+/" |}.
  vm_compute. reflexivity.
Defined.

Definition url_alphabet : Alphabet.
Proof.
  refine {| sextets := table_of "ABCDEFGHIJKLMNOPQRSTUVWXYZabcdefghijklmnopqrstuvwxyz0123456789-_" |}.
  vm_compute. reflexivity.
Defined.

Section base64.
Context `{Alphabet}.

Definition b64_char (z : Z) : byte := table_char sextets z.
Definition b64_val (c : byte) : option Z := table_val sextets c.

(** [Encode] *)
Fixpoint b64_encode (l : bytes) : bytes :=
  match l with
  | a :: b :: c :: l' =>
      let x := byte_Z a * 65536 + byte_Z b * 256 + byte_Z c in
      b64_char (x / 262144) :: b64_char (x / 4096 mod 64) :: b64_char (x / 64 mod 64) :: b64_char (x mod 64) :: b64_encode l'
  | [a; b] =>
      let x := byte_Z a * 65536 + byte_Z b * 256 in
      [b64_char (x / 262144); b64_char (x / 4096 mod 64); b64_char (x / 64 mod 64)]
  | [a] => let x := byte_Z a * 65536 in [b64_char (x / 262144); b64_char (x / 4096 mod 64)]
  | [] => []
  end.

(** [Decode] *)
Fixpoint b64_groups (l : list Z) : option bytes :=
  match l with
  | w :: x :: y :: z :: l' =>
      let n := w * 262144 + x * 4096 + y * 64 + z in
      rest ← b64_groups l'; Some (Z_byte (n / 65536) :: Z_byte (n / 256) :: Z_byte n :: rest)
  | [w; x; y] => let n := w * 262144 + x * 4096 + y * 64 in Some [Z_byte (n / 65536); Z_byte (n / 256)]
  | [w; x] => let n := w * 262144 + x * 4096 in Some [Z_byte (n / 65536)]
  | [_] => None
  | [] => Some []
  end.

Definition b64_decode (l : bytes) : option bytes :=
  mapM b64_val (List.filter (fun c => negb (line_end c)) l) ≫= b64_groups.

Lemma table_entry z : 0 <= z < 64 ->
  b64_val (b64_char z) = Some z /\ line_end (b64_char z) = false /\ b64_char z ∈ sextets.
Proof.
  intros Hz. pose proof sextets_ok as Hok. unfold table_ok in Hok. apply andb_true_iff in Hok as [Hl Hok].
  apply bool_decide_eq_true in Hl. rewrite forallb_forall in Hok.
  specialize (Hok (Z.to_nat z) ltac:(apply in_seq; lia)). rewrite Z2Nat.id in Hok by lia.
  apply andb_true_iff in Hok as [Hv Hp]. apply bool_decide_eq_true in Hv. apply negb_true_iff in Hp.
  split_and!; [done..|]. unfold b64_char, table_char.
  destruct (lookup_lt_is_Some_2 sextets (Z.to_nat z)) as [c Hc]; [lia|]. rewrite Hc. by eapply list_elem_of_lookup_2.
Qed.

Lemma b64_val_char z : 0 <= z < 64 -> b64_val (b64_char z) = Some z.
Proof. apply table_entry. Qed.

Lemma b64_char_plain z : 0 <= z < 64 -> line_end (b64_char z) = false.
Proof. apply table_entry. Qed.

(** Three bytes, and what is left of them, as sextets and back. *)
Lemma triple_back a b c : let x := byte_Z a * 65536 + byte_Z b * 256 + byte_Z c in
  Z_byte (x / 65536) = a /\ Z_byte (x / 256) = b /\ Z_byte x = c.
Proof.
  cbv zeta. pose proof (byte_Z_range a). pose proof (byte_Z_range b). pose proof (byte_Z_range c).
  assert (Hback : forall z d, z mod 256 = byte_Z d -> Z_byte z = d).
  { intros z d E. unfold Z_byte. rewrite E. unfold byte_Z. rewrite N2Z.id. by rewrite Byte.of_to_N. }
  split_and!; apply Hback; Z.to_euclidean_division_equations; lia.
Qed.

Lemma sextets_range x : 0 <= x < 16777216 ->
  0 <= x / 262144 < 64 /\ 0 <= x / 4096 mod 64 < 64 /\ 0 <= x / 64 mod 64 < 64 /\ 0 <= x mod 64 < 64 /\
  x = x / 262144 * 262144 + x / 4096 mod 64 * 4096 + x / 64 mod 64 * 64 + x mod 64.
Proof. intros Hx. Z.to_euclidean_division_equations; lia. Qed.

(** What holds of the alphabet holds of every encoding. *)
Lemma b64_encode_all (P : byte -> Prop) l : (forall z, 0 <= z < 64 -> P (b64_char z)) -> Forall P (b64_encode l).
Proof.
  intros HP. assert (Hr : forall a b c, 0 <= byte_Z a * 65536 + byte_Z b * 256 + byte_Z c < 16777216)
    by (intros a b c; pose proof (byte_Z_range a); pose proof (byte_Z_range b); pose proof (byte_Z_range c); lia).
  induction l as [l IH] using (induction_ltof1 _ length). unfold ltof in IH.
  destruct l as [|a [|b [|c l]]]; cbn [b64_encode].
  - constructor.
  - pose proof (byte_Z_range a). destruct (sextets_range (byte_Z a * 65536)) as (? & ? & _); [lia|].
    repeat constructor; by apply HP.
  - pose proof (byte_Z_range a). pose proof (byte_Z_range b).
    destruct (sextets_range (byte_Z a * 65536 + byte_Z b * 256)) as (? & ? & ? & _); [lia|].
    repeat constructor; by apply HP.
  - destruct (sextets_range _ (Hr a b c)) as (? & ? & ? & ? & _).
    repeat (constructor; [by apply HP|]). apply IH. cbn. lia.
Qed.

Lemma b64_encode_plain l : Forall (fun c => line_end c = false) (b64_encode l).
Proof. apply b64_encode_all, b64_char_plain. Qed.

Lemma b64_encode_alphabet l : Forall (fun c => c ∈ sextets) (b64_encode l).
Proof. apply b64_encode_all. intros z Hz. by apply table_entry. Qed.

(** Decoding gives back what was encoded. *)
Lemma b64_roundtrip l : b64_decode (b64_encode l) = Some l.
Proof.
  unfold b64_decode. rewrite forallb_filter_id.
  2: { apply forallb_forall. intros c Hc%list_elem_of_In. pose proof (b64_encode_plain l) as Hp.
       rewrite Forall_forall in Hp. by rewrite (Hp c Hc). }
  induction l as [l IH] using (induction_ltof1 _ length). unfold ltof in IH.
  destruct l as [|a [|b [|c l]]]; cbn [b64_encode mapM].
  - done.
  - pose proof (byte_Z_range a). destruct (sextets_range (byte_Z a * 65536)) as (? & ? & ? & ? & Hx); [lia|].
    rewrite !b64_val_char by done. cbn. destruct (triple_back a Byte.x00 Byte.x00) as (E & _ & _).
    change (byte_Z Byte.x00) with 0 in E. rewrite Z.mul_0_l, !Z.add_0_r in E.
    replace (_ + _) with (byte_Z a * 65536) by (Z.to_euclidean_division_equations; lia). by rewrite E.
  - pose proof (byte_Z_range a). pose proof (byte_Z_range b).
    destruct (sextets_range (byte_Z a * 65536 + byte_Z b * 256)) as (? & ? & ? & ? & Hx); [lia|].
    rewrite !b64_val_char by done. cbn. destruct (triple_back a b Byte.x00) as (E1 & E2 & _).
    change (byte_Z Byte.x00) with 0 in E1, E2. rewrite Z.add_0_r in E1, E2.
    replace (_ + _ + _) with (byte_Z a * 65536 + byte_Z b * 256) by (Z.to_euclidean_division_equations; lia).
    by rewrite E1, E2.
  - pose proof (byte_Z_range a). pose proof (byte_Z_range b). pose proof (byte_Z_range c).
    destruct (sextets_range (byte_Z a * 65536 + byte_Z b * 256 + byte_Z c)) as (? & ? & ? & ? & Hx); [lia|].
    rewrite !b64_val_char by done. cbn.
    specialize (IH l ltac:(cbn; lia)). destruct (mapM b64_val (b64_encode l)) as [vs|]; [|done]. cbn in IH |- *.
    rewrite <- Hx. destruct (triple_back a b c) as (-> & -> & ->). by rewrite IH.
Qed.

Lemma b64_encode_length l : Z.of_nat (length (b64_encode l)) = (8 * Z.of_nat (length l) + 5) / 6.
Proof.
  induction l as [l IH] using (induction_ltof1 _ length). unfold ltof in IH.
  destruct l as [|a [|b [|c l]]]; [done..|]. cbn [b64_encode length]. specialize (IH l ltac:(cbn; lia)).
  rewrite !Nat2Z.inj_succ, IH. Z.to_euclidean_division_equations; lia.
Qed.
End base64.
