(* ===== verification/Protocol.v ===== *)
(** * The stream protocol: messages and their codec

    Models [internal/protocol/messages.go].  A message is its type with the payload
    that type names (the other pointers of the Go struct are never read); [None] is a
    missing payload.  A codec writes a message as one line, sealed and in base64 when
    the session is encrypted, and reads lines back.  JSON and the AEAD are parameters;
    a ciphertext and a nonce are byte strings. *)

From S2P Require Import Prelude GoStd GoBase64 Block StoreData Config.
From Stdlib Require Strings.Byte.

Local Open Scope Z_scope.

#[local] Existing Instance std_alphabet.

Definition MaxMessageBytes : Z := 2 ^ 20.

Module protocol.

(** ** Payloads *)

Record TransferLimits := mkTransferLimits { TransferLimits_SendBytesPerSecond : Z; TransferLimits_ReceiveBytesPerSecond : Z }.

Record Hello := mkHello {
  Hello_ProtocolVersion : Z;
  Hello_NodeID : string;
  Hello_Capabilities : list string;
  Hello_PublicKey : string;
  Hello_SessionPublicKey : string;
  Hello_SessionKEMPublic : string;
  Hello_SessionKEMCiphertext : string;
  Hello_SessionPQPublic : string;
  Hello_SessionPQSignature : string;
  Hello_SessionSLHPublic : string;
  Hello_SessionSLHSignature : string;
  Hello_EncryptionLevel : Z;
  Hello_Transfer : option TransferLimits;
  Hello_Nonce : string;
  Hello_Signature : string
}.

Record MetadataFolderSummary := mkMetadataFolderSummary {
  MetadataFolderSummary_FolderID : string;
  MetadataFolderSummary_Cursor : Z;
  MetadataFolderSummary_Files : Z;
  MetadataFolderSummary_Tombstones : Z;
  MetadataFolderSummary_StateHash : string
}.

Record FolderIndexFile := mkFolderIndexFile {
  FolderIndexFile_RelativePath : string;
  FolderIndexFile_Manifest : Manifest;
  FolderIndexFile_Revision : Z
}.

Record FolderIndex := mkFolderIndex {
  FolderIndex_FolderID : string;
  FolderIndex_Files : list FolderIndexFile;
  FolderIndex_MetadataSummary : option MetadataFolderSummary;
  FolderIndex_FullRefresh : bool
}.

Record BlockRequest := mkBlockRequest {
  BlockRequest_FolderID : string; BlockRequest_Path : string; BlockRequest_Index : Z; BlockRequest_BlockSize : Z
}.

Record BlockResponse := mkBlockResponse {
  BlockResponse_FolderID : string; BlockResponse_Path : string; BlockResponse_Index : Z; BlockResponse_Data : bytes
}.

Definition MetadataChangeUpsert : string := "upsert".
Definition MetadataChangeDelete : string := "delete".
Definition MetadataChangeMove : string := "move".

Record MetadataState := mkMetadataState { MetadataState_PeerID : string; MetadataState_Folders : list MetadataFolderSummary }.

Record MetadataChange := mkMetadataChange {
  MetadataChange_Kind : string;
  MetadataChange_FromPath : string;
  MetadataChange_Path : string;
  MetadataChange_Revision : Z;
  MetadataChange_Manifest : option Manifest
}.

Record MetadataChanges := mkMetadataChanges {
  MetadataChanges_FolderID : string;
  MetadataChanges_FromCursor : Z;
  MetadataChanges_ToCursor : Z;
  MetadataChanges_StateHash : string;
  MetadataChanges_More : bool;
  MetadataChanges_Changes : list MetadataChange
}.

Record MetadataAck := mkMetadataAck {
  MetadataAck_FolderID : string;
  MetadataAck_FromCursor : Z;
  MetadataAck_ToCursor : Z;
  MetadataAck_StateHash : string;
  MetadataAck_Stop : bool
}.

Record MeshSettingsChange := mkMeshSettingsChange {
  MeshSettingsChange_ID : string;
  MeshSettingsChange_TargetNodeID : string;
  MeshSettingsChange_OriginNodeID : string;
  MeshSettingsChange_IdempotencyKey : string;
  MeshSettingsChange_Revision : Z;
  MeshSettingsChange_Status : string;
  MeshSettingsChange_CreatedAt : string;
  MeshSettingsChange_UpdatedAt : string;
  MeshSettingsChange_SettingsPatch : gmap string settingsValue;
  MeshSettingsChange_LastError : string
}.

Record MeshSettingsChanges := mkMeshSettingsChanges {
  MeshSettingsChanges_TargetNodeID : string; MeshSettingsChanges_Changes : list MeshSettingsChange
}.

Record MeshSettingsAckResult := mkMeshSettingsAckResult {
  MeshSettingsAckResult_ID : string;
  MeshSettingsAckResult_Status : string;
  MeshSettingsAckResult_UpdatedAt : string;
  MeshSettingsAckResult_LastError : string
}.

Record MeshSettingsAck := mkMeshSettingsAck {
  MeshSettingsAck_TargetNodeID : string; MeshSettingsAck_Results : list MeshSettingsAckResult
}.

Record SnapshotMarker := mkSnapshotMarker {
  SnapshotMarker_ID : string;
  SnapshotMarker_FolderID : string;
  SnapshotMarker_Cursor : Z;
  SnapshotMarker_StateHash : string;
  SnapshotMarker_CreatedAt : string;
  SnapshotMarker_Description : string;
  SnapshotMarker_Pinned : bool;
  SnapshotMarker_Deprecated : bool;
  SnapshotMarker_ArchiveFullyProtected : bool;
  SnapshotMarker_DBCheckpointAvailable : bool
}.

Record FolderAdvertisement := mkFolderAdvertisement {
  FolderAdvertisement_ID : string; FolderAdvertisement_Label : string; FolderAdvertisement_Snapshots : list SnapshotMarker
}.

Record IdentityGroupAdvertisement := mkIdentityGroupAdvertisement {
  IdentityGroupAdvertisement_GroupID : string; IdentityGroupAdvertisement_Folders : list FolderAdvertisement
}.

Record PeerInfo := mkPeerInfo { PeerInfo_ID : string; PeerInfo_Addresses : list string }.

Record PeerExchange := mkPeerExchange {
  PeerExchange_Peers : list PeerInfo; PeerExchange_IdentityGroups : list IdentityGroupAdvertisement
}.

Record ApplyResult := mkApplyResult {
  ApplyResult_FolderID : string; ApplyResult_Path : string; ApplyResult_OK : bool; ApplyResult_Message : string
}.

Record Error := mkError { Error_Code : string; Error_Message : string }.

Inductive Message :=
| MessageHello (p : option Hello)
| MessageFolderIndex (p : option FolderIndex)
| MessageBlockRequest (p : option BlockRequest)
| MessageBlockResponse (p : option BlockResponse)
| MessageMetadataState (p : option MetadataState)
| MessageMetadataChanges (p : option MetadataChanges)
| MessageMetadataAck (p : option MetadataAck)
| MessageMeshSettingsChanges (p : option MeshSettingsChanges)
| MessageMeshSettingsAck (p : option MeshSettingsAck)
| MessagePeerExchange (p : option PeerExchange)
| MessageApplyResult (p : option ApplyResult)
| MessageError (p : option Error)
| MessageUnknown (type : string).

End protocol.
Import protocol.

(** ** Errors *)

Inductive ProtoErr :=
| ErrMessage (text : string)
| ErrValue (text value : string)
| ErrEncryptionLevel (level : Z)
| ErrTooLarge (size : Z)
| ErrEncode
| ErrDecode
| ErrBase64
| ErrDecrypt
| ErrEOF.

(** ** Validation *)

Definition need (b : bool) (text : string) : result ProtoErr unit := fail_if (negb b) (ErrMessage text).
Definition given (s : string) : bool := negb (bool_decide (s = EmptyString)).

(** A loop over a slice that stops at the first error; positions count from [i]. *)
Fixpoint eachi {A} (f : Z -> A -> result ProtoErr unit) (i : Z) (l : list A) : result ProtoErr unit :=
  match l with [] => Ok tt | x :: l' => _ ← f i x; eachi f (i + 1) l' end.

(** [what[i] rest] *)
Definition at_index (what : string) (i : Z) (rest : string) : string := what +:+ "[" +:+ itoa i +:+ "]" +:+ rest.

Definition level_ok (level : Z) : result ProtoErr unit :=
  match ValidateEncryptionLevel level with Ok _ => Ok tt | Err _ => Err (ErrEncryptionLevel level) end.

Definition validateHello (h : Hello) : result ProtoErr unit :=
  _ ← level_ok (Hello_EncryptionLevel h);
  match Hello_Transfer h with
  | None => Ok tt
  | Some t =>
      _ ← need (0 <=? TransferLimits_SendBytesPerSecond t) "hello transfer sendBytesPerSecond cannot be negative";
      need (0 <=? TransferLimits_ReceiveBytesPerSecond t) "hello transfer receiveBytesPerSecond cannot be negative"
  end.

Definition validateStateFolder (i : Z) (f : MetadataFolderSummary) : result ProtoErr unit :=
  _ ← need (given (MetadataFolderSummary_FolderID f)) (at_index "metadata state folder" i " folderID required");
  need (given (MetadataFolderSummary_StateHash f)) (at_index "metadata state folder" i " stateHash required").

Definition validateChange (i : Z) (c : MetadataChange) : result ProtoErr unit :=
  let kind := MetadataChange_Kind c in
  let upsert := bool_decide (kind = MetadataChangeUpsert) in
  let move := bool_decide (kind = MetadataChangeMove) in
  _ ← fail_if (negb upsert && negb (bool_decide (kind = MetadataChangeDelete)) && negb move)
        (ErrValue (at_index "metadata changes change" i " unknown kind") kind);
  _ ← need (given (MetadataChange_Path c)) (at_index "metadata changes change" i " path required");
  _ ← need (negb ((upsert || move) && bool_decide (MetadataChange_Manifest c = None)))
        (at_index "metadata changes change" i (" manifest required for " +:+ kind));
  need (negb (move && negb (given (MetadataChange_FromPath c)))) (at_index "metadata changes change" i " fromPath required for move").

Definition validateAck (a : MetadataAck) : result ProtoErr unit :=
  _ ← need (given (MetadataAck_FolderID a)) "metadata ack folderID required";
  _ ← need (negb (MetadataAck_ToCursor a <? MetadataAck_FromCursor a)) "metadata ack cursor range invalid";
  need (given (MetadataAck_StateHash a)) "metadata ack stateHash required".

Definition validateSettingsChange (target : string) (i : Z) (c : MeshSettingsChange) : result ProtoErr unit :=
  let at_ := at_index "mesh settings changes change" i in
  _ ← need (given (MeshSettingsChange_ID c)) (at_ " id required");
  _ ← need (given (MeshSettingsChange_TargetNodeID c)) (at_ " targetNodeId required");
  _ ← need (bool_decide (MeshSettingsChange_TargetNodeID c = target)) (at_ " target mismatch");
  _ ← need (given (MeshSettingsChange_OriginNodeID c)) (at_ " originNodeId required");
  need (given (MeshSettingsChange_IdempotencyKey c)) (at_ " idempotencyKey required").

Definition validateAckResult (i : Z) (r : MeshSettingsAckResult) : result ProtoErr unit :=
  let status := MeshSettingsAckResult_Status r in
  _ ← need (given (MeshSettingsAckResult_ID r)) (at_index "mesh settings ack result" i " id required");
  _ ← fail_if (negb (bool_decide (status = "acked")) && negb (bool_decide (status = "failed")))
        (ErrValue (at_index "mesh settings ack result" i " unsupported status") status);
  need (negb (bool_decide (status = "failed") && negb (given (MeshSettingsAckResult_LastError r))))
    (at_index "mesh settings ack result" i " failed status requires lastError").

Definition validatePeerInfo (i : Z) (p : PeerInfo) : result ProtoErr unit :=
  _ ← need (given (PeerInfo_ID p)) (at_index "peer exchange peer" i " id required");
  _ ← need (negb (bool_decide (PeerInfo_Addresses p = []))) (at_index "peer exchange peer" i " addresses required");
  eachi (fun j a => need (given a) (at_index "peer exchange peer" i (at_index " address" j " required"))) 0 (PeerInfo_Addresses p).

Definition validateGroup (i : Z) (g : IdentityGroupAdvertisement) : result ProtoErr unit :=
  let at_ := at_index "peer exchange identityGroups" i in
  _ ← need (given (IdentityGroupAdvertisement_GroupID g)) (at_ " groupID required");
  eachi (fun j f =>
    _ ← need (given (FolderAdvertisement_ID f)) (at_ (at_index " folder" j " id required"));
    eachi (fun k s =>
      _ ← need (given (SnapshotMarker_ID s)) (at_ (at_index " folder" j (at_index " snapshot" k " id required")));
      need (given (SnapshotMarker_FolderID s)) (at_ (at_index " folder" j (at_index " snapshot" k " folderID required"))))
      0 (FolderAdvertisement_Snapshots f)) 0 (IdentityGroupAdvertisement_Folders g).

Definition payload {A} (what : string) (f : A -> result ProtoErr unit) (p : option A) : result ProtoErr unit :=
  match p with None => Err (ErrMessage (what +:+ " payload required")) | Some x => f x end.

Definition validateMessage (msg : Message) : result ProtoErr unit :=
  match msg with
  | MessageHello p => payload "hello" validateHello p
  | MessageFolderIndex p => payload "folder index" (fun _ => Ok tt) p
  | MessageBlockRequest p => payload "block request" (fun _ => Ok tt) p
  | MessageBlockResponse p => payload "block response" (fun _ => Ok tt) p
  | MessageMetadataState p => payload "metadata state" (fun s => eachi validateStateFolder 0 (MetadataState_Folders s)) p
  | MessageMetadataChanges p =>
      payload "metadata changes" (fun c =>
        _ ← need (given (MetadataChanges_FolderID c)) "metadata changes folderID required";
        eachi validateChange 0 (MetadataChanges_Changes c)) p
  | MessageMetadataAck p => payload "metadata ack" validateAck p
  | MessageMeshSettingsChanges p =>
      payload "mesh settings changes" (fun c =>
        _ ← need (given (MeshSettingsChanges_TargetNodeID c)) "mesh settings changes targetNodeId required";
        eachi (validateSettingsChange (MeshSettingsChanges_TargetNodeID c)) 0 (MeshSettingsChanges_Changes c)) p
  | MessageMeshSettingsAck p =>
      payload "mesh settings ack" (fun a =>
        _ ← need (given (MeshSettingsAck_TargetNodeID a)) "mesh settings ack targetNodeId required";
        eachi validateAckResult 0 (MeshSettingsAck_Results a)) p
  | MessagePeerExchange p =>
      payload "peer exchange" (fun x =>
        _ ← eachi validatePeerInfo 0 (PeerExchange_Peers x);
        eachi validateGroup 0 (PeerExchange_IdentityGroups x)) p
  | MessageApplyResult p => payload "apply result" (fun _ => Ok tt) p
  | MessageError p => payload "error" (fun _ => Ok tt) p
  | MessageUnknown type => Err (ErrValue "unknown message type" type)
  end.

(** ** The codec *)

Section codec.
Context {AEAD : Type} (NonceSize : AEAD -> nat) (Seal : AEAD -> bytes -> bytes -> bytes)
  (Open : AEAD -> bytes -> bytes -> option bytes).
Context (marshal : Message -> option bytes) (unmarshal : bytes -> option Message).

Record Codec := mkCodec {
  Codec_sendAEAD : option AEAD;
  Codec_recvAEAD : option AEAD;
  Codec_sendNoncePrefix : bytes;
  Codec_recvNoncePrefix : bytes;
  Codec_sendSeq : Z;
  Codec_recvSeq : Z
}.

Definition NewCodec : Codec := mkCodec None None [] [] 0 0.

Definition NewEncryptedCodec (send recv : AEAD) (sendPrefix recvPrefix : bytes) : Codec :=
  mkCodec (Some send) (Some recv) sendPrefix recvPrefix 0 0.

(** The prefix, zeros, and the sequence number in the last eight bytes; an AEAD's
    nonces have at least eight. *)
Definition nonce (prefix : bytes) (seq : Z) (size : nat) : bytes :=
  take (size - 8) (prefix ++ replicate (size - 8) Byte.x00) ++ be64 seq.

Definition set_sendSeq (seq : Z) (c : Codec) : Codec :=
  mkCodec (Codec_sendAEAD c) (Codec_recvAEAD c) (Codec_sendNoncePrefix c) (Codec_recvNoncePrefix c) seq (Codec_recvSeq c).

Definition set_recvSeq (seq : Z) (c : Codec) : Codec :=
  mkCodec (Codec_sendAEAD c) (Codec_recvAEAD c) (Codec_sendNoncePrefix c) (Codec_recvNoncePrefix c) (Codec_sendSeq c) seq.

Definition seal (c : Codec) (aead : AEAD) (plain : bytes) : Codec * bytes :=
  (set_sendSeq (u64 (Codec_sendSeq c + 1)) c,
   b64_encode (Seal aead (nonce (Codec_sendNoncePrefix c) (Codec_sendSeq c) (NonceSize aead)) plain)).

Definition open (c : Codec) (aead : AEAD) (encoded : bytes) : Codec * result ProtoErr bytes :=
  match b64_decode encoded with
  | None => (c, Err ErrBase64)
  | Some sealed =>
      (set_recvSeq (u64 (Codec_recvSeq c + 1)) c,
       match Open aead (nonce (Codec_recvNoncePrefix c) (Codec_recvSeq c) (NonceSize aead)) sealed with
       | Some plain => Ok plain
       | None => Err ErrDecrypt
       end)
  end.

(** What [Codec.Write] puts on the stream. *)
Definition Write (c : Codec) (msg : Message) : Codec * result ProtoErr bytes :=
  match validateMessage msg with
  | Err e => (c, Err e)
  | Ok _ =>
  match marshal msg with
  | None => (c, Err ErrEncode)
  | Some data =>
      if MaxMessageBytes <? Z.of_nat (length data) then (c, Err (ErrTooLarge (Z.of_nat (length data))))
      else let '(c, data) := match Codec_sendAEAD c with Some aead => seal c aead data | None => (c, data) end in
           (c, Ok (data ++ [Byte.x0a]))
  end end.

(** [ReadBytes('\n')]: the line, without its end, and the rest of the stream. *)
Fixpoint read_line (stream : bytes) : option (bytes * bytes) :=
  match stream with
  | [] => None
  | b :: stream' =>
      if bool_decide (b = Byte.x0a) then Some ([], stream')
      else match read_line stream' with Some (line, rest) => Some (b :: line, rest) | None => None end
  end.

Definition decode (line : bytes) : result ProtoErr Message :=
  match unmarshal line with
  | None => Err ErrDecode
  | Some msg => match validateMessage msg with Ok _ => Ok msg | Err e => Err e end
  end.

Definition Read (c : Codec) (stream : bytes) : Codec * bytes * result ProtoErr Message :=
  match read_line stream with
  | None => (c, [], Err ErrEOF)
  | Some (line, rest) =>
      let size := Z.of_nat (length line) + 1 in
      if MaxMessageBytes <? size then (c, rest, Err (ErrTooLarge size))
      else match Codec_recvAEAD c with
           | None => (c, rest, decode line)
           | Some aead =>
               let '(c, plain) := open c aead line in (c, rest, plain ≫= decode)
           end
  end.

(** ** What is read is what was written *)

Lemma read_line_spec line rest : Byte.x0a ∉ line -> read_line (line ++ Byte.x0a :: rest) = Some (line, rest).
Proof.
  induction line as [|b line IH]; intros Hn; cbn; [done|].
  rewrite not_elem_of_cons in Hn. destruct Hn as [Hb Hn]. rewrite bool_decide_false by congruence. by rewrite IH.
Qed.

Lemma b64_no_newline l : Byte.x0a ∉ b64_encode l.
Proof. intros Hin. pose proof (b64_encode_plain l) as H. rewrite Forall_forall in H. by specialize (H _ Hin). Qed.

(** The writer of one end and the reader of the other. *)
Record matched (w r : Codec) : Prop := {
  mt_aead : Codec_recvAEAD r = Codec_sendAEAD w;
  mt_prefix : Codec_recvNoncePrefix r = Codec_sendNoncePrefix w;
  mt_seq : Codec_recvSeq r = Codec_sendSeq w
}.

(** The line for the JSON text of a message, without its end. *)
Definition line_of (w : Codec) (data : bytes) : bytes :=
  match Codec_sendAEAD w with Some aead => (seal w aead data).2 | None => data end.

Definition opens (w : Codec) : Prop :=
  match Codec_sendAEAD w with Some aead => forall n p, Open aead n (Seal aead n p) = Some p | None => True end.

(** A message JSON can carry: valid, and read back from a text on one line. *)
Record carried (msg : Message) (data : bytes) : Prop := {
  ca_valid : validateMessage msg = Ok tt;
  ca_marshal : marshal msg = Some data;
  ca_unmarshal : unmarshal data = Some msg;
  ca_line : Byte.x0a ∉ data;
  ca_size : Z.of_nat (length data) <= MaxMessageBytes
}.

(** The codecs after one message. *)
Definition after_send (w : Codec) : Codec :=
  match Codec_sendAEAD w with Some _ => set_sendSeq (u64 (Codec_sendSeq w + 1)) w | None => w end.
Definition after_recv (r : Codec) : Codec :=
  match Codec_recvAEAD r with Some _ => set_recvSeq (u64 (Codec_recvSeq r + 1)) r | None => r end.

Lemma matched_after w r : matched w r -> matched (after_send w) (after_recv r).
Proof.
  intros [Ma Mp Ms]. unfold after_send, after_recv. rewrite Ma. destruct (Codec_sendAEAD w) eqn:E; split; cbn; congruence.
Qed.

Lemma after_send_aead w : Codec_sendAEAD (after_send w) = Codec_sendAEAD w.
Proof. unfold after_send. destruct (Codec_sendAEAD w) eqn:E; [exact E|done]. Qed.

Lemma opens_after w : opens w -> opens (after_send w).
Proof. unfold opens. by rewrite after_send_aead. Qed.

Lemma Write_line w msg data : carried msg data -> Write w msg = (after_send w, Ok (line_of w data ++ [Byte.x0a])).
Proof.
  intros [Cv Cm Cu Cl Cs]. unfold Write, line_of, after_send. rewrite Cv, Cm, (proj2 (Z.ltb_ge _ _)) by done.
  by destruct (Codec_sendAEAD w).
Qed.

(** A written line is read back, or is too long: the reader counts the encoded line
    with its end, the writer the JSON text alone. *)
Lemma Read_line w r msg data rest : matched w r -> opens w -> carried msg data ->
  let size := Z.of_nat (length (line_of w data)) + 1 in
  Read r (line_of w data ++ Byte.x0a :: rest) =
  if MaxMessageBytes <? size then (r, rest, Err (ErrTooLarge size)) else (after_recv r, rest, Ok msg).
Proof.
  intros [Ma Mp Ms] Ho [Cv Cm Cu Cl Cs]. cbv zeta. unfold Read, line_of, opens, after_recv in *. rewrite Ma.
  destruct (Codec_sendAEAD w) as [aead|].
  - cbn [seal snd]. rewrite read_line_spec by apply b64_no_newline. destruct (MaxMessageBytes <? _); [done|].
    unfold open. rewrite b64_roundtrip, Mp, Ms, Ho. cbn. unfold decode. by rewrite Cu, Cv.
  - rewrite read_line_spec by done. destruct (MaxMessageBytes <? _); [done|]. unfold decode. by rewrite Cu, Cv.
Qed.

Fixpoint write_all (w : Codec) (msgs : list Message) : Codec * result ProtoErr bytes :=
  match msgs with
  | [] => (w, Ok [])
  | msg :: msgs' =>
      match Write w msg with
      | (w, Err e) => (w, Err e)
      | (w, Ok line) => let '(w, more) := write_all w msgs' in (w, (fun more => line ++ more) <$> more)
      end
  end.

Fixpoint read_all (n : nat) (r : Codec) (stream : bytes) : Codec * bytes * result ProtoErr (list Message) :=
  match n with
  | O => (r, stream, Ok [])
  | S n' =>
      match Read r stream with
      | (r, rest, Err e) => (r, rest, Err e)
      | (r, rest, Ok msg) => let '(r, rest, msgs) := read_all n' r rest in (r, rest, cons msg <$> msgs)
      end
  end.

(** The sealed text of a message fits a line. *)
Definition fits_line (w : Codec) (data : bytes) : Prop :=
  match Codec_sendAEAD w with
  | Some aead => forall seq, Z.of_nat (length (b64_encode
      (Seal aead (nonce (Codec_sendNoncePrefix w) seq (NonceSize aead)) data))) < MaxMessageBytes
  | None => Z.of_nat (length data) < MaxMessageBytes
  end.

Lemma fits_line_size w data : fits_line w data -> Z.of_nat (length (line_of w data)) < MaxMessageBytes.
Proof. unfold fits_line, line_of. destruct (Codec_sendAEAD w); [intros H; apply H|done]. Qed.

(** [C38] Messages that fit the reader's limit arrive: what one end writes, the other
    end reads, message by message, in the clear and in an encrypted session whose
    AEAD opens what it sealed, when each message can be encoded and its encoded
    line, with base64 and sealing, is within MaxMessageBytes. The writer checks the
    limit before encoding only, so that longer lines are written and refused by the
    reader: see [limit_unreadable]. *)
Theorem codec_roundtrip w r msgs : matched w r -> opens w ->
  (forall msg, msg ∈ msgs -> exists data, carried msg data /\ fits_line w data) ->
  exists w' stream, write_all w msgs = (w', Ok stream) /\
    forall rest, exists r', read_all (length msgs) r (stream ++ rest) = (r', rest, Ok msgs) /\ matched w' r'.
Proof.
  revert w r. induction msgs as [|msg msgs IH]; intros w r Hm Ho Hall; cbn [write_all read_all length].
  - exists w, []. split; [done|]. intros rest. by exists r.
  - destruct (Hall msg (list_elem_of_here _ _)) as (data & Hc & Hf). rewrite (Write_line w msg data Hc).
    destruct (IH _ _ (matched_after _ _ Hm) (opens_after _ Ho)) as (w' & stream & -> & Hread).
    { intros m Hin. destruct (Hall m) as (d & Hd & Hfd); [by right|]. exists d. split; [done|].
      unfold fits_line in *. rewrite after_send_aead. unfold after_send. by destruct (Codec_sendAEAD w). }
    exists w', (line_of w data ++ [Byte.x0a] ++ stream). split; [cbn; by rewrite <- app_assoc|]. intros rest.
    replace ((line_of w data ++ [Byte.x0a] ++ stream) ++ rest) with (line_of w data ++ Byte.x0a :: (stream ++ rest))
      by (rewrite <- app_assoc; reflexivity).
    rewrite (Read_line w r msg data _ Hm Ho Hc). apply fits_line_size in Hf. rewrite (proj2 (Z.ltb_ge _ _)) by lia.
    destruct (Hread rest) as (r' & -> & Hm'). by exists r'.
Qed.

(** Two messages of a session are sealed under different nonces: the sequence number
    shows in them until it wraps. *)
Theorem nonce_fresh prefix size a b : 0 <= a < 2 ^ 64 -> 0 <= b < 2 ^ 64 ->
  nonce prefix a size = nonce prefix b size -> a = b.
Proof. intros Ha Hb H. unfold nonce in H. apply app_inv_head in H. by apply be64_inj. Qed.

(** A text as long as the limit can be written, but not read; in an encrypted session
    already a quarter less. *)
Theorem limit_unreadable w r msg data rest : matched w r -> opens w -> carried msg data ->
  (Codec_sendAEAD w = None /\ Z.of_nat (length data) = MaxMessageBytes) \/
  (exists aead, Codec_sendAEAD w = Some aead /\ 786432 <= Z.of_nat (length data) /\
     forall n, (length data <= length (Seal aead n data))%nat) ->
  (exists line, (Write w msg).2 = Ok line) /\
  exists size, (Read r (line_of w data ++ Byte.x0a :: rest)).2 = Err (ErrTooLarge size).
Proof.
  intros Hm Ho Hc Hl. rewrite (Write_line w msg data Hc), (Read_line w r msg data rest Hm Ho Hc). split; [by eexists|].
  assert (Hbig : MaxMessageBytes <= Z.of_nat (length (line_of w data))).
  { unfold line_of. destruct Hl as [[-> Hl]|(aead & Ea & Hl & Hgrow)].
    - lia.
    - rewrite Ea. cbn [seal snd]. rewrite b64_encode_length.
      specialize (Hgrow (nonce (Codec_sendNoncePrefix w) (Codec_sendSeq w) (NonceSize aead))). change MaxMessageBytes with 1048576.
      Z.to_euclidean_division_equations; lia. }
  rewrite (proj2 (Z.ltb_lt _ _)) by lia. by eexists.
Qed.
End codec.

(** ** A concrete session: a seal that puts the nonce in front *)

Definition demo_seal (_ : unit) (n p : bytes) : bytes := n ++ p.
Definition demo_open (_ : unit) (n c : bytes) : option bytes :=
  if bool_decide (take (length n) c = n) then Some (drop (length n) c) else None.
Definition demo_error : Message := MessageError (Some (mkError "peer_auth" "unknown peer")).
Definition demo_request : Message := MessageBlockRequest (Some (mkBlockRequest "docs" "a.txt" 0 1024)).
Definition demo_encode (m : Message) : option bytes :=
  match m with MessageError _ => Some [Byte.x65] | MessageBlockRequest _ => Some [Byte.x71; Byte.x72] | _ => None end.
Definition demo_decode (l : bytes) : option Message :=
  match l with [_] => Some demo_error | [_; _] => Some demo_request | _ => None end.
Definition demo_writer : @Codec unit := NewEncryptedCodec tt tt [Byte.x01] [Byte.x02].
Definition demo_reader : @Codec unit := NewEncryptedCodec tt tt [Byte.x02] [Byte.x01].

Lemma codec_roundtrip_witness :
  exists w' stream, write_all (fun _ => 12%nat) demo_seal demo_encode demo_writer [demo_request; demo_error] = (w', Ok stream) /\
    forall rest, exists r', read_all (fun _ => 12%nat) demo_open demo_decode 2 demo_reader (stream ++ rest) =
      (r', rest, Ok [demo_request; demo_error]) /\ matched w' r'.
Proof.
  apply (codec_roundtrip (fun _ => 12%nat) demo_seal demo_open demo_encode demo_decode demo_writer demo_reader
    [demo_request; demo_error]).
  - split; reflexivity.
  - intros n p. unfold demo_open, demo_seal. rewrite take_app_length, drop_app_length, bool_decide_eq_true_2; reflexivity.
  - assert (Hfit : forall data, (length data <= 2)%nat -> fits_line (fun _ => 12%nat) demo_seal demo_writer data).
    { intros data Hd n. rewrite b64_encode_length. unfold demo_seal. rewrite length_app.
      change (length (nonce (Codec_sendNoncePrefix demo_writer) n 12)) with 12%nat.
      change MaxMessageBytes with 1048576. apply Z.div_lt_upper_bound; lia. }
    intros msg [->|[->|[]%elem_of_nil]%elem_of_cons]%elem_of_cons.
    + exists [Byte.x71; Byte.x72]. split; [|apply Hfit; cbn; lia]. split; [reflexivity..| |vm_compute; discriminate].
      apply (bool_decide_unpack _). vm_compute. exact I.
    + exists [Byte.x65]. split; [|apply Hfit; cbn; lia]. split; [reflexivity..| |vm_compute; discriminate].
      apply (bool_decide_unpack _). vm_compute. exact I.
Defined.
