(* ===== verification/StreamMeta.v ===== *)
(** * Catching up on metadata and settings over a stream

    Models the parts of [internal/streamsync/streamsync.go] in which two nodes bring
    each other's metadata and pending settings up to date: the server's handlers
    [serveMetadataState], [serveMeshSettingsChanges] and [recordMeshSettingsAck], and
    the client's [exchangeMetadataState] and [exchangeMeshSettingsChanges].  What a
    side does between two reads of its stream is one step of that side; a session
    alternates such steps.  The stores are those of [Store], [Replication] and
    [Settings]; [wire_len] is the length of a message's line without its end. *)

From S2P Require Import Prelude GoStd Block StoreData Store Replication Settings Protocol.
Import protocol.

Local Open Scope Z_scope.

(** ** Errors *)

Inductive SyncErr :=
| ErrWire (e : ProtoErr)
| ErrStore (e : StoreErr)
| ErrPeer (code message : string)
| ErrExpected (what got : string)
| ErrAckMismatch (folderID : string) (from to : Z)
| ErrMissing (what : string)
| ErrTarget (what target want : string)
| ErrUnsupported (type : string)
| ErrNoFullRefresh (why : string).

Definition message_type (msg : Message) : string :=
  match msg with
  | MessageHello _ => "hello"
  | MessageFolderIndex _ => "folder_index"
  | MessageBlockRequest _ => "block_request"
  | MessageBlockResponse _ => "block_response"
  | MessageMetadataState _ => "metadata_state"
  | MessageMetadataChanges _ => "metadata_changes"
  | MessageMetadataAck _ => "metadata_ack"
  | MessageMeshSettingsChanges _ => "mesh_settings_changes"
  | MessageMeshSettingsAck _ => "mesh_settings_ack"
  | MessagePeerExchange _ => "peer_exchange"
  | MessageApplyResult _ => "apply_result"
  | MessageError _ => "error"
  | MessageUnknown type => type
  end.

(** The error of a peer's message. *)
Definition peer_error (p : option Error) : SyncErr :=
  match p with Some e => ErrPeer (Error_Code e) (Error_Message e) | None => ErrMissing "error payload" end.

(** ** Conversions *)

Definition summaryToProtocol (s : FolderSummary) : MetadataFolderSummary :=
  mkMetadataFolderSummary (FolderSummary_FolderID s) (FolderSummary_Cursor s) (FolderSummary_Files s)
    (FolderSummary_Tombstones s) (FolderSummary_StateHash s).

Definition summaryFromProtocol (s : MetadataFolderSummary) : FolderSummary :=
  mkFolderSummary (MetadataFolderSummary_FolderID s) (MetadataFolderSummary_Cursor s) (MetadataFolderSummary_Files s)
    (MetadataFolderSummary_Tombstones s) (MetadataFolderSummary_StateHash s).

Definition kindToProtocol (kind : string) : string :=
  if bool_decide (kind = ChangeDelete) then MetadataChangeDelete
  else if bool_decide (kind = ChangeMove) then MetadataChangeMove else MetadataChangeUpsert.

Definition kindToState (kind : string) : string :=
  if bool_decide (kind = MetadataChangeDelete) then ChangeDelete
  else if bool_decide (kind = MetadataChangeMove) then ChangeMove else ChangeUpsert.

Definition changeToProtocol (c : FolderChange) : MetadataChange :=
  mkMetadataChange (kindToProtocol (FolderChange_Kind c)) (FolderChange_FromPath c) (FolderChange_Path c)
    (FolderChange_Revision c) (FolderChange_Manifest c).

Definition changeToState (c : MetadataChange) : FolderChange :=
  mkFolderChange (kindToState (MetadataChange_Kind c)) (MetadataChange_FromPath c) (MetadataChange_Path c)
    (MetadataChange_Revision c) (MetadataChange_Manifest c).

(** [metadataChangesToProtocol], with [More] filled in. *)
Definition metadataChangesToProtocol (changes : FolderChanges) (more : bool) : MetadataChanges :=
  mkMetadataChanges (FolderChanges_FolderID changes) (FolderChanges_FromCursor changes) (FolderChanges_ToCursor changes)
    (FolderChanges_StateHash changes) more (changeToProtocol <$> FolderChanges_Changes changes).

Definition protocolChangesToState (changes : MetadataChanges) : FolderChanges :=
  mkFolderChanges (MetadataChanges_FolderID changes) (MetadataChanges_FromCursor changes) (MetadataChanges_ToCursor changes)
    (MetadataChanges_StateHash changes) (changeToState <$> MetadataChanges_Changes changes).

Definition metadataAckForChanges (changes : MetadataChanges) (stop : bool) : MetadataAck :=
  mkMetadataAck (MetadataChanges_FolderID changes) (MetadataChanges_FromCursor changes) (MetadataChanges_ToCursor changes)
    (MetadataChanges_StateHash changes) stop.

(** [got != want] apart from [Stop] *)
Definition same_ack (got want : MetadataAck) : bool :=
  bool_decide (MetadataAck_FolderID got = MetadataAck_FolderID want) && (MetadataAck_FromCursor got =? MetadataAck_FromCursor want)
  && (MetadataAck_ToCursor got =? MetadataAck_ToCursor want) && bool_decide (MetadataAck_StateHash got = MetadataAck_StateHash want).

Definition settingsToProtocol (c : PendingSettingsChange) : MeshSettingsChange :=
  mkMeshSettingsChange (PendingSettingsChange_ID c) (PendingSettingsChange_TargetNodeID c) (PendingSettingsChange_OriginNodeID c)
    (PendingSettingsChange_IdempotencyKey c) (PendingSettingsChange_Revision c) (PendingSettingsChange_Status c)
    (PendingSettingsChange_CreatedAt c) (PendingSettingsChange_UpdatedAt c) (PendingSettingsChange_SettingsPatch c)
    (PendingSettingsChange_LastError c).

(** An incoming change without a status counts as delivered. *)
Definition settingsToState (c : MeshSettingsChange) : PendingSettingsChange :=
  mkPendingSettingsChange (MeshSettingsChange_ID c) (MeshSettingsChange_TargetNodeID c) (MeshSettingsChange_OriginNodeID c)
    (MeshSettingsChange_IdempotencyKey c) (MeshSettingsChange_Revision c)
    (if bool_decide (MeshSettingsChange_Status c = EmptyString) then "delivered" else MeshSettingsChange_Status c)
    (MeshSettingsChange_CreatedAt c) (MeshSettingsChange_UpdatedAt c) (MeshSettingsChange_SettingsPatch c)
    (MeshSettingsChange_LastError c) [].

Section streams.
Context (sha256 : bytes -> bytes) (marshal : Manifest -> string).
Context (wire_len : Message -> Z) (error_text : StoreErr -> string) (sync_text : SyncErr -> string).

(** What [Codec.Write] says to a message, and [Codec.Read] to its line. *)
Definition sendable (msg : Message) : result SyncErr unit :=
  match validateMessage msg with
  | Err e => Err (ErrWire e)
  | Ok _ => if MaxMessageBytes <? wire_len msg then Err (ErrWire (ErrTooLarge (wire_len msg))) else Ok tt
  end.

Definition received (msg : Message) : result SyncErr Message :=
  let size := wire_len msg + 1 in
  if MaxMessageBytes <? size then Err (ErrWire (ErrTooLarge size))
  else match validateMessage msg with Err e => Err (ErrWire e) | Ok _ => Ok msg end.

(** ** The server: metadata *)

Record ServerConfig := mkServerConfig {
  ServerConfig_NodeID : string;
  ServerConfig_hasMetadataStore : bool;
  ServerConfig_hasPendingSettingsStore : bool;
  ServerConfig_MaxMetadataChangesPerMessage : Z
}.

Context (cfg : ServerConfig).

Definition metadataError (e : SyncErr) : Error :=
  match e with
  | ErrStore (ErrCompacted _ _ _ _ _ as compacted) => mkError "metadata_full_refresh_required" (error_text compacted)
  | _ => mkError "metadata_state" (sync_text e)
  end.

(** The store implements [ChangesSinceLimit]. *)
Definition changesSince (s : JSONStore) (folderID : string) (cursor : Z) : result StoreErr FolderChanges :=
  if 0 <? ServerConfig_MaxMetadataChangesPerMessage cfg
  then ChangesSinceLimit sha256 marshal s folderID cursor (ServerConfig_MaxMetadataChangesPerMessage cfg)
  else ChangesSince sha256 marshal s folderID cursor.

Definition localCursor (s : JSONStore) (folderID : string) : Z :=
  match FolderSummary_ sha256 marshal s folderID with Ok summary => FolderSummary_Cursor summary | Err _ => 0 end.

(** What the server of metadata waits for between two reads. *)
Record awaiting := mkAwaiting {
  aw_peer : string;
  aw_folder : string;
  aw_cursor : Z;
  aw_sent : MetadataChanges;
  aw_rest : list MetadataFolderSummary
}.

Inductive serverState :=
| Serving
| Awaiting (a : awaiting)
| Stopped (e : SyncErr).

(** [codec.Write(metadataError(err))] after the messages written before. *)
Definition answer_error (s : JSONStore) (sent : list Message) (reply : Error) : JSONStore * serverState * list Message :=
  let msg := MessageError (Some reply) in
  match sendable msg with
  | Ok _ => (s, Serving, sent ++ [msg])
  | Err e => (s, Stopped e, sent)
  end.

Definition fail_metadata (s : JSONStore) (e : SyncErr) := answer_error s [] (metadataError e).

(** One round of the inner loop: the next batch.  Other parts of the node may change
    the store between [ChangesSince] and the look at the local cursor: [later] is the
    store as that look finds it. *)
Definition next_batch (s later : JSONStore) (folderID : string) (cursor : Z) : result SyncErr MetadataChanges :=
  match changesSince s folderID cursor with
  | Err e => Err (ErrStore e)
  | Ok changes =>
      let msg := metadataChangesToProtocol changes (FolderChanges_ToCursor changes <? localCursor later folderID) in
      match sendable (MessageMetadataChanges (Some msg)) with Err e => Err e | Ok _ => Ok msg end
  end.

Context (meanwhile : JSONStore -> JSONStore).

Definition with_sent (msg : Message) (r : JSONStore * serverState * list Message) : JSONStore * serverState * list Message :=
  let '(s, st, out) := r in (s, st, msg :: out).

(** The loop over the folders, up to the next read. *)
Fixpoint serve_folders (s : JSONStore) (peerID : string) (folders : list MetadataFolderSummary) :
    JSONStore * serverState * list Message :=
  match folders with
  | [] => (s, Serving, [])
  | folder :: rest =>
      match SavePeerFolderState s peerID (summaryFromProtocol folder) with
      | (s, Err e) => fail_metadata s (ErrStore e)
      | (s, Ok _) =>
          let folderID := MetadataFolderSummary_FolderID folder in
          let cursor := MetadataFolderSummary_Cursor folder in
          let later := meanwhile s in
          match next_batch s later folderID cursor with
          | Err e => fail_metadata later e
          | Ok msg =>
              with_sent (MessageMetadataChanges (Some msg))
                (if MetadataChanges_More msg then (later, Awaiting (mkAwaiting peerID folderID cursor msg rest), [])
                 else serve_folders later peerID rest)
          end
      end
  end.

Definition serveMetadataState (s : JSONStore) (peerID : string) (remote : option MetadataState) :
    JSONStore * serverState * list Message :=
  match remote with
  | None => fail_metadata s (ErrMissing "metadata state payload")
  | Some remote =>
      let peerID := if bool_decide (MetadataState_PeerID remote <> EmptyString) then MetadataState_PeerID remote else peerID in
      if bool_decide (peerID = EmptyString) then fail_metadata s (ErrMissing "metadata peer id")
      else serve_folders s peerID (MetadataState_Folders remote)
  end.

(** [readMetadataAck]: whether to go on. *)
Definition readMetadataAck (msg : Message) (changes : MetadataChanges) : result SyncErr bool :=
  match msg with
  | MessageError p => Err (peer_error p)
  | MessageMetadataAck (Some got) =>
      if same_ack got (metadataAckForChanges changes false) then Ok (negb (MetadataAck_Stop got))
      else Err (ErrAckMismatch (MetadataChanges_FolderID changes) (MetadataChanges_FromCursor changes) (MetadataChanges_ToCursor changes))
  | _ => Err (ErrExpected "metadata ack" (message_type msg))
  end.

(** The rest of the inner loop after a batch that has more behind it. *)
Definition serve_ack (s : JSONStore) (a : awaiting) (msg : Message) : JSONStore * serverState * list Message :=
  match (msg ← received msg; readMetadataAck msg (aw_sent a)) with
  | Err e => fail_metadata s e
  | Ok keepSending =>
      let to := MetadataChanges_ToCursor (aw_sent a) in
      if negb keepSending || (to =? aw_cursor a) then serve_folders s (aw_peer a) (aw_rest a)
      else
        let later := meanwhile s in
        match next_batch s later (aw_folder a) to with
        | Err e => fail_metadata later e
        | Ok msg =>
            with_sent (MessageMetadataChanges (Some msg))
              (if MetadataChanges_More msg then (later, Awaiting (mkAwaiting (aw_peer a) (aw_folder a) to msg (aw_rest a)), [])
               else serve_folders later (aw_peer a) (aw_rest a))
        end
  end.

(** ** The server: settings *)

Definition queued_changes (changes : list PendingSettingsChange) : list MeshSettingsChange :=
  settingsToProtocol <$> List.filter (fun c => bool_decide (PendingSettingsChange_Status c = "queued")) changes.

Definition serveMeshSettingsChanges (s : JSONStore) (peerID : string) (request : option MeshSettingsChanges) : result SyncErr Message :=
  match request with
  | None => Err (ErrMissing "mesh settings changes payload")
  | Some request =>
      if negb (ServerConfig_hasPendingSettingsStore cfg) then Err (ErrMissing "pending settings store")
      else if bool_decide (peerID = EmptyString) then Err (ErrMissing "mesh settings peer id")
      else if bool_decide (MeshSettingsChanges_TargetNodeID request <> EmptyString)
              && bool_decide (MeshSettingsChanges_TargetNodeID request <> peerID)
      then Err (ErrTarget "mesh settings" (MeshSettingsChanges_TargetNodeID request) peerID)
      else match ListPendingSettingsChanges s peerID with
           | Err e => Err (ErrStore e)
           | Ok changes =>
               let msg := MessageMeshSettingsChanges (Some (mkMeshSettingsChanges peerID (queued_changes changes))) in
               match sendable msg with Err e => Err e | Ok _ => Ok msg end
           end
  end.

Fixpoint record_results (s : JSONStore) (target : string) (results : list MeshSettingsAckResult) : JSONStore * result SyncErr unit :=
  match results with
  | [] => (s, Ok tt)
  | r :: results' =>
      match UpdatePendingSettingsChangeStatus s target (MeshSettingsAckResult_ID r) (MeshSettingsAckResult_Status r)
              (MeshSettingsAckResult_UpdatedAt r) (MeshSettingsAckResult_LastError r) with
      | (s, Err e) => (s, Err (ErrStore e))
      | (s, Ok _) => record_results s target results'
      end
  end.

Definition recordMeshSettingsAck (s : JSONStore) (peerID : string) (ack : option MeshSettingsAck) : JSONStore * result SyncErr unit :=
  match ack with
  | None => (s, Err (ErrMissing "mesh settings ack payload"))
  | Some ack =>
      if negb (ServerConfig_hasPendingSettingsStore cfg) then (s, Err (ErrMissing "pending settings store"))
      else if bool_decide (peerID = EmptyString) then (s, Err (ErrMissing "mesh settings peer id"))
      else if bool_decide (MeshSettingsAck_TargetNodeID ack <> peerID)
      then (s, Err (ErrTarget "mesh settings ack" (MeshSettingsAck_TargetNodeID ack) peerID))
      else record_results s (MeshSettingsAck_TargetNodeID ack) (MeshSettingsAck_Results ack)
  end.

(** ** The client: metadata *)

Record PullOptions := mkPullOptions {
  PullOptions_NodeID : string;
  PullOptions_FolderID : string;
  PullOptions_MaxMetadataBatchesBeforeFileTransfer : Z
}.

Definition metadataSummaryForPeer (s : JSONStore) (peerID folderID : string) : result StoreErr FolderSummary :=
  match PeerStateVector s peerID with
  | Err e => Err e
  | Ok vector =>
      match List.find (fun summary => bool_decide (FolderSummary_FolderID summary = folderID)) vector with
      | Some summary => Ok summary
      | None => FolderSummary_ sha256 marshal s folderID
      end
  end.

(** What the client of metadata is at between two reads: the changes it has applied
    and its batches so far, or its result: [applied, stopped, fullRefresh]. *)
Inductive clientState :=
| Waiting (applied batches : Z)
| Finished (applied : Z) (stopped fullRefresh : bool)
| Failed (e : SyncErr).

Section client.
Context (opts : PullOptions) (peerID : string).

(** [exchangeMetadataState] up to its first read. *)
Definition exchange_start (s : JSONStore) : clientState * list Message :=
  match metadataSummaryForPeer s peerID (PullOptions_FolderID opts) with
  | Err e => (Failed (ErrStore e), [])
  | Ok summary =>
      let msg := MessageMetadataState (Some (mkMetadataState (PullOptions_NodeID opts) [summaryToProtocol summary])) in
      match sendable msg with
      | Err e => (Failed e, [])
      | Ok _ => (Waiting 0 0, [msg])
      end
  end.

Definition exchange_changes (s : JSONStore) (applied batches : Z) (msg : MetadataChanges) : JSONStore * clientState * list Message :=
  let changes := protocolChangesToState msg in
  match ApplyPeerFolderChanges sha256 marshal s peerID changes with
  | (s, Err e) => (s, Failed (ErrStore e), [])
  | (s, Ok _) =>
      let batches := batches + 1 in
      let applied := applied + Z.of_nat (length (FolderChanges_Changes changes)) in
      if MetadataChanges_More msg then
        let max := PullOptions_MaxMetadataBatchesBeforeFileTransfer opts in
        let stop := (0 <? max) && (max <=? batches) in
        let ack := MessageMetadataAck (Some (metadataAckForChanges msg stop)) in
        match sendable ack with
        | Err e => (s, Failed e, [])
        | Ok _ => (s, if stop then Finished applied true false else Waiting applied batches, [ack])
        end
      else (s, Finished applied false false, [])
  end.

(** One round of its loop, from a read to the next. *)
Definition exchange_round (s : JSONStore) (applied batches : Z) (msg : Message) : JSONStore * clientState * list Message :=
  match received msg with
  | Err e => (s, Failed e, [])
  | Ok (MessageError p) =>
      match p with
      | Some e => if bool_decide (Error_Code e = "metadata_full_refresh_required") then (s, Finished applied false true, [])
                  else (s, Failed (peer_error p), [])
      | None => (s, Failed (peer_error p), [])
      end
  | Ok (MessageMetadataChanges (Some msg)) => exchange_changes s applied batches msg
  | Ok msg => (s, Failed (ErrExpected "metadata changes" (message_type msg)), [])
  end.

Definition with_Path (path : string) (m : Manifest) : Manifest :=
  mkManifest path (Manifest_Size m) (Manifest_BlockSize m) (Manifest_Blocks m) (Manifest_HashState m) (Manifest_Damaged m)
    (Manifest_ModTimeUnixNano m) (Manifest_ChangeTimeUnixNano m) (Manifest_SeedBaselineModTimeUnixNano m)
    (Manifest_SeedBaselineChangeTimeUnixNano m).

(** [applyFullRefreshIndex]; the store replaces replicas. *)
Definition applyFullRefreshIndex (s : JSONStore) (index : FolderIndex) : JSONStore * result SyncErr unit :=
  match FolderIndex_MetadataSummary index with
  | None => (s, Err (ErrNoFullRefresh "metadata full refresh required but peer folder index has no metadata summary"))
  | Some summary =>
      let manifests := foldl (fun m f =>
        <[FolderIndexFile_RelativePath f := with_Path (FolderIndexFile_RelativePath f) (FolderIndexFile_Manifest f)]> m)
        ∅ (FolderIndex_Files index) in
      let revisions := foldl (fun m f => <[FolderIndexFile_RelativePath f := FolderIndexFile_Revision f]> m) ∅ (FolderIndex_Files index) in
      match ReplacePeerFolderFromFullRefresh s peerID (FolderIndex_FolderID index) (summaryFromProtocol summary) manifests revisions with
      | (s, Err e) => (s, Err (ErrStore e))
      | (s, Ok _) => (s, Ok tt)
      end
  end.

(** ** The client: settings *)

Section settings.
Context (quote : string -> string) (now : string).

Definition settings_request : result SyncErr Message :=
  if bool_decide (PullOptions_NodeID opts = EmptyString) then Err (ErrMissing "local node id")
  else let msg := MessageMeshSettingsChanges (Some (mkMeshSettingsChanges (PullOptions_NodeID opts) [])) in
       match sendable msg with Err e => Err e | Ok _ => Ok msg end.

Definition ack_message (results : list MeshSettingsAckResult) : Message :=
  MessageMeshSettingsAck (Some (mkMeshSettingsAck (PullOptions_NodeID opts) results)).

(** The loop over the incoming changes with the results so far; every store call may
    find a disk that refuses: [faults] says so for each change in turn, for its save
    and for the two writes of its application. *)
Fixpoint settings_loop (s : JSONStore) (faults : list (bool * bool * bool)) (changes : list MeshSettingsChange)
    (results : list MeshSettingsAckResult) (applied : Z) : JSONStore * result SyncErr Z * list Message :=
  let nodeID := PullOptions_NodeID opts in
  match changes with
  | [] =>
      match results with
      | [] => (s, Ok applied, [])
      | _ => match sendable (ack_message results) with
             | Err e => (s, Err e, [])
             | Ok _ => (s, Ok applied, [ack_message results])
             end
      end
  | incoming :: changes' =>
      if bool_decide (MeshSettingsChange_TargetNodeID incoming <> nodeID)
      then (s, Err (ErrTarget (MeshSettingsChange_ID incoming) (MeshSettingsChange_TargetNodeID incoming) nodeID), [])
      else
        let '(f0, f1, f2) := default (false, false, false) (head faults) in
        let change := settingsToState incoming in
        match SavePendingSettingsChange (with_fault f0 s) nodeID change with
        | (s, Err e) => (s, Err (ErrStore e), [])
        | (s, Ok _) =>
            match ApplyPendingSettingsChange quote f1 f2 s nodeID (PendingSettingsChange_ID change) now with
            | (s, (_, _, Some e)) =>
                let ack := ack_message (results ++ [mkMeshSettingsAckResult (PendingSettingsChange_ID change) "failed" now (error_text e)]) in
                match sendable ack with
                | Err e' => (s, Err e', [])
                | Ok _ => (s, Err (ErrStore e), [ack])
                end
            | (s, (_, appliedChange, None)) =>
                if bool_decide (PendingSettingsChange_Status appliedChange = "applied")
                then settings_loop s (tail faults) changes'
                       (results ++ [mkMeshSettingsAckResult (PendingSettingsChange_ID change) "acked"
                                      (PendingSettingsChange_UpdatedAt appliedChange) EmptyString]) (applied + 1)
                else settings_loop s (tail faults) changes' results applied
            end
        end
  end.

(** [exchangeMeshSettingsChanges] after its read of [msg]. *)
Definition settings_reply (s : JSONStore) (faults : list (bool * bool * bool)) (msg : Message) :
    JSONStore * result SyncErr Z * list Message :=
  match received msg with
  | Err e => (s, Err e, [])
  | Ok (MessageError p) => (s, Err (peer_error p), [])
  | Ok (MessageMeshSettingsChanges (Some msg)) =>
      if bool_decide (MeshSettingsChanges_TargetNodeID msg <> PullOptions_NodeID opts)
      then (s, Err (ErrTarget "mesh settings" (MeshSettingsChanges_TargetNodeID msg) (PullOptions_NodeID opts)), [])
      else settings_loop s faults (MeshSettingsChanges_Changes msg) [] 0
  | Ok msg => (s, Err (ErrExpected "mesh settings changes" (message_type msg)), [])
  end.
End settings.

(** ** A metadata exchange

    The client's messages go to the server and the server's answers back, in order. *)

Definition server_step (remotePeer : string) (s : JSONStore) (st : serverState) (msg : Message) :
    JSONStore * serverState * list Message :=
  match st with
  | Stopped e => (s, st, [])
  | Awaiting a => serve_ack s a msg
  | Serving =>
      match received msg with
      | Err e => (s, Stopped e, [])
      | Ok (MessageMetadataState p) =>
          if ServerConfig_hasMetadataStore cfg then serveMetadataState s remotePeer p
          else answer_error s [] (mkError "metadata_unavailable" "metadata store not configured")
      | Ok msg => (s, Stopped (ErrUnsupported (message_type msg)), [])
      end
  end.

Fixpoint server_steps (remotePeer : string) (s : JSONStore) (st : serverState) (msgs : list Message) :
    JSONStore * serverState * list Message :=
  match msgs with
  | [] => (s, st, [])
  | msg :: msgs' =>
      let '(s, st, out) := server_step remotePeer s st msg in
      let '(s, st, out') := server_steps remotePeer s st msgs' in (s, st, out ++ out')
  end.

Record exchange := mkExchange {
  ex_server : JSONStore;
  ex_serving : serverState;
  ex_client : JSONStore;
  ex_state : clientState;
  ex_answers : list Message
}.

(** A message to the client; [None] when the client is not waiting or nothing comes. *)
Definition exchange_step (remotePeer : string) (x : exchange) : option exchange :=
  match ex_state x, ex_answers x with
  | Waiting applied batches, msg :: answers =>
      let '(c, st, out) := exchange_round (ex_client x) applied batches msg in
      let '(s, serving, more) := server_steps remotePeer (ex_server x) (ex_serving x) out in
      Some (mkExchange s serving c st (answers ++ more))
  | _, _ => None
  end.

Definition exchange_begin (remotePeer : string) (server client : JSONStore) : exchange :=
  let '(st, out) := exchange_start client in
  let '(s, serving, answers) := server_steps remotePeer server Serving out in
  mkExchange s serving client st answers.

Fixpoint exchange_run (fuel : nat) (remotePeer : string) (x : exchange) : exchange :=
  match fuel with
  | O => x
  | S fuel => match exchange_step remotePeer x with None => x | Some x => exchange_run fuel remotePeer x end
  end.
End client.
End streams.

(** ** Properties *)

(** *** Stores whose disk works *)

Definition writable (s : JSONStore) : Prop := with_fault false s = s.

Lemma save_writable s snap snap' :
  load s = Ok snap -> writable s ->
  exists s', save s snap' = (s', Ok tt) /\ writable s' /\ load s' = Ok (normalizeLoadedSnapshot snap').
Proof.
  unfold writable, with_fault, load, save. intros Hl Hw. destruct s as [[[file rf wf]|]]; [|done].
  simpl in *. injection Hw as <-. unfold backend_Save, backend_Load in *. simpl in *.
  eexists. split; [reflexivity|]. simpl. by destruct rf.
Qed.

Lemma modify_writable s f snap snap' :
  load s = Ok snap -> writable s -> f snap = Ok snap' ->
  exists s', modify s f = (s', Ok tt) /\ writable s' /\ load s' = Ok (normalizeLoadedSnapshot snap').
Proof. intros Hl Hw Hf. unfold modify. rewrite Hl. simpl. rewrite Hf. by eapply save_writable. Qed.

Lemma normalized_view snap f :
  wf_meta (snap_local snap) -> view (snap_local (normalizeLoadedSnapshot snap)) f = view (snap_local snap) f.
Proof. intros W. apply (normalizeSnapshot_id (snap_local snap) (wf_loadable_meta _ W) f). Qed.

Lemma normalized_wf snap : wf_meta (snap_local snap) -> wf_meta (snap_local (normalizeLoadedSnapshot snap)).
Proof. intros W f. rewrite normalized_view by done. apply W. Qed.

Definition run_store (folderID : string) (s : JSONStore) (ops : list folderOp) : JSONStore :=
  foldl (fun s op => (op_store s folderID op).1) s ops.

Lemma op_store_run folderID s snap op :
  load s = Ok snap -> wf_meta (snap_local snap) -> writable s ->
  folderID <> EmptyString -> empty_path op = false -> op_ok op ->
  cursor (view (snap_local snap) folderID) + 1 < 2 ^ 64 ->
  exists snap', writable (op_store s folderID op).1 /\ load (op_store s folderID op).1 = Ok snap'
    /\ wf_meta (snap_local snap')
    /\ view (snap_local snap') folderID = apply_op (view (snap_local snap) folderID) op
    /\ CompactionSnapshots snap' = CompactionSnapshots snap.
Proof.
  intros Hl W Hw Hf Hp Hok Hlt. rewrite op_store_modify by done.
  destruct (modify_writable s (fun snap => Ok (with_local (op_snap folderID op (snap_local snap)) snap)) snap _ Hl Hw eq_refl)
    as (s' & -> & Hw' & Hl').
  set (m' := op_snap folderID op (snap_local snap)) in *.
  assert (wf_meta m') as W'.
  { intros g. unfold m'. rewrite view_op_snap. case_decide; [by apply wf_op|]. apply W. }
  eexists. split_and!; [done|exact Hl'|by apply normalized_wf| |done].
  rewrite normalized_view by done. simpl. unfold m'. by rewrite view_op_snap, decide_True.
Qed.

Lemma run_store_view folderID s snap ops :
  load s = Ok snap -> wf_meta (snap_local snap) -> writable s ->
  folderID <> EmptyString -> Forall (fun op => empty_path op = false) ops -> Forall op_ok ops ->
  cursor (view (snap_local snap) folderID) + Z.of_nat (length ops) < 2 ^ 64 ->
  exists snap', writable (run_store folderID s ops) /\ load (run_store folderID s ops) = Ok snap'
    /\ wf_meta (snap_local snap')
    /\ view (snap_local snap') folderID = run (view (snap_local snap) folderID) ops
    /\ CompactionSnapshots snap' = CompactionSnapshots snap.
Proof.
  intros Hl W Hw Hf Hp Hok. revert s snap Hl W Hw. induction ops as [|op ops IH]; intros s snap Hl W Hw Hlen.
  { by exists snap. }
  apply Forall_cons in Hp as [Hp Hps]. apply Forall_cons in Hok as [Hok Hoks]. cbn [length] in Hlen.
  destruct (op_store_run folderID s snap op) as (snap' & Hw' & Hl' & W' & Hv & Hc); [done..|lia|].
  pose proof (wf_cursor _ (W folderID)).
  destruct (IH Hps Hoks _ snap' Hl' W' Hw') as (snap2 & ? & ? & ? & Hv2 & Hc2).
  { rewrite Hv, cursor_apply_op; lia. }
  exists snap2. split_and!; [done..| |by rewrite Hc2]. by rewrite Hv2, Hv.
Qed.

Lemma compaction_later snap f c c' :
  c <= c' -> metadataCompactionCursorError snap f c = Ok tt -> metadataCompactionCursorError snap f c' = Ok tt.
Proof.
  rewrite !metadataCompactionCursorError_ok. intros Hc H. eapply Forall_impl; [exact H|]. simpl. lia.
Qed.

(** *** What goes over the wire *)

Definition known_kind (c : FolderChange) : Prop :=
  FolderChange_Kind c = ChangeUpsert \/ FolderChange_Kind c = ChangeDelete \/ FolderChange_Kind c = ChangeMove.

Lemma change_roundtrip c : known_kind c -> changeToState (changeToProtocol c) = c.
Proof. destruct c as [kind from path rev m]. unfold known_kind. simpl. by intros [->|[->| ->]]. Qed.

Lemma changes_roundtrip changes more :
  Forall known_kind (FolderChanges_Changes changes) ->
  protocolChangesToState (metadataChangesToProtocol changes more) = changes.
Proof.
  intros H. destruct changes as [f from to hash cs]. unfold protocolChangesToState, metadataChangesToProtocol. simpl in *. f_equal.
  rewrite <- list_fmap_compose. rewrite (list_fmap_ext _ id); [apply list_fmap_id|].
  intros i c Hc. apply change_roundtrip. eapply Forall_lookup_1; done.
Qed.

Lemma summary_roundtrip s : summaryFromProtocol (summaryToProtocol s) = s.
Proof. by destruct s. Qed.

Lemma eachi_ok {A} (f : Z -> A -> result ProtoErr unit) i l :
  (forall j x, x ∈ l -> f j x = Ok tt) -> eachi f i l = Ok tt.
Proof.
  revert i. induction l as [|x l IH]; intros i H; simpl; [done|]. rewrite H by left. simpl. apply IH.
  intros j y Hy. apply H. by right.
Qed.

Lemma given_ok s : s <> EmptyString -> given s = true.
Proof. intros H. unfold given. by rewrite bool_decide_eq_false_2. Qed.

(** A change of a batch a peer accepts is one the codec accepts. *)
Lemma validateChange_ok from to i c :
  valid_change from to c -> FolderChange_Path c <> EmptyString -> validateChange i (changeToProtocol c) = Ok tt.
Proof.
  intros [_ Hk] Hp. destruct c as [kind frm path rev m]. unfold validateChange, changeToProtocol, need. simpl in *.
  rewrite (given_ok _ Hp). destruct Hk as [[-> [m' ->]]|[->|(-> & Hf & [m' ->])]]; simpl; [done|done|].
  by rewrite (given_ok _ Hf).
Qed.

Section exchange_proofs.
Context (sha256 : bytes -> bytes) (marshal : Manifest -> string).
Context (wire_len : Message -> Z) (error_text : StoreErr -> string) (sync_text : SyncErr -> string).
Context (cfg : ServerConfig) (opts : PullOptions) (peerID remotePeer : string).
Hypothesis (Hstore : ServerConfig_hasMetadataStore cfg = true).
Hypothesis (Hlimit : ServerConfig_MaxMetadataChangesPerMessage cfg <= 0).
Hypothesis (Hnode : PullOptions_NodeID opts <> EmptyString).
Hypothesis (Hfolder : PullOptions_FolderID opts <> EmptyString).
Hypothesis (Hpeer : peerID <> EmptyString).

Abbreviation folderID := (PullOptions_FolderID opts).
Abbreviation serve := (serveMetadataState sha256 marshal wire_len error_text sync_text cfg (fun s => s)).
Abbreviation begin := (exchange_begin sha256 marshal wire_len error_text sync_text cfg (fun s => s) opts peerID remotePeer).
Abbreviation go := (exchange_run sha256 marshal wire_len error_text sync_text cfg (fun s => s) opts peerID).
Abbreviation small := (fun msg => wire_len msg < MaxMessageBytes).

Lemma small_ok msg : validateMessage msg = Ok tt -> small msg ->
  sendable wire_len msg = Ok tt /\ received wire_len msg = Ok msg.
Proof.
  cbn beta. intros Hv Hs. unfold sendable, received. rewrite Hv. cbn zeta.
  rewrite !(proj2 (Z.ltb_ge _ _)) by lia. done.
Qed.

(** No path of the folder is the empty string. *)
Definition named (v : folder) : Prop := revs v !! EmptyString = None /\ tombs v !! EmptyString = None.

Definition batch_message (m : folderMeta) (from : Z) : Message :=
  MessageMetadataChanges (Some (metadataChangesToProtocol (batch_of sha256 marshal m folderID from) false)).

Definition state_message (summary : FolderSummary) : Message :=
  MessageMetadataState (Some (mkMetadataState (PullOptions_NodeID opts) [summaryToProtocol summary])).

Lemma valid_kind from to c : valid_change from to c -> known_kind c.
Proof. intros [_ [[? _]|[?|[? _]]]]; unfold known_kind; tauto. Qed.

Lemma batch_valid m from :
  wf (view m folderID) -> named (view m folderID) ->
  Forall (valid_change from (cursor (view m folderID))) (collectChanges m folderID from) ->
  validateMessage (batch_message m from) = Ok tt.
Proof.
  intros W [Hr Ht] Hv. unfold batch_message. simpl. rewrite (given_ok _ Hfolder). simpl. apply eachi_ok.
  intros j x (c & -> & Hc)%list_elem_of_fmap. rewrite Forall_forall in Hv.
  eapply validateChange_ok; [by apply Hv|]. intros He.
  apply elem_of_collectChanges in Hc as [(y & r & Hy & _ & Hl)|(y & t & Hy & _ & _ & ->)]; [| |done].
  - destruct Hl as [(h & _ & ->)|[_ ->]]; simpl in He; subst y; congruence.
  - simpl in He. subst y. congruence.
Qed.

(** The server's half. *)
Lemma serve_batch s snap summary :
  load s = Ok snap -> wf_meta (snap_local snap) -> writable s ->
  fits (view (snap_local snap) folderID) -> FolderSummary_FolderID summary = folderID ->
  metadataCompactionCursorError snap folderID (FolderSummary_Cursor summary) = Ok tt ->
  (forall m, view m folderID = view (snap_local snap) folderID ->
     sendable wire_len (batch_message m (FolderSummary_Cursor summary)) = Ok tt) ->
  exists s' snap',
    serve s remotePeer (Some (mkMetadataState (PullOptions_NodeID opts) [summaryToProtocol summary]))
      = (s', Serving, [batch_message (snap_local snap') (FolderSummary_Cursor summary)])
    /\ writable s' /\ load s' = Ok snap' /\ wf_meta (snap_local snap')
    /\ view (snap_local snap') folderID = view (snap_local snap) folderID
    /\ CompactionSnapshots snap' = CompactionSnapshots snap
    /\ peerState (snap_peer snap') (PullOptions_NodeID opts) folderID = summary.
Proof.
  intros Hl W Hw Hfit Hid Hcomp Hsend.
  destruct (modify_writable s
    (fun snap => Ok (with_peer (savePeerState (PullOptions_NodeID opts) summary (snap_peer snap)) snap)) snap _ Hl Hw eq_refl)
    as (s' & Hsave & Hw' & Hl').
  set (snap1 := with_peer _ _) in *. set (snap' := normalizeLoadedSnapshot snap1) in *.
  assert (view (snap_local snap') folderID = view (snap_local snap) folderID) as Hv.
  { unfold snap'. by rewrite normalized_view. }
  exists s', snap'. split_and!; [|done..|by apply normalized_wf|done| |].
  2: { reflexivity. }
  2: { unfold peerState. subst snap' snap1. simpl. rewrite Hid, inner_put2_eq, lookup_insert_eq. done. }
  unfold serveMetadataState. cbn [MetadataState_PeerID MetadataState_Folders].
  rewrite (bool_decide_eq_true_2 (PullOptions_NodeID opts <> EmptyString)) by done.
  rewrite (bool_decide_eq_false_2 _ Hnode). cbn [serve_folders]. rewrite summary_roundtrip.
  unfold SavePeerFolderState. rewrite Hsave. cbn [summaryToProtocol MetadataFolderSummary_FolderID MetadataFolderSummary_Cursor].
  rewrite Hid. unfold next_batch, changesSince. rewrite (proj2 (Z.ltb_ge _ _)) by done.
  rewrite (ChangesSince_batch _ _ _ snap') by (rewrite ?Hv; done).
  unfold localCursor, FolderSummary_. rewrite Hl'. cbn [mbind result_bind].
  rewrite folderSummary_view by by rewrite Hv. 
  cbn [batch_of FolderChanges_ToCursor summary_of FolderSummary_Cursor]. rewrite Z.ltb_irrefl.
  pose proof (Hsend _ Hv) as Hs. unfold batch_message in Hs. unfold sendable in *. rewrite Hs. done.
Qed.

(** Every state kept of the server is filed under the folder it is of. *)
Definition filed (s : JSONStore) : Prop := forall snap f summary,
  load s = Ok snap -> inner (PeerStates (snap_peer snap)) peerID !! f = Some summary -> FolderSummary_FolderID summary = f.

Lemma summaryForPeer_holds s v :
  filed s -> holds sha256 marshal s peerID folderID v -> is_Some (peers s ≫= fun p => inner (PeerStates p) peerID !! folderID) ->
  metadataSummaryForPeer sha256 marshal s peerID folderID = Ok (summary_of sha256 marshal folderID v).
Proof.
  intros Hf (snap & Hl & _ & _ & Hst) Hk. unfold peers in Hk. rewrite Hl in Hk. simpl in Hk. destruct Hk as [summary Hk].
  unfold peerState in Hst. rewrite Hk in Hst. simpl in Hst. subst summary.
  unfold metadataSummaryForPeer, PeerStateVector. rewrite Hl. simpl.
  destruct (List.find _ _) as [x|] eqn:Hx.
  - apply find_some in Hx as [Hin Hx%bool_decide_eq_true]. f_equal.
    apply list_elem_of_In, elem_of_sort_by, list_elem_of_fmap in Hin as ([f y] & -> & Hin%elem_of_map_to_list).
    simpl in *. pose proof (Hf _ _ _ Hl Hin) as Hfy. congruence.
  - exfalso. eapply find_none with (x := summary_of sha256 marshal folderID v) in Hx.
    + simpl in Hx. by rewrite bool_decide_eq_true_2 in Hx.
    + apply list_elem_of_In, elem_of_sort_by, list_elem_of_fmap. exists (folderID, summary_of sha256 marshal folderID v).
      split; [done|]. by apply elem_of_map_to_list.
Qed.

(** The client's half. *)
Lemma exchange_batch c csnap v0 m :
  let v := view m folderID in
  wf v -> behind (replica_of (snap_peer csnap) peerID folderID) v (cursor v0) ->
  settled (replica_of (snap_peer csnap) peerID folderID) v (cursor v0) -> fits v -> named v ->
  load c = Ok csnap -> writable c -> filed c -> peerCursor (snap_peer csnap) peerID folderID = cursor v0 ->
  small (batch_message m (cursor v0)) ->
  exists c', exchange_round sha256 marshal wire_len opts peerID c 0 0 (batch_message m (cursor v0))
      = (c', Finished (Z.of_nat (length (collectChanges m folderID (cursor v0)))) false false, [])
    /\ writable c' /\ filed c' /\ holds sha256 marshal c' peerID folderID v
    /\ metadataSummaryForPeer sha256 marshal c' peerID folderID = Ok (summary_of sha256 marshal folderID v).
Proof.
  intros v W B K Hfit Hnm Hl Hw Hfc Hcur Hsm.
  pose proof (changes_valid m folderID _ _ _ eq_refl W K) as Hval.
  destruct (apply_batch sha256 marshal v0 folderID m c csnap peerID W B K Hfit Hl Hpeer Hfolder Hcur) as (r & cp & Hr & Happ).
  fold v in Hr, Happ.
  destruct (save_writable c csnap _ Hl Hw : exists s', save c (with_peer (with_replica peerID folderID r (cursor v)
    (summary_of sha256 marshal folderID v) cp (snap_peer csnap)) csnap) = (s', Ok tt) /\ _) as (c' & Hs & Hw' & Hl').
  pose proof (holds_saved _ _ _ _ _ _ _ _ _ _ Hl Hr Hs) as Hh.
  assert (filed c') as Hf'.
  { intros snap f x Hlx. rewrite Hl' in Hlx. injection Hlx as <-. simpl.
    destruct (decide (f = folderID)) as [->|Hne].
    - rewrite inner_put2_eq, lookup_insert_eq. by intros [= <-].
    - rewrite inner_put2_eq, lookup_insert_ne by done. by apply Hfc. }
  exists c'. split_and!; [|done..|].
  2:{ apply summaryForPeer_holds; [done..|]. unfold peers. rewrite Hl'. simpl. rewrite inner_put2_eq, lookup_insert_eq. by eexists. }
  destruct (small_ok (batch_message m (cursor v0))) as [_ Hrec]; [by apply batch_valid|done|].
  unfold exchange_round. rewrite Hrec. unfold batch_message, exchange_changes. cbv beta zeta.
  rewrite changes_roundtrip.
  2:{ eapply Forall_impl; [exact Hval|]. intros x. apply valid_kind. }
  rewrite Happ, Hs. done.
Qed.

(** A client that has caught up with its server's folder in the state [v]. *)
Record linked (v : folder) (server client : JSONStore) : Prop := {
  linked_server : exists snap, load server = Ok snap /\ wf_meta (snap_local snap)
    /\ view (snap_local snap) folderID = v /\ metadataCompactionCursorError snap folderID (cursor v) = Ok tt;
  linked_hints : hints v !! EmptyString = None;
  linked_disks : writable server /\ writable client;
  linked_client : exists snap, load client = Ok snap
    /\ in_sync (replica_of (snap_peer snap) peerID folderID) v /\ peerCursor (snap_peer snap) peerID folderID = cursor v;
  linked_filed : filed client;
  linked_asks : exists summary, metadataSummaryForPeer sha256 marshal client peerID folderID = Ok summary
    /\ FolderSummary_FolderID summary = folderID /\ FolderSummary_Cursor summary = cursor v
    /\ FolderSummary_StateHash summary <> EmptyString
}.

Lemma summary_of_hash v : (forall l, sha256 l <> []) ->
  FolderSummary_StateHash (summary_of sha256 marshal folderID v) <> EmptyString.
Proof.
  intros Hsha. simpl. unfold stateHash.
  pose proof (Hsha (String.list_byte_of_string (hashStream marshal (files v) (revs v) (tombs v)))) as H.
  by destruct (sha256 _) as [|b l].
Qed.

Lemma exchange_begin_one server client summary s' m :
  metadataSummaryForPeer sha256 marshal client peerID folderID = Ok summary ->
  FolderSummary_FolderID summary = folderID -> FolderSummary_StateHash summary <> EmptyString -> small (state_message summary) ->
  serve server remotePeer (Some (mkMetadataState (PullOptions_NodeID opts) [summaryToProtocol summary]))
    = (s', Serving, [m]) ->
  begin server client = mkExchange s' Serving client (Waiting 0 0) [m].
Proof.
  intros Hs Hid Hh Hsm Hserve.
  destruct (small_ok (state_message summary)) as [H1 H2]; [|done|].
  { unfold state_message, validateMessage, payload. cbn [MetadataState_Folders eachi].
    unfold validateStateFolder, need, summaryToProtocol. cbn [MetadataFolderSummary_FolderID MetadataFolderSummary_StateHash].
    by rewrite Hid, (given_ok _ Hfolder), (given_ok _ Hh). }
  unfold exchange_begin, exchange_start. rewrite Hs. fold (state_message summary). rewrite H1.
  cbn [server_steps]. unfold server_step. rewrite H2. unfold state_message at 1. rewrite Hstore, Hserve. done.
Qed.

Lemma exchange_run_finished fuel s serving c applied stop full l :
  go fuel remotePeer (mkExchange s serving c (Finished applied stop full) l)
  = mkExchange s serving c (Finished applied stop full) l.
Proof. by destruct fuel. Qed.

(** [C7] A metadata exchange brings the client up to date and leaves it ready for the
    next one. Let the client be linked to the server's folder at some state (it
    holds that state and both know it), and let the server then run a quiet batch of
    saves, deletes and renames (no other operation touches an end of a rename). If
    batches are not limited (as in every configuration), nothing changes at the
    server while the exchange runs, all messages fit the protocol's limit, no
    compaction passed the cursor, hashes are not empty, revisions fit 64 bits and
    both stores work, then one exchange - the client's state, the server's answer,
    the client's application - ends by itself, without a stop or a full refresh,
    both sides idle, the client holding the server's new state and linked to it. The
    conditions matter: [first_pull_mismatch], [both_ways_rejected],
    [chunk_rejected], [promised_more]. *)
Theorem exchange_catches_up v0 server0 client ops fuel :
  let server := run_store folderID server0 ops in
  let v := run v0 ops in
  linked v0 server0 client ->
  Forall op_ok ops -> Forall (fun op => empty_path op = false) ops -> quiet ops ->
  cursor v0 + Z.of_nat (length ops) < 2 ^ 64 -> fits v -> named v -> (forall l, sha256 l <> []) ->
  (forall summary, metadataSummaryForPeer sha256 marshal client peerID folderID = Ok summary -> small (state_message summary)) ->
  (forall m, view m folderID = v -> small (batch_message m (cursor v0))) ->
  exists x applied, go (S fuel) remotePeer (begin server client) = x
    /\ ex_state x = Finished applied false false /\ ex_serving x = Serving /\ ex_answers x = []
    /\ holds sha256 marshal (ex_client x) peerID folderID v
    /\ linked v (ex_server x) (ex_client x).
Proof.
  intros server v [(snap0 & Hl0 & W0 & Hv0 & Hc0) Hh0 [Hw0 Hwc] (csnap & Hlc & Hsync & Hcur) Hfc (summary & Hs & Hid & Hscur & Hhash)]
    Hok Hne Q Hlen Hfit Hnm Hsha Hsm1 Hsm2. rewrite <- Hv0 in Hlen.
  destruct (run_store_view folderID server0 snap0 ops) as (snap & Hw & Hl & W & Hv & Hcomp); [done..|].
  fold server in Hw, Hl. rewrite Hv0 in Hv, Hlen. fold v in Hv.
  assert (wf v0) as Wv0 by (rewrite <- Hv0; apply W0).
  destruct (quiet_run _ v0 ops Wv0 Hsync Hh0 Hlen Hok Hne Q) as (Wv & Hc & B & Bt & Hh). fold v in Wv, Hc, B, Bt, Hh.
  pose proof (batch_settled _ _ _ _ Wv0 Wv Hsync Hh Bt) as K.
  destruct (serve_batch server snap summary) as (s' & snap' & Hserve & Hw' & Hl' & W' & Hv' & Hcomp' & _);
    [done|done|done|by rewrite Hv|done| | |].
  { rewrite Hscur. unfold metadataCompactionCursorError in *. by rewrite Hcomp. }
  { intros m Hm. rewrite Hscur. rewrite Hv in Hm.
    apply small_ok; [|by apply Hsm2]. subst v. rewrite <- Hm in *. apply batch_valid; [done|done|].
    by apply (changes_valid m folderID _ _ _ eq_refl Wv K). }
  rewrite Hscur in Hserve. rewrite Hv in Hv'.
  destruct (exchange_batch client csnap v0 (snap_local snap')) as (c' & Hround & Hwc' & Hfc' & Hholds & Hs');
    [by rewrite Hv'..|done|done|done|done|by apply Hsm2|]. rewrite Hv' in Hholds, Hs'.
  rewrite (exchange_begin_one _ _ _ _ _ Hs Hid Hhash (Hsm1 _ Hs) Hserve).
  cbn [exchange_run]. unfold exchange_step. cbn [ex_state ex_answers ex_client ex_serving ex_server].
  rewrite Hround. cbn [server_steps app]. rewrite exchange_run_finished.
  eexists _, _. split; [reflexivity|]. cbn [ex_state ex_answers ex_client ex_serving ex_server]. split_and!; [done..|].
  destruct Hholds as (csnap' & Hlc' & Hsync' & Hcur' & Hst'). split.
  - exists snap'. split_and!; [done..|]. unfold metadataCompactionCursorError in *. rewrite Hcomp', Hcomp.
    apply (compaction_later snap0 folderID (cursor v0)); [lia|done].
  - done.
  - done.
  - by exists csnap'.
  - done.
  - exists (summary_of sha256 marshal folderID v). split_and!; [done..|by apply summary_of_hash].
Qed.
End exchange_proofs.

(** *** Concrete exchanges *)

Definition demo_sha (l : bytes) : bytes := Byte.x00 :: l.
Definition demo_server : ServerConfig := mkServerConfig "server" true true 0.
Definition demo_opts (node : string) : PullOptions := mkPullOptions node "docs" 0.


(** *** Settings *)

Section settings_proofs.
Context (cfg : ServerConfig).

Definition reported (results : list MeshSettingsAckResult) (id : string) : Prop := id ∈ MeshSettingsAckResult_ID <$> results.

#[local] Instance reported_dec results id : Decision (reported results id).
Proof. unfold reported. apply _. Defined.

(** What recording results does to a target's stored changes. *)
Record recorded (g g' : settingsMeta) (t : string) (results : list MeshSettingsAckResult) : Prop := {
  recorded_documents : NodeSettings g' = NodeSettings g;
  recorded_keyed : keyed g';
  recorded_others t' : t' <> t -> inner (PendingSettings g') t' = inner (PendingSettings g) t';
  recorded_kept id : ~ reported results id -> inner (PendingSettings g') t !! id = inner (PendingSettings g) t !! id;
  recorded_set id : reported results id -> exists c c' r, stored g t id c /\ stored g' t id c' /\
    r ∈ results /\ MeshSettingsAckResult_ID r = id /\ PendingSettingsChange_Status c' = MeshSettingsAckResult_Status r /\
    PendingSettingsChange_Status c' <> "queued"
}.

Lemma stored_put g t next id c :
  stored (put_change t next g) t id c <->
  (PendingSettingsChange_ID next = id /\ c = next) \/ (PendingSettingsChange_ID next <> id /\ stored g t id c).
Proof. unfold stored. cbn [put_change PendingSettings]. rewrite inner_put2_eq, lookup_insert_Some. naive_solver. Qed.

Lemma update_recorded s g t r s' :
  settings_of s = Ok g -> keyed g ->
  UpdatePendingSettingsChangeStatus s t (MeshSettingsAckResult_ID r) (MeshSettingsAckResult_Status r)
    (MeshSettingsAckResult_UpdatedAt r) (MeshSettingsAckResult_LastError r) = (s', Ok tt) ->
  exists g', settings_of s' = Ok g' /\ recorded g g' t [r].
Proof.
  intros Hg Hk. unfold UpdatePendingSettingsChangeStatus. destruct (bool_decide (t = _)); [done|].
  destruct (bool_decide (MeshSettingsAckResult_ID r = _)); [done|].
  destruct (bool_decide_reflect (MeshSettingsAckResult_Status r <> "acked")) as [Ha|Ha];
    destruct (bool_decide_reflect (MeshSettingsAckResult_Status r <> "failed")) as [Hf|Hf]; cbn [andb]; [done| | |].
  3: { apply dec_stable in Ha, Hf. congruence. }
  all: assert (MeshSettingsAckResult_Status r <> "queued") as Hq
    by (first [apply dec_stable in Ha as -> | apply dec_stable in Hf as ->]; discriminate).
  all: destruct (_ && _); [done|]; rewrite (LoadPendingSettingsChange_of _ _ _ _ Hg);
    destruct (inner (PendingSettings g) t !! MeshSettingsAckResult_ID r) as [c|] eqn:Hc; [|done]; intros Hs;
    pose proof (SavePending_cases s t (set_status (MeshSettingsAckResult_Status r) (MeshSettingsAckResult_UpdatedAt r)
      (MeshSettingsAckResult_LastError r) c) g Hg) as H; rewrite Hs in H.
  all: eexists; split; [exact H|]; pose proof (Hk _ _ _ Hc) as Hid.
  all: set (c' := audited_form g t _);
    assert (PendingSettingsChange_ID c' = MeshSettingsAckResult_ID r) as Hid' by exact Hid;
    assert (PendingSettingsChange_Status c' = MeshSettingsAckResult_Status r) as Hst by reflexivity; clearbody c'.
  all: split; [done| | | |].
  all: try (intros t' Ht; cbn [put_change PendingSettings]; by rewrite inner_put2_ne).
  all: try (intros id Hid2; cbn [put_change PendingSettings]; rewrite inner_put2_eq, Hid', lookup_insert_ne; [done|];
    intros <-; apply Hid2; left).
  all: try (intros id Hr; apply list_elem_of_singleton in Hr as ->; exists c, c', r; split_and!; [done| |by left|done..|by rewrite Hst];
    apply stored_put; by left).
  all: intros t' id x Hx; destruct (decide (t' = t)) as [->|Ht];
    [apply stored_put in Hx as [[<- ->]|[_ Hx]]; [done|by apply (Hk t)]|];
    apply (Hk t'); unfold stored in *; cbn [put_change PendingSettings] in Hx; by rewrite inner_put2_ne in Hx.
Qed.

Lemma recorded_trans g1 g2 g3 t r results :
  recorded g1 g2 t [r] -> recorded g2 g3 t results -> recorded g1 g3 t (r :: results).
Proof.
  intros R1 R2. split.
  - by rewrite (recorded_documents _ _ _ _ R2), (recorded_documents _ _ _ _ R1).
  - apply (recorded_keyed _ _ _ _ R2).
  - intros t' Ht. by rewrite (recorded_others _ _ _ _ R2), (recorded_others _ _ _ _ R1).
  - intros id Hid. rewrite (recorded_kept _ _ _ _ R2), (recorded_kept _ _ _ _ R1); [done| |];
      intros H; apply Hid; unfold reported in *; simpl in *; [apply list_elem_of_singleton in H as ->; left|by right].
  - intros id Hid. destruct (decide (reported results id)) as [H|H].
    + destruct (recorded_set _ _ _ _ R2 id H) as (c & c' & r' & Hc & Hc' & Hin & Hi & Hs & Hq).
      destruct (decide (id = MeshSettingsAckResult_ID r)) as [->|Hne].
      * destruct (recorded_set _ _ _ _ R1 (MeshSettingsAckResult_ID r)) as (c0 & _ & _ & Hc0 & _); [left|].
        exists c0, c', r'. split_and!; [done|done|by right|done..].
      * exists c, c', r'. split_and!; [|done|by right|done..]. unfold stored in *.
        rewrite <- (recorded_kept _ _ _ _ R1); [done|]. by intros ?%list_elem_of_singleton.
    + destruct (recorded_set _ _ _ _ R1 id) as (c & c' & r' & Hc & Hc' & Hin & Hi & Hs & Hq).
      { unfold reported in *. simpl in *. apply elem_of_cons in Hid as [->|Hid]; [left|done]. }
      exists c, c', r'. split_and!; [done| | |done..].
      * unfold stored in *. by rewrite (recorded_kept _ _ _ _ R2).
      * apply list_elem_of_singleton in Hin as ->. left.
Qed.

Lemma recorded_nil g t : keyed g -> recorded g g t [].
Proof. intros Hk. split; [done|done|done|done|]. by intros id ?%elem_of_nil. Qed.

Lemma record_results_recorded s g t results s' :
  settings_of s = Ok g -> keyed g -> record_results s t results = (s', Ok tt) ->
  exists g', settings_of s' = Ok g' /\ recorded g g' t results.
Proof.
  revert s g. induction results as [|r results IH]; intros s g Hg Hk Hr; simpl in Hr.
  { injection Hr as <-. exists g. split; [done|by apply recorded_nil]. }
  destruct (UpdatePendingSettingsChangeStatus _ _ _ _ _ _) as [s1 [[]|e]] eqn:Hu; [|done].
  destruct (update_recorded s g t r s1 Hg Hk Hu) as (g1 & Hg1 & R1).
  destruct (IH s1 g1 Hg1 (recorded_keyed _ _ _ _ R1) Hr) as (g2 & Hg2 & R2).
  exists g2. split; [done|]. by eapply recorded_trans.
Qed.

Lemma sorted_keys_dom {V} (m m' : gmap string V) : dom m = dom m' -> sorted_keys m = sorted_keys m'.
Proof.
  intros Hd. apply sort_by_unique; [apply _|intros x y _ _; intros [H1 H2]; by apply st_conn|].
  apply NoDup_Permutation; [apply NoDup_fst_map_to_list..|]. intros x.
  rewrite !elem_of_keys, <- !elem_of_dom. by rewrite Hd.
Qed.

Lemma recorded_keys g g' t results : recorded g g' t results ->
  sorted_keys (inner (PendingSettings g') t) = sorted_keys (inner (PendingSettings g) t).
Proof.
  intros R. apply sorted_keys_dom, set_eq. intros id. rewrite !elem_of_dom.
  destruct (decide (reported results id)) as [H|H].
  - destruct (recorded_set _ _ _ _ R id H) as (c & c' & _ & Hc & Hc' & _). unfold stored in *. by rewrite Hc, Hc'.
  - by rewrite (recorded_kept _ _ _ _ R id H).
Qed.

Lemma queued_cons c l :
  queued_changes (c :: l) = if bool_decide (PendingSettingsChange_Status c = "queued")
                            then settingsToProtocol c :: queued_changes l else queued_changes l.
Proof. unfold queued_changes. simpl. by case_bool_decide. Qed.

Lemma omap_cons_eq {A B} (f : A -> option B) x l :
  omap f (x :: l) = match f x with Some y => y :: omap f l | None => omap f l end.
Proof. done. Qed.

(** What is queued under given keys, before and after. *)
Lemma queued_recorded g g' t results ids :
  keyed g -> recorded g g' t results ->
  queued_changes (omap (fun id => inner (PendingSettings g') t !! id) ids) =
  List.filter (fun c => bool_decide (MeshSettingsChange_ID c ∉ MeshSettingsAckResult_ID <$> results))
    (queued_changes (omap (fun id => inner (PendingSettings g) t !! id) ids)).
Proof.
  intros Hk R. induction ids as [|id ids IH]; [done|]. rewrite !omap_cons_eq.
  destruct (decide (reported results id)) as [H|H].
  - destruct (recorded_set _ _ _ _ R id H) as (c & c' & r & Hc & Hc' & _ & _ & _ & Hq).
    rewrite Hc, Hc', !queued_cons, (bool_decide_eq_false_2 _ Hq), IH.
    case_bool_decide; [|done]. cbn [List.filter].
    by rewrite bool_decide_eq_false_2 by (rewrite <- (Hk t id c Hc) in H; intros Hn; by apply Hn).
  - rewrite (recorded_kept _ _ _ _ R id H). destruct (inner (PendingSettings g) t !! id) as [c|] eqn:Hc; [|apply IH].
    rewrite !queued_cons. case_bool_decide; [|apply IH]. cbn [List.filter].
    rewrite <- (Hk t id c Hc) in H. by rewrite (bool_decide_eq_true_2 (_ ∉ _)), IH.
Qed.

(** An acknowledgement of settings changes takes effect exactly once.  When
    recording a target's acknowledgement succeeds, every result's change carries the
    status a result gives it, no other change, no other target and no document is
    touched, and what the target is sent the next time is what it was sent before, in
    the same order, without the changes the acknowledgement names. *)
Theorem recordMeshSettingsAck_settles s g peerID ack s' before :
  settings_of s = Ok g -> keyed g ->
  recordMeshSettingsAck cfg s peerID (Some ack) = (s', Ok tt) ->
  ListPendingSettingsChanges s peerID = Ok before ->
  let results := MeshSettingsAck_Results ack in
  exists g' after, settings_of s' = Ok g' /\ recorded g g' peerID results /\
    ListPendingSettingsChanges s' peerID = Ok after /\
    queued_changes after =
      List.filter (fun c => bool_decide (MeshSettingsChange_ID c ∉ MeshSettingsAckResult_ID <$> results)) (queued_changes before).
Proof.
  intros Hg Hk Hr Hb results. unfold recordMeshSettingsAck in Hr.
  destruct (negb _); [done|]. destruct (bool_decide_reflect (peerID = EmptyString)) as [|Hp]; [done|].
  destruct (bool_decide_reflect (MeshSettingsAck_TargetNodeID ack <> peerID)) as [|Ht]; [done|]. apply dec_stable in Ht.
  rewrite Ht in Hr. destruct (record_results_recorded s g peerID results s' Hg Hk Hr) as (g' & Hg' & R).
  exists g', (in_key_order (inner (PendingSettings g') peerID)). split; [done|]. split; [done|].
  apply settings_of_Ok in Hg as (snap & Hl & <-). apply settings_of_Ok in Hg' as (snap' & Hl' & <-).
  unfold ListPendingSettingsChanges in *. rewrite Hl in Hb. rewrite Hl'. cbn [fmap result_fmap] in *.
  rewrite (bool_decide_eq_true_2 (peerID <> EmptyString)) in * by done. injection Hb as <-. split; [done|].
  unfold in_key_order. rewrite (recorded_keys _ _ _ _ R). by apply queued_recorded.
Qed.
End settings_proofs.

Definition demo_ack : MeshSettingsAck := mkMeshSettingsAck "n1" [mkMeshSettingsAckResult "c1" "acked" "t1" EmptyString].

Definition demo_queued (id : string) : PendingSettingsChange :=
  mkPendingSettingsChange id "n1" "n2" "key" 3 "queued" "t0" EmptyString {["theme" := SVString "dark"]} EmptyString [].

Definition demo_queue : JSONStore :=
  (SavePendingSettingsChange (SavePendingSettingsChange demo_store "n1" (demo_queued "c1")).1 "n1" (demo_queued "c2")).1.

Definition demo_audited (id : string) : PendingSettingsChange := set_AuditTrail [auditEntry (demo_queued id)] (demo_queued id).

Definition demo_queue_settings : settingsMeta :=
  mkSettingsMeta ∅ {["n1" := {["c1" := demo_audited "c1"; "c2" := demo_audited "c2"]}]}.

Lemma recordMeshSettingsAck_settles_witness :
  exists after, ListPendingSettingsChanges (recordMeshSettingsAck demo_server demo_queue "n1" (Some demo_ack)).1 "n1" = Ok after /\
    MeshSettingsChange_ID <$> queued_changes after = ["c2"].
Proof.
  destruct (recordMeshSettingsAck_settles demo_server demo_queue demo_queue_settings "n1" demo_ack
    (recordMeshSettingsAck demo_server demo_queue "n1" (Some demo_ack)).1 [demo_audited "c1"; demo_audited "c2"])
    as (g' & after & _ & _ & Hl & Hq).
  - vm_compute. reflexivity.
  - intros t id c Hc. unfold stored, demo_queue_settings, inner in Hc. cbn [PendingSettings] in Hc.
    destruct (decide (t = "n1")) as [->|Ht]; [|by rewrite lookup_singleton_ne in Hc].
    rewrite lookup_singleton_eq in Hc. unfold default, Datatypes.id in Hc.
    apply lookup_insert_Some in Hc as [[<- <-]|[_ [<- <-]%lookup_singleton_Some]]; reflexivity.
  - vm_compute. reflexivity.
  - vm_compute. reflexivity.
  - exists after. split; [exact Hl|]. rewrite Hq. vm_compute. reflexivity.
Defined.

(** A change applied whose acknowledgement is lost is sent again; it overwrites the
    record of its application, is stale against the document it made, and is reported
    as failed. *)
Example lost_ack_reported_failed :
  let small := fun _ : Message => 100 in
  let send := fun s => match serveMeshSettingsChanges small demo_server s "n1" (Some (mkMeshSettingsChanges "n1" [])) with Ok m => m | Err _ => MessageUnknown EmptyString end in
  let opts := mkPullOptions "n1" "docs" 0 in
  let text := fun e => match e with ErrSettings m => m | _ => EmptyString end in
  let origin := (SavePendingSettingsChange demo_store "n1" (demo_queued "c1")).1 in
  let first := settings_reply small text opts demo_quote "t1" demo_store [] (send origin) in
  let second := settings_reply small text opts demo_quote "t2" first.1.1 [] (send origin) in
  first.1.2 = Ok 1 /\
  LoadNodeSettingsDocument first.1.1 "n1" = LoadNodeSettingsDocument second.1.1 "n1" /\
  match second.2 with
  | [MessageMeshSettingsAck (Some ack)] => MeshSettingsAckResult_Status <$> MeshSettingsAck_Results ack
  | _ => []
  end = ["failed"].
Proof. vm_compute. split_and!; reflexivity. Qed.
(** [node] pulls from [peer]; the server runs [meanwhile] when it looks at its cursor. *)
Definition demo_pull (cfg : ServerConfig) (meanwhile : JSONStore -> JSONStore) (node peer : string) (server client : JSONStore) : exchange :=
  exchange_run demo_sha demo_marshal (fun _ => 100) (fun _ => EmptyString) (fun _ => EmptyString) cfg meanwhile (demo_opts node) peer
    9 node (exchange_begin demo_sha demo_marshal (fun _ => 100) (fun _ => EmptyString) (fun _ => EmptyString) cfg meanwhile
              (demo_opts node) peer node server client).

Definition demo_saves (paths : list string) : JSONStore :=
  demo_sender ((fun p => OpSave p (demo_m Byte.x61)) <$> paths).

Lemma demo_linked : linked demo_sha demo_marshal (demo_opts "bob") "alice" folder_empty demo_store demo_store.
Proof.
  split.
  - exists snapshot_zero. split_and!; [reflexivity|apply wf_meta_zero|reflexivity..].
  - reflexivity.
  - split; reflexivity.
  - exists snapshot_zero. split_and!; [reflexivity|repeat split|reflexivity].
  - by intros snap f summary [= <-].
  - eexists. split; [vm_compute; reflexivity|]. split_and!; [reflexivity..|discriminate].
Qed.

Lemma exchange_catches_up_witness :
  let x := demo_pull demo_server (fun s => s) "bob" "alice" (run_store "docs" demo_store demo_batch) demo_store in
  ex_serving x = Serving /\ holds demo_sha demo_marshal (ex_client x) "alice" "docs" (run folder_empty demo_batch).
Proof.
  intros x.
  destruct (exchange_catches_up demo_sha demo_marshal (fun _ => 100) (fun _ => EmptyString) (fun _ => EmptyString) demo_server
    (demo_opts "bob") "alice" "bob" eq_refl ltac:(vm_compute; discriminate) ltac:(discriminate) ltac:(discriminate) ltac:(discriminate)
    folder_empty demo_store demo_store demo_batch 8 demo_linked) as (y & n & Hy & _ & Hs & _ & Hh & _).
  - repeat constructor. discriminate.
  - repeat constructor.
  - apply demo_batch_quiet.
  - reflexivity.
  - vm_compute. discriminate.
  - split; reflexivity.
  - discriminate.
  - reflexivity.
  - reflexivity.
  - assert (x = y) as -> by exact Hy. split; [exact Hs|exact Hh].
Defined.

(** A node with metadata of its own asks a new peer for changes since its own cursor. *)
Example first_pull_mismatch :
  ex_state (demo_pull demo_server (fun s => s) "bob" "alice" (demo_saves ["x"; "y"]) (demo_saves ["z"]))
  = Failed (ErrStore (ErrCursorMismatch 0 1)).
Proof. vm_compute. reflexivity. Qed.

(** A node that has served a peer takes the peer's view of it for the peer's state,
    and rejects what the peer sends, however often it asks. *)
Example both_ways_rejected :
  let alice := demo_saves ["x"; "y"] in
  let pulled := demo_pull demo_server (fun s => s) "bob" "alice" alice demo_store in
  let bob := (op_store (ex_client pulled) "docs" (OpSave "z" (demo_m Byte.x62))).1 in
  let again := demo_pull demo_server (fun s => s) "bob" "alice" (ex_server pulled) bob in
  let back := demo_pull demo_server (fun s => s) "alice" "bob" (ex_client again) (ex_server again) in
  ex_state pulled = Finished 2 false false /\ ex_state again = Finished 0 false false /\
  ex_state back = Failed (ErrStore ErrHashMismatch).
Proof. vm_compute. split_and!; reflexivity. Qed.

(** A path written again after the cut of a chunk is missing from the chunk but not from
    its hash. *)
Example chunk_rejected :
  ex_state (demo_pull (mkServerConfig "server" true true 1) (fun s => s) "bob" "alice"
    (demo_saves ["a"; "b"; "a"]) demo_store) = Failed (ErrStore ErrHashMismatch).
Proof. vm_compute. reflexivity. Qed.

(** Nothing to send, but a file is saved before the server looks at its cursor: it
    promises more, takes the acknowledgement and sends nothing; the client waits. *)
Example promised_more :
  let x := demo_pull demo_server (fun s => (op_store s "docs" (OpSave "n" (demo_m Byte.x62))).1) "bob" "alice" demo_store demo_store in
  ex_state x = Waiting 0 1 /\ ex_serving x = Serving /\ ex_answers x = [].
Proof. vm_compute. split_and!; reflexivity. Qed.
