(* ===== verification/BadgerKeys.v ===== *)
(** * The keys of the Badger backend

    Models the key functions of [internal/state/badger_store.go].  A key is the prefix
    [fse/v1/], a kind, and encoded parts, with slashes between them; [dbkey] lists the
    records the backend keeps.  Different records have different keys
    ([key_string_inj]), and the prefix of a scan selects exactly the records whose
    parts start with the given ones ([key_string_prefix]). *)

From S2P Require Import Prelude GoStd GoBase64 Paths StoreData.
From Stdlib Require Import Ascii.
From Stdlib Require Strings.Byte.

Local Open Scope Z_scope.

#[local] Existing Instance url_alphabet.

(** ** strconv.ParseUint(s, 10, 64) *)

Definition digit_val (c : ascii) : option Z :=
  let n := Z.of_N (N_of_ascii c) in if (48 <=? n) && (n <=? 57) then Some (n - 48) else None.

Fixpoint parse_digits (acc : Z) (s : string) : option Z :=
  match s with
  | EmptyString => Some acc
  | String c s' => d ← digit_val c; parse_digits (acc * 10 + d) s'
  end.

Definition ParseUint (s : string) : option Z :=
  match s with
  | EmptyString => None
  | _ => n ← parse_digits 0 s; if n <? 2 ^ 64 then Some n else None
  end.

(** ** Parts *)

Definition badgerKeyPrefix : string := "fse/v1/".

Definition badgerEncodePart (value : string) : string :=
  if bool_decide (value = EmptyString) then "-"
  else String.string_of_list_byte (b64_encode (String.list_byte_of_string value)).

Definition badgerDecodePart (value : string) : option string :=
  if bool_decide (value = "-") then Some EmptyString
  else String.string_of_list_byte <$> b64_decode (String.list_byte_of_string value).

Definition badgerDecodeTwo (a b : string) : option (string * string) :=
  first ← badgerDecodePart a; second ← badgerDecodePart b; Some (first, second).

Definition badgerDecodePeerFolderKey (parts : list string) : option (string * string) :=
  match parts with [_; a; b] => badgerDecodeTwo a b | _ => None end.

Definition badgerDecodePeerFolderPathKey (parts : list string) : option (string * string * string) :=
  match parts with
  | [_; a; b; c] => '(peerID, folderID) ← badgerDecodeTwo a b; rel ← badgerDecodePart c; Some (peerID, folderID, rel)
  | _ => None
  end.

(** ** Keys *)

Local Abbreviation enc := badgerEncodePart (only parsing).

Definition badgerManifestKey (folderID relativePath : string) : string :=
  badgerKeyPrefix +:+ "manifest/" +:+ enc folderID +:+ "/" +:+ enc relativePath.
Definition badgerManifestHistoryKey (folderID relativePath : string) (revision : Z) : string :=
  badgerKeyPrefix +:+ "manifest-history/" +:+ enc folderID +:+ "/" +:+ enc relativePath +:+ "/" +:+ itoa revision.
Definition badgerRevisionKey (folderID relativePath : string) : string :=
  badgerKeyPrefix +:+ "revision/" +:+ enc folderID +:+ "/" +:+ enc relativePath.
Definition badgerTombstoneKey (folderID relativePath : string) : string :=
  badgerKeyPrefix +:+ "tombstone/" +:+ enc folderID +:+ "/" +:+ enc relativePath.
Definition badgerRenameHintKey (folderID fromPath : string) : string :=
  badgerKeyPrefix +:+ "rename/" +:+ enc folderID +:+ "/" +:+ enc fromPath.
Definition badgerCursorKey (folderID : string) : string :=
  badgerKeyPrefix +:+ "cursor/" +:+ enc folderID.
Definition badgerPeerStateKey (peerID folderID : string) : string :=
  badgerKeyPrefix +:+ "peer-state/" +:+ enc peerID +:+ "/" +:+ enc folderID.
Definition badgerPeerManifestKey (peerID folderID relativePath : string) : string :=
  badgerKeyPrefix +:+ "peer-manifest/" +:+ enc peerID +:+ "/" +:+ enc folderID +:+ "/" +:+ enc relativePath.
Definition badgerPeerRevisionKey (peerID folderID relativePath : string) : string :=
  badgerKeyPrefix +:+ "peer-revision/" +:+ enc peerID +:+ "/" +:+ enc folderID +:+ "/" +:+ enc relativePath.
Definition badgerPeerTombstoneKey (peerID folderID relativePath : string) : string :=
  badgerKeyPrefix +:+ "peer-tombstone/" +:+ enc peerID +:+ "/" +:+ enc folderID +:+ "/" +:+ enc relativePath.
Definition badgerPeerRenameHintKey (peerID folderID fromPath : string) : string :=
  badgerKeyPrefix +:+ "peer-rename/" +:+ enc peerID +:+ "/" +:+ enc folderID +:+ "/" +:+ enc fromPath.
Definition badgerPeerCursorKey (peerID folderID : string) : string :=
  badgerKeyPrefix +:+ "peer-cursor/" +:+ enc peerID +:+ "/" +:+ enc folderID.
Definition badgerPeerApplyCheckpointKey (peerID folderID : string) : string :=
  badgerKeyPrefix +:+ "peer-checkpoint/" +:+ enc peerID +:+ "/" +:+ enc folderID.
Definition badgerCompactionSnapshotKey (folderID : string) (index : Z) : string :=
  badgerKeyPrefix +:+ "compaction-snapshot/" +:+ enc folderID +:+ "/" +:+ itoa index.
Definition badgerSnapshotMarkerKey (id : string) : string :=
  badgerKeyPrefix +:+ "snapshot-marker/" +:+ enc id.
Definition badgerArchiveIntakeJobKey (snapshotID jobID : string) : string :=
  badgerKeyPrefix +:+ "archive-intake/" +:+ enc snapshotID +:+ "/" +:+ enc jobID.
Definition badgerBackupRestoreJobKey (jobID : string) : string :=
  badgerKeyPrefix +:+ "backup-restore-job/" +:+ enc jobID.
Definition badgerBackupRetentionJobKey (jobID : string) : string :=
  badgerKeyPrefix +:+ "backup-retention-job/" +:+ enc jobID.
Definition badgerBackupRepairJobKey (jobID : string) : string :=
  badgerKeyPrefix +:+ "backup-repair-job/" +:+ enc jobID.
Definition badgerPendingWriteKey (folderID path : string) : string :=
  badgerKeyPrefix +:+ "pending-write/" +:+ enc folderID +:+ "/" +:+ enc path.
Definition badgerSkippedDeleteKey (folderID path : string) : string :=
  badgerKeyPrefix +:+ "skipped-delete/" +:+ enc folderID +:+ "/" +:+ enc path.
Definition badgerNodeSettingsKey (nodeID : string) : string :=
  badgerKeyPrefix +:+ "node-settings/" +:+ enc nodeID.
Definition badgerPendingSettingsKey (targetNodeID changeID : string) : string :=
  badgerKeyPrefix +:+ "pending-settings/" +:+ enc targetNodeID +:+ "/" +:+ enc changeID.
Definition badgerBlockIndexKey (size : Z) (hash : bytes) (folderID relativePath : string) (blockIndex : Z) : string :=
  badgerKeyPrefix +:+ "block/" +:+ itoa size +:+ "/" +:+ hex_encode hash +:+ "/" +:+ enc folderID +:+ "/" +:+ enc relativePath
    +:+ "/" +:+ itoa blockIndex.

(** ** The records *)

Inductive dbkey :=
| KManifest (folderID rel : string)
| KHistory (folderID rel : string) (rev : Z)
| KRevision (folderID rel : string)
| KTombstone (folderID rel : string)
| KRename (folderID from : string)
| KCursor (folderID : string)
| KPeerState (peerID folderID : string)
| KPeerManifest (peerID folderID rel : string)
| KPeerRevision (peerID folderID rel : string)
| KPeerTombstone (peerID folderID rel : string)
| KPeerRename (peerID folderID from : string)
| KPeerCursor (peerID folderID : string)
| KPeerCheckpoint (peerID folderID : string)
| KCompaction (folderID : string) (index : Z)
| KMarker (id : string)
| KArchive (snapshotID jobID : string)
| KRestore (jobID : string)
| KRetention (jobID : string)
| KRepair (jobID : string)
| KPendingWrite (folderID path : string)
| KSkippedDelete (folderID path : string)
| KNodeSettings (nodeID : string)
| KPendingSettings (targetNodeID changeID : string)
| KBlock (size : Z) (hash : bytes) (folderID rel : string) (index : Z).

#[export] Instance dbkey_eq_dec : EqDecision dbkey.
Proof. solve_decision. Defined.

Definition key_string (k : dbkey) : string :=
  match k with
  | KManifest f p => badgerManifestKey f p
  | KHistory f p r => badgerManifestHistoryKey f p r
  | KRevision f p => badgerRevisionKey f p
  | KTombstone f p => badgerTombstoneKey f p
  | KRename f p => badgerRenameHintKey f p
  | KCursor f => badgerCursorKey f
  | KPeerState q f => badgerPeerStateKey q f
  | KPeerManifest q f p => badgerPeerManifestKey q f p
  | KPeerRevision q f p => badgerPeerRevisionKey q f p
  | KPeerTombstone q f p => badgerPeerTombstoneKey q f p
  | KPeerRename q f p => badgerPeerRenameHintKey q f p
  | KPeerCursor q f => badgerPeerCursorKey q f
  | KPeerCheckpoint q f => badgerPeerApplyCheckpointKey q f
  | KCompaction f i => badgerCompactionSnapshotKey f i
  | KMarker id => badgerSnapshotMarkerKey id
  | KArchive s j => badgerArchiveIntakeJobKey s j
  | KRestore j => badgerBackupRestoreJobKey j
  | KRetention j => badgerBackupRetentionJobKey j
  | KRepair j => badgerBackupRepairJobKey j
  | KPendingWrite f p => badgerPendingWriteKey f p
  | KSkippedDelete f p => badgerSkippedDeleteKey f p
  | KNodeSettings n => badgerNodeSettingsKey n
  | KPendingSettings t c => badgerPendingSettingsKey t c
  | KBlock size hash f p i => badgerBlockIndexKey size hash f p i
  end.

(** The parts of a key after the prefix. *)
Definition key_parts (k : dbkey) : list string :=
  match k with
  | KManifest f p => ["manifest"; enc f; enc p]
  | KHistory f p r => ["manifest-history"; enc f; enc p; itoa r]
  | KRevision f p => ["revision"; enc f; enc p]
  | KTombstone f p => ["tombstone"; enc f; enc p]
  | KRename f p => ["rename"; enc f; enc p]
  | KCursor f => ["cursor"; enc f]
  | KPeerState q f => ["peer-state"; enc q; enc f]
  | KPeerManifest q f p => ["peer-manifest"; enc q; enc f; enc p]
  | KPeerRevision q f p => ["peer-revision"; enc q; enc f; enc p]
  | KPeerTombstone q f p => ["peer-tombstone"; enc q; enc f; enc p]
  | KPeerRename q f p => ["peer-rename"; enc q; enc f; enc p]
  | KPeerCursor q f => ["peer-cursor"; enc q; enc f]
  | KPeerCheckpoint q f => ["peer-checkpoint"; enc q; enc f]
  | KCompaction f i => ["compaction-snapshot"; enc f; itoa i]
  | KMarker id => ["snapshot-marker"; enc id]
  | KArchive s j => ["archive-intake"; enc s; enc j]
  | KRestore j => ["backup-restore-job"; enc j]
  | KRetention j => ["backup-retention-job"; enc j]
  | KRepair j => ["backup-repair-job"; enc j]
  | KPendingWrite f p => ["pending-write"; enc f; enc p]
  | KSkippedDelete f p => ["skipped-delete"; enc f; enc p]
  | KNodeSettings n => ["node-settings"; enc n]
  | KPendingSettings t c => ["pending-settings"; enc t; enc c]
  | KBlock size hash f p i => ["block"; itoa size; hex_encode hash; enc f; enc p; itoa i]
  end.

(** ** Properties *)

(** *** Numbers *)

Lemma digit_val_pretty n : (n < 10)%N -> digit_val (pretty_N_char n) = Some (Z.of_N n).
Proof.
  intros Hn. destruct n as [|p]; [done|]. do 4 (destruct p as [p|p|]; [try lia|try lia|done]).
Qed.

(** The digits of a number, read from its front, are the number. *)
Lemma parse_digits_go x s : parse_digits 0 (pretty_N_go x s) = parse_digits (Z.of_N x) s.
Proof.
  revert s. induction (N.lt_wf_0 x) as [x _ IH]; intros s.
  assert (x = 0 \/ 0 < x)%N as [->|Hx] by lia; [by rewrite pretty_N_go_0|].
  rewrite pretty_N_go_step by done. rewrite IH by by apply N.div_lt.
  cbn [parse_digits]. rewrite digit_val_pretty by by apply N.mod_lt. cbn.
  f_equal. rewrite N2Z.inj_div, N2Z.inj_mod. change (Z.of_N 10) with 10. pose proof (Z.div_mod (Z.of_N x) 10). lia.
Qed.

Lemma ParseUint_itoa z : 0 <= z < 2 ^ 64 -> ParseUint (itoa z) = Some z.
Proof.
  intros Hz. destruct (decide (z = 0)) as [->|Hne]; [done|].
  assert (parse_digits 0 (itoa z) = Some z) as Hd.
  { destruct z as [|p|p]; [done| |lia]. change (itoa (Z.pos p)) with (pretty_N_go (N.pos p) EmptyString).
    by rewrite parse_digits_go. }
  unfold ParseUint. destruct (itoa z) as [|c s] eqn:E; [cbn in Hd; congruence|].
  rewrite Hd. cbn. by rewrite (proj2 (Z.ltb_lt _ _)) by lia.
Qed.

(** *** Parts *)

Lemma string_bytes_id s : String.string_of_list_byte (String.list_byte_of_string s) = s.
Proof. apply String.string_of_list_byte_of_string. Qed.

Lemma bytes_string_id l : String.list_byte_of_string (String.string_of_list_byte l) = l.
Proof. apply String.list_byte_of_string_of_list_byte. Qed.

Lemma bytes_no_char l c : Forall (fun b => Ascii.ascii_of_byte b <> c) l -> contains_char (String.string_of_list_byte l) c = false.
Proof.
  induction 1 as [|b l Hb _ IH]; [done|].
  change (contains_char (String (Ascii.ascii_of_byte b) (String.string_of_list_byte l)) c = false).
  cbn [contains_char]. rewrite IH, orb_false_r. apply bool_decide_eq_false_2. congruence.
Qed.

Lemma badgerEncodePart_no_slash s : contains_char (badgerEncodePart s) slash = false.
Proof.
  unfold badgerEncodePart. case_bool_decide; [done|]. apply bytes_no_char.
  eapply Forall_impl; [apply b64_encode_alphabet|]. cbn beta. intros b Hb Hs.
  assert (forallb (fun b => negb (bool_decide (Ascii.ascii_of_byte b = slash))) sextets = true) as Ha by (vm_compute; reflexivity).
  rewrite forallb_forall in Ha. specialize (Ha b (proj1 (list_elem_of_In _ _) Hb)).
  by rewrite bool_decide_eq_true_2 in Ha.
Qed.

Lemma badgerDecode_Encode s : badgerDecodePart (badgerEncodePart s) = Some s.
Proof.
  unfold badgerEncodePart. case_bool_decide as Hs; [by subst s|]. unfold badgerDecodePart.
  rewrite bool_decide_eq_false_2.
  - rewrite bytes_string_id, b64_roundtrip. cbn. f_equal. apply string_bytes_id.
  - intros He. apply (f_equal String.list_byte_of_string) in He. rewrite bytes_string_id in He.
    destruct (String.list_byte_of_string s) as [|a l] eqn:E; [by destruct s|].
    destruct l as [|b [|c l]]; cbn in He; discriminate.
Qed.

Lemma badgerEncodePart_inj s t : badgerEncodePart s = badgerEncodePart t -> s = t.
Proof. intros H. apply (f_equal badgerDecodePart) in H. rewrite !badgerDecode_Encode in H. by injection H. Qed.

Lemma hex_no_slash l : contains_char (hex_encode l) slash = false.
Proof.
  assert (forall n, (n < 16)%N -> hex_digit n <> slash) as Hd.
  { intros n Hn. assert (forallb (fun n => negb (bool_decide (hex_digit (N.of_nat n) = slash))) (seq 0 16) = true) as H
      by (vm_compute; reflexivity).
    rewrite forallb_forall in H. specialize (H (N.to_nat n) ltac:(apply in_seq; lia)). rewrite N2Nat.id in H.
    intros He. by rewrite bool_decide_eq_true_2 in H. }
  induction l as [|b l IH]; [done|]. cbn [hex_encode]. rewrite contains_char_app, IH, orb_false_r.
  pose proof (Byte.to_N_bounded b). unfold hex_byte. cbn. rewrite !bool_decide_eq_false_2; [done|..]; intros He; symmetry in He; revert He;
    apply Hd; [apply N.mod_lt; lia|apply N.Div0.div_lt_upper_bound; lia].
Qed.

Lemma itoa_no_slash z : contains_char (itoa z) slash = false.
Proof. by apply itoa_no_char. Qed.

Create HintDb badger_keys.
#[export] Hint Resolve badgerEncodePart_no_slash hex_no_slash itoa_no_slash : badger_keys.

(** *** Keys *)

Lemma key_string_parts k : key_string k = badgerKeyPrefix +:+ join "/" (key_parts k).
Proof. destruct k; reflexivity. Qed.

Lemma key_parts_no_slash k : Forall (fun w => contains_char w slash = false) (key_parts k).
Proof. destruct k; cbn [key_parts]; repeat constructor; auto with badger_keys. Qed.

Lemma key_parts_nonempty k : key_parts k <> [].
Proof. by destruct k. Qed.

Lemma prefix_app_inj p a b : p +:+ a = p +:+ b -> a = b.
Proof. unfold String.app. induction p as [|c p IH]; cbn; [done|]. intros [= H]. by apply IH. Qed.

Lemma key_string_split k s : key_string k = badgerKeyPrefix +:+ s -> split_on slash s = key_parts k.
Proof.
  rewrite key_string_parts. intros H%prefix_app_inj. rewrite <- H.
  apply split_on_join; [apply key_parts_nonempty|apply key_parts_no_slash].
Qed.

Lemma key_parts_inj k k' : key_parts k = key_parts k' -> k = k'.
Proof.
  intros H. destruct k, k'; cbn [key_parts] in H; try discriminate H; injection H as H;
    repeat match goal with
    | H : badgerEncodePart _ = badgerEncodePart _ |- _ => apply badgerEncodePart_inj in H
    | H : itoa _ = itoa _ |- _ => apply itoa_inj in H
    | H : hex_encode _ = hex_encode _ |- _ => apply hex_encode_inj in H
    end; congruence.
Qed.

(** Different records have different keys, whatever identifiers, paths and hashes
    they are made of. *)
Lemma key_string_inj k k' : key_string k = key_string k' -> k = k'.
Proof.
  intros H. apply key_parts_inj. pose proof (key_string_parts k') as Hk. rewrite <- H in Hk.
  rewrite <- (key_string_split k _ Hk). apply split_on_join; [apply key_parts_nonempty|apply key_parts_no_slash].
Qed.

(** *** Scans *)

(** The prefix of the keys whose parts start with [pre]. *)
Definition scan_prefix (pre : list string) : string := badgerKeyPrefix +:+ join "/" pre +:+ "/".

Lemma join_app pre rest : pre <> [] -> rest <> [] -> join "/" (pre ++ rest) = join "/" pre +:+ "/" +:+ join "/" rest.
Proof.
  intros Hp Hr. induction pre as [|x pre IH]; [done|]. destruct pre as [|y pre].
  - cbn [app]. destruct rest; [done|]. by rewrite join_cons.
  - change ((x :: y :: pre) ++ rest) with (x :: y :: (pre ++ rest)). rewrite !join_cons.
    change (y :: pre ++ rest) with ((y :: pre) ++ rest). rewrite IH by done. by rewrite str_app_assoc.
Qed.

Lemma join_prefix pre l :
  pre <> [] -> Forall (fun w => contains_char w slash = false) pre -> l <> [] -> Forall (fun w => contains_char w slash = false) l ->
  has_prefix (join "/" l) (join "/" pre +:+ "/") = true <-> exists rest, rest <> [] /\ l = pre ++ rest.
Proof.
  intros Hp Hpre Hl Hls. split.
  - intros (t & Ht)%has_prefix_inv. exists (split_on slash t). split; [apply split_on_nonempty|].
    rewrite str_app_assoc in Ht. change ("/" +:+ t) with (String slash t) in Ht.
    rewrite <- (split_on_join l), Ht, split_on_app, split_on_join by done. done.
  - intros (rest & Hr & ->). rewrite join_app by done. rewrite <- str_app_assoc. apply has_prefix_app.
Qed.

Lemma has_prefix_strip p a b : has_prefix (p +:+ a) (p +:+ b) = has_prefix a b.
Proof. unfold String.app. induction p as [|c p IH]; cbn; [done|]. by rewrite bool_decide_eq_true_2. Qed.

(** A scan sees the records whose parts start with the given ones, and no other. *)
Lemma key_string_prefix pre k :
  pre <> [] -> Forall (fun w => contains_char w slash = false) pre ->
  has_prefix (key_string k) (scan_prefix pre) = true <-> exists rest, rest <> [] /\ key_parts k = pre ++ rest.
Proof.
  intros Hp Hpre. rewrite key_string_parts. unfold scan_prefix. rewrite has_prefix_strip.
  apply join_prefix; [done|done|apply key_parts_nonempty|apply key_parts_no_slash].
Qed.

Lemma key_string_in_keyspace k : has_prefix (key_string k) badgerKeyPrefix = true.
Proof. rewrite key_string_parts. apply has_prefix_app. Qed.

(** *** The fields of a key: [strings.Split(strings.TrimPrefix(key, badgerKeyPrefix), "/")] *)

Definition TrimPrefix (s p : string) : string := if has_prefix s p then drop_str (String.length p) s else s.

Definition key_fields (key : string) : list string := split_on slash (TrimPrefix key badgerKeyPrefix).

Lemma drop_str_app p s : drop_str (String.length p) (p +:+ s) = s.
Proof. unfold String.app. by induction p as [|c p IH]. Qed.

Lemma key_fields_string k : key_fields (key_string k) = key_parts k.
Proof.
  unfold key_fields, TrimPrefix. rewrite key_string_in_keyspace. pose proof (key_string_parts k) as H. rewrite H, drop_str_app.
  apply split_on_join; [apply key_parts_nonempty|apply key_parts_no_slash].
Qed.
