(* ===== verification/BadgerStore.v ===== *)
(** * The Badger backend: loading and saving

    Models the transactions, [Load], [Save] and the migration of
    [internal/state/badger_store.go].  The database is third-party code: it is a type
    with the operations of [KVStore], of which [KVLaws] states what the code relies
    on, and maps implement it.  A value is the document it decodes to ([Doc]).  A
    transaction that fails leaves the database as it was. *)

From S2P Require Import Prelude GoStd GoBase64 Paths Block StoreData Store ApplyGate Jobs Settings BadgerKeys.
From Stdlib Require Import Ascii.

Local Open Scope Z_scope.

(** ** Documents and databases *)

Inductive Doc :=
| DocManifest (m : Manifest)
| DocUint (z : Z)
| DocHint (h : RenameHint)
| DocSummary (s : FolderSummary)
| DocCheckpoint (c : PeerApplyCheckpoint)
| DocCompaction (c : MetadataCompactionSnapshot)
| DocMarker (m : SnapshotMarker)
| DocArchive (j : ArchiveIntakeJob)
| DocRestore (j : BackupRestoreJob)
| DocRetention (j : BackupRetentionJob)
| DocRepair (j : BackupRepairJob)
| DocWrite (w : PendingWrite)
| DocDelete (d : SkippedDelete)
| DocSettings (d : NodeSettingsDocument)
| DocChange (c : PendingSettingsChange)
| DocRef (r : BlockRef)
| DocSnapshot (s : snapshot)
| DocBad.

(** [json.Unmarshal] into a variable of each type. *)
Definition as_manifest (d : Doc) : result StoreErr Manifest := match d with DocManifest m => Ok m | _ => Err ErrUnmarshal end.
Definition as_uint (d : Doc) : result StoreErr Z := match d with DocUint z => Ok z | _ => Err ErrUnmarshal end.
Definition as_hint (d : Doc) : result StoreErr RenameHint := match d with DocHint h => Ok h | _ => Err ErrUnmarshal end.
Definition as_summary (d : Doc) : result StoreErr FolderSummary := match d with DocSummary s => Ok s | _ => Err ErrUnmarshal end.
Definition as_checkpoint (d : Doc) : result StoreErr PeerApplyCheckpoint := match d with DocCheckpoint c => Ok c | _ => Err ErrUnmarshal end.
Definition as_compaction (d : Doc) : result StoreErr MetadataCompactionSnapshot := match d with DocCompaction c => Ok c | _ => Err ErrUnmarshal end.
Definition as_marker (d : Doc) : result StoreErr SnapshotMarker := match d with DocMarker m => Ok m | _ => Err ErrUnmarshal end.
Definition as_archive (d : Doc) : result StoreErr ArchiveIntakeJob := match d with DocArchive j => Ok j | _ => Err ErrUnmarshal end.
Definition as_restore (d : Doc) : result StoreErr BackupRestoreJob := match d with DocRestore j => Ok j | _ => Err ErrUnmarshal end.
Definition as_retention (d : Doc) : result StoreErr BackupRetentionJob := match d with DocRetention j => Ok j | _ => Err ErrUnmarshal end.
Definition as_repair (d : Doc) : result StoreErr BackupRepairJob := match d with DocRepair j => Ok j | _ => Err ErrUnmarshal end.
Definition as_write (d : Doc) : result StoreErr PendingWrite := match d with DocWrite w => Ok w | _ => Err ErrUnmarshal end.
Definition as_delete (d : Doc) : result StoreErr SkippedDelete := match d with DocDelete d => Ok d | _ => Err ErrUnmarshal end.
Definition as_settings (d : Doc) : result StoreErr NodeSettingsDocument := match d with DocSettings d => Ok d | _ => Err ErrUnmarshal end.
Definition as_change (d : Doc) : result StoreErr PendingSettingsChange := match d with DocChange c => Ok c | _ => Err ErrUnmarshal end.
Definition as_ref (d : Doc) : result StoreErr BlockRef := match d with DocRef r => Ok r | _ => Err ErrUnmarshal end.

(** What a transaction offers: [Get], [Set], [Delete], and the keys an iterator visits. *)
Class KVStore (DB : Type) := {
  kv_get : DB -> string -> option Doc;
  kv_set : string -> Doc -> DB -> DB;
  kv_delete : string -> DB -> DB;
  kv_keys : DB -> list string
}.

Class KVLaws (DB : Type) `{KVStore DB} : Prop := {
  kv_set_eq key v db : kv_get (kv_set key v db) key = Some v;
  kv_set_ne key key' v db : key <> key' -> kv_get (kv_set key v db) key' = kv_get db key';
  kv_delete_eq key db : kv_get (kv_delete key db) key = None;
  kv_delete_ne key key' db : key <> key' -> kv_get (kv_delete key db) key' = kv_get db key';
  kv_keys_get key db : key ∈ kv_keys db <-> is_Some (kv_get db key);
  kv_keys_NoDup db : NoDup (kv_keys db);
  kv_keys_sorted db : StronglySorted (not_after str_lt) (kv_keys db)
}.

#[export] Instance map_kv : KVStore (gmap string Doc) := {|
  kv_get db key := db !! key;
  kv_set key v db := <[key := v]> db;
  kv_delete key db := delete key db;
  kv_keys db := sorted_keys db
|}.

#[export] Instance map_kv_laws : KVLaws (gmap string Doc).
Proof.
  split; cbn.
  - intros. apply lookup_insert_eq.
  - intros. by apply lookup_insert_ne.
  - intros. apply lookup_delete_eq.
  - intros. by apply lookup_delete_ne.
  - intros. unfold sorted_keys. rewrite elem_of_sort_by. apply elem_of_keys.
  - intros db. unfold sorted_keys. rewrite sort_by_perm. apply NoDup_fst_map_to_list.
  - intros db. apply sort_by_sorted, _.
Qed.

Create Rewrite HintDb lookups.

Section badger.
Context {DB : Type} `{KVStore DB}.

(** ** Transactions *)

(** The database, and whether reading it and committing to it fail. *)
Record badgerSnapshotBackend := mkBadger {
  badger_db : DB;
  badger_viewFault : bool;
  badger_updateFault : bool
}.

Definition with_db (db : DB) (b : badgerSnapshotBackend) : badgerSnapshotBackend :=
  mkBadger db (badger_viewFault b) (badger_updateFault b).

(** The same database, with the next commit failing or not. *)
Definition with_commit_fault (fault : bool) (b : badgerSnapshotBackend) : badgerSnapshotBackend :=
  mkBadger (badger_db b) (badger_viewFault b) fault.

Definition View {A} (b : badgerSnapshotBackend) (f : DB -> result StoreErr A) : result StoreErr A :=
  if badger_viewFault b then Err ErrReadFile else f (badger_db b).

Definition Update (b : badgerSnapshotBackend) (f : DB -> result StoreErr DB) : badgerSnapshotBackend * result StoreErr unit :=
  match f (badger_db b) with
  | Err e => (b, Err e)
  | Ok db => if badger_updateFault b then (b, Err ErrSave) else (with_db db b, Ok tt)
  end.

(** Checks before a transaction. *)
Definition checkedB (b : badgerSnapshotBackend) (c : result StoreErr unit) (k : badgerSnapshotBackend * result StoreErr unit) : badgerSnapshotBackend * result StoreErr unit :=
  match c with Ok _ => k | Err e => (b, Err e) end.

Definition badgerSetJSON (key : string) (value : Doc) (db : DB) : DB := kv_set key value db.

(** The items of an iterator with a prefix. *)
Definition scan (prefix : string) (db : DB) : list (string * Doc) :=
  omap (fun key => pair key <$> kv_get db key) (List.filter (fun key => has_prefix key prefix) (kv_keys db)).

Definition badgerDeletePrefix (prefix : string) (db : DB) : DB :=
  foldl (fun db key => kv_delete key db) db (scan prefix db).*1.

Definition badgerSnapshotKey : string := "state/snapshot/v1".

Definition badgerClearKeyspace (db : DB) : DB :=
  let db := kv_delete badgerSnapshotKey db in
  foldl (fun db key => kv_delete key db) db (scan badgerKeyPrefix db).*1.

(** A record that may be missing. *)
Definition get_doc {A} (as_ : Doc -> result StoreErr A) (key : string) (db : DB) : result StoreErr (option A) :=
  match kv_get db key with
  | None => Ok None
  | Some d => Some <$> as_ d
  end.

(** The documents of a scan. *)
Fixpoint decode_all {A} (as_ : Doc -> result StoreErr A) (items : list (string * Doc)) : result StoreErr (list A) :=
  match items with
  | [] => Ok []
  | item :: items' => x ← as_ item.2; l ← decode_all as_ items'; Ok (x :: l)
  end.

Definition badgerReadUint64 (key : string) (db : DB) : result StoreErr Z :=
  default 0 <$> get_doc as_uint key db.

(** ** Writing a snapshot *)

Definition badgerSetAll {A} (key : A -> string) (value : A -> Doc) (l : list A) (db : DB) : DB :=
  foldl (fun db x => badgerSetJSON (key x) (value x) db) db l.

(** The loops over a map of maps, and a map of maps of maps. *)
Definition entries2 {K V} `{Countable K} (m : gmap string (gmap K V)) : list (string * (K * V)) :=
  outer ← map_to_list m; (fun kv => (outer.1, kv)) <$> map_to_list outer.2.

Definition entries3 {K V} `{Countable K} (m : gmap string (gmap string (gmap K V))) : list (string * (string * (K * V))) :=
  outer ← map_to_list m; (fun kv => (outer.1, kv)) <$> entries2 outer.2.

Definition set2 {K V} `{Countable K} (key : string -> K -> string) (value : V -> Doc) (m : gmap string (gmap K V)) : DB -> DB :=
  badgerSetAll (fun e => key e.1 e.2.1) (fun e => value e.2.2) (entries2 m).

Definition set3 {K V} `{Countable K} (key : string -> string -> K -> string) (value : V -> Doc)
    (m : gmap string (gmap string (gmap K V))) : DB -> DB :=
  badgerSetAll (fun e => key e.1 e.2.1 e.2.2.1) (fun e => value e.2.2.2) (entries3 m).

Definition indexBlock (folderID rel : string) (b : Block) (db : DB) : DB :=
  badgerSetJSON (badgerBlockIndexKey (Block_Size b) (Block_Hash b) folderID rel (Block_Index b)) (DocRef (mkBlockRef folderID rel b)) db.

Definition indexBlocks (folderID rel : string) (m : Manifest) (db : DB) : DB :=
  foldl (fun db b => indexBlock folderID rel b db) db (Manifest_Blocks m).

Definition writeFile (db : DB) (e : string * (string * Manifest)) : DB :=
  indexBlocks e.1 e.2.1 e.2.2 (badgerSetJSON (badgerManifestKey e.1 e.2.1) (DocManifest e.2.2) db).

Definition writeLocal (m : folderMeta) (db : DB) : DB :=
  let db := foldl writeFile db (entries2 (Folders m)) in
  let db := set3 badgerManifestHistoryKey DocManifest (ManifestHistory m) db in
  let db := set2 badgerRevisionKey DocUint (Revisions m) db in
  let db := set2 badgerTombstoneKey DocUint (Tombstones m) db in
  let db := set2 badgerRenameHintKey DocHint (RenameHints m) db in
  badgerSetAll (fun e => badgerCursorKey e.1) (fun e => DocUint e.2) (map_to_list (Cursors m)) db.

Definition writePeers (p : peerMeta) (db : DB) : DB :=
  let db := set2 badgerPeerStateKey DocSummary (PeerStates p) db in
  let db := set3 badgerPeerManifestKey DocManifest (PeerFolders p) db in
  let db := set3 badgerPeerRevisionKey DocUint (PeerRevisions p) db in
  let db := set3 badgerPeerTombstoneKey DocUint (PeerTombstones p) db in
  let db := set3 badgerPeerRenameHintKey DocHint (PeerRenameHints p) db in
  let db := set2 badgerPeerCursorKey DocUint (PeerCursors p) db in
  set2 badgerPeerApplyCheckpointKey DocCheckpoint (PeerApplyCheckpoints p) db.

Definition numbered {A} (l : list A) : list (Z * A) := imap (fun i x => (Z.of_nat i, x)) l.

Definition writeCompactions (c : gmap string (list MetadataCompactionSnapshot)) (db : DB) : DB :=
  foldl (fun db e => badgerSetAll (fun x => badgerCompactionSnapshotKey e.1 x.1) (fun x => DocCompaction x.2) (numbered e.2) db)
    db (map_to_list c).

Definition writeJobs (j : jobMeta) (db : DB) : DB :=
  let db := badgerSetAll (fun e => badgerSnapshotMarkerKey e.1) (fun e => DocMarker e.2) (map_to_list (SnapshotMarkers j)) db in
  let db := foldl (fun db e => badgerSetAll (fun job => badgerArchiveIntakeJobKey e.1 (ArchiveIntakeJob_ID job)) DocArchive e.2 db)
              db (map_to_list (ArchiveIntakeJobs j)) in
  let db := badgerSetAll (fun e => badgerBackupRestoreJobKey e.1) (fun e => DocRestore e.2) (map_to_list (BackupRestoreJobs j)) db in
  let db := badgerSetAll (fun e => badgerBackupRetentionJobKey e.1) (fun e => DocRetention e.2) (map_to_list (BackupRetentionJobs j)) db in
  badgerSetAll (fun e => badgerBackupRepairJobKey e.1) (fun e => DocRepair e.2) (map_to_list (BackupRepairJobs j)) db.

Definition writeGate (g : gateMeta) (db : DB) : DB :=
  let db := set2 badgerPendingWriteKey DocWrite (PendingWrites g) db in
  set2 badgerSkippedDeleteKey DocDelete (SkippedDeletes g) db.

Definition writeSettings (g : settingsMeta) (db : DB) : DB :=
  let db := badgerSetAll (fun e => badgerNodeSettingsKey e.1) (fun e => DocSettings e.2) (map_to_list (NodeSettings g)) db in
  set2 badgerPendingSettingsKey DocChange (PendingSettings g) db.

Definition badgerWriteSnapshot (snap : snapshot) (db : DB) : DB :=
  writeSettings (snap_settings snap) (writeGate (snap_gate snap) (writeJobs (snap_jobs snap)
    (writeCompactions (CompactionSnapshots snap) (writePeers (snap_peer snap) (writeLocal (snap_local snap) db))))).

(** ** Reading a record into a snapshot *)

Definition ensure2 {V} `{Empty V} (q f : string) (m : gmap string (gmap string V)) : gmap string (gmap string V) :=
  <[q := ensure f (inner m q)]> m.

Definition put3 {K V} `{Countable K} (q f : string) (x : K) (v : V) (m : gmap string (gmap string (gmap K V))) :=
  put2 q f (<[x := v]> (inner (inner m q) f)) m.

Definition ensurePeerFolderState (q f : string) (p : peerMeta) : peerMeta :=
  mkPeerMeta (ensure q (PeerStates p)) (ensure2 q f (PeerFolders p)) (ensure2 q f (PeerRevisions p))
    (ensure2 q f (PeerTombstones p)) (ensure2 q f (PeerRenameHints p)) (ensure q (PeerCursors p))
    (ensure q (PeerApplyCheckpoints p)).

(** A key that does not have the expected parts. *)
Definition valid_key {A} (key : string) (o : option A) : result StoreErr A :=
  match o with Some a => Ok a | None => Err (ErrKey key) end.

Definition fields1 (l : list string) : option string :=
  match l with [_; a] => badgerDecodePart a | _ => None end.
Definition fields2 (l : list string) : option (string * string) :=
  match l with [_; a; b] => badgerDecodeTwo a b | _ => None end.
Definition fields_history (l : list string) : option (string * string * Z) :=
  match l with [_; a; b; r] => '(f, p) ← badgerDecodeTwo a b; rev ← ParseUint r; Some (f, p, rev) | _ => None end.
(** The first part of a key of three parts, or of a key of two, whose last part is not read. *)
Definition fields_first (l : list string) : option string :=
  match l with [_; a; _] => badgerDecodePart a | _ => None end.
Definition fields_none (l : list string) : option unit :=
  match l with [_; _] => Some tt | _ => None end.

Definition on_local (f : string) (g : folderMeta -> folderMeta) (snap : snapshot) : snapshot :=
  with_local (g (ensureFolderState f (snap_local snap))) snap.
Definition on_peer (q f : string) (g : peerMeta -> peerMeta) (snap : snapshot) : snapshot :=
  with_peer (g (ensurePeerFolderState q f (snap_peer snap))) snap.
Definition on_jobs (g : jobMeta -> jobMeta) (snap : snapshot) : snapshot := with_jobs (g (snap_jobs snap)) snap.
Definition on_gate (f : string) (g : gateMeta -> gateMeta) (snap : snapshot) : snapshot :=
  with_gate (g (ensureApplyGateState f (snap_gate snap))) snap.

Definition loadHistory (snap : snapshot) (key : string) (parts : list string) (d : Doc) : result StoreErr snapshot :=
  '(f, p, rev) ← valid_key key (fields_history parts); m ← as_manifest d;
  Ok (on_local f (fun l => mkFolderMeta (Folders l) (addHistory f p rev m (ManifestHistory l)) (Revisions l) (Tombstones l)
                             (RenameHints l) (Cursors l)) snap).

Definition loadManifest (snap : snapshot) (key : string) (parts : list string) (d : Doc) : result StoreErr snapshot :=
  '(f, p) ← valid_key key (fields2 parts); m ← as_manifest d;
  Ok (on_local f (fun l => mkFolderMeta (put2 f p m (Folders l)) (ManifestHistory l) (Revisions l) (Tombstones l)
                             (RenameHints l) (Cursors l)) snap).

Definition loadRevision (snap : snapshot) (key : string) (parts : list string) (d : Doc) : result StoreErr snapshot :=
  '(f, p) ← valid_key key (fields2 parts); rev ← as_uint d;
  Ok (on_local f (fun l => mkFolderMeta (Folders l) (ManifestHistory l) (put2 f p rev (Revisions l)) (Tombstones l)
                             (RenameHints l) (Cursors l)) snap).

Definition loadTombstone (snap : snapshot) (key : string) (parts : list string) (d : Doc) : result StoreErr snapshot :=
  '(f, p) ← valid_key key (fields2 parts); rev ← as_uint d;
  Ok (on_local f (fun l => mkFolderMeta (Folders l) (ManifestHistory l) (Revisions l) (put2 f p rev (Tombstones l))
                             (RenameHints l) (Cursors l)) snap).

Definition loadRename (snap : snapshot) (key : string) (parts : list string) (d : Doc) : result StoreErr snapshot :=
  '(f, from) ← valid_key key (fields2 parts); hint ← as_hint d;
  Ok (on_local f (fun l => mkFolderMeta (Folders l) (ManifestHistory l) (Revisions l) (Tombstones l)
                             (put2 f from hint (RenameHints l)) (Cursors l)) snap).

Definition loadCursor (snap : snapshot) (key : string) (parts : list string) (d : Doc) : result StoreErr snapshot :=
  f ← valid_key key (fields1 parts); cur ← as_uint d;
  Ok (on_local f (fun l => mkFolderMeta (Folders l) (ManifestHistory l) (Revisions l) (Tombstones l) (RenameHints l)
                             (<[f := cur]> (Cursors l))) snap).

Definition loadPeerState (snap : snapshot) (key : string) (parts : list string) (d : Doc) : result StoreErr snapshot :=
  '(q, f) ← valid_key key (badgerDecodePeerFolderKey parts); s ← as_summary d;
  Ok (on_peer q f (fun p => mkPeerMeta (put2 q f s (PeerStates p)) (PeerFolders p) (PeerRevisions p) (PeerTombstones p)
                              (PeerRenameHints p) (PeerCursors p) (PeerApplyCheckpoints p)) snap).

Definition loadPeerManifest (snap : snapshot) (key : string) (parts : list string) (d : Doc) : result StoreErr snapshot :=
  '(q, f, rel) ← valid_key key (badgerDecodePeerFolderPathKey parts); m ← as_manifest d;
  Ok (on_peer q f (fun p => mkPeerMeta (PeerStates p) (put3 q f rel m (PeerFolders p)) (PeerRevisions p) (PeerTombstones p)
                              (PeerRenameHints p) (PeerCursors p) (PeerApplyCheckpoints p)) snap).

Definition loadPeerRevision (snap : snapshot) (key : string) (parts : list string) (d : Doc) : result StoreErr snapshot :=
  '(q, f, rel) ← valid_key key (badgerDecodePeerFolderPathKey parts); rev ← as_uint d;
  Ok (on_peer q f (fun p => mkPeerMeta (PeerStates p) (PeerFolders p) (put3 q f rel rev (PeerRevisions p)) (PeerTombstones p)
                              (PeerRenameHints p) (PeerCursors p) (PeerApplyCheckpoints p)) snap).

Definition loadPeerTombstone (snap : snapshot) (key : string) (parts : list string) (d : Doc) : result StoreErr snapshot :=
  '(q, f, rel) ← valid_key key (badgerDecodePeerFolderPathKey parts); rev ← as_uint d;
  Ok (on_peer q f (fun p => mkPeerMeta (PeerStates p) (PeerFolders p) (PeerRevisions p) (put3 q f rel rev (PeerTombstones p))
                              (PeerRenameHints p) (PeerCursors p) (PeerApplyCheckpoints p)) snap).

Definition loadPeerRename (snap : snapshot) (key : string) (parts : list string) (d : Doc) : result StoreErr snapshot :=
  '(q, f, from) ← valid_key key (badgerDecodePeerFolderPathKey parts); hint ← as_hint d;
  Ok (on_peer q f (fun p => mkPeerMeta (PeerStates p) (PeerFolders p) (PeerRevisions p) (PeerTombstones p)
                              (put3 q f from hint (PeerRenameHints p)) (PeerCursors p) (PeerApplyCheckpoints p)) snap).

Definition loadPeerCursor (snap : snapshot) (key : string) (parts : list string) (d : Doc) : result StoreErr snapshot :=
  '(q, f) ← valid_key key (badgerDecodePeerFolderKey parts); cur ← as_uint d;
  Ok (on_peer q f (fun p => mkPeerMeta (PeerStates p) (PeerFolders p) (PeerRevisions p) (PeerTombstones p)
                              (PeerRenameHints p) (put2 q f cur (PeerCursors p)) (PeerApplyCheckpoints p)) snap).

Definition loadPeerCheckpoint (snap : snapshot) (key : string) (parts : list string) (d : Doc) : result StoreErr snapshot :=
  '(q, f) ← valid_key key (badgerDecodePeerFolderKey parts); c ← as_checkpoint d;
  Ok (on_peer q f (fun p => mkPeerMeta (PeerStates p) (PeerFolders p) (PeerRevisions p) (PeerTombstones p)
                              (PeerRenameHints p) (PeerCursors p) (put2 q f c (PeerApplyCheckpoints p))) snap).

Definition append {A} (k : string) (x : A) (m : gmap string (list A)) : gmap string (list A) :=
  <[k := default [] (m !! k) ++ [x]]> m.

Definition loadCompaction (snap : snapshot) (key : string) (parts : list string) (d : Doc) : result StoreErr snapshot :=
  f ← valid_key key (fields_first parts); c ← as_compaction d;
  Ok (with_compaction (append f c (CompactionSnapshots snap)) snap).

(** Markers and jobs are filed under the identifier in the document. *)
Definition loadMarker (snap : snapshot) (key : string) (parts : list string) (d : Doc) : result StoreErr snapshot :=
  _ ← valid_key key (fields_none parts); marker ← as_marker d; Ok (on_jobs (put_marker marker) snap).

Definition loadArchive (snap : snapshot) (key : string) (parts : list string) (d : Doc) : result StoreErr snapshot :=
  s ← valid_key key (fields_first parts); job ← as_archive d;
  Ok (on_jobs (fun j => put_archive s (default [] (ArchiveIntakeJobs j !! s) ++ [job]) j) snap).

Definition loadRestore (snap : snapshot) (key : string) (parts : list string) (d : Doc) : result StoreErr snapshot :=
  _ ← valid_key key (fields_none parts); job ← as_restore d; Ok (on_jobs (put_restore job) snap).

Definition loadRetention (snap : snapshot) (key : string) (parts : list string) (d : Doc) : result StoreErr snapshot :=
  _ ← valid_key key (fields_none parts); job ← as_retention d; Ok (on_jobs (put_retention job) snap).

Definition loadRepair (snap : snapshot) (key : string) (parts : list string) (d : Doc) : result StoreErr snapshot :=
  _ ← valid_key key (fields_none parts); job ← as_repair d; Ok (on_jobs (put_repair job) snap).

Definition loadPendingWrite (snap : snapshot) (key : string) (parts : list string) (d : Doc) : result StoreErr snapshot :=
  '(f, path) ← valid_key key (fields2 parts); write ← as_write d; Ok (on_gate f (put_write f path write) snap).

Definition loadSkippedDelete (snap : snapshot) (key : string) (parts : list string) (d : Doc) : result StoreErr snapshot :=
  '(f, path) ← valid_key key (fields2 parts); del ← as_delete d;
  Ok (on_gate f (fun g => mkGateMeta (PendingWrites g) (put2 f path del (SkippedDeletes g))) snap).

Definition loadNodeSettings (snap : snapshot) (key : string) (parts : list string) (d : Doc) : result StoreErr snapshot :=
  nodeID ← valid_key key (fields1 parts); doc ← as_settings d;
  _ ← fail_if (bool_decide (NodeSettingsDocument_NodeID doc <> nodeID)) (ErrMismatch nodeID (NodeSettingsDocument_NodeID doc));
  Ok (with_settings (put_document nodeID doc (snap_settings snap)) snap).

Definition loadPendingSettings (snap : snapshot) (key : string) (parts : list string) (d : Doc) : result StoreErr snapshot :=
  '(target, changeID) ← valid_key key (fields2 parts); change ← as_change d;
  _ ← fail_if (bool_decide (PendingSettingsChange_TargetNodeID change <> target) || bool_decide (PendingSettingsChange_ID change <> changeID))
        (ErrMismatch (target +:+ "/" +:+ changeID)
           (PendingSettingsChange_TargetNodeID change +:+ "/" +:+ PendingSettingsChange_ID change));
  Ok (with_settings (put_change target change (snap_settings snap)) snap).

(** The cases of the switch over the kind of a key. *)
Definition loaders : list (string * (snapshot -> string -> list string -> Doc -> result StoreErr snapshot)) := [
  ("manifest-history", loadHistory); ("manifest", loadManifest); ("revision", loadRevision); ("tombstone", loadTombstone);
  ("rename", loadRename); ("cursor", loadCursor); ("peer-state", loadPeerState); ("peer-manifest", loadPeerManifest);
  ("peer-revision", loadPeerRevision); ("peer-tombstone", loadPeerTombstone); ("peer-rename", loadPeerRename);
  ("peer-cursor", loadPeerCursor); ("peer-checkpoint", loadPeerCheckpoint); ("compaction-snapshot", loadCompaction);
  ("snapshot-marker", loadMarker); ("archive-intake", loadArchive); ("backup-restore-job", loadRestore);
  ("backup-retention-job", loadRetention); ("backup-repair-job", loadRepair); ("pending-write", loadPendingWrite);
  ("skipped-delete", loadSkippedDelete); ("node-settings", loadNodeSettings); ("pending-settings", loadPendingSettings)].

Definition badgerLoadKeyValue (snap : snapshot) (key : string) (d : Doc) : result StoreErr snapshot :=
  let parts := key_fields key in
  match List.find (fun case => String.eqb case.1 (hd EmptyString parts)) loaders with
  | Some case => case.2 snap key parts d
  | None => Ok snap
  end.

(** ** Load, Save and the migration *)

Definition load_items (items : list (string * Doc)) (snap : snapshot) : result StoreErr snapshot :=
  foldl (fun acc item => snap ← acc; badgerLoadKeyValue snap item.1 item.2) (Ok snap) items.

Definition as_snapshot (d : Doc) : result StoreErr snapshot := match d with DocSnapshot s => Ok s | _ => Err ErrUnmarshal end.

Definition readSnapshot (db : DB) : result StoreErr snapshot :=
  match scan badgerKeyPrefix db with
  | [] => default snapshot_zero <$> get_doc as_snapshot badgerSnapshotKey db
  | items => load_items items snapshot_zero
  end.

Definition Load (b : badgerSnapshotBackend) : result StoreErr snapshot :=
  normalizeLoadedSnapshot <$> View b readSnapshot.

Definition Save (b : badgerSnapshotBackend) (snap : snapshot) : badgerSnapshotBackend * result StoreErr unit :=
  Update b (fun db => Ok (badgerWriteSnapshot snap (badgerClearKeyspace db))).

(** The view of the migration: are there records, and else the old snapshot. *)
Definition legacySnapshot (db : DB) : result StoreErr (bool * option snapshot) :=
  match scan badgerKeyPrefix db with
  | _ :: _ => Ok (true, None)
  | [] => (fun legacy : option snapshot => (false, normalizeLoadedSnapshot <$> legacy)) <$> get_doc as_snapshot badgerSnapshotKey db
  end.

Definition migrateLegacySnapshot (b : badgerSnapshotBackend) : badgerSnapshotBackend * result StoreErr unit :=
  match View b legacySnapshot with
  | Err e => (b, Err e)
  | Ok (true, _) => Update b (fun db => Ok (kv_delete badgerSnapshotKey db))
  | Ok (false, None) => (b, Ok tt)
  | Ok (false, Some legacy) => Update b (fun db => Ok (badgerWriteSnapshot legacy (badgerClearKeyspace db)))
  end.

(** ** The records of a snapshot *)

(** The document a snapshot has under the key of a record.  Archive jobs and
    compaction snapshots are lists ([archive_of], [compactions_of]), and block
    references are derived from the manifests. *)
Definition record (snap : snapshot) (k : dbkey) : option Doc :=
  let l := snap_local snap in
  let p := snap_peer snap in
  let j := snap_jobs snap in
  match k with
  | KManifest f rel => DocManifest <$> inner (Folders l) f !! rel
  | KHistory f rel rev => DocManifest <$> inner (inner (ManifestHistory l) f) rel !! rev
  | KRevision f rel => DocUint <$> inner (Revisions l) f !! rel
  | KTombstone f rel => DocUint <$> inner (Tombstones l) f !! rel
  | KRename f from => DocHint <$> inner (RenameHints l) f !! from
  | KCursor f => DocUint <$> Cursors l !! f
  | KPeerState q f => DocSummary <$> inner (PeerStates p) q !! f
  | KPeerManifest q f rel => DocManifest <$> inner (inner (PeerFolders p) q) f !! rel
  | KPeerRevision q f rel => DocUint <$> inner (inner (PeerRevisions p) q) f !! rel
  | KPeerTombstone q f rel => DocUint <$> inner (inner (PeerTombstones p) q) f !! rel
  | KPeerRename q f from => DocHint <$> inner (inner (PeerRenameHints p) q) f !! from
  | KPeerCursor q f => DocUint <$> inner (PeerCursors p) q !! f
  | KPeerCheckpoint q f => DocCheckpoint <$> inner (PeerApplyCheckpoints p) q !! f
  | KMarker id => DocMarker <$> SnapshotMarkers j !! id
  | KRestore id => DocRestore <$> BackupRestoreJobs j !! id
  | KRetention id => DocRetention <$> BackupRetentionJobs j !! id
  | KRepair id => DocRepair <$> BackupRepairJobs j !! id
  | KPendingWrite f path => DocWrite <$> inner (PendingWrites (snap_gate snap)) f !! path
  | KSkippedDelete f path => DocDelete <$> inner (SkippedDeletes (snap_gate snap)) f !! path
  | KNodeSettings n => DocSettings <$> NodeSettings (snap_settings snap) !! n
  | KPendingSettings t id => DocChange <$> inner (PendingSettings (snap_settings snap)) t !! id
  | KCompaction _ _ | KArchive _ _ | KBlock _ _ _ _ _ => None
  end.

(** The records that are entries of a map. *)
Definition plain (k : dbkey) : bool :=
  match k with KCompaction _ _ | KArchive _ _ | KBlock _ _ _ _ _ => false | _ => true end.

Definition archive_of (snap : snapshot) (s : string) : list ArchiveIntakeJob := default [] (ArchiveIntakeJobs (snap_jobs snap) !! s).
Definition compactions_of (snap : snapshot) (f : string) : list MetadataCompactionSnapshot :=
  default [] (CompactionSnapshots snap !! f).

(** The document of a record has the type of its kind and, where the loader
    looks, the identifiers of its key. *)
Definition doc_ok (k : dbkey) (d : Doc) : Prop :=
  match k, d with
  | KManifest _ _, DocManifest _ | KPeerManifest _ _ _, DocManifest _ => True
  | KHistory _ _ rev, DocManifest _ => 0 <= rev < 2 ^ 64
  | KRevision _ _, DocUint _ | KTombstone _ _, DocUint _ | KCursor _, DocUint _ => True
  | KPeerRevision _ _ _, DocUint _ | KPeerTombstone _ _ _, DocUint _ | KPeerCursor _ _, DocUint _ => True
  | KRename _ _, DocHint _ | KPeerRename _ _ _, DocHint _ => True
  | KPeerState _ _, DocSummary _ => True
  | KPeerCheckpoint _ _, DocCheckpoint _ => True
  | KCompaction _ _, DocCompaction _ => True
  | KMarker id, DocMarker m => SnapshotMarker_ID m = id
  | KArchive _ id, DocArchive j => ArchiveIntakeJob_ID j = id
  | KRestore id, DocRestore j => BackupRestoreJob_ID j = id
  | KRetention id, DocRetention j => BackupRetentionJob_ID j = id
  | KRepair id, DocRepair j => BackupRepairJob_ID j = id
  | KPendingWrite _ _, DocWrite _ => True
  | KSkippedDelete _ _, DocDelete _ => True
  | KNodeSettings n, DocSettings s => NodeSettingsDocument_NodeID s = n
  | KPendingSettings t id, DocChange c => PendingSettingsChange_TargetNodeID c = t /\ PendingSettingsChange_ID c = id
  | KBlock _ _ _ _ _, DocRef _ => True
  | _, _ => False
  end.

(** A database of key-level records, each where its key says. *)
Record db_wf (db : DB) : Prop := {
  wf_migrated : kv_get db badgerSnapshotKey = None;
  wf_records key d : kv_get db key = Some d -> has_prefix key badgerKeyPrefix = true -> exists k, key = key_string k /\ doc_ok k d
}.

(** ** Properties *)

(** *** Databases *)

Section laws.
Context `{!KVLaws DB}.

Definition get (db : DB) (k : dbkey) : option Doc := kv_get db (key_string k).

Lemma get_set k k' v db : get (kv_set (key_string k) v db) k' = if decide (k = k') then Some v else get db k'.
Proof.
  unfold get. case_decide as Hk; [subst; apply kv_set_eq|]. apply kv_set_ne. intros He%key_string_inj. done.
Qed.

Lemma get_delete k k' db : get (kv_delete (key_string k) db) k' = if decide (k = k') then None else get db k'.
Proof.
  unfold get. case_decide as Hk; [subst; apply kv_delete_eq|]. apply kv_delete_ne. intros He%key_string_inj. done.
Qed.

Lemma kv_get_set key key' v db : kv_get (kv_set key v db) key' = if decide (key = key') then Some v else kv_get db key'.
Proof. case_decide as Hk; [subst; apply kv_set_eq|by apply kv_set_ne]. Qed.

Lemma kv_get_delete key key' db : kv_get (kv_delete key db) key' = if decide (key = key') then None else kv_get db key'.
Proof. case_decide as Hk; [subst; apply kv_delete_eq|by apply kv_delete_ne]. Qed.

Lemma kv_get_delete_all keys db key :
  kv_get (foldl (fun db key => kv_delete key db) db keys) key = if decide (key ∈ keys) then None else kv_get db key.
Proof.
  revert db. induction keys as [|k keys IH]; intros db; cbn [foldl]; [done|].
  rewrite IH, kv_get_delete. repeat case_decide; set_solver.
Qed.

Lemma elem_of_scan prefix db key d : (key, d) ∈ scan prefix db <-> kv_get db key = Some d /\ has_prefix key prefix = true.
Proof.
  unfold scan. rewrite list_elem_of_omap. split.
  - intros (key' & Hk & Hd). destruct (kv_get db key') as [d'|] eqn:E; [|done]. injection Hd as <- <-.
    apply list_elem_of_In, filter_In in Hk as [_ Hk]. done.
  - intros [Hd Hp]. exists key. rewrite Hd. split; [|done]. apply list_elem_of_In, filter_In. split; [|done].
    apply list_elem_of_In, kv_keys_get. eauto.
Qed.

Lemma elem_of_scan_keys prefix db key : key ∈ (scan prefix db).*1 <-> is_Some (kv_get db key) /\ has_prefix key prefix = true.
Proof.
  rewrite list_elem_of_fmap. split.
  - intros ([key' d] & -> & [Hd Hp]%elem_of_scan). eauto.
  - intros [[d Hd] Hp]. exists (key, d). split; [done|]. by apply elem_of_scan.
Qed.

Lemma NoDup_scan prefix db : NoDup (scan prefix db).*1.
Proof.
  unfold scan. apply NoDup_omap_key.
  - intros key [key' d] H1. destruct (kv_get db key); [|done]. by injection H1 as <- <-.
  - apply NoDup_ListNoDup, List.NoDup_filter, NoDup_ListNoDup, kv_keys_NoDup.
Qed.

(** The items come in the order of their keys. *)
Lemma scan_sorted prefix db : StronglySorted (not_after str_lt) (scan prefix db).*1.
Proof.
  unfold scan. generalize (kv_keys_sorted db) (fun key => proj1 (kv_keys_get key db)). induction (kv_keys db) as [|key keys IH]; intros Hs Hk; [constructor|].
  apply StronglySorted_inv in Hs as [Hs Hall]. cbn [List.filter]. assert (forall key', key' ∈ keys -> is_Some (kv_get db key')) as Hk' by (intros; apply Hk; by right).
  destruct (has_prefix key prefix); [|by apply IH]. destruct (Hk key) as [d Hd]; [by left|]. cbn [omap list_omap]. rewrite Hd. cbn [fmap option_fmap option_map].
  rewrite fmap_cons. constructor; [by apply IH|]. rewrite Forall_forall in Hall |- *. intros key' ([key2 d'] & -> & Hin)%list_elem_of_fmap.
  apply Hall. apply list_elem_of_omap in Hin as (key3 & Hin & He). apply list_elem_of_In, List.filter_In in Hin as [Hin _].
  destruct (kv_get db key3); [|done]. injection He as -> _. by apply list_elem_of_In.
Qed.

Lemma kv_get_deletePrefix prefix db key :
  kv_get (badgerDeletePrefix prefix db) key = if has_prefix key prefix then None else kv_get db key.
Proof.
  unfold badgerDeletePrefix. rewrite kv_get_delete_all. case_decide as Hk; rewrite elem_of_scan_keys in Hk.
  - by rewrite (proj2 Hk).
  - destruct (has_prefix key prefix); [|done]. destruct (kv_get db key) eqn:E; [|done]. destruct Hk. eauto.
Qed.

Lemma kv_get_clear db key :
  kv_get (badgerClearKeyspace db) key =
  if has_prefix key badgerKeyPrefix || bool_decide (key = badgerSnapshotKey) then None else kv_get db key.
Proof.
  unfold badgerClearKeyspace. change (foldl _ _ _) with (badgerDeletePrefix badgerKeyPrefix (kv_delete badgerSnapshotKey db)).
  rewrite kv_get_deletePrefix, kv_get_delete. destruct (has_prefix key badgerKeyPrefix); [done|]. cbn [orb].
  repeat case_decide; case_bool_decide; congruence.
Qed.

(** *** Writing records *)

Definition put_records (l : list (dbkey * Doc)) (db : DB) : DB :=
  foldl (fun db e => kv_set (key_string e.1) e.2 db) db l.

Lemma put_records_app l1 l2 db : put_records (l1 ++ l2) db = put_records l2 (put_records l1 db).
Proof. apply foldl_app. Qed.

Lemma get_put_records l db k o :
  (forall d, (k, d) ∈ l -> o = Some d) -> (is_Some o -> exists d, (k, d) ∈ l) ->
  get (put_records l db) k = match o with Some d => Some d | None => get db k end.
Proof.
  intros Hall Hex. destruct o as [d|].
  - destruct (Hex ltac:(eauto)) as [d' Hd]. pose proof (Hall d' Hd) as [= <-]. clear Hex. unfold put_records.
    induction l as [|[k' d''] l IH] using rev_ind; [by apply elem_of_nil in Hd|]. rewrite foldl_snoc. cbn [fst snd]. rewrite get_set.
    case_decide as Hk; [subst; f_equal; symmetry|].
    + assert (Some d = Some d'') as [= ->]; [|done]. apply Hall. set_solver.
    + apply IH; set_solver.
  - assert (forall d, (k, d) ∉ l) as Hno by (intros d Hd; by apply Hall in Hd). clear Hall Hex. unfold put_records.
    induction l as [|[k' d''] l IH] using rev_ind; [done|]. rewrite foldl_snoc. cbn [fst snd]. rewrite get_set.
    case_decide as Hk; [subst; destruct (Hno d''); set_solver|]. apply IH. intros d Hd. apply (Hno d). set_solver.
Qed.

(** The keys outside the record space are not touched. *)
Lemma kv_get_put_records l db key : has_prefix key badgerKeyPrefix = false -> kv_get (put_records l db) key = kv_get db key.
Proof.
  intros Hk. unfold put_records. induction l as [|[k d] l IH] using rev_ind; [done|]. rewrite foldl_snoc. cbn [fst snd].
  rewrite kv_get_set. case_decide as He; [|done]. subst key. by rewrite key_string_in_keyspace in Hk.
Qed.

Lemma set_wf k d db : db_wf db -> doc_ok k d -> db_wf (kv_set (key_string k) d db).
Proof.
  intros [Hm Hr] Hok. split.
  - rewrite kv_get_set, decide_False; [done|]. intros He. pose proof (key_string_in_keyspace k) as Hk. by rewrite He in Hk.
  - intros key d' Hd Hp. rewrite kv_get_set in Hd. case_decide as He; [injection Hd as <-; eauto|by apply Hr].
Qed.

Lemma delete_wf key db : db_wf db -> db_wf (kv_delete key db).
Proof.
  intros [Hm Hr]. split.
  - rewrite kv_get_delete. by case_decide.
  - intros key' d' Hd Hp. rewrite kv_get_delete in Hd. case_decide; [done|by apply Hr].
Qed.

Lemma put_records_wf l db : db_wf db -> (forall k d, (k, d) ∈ l -> doc_ok k d) -> db_wf (put_records l db).
Proof.
  intros Hdb. unfold put_records. induction l as [|[k d] l IH] using rev_ind; intros Hl; [done|]. rewrite foldl_snoc. cbn [fst snd].
  apply set_wf; [|apply Hl; set_solver]. apply IH. intros k' d' H'. apply Hl. set_solver.
Qed.

Lemma clear_wf db : db_wf (badgerClearKeyspace db).
Proof.
  split.
  - rewrite kv_get_clear. by rewrite bool_decide_eq_true_2, orb_true_r.
  - intros key d Hd Hp. rewrite kv_get_clear, Hp in Hd. done.
Qed.
End laws.

End badger.

(** Brings the fields of an updated snapshot into view. *)
Ltac snapshot_fields :=
  cbn [record snap_local snap_peer snap_jobs snap_gate snap_settings CompactionSnapshots with_local with_peer with_jobs with_gate
       with_settings with_compaction on_local on_peer on_jobs on_gate Folders ManifestHistory Revisions Tombstones RenameHints Cursors
       ensureFolderState PeerStates PeerFolders PeerRevisions PeerTombstones PeerRenameHints PeerCursors PeerApplyCheckpoints
       ensurePeerFolderState SnapshotMarkers ArchiveIntakeJobs BackupRestoreJobs BackupRetentionJobs BackupRepairJobs
       put_marker put_archive put_restore put_retention put_repair PendingWrites SkippedDeletes ensureApplyGateState put_write
       NodeSettings PendingSettings put_document put_change].

Lemma decode_two a b : badgerDecodeTwo (badgerEncodePart a) (badgerEncodePart b) = Some (a, b).
Proof. unfold badgerDecodeTwo. by rewrite !badgerDecode_Encode. Qed.

(** Reads the fields of a key, the document and the loader's checks. *)
Ltac run_loader :=
  unfold loadManifest, loadHistory, loadRevision, loadTombstone, loadRename, loadCursor, loadPeerState, loadPeerManifest,
    loadPeerRevision, loadPeerTombstone, loadPeerRename, loadPeerCursor, loadPeerCheckpoint, loadCompaction, loadMarker,
    loadArchive, loadRestore, loadRetention, loadRepair, loadPendingWrite, loadSkippedDelete, loadNodeSettings,
    loadPendingSettings, fields1, fields2, fields_first, fields_none, fields_history, badgerDecodePeerFolderKey,
    badgerDecodePeerFolderPathKey;
  rewrite ?decode_two, ?badgerDecode_Encode;
  cbn [mbind result_bind option_bind valid_key as_manifest as_uint as_hint as_summary as_checkpoint as_compaction as_marker
       as_archive as_restore as_retention as_repair as_write as_delete as_settings as_change].

Section badger_reading.
Context {DB : Type} `{KVStore DB}.

(** *** Reading records *)


Lemma inner_ensure2 {V} `{Empty V} q f (m : gmap string (gmap string V)) q' f' :
  inner (inner (ensure2 q f m) q') f' = inner (inner m q') f'.
Proof.
  unfold ensure2. destruct (decide (q = q')) as [->|Hq]; [|by rewrite inner_insert_ne].
  by rewrite inner_insert_eq, inner_ensure.
Qed.

Lemma lookup_put2 {K V} `{Countable K} f (x : K) (v : V) m f' x' :
  inner (put2 f x v m) f' !! x' = if decide (f = f' /\ x = x') then Some v else inner m f' !! x'.
Proof.
  destruct (decide (f = f')) as [->|Hf]; [rewrite inner_put2_eq|rewrite inner_put2_ne, decide_False by naive_solver; done].
  rewrite lookup_insert. repeat case_decide; naive_solver.
Qed.

Lemma lookup_put3 {K V} `{Countable K} q f (x : K) (v : V) m q' f' x' :
  inner (inner (put3 q f x v m) q') f' !! x' =
  if decide (q = q' /\ f = f' /\ x = x') then Some v else inner (inner m q') f' !! x'.
Proof.
  unfold put3. destruct (decide (q = q')) as [->|Hq].
  - rewrite inner_put2_eq. destruct (decide (f = f')) as [->|Hf].
    + rewrite inner_insert_eq, lookup_insert. repeat case_decide; naive_solver.
    + rewrite inner_insert_ne by done. rewrite decide_False by naive_solver. done.
  - rewrite inner_put2_ne by done. rewrite decide_False by naive_solver. done.
Qed.

(** What a record adds to the list of a folder or snapshot. *)
Definition archive_sel (s : string) (e : dbkey * Doc) : option ArchiveIntakeJob :=
  match e with (KArchive s' _, DocArchive j) => if decide (s' = s) then Some j else None | _ => None end.
Definition compaction_sel (f : string) (e : dbkey * Doc) : option MetadataCompactionSnapshot :=
  match e with (KCompaction f' _, DocCompaction c) => if decide (f' = f) then Some c else None | _ => None end.

(** Every path with a history has a revision in it. *)
Definition history_full (snap : snapshot) : Prop :=
  forall f p h, inner (ManifestHistory (snap_local snap)) f !! p = Some h -> h <> ∅.

Definition reads (snap : snapshot) (k : dbkey) (d : Doc) (snap' : snapshot) : Prop :=
  (forall k', plain k' = true -> record snap' k' = if decide (k = k') then Some d else record snap k') /\
  (forall s, archive_of snap' s = archive_of snap s ++ option_list (archive_sel s (k, d))) /\
  (forall f, compactions_of snap' f = compactions_of snap f ++ option_list (compaction_sel f (k, d))) /\
  (history_full snap -> history_full snap').

Lemma lookup_addHistory f p r m h f' p' r' :
  inner (inner (addHistory f p r m h) f') p' !! r' =
  if decide (f = f' /\ p = p' /\ r = r') then Some m else inner (inner h f') p' !! r'.
Proof. apply (lookup_put3 f p r m h). Qed.

#[local] Hint Rewrite @inner_ensure @inner_ensure2 @lookup_put2 @lookup_put3 lookup_addHistory : lookups.

Lemma lists_kept snap snap' k d :
  (forall s, archive_of snap' s = archive_of snap s) -> (forall f, compactions_of snap' f = compactions_of snap f) ->
  (forall s, archive_sel s (k, d) = None) -> (forall f, compaction_sel f (k, d) = None) ->
  (history_full snap -> history_full snap') ->
  (forall k', plain k' = true -> record snap' k' = if decide (k = k') then Some d else record snap k') -> reads snap k d snap'.
Proof.
  intros Ha Hc Hsa Hsc Hh Hr. split; [done|]. split; [|split; [|done]]; intros x; [rewrite Ha, Hsa|rewrite Hc, Hsc]; by rewrite app_nil_r.
Qed.

Lemma fmap_if {A B} (f : A -> B) (P : Prop) `{Decision P} (x : A) (o : option A) :
  f <$> (if decide P then Some x else o) = if decide P then Some (f x) else f <$> o.
Proof. by case_decide. Qed.

Lemma if_decide_iff {A} (P Q : Prop) `{Decision P, Decision Q} (x y : A) :
  (P <-> Q) -> (if decide P then x else y) = (if decide Q then x else y).
Proof. intros HPQ. repeat case_decide; naive_solver. Qed.

(** The records of an updated map: the one with the key, and the others. *)
Local Ltac one_record :=
  intros k' Hk'; destruct k'; try discriminate Hk'; snapshot_fields; autorewrite with lookups;
  rewrite ?lookup_insert, ?fmap_if; first [rewrite decide_False by discriminate; reflexivity | apply if_decide_iff; naive_solver].

Local Ltac same_history :=
  let Hf := fresh in let f := fresh in
  intros Hf f; specialize (Hf f); intros ? ?; revert Hf; unfold history_full; snapshot_fields; autorewrite with lookups; intros Hf; apply Hf.

Lemma addHistory_full snap f p r m :
  history_full snap ->
  history_full (on_local f (fun l => mkFolderMeta (Folders l) (addHistory f p r m (ManifestHistory l)) (Revisions l) (Tombstones l)
                                       (RenameHints l) (Cursors l)) snap).
Proof.
  intros Hf f' p' h. snapshot_fields. unfold addHistory. rewrite lookup_put2. autorewrite with lookups. case_decide; [|apply Hf].
  intros [= <-] He. apply (f_equal (lookup r)) in He. by rewrite lookup_insert_eq in He.
Qed.

Lemma reads_compaction snap f i c :
  reads snap (KCompaction f i) (DocCompaction c) (with_compaction (append f c (CompactionSnapshots snap)) snap).
Proof.
  split; [|split; [|split; [|done]]].
  - one_record.
  - intros s. cbn. by rewrite app_nil_r.
  - intros f'. unfold compactions_of, append. cbn. rewrite lookup_insert. case_decide; [by subst|by rewrite app_nil_r].
Qed.

Lemma reads_archive snap s j :
  reads snap (KArchive s (ArchiveIntakeJob_ID j)) (DocArchive j)
    (on_jobs (fun jobs => put_archive s (default [] (ArchiveIntakeJobs jobs !! s) ++ [j]) jobs) snap).
Proof.
  split; [|split; [|split; [|done]]].
  - one_record.
  - intros s'. unfold archive_of. cbn. rewrite lookup_insert. case_decide; [by subst|by rewrite app_nil_r].
  - intros f. cbn. by rewrite app_nil_r.
Qed.

(** The records of a key's kind are read into the field of that kind, under the key. *)
Lemma badgerLoadKeyValue_record snap k d : doc_ok k d ->
  exists snap', badgerLoadKeyValue snap (key_string k) d = Ok snap' /\ reads snap k d snap'.
Proof.
  intros Hok. unfold badgerLoadKeyValue. rewrite key_fields_string.
  destruct k; destruct d; cbn [doc_ok] in Hok; try done; cbn [key_parts hd];
    cbn [List.find loaders String.eqb Ascii.eqb Bool.eqb fst snd]; run_loader.
  all: try rewrite ParseUint_itoa by done; cbn [mbind result_bind option_bind valid_key].
  all: repeat (rewrite bool_decide_eq_false_2 by tauto); cbn [orb fail_if mbind result_bind].
  all: eexists; split; [reflexivity|]; try subst; try (apply lists_kept; try reflexivity; [try same_history|one_record]).
  - apply addHistory_full.
  - apply reads_compaction.
  - apply reads_archive.
Qed.

(** A run of records with different keys. *)
Lemma load_items_records l snap :
  NoDup l.*1 -> (forall k d, (k, d) ∈ l -> doc_ok k d) ->
  exists snap', load_items (prod_map key_string id <$> l) snap = Ok snap' /\
    (forall k d, plain k = true -> (k, d) ∈ l -> record snap' k = Some d) /\
    (forall k, plain k = true -> k ∉ l.*1 -> record snap' k = record snap k) /\
    (forall s, archive_of snap' s = archive_of snap s ++ omap (archive_sel s) l) /\
    (forall f, compactions_of snap' f = compactions_of snap f ++ omap (compaction_sel f) l) /\
    (history_full snap -> history_full snap').
Proof.
  induction l as [|[k d] l IH] using rev_ind; intros Hnd Hok.
  - exists snap. repeat split; intros; rewrite ?app_nil_r; try done. by apply elem_of_nil in H1.
  - rewrite fmap_app in Hnd. apply NoDup_app in Hnd as (Hnd & Hk & _).
    destruct IH as (snap1 & E1 & Hin & Hout & Ha & Hc & Hh); [done|intros; apply Hok; set_solver|].
    destruct (badgerLoadKeyValue_record snap1 k d) as (snap2 & E2 & Hr & Ha2 & Hc2 & Hh2); [apply Hok; set_solver|].
    exists snap2. split; [unfold load_items in *; rewrite fmap_app, foldl_app, E1; exact E2|].
    assert (k ∉ l.*1) as Hkl by (intros Hin'; apply (Hk _ Hin'); set_solver). repeat split.
    + intros k' d' Hp Hd. rewrite Hr by done. apply elem_of_app in Hd as [Hd|[= -> ->]%list_elem_of_singleton]; [|by rewrite decide_True].
      rewrite decide_False; [by apply Hin|]. intros ->. apply Hkl. apply list_elem_of_fmap. by exists (k', d').
    + intros k' Hp Hd. rewrite Hr by done. rewrite fmap_app in Hd. rewrite decide_False by set_solver. apply Hout; set_solver.
    + intros s. rewrite Ha2, Ha, omap_app, app_assoc. cbn [omap list_omap]. by destruct (archive_sel s (k, d)).
    + intros f. rewrite Hc2, Hc, omap_app, app_assoc. cbn [omap list_omap]. by destruct (compaction_sel f (k, d)).
    + auto.
Qed.

(** *** Reading a database *)

Section reading.
Context `{!KVLaws DB}.

Lemma records_of_items (items : list (string * Doc)) :
  (forall key d, (key, d) ∈ items -> exists k, key = key_string k) -> exists l, items = prod_map key_string id <$> l.
Proof.
  induction items as [|[key d] items IH]; intros Hk; [by exists []|].
  destruct (Hk key d) as [k ->]; [by left|]. destruct IH as [l ->]; [intros; eapply Hk; by right|]. by exists ((k, d) :: l).
Qed.

Lemma scan_records db : db_wf db -> exists l, scan badgerKeyPrefix db = prod_map key_string id <$> l /\
  NoDup l.*1 /\ (forall k d, (k, d) ∈ l <-> get db k = Some d) /\ (forall k d, (k, d) ∈ l -> doc_ok k d) /\
  StronglySorted (not_after str_lt) (key_string <$> l.*1).
Proof.
  intros W. destruct (records_of_items (scan badgerKeyPrefix db)) as [l Hl].
  { intros key d [Hd Hp]%elem_of_scan. destruct (wf_records _ W _ _ Hd Hp) as (k & -> & _). eauto. }
  assert (forall k d, (k, d) ∈ l <-> get db k = Some d) as Hin.
  { intros k d. unfold get. transitivity ((key_string k, d) ∈ scan badgerKeyPrefix db).
    - rewrite Hl, list_elem_of_fmap. split.
      + intros Hk. by exists (k, d).
      + intros ([k' d'] & [= Hk ->] & Hk'). apply key_string_inj in Hk as ->. done.
    - rewrite elem_of_scan. pose proof (key_string_in_keyspace k). tauto. }
  exists l. split; [done|]. split; [|split; [apply Hin|split]].
  3: { pose proof (scan_sorted badgerKeyPrefix db) as Hs. rewrite Hl, <- list_fmap_compose in Hs. by rewrite <- list_fmap_compose. }
  - pose proof (NoDup_scan badgerKeyPrefix db) as Hnd. rewrite Hl, <- list_fmap_compose in Hnd.
    change ((fst ∘ prod_map key_string id) <$> l) with ((key_string ∘ fst) <$> l) in Hnd. rewrite list_fmap_compose in Hnd.
    by apply NoDup_fmap_1 in Hnd.
  - intros k d Hd%Hin. destruct (wf_records _ W _ _ Hd (key_string_in_keyspace k)) as (k' & Hk & Hok).
    by apply key_string_inj in Hk as ->.
Qed.

Lemma readSnapshot_records db : db_wf db -> exists snap l, readSnapshot db = Ok snap /\
  NoDup l.*1 /\ (forall k d, (k, d) ∈ l <-> get db k = Some d) /\
  (forall k, plain k = true -> record snap k = get db k) /\
  (forall s, archive_of snap s = omap (archive_sel s) l) /\ (forall f, compactions_of snap f = omap (compaction_sel f) l) /\ history_full snap /\
  (forall k d, (k, d) ∈ l -> doc_ok k d) /\ StronglySorted (not_after str_lt) (key_string <$> l.*1).
Proof.
  intros W. destruct (scan_records db W) as (l & Hs & Hnd & Hin & Hok & Hsort).
  destruct (load_items_records l snapshot_zero Hnd Hok) as (snap & E & Hget & Hno & Ha & Hc & Hh). exists snap, l.
  split; [|split; [done|split; [done|split; [|split; [done|split; [done|split; [|done]]]]]]].
  3: { apply Hh. intros f p h. cbn. unfold inner. by rewrite lookup_empty. }
  - unfold readSnapshot. rewrite Hs. destruct l as [|e l]; [|exact E].
    cbn in E. injection E as <-. unfold get_doc. by rewrite (wf_migrated _ W).
  - intros k Hp. destruct (get db k) as [d|] eqn:Ed.
    + apply Hget; [done|]. by apply Hin.
    + rewrite Hno; [|done|].
      * destruct k; cbn; unfold inner; rewrite ?lookup_empty; cbn; by rewrite ?lookup_empty.
      * intros ([k' d] & -> & Hd)%list_elem_of_fmap. apply Hin in Hd. cbn in Ed. congruence.
Qed.
Lemma scan_prefix_records db pre key d : db_wf db -> pre <> [] -> Forall (fun w => contains_char w slash = false) pre ->
  (key, d) ∈ scan (scan_prefix pre) db <->
  exists k, key = key_string k /\ get db k = Some d /\ exists rest, rest <> [] /\ key_parts k = pre ++ rest.
Proof.
  intros W Hp Hpre. rewrite elem_of_scan. split.
  - intros [Hd Hk]. assert (has_prefix key badgerKeyPrefix = true) as Hkey.
    { apply has_prefix_inv in Hk as [t ->]. unfold scan_prefix. rewrite str_app_assoc. apply has_prefix_app. }
    destruct (wf_records _ W _ _ Hd Hkey) as (k & -> & _). exists k. split; [done|]. split; [done|]. by apply key_string_prefix.
  - intros (k & -> & Hd & Hr). split; [done|]. by apply key_string_prefix.
Qed.

(** The records of a table: those whose key is a prefix followed by one identifier. *)
Lemma scan_table {A} (as_ : Doc -> result StoreErr A) (doc : A -> Doc) (key : string -> dbkey) (pre : list string) (m : gmap string A) db :
  db_wf db -> pre <> [] -> Forall (fun w => contains_char w slash = false) pre ->
  (forall p, key_parts (key p) = pre ++ [badgerEncodePart p]) -> (forall x, as_ (doc x) = Ok x) ->
  (forall k rest, key_parts k = pre ++ rest -> exists p, k = key p) ->
  (forall p, get db (key p) = doc <$> m !! p) ->
  exists l : list (string * A), scan (scan_prefix pre) db = (fun e => (key_string (key e.1), doc e.2)) <$> l /\ l ≡ₚ map_to_list m.
Proof.
  intros W Hne Hpre Hkey Has Hinv Hget.
  assert (forall k d, (key_string k, d) ∈ scan (scan_prefix pre) db <-> exists p x, k = key p /\ d = doc x /\ m !! p = Some x) as Hin.
  { intros k d. rewrite scan_prefix_records by done. split.
    - intros (k' & Hk%key_string_inj & Hd & rest & _ & Hrest). subst k'. destruct (Hinv _ _ Hrest) as [p ->]. rewrite Hget in Hd.
      apply fmap_Some in Hd as (x & Hx & ->). eauto.
    - intros (p & x & -> & -> & Hx). exists (key p). split; [done|]. split; [by rewrite Hget, Hx|]. exists [badgerEncodePart p]. by rewrite Hkey. }
  destruct (records_of_items (scan (scan_prefix pre) db)) as [l0 Hl0].
  { intros ke d Hd. apply scan_prefix_records in Hd as (k' & Hk & _); eauto. }
  assert (exists l : list (string * A), l0 = (fun e => (key e.1, doc e.2)) <$> l) as [l ->].
  { assert (forall k d, (k, d) ∈ l0 -> exists p x, k = key p /\ d = doc x) as H0.
    { intros k d Hd. destruct (proj1 (Hin k d)) as (p & x & -> & -> & _); [|eauto]. rewrite Hl0. apply list_elem_of_fmap. by exists (k, d). }
    clear -H0. induction l0 as [|[k d] l0 IH]; [by exists []|]. destruct (H0 k d) as (p & x & -> & ->); [by left|].
    destruct IH as [l ->]; [intros; apply H0; by right|]. by exists ((p, x) :: l). }
  rewrite <- list_fmap_compose in Hl0. exists l. split; [exact Hl0|].
  assert (forall p p', key p = key p' -> p = p') as Hinj.
  { intros p p' Hk. apply (f_equal key_parts) in Hk. rewrite !Hkey in Hk. apply app_inv_head in Hk. by injection Hk as Hk%badgerEncodePart_inj. }
  assert (forall x x', doc x = doc x' -> x = x') as Hdoc by (intros x x' Hx; apply (f_equal as_) in Hx; rewrite !Has in Hx; by injection Hx).
  apply NoDup_Permutation; [|apply NoDup_map_to_list|].
  - pose proof (NoDup_scan (scan_prefix pre) db) as Hn. rewrite Hl0 in Hn. apply NoDup_fmap_1 in Hn. by apply NoDup_fmap_1 in Hn.
  - intros [p x]. rewrite elem_of_map_to_list. split.
    + intros Hp. destruct (proj1 (Hin (key p) (doc x))) as (p' & x' & Hk%Hinj & Hd%Hdoc & Hm); [|by subst].
      rewrite Hl0. apply list_elem_of_fmap. by exists (p, x).
    + intros Hm. assert ((key_string (key p), doc x) ∈ scan (scan_prefix pre) db) as Hs by (apply Hin; eauto).
      rewrite Hl0 in Hs. apply list_elem_of_fmap in Hs as ([p' x'] & [= Hk%key_string_inj%Hinj Hd%Hdoc] & Hp). cbn in Hk, Hd. by subst.
Qed.

(** The documents of a table, and their order once sorted. *)
Lemma decode_table {A} (as_ : Doc -> result StoreErr A) (doc : A -> Doc) (key : string -> dbkey) (pre : list string) (m : gmap string A) db :
  db_wf db -> pre <> [] -> Forall (fun w => contains_char w slash = false) pre ->
  (forall p, key_parts (key p) = pre ++ [badgerEncodePart p]) -> (forall x, as_ (doc x) = Ok x) ->
  (forall k rest, key_parts k = pre ++ rest -> exists p, k = key p) ->
  (forall p, get db (key p) = doc <$> m !! p) ->
  exists l, decode_all as_ (scan (scan_prefix pre) db) = Ok l /\ l ≡ₚ values m.
Proof.
  intros W Hne Hpre Hkey Has Hinv Hget. destruct (scan_table as_ doc key pre m db) as (l & Hl & Hp); [done..|].
  exists l.*2. split; [|unfold values; by rewrite Hp]. rewrite Hl. clear -Has. induction l as [|[p x] l IH]; [done|]. cbn in *. rewrite Has, IH. done.
Qed.
End reading.

(** *** Writing a snapshot *)

Definition blockRecords (f rel : string) (m : Manifest) : list (dbkey * Doc) :=
  (fun b => (KBlock (Block_Size b) (Block_Hash b) f rel (Block_Index b), DocRef (mkBlockRef f rel b))) <$> Manifest_Blocks m.

Definition all2 {K V} `{Countable K} (key : string -> K -> dbkey) (doc : V -> Doc) (m : gmap string (gmap K V)) : list (dbkey * Doc) :=
  (fun e => (key e.1 e.2.1, doc e.2.2)) <$> entries2 m.
Definition all3 {K V} `{Countable K} (key : string -> string -> K -> dbkey) (doc : V -> Doc)
    (m : gmap string (gmap string (gmap K V))) : list (dbkey * Doc) :=
  (fun e => (key e.1 e.2.1 e.2.2.1, doc e.2.2.2)) <$> entries3 m.
Definition all1 {V} (key : string -> dbkey) (doc : V -> Doc) (m : gmap string V) : list (dbkey * Doc) :=
  (fun e => (key e.1, doc e.2)) <$> map_to_list m.

Definition files_records (m : gmap string (gmap string Manifest)) : list (dbkey * Doc) :=
  e ← entries2 m; (KManifest e.1 e.2.1, DocManifest e.2.2) :: blockRecords e.1 e.2.1 e.2.2.

Definition archive_records (m : gmap string (list ArchiveIntakeJob)) : list (dbkey * Doc) :=
  e ← map_to_list m; (fun job => (KArchive e.1 (ArchiveIntakeJob_ID job), DocArchive job)) <$> e.2.

Definition compaction_records (m : gmap string (list MetadataCompactionSnapshot)) : list (dbkey * Doc) :=
  e ← map_to_list m; (fun x => (KCompaction e.1 x.1, DocCompaction x.2)) <$> numbered e.2.

(** The records [badgerWriteSnapshot] sets, in its order. *)
Definition snapshot_records (snap : snapshot) : list (dbkey * Doc) :=
  let l := snap_local snap in
  let p := snap_peer snap in
  let j := snap_jobs snap in
  files_records (Folders l) ++ all3 KHistory DocManifest (ManifestHistory l) ++ all2 KRevision DocUint (Revisions l)
  ++ all2 KTombstone DocUint (Tombstones l) ++ all2 KRename DocHint (RenameHints l) ++ all1 KCursor DocUint (Cursors l)
  ++ all2 KPeerState DocSummary (PeerStates p) ++ all3 KPeerManifest DocManifest (PeerFolders p)
  ++ all3 KPeerRevision DocUint (PeerRevisions p) ++ all3 KPeerTombstone DocUint (PeerTombstones p)
  ++ all3 KPeerRename DocHint (PeerRenameHints p) ++ all2 KPeerCursor DocUint (PeerCursors p)
  ++ all2 KPeerCheckpoint DocCheckpoint (PeerApplyCheckpoints p)
  ++ compaction_records (CompactionSnapshots snap)
  ++ all1 KMarker DocMarker (SnapshotMarkers j) ++ archive_records (ArchiveIntakeJobs j)
  ++ all1 KRestore DocRestore (BackupRestoreJobs j) ++ all1 KRetention DocRetention (BackupRetentionJobs j)
  ++ all1 KRepair DocRepair (BackupRepairJobs j)
  ++ all2 KPendingWrite DocWrite (PendingWrites (snap_gate snap)) ++ all2 KSkippedDelete DocDelete (SkippedDeletes (snap_gate snap))
  ++ all1 KNodeSettings DocSettings (NodeSettings (snap_settings snap))
  ++ all2 KPendingSettings DocChange (PendingSettings (snap_settings snap)).

Lemma put_records_cons e l (db : DB) : put_records (e :: l) db = put_records l (kv_set (key_string e.1) e.2 db).
Proof. reflexivity. Qed.

Lemma put_records_fmap {A} (f : A -> dbkey * Doc) (l : list A) (db : DB) :
  put_records (f <$> l) db = foldl (fun db x => kv_set (key_string (f x).1) (f x).2 db) db l.
Proof. revert db. induction l as [|x l IH]; intros db; [done|]. apply IH. Qed.

Lemma put_records_bind {A} (f : A -> list (dbkey * Doc)) (l : list A) (db : DB) :
  put_records (l ≫= f) db = foldl (fun db x => put_records (f x) db) db l.
Proof.
  revert db. induction l as [|x l IH]; intros db; [done|]. rewrite bind_cons, put_records_app. apply IH.
Qed.

Lemma foldl_ext {A B} (f g : A -> B -> A) l a : (forall a b, f a b = g a b) -> foldl f a l = foldl g a l.
Proof. intros Hfg. revert a. induction l as [|x l IH]; intros a; [done|]. cbn. by rewrite Hfg, IH. Qed.

Lemma badgerWriteSnapshot_records snap (db : DB) : badgerWriteSnapshot snap db = put_records (snapshot_records snap) db.
Proof.
  unfold snapshot_records. rewrite !put_records_app. unfold all1, all2, all3, files_records, archive_records, compaction_records.
  rewrite !put_records_fmap, !put_records_bind.
  unfold badgerWriteSnapshot, writeSettings, writeGate, writeJobs, writeCompactions, writePeers, writeLocal, set2, set3, badgerSetAll.
  assert (forall l (db0 : DB), foldl writeFile db0 l =
    foldl (fun db e => put_records ((KManifest e.1 e.2.1, DocManifest e.2.2) :: blockRecords e.1 e.2.1 e.2.2) db) db0 l) as Hfiles.
  { intros l db0. apply foldl_ext. intros db1 e. unfold writeFile, indexBlocks, blockRecords.
    rewrite put_records_cons, put_records_fmap. reflexivity. }
  rewrite Hfiles.
  rewrite !(foldl_ext (fun db e => put_records (_ <$> _) db) _ _ _ (fun db e => put_records_fmap _ _ db)).
  reflexivity.
Qed.

(** What a snapshot has under a key, the lists and the block references included. *)
Definition recorded (snap : snapshot) (k : dbkey) (d : Doc) : Prop :=
  match k with
  | KArchive s id => exists j, j ∈ archive_of snap s /\ ArchiveIntakeJob_ID j = id /\ d = DocArchive j
  | KCompaction f i => exists c n, compactions_of snap f !! n = Some c /\ i = Z.of_nat n /\ d = DocCompaction c
  | KBlock size hash f rel i => exists m b, inner (Folders (snap_local snap)) f !! rel = Some m /\ b ∈ Manifest_Blocks m /\
      size = Block_Size b /\ hash = Block_Hash b /\ i = Block_Index b /\ d = DocRef (mkBlockRef f rel b)
  | _ => record snap k = Some d
  end.

Lemma elem_of_entries2 {K V} `{Countable K} (m : gmap string (gmap K V)) a b v : (a, (b, v)) ∈ entries2 m <-> inner m a !! b = Some v.
Proof.
  unfold entries2, inner. rewrite list_elem_of_bind. split.
  - intros ([a' m'] & ([b' v'] & [= -> -> ->] & Hv)%list_elem_of_fmap & Hm). apply elem_of_map_to_list in Hm, Hv. cbn in Hm, Hv. by rewrite Hm.
  - destruct (m !! a) as [m'|] eqn:Hm; cbn; [|by rewrite lookup_empty]. intros Hv. exists (a, m').
    split; [apply list_elem_of_fmap; exists (b, v); split; [done|]|]; by apply elem_of_map_to_list.
Qed.

Lemma elem_of_entries3 {K V} `{Countable K} (m : gmap string (gmap string (gmap K V))) a b c v :
  (a, (b, (c, v))) ∈ entries3 m <-> inner (inner m a) b !! c = Some v.
Proof.
  rewrite <- elem_of_entries2. unfold entries3, inner at 1. rewrite list_elem_of_bind. split.
  - intros ([a' m'] & ([b' v'] & [= -> -> ->] & Hv)%list_elem_of_fmap & Hm). apply elem_of_map_to_list in Hm. cbn in Hm, Hv. by rewrite Hm.
  - destruct (m !! a) as [m'|] eqn:Hm; cbn; [|by intros ?%elem_of_nil]. intros Hv. exists (a, m').
    split; [apply list_elem_of_fmap; by exists (b, (c, v))|]. by apply elem_of_map_to_list.
Qed.

Lemma elem_of_all1 {V} (key : string -> dbkey) (doc : V -> Doc) m k d :
  (k, d) ∈ all1 key doc m <-> exists a v, k = key a /\ m !! a = Some v /\ d = doc v.
Proof.
  unfold all1. rewrite list_elem_of_fmap. split.
  - intros ([a v] & [= -> ->] & Hv%elem_of_map_to_list). eauto.
  - intros (a & v & -> & Hv & ->). exists (a, v). split; [done|]. by apply elem_of_map_to_list.
Qed.

Lemma elem_of_all2 {K V} `{Countable K} (key : string -> K -> dbkey) (doc : V -> Doc) m k d :
  (k, d) ∈ all2 key doc m <-> exists a b v, k = key a b /\ inner m a !! b = Some v /\ d = doc v.
Proof.
  unfold all2. rewrite list_elem_of_fmap. split.
  - intros ([a [b v]] & [= -> ->] & Hv%elem_of_entries2). eauto 8.
  - intros (a & b & v & -> & Hv & ->). exists (a, (b, v)). split; [done|]. by apply elem_of_entries2.
Qed.

Lemma elem_of_all3 {K V} `{Countable K} (key : string -> string -> K -> dbkey) (doc : V -> Doc) m k d :
  (k, d) ∈ all3 key doc m <-> exists a b c v, k = key a b c /\ inner (inner m a) b !! c = Some v /\ d = doc v.
Proof.
  unfold all3. rewrite list_elem_of_fmap. split.
  - intros ([a [b [c v]]] & [= -> ->] & Hv%elem_of_entries3). eauto 9.
  - intros (a & b & c & v & -> & Hv & ->). exists (a, (b, (c, v))). split; [done|]. by apply elem_of_entries3.
Qed.

Lemma elem_of_files_records m k d : (k, d) ∈ files_records m <-> exists f rel man, inner m f !! rel = Some man /\
  ((k = KManifest f rel /\ d = DocManifest man) \/
   exists b, b ∈ Manifest_Blocks man /\ k = KBlock (Block_Size b) (Block_Hash b) f rel (Block_Index b) /\ d = DocRef (mkBlockRef f rel b)).
Proof.
  unfold files_records, blockRecords. rewrite list_elem_of_bind. split.
  - intros ([f [rel man]] & Hin & Hv%elem_of_entries2). exists f, rel, man. split; [done|].
    apply elem_of_cons in Hin as [[= -> ->]|(b & [= -> ->] & Hb)%list_elem_of_fmap]; [by left|right; eauto].
  - intros (f & rel & man & Hv%elem_of_entries2 & Hk). exists (f, (rel, man)). split; [|done].
    destruct Hk as [[-> ->]|(b & Hb & -> & ->)]; [by left|right]. apply list_elem_of_fmap. eauto.
Qed.

Lemma elem_of_values_list {V} (m : gmap string (list V)) (f : string) x :
  (exists l, (f, l) ∈ map_to_list m /\ x ∈ l) <-> x ∈ default [] (m !! f).
Proof.
  split.
  - intros (l & Hl%elem_of_map_to_list & Hx). by rewrite Hl.
  - destruct (m !! f) as [l|] eqn:E; cbn; [|by intros ?%elem_of_nil]. intros Hx. exists l. split; [by apply elem_of_map_to_list|done].
Qed.

Lemma elem_of_archive_records m k d : (k, d) ∈ archive_records m <->
  exists s j, k = KArchive s (ArchiveIntakeJob_ID j) /\ j ∈ default [] (m !! s) /\ d = DocArchive j.
Proof.
  unfold archive_records. rewrite list_elem_of_bind. split.
  - intros ([s l] & (j & [= -> ->] & Hj)%list_elem_of_fmap & Hl). exists s, j. split; [done|]. split; [|done].
    apply elem_of_values_list. eauto.
  - intros (s & j & -> & (l & Hl & Hj)%elem_of_values_list & ->). exists (s, l). split; [|done]. apply list_elem_of_fmap. eauto.
Qed.

Lemma elem_of_compaction_records m k d : (k, d) ∈ compaction_records m <->
  exists f n c, k = KCompaction f (Z.of_nat n) /\ default [] (m !! f) !! n = Some c /\ d = DocCompaction c.
Proof.
  unfold compaction_records. rewrite list_elem_of_bind. split.
  - intros ([f l] & ([i c] & [= -> ->] & Hc)%list_elem_of_fmap & Hl%elem_of_map_to_list). cbn in *.
    apply list_elem_of_lookup in Hc as [n Hn]. unfold numbered in Hn. rewrite list_lookup_imap in Hn.
    apply fmap_Some in Hn as (c' & E & [= -> ->]). exists f, n, c'. by rewrite Hl.
  - intros (f & n & c & -> & Hc & ->). destruct (m !! f) as [l|] eqn:E; cbn in Hc; [|done]. exists (f, l).
    split; [|by apply elem_of_map_to_list]. apply list_elem_of_fmap. exists (Z.of_nat n, c). split; [done|].
    apply list_elem_of_lookup. exists n. unfold numbered. rewrite list_lookup_imap. cbn [snd] in *. by rewrite Hc.
Qed.

(** Finds the group of a record's kind. *)
Local Ltac pick_record :=
  first [left; pick_here | right; pick_record | pick_here]
with pick_here := repeat eexists; by eauto.

Lemma elem_of_snapshot_records snap k d : (k, d) ∈ snapshot_records snap <-> recorded snap k d.
Proof.
  unfold snapshot_records. rewrite !elem_of_app, !elem_of_all1, !elem_of_all2, !elem_of_all3, elem_of_files_records,
    elem_of_archive_records, elem_of_compaction_records. split.
  - intros Hin. repeat destruct Hin as [Hin|Hin].
    all: repeat match goal with H : exists _, _ |- _ => destruct H end; destruct_and?; try (destruct_or!; [|naive_solver]).
    all: destruct_and?; subst; cbn [recorded record]; first [match goal with H : _ = Some _ |- _ => by rewrite H end|by eauto].
  - intros Hr. destruct k; cbn [recorded record] in Hr; try (apply fmap_Some in Hr as (v & Hv & ->)).
    all: try pick_record.
    + destruct Hr as (c & n & Hc & -> & ->). pick_record.
    + destruct Hr as (j & Hj & <- & ->). pick_record.
    + destruct Hr as (m & b & Hm & Hb & -> & -> & -> & ->). left. exists folderID, rel, m. split; [done|]. right. eauto.
Qed.

(** *** Saving and loading *)

(** The snapshots the store keeps: documents under their own identifiers. *)
Record keyed_snapshot (snap : snapshot) : Prop := {
  keyed_history f p r m : inner (inner (ManifestHistory (snap_local snap)) f) p !! r = Some m -> 0 <= r < 2 ^ 64;
  keyed_full : history_full snap;
  keyed_marker id m : SnapshotMarkers (snap_jobs snap) !! id = Some m -> SnapshotMarker_ID m = id;
  keyed_restore id j : BackupRestoreJobs (snap_jobs snap) !! id = Some j -> BackupRestoreJob_ID j = id;
  keyed_retention id j : BackupRetentionJobs (snap_jobs snap) !! id = Some j -> BackupRetentionJob_ID j = id;
  keyed_repair id j : BackupRepairJobs (snap_jobs snap) !! id = Some j -> BackupRepairJob_ID j = id;
  keyed_archive s : NoDup (ArchiveIntakeJob_ID <$> archive_of snap s);
  keyed_document n d : NodeSettings (snap_settings snap) !! n = Some d -> NodeSettingsDocument_NodeID d = n;
  keyed_change t id c : inner (PendingSettings (snap_settings snap)) t !! id = Some c ->
    PendingSettingsChange_TargetNodeID c = t /\ PendingSettingsChange_ID c = id
}.

Lemma recorded_ok snap k d : keyed_snapshot snap -> recorded snap k d -> doc_ok k d.
Proof.
  intros K Hr. destruct k; cbn [recorded record] in Hr; try (apply fmap_Some in Hr as (v & Hv & ->); cbn; try done; by destruct K; eauto).
  - destruct Hr as (c & n & _ & _ & ->). done.
  - destruct Hr as (j & _ & <- & ->). done.
  - by destruct Hr as (m & b & _ & _ & _ & _ & _ & ->).
Qed.

Definition is_local (k : dbkey) : bool :=
  match k with KManifest _ _ | KHistory _ _ _ | KRevision _ _ | KTombstone _ _ | KRename _ _ | KCursor _ => true | _ => false end.

Definition is_block (k : dbkey) : bool := match k with KBlock _ _ _ _ _ => true | _ => false end.

Lemma recorded_unique snap k d d' :
  keyed_snapshot snap -> is_block k = false -> recorded snap k d -> recorded snap k d' -> d = d'.
Proof.
  intros K Hb H1 H2. destruct k; cbn [recorded] in *; try congruence; try done.
  - destruct H1 as (c1 & n1 & Hc1 & -> & ->), H2 as (c2 & n2 & Hc2 & ?%Nat2Z.inj & ->). congruence.
  - destruct H1 as (j1 & Hj1 & <- & ->), H2 as (j2 & Hj2 & Hid & ->). f_equal.
    by apply (NoDup_fmap_elem ArchiveIntakeJob_ID (archive_of snap snapshotID)); [apply (keyed_archive _ K)|..].
Qed.

Section saving.
Context `{!KVLaws DB}.

Definition saved_db (snap : snapshot) (db : DB) : DB := put_records (snapshot_records snap) (badgerClearKeyspace db).

Lemma get_clear db k : get (badgerClearKeyspace db) k = None.
Proof. unfold get. by rewrite kv_get_clear, key_string_in_keyspace. Qed.

Lemma saved_db_wf snap db : keyed_snapshot snap -> db_wf (saved_db snap db).
Proof.
  intros K. apply put_records_wf; [apply clear_wf|]. intros k d Hd%elem_of_snapshot_records. by eapply recorded_ok.
Qed.

Lemma get_saved_db snap db k d : keyed_snapshot snap -> is_block k = false ->
  get (saved_db snap db) k = Some d <-> recorded snap k d.
Proof.
  intros K Hb. rewrite <- elem_of_snapshot_records. split.
  - intros Hd. destruct (decide (Exists (fun e => e.1 = k) (snapshot_records snap))) as [Hin|Hno].
    + apply Exists_exists in Hin as ([k' d'] & Hin & <-). unfold saved_db in Hd.
      rewrite (get_put_records _ _ _ (Some d')) in Hd; [by injection Hd as <-| |by eauto].
      intros d'' Hd''. f_equal. apply elem_of_snapshot_records in Hd'', Hin. by eapply recorded_unique.
    + unfold saved_db in Hd. rewrite (get_put_records _ _ _ None), get_clear in Hd; [done| |by intros []].
      intros d' Hd'. destruct Hno. apply Exists_exists. by exists (k, d').
  - intros Hd. unfold saved_db. rewrite (get_put_records _ _ _ (Some d)); [done| |by eauto].
    intros d' Hd'. f_equal. apply elem_of_snapshot_records in Hd, Hd'. by eapply recorded_unique.
Qed.

Lemma get_saved_plain snap db k : keyed_snapshot snap -> plain k = true -> get (saved_db snap db) k = record snap k.
Proof.
  intros K Hp. apply option_eq. intros d. rewrite get_saved_db by (done || by destruct k). by destruct k.
Qed.

(** What a selection of the records picks from two lists of the same records. *)
Lemma omap_sel_perm {A} (sel : dbkey * Doc -> option A) (l l' : list (dbkey * Doc)) :
  NoDup l.*1 -> NoDup l'.*1 -> (forall e, is_Some (sel e) -> e ∈ l <-> e ∈ l') -> omap sel l ≡ₚ omap sel l'.
Proof.
  intros Hl%NoDup_fmap_1 Hl'%NoDup_fmap_1 Hiff.
  assert (forall l0 : list (dbkey * Doc), omap sel l0 = omap sel (filter (fun e => is_Some (sel e)) l0)) as Hf.
  { clear. intros l0. induction l0 as [|e l0 IH]; [done|]. rewrite filter_cons. case_decide as He.
    - cbn. destruct (sel e); by rewrite IH.
    - cbn. destruct (sel e); [destruct He; eauto|done]. }
  rewrite (Hf l), (Hf l'). apply omap_Permutation. apply NoDup_Permutation; [by apply NoDup_filter..|].
  intros e. rewrite !list_elem_of_filter. naive_solver.
Qed.

(** A selection of sorted records is sorted by the keys of what it picks. *)
Lemma omap_sel_sorted {A} (sel : dbkey * Doc -> option A) (key : A -> dbkey) (l : list (dbkey * Doc)) :
  (forall e a, e ∈ l -> sel e = Some a -> e.1 = key a) -> StronglySorted (not_after str_lt) (key_string <$> l.*1) ->
  StronglySorted (not_after (last_key (key_string ∘ key) str_lt)) (omap sel l).
Proof.
  induction l as [|e l IH]; intros Hk Hs; [constructor|]. rewrite !fmap_cons in Hs. apply StronglySorted_inv in Hs as [Hs Hall].
  assert (StronglySorted (not_after (last_key (key_string ∘ key) str_lt)) (omap sel l)) as IH' by (apply IH; [intros; apply Hk; [by right|done]|done]).
  cbn [omap list_omap]. destruct (sel e) as [a|] eqn:E; [|done]. constructor; [done|].
  apply Forall_forall. intros b (e' & He' & Hb)%list_elem_of_omap. unfold not_after, last_key, compose.
  rewrite <- (Hk e a), <- (Hk e' b); [|by right|done|by left|done]. apply (proj1 (Forall_forall _ _) Hall). apply list_elem_of_fmap. exists e'.1. split; [done|].
  apply list_elem_of_fmap. by exists e'.
Qed.

(** The jobs of a snapshot and the compactions of a folder are read in the order of
    the keys they were written under. *)
Definition archive_before (s : string) : ArchiveIntakeJob -> ArchiveIntakeJob -> bool :=
  last_key (fun j => badgerArchiveIntakeJobKey s (ArchiveIntakeJob_ID j)) str_lt.
Definition compaction_before (f : string) : Z * MetadataCompactionSnapshot -> Z * MetadataCompactionSnapshot -> bool :=
  last_key (fun e => badgerCompactionSnapshotKey f e.1) str_lt.
Definition archive_read (snap : snapshot) (s : string) : list ArchiveIntakeJob := sort_by (archive_before s) (archive_of snap s).
Definition compactions_read (snap : snapshot) (f : string) : list MetadataCompactionSnapshot :=
  (sort_by (compaction_before f) (numbered (compactions_of snap f))).*2.

Lemma numbered_snd {A} (l : list A) : (numbered l).*2 = l.
Proof. apply list_eq. intros i. unfold numbered. rewrite list_lookup_fmap, list_lookup_imap. by destruct (l !! i). Qed.

Lemma archive_read_perm snap s : archive_read snap s ≡ₚ archive_of snap s.
Proof. apply sort_by_perm. Qed.

Lemma compactions_read_perm snap f : compactions_read snap f ≡ₚ compactions_of snap f.
Proof. unfold compactions_read. rewrite sort_by_perm. by rewrite numbered_snd. Qed.

(** Sorted lists of the same elements are equal, if no two have the same key. *)
Lemma sorted_same {A} (key : A -> dbkey) (l l' : list A) : NoDup (key <$> l') -> l ≡ₚ l' ->
  StronglySorted (not_after (last_key (key_string ∘ key) str_lt)) l -> l = sort_by (last_key (key_string ∘ key) str_lt) l'.
Proof.
  intros Hnd Hp Hs. rewrite <- (sort_by_sorted_id _ l Hs). apply sort_by_unique; [apply _| |done].
  intros x y Hx Hy Ht%tied_last_key; [|apply _]. apply key_string_inj in Ht. rewrite Hp in Hx, Hy. by apply (NoDup_fmap_elem key l').
Qed.

Lemma archive_saved snap db l s : keyed_snapshot snap -> (forall k d, (k, d) ∈ l -> doc_ok k d) ->
  StronglySorted (not_after str_lt) (key_string <$> l.*1) ->
  NoDup l.*1 -> (forall k d, (k, d) ∈ l <-> get (saved_db snap db) k = Some d) -> omap (archive_sel s) l = archive_read snap s.
Proof.
  intros K Hok Hsort Hnd Hl. apply (sorted_same (fun j => KArchive s (ArchiveIntakeJob_ID j))).
  { rewrite (list_fmap_compose ArchiveIntakeJob_ID (KArchive s)). apply NoDup_fmap_2; [by intros ? ? [=]|apply K]. }
  2: { apply omap_sel_sorted; [|done]. intros [k d] j He Hj. destruct k; try done. destruct d; try done. cbn in Hj. case_decide; [|done].
       injection Hj as ->. subst. apply Hok in He. cbn in He. by subst. }
  set (l' := (fun j => (KArchive s (ArchiveIntakeJob_ID j), DocArchive j)) <$> archive_of snap s).
  assert (omap (archive_sel s) l' = archive_of snap s) as <-.
  { unfold l'. induction (archive_of snap s) as [|j js IH]; [done|]. cbn. rewrite decide_True by done. by f_equal. }
  apply omap_sel_perm; [done| |].
  - unfold l'. rewrite <- list_fmap_compose. pose proof (keyed_archive _ K s) as Hn.
    assert (Inj (=) (=) (KArchive s)) by (intros ? ? [=]; done). apply (NoDup_fmap_2 (KArchive s)) in Hn. rewrite <- list_fmap_compose in Hn. exact Hn.
  - intros [k d] Hs. rewrite Hl. destruct k; try (by destruct Hs). destruct d; try (by destruct Hs).
    unfold archive_sel in Hs. case_decide; [subst snapshotID|by destruct Hs]. rewrite get_saved_db by done. cbn [recorded].
    unfold l'. rewrite list_elem_of_fmap. naive_solver.
Qed.

(** A compaction record with the number in its key. *)
Definition numbered_sel (f : string) (e : dbkey * Doc) : option (Z * MetadataCompactionSnapshot) :=
  match e with (KCompaction f' i, DocCompaction c) => if decide (f' = f) then Some (i, c) else None | _ => None end.

Lemma numbered_sel_snd f l : (omap (numbered_sel f) l).*2 = omap (compaction_sel f) l.
Proof.
  induction l as [|[k d] l IH]; [done|]. cbn [omap list_omap]. destruct k; try exact IH. destruct d; try exact IH. cbn. case_decide; cbn; [by f_equal|exact IH].
Qed.

Lemma compactions_saved snap db l f : keyed_snapshot snap -> StronglySorted (not_after str_lt) (key_string <$> l.*1) ->
  NoDup l.*1 -> (forall k d, (k, d) ∈ l <-> get (saved_db snap db) k = Some d) -> omap (compaction_sel f) l = compactions_read snap f.
Proof.
  intros K Hsort Hnd Hl. rewrite <- numbered_sel_snd. unfold compactions_read. f_equal.
  assert (NoDup ((fun e => KCompaction f e.1) <$> numbered (compactions_of snap f))) as Hnum.
  { apply NoDup_alt. intros i j k Hi Hj. unfold numbered in *. rewrite list_lookup_fmap, list_lookup_imap in Hi, Hj.
    destruct (compactions_of snap f !! i), (compactions_of snap f !! j); try done. cbn in Hi, Hj. injection Hi as <-. injection Hj as ?. lia. }
  apply (sorted_same (fun e => KCompaction f e.1)); [done| |].
  2: { apply omap_sel_sorted; [|done]. intros [k d] [i c] _ He. destruct k; try done. destruct d; try done. cbn in He. case_decide; [|done].
       injection He as -> ->. by subst. }
  set (l' := (fun e => (KCompaction f e.1, DocCompaction e.2)) <$> numbered (compactions_of snap f)).
  assert (omap (numbered_sel f) l' = numbered (compactions_of snap f)) as <-.
  { unfold l'. induction (numbered (compactions_of snap f)) as [|[i c] cs IH]; [done|]. cbn. rewrite decide_True by done. f_equal. apply IH.
    rewrite fmap_cons in Hnum. by apply NoDup_cons in Hnum as [_ ?]. }
  apply omap_sel_perm; [done|unfold l'; by rewrite <- list_fmap_compose|].
  intros [k d] Hs. rewrite Hl. destruct k; try (by destruct Hs). destruct d; try (by destruct Hs).
  unfold numbered_sel in Hs. case_decide; [subst folderID|by destruct Hs]. rewrite get_saved_db by done. cbn [recorded].
  unfold l', numbered. rewrite list_elem_of_fmap. split.
  - intros (c' & n & Hc & -> & ->). exists (Z.of_nat n, c'). split; [done|]. apply list_elem_of_lookup. exists n. by rewrite list_lookup_imap, Hc.
  - intros ([i c'] & [= -> ->] & (n & Hn)%list_elem_of_lookup). rewrite list_lookup_imap in Hn. destruct (compactions_of snap f !! n) eqn:E; [|done].
    injection Hn as <- <-. eauto.
Qed.

Lemma same_history_maps (m m' : gmap string (gmap Z Manifest)) :
  (forall p h, m !! p = Some h -> h <> ∅) -> (forall p h, m' !! p = Some h -> h <> ∅) ->
  (forall p r, inner m p !! r = inner m' p !! r) -> m = m'.
Proof.
  intros Hm Hm' He. apply map_eq. intros p. pose proof (fun h => Hm p h) as H1. pose proof (fun h => Hm' p h) as H2.
  assert (inner m p = inner m' p) as Hi by (apply map_eq; intros r; apply He). unfold inner in Hi.
  destruct (m !! p) as [h|], (m' !! p) as [h'|]; cbn in Hi; [congruence|by destruct (H1 h)|by destruct (H2 h')|done].
Qed.

(** Two snapshots the operations of the store cannot tell apart: which inner maps
    exist, and the order of jobs and compactions, may differ. *)
Record same_snapshot (snap snap' : snapshot) : Prop := {
  ss_local : same_views (snap_local snap) (snap_local snap');
  ss_record k : plain k = true -> is_local k = false -> record snap k = record snap' k;
  ss_archive s : archive_of snap s ≡ₚ archive_of snap' s;
  ss_compactions f : compactions_of snap f ≡ₚ compactions_of snap' f
}.

#[export] Instance same_snapshot_equiv : Equivalence same_snapshot.
Proof.
  split.
  - by split.
  - intros x y [H1 H2 H3 H4]. split; intros; symmetry; auto.
  - intros x y z [H1 H2 H3 H4] [G1 G2 G3 G4]. split; [by etrans| |intros; etrans; [apply H3|apply G3]|intros; etrans; [apply H4|apply G4]].
    intros k Hp Hl. rewrite H2 by done. auto.
Qed.

(** Snapshots with the same local records look alike folder by folder. *)
Lemma same_local_views snap snap' : history_full snap -> history_full snap' ->
  (forall k, is_local k = true -> record snap k = record snap' k) -> same_views (snap_local snap) (snap_local snap').
Proof.
  intros Hf Hf' Hr f. unfold view.
  pose proof (fun p => Hr (KManifest f p) eq_refl) as H1. pose proof (fun p r => Hr (KHistory f p r) eq_refl) as H2.
  pose proof (fun p => Hr (KRevision f p) eq_refl) as H3. pose proof (fun p => Hr (KTombstone f p) eq_refl) as H4.
  pose proof (fun p => Hr (KRename f p) eq_refl) as H5. pose proof (Hr (KCursor f) eq_refl) as H6. cbn [record] in *. clear Hr.
  f_equal; [apply map_eq; intros p; specialize (H1 p)| |apply map_eq; intros p; specialize (H3 p)|
    apply map_eq; intros p; specialize (H4 p)|apply map_eq; intros p; specialize (H5 p)|unfold num].
  2: { clear -H2 Hf Hf'. apply same_history_maps; [apply Hf|apply Hf'|]. intros p r. specialize (H2 p r).
       repeat match type of H2 with _ <$> ?o = _ <$> ?o' => destruct o, o'; cbn in H2 end; congruence. }
  all: repeat match goal with H : _ <$> ?o = _ <$> ?o' |- _ => destruct o, o'; cbn in H; try discriminate H; try injection H as H end; congruence.
Qed.

(** A database that has just been saved holds the records of the snapshot. *)
Lemma saved_records b snap : keyed_snapshot snap -> loadable_meta (snap_local snap) -> badger_updateFault b = false ->
  exists snap1, Save b snap = (with_db (saved_db snap (badger_db b)) b, Ok tt) /\ readSnapshot (saved_db snap (badger_db b)) = Ok snap1 /\
    (forall k, plain k = true -> record snap1 k = record snap k) /\ history_full snap1 /\ loadable_meta (snap_local snap1) /\
    (forall s, archive_of snap1 s = archive_read snap s) /\ (forall f, compactions_of snap1 f = compactions_read snap f).
Proof.
  intros K Hl Hu. pose (db' := saved_db snap (badger_db b)). pose proof (saved_db_wf snap (badger_db b) K) as W.
  destruct (readSnapshot_records db' W) as (snap1 & l & E & Hnd & Hin & Hrec & Ha & Hc & Hf & Hok & Hsort).
  assert (forall k, plain k = true -> record snap1 k = record snap k) as Hr.
  { intros k Hp. rewrite Hrec by done. by apply get_saved_plain. }
  assert (same_views (snap_local snap1) (snap_local snap)) as Hloc.
  { apply same_local_views; [done|apply (keyed_full _ K)|]. intros k Hk. apply Hr. by destruct k. }
  exists snap1. split_and?; try done.
  - unfold Save, Update. rewrite Hu, badgerWriteSnapshot_records. done.
  - intros f. rewrite (Hloc f). apply Hl.
  - intros s. rewrite Ha. by apply (archive_saved snap (badger_db b)).
  - intros f. rewrite Hc. by apply (compactions_saved snap (badger_db b)).
Qed.

(** [C10] Round trip of the Badger backend: saving a snapshot replaces whatever the
    database held, and loading reads it back. Every record of every table is the one
    that was saved and each folder's state is the same; the jobs of a snapshot come
    back sorted by the keys they were stored under, the compactions of a folder by
    the decimal texts of their numbers, both exactly. The snapshot holds its
    documents under their own identifiers, jobs of a snapshot with different
    identifiers ([keyed_snapshot]) and folders that normalisation leaves alone
    ([loadable_meta]), and neither reading nor committing fails. *)
Theorem Load_Save b snap : keyed_snapshot snap -> loadable_meta (snap_local snap) ->
  badger_viewFault b = false -> badger_updateFault b = false ->
  exists b' snap', Save b snap = (b', Ok tt) /\ db_wf (badger_db b') /\ Load b' = Ok snap' /\ same_snapshot snap snap' /\
    (forall s, archive_of snap' s = archive_read snap s) /\ (forall f, compactions_of snap' f = compactions_read snap f).
Proof.
  intros K Hl Hv Hu. destruct (saved_records b snap K Hl Hu) as (snap1 & Hs & E & Hr & Hf & Hl1 & Ha & Hc).
  exists (with_db (saved_db snap (badger_db b)) b), (normalizeLoadedSnapshot snap1). split; [done|split; [by apply saved_db_wf|split]].
  - unfold Load, View. cbn [badger_viewFault with_db badger_db]. by rewrite Hv, E.
  - split; [|split; [exact Ha|exact Hc]].
    split; [|intros k Hp Hk; rewrite <- Hr by done; by destruct k|intros s; change (archive_of (normalizeLoadedSnapshot snap1) s) with (archive_of snap1 s);
             by rewrite Ha, archive_read_perm|intros f; change (compactions_of (normalizeLoadedSnapshot snap1) f) with (compactions_of snap1 f);
             by rewrite Hc, compactions_read_perm].
    cbn. rewrite normalizeSnapshot_id by done. symmetry. apply same_local_views; [done|apply (keyed_full _ K)|].
    intros k Hk. apply Hr. by destruct k.
Qed.
End saving.
End badger_reading.

#[export] Hint Rewrite @inner_ensure @inner_ensure2 @lookup_put2 @lookup_put3 @lookup_addHistory : lookups.

(** *** A witness *)

Definition demo_archive_job (id : string) : ArchiveIntakeJob :=
  mkArchiveIntakeJob id "s1" "docs" "a" (mkBlock 0 0 1 [Byte.x61]) "pending" "t0" 0 "" "" "" "".

Definition demo_snapshot : snapshot :=
  mkSnapshot (saveManifestSnap "docs" "a/b" (demo_manifest Byte.x61) folderMeta_zero)
    (mkPeerMeta {["n2" := {["docs" := mkFolderSummary "docs" 3 1 0 "h"]}]} ∅ ∅ ∅ ∅ {["n2" := {["docs" := 3]}]} ∅)
    {["docs" := [mkCompactionSnapshot "docs" 4 "h" 1 1 2 1; mkCompactionSnapshot "docs" 9 "h" 1 1 7 1]]}
    (mkJobMeta {["s1" := demo_marker]} {["s1" := [demo_archive_job "j2"; demo_archive_job "j1"]]} ∅ ∅ ∅)
    (mkGateMeta ∅ ∅) (mkSettingsMeta ∅ ∅).

Definition demo_badger : badgerSnapshotBackend (DB := gmap string Doc) := mkBadger {["fse/v1/old" := DocBad]} false false.

Lemma demo_snapshot_keyed : keyed_snapshot demo_snapshot.
Proof.
  split.
  - intros f p r m. cbn [demo_snapshot snap_local saveManifestSnap ManifestHistory]. rewrite lookup_addHistory.
    case_decide as Hd; [|unfold inner; cbn; rewrite !lookup_empty; cbn; by rewrite ?lookup_empty].
    destruct Hd as (_ & _ & <-). intros _. vm_compute. done.
  - intros f p h. cbn [demo_snapshot snap_local saveManifestSnap ManifestHistory]. unfold addHistory. rewrite lookup_put2.
    case_decide; [|unfold inner; cbn; by rewrite !lookup_empty]. intros [= <-] He. apply (f_equal (lookup 1)) in He. discriminate He.
  - intros id m. cbn. rewrite lookup_singleton_Some. by intros [<- <-].
  - intros id j. cbn. by rewrite lookup_empty.
  - intros id j. cbn. by rewrite lookup_empty.
  - intros id j. cbn. by rewrite lookup_empty.
  - intros s. unfold archive_of. cbn. destruct (decide (s = "s1")) as [->|Hs]; [|rewrite lookup_singleton_ne by done; constructor].
    rewrite lookup_singleton_eq. apply (bool_decide_unpack _). vm_compute. exact I.
  - intros n d. cbn. by rewrite lookup_empty.
  - intros t id c. cbn. unfold inner. rewrite lookup_empty. cbn. by rewrite lookup_empty.
Qed.

Lemma demo_snapshot_wf : wf_meta (snap_local demo_snapshot).
Proof.
  intros f.
  change (wf (view (op_snap "docs" (OpSave "a/b" (demo_manifest Byte.x61)) folderMeta_zero) f)).
  rewrite view_op_snap. case_decide; [|apply wf_empty]. apply wf_op; [apply wf_empty|reflexivity|exact I].
Qed.

Lemma demo_snapshot_loadable : loadable_meta (snap_local demo_snapshot).
Proof. apply wf_loadable_meta, demo_snapshot_wf. Qed.

Lemma Load_Save_witness : exists b' snap', Save demo_badger demo_snapshot = (b', Ok tt) /\ Load b' = Ok snap' /\
  files (view (snap_local snap') "docs") = {["a/b" := demo_manifest Byte.x61]} /\
  record snap' (KPeerCursor "n2" "docs") = Some (DocUint 3) /\
  archive_of snap' "s1" = [demo_archive_job "j1"; demo_archive_job "j2"] /\
  MetadataCompactionSnapshot_Cursor <$> compactions_of snap' "docs" = [4; 9].
Proof.
  destruct (Load_Save demo_badger demo_snapshot demo_snapshot_keyed demo_snapshot_loadable eq_refl eq_refl)
    as (b' & snap' & Hs & _ & Hl & Hsame & Ha & Hc).
  exists b', snap'. split; [exact Hs|]. split; [exact Hl|]. split; [|split; [|split]].
  - rewrite <- (ss_local _ _ Hsame "docs"). reflexivity.
  - rewrite <- (ss_record _ _ Hsame (KPeerCursor "n2" "docs") eq_refl eq_refl). reflexivity.
  - rewrite Ha. vm_compute. reflexivity.
  - rewrite Hc. vm_compute. reflexivity.
Defined.

(** Runs on a map: the records of the saved snapshot, and the jobs in key order. *)
Example saved_and_loaded :
  (fun snap => (map_to_list (Cursors (snap_local snap)), archive_of snap "s1",
                MetadataCompactionSnapshot_Cursor <$> compactions_of snap "docs"))
    <$> Load (Save demo_badger demo_snapshot).1 =
  Ok ([("docs", 1)], [demo_archive_job "j1"; demo_archive_job "j2"], [4; 9]).
Proof. vm_compute. reflexivity. Qed.

(** The compactions of a folder are read back in the order of their keys, which are
    decimal texts: the eleventh before the third. *)
Example compactions_in_text_order :
  let c n := mkCompactionSnapshot "docs" n "h" 1 1 1 1 in
  let snap := with_compaction {["docs" := c <$> [0; 1; 2; 3; 4; 5; 6; 7; 8; 9; 10]]} snapshot_zero in
  (fun snap => MetadataCompactionSnapshot_Cursor <$> compactions_of snap "docs") <$> Load (Save demo_badger snap).1 =
  Ok [0; 1; 10; 2; 3; 4; 5; 6; 7; 8; 9].
Proof. vm_compute. reflexivity. Qed.

(** One settings document filed under another node's key makes the whole store
    unreadable. *)
Example owner_mismatch_unloadable :
  let doc := mkNodeSettingsDocument "n9" 1 "t" ∅ "" "" in
  let db := kv_set (key_string (KNodeSettings "n1")) (DocSettings doc) (badger_db (Save demo_badger demo_snapshot).1) in
  Load (with_db db demo_badger) = Err (ErrMismatch "n1" "n9").
Proof. vm_compute. reflexivity. Qed.
