(* ===== verification/BadgerFolder.v ===== *)
(** * The Badger backend: the records of a folder

    Models the operations of [internal/state/badger_store.go] that change and read a
    folder's local records, one transaction each, and its block index.  They
    implement the same abstract [folder] as the JSON backend ([stored],
    [badger_history_refines]); the block index holds the references of the live,
    undamaged manifests ([indexed]). *)

From S2P Require Import Prelude GoStd GoBase64 Paths Block StoreData Store ApplyGate Jobs Settings BadgerKeys BadgerStore.
From Stdlib Require Import Ascii.

Local Open Scope Z_scope.

Module badger.
Section ops.
Context {DB : Type} `{KVStore DB}.

Local Abbreviation backend := (badgerSnapshotBackend (DB := DB)).

(** ** Helpers of the transactions *)

Definition badgerNextFolderRevision (folderID : string) (db : DB) : result StoreErr Z :=
  (fun cursor => u64 (cursor + 1)) <$> badgerReadUint64 (badgerCursorKey folderID) db.

Definition deleteBlocks (folderID rel : string) (m : Manifest) (db : DB) : DB :=
  foldl (fun db b => kv_delete (badgerBlockIndexKey (Block_Size b) (Block_Hash b) folderID rel (Block_Index b)) db) db
    (Manifest_Blocks m).

Definition badgerDeleteManifestRecords (folderID rel : string) (db : DB) : result StoreErr DB :=
  existing ← get_doc as_manifest (badgerManifestKey folderID rel) db;
  let db := match existing with Some m => deleteBlocks folderID rel m db | None => db end in
  Ok (kv_delete (badgerRevisionKey folderID rel) (kv_delete (badgerManifestKey folderID rel) db)).

(** ** Changing a folder *)

Definition saveManifestTxn (folderID rel : string) (manifest : Manifest) (db : DB) : result StoreErr DB :=
  rev ← badgerNextFolderRevision folderID db;
  db ← badgerDeleteManifestRecords folderID rel db;
  let db := badgerSetJSON (badgerManifestKey folderID rel) (DocManifest manifest) db in
  let db := badgerSetJSON (badgerRevisionKey folderID rel) (DocUint rev) db in
  let db := badgerSetJSON (badgerManifestHistoryKey folderID rel rev) (DocManifest manifest) db in
  let db := kv_delete (badgerTombstoneKey folderID rel) db in
  let db := if Manifest_Damaged manifest then db else indexBlocks folderID rel manifest db in
  Ok (badgerSetJSON (badgerCursorKey folderID) (DocUint rev) db).

Definition SaveManifest (b : backend) (folderID rel : string) (manifest : Manifest) : backend * result StoreErr unit :=
  Update b (saveManifestTxn folderID rel manifest).

Definition deleteManifestTxn (folderID rel : string) (db : DB) : result StoreErr DB :=
  rev ← badgerNextFolderRevision folderID db;
  db ← badgerDeleteManifestRecords folderID rel db;
  let db := badgerSetJSON (badgerTombstoneKey folderID rel) (DocUint rev) db in
  Ok (badgerSetJSON (badgerCursorKey folderID) (DocUint rev) db).

Definition DeleteManifest (b : backend) (folderID rel : string) : backend * result StoreErr unit :=
  Update b (deleteManifestTxn folderID rel).

(** The blocks of a moved manifest are indexed whether it is damaged or not. *)
Definition moveManifestTxn (folderID fromPath toPath : string) (manifest : Manifest) (db : DB) : result StoreErr DB :=
  rev ← badgerNextFolderRevision folderID db;
  db ← badgerDeleteManifestRecords folderID fromPath db;
  db ← badgerDeleteManifestRecords folderID toPath db;
  let db := badgerSetJSON (badgerTombstoneKey folderID fromPath) (DocUint rev) db in
  let db := badgerSetJSON (badgerManifestKey folderID toPath) (DocManifest manifest) db in
  let db := badgerSetJSON (badgerRevisionKey folderID toPath) (DocUint rev) db in
  let db := badgerSetJSON (badgerManifestHistoryKey folderID toPath rev) (DocManifest manifest) db in
  let db := badgerSetJSON (badgerRenameHintKey folderID fromPath) (DocHint (mkRenameHint fromPath toPath rev)) db in
  let db := indexBlocks folderID toPath manifest db in
  Ok (badgerSetJSON (badgerCursorKey folderID) (DocUint rev) db).

Definition MoveManifest (b : backend) (folderID fromPath toPath : string) (manifest : Manifest) : backend * result StoreErr unit :=
  checkedB b (_ ← require "folder id" folderID; _ ← require "move paths" fromPath; require "move paths" toPath)
    (Update b (moveManifestTxn folderID fromPath toPath manifest)).

Definition PreserveSnapshotManifest (b : backend) (folderID rel : string) (revision : Z) (manifest : Manifest)
    : backend * result StoreErr unit :=
  checkedB b (_ ← require "folder id" folderID; _ ← require "relative path" rel; fail_if (revision =? 0) (ErrRequired "revision"))
    (Update b (fun db => Ok (badgerSetJSON (badgerManifestHistoryKey folderID rel revision) (DocManifest manifest) db))).

(** ** Reading a folder *)

Definition LoadManifest (b : backend) (folderID rel : string) : result StoreErr (option Manifest) :=
  View b (get_doc as_manifest (badgerManifestKey folderID rel)).

(** The loop of a listing: the third part of each key is the path. *)
Fixpoint listPaths {A} (as_ : Doc -> result StoreErr A) (items : list (string * Doc)) (out : gmap string A)
    : result StoreErr (gmap string A) :=
  match items with
  | [] => Ok out
  | (key, d) :: items' =>
      rel ← valid_key key (match key_fields key with [_; _; c] => badgerDecodePart c | _ => None end);
      x ← as_ d; listPaths as_ items' (<[rel := x]> out)
  end.

Definition folderPrefix (kind folderID : string) : string := badgerKeyPrefix +:+ kind +:+ "/" +:+ badgerEncodePart folderID +:+ "/".

Definition ListManifests (b : backend) (folderID : string) : result StoreErr (gmap string Manifest) :=
  View b (fun db => listPaths as_manifest (scan (folderPrefix "manifest" folderID) db) ∅).

Definition listFolderUint64Records (b : backend) (folderID kind : string) : result StoreErr (gmap string Z) :=
  View b (fun db => listPaths as_uint (scan (folderPrefix kind folderID) db) ∅).

Definition ListManifestRevisions (b : backend) (folderID : string) : result StoreErr (gmap string Z) :=
  listFolderUint64Records b folderID "revision".
Definition ListTombstones (b : backend) (folderID : string) : result StoreErr (gmap string Z) :=
  listFolderUint64Records b folderID "tombstone".

Definition FindBlocks (b : backend) (size : Z) (hash : bytes) : result StoreErr (list BlockRef) :=
  sortBlockRefs <$> View b (fun db =>
    decode_all as_ref (scan (badgerKeyPrefix +:+ "block/" +:+ itoa size +:+ "/" +:+ hex_encode hash +:+ "/") db)).

Definition ListBlockRefs (b : backend) (folderID : string) : result StoreErr (list BlockRef) :=
  (fun refs => sortBlockRefs (List.filter (fun ref => bool_decide (folderID = EmptyString) || bool_decide (BlockRef_FolderID ref = folderID)) refs))
    <$> View b (fun db => decode_all as_ref (scan (badgerKeyPrefix +:+ "block/") db)).

(** ** The abstract folder in a database *)

Definition op_badger (b : backend) (folderID : string) (op : folderOp) : backend * result StoreErr unit :=
  match op with
  | OpSave rel manifest => SaveManifest b folderID rel manifest
  | OpDelete rel => DeleteManifest b folderID rel
  | OpMove from to manifest => MoveManifest b folderID from to manifest
  end.

(** The records of a folder in the abstract state [v]. *)
Record stored (db : DB) (f : string) (v : folder) : Prop := {
  st_file p : get db (KManifest f p) = DocManifest <$> files v !! p;
  st_history p r : get db (KHistory f p r) = DocManifest <$> inner (history v) p !! r;
  st_rev p : get db (KRevision f p) = DocUint <$> revs v !! p;
  st_tomb p : get db (KTombstone f p) = DocUint <$> tombs v !! p;
  st_hint p : get db (KRename f p) = DocHint <$> hints v !! p;
  st_cursor : badgerReadUint64 (badgerCursorKey f) db = Ok (cursor v)
}.

(** A live block: one of an undamaged file of the folder. *)
Definition live (v : folder) (f p : string) (b : Block) (ref : BlockRef) : Prop :=
  exists m, files v !! p = Some m /\ Manifest_Damaged m = false /\ b ∈ Manifest_Blocks m /\ ref = mkBlockRef f p b.

(** The block index holds the live blocks of a path, and of every path of a folder. *)
Definition indexed_at (db : DB) (f : string) (v : folder) (p : string) : Prop := forall size hash i d,
  get db (KBlock size hash f p i) = Some d <->
  exists b ref, live v f p b ref /\ size = Block_Size b /\ hash = Block_Hash b /\ i = Block_Index b /\ d = DocRef ref.

Definition indexed (db : DB) (f : string) (v : folder) : Prop := forall p, indexed_at db f v p.

(** The blocks of a manifest have different keys. *)
Definition distinct_blocks (m : Manifest) : Prop :=
  NoDup ((fun b => (Block_Size b, Block_Hash b, Block_Index b)) <$> Manifest_Blocks m).

(** The records an operation on folder [f] may change. *)
Definition owned (f : string) (k : dbkey) : bool :=
  match k with
  | KManifest g _ | KHistory g _ _ | KRevision g _ | KTombstone g _ | KRename g _ | KCursor g | KBlock _ _ g _ _ => bool_decide (g = f)
  | _ => false
  end.

(** ** Properties *)

Section proofs.
Context `{!KVLaws DB}.

(** The keys of the operations as keys of records. *)
Local Ltac as_records :=
  unfold badgerSetJSON in *;
  repeat match goal with
  | |- context [badgerManifestKey ?f ?p] => change (badgerManifestKey f p) with (key_string (KManifest f p))
  | |- context [badgerManifestHistoryKey ?f ?p ?r] => change (badgerManifestHistoryKey f p r) with (key_string (KHistory f p r))
  | |- context [badgerRevisionKey ?f ?p] => change (badgerRevisionKey f p) with (key_string (KRevision f p))
  | |- context [badgerTombstoneKey ?f ?p] => change (badgerTombstoneKey f p) with (key_string (KTombstone f p))
  | |- context [badgerRenameHintKey ?f ?p] => change (badgerRenameHintKey f p) with (key_string (KRename f p))
  | |- context [badgerCursorKey ?f] => change (badgerCursorKey f) with (key_string (KCursor f))
  end.

(** *** Block records *)

Definition blockKeys (f rel : string) (m : Manifest) : list dbkey :=
  (fun b => KBlock (Block_Size b) (Block_Hash b) f rel (Block_Index b)) <$> Manifest_Blocks m.

Lemma get_delete_keys ks (db : DB) k :
  get (foldl (fun db k => kv_delete (key_string k) db) db ks) k = if decide (k ∈ ks) then None else get db k.
Proof.
  revert db. induction ks as [|k' ks IH]; intros db; cbn [foldl]; [done|]. rewrite IH, get_delete.
  repeat case_decide; set_solver.
Qed.

Lemma deleteBlocks_keys f rel m (db : DB) :
  deleteBlocks f rel m db = foldl (fun db k => kv_delete (key_string k) db) db (blockKeys f rel m).
Proof. unfold deleteBlocks, blockKeys. revert db. induction (Manifest_Blocks m) as [|b bs IH]; intros db; [done|]. apply IH. Qed.

Lemma deleteBlocks_wf f rel m (db : DB) : db_wf db -> db_wf (deleteBlocks f rel m db).
Proof.
  rewrite deleteBlocks_keys. revert db. induction (blockKeys f rel m) as [|k ks IH]; intros db W; [done|]. apply IH. by apply delete_wf.
Qed.

Lemma indexBlocks_records f rel m (db : DB) : indexBlocks f rel m db = put_records (blockRecords f rel m) db.
Proof. unfold blockRecords. by rewrite put_records_fmap. Qed.

Lemma indexBlocks_wf f rel m (db : DB) : db_wf db -> db_wf (indexBlocks f rel m db).
Proof.
  intros W. rewrite indexBlocks_records. apply put_records_wf; [done|]. intros k d (b & [= -> ->] & _)%list_elem_of_fmap. done.
Qed.

Lemma elem_of_blockRecords f rel m k d : (k, d) ∈ blockRecords f rel m <->
  exists b, b ∈ Manifest_Blocks m /\ k = KBlock (Block_Size b) (Block_Hash b) f rel (Block_Index b) /\ d = DocRef (mkBlockRef f rel b).
Proof. unfold blockRecords. rewrite list_elem_of_fmap. naive_solver. Qed.

Lemma get_indexBlocks f rel m (db : DB) k : is_block k = false -> get (indexBlocks f rel m db) k = get db k.
Proof.
  intros Hk. rewrite indexBlocks_records. rewrite (get_put_records _ _ _ None); [done| |by intros []].
  intros d (b & _ & -> & _)%elem_of_blockRecords. discriminate Hk.
Qed.

Lemma get_indexBlocks_other f rel m (db : DB) size hash g p i : (g, p) <> (f, rel) ->
  get (indexBlocks f rel m db) (KBlock size hash g p i) = get db (KBlock size hash g p i).
Proof.
  intros Hk. rewrite indexBlocks_records. rewrite (get_put_records _ _ _ None); [done| |by intros []].
  intros d (b & _ & [= _ _ -> -> _] & _)%elem_of_blockRecords. done.
Qed.

Lemma get_indexBlocks_own f rel m (db : DB) size hash i d : distinct_blocks m ->
  get db (KBlock size hash f rel i) = None ->
  get (indexBlocks f rel m db) (KBlock size hash f rel i) = Some d <->
  exists b, b ∈ Manifest_Blocks m /\ size = Block_Size b /\ hash = Block_Hash b /\ i = Block_Index b /\ d = DocRef (mkBlockRef f rel b).
Proof.
  intros Hd Hnone. rewrite indexBlocks_records. set (k := KBlock size hash f rel i) in *.
  assert (forall d1 d2, (k, d1) ∈ blockRecords f rel m -> (k, d2) ∈ blockRecords f rel m -> d1 = d2) as Huniq.
  { intros d1 d2 (b1 & Hb1 & Hk1 & ->)%elem_of_blockRecords (b2 & Hb2 & Hk2 & ->)%elem_of_blockRecords.
    injection Hk1 as Hs1 Hh1 Hi1. injection Hk2 as Hs2 Hh2 Hi2. repeat f_equal.
    by apply (NoDup_fmap_elem _ _ _ _ Hd); [..|cbn; congruence]. }
  transitivity ((k, d) ∈ blockRecords f rel m); [|rewrite elem_of_blockRecords; unfold k; split; intros (b & ?); exists b; naive_solver].
  split.
  - intros Hg. destruct (decide (Exists (fun e => e.1 = k) (blockRecords f rel m))) as [Hin|Hno].
    + apply Exists_exists in Hin as ([k' d'] & Hin & Hk'). cbn in Hk'. subst k'.
      rewrite (get_put_records _ _ _ (Some d')) in Hg; [by injection Hg as <-| |by eauto].
      intros d'' Hd''. f_equal. by apply Huniq.
    + rewrite (get_put_records _ _ _ None), Hnone in Hg; [done| |by intros []]. intros d' Hd'. destruct Hno.
      apply Exists_exists. by exists (k, d').
  - intros Hin. rewrite (get_put_records _ _ _ (Some d)); [done| |by eauto]. intros d' Hd'. f_equal. by apply Huniq.
Qed.

(** *** Deleting the records of a path *)

(** The records [badgerDeleteManifestRecords] deletes. *)
Definition dead (f rel : string) (k : dbkey) : bool :=
  match k with
  | KManifest g p | KRevision g p | KBlock _ _ g p _ => bool_decide (g = f /\ p = rel)
  | _ => false
  end.

(** The block records of a path are those of its manifest. *)
Definition covered (db : DB) (f rel : string) : Prop := exists o,
  get db (KManifest f rel) = DocManifest <$> o /\
  forall size hash i, is_Some (get db (KBlock size hash f rel i)) -> exists m, o = Some m /\ KBlock size hash f rel i ∈ blockKeys f rel m.

Lemma stored_covered db f v rel : stored db f v -> indexed db f v -> covered db f rel.
Proof.
  intros S I. exists (files v !! rel). split; [apply S|]. intros size hash i [d Hd]. apply I in Hd as (b & ref & (m & Hm & _ & Hb & _) & -> & -> & -> & _).
  exists m. split; [done|]. apply list_elem_of_fmap. eauto.
Qed.

Lemma DeleteRecords_get db f rel : covered db f rel -> db_wf db ->
  exists db', badgerDeleteManifestRecords f rel db = Ok db' /\ db_wf db' /\ forall k, get db' k = if dead f rel k then None else get db k.
Proof.
  intros (o & Ho & Hblocks) W. unfold badgerDeleteManifestRecords, get_doc.
  change (kv_get db (badgerManifestKey f rel)) with (get db (KManifest f rel)). rewrite Ho.
  set (db1 := match o with Some m => deleteBlocks f rel m db | None => db end).
  assert (db_wf db1) as W1 by (unfold db1; destruct o; [by apply deleteBlocks_wf|done]).
  exists (kv_delete (badgerRevisionKey f rel) (kv_delete (badgerManifestKey f rel) db1)).
  split; [by destruct o|]. split; [by do 2 apply delete_wf|]. intros k. as_records. rewrite !get_delete.
  assert (get db1 k = if is_block k && dead f rel k then None else get db k) as Hdb1.
  { assert (forall m, is_block k && dead f rel k = false -> k ∉ blockKeys f rel m) as Hno.
    { intros m Hk (b & -> & _)%list_elem_of_fmap. cbn in Hk. by rewrite bool_decide_eq_true_2 in Hk. }
    destruct (is_block k && dead f rel k) eqn:Ek.
    - destruct k as [| | | | | | | | | | | | | | | | | | | | | | |size hash g p i]; try discriminate Ek. cbn in Ek. apply bool_decide_eq_true in Ek as [-> ->].
      destruct (get db (KBlock size hash f rel i)) eqn:Eg.
      + destruct (Hblocks size hash i) as (m & -> & Hin); [eauto|]. unfold db1. by rewrite deleteBlocks_keys, get_delete_keys, decide_True.
      + unfold db1. destruct o; [|done]. rewrite deleteBlocks_keys, get_delete_keys. by case_decide.
    - unfold db1. destruct o; [|done]. rewrite deleteBlocks_keys, get_delete_keys, decide_False; [done|]. by apply Hno. }
  rewrite Hdb1. clear Hdb1. destruct k; cbn [dead is_block andb]; repeat case_decide; repeat case_bool_decide; naive_solver.
Qed.

Lemma covered_same db db' f rel : (forall k, dead f rel k = true -> get db' k = get db k) -> covered db f rel -> covered db' f rel.
Proof.
  intros Hk (o & Ho & Hb). exists o. split.
  - rewrite Hk; [done|]. cbn. by rewrite bool_decide_eq_true_2.
  - intros size hash i. rewrite Hk; [apply Hb|]. cbn. by rewrite bool_decide_eq_true_2.
Qed.

Lemma covered_deleted db f rel : (forall k, dead f rel k = true -> get db k = None) -> covered db f rel.
Proof.
  intros Hk. exists None. split.
  - rewrite Hk; [done|]. cbn. by rewrite bool_decide_eq_true_2.
  - intros size hash i [d Hd]. rewrite Hk in Hd; [done|]. cbn. by rewrite bool_decide_eq_true_2.
Qed.

(** *** The operations implement the abstract folder *)

Definition op_txn (f : string) (op : folderOp) : DB -> result StoreErr DB :=
  match op with
  | OpSave rel m => saveManifestTxn f rel m
  | OpDelete rel => deleteManifestTxn f rel
  | OpMove from to m => moveManifestTxn f from to m
  end.

(** What the block index asks of the manifest of an operation. *)
Definition op_indexable (op : folderOp) : Prop :=
  match op with
  | OpSave _ m => distinct_blocks m
  | OpDelete _ => True
  | OpMove _ _ m => distinct_blocks m /\ Manifest_Damaged m = false
  end.

Lemma get_cursor db f v : stored db f v -> badgerNextFolderRevision f db = Ok (u64 (cursor v + 1)).
Proof. intros S. unfold badgerNextFolderRevision. by rewrite (st_cursor _ _ _ S). Qed.

Lemma read_cursor (db : DB) f z : get db (KCursor f) = Some (DocUint z) -> badgerReadUint64 (badgerCursorKey f) db = Ok z.
Proof. intros Hg. unfold badgerReadUint64, get_doc. change (kv_get db (badgerCursorKey f)) with (get db (KCursor f)). by rewrite Hg. Qed.

Lemma indexed_at_same db db' f v v' p :
  (forall size hash i, get db' (KBlock size hash f p i) = get db (KBlock size hash f p i)) -> files v' !! p = files v !! p ->
  indexed_at db f v p -> indexed_at db' f v' p.
Proof. intros Hk Hp I size hash i d. rewrite Hk, (I size hash i d). unfold live. by rewrite Hp. Qed.

Lemma indexed_at_none db f v p :
  (forall size hash i, get db (KBlock size hash f p i) = None) -> files v !! p = None -> indexed_at db f v p.
Proof. intros Hk Hp size hash i d. rewrite Hk. unfold live. rewrite Hp. split; [done|]. by intros (b & ref & (m & ? & _) & _). Qed.

Lemma indexed_at_file db f v p m : Manifest_Damaged m = false -> distinct_blocks m -> files v !! p = Some m ->
  (forall size hash i, get db (KBlock size hash f p i) = None) -> indexed_at (indexBlocks f p m db) f v p.
Proof.
  intros Hd Hm Hp Hk size hash i d. rewrite get_indexBlocks_own by done. unfold live. rewrite Hp. naive_solver.
Qed.

Lemma indexed_at_damaged db f v p m : Manifest_Damaged m = true -> files v !! p = Some m ->
  (forall size hash i, get db (KBlock size hash f p i) = None) -> indexed_at db f v p.
Proof. intros Hd Hp Hk size hash i d. rewrite Hk. unfold live. rewrite Hp. split; [done|]. by intros (b & ref & (m' & [= <-] & Hf & _) & _); congruence. Qed.

(** Looks the records of an updated database up. *)
Local Ltac db_lookup :=
  as_records; rewrite ?get_set, ?get_delete, ?get_indexBlocks, ?get_set, ?get_delete by done;
  repeat match goal with
  | H : forall k, is_block k = false -> get _ k = _ |- _ => rewrite H by done
  | H : forall k, get _ k = _ |- _ => rewrite H
  end; cbn [dead].

Local Ltac record_cases :=
  cbn [files history revs tombs hints apply_op];
  rewrite ?inner_write_history, ?lookup_insert, ?lookup_delete;
  repeat case_decide; repeat case_bool_decide; rewrite ?lookup_insert, ?lookup_insert_ne by congruence;
  repeat case_decide; destruct_and?; simplify_eq; try done; try tauto.

(** The fields of [stored] after an operation. *)
Local Ltac stored_fields S :=
  split; [intros p|intros p r|intros p|intros p|intros p|]; [db_lookup; rewrite ?(st_file _ _ _ S), ?(st_history _ _ _ S),
    ?(st_rev _ _ _ S), ?(st_tomb _ _ _ S), ?(st_hint _ _ _ S); record_cases..|
    apply read_cursor; as_records; rewrite get_set; by rewrite decide_True].

(** What a committed operation makes of the database. *)
Definition op_result (db : DB) (f : string) (op : folderOp) (v : folder) (db' : DB) : Prop :=
  db_wf db' /\ stored db' f (apply_op v op) /\ indexed db' f (apply_op v op) /\ forall k, owned f k = false -> get db' k = get db k.

Local Ltac frame := intros k Hk; db_lookup; destruct k; cbn [owned dead] in *; repeat case_bool_decide; repeat case_decide; naive_solver.

Lemma delete_stored db f rel v : db_wf db -> stored db f v -> indexed db f v ->
  exists db', deleteManifestTxn f rel db = Ok db' /\ op_result db f (OpDelete rel) v db'.
Proof.
  intros W S I. unfold deleteManifestTxn. rewrite (get_cursor _ _ _ S). set (rev := u64 (cursor v + 1)). cbn [mbind result_bind].
  destruct (DeleteRecords_get db f rel) as (db1 & -> & W1 & Hg); [by eapply stored_covered|done|]. cbn [mbind result_bind].
  eexists. split; [reflexivity|]. split; [as_records; do 2 (apply set_wf; [|done]); exact W1|]. split; [|split].
  - stored_fields S.
  - intros p. destruct (decide (p = rel)) as [->|Hp].
    + apply indexed_at_none; [|cbn; by rewrite lookup_delete_eq]. intros size hash i. db_lookup. record_cases.
    + apply (indexed_at_same db _ f v); [|cbn; by rewrite lookup_delete_ne|apply I]. intros size hash i. db_lookup. record_cases.
  - frame.
Qed.

Lemma indexed_at_set db f v p k d : is_block k = false -> indexed_at db f v p -> indexed_at (kv_set (key_string k) d db) f v p.
Proof.
  intros Hk. apply indexed_at_same; [|done]. intros size hash i. rewrite get_set, decide_False; [done|]. intros ->. discriminate Hk.
Qed.

Lemma save_stored db f rel m v : db_wf db -> stored db f v -> indexed db f v -> distinct_blocks m -> 0 <= cursor v ->
  exists db', saveManifestTxn f rel m db = Ok db' /\ op_result db f (OpSave rel m) v db'.
Proof.
  intros W S I Hm Hc. unfold saveManifestTxn. rewrite (get_cursor _ _ _ S). set (rev := u64 (cursor v + 1)). cbn [mbind result_bind].
  destruct (DeleteRecords_get db f rel) as (db1 & -> & W1 & Hg); [by eapply stored_covered|done|]. cbn [mbind result_bind].
  as_records. set (db2 := kv_delete (key_string (KTombstone f rel)) _). cbn zeta.
  assert (db_wf db2) as W2.
  { apply delete_wf. apply set_wf; [|cbn; apply u64_bounds]. do 2 (apply set_wf; [|done]). exact W1. }
  set (db3 := if Manifest_Damaged m then db2 else indexBlocks f rel m db2).
  assert (forall k, is_block k = false -> get db3 k = get db2 k) as H3.
  { intros k Hk. unfold db3. destruct (Manifest_Damaged m); [done|by apply get_indexBlocks]. }
  assert (forall k, get db2 k = if decide (KTombstone f rel = k) then None else
     if decide (KHistory f rel rev = k) then Some (DocManifest m) else if decide (KRevision f rel = k) then Some (DocUint rev) else
     if decide (KManifest f rel = k) then Some (DocManifest m) else if dead f rel k then None else get db k) as H2.
  { intros k. unfold db2. rewrite get_delete, !get_set, Hg. done. }
  eexists. split; [reflexivity|]. split; [|split; [|split]].
  - apply set_wf; [|done]. unfold db3. destruct (Manifest_Damaged m); [done|by apply indexBlocks_wf].
  - stored_fields S.
  - intros p. apply indexed_at_set; [done|]. destruct (decide (p = rel)) as [->|Hp].
    + assert (forall size hash i, get db2 (KBlock size hash f rel i) = None) as Hnone by (intros size hash i; rewrite H2; cbn [dead]; record_cases).
      unfold db3. destruct (Manifest_Damaged m) eqn:Ed.
      * apply (indexed_at_damaged _ _ _ _ m); [done|cbn; by rewrite lookup_insert_eq|done].
      * apply indexed_at_file; [done..|cbn; by rewrite lookup_insert_eq|done].
    + apply (indexed_at_same db _ f v); [|cbn; by rewrite lookup_insert_ne|apply I]. intros size hash i.
      assert (get db3 (KBlock size hash f p i) = get db2 (KBlock size hash f p i)) as ->.
      { unfold db3. destruct (Manifest_Damaged m); [done|]. apply get_indexBlocks_other. congruence. }
      rewrite H2; cbn [dead]; record_cases.
  - intros k Hk. rewrite get_set. assert (get db3 k = get db2 k) as H3'.
    { unfold db3. destruct (Manifest_Damaged m); [done|]. destruct (is_block k) eqn:Eb; [|by apply get_indexBlocks].
      destruct k; try discriminate Eb. apply get_indexBlocks_other. intros [= -> ->]. cbn in Hk. by rewrite bool_decide_eq_true_2 in Hk. }
    rewrite H3', H2. destruct k; cbn [owned dead] in *; repeat case_bool_decide; repeat case_decide; naive_solver.
Qed.

Lemma move_stored db f from to m v : db_wf db -> stored db f v -> indexed db f v -> distinct_blocks m -> Manifest_Damaged m = false ->
  0 <= cursor v -> exists db', moveManifestTxn f from to m db = Ok db' /\ op_result db f (OpMove from to m) v db'.
Proof.
  intros W S I Hm Hd Hc. unfold moveManifestTxn. rewrite (get_cursor _ _ _ S). set (rev := u64 (cursor v + 1)). cbn [mbind result_bind].
  destruct (DeleteRecords_get db f from) as (db0 & -> & W0 & Hg0); [by eapply stored_covered|done|]. cbn [mbind result_bind].
  destruct (DeleteRecords_get db0 f to) as (db1 & -> & W1 & Hg1); [|done|].
  { destruct (decide (from = to)) as [->|Hne]; [apply covered_deleted; intros k Hk; by rewrite Hg0, Hk|].
    apply (covered_same db); [|by eapply stored_covered]. intros k Hk. rewrite Hg0.
    destruct k; cbn [dead] in *; repeat case_bool_decide; naive_solver. }
  cbn [mbind result_bind]. as_records. set (db2 := kv_set (key_string (KRename f from)) _ _). cbn zeta.
  assert (db_wf db2) as W2 by (do 5 (apply set_wf; [|first [done|cbn; apply u64_bounds]]); exact W1).
  assert (forall k, get db2 k = if decide (KRename f from = k) then Some (DocHint (mkRenameHint from to rev)) else
     if decide (KHistory f to rev = k) then Some (DocManifest m) else if decide (KRevision f to = k) then Some (DocUint rev) else
     if decide (KManifest f to = k) then Some (DocManifest m) else if decide (KTombstone f from = k) then Some (DocUint rev) else
     if dead f to k then None else if dead f from k then None else get db k) as H2.
  { intros k. unfold db2. rewrite !get_set, Hg1, Hg0. done. }
  set (db3 := indexBlocks f to m db2).
  assert (forall k, is_block k = false -> get db3 k = get db2 k) as H3 by (intros k Hk; by apply get_indexBlocks).
  eexists. split; [reflexivity|]. split; [|split; [|split]].
  - apply set_wf; [|done]. by apply indexBlocks_wf.
  - stored_fields S.
  - intros p. apply indexed_at_set; [done|]. destruct (decide (p = to)) as [->|Hp].
    + apply indexed_at_file; [done..|cbn; by rewrite lookup_insert_eq|]. intros size hash i. rewrite H2; cbn [dead]; record_cases.
    + assert (forall size hash i, get db3 (KBlock size hash f p i) = get db2 (KBlock size hash f p i)) as H3'.
      { intros. apply get_indexBlocks_other. congruence. }
      destruct (decide (p = from)) as [->|Hp'].
      * apply indexed_at_none; [|cbn; by rewrite lookup_insert_ne, lookup_delete_eq]. intros. rewrite H3', H2; cbn [dead]; record_cases.
      * apply (indexed_at_same db _ f v); [|cbn; by rewrite lookup_insert_ne, lookup_delete_ne|apply I].
        intros. rewrite H3', H2; cbn [dead]; record_cases.
  - intros k Hk. rewrite get_set. assert (get db3 k = get db2 k) as H3'.
    { destruct (is_block k) eqn:Eb; [|by apply get_indexBlocks].
      destruct k; try discriminate Eb. apply get_indexBlocks_other. intros [= -> ->]. cbn in Hk. by rewrite bool_decide_eq_true_2 in Hk. }
    rewrite H3', H2. destruct k; cbn [owned dead] in *; repeat case_bool_decide; repeat case_decide; naive_solver.
Qed.

(** *** Databases of folders *)

Definition history_nonempty (v : folder) : Prop := forall p h, history v !! p = Some h -> h <> ∅.

(** Every folder [f] is in the abstract state [V f], and the block index is exact. *)
Record holds_folders (db : DB) (V : string -> folder) : Prop := {
  hf_db : db_wf db;
  hf_stored f : stored db f (V f);
  hf_indexed f : indexed db f (V f);
  hf_wf f : wf (V f);
  hf_history f : history_nonempty (V f)
}.

Lemma history_nonempty_op v op : history_nonempty v -> history_nonempty (apply_op v op).
Proof.
  intros Hv. assert (forall rel r m, history_nonempty v -> forall p h, write_history (history v) rel r m !! p = Some h -> h <> ∅) as Hw.
  { intros rel r m _ p h Hp He. unfold write_history in Hp. apply lookup_insert_Some in Hp as [[_ <-]|[_ Hp]]; [|by eapply Hv].
    apply (f_equal (lookup r)) in He. by rewrite lookup_insert_eq in He. }
  destruct op; intros p h; cbn; [by apply Hw|apply Hv|by apply Hw].
Qed.



Definition update (V : string -> folder) (f : string) (v : folder) (g : string) : folder := if decide (g = f) then v else V g.

(** The folders of the database after one operation; every record that is not a
    folder's own is left alone. *)
Lemma op_badger_holds b V f op :
  holds_folders (badger_db b) V -> op_ok op -> op_indexable op -> cursor (V f) + 1 < 2 ^ 64 ->
  exists db', op_txn f op (badger_db b) = Ok db' /\ holds_folders db' (update V f (apply_op (V f) op)) /\
    forall k, (forall g, owned g k = false) -> get db' k = get (badger_db b) k.
Proof.
  intros Hh Hok Hix Hlt. pose proof (wf_cursor _ (hf_wf _ _ Hh f)) as Hc.
  assert (exists db', op_txn f op (badger_db b) = Ok db' /\ op_result (badger_db b) f op (V f) db') as (db' & E & W & S & I & Hframe).
  { destruct op; cbn [op_txn]; [apply save_stored|apply delete_stored|destruct Hix; apply move_stored]; try apply Hh; try done; lia. }
  exists db'. split; [done|]. split; [|intros k Hk; by apply Hframe].
  assert (forall g, g <> f -> stored db' g (V g)) as Hother.
  { intros g Hg. pose proof (hf_stored _ _ Hh g) as Sg.
    split; try (intros; rewrite Hframe by (cbn; by apply bool_decide_eq_false_2); apply Sg).
    rewrite <- (st_cursor _ _ _ Sg). unfold badgerReadUint64, get_doc.
    change (kv_get ?d (badgerCursorKey g)) with (get d (KCursor g)). rewrite Hframe; [done|]. cbn. by apply bool_decide_eq_false_2. }
  split; [done|..]; intros g; unfold update; case_decide as Hg; try (subst g; done); try apply Hh.
  - by apply Hother.
  - intros p. apply (indexed_at_same (badger_db b) _ g (V g)); [|done|apply Hh]. intros. apply Hframe. cbn. by apply bool_decide_eq_false_2.
  - subst g. apply wf_op; [apply Hh|done..].
  - subst g. apply history_nonempty_op, Hh.
Qed.

Lemma op_badger_txn b f op : f <> EmptyString -> empty_path op = false -> op_badger b f op = Update b (op_txn f op).
Proof.
  intros Hf Hp. destruct op as [| |from to m]; [done..|]. cbn in *. apply orb_false_iff in Hp as [H1 H2].
  unfold MoveManifest, require. rewrite (bool_decide_eq_false_2 _ Hf), H1, H2. done.
Qed.

Lemma inj_fmap_Some {A B} (c : A -> B) (o o' : option A) : (forall x y, c x = c y -> x = y) -> c <$> o = c <$> o' -> o = o'.
Proof. intros Hc. destruct o, o'; cbn; intros Heq; try done. injection Heq as Heq. by apply Hc in Heq as ->. Qed.

(** Loading the database finds every folder in its abstract state, and every other
    record as it is stored. *)
Lemma Load_folders b V : holds_folders (badger_db b) V -> badger_viewFault b = false ->
  exists snap, Load b = Ok snap /\ (forall f, view (snap_local snap) f = V f) /\
    (forall k, plain k = true -> is_local k = false -> record snap k = get (badger_db b) k).
Proof.
  intros Hh Hv. destruct (readSnapshot_records _ (hf_db _ _ Hh)) as (snap & l & E & _ & _ & Hrec & _ & _ & Hfull & _).
  exists (normalizeLoadedSnapshot snap).
  assert (forall f, view (snap_local snap) f = V f) as Hview.
  { intros f. pose proof (hf_stored _ _ Hh f) as S. destruct (V f) as [vf vh vr vt vi vc] eqn:EV. unfold view. f_equal.
    - apply map_eq. intros p. apply (inj_fmap_Some DocManifest); [by intros ? ? [=]|]. rewrite <- (st_file _ _ _ S). apply (Hrec (KManifest f p)). done.
    - apply same_history_maps; [apply Hfull|pose proof (hf_history _ _ Hh f) as Hn; by rewrite EV in Hn|].
      intros p r. apply (inj_fmap_Some DocManifest); [by intros ? ? [=]|]. rewrite <- (st_history _ _ _ S). apply (Hrec (KHistory f p r)). done.
    - apply map_eq. intros p. apply (inj_fmap_Some DocUint); [by intros ? ? [=]|]. rewrite <- (st_rev _ _ _ S). apply (Hrec (KRevision f p)). done.
    - apply map_eq. intros p. apply (inj_fmap_Some DocUint); [by intros ? ? [=]|]. rewrite <- (st_tomb _ _ _ S). apply (Hrec (KTombstone f p)). done.
    - apply map_eq. intros p. apply (inj_fmap_Some DocHint); [by intros ? ? [=]|]. rewrite <- (st_hint _ _ _ S). apply (Hrec (KRename f p)). done.
    - pose proof (st_cursor _ _ _ S) as Hc. pose proof (Hrec (KCursor f) eq_refl) as Hk. unfold badgerReadUint64, get_doc in Hc.
      change (kv_get (badger_db b) (badgerCursorKey f)) with (get (badger_db b) (KCursor f)) in Hc. rewrite <- Hk in Hc. cbn [record] in Hc.
      unfold num. destruct (Cursors (snap_local snap) !! f); by injection Hc. }
  split; [|split].
  - unfold Load, View. by rewrite Hv, E.
  - intros f. rewrite <- Hview. cbn. rewrite normalizeSnapshot_id; [done|]. apply wf_loadable_meta. intros g. rewrite Hview. apply Hh.
  - intros k Hp Hk. rewrite <- Hrec by done. by destruct k.
Qed.

(** *** Histories *)

Definition call : Type := bool * (string * folderOp).

Definition badger_step (st : backend * list (string * folderOp)) (c : call) : backend * list (string * folderOp) :=
  let '(b, log) := st in
  match op_badger (with_commit_fault c.1 b) c.2.1 c.2.2 with
  | (b', Ok _) => (b', c.2 :: log)
  | (b', Err _) => (b', log)
  end.

(** The backend after some calls, each with a flag that says whether the commit
    fails, and the calls that returned no error, newest first. *)
Definition badger_run (b : backend) (calls : list call) : backend * list (string * folderOp) := foldl badger_step (b, []) calls.

(** The operations of a folder in a log, oldest first. *)
Definition ops_of (f : string) (log : list (string * folderOp)) : list folderOp :=
  omap (fun e => if decide (e.1 = f) then Some e.2 else None) (rev log).

Definition call_ok (c : call) : Prop := op_ok c.2.2 /\ op_indexable c.2.2 /\ c.2.1 <> EmptyString /\ empty_path c.2.2 = false.

Lemma run_update V log f op g : update (fun f => run (V f) (ops_of f log)) f (apply_op (run (V f) (ops_of f log)) op) g =
  run (V g) (ops_of g ((f, op) :: log)).
Proof.
  unfold ops_of. cbn [rev]. rewrite omap_app. unfold update, run. cbn. case_decide as Hg.
  - subst g. rewrite decide_True by done. by rewrite foldl_snoc.
  - rewrite decide_False by done. by rewrite app_nil_r.
Qed.

Lemma holds_folders_ext db V V' : (forall f, V f = V' f) -> holds_folders db V -> holds_folders db V'.
Proof. intros HV [H1 H2 H3 H4 H5]. split; [done|..]; intros f; rewrite <- HV; auto. Qed.

Lemma run_cursor v ops : wf v -> cursor v + Z.of_nat (length ops) < 2 ^ 64 -> Forall op_ok ops -> cursor (run v ops) = cursor v + Z.of_nat (length ops).
Proof. intros W Hl Hok. by destruct (run_ind (fun _ => True) v ops) as (_ & Hc & _). Qed.

Lemma ops_of_length f log : (length (ops_of f log) <= length log)%nat.
Proof. unfold ops_of. rewrite <- (length_rev log). induction (rev log) as [|e l IH]; cbn; [lia|]. destruct (decide _); cbn; lia. Qed.

Lemma ops_of_ok f log (P : folderOp -> Prop) : (forall e, e ∈ log -> P e.2) -> Forall P (ops_of f log).
Proof.
  intros Hl. apply Forall_forall. intros op Hop. unfold ops_of in Hop. apply list_elem_of_omap in Hop as (e & He & Hs).
  case_decide; [|done]. injection Hs as <-. apply Hl. by apply list_elem_of_In, in_rev, list_elem_of_In.
Qed.

(** The calls whose commit does not fail. *)
Definition committed (calls : list call) : list (string * folderOp) := snd <$> List.filter (fun c => negb c.1) calls.

Lemma badger_run_holds b V calls :
  holds_folders (badger_db b) V -> Forall call_ok calls -> (forall f, cursor (V f) + Z.of_nat (length calls) < 2 ^ 64) ->
  let st := badger_run b calls in
  st.2 = rev (committed calls) /\ holds_folders (badger_db st.1) (fun f => run (V f) (ops_of f st.2)) /\
  badger_viewFault st.1 = badger_viewFault b /\
  (forall k, (forall g, owned g k = false) -> get (badger_db st.1) k = get (badger_db b) k).
Proof.
  intros Hh. induction calls as [|c calls IH] using rev_ind; intros Hok Hlen; [done|].
  apply Forall_app in Hok as [Hok Hc]. apply Forall_singleton in Hc as (H1 & H2 & H3 & H4).
  rewrite length_app in Hlen. cbn in Hlen.
  assert (forall f, cursor (V f) + Z.of_nat (length calls) < 2 ^ 64) as Hlen0 by (intros f; specialize (Hlen f); lia).
  destruct (IH Hok Hlen0) as (Hlog & Hh' & Hv & Hframe). unfold badger_run in *. rewrite foldl_snoc. cbn zeta in *.
  destruct (foldl badger_step (b, []) calls) as [b' log]. cbn [fst snd] in *. destruct c as [fault [f op]]. cbn [fst snd] in *.
  assert (cursor (run (V f) (ops_of f log)) + 1 < 2 ^ 64) as Hcur.
  { assert (length log <= length calls)%nat as Hll.
    { rewrite Hlog, length_rev. unfold committed. rewrite length_fmap. apply List.filter_length_le. }
    pose proof (ops_of_length f log). specialize (Hlen f). rewrite run_cursor; [lia|apply Hh|lia|].
    apply ops_of_ok. intros e He. rewrite Hlog in He. apply list_elem_of_In, in_rev, list_elem_of_In in He.
    apply list_elem_of_fmap in He as (c & -> & Hc). apply list_elem_of_In, filter_In in Hc as [Hc _]. rewrite List.Forall_forall in Hok.
    by apply Hok in Hc as [Hc' _]. }
  destruct (op_badger_holds (with_commit_fault fault b') _ f op Hh' H1 H2 Hcur) as (db' & E & Hdb & Hfr).
  unfold badger_step. cbn [fst snd]. rewrite op_badger_txn by done. unfold Update. rewrite E. cbn [badger_updateFault with_commit_fault].
  unfold committed in *. rewrite List.filter_app, fmap_app, rev_app_distr. destruct fault; cbn.
  - split_and?; done.
  - split_and?; [by rewrite Hlog| |done|].
    + eapply holds_folders_ext; [|exact Hdb]. intros g. apply run_update.
    + intros k Hk. rewrite Hfr by done. by apply Hframe.
Qed.


(** *** Reading *)

Lemma prefix_parts kind f : scan_prefix [kind; badgerEncodePart f] = folderPrefix kind f.
Proof. unfold scan_prefix, folderPrefix. rewrite !join_cons. cbn [join]. by rewrite !str_app_assoc. Qed.

Lemma listPaths_all {A} (as_ : Doc -> result StoreErr A) (key : string -> dbkey) (kind c : string) (doc : A -> Doc) (l : list (string * A)) out :
  (forall p, key_parts (key p) = [kind; c; badgerEncodePart p]) -> (forall x, as_ (doc x) = Ok x) ->
  listPaths as_ ((fun e => (key_string (key e.1), doc e.2)) <$> l) out = Ok (foldl (fun out e => <[e.1 := e.2]> out) out l).
Proof.
  intros Hkey Has. revert out. induction l as [|[p x] l IH]; intros out; [done|]. cbn. rewrite key_fields_string, Hkey, badgerDecode_Encode.
  cbn. rewrite Has. apply IH.
Qed.

Lemma foldl_insert_lookup {A} (l : list (string * A)) (out : gmap string A) p :
  NoDup l.*1 -> (forall x, foldl (fun out e => <[e.1 := e.2]> out) out l !! p = Some x <-> ((p, x) ∈ l) \/ ((p ∉ l.*1) /\ out !! p = Some x)).
Proof.
  revert out. induction l as [|[q y] l IH]; intros out Hnd x; cbn [foldl fst snd].
  - split; [intros ?; right; split; [by apply not_elem_of_nil|done]|]. intros [[]%elem_of_nil|[_ ?]]; done.
  - rewrite fmap_cons in Hnd. apply NoDup_cons in Hnd as [Hq Hnd]. rewrite IH by done. rewrite fmap_cons, not_elem_of_cons, elem_of_cons.
    rewrite lookup_insert_Some. cbn [fst snd] in *. split.
    + intros [Hin|[Hp [[<- <-]|[Hne Ho]]]]; [by left; right|by left; left|]. right. split; [split; [congruence|done]|done].
    + intros [[[= -> ->]|Hin]|[[Hne Hp] Ho]]; [right; split; [done|by left]|by left|]. right. split; [done|]. right. split; [congruence|done].
Qed.

(** A listing returns the documents of the records of one kind in one folder. *)
Lemma listPaths_scan {A} (as_ : Doc -> result StoreErr A) (key : string -> dbkey) kind f (doc : A -> Doc) (m : gmap string A) db :
  db_wf db -> contains_char kind slash = false ->
  (forall p, key_parts (key p) = [kind; badgerEncodePart f] ++ [badgerEncodePart p]) -> (forall x, as_ (doc x) = Ok x) ->
  (forall k rest, key_parts k = [kind; badgerEncodePart f] ++ rest -> exists p, k = key p) ->
  (forall p, get db (key p) = doc <$> m !! p) ->
  listPaths as_ (scan (folderPrefix kind f) db) ∅ = Ok m.
Proof.
  intros W Hkind Hkey Has Hinv Hget. rewrite <- prefix_parts.
  destruct (scan_table as_ doc key [kind; badgerEncodePart f] m db) as (l & Hl & Hp); [done|done|repeat constructor; auto with badger_keys|done..|].
  rewrite Hl, (listPaths_all as_ key kind (badgerEncodePart f) doc) by done. f_equal. apply map_eq. intros p. apply option_eq. intros x.
  rewrite foldl_insert_lookup by (rewrite Hp; apply NoDup_fst_map_to_list). rewrite lookup_empty, Hp, elem_of_map_to_list. naive_solver.
Qed.

Lemma decode_refs items : (forall key d, (key, d) ∈ items -> exists r, d = DocRef r) ->
  exists refs, decode_all as_ref items = Ok refs /\ forall ref, ref ∈ refs <-> exists key, (key, DocRef ref) ∈ items.
Proof.
  induction items as [|[key d] items IH]; intros Hd.
  - exists []. split; [done|]. intros ref. split; [by intros ?%elem_of_nil|]. by intros [key ?%elem_of_nil].
  - destruct (Hd key d) as [r ->]; [by left|]. destruct IH as (refs & E & Hr); [intros; eapply Hd; by right|].
    exists (r :: refs). cbn. rewrite E. split; [done|]. intros ref. rewrite elem_of_cons, Hr. setoid_rewrite elem_of_cons. split.
    + intros [->|[key' Hk]]; eauto.
    + intros [key' [[= -> ->]|Hk]]; eauto.
Qed.

(** The references under a prefix of the block index. *)
Lemma scan_refs db V pre : holds_folders db V -> Forall (fun w => contains_char w slash = false) pre ->
  exists refs, decode_all as_ref (scan (scan_prefix ("block" :: pre)) db) = Ok refs /\
    forall ref, ref ∈ refs <-> exists f p b rest, live (V f) f p b ref /\ rest <> [] /\
      [itoa (Block_Size b); hex_encode (Block_Hash b); badgerEncodePart f; badgerEncodePart p; itoa (Block_Index b)] = pre ++ rest.
Proof.
  intros Hh Hpre.
  assert (forall key d, (key, d) ∈ scan (scan_prefix ("block" :: pre)) db <-> exists f p b ref rest,
    key = key_string (KBlock (Block_Size b) (Block_Hash b) f p (Block_Index b)) /\ d = DocRef ref /\ live (V f) f p b ref /\ rest <> [] /\
    [itoa (Block_Size b); hex_encode (Block_Hash b); badgerEncodePart f; badgerEncodePart p; itoa (Block_Index b)] = pre ++ rest) as Hscan.
  { intros key d. rewrite scan_prefix_records; [|apply Hh|done|by constructor]. split.
    - intros (k & -> & Hd & rest & Hr & Hk). destruct k; try discriminate Hk. cbn [key_parts app] in Hk. injection Hk as Hk.
      apply (hf_indexed _ _ Hh) in Hd as (b & ref & Hl & -> & -> & -> & ->). exists folderID, rel, b, ref, rest. done.
    - intros (f & p & b & ref & rest & -> & -> & Hl & Hr & Hk). eexists. split; [reflexivity|]. split.
      + apply (hf_indexed _ _ Hh). exists b, ref. done.
      + exists rest. split; [done|]. cbn [key_parts app]. by rewrite Hk. }
  destruct (decode_refs (scan (scan_prefix ("block" :: pre)) db)) as (refs & E & Hrefs).
  { intros key d Hd. apply Hscan in Hd as (f & p & b & ref & rest & _ & -> & _). eauto. }
  exists refs. split; [done|]. intros ref. rewrite Hrefs. setoid_rewrite Hscan. split.
  - intros (key & f & p & b & ref' & rest & _ & [= <-] & Hl & Hr & Hk). exists f, p, b, rest. done.
  - intros (f & p & b & rest & Hl & Hr & Hk). eexists _, f, p, b, ref, rest. done.
Qed.

Lemma prefix_blocks size hash :
  badgerKeyPrefix +:+ "block/" +:+ itoa size +:+ "/" +:+ hex_encode hash +:+ "/" = scan_prefix ["block"; itoa size; hex_encode hash].
Proof.
  unfold scan_prefix. change (join "/" ["block"; itoa size; hex_encode hash]) with ("block" +:+ "/" +:+ itoa size +:+ "/" +:+ hex_encode hash).
  by rewrite !str_app_assoc.
Qed.

(** Reads of the Badger backend are exact: a lookup and the listings of
    manifests, revisions and tombstones give the folder's own maps - nothing of
    another folder, of another table or of a peer, whatever the names are - and
    FindBlocks and ListBlockRefs give, sorted, precisely the blocks of the live
    undamaged files that were asked for. *)
Theorem badger_reads_exact b V f : holds_folders (badger_db b) V -> badger_viewFault b = false ->
  (forall p, LoadManifest b f p = Ok (files (V f) !! p)) /\
  ListManifests b f = Ok (files (V f)) /\ ListManifestRevisions b f = Ok (revs (V f)) /\ ListTombstones b f = Ok (tombs (V f)) /\
  (forall size hash, exists refs, FindBlocks b size hash = Ok refs /\ StronglySorted (not_after ref_lt) refs /\
     forall ref, ref ∈ refs <-> exists g p blk, live (V g) g p blk ref /\ Block_Size blk = size /\ Block_Hash blk = hash) /\
  exists refs, ListBlockRefs b f = Ok refs /\ StronglySorted (not_after ref_lt) refs /\
     forall ref, ref ∈ refs <-> exists g p blk, live (V g) g p blk ref /\ (f = EmptyString \/ g = f).
Proof.
  intros Hh Hv. pose proof (hf_db _ _ Hh) as W. pose proof (hf_stored _ _ Hh f) as S.
  unfold LoadManifest, ListManifests, ListManifestRevisions, ListTombstones, listFolderUint64Records, FindBlocks, ListBlockRefs, View.
  rewrite Hv. split; [|split; [|split; [|split; [|split]]]].
  - intros p. unfold get_doc. change (kv_get ?d (badgerManifestKey f p)) with (get d (KManifest f p)). rewrite (st_file _ _ _ S).
    by destruct (files (V f) !! p).
  - apply (listPaths_scan as_manifest (KManifest f) "manifest" f DocManifest); [done|done|done|done| |apply S].
    intros k rest Hk. destruct k; try discriminate Hk. injection Hk as Hf _. apply badgerEncodePart_inj in Hf as ->. eauto.
  - apply (listPaths_scan as_uint (KRevision f) "revision" f DocUint); [done|done|done|done| |apply S].
    intros k rest Hk. destruct k; try discriminate Hk. injection Hk as Hf _. apply badgerEncodePart_inj in Hf as ->. eauto.
  - apply (listPaths_scan as_uint (KTombstone f) "tombstone" f DocUint); [done|done|done|done| |apply S].
    intros k rest Hk. destruct k; try discriminate Hk. injection Hk as Hf _. apply badgerEncodePart_inj in Hf as ->. eauto.
  - intros size hash. rewrite prefix_blocks.
    destruct (scan_refs _ V [itoa size; hex_encode hash] Hh) as (refs & -> & Hrefs); [repeat constructor; auto with badger_keys|].
    exists (sortBlockRefs refs). split; [done|]. split; [apply sort_by_sorted, _|]. intros ref. unfold sortBlockRefs. rewrite elem_of_sort_by, Hrefs.
    split.
    + intros (g & p & blk & rest & Hl & _ & Hk). injection Hk as Hs%itoa_inj Hx%hex_encode_inj _. by exists g, p, blk.
    + intros (g & p & blk & Hl & <- & <-). eexists g, p, blk, _. split; [done|]. split; [|reflexivity]. done.
  - destruct (scan_refs _ V [] Hh) as (refs & E & Hrefs); [constructor|].
    change (badgerKeyPrefix +:+ "block/") with (scan_prefix ["block"]). rewrite E.
    eexists. split; [reflexivity|]. split; [apply sort_by_sorted, _|]. intros ref. unfold sortBlockRefs.
    rewrite elem_of_sort_by, list_elem_of_In, filter_In, <- list_elem_of_In, Hrefs, orb_true_iff, !bool_decide_eq_true. split.
    + intros [(g & p & blk & rest & Hl & _ & _) Hf]. exists g, p, blk. split; [done|]. destruct Hl as (m & _ & _ & _ & ->). done.
    + intros (g & p & blk & Hl & Hf). split; [|by destruct Hl as (m & _ & _ & _ & ->)].
      eexists g, p, blk, _. split; [done|]. split; [|reflexivity]. done.
Qed.

(** An empty database: every folder is empty. *)
Lemma holds_folders_empty db : (forall k, get db k = None) -> db_wf db -> holds_folders db (fun _ => folder_empty).
Proof.
  intros Hn W. split; [done|..].
  - intros f. split; try (intros; rewrite Hn; cbn; unfold inner; rewrite ?lookup_empty; cbn; by rewrite ?lookup_empty).
    unfold badgerReadUint64, get_doc. change (kv_get db (badgerCursorKey f)) with (get db (KCursor f)). by rewrite Hn.
  - intros f p. apply indexed_at_none; [intros; apply Hn|apply lookup_empty].
  - intros f. apply wf_empty.
  - intros f p h. cbn. by rewrite lookup_empty.
Qed.
End proofs.
End ops.

(** *** Witnesses *)

Definition demo_db : badgerSnapshotBackend (DB := gmap string Doc) := mkBadger ∅ false false.

Lemma demo_db_holds : holds_folders (badger_db demo_db) (fun _ => folder_empty).
Proof.
  apply holds_folders_empty.
  - intros k. apply lookup_empty.
  - split; [apply lookup_empty|]. intros key d. cbn. by rewrite lookup_empty.
Qed.

Definition demo_calls : list call := [
  (false, ("docs", OpSave "a" (demo_manifest Byte.x61))); (false, ("pics", OpSave "a" (demo_manifest Byte.x62)));
  (true, ("docs", OpDelete "a")); (false, ("docs", OpMove "a" "b" (demo_manifest Byte.x61)))].

Lemma demo_calls_ok : Forall call_ok demo_calls.
Proof.
  assert (forall h, distinct_blocks (demo_manifest h)) as Hd by (intros h; apply NoDup_singleton).
  repeat (apply Forall_cons; split; [unfold call_ok; cbn [fst snd]; split_and!; cbn [op_ok op_indexable]; try split; by try apply Hd|]).
  constructor.
Qed.


Lemma demo_saved_holds : holds_folders (badger_db (badger_run demo_db demo_calls).1)
  (fun f => run folder_empty (ops_of f (rev (committed demo_calls)))).
Proof.
  destruct (badger_run_holds demo_db (fun _ => folder_empty) demo_calls demo_db_holds demo_calls_ok) as (Hlog & Hh & _);
    [intros f; vm_compute; reflexivity|]. by rewrite Hlog in Hh.
Qed.

Lemma badger_reads_exact_witness : let b := (badger_run demo_db demo_calls).1 in
  ListManifests b "docs" = Ok {["b" := demo_manifest Byte.x61]} /\ ListTombstones b "docs" = Ok {["a" := 2]} /\
  exists refs, FindBlocks b 1 [Byte.x61] = Ok refs /\ mkBlockRef "docs" "b" (mkBlock 0 0 1 [Byte.x61]) ∈ refs.
Proof.
  intros b. destruct (badger_reads_exact b _ "docs" demo_saved_holds eq_refl) as (_ & Hm & _ & Ht & Hf & _).
  split_and!.
  - rewrite Hm. vm_compute. reflexivity.
  - rewrite Ht. vm_compute. reflexivity.
  - destruct (Hf 1 [Byte.x61]) as (refs & E & _ & Hin). exists refs. split; [exact E|]. apply Hin.
    exists "docs", "b", (mkBlock 0 0 1 [Byte.x61]). split; [|split; reflexivity]. exists (demo_manifest Byte.x61).
    split; [vm_compute; reflexivity|]. split; [reflexivity|]. split; [left|reflexivity].
Defined.

(** A damaged manifest: a save leaves its blocks out of the index, a rename
    brings them in, and so does writing a whole snapshot. *)
Definition damaged_manifest : Manifest := mkManifest "a" 1 4 [mkBlock 0 0 1 [Byte.x61]] "complete" true 0 0 0 0.

Example damaged_saved : FindBlocks (SaveManifest demo_db "docs" "a" damaged_manifest).1 1 [Byte.x61] = Ok [].
Proof. vm_compute. reflexivity. Qed.

Example damaged_moved : let b := (SaveManifest demo_db "docs" "a" damaged_manifest).1 in
  FindBlocks (MoveManifest b "docs" "a" "b" damaged_manifest).1 1 [Byte.x61] = Ok [mkBlockRef "docs" "b" (mkBlock 0 0 1 [Byte.x61])].
Proof. vm_compute. reflexivity. Qed.

Example damaged_migrated : let b := (SaveManifest demo_db "docs" "a" damaged_manifest).1 in
  (fun snap => FindBlocks (Save b snap).1 1 [Byte.x61]) <$> Load b = Ok (Ok [mkBlockRef "docs" "a" (mkBlock 0 0 1 [Byte.x61])]).
Proof. vm_compute. reflexivity. Qed.
End badger.
