(* ===== verification/BadgerTables.v ===== *)
(** * The Badger backend: markers, jobs, the gate and the settings

    Models the operations of [internal/state/badger_store.go] on the tables that are
    not a folder's files: snapshot markers, archive, restore, retention and repair
    jobs, pending writes and skipped deletes, node settings and pending settings
    changes.  Each writes or reads single records.  They give the same answers as
    the JSON backend ([tables_simulate], [tables_read_alike]), and they implement
    the interface of the apply gate crawler ([Badger_ApplyGateStore]). *)

From S2P Require Import Prelude GoStd GoBase64 Paths Block StoreData Store ApplyGate Jobs Settings BadgerKeys BadgerStore.
From Stdlib Require Import Ascii.

Local Open Scope Z_scope.

Module badger.
Section ops.
Context {DB : Type} `{KVStore DB}.

Local Abbreviation backend := (badgerSnapshotBackend (DB := DB)).

(** ** Transactions on one record *)

Definition putRecord (b : backend) (key : string) (d : Doc) : backend * result StoreErr unit :=
  Update b (fun db => Ok (badgerSetJSON key d db)).
Definition dropRecord (b : backend) (key : string) : backend * result StoreErr unit :=
  Update b (fun db => Ok (kv_delete key db)).
Definition getRecord {A} (as_ : Doc -> result StoreErr A) (b : backend) (key : string) : result StoreErr (option A) :=
  View b (get_doc as_ key).
Definition listRecords {A} (as_ : Doc -> result StoreErr A) (b : backend) (prefix : string) : result StoreErr (list A) :=
  View b (fun db => decode_all as_ (scan prefix db)).

(** ** Snapshot markers *)

Definition SaveSnapshotMarker (b : backend) (marker : SnapshotMarker) : backend * result StoreErr unit :=
  checkedB b (_ ← require "snapshot marker id" (SnapshotMarker_ID marker);
              require "snapshot marker folder id" (SnapshotMarker_FolderID marker))
    (putRecord b (badgerSnapshotMarkerKey (SnapshotMarker_ID marker)) (DocMarker marker)).

Definition LoadSnapshotMarker (b : backend) (id : string) : result StoreErr (option SnapshotMarker) :=
  getRecord as_marker b (badgerSnapshotMarkerKey id).

Definition ListSnapshotMarkers (b : backend) (folderID : string) : result StoreErr (list SnapshotMarker) :=
  (fun markers => sort_by marker_lt
     (List.filter (fun marker => bool_decide (folderID = EmptyString) || bool_decide (SnapshotMarker_FolderID marker = folderID)) markers))
    <$> listRecords as_marker b (badgerKeyPrefix +:+ "snapshot-marker/").

Definition DeleteSnapshotMarker (b : backend) (id : string) : backend * result StoreErr unit :=
  dropRecord b (badgerSnapshotMarkerKey id).

(** ** Jobs *)

(** A job without an identifier makes the whole transaction fail. *)
Fixpoint setArchiveJobs (snapshotID : string) (jobs : list ArchiveIntakeJob) (db : DB) : result StoreErr DB :=
  match jobs with
  | [] => Ok db
  | job :: jobs' =>
      _ ← require "archive intake job id" (ArchiveIntakeJob_ID job);
      setArchiveJobs snapshotID jobs' (badgerSetJSON (badgerArchiveIntakeJobKey snapshotID (ArchiveIntakeJob_ID job)) (DocArchive job) db)
  end.

Definition archivePrefix (snapshotID : string) : string :=
  badgerKeyPrefix +:+ "archive-intake/" +:+ badgerEncodePart snapshotID +:+ "/".

Definition SaveArchiveIntakeJobs (b : backend) (snapshotID : string) (jobs : list ArchiveIntakeJob) : backend * result StoreErr unit :=
  checkedB b (require "snapshot id" snapshotID)
    (Update b (fun db => setArchiveJobs snapshotID jobs (badgerDeletePrefix (archivePrefix snapshotID) db))).

Definition archive_lt : ArchiveIntakeJob -> ArchiveIntakeJob -> bool :=
  by_key ArchiveIntakeJob_SnapshotID str_lt (last_key ArchiveIntakeJob_ID str_lt).

Definition ListArchiveIntakeJobs (b : backend) (snapshotID : string) : result StoreErr (list ArchiveIntakeJob) :=
  sort_by archive_lt <$> listRecords as_archive b
    (if bool_decide (snapshotID <> EmptyString) then archivePrefix snapshotID else badgerKeyPrefix +:+ "archive-intake/").

Definition SaveBackupRestoreJob (b : backend) (job : BackupRestoreJob) : backend * result StoreErr unit :=
  checkedB b (require "backup restore job id" (BackupRestoreJob_ID job))
    (putRecord b (badgerBackupRestoreJobKey (BackupRestoreJob_ID job)) (DocRestore job)).
Definition LoadBackupRestoreJob (b : backend) (id : string) : result StoreErr (option BackupRestoreJob) :=
  getRecord as_restore b (badgerBackupRestoreJobKey id).
Definition ListBackupRestoreJobs (b : backend) (snapshotID : string) : result StoreErr (list BackupRestoreJob) :=
  (fun jobs => sort_by (last_key BackupRestoreJob_ID str_lt)
     (List.filter (fun job => bool_decide (snapshotID = EmptyString) || bool_decide (BackupRestoreJob_SnapshotID job = snapshotID)) jobs))
    <$> listRecords as_restore b (badgerKeyPrefix +:+ "backup-restore-job/").

Definition SaveBackupRetentionJob (b : backend) (job : BackupRetentionJob) : backend * result StoreErr unit :=
  checkedB b (require "backup retention job id" (BackupRetentionJob_ID job))
    (putRecord b (badgerBackupRetentionJobKey (BackupRetentionJob_ID job)) (DocRetention job)).
Definition LoadBackupRetentionJob (b : backend) (id : string) : result StoreErr (option BackupRetentionJob) :=
  getRecord as_retention b (badgerBackupRetentionJobKey id).
Definition ListBackupRetentionJobs (b : backend) : result StoreErr (list BackupRetentionJob) :=
  sort_by (last_key BackupRetentionJob_ID str_lt) <$> listRecords as_retention b (badgerKeyPrefix +:+ "backup-retention-job/").

Definition SaveBackupRepairJob (b : backend) (job : BackupRepairJob) : backend * result StoreErr unit :=
  checkedB b (require "backup repair job id" (BackupRepairJob_ID job))
    (putRecord b (badgerBackupRepairJobKey (BackupRepairJob_ID job)) (DocRepair job)).
Definition LoadBackupRepairJob (b : backend) (id : string) : result StoreErr (option BackupRepairJob) :=
  getRecord as_repair b (badgerBackupRepairJobKey id).
Definition ListBackupRepairJobs (b : backend) : result StoreErr (list BackupRepairJob) :=
  sort_by (last_key BackupRepairJob_ID str_lt) <$> listRecords as_repair b (badgerKeyPrefix +:+ "backup-repair-job/").

(** ** Settings *)

Definition SaveNodeSettingsDocument (b : backend) (nodeID0 : string) (doc : NodeSettingsDocument) : backend * result StoreErr unit :=
  checkedB b (require "node settings document node id" (NodeSettingsDocument_NodeID doc))
    (let nodeID := if bool_decide (nodeID0 = EmptyString) then NodeSettingsDocument_NodeID doc else nodeID0 in
     checkedB b (fail_if (bool_decide (NodeSettingsDocument_NodeID doc <> nodeID)) (ErrMismatch nodeID (NodeSettingsDocument_NodeID doc)))
       (putRecord b (badgerNodeSettingsKey nodeID) (DocSettings doc))).
Definition LoadNodeSettingsDocument (b : backend) (nodeID : string) : result StoreErr (option NodeSettingsDocument) :=
  getRecord as_settings b (badgerNodeSettingsKey nodeID).
Definition ListNodeSettingsDocuments (b : backend) : result StoreErr (list NodeSettingsDocument) :=
  sort_by (last_key NodeSettingsDocument_NodeID str_lt) <$> listRecords as_settings b (badgerKeyPrefix +:+ "node-settings/").

Definition SavePendingSettingsChange (b : backend) (targetNodeID : string) (change : PendingSettingsChange) : backend * result StoreErr unit :=
  checkedB b (validatePendingSettingsChangeTarget targetNodeID change)
    (putRecord b (badgerPendingSettingsKey targetNodeID (PendingSettingsChange_ID change)) (DocChange change)).
Definition LoadPendingSettingsChange (b : backend) (targetNodeID changeID : string) : result StoreErr (option PendingSettingsChange) :=
  getRecord as_change b (badgerPendingSettingsKey targetNodeID changeID).

(** [JSONStore.SavePendingSettingsChange] on this backend: the audit entry, then the record. *)
Definition QueueSettingsChange (b : backend) (targetNodeID : string) (change : PendingSettingsChange) : backend * result StoreErr unit :=
  checkedB b (validatePendingSettingsChangeTarget targetNodeID change)
    (match LoadPendingSettingsChange b targetNodeID (PendingSettingsChange_ID change) with
     | Err e => (b, Err e)
     | Ok found =>
         SavePendingSettingsChange b targetNodeID
           (withPendingSettingsAudit (default PendingSettingsChange_zero found) change (bool_decide (is_Some found)))
     end).

Definition pending_change_lt : PendingSettingsChange -> PendingSettingsChange -> bool :=
  by_key PendingSettingsChange_TargetNodeID str_lt (last_key PendingSettingsChange_ID str_lt).

Definition ListPendingSettingsChanges (b : backend) (targetNodeID : string) : result StoreErr (list PendingSettingsChange) :=
  sort_by pending_change_lt <$> listRecords as_change b
    (if bool_decide (targetNodeID <> EmptyString)
     then badgerKeyPrefix +:+ "pending-settings/" +:+ badgerEncodePart targetNodeID +:+ "/" else badgerKeyPrefix +:+ "pending-settings/").

(** ** The apply gate *)

Definition SavePendingWrite (b : backend) (write : PendingWrite) : backend * result StoreErr unit :=
  checkedB b (_ ← require "folder id" (PendingWrite_FolderID write); require "pending write path" (PendingWrite_Path write))
    (putRecord b (badgerPendingWriteKey (PendingWrite_FolderID write) (PendingWrite_Path write)) (DocWrite write)).

Definition GetPendingWrite (b : backend) (folderID path : string) : result StoreErr (option PendingWrite) :=
  getRecord as_write b (badgerPendingWriteKey folderID path).

Definition writesPrefix (folderID : string) : string := badgerKeyPrefix +:+ "pending-write/" +:+ badgerEncodePart folderID +:+ "/".
Definition deletesPrefix (folderID : string) : string := badgerKeyPrefix +:+ "skipped-delete/" +:+ badgerEncodePart folderID +:+ "/".

Definition PendingWrites (b : backend) (folderID : string) : result StoreErr (list PendingWrite) :=
  sort_by write_lt <$> listRecords as_write b (writesPrefix folderID).

(** [badgerPendingWriteByKey], with the callers' error for a write that is not there. *)
Definition badgerPendingWriteByKey (folderID path : string) (db : DB) : result StoreErr PendingWrite :=
  found ← get_doc as_write (badgerPendingWriteKey folderID path) db;
  match found with Some write => Ok write | None => Err (ErrNotFound (folderID +:+ "/" +:+ path)) end.

Definition updateWrite (b : backend) (folderID path : string) (f : PendingWrite -> PendingWrite) : backend * result StoreErr unit :=
  Update b (fun db =>
    write ← badgerPendingWriteByKey folderID path db;
    Ok (badgerSetJSON (badgerPendingWriteKey folderID path) (DocWrite (f write)) db)).

Definition AddVerifiedStagedBlock (b : backend) (folderID path : string) (verified : VerifiedStagedBlock) : backend * result StoreErr unit :=
  updateWrite b folderID path (fun w => set_VerifiedBlocks (PendingWrite_VerifiedBlocks w ++ [verified]) w).

Definition MarkPendingWriteCommitted (b : backend) (folderID path : string) : backend * result StoreErr unit :=
  updateWrite b folderID path (set_Committed true).

Definition RemovePendingWrite (b : backend) (folderID path : string) : backend * result StoreErr unit :=
  dropRecord b (badgerPendingWriteKey folderID path).

Definition SaveSkippedDelete (b : backend) (d : SkippedDelete) : backend * result StoreErr unit :=
  checkedB b (_ ← require "folder id" (SkippedDelete_FolderID d); require "skipped delete path" (SkippedDelete_Path d))
    (putRecord b (badgerSkippedDeleteKey (SkippedDelete_FolderID d) (SkippedDelete_Path d)) (DocDelete (sort_required d))).

Definition SkippedDeletes (b : backend) (folderID : string) : result StoreErr (list SkippedDelete) :=
  sort_by delete_lt <$> listRecords as_delete b (deletesPrefix folderID).

Definition RemoveSkippedDelete (b : backend) (folderID path : string) : backend * result StoreErr unit :=
  dropRecord b (badgerSkippedDeleteKey folderID path).

(** [out[write.Path] = write] *)
Definition pendingWriteMap (b : backend) (folderID : string) : result StoreErr (gmap string PendingWrite) :=
  put_all PendingWrite_Path id ∅ <$> PendingWrites b folderID.

Definition ReadySkippedDeletes (b : backend) (folderID : string) (current : FolderSummary) : result StoreErr (list SkippedDelete) :=
  deletes ← SkippedDeletes b folderID;
  writes ← pendingWriteMap b folderID;
  Ok (sort_by delete_lt (List.filter (readyDelete writes current) deletes)).

(** ** The tables of the two backends *)

Inductive tableOp :=
| TJob (op : jobOp)
| TGate (op : gateOp)
| TDocument (nodeID : string) (doc : NodeSettingsDocument)
| TChange (targetNodeID : string) (change : PendingSettingsChange).

Definition table_badger (b : backend) (op : tableOp) : backend * result StoreErr unit :=
  match op with
  | TJob (JSaveMarker marker) => SaveSnapshotMarker b marker
  | TJob (JDeleteMarker id) => DeleteSnapshotMarker b id
  | TJob (JSaveArchive snapshotID jobs) => SaveArchiveIntakeJobs b snapshotID jobs
  | TJob (JSaveRestore job) => SaveBackupRestoreJob b job
  | TJob (JSaveRetention job) => SaveBackupRetentionJob b job
  | TJob (JSaveRepair job) => SaveBackupRepairJob b job
  | TGate (GSaveWrite write) => SavePendingWrite b write
  | TGate (GVerified f p v) => AddVerifiedStagedBlock b f p v
  | TGate (GCommit f p) => MarkPendingWriteCommitted b f p
  | TGate (GRemoveWrite f p) => RemovePendingWrite b f p
  | TGate (GSaveDelete d) => SaveSkippedDelete b d
  | TGate (GRemoveDelete f p) => RemoveSkippedDelete b f p
  | TDocument nodeID doc => SaveNodeSettingsDocument b nodeID doc
  | TChange target change => QueueSettingsChange b target change
  end.

Definition table_json (s : JSONStore) (op : tableOp) : JSONStore * result StoreErr unit :=
  match op with
  | TJob op => job_op s op
  | TGate op => gate_op s op
  | TDocument nodeID doc => Settings.SaveNodeSettingsDocument s nodeID doc
  | TChange target change => Settings.SavePendingSettingsChange s target change
  end.

(** What the Badger backend asks beyond the JSON backend: jobs with different,
    non-empty identifiers, and changes filed under their target. *)
Definition table_op_ok (op : tableOp) : Prop :=
  match op with
  | TJob (JSaveArchive _ jobs) => Forall (fun j => ArchiveIntakeJob_ID j <> EmptyString) jobs /\ NoDup (ArchiveIntakeJob_ID <$> jobs)
  | TChange target _ => target <> EmptyString
  | _ => True
  end.

(** Pending writes and skipped deletes are filed under their paths. *)
Definition gate_filed (snap : snapshot) : Prop :=
  (forall f p w, inner (StoreData.PendingWrites (snap_gate snap)) f !! p = Some w -> PendingWrite_Path w = p) /\
  (forall f p d, inner (StoreData.SkippedDeletes (snap_gate snap)) f !! p = Some d -> SkippedDelete_Path d = p).

(** The database holds the tables of the snapshot. *)
Record represents (db : DB) (snap : snapshot) : Prop := {
  rp_wf : db_wf db;
  rp_record k : plain k = true -> is_local k = false -> get db k = record snap k;
  rp_archive s id d : get db (KArchive s id) = Some d <-> recorded snap (KArchive s id) d;
  rp_ids s : NoDup (ArchiveIntakeJob_ID <$> archive_of snap s);
  rp_gate : gate_filed snap
}.

(** Both backends answer the same, and are left in the same state, as [R] relates
    databases and snapshots. *)
Definition simulated (R : DB -> snapshot -> Prop) (b : backend) (s : JSONStore) (p : backend * result StoreErr unit) (q : JSONStore * result StoreErr unit) : Prop :=
  match p, q with
  | (b', Ok _), (s', Ok _) => exists snap', load s' = Ok snap' /\ R (badger_db b') snap'
  | (b', Err e), (s', Err e') => e = e' /\ badger_db b' = badger_db b /\ load s' = load s
  | _, _ => False
  end.

(** ** Properties *)

Section proofs.
Context `{!KVLaws DB}.

Lemma simulated_checked R b s fault c p q :
  simulated R b s p q -> simulated R b s (checkedB (with_commit_fault fault b) c p) (checked (with_fault fault s) c q).
Proof. intros Hs. destruct c; [exact Hs|]. split; [done|]. split; [done|apply load_with_fault]. Qed.

Lemma inj_doc {A} (c : A -> Doc) (o o' : option A) : (forall x y, c x = c y -> x = y) -> c <$> o = c <$> o' -> o = o'.
Proof. intros Hc. destruct o, o'; cbn; intros Heq; try done. injection Heq as Heq. by apply Hc in Heq as ->. Qed.

Lemma represents_normalized db snap : represents db snap -> represents db (normalizeLoadedSnapshot snap).
Proof.
  intros [H1 H2 H3 H4 H5]. split; [done| |apply H3|apply H4|apply H5]. intros k Hp Hk. rewrite H2 by done. by destruct k.
Qed.

(** A transaction and a change of the snapshot that agree. *)
Lemma simulated_update (R : DB -> snapshot -> Prop) b s snap fault (f : DB -> result StoreErr DB) (g : snapshot -> result StoreErr snapshot) :
  (forall db snap, R db snap -> R db (normalizeLoadedSnapshot snap)) -> load s = Ok snap ->
  match f (badger_db b), g snap with
  | Ok db, Ok snap' => R db snap'
  | Err e, Err e' => e = e'
  | _, _ => False
  end ->
  is_Some (JSONStore_backend s) ->
  simulated R b s (Update (with_commit_fault fault b) f) (modify (with_fault fault s) g).
Proof.
  intros HR Hl Hfg [bk Hb]. unfold Update, simulated. cbn [badger_db with_commit_fault badger_updateFault].
  destruct (f (badger_db b)) as [db|e], (g snap) as [snap'|e'] eqn:Eg; try done.
  - assert (load (with_fault fault s) = Ok snap) as Hl' by by rewrite load_with_fault.
    unfold modify. rewrite Hl'. cbn [mbind result_bind]. rewrite Eg.
    unfold save, with_fault. rewrite Hb. cbn. unfold backend_Save. cbn. destruct fault.
    + split; [done|]. split; [done|]. unfold load. cbn. rewrite Hb. done.
    + exists (normalizeLoadedSnapshot snap'). split; [|by apply HR]. cbn. unfold backend_Load. cbn.
      unfold load in Hl. rewrite Hb in Hl. unfold backend_Load in Hl. destruct (backend_readFault bk); done.
  - subst e'. rewrite (modify_err _ _ e); [|by rewrite load_with_fault, Hl]. split; [done|]. split; [done|apply load_with_fault].
Qed.

Lemma simulated_step R b s p q snap : simulated R b s p q -> R (badger_db b) snap -> load s = Ok snap ->
  p.2 = q.2 /\ exists snap', load q.1 = Ok snap' /\ R (badger_db p.1) snap'.
Proof.
  unfold simulated. destruct p as [b' [[]|e]], q as [s' [[]|e']]; try done. cbn. intros (-> & -> & ->). eauto.
Qed.

Lemma represents_put db snap snap' k d :
  represents db snap -> doc_ok k d -> plain k = true ->
  (forall k', plain k' = true -> is_local k' = false -> record snap' k' = if decide (k = k') then Some d else record snap k') ->
  (forall s, archive_of snap' s = archive_of snap s) -> gate_filed snap' ->
  represents (kv_set (key_string k) d db) snap'.
Proof.
  intros [H1 H2 H3 H4 H5] Hok Hk Hrec Ha Hg. split; [by apply set_wf| | | |done].
  - intros k' Hp Hl. rewrite get_set, H2, Hrec by done. done.
  - intros s id d'. rewrite get_set, decide_False by (intros ->; done). rewrite H3. cbn [recorded]. by rewrite Ha.
  - intros s. by rewrite Ha.
Qed.

Lemma represents_drop db snap snap' k :
  represents db snap -> plain k = true ->
  (forall k', plain k' = true -> is_local k' = false -> record snap' k' = if decide (k = k') then None else record snap k') ->
  (forall s, archive_of snap' s = archive_of snap s) -> gate_filed snap' ->
  represents (kv_delete (key_string k) db) snap'.
Proof.
  intros [H1 H2 H3 H4 H5] Hk Hrec Ha Hg. split; [by apply delete_wf| | | |done].
  - intros k' Hp Hl. rewrite get_delete, H2, Hrec by done. done.
  - intros s id d'. rewrite get_delete, decide_False by (intros ->; done). rewrite H3. cbn [recorded]. by rewrite Ha.
  - intros s. by rewrite Ha.
Qed.

Lemma lookup_del2 {K V} `{Countable K} f (x : K) (m : gmap string (gmap K V)) f' x' :
  inner (del2 f x m) f' !! x' = if decide (f = f' /\ x = x') then None else inner m f' !! x'.
Proof.
  destruct (decide (f = f')) as [->|Hf]; [rewrite inner_del2_eq|rewrite inner_del2_ne, decide_False by naive_solver; done].
  rewrite lookup_delete. repeat case_decide; naive_solver.
Qed.

Lemma fmap_if_None {A B} (f : A -> B) (P : Prop) `{Decision P} (o : option A) :
  f <$> (if decide P then None else o) = if decide P then None else f <$> o.
Proof. by case_decide. Qed.

(** The records of a table after one of them was set or deleted. *)
Local Ltac table_record :=
  intros k' Hk' Hl'; destruct k'; try discriminate Hk'; try discriminate Hl'; cbn [sort_required];
  snapshot_fields; cbn [del_marker SnapshotMarkers ArchiveIntakeJobs BackupRestoreJobs BackupRetentionJobs BackupRepairJobs];
  autorewrite with lookups; rewrite ?lookup_del2; autorewrite with lookups;
  rewrite ?lookup_insert, ?lookup_delete, ?fmap_if, ?fmap_if_None;
  first [rewrite decide_False by discriminate; reflexivity | apply if_decide_iff; naive_solver].

Lemma archivePrefix_parts snapshotID : archivePrefix snapshotID = scan_prefix ["archive-intake"; badgerEncodePart snapshotID].
Proof.
  unfold archivePrefix, scan_prefix.
  change (join "/" ["archive-intake"; badgerEncodePart snapshotID]) with ("archive-intake" +:+ "/" +:+ badgerEncodePart snapshotID).
  by rewrite !str_app_assoc.
Qed.

(** The records of a snapshot's jobs, once they are replaced. *)
Definition job_records (snapshotID : string) (jobs : list ArchiveIntakeJob) : list (dbkey * Doc) :=
  (fun j => (KArchive snapshotID (ArchiveIntakeJob_ID j), DocArchive j)) <$> jobs.

Lemma setArchiveJobs_records snapshotID jobs db :
  Forall (fun j => ArchiveIntakeJob_ID j <> EmptyString) jobs ->
  setArchiveJobs snapshotID jobs db = Ok (put_records (job_records snapshotID jobs) db).
Proof.
  intros Hj. revert db. induction Hj as [|j jobs Hj _ IH]; intros db; [done|]. cbn [setArchiveJobs]. unfold require.
  rewrite bool_decide_eq_false_2 by done. cbn. apply IH.
Qed.

Lemma deletePrefix_wf prefix (db : DB) : db_wf db -> db_wf (badgerDeletePrefix prefix db).
Proof.
  intros W. unfold badgerDeletePrefix. generalize (scan prefix db).*1. intros keys. revert db W.
  induction keys as [|key keys IH]; intros db W; [done|]. apply IH. by apply delete_wf.
Qed.

Lemma get_dropped_jobs snapshotID (db : DB) k :
  get (badgerDeletePrefix (archivePrefix snapshotID) db) k =
  match k with KArchive s _ => if decide (s = snapshotID) then None else get db k | _ => get db k end.
Proof.
  unfold get at 1. rewrite kv_get_deletePrefix, archivePrefix_parts.
  assert (has_prefix (key_string k) (scan_prefix ["archive-intake"; badgerEncodePart snapshotID]) = true <->
    exists rest, rest <> [] /\ key_parts k = ["archive-intake"; badgerEncodePart snapshotID] ++ rest) as Hiff.
  { apply key_string_prefix; [done|]. repeat constructor; auto with badger_keys. }
  destruct (has_prefix _ _) eqn:E.
  - destruct (proj1 Hiff eq_refl) as (rest & _ & Hk). destruct k; try discriminate Hk. injection Hk as Hs%badgerEncodePart_inj _.
    subst. by rewrite decide_True.
  - destruct k; try done. case_decide as Hs; [|done]. subst. destruct Hiff as [_ Hiff]. rewrite Hiff in E; [done|].
    exists [badgerEncodePart jobID]. done.
Qed.

Lemma represents_archive db snap snapshotID jobs :
  represents db snap -> NoDup (ArchiveIntakeJob_ID <$> jobs) ->
  represents (put_records (job_records snapshotID jobs) (badgerDeletePrefix (archivePrefix snapshotID) db))
    (with_jobs (put_archive snapshotID jobs (snap_jobs snap)) snap).
Proof.
  intros R Hn. assert (forall k d, (k, d) ∈ job_records snapshotID jobs <->
    exists j, j ∈ jobs /\ k = KArchive snapshotID (ArchiveIntakeJob_ID j) /\ d = DocArchive j) as Hin.
  { intros k d. unfold job_records. rewrite list_elem_of_fmap. naive_solver. }
  assert (forall k, (forall d, (k, d) ∉ job_records snapshotID jobs) ->
    get (put_records (job_records snapshotID jobs) (badgerDeletePrefix (archivePrefix snapshotID) db)) k =
    get (badgerDeletePrefix (archivePrefix snapshotID) db) k) as Hother.
  { intros k Hk. rewrite (get_put_records _ _ _ None); [done| |by intros []]. intros d Hd. by apply Hk in Hd. }
  split; [| | | |apply R].
  - apply put_records_wf; [by apply deletePrefix_wf, R|]. by intros k d (j & _ & -> & ->)%Hin.
  - intros k Hp Hl. rewrite Hother by (intros d (j & _ & -> & _)%Hin; done). rewrite get_dropped_jobs.
    destruct k; try discriminate Hp; try discriminate Hl; by apply R.
  - intros s id d. cbn [recorded]. unfold archive_of. cbn. rewrite lookup_insert. case_decide as Hs.
    + subst s. cbn. split.
      * intros Hd. destruct (decide (Exists (fun j => ArchiveIntakeJob_ID j = id) jobs)) as [(j & Hj & <-)%Exists_exists|Hno].
        -- exists j. split; [done|]. split; [done|].
           rewrite (get_put_records _ _ _ (Some (DocArchive j))) in Hd; [by injection Hd| |].
           ++ intros d' (j' & Hj' & [= Hid] & ->)%Hin. do 2 f_equal. by apply (NoDup_fmap_elem _ _ _ _ Hn).
           ++ intros _. exists (DocArchive j). apply Hin. eauto.
        -- rewrite Hother, get_dropped_jobs, decide_True in Hd; [done|done|].
           intros d' (j' & Hj' & [= Hid] & _)%Hin. apply Hno, Exists_exists. by exists j'.
      * intros (j & Hj & <- & ->). rewrite (get_put_records _ _ _ (Some (DocArchive j))); [done| |].
        -- intros d' (j' & Hj' & [= Hid] & ->)%Hin. do 2 f_equal. by apply (NoDup_fmap_elem _ _ _ _ Hn).
        -- intros _. exists (DocArchive j). apply Hin. eauto.
    + rewrite Hother, get_dropped_jobs, decide_False; [apply R|done|]. by intros d' (j' & _ & [= ? _] & _)%Hin.
  - intros s. unfold archive_of. cbn. rewrite lookup_insert. case_decide; [done|apply R].
Qed.

Lemma job_simulated b s snap fault op :
  represents (badger_db b) snap -> load s = Ok snap -> is_Some (JSONStore_backend s) -> table_op_ok (TJob op) ->
  simulated represents b s (table_badger (with_commit_fault fault b) (TJob op)) (table_json (with_fault fault s) (TJob op)).
Proof.
  intros R Hl Hb Hok. destruct op as [marker|id|snapshotID jobs|job|job|job]; cbn [table_badger table_json job_op];
    unfold SaveSnapshotMarker, Jobs.SaveSnapshotMarker, DeleteSnapshotMarker, Jobs.DeleteSnapshotMarker, SaveArchiveIntakeJobs,
      Jobs.SaveArchiveIntakeJobs, SaveBackupRestoreJob, Jobs.SaveBackupRestoreJob, SaveBackupRetentionJob, Jobs.SaveBackupRetentionJob,
      SaveBackupRepairJob, Jobs.SaveBackupRepairJob, putRecord, dropRecord, modify_jobs;
    try apply simulated_checked; (eapply (simulated_update represents); [exact represents_normalized|done| |done]); cbn beta iota.
  - apply (represents_put _ snap _ (KMarker (SnapshotMarker_ID marker))); [done..|table_record|done|apply R].
  - apply (represents_drop _ snap _ (KMarker id)); [done..|table_record|done|apply R].
  - destruct Hok as [Hids Hn]. rewrite setArchiveJobs_records by done. by apply represents_archive.
  - apply (represents_put _ snap _ (KRestore (BackupRestoreJob_ID job))); [done..|table_record|done|apply R].
  - apply (represents_put _ snap _ (KRetention (BackupRetentionJob_ID job))); [done..|table_record|done|apply R].
  - apply (represents_put _ snap _ (KRepair (BackupRepairJob_ID job))); [done..|table_record|done|apply R].
Qed.

(** *** The gate *)

Lemma gate_filed_put_write snap f p w : gate_filed snap -> PendingWrite_Path w = p ->
  gate_filed (with_gate (put_write f p w (ensureApplyGateState f (snap_gate snap))) snap).
Proof.
  intros [H1 H2] Hp. split; intros f' p' x; snapshot_fields; autorewrite with lookups; [|apply H2].
  case_decide; [|apply H1]. destruct_and?. intros [= <-]. congruence.
Qed.

(** A change of a write that is there, and the error for one that is not. *)
Lemma update_simulated b s snap fault f p g :
  represents (badger_db b) snap -> load s = Ok snap -> is_Some (JSONStore_backend s) ->
  (forall w, PendingWrite_Path (g w) = PendingWrite_Path w) ->
  simulated represents b s (updateWrite (with_commit_fault fault b) f p g) (modify_gate (with_fault fault s) (update_write f p g)).
Proof.
  intros R Hl Hb Hg. unfold updateWrite, modify_gate. eapply (simulated_update represents); [exact represents_normalized|done| |done].
  unfold badgerPendingWriteByKey, get_doc, update_write. change (kv_get ?d (badgerPendingWriteKey f p)) with (get d (KPendingWrite f p)).
  rewrite (rp_record _ _ R) by done. cbn [record]. cbn [StoreData.PendingWrites ensureApplyGateState]. rewrite inner_ensure.
  destruct (inner (StoreData.PendingWrites (snap_gate snap)) f !! p) as [w|] eqn:E; cbn; [|done].
  apply (represents_put _ snap _ (KPendingWrite f p)); [done..|table_record|done|].
  apply gate_filed_put_write; [apply R|]. rewrite Hg. by apply (proj1 (rp_gate _ _ R) f).
Qed.

Lemma gate_simulated b s snap fault op :
  represents (badger_db b) snap -> load s = Ok snap -> is_Some (JSONStore_backend s) ->
  simulated represents b s (table_badger (with_commit_fault fault b) (TGate op)) (table_json (with_fault fault s) (TGate op)).
Proof.
  intros R Hl Hb. destruct op as [w|f p v|f p|f p|d|f p]; cbn [table_badger table_json gate_op].
  - apply simulated_checked. eapply (simulated_update represents); [exact represents_normalized|done| |done]. cbn beta iota.
    apply (represents_put _ snap _ (KPendingWrite (PendingWrite_FolderID w) (PendingWrite_Path w))); [done..|table_record|done|].
    apply gate_filed_put_write; [apply R|done].
  - by apply (update_simulated b s snap).
  - by apply (update_simulated b s snap).
  - eapply (simulated_update represents); [exact represents_normalized|done| |done]. cbn beta iota. apply (represents_drop _ snap _ (KPendingWrite f p)); [done..|table_record|done|].
    destruct (rp_gate _ _ R) as [H1 H2]. split; intros f' p' x; snapshot_fields; [|apply H2]. rewrite lookup_del2. case_decide; [done|apply H1].
  - apply simulated_checked. eapply (simulated_update represents); [exact represents_normalized|done| |done]. cbn beta iota.
    apply (represents_put _ snap _ (KSkippedDelete (SkippedDelete_FolderID d) (SkippedDelete_Path d))); [done..|table_record|done|].
    destruct (rp_gate _ _ R) as [H1 H2]. split; intros f' p' x; snapshot_fields; autorewrite with lookups; [apply H1|].
    case_decide; [|apply H2]. destruct_and?. intros [= <-]. done.
  - eapply (simulated_update represents); [exact represents_normalized|done| |done]. cbn beta iota. apply (represents_drop _ snap _ (KSkippedDelete f p)); [done..|table_record|done|].
    destruct (rp_gate _ _ R) as [H1 H2]. split; intros f' p' x; snapshot_fields; [apply H1|]. rewrite lookup_del2. case_decide; [done|apply H2].
Qed.

(** *** The settings *)

Lemma settings_filed snap g : gate_filed snap -> gate_filed (with_settings g snap).
Proof. done. Qed.

Lemma document_simulated b s snap fault nodeID doc :
  represents (badger_db b) snap -> load s = Ok snap -> is_Some (JSONStore_backend s) ->
  simulated represents b s (table_badger (with_commit_fault fault b) (TDocument nodeID doc)) (table_json (with_fault fault s) (TDocument nodeID doc)).
Proof.
  intros R Hl Hb. cbn [table_badger table_json]. unfold SaveNodeSettingsDocument, Settings.SaveNodeSettingsDocument, require.
  case_bool_decide as Hd; [split; [done|]; split; [done|apply load_with_fault]|]. cbn [fail_if checkedB].
  set (n := if bool_decide (nodeID = EmptyString) then NodeSettingsDocument_NodeID doc else nodeID).
  case_bool_decide as Hn; [split; [done|]; split; [done|apply load_with_fault]|]. cbn [fail_if checkedB].
  unfold putRecord, modify_settings. eapply (simulated_update represents); [exact represents_normalized|done| |done]. cbn beta iota.
  apply (represents_put _ snap _ (KNodeSettings n)); [done..|table_record|done|apply R].
Qed.

Lemma validate_target target change : target <> EmptyString -> validatePendingSettingsChangeTarget target change = Ok tt ->
  PendingSettingsChange_TargetNodeID change = target.
Proof.
  intros Ht. unfold validatePendingSettingsChangeTarget, require. rewrite (bool_decide_eq_false_2 (target = EmptyString)) by done.
  repeat case_bool_decide; cbn; try discriminate; done.
Qed.

Lemma change_simulated b s snap fault target change :
  represents (badger_db b) snap -> load s = Ok snap -> is_Some (JSONStore_backend s) -> badger_viewFault b = false ->
  target <> EmptyString ->
  simulated represents b s (table_badger (with_commit_fault fault b) (TChange target change)) (table_json (with_fault fault s) (TChange target change)).
Proof.
  intros R Hl Hb Hv Ht. cbn [table_badger table_json]. unfold QueueSettingsChange, Settings.SavePendingSettingsChange.
  destruct (validatePendingSettingsChangeTarget target change) as [[]|e] eqn:Ev; cbn [checkedB]; [|split; [done|]; split; [done|apply load_with_fault]].
  pose proof (validate_target _ _ Ht Ev) as Htarget.
  unfold LoadPendingSettingsChange, getRecord, View, Settings.LoadPendingSettingsChange. cbn [badger_viewFault with_commit_fault badger_db]. rewrite Hv.
  rewrite load_with_fault, Hl. cbn [fmap result_fmap]. unfold get_doc.
  change (kv_get ?d (badgerPendingSettingsKey target (PendingSettingsChange_ID change))) with (get d (KPendingSettings target (PendingSettingsChange_ID change))).
  rewrite (rp_record _ _ R) by done. cbn [record].
  set (found := inner (PendingSettings (snap_settings snap)) target !! PendingSettingsChange_ID change).
  assert (match DocChange <$> found with Some d => Some <$> as_change d | None => Ok None end = Ok found) as -> by by destruct found.
  set (change' := withPendingSettingsAudit _ change _).
  assert (PendingSettingsChange_ID change' = PendingSettingsChange_ID change) as Hid by done.
  assert (PendingSettingsChange_TargetNodeID change' = PendingSettingsChange_TargetNodeID change) as Htg by done.
  unfold SavePendingSettingsChange.
  assert (validatePendingSettingsChangeTarget target change' = Ok tt) as -> by exact Ev. cbn [checkedB].
  unfold putRecord, modify_settings. eapply (simulated_update represents); [exact represents_normalized|done| |done]. cbn beta iota.
  apply (represents_put _ snap _ (KPendingSettings target (PendingSettingsChange_ID change'))); [done|done|done|table_record|done|apply R].
Qed.

(** *** Histories *)

Lemma table_simulated b s snap fault op :
  represents (badger_db b) snap -> load s = Ok snap -> badger_viewFault b = false -> table_op_ok op ->
  simulated represents b s (table_badger (with_commit_fault fault b) op) (table_json (with_fault fault s) op).
Proof.
  intros R Hl Hv Hok. assert (is_Some (JSONStore_backend s)) as Hb.
  { unfold load in Hl. destruct (JSONStore_backend s); [eauto|done]. }
  destruct op; [by apply (job_simulated b s snap)|by apply (gate_simulated b s snap)|by apply (document_simulated b s snap)|
    by apply (change_simulated b s snap)].
Qed.

Lemma Update_view (b : backend) f : badger_viewFault (Update b f).1 = badger_viewFault b.
Proof. unfold Update. destruct (f (badger_db b)); [|done]. by destruct (badger_updateFault b). Qed.

Lemma checkedB_view (b : backend) c p : badger_viewFault p.1 = badger_viewFault b -> badger_viewFault (checkedB b c p).1 = badger_viewFault b.
Proof. by destruct c. Qed.

Lemma table_badger_view (b : backend) op : badger_viewFault (table_badger b op).1 = badger_viewFault b.
Proof.
  destruct op as [[]|[]|nodeID doc|target change]; cbn [table_badger]; try apply checkedB_view; try apply checkedB_view; try apply Update_view.
  destruct (LoadPendingSettingsChange _ _ _); [|done]. apply checkedB_view, Update_view.
Qed.

(** The calls run one after the other, each with its commit failing or not. *)
Fixpoint run_badger (b : backend) (calls : list (bool * tableOp)) : backend * list (result StoreErr unit) :=
  match calls with
  | [] => (b, [])
  | (fault, op) :: calls' =>
      let '(b1, r) := table_badger (with_commit_fault fault b) op in
      let '(b2, rs) := run_badger b1 calls' in (b2, r :: rs)
  end.

Fixpoint run_json (s : JSONStore) (calls : list (bool * tableOp)) : JSONStore * list (result StoreErr unit) :=
  match calls with
  | [] => (s, [])
  | (fault, op) :: calls' =>
      let '(s1, r) := table_json (with_fault fault s) op in
      let '(s2, rs) := run_json s1 calls' in (s2, r :: rs)
  end.

Lemma run_simulated b s snap calls :
  represents (badger_db b) snap -> load s = Ok snap -> badger_viewFault b = false ->
  Forall (fun c => table_op_ok c.2) calls ->
  (run_badger b calls).2 = (run_json s calls).2 /\
  exists snap', load (run_json s calls).1 = Ok snap' /\ represents (badger_db (run_badger b calls).1) snap'.
Proof.
  intros R Hl Hv Hok. revert b s snap R Hl Hv. induction Hok as [|[fault op] calls Hop _ IH]; intros b s snap R Hl Hv; [eauto|].
  cbn [run_badger run_json snd] in *. pose proof (table_simulated b s snap fault op R Hl Hv Hop) as Hs.
  pose proof (table_badger_view (with_commit_fault fault b) op) as Hv1. cbn [badger_viewFault with_commit_fault] in Hv1.
  destruct (table_badger _ op) as [b1 r], (table_json _ op) as [s1 r']. cbn [fst] in Hv1.
  destruct (simulated_step _ _ _ _ _ _ Hs R Hl) as (Heq & snap1 & Hl1 & R1). cbn [fst snd] in *. subst r'.
  destruct (IH b1 s1 snap1 R1 Hl1) as (Hr & Hrest); [by rewrite Hv1|].
  destruct (run_badger b1 calls), (run_json s1 calls). cbn in *. by rewrite Hr.
Qed.

(** [C13] The two backends are interchangeable on the tables: started on the same
    markers, jobs, pending writes, skipped deletes, documents and queued changes,
    any sequence of calls, with the same commits failing, gets the same answers from
    both - the same successes and the same errors - and leaves both with the same
    tables. Two kinds of call are excepted, where the backends differ: archive jobs
    without an identifier or with the same one twice ([archive_ids_differ]), and a
    settings change queued for the empty node ([misfiled_change]). *)
Theorem tables_simulate b s snap calls :
  represents (badger_db b) snap -> load s = Ok snap -> badger_viewFault b = false ->
  Forall (fun c => table_op_ok c.2) calls ->
  (run_badger b calls).2 = (run_json s calls).2 /\
  exists snap', load (run_json s calls).1 = Ok snap' /\ represents (badger_db (run_badger b calls).1) snap'.
Proof. apply run_simulated. Qed.

(** *** Reading *)

Lemma get_doc_record {A} (as_ : Doc -> result StoreErr A) (doc : A -> Doc) (db : DB) k (o : option A) :
  (forall x, as_ (doc x) = Ok x) -> get db k = doc <$> o -> get_doc as_ (key_string k) db = Ok o.
Proof. intros Has Hg. unfold get_doc. change (kv_get db (key_string k)) with (get db k). rewrite Hg. destruct o; [|done]. cbn. by rewrite Has. Qed.

Lemma in_key_order_values {V} (m : gmap string V) : in_key_order m ≡ₚ values m.
Proof.
  unfold in_key_order, sorted_keys, values. transitivity (omap (fun id => m !! id) (keys m)).
  - apply omap_Permutation, sort_by_perm.
  - unfold keys. assert (forall l : list (string * V), (forall e, e ∈ l -> m !! e.1 = Some e.2) -> omap (fun id => m !! id) l.*1 = l.*2) as Hl.
    { induction l as [|[k v] l IH]; intros He; [done|]. cbn. assert (m !! k = Some v) as -> by (apply (He (k, v)); by left). cbn. f_equal. apply IH. intros e Hin. apply He. by right. }
    rewrite Hl; [done|]. intros [k v] He. by apply elem_of_map_to_list in He.
Qed.

Lemma filter_perm {A} (P : A -> bool) (l l' : list A) : l ≡ₚ l' -> List.filter P l ≡ₚ List.filter P l'.
Proof.
  induction 1 as [|x l l' _ IH|x y l|l l' l'' _ IH1 _ IH2]; cbn; [done|by destruct (P x); rewrite IH| |by rewrite IH1].
  destruct (P x), (P y); try done. apply Permutation_swap.
Qed.

Lemma filter_sorted {A} (R : A -> A -> Prop) (P : A -> bool) l : StronglySorted R l -> StronglySorted R (List.filter P l).
Proof.
  induction 1 as [|x l _ IH Hx]; cbn; [constructor|]. destruct (P x); [|done]. constructor; [done|].
  apply Forall_forall. intros y Hy. apply list_elem_of_In, filter_In in Hy as [Hy _]. apply list_elem_of_In in Hy.
  rewrite Forall_forall in Hx. by apply Hx.
Qed.

Lemma in_key_order_sorted {V} (id : V -> string) (m : gmap string V) :
  (forall k v, m !! k = Some v -> id v = k) -> StronglySorted (not_after (last_key id str_lt)) (in_key_order m).
Proof.
  intros Hid. apply sorted_by_key. assert (id <$> in_key_order m = sorted_keys m) as ->.
  { unfold in_key_order. assert (forall ks : list string, (forall k, k ∈ ks -> is_Some (m !! k)) -> id <$> (omap (fun k => m !! k) ks : list V) = ks) as Hks.
    { induction ks as [|k ks IH]; intros Hk; [done|]. cbn. destruct (Hk k) as [v Hv]; [by left|]. rewrite Hv. cbn.
      rewrite (Hid _ _ Hv). f_equal. apply IH. intros k' Hk'. apply Hk. by right. }
    apply Hks. intros k Hk. unfold sorted_keys in Hk. rewrite elem_of_sort_by in Hk. by apply elem_of_keys. }
  apply sort_by_sorted, _.
Qed.

(** What is kept of a keyed table, sorted by the identifiers, is in key order. *)
Lemma sorted_by_id {V} (id : V -> string) (P : V -> bool) (m : gmap string V) l :
  (forall k v, m !! k = Some v -> id v = k) -> l ≡ₚ values m ->
  sort_by (last_key id str_lt) (List.filter P l) = List.filter P (in_key_order m).
Proof.
  intros Hid Hl. apply (StronglySorted_unique_strong (not_after (last_key id str_lt))).
  - intros x y Hx Hy Hxy Hyx. rewrite elem_of_sort_by in Hx. apply list_elem_of_In, filter_In in Hx as [Hx _], Hy as [Hy _].
    apply list_elem_of_In in Hx, Hy. rewrite Hl in Hx. rewrite in_key_order_values in Hy.
    assert (id x = id y) as He by (apply (tied_last_key id str_lt); [apply _|by split]).
    apply elem_of_values in Hx as [k Hx], Hy as [k' Hy]. rewrite (Hid _ _ Hx), (Hid _ _ Hy) in He. congruence.
  - apply sort_by_sorted, _.
  - by apply filter_sorted, in_key_order_sorted.
  - rewrite sort_by_perm. apply filter_perm. by rewrite Hl, in_key_order_values.
Qed.

Lemma filter_all {A} (l : list A) : List.filter (fun _ => true) l = l.
Proof. induction l as [|x l IH]; [done|]. cbn. by rewrite IH. Qed.

Lemma sorted_all_by_id {V} (id : V -> string) (m : gmap string V) l :
  (forall k v, m !! k = Some v -> id v = k) -> l ≡ₚ values m -> sort_by (last_key id str_lt) l = in_key_order m.
Proof. intros Hid Hl. pose proof (sorted_by_id id (fun _ => true) m l Hid Hl) as Hs. by rewrite !filter_all in Hs. Qed.

(** The order of a list that is sorted by the identifiers does not depend on the input. *)
Lemma sort_keyed_perm {V} (id : V -> string) (lt : V -> V -> bool) `{!StrictWeak lt} (m : gmap string V) l l' :
  (forall k v, m !! k = Some v -> id v = k) -> (forall x y, tied lt x y -> id x = id y) ->
  (forall x, x ∈ l -> x ∈ values m) -> l ≡ₚ l' -> sort_by lt l = sort_by lt l'.
Proof.
  intros Hid Htie Hl Hp. apply sort_by_unique; [done| |done]. intros x y Hx%Hl Hy%Hl Ht%Htie.
  apply elem_of_values in Hx as [k Hx], Hy as [k' Hy]. rewrite (Hid _ _ Hx), (Hid _ _ Hy) in Ht. congruence.
Qed.

(** A record of a represented table has the identifiers of its key. *)
Lemma represents_ok db snap k d : represents db snap -> plain k = true -> is_local k = false -> record snap k = Some d -> doc_ok k d.
Proof.
  intros R Hp Hl Hd. rewrite <- (rp_record _ _ R) in Hd by done.
  destruct (wf_records _ (rp_wf _ _ R) _ _ Hd (key_string_in_keyspace k)) as (k' & Hk%key_string_inj & Hok). by subst.
Qed.

Lemma list_table {A} (as_ : Doc -> result StoreErr A) (doc : A -> Doc) (key : string -> dbkey) (pre : list string) (m : gmap string A) (b : backend) prefix :
  db_wf (badger_db b) -> badger_viewFault b = false -> prefix = scan_prefix pre ->
  pre <> [] -> Forall (fun w => contains_char w slash = false) pre ->
  (forall p, key_parts (key p) = pre ++ [badgerEncodePart p]) -> (forall x, as_ (doc x) = Ok x) ->
  (forall k rest, key_parts k = pre ++ rest -> exists p, k = key p) ->
  (forall p, get (badger_db b) (key p) = doc <$> m !! p) ->
  exists l, listRecords as_ b prefix = Ok l /\ l ≡ₚ values m.
Proof. intros W Hv -> Hne Hpre Hkey Has Hinv Hget. unfold listRecords, View. rewrite Hv. by apply (decode_table as_ doc key). Qed.

Lemma writesPrefix_parts f : writesPrefix f = scan_prefix ["pending-write"; badgerEncodePart f].
Proof.
  unfold writesPrefix, scan_prefix. change (join "/" ["pending-write"; badgerEncodePart f]) with ("pending-write" +:+ "/" +:+ badgerEncodePart f).
  by rewrite !str_app_assoc.
Qed.

Lemma deletesPrefix_parts f : deletesPrefix f = scan_prefix ["skipped-delete"; badgerEncodePart f].
Proof.
  unfold deletesPrefix, scan_prefix. change (join "/" ["skipped-delete"; badgerEncodePart f]) with ("skipped-delete" +:+ "/" +:+ badgerEncodePart f).
  by rewrite !str_app_assoc.
Qed.

(** The keys of a table whose records have one more part than its prefix. *)
Local Ltac table_keys :=
  let k := fresh in let rest := fresh in let Hk := fresh in
  intros k rest Hk; destruct k; try discriminate Hk; cbn [key_parts app] in Hk; injection Hk as Hk; subst;
  repeat match goal with H : badgerEncodePart _ = badgerEncodePart _ |- _ => apply badgerEncodePart_inj in H; subst end; eauto.

Lemma list_writes b snap f : represents (badger_db b) snap -> badger_viewFault b = false ->
  exists l, listRecords as_write b (writesPrefix f) = Ok l /\ l ≡ₚ values (inner (StoreData.PendingWrites (snap_gate snap)) f).
Proof.
  intros R Hv. apply (list_table as_write DocWrite (KPendingWrite f) ["pending-write"; badgerEncodePart f]);
    [apply R|done|apply writesPrefix_parts|done|repeat constructor; auto with badger_keys|done|done|table_keys|].
  intros p. by apply (rp_record _ _ R (KPendingWrite f p)).
Qed.

Lemma list_deletes b snap f : represents (badger_db b) snap -> badger_viewFault b = false ->
  exists l, listRecords as_delete b (deletesPrefix f) = Ok l /\ l ≡ₚ values (inner (StoreData.SkippedDeletes (snap_gate snap)) f).
Proof.
  intros R Hv. apply (list_table as_delete DocDelete (KSkippedDelete f) ["skipped-delete"; badgerEncodePart f]);
    [apply R|done|apply deletesPrefix_parts|done|repeat constructor; auto with badger_keys|done|done|table_keys|].
  intros p. by apply (rp_record _ _ R (KSkippedDelete f p)).
Qed.

Section tables.
Context (b : backend) (s : JSONStore) (snap : snapshot).
Context (R : represents (badger_db b) snap) (Hl : load s = Ok snap) (Hv : badger_viewFault b = false).

Lemma marker_keyed id m : SnapshotMarkers (snap_jobs snap) !! id = Some m -> SnapshotMarker_ID m = id.
Proof. intros Hm. apply (represents_ok _ _ (KMarker id) (DocMarker m) R); [done..|]. cbn. by rewrite Hm. Qed.
Lemma restore_keyed id j : BackupRestoreJobs (snap_jobs snap) !! id = Some j -> BackupRestoreJob_ID j = id.
Proof. intros Hj. apply (represents_ok _ _ (KRestore id) (DocRestore j) R); [done..|]. cbn. by rewrite Hj. Qed.
Lemma retention_keyed id j : BackupRetentionJobs (snap_jobs snap) !! id = Some j -> BackupRetentionJob_ID j = id.
Proof. intros Hj. apply (represents_ok _ _ (KRetention id) (DocRetention j) R); [done..|]. cbn. by rewrite Hj. Qed.
Lemma repair_keyed id j : BackupRepairJobs (snap_jobs snap) !! id = Some j -> BackupRepairJob_ID j = id.
Proof. intros Hj. apply (represents_ok _ _ (KRepair id) (DocRepair j) R); [done..|]. cbn. by rewrite Hj. Qed.
Lemma document_keyed n d : NodeSettings (snap_settings snap) !! n = Some d -> NodeSettingsDocument_NodeID d = n.
Proof. intros Hd. apply (represents_ok _ _ (KNodeSettings n) (DocSettings d) R); [done..|]. cbn. by rewrite Hd. Qed.
Lemma change_keyed t id c : inner (PendingSettings (snap_settings snap)) t !! id = Some c ->
  PendingSettingsChange_TargetNodeID c = t /\ PendingSettingsChange_ID c = id.
Proof. intros Hc. apply (represents_ok _ _ (KPendingSettings t id) (DocChange c) R); [done..|]. cbn. by rewrite Hc. Qed.

(** Single records. *)
Lemma loads_alike id t f p :
  LoadSnapshotMarker b id = Jobs.LoadSnapshotMarker s id /\ LoadBackupRestoreJob b id = Jobs.LoadBackupRestoreJob s id /\
  LoadBackupRetentionJob b id = Jobs.LoadBackupRetentionJob s id /\ LoadBackupRepairJob b id = Jobs.LoadBackupRepairJob s id /\
  LoadNodeSettingsDocument b id = Settings.LoadNodeSettingsDocument s id /\
  LoadPendingSettingsChange b t id = Settings.LoadPendingSettingsChange s t id /\
  GetPendingWrite b f p = ApplyGate.GetPendingWrite s f p.
Proof.
  unfold Jobs.LoadSnapshotMarker, Jobs.LoadBackupRestoreJob, Jobs.LoadBackupRetentionJob, Jobs.LoadBackupRepairJob,
    Settings.LoadNodeSettingsDocument, Settings.LoadPendingSettingsChange, ApplyGate.GetPendingWrite. rewrite Hl.
  split_and!; unfold LoadSnapshotMarker, LoadBackupRestoreJob, LoadBackupRetentionJob, LoadBackupRepairJob, LoadNodeSettingsDocument,
    LoadPendingSettingsChange, GetPendingWrite, getRecord, View; rewrite Hv.
  - apply (get_doc_record as_marker DocMarker _ (KMarker id)); [done|]. by apply R.
  - apply (get_doc_record as_restore DocRestore _ (KRestore id)); [done|]. by apply R.
  - apply (get_doc_record as_retention DocRetention _ (KRetention id)); [done|]. by apply R.
  - apply (get_doc_record as_repair DocRepair _ (KRepair id)); [done|]. by apply R.
  - apply (get_doc_record as_settings DocSettings _ (KNodeSettings id)); [done|]. by apply R.
  - apply (get_doc_record as_change DocChange _ (KPendingSettings t id)); [done|]. by apply R.
  - apply (get_doc_record as_write DocWrite _ (KPendingWrite f p)); [done|]. by apply R.
Qed.

(** Tables with one identifier. *)
Local Ltac whole_table as_ doc key pre prefix :=
  let l := fresh "l" in let E := fresh "E" in let Hp := fresh "Hp" in
  destruct (list_table as_ doc key pre _ b prefix (rp_wf _ _ R) Hv eq_refl ltac:(done) ltac:(repeat constructor) ltac:(done) ltac:(done)
    ltac:(table_keys) (fun p => rp_record _ _ R (key p) eq_refl eq_refl)) as (l & E & Hp); rewrite E; cbn [fmap result_fmap]; f_equal.

Lemma lists_alike f :
  ListSnapshotMarkers b f = Jobs.ListSnapshotMarkers s f /\ ListBackupRestoreJobs b f = Jobs.ListBackupRestoreJobs s f /\
  ListBackupRetentionJobs b = Jobs.ListBackupRetentionJobs s /\ ListBackupRepairJobs b = Jobs.ListBackupRepairJobs s /\
  ListNodeSettingsDocuments b = Settings.ListNodeSettingsDocuments s.
Proof.
  unfold Jobs.ListSnapshotMarkers, Jobs.ListBackupRestoreJobs, Jobs.ListBackupRetentionJobs, Jobs.ListBackupRepairJobs,
    Settings.ListNodeSettingsDocuments. rewrite Hl.
  unfold ListSnapshotMarkers, ListBackupRestoreJobs, ListBackupRetentionJobs, ListBackupRepairJobs, ListNodeSettingsDocuments.
  split_and!.
  - whole_table as_marker DocMarker KMarker ["snapshot-marker"] (badgerKeyPrefix +:+ "snapshot-marker/").
    apply (sort_keyed_perm SnapshotMarker_ID _ (SnapshotMarkers (snap_jobs snap))).
    + apply marker_keyed.
    + intros x y Ht. apply tied_by_key in Ht as [_ Ht]; [|apply _]. by apply tied_last_key in Ht; [|apply _].
    + intros x Hx. apply list_elem_of_In, filter_In in Hx as [Hx _]. apply list_elem_of_In in Hx. by rewrite Hp in Hx.
    + by apply filter_perm.
  - whole_table as_restore DocRestore KRestore ["backup-restore-job"] (badgerKeyPrefix +:+ "backup-restore-job/").
    apply sorted_by_id; [apply restore_keyed|done].
  - whole_table as_retention DocRetention KRetention ["backup-retention-job"] (badgerKeyPrefix +:+ "backup-retention-job/").
    apply sorted_all_by_id; [apply retention_keyed|done].
  - whole_table as_repair DocRepair KRepair ["backup-repair-job"] (badgerKeyPrefix +:+ "backup-repair-job/").
    apply sorted_all_by_id; [apply repair_keyed|done].
  - whole_table as_settings DocSettings KNodeSettings ["node-settings"] (badgerKeyPrefix +:+ "node-settings/").
    apply sorted_all_by_id; [apply document_keyed|done].
Qed.

Lemma changes_alike t : t <> EmptyString -> ListPendingSettingsChanges b t = Settings.ListPendingSettingsChanges s t.
Proof.
  intros Ht. unfold ListPendingSettingsChanges, Settings.ListPendingSettingsChanges. rewrite Hl. cbn [fmap result_fmap].
  rewrite !bool_decide_eq_true_2 by done.
  destruct (list_table as_change DocChange (KPendingSettings t) ["pending-settings"; badgerEncodePart t] (inner (PendingSettings (snap_settings snap)) t)
    b (badgerKeyPrefix +:+ "pending-settings/" +:+ badgerEncodePart t +:+ "/")) as (l & -> & Hp).
  { apply R. } { done. }
  { unfold scan_prefix. change (join "/" ["pending-settings"; badgerEncodePart t]) with ("pending-settings" +:+ "/" +:+ badgerEncodePart t).
    by rewrite !str_app_assoc. }
  { done. } { repeat constructor; auto with badger_keys. } { done. } { done. } { table_keys. }
  { intros p. by apply (rp_record _ _ R (KPendingSettings t p)). }
  cbn. f_equal. rewrite <- (sorted_all_by_id PendingSettingsChange_ID _ l); [|intros k v Hk; by destruct (change_keyed _ _ _ Hk)|done].
  assert (Forall (fun c => PendingSettingsChange_TargetNodeID c = t) l) as Ht'.
  { apply Forall_forall. intros c Hc. rewrite Hp in Hc. apply elem_of_values in Hc as [k Hc]. by apply change_keyed in Hc as [Hc _]. }
  apply (StronglySorted_unique_strong (not_after pending_change_lt)).
  - intros x y Hx Hy Hxy Hyx. assert (tied pending_change_lt x y) as Htie by by split.
    apply tied_by_key in Htie as [_ Htie]; [|apply _]. apply tied_last_key in Htie; [|apply _].
    rewrite elem_of_sort_by, Hp in Hx, Hy. apply elem_of_values in Hx as [k Hx], Hy as [k' Hy].
    destruct (change_keyed _ _ _ Hx) as [_ Hk], (change_keyed _ _ _ Hy) as [_ Hk']. congruence.
  - apply sort_by_sorted, _.
  - pose proof (sort_by_sorted (last_key PendingSettingsChange_ID str_lt) l) as Hs.
    assert (Forall (fun c => PendingSettingsChange_TargetNodeID c = t) (sort_by (last_key PendingSettingsChange_ID str_lt) l)) as Hall by by rewrite sort_by_perm.
    clear -Hs Hall. induction Hs as [|x l' Hl' IH Hx]; [constructor|]. inversion_clear Hall as [|? ? Hxt Hall']. constructor; [by apply IH|].
    rewrite Forall_forall in Hx, Hall'. apply Forall_forall. intros y Hy. unfold not_after, pending_change_lt, by_key.
    rewrite decide_True by (rewrite (Hall' y Hy); congruence). by apply Hx.
  - by rewrite !sort_by_perm.
Qed.

Lemma writes_alike f : PendingWrites b f = ApplyGate.ListPendingWrites s f.
Proof.
  unfold PendingWrites, ApplyGate.ListPendingWrites. rewrite Hl. destruct (list_writes b snap f R Hv) as (l & -> & Hp). cbn. f_equal.
  apply (sort_keyed_perm PendingWrite_Path _ (inner (StoreData.PendingWrites (snap_gate snap)) f)); [apply (proj1 (rp_gate _ _ R) f)| | |done].
  - intros x y Ht. exact (tied_last_key PendingWrite_Path str_lt x y _ Ht).
  - intros x Hx. by rewrite Hp in Hx.
Qed.

Lemma deletes_alike f : SkippedDeletes b f = ApplyGate.ListSkippedDeletes s f.
Proof.
  unfold SkippedDeletes, ApplyGate.ListSkippedDeletes. rewrite Hl. destruct (list_deletes b snap f R Hv) as (l & -> & Hp). cbn. f_equal.
  apply (sort_keyed_perm SkippedDelete_Path _ (inner (StoreData.SkippedDeletes (snap_gate snap)) f)); [apply (proj2 (rp_gate _ _ R) f)| | |done].
  - intros x y Ht. exact (tied_last_key SkippedDelete_Path str_lt x y _ Ht).
  - intros x Hx. by rewrite Hp in Hx.
Qed.

Lemma pendingWriteMap_alike f : pendingWriteMap b f = Ok (inner (StoreData.PendingWrites (snap_gate snap)) f).
Proof.
  unfold pendingWriteMap. rewrite writes_alike. unfold ApplyGate.ListPendingWrites. rewrite Hl. cbn. f_equal.
  set (m := inner (StoreData.PendingWrites (snap_gate snap)) f). pose proof (proj1 (rp_gate _ _ R) f) as Hk. fold m in Hk.
  assert (forall w, w ∈ sort_by write_lt (values m) <-> exists p, m !! p = Some w) as Hin by (intros w; rewrite elem_of_sort_by; apply elem_of_values).
  assert (NoDup (PendingWrite_Path <$> sort_by write_lt (values m))) as Hn by (rewrite sort_by_perm; by apply values_NoDup_keys).
  apply map_eq. intros p. destruct (m !! p) as [w|] eqn:E.
  - rewrite <- (Hk _ _ E). apply (put_all_NoDup PendingWrite_Path id ∅ _ w Hn). apply Hin. eauto.
  - etrans; [apply (put_all_None PendingWrite_Path id)|apply lookup_empty]. intros (w & -> & [p' Hw]%Hin)%list_elem_of_fmap. rewrite (Hk _ _ Hw) in E. congruence.
Qed.

Lemma ready_alike f current : ReadySkippedDeletes b f current = ApplyGate.ReadySkippedDeletes s f current.
Proof.
  unfold ReadySkippedDeletes. rewrite deletes_alike, pendingWriteMap_alike. unfold ApplyGate.ListSkippedDeletes, ApplyGate.ReadySkippedDeletes.
  rewrite Hl. cbn. f_equal. apply (sort_keyed_perm SkippedDelete_Path _ (inner (StoreData.SkippedDeletes (snap_gate snap)) f));
    [apply (proj2 (rp_gate _ _ R) f)| | |].
  - intros x y Ht. exact (tied_last_key SkippedDelete_Path str_lt x y _ Ht).
  - intros x Hx. apply list_elem_of_In, filter_In in Hx as [Hx _]. apply list_elem_of_In in Hx. by rewrite elem_of_sort_by in Hx.
  - apply filter_perm. apply sort_by_perm.
Qed.
End tables.

(** Reads of the tables are the same from both backends: single markers, jobs,
    documents, changes and writes, and the sorted listings - although one scans
    keys in the order of their encoded texts and decodes every value, and the other
    sorts the identifiers of a map - and the same skipped deletes are released. *)
Theorem tables_read_alike b s snap id t f current :
  represents (badger_db b) snap -> load s = Ok snap -> badger_viewFault b = false -> t <> EmptyString ->
  (LoadSnapshotMarker b id = Jobs.LoadSnapshotMarker s id /\ LoadBackupRestoreJob b id = Jobs.LoadBackupRestoreJob s id /\
   LoadBackupRetentionJob b id = Jobs.LoadBackupRetentionJob s id /\ LoadBackupRepairJob b id = Jobs.LoadBackupRepairJob s id /\
   LoadNodeSettingsDocument b id = Settings.LoadNodeSettingsDocument s id /\
   LoadPendingSettingsChange b t id = Settings.LoadPendingSettingsChange s t id /\
   GetPendingWrite b f id = ApplyGate.GetPendingWrite s f id) /\
  (ListSnapshotMarkers b f = Jobs.ListSnapshotMarkers s f /\ ListBackupRestoreJobs b f = Jobs.ListBackupRestoreJobs s f /\
   ListBackupRetentionJobs b = Jobs.ListBackupRetentionJobs s /\ ListBackupRepairJobs b = Jobs.ListBackupRepairJobs s /\
   ListNodeSettingsDocuments b = Settings.ListNodeSettingsDocuments s) /\
  ListPendingSettingsChanges b t = Settings.ListPendingSettingsChanges s t /\
  PendingWrites b f = ApplyGate.ListPendingWrites s f /\ SkippedDeletes b f = ApplyGate.ListSkippedDeletes s f /\
  ReadySkippedDeletes b f current = ApplyGate.ReadySkippedDeletes s f current.
Proof.
  intros R Hl Hv Ht. split; [by apply (loads_alike b s snap)|]. split; [by apply (lists_alike b s snap)|].
  split; [by apply (changes_alike b s snap)|]. split; [by apply (writes_alike b s snap)|].
  split; [by apply (deletes_alike b s snap)|by apply (ready_alike b s snap)].
Qed.

(** An empty database has the tables of the zero snapshot. *)
Lemma represents_zero db : (forall k, get db k = None) -> db_wf db -> represents db snapshot_zero.
Proof.
  intros Hn W. split; [done| | | |].
  - intros k Hp _. rewrite Hn. destruct k; try discriminate Hp; cbn; unfold inner; rewrite ?lookup_empty; cbn; by rewrite ?lookup_empty.
  - intros s id d. rewrite Hn. cbn [recorded]. unfold archive_of. cbn. rewrite lookup_empty. cbn. split; [done|]. by intros (j & Hj%elem_of_nil & _).
  - intros s. unfold archive_of. cbn. rewrite lookup_empty. constructor.
  - split; intros f p x; cbn; unfold inner; rewrite lookup_empty; cbn; by rewrite lookup_empty.
Qed.

(** *** The crawler's interface

    A backend with a well-formed database is a store the apply gate crawler can
    work on: what is stated of the crawler against [ApplyGateLaws] holds of it. *)

Record gateBackend := mkGateBackend { gb_backend : backend; gb_wf : db_wf (badger_db gb_backend) }.

(** A deletion of a record; the backend is the same when it fails. *)
Definition gateDrop (s : gateBackend) (key : string) : gateBackend * result StoreErr unit :=
  if badger_updateFault (gb_backend s) then (s, Err ErrSave)
  else (mkGateBackend (with_db (kv_delete key (badger_db (gb_backend s))) (gb_backend s)) (delete_wf _ _ (gb_wf s)), Ok tt).

Lemma gateDrop_spec s key : (gateDrop s key).2 = (dropRecord (gb_backend s) key).2 /\
  gb_backend (gateDrop s key).1 = (dropRecord (gb_backend s) key).1.
Proof. unfold gateDrop, dropRecord, Update. by destruct (badger_updateFault (gb_backend s)). Qed.

Section crawler.
Context (sha256 : bytes -> bytes) (marshal : Manifest -> string).

#[local] Instance Badger_ApplyGateStore : ApplyGateStore gateBackend := {|
  gs_FolderSummary s f := snap ← Load (gb_backend s); folderSummary sha256 marshal (snap_local snap) f;
  gs_PendingWrites s f := PendingWrites (gb_backend s) f;
  gs_SkippedDeletes s f := SkippedDeletes (gb_backend s) f;
  gs_RemovePendingWrite s f p := gateDrop s (badgerPendingWriteKey f p);
  gs_RemoveSkippedDelete s f p := gateDrop s (badgerSkippedDeleteKey f p)
|}.

(** The gate of a folder: the tables the database reads as. *)
Definition gateOf (s : gateBackend) (f : string) : option gate :=
  match View (gb_backend s) readSnapshot with
  | Ok snap => Some (mkGate (inner (StoreData.PendingWrites (snap_gate snap)) f) (inner (StoreData.SkippedDeletes (snap_gate snap)) f))
  | Err _ => None
  end.

Lemma gateOf_records s f g : gateOf s f = Some g -> badger_viewFault (gb_backend s) = false /\
  (forall p, get (badger_db (gb_backend s)) (KPendingWrite f p) = DocWrite <$> gate_writes g !! p) /\
  (forall p, get (badger_db (gb_backend s)) (KSkippedDelete f p) = DocDelete <$> gate_deletes g !! p).
Proof.
  unfold gateOf, View. destruct (badger_viewFault (gb_backend s)); [done|].
  destruct (readSnapshot_records _ (gb_wf s)) as (snap & l & -> & _ & _ & Hrec & _). intros [= <-].
  split; [done|]. split; intros p; cbn [gate_writes gate_deletes]; symmetry; [by apply (Hrec (KPendingWrite f p))|by apply (Hrec (KSkippedDelete f p))].
Qed.

Lemma gateOf_intro s f g : badger_viewFault (gb_backend s) = false ->
  (forall p, get (badger_db (gb_backend s)) (KPendingWrite f p) = DocWrite <$> gate_writes g !! p) ->
  (forall p, get (badger_db (gb_backend s)) (KSkippedDelete f p) = DocDelete <$> gate_deletes g !! p) -> gateOf s f = Some g.
Proof.
  intros Hv Hw Hd. unfold gateOf, View. rewrite Hv. destruct (readSnapshot_records _ (gb_wf s)) as (snap & l & -> & _ & _ & Hrec & _).
  f_equal. destruct g as [w d]. cbn [gate_writes gate_deletes] in *. f_equal; apply map_eq; intros p.
  - apply (inj_doc DocWrite); [by intros ? ? [=]|]. rewrite <- Hw. by apply (Hrec (KPendingWrite f p)).
  - apply (inj_doc DocDelete); [by intros ? ? [=]|]. rewrite <- Hd. by apply (Hrec (KSkippedDelete f p)).
Qed.

Lemma gateDrop_gate s k f g g' : gateOf s f = Some g ->
  (forall p, (if decide (k = KPendingWrite f p) then None else gate_writes g !! p) = gate_writes g' !! p) ->
  (forall p, (if decide (k = KSkippedDelete f p) then None else gate_deletes g !! p) = gate_deletes g' !! p) ->
  match gateDrop s (key_string k) with
  | (s', Ok _) => gateOf s' f = Some g'
  | (s', Err _) => s' = s
  end.
Proof.
  intros (Hv & Hw & Hd)%gateOf_records Hw' Hd'. unfold gateDrop. destruct (badger_updateFault (gb_backend s)); [done|].
  apply gateOf_intro; [done|..]; intros p; cbn [gb_backend badger_db with_db fst]; rewrite get_delete.
  - rewrite <- Hw', Hw. by case_decide.
  - rewrite <- Hd', Hd. by case_decide.
Qed.

#[local] Instance Badger_ApplyGateLaws : ApplyGateLaws gateBackend.
Proof.
  refine {| gs_gate := gateOf |}.
  - intros s f g (Hv & Hw & _)%gateOf_records Hk. cbn. unfold PendingWrites.
    destruct (list_table as_write DocWrite (KPendingWrite f) ["pending-write"; badgerEncodePart f] (gate_writes g) (gb_backend s) (writesPrefix f))
      as (l & -> & Hp); [apply gb_wf|done|apply writesPrefix_parts|done|repeat constructor; auto with badger_keys|done|done|table_keys|done|].
    cbn. eexists. split; [done|]. by rewrite sort_by_perm.
  - intros s f g (Hv & _ & Hd)%gateOf_records Hk. cbn. unfold SkippedDeletes.
    destruct (list_table as_delete DocDelete (KSkippedDelete f) ["skipped-delete"; badgerEncodePart f] (gate_deletes g) (gb_backend s) (deletesPrefix f))
      as (l & -> & Hp); [apply gb_wf|done|apply deletesPrefix_parts|done|repeat constructor; auto with badger_keys|done|done|table_keys|done|].
    cbn. eexists. split; [done|]. by rewrite sort_by_perm.
  - intros s f p g f' Hg. apply (gateDrop_gate s (KPendingWrite f p) f' g); [done|..]; intros q.
    + destruct (decide (f = f')) as [<-|Hf]; cbn [gate_writes]; [rewrite lookup_delete; apply if_decide_iff; naive_solver|by rewrite decide_False by naive_solver].
    + rewrite decide_False by discriminate. by case_decide.
  - intros s f p g f' Hg. apply (gateDrop_gate s (KSkippedDelete f p) f' g); [done|..]; intros q.
    + rewrite decide_False by discriminate. by case_decide.
    + destruct (decide (f = f')) as [<-|Hf]; cbn [gate_deletes]; [rewrite lookup_delete; apply if_decide_iff; naive_solver|by rewrite decide_False by naive_solver].
Defined.
End crawler.
End proofs.
End ops.

(** *** Witnesses *)

Definition demo_tables : badgerSnapshotBackend (DB := gmap string Doc) := mkBadger ∅ false false.

Lemma demo_tables_represents : represents (badger_db demo_tables) snapshot_zero.
Proof.
  apply represents_zero.
  - intros k. apply lookup_empty.
  - split; [apply lookup_empty|]. intros key d. cbn. by rewrite lookup_empty.
Qed.

Definition demo_document : NodeSettingsDocument := mkNodeSettingsDocument "n1" 1 "t" ∅ "" "".
Definition demo_queued : PendingSettingsChange :=
  mkPendingSettingsChange "c1" "n1" "n2" "k1" 0 "" "2026-01-01T00:00:00Z" "" ∅ "" [].

Definition demo_table_calls : list (bool * tableOp) := [
  (false, TJob (JSaveMarker demo_marker)); (false, TJob (JSaveArchive "s1" [demo_archive_job "j2"; demo_archive_job "j1"]));
  (false, TGate (GSaveWrite demo_write)); (false, TGate (GCommit "docs" "new")); (true, TGate (GRemoveWrite "docs" "new"));
  (false, TGate (GCommit "docs" "other")); (false, TDocument "" demo_document); (false, TDocument "n9" demo_document);
  (false, TChange "n1" demo_queued)].

Lemma demo_table_calls_ok : Forall (fun c => table_op_ok c.2) demo_table_calls.
Proof.
  repeat (apply Forall_cons; split; [try exact I; try discriminate|]); [|constructor].
  split; [repeat constructor; discriminate|]. apply (bool_decide_unpack _). vm_compute. exact I.
Qed.

Lemma tables_simulate_witness :
  (run_badger demo_tables demo_table_calls).2 =
    [Ok tt; Ok tt; Ok tt; Ok tt; Err ErrSave; Err (ErrNotFound "docs/other"); Ok tt; Err (ErrMismatch "n9" "n1"); Ok tt] /\
  exists snap', load (run_json demo_store demo_table_calls).1 = Ok snap' /\ represents (badger_db (run_badger demo_tables demo_table_calls).1) snap'.
Proof.
  destruct (tables_simulate demo_tables demo_store snapshot_zero demo_table_calls demo_tables_represents eq_refl eq_refl demo_table_calls_ok) as [Hr Hs].
  split; [rewrite Hr; vm_compute; reflexivity|exact Hs].
Defined.

Lemma demo_run_represents : exists snap, load (run_json demo_store demo_table_calls).1 = Ok snap /\
  represents (badger_db (run_badger demo_tables demo_table_calls).1) snap.
Proof. exact (proj2 (run_simulated demo_tables demo_store snapshot_zero demo_table_calls demo_tables_represents eq_refl eq_refl demo_table_calls_ok)). Qed.

Lemma n1_named : "n1" <> EmptyString.
Proof. discriminate. Qed.

Lemma tables_read_alike_witness :
  LoadSnapshotMarker (run_badger demo_tables demo_table_calls).1 (SnapshotMarker_ID demo_marker) = Ok (Some demo_marker) /\
  ListSnapshotMarkers (run_badger demo_tables demo_table_calls).1 "" = Ok [demo_marker] /\
  LoadPendingSettingsChange (run_badger demo_tables demo_table_calls).1 "n1" "c1" =
    Settings.LoadPendingSettingsChange (run_json demo_store demo_table_calls).1 "n1" "c1" /\
  PendingWrites (run_badger demo_tables demo_table_calls).1 "docs" = Ok [set_Committed true demo_write].
Proof.
  destruct demo_run_represents as (snap & Hl & R).
  destruct (tables_read_alike _ _ snap (SnapshotMarker_ID demo_marker) "n1" "" FolderSummary_zero R Hl eq_refl n1_named) as ((Hm & _) & (Hs & _) & _).
  destruct (tables_read_alike _ _ snap "c1" "n1" "docs" FolderSummary_zero R Hl eq_refl n1_named) as ((_ & _ & _ & _ & _ & Hc & _) & _ & _ & Hw & _).
  split; [rewrite Hm; vm_compute; reflexivity|]. split; [rewrite Hs; vm_compute; reflexivity|]. split; [exact Hc|].
  rewrite Hw. vm_compute. reflexivity.
Defined.

(** Archive jobs without an identifier, or with the same one twice: the JSON backend
    keeps them all, the Badger backend refuses the first and keeps one of the others. *)
Example archive_ids_differ :
  let job id := mkArchiveIntakeJob id "s1" "docs" "a" (mkBlock 0 0 1 [Byte.x61]) "pending" "t0" 0 "" "" "" "" in
  let badger jobs := let '(b, res) := SaveArchiveIntakeJobs demo_tables "s1" jobs in (is_ok res, (fun snap => length (archive_of snap "s1")) <$> Load b) in
  let json jobs := let '(s, res) := Jobs.SaveArchiveIntakeJobs demo_store "s1" jobs in (is_ok res, (fun snap => length (archive_of snap "s1")) <$> load s) in
  badger [job EmptyString] = (false, Ok 0%nat) /\ json [job EmptyString] = (true, Ok 1%nat) /\
  badger [job "j"; job "j"] = (true, Ok 1%nat) /\ json [job "j"; job "j"] = (true, Ok 2%nat).
Proof. vm_compute. split_and!; reflexivity. Qed.

(** A change queued under the empty node is accepted, but its record is filed under
    another key than its target: the whole store cannot be read any more. *)
Example misfiled_change :
  (QueueSettingsChange demo_tables "" demo_queued).2 = Ok tt /\
  Load (QueueSettingsChange demo_tables "" demo_queued).1 = Err (ErrMismatch "/c1" "n1/c1").
Proof. vm_compute. split; reflexivity. Qed.
End badger.
