(* ===== verification/BadgerPeer.v ===== *)
(** * The Badger backend: replicas of peers and compaction

    Models the operations of [internal/state/badger_store.go] on what a node holds
    of its peers' folders, and the compaction of a folder.  Applying a batch of
    changes verifies it on the loaded snapshot and then repeats it on the records
    ([writeChange]).  The two differ for a rename onto a deleted path: the records
    lose the tombstone the verification counts, so that later batches are refused
    ([renamed_onto_deleted]).  Without such renames the backend is
    interchangeable with the JSON one ([peers_simulate]), and a node that asks another
    for what changed catches up, database to database ([badger_replication]).
    Compaction drops exactly the acknowledged tombstones, but keeps one record of
    itself ([compaction_exact]). *)

From S2P Require Import Prelude GoStd GoBase64 Paths Block StoreData Store Replication ApplyGate Jobs Settings BadgerKeys BadgerStore BadgerFolder BadgerTables.
From Stdlib Require Import Ascii.

Local Open Scope Z_scope.

(** ** Verifying a batch *)

Section verify.
Context (sha256 : bytes -> bytes) (marshal : Manifest -> string).

(** The part of [ApplyPeerFolderChanges] before the transaction: [None] when the batch
    was applied before, and else the verified replica, its summary and the checkpoint. *)
Definition verifyChanges (peerID : string) (changes : FolderChanges) (p : peerMeta)
    : result StoreErr (option (replica * FolderSummary * PeerApplyCheckpoint)) :=
  let folderID := FolderChanges_FolderID changes in
  let from := FolderChanges_FromCursor changes in
  let to := FolderChanges_ToCursor changes in
  let current := peerCursor p peerID folderID in
  if bool_decide (current <> from) then
    let summary := peerState p peerID folderID in
    if bool_decide (current = to) && bool_decide (FolderSummary_Cursor summary = to)
       && bool_decide (FolderSummary_StateHash summary = FolderChanges_StateHash changes)
    then Ok None
    else Err (ErrCursorMismatch current from)
  else
    r ← applyChanges from to (replica_of p peerID folderID) (FolderChanges_Changes changes);
    summary ← peerFolderSummary sha256 marshal folderID r to;
    if bool_decide (FolderSummary_StateHash summary <> FolderChanges_StateHash changes)
    then Err ErrHashMismatch
    else
      let checkpoint := mkPeerApplyCheckpoint folderID from to
        (Z.of_nat (length (FolderChanges_Changes changes)))
        (FolderSummary_Cursor summary) (FolderSummary_StateHash summary) in
      Ok (Some (r, summary, checkpoint)).
End verify.

(** The cursor a peer acknowledged, as a database records it. *)
Definition acknowledged (d : option Doc) : Z :=
  match d with Some (DocSummary summary) => FolderSummary_Cursor summary | _ => 0 end.

Module badger.
Section ops.
Context {DB : Type} `{KVStore DB}.

Local Abbreviation backend := (badgerSnapshotBackend (DB := DB)).

(** ** Operations on replicas *)

Definition SavePeerFolderState (b : backend) (peerID : string) (summary : FolderSummary) : backend * result StoreErr unit :=
  checkedB b (_ ← require "peer id" peerID; require "folder id" (FolderSummary_FolderID summary))
    (Update b (fun db =>
       let db := badgerSetJSON (badgerPeerStateKey peerID (FolderSummary_FolderID summary)) (DocSummary summary) db in
       Ok (badgerSetJSON (badgerPeerCursorKey peerID (FolderSummary_FolderID summary)) (DocUint (FolderSummary_Cursor summary)) db))).

Definition LoadPeerManifest (b : backend) (peerID folderID rel : string) : result StoreErr (option Manifest) :=
  View b (get_doc as_manifest (badgerPeerManifestKey peerID folderID rel)).

Definition GetPeerApplyCheckpoint (b : backend) (peerID folderID : string) : result StoreErr (option PeerApplyCheckpoint) :=
  View b (get_doc as_checkpoint (badgerPeerApplyCheckpointKey peerID folderID)).

Definition badgerDeletePeerPathRecords (peerID folderID rel : string) (db : DB) : DB :=
  let db := kv_delete (badgerPeerManifestKey peerID folderID rel) db in
  let db := kv_delete (badgerPeerRevisionKey peerID folderID rel) db in
  let db := kv_delete (badgerPeerTombstoneKey peerID folderID rel) db in
  kv_delete (badgerPeerRenameHintKey peerID folderID rel) db.

Definition setLive (peerID folderID : string) (change : FolderChange) (db : DB) : DB :=
  let db := badgerSetJSON (badgerPeerManifestKey peerID folderID (FolderChange_Path change))
              (DocManifest (default Manifest_zero (FolderChange_Manifest change))) db in
  badgerSetJSON (badgerPeerRevisionKey peerID folderID (FolderChange_Path change)) (DocUint (FolderChange_Revision change)) db.

(** A verified change in the transaction: its kind is known, and a change with a file
    has its manifest. *)
Definition writeChange (peerID folderID : string) (db : DB) (change : FolderChange) : DB :=
  let rev := FolderChange_Revision change in
  let path := FolderChange_Path change in
  let from := FolderChange_FromPath change in
  if bool_decide (FolderChange_Kind change = ChangeUpsert) then
    setLive peerID folderID change (badgerDeletePeerPathRecords peerID folderID path db)
  else if bool_decide (FolderChange_Kind change = ChangeDelete) then
    badgerSetJSON (badgerPeerTombstoneKey peerID folderID path) (DocUint rev) (badgerDeletePeerPathRecords peerID folderID path db)
  else if bool_decide (FolderChange_Kind change = ChangeMove) then
    let db := badgerDeletePeerPathRecords peerID folderID path (badgerDeletePeerPathRecords peerID folderID from db) in
    let db := badgerSetJSON (badgerPeerTombstoneKey peerID folderID from) (DocUint rev) db in
    let db := setLive peerID folderID change db in
    badgerSetJSON (badgerPeerRenameHintKey peerID folderID from) (DocHint (mkRenameHint from path rev)) db
  else db.

(** The cursor, the state and the checkpoint of a replica. *)
Definition setReplicaState (peerID folderID : string) (cur : Z) (summary : FolderSummary) (checkpoint : PeerApplyCheckpoint) (db : DB) : DB :=
  let db := badgerSetJSON (badgerPeerCursorKey peerID folderID) (DocUint cur) db in
  let db := badgerSetJSON (badgerPeerStateKey peerID folderID) (DocSummary summary) db in
  badgerSetJSON (badgerPeerApplyCheckpointKey peerID folderID) (DocCheckpoint checkpoint) db.

Definition writeChanges (peerID : string) (changes : FolderChanges) (summary : FolderSummary) (checkpoint : PeerApplyCheckpoint) (db : DB) : DB :=
  setReplicaState peerID (FolderChanges_FolderID changes) (FolderChanges_ToCursor changes) summary checkpoint
    (foldl (writeChange peerID (FolderChanges_FolderID changes)) db (FolderChanges_Changes changes)).

Definition ApplyPeerFolderChanges (sha256 : bytes -> bytes) (marshal : Manifest -> string) (b : backend) (peerID : string)
    (changes : FolderChanges) : backend * result StoreErr unit :=
  checkedB b (_ ← require "peer id" peerID; require "folder id" (FolderChanges_FolderID changes))
    (match snap ← Load b; verifyChanges sha256 marshal peerID changes (snap_peer snap) with
     | Err e => (b, Err e)
     | Ok None => (b, Ok tt)
     | Ok (Some (_, summary, checkpoint)) => Update b (fun db => Ok (writeChanges peerID changes summary checkpoint db))
     end).

(** [JSONStore.ChangesSince] on this backend. *)
Definition ChangesSince (sha256 : bytes -> bytes) (marshal : Manifest -> string) (b : backend) (folderID : string) (cursor : Z)
    : result StoreErr FolderChanges :=
  snap ← Load b; changesOf sha256 marshal snap folderID cursor 0.

Definition peerPrefix (kind peerID folderID : string) : string :=
  badgerKeyPrefix +:+ kind +:+ "/" +:+ badgerEncodePart peerID +:+ "/" +:+ badgerEncodePart folderID +:+ "/".

Definition badgerDeletePeerFolderRecords (peerID folderID : string) (db : DB) : DB :=
  let db := foldl (fun db kind => badgerDeletePrefix (peerPrefix kind peerID folderID) db) db
              ["peer-manifest"; "peer-revision"; "peer-tombstone"; "peer-rename"] in
  let db := kv_delete (badgerPeerStateKey peerID folderID) db in
  let db := kv_delete (badgerPeerCursorKey peerID folderID) db in
  kv_delete (badgerPeerApplyCheckpointKey peerID folderID) db.

(** One file of a full refresh, whose revision may be missing. *)
Definition refreshFile (peerID folderID : string) (cur : Z) (revisions : gmap string Z) (db : DB) (e : string * Manifest) : DB :=
  let rev := if num revisions e.1 =? 0 then cur else num revisions e.1 in
  badgerSetJSON (badgerPeerRevisionKey peerID folderID e.1) (DocUint rev)
    (badgerSetJSON (badgerPeerManifestKey peerID folderID e.1) (DocManifest e.2) db).

Definition ReplacePeerFolderFromFullRefresh (b : backend) (peerID folderID : string) (summary0 : FolderSummary)
    (manifests : gmap string Manifest) (revisions : gmap string Z) : backend * result StoreErr unit :=
  let summary :=
    if bool_decide (FolderSummary_FolderID summary0 = EmptyString)
    then mkFolderSummary folderID (FolderSummary_Cursor summary0) (FolderSummary_Files summary0)
           (FolderSummary_Tombstones summary0) (FolderSummary_StateHash summary0)
    else summary0 in
  checkedB b (_ ← require "peer id" peerID; _ ← require "folder id" folderID;
              fail_if (bool_decide (FolderSummary_FolderID summary <> folderID))
                (ErrMismatch folderID (FolderSummary_FolderID summary)))
    (let cur := FolderSummary_Cursor summary in
     let checkpoint := mkPeerApplyCheckpoint folderID 0 cur (Z.of_nat (size manifests)) cur (FolderSummary_StateHash summary) in
     Update b (fun db =>
       Ok (setReplicaState peerID folderID cur summary checkpoint
             (foldl (refreshFile peerID folderID cur revisions) (badgerDeletePeerFolderRecords peerID folderID db) (map_to_list manifests))))).

(** ** Compaction *)

(** [strconv.Atoi] *)
Definition atoi_digits (s : string) : option Z := if bool_decide (s = EmptyString) then None else parse_digits 0 s.
Definition Atoi (s : string) : option Z :=
  n ← match s with
      | String "-" s' => Z.opp <$> atoi_digits s'
      | String "+" s' => atoi_digits s'
      | _ => atoi_digits s
      end;
  if (- 2 ^ 63 <=? n) && (n <? 2 ^ 63) then Some n else None.

(** The loop over the keys of a folder's compaction snapshots, as it is written: it
    reads the fourth part of a key of four parts, but with the prefix a key has five. *)
Fixpoint maxSnapshotIndex (keys : list string) (maxIndex : Z) : result StoreErr Z :=
  match keys with
  | [] => Ok maxIndex
  | key :: keys' =>
      match split_on slash key with
      | [_; _; _; part] =>
          index ← valid_key key (Atoi part);
          maxSnapshotIndex keys' (if maxIndex <? index then index else maxIndex)
      | _ => maxSnapshotIndex keys' maxIndex
      end
  end.

Definition compactionPrefix (folderID : string) : string :=
  badgerKeyPrefix +:+ "compaction-snapshot/" +:+ badgerEncodePart folderID +:+ "/".

Definition badgerNextCompactionSnapshotIndex (folderID : string) (db : DB) : result StoreErr Z :=
  (fun maxIndex => maxIndex + 1) <$> maxSnapshotIndex (scan (compactionPrefix folderID) db).*1 (-1).

Definition CompactFolderMetadata (sha256 : bytes -> bytes) (marshal : Manifest -> string) (b : backend) (folderID : string)
    (policy : MetadataCompactionPolicy) : backend * result StoreErr (MetadataCompactionPlan * MetadataCompactionSnapshot) :=
  match
    snap ← Load b;
    let plan := metadataCompactionPlan snap folderID policy in
    before ← folderSummary sha256 marshal (snap_local snap) folderID;
    let safe := MetadataCompactionPlan_SafeCursor plan in
    let paths := sort_by str_lt
      ((List.filter (fun tomb => tomb.2 <=? safe) (map_to_list (inner (Tombstones (snap_local snap)) folderID))).*1) in
    Ok (plan, paths, mkCompactionSnapshot folderID (FolderSummary_Cursor before) (FolderSummary_StateHash before)
          (FolderSummary_Files before) (FolderSummary_Tombstones before) safe (Z.of_nat (length paths)))
  with
  | Err e => (b, Err e)
  | Ok (plan, [], record) => (b, Ok (plan, record))
  | Ok (plan, paths, record) =>
      match Update b (fun db =>
        let db := foldl (fun db rel => kv_delete (badgerTombstoneKey folderID rel) db) db paths in
        index ← badgerNextCompactionSnapshotIndex folderID db;
        Ok (badgerSetJSON (badgerCompactionSnapshotKey folderID index) (DocCompaction record) db)) with
      | (b', Ok _) => (b', Ok (plan, record))
      | (b', Err e) => (b', Err e)
      end
  end.

Definition MetadataCompactionSnapshots (b : backend) (folderID : string) : result StoreErr (list MetadataCompactionSnapshot) :=
  sort_by compaction_lt <$> View b (fun db => decode_all as_compaction (scan (compactionPrefix folderID) db)).


(** ** The tables of peers *)

(** The records of replicas that are read: rename hints are only written. *)
Definition is_peer (k : dbkey) : bool :=
  match k with
  | KPeerState _ _ | KPeerManifest _ _ _ | KPeerRevision _ _ _ | KPeerTombstone _ _ _ | KPeerCursor _ _ | KPeerCheckpoint _ _ => true
  | _ => false
  end.

(** The database holds the replicas of a snapshot. *)
Record holds_peers (db : DB) (snap : snapshot) : Prop := {
  hp_wf : db_wf db;
  hp_record k : is_peer k = true -> get db k = record snap k
}.

(** The records of one replica. *)
Record stored_replica (db : DB) (q f : string) (r : replica) : Prop := {
  sr_file x : get db (KPeerManifest q f x) = DocManifest <$> rep_files r !! x;
  sr_rev x : get db (KPeerRevision q f x) = DocUint <$> rep_revs r !! x;
  sr_tomb x : get db (KPeerTombstone q f x) = DocUint <$> rep_tombs r !! x
}.

(** The records of a replica's paths. *)
Definition is_path (q f : string) (k : dbkey) : bool :=
  match k with
  | KPeerManifest q' f' _ | KPeerRevision q' f' _ | KPeerTombstone q' f' _ | KPeerRename q' f' _ => bool_decide (q' = q /\ f' = f)
  | _ => false
  end.

(** What the transaction makes of a replica: like [apply_total], but a rename removes
    the tombstone of its destination. *)
Definition apply_record (r : replica) (change : FolderChange) : replica :=
  let r' := apply_total r change in
  if bool_decide (FolderChange_Kind change = ChangeMove) then
    mkReplica (rep_files r') (rep_revs r')
      (<[FolderChange_FromPath change := FolderChange_Revision change]> (delete (FolderChange_Path change) (rep_tombs r))) (rep_hints r')
  else r'.

(** ** Properties *)

Section proofs.
Context `{!KVLaws DB}.

Local Ltac as_records :=
  unfold badgerSetJSON in *;
  repeat match goal with
  | |- context [badgerPeerManifestKey ?q ?f ?p] => change (badgerPeerManifestKey q f p) with (key_string (KPeerManifest q f p))
  | |- context [badgerPeerRevisionKey ?q ?f ?p] => change (badgerPeerRevisionKey q f p) with (key_string (KPeerRevision q f p))
  | |- context [badgerPeerTombstoneKey ?q ?f ?p] => change (badgerPeerTombstoneKey q f p) with (key_string (KPeerTombstone q f p))
  | |- context [badgerPeerRenameHintKey ?q ?f ?p] => change (badgerPeerRenameHintKey q f p) with (key_string (KPeerRename q f p))
  | |- context [badgerPeerStateKey ?q ?f] => change (badgerPeerStateKey q f) with (key_string (KPeerState q f))
  | |- context [badgerPeerCursorKey ?q ?f] => change (badgerPeerCursorKey q f) with (key_string (KPeerCursor q f))
  | |- context [badgerPeerApplyCheckpointKey ?q ?f] => change (badgerPeerApplyCheckpointKey q f) with (key_string (KPeerCheckpoint q f))
  end.

(** *** A change *)

Lemma deletePath_get q f rel (db : DB) k :
  get (badgerDeletePeerPathRecords q f rel db) k =
  if is_path q f k && match k with KPeerManifest _ _ x | KPeerRevision _ _ x | KPeerTombstone _ _ x | KPeerRename _ _ x => bool_decide (x = rel) | _ => false end
  then None else get db k.
Proof.
  unfold badgerDeletePeerPathRecords. as_records. rewrite !get_delete.
  destruct k; cbn [is_path andb]; repeat case_decide; repeat case_bool_decide; cbn [andb]; naive_solver.
Qed.

Lemma deletePath_wf q f rel (db : DB) : db_wf db -> db_wf (badgerDeletePeerPathRecords q f rel db).
Proof. intros W. unfold badgerDeletePeerPathRecords. by repeat apply delete_wf. Qed.

Lemma writeChange_wf q f (db : DB) change : db_wf db -> db_wf (writeChange q f db change).
Proof.
  intros W. unfold writeChange, setLive. as_records.
  repeat case_bool_decide; repeat (apply set_wf; [|done]); try done; repeat apply deletePath_wf; done.
Qed.

Lemma writeChange_other q f (db : DB) change k : is_path q f k = false -> get (writeChange q f db change) k = get db k.
Proof.
  intros Hk. unfold writeChange, setLive. as_records.
  repeat case_bool_decide; try done; rewrite ?get_set, ?deletePath_get, Hk; cbn [andb];
    repeat (rewrite decide_False; [|intros <-; cbn in Hk; by rewrite bool_decide_eq_true_2 in Hk]); done.
Qed.

Lemma deletePath_own q f rel (db : DB) x :
  get (badgerDeletePeerPathRecords q f rel db) (KPeerManifest q f x) = (if decide (x = rel) then None else get db (KPeerManifest q f x)) /\
  get (badgerDeletePeerPathRecords q f rel db) (KPeerRevision q f x) = (if decide (x = rel) then None else get db (KPeerRevision q f x)) /\
  get (badgerDeletePeerPathRecords q f rel db) (KPeerTombstone q f x) = (if decide (x = rel) then None else get db (KPeerTombstone q f x)).
Proof.
  rewrite !deletePath_get. cbn [is_path]. rewrite bool_decide_eq_true_2 by done. cbn [andb]. by repeat case_bool_decide; case_decide.
Qed.

(** The decisions about the paths of a change. *)
Local Ltac path_cases :=
  repeat match goal with
  | |- context [decide (?k1 = ?k2)] =>
      first [rewrite (decide_False (P := k1 = k2)) by discriminate | let E := fresh in destruct (decide (k1 = k2)) as [E|E]; [try injection E as E; try subst|]]
  end; try done; try congruence.

Lemma writeChange_stored q f (db : DB) r change from to : stored_replica db q f r -> valid_change from to change ->
  stored_replica (writeChange q f db change) q f (apply_record r change).
Proof.
  intros [Hf Hr Ht] [_ Hk]. destruct change as [kind fp path rev m]. cbn in Hk. unfold writeChange, setLive, apply_record, apply_total.
  cbn [FolderChange_Kind FolderChange_Path FolderChange_FromPath FolderChange_Revision FolderChange_Manifest]. as_records.
  destruct Hk as [[-> _]|[->|(-> & Hne & _)]].
  - change (bool_decide (ChangeUpsert = ChangeUpsert)) with true. change (bool_decide (ChangeUpsert = ChangeMove)) with false. cbn iota.
    split; intros x; destruct (deletePath_own q f path db x) as (H1 & H2 & H3); rewrite ?get_set, ?H1, ?H2, ?H3, ?Hf, ?Hr, ?Ht;
      cbn [rep_files rep_revs rep_tombs]; rewrite ?lookup_insert, ?lookup_delete; path_cases.
  - change (bool_decide (ChangeDelete = ChangeUpsert)) with false. change (bool_decide (ChangeDelete = ChangeDelete)) with true.
    change (bool_decide (ChangeDelete = ChangeMove)) with false. cbn iota.
    split; intros x; destruct (deletePath_own q f path db x) as (H1 & H2 & H3); rewrite ?get_set, ?H1, ?H2, ?H3, ?Hf, ?Hr, ?Ht;
      cbn [rep_files rep_revs rep_tombs]; rewrite ?lookup_insert, ?lookup_delete; path_cases.
  - change (bool_decide (ChangeMove = ChangeUpsert)) with false. change (bool_decide (ChangeMove = ChangeDelete)) with false.
    change (bool_decide (ChangeMove = ChangeMove)) with true. cbn iota.
    split; intros x; destruct (deletePath_own q f fp db x) as (H1 & H2 & H3);
      destruct (deletePath_own q f path (badgerDeletePeerPathRecords q f fp db) x) as (H1' & H2' & H3');
      rewrite ?get_set, ?H1', ?H2', ?H3', ?H1, ?H2, ?H3, ?Hf, ?Hr, ?Ht;
      cbn [rep_files rep_revs rep_tombs]; rewrite ?lookup_insert, ?lookup_delete; path_cases.
Qed.

(** *** A batch *)

Lemma writeAll_wf q f changes (db : DB) : db_wf db -> db_wf (foldl (writeChange q f) db changes).
Proof. revert db. induction changes as [|c l IH]; intros db W; [done|]. by apply IH, writeChange_wf. Qed.

Lemma writeAll_other q f changes (db : DB) k : is_path q f k = false -> get (foldl (writeChange q f) db changes) k = get db k.
Proof. intros Hk. revert db. induction changes as [|c l IH]; intros db; [done|]. cbn. rewrite IH. by apply writeChange_other. Qed.

Lemma writeAll_stored q f from to changes (db : DB) r : Forall (valid_change from to) changes -> stored_replica db q f r ->
  stored_replica (foldl (writeChange q f) db changes) q f (foldl apply_record r changes).
Proof.
  intros Hv. revert db r. induction Hv as [|c l Hc _ IH]; intros db r Hr; [done|]. cbn. apply IH. by eapply writeChange_stored.
Qed.

(** Files and revisions are the verified ones, and so are the tombstones, except that
    a renamed path loses its own. *)
Lemma apply_record_live r1 r2 change : rep_files r1 = rep_files r2 -> rep_revs r1 = rep_revs r2 ->
  rep_files (apply_record r1 change) = rep_files (apply_total r2 change) /\ rep_revs (apply_record r1 change) = rep_revs (apply_total r2 change).
Proof. intros Hf Hr. unfold apply_record, apply_total. rewrite Hf, Hr. by repeat case_bool_decide. Qed.

Definition moved_to (x : string) (change : FolderChange) : Prop :=
  FolderChange_Kind change = ChangeMove /\ FolderChange_Path change = x.

Lemma apply_record_tomb r change x :
  rep_tombs (apply_record r change) !! x = default (rep_tombs r !! x) (tomb_write x change) \/
  rep_tombs (apply_record r change) !! x = None /\ moved_to x change.
Proof.
  unfold apply_record. case_bool_decide as Hk; [|left; apply tomb_write_step]. cbn [rep_tombs]. unfold tomb_write, moved_to. rewrite Hk.
  rewrite (bool_decide_eq_false_2 (ChangeMove = ChangeUpsert)), (bool_decide_eq_false_2 (ChangeMove = ChangeDelete)) by done.
  rewrite lookup_insert, lookup_delete. case_decide as Hf; case_bool_decide as Hf'; try done; [by left|].
  case_decide; [by right|by left].
Qed.

Lemma apply_records_exact r changes :
  rep_files (foldl apply_record r changes) = rep_files (foldl apply_total r changes) /\
  rep_revs (foldl apply_record r changes) = rep_revs (foldl apply_total r changes) /\
  forall x, rep_tombs (foldl apply_record r changes) !! x = rep_tombs (foldl apply_total r changes) !! x \/
    rep_tombs (foldl apply_record r changes) !! x = None /\ Exists (moved_to x) changes.
Proof.
  induction changes as [|c l IH] using rev_ind; [auto|]. rewrite !foldl_snoc. destruct IH as (Hf & Hr & Ht).
  destruct (apply_record_live _ _ c Hf Hr) as [Hf' Hr']. split; [done|]. split; [done|]. intros x.
  rewrite Exists_app, Exists_cons, Exists_nil, tomb_write_step.
  destruct (apply_record_tomb (foldl apply_record r l) c x) as [->|[-> Hm]]; [|right; auto].
  destruct (tomb_write x c); [by left|]. cbn. destruct (Ht x) as [->|[-> Hm]]; [by left|right; auto].
Qed.

(** *** Two views of the same replicas *)

Record alike (p p' : peerMeta) (q f : string) : Prop := {
  al_files : rep_files (replica_of p q f) = rep_files (replica_of p' q f);
  al_revs : rep_revs (replica_of p q f) = rep_revs (replica_of p' q f);
  al_tombs : rep_tombs (replica_of p q f) = rep_tombs (replica_of p' q f);
  al_cursor : peerCursor p q f = peerCursor p' q f;
  al_state : peerState p q f = peerState p' q f
}.

Definition same_replica (r r' : replica) : Prop :=
  rep_files r = rep_files r' /\ rep_revs r = rep_revs r' /\ rep_tombs r = rep_tombs r'.

Lemma applyChanges_alike from to changes r r' : same_replica r r' ->
  match applyChanges from to r changes, applyChanges from to r' changes with
  | Ok x, Ok x' => same_replica x x'
  | Err e, Err e' => e = e'
  | _, _ => False
  end.
Proof.
  revert r r'. induction changes as [|c l IH]; intros r r' Hr; [exact Hr|]. cbn [applyChanges].
  assert (match applyChange from to r c, applyChange from to r' c with
    Ok x, Ok x' => same_replica x x' | Err e, Err e' => e = e' | _, _ => False end) as Hc.
  { destruct Hr as (Hf & Hv & Ht). unfold applyChange, same_replica. rewrite Hf, Hv, Ht.
    destruct (_ || _); [done|]. repeat case_bool_decide; destruct (FolderChange_Manifest c); done. }
  destruct (applyChange from to r c), (applyChange from to r' c); try done. by apply IH.
Qed.

(** The changes of an accepted batch are valid. *)
Lemma applyChange_Ok from to r c r' : applyChange from to r c = Ok r' -> valid_change from to c.
Proof.
  unfold applyChange, valid_change. destruct (_ || _) eqn:E; [done|]. apply orb_false_iff in E as [H1%Z.leb_gt H2%Z.ltb_ge].
  repeat case_bool_decide; destruct (FolderChange_Manifest c) eqn:Em; intros Hok; try done; (split; [lia|]); rewrite ?Em; eauto 10.
Qed.

Lemma applyChanges_Ok from to changes r r' : applyChanges from to r changes = Ok r' -> Forall (valid_change from to) changes.
Proof.
  revert r. induction changes as [|c l IH]; intros r Ha; [constructor|]. cbn in Ha.
  destruct (applyChange from to r c) as [r1|] eqn:E; [|done]. constructor; [by eapply applyChange_Ok|by eapply IH].
Qed.

Section hashed.
Context (sha256 : bytes -> bytes) (marshal : Manifest -> string).

(** The JSON backend stores what was verified. *)
Lemma applyPeerChanges_verify q changes snap :
  applyPeerChanges sha256 marshal q changes snap =
  match verifyChanges sha256 marshal q changes (snap_peer snap) with
  | Err e => Err e
  | Ok None => Ok None
  | Ok (Some (r, summary, checkpoint)) =>
      Ok (Some (with_peer (with_replica q (FolderChanges_FolderID changes) r (FolderChanges_ToCursor changes) summary checkpoint
                             (snap_peer snap)) snap))
  end.
Proof.
  unfold applyPeerChanges, verifyChanges. case_bool_decide; [by destruct (_ && _)|].
  destruct (applyChanges _ _ _ _) as [r|]; [|done]. cbn [mbind result_bind].
  destruct (peerFolderSummary _ _ _ _ _) as [summary|]; [|done]. cbn [mbind result_bind]. by case_bool_decide.
Qed.

Lemma verify_alike p p' q changes : alike p p' q (FolderChanges_FolderID changes) ->
  match verifyChanges sha256 marshal q changes p, verifyChanges sha256 marshal q changes p' with
  | Ok (Some (r, s, c)), Ok (Some (r', s', c')) => same_replica r r' /\ s = s' /\ c = c'
  | Ok None, Ok None => True
  | Err e, Err e' => e = e'
  | _, _ => False
  end.
Proof.
  intros [Hf Hr Ht Hc Hs]. unfold verifyChanges. rewrite Hc, Hs. case_bool_decide; [by destruct (_ && _)|].
  pose proof (applyChanges_alike (FolderChanges_FromCursor changes) (FolderChanges_ToCursor changes) (FolderChanges_Changes changes) _ _
    (conj Hf (conj Hr Ht))) as Ha.
  destruct (applyChanges _ _ (replica_of p _ _) _) as [r|], (applyChanges _ _ (replica_of p' _ _) _) as [r'|]; try done.
  cbn [mbind result_bind]. unfold peerFolderSummary. destruct Ha as (H1 & H2 & H3). rewrite H1, H2, H3.
  destruct (folderSummary _ _ _ _); [|done]. cbn [mbind result_bind]. case_bool_decide; [done|]. done.
Qed.

(** What a verified batch is. *)
Lemma verifyChanges_Some q changes p r summary checkpoint :
  verifyChanges sha256 marshal q changes p = Ok (Some (r, summary, checkpoint)) ->
  applyChanges (FolderChanges_FromCursor changes) (FolderChanges_ToCursor changes)
    (replica_of p q (FolderChanges_FolderID changes)) (FolderChanges_Changes changes) = Ok r /\
  Forall (valid_change (FolderChanges_FromCursor changes) (FolderChanges_ToCursor changes)) (FolderChanges_Changes changes) /\
  r = foldl apply_total (replica_of p q (FolderChanges_FolderID changes)) (FolderChanges_Changes changes).
Proof.
  unfold verifyChanges. case_bool_decide; [by destruct (_ && _)|].
  destruct (applyChanges _ _ _ _) as [r1|] eqn:E; [|done]. cbn [mbind result_bind].
  destruct (peerFolderSummary _ _ _ _ _); [|done]. cbn [mbind result_bind]. case_bool_decide; [done|]. intros [= <- <- <-].
  pose proof (applyChanges_Ok _ _ _ _ _ E) as Hv. split; [done|]. split; [done|].
  rewrite applyChanges_valid in E by done. by injection E.
Qed.
End hashed.

(** *** Databases and snapshots *)

Lemma get_num (o : option Z) (o' : option Z) : DocUint <$> o = DocUint <$> o' -> default 0 o = default 0 o'.
Proof. destruct o, o'; cbn; congruence. Qed.

Lemma record_alike snap snap' q f : (forall k, is_peer k = true -> record snap k = record snap' k) -> alike (snap_peer snap) (snap_peer snap') q f.
Proof.
  intros Hk. split.
  - apply map_eq. intros x. apply (BadgerTables.badger.inj_doc DocManifest); [by intros ? ? [=]|]. exact (Hk (KPeerManifest q f x) eq_refl).
  - apply map_eq. intros x. apply (BadgerTables.badger.inj_doc DocUint); [by intros ? ? [=]|]. exact (Hk (KPeerRevision q f x) eq_refl).
  - apply map_eq. intros x. apply (BadgerTables.badger.inj_doc DocUint); [by intros ? ? [=]|]. exact (Hk (KPeerTombstone q f x) eq_refl).
  - exact (get_num _ _ (Hk (KPeerCursor q f) eq_refl)).
  - unfold peerState. f_equal. apply (BadgerTables.badger.inj_doc DocSummary); [by intros ? ? [=]|]. exact (Hk (KPeerState q f) eq_refl).
Qed.

Lemma Load_peers b : db_wf (badger_db b) -> badger_viewFault b = false ->
  exists snap, Load b = Ok snap /\ forall k, is_peer k = true -> record snap k = get (badger_db b) k.
Proof.
  intros W Hv. destruct (readSnapshot_records _ W) as (snap & l & E & _ & _ & Hrec & _).
  exists (normalizeLoadedSnapshot snap). unfold Load, View. rewrite Hv, E. split; [done|].
  intros k Hk. rewrite <- Hrec by (by destruct k). by destruct k.
Qed.

Lemma holds_normalized db snap : holds_peers db snap -> holds_peers db (normalizeLoadedSnapshot snap).
Proof. intros [W Hr]. split; [done|]. intros k Hk. rewrite Hr by done. by destruct k. Qed.

Lemma holds_stored db snap q f : holds_peers db snap -> stored_replica db q f (replica_of (snap_peer snap) q f).
Proof. intros [_ Hr]. split; intros x; by rewrite Hr. Qed.

Lemma inner2_put2 {K V} `{Countable K} q f (v : gmap K V) (m : gmap string (gmap string (gmap K V))) q' f' :
  inner (inner (put2 q f v m) q') f' = if decide (q = q' /\ f = f') then v else inner (inner m q') f'.
Proof. unfold inner at 1. rewrite lookup_put2. by case_decide. Qed.

(** The tables after one replica was replaced: its paths as given, its state anew, and
    every other record as it was. *)
Definition is_state (q f : string) (k : dbkey) : bool :=
  bool_decide (k = KPeerState q f \/ k = KPeerCursor q f \/ k = KPeerCheckpoint q f).

Lemma holds_replaced db db' snap q f r cur summary checkpoint : holds_peers db snap -> db_wf db' ->
  stored_replica db' q f r -> (forall k, is_path q f k = false -> is_state q f k = false -> get db' k = get db k) ->
  holds_peers (setReplicaState q f cur summary checkpoint db') (with_peer (with_replica q f r cur summary checkpoint (snap_peer snap)) snap).
Proof.
  intros [W Hrec] W' [Hf Hr Ht] Ho. unfold setReplicaState. as_records. split; [by repeat (apply set_wf; [|done])|].
  intros k Hk. rewrite !get_set. destruct k as [| | | | | |q' f'|q' f' x|q' f' x|q' f' x| |q' f'|q' f'| | | | | | | | | | |];
    try discriminate Hk; cbn [record with_peer snap_peer with_replica PeerStates PeerFolders PeerRevisions PeerTombstones PeerCursors
      PeerApplyCheckpoints]; rewrite ?lookup_put2, ?inner2_put2, ?fmap_if.
  all: repeat match goal with |- context [decide (?a = ?b)] => rewrite (decide_False (P := a = b)) by discriminate end.
  1,5,6: match goal with |- _ = (if decide ?P then _ else _) => destruct (decide P) as [[<- <-]|He] end;
    [by rewrite decide_True|rewrite decide_False by naive_solver; rewrite Ho, Hrec by (try done; apply bool_decide_eq_false_2; naive_solver); done].
  all: case_decide as He; [destruct He as [<- <-]; rewrite ?Hf, ?Hr, ?Ht; done|].
  all: rewrite Ho by (cbn; apply bool_decide_eq_false_2; naive_solver); by apply Hrec.
Qed.

(** *** Applying a batch *)

(** No rename of the batch ends on a path that is deleted. *)
Definition no_dead_destination (r : replica) (changes : list FolderChange) : Prop :=
  Forall (fun c => FolderChange_Kind c = ChangeMove -> rep_tombs r !! FolderChange_Path c = None) changes.

Lemma records_verified r0 changes : no_dead_destination (foldl apply_total r0 changes) changes ->
  same_replica (foldl apply_record r0 changes) (foldl apply_total r0 changes).
Proof.
  intros Hd. destruct (apply_records_exact r0 changes) as (Hf & Hr & Ht). split; [done|]. split; [done|].
  apply map_eq. intros x. destruct (Ht x) as [->|[-> (c & Hc & Hk & Hx)%Exists_exists]]; [done|].
  unfold no_dead_destination in Hd. rewrite Forall_forall in Hd. symmetry. rewrite <- Hx. by apply Hd.
Qed.

Lemma stored_same db q f r r' : same_replica r r' -> stored_replica db q f r -> stored_replica db q f r'.
Proof. intros (Hf & Hr & Ht) [H1 H2 H3]. split; intros x; [by rewrite <- Hf|by rewrite <- Hr|by rewrite <- Ht]. Qed.

(** The records of a replica after a batch, without any condition. *)
Lemma writeChanges_stored db q f r0 from to changes : db_wf db -> stored_replica db q f r0 -> Forall (valid_change from to) changes ->
  let db' := foldl (writeChange q f) db changes in
  db_wf db' /\ stored_replica db' q f (foldl apply_record r0 changes) /\ forall k, is_path q f k = false -> get db' k = get db k.
Proof.
  intros W S Hv db'. split; [by apply writeAll_wf|]. split; [by eapply writeAll_stored|]. intros k Hk. by apply writeAll_other.
Qed.

Lemma apply_holds db snap q changes r summary checkpoint sha256 marshal :
  holds_peers db snap -> verifyChanges sha256 marshal q changes (snap_peer snap) = Ok (Some (r, summary, checkpoint)) ->
  no_dead_destination r (FolderChanges_Changes changes) ->
  holds_peers (writeChanges q changes summary checkpoint db)
    (with_peer (with_replica q (FolderChanges_FolderID changes) r (FolderChanges_ToCursor changes) summary checkpoint (snap_peer snap)) snap).
Proof.
  intros Hh (_ & Hval & ->)%verifyChanges_Some Hd. set (f := FolderChanges_FolderID changes) in *.
  destruct (writeChanges_stored db q f _ _ _ _ (hp_wf _ _ Hh) (holds_stored db snap q f Hh) Hval) as (W' & S' & Ho).
  apply (holds_replaced db); [done|done| |by auto]. eapply stored_same; [|exact S']. by apply records_verified.
Qed.

(** *** A full refresh *)

Lemma peerPrefix_parts kind q f : contains_char kind slash = false ->
  peerPrefix kind q f = scan_prefix [kind; badgerEncodePart q; badgerEncodePart f].
Proof.
  intros _. unfold peerPrefix, scan_prefix.
  change (join "/" [kind; badgerEncodePart q; badgerEncodePart f]) with (kind +:+ "/" +:+ badgerEncodePart q +:+ "/" +:+ badgerEncodePart f).
  by rewrite !str_app_assoc.
Qed.

Lemma get_deletePrefix (db : DB) pre k : pre <> [] -> Forall (fun w => contains_char w slash = false) pre ->
  (forall rest, key_parts k <> pre ++ rest) -> get (badgerDeletePrefix (scan_prefix pre) db) k = get db k.
Proof.
  intros Hne Hpre Hno. unfold get at 1. rewrite kv_get_deletePrefix. destruct (has_prefix _ _) eqn:E; [|done].
  apply key_string_prefix in E as (rest & _ & Hk); [|done|done]. by destruct (Hno rest).
Qed.

Lemma get_deletePrefix_in (db : DB) pre k rest : pre <> [] -> Forall (fun w => contains_char w slash = false) pre ->
  key_parts k = pre ++ rest -> rest <> [] -> get (badgerDeletePrefix (scan_prefix pre) db) k = None.
Proof.
  intros Hne Hpre Hk Hr. unfold get. rewrite kv_get_deletePrefix.
  assert (has_prefix (key_string k) (scan_prefix pre) = true) as ->; [|done]. apply key_string_prefix; eauto.
Qed.

Lemma deleteFolder_get q f (db : DB) k :
  get (badgerDeletePeerFolderRecords q f db) k =
  if is_path q f k then None else
  if decide (k = KPeerState q f \/ k = KPeerCursor q f \/ k = KPeerCheckpoint q f) then None else get db k.
Proof.
  unfold badgerDeletePeerFolderRecords. cbn [foldl]. rewrite !peerPrefix_parts by done. as_records. rewrite !get_delete.
  assert (forall kind, contains_char kind slash = false -> Forall (fun w => contains_char w slash = false) [kind; badgerEncodePart q; badgerEncodePart f]) as Hp
    by (repeat constructor; auto with badger_keys).
  destruct (is_path q f k) eqn:Ek.
  - destruct k; try discriminate Ek; cbn in Ek; apply bool_decide_eq_true in Ek as [-> ->];
      repeat (rewrite decide_False by discriminate);
      repeat first [eapply (get_deletePrefix_in _ [_; _; _] _ [badgerEncodePart _]); [done|by apply Hp|reflexivity|done]
                   | rewrite get_deletePrefix; [|done|by apply Hp|by intros rest [=]]].
  - assert (forall db' kind, contains_char kind slash = false -> kind ∈ ["peer-manifest"; "peer-revision"; "peer-tombstone"; "peer-rename"] ->
      get (badgerDeletePrefix (scan_prefix [kind; badgerEncodePart q; badgerEncodePart f]) db') k = get db' k) as Hno.
    { intros db' kind Hs Hk. apply get_deletePrefix; [done|by apply Hp|]. intros rest He.
      destruct k; cbn in He; injection He; intros; subst; try (revert Hk; rewrite !elem_of_cons, elem_of_nil; intuition discriminate).
      all: repeat match goal with Hb : badgerEncodePart _ = badgerEncodePart _ |- _ => apply badgerEncodePart_inj in Hb as -> end;
        cbn in Ek; by rewrite bool_decide_eq_true_2 in Ek. }
    rewrite !Hno by (try done; set_solver). repeat case_decide; naive_solver.
Qed.

Lemma deleteFolder_wf q f (db : DB) : db_wf db -> db_wf (badgerDeletePeerFolderRecords q f db).
Proof.
  intros W. unfold badgerDeletePeerFolderRecords. cbn [foldl]. do 3 apply delete_wf.
  repeat apply BadgerTables.badger.deletePrefix_wf. done.
Qed.

Definition refresh_records (q f : string) (cur : Z) (revisions : gmap string Z) (l : list (string * Manifest)) : list (dbkey * Doc) :=
  l ≫= fun e => [(KPeerManifest q f e.1, DocManifest e.2);
                 (KPeerRevision q f e.1, DocUint (if num revisions e.1 =? 0 then cur else num revisions e.1))].

Lemma refreshFiles_records q f cur revisions l (db : DB) :
  foldl (refreshFile q f cur revisions) db l = put_records (refresh_records q f cur revisions l) db.
Proof. revert db. induction l as [|e l IH]; intros db; [done|]. cbn [foldl]. by rewrite IH. Qed.

Lemma elem_of_refresh_records q f cur revisions m k d : (k, d) ∈ refresh_records q f cur revisions (map_to_list m) <->
  exists x man, m !! x = Some man /\ (k = KPeerManifest q f x /\ d = DocManifest man \/
    k = KPeerRevision q f x /\ d = DocUint (if num revisions x =? 0 then cur else num revisions x)).
Proof.
  unfold refresh_records. rewrite list_elem_of_bind. split.
  - intros ([x man] & Hk & Hx%elem_of_map_to_list). exists x, man. rewrite !elem_of_cons, elem_of_nil in Hk. naive_solver.
  - intros (x & man & Hx%elem_of_map_to_list & Hk). exists (x, man). split; [|done]. rewrite !elem_of_cons. cbn. naive_solver.
Qed.

Lemma refresh_holds db snap q f summary manifests revisions : holds_peers db snap ->
  holds_peers
    (setReplicaState q f (FolderSummary_Cursor summary) summary
       (mkPeerApplyCheckpoint f 0 (FolderSummary_Cursor summary) (Z.of_nat (size manifests)) (FolderSummary_Cursor summary) (FolderSummary_StateHash summary))
       (foldl (refreshFile q f (FolderSummary_Cursor summary) revisions) (badgerDeletePeerFolderRecords q f db) (map_to_list manifests)))
    (with_peer (refreshPeer q f summary manifests revisions (snap_peer snap)) snap).
Proof.
  intros Hh. set (cur := FolderSummary_Cursor summary). unfold refreshPeer. rewrite refreshFiles_records.
  assert (forall k d, (k, d) ∈ refresh_records q f cur revisions (map_to_list manifests) -> is_path q f k = true) as Hpath.
  { intros k d (x & man & _ & [[-> _]|[-> _]])%elem_of_refresh_records; cbn; by apply bool_decide_eq_true_2. }
  set (db0 := badgerDeletePeerFolderRecords q f db). set (db1 := put_records _ db0).
  assert (forall k o, (forall d, (k, d) ∈ refresh_records q f cur revisions (map_to_list manifests) <-> o = Some d) -> is_path q f k = true -> get db1 k = o) as Hget.
  { intros k o Hk Hp. unfold db1. rewrite (get_put_records _ _ _ o); [|by intros d ?%Hk|by intros [d Hd]; exists d; apply Hk].
    destruct o; [done|]. unfold db0. by rewrite deleteFolder_get, Hp. }
  apply (holds_replaced db); [done| | |].
  - apply put_records_wf; [apply deleteFolder_wf, Hh|]. by intros k d (x & man & _ & [[-> ->]|[-> ->]])%elem_of_refresh_records.
  - split; intros x; cbn [rep_files rep_revs rep_tombs].
    + apply Hget; [|cbn; by apply bool_decide_eq_true_2]. intros d. rewrite elem_of_refresh_records. destruct (manifests !! x) eqn:E; naive_solver.
    + apply Hget; [|cbn; by apply bool_decide_eq_true_2]. intros d. rewrite elem_of_refresh_records, map_lookup_imap.
      unfold refreshRevision. destruct (manifests !! x) eqn:E; cbn; naive_solver.
    + apply Hget; [|cbn; by apply bool_decide_eq_true_2]. intros d. rewrite elem_of_refresh_records, lookup_empty. naive_solver.
  - intros k Hk Hs%bool_decide_eq_false. unfold db1. rewrite (get_put_records _ _ _ None); [|by intros d Hd%Hpath; congruence|by intros []].
    unfold db0. rewrite deleteFolder_get, Hk. by rewrite decide_False.
Qed.

(** *** The two backends *)

Inductive peerOp :=
| PState (q : string) (summary : FolderSummary)
| PApply (q : string) (changes : FolderChanges)
| PRefresh (q f : string) (summary : FolderSummary) (manifests : gmap string Manifest) (revisions : gmap string Z).

Section histories.
Context (sha256 : bytes -> bytes) (marshal : Manifest -> string).

Definition peer_badger (b : backend) (op : peerOp) : backend * result StoreErr unit :=
  match op with
  | PState q summary => SavePeerFolderState b q summary
  | PApply q changes => ApplyPeerFolderChanges sha256 marshal b q changes
  | PRefresh q f summary manifests revisions => ReplacePeerFolderFromFullRefresh b q f summary manifests revisions
  end.

Definition peer_json (s : JSONStore) (op : peerOp) : JSONStore * result StoreErr unit :=
  match op with
  | PState q summary => Replication.SavePeerFolderState s q summary
  | PApply q changes => Replication.ApplyPeerFolderChanges sha256 marshal s q changes
  | PRefresh q f summary manifests revisions => Replication.ReplacePeerFolderFromFullRefresh s q f summary manifests revisions
  end.

(** The Badger backend names a peer and a folder for a state, and its batches do not
    rename onto deleted paths. *)
Definition peer_op_ok (p : peerMeta) (op : peerOp) : Prop :=
  match op with
  | PState q summary => q <> EmptyString /\ FolderSummary_FolderID summary <> EmptyString
  | PApply q changes => forall r,
      applyChanges (FolderChanges_FromCursor changes) (FolderChanges_ToCursor changes)
        (replica_of p q (FolderChanges_FolderID changes)) (FolderChanges_Changes changes) = Ok r ->
      no_dead_destination r (FolderChanges_Changes changes)
  | PRefresh _ _ _ _ _ => True
  end.

Lemma state_holds db snap q summary : holds_peers db snap ->
  holds_peers (badgerSetJSON (badgerPeerCursorKey q (FolderSummary_FolderID summary)) (DocUint (FolderSummary_Cursor summary))
    (badgerSetJSON (badgerPeerStateKey q (FolderSummary_FolderID summary)) (DocSummary summary) db))
    (with_peer (savePeerState q summary (snap_peer snap)) snap).
Proof.
  intros [W Hrec]. as_records. split; [by repeat (apply set_wf; [|done])|]. intros k Hk. rewrite !get_set, Hrec by done.
  destruct k; try discriminate Hk; cbn [record with_peer snap_peer savePeerState PeerStates PeerFolders PeerRevisions PeerTombstones PeerCursors
      PeerApplyCheckpoints]; rewrite ?lookup_put2, ?fmap_if;
    repeat match goal with |- context [decide (?a = ?b)] => rewrite (decide_False (P := a = b)) by discriminate end; try done;
    apply if_decide_iff; naive_solver.
Qed.

Lemma peer_simulated b s snap fault op :
  holds_peers (badger_db b) snap -> load s = Ok snap -> badger_viewFault b = false -> peer_op_ok (snap_peer snap) op ->
  BadgerTables.badger.simulated holds_peers b s (peer_badger (with_commit_fault fault b) op) (peer_json (with_fault fault s) op).
Proof.
  intros Hh Hl Hv Hok. assert (is_Some (JSONStore_backend s)) as Hb.
  { unfold load in Hl. destruct (JSONStore_backend s); [eauto|done]. }
  assert (forall f g, match f (badger_db b), g snap with Ok db, Ok snap' => holds_peers db snap' | Err e, Err e' => e = e' | _, _ => False end ->
    BadgerTables.badger.simulated holds_peers b s (Update (with_commit_fault fault b) f) (modify (with_fault fault s) g)) as Hup.
  { intros f g Hfg. by apply (BadgerTables.badger.simulated_update holds_peers b s snap); [exact holds_normalized|..]. }
  destruct op as [q summary|q changes|q f summary manifests revisions]; cbn [peer_badger peer_json].
  - destruct Hok as [Hq Hf]. unfold SavePeerFolderState, Replication.SavePeerFolderState, require. rewrite !bool_decide_eq_false_2 by done.
    cbn [fail_if mbind result_bind checkedB]. apply Hup. by apply state_holds.
  - unfold ApplyPeerFolderChanges, Replication.ApplyPeerFolderChanges. apply BadgerTables.badger.simulated_checked.
    rewrite load_with_fault, Hl. cbn [mbind result_bind].
    destruct (Load_peers (with_commit_fault fault b)) as (snapB & -> & HB); [apply Hh|done|]. cbn [mbind result_bind].
    rewrite applyPeerChanges_verify.
    assert (alike (snap_peer snapB) (snap_peer snap) q (FolderChanges_FolderID changes)) as Ha.
    { apply record_alike. intros k Hk. rewrite HB by done. by apply Hh. }
    pose proof (verify_alike sha256 marshal _ _ q changes Ha) as Hva.
    destruct (verifyChanges _ _ _ _ (snap_peer snapB)) as [[[[r st] cp]|]|e], (verifyChanges _ _ _ _ (snap_peer snap)) as [[[[r' st'] cp']|]|e'] eqn:Ev; try done.
    + destruct Hva as (_ & -> & ->). destruct (verifyChanges_Some _ _ _ _ _ _ _ _ Ev) as (Happ & _).
      match goal with |- context [save _ ?sn] => assert (save (with_fault fault s) sn = modify (with_fault fault s) (fun _ => Ok sn)) as ->
        by (unfold modify; by rewrite load_with_fault, Hl) end.
      apply Hup. eapply apply_holds; [done|exact Ev|by apply Hok].
    + exists snap. rewrite load_with_fault. by split.
    + subst. split; [done|]. split; [done|apply load_with_fault].
  - unfold ReplacePeerFolderFromFullRefresh, Replication.ReplacePeerFolderFromFullRefresh.
    apply BadgerTables.badger.simulated_checked. apply Hup. by apply refresh_holds.
Qed.

(** The calls run one after the other, each with its commit failing or not. *)
Fixpoint run_badger (b : backend) (calls : list (bool * peerOp)) : backend * list (result StoreErr unit) :=
  match calls with
  | [] => (b, [])
  | (fault, op) :: calls' =>
      let '(b1, r) := peer_badger (with_commit_fault fault b) op in
      let '(b2, rs) := run_badger b1 calls' in (b2, r :: rs)
  end.

Fixpoint run_json (s : JSONStore) (calls : list (bool * peerOp)) : JSONStore * list (result StoreErr unit) :=
  match calls with
  | [] => (s, [])
  | (fault, op) :: calls' =>
      let '(s1, r) := peer_json (with_fault fault s) op in
      let '(s2, rs) := run_json s1 calls' in (s2, r :: rs)
  end.

(** Every call is acceptable where it is made. *)
Fixpoint peer_calls_ok (s : JSONStore) (calls : list (bool * peerOp)) : Prop :=
  match calls with
  | [] => True
  | (fault, op) :: calls' =>
      (forall snap, load s = Ok snap -> peer_op_ok (snap_peer snap) op) /\ peer_calls_ok (peer_json (with_fault fault s) op).1 calls'
  end.

Lemma peer_badger_view (b : backend) op : badger_viewFault (peer_badger b op).1 = badger_viewFault b.
Proof.
  destruct op as [q summary|q changes|q f summary manifests revisions]; cbn [peer_badger];
    try (apply BadgerTables.badger.checkedB_view, BadgerTables.badger.Update_view).
  apply BadgerTables.badger.checkedB_view. destruct (_ ≫= _) as [[[[r st] cp]|]|e]; [|done..]. apply BadgerTables.badger.Update_view.
Qed.

Lemma peer_run_simulated b s snap calls :
  holds_peers (badger_db b) snap -> load s = Ok snap -> badger_viewFault b = false -> peer_calls_ok s calls ->
  (run_badger b calls).2 = (run_json s calls).2 /\ badger_viewFault (run_badger b calls).1 = false /\
  exists snap', load (run_json s calls).1 = Ok snap' /\ holds_peers (badger_db (run_badger b calls).1) snap'.
Proof.
  revert b s snap. induction calls as [|[fault op] calls IH]; intros b s snap Hh Hl Hv Hok; [eauto|]. destruct Hok as [Hop Hok].
  cbn [run_badger run_json]. pose proof (peer_simulated b s snap fault op Hh Hl Hv (Hop _ Hl)) as Hs.
  pose proof (peer_badger_view (with_commit_fault fault b) op) as Hv1. cbn [badger_viewFault with_commit_fault] in Hv1.
  destruct (BadgerTables.badger.simulated_step _ _ _ _ _ _ Hs Hh Hl) as (Heq & snap1 & Hl1 & H1).
  destruct (peer_badger _ op) as [b1 r], (peer_json _ op) as [s1 r']. cbn [fst snd] in *. subst r'.
  destruct (IH b1 s1 snap1 H1 Hl1) as (Hr & Hv2 & Hrest); [by rewrite Hv1|done|].
  destruct (run_badger b1 calls), (run_json s1 calls). cbn in *. by rewrite Hr.
Qed.

(** What is read of a replica. *)
Lemma reads_alike b s snap q f x : holds_peers (badger_db b) snap -> load s = Ok snap -> badger_viewFault b = false ->
  LoadPeerManifest b q f x = Replication.LoadPeerManifest s q f x /\
  GetPeerApplyCheckpoint b q f = Replication.GetPeerApplyCheckpoint s q f.
Proof.
  intros Hh Hl Hv. unfold LoadPeerManifest, Replication.LoadPeerManifest, GetPeerApplyCheckpoint, Replication.GetPeerApplyCheckpoint, View.
  rewrite Hl, Hv. cbn [fmap result_fmap]. split.
  - apply (BadgerTables.badger.get_doc_record as_manifest DocManifest _ (KPeerManifest q f x)); [done|]. by apply Hh.
  - apply (BadgerTables.badger.get_doc_record as_checkpoint DocCheckpoint _ (KPeerCheckpoint q f)); [done|]. by apply Hh.
Qed.

(** [C14] Peers' replicas in the two backends: along any sequence of saved states,
    applied batches and full refreshes, with the same commits failing, the Badger
    backend gives the same answers as the JSON backend and holds the same files,
    revisions, tombstones, cursors and checkpoints of every peer. Excepted are saved
    states with an empty peer or folder identifier ([empty_state_differs]) and
    batches after which the target of one of their renames is also held as deleted
    ([renamed_onto_deleted]), where the backends differ. *)
Theorem peers_simulate b s snap calls q f x :
  holds_peers (badger_db b) snap -> load s = Ok snap -> badger_viewFault b = false -> peer_calls_ok s calls ->
  (run_badger b calls).2 = (run_json s calls).2 /\
  (exists snap', load (run_json s calls).1 = Ok snap' /\ holds_peers (badger_db (run_badger b calls).1) snap') /\
  LoadPeerManifest (run_badger b calls).1 q f x = Replication.LoadPeerManifest (run_json s calls).1 q f x /\
  GetPeerApplyCheckpoint (run_badger b calls).1 q f = Replication.GetPeerApplyCheckpoint (run_json s calls).1 q f.
Proof.
  intros Hh Hl Hv Hok. destruct (peer_run_simulated b s snap calls Hh Hl Hv Hok) as (Hr & Hv' & snap' & Hl' & Hh').
  split; [done|]. split; [eauto|]. by apply (reads_alike _ _ snap').
Qed.
End histories.

(** *** Replication between two databases *)

Lemma records_same r r' changes : same_replica r r' -> no_dead_destination (foldl apply_total r' changes) changes ->
  same_replica (foldl apply_record r changes) (foldl apply_total r' changes).
Proof.
  intros Hr Hd. assert (same_replica (foldl apply_total r changes) (foldl apply_total r' changes)) as Ht.
  { clear Hd. revert r r' Hr. induction changes as [|c l IH]; intros r r' Hr; [done|]. apply IH.
    destruct Hr as (Hf & Hv & Ht). unfold apply_total, same_replica. rewrite Hf, Hv, Ht. by repeat case_bool_decide. }
  destruct (records_verified r changes) as (H1 & H2 & H3).
  { unfold no_dead_destination in *. destruct Ht as (_ & _ & ->). done. }
  destruct Ht as (H1' & H2' & H3'). split; [|split]; congruence.
Qed.

(** The database holds peer [q]'s folder in the state [v]. *)
Record replica_at (db : DB) (q f : string) (v : folder) : Prop := {
  ra_wf : db_wf db;
  ra_replica : exists r, stored_replica db q f r /\ in_sync r v;
  ra_cursor : badgerReadUint64 (badgerPeerCursorKey q f) db = Ok (cursor v)
}.

Lemma stored_replica_fun db q f r r' : stored_replica db q f r -> stored_replica db q f r' -> same_replica r r'.
Proof.
  intros [H1 H2 H3] [H1' H2' H3']. split; [|split]; apply map_eq; intros x.
  - apply (BadgerTables.badger.inj_doc DocManifest); [by intros ? ? [=]|]. by rewrite <- H1, <- H1'.
  - apply (BadgerTables.badger.inj_doc DocUint); [by intros ? ? [=]|]. by rewrite <- H2, <- H2'.
  - apply (BadgerTables.badger.inj_doc DocUint); [by intros ? ? [=]|]. by rewrite <- H3, <- H3'.
Qed.

Lemma setReplicaState_stored db q f cur summary checkpoint r : stored_replica db q f r -> stored_replica (setReplicaState q f cur summary checkpoint db) q f r.
Proof.
  intros [H1 H2 H3]. unfold setReplicaState. as_records.
  split; intros x; rewrite !get_set, !decide_False by discriminate; [apply H1|apply H2|apply H3].
Qed.

Lemma setReplicaState_wf db q f cur summary checkpoint : db_wf db -> db_wf (setReplicaState q f cur summary checkpoint db).
Proof. intros W. unfold setReplicaState. as_records. by repeat (apply set_wf; [|done]). Qed.

Section replication.
Context (sha256 : bytes -> bytes) (marshal : Manifest -> string).

(** The moves of a batch end on live paths. *)
Lemma batch_moves_live m f c v change : v = view m f -> wf v -> change ∈ collectChanges m f c ->
  FolderChange_Kind change = ChangeMove -> is_Some (files v !! FolderChange_Path change).
Proof.
  intros -> W Hin Hk. apply (elem_of_collectChanges m f c change W) in Hin.
  destruct Hin as [(x & r & Hx & _ & [(h & _ & ->)|[_ ->]])|(x & t & _ & _ & _ & ->)]; try discriminate Hk.
  apply (wf_dom _ W). eauto.
Qed.

(** No path is live and deleted at once. *)
Definition disjoint_paths (v : folder) : Prop := forall x, is_Some (files v !! x) -> tombs v !! x = None.

(** Applying the batch of a folder in the state [v] to a replica that was in the state [v0]. *)
Lemma apply_batch_records v0 v f q m db snap :
  view m f = v -> wf v0 -> wf v -> fits v -> disjoint_paths v ->
  behind (replica_of (snap_peer snap) q f) v (cursor v0) -> settled (replica_of (snap_peer snap) q f) v (cursor v0) ->
  replica_at db q f v0 -> (forall k, is_peer k = true -> record snap k = get db k) ->
  exists r cp, verifyChanges sha256 marshal q (batch_of sha256 marshal m f (cursor v0)) (snap_peer snap) =
      Ok (Some (r, summary_of sha256 marshal f v, cp)) /\
    replica_at (writeChanges q (batch_of sha256 marshal m f (cursor v0)) (summary_of sha256 marshal f v) cp db) q f v.
Proof.
  intros Hview W0 W Hfit Hdis B K [Wd (r0 & S0 & Hr0) Hcur] Hrec.
  assert (same_replica r0 (replica_of (snap_peer snap) q f)) as Hsame.
  { apply (stored_replica_fun db q f); [done|]. split; intros x; symmetry; [apply (Hrec (KPeerManifest q f x))|apply (Hrec (KPeerRevision q f x))|apply (Hrec (KPeerTombstone q f x))]; done. }
  destruct (converged m f _ _ _ Hview W B K) as (r & Happ & Hsync).
  assert (peerFolderSummary sha256 marshal f r (cursor v) = Ok (summary_of sha256 marshal f v)) as Hsum.
  { subst v. rewrite (peerFolderSummary_in_sync sha256 marshal f r m Hsync). by apply folderSummary_view. }
  assert (peerCursor (snap_peer snap) q f = cursor v0) as Hpc.
  { pose proof (Hrec (KPeerCursor q f) eq_refl) as Hk. unfold badgerReadUint64, get_doc in Hcur.
    change (kv_get db (badgerPeerCursorKey q f)) with (get db (KPeerCursor q f)) in Hcur. rewrite <- Hk in Hcur. cbn [record] in Hcur.
    unfold peerCursor, num. destruct (inner (PeerCursors (snap_peer snap)) q !! f); by injection Hcur. }
  set (changes := batch_of sha256 marshal m f (cursor v0)).
  assert (FolderChanges_ToCursor changes = cursor v) as Hto by (unfold changes, batch_of; cbn; by rewrite <- Hview).
  assert (exists cp, verifyChanges sha256 marshal q changes (snap_peer snap) = Ok (Some (r, summary_of sha256 marshal f v, cp))) as [cp Hv].
  { unfold verifyChanges. rewrite Hto. cbn [changes batch_of FolderChanges_FolderID FolderChanges_FromCursor FolderChanges_Changes FolderChanges_StateHash].
    rewrite Hpc, bool_decide_eq_false_2 by (intros Hx; by apply Hx). rewrite Happ. cbn [mbind result_bind]. rewrite Hsum. cbn [mbind result_bind].
    rewrite Hview, bool_decide_eq_false_2 by (intros Hx; by apply Hx). eauto. }
  exists r, cp. split; [exact Hv|]. destruct (verifyChanges_Some _ _ _ _ _ _ _ _ Hv) as (_ & Hval & Hfold).
  destruct (writeChanges_stored db q f r0 _ _ _ Wd S0 Hval) as (W' & S' & _). unfold writeChanges. rewrite Hto.
  split.
  - by apply setReplicaState_wf.
  - exists (foldl apply_record r0 (FolderChanges_Changes changes)). split; [by apply setReplicaState_stored|].
    assert (same_replica (foldl apply_record r0 (FolderChanges_Changes changes)) r) as (Hf & Hr & Ht).
    { rewrite Hfold. apply records_same; [done|]. rewrite <- Hfold. apply Forall_forall. intros c Hc Hk. destruct Hsync as (_ & _ & ->).
      apply Hdis. by apply (batch_moves_live m f (cursor v0)). }
    destruct Hsync as (Hf' & Hr' & Ht'). split; [congruence|]. split; congruence.
  - unfold setReplicaState, badgerReadUint64, get_doc. as_records. change (kv_get ?d (key_string (KPeerCursor q f))) with (get d (KPeerCursor q f)).
    rewrite !get_set, decide_False, decide_False, decide_True by done. done.
Qed.

(** [C8] Two nodes on Badger databases replicate a folder. Let the sender's folder go
    from [v0], which the receiver holds, to [v] by a batch of saves, deletes and
    renames with non-empty paths that is quiet (no other operation of the batch
    touches an end of a rename), such that in [v] no path is both live and deleted,
    the cursor of [v0] was not compacted, and revisions and sizes fit. Then the
    changes the sender reports since [v0] bring the receiver to [v]: the same files,
    revisions and tombstones, the sender's cursor and summary. Only the commit can
    fail, and then nothing has changed. ([renamed_onto_deleted] shows a rename onto
    a deleted path.) *)
Theorem badger_replication v0 f ops (sender receiver : backend) V q :
  let v := run v0 ops in
  wf v0 -> hints v0 !! EmptyString = None -> cursor v0 + Z.of_nat (length ops) < 2 ^ 64 -> fits v -> disjoint_paths v ->
  Forall op_ok ops -> Forall (fun op => empty_path op = false) ops -> quiet ops ->
  BadgerFolder.badger.holds_folders (badger_db sender) V -> V f = v -> badger_viewFault sender = false ->
  (forall snap, Load sender = Ok snap -> metadataCompactionCursorError snap f (cursor v0) = Ok tt) ->
  replica_at (badger_db receiver) q f v0 -> badger_viewFault receiver = false -> q <> EmptyString -> f <> EmptyString ->
  exists changes, ChangesSince sha256 marshal sender f (cursor v0) = Ok changes /\
    match ApplyPeerFolderChanges sha256 marshal receiver q changes with
    | (receiver', Err e) => receiver' = receiver /\ e = ErrSave
    | (receiver', Ok _) => replica_at (badger_db receiver') q f v /\
        get (badger_db receiver') (KPeerState q f) = Some (DocSummary (summary_of sha256 marshal f v))
    end.
Proof.
  intros v W0 Hn Hlen Hfit Hdis Hok Hne Q Hs HV Hvs Hcomp Hr Hvr Hq Hf.
  destruct (BadgerFolder.badger.Load_folders sender V Hs Hvs) as (snap & Hl & Hview & _).
  destruct (Load_peers receiver (ra_wf _ _ _ _ Hr) Hvr) as (rsnap & Hlr & Hrec).
  assert (in_sync (replica_of (snap_peer rsnap) q f) v0) as Hsync.
  { destruct (ra_replica _ _ _ _ Hr) as (r0 & S0 & Hf0 & Hr0 & Ht0).
    assert (same_replica r0 (replica_of (snap_peer rsnap) q f)) as (H1 & H2 & H3).
    { apply (stored_replica_fun (badger_db receiver) q f); [done|].
      split; intros x; symmetry; [apply (Hrec (KPeerManifest q f x))|apply (Hrec (KPeerRevision q f x))|apply (Hrec (KPeerTombstone q f x))]; done. }
    split; [|split]; congruence. }
  destruct (quiet_run _ v0 ops W0 Hsync Hn Hlen Hok Hne Q) as (W & Hc & B & Bt & Hh). fold v in W, Hc, B, Bt, Hh.
  pose proof (batch_settled _ _ _ _ W0 W Hsync Hh Bt) as K.
  assert (view (snap_local snap) f = v) as Hv by by rewrite Hview.
  exists (batch_of sha256 marshal (snap_local snap) f (cursor v0)). split.
  { unfold ChangesSince. rewrite Hl. cbn [mbind result_bind]. apply changesOf_batch; [by rewrite Hv|by apply Hcomp]. }
  destruct (apply_batch_records v0 v f q (snap_local snap) (badger_db receiver) rsnap Hv W0 W Hfit Hdis B K Hr Hrec) as (r & cp & Hver & Hat).
  unfold ApplyPeerFolderChanges, require. rewrite (bool_decide_eq_false_2 _ Hq), (bool_decide_eq_false_2 (_ = EmptyString)) by done.
  cbn [fail_if mbind result_bind checkedB]. rewrite Hlr. cbn [mbind result_bind]. rewrite Hver. unfold Update.
  destruct (badger_updateFault receiver); [done|]. cbn [badger_db with_db]. split; [done|].
  unfold writeChanges, setReplicaState. as_records. cbn [batch_of FolderChanges_FolderID].
  rewrite !get_set, decide_False, decide_True by done. done.
Qed.
End replication.

(** *** Compaction *)

Lemma compactionPrefix_parts f : compactionPrefix f = scan_prefix ["compaction-snapshot"; badgerEncodePart f].
Proof.
  unfold compactionPrefix, scan_prefix.
  change (join "/" ["compaction-snapshot"; badgerEncodePart f]) with ("compaction-snapshot" +:+ "/" +:+ badgerEncodePart f).
  by rewrite !str_app_assoc.
Qed.

(** The parts of a whole key: the two of the prefix before the key's own. *)
Lemma split_key_string k : split_on slash (key_string k) = "fse" :: "v1" :: key_parts k.
Proof.
  assert (split_on slash (key_string k) = "fse" :: "v1" :: split_on slash (join "/" (key_parts k))) as -> by (by rewrite key_string_parts).
  by rewrite split_on_join by (apply key_parts_nonempty || apply key_parts_no_slash).
Qed.

Lemma maxSnapshotIndex_none keys n : Forall (fun key => forall a b c d, split_on slash key <> [a; b; c; d]) keys -> maxSnapshotIndex keys n = Ok n.
Proof.
  induction 1 as [|key keys Hk _ IH]; [done|]. cbn [maxSnapshotIndex].
  destruct (split_on slash key) as [|a [|b [|c [|d [|e l]]]]] eqn:E; try done. by destruct (Hk a b c d).
Qed.

(** Every compaction gets the number 0. *)
Lemma nextIndex_zero f (db : DB) : db_wf db -> badgerNextCompactionSnapshotIndex f db = Ok 0.
Proof.
  intros W. unfold badgerNextCompactionSnapshotIndex. rewrite maxSnapshotIndex_none; [done|].
  apply Forall_forall. intros key Hk. apply list_elem_of_fmap in Hk as ([key' d] & -> & Hk). cbn.
  rewrite compactionPrefix_parts in Hk. apply scan_prefix_records in Hk as (k & -> & _ & rest & Hne & Hp); [|done|done|repeat constructor; auto with badger_keys].
  rewrite split_key_string, Hp. intros a b c e. destruct rest; [done|]. discriminate.
Qed.

Lemma get_drop_tombstones f paths (db : DB) k :
  get (foldl (fun db rel => kv_delete (badgerTombstoneKey f rel) db) db paths) k =
  if decide (k ∈ KTombstone f <$> paths) then None else get db k.
Proof.
  rewrite <- BadgerFolder.badger.get_delete_keys. f_equal. revert db. induction paths as [|p paths IH]; intros db; [done|]. apply IH.
Qed.

Lemma drop_tombstones_wf f paths (db : DB) : db_wf db -> db_wf (foldl (fun db rel => kv_delete (badgerTombstoneKey f rel) db) db paths).
Proof. revert db. induction paths as [|p paths IH]; intros db W; [done|]. by apply IH, delete_wf. Qed.

(** The tombstones a compaction takes. *)
Definition oldPaths (tombs : gmap string Z) (safe : Z) : list string :=
  sort_by str_lt ((List.filter (fun tomb => tomb.2 <=? safe) (map_to_list tombs)).*1).

Lemma elem_of_oldPaths tombs safe p : p ∈ oldPaths tombs safe <-> exists t, tombs !! p = Some t /\ t <= safe.
Proof.
  unfold oldPaths. rewrite elem_of_sort_by, list_elem_of_fmap. split.
  - intros ([p' t] & -> & Hin). apply list_elem_of_In, filter_In in Hin as [Hin Ht]. apply list_elem_of_In, elem_of_map_to_list in Hin.
    exists t. split; [done|]. by apply Z.leb_le.
  - intros (t & Hp & Ht). exists (p, t). split; [done|]. apply list_elem_of_In, filter_In. split; [|by apply Z.leb_le].
    by apply list_elem_of_In, elem_of_map_to_list.
Qed.

Lemma compacted_tomb v safe p : tombs (compacted v safe) !! p = if decide (p ∈ oldPaths (tombs v) safe) then None else tombs v !! p.
Proof.
  cbn [compacted tombs]. rewrite map_lookup_filter. case_decide as Hp; rewrite elem_of_oldPaths in Hp.
  - destruct Hp as (t & -> & Ht). cbn. rewrite option_guard_False; [done|]. cbn. lia.
  - destruct (tombs v !! p) as [t|] eqn:E; [|done]. cbn. rewrite option_guard_True; [done|]. cbn.
    destruct (Z_lt_ge_dec safe t); [done|]. destruct Hp. exists t. split; [done|lia].
Qed.

Lemma compacted_none v safe : oldPaths (tombs v) safe = [] -> compacted v safe = v.
Proof.
  intros Ho. destruct v as [vf vh vr vt vi vc]. unfold compacted. f_equal. apply map_eq. intros p.
  pose proof (compacted_tomb (mkFolder vf vh vr vt vi vc) safe p) as Hp. rewrite Ho in Hp. rewrite decide_False in Hp by by apply not_elem_of_nil.
  exact Hp.
Qed.

Lemma compacted_stored db db' f v safe : BadgerFolder.badger.stored db f v ->
  (forall k, k <> KCompaction f 0 -> get db' k = if decide (k ∈ KTombstone f <$> oldPaths (tombs v) safe) then None else get db k) ->
  BadgerFolder.badger.stored db' f (compacted v safe).
Proof.
  intros [H1 H2 H3 H4 H5 H6] Hg.
  assert (forall k, (forall p, k <> KTombstone f p) -> k <> KCompaction f 0 -> get db' k = get db k) as Ho.
  { intros k Hk Hc. rewrite Hg, decide_False; [done| |done]. intros (p & -> & _)%list_elem_of_fmap. by destruct (Hk p). }
  split.
  - intros p. by rewrite Ho.
  - intros p r. by rewrite Ho.
  - intros p. by rewrite Ho.
  - intros p. rewrite Hg by done. rewrite compacted_tomb. case_decide as Hp.
    + apply list_elem_of_fmap in Hp as (p' & [= ->] & Hp). by rewrite decide_True.
    + rewrite decide_False; [apply H4|]. intros Hp'. apply Hp. apply list_elem_of_fmap. eauto.
  - intros p. by rewrite Ho.
  - etrans; [|exact H6]. unfold badgerReadUint64, get_doc. change (kv_get ?d (badgerCursorKey f)) with (get d (KCursor f)). by rewrite Ho.
Qed.

(** A database without the tombstones a compaction takes, and with a record of it. *)
Lemma drop_tombstones_get f v safe db paths record : oldPaths (tombs v) safe = paths -> db_wf db ->
  BadgerFolder.badger.stored db f v -> BadgerFolder.badger.indexed db f v ->
  let db' := kv_set (key_string (KCompaction f 0)) (DocCompaction record) (foldl (fun db rel => kv_delete (badgerTombstoneKey f rel) db) db paths) in
  db_wf db' /\ BadgerFolder.badger.stored db' f (compacted v safe) /\ BadgerFolder.badger.indexed db' f (compacted v safe) /\
  (forall k, (forall p, k <> KTombstone f p) -> k <> KCompaction f 0 -> get db' k = get db k) /\
  get db' (KCompaction f 0) = Some (DocCompaction record).
Proof.
  intros <- W S I db'.
  assert (forall k, k <> KCompaction f 0 -> get db' k = if decide (k ∈ KTombstone f <$> oldPaths (tombs v) safe) then None else get db k) as Hg.
  { intros k Hk. unfold db'. rewrite get_set, decide_False by congruence. apply get_drop_tombstones. }
  assert (forall k, (forall p, k <> KTombstone f p) -> k <> KCompaction f 0 -> get db' k = get db k) as Hother.
  { intros k Hk Hc. rewrite Hg, decide_False; [done| |done]. intros (p & -> & _)%list_elem_of_fmap. by destruct (Hk p). }
  split; [apply set_wf; [by apply drop_tombstones_wf|done]|]. split; [|split; [|split; [done|]]].
  - by apply (compacted_stored db).
  - intros p. apply (BadgerFolder.badger.indexed_at_same db _ f v); [|done|apply I]. intros size hash i. by apply Hother.
  - unfold db'. by rewrite get_set, decide_True.
Qed.

Section compaction.
Context (sha256 : bytes -> bytes) (marshal : Manifest -> string).

(** Compaction of a folder in the Badger backend is safe for the peers it is told
    about: the safe cursor does not pass what any of them acknowledged, nor the
    retention window; the folder's records become those of the folder without the
    tombstones up to the safe cursor, its block index stays exact, and no other record
    changes - except the one record of compactions a folder ever has, number 0, which
    every compaction overwrites (the code means to number them, see
    [compaction_overwrites]).  An error changes nothing. *)
Theorem compaction_exact b V f policy :
  BadgerFolder.badger.holds_folders (badger_db b) V -> badger_viewFault b = false ->
  match CompactFolderMetadata sha256 marshal b f policy with
  | (b', Err _) => b' = b
  | (b', Ok (plan, record)) =>
      let safe := MetadataCompactionPlan_SafeCursor plan in
      (forall p, p ∈ MetadataCompactionPolicy_PeerIDs policy -> safe <= acknowledged (get (badger_db b) (KPeerState p f))) /\
      (0 < MetadataCompactionPolicy_RetainLastCursors policy ->
        safe <= Z.max 0 (cursor (V f) - MetadataCompactionPolicy_RetainLastCursors policy)) /\
      BadgerFolder.badger.stored (badger_db b') f (compacted (V f) safe) /\
      BadgerFolder.badger.indexed (badger_db b') f (compacted (V f) safe) /\
      (forall k, (forall p, k <> KTombstone f p) -> k <> KCompaction f 0 -> get (badger_db b') k = get (badger_db b) k) /\
      MetadataCompactionSnapshot_CompactedTombstones record = Z.of_nat (length (oldPaths (tombs (V f)) safe)) /\
      (0 < MetadataCompactionSnapshot_CompactedTombstones record ->
        get (badger_db b') (KCompaction f 0) = Some (DocCompaction record)) /\
      db_wf (badger_db b')
  end.
Proof.
  intros Hh Hv. destruct (BadgerFolder.badger.Load_folders b V Hh Hv) as (snap & Hl & Hview & Hrec).
  unfold CompactFolderMetadata. rewrite Hl. cbn [mbind result_bind].
  destruct (folderSummary _ _ _ _) as [before|e]; [|done]. cbn [mbind result_bind].
  pose proof (metadataCompactionPlan_safe snap f policy) as (_ & Hpeers & Hretain & _).
  set (plan := metadataCompactionPlan snap f policy) in *. set (safe := MetadataCompactionPlan_SafeCursor plan) in *.
  change (sort_by str_lt _) with (oldPaths (inner (Tombstones (snap_local snap)) f) safe).
  assert (inner (Tombstones (snap_local snap)) f = tombs (V f)) as -> by by rewrite <- Hview.
  assert (forall p, p ∈ MetadataCompactionPolicy_PeerIDs policy -> safe <= acknowledged (get (badger_db b) (KPeerState p f))) as Hack.
  { intros p Hp. pose proof (Hpeers p Hp) as Hs. rewrite <- Hrec by done. cbn [record]. unfold peerState in Hs.
    destruct (inner (PeerStates (snap_peer snap)) p !! f); exact Hs. }
  assert (0 < MetadataCompactionPolicy_RetainLastCursors policy -> safe <= Z.max 0 (cursor (V f) - MetadataCompactionPolicy_RetainLastCursors policy)) as Hret.
  { intros Hr. rewrite <- Hview. by apply Hretain. }
  destruct (oldPaths (tombs (V f)) safe) as [|p0 paths0] eqn:Ep.
  { split; [done|]. split; [done|]. rewrite compacted_none by done.
    split; [apply Hh|]. split; [apply Hh|]. split; [done|]. split; [by change (MetadataCompactionPlan_SafeCursor plan) with safe; rewrite Ep|]. split; [cbn; lia|apply Hh]. }
  set (paths := p0 :: paths0) in *. unfold Update.
  match goal with |- context [mkCompactionSnapshot ?a ?b ?c ?d ?e ?g ?h] => set (record := mkCompactionSnapshot a b c d e g h) end.
  destruct (drop_tombstones_get f (V f) safe (badger_db b) paths record Ep) as (W' & S' & I' & Ho & Hc); [apply Hh..|].
  rewrite nextIndex_zero by (apply drop_tombstones_wf, Hh). cbn [mbind result_bind]. destruct (badger_updateFault b); [done|].
  cbn [badger_db with_db]. unfold badgerSetJSON. change (badgerCompactionSnapshotKey f 0) with (key_string (KCompaction f 0)).
  split; [done|]. split; [done|]. split; [exact S'|]. split; [exact I'|]. split; [exact Ho|]. split; [by change (MetadataCompactionPlan_SafeCursor plan) with safe; rewrite Ep|]. split; [intros _; exact Hc|exact W'].
Qed.
End compaction.

End proofs.
End ops.

(** ** Examples *)

Definition demo_replica : badgerSnapshotBackend (DB := gmap string Doc) := mkBadger ∅ false false.

Definition deliver (sender : JSONStore) (receiver : badgerSnapshotBackend (DB := gmap string Doc)) (cursor : Z) :=
  match Replication.ChangesSince id demo_marshal sender "docs" cursor with
  | Ok changes => ApplyPeerFolderChanges id demo_marshal receiver "alice" changes
  | Err e => (receiver, Err e)
  end.

(** A file is renamed to the path of a deleted one.  The batch is verified with the
    tombstone of that path and stored without it: the next batch is refused, although
    a JSON receiver accepts both. *)
Example renamed_onto_deleted :
  let ops := [OpSave "a" (demo_m Byte.x61); OpSave "b" (demo_m Byte.x62); OpDelete "b"] in
  let ops' := ops ++ [OpMove "a" "b" (demo_m Byte.x61)] in
  let ops'' := ops' ++ [OpSave "c" (demo_m Byte.x63)] in
  let first := (deliver (demo_sender ops) demo_replica 0).1 in
  let renamed := deliver (demo_sender ops') first 3 in
  renamed.2 = Ok tt /\ (deliver (demo_sender ops'') renamed.1 4).2 = Err ErrHashMismatch /\
  (Replication.deliver (demo_sender ops'') (Replication.deliver (demo_sender ops') (Replication.deliver (demo_sender ops) demo_store 0).1 3).1 4).2 = Ok tt.
Proof. vm_compute. repeat split; reflexivity. Qed.

(** A state without a peer or a folder: the JSON backend stores it, the Badger backend
    reports an error. *)
Example empty_state_differs :
  let summary f := mkFolderSummary f 3 1 0 "h" in
  is_ok (SavePeerFolderState demo_replica EmptyString (summary "docs")).2 = false /\
  is_ok (Replication.SavePeerFolderState demo_store EmptyString (summary "docs")).2 = true /\
  is_ok (SavePeerFolderState demo_replica "n2" (summary EmptyString)).2 = false /\
  is_ok (Replication.SavePeerFolderState demo_store "n2" (summary EmptyString)).2 = true.
Proof. vm_compute. split_and!; reflexivity. Qed.

(** The second compaction of a folder overwrites the record of the first. *)
Example compaction_overwrites :
  let save b p := (BadgerFolder.badger.SaveManifest b "docs" p (demo_m Byte.x61)).1 in
  let drop b p := (BadgerFolder.badger.DeleteManifest b "docs" p).1 in
  let compact b := (CompactFolderMetadata id demo_marshal b "docs" (mkCompactionPolicy [] 0)).1 in
  let first := compact (drop (save demo_replica "a") "a") in
  let second := compact (drop (save first "b") "b") in
  let cursors b := match MetadataCompactionSnapshots b "docs" with Ok l => map MetadataCompactionSnapshot_Cursor l | Err _ => [] end in
  cursors first = [2] /\ cursors second = [4].
Proof. vm_compute. repeat split; reflexivity. Qed.

(** ** Witnesses *)

Lemma demo_replica_wf : db_wf (badger_db demo_replica).
Proof. split; [apply lookup_empty|]. intros key d. cbn. by rewrite lookup_empty. Qed.

Lemma demo_replica_holds : holds_peers (badger_db demo_replica) snapshot_zero.
Proof.
  split; [exact demo_replica_wf|]. intros k Hk. transitivity (@None Doc); [apply lookup_empty|].
  destruct k; try discriminate Hk; cbn; unfold inner; rewrite ?lookup_empty; cbn; rewrite ?lookup_empty; cbn; by rewrite ?lookup_empty.
Qed.

Definition demo_peer_calls : list (bool * peerOp) := [
  (true, PApply "alice" demo_changes); (false, PApply "alice" demo_changes); (false, PApply "alice" demo_changes);
  (false, PState "bob" (mkFolderSummary "docs" 7 0 0 "h"));
  (false, PRefresh "carol" "docs" (mkFolderSummary EmptyString 3 1 0 "h") {["x" := demo_m Byte.x61]} ∅)].

(** Whether no rename of a batch ends on a deleted path, as a test. *)
Definition batch_acceptable (s : JSONStore) (q : string) (changes : FolderChanges) : bool :=
  match load s with
  | Ok snap =>
      match applyChanges (FolderChanges_FromCursor changes) (FolderChanges_ToCursor changes)
              (replica_of (snap_peer snap) q (FolderChanges_FolderID changes)) (FolderChanges_Changes changes) with
      | Ok r => forallb (fun c => bool_decide (FolderChange_Kind c <> ChangeMove) || bool_decide (rep_tombs r !! FolderChange_Path c = None))
                  (FolderChanges_Changes changes)
      | Err _ => true
      end
  | Err _ => true
  end.

Lemma batch_acceptable_ok s q changes : batch_acceptable s q changes = true ->
  forall snap, load s = Ok snap -> peer_op_ok (snap_peer snap) (PApply q changes).
Proof.
  unfold batch_acceptable. intros Hb snap Hl r Hr. rewrite Hl, Hr in Hb. apply Forall_forall. intros c Hc Hk.
  apply list_elem_of_In in Hc.
  pose proof (proj1 (forallb_forall _ _) Hb c Hc) as [Hn%bool_decide_eq_true|Ht%bool_decide_eq_true]%orb_true_iff; done.
Qed.

Lemma demo_peer_calls_ok : peer_calls_ok id demo_marshal demo_store demo_peer_calls.
Proof.
  split; [apply batch_acceptable_ok; vm_compute; reflexivity|]. split; [apply batch_acceptable_ok; vm_compute; reflexivity|].
  split; [apply batch_acceptable_ok; vm_compute; reflexivity|]. split; [intros snap _; split; discriminate|]. split; [intros snap _; exact I|exact I].
Qed.

Lemma peers_simulate_witness :
  (run_badger id demo_marshal demo_replica demo_peer_calls).2 = [Err ErrSave; Ok tt; Ok tt; Ok tt; Ok tt] /\
  LoadPeerManifest (run_badger id demo_marshal demo_replica demo_peer_calls).1 "alice" "docs" "c" = Ok (Some (demo_m Byte.x62)).
Proof.
  destruct (peers_simulate id demo_marshal demo_replica demo_store snapshot_zero demo_peer_calls "alice" "docs" "c"
    demo_replica_holds eq_refl eq_refl demo_peer_calls_ok) as (Hr & _ & Hm & _).
  split; [rewrite Hr|rewrite Hm]; vm_compute; reflexivity.
Defined.

(** A sender that holds two folders, one of which it replicates. *)
Definition demo_origin : badgerSnapshotBackend (DB := gmap string Doc) := (BadgerFolder.badger.badger_run BadgerFolder.badger.demo_db BadgerFolder.badger.demo_calls).1.
Definition demo_ops : list folderOp := [OpSave "a" (demo_m Byte.x62)].

Lemma demo_origin_compactions snap : Load demo_origin = Ok snap -> metadataCompactionCursorError snap "pics" 0 = Ok tt.
Proof.
  assert (match Load demo_origin with Ok snap => metadataCompactionCursorError snap "pics" 0 | Err e => Ok tt end = Ok tt) as Hx
    by (vm_compute; reflexivity).
  intros Hl. by rewrite Hl in Hx.
Qed.

Lemma demo_ops_quiet : quiet demo_ops.
Proof. intros [|i] [|j] from to m op; try done. Qed.

Lemma demo_ops_disjoint : disjoint_paths (run folder_empty demo_ops).
Proof. intros x _. cbn. rewrite lookup_delete_None. right. apply lookup_empty. Qed.

Lemma demo_replica_at : replica_at (badger_db demo_replica) "alice" "pics" folder_empty.
Proof.
  split; [exact demo_replica_wf| |reflexivity]. exists (mkReplica ∅ ∅ ∅ ∅). split; [|by split_and!].
  split; intros x; (etrans; [apply lookup_empty|]); cbn; by rewrite lookup_empty.
Qed.

Lemma badger_replication_witness :
  exists changes receiver, ChangesSince id demo_marshal demo_origin "pics" 0 = Ok changes /\
    ApplyPeerFolderChanges id demo_marshal demo_replica "alice" changes = (receiver, Ok tt) /\
    replica_at (badger_db receiver) "alice" "pics" (run folder_empty demo_ops).
Proof.
  destruct (badger_replication id demo_marshal folder_empty "pics" demo_ops demo_origin demo_replica _ "alice" wf_empty eq_refl
    ltac:(reflexivity) ltac:(vm_compute; discriminate) demo_ops_disjoint ltac:(repeat constructor) ltac:(repeat constructor)
    demo_ops_quiet BadgerFolder.badger.demo_saved_holds ltac:(vm_compute; reflexivity) eq_refl demo_origin_compactions demo_replica_at eq_refl
    ltac:(discriminate) ltac:(discriminate)) as (changes & Hc & Ha).
  exists changes. destruct (ApplyPeerFolderChanges id demo_marshal demo_replica "alice" changes) as [receiver [[]|e]] eqn:E.
  - exists receiver. split; [exact Hc|]. split; [reflexivity|]. exact (proj1 Ha).
  - exfalso. assert ((ApplyPeerFolderChanges id demo_marshal demo_replica "alice"
      (match ChangesSince id demo_marshal demo_origin "pics" 0 with Ok c => c | Err _ => changes end)).2 = Ok tt) as Hok by (vm_compute; reflexivity).
    change (cursor folder_empty) with 0 in Hc. rewrite Hc, E in Hok. discriminate Hok.
Defined.

Lemma compaction_exact_witness :
  exists b' plan record, CompactFolderMetadata id demo_marshal demo_origin "docs" (mkCompactionPolicy [] 0) = (b', Ok (plan, record)) /\
    MetadataCompactionSnapshot_CompactedTombstones record = 1 /\
    get (badger_db b') (KCompaction "docs" 0) = Some (DocCompaction record).
Proof.
  pose proof (compaction_exact id demo_marshal demo_origin _ "docs" (mkCompactionPolicy [] 0) BadgerFolder.badger.demo_saved_holds eq_refl) as Hc.
  assert (match (CompactFolderMetadata id demo_marshal demo_origin "docs" (mkCompactionPolicy [] 0)).2 with
          | Ok (_, record) => MetadataCompactionSnapshot_CompactedTombstones record = 1 | Err _ => False end) as H1 by (vm_compute; reflexivity).
  destruct (CompactFolderMetadata _ _ _ _ _) as [b' [[plan record]|e]]; [|destruct H1].
  exists b', plan, record. split; [reflexivity|]. split; [exact H1|]. destruct Hc as (_ & _ & _ & _ & _ & _ & Hr & _).
  apply Hr. cbn in H1. rewrite H1. reflexivity.
Defined.
End badger.
