(* ===== verification/Glob.v ===== *)
(** * Glob patterns of ignore rules

    Models the pattern matching of [internal/scanner/scanner.go]: what it uses
    of Go's [path.Match], the translation of a pattern with [**] to a regular
    expression ([globToRegexp]), and [matchGlobPath], which tries both.

    A regular expression is a string, as in the code.  [parse] reads the
    expressions the translation writes: literals, escapes, [.], the classes, a
    star behind one of them and the group for [**/].  What an expression
    outside this fragment matches (a class that holds a bracket, or a byte that
    is not ASCII) is the argument [otherRegexp].

    The reference is the language of a pattern: a list of tokens, each with the
    set of texts it stands for. *)

From S2P Require Import Prelude GoStd.
From Stdlib Require Import Ascii.

(** ** Runes *)

(** [string(b)] of a byte: the encoding of the rune with that number. *)
Definition string_of_byte (c : ascii) : string :=
  let b := N_of_ascii c in
  if (b <? 128)%N then String c EmptyString
  else String (ascii_of_N (192 + b / 64)) (String (ascii_of_N (128 + b mod 64)) EmptyString).

(** ** path.Match *)

Module Path.

Inductive MatchErr := ErrBadPattern.

Fixpoint skip_stars (p : string) : bool * string :=
  match p with
  | String c p' => if bool_decide (c = "*"%char) then (true, (skip_stars p').2) else (false, p)
  | EmptyString => (false, EmptyString)
  end.

(** The chunk up to the next star outside a class, and what follows. *)
Fixpoint scan_chunk (inrange : bool) (p : string) : string * string :=
  match p with
  | EmptyString => (EmptyString, EmptyString)
  | String c p' =>
      if bool_decide (c = "\"%char) then
        match p' with
        | EmptyString => (String c EmptyString, EmptyString)
        | String d p'' => let '(chunk, rest) := scan_chunk inrange p'' in (String c (String d chunk), rest)
        end
      else if bool_decide (c = "*"%char) && negb inrange then (EmptyString, p)
      else
        let inrange' := if bool_decide (c = "["%char) then true else if bool_decide (c = "]"%char) then false else inrange in
        let '(chunk, rest) := scan_chunk inrange' p' in (String c chunk, rest)
  end.

Definition scanChunk (pattern : string) : bool * string * string :=
  let '(star, p) := skip_stars pattern in
  let '(chunk, rest) := scan_chunk false p in (star, chunk, rest).

Definition getEsc (chunk : string) : result MatchErr (rune * string) :=
  match chunk with
  | EmptyString => Err ErrBadPattern
  | String c rest =>
      if bool_decide (c = "-"%char) || bool_decide (c = "]"%char) then Err ErrBadPattern
      else
        let body := if bool_decide (c = "\"%char) then rest else chunk in
        if bool_decide (body = EmptyString) then Err ErrBadPattern
        else
          let '(r, n) := decode_rune body in
          if ((r =? RuneError)%N && (n =? 1)%nat) || bool_decide (drop_str n body = EmptyString) then Err ErrBadPattern
          else Ok (r, drop_str n body)
  end.

(** The ranges of a class: whether the rune is in one, and what follows. *)
Fixpoint classRanges (fuel : nat) (r : rune) (nrange : nat) (matched : bool) (chunk : string)
    : result MatchErr (bool * string) :=
  match fuel with
  | O => Err ErrBadPattern
  | S fuel' =>
      match chunk with
      | String "]"%char chunk' =>
          if (0 <? nrange)%nat then Ok (matched, chunk') else Err ErrBadPattern
      | _ =>
          '(lo, chunk1) ← getEsc chunk;
          '(hi, chunk2) ← (match chunk1 with String "-"%char c => getEsc c | _ => Ok (lo, chunk1) end);
          classRanges fuel' r (S nrange) (matched || in_range lo hi r) chunk2
      end
  end.

(** [None]: no match; the rest of the chunk is still checked. *)
Fixpoint matchChunk (fuel : nat) (chunk s : string) (failed : bool) : result MatchErr (option string) :=
  match fuel, chunk with
  | _, EmptyString => Ok (if failed then None else Some s)
  | O, _ => Err ErrBadPattern
  | S fuel', String c chunk' =>
      let failed := failed || bool_decide (s = EmptyString) in
      let literal (c : ascii) (chunk' : string) :=
        match failed, s with
        | false, String d s' => matchChunk fuel' chunk' s' (bool_decide (c <> d))
        | _, _ => matchChunk fuel' chunk' s true
        end in
      if bool_decide (c = "["%char) then
        let '(r, n) := if failed then (0%N, 0%nat) else decode_rune s in
        let '(negated, body) := match chunk' with String "^"%char b => (true, b) | _ => (false, chunk') end in
        '(matched, rest) ← classRanges (S (String.length body)) r 0 false body;
        matchChunk fuel' rest (drop_str n s) (failed || Bool.eqb matched negated)
      else if bool_decide (c = "?"%char) then
        if failed then matchChunk fuel' chunk' s true
        else matchChunk fuel' chunk' (drop_str (decode_rune s).2 s) (has_prefix s "/")
      else if bool_decide (c = "\"%char) then
        match chunk' with
        | EmptyString => Err ErrBadPattern
        | String d chunk'' => literal d chunk''
        end
      else literal c chunk'
  end.

Definition match_chunk (chunk s : string) : result MatchErr (option string) :=
  matchChunk (String.length chunk) chunk s false.

(** A match behind a star: at [name] itself, or after skipping bytes that are
    no slash.  [last] says that no pattern follows the chunk. *)
Fixpoint skipping (chunk : string) (last : bool) (name : string) : result MatchErr (option string) :=
  match name with
  | EmptyString => Ok None
  | String c name' =>
      if bool_decide (c = slash) then Ok None
      else
        t ← match_chunk chunk name';
        match t with
        | Some t => if last && bool_decide (t <> EmptyString) then skipping chunk last name' else Ok (Some t)
        | None => skipping chunk last name'
        end
  end.

(** The rest of a pattern that did not match is checked for its syntax. *)
Fixpoint checkRest (fuel : nat) (pattern : string) : result MatchErr bool :=
  match fuel, pattern with
  | _, EmptyString | O, _ => Ok false
  | S fuel', _ =>
      let '(_, chunk, rest) := scanChunk pattern in
      _ ← match_chunk chunk EmptyString; checkRest fuel' rest
  end.

(** Where matching goes on after a chunk: at once, or behind the star. *)
Definition advance (star : bool) (chunk rest name : string) : result MatchErr (option string) :=
  let last := bool_decide (rest = EmptyString) in
  t ← match_chunk chunk name;
  match t with
  | Some t' =>
      if bool_decide (t' = EmptyString) || negb last then Ok (Some t')
      else if star then skipping chunk last name else Ok None
  | None => if star then skipping chunk last name else Ok None
  end.

Fixpoint matchLoop (fuel : nat) (pattern name : string) : result MatchErr bool :=
  match fuel, pattern with
  | _, EmptyString => Ok (bool_decide (name = EmptyString))
  | O, _ => Err ErrBadPattern
  | S fuel', _ =>
      let '(star, chunk, rest) := scanChunk pattern in
      if star && bool_decide (chunk = EmptyString) then Ok (negb (contains_char name slash))
      else
        t ← advance star chunk rest name;
        match t with
        | Some t' => matchLoop fuel' rest t'
        | None => checkRest fuel' rest
        end
  end.

Definition Match (pattern name : string) : result MatchErr bool :=
  matchLoop (String.length pattern) pattern name.

(** [matched, err := path.Match(...); err == nil && matched] *)
Definition matches (pattern name : string) : bool :=
  match Match pattern name with Ok b => b | Err _ => false end.

End Path.

(** ** regexp: the expressions a pattern becomes *)

Module Regexp.

Definition special_char (c : ascii) : bool := contains_char "\.+*?()|[]{}^$" c.

(** [regexp.QuoteMeta(string(b))] of one byte. *)
Definition quote_byte (c : ascii) : string :=
  if special_char c then String "\"%char (String c EmptyString) else string_of_byte c.

Inductive node :=
| Lit (r : rune)
| Dot
| Class (negated : bool) (ranges : list (rune * rune)).

Inductive item :=
| One (n : node)
| Star (n : node)
| Dirs.

Inductive parsed :=
| Items (l : list item)
| Invalid
| Outside.

Definition dirs_group : string := "(?:.*/)?".

Definition push (i : item) (p : parsed) : parsed := match p with Items l => Items (i :: l) | other => other end.

(** One character of a class. *)
Definition class_char (s : string) : option (rune * string) :=
  match s with
  | String "\"%char (String c s') => if special_char c then Some (N_of_ascii c, s') else None
  | String "["%char (String ":"%char _) => None
  | String c s' => if bool_decide (c = "\"%char) || (128 <=? N_of_ascii c)%N then None else Some (N_of_ascii c, s')
  | EmptyString => None
  end.

(** The ranges up to the closing bracket, which counts as a character when it
    comes first.  [inl true]: outside the fragment, [inl false]: not valid. *)
Fixpoint class_ranges (fuel : nat) (first : bool) (s : string) : (bool + list (rune * rune) * string) :=
  match fuel with
  | O => inl true
  | S fuel' =>
      match s with
      | EmptyString => inl false
      | String c s' =>
          if bool_decide (c = "]"%char) && negb first then inr ([], s')
          else match class_char s with
               | None => inl true
               | Some (lo, s1) =>
                   let '(hi, s2) :=
                     match s1 with
                     | String "-"%char (String d s1') =>
                         if bool_decide (d = "]"%char) then (Some lo, s1)
                         else match class_char (String d s1') with Some (hi, s2) => (Some hi, s2) | None => (None, s1) end
                     | _ => (Some lo, s1)
                     end in
                   match hi with
                   | None => inl true
                   | Some hi =>
                       if (hi <? lo)%N then inl false
                       else match class_ranges fuel' false s2 with
                            | inl o => inl o
                            | inr (rs, rest) => inr ((lo, hi) :: rs, rest)
                            end
                   end
               end
      end
  end.

Definition class_at (s : string) : (bool + node * string) :=
  let '(negated, body) := match s with String "^"%char b => (true, b) | _ => (false, s) end in
  match class_ranges (S (String.length body)) true body with
  | inl o => inl o
  | inr (ranges, rest) => inr (Class negated ranges, rest)
  end.

(** [syntax.Parse]: of the fragment. *)
Fixpoint parse_items (fuel : nat) (s : string) : parsed :=
  match fuel, s with
  | _, EmptyString => Items []
  | O, _ => Outside
  | S fuel', String c s' =>
      let after (n : node) (rest : string) :=
        match rest with
        | String "*"%char rest' => push (Star n) (parse_items fuel' rest')
        | _ => push (One n) (parse_items fuel' rest)
        end in
      if has_prefix s dirs_group then push Dirs (parse_items fuel' (drop_str 8 s))
      else if bool_decide (c = "["%char) then
        match class_at s' with
        | inl true => Outside
        | inl false => Invalid
        | inr (n, rest) => after n rest
        end
      else if bool_decide (c = "\"%char) then
        match s' with
        | String d rest => if special_char d then after (Lit (N_of_ascii d)) rest else Outside
        | EmptyString => Invalid
        end
      else if bool_decide (c = "."%char) then after Dot s'
      else if special_char c then Outside
      else let '(r, n) := decode_rune s in
           if (r =? RuneError)%N && (n =? 1)%nat then Invalid else after (Lit r) (drop_str n s)
  end.

Definition parse (re : string) : parsed := parse_items (S (String.length re)) re.

(** A dot does not match a line break. *)
Definition node_matches (n : node) (r : rune) : bool :=
  match n with
  | Lit x => (x =? r)%N
  | Dot => negb (r =? 10)%N
  | Class negated ranges => xorb negated (existsb (fun lh => in_range lh.1 lh.2 r) ranges)
  end.

Fixpoint runes_of (fuel : nat) (s : string) : list rune :=
  match fuel, s with
  | O, _ | _, EmptyString => []
  | S fuel', _ => let '(r, n) := decode_rune s in r :: runes_of fuel' (drop_str n s)
  end.

(** Whether the items match the whole text; a matcher that tries every way. *)
Fixpoint items_match (l : list item) : list rune -> bool :=
  match l with
  | [] => fun rs => bool_decide (rs = [])
  | One n :: l' => fun rs => match rs with r :: rs' => node_matches n r && items_match l' rs' | [] => false end
  | Star n :: l' =>
      fix star rs := items_match l' rs || match rs with r :: rs' => node_matches n r && star rs' | [] => false end
  | Dirs :: l' => fun rs =>
      items_match l' rs ||
      (fix dirs rs := match rs with
                      | r :: rs' => ((r =? N_of_ascii slash)%N && items_match l' rs') || (node_matches Dot r && dirs rs')
                      | [] => false
                      end) rs
  end.

End Regexp.

(** ** scanner.go: patterns *)

Section globs.
(** [MatchString] of an expression outside the fragment. *)
Context (otherRegexp : string -> string -> bool).

(** [re, err := regexp.Compile("^" + re + "$"); err == nil && re.MatchString(rel)] *)
Definition regexpMatches (re rel : string) : bool :=
  match Regexp.parse re with
  | Regexp.Items l => Regexp.items_match l (Regexp.runes_of (String.length rel) rel)
  | Regexp.Invalid => false
  | Regexp.Outside => otherRegexp re rel
  end.

Fixpoint class_escapes (class : string) : string :=
  match class with
  | String "\"%char (String d class') => Regexp.quote_byte d +:+ class_escapes class'
  | String c class' => String c (class_escapes class')
  | EmptyString => EmptyString
  end.

Definition regexpCharClass (class : string) : string :=
  let '(head, class) := match class with String "!"%char c => ("^", c) | _ => (EmptyString, class) end in
  "[" +:+ head +:+ class_escapes class +:+ "]".

(** The class text up to an unescaped bracket, and what follows. *)
Fixpoint class_end (s : string) : option (string * string) :=
  match s with
  | EmptyString => None
  | String c s' =>
      if bool_decide (c = "\"%char) then
        match s' with
        | EmptyString => None
        | String d s'' => '(t, rest) ← class_end s''; Some (String c (String d t), rest)
        end
      else if bool_decide (c = "]"%char) then Some (EmptyString, s')
      else '(t, rest) ← class_end s'; Some (String c t, rest)
  end.

(** [globCharClass] at the text behind the opening bracket. *)
Definition globCharClass (s : string) : option (string * string) :=
  let '(mark, s1) :=
    match s with
    | String c s' => if bool_decide (c = "!"%char) || bool_decide (c = "^"%char) then (String c EmptyString, s') else (EmptyString, s)
    | EmptyString => (EmptyString, s)
    end in
  let '(bracket, s2) := match s1 with String "]"%char s' => ("]", s') | _ => (EmptyString, s1) end in
  '(t, rest) ← class_end s2; Some (regexpCharClass (mark +:+ bracket +:+ t), rest).

(** What follows [c] at the head of [s]. *)
Definition after_char (c : ascii) (s : string) : option string :=
  match s with
  | String d s' => if bool_decide (d = c) then Some s' else None
  | EmptyString => None
  end.

Fixpoint globToRegexp_from (fuel : nat) (pattern : string) : string :=
  match fuel, pattern with
  | O, _ | _, EmptyString => EmptyString
  | S fuel', String c p =>
      if bool_decide (c = "\"%char) then
        match p with
        | String d p' => Regexp.quote_byte d +:+ globToRegexp_from fuel' p'
        | EmptyString => Regexp.quote_byte c
        end
      else if bool_decide (c = "*"%char) then
        match after_char "*" p with
        | Some p1 =>
            match after_char slash p1 with
            | Some p2 => Regexp.dirs_group +:+ globToRegexp_from fuel' p2
            | None => ".*" +:+ globToRegexp_from fuel' p1
            end
        | None => "[^/]*" +:+ globToRegexp_from fuel' p
        end
      else if bool_decide (c = "?"%char) then "[^/]" +:+ globToRegexp_from fuel' p
      else if bool_decide (c = "["%char) then
        match globCharClass p with
        | Some (class, rest) => class +:+ globToRegexp_from fuel' rest
        | None => Regexp.quote_byte c +:+ globToRegexp_from fuel' p
        end
      else Regexp.quote_byte c +:+ globToRegexp_from fuel' p
  end.

Definition globToRegexp (pattern : string) : string := globToRegexp_from (String.length pattern) pattern.

Definition matchGlobPath (pattern rel : string) : bool :=
  Path.matches pattern rel || (contains pattern "**" && regexpMatches (globToRegexp pattern) rel).

End globs.

(** ** The reference: the language of a pattern *)

Inductive token :=
| GLit (c : ascii)
| GOne
| GSeg
| GDirs
| GAny.

(** The texts a token stands for: [?] one character of a name, [*] a part of a
    name, [**/] some directories, [**] anything. *)
Definition token_lang (t : token) (u : string) : Prop :=
  match t with
  | GLit c => u = String c EmptyString
  | GOne => exists c, c <> slash /\ u = String c EmptyString
  | GSeg => contains_char u slash = false
  | GDirs => u = EmptyString \/ exists v, u = v +:+ "/"
  | GAny => True
  end.

Inductive glob_lang : list token -> string -> Prop :=
| lang_nil : glob_lang [] EmptyString
| lang_cons t ts u s : token_lang t u -> glob_lang ts s -> glob_lang (t :: ts) (u +:+ s).

(** The tokens of a pattern without classes. *)
Fixpoint glob_tokens_from (fuel : nat) (p : string) : list token :=
  match fuel, p with
  | O, _ | _, EmptyString => []
  | S fuel', String c p' =>
      if bool_decide (c = "\"%char) then
        match p' with String d p'' => GLit d :: glob_tokens_from fuel' p'' | EmptyString => [GLit c] end
      else if bool_decide (c = "*"%char) then
        match after_char "*" p' with
        | Some p1 =>
            match after_char slash p1 with
            | Some p2 => GDirs :: glob_tokens_from fuel' p2
            | None => GAny :: glob_tokens_from fuel' p1
            end
        | None => GSeg :: glob_tokens_from fuel' p'
        end
      else if bool_decide (c = "?"%char) then GOne :: glob_tokens_from fuel' p'
      else GLit c :: glob_tokens_from fuel' p'
  end.

Definition glob_tokens (p : string) : list token := glob_tokens_from (String.length p) p.

(** The tokens [path.Match] sees, for which [**] is [*] twice. *)
Fixpoint path_tokens (p : string) : list token :=
  match p with
  | EmptyString => []
  | String c p' =>
      if bool_decide (c = "\"%char) then
        match p' with String d p'' => GLit d :: path_tokens p'' | EmptyString => [GLit c] end
      else if bool_decide (c = "*"%char) then GSeg :: path_tokens p'
      else if bool_decide (c = "?"%char) then GOne :: path_tokens p'
      else GLit c :: path_tokens p'
  end.

Definition is_ascii (c : ascii) : bool := (N_of_ascii c <? 128)%N.

(** An ASCII pattern without classes that does not end in a lone backslash. *)
Fixpoint classless (p : string) : bool :=
  match p with
  | EmptyString => true
  | String c p' =>
      if bool_decide (c = "\"%char) then
        match p' with String d p'' => is_ascii d && classless p'' | EmptyString => false end
      else is_ascii c && bool_decide (c <> "["%char) && classless p'
  end.

(** ** Properties *)

(** *** Texts and languages *)

Lemma string_pair_ind (P : string -> Prop) :
  P EmptyString -> (forall c, P (String c EmptyString)) ->
  (forall c d s, P s -> P (String d s) -> P (String c (String d s))) -> forall s, P s.
Proof.
  intros H0 H1 H2 s. enough (P s /\ forall c, P (String c s)) by tauto.
  induction s as [|d s [IH IH']]; [by split|]. split; [done|]. intros c. by apply H2.
Qed.

Lemma after_char_Some c s s' : after_char c s = Some s' <-> s = String c s'.
Proof.
  destruct s as [|d s]; simpl; [done|]. case_bool_decide as H; [by naive_solver|]. split; [done|]. intros [= -> _]. done.
Qed.

Lemma glob_lang_nil s : glob_lang [] s <-> s = EmptyString.
Proof. split; [by inversion 1|]. intros ->. constructor. Qed.

Lemma glob_lang_cons t ts s : glob_lang (t :: ts) s <-> exists u v, s = u +:+ v /\ token_lang t u /\ glob_lang ts v.
Proof. split; [inversion 1; naive_solver|]. intros (u & v & -> & Hu & Hv). by constructor. Qed.

Lemma glob_lang_app ts1 ts2 s :
  glob_lang (ts1 ++ ts2) s <-> exists u v, s = u +:+ v /\ glob_lang ts1 u /\ glob_lang ts2 v.
Proof.
  revert s. induction ts1 as [|t ts1 IH]; intros s; cbn [app].
  - split; [intros H; exists EmptyString, s; split; [done|]; split; [constructor|done]|].
    intros (u & v & -> & Hu%glob_lang_nil & Hv). by subst u.
  - rewrite glob_lang_cons. split.
    + intros (u & v & -> & Hu & (u' & v' & -> & H1 & H2)%IH). exists (u +:+ u'), v'.
      split; [by rewrite str_app_assoc|]. split; [by constructor|done].
    + intros (u & v & -> & (u1 & u2 & -> & H1 & H2)%glob_lang_cons & Hv). exists u1, (u2 +:+ v).
      split; [by rewrite str_app_assoc|]. split; [done|]. apply IH. by exists u2, v.
Qed.

Lemma lang_lit c ts s : glob_lang (GLit c :: ts) (String c s) <-> glob_lang ts s.
Proof.
  rewrite glob_lang_cons. split; [intros (u & v & H & -> & Hv); injection H as ->; done|].
  intros H. by exists (String c EmptyString), s.
Qed.

(** Two stars are one. *)
Lemma lang_seg_seg ts s : glob_lang (GSeg :: GSeg :: ts) s <-> glob_lang (GSeg :: ts) s.
Proof.
  rewrite !glob_lang_cons. split.
  - intros (u & v & -> & Hu & (u' & v' & -> & Hu' & Hv)%glob_lang_cons). exists (u +:+ u'), v'.
    rewrite str_app_assoc. split; [done|]. split; [|done]. simpl in *. by rewrite contains_char_app, Hu, Hu'.
  - intros (u & v & -> & Hu & Hv). exists EmptyString, (u +:+ v). split; [done|]. split; [done|]. by constructor.
Qed.

Lemma lang_seg_absorb u ts s : contains_char u slash = false -> glob_lang (GSeg :: ts) s -> glob_lang (GSeg :: ts) (u +:+ s).
Proof.
  intros Hu (v & w & -> & Hv & Hw)%glob_lang_cons. apply lang_seg_seg. constructor; [done|]. by constructor.
Qed.

(** *** Tokens of one character *)

Definition single (t : token) (c : ascii) : bool :=
  match t with
  | GLit x => bool_decide (x = c)
  | GOne => bool_decide (c <> slash)
  | _ => false
  end.

Definition is_single (t : token) : Prop := match t with GLit _ | GOne => True | _ => False end.

Fixpoint single_match (ts : list token) (s : string) : option string :=
  match ts, s with
  | [], _ => Some s
  | t :: ts', String c s' => if single t c then single_match ts' s' else None
  | _ :: _, EmptyString => None
  end.

Lemma single_lang t c : is_single t -> single t c = true <-> token_lang t (String c EmptyString).
Proof.
  destruct t; simpl; try done; intros _; rewrite bool_decide_eq_true.
  - split; [by intros ->|by intros [= ->]].
  - split; [intros H; by exists c|]. intros (c' & Hc & [= ->]). done.
Qed.

Lemma token_single t u : is_single t -> token_lang t u -> exists c, u = String c EmptyString.
Proof. destruct t; simpl; naive_solver. Qed.

Lemma single_match_lang ts s t : Forall is_single ts ->
  single_match ts s = Some t <-> exists u, s = u +:+ t /\ glob_lang ts u /\ String.length u = length ts.
Proof.
  intros Hts. revert s. induction Hts as [|x ts Hx Hts IH]; intros s; simpl.
  - split; [intros [= ->]; exists EmptyString; split; [done|]; split; [constructor|done]|].
    intros (u & -> & Hu%glob_lang_nil & _). by subst u.
  - destruct s as [|c s].
    { split; [done|]. intros (u & H & _ & Hl). destruct u; [done|done]. }
    split.
    + destruct (single x c) eqn:Hc; [|done]. intros (u & -> & Hu & Hl)%IH. exists (String c u).
      split; [done|]. split; [|simpl; by rewrite Hl]. change (String c u) with (String c EmptyString +:+ u).
      constructor; [by apply single_lang|done].
    + intros (u & Hs & (a & b & -> & Ha & Hb)%glob_lang_cons & Hl).
      destruct (token_single x a Hx Ha) as (d & ->). injection Hs as -> Hs. apply single_lang in Ha; [|done].
      rewrite Ha. apply IH. exists b. split; [done|]. split; [done|]. injection Hl as Hl. done.
Qed.

Lemma single_lang_length ts u : Forall is_single ts -> glob_lang ts u -> String.length u = length ts.
Proof.
  intros Hts. revert u. induction Hts as [|x ts Hx Hts IH]; intros u; [by intros ->%glob_lang_nil|].
  intros (a & b & -> & Ha & Hb)%glob_lang_cons. destruct (token_single x a Hx Ha) as (d & ->).
  by rewrite length_app_str, (IH b).
Qed.

(** *** path.Match *)

Definition ascii_str (s : string) : bool := forallb_str is_ascii s.

Lemma decode_ascii c s : is_ascii c = true -> decode_rune (String c s) = (N_of_ascii c, 1%nat).
Proof. unfold is_ascii, decode_rune. by intros ->. Qed.

Lemma has_prefix_slash c s : has_prefix (String c s) "/" = bool_decide (slash = c).
Proof. cbn. destruct s; by rewrite andb_true_r. Qed.

(** A chunk: part of a pattern in which no star is a wildcard. *)
Inductive chunk_ok : string -> Prop :=
| chunk_nil : chunk_ok EmptyString
| chunk_esc d s : is_ascii d = true -> chunk_ok s -> chunk_ok (String "\" (String d s))
| chunk_char c s : is_ascii c = true -> c <> "\"%char -> c <> "["%char -> c <> "*"%char -> chunk_ok s -> chunk_ok (String c s).

Lemma chunk_single chunk : chunk_ok chunk -> Forall is_single (path_tokens chunk).
Proof.
  induction 1 as [|d s Hd Hs IH|c s Hc H1 H2 H3 Hs IH]; cbn [path_tokens].
  - done.
  - rewrite bool_decide_eq_true_2 by done. by constructor.
  - rewrite !bool_decide_eq_false_2 by done. case_bool_decide; by constructor.
Qed.

Lemma matchChunk_failed n chunk s : chunk_ok chunk -> (String.length chunk <= n)%nat ->
  Path.matchChunk n chunk s true = Ok None.
Proof.
  intros Hc. revert n s. induction Hc as [|d c Hd Hs IH|c l Hc H1 H2 H3 Hs IH]; intros n s Hl; [by destruct n|..];
    (destruct n as [|n]; [simpl in Hl; lia|]); cbn [Path.matchChunk String.length] in *; cbv zeta; cbn [orb].
  - repeat (rewrite bool_decide_eq_false_2 by discriminate). rewrite bool_decide_eq_true_2 by done. apply IH. lia.
  - rewrite (bool_decide_eq_false_2 (c = "["%char)) by done. rewrite (bool_decide_eq_false_2 (c = "\"%char)) by done.
    case_bool_decide; apply IH; lia.
Qed.

Lemma matchChunk_single n chunk s : chunk_ok chunk -> (String.length chunk <= n)%nat -> ascii_str s = true ->
  Path.matchChunk n chunk s false = Ok (single_match (path_tokens chunk) s).
Proof.
  intros Hc. revert n s. induction Hc as [|d c Hd Hs IH|c l Hc H1 H2 H3 Hs IH]; intros n s Hl Ha; [by destruct n|..];
    (destruct n as [|n]; [simpl in Hl; lia|]); cbn [Path.matchChunk String.length] in *; cbv zeta; cbn [orb path_tokens].
  - repeat (rewrite (bool_decide_eq_false_2 ("\"%char = _)) by discriminate). rewrite bool_decide_eq_true_2 by done.
    destruct s as [|x s]; [rewrite (bool_decide_eq_true_2 (EmptyString = EmptyString)) by done; exact (matchChunk_failed n c EmptyString Hs ltac:(lia))|].
    rewrite bool_decide_eq_false_2 by done. cbn [single_match single].
    destruct (bool_decide_reflect (d = x)) as [->|Hne].
    + rewrite bool_decide_eq_false_2 by congruence. apply IH; [lia|]. unfold ascii_str in *. cbn in Ha. by apply andb_prop in Ha as [_ Ha].
    + rewrite bool_decide_eq_true_2 by done. apply matchChunk_failed; [done|lia].
  - rewrite (bool_decide_eq_false_2 (c = "["%char)) by done. rewrite !(bool_decide_eq_false_2 (c = "\"%char)) by done.
    rewrite (bool_decide_eq_false_2 (c = "*"%char)) by done.
    destruct s as [|x s].
    { rewrite (bool_decide_eq_true_2 (EmptyString = EmptyString)) by done. destruct (bool_decide_reflect (c = "?"%char)); exact (matchChunk_failed n l EmptyString Hs ltac:(lia)). }
    rewrite (bool_decide_eq_false_2 (String x s = EmptyString)) by done. cbn in Ha. apply andb_prop in Ha as [Hx Ha].
    destruct (bool_decide_reflect (c = "?"%char)) as [->|Hq]; cbn [single_match single].
    + rewrite decode_ascii, has_prefix_slash by done. cbn [snd drop_str].
      destruct (bool_decide_reflect (slash = x)) as [<-|Hne].
      * rewrite bool_decide_eq_false_2 by tauto. apply matchChunk_failed; [done|lia].
      * rewrite bool_decide_eq_true_2 by congruence. apply IH; [lia|done].
    + destruct (bool_decide_reflect (c = x)) as [->|Hne].
      * rewrite bool_decide_eq_false_2 by congruence. apply IH; [lia|done].
      * rewrite bool_decide_eq_true_2 by done. apply matchChunk_failed; [done|lia].
Qed.

(** A pattern falls into a chunk and a rest that begins with a star. *)
Definition star_or_end (p : string) : Prop := p = EmptyString \/ exists p', p = String "*" p'.

Lemma scan_chunk_char c q : c <> "\"%char -> c <> "["%char -> c <> "*"%char ->
  Path.scan_chunk false (String c q) = (let '(chunk, rest) := Path.scan_chunk false q in (String c chunk, rest)).
Proof.
  intros H1 H2 H3. cbn [Path.scan_chunk]. rewrite !bool_decide_eq_false_2 by done. cbn [andb].
  by destruct (bool_decide (c = "]"%char)).
Qed.

Definition char_token (c : ascii) : token := if bool_decide (c = "?"%char) then GOne else GLit c.

Lemma path_tokens_char c q : c <> "\"%char -> c <> "*"%char -> path_tokens (String c q) = char_token c :: path_tokens q.
Proof.
  intros H1 H2. cbn [path_tokens]. rewrite (bool_decide_eq_false_2 (c = "\"%char)), (bool_decide_eq_false_2 (c = "*"%char)) by done.
  unfold char_token. by destruct (bool_decide (c = "?"%char)).
Qed.

Lemma path_tokens_star q : path_tokens (String "*" q) = GSeg :: path_tokens q.
Proof. done. Qed.

Lemma path_tokens_esc d q : path_tokens (String "\" (String d q)) = GLit d :: path_tokens q.
Proof. done. Qed.

Lemma classless_char c q : c <> "\"%char -> classless (String c q) = true -> is_ascii c = true /\ c <> "["%char /\ classless q = true.
Proof.
  intros Hc. cbn [classless]. rewrite bool_decide_eq_false_2 by done. rewrite !andb_true_iff, bool_decide_eq_true. tauto.
Qed.

Lemma scan_chunk_spec p chunk rest : classless p = true -> Path.scan_chunk false p = (chunk, rest) ->
  p = chunk +:+ rest /\ chunk_ok chunk /\ star_or_end rest /\ classless rest = true
  /\ path_tokens p = (path_tokens chunk ++ path_tokens rest)%list.
Proof.
  assert (forall c q chunk rest, (forall chunk rest, classless q = true -> Path.scan_chunk false q = (chunk, rest) ->
    q = chunk +:+ rest /\ chunk_ok chunk /\ star_or_end rest /\ classless rest = true
    /\ path_tokens q = (path_tokens chunk ++ path_tokens rest)%list) ->
    c <> "\"%char -> classless (String c q) = true -> Path.scan_chunk false (String c q) = (chunk, rest) ->
    String c q = chunk +:+ rest /\ chunk_ok chunk /\ star_or_end rest /\ classless rest = true
    /\ path_tokens (String c q) = (path_tokens chunk ++ path_tokens rest)%list) as Hchar.
  { intros c q ch0 re0 IH Hb Hp. pose proof Hp as Hp'. apply classless_char in Hp' as (Ha & Hc & Hq); [|done].
    destruct (decide (c = "*"%char)) as [->|Hs].
    - intros [= <- <-]. split; [done|]. split; [constructor|]. split; [right; by eexists|]. by split.
    - rewrite scan_chunk_char by done. destruct (Path.scan_chunk false q) as [ch re] eqn:E. intros [= <- <-].
      destruct (IH _ _ Hq eq_refl) as (-> & H1 & H2 & H3 & H4). split; [done|]. split; [by constructor|]. split; [done|].
      split; [done|]. rewrite !path_tokens_char, H4 by done. done. }
  revert chunk rest. induction p as [|c|c d p IH IH'] using string_pair_ind; intros chunk rest Hp.
  - intros [= <- <-]. split; [done|]. split; [constructor|]. split; [by left|done].
  - destruct (decide (c = "\"%char)) as [->|Hb]; [done|]. apply Hchar; [|done..].
    intros ch re _ [= <- <-]. split; [done|]. split; [constructor|]. split; [by left|done].
  - destruct (decide (c = "\"%char)) as [->|Hb]; [|by apply Hchar].
    cbn [classless] in Hp. rewrite bool_decide_eq_true_2 in Hp by done. apply andb_prop in Hp as [Hd Hp].
    cbn [Path.scan_chunk]. rewrite bool_decide_eq_true_2 by done.
    destruct (Path.scan_chunk false p) as [ch re] eqn:E. intros [= <- <-].
    destruct (IH _ _ Hp eq_refl) as (-> & H1 & H2 & H3 & H4). split; [done|]. split; [by constructor|]. split; [done|].
    split; [done|]. by rewrite !path_tokens_esc, H4.
Qed.

Lemma skip_stars_spec p star p' : classless p = true -> Path.skip_stars p = (star, p') ->
  classless p' = true /\ (String.length p' <= String.length p)%nat /\
  (star = true -> (String.length p' < String.length p)%nat) /\
  (star = false -> p' = p) /\
  ~ (exists q, p' = String "*" q) /\
  forall s, glob_lang (path_tokens p) s <-> glob_lang ((if star then [GSeg] else []) ++ path_tokens p')%list s.
Proof.
  revert star p'. induction p as [|c p IH]; intros star p' Hp; cbn [Path.skip_stars].
  - intros [= <- <-]. split; [done|]. split; [lia|]. split; [done|]. split; [done|]. split; [|done].
    intros [q Hq]. discriminate Hq.
  - destruct (bool_decide_reflect (c = "*"%char)) as [->|Hs].
    + destruct (Path.skip_stars p) as [star' p1] eqn:E. intros [= <- <-].
      assert (classless p = true) as Hp'.
      { cbn in Hp. by apply andb_prop in Hp as [_ Hp]. }
      destruct (IH _ _ Hp' eq_refl) as (H1 & H2 & H3 & H4 & H5 & H6). cbn [snd String.length].
      split; [done|]. split; [lia|]. split; [lia|]. split; [done|]. split; [done|]. intros s. cbn [path_tokens].
      repeat (rewrite bool_decide_eq_false_2 by discriminate). rewrite bool_decide_eq_true_2 by done.
      cbn [app]. transitivity (glob_lang (GSeg :: ((if star' then [GSeg] else []) ++ path_tokens p1)%list) s).
      * rewrite !glob_lang_cons. by setoid_rewrite H6.
      * destruct star'; [apply lang_seg_seg|done].
    + intros [= <- <-]. split; [done|]. split; [lia|]. split; [done|]. split; [done|]. split; [|done].
      intros [q Hq]. congruence.
Qed.

Lemma star_or_end_lang rest s : star_or_end rest -> rest <> EmptyString ->
  forall u, contains_char u slash = false -> glob_lang (path_tokens rest) s -> glob_lang (path_tokens rest) (u +:+ s).
Proof.
  intros [->|[p' ->]] Hr u Hu; [done|]. apply lang_seg_absorb. done.
Qed.


(** A place behind the star where the chunk matches. *)
Record place (cs : list token) (last : bool) (name u t : string) : Prop := {
  place_split : exists w, name = u +:+ w /\ single_match cs w = Some t;
  place_name : contains_char u slash = false;
  place_last : last = true -> t = EmptyString
}.

Definition first_place (cs : list token) (last : bool) (name : string) (o : option string) : Prop :=
  match o with
  | Some t => exists u, place cs last name u t /\ forall u' t', place cs last name u' t' -> (String.length u <= String.length u')%nat
  | None => forall u t, ~ place cs last name u t
  end.

Lemma place_cons cs last c name u t :
  place cs last (String c name) (String c u) t <-> c <> slash /\ place cs last name u t.
Proof.
  split.
  - intros [(w & H & Hm) Hn Hl]. cbn in Hn. apply orb_false_iff in Hn as [Hc%bool_decide_eq_false Hn].
    split; [congruence|]. injection H as H. constructor; [by exists w|done|done].
  - intros [Hc [(w & -> & Hm) Hn Hl]]. constructor; [by exists w| |done]. cbn.
    by rewrite bool_decide_eq_false_2 by congruence.
Qed.

Lemma place_head cs last c name u t d : place cs last (String c name) (String d u) t -> d = c.
Proof. intros [(w & [= H] & _) _ _]. congruence. Qed.

Lemma match_chunk_single chunk s : chunk_ok chunk -> ascii_str s = true ->
  Path.match_chunk chunk s = Ok (single_match (path_tokens chunk) s).
Proof. intros. by apply matchChunk_single. Qed.

Lemma ascii_cons c s : ascii_str (String c s) = true -> is_ascii c = true /\ ascii_str s = true.
Proof. unfold ascii_str. cbn. by intros [H1 H2]%andb_prop. Qed.

Lemma skipping_first chunk last name : chunk_ok chunk -> ascii_str name = true ->
  exists o, Path.skipping chunk last name = Ok o /\
    match o with
    | Some t => exists c u, place (path_tokens chunk) last name (String c u) t
        /\ forall d u' t', place (path_tokens chunk) last name (String d u') t' -> (String.length u <= String.length u')%nat
    | None => forall d u' t', ~ place (path_tokens chunk) last name (String d u') t'
    end.
Proof.
  intros Hc. induction name as [|c name IH]; intros Ha; cbn [Path.skipping].
  { exists None. split; [done|]. intros d u t [(w & H & _) _ _]. done. }
  apply ascii_cons in Ha as [_ Ha]. case_bool_decide as Hs.
  { exists None. split; [done|]. intros d u t Hp. rewrite (place_head _ _ _ _ _ _ _ Hp) in Hp. by apply place_cons in Hp as []. }
  rewrite match_chunk_single by done. cbn.
  assert (forall t, place (path_tokens chunk) last name EmptyString t <->
    single_match (path_tokens chunk) name = Some t /\ (last = true -> t = EmptyString)) as Hhere.
  { intros t. split; [intros [(w & -> & Hm) _ Hl]; done|]. intros [Hm Hl]. constructor; [by exists name|done|done]. }
  destruct (IH Ha) as (o & -> & Ho). clear IH.
  destruct (match single_match (path_tokens chunk) name with Some t => negb (last && bool_decide (t <> EmptyString)) | None => false end) eqn:E.
  - destruct (single_match (path_tokens chunk) name) as [t|] eqn:Em; [|done]. apply negb_true_iff in E. rewrite E.
    exists (Some t). split; [done|]. exists c, EmptyString. split; [|intros; simpl; lia].
    apply place_cons. split; [done|]. apply Hhere. split; [done|]. intros ->. cbn in E. by apply bool_decide_eq_false, dec_stable in E.
  - assert (forall t, ~ place (path_tokens chunk) last name EmptyString t) as Hno.
    { intros t [Hm Hl]%Hhere. rewrite Hm in E. apply negb_false_iff, andb_prop in E as [El%Hl Et%bool_decide_eq_true]. done. }
    exists o. split.
    { destruct (single_match (path_tokens chunk) name) as [t|]; [|done]. apply negb_false_iff in E. by rewrite E. }
    destruct o as [t|].
    + destruct Ho as (d & u & Hp & Hmin). exists c, (String d u). split; [by apply place_cons|].
      intros e u' t' Hp'. rewrite (place_head _ _ _ _ _ _ _ Hp') in Hp'. apply place_cons in Hp' as [_ Hp'].
      destruct u' as [|d' u']; [by apply Hno in Hp'|]. simpl. apply Hmin in Hp'. lia.
    + intros e u' t' Hp'. rewrite (place_head _ _ _ _ _ _ _ Hp') in Hp'. apply place_cons in Hp' as [_ Hp'].
      destruct u' as [|d' u']; [by apply Hno in Hp'|]. by apply Ho in Hp'.
Qed.

Lemma advance_first chunk rest name : chunk_ok chunk -> ascii_str name = true ->
  exists o, Path.advance true chunk rest name = Ok o /\
    first_place (path_tokens chunk) (bool_decide (rest = EmptyString)) name o.
Proof.
  intros Hc Ha. unfold Path.advance. rewrite match_chunk_single by done. cbn.
  set (last := bool_decide (rest = EmptyString)).
  assert (forall t, place (path_tokens chunk) last name EmptyString t <->
    single_match (path_tokens chunk) name = Some t /\ (last = true -> t = EmptyString)) as Hhere.
  { intros t. split; [intros [(w & -> & Hm) _ Hl]; done|]. intros [Hm Hl]. constructor; [by exists name|done|done]. }
  destruct (skipping_first chunk last name Hc Ha) as (o & Hsk & Ho). rewrite Hsk.
  destruct (match single_match (path_tokens chunk) name with Some t => bool_decide (t = EmptyString) || negb last | None => false end) eqn:E.
  - destruct (single_match (path_tokens chunk) name) as [t|] eqn:Em; [|done]. rewrite E. exists (Some t). split; [done|].
    exists EmptyString. split; [|intros; simpl; lia]. apply Hhere. split; [done|]. intros ->. apply orb_true_iff in E as [E|E]; [|done].
    by apply bool_decide_eq_true in E.
  - assert (forall t, ~ place (path_tokens chunk) last name EmptyString t) as Hno.
    { intros t [Hm Hl]%Hhere. rewrite Hm in E. apply orb_false_iff in E as [Et%bool_decide_eq_false El%negb_false_iff]. by apply Et, Hl. }
    exists o. split.
    { destruct (single_match (path_tokens chunk) name) as [t|]; [by rewrite E|done]. }
    destruct o as [t|].
    + destruct Ho as (d & u & Hp & Hmin). exists (String d u). split; [done|]. intros u' t' Hp'.
      destruct u' as [|d' u']; [by apply Hno in Hp'|]. simpl. apply Hmin in Hp'. lia.
    + intros u' t' Hp'. destruct u' as [|d' u']; [by apply Hno in Hp'|]. by apply Ho in Hp'.
Qed.

Lemma advance_nostar chunk rest name : chunk_ok chunk -> ascii_str name = true ->
  Path.advance false chunk rest name = Ok (match single_match (path_tokens chunk) name with
    | Some t => if bool_decide (t = EmptyString) || negb (bool_decide (rest = EmptyString)) then Some t else None
    | None => None end).
Proof.
  intros Hc Ha. unfold Path.advance. rewrite match_chunk_single by done. cbn.
  by destruct (single_match _ _) as [t|]; [destruct (_ || _)|].
Qed.

(** A chunk that matches at two places of a name matches no slash. *)
Lemma two_places_slash ts s u v w w' t t' :
  Forall is_single ts -> s = u +:+ w -> s = v +:+ w' -> (String.length u < String.length v)%nat ->
  contains_char v slash = false -> single_match ts w = Some t -> single_match ts w' = Some t' -> GLit slash ∉ ts.
Proof.
  intros Hts Hu Hv Hl Hvs. revert s u v w w' t t' Hu Hv Hl Hvs.
  induction Hts as [|x ts Hx Hts IH]; intros s u v w w' t t' Hu Hv Hl Hvs Hm Hm'; [apply not_elem_of_nil|].
  destruct w as [|c w]; [done|]. destruct w' as [|c' w']; [done|]. cbn [single_match] in Hm, Hm'.
  destruct (single x c) eqn:Hc; [|done]. destruct (single x c') eqn:Hc'; [|done].
  rewrite Hv in Hu. symmetry in Hu. destruct (app_split_str u (String c w) v (String c' w') Hu) as (m & Hvm & Hcm); [lia|].
  destruct m as [|d m].
  { subst v. rewrite length_app_str in Hl. simpl in Hl. lia. }
  injection Hcm as <- Hw. assert (c <> slash) as Hcs.
  { intros ->. subst v. rewrite contains_char_app in Hvs. apply orb_false_iff in Hvs as [_ Hvs]. done. }
  rewrite not_elem_of_cons. split.
  { intros <-. cbn in Hc. apply bool_decide_eq_true in Hc. done. }
  destruct (decide (c' = slash)) as [->|Hne].
  { destruct x as [y| | | |]; cbn in Hc, Hc'; rewrite ?bool_decide_eq_true in Hc, Hc'; try done. congruence. }
  apply (IH s (u +:+ String c EmptyString) (v +:+ String c' EmptyString) w w' t t').
  - rewrite str_app_assoc. change (s = u +:+ String c w). congruence.
  - by rewrite str_app_assoc.
  - rewrite !length_app_str. simpl. lia.
  - rewrite contains_char_app, Hvs. cbn. by rewrite bool_decide_eq_false_2 by congruence.
  - done.
  - done.
Qed.

Lemma single_no_slash ts v : Forall is_single ts -> GLit slash ∉ ts -> glob_lang ts v -> contains_char v slash = false.
Proof.
  intros Hts. revert v. induction Hts as [|x ts Hx Hts IH]; intros v Hn; [by intros ->%glob_lang_nil|].
  apply not_elem_of_cons in Hn as [Hxs Hn]. intros (a & b & -> & Ha & Hb)%glob_lang_cons.
  rewrite contains_char_app, (IH b Hn Hb), orb_false_r.
  destruct x as [y| | | |]; cbn in Ha; try done; [subst a|destruct Ha as (c & Hc & ->)]; cbn;
    rewrite bool_decide_eq_false_2; (done || congruence).
Qed.

(** Taking the first place loses no match. *)
Lemma first_place_complete cs rest s o : Forall is_single cs -> star_or_end rest ->
  first_place cs (bool_decide (rest = EmptyString)) s o ->
  glob_lang (GSeg :: (cs ++ path_tokens rest))%list s <-> exists t, o = Some t /\ glob_lang (path_tokens rest) t.
Proof.
  intros Hcs Hrest Ho. split.
  - intros (u & x & -> & Hu & (v & w & -> & Hv & Hw)%glob_lang_app)%glob_lang_cons. cbn in Hu.
    assert (Hp : place cs (bool_decide (rest = EmptyString)) (u +:+ (v +:+ w)) u w).
    { constructor; [|done|].
      - exists (v +:+ w). split; [done|]. apply single_match_lang; [done|]. exists v. split; [done|]. split; [done|].
        by apply single_lang_length.
      - intros ->%bool_decide_eq_true. by apply glob_lang_nil. }
    destruct o as [t|]; [|by apply Ho in Hp]. destruct Ho as (u0 & [(w0 & Hs & Hm) Hn Hl] & Hmin).
    apply Hmin in Hp. exists t. split; [done|].
    destruct (decide (String.length u0 = String.length u)) as [Heq|Hlt].
    + destruct (app_split_str u0 w0 u (v +:+ w)) as (m & Hum & Hwm); [by symmetry|lia|].
      assert (m = EmptyString) as ->.
      { subst u. rewrite length_app_str in Heq. destruct m; [done|simpl in Heq; lia]. }
      apply single_match_lang in Hm as (v0 & -> & Hv0 & Hl0); [|done].
      assert (String.length v0 = String.length v) as Hlv by (rewrite Hl0; symmetry; by apply single_lang_length).
      destruct (app_split_str v0 t v w Hwm) as (m & -> & Ht); [lia|]. rewrite length_app_str in Hlv.
      destruct m; [by subst t|simpl in Hlv; lia].
    + assert (single_match cs (v +:+ w) = Some w) as Hmv.
      { apply single_match_lang; [done|]. exists v. split; [done|]. split; [done|]. by apply single_lang_length. }
      pose proof (two_places_slash cs _ u0 u w0 (v +:+ w) t w Hcs Hs eq_refl ltac:(lia) Hu Hm Hmv) as Hslash.
      pose proof (single_no_slash cs v Hcs Hslash Hv) as Hvs.
      apply single_match_lang in Hm as (v0 & -> & Hv0 & Hl0); [|done].
      assert (String.length v0 = String.length v) as Hlv by (rewrite Hl0; symmetry; by apply single_lang_length).
      rewrite <- !str_app_assoc in Hs. symmetry in Hs.
      destruct (app_split_str (u0 +:+ v0) t (u +:+ v) w Hs) as (m & Hum & ->); [rewrite !length_app_str; lia|].
      destruct (decide (rest = EmptyString)) as [->|Hne].
      { apply glob_lang_nil. apply Hl. by apply bool_decide_eq_true. }
      apply star_or_end_lang; [done|done| |done].
      apply (f_equal (fun s => contains_char s slash)) in Hum. rewrite !contains_char_app, Hu, Hvs in Hum.
      symmetry in Hum. by apply orb_false_iff in Hum as [_ ?].
  - intros (t & -> & Ht). destruct Ho as (u & [(w & -> & Hm) Hn _] & _).
    apply single_match_lang in Hm as (v & -> & Hv & _); [|done]. constructor; [done|]. apply glob_lang_app. by exists v, t.
Qed.

Lemma scanChunk_spec p star chunk rest : classless p = true -> p <> EmptyString -> Path.scanChunk p = (star, chunk, rest) ->
  chunk_ok chunk /\ star_or_end rest /\ classless rest = true /\ (String.length rest < String.length p)%nat /\
  (chunk = EmptyString -> rest = EmptyString) /\
  forall s, glob_lang (path_tokens p) s <->
    glob_lang ((if star then [GSeg] else []) ++ path_tokens chunk ++ path_tokens rest)%list s.
Proof.
  intros Hp Hne. unfold Path.scanChunk. destruct (Path.skip_stars p) as [star' p'] eqn:E1.
  destruct (Path.scan_chunk false p') as [ch re] eqn:E2. intros [= <- <- <-].
  destruct (skip_stars_spec p star' p' Hp E1) as (H1 & H2 & H3 & H4 & H5 & H6).
  destruct (scan_chunk_spec p' ch re H1 E2) as (-> & G1 & G2 & G3 & G4).
  assert (ch = EmptyString -> re = EmptyString) as Hre.
  { intros ->. destruct G2 as [->|[q ->]]; [done|]. destruct H5. by exists q. }
  split; [done|]. split; [done|]. split; [done|]. split; [|split; [done|by rewrite <- G4]].
  rewrite length_app_str in *. destruct star'; [specialize (H3 eq_refl); lia|]. specialize (H4 eq_refl).
  destruct ch as [|c ch]; [|subst p; rewrite length_app_str; simpl; lia].
  specialize (Hre eq_refl). subst re. by subst p.
Qed.

Lemma checkRest_ok n p : classless p = true -> Path.checkRest n p = Ok false.
Proof.
  revert p. induction n as [|n IH]; intros p Hp; [by destruct p|]. destruct p as [|c p]; [done|]. cbn [Path.checkRest].
  destruct (Path.scanChunk (String c p)) as [[star chunk] rest] eqn:E.
  destruct (scanChunk_spec _ _ _ _ Hp ltac:(done) E) as (H1 & _ & H3 & _). rewrite match_chunk_single by done. cbn. by apply IH.
Qed.

Lemma matchLoop_exact n p s : classless p = true -> ascii_str s = true -> (String.length p <= n)%nat ->
  exists b, Path.matchLoop n p s = Ok b /\ (b = true <-> glob_lang (path_tokens p) s).
Proof.
  revert p s. induction n as [|n IH]; intros p s Hp Ha Hl.
  { destruct p; [|simpl in Hl; lia]. eexists. split; [done|]. rewrite bool_decide_eq_true. symmetry. apply glob_lang_nil. }
  destruct p as [|c p].
  { eexists. split; [done|]. rewrite bool_decide_eq_true. symmetry. apply glob_lang_nil. }
  cbn [Path.matchLoop]. destruct (Path.scanChunk (String c p)) as [[star chunk] rest] eqn:E.
  destruct (scanChunk_spec _ _ _ _ Hp ltac:(done) E) as (H1 & H2 & H3 & H4 & H5 & H6). setoid_rewrite H6.
  pose proof (chunk_single _ H1) as Hs. assert (forall t, ascii_str t = true -> exists b, Path.matchLoop n rest t = Ok b
    /\ (b = true <-> glob_lang (path_tokens rest) t)) as IH' by (intros; apply IH; [done..|lia]).
  destruct star; cbn [andb app].
  - case_bool_decide as Hc.
    { rewrite (H5 Hc). subst chunk. eexists. split; [done|]. cbn. rewrite negb_true_iff, glob_lang_cons. split.
      - intros Hn. exists s, EmptyString. rewrite str_app_nil_r. repeat split; [done|constructor].
      - intros (u & v & -> & Hu & ->%glob_lang_nil). by rewrite str_app_nil_r. }
    destruct (advance_first chunk rest s H1 Ha) as (o & -> & Ho). cbn.
    setoid_rewrite (first_place_complete _ _ _ _ Hs H2 Ho). destruct o as [t|].
    + destruct Ho as (u & [(w & -> & Hm) _ _] & _). apply single_match_lang in Hm as (v & -> & _); [|done].
      unfold ascii_str in Ha. rewrite !forallb_str_app, !andb_true_iff in Ha. destruct (IH' t) as (b & -> & Hb); [tauto|].
      exists b. split; [done|]. rewrite Hb. naive_solver.
    + exists false. split; [by apply checkRest_ok|]. naive_solver.
  - rewrite advance_nostar by done. cbn. destruct (single_match (path_tokens chunk) s) as [t|] eqn:Em.
    + apply single_match_lang in Em as (v & -> & Hv & Hlv); [|done].
      assert (glob_lang (path_tokens chunk ++ path_tokens rest)%list (v +:+ t) <-> glob_lang (path_tokens rest) t) as Heqv.
      { rewrite glob_lang_app. split; [|intros Ht; by exists v, t]. intros (v' & t' & Heq & Hv' & Ht').
        apply single_lang_length in Hv'; [|done]. destruct (app_split_str v t v' t' Heq) as (m & -> & ->); [lia|].
        rewrite length_app_str in Hv'. by destruct m; [|simpl in Hv'; lia]. }
      setoid_rewrite Heqv. unfold ascii_str in Ha. rewrite forallb_str_app, andb_true_iff in Ha.
      destruct (_ || _) eqn:Ea; [apply IH', Ha|]. exists false. split; [by apply checkRest_ok|].
      apply orb_false_iff in Ea as [Et%bool_decide_eq_false Er%negb_false_iff%bool_decide_eq_true]. subst rest.
      split; [done|]. intros Ht%glob_lang_nil. done.
    + exists false. split; [by apply checkRest_ok|]. split; [done|]. rewrite glob_lang_app. intros (v & t & -> & Hv & Ht).
      assert (single_match (path_tokens chunk) (v +:+ t) = Some t) as Hm; [|congruence].
      apply single_match_lang; [done|]. exists v. split; [done|]. split; [done|]. by apply single_lang_length.
Qed.

Lemma Match_exact p s : classless p = true -> ascii_str s = true ->
  Path.matches p s = true <-> glob_lang (path_tokens p) s.
Proof.
  intros Hp Ha. unfold Path.matches, Path.Match.
  destruct (matchLoop_exact (String.length p) p s Hp Ha (Nat.le_refl _)) as (b & -> & Hb). done.
Qed.

(** *** The translation to a regular expression *)

Definition not_slash : Regexp.node := Regexp.Class true [(47, 47)%N].

Definition item_of (t : token) : Regexp.item :=
  match t with
  | GLit c => Regexp.One (Regexp.Lit (N_of_ascii c))
  | GOne => Regexp.One not_slash
  | GSeg => Regexp.Star not_slash
  | GDirs => Regexp.Dirs
  | GAny => Regexp.Star Regexp.Dot
  end.

Lemma starless_after {A} (s : string) (f : string -> A) (x : A) : after_char "*" s = None ->
  match s with String "*"%char r => f r | _ => x end = x.
Proof. destruct s as [|[[] [] [] [] [] [] [] []] r]; done. Qed.

Lemma quote_starless c s : is_ascii c = true -> after_char "*" (Regexp.quote_byte c +:+ s) = None.
Proof.
  unfold Regexp.quote_byte, string_of_byte. destruct (Regexp.special_char c) eqn:Hs; [done|]. unfold is_ascii. intros ->.
  rewrite app_cons_str. cbn [after_char]. rewrite bool_decide_eq_false_2; [done|]. by intros ->.
Qed.

Lemma classless_esc d q : classless (String "\" (String d q)) = true -> is_ascii d = true /\ classless q = true.
Proof. intros H. change (is_ascii d && classless q = true) in H. by apply andb_prop. Qed.

Lemma classless_star q : classless (String "*" q) = true -> classless q = true.
Proof. intros H. by apply classless_char in H as (_ & _ & H). Qed.

(** One step of the translation and of the tokens. *)
Inductive glob_step : string -> string -> token -> string -> Prop :=
| step_esc d q : is_ascii d = true -> glob_step (String "\" (String d q)) (Regexp.quote_byte d) (GLit d) q
| step_dirs q : glob_step (String "*" (String "*" (String slash q))) Regexp.dirs_group GDirs q
| step_any q : after_char slash q = None -> glob_step (String "*" (String "*" q)) ".*" GAny q
| step_seg q : after_char "*" q = None -> glob_step (String "*" q) "[^/]*" GSeg q
| step_one q : glob_step (String "?" q) "[^/]" GOne q
| step_lit c q : is_ascii c = true -> c <> "\"%char -> c <> "*"%char -> c <> "?"%char -> c <> "["%char ->
    glob_step (String c q) (Regexp.quote_byte c) (GLit c) q.

Lemma glob_steps n p : classless p = true -> p <> EmptyString ->
  exists re t q, glob_step p re t q /\ classless q = true /\ (String.length q < String.length p)%nat
    /\ globToRegexp_from (S n) p = re +:+ globToRegexp_from n q
    /\ glob_tokens_from (S n) p = t :: glob_tokens_from n q.
Proof.
  intros Hp Hne. destruct p as [|c p]; [done|]. cbn [globToRegexp_from glob_tokens_from].
  destruct (bool_decide_reflect (c = "\"%char)) as [->|Hb].
  { destruct p as [|d q]; [done|]. apply classless_esc in Hp as [Hd Hq]. exists (Regexp.quote_byte d), (GLit d), q.
    split; [by constructor|]. split; [done|]. split; [simpl; lia|done]. }
  destruct (bool_decide_reflect (c = "*"%char)) as [->|Hs].
  { apply classless_star in Hp. destruct (after_char "*" p) as [p1|] eqn:E1.
    - apply after_char_Some in E1 as ->. apply classless_star in Hp. destruct (after_char slash p1) as [p2|] eqn:E2.
      + apply after_char_Some in E2 as ->. exists Regexp.dirs_group, GDirs, p2. split; [constructor|].
        apply classless_char in Hp as (_ & _ & Hp); [|done]. split; [done|]. split; [simpl; lia|done].
      + exists ".*", GAny, p1. split; [by constructor|]. split; [done|]. split; [simpl; lia|done].
    - exists "[^/]*", GSeg, p. split; [by constructor|]. split; [done|]. split; [simpl; lia|done]. }
  pose proof Hp as Hp'. apply classless_char in Hp' as (Ha & Hc & Hq); [|done].
  destruct (bool_decide_reflect (c = "?"%char)) as [->|Hq1].
  { exists "[^/]", GOne, p. split; [constructor|]. split; [done|]. split; [simpl; lia|done]. }
  rewrite (bool_decide_eq_false_2 (c = "["%char)) by done. exists (Regexp.quote_byte c), (GLit c), p.
  split; [by constructor|]. split; [done|]. split; [simpl; lia|done].
Qed.

Lemma glob_starless n p : classless p = true -> after_char "*" (globToRegexp_from n p) = None.
Proof.
  intros Hp. destruct n as [|n]; [by destruct p|]. destruct (decide (p = EmptyString)) as [->|Hne]; [done|].
  destruct (glob_steps n p Hp Hne) as (re & t & q & Hstep & _ & _ & -> & _). inversion Hstep; subst; try done; by apply quote_starless.
Qed.

Lemma parse_quote m c s : is_ascii c = true -> after_char "*" s = None ->
  Regexp.parse_items (S m) (Regexp.quote_byte c +:+ s) = Regexp.push (Regexp.One (Regexp.Lit (N_of_ascii c))) (Regexp.parse_items m s).
Proof.
  intros Ha Hs. unfold Regexp.quote_byte, string_of_byte. destruct (Regexp.special_char c) eqn:Hc.
  - rewrite !app_cons_str, app_nil_str. transitivity (if Regexp.special_char c then
      match s with
      | String "*"%char r => Regexp.push (Regexp.Star (Regexp.Lit (N_of_ascii c))) (Regexp.parse_items m r)
      | _ => Regexp.push (Regexp.One (Regexp.Lit (N_of_ascii c))) (Regexp.parse_items m s)
      end else Regexp.Outside); [reflexivity|]. rewrite Hc. by apply starless_after.
  - pose proof Ha as Ha'. unfold is_ascii in Ha'. rewrite Ha'.
    rewrite app_cons_str, app_nil_str. cbn [Regexp.parse_items]. cbv zeta.
    assert (c <> "("%char /\ c <> "["%char /\ c <> "\"%char /\ c <> "."%char) as (H1 & H2 & H3 & H4).
    { repeat split; by intros ->. }
    cbn [has_prefix Regexp.dirs_group]. rewrite (bool_decide_eq_false_2 ("("%char = c)) by congruence. cbn [andb].
    rewrite (bool_decide_eq_false_2 (c = "["%char)), (bool_decide_eq_false_2 (c = "\"%char)),
      (bool_decide_eq_false_2 (c = "."%char)), Hc, decode_ascii by done.
    assert (N_of_ascii c <> RuneError) as Hr.
    { apply N.ltb_lt in Ha'. unfold RuneError. lia. }
    apply N.eqb_neq in Hr. rewrite Hr. cbn [andb drop_str]. by rewrite starless_after.
Qed.

Lemma parse_glob n m p : classless p = true -> (String.length p <= n)%nat -> (String.length (globToRegexp_from n p) <= m)%nat ->
  Regexp.parse_items m (globToRegexp_from n p) = Regexp.Items (item_of <$> glob_tokens_from n p).
Proof.
  revert m p. induction n as [|n IH]; intros m p Hp Hn Hm.
  { destruct p; [|simpl in Hn; lia]. by destruct m. }
  destruct (decide (p = EmptyString)) as [->|Hne]; [by destruct m|].
  destruct (glob_steps n p Hp Hne) as (re & t & q & Hstep & Hq & Hlq & Hre & Ht). rewrite Hre, Ht in *.
  rewrite length_app_str in Hm. assert (0 < String.length re)%nat as Hre0.
  { inversion Hstep; subst; simpl; try lia; unfold Regexp.quote_byte, string_of_byte; repeat case_match; simpl; lia. }
  destruct m as [|m]; [lia|]. specialize (IH m q Hq ltac:(lia) ltac:(lia)). pose proof (glob_starless n q Hq) as Hsl.
  set (rest := globToRegexp_from n q) in *. inversion Hstep; subst; cbn [fmap list_fmap item_of].
  - rewrite parse_quote, IH by done. done.
  - transitivity (Regexp.push Regexp.Dirs (Regexp.parse_items m rest)); [|by rewrite IH].
    clearbody rest. by destruct rest.
  - transitivity (Regexp.push (Regexp.Star Regexp.Dot) (Regexp.parse_items m rest)); [reflexivity|by rewrite IH].
  - transitivity (Regexp.push (Regexp.Star not_slash) (Regexp.parse_items m rest)); [reflexivity|by rewrite IH].
  - transitivity (match rest with
      | String "*"%char r => Regexp.push (Regexp.Star not_slash) (Regexp.parse_items m r)
      | _ => Regexp.push (Regexp.One not_slash) (Regexp.parse_items m rest)
      end); [reflexivity|]. by rewrite starless_after, IH.
  - rewrite parse_quote, IH by done. done.
Qed.

(** *** What the expression matches *)

Fixpoint codes (s : string) : list rune :=
  match s with EmptyString => [] | String c s' => N_of_ascii c :: codes s' end.

Lemma runes_ascii n s : ascii_str s = true -> (String.length s <= n)%nat -> Regexp.runes_of n s = codes s.
Proof.
  revert n. induction s as [|c s IH]; intros n Ha Hl; [by destruct n|]. destruct n as [|n]; [simpl in Hl; lia|].
  apply ascii_cons in Ha as [Hc Ha]. cbn [Regexp.runes_of]. rewrite decode_ascii by done. cbn [drop_str codes].
  rewrite IH; [done..|simpl in Hl; lia].
Qed.

Lemma codes_app a b : codes (a +:+ b) = (codes a ++ codes b)%list.
Proof. induction a as [|c a IH]; [done|]. rewrite app_cons_str. cbn. by rewrite IH. Qed.

Lemma codes_split s l1 l2 : codes s = (l1 ++ l2)%list -> exists a b, s = a +:+ b /\ codes a = l1 /\ codes b = l2.
Proof.
  revert s. induction l1 as [|x l1 IH]; intros s H; [by exists EmptyString, s|]. destruct s as [|c s]; [done|].
  injection H as <- H. destruct (IH s H) as (a & b & -> & <- & <-). by exists (String c a), b.
Qed.

Lemma codes_nil s : codes s = [] -> s = EmptyString.
Proof. by destruct s. Qed.

Lemma items_star n l rs : Regexp.items_match (Regexp.Star n :: l) rs = true <->
  exists r1 r2, rs = (r1 ++ r2)%list /\ Forall (fun r => Regexp.node_matches n r = true) r1 /\ Regexp.items_match l r2 = true.
Proof.
  induction rs as [|r rs IH]; cbn; rewrite orb_true_iff.
  - split; [intros [H|H]; [by exists [], []|done]|]. intros (r1 & r2 & H & _ & Hl). symmetry in H.
    apply app_eq_nil in H as [-> ->]. by left.
  - cbn in IH. rewrite andb_true_iff, IH. split.
    + intros [H|(Hr & r1 & r2 & -> & H1 & H2)]; [by exists [], (r :: rs)|]. exists (r :: r1), r2. split; [done|]. split; [by constructor|done].
    + intros ([|x r1] & r2 & H & H1 & H2); [left; cbn in H; by rewrite H|]. right. injection H as <- ->. apply Forall_cons in H1 as [Hx H1].
      split; [done|]. by exists r1, r2.
Qed.

Lemma items_dirs l rs : Regexp.items_match (Regexp.Dirs :: l) rs = true <->
  Regexp.items_match l rs = true \/
  exists r1 r2, rs = (r1 ++ N_of_ascii slash :: r2)%list /\ Forall (fun r => Regexp.node_matches Regexp.Dot r = true) r1
    /\ Regexp.items_match l r2 = true.
Proof.
  cbn [Regexp.items_match]. rewrite orb_true_iff. apply or_iff_compat_l.
  induction rs as [|r rs IH].
  - split; [done|]. by intros ([|x r1] & r2 & H & _).
  - rewrite orb_true_iff, !andb_true_iff, IH, N.eqb_eq. split.
    + intros [[-> H]|(Hr & r1 & r2 & -> & H1 & H2)]; [by exists [], rs|]. exists (r :: r1), r2. split; [done|]. split; [by constructor|done].
    + intros ([|x r1] & r2 & H & H1 & H2); injection H as -> ->; [by left|]. right. apply Forall_cons in H1 as [Hx H1].
      split; [done|]. by exists r1, r2.
Qed.

Lemma not_slash_matches c : Regexp.node_matches not_slash (N_of_ascii c) = true <-> c <> slash.
Proof.
  change (negb (in_range 47 47 (N_of_ascii c) || false) = true <-> c <> slash).
  rewrite orb_false_r. unfold in_range. rewrite negb_true_iff, andb_false_iff, !N.leb_gt. split.
  - intros H ->. change (N_of_ascii slash) with 47%N in H. lia.
  - intros H. assert (N_of_ascii c <> 47%N) as Hn; [|lia]. intros Hn. apply H.
    apply (f_equal ascii_of_N) in Hn. rewrite ascii_N_embedding in Hn. exact Hn.
Qed.

Lemma not_slash_codes u : Forall (fun r => Regexp.node_matches not_slash r = true) (codes u) <-> contains_char u slash = false.
Proof.
  induction u as [|c u IH]; cbn [codes contains_char]; [done|].
  rewrite Forall_cons, IH, not_slash_matches, orb_false_iff, bool_decide_eq_false. naive_solver.
Qed.

(** The line break, which a dot leaves out. *)
Definition newline : ascii := Ascii.ascii_of_nat 10.

Lemma dot_codes u : contains_char u newline = false -> Forall (fun r => Regexp.node_matches Regexp.Dot r = true) (codes u).
Proof.
  induction u as [|c u IH]; cbn [codes contains_char]; [done|]. rewrite orb_false_iff, bool_decide_eq_false. intros [Hc Hu].
  constructor; [|by apply IH]. cbn. apply negb_true_iff, N.eqb_neq. intros Hn. apply Hc.
  apply (f_equal ascii_of_N) in Hn. by rewrite ascii_N_embedding in Hn.
Qed.

Lemma items_exact ts s : contains_char s newline = false ->
  Regexp.items_match (item_of <$> ts) (codes s) = true <-> glob_lang ts s.
Proof.
  revert s. induction ts as [|t ts IH]; intros s Hn.
  { cbn. rewrite bool_decide_eq_true, glob_lang_nil. split; [apply codes_nil|by intros ->]. }
  rewrite fmap_cons, glob_lang_cons. destruct t; cbn [item_of].
  - destruct s as [|d s]; cbn [codes Regexp.items_match Regexp.node_matches]; [split; [done|by intros (u & v & H & -> & _)]|].
    cbn in Hn. apply orb_false_iff in Hn as [_ Hn]. rewrite andb_true_iff, N.eqb_eq, IH by done. split.
    + intros [Hc Hs]. exists (String d EmptyString), s. split; [done|]. split; [|done].
      apply (f_equal ascii_of_N) in Hc. rewrite !ascii_N_embedding in Hc. by rewrite Hc.
    + intros (u & v & H & -> & Hv). injection H as -> ->. done.
  - destruct s as [|d s]; cbn [codes Regexp.items_match]; [split; [done|by intros (u & v & H & (x & _ & ->) & _)]|].
    cbn in Hn. apply orb_false_iff in Hn as [_ Hn]. rewrite andb_true_iff, not_slash_matches, IH by done. split.
    + intros [Hc Hs]. exists (String d EmptyString), s. split; [done|]. split; [by exists d|done].
    + intros (u & v & H & (x & Hx & ->) & Hv). injection H as -> ->. done.
  - rewrite items_star. split.
    + intros (r1 & r2 & H & H1 & H2). apply codes_split in H as (a & b & -> & <- & <-).
      rewrite contains_char_app in Hn. apply orb_false_iff in Hn as [Ha Hb]. apply not_slash_codes in H1. apply IH in H2; [|done].
      by exists a, b.
    + intros (u & v & -> & Hu & Hv). rewrite contains_char_app in Hn. apply orb_false_iff in Hn as [Ha Hb].
      exists (codes u), (codes v). split; [by rewrite codes_app|]. split; [by apply not_slash_codes|by apply IH].
  - rewrite items_dirs. split.
    + intros [H|(r1 & r2 & H & H1 & H2)].
      * apply IH in H; [|done]. exists EmptyString, s. split; [done|]. split; [by left|done].
      * apply codes_split in H as (a & b & -> & <- & Hb). destruct b as [|d b]; [done|]. injection Hb as Hd <-.
        apply (f_equal ascii_of_N) in Hd. rewrite !ascii_N_embedding in Hd. subst d.
        rewrite contains_char_app in Hn. apply orb_false_iff in Hn as [Ha Hb]. cbn in Hb. apply IH in H2; [|done].
        exists (a +:+ "/"), b. split; [by rewrite str_app_assoc|]. split; [right; by exists a|done].
    + intros (u & v & -> & [->|[w ->]] & Hv); rewrite contains_char_app in Hn; apply orb_false_iff in Hn as [Ha Hb].
      * left. by apply IH.
      * right. rewrite contains_char_app in Ha. apply orb_false_iff in Ha as [Ha _].
        exists (codes w), (codes v). split; [by rewrite str_app_assoc, codes_app|]. split; [by apply dot_codes|by apply IH].
  - rewrite items_star. split.
    + intros (r1 & r2 & H & H1 & H2). apply codes_split in H as (a & b & -> & <- & <-).
      rewrite contains_char_app in Hn. apply orb_false_iff in Hn as [Ha Hb]. apply IH in H2; [|done]. by exists a, b.
    + intros (u & v & -> & _ & Hv). rewrite contains_char_app in Hn. apply orb_false_iff in Hn as [Ha Hb].
      exists (codes u), (codes v). split; [by rewrite codes_app|]. split; [by apply dot_codes|by apply IH].
Qed.

(** *** The two matchers together *)

Lemma lang_weaken (t : token) ts ts' s : (forall v, glob_lang ts v -> glob_lang ts' v) -> glob_lang (t :: ts) s -> glob_lang (t :: ts') s.
Proof. intros H (u & v & -> & Hu & Hv)%glob_lang_cons. constructor; [done|by apply H]. Qed.

(** What [path.Match] accepts is in the language of the pattern. *)
Lemma path_in_glob n p s : classless p = true -> (String.length p <= n)%nat ->
  glob_lang (path_tokens p) s -> glob_lang (glob_tokens_from n p) s.
Proof.
  revert p s. induction n as [|n IH]; intros p s Hp Hn; [destruct p; [done|simpl in Hn; lia]|].
  destruct (decide (p = EmptyString)) as [->|Hne]; [done|].
  destruct (glob_steps n p Hp Hne) as (re & t & q & Hstep & Hq & Hlq & _ & ->). specialize (IH q).
  assert (forall v, glob_lang (path_tokens q) v -> glob_lang (glob_tokens_from n q) v) as IH' by (intros; apply IH; [done|lia|done]).
  inversion Hstep; subst.
  - rewrite path_tokens_esc. by apply lang_weaken.
  - rewrite !path_tokens_star, lang_seg_seg, path_tokens_char by done.
    intros (u & v & -> & Hu & (u' & w & -> & -> & Hw)%glob_lang_cons)%glob_lang_cons.
    rewrite <- str_app_assoc. constructor; [right; by exists u|by apply IH'].
  - rewrite !path_tokens_star, lang_seg_seg. intros (u & v & -> & Hu & Hv)%glob_lang_cons. constructor; [done|by apply IH'].
  - rewrite path_tokens_star. by apply lang_weaken.
  - rewrite path_tokens_char by done. by apply lang_weaken.
  - rewrite path_tokens_char by done. unfold char_token. rewrite bool_decide_eq_false_2 by done. by apply lang_weaken.
Qed.

(** Without [**] the two readings of a pattern agree. *)
Lemma path_is_glob n p : classless p = true -> (String.length p <= n)%nat -> contains p "**" = false ->
  glob_tokens_from n p = path_tokens p.
Proof.
  revert p. induction n as [|n IH]; intros p Hp Hn Hc; [destruct p; [done|simpl in Hn; lia]|].
  destruct (decide (p = EmptyString)) as [->|Hne]; [done|].
  destruct (glob_steps n p Hp Hne) as (re & t & q & Hstep & Hq & Hlq & _ & ->).
  assert (forall c s, contains (String c s) "**" = false -> contains s "**" = false) as Htail.
  { intros c s H. cbn [contains] in H. by apply orb_false_iff in H as [_ H]. }
  inversion Hstep; subst; rewrite ?path_tokens_esc, ?path_tokens_star.
  - rewrite IH; [done|done|lia|]. by do 2 apply Htail in Hc.
  - done.
  - by destruct q.
  - rewrite IH; [done|done|lia|]. by apply Htail in Hc.
  - rewrite path_tokens_char, IH by (done || lia || by apply Htail in Hc). done.
  - rewrite path_tokens_char, IH by (done || lia || by apply Htail in Hc). unfold char_token. by rewrite bool_decide_eq_false_2.
Qed.

(** [C22] Glob matching is exact: a pattern of ASCII characters without classes (and
    without a backslash at its end), tried with [path.Match] and then with the
    regular expression it is translated to, matches a path exactly if the path is in
    the pattern's language, in which [?] is one character of a name, [*] a part of a
    name, [**/] any number of directories and [**] anything. The paths are ASCII and
    without line breaks. For classes and for letters beyond ASCII it fails:
    [escaped_dash_is_a_range], [recursive_pattern_beyond_ascii]. *)
Theorem matchGlobPath_exact otherRegexp p rel :
  classless p = true -> ascii_str rel = true -> contains_char rel newline = false ->
  matchGlobPath otherRegexp p rel = true <-> glob_lang (glob_tokens p) rel.
Proof.
  intros Hp Ha Hn. unfold matchGlobPath. rewrite orb_true_iff, andb_true_iff, Match_exact by done.
  assert (regexpMatches otherRegexp (globToRegexp p) rel = true <-> glob_lang (glob_tokens p) rel) as ->.
  { unfold regexpMatches, Regexp.parse, globToRegexp. rewrite parse_glob by (done || lia).
    rewrite runes_ascii by (done || lia). by apply items_exact. }
  split.
  - intros [H|[_ H]]; [|done]. by apply path_in_glob.
  - intros H. destruct (contains p "**") eqn:Hc; [by right|]. left. unfold glob_tokens in H. by rewrite path_is_glob in H.
Qed.

(** [**/*.log] stands for the logs of all directories. *)
Lemma matchGlobPath_exact_witness :
  glob_lang [GDirs; GSeg; GLit "."; GLit "l"; GLit "o"; GLit "g"] "a/b/x.log" /\
  ~ glob_lang [GDirs; GSeg; GLit "."; GLit "l"; GLit "o"; GLit "g"] "a/b.log/x".
Proof.
  split.
  - apply (proj1 (matchGlobPath_exact (fun _ _ => false) "**/*.log" "a/b/x.log" eq_refl eq_refl eq_refl)). vm_compute. reflexivity.
  - intros H. apply (proj2 (matchGlobPath_exact (fun _ _ => false) "**/*.log" "a/b.log/x" eq_refl eq_refl eq_refl)) in H.
    vm_compute in H. discriminate H.
Defined.

(** *** Where the translation goes wrong *)

(** An escaped dash in a class becomes a range of the regular expression:
    [**/[a\-z].txt] names three files and matches all letters. *)
Example escaped_dash_is_a_range :
  globToRegexp "**/[a\-z].txt" = "(?:.*/)?[a-z]\.txt" /\
  matchGlobPath (fun _ _ => false) "**/[a\-z].txt" "m.txt" = true /\
  Path.matches "[a\-z].txt" "m.txt" = false.
Proof. by vm_compute. Qed.

(** Bytes of a character beyond ASCII are written as runes of their own, so
    that a recursive pattern with such a character misses the files below. *)
Example recursive_pattern_beyond_ascii :
  matchGlobPath (fun _ _ => false) "é/**" "é/a/b" = false /\
  matchGlobPath (fun _ _ => false) "e/**" "e/a/b" = true.
Proof. by vm_compute. Qed.
