(* ===== verification/Scanner.v ===== *)
(** * Scanning a folder

    Models [internal/scanner/scanner.go]: the ignore rules of [.sync/ignore] and
    the files it includes, which paths they ignore, and the scan of a folder.

    The disk is a map from absolute clean paths to regular files; directories
    are the prefixes of its paths.  What else the system may answer is the
    environment [scanEnv]: how a folder's root is found, and which files cannot
    be read.  A map [seen] of visited files is threaded through the loading of
    ignore files, as the code shares it. *)

From S2P Require Import Prelude GoStd Block Paths Glob.
From Stdlib Require Import Ascii.

Local Open Scope Z_scope.

(** ** Rules *)

Record ignoreRule := mkIgnoreRule {
  rule_pattern : string;
  rule_include : bool;
  rule_anchored : bool;
  rule_directoryOnly : bool;
  rule_caseFold : bool
}.

Abbreviation syncIgnoreRules := (list ignoreRule).

Definition syncMetadataDir : string := ".sync".

(** [strings.TrimPrefix]. *)
Definition trim_prefix (s p : string) : string := if has_prefix s p then drop_str (String.length p) s else s.

Definition parseIgnoreInclude (line : string) : option string :=
  let directive := "#include" in
  if negb (has_prefix line directive) then None
  else
    let rest := drop_str (String.length directive) line in
    let separated := match rest with
      | EmptyString => true
      | String c _ => bool_decide (c = " "%char) || bool_decide (c = Ascii.ascii_of_nat 9)
      end in
    if negb separated then None
    else let name := trim_space rest in
         if bool_decide (name = EmptyString) then None else Some name.

(** The rule of a trimmed line that is neither empty, an include nor a comment. *)
Definition parseRule (line : string) : option ignoreRule :=
  let fold1 := has_prefix line "(?i)" in
  let line := trim_prefix line "(?i)" in
  let include := has_prefix line "!" in
  let line := if include then trim_space (trim_prefix line "!") else line in
  let fold2 := has_prefix line "(?i)" in
  let line := trim_prefix line "(?i)" in
  let anchored := has_prefix line "/" in
  let directoryOnly := has_suffix line "/" in
  let line := trim_suffix (trim_prefix line "/") "/" in
  if bool_decide (line = EmptyString) then None
  else Some (mkIgnoreRule line include anchored directoryOnly (fold1 || fold2)).

(** ** Environment *)

Inductive rootKind := RootDir | RootMissing | RootFails.

Record scanEnv := mkScanEnv {
  env_root : string -> rootKind;              (* walking the folder *)
  env_openFails : string -> bool;             (* an ignore file: any error but a missing file *)
  env_unreadable : string -> option string;   (* a file of the folder, and the error *)
  env_changeTime : string -> Z
}.

Inductive ScanErr :=
| ErrNotExist (path : string)
| ErrIgnoreFile (path : string)
| ErrTooLong (path : string)
| ErrWalk (root : string)
| ErrFuel.

Definition IsNotExist (e : ScanErr) : bool := match e with ErrNotExist _ => true | _ => false end.

(** ** Loading: bufio.Scanner and the ignore files *)

(** A line the scanner gives up on. *)
Definition MaxScanTokenSize : Z := 65536.

Definition line_too_long (line : string) : bool := MaxScanTokenSize <=? str_len line.

Definition file_lines (f : File) : list string :=
  split_on (Ascii.ascii_of_nat 10) (String.string_of_list_byte (File_data f)).

Section load.
Context (cwd : string) (env : scanEnv) (disk : gmap string File).

(** [filepath.Abs]. *)
Definition abs_path (p : string) : string := "/" +:+ join "/" (abs_elems cwd p).

Definition resolveIgnoreInclude (root name : string) : string :=
  if has_prefix name "/" then name else path_join root name.

(** The loop over the lines of a file, where [load] reads an included file. *)
Fixpoint loadLines (load : string -> gset string -> result ScanErr syncIgnoreRules * gset string)
    (root name : string) (lines : list string) (rules : syncIgnoreRules) (seen : gset string)
    : result ScanErr syncIgnoreRules * gset string :=
  match lines with
  | [] => (Ok rules, seen)
  | raw :: lines' =>
      if line_too_long raw then (Err (ErrTooLong name), seen)
      else
        let line := trim_space raw in
        if bool_decide (line = EmptyString) then loadLines load root name lines' rules seen
        else match parseIgnoreInclude line with
        | Some includeName =>
            match load (resolveIgnoreInclude root includeName) seen with
            | (Err e, seen') => if IsNotExist e then loadLines load root name lines' rules seen' else (Err e, seen')
            | (Ok included, seen') => loadLines load root name lines' (rules ++ included) seen'
            end
        | None =>
            if has_prefix line "#" then loadLines load root name lines' rules seen
            else match parseRule line with
                 | None => loadLines load root name lines' rules seen
                 | Some rule => loadLines load root name lines' (rules ++ [rule]) seen
                 end
        end
  end.

Fixpoint loadSyncIgnoreFile (fuel : nat) (root name : string) (seen : gset string)
    : result ScanErr syncIgnoreRules * gset string :=
  match fuel with
  | O => (Err ErrFuel, seen)
  | S fuel' =>
      let cleanName := abs_path name in
      if decide (cleanName ∈ seen) then (Ok [], seen)
      else
        let seen := {[cleanName]} ∪ seen in
        if env_openFails env cleanName then (Err (ErrIgnoreFile cleanName), seen)
        else match disk !! cleanName with
             | None => (Err (ErrNotExist cleanName), seen)
             | Some file => loadLines (loadSyncIgnoreFile fuel' root) root cleanName (file_lines file) [] seen
             end
  end.

Definition primary (root : string) : string := path_join (path_join root syncMetadataDir) "ignore".

(** Each file of the disk is opened once, and a last visit finds none. *)
Definition load_fuel : nat := S (size disk).

Definition loadSyncIgnoreRules (root : string) : result ScanErr syncIgnoreRules :=
  if env_openFails env (abs_path (primary root)) then Err (ErrIgnoreFile (abs_path (primary root)))
  else match disk !! abs_path (primary root) with
       | None => Ok []
       | Some _ => (loadSyncIgnoreFile load_fuel root (primary root) ∅).1
       end.

(** ** Includes that are missing inside the folder *)

Definition pathInsideRoot (root name : string) : bool :=
  bool_decide (abs_path name = abs_path root) || has_prefix (abs_path name) (abs_path root +:+ "/").

Fixpoint missingLines (search : string -> gset string -> result ScanErr (list string) * gset string)
    (root name : string) (lines : list string) (missing : list string) (seen : gset string)
    : result ScanErr (list string) * gset string :=
  match lines with
  | [] => (Ok (sort_by str_lt missing), seen)
  | raw :: lines' =>
      if line_too_long raw then (Err (ErrTooLong name), seen)
      else match parseIgnoreInclude (trim_space raw) with
           | None => missingLines search root name lines' missing seen
           | Some includeName =>
               match search (resolveIgnoreInclude root includeName) seen with
               | (Err e, seen') => (Err e, seen')
               | (Ok found, seen') => missingLines search root name lines' (missing ++ found) seen'
               end
           end
  end.

Fixpoint missingInShareSyncIgnoreIncludes (fuel : nat) (root name : string) (seen : gset string)
    : result ScanErr (list string) * gset string :=
  match fuel with
  | O => (Err ErrFuel, seen)
  | S fuel' =>
      let cleanName := abs_path name in
      if decide (cleanName ∈ seen) then (Ok [], seen)
      else
        let seen := {[cleanName]} ∪ seen in
        if env_openFails env cleanName then (Err (ErrIgnoreFile cleanName), seen)
        else match disk !! cleanName with
             | None => (Ok (if pathInsideRoot root cleanName then [path_rel cwd root cleanName] else []), seen)
             | Some file => missingLines (missingInShareSyncIgnoreIncludes fuel' root) root cleanName (file_lines file) [] seen
             end
  end.

Definition MissingInShareSyncIgnoreIncludes (root : string) : result ScanErr (list string) :=
  if env_openFails env (abs_path (primary root)) then Err (ErrIgnoreFile (abs_path (primary root)))
  else match disk !! abs_path (primary root) with
       | None => Ok []
       | Some _ => (missingInShareSyncIgnoreIncludes load_fuel root (primary root) ∅).1
       end.

End load.

(** ** Matching *)

Section matching.
Context (otherRegexp : string -> string -> bool).

(** [strings.Trim(s, "/")]. *)
Fixpoint trim_left_slashes (s : string) : string :=
  match s with
  | String c s' => if bool_decide (c = slash) then trim_left_slashes s' else s
  | EmptyString => EmptyString
  end.

Fixpoint trim_right_slashes (s : string) : string :=
  match s with
  | EmptyString => EmptyString
  | String c s' =>
      match trim_right_slashes s' with
      | EmptyString => if bool_decide (c = slash) then EmptyString else String c EmptyString
      | t => String c t
      end
  end.

Definition trim_slashes (s : string) : string := trim_right_slashes (trim_left_slashes s).

Definition matchDirectoryRule (rule : ignoreRule) (rel : string) : bool :=
  let prefix := trim_slashes (rule_pattern rule) in
  if bool_decide (prefix = EmptyString) then false
  else if rule_anchored rule then bool_decide (rel = prefix) || has_prefix rel (prefix +:+ "/")
  else bool_decide (rel = prefix) || has_prefix rel (prefix +:+ "/") || contains rel ("/" +:+ prefix +:+ "/").

(** The loop over the parts of a path that follow a slash. *)
Fixpoint matchBelow (pattern rel : string) : bool :=
  match rel with
  | EmptyString => false
  | String c rel' => (bool_decide (c = slash) && matchGlobPath otherRegexp pattern rel') || matchBelow pattern rel'
  end.

Definition matchPathRule (rule : ignoreRule) (rel : string) : bool :=
  let pattern := rule_pattern rule in
  if rule_anchored rule || contains pattern "/" then
    if matchGlobPath otherRegexp pattern rel then true
    else if rule_anchored rule then false
    else matchBelow pattern rel
  else Path.matches pattern (path_base rel).

Definition matchSyncIgnoreRule (rule : ignoreRule) (rel : string) : bool :=
  let folded := mkIgnoreRule (to_lower (rule_pattern rule)) (rule_include rule) (rule_anchored rule)
                  (rule_directoryOnly rule) (rule_caseFold rule) in
  let rule' := if rule_caseFold rule then folded else rule in
  let rel' := if rule_caseFold rule then to_lower rel else rel in
  if rule_directoryOnly rule' then matchDirectoryRule rule' rel' else matchPathRule rule' rel'.

(** The method [ignored] of the rules. *)
Definition ignored (rules : syncIgnoreRules) (rel : string) : bool :=
  foldl (fun ign rule => if matchSyncIgnoreRule rule rel then negb (rule_include rule) else ign) false rules.

Definition matchIgnorePattern (pattern rel : string) : bool :=
  let pattern := trim_prefix pattern "/" in
  if has_suffix pattern "/" then has_prefix rel (trim_suffix pattern "/" +:+ "/")
  else Path.matches pattern rel || (negb (contains pattern "/") && Path.matches pattern (path_base rel)).

Definition ignoredByPatterns (rel : string) (patterns : list string) : bool :=
  existsb (fun pattern => matchIgnorePattern pattern rel || has_suffix rel pattern) patterns.

End matching.

(** ** Scans *)

Record Options := mkOptions { Options_BlockSize : Z; Options_IgnoreSuffixes : list string }.

Inductive fileErr :=
| FileUnreadable (text : string)
| FileManifest (e : BlockErr)
| FileInvalid.

Record InaccessibleFile := mkInaccessible { InaccessibleFile_RelativePath : string; InaccessibleFile_Error : fileErr }.

Record ScannedFile := mkScannedFile { ScannedFile_RelativePath : string; ScannedFile_Manifest : Manifest }.

Record ScanResult := mkScanResult {
  ScanResult_Root : string;
  ScanResult_Files : list ScannedFile;
  ScanResult_Inaccessible : list InaccessibleFile
}.

(** The path of a file relative to [root], when it lies below it. *)
Definition below_root (root p : string) : option string :=
  if has_prefix p (root +:+ "/") then Some (drop_str (S (String.length root)) p) else None.

Section scan.
Context (sha256 : bytes -> bytes) (otherRegexp : string -> string -> bool) (cwd : string) (env : scanEnv).
Context (disk : gmap string File).

Definition fileManifest (path : string) (blockSize : Z) (hashBlocks : bool) : result fileErr Manifest :=
  match env_unreadable env path with
  | Some text => Err (FileUnreadable text)
  | None =>
      if hashBlocks then
        match BuildManifest sha256 disk path blockSize with
        | Err e => Err (FileManifest e)
        | Ok m => Ok (mkManifest (Manifest_Path m) (Manifest_Size m) (Manifest_BlockSize m) (Manifest_Blocks m)
                        (Manifest_HashState m) (Manifest_Damaged m) (Manifest_ModTimeUnixNano m) (env_changeTime env path) 0 0)
        end
      else if blockSize <=? 0 then Err FileInvalid
      else match disk !! path with
           | None => Err (FileManifest (ErrOpen path))
           | Some f => Ok (mkManifest path (file_size f) blockSize [] "unknown" false (File_mtime f) (env_changeTime env path) 0 0)
           end
  end.

Definition ScanFile (path : string) (blockSize : Z) := fileManifest path blockSize true.
Definition ScanFileMetadataOnly (path : string) (blockSize : Z) := fileManifest path blockSize false.

(** One entry of the walk. *)
Definition visitEntry (opts : Options) (hashBlocks : bool) (rules : syncIgnoreRules) (result : ScanResult)
    (entry : string * string) : ScanResult :=
  let '(rel, path) := entry in
  if ignoredByPatterns rel (Options_IgnoreSuffixes opts) || ignored otherRegexp rules rel then result
  else match fileManifest path (Options_BlockSize opts) hashBlocks with
       | Err e => mkScanResult (ScanResult_Root result) (ScanResult_Files result)
                    (ScanResult_Inaccessible result ++ [mkInaccessible rel e])
       | Ok manifest => mkScanResult (ScanResult_Root result) (ScanResult_Files result ++ [mkScannedFile rel manifest])
                          (ScanResult_Inaccessible result)
       end.

(** The files the walk reaches: those below the root but not below its
    metadata directory. *)
Definition walked_files (root : string) : list (string * string) :=
  omap (fun p => rel ← below_root root p;
                 if has_prefix rel (syncMetadataDir +:+ "/") then None else Some (rel, p)) (map_to_list disk).*1.

Definition by_path (a b : ScannedFile) : bool := str_lt (ScannedFile_RelativePath a) (ScannedFile_RelativePath b).
Definition by_inaccessible (a b : InaccessibleFile) : bool :=
  str_lt (InaccessibleFile_RelativePath a) (InaccessibleFile_RelativePath b).

Definition scanFolder (root : string) (opts : Options) (hashBlocks : bool) : result ScanErr ScanResult :=
  rules ← loadSyncIgnoreRules cwd env disk root;
  match env_root env root with
  | RootMissing => Err (ErrNotExist root)
  | RootFails => Err (ErrWalk root)
  | RootDir =>
      let found := foldl (visitEntry opts hashBlocks rules) (mkScanResult root [] []) (walked_files root) in
      Ok (mkScanResult root (sort_by by_path (ScanResult_Files found))
            (sort_by by_inaccessible (ScanResult_Inaccessible found)))
  end.

Definition ScanFolder (root : string) (opts : Options) := scanFolder root opts true.
Definition ScanFolderMetadataOnly (root : string) (opts : Options) := scanFolder root opts false.

Definition LoadSyncIgnoreMatcher (root : string) : result ScanErr syncIgnoreRules := loadSyncIgnoreRules cwd env disk root.

(** The method [IsIgnored] of the matcher. *)
Definition IsIgnored (matcher : syncIgnoreRules) (rel : string) : bool := ignored otherRegexp matcher rel.

Definition IsSyncIgnored (root rel : string) : result ScanErr bool :=
  matcher ← LoadSyncIgnoreMatcher root; Ok (IsIgnored matcher rel).

End scan.

(** ** Properties *)

(** *** Loading *)

Section load_proofs.
Context (cwd : string) (env : scanEnv) (disk : gmap string File) (root : string).

(** What a line of an ignore file says. *)
Definition line_include (raw : string) : option string :=
  (fun name => abs_path cwd (resolveIgnoreInclude root name)) <$> parseIgnoreInclude (trim_space raw).

Definition line_rule (raw : string) : option ignoreRule :=
  let line := trim_space raw in
  if bool_decide (line = EmptyString) then None
  else match parseIgnoreInclude line with
       | Some _ => None
       | None => if has_prefix line "#" then None else parseRule line
       end.

Definition line_of (p raw : string) : Prop := exists f, disk !! p = Some f /\ raw ∈ file_lines f.

(** The files reached by includes. *)
Inductive reaches : string -> string -> Prop :=
| reaches_here p : reaches p p
| reaches_include p raw q r : line_of p raw -> line_include raw = Some q -> reaches q r -> reaches p r.

Lemma parse_nothing line : bool_decide (line = EmptyString) = true -> parseIgnoreInclude line = None.
Proof. by intros ->%bool_decide_eq_true. Qed.

Abbreviation loader := (string -> gset string -> result ScanErr syncIgnoreRules * gset string).

Lemma loadLines_mono (load : loader) name lines rules seen :
  (forall n s, s ⊆ (load n s).2) -> seen ⊆ (loadLines load root name lines rules seen).2.
Proof.
  intros Hload. revert rules seen. induction lines as [|raw lines IH]; intros rules seen; cbn [loadLines]; [done|].
  destruct (line_too_long raw); [done|]. cbv zeta. destruct (bool_decide _); [apply IH|].
  destruct (parseIgnoreInclude _) as [inc|]; [|destruct (has_prefix _ _); [apply IH|]; destruct (parseRule _); apply IH].
  specialize (Hload (resolveIgnoreInclude root inc) seen). destruct (load _ seen) as [[rs|e] seen']; cbn in Hload.
  - etransitivity; [exact Hload|apply IH].
  - destruct (IsNotExist e); [|done]. etransitivity; [exact Hload|apply IH].
Qed.

Lemma load_mono fuel name seen : seen ⊆ (loadSyncIgnoreFile cwd env disk fuel root name seen).2.
Proof.
  revert name seen. induction fuel as [|fuel IH]; intros name seen; cbn [loadSyncIgnoreFile]; [done|]. cbv zeta.
  destruct (decide _); [done|]. destruct (env_openFails _ _); [set_solver|].
  destruct (disk !! _) as [f|]; [|set_solver]. etransitivity; [|apply loadLines_mono; exact IH]. set_solver.
Qed.

(** The work left: files not visited yet. *)
Definition unvisited (seen : gset string) : nat := size (dom disk ∖ seen).

Lemma unvisited_mono seen seen' : seen ⊆ seen' -> (unvisited seen' <= unvisited seen)%nat.
Proof. intros H. unfold unvisited. apply subseteq_size. set_solver. Qed.

Lemma unvisited_visit seen p f : disk !! p = Some f -> p ∉ seen -> (S (unvisited ({[p]} ∪ seen)) <= unvisited seen)%nat.
Proof.
  intros Hf Hp. unfold unvisited. assert (p ∈ dom disk) by (by eapply elem_of_dom_2).
  replace (dom disk ∖ seen) with ({[p]} ∪ dom disk ∖ ({[p]} ∪ seen)).
  - rewrite (size_union {[p]} (dom disk ∖ ({[p]} ∪ seen))) by set_solver. rewrite size_singleton. lia.
  - apply set_eq. intros x. destruct (decide (x = p)); set_solver.
Qed.

Lemma loadLines_fuel (load : loader) name lines rules seen k :
  (forall n s, s ⊆ (load n s).2) -> (forall n s, (unvisited s < k)%nat -> (load n s).1 <> Err ErrFuel) ->
  (unvisited seen < k)%nat -> (loadLines load root name lines rules seen).1 <> Err ErrFuel.
Proof.
  intros Hmono Hload. revert rules seen. induction lines as [|raw lines IH]; intros rules seen Hk; cbn [loadLines]; [done|].
  destruct (line_too_long raw); [done|]. cbv zeta. destruct (bool_decide _); [by apply IH|].
  destruct (parseIgnoreInclude _) as [inc|]; [|destruct (has_prefix _ _); [by apply IH|]; destruct (parseRule _); by apply IH].
  pose proof (Hload (resolveIgnoreInclude root inc) seen Hk) as He. pose proof (Hmono (resolveIgnoreInclude root inc) seen) as Hm.
  destruct (load _ seen) as [[rs|e] seen']; cbn in He, Hm; apply unvisited_mono in Hm.
  - apply IH. lia.
  - destruct (IsNotExist e); [apply IH; lia|]. cbn. congruence.
Qed.

Lemma load_fuel_enough fuel name seen : (unvisited seen < fuel)%nat ->
  (loadSyncIgnoreFile cwd env disk fuel root name seen).1 <> Err ErrFuel.
Proof.
  revert name seen. induction fuel as [|fuel IH]; intros name seen Hk; [lia|]. cbn [loadSyncIgnoreFile]. cbv zeta.
  destruct (decide _) as [|Hs]; [done|]. destruct (env_openFails _ _); [done|].
  destruct (disk !! _) as [f|] eqn:Hf; [|done]. apply (loadLines_fuel _ _ _ _ _ fuel); [apply load_mono|exact IH|].
  pose proof (unvisited_visit seen _ f Hf Hs). lia.
Qed.

(** What a visit contributes. *)
Definition file_rule (p : string) (r : ignoreRule) : Prop := exists raw, line_of p raw /\ line_rule raw = Some r.

Definition fresh (seen seen' : gset string) (p : string) : Prop := p ∈ seen' /\ p ∉ seen.

Definition closed_step (seen seen' : gset string) : Prop :=
  forall p raw q, fresh seen seen' p -> line_of p raw -> line_include raw = Some q -> q ∈ seen'.

Record visits (seen : gset string) (from : string -> Prop) (own : ignoreRule -> Prop) (rules : syncIgnoreRules) (seen' : gset string) : Prop := {
  visits_mono : seen ⊆ seen';
  visits_reach : forall p, fresh seen seen' p -> exists q, from q /\ reaches q p;
  visits_from : forall q, from q -> q ∈ seen';
  visits_closed : closed_step seen seen';
  visits_rules : forall r, r ∈ rules <-> own r \/ exists p, fresh seen seen' p /\ file_rule p r
}.

Definition outcome (res : result ScanErr syncIgnoreRules) : option syncIgnoreRules :=
  match res with Ok rules => Some rules | Err e => if IsNotExist e then Some [] else None end.

Lemma visits_nothing seen rules own : (forall r, r ∈ rules <-> own r) -> visits seen (fun _ => False) own rules seen.
Proof.
  intros Hr. constructor; [done|by intros p [??]|done|by intros p raw q [??]|].
  intros r. rewrite Hr. split; [by left|]. by intros [?|(p & [??] & _)].
Qed.

Lemma visits_seq seen (from1 from2 : string -> Prop) own1 own2 rules1 rules2 seen1 seen2 :
  visits seen from1 own1 rules1 seen1 -> visits seen1 from2 own2 rules2 seen2 ->
  visits seen (fun q => from1 q \/ from2 q) (fun r => own1 r \/ own2 r) (rules1 ++ rules2) seen2.
Proof.
  intros [M1 R1 F1 C1 L1] [M2 R2 F2 C2 L2].
  assert (forall p, fresh seen seen2 p <-> fresh seen seen1 p \/ fresh seen1 seen2 p) as Hf.
  { intros p. unfold fresh. specialize (M1 p). specialize (M2 p). destruct (decide (p ∈ seen1)); naive_solver. }
  constructor.
  - by etransitivity.
  - intros p [Hp|Hp]%Hf; [apply R1 in Hp|apply R2 in Hp]; destruct Hp as (q & ? & ?); exists q; auto.
  - intros q [Hq|Hq]; [by apply M2, F1|by apply F2].
  - intros p raw q [Hp|Hp]%Hf Hl Hi; [by apply M2, (C1 p raw)|by apply (C2 p raw)].
  - intros r. rewrite elem_of_app, L1, L2. setoid_rewrite Hf. split.
    + intros [[?|(p & ? & ?)]|[?|(p & ? & ?)]]; eauto 6.
    + intros [[?|?]|(p & [?|?] & ?)]; eauto 6.
Qed.

Lemma visits_weaken seen (from from' : string -> Prop) (own own' : ignoreRule -> Prop) rules seen' :
  visits seen from own rules seen' -> (forall q, from' q <-> from q) -> (forall r, own' r <-> own r) ->
  visits seen from' own' rules seen'.
Proof.
  intros [M R F C L] Hq Hr. constructor; [done| | |done|].
  - intros p Hp. destruct (R p Hp) as (q & H & ?). exists q. by rewrite Hq.
  - intros q. rewrite Hq. apply F.
  - intros r. by rewrite Hr.
Qed.

(** One line: what it contributes, and the loop goes on. *)
Lemma loadLine_visits (load : loader) name raw lines rules seen rules' seen' :
  (forall n s res s' rs, load n s = (res, s') -> outcome res = Some rs -> visits s (fun q => q = abs_path cwd n) (fun _ => False) rs s') ->
  loadLines load root name (raw :: lines) rules seen = (Ok rules', seen') ->
  exists rules1 seen1, visits seen (fun q => line_include raw = Some q) (fun r => line_rule raw = Some r) rules1 seen1 /\
    loadLines load root name lines (rules ++ rules1) seen1 = (Ok rules', seen').
Proof.
  intros Hload. cbn [loadLines]. destruct (line_too_long raw); [done|]. cbv zeta. unfold line_include, line_rule.
  assert (forall own, (forall r : ignoreRule, own r <-> False) -> visits seen (fun q : string => None = Some q) own [] seen) as Hnone.
  { intros own Ho. apply (visits_weaken seen (fun _ => False) _ own own); [apply visits_nothing|done|done].
    intros r. rewrite Ho. split; [by intros ?%elem_of_nil|done]. }
  destruct (bool_decide (trim_space raw = EmptyString)) eqn:Eempty.
  { rewrite parse_nothing by done. intros H. exists [], seen. rewrite app_nil_r. split; [|done]. by apply Hnone. }
  destruct (parseIgnoreInclude (trim_space raw)) as [inc|].
  - destruct (load _ seen) as [res seen1] eqn:El. intros H. assert (exists rs, outcome res = Some rs /\
      loadLines load root name lines (rules ++ rs) seen1 = (Ok rules', seen')) as (rs & Ho & Hrest).
    { destruct res as [rs|e]; cbn in *; [by exists rs|]. destruct (IsNotExist e); [|done]. exists []. by rewrite app_nil_r. }
    exists rs, seen1. split; [|done]. specialize (Hload _ _ _ _ _ El Ho).
    eapply visits_weaken; [exact Hload|..]; [|by naive_solver]. intros q. cbn. by naive_solver.
  - cbn. destruct (has_prefix (trim_space raw) "#").
    { intros H. exists [], seen. rewrite app_nil_r. split; [|done]. by apply Hnone. }
    destruct (parseRule (trim_space raw)) as [rule|].
    + intros H. exists [rule], seen. split; [|done]. apply (visits_weaken seen (fun _ => False) _ (fun r => r = rule)); [apply visits_nothing| |].
      * intros r. apply list_elem_of_singleton.
      * done.
      * naive_solver.
    + intros H. exists [], seen. rewrite app_nil_r. split; [|done]. by apply Hnone.
Qed.

Lemma loadLines_visits (load : loader) name lines rules seen rules' seen' :
  (forall n s res s' rs, load n s = (res, s') -> outcome res = Some rs -> visits s (fun q => q = abs_path cwd n) (fun _ => False) rs s') ->
  loadLines load root name lines rules seen = (Ok rules', seen') ->
  exists added, rules' = rules ++ added /\
    visits seen (fun q => exists raw, raw ∈ lines /\ line_include raw = Some q)
      (fun r => exists raw, raw ∈ lines /\ line_rule raw = Some r) added seen'.
Proof.
  intros Hload. revert rules seen. induction lines as [|raw lines IH]; intros rules seen H.
  { injection H as <- <-. exists []. rewrite app_nil_r. split; [done|].
    eapply visits_weaken; [apply (visits_nothing seen [] (fun _ => False))|..].
    - intros r. split; [by intros ?%elem_of_nil|done].
    - intros q. split; [by intros (? & ?%elem_of_nil & _)|done].
    - intros r. split; [by intros (? & ?%elem_of_nil & _)|done]. }
  apply loadLine_visits in H as (rules1 & seen1 & Hv1 & H); [|done]. apply IH in H as (added & -> & Hv2).
  exists (rules1 ++ added). rewrite app_assoc. split; [done|].
  eapply visits_weaken; [exact (visits_seq _ _ _ _ _ _ _ _ _ Hv1 Hv2)|..]; cbn; intros x;
    setoid_rewrite elem_of_cons; naive_solver.
Qed.

Lemma loadLines_error (load : loader) name lines rules seen e seen' :
  loadLines load root name lines rules seen = (Err e, seen') -> IsNotExist e = false.
Proof.
  revert rules seen. induction lines as [|raw lines IH]; intros rules seen; cbn [loadLines]; [done|].
  destruct (line_too_long raw); [by intros [= <- _]|]. cbv zeta. destruct (bool_decide _); [apply IH|].
  destruct (parseIgnoreInclude _) as [inc|]; [|destruct (has_prefix _ _); [apply IH|]; destruct (parseRule _); apply IH].
  destruct (load _ seen) as [[rs|e'] seen1]; [apply IH|]. destruct (IsNotExist e') eqn:He; [apply IH|]. by intros [= <- _].
Qed.

Lemma load_visits fuel name seen res seen' rules :
  loadSyncIgnoreFile cwd env disk fuel root name seen = (res, seen') -> outcome res = Some rules ->
  visits seen (fun q => q = abs_path cwd name) (fun _ => False) rules seen'.
Proof.
  revert name seen res seen' rules. induction fuel as [|fuel IH]; intros name seen res seen' rules; cbn [loadSyncIgnoreFile].
  { by intros [= <- <-]. }
  cbv zeta. set (p := abs_path cwd name). destruct (decide (p ∈ seen)) as [Hs|Hs].
  { intros [= <- <-] [= <-]. constructor; [done|by intros x [??]|by intros q ->|by intros x raw q [??]|].
    intros r. split; [by intros ?%elem_of_nil|]. by intros [?|(x & [??] & _)]. }
  destruct (env_openFails env p); [by intros [= <- <-]|].
  assert (forall x, fresh seen ({[p]} ∪ seen) x <-> x = p) as Hone.
  { intros x. unfold fresh. set_solver. }
  destruct (disk !! p) as [f|] eqn:Hf.
  - intros H Ho. destruct res as [rs|e]; cbn in Ho; [|by apply loadLines_error in H; rewrite H in Ho]. injection Ho as ->.
    apply loadLines_visits in H as (added & -> & [M R F C L]); [|exact IH]. cbn [app] in *.
    assert (forall x, fresh seen seen' x <-> x = p \/ fresh ({[p]} ∪ seen) seen' x) as Hfresh.
    { intros x. unfold fresh. specialize (M x). destruct (decide (x = p)); set_solver. }
    assert (forall raw, raw ∈ file_lines f <-> line_of p raw) as Hline.
    { intros raw. unfold line_of. split; [intros; by exists f|]. intros (f' & Hf' & ?). congruence. }
    constructor.
    + set_solver.
    + intros x [->|Hx]%Hfresh; [by exists p; split; [|constructor]|]. exists p. split; [done|].
      apply R in Hx as (q & (raw & Hraw & Hi) & Hq). eapply reaches_include; [by apply Hline|done|done].
    + intros q ->. set_solver.
    + intros x raw q [->|Hx]%Hfresh Hl Hi; [|by apply (C x raw)]. apply F. exists raw. by rewrite Hline.
    + intros r. rewrite L. setoid_rewrite Hfresh. split.
      * intros [(raw & Hraw & Hr)|(x & Hx & Hr)]; right; [|by exists x; auto]. exists p. split; [by left|].
        exists raw. split; [by apply Hline|done].
      * intros [[]|(x & [->|Hx] & Hr)]; [left|right; by exists x]. destruct Hr as (raw & Hl & Hr). exists raw. by rewrite Hline.
  - intros [= <- <-] [= <-]. constructor; [set_solver|..].
    + intros x ->%Hone. exists p. split; [done|constructor].
    + intros q ->. set_solver.
    + intros x raw q ->%Hone (f & Hf' & _). congruence.
    + intros r. split; [by intros ?%elem_of_nil|]. intros [[]|(x & ->%Hone & raw & (f & Hf' & _) & _)]. congruence.
Qed.

Lemma closed_reaches (seen : gset string) p q : closed_step ∅ seen -> p ∈ seen -> reaches p q -> q ∈ seen.
Proof.
  intros Hc Hp Hr. induction Hr as [|p raw q r Hl Hi Hr IH]; [done|]. apply IH. apply (Hc p raw); [by split; [|set_solver]|done|done].
Qed.

Lemma load_rules rules : loadSyncIgnoreRules cwd env disk root = Ok rules ->
  forall r, r ∈ rules <-> exists p, reaches (abs_path cwd (primary root)) p /\ file_rule p r.
Proof.
  unfold loadSyncIgnoreRules. destruct (env_openFails _ _); [done|]. destruct (disk !! _) as [f|] eqn:Hf.
  - destruct (loadSyncIgnoreFile _ _ _ _ _ _ _) as [res seen'] eqn:El. cbn. intros ->.
    destruct (load_visits _ _ _ _ _ rules El eq_refl) as [M R F C L]. intros r. rewrite L. split.
    + intros [[]|(p & Hp & Hr)]. apply R in Hp as (q & -> & Hq). by exists p.
    + intros (p & Hp & Hr). right. exists p. split; [|done]. split; [|set_solver]. eapply closed_reaches; [done|by apply F|done].
  - intros [= <-] r. split; [by intros ?%elem_of_nil|]. intros (p & Hp & raw & Hl & _).
    inversion Hp; subst; [destruct Hl as (f & ? & _); congruence|].
    match goal with H : line_of (abs_path cwd (primary root)) _ |- _ => destruct H as (f & ? & _) end. congruence.
Qed.

Lemma load_terminates : loadSyncIgnoreRules cwd env disk root <> Err ErrFuel.
Proof.
  unfold loadSyncIgnoreRules. destruct (env_openFails _ _); [done|]. destruct (disk !! _); [|done].
  apply load_fuel_enough. unfold unvisited, load_fuel. rewrite difference_empty_L, size_dom. lia.
Qed.
End load_proofs.

(** [C23] Loading the ignore rules terminates, whatever includes whatever: a run never
    exhausts the bound of one visit per file of the disk, and when it succeeds its
    rules are, as a set, exactly those of the lines of the files reached from
    [.sync/ignore] by include lines, cycles and repeated includes included. *)
Theorem loadSyncIgnoreRules_exact cwd env disk root :
  loadSyncIgnoreRules cwd env disk root <> Err ErrFuel /\
  forall rules, loadSyncIgnoreRules cwd env disk root = Ok rules ->
    forall r, r ∈ rules <-> exists p, reaches cwd disk root (abs_path cwd (primary root)) p /\ file_rule disk p r.
Proof. split; [apply load_terminates|]. intros rules. apply load_rules. Qed.

(** *** Which paths are ignored *)

Section ignoring.
Context (otherRegexp : string -> string -> bool).

(** The last rule that matches decides. *)
Lemma ignored_last rules rel : ignored otherRegexp rules rel = true <->
  exists before rule after, rules = before ++ rule :: after /\ matchSyncIgnoreRule otherRegexp rule rel = true /\
    rule_include rule = false /\ Forall (fun r => matchSyncIgnoreRule otherRegexp r rel = false) after.
Proof.
  unfold ignored. induction rules as [|rule rules IH] using rev_ind.
  { split; [done|]. intros (b & r & a & H & _). by destruct b. }
  rewrite foldl_app. cbn [foldl]. destruct (matchSyncIgnoreRule otherRegexp rule rel) eqn:Hm.
  - rewrite negb_true_iff. split; [intros Hi; by exists rules, rule, []|].
    intros (b & r & a & H & Hr & Hi & Ha). destruct a as [|x a _] using rev_ind.
    + apply app_inj_tail in H as [_ ->]. done.
    + rewrite app_comm_cons, app_assoc in H. apply app_inj_tail in H as [_ ->].
      rewrite Forall_app, Forall_singleton in Ha. destruct Ha. congruence.
  - rewrite IH. split.
    + intros (b & r & a & -> & Hr & Hi & Ha). exists b, r, (a ++ [rule]). rewrite <- app_assoc. split; [done|].
      split; [done|]. split; [done|]. by rewrite Forall_app, Forall_singleton.
    + intros (b & r & a & H & Hr & Hi & Ha). destruct a as [|x a _] using rev_ind.
      * apply app_inj_tail in H as [_ ->]. congruence.
      * rewrite app_comm_cons, app_assoc in H. apply app_inj_tail in H as [-> ->].
        rewrite Forall_app in Ha. destruct Ha as [Ha _]. by exists b, r, a.
Qed.
End ignoring.

(** *** Scans *)

Lemma omap_key_sublist {A B K} (f : A -> option B) (key : A -> K) (key' : B -> K) l :
  (forall a b, f a = Some b -> key' b = key a) -> sublist (key' <$> omap f l) (key <$> l).
Proof.
  intros Hf. induction l as [|a l IH]; [constructor|]. cbn [omap list_omap]. rewrite fmap_cons.
  destruct (f a) as [b|] eqn:Hb; [|by constructor]. rewrite fmap_cons, (Hf a b Hb). by constructor.
Qed.

Lemma below_root_Some root p rel : below_root root p = Some rel <-> p = root +:+ "/" +:+ rel.
Proof.
  unfold below_root. destruct (has_prefix p (root +:+ "/")) eqn:Hp.
  - apply has_prefix_inv in Hp as [t ->].
    assert (drop_str (S (String.length root)) ((root +:+ "/") +:+ t) = t) as Hd.
    { unfold String.app. clear. induction root as [|c root IH]; [done|exact IH]. }
    rewrite Hd, str_app_assoc. split; [by intros [= ->]|]. intros H. do 2 apply app_cancel_str in H. by subst t.
  - split; [done|]. intros ->. by rewrite <- str_app_assoc, has_prefix_app in Hp.
Qed.

Lemma strictly_NoDup (l : list string) : StronglySorted (fun a b => str_lt a b = true) l -> NoDup l.
Proof.
  induction 1 as [|x l Hl IH Hx]; [constructor|]. constructor; [|done]. intros Hin. rewrite Forall_forall in Hx.
  specialize (Hx x Hin). by rewrite sw_irrefl in Hx.
Qed.

Section scanning.
Context (sha256 : bytes -> bytes) (otherRegexp : string -> string -> bool) (cwd : string) (env : scanEnv).
Context (disk : gmap string File) (root : string) (opts : Options) (hashBlocks : bool).

(** A file the scan is about. *)
Record visible (rules : syncIgnoreRules) (rel : string) : Prop := {
  visible_file : exists f, disk !! (root +:+ "/" +:+ rel) = Some f;
  visible_data : has_prefix rel (syncMetadataDir +:+ "/") = false;
  visible_suffix : ignoredByPatterns rel (Options_IgnoreSuffixes opts) = false;
  visible_rules : ignored otherRegexp rules rel = false
}.

Lemma walked_files_elem rel p : (rel, p) ∈ walked_files disk root <->
  p = root +:+ "/" +:+ rel /\ (exists f, disk !! p = Some f) /\ has_prefix rel (syncMetadataDir +:+ "/") = false.
Proof.
  unfold walked_files. rewrite list_elem_of_omap. split.
  - intros (q & Hq & H). apply list_elem_of_fmap in Hq as ([q' f] & -> & Hf). apply elem_of_map_to_list in Hf. cbn in H.
    destruct (below_root root q') as [r|] eqn:Hr; [|done]. cbn in H. apply below_root_Some in Hr.
    destruct (has_prefix r _) eqn:Hs; [done|]. injection H as <- <-. split; [done|]. split; [by exists f|done].
  - intros (Hp & [f Hf] & Hs). exists p. split.
    + apply list_elem_of_fmap. exists (p, f). split; [done|]. by apply elem_of_map_to_list.
    + rewrite (proj2 (below_root_Some root p rel) Hp). cbn. by rewrite Hs.
Qed.

Lemma walked_files_NoDup : NoDup (walked_files disk root).*1.
Proof.
  unfold walked_files. apply NoDup_fmap_2_strong.
  - intros [r1 p1] [r2 p2] H1 H2 H. apply walked_files_elem in H1 as (-> & _), H2 as (-> & _). cbn in H. by subst.
  - eapply (NoDup_fmap_1 snd). apply (NoDup_omap_key _ snd); [|apply NoDup_fst_map_to_list].
    intros k [r p]. destruct (below_root root k); [|done]. cbn. destruct (has_prefix _ _); [done|]. by intros [= _ ->].
Qed.

Lemma visitEntry_files rules entries acc :
  ScanResult_Files (foldl (visitEntry sha256 otherRegexp env disk opts hashBlocks rules) acc entries)
  = ScanResult_Files acc ++ omap (fun e => if ignoredByPatterns e.1 (Options_IgnoreSuffixes opts) || ignored otherRegexp rules e.1 then None
      else match fileManifest sha256 env disk e.2 (Options_BlockSize opts) hashBlocks with
           | Ok m => Some (mkScannedFile e.1 m) | Err _ => None end) entries /\
  ScanResult_Inaccessible (foldl (visitEntry sha256 otherRegexp env disk opts hashBlocks rules) acc entries)
  = ScanResult_Inaccessible acc ++ omap (fun e => if ignoredByPatterns e.1 (Options_IgnoreSuffixes opts) || ignored otherRegexp rules e.1 then None
      else match fileManifest sha256 env disk e.2 (Options_BlockSize opts) hashBlocks with
           | Ok _ => None | Err er => Some (mkInaccessible e.1 er) end) entries.
Proof.
  revert acc. induction entries as [|[rel p] entries IH]; intros acc; [by rewrite !app_nil_r|].
  cbn [foldl omap list_omap fst snd]. destruct (IH (visitEntry sha256 otherRegexp env disk opts hashBlocks rules acc (rel, p))) as [-> ->].
  unfold visitEntry. destruct (_ || _); [done|]. destruct (fileManifest _ _ _ _ _ _); cbn; by rewrite <- app_assoc.
Qed.

Lemma scanFolder_Ok res : scanFolder sha256 otherRegexp cwd env disk root opts hashBlocks = Ok res ->
  exists rules, loadSyncIgnoreRules cwd env disk root = Ok rules /\ env_root env root = RootDir /\
    (forall rel m, mkScannedFile rel m ∈ ScanResult_Files res <->
      visible rules rel /\ fileManifest sha256 env disk (root +:+ "/" +:+ rel) (Options_BlockSize opts) hashBlocks = Ok m) /\
    (forall rel e, mkInaccessible rel e ∈ ScanResult_Inaccessible res <->
      visible rules rel /\ fileManifest sha256 env disk (root +:+ "/" +:+ rel) (Options_BlockSize opts) hashBlocks = Err e) /\
    StronglySorted (fun a b => str_lt a b = true) (ScannedFile_RelativePath <$> ScanResult_Files res).
Proof.
  unfold scanFolder. intros (rules & Hrules & H)%result_bind_ok. exists rules. split; [done|].
  destruct (env_root env root); try done. injection H as <-. split; [done|]. cbn [ScanResult_Files ScanResult_Inaccessible].
  destruct (visitEntry_files rules (walked_files disk root) (mkScanResult root [] [])) as [-> ->]. cbn [app ScanResult_Files ScanResult_Inaccessible].
  assert (forall rel, visible rules rel <-> (rel, root +:+ "/" +:+ rel) ∈ walked_files disk root /\
    ignoredByPatterns rel (Options_IgnoreSuffixes opts) || ignored otherRegexp rules rel = false) as Hvis.
  { intros rel. rewrite walked_files_elem, orb_false_iff. split; [intros []; tauto|]. intros ((_ & ? & ?) & ? & ?). by constructor. }
  split; [|split].
  - intros rel m. rewrite elem_of_sort_by, list_elem_of_omap, Hvis. split.
    + intros ([r p] & Hin & H). cbn in H. pose proof Hin as (-> & _)%walked_files_elem.
      destruct (_ || _) eqn:Hi; [done|]. destruct (fileManifest _ _ _ _ _ _) eqn:Hm; [|done]. by injection H as <- <-.
    + intros [[Hin Hi] Hm]. eexists. split; [exact Hin|]. cbn. by rewrite Hi, Hm.
  - intros rel e. rewrite elem_of_sort_by, list_elem_of_omap, Hvis. split.
    + intros ([r p] & Hin & H). cbn in H. pose proof Hin as (-> & _)%walked_files_elem.
      destruct (_ || _) eqn:Hi; [done|]. destruct (fileManifest _ _ _ _ _ _) eqn:Hm; [done|]. by injection H as <- <-.
    + intros [[Hin Hi] Hm]. eexists. split; [exact Hin|]. cbn. by rewrite Hi, Hm.
  - apply sorted_strictly; [apply _| |].
    + rewrite sort_by_perm. eapply sublist_NoDup; [exact walked_files_NoDup|].
      apply (omap_key_sublist _ fst). intros [r p] x. cbn. destruct (_ || _); [done|].
      destruct (fileManifest _ _ _ _ _ _); [|done]. by intros [= <-].
    + apply (sorted_key ScannedFile_RelativePath str_lt). apply sort_by_sorted, _.
Qed.
End scanning.

(** A manifest that describes a file's content. *)
Record describes (sha256 : bytes -> bytes) (bs : Z) (f : File) (m : Manifest) : Prop := {
  describes_size : Manifest_Size m = file_size f;
  describes_blockSize : Manifest_BlockSize m = bs;
  describes_blocks : Manifest_Blocks m = tiles sha256 (File_data f) bs
}.

Lemma fileManifest_Ok sha256 env disk path bs m f :
  disk !! path = Some f -> file_size f <= maxInt64 ->
  fileManifest sha256 env disk path bs true = Ok m -> 0 < bs /\ env_unreadable env path = None /\ Manifest_Path m = path /\ describes sha256 bs f m.
Proof.
  intros Hf Hmax. unfold fileManifest. destruct (env_unreadable env path); [done|].
  destruct (BuildManifest sha256 disk path bs) as [m'|] eqn:HB; [|done]. intros [= <-].
  pose proof HB as HB'. apply BuildManifest_ok in HB as (f' & Hf' & Hbs & Hs & Ht). assert (f' = f) as -> by congruence.
  unfold BuildManifest in HB'. destruct (bs <=? 0); [done|]. rewrite Hf in HB'. injection HB' as <-.
  cbn in *. split; [done|]. split; [done|]. split; [done|]. constructor; cbn; [done|done|]. apply Ht. lia.
Qed.

Lemma fileManifest_readable sha256 env disk path bs f :
  disk !! path = Some f -> 0 < bs -> env_unreadable env path = None -> exists m, fileManifest sha256 env disk path bs true = Ok m.
Proof.
  intros Hf Hbs Hu. unfold fileManifest, BuildManifest. rewrite Hu, Hf. rewrite (proj2 (Z.leb_gt _ _)) by done. eauto.
Qed.

Lemma ScanFolder_spec sha256 otherRegexp cwd env disk root opts res :
  0 < Options_BlockSize opts -> (forall p f, disk !! p = Some f -> file_size f <= maxInt64) ->
  ScanFolder sha256 otherRegexp cwd env disk root opts = Ok res ->
  exists rules, loadSyncIgnoreRules cwd env disk root = Ok rules /\
    StronglySorted (fun a b => str_lt a b = true) (ScannedFile_RelativePath <$> ScanResult_Files res) /\
    (forall rel, (exists m, mkScannedFile rel m ∈ ScanResult_Files res) <->
       visible otherRegexp disk root opts rules rel /\ env_unreadable env (root +:+ "/" +:+ rel) = None) /\
    (forall rel m f, mkScannedFile rel m ∈ ScanResult_Files res -> disk !! (root +:+ "/" +:+ rel) = Some f ->
       describes sha256 (Options_BlockSize opts) f m) /\
    (forall rel, (exists e, mkInaccessible rel e ∈ ScanResult_Inaccessible res) <->
       visible otherRegexp disk root opts rules rel /\ env_unreadable env (root +:+ "/" +:+ rel) <> None).
Proof.
  intros Hbs Hmax H. apply scanFolder_Ok in H as (rules & Hrules & _ & Hfiles & Hinacc & Hsort). exists rules.
  split; [done|]. split; [done|]. setoid_rewrite Hfiles. setoid_rewrite Hinacc. split; [|split].
  - intros rel. split.
    + intros (m & Hv & Hm). split; [done|]. destruct Hv as [[f Hf] _ _ _]. by apply (fileManifest_Ok _ _ _ _ _ _ f) in Hm as (_ & ? & _); [|done|eapply Hmax].
    + intros [Hv Hu]. pose proof Hv as [[f Hf] _ _ _]. destruct (fileManifest_readable sha256 env disk _ _ f Hf Hbs Hu) as [m Hm]. by exists m.
  - intros rel m f [_ Hm] Hf. by apply (fileManifest_Ok _ _ _ _ _ _ f) in Hm as (_ & _ & _ & ?); [|done|eapply Hmax].
  - intros rel. split.
    + intros (e & Hv & Hm). split; [done|]. intros Hu. pose proof Hv as [[f Hf] _ _ _].
      destruct (fileManifest_readable sha256 env disk _ _ f Hf Hbs Hu) as [m Hm']. congruence.
    + intros [Hv Hu]. unfold fileManifest. destruct (env_unreadable env _) as [text|]; [|done]. by exists (FileUnreadable text).
Qed.

(** A scan is exact: the rules of the folder load, and then the scan lists,
    strictly sorted by path, the files below the root that are not metadata of
    the engine and that neither the configured patterns nor the rules ignore -
    each readable one with a manifest of its content, the others as
    inaccessible. *)
Theorem ScanFolder_exact sha256 otherRegexp cwd env disk root opts res :
  0 < Options_BlockSize opts -> (forall p f, disk !! p = Some f -> file_size f <= maxInt64) ->
  ScanFolder sha256 otherRegexp cwd env disk root opts = Ok res ->
  exists rules, loadSyncIgnoreRules cwd env disk root = Ok rules /\
    StronglySorted (fun a b => str_lt a b = true) (ScannedFile_RelativePath <$> ScanResult_Files res) /\
    (forall rel, (exists m, mkScannedFile rel m ∈ ScanResult_Files res) <->
       visible otherRegexp disk root opts rules rel /\ env_unreadable env (root +:+ "/" +:+ rel) = None) /\
    (forall rel m f, mkScannedFile rel m ∈ ScanResult_Files res -> disk !! (root +:+ "/" +:+ rel) = Some f ->
       describes sha256 (Options_BlockSize opts) f m) /\
    (forall rel, (exists e, mkInaccessible rel e ∈ ScanResult_Inaccessible res) <->
       visible otherRegexp disk root opts rules rel /\ env_unreadable env (root +:+ "/" +:+ rel) <> None).
Proof. apply ScanFolder_spec. Qed.

(** A folder with a rule, an included file and a cycle of includes. *)
Definition demo_text (s : string) : File := mkFile (String.list_byte_of_string s) 7.
Definition demo_nl : string := String newline EmptyString.
Definition demo_disk : gmap string File :=
  {["/f/.sync/ignore" := demo_text ("#include rules/extra" +:+ demo_nl +:+ "!keep.log");
    "/f/rules/extra" := demo_text ("*.log" +:+ demo_nl +:+ "#include .sync/ignore");
    "/f/a/drop.log" := demo_text "x";
    "/f/a/keep.log" := demo_text "y";
    "/f/secret" := demo_text "z";
    "/g/other" := demo_text "w"]}.
Definition demo_scanEnv : scanEnv :=
  mkScanEnv (fun _ => RootDir) (fun _ => false) (fun p => if bool_decide (p = "/f/secret") then Some "permission denied" else None) (fun _ => 0).
Definition demo_scan : result ScanErr ScanResult :=
  ScanFolder id (fun _ _ => false) "/" demo_scanEnv demo_disk "/f" (mkOptions 4 []).
Definition demo_scanned_paths : list string :=
  match demo_scan with Ok res => ScannedFile_RelativePath <$> ScanResult_Files res | Err _ => [] end.

Lemma loadSyncIgnoreRules_exact_witness :
  exists p, reaches "/" demo_disk "/f" (abs_path "/" (primary "/f")) p /\ file_rule demo_disk p (mkIgnoreRule "*.log" false false false false).
Proof.
  destruct (loadSyncIgnoreRules_exact "/" demo_scanEnv demo_disk "/f") as [_ H].
  apply (proj1 (H [mkIgnoreRule "*.log" false false false false; mkIgnoreRule "keep.log" true false false false]
    ltac:(vm_compute; reflexivity) _)). left.
Defined.

Lemma ScanFolder_exact_witness :
  demo_scanned_paths = ["a/keep.log"; "rules/extra"] /\
  exists e, mkInaccessible "secret" e ∈ match demo_scan with Ok res => ScanResult_Inaccessible res | Err _ => [] end.
Proof.
  split; [vm_compute; reflexivity|].
  destruct demo_scan as [res|] eqn:E; [|vm_compute in E; discriminate E].
  destruct (ScanFolder_exact id (fun _ _ => false) "/" demo_scanEnv demo_disk "/f" (mkOptions 4 []) res) as (rules & Hr & _ & _ & _ & H).
  - reflexivity.
  - apply (proj1 (map_Forall_lookup (fun _ f => file_size f <= maxInt64) demo_disk)).
    apply (bool_decide_unpack (map_Forall (fun _ f => file_size f <= maxInt64) demo_disk)). vm_compute. exact I.
  - exact E.
  - apply H. vm_compute in Hr. injection Hr as <-. split; [|discriminate]. split; [eexists; reflexivity|reflexivity..].
Defined.
