(* ===== verification/LocalSync.v ===== *)
(** * Synchronising one local folder with another

    Models [internal/localsync/sync.go]: [SyncOneWay], which makes a target folder
    equal to a source folder by moving, writing and deleting files;
    [internal/recovery/recovery.go]; the retention of replaced files in
    [internal/backup/archive.go]; and [internal/foldersync/runner.go], which runs
    it over the folders of a group.

    The disk is that of Scanner.v.  Every system call may fail: the environment
    [syncEnv] says which, and names the temporary files and time stamps.  A step
    returns the disk as it is left together with its error.  Permission bits are
    no part of a file here; the calls of [os.Chmod] are recorded in order. *)

From S2P Require Import Prelude GoStd Block StoreData Paths Scheduling Config Glob Scanner Backup.
From Stdlib Require Import Ascii.

Local Open Scope Z_scope.

Abbreviation diskT := (gmap string File).
Abbreviation chmodsT := (list (string * Z)).
Abbreviation candidatesT := (gmap string (list string)).

(** ** Data *)

Inductive StepKind := StepWrite | StepDelete | StepMove.

Record Step := mkStep { Step_Kind : StepKind; Step_Path : string }.

Record SyncOptions := mkSyncOptions {
  SyncOptions_BlockSize : Z;
  SyncOptions_IgnoreSuffixes : list string;
  SyncOptions_PreserveTargetConflicts : bool;
  SyncOptions_ConflictSuffix : string;
  SyncOptions_Permissions : PermissionPolicy
}.

Record SyncResult := mkSyncResult {
  SyncResult_Writes : Z;
  SyncResult_Deletes : Z;
  SyncResult_Moves : Z;
  SyncResult_ReusedBlocks : Z;
  SyncResult_Conflicts : Z;
  SyncResult_SourceInaccessible : list InaccessibleFile;
  SyncResult_TargetInaccessible : list InaccessibleFile;
  SyncResult_Steps : list Step
}.

Definition SyncResult_zero : SyncResult := mkSyncResult 0 0 0 0 0 [] [] [].

(** ** Environment *)

Inductive installCall := InMkdir | InOpen | InCreate | InWrite | InSync | InClose | InRename | InRemove.

Record syncEnv := mkSyncEnv {
  se_scan : scanEnv;
  se_cleanWalkFails : string -> bool;          (* walking a root before the scan *)
  se_cleanFails : string -> bool;              (* removing a leftover *)
  se_mkdirRootFails : bool;
  se_mkdirFails : string -> bool;              (* by the path of the file to write *)
  se_chmodFails : string -> bool;
  se_statFails : string -> bool;               (* [os.Stat]: any error but a missing file *)
  se_mode : string -> Z;                       (* the permission bits of a file *)
  se_moveFails : string -> bool;
  se_conflictFails : string -> installCall -> bool;
  se_intakeFails : string -> installCall -> bool;
  se_assembleFails : string -> Apply.syscall -> bool;
  se_removeFails : string -> bool;
  se_random : string -> diskT -> string;       (* the random part of a temporary name *)
  se_stamp : string -> string;                 (* the time of a retention, formatted *)
  se_now : Z
}.

Inductive SyncErr :=
| ErrClean (path : string)
| ErrScan (e : ScanErr)
| ErrMkdir (path : string)
| ErrChmod (path : string)
| ErrMode (text : string)
| ErrStat (path : string)
| ErrRename (path : string)
| ErrInstall (path : string) (c : installCall)
| ErrUnsafe (rel : string)
| ErrAssemble (e : Apply.AssembleErr)
| ErrRemove (path : string)
| ErrHang.                     (* the run does not return *)

(** ** Leftovers: recovery.go *)

Definition isTemp (p : string) : bool := IsInterruptedTempName (path_base p).

Section recovery.
Context (env : syncEnv).

Fixpoint cleanPaths (paths : list string) (disk : diskT) (removed : Z) : diskT * Z * option SyncErr :=
  match paths with
  | [] => (disk, removed, None)
  | p :: paths' =>
      if isTemp p then
        if se_cleanFails env p then (disk, removed, Some (ErrClean p))
        else cleanPaths paths' (delete p disk) (removed + 1)
      else cleanPaths paths' disk removed
  end.

(** The files below [root] in the order of the walk. *)
Definition walk_order (root : string) (disk : diskT) : list string :=
  sort_by (fun a b => elems_lt (split_on slash a) (split_on slash b))
    (List.filter (fun p => match below_root root p with Some _ => true | None => false end) (map_to_list disk).*1).

Definition CleanFolder (root : string) (disk : diskT) : diskT * Z * option SyncErr :=
  if se_cleanWalkFails env root then (disk, 0, Some (ErrClean root))
  else cleanPaths (walk_order root disk) disk 0.

End recovery.

(** ** Installing a file through a temporary name *)

Section files.
Context (env : syncEnv).

(** [filepath.Dir] and [filepath.Base] of a clean absolute path. *)
Definition path_dir (p : string) : string :=
  match removelast (split_on slash p) with
  | [] => "."
  | [EmptyString] => "/"
  | l => join "/" l
  end.

(** [os.CreateTemp(dir, "." + base + ".*" + suffix)]. *)
Definition tempName (target suffix : string) (disk : diskT) : string :=
  path_join (path_dir target) ("." +:+ path_base target +:+ "." +:+ se_random env target disk +:+ suffix).

(** From CreateTemp to the rename, with the deferred removal. *)
Definition installFile (fails : installCall -> bool) (tmp target : string) (data : bytes) (disk : diskT) : diskT * option SyncErr :=
  if fails InCreate then (disk, Some (ErrInstall target InCreate))
  else
    let disk1 := <[tmp := mkFile data (se_now env)]> disk in
    let failed c := (if fails InRemove then disk1 else delete tmp disk1, Some (ErrInstall target c)) in
    if fails InWrite then failed InWrite
    else if fails InSync then failed InSync
    else if fails InClose then failed InClose
    else if fails InRename then failed InRename
    else (<[target := mkFile data (se_now env)]> (delete tmp disk1), None).

Definition copyFileAtomic (rel sourcePath targetPath : string) (disk : diskT) : diskT * option SyncErr :=
  let fails := se_conflictFails env rel in
  if fails InMkdir then (disk, Some (ErrInstall targetPath InMkdir))
  else if fails InOpen then (disk, Some (ErrInstall targetPath InOpen))
  else match disk !! sourcePath with
       | None => (disk, Some (ErrInstall targetPath InOpen))
       | Some f => installFile fails (tempName targetPath ".staging" disk) targetPath (File_data f) disk
       end.

(** *** archive.go: retention *)

Definition cleanArchiveSourceRel (rel : string) : result SyncErr string :=
  if bool_decide (rel = EmptyString) || has_prefix rel "/" || contains_char rel "\"%char then Err (ErrUnsafe rel)
  else
    let clean := path_clean rel in
    if bool_decide (clean = ".") || bool_decide (clean = "..") || has_prefix clean "../" then Err (ErrUnsafe rel)
    else if bool_decide (clean = ".sync") || has_prefix clean ".sync/" then Err (ErrUnsafe rel)
    else Ok clean.

Definition intakePath (root stamp clean : string) : string :=
  path_join root (".sync/backup-intake/" +:+ stamp +:+ "/" +:+ clean).

Definition RetainBackupIntakeFile (root rel : string) (data : bytes) (disk : diskT) : diskT * result SyncErr string :=
  match cleanArchiveSourceRel rel with
  | Err e => (disk, Err e)
  | Ok clean =>
      let targetPath := intakePath root (se_stamp env rel) clean in
      let fails := se_intakeFails env rel in
      if fails InMkdir then (disk, Err (ErrInstall targetPath InMkdir))
      else match installFile fails (tempName targetPath ".backup-intake-staging" disk) targetPath data disk with
           | (disk', Some e) => (disk', Err e)
           | (disk', None) => (disk', Ok targetPath)
           end
  end.

(** The path it is retained under, if there is a file. *)
Definition RetainExistingBackupIntakeFile (root rel : string) (disk : diskT) : diskT * result SyncErr (option string) :=
  match cleanArchiveSourceRel rel with
  | Err e => (disk, Err e)
  | Ok clean =>
      let path := path_join root clean in
      if se_statFails env path then (disk, Err (ErrStat path))
      else match disk !! path with
           | None => (disk, Ok None)
           | Some f =>
               if se_intakeFails env rel InOpen then (disk, Err (ErrInstall path InOpen))
               else match RetainBackupIntakeFile root clean (File_data f) disk with
                    | (disk', Err e) => (disk', Err e)
                    | (disk', Ok retained) => (disk', Ok (Some retained))
                    end
           end
  end.

(** ** Names *)

Definition conflictSuffix (suffix : string) : string := if bool_decide (suffix = EmptyString) then ".sync-conflict" else suffix.

(** The [i]-th name the loop of nextConflictRel tries. *)
Definition conflictCandidate (rel suffix : string) (i : nat) : string :=
  let ext := path_ext rel in
  let numbered := match i with O => conflictSuffix suffix | S _ => conflictSuffix suffix +:+ "-" +:+ itoa (Z.of_nat i) end in
  trim_suffix rel ext +:+ numbered +:+ ext.

(** Whether [os.Stat] says that there is nothing at a path; a directory is a
    prefix of a file's path. *)
Definition statNotExist (disk : diskT) (p : string) : bool :=
  negb (se_statFails env p) && bool_decide (disk !! p = None)
  && negb (existsb (fun q => has_prefix q (p +:+ "/")) (map_to_list disk).*1).

(** The loop has no bound in the code; [None] when [fuel] names are taken. *)
Fixpoint nextConflictRel (fuel i : nat) (disk : diskT) (targetRoot rel suffix : string) : option string :=
  match fuel with
  | O => None
  | S fuel' =>
      let candidate := conflictCandidate rel suffix i in
      if statNotExist disk (path_join targetRoot candidate) then Some candidate
      else nextConflictRel fuel' (S i) disk targetRoot rel suffix
  end.

(** More names than paths and directories of the disk. *)
Definition conflict_fuel (disk : diskT) : nat := S (list_sum ((fun p => S (String.length p)) <$> (map_to_list disk).*1)).

Definition isConflictRel (rel suffix : string) : bool := contains (path_base rel) (conflictSuffix suffix).

(** ** Permissions *)

(** [strconv.ParseUint(value, 8, 32)]. *)
Fixpoint parse_octal (acc : Z) (s : string) : option Z :=
  match s with
  | EmptyString => Some acc
  | String c s' =>
      let d := Z.of_N (N_of_ascii c) - 48 in
      if (d <? 0) || (7 <? d) then None
      else let acc' := acc * 8 + d in if 2 ^ 32 <=? acc' then None else parse_octal acc' s'
  end.

Definition parseOptionalMode (value : string) : result SyncErr (option Z) :=
  if bool_decide (value = EmptyString) then Ok None
  else match parse_octal 0 value with
       | None => Err (ErrMode value)
       | Some m => Ok (Some (Z.land m 511))
       end.

Definition fileMode (policy : PermissionPolicy) (sourcePath : string) (disk : diskT) : result SyncErr (option Z) :=
  if bool_decide (PermissionPolicy_Mode policy = "sync") then
    if se_statFails env sourcePath then Err (ErrStat sourcePath)
    else match disk !! sourcePath with None => Err (ErrStat sourcePath) | Some _ => Ok (Some (Z.land (se_mode env sourcePath) 511)) end
  else if bool_decide (PermissionPolicy_Mode policy = "default") || bool_decide (PermissionPolicy_Mode policy = "fixed")
  then parseOptionalMode (PermissionPolicy_FileMode policy)
  else Ok None.

Definition directoryMode (policy : PermissionPolicy) : result SyncErr (option Z) :=
  if bool_decide (PermissionPolicy_Mode policy = "default") || bool_decide (PermissionPolicy_Mode policy = "fixed")
  then parseOptionalMode (PermissionPolicy_DirMode policy)
  else Ok None.

(** From a directory up to the root, or to the top. *)
Fixpoint chmodUp (fuel : nat) (root current : string) (mode : Z) (chmods : chmodsT) : chmodsT * option SyncErr :=
  match fuel with
  | O => (chmods, None)
  | S fuel' =>
      if se_chmodFails env current then (chmods, Some (ErrChmod current))
      else
        let chmods := chmods ++ [(current, mode)] in
        if bool_decide (current = root) || bool_decide (current = path_dir current) then (chmods, None)
        else chmodUp fuel' root (path_dir current) mode chmods
  end.

Definition prepareTargetDirectory (root target : string) (policy : PermissionPolicy) (chmods : chmodsT) : chmodsT * option SyncErr :=
  if se_mkdirFails env target then (chmods, Some (ErrMkdir target))
  else match directoryMode policy with
       | Err e => (chmods, Some e)
       | Ok None => (chmods, None)
       | Ok (Some mode) => chmodUp (S (S (String.length target))) root (path_dir target) mode chmods
       end.

Definition applyPermissionPolicy (targetPath sourcePath : string) (policy : PermissionPolicy) (disk : diskT) (chmods : chmodsT)
    : chmodsT * option SyncErr :=
  match fileMode policy sourcePath disk with
  | Err e => (chmods, Some e)
  | Ok None => (chmods, None)
  | Ok (Some mode) =>
      if se_chmodFails env targetPath then (chmods, Some (ErrChmod targetPath)) else (chmods ++ [(targetPath, mode)], None)
  end.

End files.

(** ** Comparing two scans *)

Definition filesByPath (files : list ScannedFile) : gmap string ScannedFile := put_all ScannedFile_RelativePath id ∅ files.

Definition manifests (files : list ScannedFile) : list Manifest := ScannedFile_Manifest <$> files.

Definition sortedKeys (files : gmap string ScannedFile) : list string := sort_by str_lt (map_to_list files).*1.

Definition stalePaths (source target : gmap string ScannedFile) : list string :=
  sort_by str_lt (List.filter (fun rel => match source !! rel with Some _ => false | None => true end) (map_to_list target).*1).

Definition manifestKey (m : Manifest) : string :=
  itoa (Manifest_Size m) +:+
  foldr (fun b s => "|" +:+ itoa (Block_Size b) +:+ ":" +:+ hex_encode (Block_Hash b) +:+ s) EmptyString (Manifest_Blocks m).

Definition addCandidate (target : gmap string ScannedFile) (candidates : candidatesT) (rel : string) : candidatesT :=
  match target !! rel with
  | None => candidates
  | Some file =>
      let key := manifestKey (ScannedFile_Manifest file) in
      if bool_decide (key = EmptyString) then candidates
      else <[key := default [] (candidates !! key) ++ [rel]]> candidates
  end.

Definition staleMoveCandidates (source target : gmap string ScannedFile) : candidatesT :=
  sort_by str_lt <$> foldl (addCandidate target) ∅ (stalePaths source target).

Definition takeMoveCandidate (candidates : candidatesT) (m : Manifest) : option (string * candidatesT) :=
  match candidates !! manifestKey m with
  | None | Some [] => None
  | Some [path] => Some (path, delete (manifestKey m) candidates)
  | Some (path :: paths) => Some (path, <[manifestKey m := paths]> candidates)
  end.

Definition manifestsEqual (a b : Manifest) : bool :=
  bool_decide (Manifest_Size a = Manifest_Size b) && bool_decide (length (Manifest_Blocks a) = length (Manifest_Blocks b))
  && bool_decide (Forall2 (fun x y => Block_Size x = Block_Size y /\ Block_Hash x = Block_Hash y) (Manifest_Blocks a) (Manifest_Blocks b)).

Definition ignoredForTarget (otherRegexp : string -> string -> bool) (matcher : syncIgnoreRules) (rel : string) : bool :=
  bool_decide (rel = ".sync") || has_prefix rel ".sync/" || IsIgnored otherRegexp matcher rel.

(** ** SyncOneWay *)

Section sync.
Context (sha256 : bytes -> bytes) (otherRegexp : string -> string -> bool) (cwd : string) (env : syncEnv).

(** What the loops carry: the disk, the result, the paths kept from deletion,
    the candidates for moves, and the chmod calls. *)
Record runState := mkRun {
  run_disk : diskT;
  run_result : SyncResult;
  run_protected : gset string;
  run_moves : candidatesT;
  run_chmods : chmodsT
}.

Definition set_disk (disk : diskT) (st : runState) : runState :=
  mkRun disk (run_result st) (run_protected st) (run_moves st) (run_chmods st).
Definition set_chmods (chmods : chmodsT) (st : runState) : runState :=
  mkRun (run_disk st) (run_result st) (run_protected st) (run_moves st) chmods.
Definition set_moves (moves : candidatesT) (st : runState) : runState :=
  mkRun (run_disk st) (run_result st) (run_protected st) moves (run_chmods st).
Definition protect (rel : string) (st : runState) : runState :=
  mkRun (run_disk st) (run_result st) ({[rel]} ∪ run_protected st) (run_moves st) (run_chmods st).

Definition count (writes deletes moves reused conflicts : Z) (steps : list Step) (st : runState) : runState :=
  let r := run_result st in
  mkRun (run_disk st)
    (mkSyncResult (SyncResult_Writes r + writes) (SyncResult_Deletes r + deletes) (SyncResult_Moves r + moves)
       (SyncResult_ReusedBlocks r + reused) (SyncResult_Conflicts r + conflicts)
       (SyncResult_SourceInaccessible r) (SyncResult_TargetInaccessible r) (SyncResult_Steps r ++ steps))
    (run_protected st) (run_moves st) (run_chmods st).

(** The plan of a run: what the two scans found. *)
Record syncPlan := mkSyncPlan {
  sp_source : string;
  sp_target : string;
  sp_opts : SyncOptions;
  sp_sourceByPath : gmap string ScannedFile;
  sp_targetByPath : gmap string ScannedFile;
  sp_targetManifests : list Manifest;
  sp_assemblySources : list Manifest;
  sp_matcher : syncIgnoreRules
}.

Context (plan : syncPlan).

Let sourceRoot := sp_source plan.
Let targetRoot := sp_target plan.
Let policy := SyncOptions_Permissions (sp_opts plan).

Definition targetOf (rel : string) : string := path_join targetRoot rel.
Definition sourceOf (rel : string) : string := path_join sourceRoot rel.

Definition prepare (rel : string) (st : runState) : runState * option SyncErr :=
  let '(chmods, err) := prepareTargetDirectory env targetRoot (targetOf rel) policy (run_chmods st) in (set_chmods chmods st, err).

Definition permit (rel : string) (st : runState) : runState * option SyncErr :=
  let '(chmods, err) := applyPermissionPolicy env (targetOf rel) (sourceOf rel) policy (run_disk st) (run_chmods st) in
  (set_chmods chmods st, err).

(** [os.Rename] of a file that is there. *)
Definition moveFile (rel moveRel : string) (st : runState) : runState * option SyncErr :=
  match run_disk st !! targetOf moveRel with
  | None => (st, Some (ErrRename (targetOf moveRel)))
  | Some f =>
      if se_moveFails env rel then (st, Some (ErrRename (targetOf moveRel)))
      else (set_disk (<[targetOf rel := f]> (delete (targetOf moveRel) (run_disk st))) st, None)
  end.

(** A step of the loop that may fail, and what follows it. *)
Definition andThen (r : runState * option SyncErr) (k : runState -> runState * option SyncErr) : runState * option SyncErr :=
  match r with (st, Some e) => (st, Some e) | (st, None) => k st end.

Definition moveStep (rel moveRel : string) (st : runState) : runState * option SyncErr :=
  andThen (prepare rel st) (fun st =>
  andThen (moveFile rel moveRel st) (fun st =>
  andThen (permit rel st) (fun st =>
  (count 0 0 1 0 0 [mkStep StepMove rel] (protect moveRel st), None)))).

Definition conflictStep (rel : string) (st : runState) : runState * option SyncErr :=
  match nextConflictRel env (conflict_fuel (run_disk st)) 0 (run_disk st) targetRoot rel (SyncOptions_ConflictSuffix (sp_opts plan)) with
  | None => (st, Some ErrHang)
  | Some conflictRel =>
      let '(disk, err) := copyFileAtomic env rel (targetOf rel) (targetOf conflictRel) (run_disk st) in
      andThen (set_disk disk st, err) (fun st => (count 0 0 0 0 1 [] (protect conflictRel st), None))
  end.

(** The callback that retains the file about to be replaced. *)
Definition retainBefore (rel : string) (disk : diskT) : diskT * option string :=
  match RetainExistingBackupIntakeFile env targetRoot rel disk with
  | (disk', Ok _) => (disk', None)
  | (disk', Err _) => (disk', Some "retention failed")
  end.

Definition assembleStep (rel : string) (manifest : Manifest) (st : runState) : runState * option SyncErr :=
  let disk := run_disk st in
  match Apply.AssembleFromLocalBlocksBeforeRename sha256 (se_assembleFails env rel) disk (targetOf rel)
          (tempName env (targetOf rel) ".staging" disk) (se_now env) manifest (sp_assemblySources plan) (Some (retainBefore rel)) with
  | (disk', Ok _) => (set_disk disk' st, None)
  | (disk', Err e) => (set_disk disk' st, Some (ErrAssemble e))
  end.

Definition writeStep (rel : string) (manifest : Manifest) (st : runState) : runState * option SyncErr :=
  andThen (prepare rel st) (fun st =>
  let reused := Z.of_nat (length (DeltaPlan_Reused (PlanContentDelta (sp_targetManifests plan) manifest))) in
  andThen (assembleStep rel manifest (count 0 0 0 reused 0 [] st)) (fun st =>
  andThen (permit rel st) (fun st => (count 1 0 0 0 0 [mkStep StepWrite rel] st, None)))).

(** The body of the first loop. *)
Definition syncPath (rel : string) (st : runState) : runState * option SyncErr :=
  if ignoredForTarget otherRegexp (sp_matcher plan) rel then (st, None)
  else match sp_sourceByPath plan !! rel with
  | None => (st, None)
  | Some sourceFile =>
      let manifest := ScannedFile_Manifest sourceFile in
      match sp_targetByPath plan !! rel with
      | Some targetFile =>
          if manifestsEqual manifest (ScannedFile_Manifest targetFile) then (st, None)
          else if SyncOptions_PreserveTargetConflicts (sp_opts plan)
          then andThen (conflictStep rel st) (writeStep rel manifest)
          else writeStep rel manifest st
      | None =>
          match takeMoveCandidate (run_moves st) manifest with
          | Some (moveRel, moves) => moveStep rel moveRel (set_moves moves st)
          | None => writeStep rel manifest st
          end
      end
  end.

Definition deletePath (rel : string) (st : runState) : runState * option SyncErr :=
  if bool_decide (rel ∈ run_protected st)
     || (SyncOptions_PreserveTargetConflicts (sp_opts plan) && isConflictRel rel (SyncOptions_ConflictSuffix (sp_opts plan)))
  then (st, None)
  else
    match RetainExistingBackupIntakeFile env targetRoot rel (run_disk st) with
    | (disk, Err e) => (set_disk disk st, Some e)
    | (disk, Ok _) =>
        if se_removeFails env rel then (set_disk disk st, Some (ErrRemove rel))
        else (count 0 1 0 0 0 [mkStep StepDelete rel] (set_disk (delete (targetOf rel) disk) st), None)
    end.

Fixpoint eachPath (body : string -> runState -> runState * option SyncErr) (paths : list string) (st : runState)
    : runState * option SyncErr :=
  match paths with
  | [] => (st, None)
  | rel :: paths' => andThen (body rel st) (eachPath body paths')
  end.

Definition runPlan (st : runState) : runState * option SyncErr :=
  andThen (eachPath syncPath (sortedKeys (sp_sourceByPath plan)) st)
    (eachPath deletePath (stalePaths (sp_sourceByPath plan) (sp_targetByPath plan))).

End sync.

Section one_way.
Context (sha256 : bytes -> bytes) (otherRegexp : string -> string -> bool) (cwd : string) (env : syncEnv).

Definition normalized (opts : SyncOptions) : SyncOptions :=
  if SyncOptions_BlockSize opts <=? 0
  then mkSyncOptions (128 * 1024) (SyncOptions_IgnoreSuffixes opts) (SyncOptions_PreserveTargetConflicts opts)
         (SyncOptions_ConflictSuffix opts) (SyncOptions_Permissions opts)
  else opts.

Definition scanOf (disk : diskT) (root : string) (opts : SyncOptions) : result ScanErr ScanResult :=
  ScanFolder sha256 otherRegexp cwd (se_scan env) disk root (mkOptions (SyncOptions_BlockSize opts) (SyncOptions_IgnoreSuffixes opts)).

(** A missing target is made. *)
Definition scanTarget (disk : diskT) (root : string) (opts : SyncOptions) : result SyncErr ScanResult :=
  match scanOf disk root opts with
  | Ok scan => Ok scan
  | Err e =>
      if IsNotExist e then if se_mkdirRootFails env then Err (ErrMkdir root) else Ok (mkScanResult root [] [])
      else Err (ErrScan e)
  end.

Definition planOf (sourceRoot targetRoot : string) (opts : SyncOptions) (sourceScan targetScan : ScanResult) (matcher : syncIgnoreRules) : syncPlan :=
  let targetManifests := manifests (ScanResult_Files targetScan) in
  mkSyncPlan sourceRoot targetRoot opts (filesByPath (ScanResult_Files sourceScan)) (filesByPath (ScanResult_Files targetScan))
    targetManifests (targetManifests ++ manifests (ScanResult_Files sourceScan)) matcher.

Definition startOf (disk : diskT) (sourceScan targetScan : ScanResult) (plan : syncPlan) : runState :=
  mkRun disk
    (mkSyncResult 0 0 0 0 0 (ScanResult_Inaccessible sourceScan) (ScanResult_Inaccessible targetScan) [])
    ∅ (staleMoveCandidates (sp_sourceByPath plan) (sp_targetByPath plan)) [].

(** The scans of both folders and the plan made of them. *)
Definition prepareRun (sourceRoot targetRoot : string) (opts : SyncOptions) (disk : diskT) : result SyncErr (syncPlan * runState) :=
  match scanOf disk sourceRoot opts with
  | Err e => Err (ErrScan e)
  | Ok sourceScan =>
      match scanTarget disk targetRoot opts with
      | Err e => Err e
      | Ok targetScan =>
          match LoadSyncIgnoreMatcher cwd (se_scan env) disk targetRoot with
          | Err e => Err (ErrScan e)
          | Ok matcher =>
              let plan := planOf sourceRoot targetRoot opts sourceScan targetScan matcher in
              Ok (plan, startOf disk sourceScan targetScan plan)
          end
      end
  end.

Definition SyncOneWay (sourceRoot targetRoot : string) (opts : SyncOptions) (disk : diskT)
    : diskT * SyncResult * chmodsT * option SyncErr :=
  let opts := normalized opts in
  match CleanFolder env sourceRoot disk with
  | (disk, _, Some e) => (disk, SyncResult_zero, [], Some e)
  | (disk, _, None) =>
      match CleanFolder env targetRoot disk with
      | (disk, _, Some e) => (disk, SyncResult_zero, [], Some e)
      | (disk, _, None) =>
          match prepareRun sourceRoot targetRoot opts disk with
          | Err e => (disk, SyncResult_zero, [], Some e)
          | Ok (plan, start) =>
              let '(st, err) := runPlan sha256 otherRegexp env plan start in
              (run_disk st, run_result st, run_chmods st, err)
          end
      end
  end.

End one_way.

(** ** The folders of a group: runner.go *)

Record RunnerFolder := mkRunnerFolder {
  RunnerFolder_ID : string;
  RunnerFolder_Path : string;
  RunnerFolder_SyncGroup : string;
  RunnerFolder_Mode : string;
  RunnerFolder_BlockSize : Z;
  RunnerFolder_IgnoreSuffixes : list string;
  RunnerFolder_Permissions : PermissionPolicy
}.

Record InaccessibleWarning := mkWarning {
  InaccessibleWarning_FolderID : string;
  InaccessibleWarning_Role : string;
  InaccessibleWarning_File : InaccessibleFile
}.

Record RunnerResult := mkRunnerResult {
  RunnerResult_Writes : Z;
  RunnerResult_Deletes : Z;
  RunnerResult_Moves : Z;
  RunnerResult_ReusedBlocks : Z;
  RunnerResult_Conflicts : Z;
  RunnerResult_Targets : Z;
  RunnerResult_Inaccessible : list InaccessibleWarning
}.

Definition RunnerResult_zero : RunnerResult := mkRunnerResult 0 0 0 0 0 0 [].

Definition canSend (mode : string) : bool := bool_decide (mode = ModeSendOnly) || bool_decide (mode = ModeSendReceive).
Definition canReceive (mode : string) : bool := bool_decide (mode = ModeReceiveOnly) || bool_decide (mode = ModeSendReceive).

Definition runnerFolder (f : RunnerFolder) : RunnerFolder :=
  mkRunnerFolder (RunnerFolder_ID f) (RunnerFolder_Path f)
    (if bool_decide (RunnerFolder_SyncGroup f = EmptyString) then RunnerFolder_ID f else RunnerFolder_SyncGroup f)
    (if bool_decide (RunnerFolder_Mode f = EmptyString) then ModeSendReceive else RunnerFolder_Mode f)
    (RunnerFolder_BlockSize f) (RunnerFolder_IgnoreSuffixes f) (RunnerFolder_Permissions f).

(** [New]. *)
Definition NewRunner (folders : list RunnerFolder) : gmap string RunnerFolder :=
  put_all RunnerFolder_ID runnerFolder ∅ folders.

Section runner.
Context (sha256 : bytes -> bytes) (otherRegexp : string -> string -> bool) (cwd : string).

Definition addResult (source target : RunnerFolder) (r : RunnerResult) (s : SyncResult) : RunnerResult :=
  mkRunnerResult (RunnerResult_Writes r + SyncResult_Writes s) (RunnerResult_Deletes r + SyncResult_Deletes s)
    (RunnerResult_Moves r + SyncResult_Moves s)
    (RunnerResult_ReusedBlocks r + SyncResult_ReusedBlocks s) (RunnerResult_Conflicts r + SyncResult_Conflicts s)
    (RunnerResult_Targets r + 1)
    (RunnerResult_Inaccessible r ++
     (mkWarning (RunnerFolder_ID source) "source" <$> SyncResult_SourceInaccessible s) ++
     (mkWarning (RunnerFolder_ID target) "target" <$> SyncResult_TargetInaccessible s)).

(** The loop over the folders; each run has an environment of its own. *)
Fixpoint scanTargets (env : string -> syncEnv) (source : RunnerFolder) (targets : list RunnerFolder) (disk : diskT) (acc : RunnerResult)
    : diskT * RunnerResult * option SyncErr :=
  match targets with
  | [] => (disk, acc, None)
  | target :: targets' =>
      if bool_decide (RunnerFolder_ID target = RunnerFolder_ID source)
         || bool_decide (RunnerFolder_SyncGroup target <> RunnerFolder_SyncGroup source) || negb (canReceive (RunnerFolder_Mode target))
      then scanTargets env source targets' disk acc
      else
        let opts := mkSyncOptions (RunnerFolder_BlockSize source) (RunnerFolder_IgnoreSuffixes source)
          (bool_decide (RunnerFolder_Mode source = ModeSendReceive) && bool_decide (RunnerFolder_Mode target = ModeSendReceive))
          (".sync-conflict-" +:+ RunnerFolder_ID target) (RunnerFolder_Permissions target) in
        match SyncOneWay sha256 otherRegexp cwd (env (RunnerFolder_ID target)) (RunnerFolder_Path source) (RunnerFolder_Path target) opts disk with
        | (disk', _, _, Some e) => (disk', acc, Some e)
        | (disk', res, _, None) => scanTargets env source targets' disk' (addResult source target acc res)
        end
  end.

(** The folders are visited in some order of the map. *)
Definition ScanDue (env : string -> syncEnv) (folders : gmap string RunnerFolder) (folderID : string) (disk : diskT)
    : diskT * RunnerResult * result string (option SyncErr) :=
  match folders !! folderID with
  | None => (disk, RunnerResult_zero, Err folderID)
  | Some source =>
      if negb (canSend (RunnerFolder_Mode source)) then (disk, RunnerResult_zero, Ok None)
      else let '(disk', res, err) := scanTargets env source (map_to_list folders).*2 disk RunnerResult_zero in (disk', res, Ok err)
  end.

End runner.

(** ** Properties *)

(** *** Paths *)

(** A relative path made of real names, outside the metadata directory. *)
Record rel_ok (rel : string) : Prop := {
  rel_names : exists l, l <> [] /\ Forall elem_ok l /\ rel = join "/" l;
  rel_outside : has_prefix rel ".sync/" = false
}.

Definition in_root (root rel : string) : string := root +:+ "/" +:+ rel.

Lemma path_join_in root rel : root <> EmptyString -> rel <> EmptyString -> path_join root rel = in_root root rel.
Proof. intros H1 H2. unfold path_join. by rewrite !bool_decide_eq_false_2. Qed.

Lemma join_nonempty l : l <> [] -> Forall elem_ok l -> join "/" l <> EmptyString.
Proof.
  intros Hne Hl H. destruct l as [|x [|y l]]; [done|..]; apply Forall_cons in Hl as [[Hx _ _ _] _].
  - done.
  - cbn in H. by destruct x.
Qed.

Lemma rel_ok_nonempty rel : rel_ok rel -> rel <> EmptyString.
Proof. intros [(l & Hne & Hl & ->) _]. by apply join_nonempty. Qed.

Lemma in_root_inj root r1 r2 : in_root root r1 = in_root root r2 -> r1 = r2.
Proof. unfold in_root. intros H. by do 2 apply app_cancel_str in H. Qed.

Lemma split_on_in root rel : split_on slash (in_root root rel) = split_on slash root ++ split_on slash rel.
Proof. apply (split_on_app slash root rel). Qed.

Lemma path_base_in root rel : path_base (in_root root rel) = path_base rel.
Proof.
  unfold path_base. rewrite split_on_in, last_app. destruct (last (split_on slash rel)) eqn:E; [done|].
  apply last_None in E. by apply split_on_nonempty in E.
Qed.

Lemma path_base_name b : contains_char b slash = false -> path_base b = b.
Proof. intros H. unfold path_base. by rewrite split_on_none. Qed.

Lemma path_base_no_slash p : contains_char (path_base p) slash = false.
Proof.
  unfold path_base. destruct (last (split_on slash p)) as [e|] eqn:E; [|done].
  pose proof (split_on_no_char slash p) as H. rewrite Forall_forall in H. apply H. by apply last_Some_elem_of.
Qed.

Lemma path_dir_nonempty p : path_dir p <> EmptyString.
Proof.
  unfold path_dir. pose proof (split_on_nonempty slash p). destruct (removelast (split_on slash p)) as [|x [|y l]] eqn:E; [done|..].
  - destruct x; [done|]. done.
  - destruct x; [done|]. done.
Qed.

(** *** Temporary names *)

Record temps_ok (env : syncEnv) : Prop := {
  temps_fresh : forall target suffix disk, disk !! tempName env target suffix disk = None;
  temps_name : forall target disk, contains_char (se_random env target disk) slash = false
}.

Section temps.
Context (env : syncEnv) (Htemps : temps_ok env).

Lemma tempName_base target suffix disk : contains_char suffix slash = false ->
  path_base (tempName env target suffix disk) = "." +:+ path_base target +:+ "." +:+ se_random env target disk +:+ suffix.
Proof.
  intros Hs. unfold tempName.
  assert (contains_char ("." +:+ path_base target +:+ "." +:+ se_random env target disk +:+ suffix) slash = false) as Hn.
  { change (contains_char (path_base target +:+ "." +:+ se_random env target disk +:+ suffix) slash = false).
    rewrite contains_char_app, path_base_no_slash. cbn [orb].
    change (contains_char (se_random env target disk +:+ suffix) slash = false).
    by rewrite contains_char_app, (temps_name env Htemps), Hs. }
  rewrite path_join_in; [|apply path_dir_nonempty|done]. rewrite path_base_in. by apply path_base_name.
Qed.

(** A temporary name has another base than the file it becomes. *)
Lemma tempName_other target suffix disk p : contains_char suffix slash = false -> path_base p = path_base target ->
  tempName env target suffix disk <> p.
Proof.
  intros Hs Hp H. apply (f_equal path_base) in H. rewrite tempName_base, Hp in H by done.
  apply (f_equal String.length) in H. rewrite !length_app_str in H. simpl in H. lia.
Qed.

(** *** What the file operations do *)

(** The files that exist stay as they are. *)
Definition persists (disk disk' : diskT) : Prop := forall p f, disk !! p = Some f -> disk' !! p = Some f.

Lemma persists_refl disk : persists disk disk.
Proof. by intros p f. Qed.

Lemma persists_temp disk tmp f : disk !! tmp = None -> persists disk (<[tmp := f]> disk).
Proof. intros Ht p g Hp. rewrite lookup_insert_ne; [done|]. intros ->. congruence. Qed.

Lemma persists_untemp disk disk' tmp : disk !! tmp = None -> persists disk disk' -> persists disk (delete tmp disk').
Proof. intros Ht Hd p g Hp. rewrite lookup_delete_ne; [by apply Hd|]. intros ->. congruence. Qed.

Lemma installFile_effect fails tmp target data disk disk' err :
  disk !! tmp = None -> installFile env fails tmp target data disk = (disk', err) ->
  match err with
  | None => disk' = <[target := mkFile data (se_now env)]> disk
  | Some _ => persists disk disk'
  end.
Proof.
  intros Ht. unfold installFile.
  assert (persists disk (if fails InRemove then <[tmp := mkFile data (se_now env)]> disk else delete tmp (<[tmp := mkFile data (se_now env)]> disk))) as Hp.
  { destruct (fails InRemove); [by apply persists_temp|]. apply persists_untemp; [done|by apply persists_temp]. }
  destruct (fails InCreate); [intros [= <- <-]; apply persists_refl|]. cbv zeta.
  destruct (fails InWrite); [by intros [= <- <-]|]. destruct (fails InSync); [by intros [= <- <-]|].
  destruct (fails InClose); [by intros [= <- <-]|]. destruct (fails InRename); [by intros [= <- <-]|].
  intros [= <- <-]. by rewrite delete_insert_id.
Qed.

Lemma copyFileAtomic_effect rel source target disk disk' err :
  copyFileAtomic env rel source target disk = (disk', err) ->
  match err with
  | None => exists f, disk !! source = Some f /\ disk' = <[target := mkFile (File_data f) (se_now env)]> disk
  | Some _ => persists disk disk'
  end.
Proof.
  unfold copyFileAtomic. destruct (se_conflictFails env rel InMkdir); [intros [= <- <-]; apply persists_refl|].
  destruct (se_conflictFails env rel InOpen); [intros [= <- <-]; apply persists_refl|].
  destruct (disk !! source) as [f|]; [|intros [= <- <-]; apply persists_refl].
  intros H%installFile_effect; [|apply Htemps]. destruct err; [done|]. by exists f.
Qed.

Lemma path_clean_join l : l <> [] -> Forall elem_ok l -> path_clean (join "/" l) = join "/" l.
Proof.
  intros Hne Hl. unfold path_clean. rewrite join_ok_not_rooted, clean_elems_join by done. by destruct l.
Qed.

Lemma cleanArchiveSourceRel_ok rel clean : rel_ok rel -> cleanArchiveSourceRel rel = Ok clean -> clean = rel.
Proof.
  intros [(l & Hne & Hl & ->) _]. unfold cleanArchiveSourceRel. destruct (_ || _); [done|]. cbv zeta.
  rewrite path_clean_join by done. destruct (_ || _); [done|]. destruct (_ || _); [done|]. by intros [= <-].
Qed.

(** Where a file is retained. *)
Definition intake (root rel : string) : string := intakePath root (se_stamp env rel) rel.

(** The disk after the file at [rel] is retained. *)
Definition retained (root rel : string) (disk : diskT) : diskT :=
  match disk !! in_root root rel with
  | Some f => <[intake root rel := mkFile (File_data f) (se_now env)]> disk
  | None => disk
  end.

Lemma retain_effect root rel disk disk' res : root <> EmptyString -> rel_ok rel ->
  RetainExistingBackupIntakeFile env root rel disk = (disk', res) ->
  match res with Ok _ => disk' = retained root rel disk | Err _ => persists disk disk' end.
Proof.
  intros Hroot Hrel. unfold RetainExistingBackupIntakeFile, retained.
  destruct (cleanArchiveSourceRel rel) as [clean|e] eqn:Hc; [|intros [= <- <-]; apply persists_refl].
  pose proof (cleanArchiveSourceRel_ok rel clean Hrel Hc) as ->. rewrite path_join_in; [|done|by apply rel_ok_nonempty]. cbv zeta.
  destruct (se_statFails env _); [intros [= <- <-]; apply persists_refl|].
  destruct (disk !! in_root root rel) as [f|]; [|by intros [= <- <-]].
  destruct (se_intakeFails env rel InOpen); [intros [= <- <-]; apply persists_refl|].
  unfold RetainBackupIntakeFile. rewrite Hc. cbv zeta.
  destruct (se_intakeFails env rel InMkdir); [intros [= <- <-]; apply persists_refl|].
  destruct (installFile _ _ _ _ _ _) as [d err] eqn:Hi. apply installFile_effect in Hi; [|apply Htemps].
  destruct err; intros [= <- <-]; done.
Qed.

End temps.

(** *** Assembly in the target *)

(** The content a manifest describes, as far as hashes tell. *)
Definition matches_manifest (sha256 : bytes -> bytes) (data : bytes) (m : Manifest) : Prop :=
  Z.of_nat (length data) = Manifest_Size m /\
  digest <$> tiles sha256 data (Manifest_BlockSize m) = digest <$> Manifest_Blocks m.

Lemma assemble_callback_effect sha256 faults fs targetPath tmp now m sources f fs' res :
  Manifest_Size m <= maxInt64 -> fs !! tmp = None ->
  (forall data, persists (Apply.staged tmp data now fs) (f (Apply.staged tmp data now fs)).1) ->
  Apply.AssembleFromLocalBlocksBeforeRename sha256 faults fs targetPath tmp now m sources (Some f) = (fs', res) ->
  match res with
  | Err _ => persists fs fs'
  | Ok _ => exists data fs2, f (Apply.staged tmp data now fs) = (fs2, None) /\
      fs' = <[targetPath := mkFile data now]> (delete tmp fs2) /\ matches_manifest sha256 data m
  end.
Proof.
  intros Hmax Hfresh Hf. unfold Apply.AssembleFromLocalBlocksBeforeRename.
  assert (Hclean : forall d, persists fs d -> persists fs (Apply.cleanup faults tmp d)).
  { intros d Hd. unfold Apply.cleanup. destruct (faults _); [done|]. by apply persists_untemp. }
  destruct (faults Apply.SysMkdirAll); [intros [= <- <-]; apply persists_refl|].
  destruct (faults Apply.SysCreateTemp); [intros [= <- <-]; apply persists_refl|].
  unfold Apply.stageAndVerify. destruct (Apply.copyBlocks _ _ _ _ _ _) as [data copied].
  assert (Hstaged : persists fs (Apply.staged tmp data now fs)) by by apply persists_temp.
  destruct (copied ≫= _) as [[]|e] eqn:Hv; [|intros [= <- <-]; by apply Hclean].
  apply result_bind_ok in Hv as (_ & _ & Hv). apply result_bind_ok in Hv as (_ & _ & Hv).
  apply result_bind_ok in Hv as (_ & _ & Hv).
  specialize (Hf data). destruct (f (Apply.staged tmp data now fs)) as [fs2 [e|]] eqn:Ef; cbn [fst] in Hf.
  { intros [= <- <-]. apply Hclean. intros p g Hp. by apply Hf, Hstaged. }
  destruct (faults Apply.SysRename).
  { intros [= <- <-]. apply Hclean. intros p g Hp. by apply Hf, Hstaged. }
  assert (fs2 !! tmp = Some (mkFile data now)) as ->.
  { apply Hf. unfold Apply.staged. by rewrite lookup_insert_eq. }
  intros [= <- <-]. exists data, fs2. split; [done|]. split; [done|].
  apply verifyManifest_ok in Hv as (_ & _ & g & Hg & Hs & Hd); [|done].
  unfold Apply.staged in Hg. rewrite lookup_insert_eq in Hg. injection Hg as <-. by split.
Qed.

Section write.
Context (sha256 : bytes -> bytes) (env : syncEnv) (Htemps : temps_ok env) (root : string) (Hroot : root <> EmptyString).

Lemma intake_in rel : rel_ok rel ->
  intake env root rel = in_root root (".sync/backup-intake/" +:+ se_stamp env rel +:+ "/" +:+ rel).
Proof. intros _. unfold intake, intakePath. by apply path_join_in. Qed.

Lemma intake_base rel : rel_ok rel -> path_base (intake env root rel) = path_base rel.
Proof.
  intros Hrel. rewrite intake_in by done. rewrite path_base_in.
  apply (path_base_in (".sync/backup-intake/" +:+ se_stamp env rel) rel).
Qed.

Lemma retained_temp rel tmp f disk : rel_ok rel -> disk !! tmp = None -> tmp <> in_root root rel -> tmp <> intake env root rel ->
  delete tmp (retained env root rel (<[tmp := f]> disk)) = retained env root rel disk.
Proof.
  intros Hrel Ht H1 H2. unfold retained. rewrite lookup_insert_ne by done.
  destruct (disk !! in_root root rel) as [g|]; [|by apply delete_insert_id].
  rewrite delete_insert_ne by done. by rewrite delete_insert_id.
Qed.

Lemma retained_persists rel disk : disk !! intake env root rel = None -> persists disk (retained env root rel disk).
Proof. intros Hi. unfold retained. destruct (disk !! in_root root rel); [by apply persists_temp|apply persists_refl]. Qed.

Lemma write_effect plan rel m st st' err : sp_target plan = root -> rel_ok rel -> Manifest_Size m <= maxInt64 ->
  run_disk st !! intake env root rel = None ->
  writeStep sha256 env plan rel m st = (st', err) ->
  match err with
  | Some _ => persists (run_disk st) (run_disk st') \/
      exists data, matches_manifest sha256 data m /\
        run_disk st' = <[in_root root rel := mkFile data (se_now env)]> (retained env root rel (run_disk st))
  | None => (exists data, matches_manifest sha256 data m /\
        run_disk st' = <[in_root root rel := mkFile data (se_now env)]> (retained env root rel (run_disk st)))
  end /\ run_protected st' = run_protected st /\ run_moves st' = run_moves st.
Proof.
  intros Hp Hrel Hmax Hi. unfold writeStep, prepare.
  destruct (prepareTargetDirectory _ _ _ _ _) as [chmods [e|]]; cbn [andThen]; [intros [= <- <-]; split; [left; apply persists_refl|done]|].
  unfold assembleStep. cbn [count set_chmods run_disk run_moves run_protected].
  unfold targetOf. rewrite Hp, path_join_in; [|done|by apply rel_ok_nonempty].
  set (disk := run_disk st) in *. set (tmp := tempName env (in_root root rel) ".staging" disk).
  assert (tmp <> in_root root rel) as Ht1 by by apply tempName_other.
  assert (tmp <> intake env root rel) as Ht2.
  { apply tempName_other; [done|done|]. by rewrite intake_base, path_base_in. }
  assert (disk !! tmp = None) as Htmp by apply Htemps.
  assert (forall data, (Apply.staged tmp data (se_now env) disk) !! intake env root rel = None) as Hsi.
  { intros data. unfold Apply.staged. by rewrite lookup_insert_ne. }
  destruct (Apply.AssembleFromLocalBlocksBeforeRename _ _ _ _ _ _ _ _ _) as [disk' res] eqn:Ha.
  apply assemble_callback_effect in Ha; [|done|done|].
  - destruct res as [u|e]; cbn [andThen]; [|intros [= <- <-]; split; [by left|done]].
    destruct Ha as (data & fs2 & Hr & -> & Hm).
    assert (exists data, matches_manifest sha256 data m /\ <[in_root root rel := mkFile data (se_now env)]> (delete tmp fs2)
      = <[in_root root rel := mkFile data (se_now env)]> (retained env root rel disk)) as Hdone.
    { exists data. split; [done|]. f_equal. unfold retainBefore in Hr. rewrite Hp in Hr.
      destruct (RetainExistingBackupIntakeFile _ _ _ _) as [d r] eqn:Hret. apply retain_effect in Hret; [|done..].
      destruct r as [o|e]; [|done]. injection Hr as <-. subst d. by apply retained_temp. }
    assert (forall data', <[in_root root rel := mkFile data' (se_now env)]> (delete tmp fs2)
      = <[in_root root rel := mkFile data' (se_now env)]> (retained env root rel disk)) as Hsame.
    { intros data'. destruct Hdone as (d0 & _ & Hd). apply (f_equal (fun d => <[in_root root rel := mkFile data' (se_now env)]> d)) in Hd.
      by rewrite !insert_insert_eq in Hd. }
    unfold permit. destruct (applyPermissionPolicy _ _ _ _ _ _) as [chmods' [e|]]; intros [= <- <-]; cbn;
      (split; [|done]); [right|]; exists data; (split; [done|apply Hsame]).
  - intros data. unfold retainBefore. rewrite Hp.
    destruct (RetainExistingBackupIntakeFile _ _ _ _) as [d r] eqn:Hret. apply retain_effect in Hret; [|done..].
    destruct r as [o|e]; cbn [fst]; [|done]. subst d. by apply retained_persists.
Qed.

Lemma move_effect plan rel moveRel st st' err : sp_target plan = root -> rel <> EmptyString -> moveRel <> EmptyString ->
  moveStep env plan rel moveRel st = (st', err) ->
  match err with
  | Some _ => run_disk st' = run_disk st
  | None => False
  end \/ (exists f, run_disk st !! in_root root moveRel = Some f /\
    run_disk st' = <[in_root root rel := f]> (delete (in_root root moveRel) (run_disk st)) /\
    match err with None => run_protected st' = {[moveRel]} ∪ run_protected st /\ run_moves st' = run_moves st | Some _ => True end).
Proof.
  intros Hp Hrel Hmv. unfold moveStep, prepare, targetOf.
  destruct (prepareTargetDirectory _ _ _ _ _) as [chmods [e|]]; cbn [andThen]; [intros [= <- <-]; by left|].
  unfold moveFile. unfold targetOf. rewrite Hp, !path_join_in by done. cbn [set_chmods run_disk].
  destruct (run_disk st !! in_root root moveRel) as [f|]; cbn [andThen]; [|intros [= <- <-]; by left].
  destruct (se_moveFails env rel); cbn [andThen]; [intros [= <- <-]; by left|].
  unfold permit. destruct (applyPermissionPolicy _ _ _ _ _ _) as [chmods' [e|]]; intros [= <- <-]; right; exists f; by cbn.
Qed.

Lemma nextConflictRel_free fuel i disk rel suffix c :
  nextConflictRel env fuel i disk root rel suffix = Some c ->
  disk !! path_join root c = None /\ exists k, c = conflictCandidate rel suffix k.
Proof.
  revert i. induction fuel as [|fuel IH]; intros i; cbn [nextConflictRel]; [done|].
  destruct (statNotExist _ _ _) eqn:Hs; [|apply IH]. intros [= <-]. split; [|by eexists].
  unfold statNotExist in Hs. rewrite !andb_true_iff in Hs. destruct Hs as [[_ Hs] _]. by apply bool_decide_eq_true in Hs.
Qed.

Lemma conflict_effect plan rel st st' err : sp_target plan = root -> rel <> EmptyString ->
  conflictStep env plan rel st = (st', err) ->
  run_moves st' = run_moves st /\
  match err with
  | Some _ => persists (run_disk st) (run_disk st')
  | None => exists c f k, c = conflictCandidate rel (SyncOptions_ConflictSuffix (sp_opts plan)) k /\
      run_disk st !! path_join root c = None /\ run_disk st !! in_root root rel = Some f /\
      run_disk st' = <[path_join root c := mkFile (File_data f) (se_now env)]> (run_disk st)
      /\ run_protected st' = {[c]} ∪ run_protected st
  end.
Proof.
  intros Hp Hrel. unfold conflictStep. rewrite Hp.
  destruct (nextConflictRel _ _ _ _ _ _ _) as [c|] eqn:Hc; [|intros [= <- <-]; split; [done|apply persists_refl]].
  apply nextConflictRel_free in Hc as (Hfree & k & Hk). unfold targetOf. rewrite Hp, (path_join_in root rel) by done.
  destruct (copyFileAtomic _ _ _ _ _) as [d err'] eqn:Hcopy. apply copyFileAtomic_effect in Hcopy; [|done].
  destruct err' as [e|]; cbn [andThen]; intros [= <- <-]; (split; [done|]); [done|]. destruct Hcopy as (f & Hf & ->).
  exists c, f, k. done.
Qed.

End write.

(** *** The key of a manifest *)

Lemma pipe_sep a1 a2 s1 s2 : contains_char a1 "|"%char = false -> contains_char a2 "|"%char = false ->
  (forall c t, s1 = String c t -> c = "|"%char) -> (forall c t, s2 = String c t -> c = "|"%char) ->
  a1 +:+ s1 = a2 +:+ s2 -> a1 = a2 /\ s1 = s2.
Proof.
  unfold String.app. revert a2. induction a1 as [|c a1 IH]; intros [|d a2] H1 H2 Hs1 Hs2 H; cbn in H.
  - done.
  - rewrite (Hs1 _ _ H) in H2. cbn in H2. by rewrite ?bool_decide_eq_true_2 in H2.
  - rewrite (Hs2 _ _ (eq_sym H)) in H1. cbn in H1. by rewrite ?bool_decide_eq_true_2 in H1.
  - injection H as <- H. cbn in H1, H2. apply orb_false_iff in H1 as [_ H1], H2 as [_ H2].
    destruct (IH a2 H1 H2 Hs1 Hs2 H) as [-> ->]. done.
Qed.

Lemma hex_encode_no_pipe bs : contains_char (hex_encode bs) "|"%char = false.
Proof.
  induction bs as [|b bs IH]; [done|]. cbn [hex_encode]. rewrite contains_char_app, IH, orb_false_r. by destruct b.
Qed.

Definition key_tail (blocks : list Block) : string :=
  foldr (fun b s => "|" +:+ itoa (Block_Size b) +:+ ":" +:+ hex_encode (Block_Hash b) +:+ s) EmptyString blocks.

Lemma key_tail_pipe blocks c t : key_tail blocks = String c t -> c = "|"%char.
Proof. destruct blocks as [|b blocks]; [done|]. cbn. unfold String.app. cbn. by intros [= <- _]. Qed.

Lemma key_tail_inj l1 l2 : key_tail l1 = key_tail l2 -> digest <$> l1 = digest <$> l2.
Proof.
  revert l2. induction l1 as [|a l1 IH]; intros [|b l2] H; [done|by discriminate H|by discriminate H|].
  change ("|" +:+ itoa (Block_Size a) +:+ ":" +:+ hex_encode (Block_Hash a) +:+ key_tail l1
    = "|" +:+ itoa (Block_Size b) +:+ ":" +:+ hex_encode (Block_Hash b) +:+ key_tail l2) in H.
  apply app_cancel_str in H.
  apply (sep_inj ":"%char) in H as [Hs H]; [|by apply itoa_no_char..].
  apply pipe_sep in H as [Hh H]; [|apply hex_encode_no_pipe..|apply key_tail_pipe|apply key_tail_pipe].
  rewrite !fmap_cons. f_equal; [|by apply IH]. unfold digest. by rewrite (itoa_inj _ _ Hs), (hex_encode_inj _ _ Hh).
Qed.

Lemma manifestKey_inj m1 m2 : manifestKey m1 = manifestKey m2 ->
  Manifest_Size m1 = Manifest_Size m2 /\ digest <$> Manifest_Blocks m1 = digest <$> Manifest_Blocks m2.
Proof.
  unfold manifestKey. intros H. apply pipe_sep in H as [Hs H]; [|by apply itoa_no_char..|apply key_tail_pipe|apply key_tail_pipe].
  split; [by apply itoa_inj|by apply key_tail_inj].
Qed.

Lemma manifestsEqual_digests m1 m2 : manifestsEqual m1 m2 = true ->
  Manifest_Size m1 = Manifest_Size m2 /\ digest <$> Manifest_Blocks m1 = digest <$> Manifest_Blocks m2.
Proof.
  unfold manifestsEqual. rewrite !andb_true_iff, !bool_decide_eq_true. intros [[Hs _] Hb]. split; [done|].
  induction Hb as [|a b l1 l2 [H1 H2] Hb IH]; [done|]. rewrite !fmap_cons, IH. unfold digest. by rewrite H1, H2.
Qed.

(** *** Names of conflict copies *)


Lemma conflictSuffix_nonempty suffix : conflictSuffix suffix <> EmptyString.
Proof. unfold conflictSuffix. by case_bool_decide. Qed.

Lemma app_nonempty_mid a b c : b <> EmptyString -> a +:+ b +:+ c <> EmptyString.
Proof. intros Hb H. apply app_eq_nil_str in H as [_ H]. by apply app_eq_nil_str in H as [H _]. Qed.

Lemma conflictCandidate_nonempty rel suffix k : conflictCandidate rel suffix k <> EmptyString.
Proof.
  unfold conflictCandidate. pose proof (conflictSuffix_nonempty suffix). destruct k; apply app_nonempty_mid; [done|].
  intros H1. by apply app_eq_nil_str in H1 as [? _].
Qed.


Lemma ext_aux_no_slash s cur : (cur = EmptyString \/ exists x, cur = x +:+ s /\ contains_char x slash = false) ->
  contains_char (ext_aux cur s) slash = false.
Proof.
  revert cur. induction s as [|c s IH]; intros cur Hc; cbn [ext_aux].
  { destruct Hc as [->|(x & -> & Hx)]; [done|]. by rewrite str_app_nil_r. }
  destruct (bool_decide_reflect (c = slash)) as [->|Hs]; [apply IH; by left|].
  assert (forall x, contains_char x slash = false -> contains_char (x +:+ String c EmptyString) slash = false) as Hx.
  { intros x Hx. rewrite contains_char_app, Hx. cbn. by rewrite bool_decide_eq_false_2 by congruence. }
  destruct (bool_decide_reflect (c = "."%char)) as [->|Hd]; apply IH.
  - right. exists ".". split; done.
  - destruct Hc as [->|(x & -> & Hn)]; [by left|]. right. exists (x +:+ String c EmptyString).
    rewrite str_app_assoc. split; [done|by apply Hx].
Qed.

Lemma path_ext_no_slash p : contains_char (path_ext p) slash = false.
Proof. apply ext_aux_no_slash. by left. Qed.

Lemma take_drop_str n s : take_str n s +:+ drop_str n s = s.
Proof. revert s. induction n as [|n IH]; intros [|c s]; [done..|]. cbn. rewrite app_cons_str. by rewrite IH. Qed.

Lemma trim_suffix_prefix s p : exists t, s = trim_suffix s p +:+ t.
Proof.
  unfold trim_suffix. destruct (has_suffix s p); [|exists EmptyString; by rewrite str_app_nil_r].
  eexists. symmetry. apply take_drop_str.
Qed.

Lemma conflictCandidate_outside rel suffix k : rel_ok rel -> contains_char (conflictSuffix suffix) slash = false ->
  has_prefix (conflictCandidate rel suffix k) ".sync/" = false.
Proof.
  intros Hrel Hs. destruct (has_prefix _ _) eqn:Hp; [|done]. apply has_prefix_inv in Hp as [t Ht].
  unfold conflictCandidate in Ht. set (base := trim_suffix rel (path_ext rel)) in *.
  destruct (trim_suffix_prefix rel (path_ext rel)) as [u Hu]. fold base in Hu.
  set (rest := (match k with O => conflictSuffix suffix | S _ => conflictSuffix suffix +:+ "-" +:+ itoa (Z.of_nat k) end) +:+ path_ext rel) in Ht.
  assert (contains_char rest slash = false) as Hrest.
  { unfold rest. rewrite contains_char_app, path_ext_no_slash, orb_false_r. destruct k; [done|].
    rewrite contains_char_app, Hs. cbn [orb]. change (contains_char (itoa (Z.of_nat (S k))) slash = false). by apply itoa_no_char. }
  change (base +:+ rest = ".sync/" +:+ t) in Ht.
  destruct (decide (String.length ".sync/" <= String.length base)%nat) as [Hl|Hl].
  - destruct (app_split_str ".sync/" t base rest (eq_sym Ht) Hl) as (m & Hb & _).
    pose proof (rel_outside _ Hrel) as Hout. rewrite Hu, Hb, str_app_assoc, has_prefix_app in Hout. done.
  - destruct (app_split_str base rest ".sync/" t Ht ltac:(lia)) as (m & Hb & Hm).
    rewrite Hm, contains_char_app in Hrest. apply orb_false_iff in Hrest as [Hrest _].
    clear -Hb Hrest Hl. revert Hb. generalize base Hl. clear base Hl. intros base Hl Hb.
    do 6 (destruct base as [|? base]; [rewrite app_nil_str in Hb; rewrite <- Hb in Hrest; discriminate Hrest|
      rewrite app_cons_str in Hb; injection Hb as _ Hb]).
    simpl in Hl. lia.
Qed.

(** *** Invariants of a run *)

Section run.
Context (sha256 : bytes -> bytes) (otherRegexp : string -> string -> bool) (env : syncEnv) (plan : syncPlan) (disk0 : diskT).

Let T := sp_target plan.
Let src := sp_sourceByPath plan.
Let tgt := sp_targetByPath plan.
Let skipped rel := ignoredForTarget otherRegexp (sp_matcher plan) rel = true.
Let bs := SyncOptions_BlockSize (sp_opts plan).

(** What a plan made of two scans satisfies, and what the system promises. *)
Record plan_ok : Prop := {
  po_temps : temps_ok env;
  po_root : T <> EmptyString;
  po_src : forall rel file, src !! rel = Some file -> rel_ok rel /\ Manifest_BlockSize (ScannedFile_Manifest file) = bs
    /\ Manifest_Size (ScannedFile_Manifest file) <= maxInt64;
  po_tgt : forall rel file, tgt !! rel = Some file -> rel_ok rel /\
    exists f, disk0 !! in_root T rel = Some f /\ describes sha256 bs f (ScannedFile_Manifest file);
  po_stamp : forall rel, contains_char (se_stamp env rel) slash = false;
  po_intake : forall rel, rel_ok rel -> disk0 !! intake env T rel = None;
  po_suffix : contains_char (conflictSuffix (SyncOptions_ConflictSuffix (sp_opts plan))) slash = false
}.

Context (Hok : plan_ok).

Lemma intake_inj r1 r2 : rel_ok r1 -> rel_ok r2 -> intake env T r1 = intake env T r2 -> r1 = r2.
Proof.
  intros H1 H2. rewrite !intake_in by (done || apply Hok). intros H%in_root_inj. apply app_cancel_str in H.
  by apply (sep_inj slash) in H as [_ ?]; [|apply Hok..].
Qed.

Lemma intake_apart r1 r2 : rel_ok r1 -> has_prefix r2 ".sync/" = false -> intake env T r1 <> in_root T r2.
Proof.
  intros H1 H2 H. rewrite intake_in in H by (done || apply Hok). apply in_root_inj in H. by subst r2.
Qed.

Lemma in_root_apart r1 r2 : r1 <> r2 -> in_root T r1 <> in_root T r2.
Proof. intros Hne H. by apply in_root_inj in H. Qed.

(** Where the content of a target file is to be found. *)
Inductive place_of (todo : list string) (rel : string) : string -> Prop :=
| place_own : place_of todo rel (in_root T rel)
| place_intake : rel ∉ todo -> place_of todo rel (intake env T rel)
| place_moved r file : src !! r = Some file -> tgt !! r = None -> r ∉ todo -> place_of todo rel (in_root T r).

Definition untouched (p : string) : Prop := forall rel, p = in_root T rel -> tgt !! rel = None /\ (src !! rel = None \/ skipped rel).

Record core (todo : list string) (disk : diskT) : Prop := {
  core_kept : forall rel file f0, tgt !! rel = Some file -> disk0 !! in_root T rel = Some f0 ->
    exists p f, place_of todo rel p /\ disk !! p = Some f /\ File_data f = File_data f0;
  core_intake : forall rel, rel ∈ todo -> rel_ok rel /\ disk !! intake env T rel = None;
  core_both : forall rel fs ft, rel ∈ todo -> src !! rel = Some fs -> tgt !! rel = Some ft ->
    disk !! in_root T rel = disk0 !! in_root T rel;
  core_done : forall rel file, src !! rel = Some file -> rel ∉ todo -> ~ skipped rel ->
    exists f, disk !! in_root T rel = Some f /\ matches_manifest sha256 (File_data f) (ScannedFile_Manifest file);
  core_frame : forall p f, disk0 !! p = Some f -> untouched p -> disk !! p = Some f
}.

(** What holds whenever the run stops. *)
Record safe (disk : diskT) : Prop := {
  safe_kept : forall rel file f0, tgt !! rel = Some file -> disk0 !! in_root T rel = Some f0 ->
    exists r f, disk !! in_root T r = Some f /\ File_data f = File_data f0;
  safe_frame : forall p f, disk0 !! p = Some f -> untouched p -> disk !! p = Some f
}.

Lemma core_safe todo disk disk' : core todo disk -> persists disk disk' -> safe disk'.
Proof.
  intros [Hk _ _ _ Hf] Hp. constructor.
  - intros rel file f0 Ht H0. destruct (Hk rel file f0 Ht H0) as (p & f & Hpl & Hd & Heq). apply Hp in Hd.
    destruct Hpl as [|Hn|r file' _ _ _]; [by exists rel, f| |by exists r, f].
    rewrite intake_in in Hd; [|apply Hok|by apply (po_tgt Hok rel file)]. by eexists _, f.
  - intros p f H0 Hu. by apply Hp, Hf.
Qed.

Lemma place_weaken todo r rel p : place_of (r :: todo) rel p -> place_of todo rel p.
Proof.
  intros [|Hn|r' file Hs Ht Hn]; [constructor|apply place_intake|eapply place_moved; [done..|]]; set_solver.
Qed.

Lemma retained_other rel disk p : p <> intake env T rel -> retained env T rel disk !! p = disk !! p.
Proof. intros Hp. unfold retained. destruct (disk !! in_root T rel); [by rewrite lookup_insert_ne by congruence|done]. Qed.

Lemma retained_own rel disk f : disk !! in_root T rel = Some f ->
  retained env T rel disk !! intake env T rel = Some (mkFile (File_data f) (se_now env)).
Proof. intros Hf. unfold retained. rewrite Hf. by rewrite lookup_insert_eq. Qed.

(** Nothing to do. *)
Lemma core_skip todo r disk : core (r :: todo) disk ->
  (forall file, src !! r = Some file -> ~ skipped r ->
     exists f, disk !! in_root T r = Some f /\ matches_manifest sha256 (File_data f) (ScannedFile_Manifest file)) ->
  core todo disk.
Proof.
  intros [Hk Hi Hb Hd Hf] Hr. constructor; [| | | |done].
  - intros rel file f0 Ht H0. destruct (Hk rel file f0 Ht H0) as (p & f & Hp & ?). exists p, f.
    split; [by apply (place_weaken _ r)|done].
  - intros rel Hrel. apply Hi. by right.
  - intros rel fs ft Hrel. apply Hb. by right.
  - intros rel file Hs Hn Hsk. destruct (decide (rel = r)) as [->|Hne]; [by apply Hr|]. apply (Hd rel file); [done|set_solver|done].
Qed.

(** The file at [r] is retained and then replaced, or removed. *)
Definition put (p : string) (o : option File) (disk : diskT) : diskT :=
  match o with Some f => <[p := f]> disk | None => delete p disk end.

Lemma lookup_put_eq p o disk : put p o disk !! p = o.
Proof. destruct o; cbn; [apply lookup_insert_eq|apply lookup_delete_eq]. Qed.

Lemma lookup_put_ne p q o disk : p <> q -> put p o disk !! q = disk !! q.
Proof. intros H. destruct o; cbn; [by apply lookup_insert_ne|by apply lookup_delete_ne]. Qed.

Lemma core_replace todo r o disk : r ∉ todo -> core (r :: todo) disk ->
  (~ untouched (in_root T r)) ->
  (forall file, src !! r = Some file -> exists f, o = Some f /\ matches_manifest sha256 (File_data f) (ScannedFile_Manifest file)) ->
  core todo (put (in_root T r) o (retained env T r disk)).
Proof.
  intros Hr [Hk Hi Hb Hd Hf] Htouch Ho.
  destruct (Hi r ltac:(by left)) as [Hrok Hir].
  assert (Hsame : forall p, p <> in_root T r -> p <> intake env T r -> put (in_root T r) o (retained env T r disk) !! p = disk !! p).
  { intros p H1 H2. rewrite lookup_put_ne by congruence. by apply retained_other. }
  assert (Hown : intake env T r <> in_root T r) by (apply intake_apart; [done|apply Hrok]).
  constructor.
  - intros rel file f0 Ht H0. destruct (Hk rel file f0 Ht H0) as (p & f & Hp & Hpf & Heq).
    destruct (po_tgt Hok rel file Ht) as [Hrelok _].
    destruct Hp as [|Hn|r' file' Hs' Ht' Hn].
    + destruct (decide (rel = r)) as [->|Hne].
      * exists (intake env T r), (mkFile (File_data f) (se_now env)). split; [by apply place_intake|]. split; [|done].
        rewrite lookup_put_ne by done. by apply retained_own.
      * exists (in_root T rel), f. split; [constructor|]. split; [|done]. rewrite Hsame; [done|by apply in_root_apart|].
        intros H. symmetry in H. by apply intake_apart in H; [|done|apply Hrelok].
    + apply not_elem_of_cons in Hn as [Hne Hn]. exists (intake env T rel), f. split; [by apply place_intake|]. split; [|done].
      rewrite Hsame; [done| |]; [apply intake_apart; [done|apply Hrok]|]. intros H%intake_inj; done.
    + apply not_elem_of_cons in Hn as [Hne Hn]. exists (in_root T r'), f. split; [by eapply place_moved|]. split; [|done].
      rewrite Hsame; [done|by apply in_root_apart|]. intros H. symmetry in H. apply intake_apart in H; [done|done|].
      by apply (po_src Hok r' file').
  - intros rel Hrel. destruct (Hi rel ltac:(by right)) as [Hrelok Hirel]. split; [done|].
    assert (rel <> r) by congruence. rewrite Hsame; [done| |]; [apply intake_apart; [done|apply Hrok]|]. intros H'%intake_inj; done.
  - intros rel fs ft Hrel Hs Ht. assert (rel <> r) by congruence. rewrite Hsame; [apply (Hb rel fs ft); [by right|done..]|by apply in_root_apart|].
    intros H'. symmetry in H'. apply intake_apart in H'; [done|done|]. by apply (po_src Hok rel fs).
  - intros rel file Hs Hn Hsk. destruct (decide (rel = r)) as [->|Hne].
    + destruct (Ho file Hs) as (f & -> & Hm). exists f. split; [apply lookup_put_eq|done].
    + destruct (Hd rel file Hs ltac:(set_solver) Hsk) as (f & Hf' & Hm). exists f. split; [|done].
      rewrite Hsame; [done|by apply in_root_apart|]. intros H'. symmetry in H'. apply intake_apart in H'; [done|done|]. by apply (po_src Hok rel file).
  - intros p f H0 Hu. rewrite Hsame; [by apply Hf| |].
    + intros ->. done.
    + intros ->. rewrite (po_intake Hok r Hrok) in H0. done.
Qed.

(** A file appears where there was none. *)
Lemma core_appear todo c g disk : core todo disk -> disk !! in_root T c = None -> has_prefix c ".sync/" = false ->
  core todo (<[in_root T c := g]> disk).
Proof.
  intros [Hk Hi Hb Hd Hf] Hc Hs.
  assert (Hsame : forall p f, disk !! p = Some f -> <[in_root T c := g]> disk !! p = Some f).
  { intros p f Hp. rewrite lookup_insert_ne; [done|]. intros <-. congruence. }
  constructor.
  - intros rel file f0 Ht H0. destruct (Hk rel file f0 Ht H0) as (p & f & Hp & Hpf & Heq). exists p, f. auto.
  - intros rel Hrel. destruct (Hi rel Hrel) as [Hrok Hir]. split; [done|]. rewrite lookup_insert_ne; [done|].
    intros H. symmetry in H. by apply intake_apart in H.
  - intros rel fs ft Hrel Hsr Htr. specialize (Hb rel fs ft Hrel Hsr Htr). destruct (po_tgt Hok rel ft Htr) as (_ & f & Hf0 & _).
    rewrite <- Hb in Hf0. rewrite (Hsame _ _ Hf0). congruence.
  - intros rel file Hsr Hn Hsk. destruct (Hd rel file Hsr Hn Hsk) as (f & Hf' & Hm). exists f. auto.
  - intros p f H0 Hu. by apply Hsame, Hf.
Qed.

(** A stale file [x] takes the place [r]. *)
Lemma core_move todo r x file disk f : r ∉ todo -> core (r :: todo) disk ->
  src !! r = Some file -> tgt !! r = None -> ~ skipped r ->
  src !! x = None -> is_Some (tgt !! x) -> x ∈ todo ->
  disk !! in_root T x = Some f -> disk0 !! in_root T x = Some f -> matches_manifest sha256 (File_data f) (ScannedFile_Manifest file) ->
  core todo (<[in_root T r := f]> (delete (in_root T x) disk)).
Proof.
  intros Hr [Hk Hi Hb Hd Hf] Hsr Htr Hskr Hsx [fx Htx] Hxt Hx Hx0 Hm.
  destruct (Hi r ltac:(by left)) as [Hrok _]. destruct (Hi x ltac:(by right)) as [Hxok _].
  assert (x <> r) as Hxr by congruence.
  assert (Hsame : forall p, p <> in_root T r -> p <> in_root T x -> <[in_root T r := f]> (delete (in_root T x) disk) !! p = disk !! p).
  { intros p H1 H2. by rewrite lookup_insert_ne, lookup_delete_ne by congruence. }
  assert (Hint : forall rel, rel_ok rel -> <[in_root T r := f]> (delete (in_root T x) disk) !! intake env T rel = disk !! intake env T rel).
  { intros rel Hrel. apply Hsame; apply intake_apart; [done|apply Hrok|done|apply Hxok]. }
  constructor.
  - intros rel file' f0 Ht H0. destruct (po_tgt Hok rel file' Ht) as [Hrelok _].
    destruct (decide (rel = x)) as [->|Hnx].
    { exists (in_root T r), f. split; [by eapply place_moved|]. split; [apply lookup_insert_eq|congruence]. }
    destruct (Hk rel file' f0 Ht H0) as (p & g & Hp & Hpf & Heq). exists p, g. split; [by apply (place_weaken _ r)|]. split; [|done].
    destruct Hp as [|Hn|r' file'' Hs' Ht' Hn].
    + rewrite Hsame; [done|apply in_root_apart; congruence|by apply in_root_apart].
    + by rewrite Hint.
    + apply not_elem_of_cons in Hn as [Hne Hn]. rewrite Hsame; [done|by apply in_root_apart|apply in_root_apart; congruence].
  - intros rel Hrel. destruct (Hi rel ltac:(by right)) as [Hrelok Hir]. split; [done|]. by rewrite Hint.
  - intros rel fs ft Hrel Hs Ht. rewrite Hsame; [apply (Hb rel fs ft); [by right|done..]|apply in_root_apart; congruence..].
  - intros rel file' Hs Hn Hsk. destruct (decide (rel = r)) as [->|Hne].
    + exists f. split; [apply lookup_insert_eq|]. by assert (file' = file) as -> by congruence.
    + destruct (Hd rel file' Hs ltac:(set_solver) Hsk) as (g & Hg & Hmg). exists g. split; [|done].
      rewrite Hsame; [done|by apply in_root_apart|apply in_root_apart; congruence].
  - intros p g H0 Hu. rewrite Hsame; [by apply Hf| |]; intros ->.
    + destruct (Hu r eq_refl) as [_ [?|?]]; [congruence|done].
    + destruct (Hu x eq_refl) as [? _]. congruence.
Qed.

(** *** Candidates for moves *)

(** Each candidate is a stale file, still where the scan found it. *)
Definition cands (todo : list string) (moves : candidatesT) (disk : diskT) : Prop :=
  forall k paths, moves !! k = Some paths -> NoDup paths /\
    forall x, x ∈ paths -> src !! x = None /\ x ∈ todo /\
      exists file f, tgt !! x = Some file /\ manifestKey (ScannedFile_Manifest file) = k /\
        disk !! in_root T x = Some f /\ disk0 !! in_root T x = Some f.

Lemma cands_step todo r moves disk disk' : cands (r :: todo) moves disk -> is_Some (src !! r) ->
  (forall x, rel_ok x -> x <> r -> disk !! in_root T x <> None -> disk' !! in_root T x = disk !! in_root T x) -> cands todo moves disk'.
Proof.
  intros Hc [file Hr] Hd k paths Hk. destruct (Hc k paths Hk) as [Hnd Hx]. split; [done|]. intros x Hin.
  destruct (Hx x Hin) as (Hs & Ht & ft & f & Htgt & Hkey & Hf & Hf0). split; [done|].
  assert (x <> r) by congruence. split; [by apply elem_of_cons in Ht as [->|]|]. exists ft, f. split; [done|]. split; [done|].
  split; [|done]. rewrite Hd; [done|by apply (po_tgt Hok x ft)|done|]. by rewrite Hf.
Qed.

Lemma cands_persist todo moves disk disk' : cands todo moves disk -> persists disk disk' -> cands todo moves disk'.
Proof.
  intros Hc Hp k paths Hk. destruct (Hc k paths Hk) as [Hnd Hx]. split; [done|]. intros x Hin.
  destruct (Hx x Hin) as (Hs & Ht & ft & f & Htgt & Hkey & Hf & Hf0). split; [done|]. split; [done|]. exists ft, f. auto.
Qed.

Lemma take_spec todo moves disk m x moves' : cands todo moves disk -> takeMoveCandidate moves m = Some (x, moves') ->
  (exists paths, moves !! manifestKey m = Some paths /\ x ∈ paths) /\
  cands todo moves' disk /\ forall k paths y, moves' !! k = Some paths -> y ∈ paths -> y <> x.
Proof.
  intros Hc. unfold takeMoveCandidate. destruct (moves !! manifestKey m) as [[|p ps]|] eqn:Hm; [done| |done].
  destruct (Hc _ _ Hm) as [Hnd Hin]. apply NoDup_cons in Hnd as [Hp Hnd].
  assert (forall k paths y, moves !! k = Some paths -> k <> manifestKey m -> y ∈ paths -> y <> p) as Hother.
  { intros k paths y Hk Hne Hy ->. destruct (Hc _ _ Hk) as [_ Hy']. apply Hy' in Hy as (_ & _ & f1 & _ & Ht1 & Hk1 & _).
    destruct (Hin p ltac:(by left)) as (_ & _ & f2 & _ & Ht2 & Hk2 & _). congruence. }
  destruct ps as [|q ps]; intros [= <- <-]; (split; [eexists; split; [done|by left]|]).
  - split.
    + intros k paths [_ Hk]%lookup_delete_Some. by apply Hc.
    + intros k paths y [Hne Hk]%lookup_delete_Some Hy. by eapply Hother.
  - split.
    + intros k paths [[<- <-]|[_ Hk]]%lookup_insert_Some; [|by apply Hc]. split; [done|]. intros y Hy. apply Hin. by right.
    + intros k paths y [[<- <-]|[Hne Hk]]%lookup_insert_Some Hy; [by intros ->|]. by eapply Hother.
Qed.

Definition gone (st : runState) : Prop :=
  SyncOptions_PreserveTargetConflicts (sp_opts plan) = false ->
  forall x, x ∈ run_protected st -> src !! x = None /\ rel_ok x /\ run_disk st !! in_root T x = None.

(** *** Steps *)

Record first_inv (todo : list string) (st : runState) : Prop := {
  fi_core : core todo (run_disk st);
  fi_cands : cands todo (run_moves st) (run_disk st);
  fi_gone : gone st
}.

Definition sound_step (I : list string -> runState -> Prop) (todo : list string) (r : runState * option SyncErr) : Prop :=
  match r.2 with None => I todo r.1 | Some _ => safe (run_disk r.1) end.

Lemma replaced_other r x o disk : rel_ok r -> rel_ok x -> x <> r ->
  put (in_root T r) o (retained env T r disk) !! in_root T x = disk !! in_root T x.
Proof.
  intros Hr Hx Hne. rewrite lookup_put_ne by (by apply in_root_apart; congruence). apply retained_other.
  intros H. symmetry in H. apply intake_apart in H; [done|done|apply Hx].
Qed.

Lemma write_sound todo r file st : r ∉ todo -> first_inv (r :: todo) st -> src !! r = Some file -> ~ skipped r ->
  sound_step first_inv todo (writeStep sha256 env plan r (ScannedFile_Manifest file) st).
Proof.
  intros Hr [Hcore Hcand Hgone] Hs Hsk. destruct (po_src Hok r file Hs) as (Hrok & _ & Hmax).
  destruct (core_intake _ _ Hcore r ltac:(by left)) as [_ Hir].
  destruct (writeStep _ _ _ _ _ _) as [st' err] eqn:Hw. unfold sound_step. cbn [fst snd].
  apply (write_effect _ _ (po_temps Hok) T (po_root Hok)) in Hw as (Hw & Hprot & Hmoves); [|done..].
  assert (Hafter : (exists data, matches_manifest sha256 data (ScannedFile_Manifest file) /\
      run_disk st' = <[in_root T r := mkFile data (se_now env)]> (retained env T r (run_disk st))) -> core todo (run_disk st')).
  { intros (data & Hm & ->). apply (core_replace todo r (Some (mkFile data (se_now env))) (run_disk st)); [done|done| |].
    - intros Hu. destruct (Hu r eq_refl) as [_ [?|?]]; [congruence|done].
    - intros file' Hs'. assert (file' = file) as -> by congruence. eexists. split; [done|exact Hm]. }
  destruct err as [e|].
  - destruct Hw as [Hw|Hw]; [by eapply core_safe|]. eapply core_safe; [by apply Hafter|apply persists_refl].
  - pose proof (Hafter Hw) as Hcore'. destruct Hw as (data & Hm & Hd). constructor; [done| |].
    + rewrite Hmoves, Hd. eapply cands_step; [done|by exists file|]. intros x Hx Hne _.
      by apply (replaced_other r x (Some (mkFile data (se_now env)))).
    + intros Hpres x. rewrite Hprot, Hd. intros Hx. destruct (Hgone Hpres x Hx) as (Hsx & Hxok & Hnone). split; [done|]. split; [done|].
      transitivity (run_disk st !! in_root T x); [|done].
      apply (replaced_other r x (Some (mkFile data (se_now env)))); [done|done|congruence].
Qed.

Lemma conflict_sound todo r file st : first_inv (r :: todo) st -> src !! r = Some file ->
  SyncOptions_PreserveTargetConflicts (sp_opts plan) = true ->
  sound_step (fun todo st => first_inv (r :: todo) st) todo (conflictStep env plan r st).
Proof.
  intros [Hcore Hcand Hgone] Hs Hpres. destruct (po_src Hok r file Hs) as (Hrok & _).
  destruct (conflictStep _ _ _ _) as [st' err] eqn:Hc. unfold sound_step. cbn [fst snd].
  apply (conflict_effect _ (po_temps Hok) T (po_root Hok)) in Hc as [Hmoves Hc]; [|done|by apply rel_ok_nonempty].
  destruct err as [e|]; [by eapply core_safe|]. destruct Hc as (c & f & k & -> & Hfree & Hf & Hd & Hprot).
  rewrite (path_join_in T) in Hfree, Hd by (apply Hok || apply conflictCandidate_nonempty).
  constructor.
  - rewrite Hd. apply core_appear; [done|done|]. apply conflictCandidate_outside; [done|apply Hok].
  - rewrite Hmoves. eapply cands_persist; [done|]. rewrite Hd. by apply persists_temp.
  - unfold gone. rewrite Hpres. done.
Qed.

Lemma move_sound todo r x file st : r ∉ todo -> first_inv (r :: todo) st -> src !! r = Some file -> tgt !! r = None -> ~ skipped r ->
  (exists ft f, src !! x = None /\ x ∈ r :: todo /\ tgt !! x = Some ft /\
     manifestKey (ScannedFile_Manifest ft) = manifestKey (ScannedFile_Manifest file) /\
     run_disk st !! in_root T x = Some f /\ disk0 !! in_root T x = Some f) ->
  (forall k paths y, run_moves st !! k = Some paths -> y ∈ paths -> y <> x) ->
  sound_step first_inv todo (moveStep env plan r x st).
Proof.
  intros Hr [Hcore Hcand Hgone] Hs Ht Hsk (ft & f & Hsx & Hxin & Htx & Hkey & Hx & Hx0) Hfresh.
  destruct (po_src Hok r file Hs) as (Hrok & Hbs & _). destruct (po_tgt Hok x ft Htx) as (Hxok & f0 & Hf0 & Hdesc).
  assert (f0 = f) as -> by congruence. assert (x <> r) as Hne by congruence.
  assert (x ∈ todo) as Hxt by (by apply elem_of_cons in Hxin as [->|]).
  destruct (moveStep _ _ _ _ _) as [st' err] eqn:Hmv. unfold sound_step. cbn [fst snd].
  apply (move_effect _ T (po_root Hok)) in Hmv as [Hmv|(g & Hg & Hd & Herr)]; [|..|done|by apply rel_ok_nonempty|by apply rel_ok_nonempty].
  { destruct err as [e|]; [|done]. rewrite Hmv. eapply core_safe; [done|apply persists_refl]. }
  assert (g = f) as -> by congruence.
  assert (core todo (run_disk st')) as Hcore'.
  { rewrite Hd. apply (core_move todo r x file (run_disk st) f); [done..| |done|done|done|].
    - by exists ft.
    - apply manifestKey_inj in Hkey as [Hsize Hdig]. destruct Hdesc as [D1 D2 D3]. split.
      + rewrite <- Hsize, D1. done.
      + rewrite Hbs, <- Hdig, D3. done. }
  destruct err as [e|]; [eapply core_safe; [done|apply persists_refl]|]. destruct Herr as [Hprot Hmoves].
  assert (Hsame : forall y, y <> r -> y <> x -> run_disk st' !! in_root T y = run_disk st !! in_root T y).
  { intros y H1 H2. rewrite Hd, lookup_insert_ne, lookup_delete_ne; [done|apply in_root_apart; congruence..]. }
  constructor; [done| |].
  - rewrite Hmoves. intros k paths Hk. destruct (Hcand k paths Hk) as [Hnd Hin]. split; [done|]. intros y Hy.
    destruct (Hin y Hy) as (Hsy & Hyt & fy & gy & Hty & Hky & Hgy & Hgy0). split; [done|].
    assert (y <> r) by congruence. split; [by apply elem_of_cons in Hyt as [->|]|]. exists fy, gy. split; [done|]. split; [done|].
    split; [|done]. rewrite Hsame; [done|done|]. by eapply Hfresh.
  - intros Hpres y. rewrite Hprot. intros [->%elem_of_singleton|Hy]%elem_of_union.
    + split; [done|]. split; [done|]. rewrite Hd, lookup_insert_ne by (by apply in_root_apart; congruence). apply lookup_delete_eq.
    + destruct (Hgone Hpres y Hy) as (Hsy & Hyok & Hnone). split; [done|]. split; [done|].
      destruct (decide (y = x)) as [->|Hyx]; [|rewrite Hsame; [done|congruence|done]].
      rewrite Hd, lookup_insert_ne by (by apply in_root_apart; congruence). apply lookup_delete_eq.
Qed.

Lemma sync_sound todo r st : r ∉ todo -> is_Some (src !! r) -> first_inv (r :: todo) st ->
  sound_step first_inv todo (syncPath sha256 otherRegexp env plan r st).
Proof.
  intros Hr [file Hs] Hinv. pose proof Hinv as [Hcore Hcand Hgone]. destruct (po_src Hok r file Hs) as (Hrok & Hbs & Hmax).
  assert (Hskip : (forall file, src !! r = Some file -> ~ skipped r ->
      exists f, run_disk st !! in_root T r = Some f /\ matches_manifest sha256 (File_data f) (ScannedFile_Manifest file)) ->
    first_inv todo st).
  { intros H. constructor; [by eapply core_skip| |done]. eapply cands_step; [done|by exists file|done]. }
  unfold syncPath. fold src. destruct (ignoredForTarget otherRegexp (sp_matcher plan) r) eqn:Hig.
  { unfold sound_step. cbn. apply Hskip. intros file' _ Hn. by destruct Hn. }
  assert (~ skipped r) as Hsk by (unfold skipped; by rewrite Hig). unfold src in *. rewrite Hs. cbv zeta.
  destruct (sp_targetByPath plan !! r) as [ft|] eqn:Ht.
  - destruct (manifestsEqual _ _) eqn:Heq.
    + unfold sound_step. cbn. apply Hskip. intros file' Hs' _. assert (file' = file) as -> by congruence.
      destruct (po_tgt Hok r ft Ht) as (_ & f & Hf & [D1 D2 D3]). exists f. split.
      * rewrite (core_both _ _ Hcore r file ft); [done|by left|done|done].
      * apply manifestsEqual_digests in Heq as [Hsize Hdig]. split; [by rewrite Hsize, D1|by rewrite Hbs, Hdig, D3].
    + destruct (SyncOptions_PreserveTargetConflicts (sp_opts plan)) eqn:Hpres; [|by apply write_sound].
      pose proof (conflict_sound todo r file st Hinv Hs Hpres) as Hc.
      destruct (conflictStep env plan r st) as [st1 [e|]]; unfold sound_step in *; cbn [andThen fst snd] in *; [done|].
      by apply write_sound.
  - destruct (takeMoveCandidate (run_moves st) (ScannedFile_Manifest file)) as [[x moves]|] eqn:Htake; [|by apply write_sound].
    apply (take_spec _ _ _ _ _ _ Hcand) in Htake as ((paths & Hk & Hx) & Hcand' & Hfresh).
    destruct (Hcand _ _ Hk) as [_ Hin]. destruct (Hin x Hx) as (Hsx & Hxt & fx & f & Htx & Hkey & Hf & Hf0).
    apply (move_sound todo r x file); [done|by constructor|done|done|done| |done]. exists fx, f. done.
Qed.

(** *** Deletions *)

Record second_inv (todo : list string) (st : runState) : Prop := {
  si_core : core todo (run_disk st);
  si_gone : gone st;
  si_stale : SyncOptions_PreserveTargetConflicts (sp_opts plan) = false ->
    forall rel, is_Some (tgt !! rel) -> src !! rel = None -> rel ∉ todo -> run_disk st !! in_root T rel = None
}.

Lemma delete_sound todo r st : r ∉ todo -> is_Some (tgt !! r) -> src !! r = None -> second_inv (r :: todo) st ->
  sound_step second_inv todo (deletePath env plan r st).
Proof.
  intros Hr [ft Ht] Hs [Hcore Hgone Hstale]. destruct (po_tgt Hok r ft Ht) as [Hrok _].
  destruct (core_intake _ _ Hcore r ltac:(by left)) as [_ Hir]. unfold deletePath, sound_step.
  destruct (_ || _) eqn:Hkeep; cbn [fst snd].
  { constructor; [|done|].
    - eapply core_skip; [done|]. intros file Hs'. congruence.
    - intros Hpres rel Htr Hsr Hn. destruct (decide (rel = r)) as [->|Hne]; [|apply Hstale; [done..|set_solver]].
      rewrite Hpres in Hkeep. cbn in Hkeep. rewrite orb_false_r in Hkeep. apply bool_decide_eq_true in Hkeep. by apply Hgone. }
  fold T. destruct (RetainExistingBackupIntakeFile env T r (run_disk st)) as [d res] eqn:Hret.
  apply (retain_effect env (po_temps Hok)) in Hret; [|apply Hok|done].
  destruct res as [o|e]; [|cbn; by eapply core_safe]. subst d.
  destruct (se_removeFails env r); cbn [fst snd set_disk count run_disk].
  { eapply core_safe; [done|]. by apply retained_persists. }
  unfold targetOf. fold T. rewrite path_join_in by (apply Hok || by apply rel_ok_nonempty).
  assert (Hsame : forall x, rel_ok x -> x <> r -> delete (in_root T r) (retained env T r (run_disk st)) !! in_root T x = run_disk st !! in_root T x).
  { intros x Hx Hne. by apply (replaced_other r x None). }
  constructor; cbn [run_disk].
  - apply (core_replace todo r None (run_disk st)); [done|done| |].
    + intros Hu. destruct (Hu r eq_refl) as [Hn _]. congruence.
    + intros file Hs'. congruence.
  - intros Hpres x. cbn [run_disk run_protected count set_disk]. intros Hx. destruct (Hgone Hpres x Hx) as (Hsx & Hxok & Hnone). split; [done|]. split; [done|].
    destruct (decide (x = r)) as [->|Hne]; [apply lookup_delete_eq|]. by rewrite Hsame.
  - intros Hpres rel Htr Hsr Hn. cbn [run_disk count set_disk]. destruct (decide (rel = r)) as [->|Hne]; [apply lookup_delete_eq|].
    destruct Htr as [f Hf]. rewrite Hsame; [|by apply (po_tgt Hok rel f)|done]. apply Hstale; [done|by exists f|done|set_solver].
Qed.

(** *** Loops *)

Lemma eachPath_sound (I : list string -> runState -> Prop) body rest paths st :
  (forall r todo st, r ∈ paths -> r ∉ todo -> I (r :: todo) st -> sound_step I todo (body r st)) ->
  NoDup (paths ++ rest) -> I (paths ++ rest) st -> sound_step I rest (eachPath body paths st).
Proof.
  intros Hbody. revert st. induction paths as [|r paths IH]; intros st Hnd Hi; cbn [eachPath app] in *; [done|].
  apply NoDup_cons in Hnd as [Hr Hnd]. specialize (Hbody r (paths ++ rest) st ltac:(by left) Hr Hi) as Hb.
  destruct (body r st) as [st1 [e|]]; unfold sound_step in Hb; cbn [fst snd] in Hb; cbn [andThen]; [done|].
  apply IH; [|done|done]. intros r' todo st2 Hr'. apply Hbody. by right.
Qed.

Lemma sortedKeys_elem (m : gmap string ScannedFile) rel : rel ∈ sortedKeys m <-> is_Some (m !! rel).
Proof.
  unfold sortedKeys. rewrite elem_of_sort_by, list_elem_of_fmap. split.
  - intros ([k v] & -> & Hk%elem_of_map_to_list). by exists v.
  - intros [v Hv]. exists (rel, v). split; [done|by apply elem_of_map_to_list].
Qed.

Lemma sortedKeys_NoDup (m : gmap string ScannedFile) : NoDup (sortedKeys m).
Proof. unfold sortedKeys. rewrite sort_by_perm. apply NoDup_fst_map_to_list. Qed.

Lemma stalePaths_elem (s t : gmap string ScannedFile) rel : rel ∈ stalePaths s t <-> is_Some (t !! rel) /\ s !! rel = None.
Proof.
  unfold stalePaths. rewrite elem_of_sort_by, list_elem_of_In, filter_In, <- list_elem_of_In, list_elem_of_fmap. split.
  - intros [([k v] & -> & Hk%elem_of_map_to_list) Hs]. cbn in *. split; [by exists v|]. by destruct (s !! k).
  - intros [[v Hv] Hs]. rewrite Hs. split; [|done]. exists (rel, v). split; [done|by apply elem_of_map_to_list].
Qed.

Lemma stalePaths_NoDup (s t : gmap string ScannedFile) : NoDup (stalePaths s t).
Proof.
  unfold stalePaths. rewrite sort_by_perm. eapply sublist_NoDup; [|apply filter_sublist]. apply NoDup_fst_map_to_list.
Qed.

(** The candidates the run starts with. *)
Definition listed (l : list string) (candidates : candidatesT) : Prop :=
  forall k paths, candidates !! k = Some paths -> NoDup paths /\
    forall x, x ∈ paths -> x ∈ l /\ exists file, tgt !! x = Some file /\ manifestKey (ScannedFile_Manifest file) = k.

Lemma addCandidate_listed l x c : x ∉ l -> listed l c -> listed (l ++ [x]) (addCandidate tgt c x).
Proof.
  intros Hx Hc. assert (Hc' : listed (l ++ [x]) c).
  { intros k paths Hk. destruct (Hc k paths Hk) as [? Hin]. split; [done|]. intros y Hy. destruct (Hin y Hy). split; [|done].
    apply elem_of_app. by left. }
  unfold addCandidate. destruct (tgt !! x) as [file|] eqn:Ht; [|done]. cbv zeta. case_bool_decide; [done|].
  intros k paths [[<- <-]|[_ Hk]]%lookup_insert_Some; [|by apply Hc'].
  set (key := manifestKey (ScannedFile_Manifest file)) in *. destruct (c !! key) as [old|] eqn:Hold; cbn [default].
  - destruct (Hc key old Hold) as [Hnd Hin]. split.
    + apply NoDup_app. split; [done|]. split; [|apply NoDup_singleton]. intros y Hy ->%list_elem_of_singleton. by apply Hin in Hy as [].
    + intros y [Hy| ->%list_elem_of_singleton]%elem_of_app.
      * destruct (Hin y Hy). split; [apply elem_of_app; by left|done].
      * split; [apply elem_of_app; right; by left|by exists file].
  - split; [apply NoDup_singleton|]. intros y ->%list_elem_of_singleton. split; [apply elem_of_app; right; by left|by exists file].
Qed.

Lemma candidates_listed : listed (stalePaths src tgt) (staleMoveCandidates src tgt).
Proof.
  assert (forall l, NoDup l -> listed l (foldl (addCandidate tgt) ∅ l)) as H.
  { intros l Hnd. induction l as [|x l IH] using rev_ind; [by intros k paths Hk|].
    apply NoDup_app in Hnd as (Hnd & Hx & _). rewrite foldl_app. cbn [foldl]. apply addCandidate_listed; [|by apply IH].
    intros Hin. apply (Hx x Hin). by left. }
  intros k paths Hk. unfold staleMoveCandidates in Hk. rewrite lookup_fmap in Hk.
  destruct (foldl (addCandidate tgt) ∅ (stalePaths src tgt) !! k) as [ps|] eqn:E; [|done]. injection Hk as <-.
  destruct (H _ (stalePaths_NoDup src tgt) k ps E) as [Hnd Hin]. split; [by rewrite sort_by_perm|].
  intros x. rewrite elem_of_sort_by. apply Hin.
Qed.

Lemma start_inv st : run_disk st = disk0 -> run_moves st = staleMoveCandidates src tgt -> run_protected st = ∅ ->
  first_inv (sortedKeys src ++ stalePaths src tgt) st.
Proof.
  intros Hd Hm Hp. constructor; rewrite ?Hd, ?Hm.
  - constructor.
    + intros rel file f0 _ H0. exists (in_root T rel), f0. split; [constructor|done].
    + intros rel Hrel. assert (rel_ok rel) as Hrok.
      { apply elem_of_app in Hrel as [[file Hs]%sortedKeys_elem|[[file Ht] _]%stalePaths_elem];
          [by apply (po_src Hok rel file)|by apply (po_tgt Hok rel file)]. }
      split; [done|by apply Hok].
    + done.
    + intros rel file Hs Hn _. destruct Hn. apply elem_of_app. left. apply sortedKeys_elem. by exists file.
    + done.
  - intros k paths Hk. destruct (candidates_listed k paths Hk) as [Hnd Hin]. split; [done|]. intros x Hx.
    destruct (Hin x Hx) as [Hst (file & Ht & Hkey)]. pose proof Hst as [_ Hs]%stalePaths_elem. split; [done|].
    split; [apply elem_of_app; by right|]. destruct (po_tgt Hok x file Ht) as (_ & f & Hf & _). by exists file, f.
  - intros _ x. rewrite Hp. set_solver.
Qed.

Lemma run_sound st : run_disk st = disk0 -> run_moves st = staleMoveCandidates src tgt -> run_protected st = ∅ ->
  sound_step (fun _ => second_inv []) [] (runPlan sha256 otherRegexp env plan st).
Proof.
  intros Hd Hm Hp. unfold runPlan. fold src tgt.
  assert (NoDup (sortedKeys src ++ stalePaths src tgt)) as Hnd.
  { apply NoDup_app. split; [apply sortedKeys_NoDup|]. split; [|apply stalePaths_NoDup].
    intros x [file Hx]%sortedKeys_elem [_ Hn]%stalePaths_elem. congruence. }
  pose proof (eachPath_sound first_inv (syncPath sha256 otherRegexp env plan) (stalePaths src tgt) (sortedKeys src) st) as H1.
  destruct (eachPath (syncPath sha256 otherRegexp env plan) (sortedKeys src) st) as [st1 err1].
  specialize (H1 ltac:(intros r todo st' Hr%sortedKeys_elem Hn Hi; by apply sync_sound) Hnd ltac:(by apply start_inv)).
  destruct err1 as [e|]; unfold sound_step in *; cbn [fst snd andThen] in *; [done|]. destruct H1 as [Hcore _ Hgone].
  pose proof (eachPath_sound second_inv (deletePath env plan) [] (stalePaths src tgt) st1) as H2.
  destruct (eachPath (deletePath env plan) (stalePaths src tgt) st1) as [st2 err2]. rewrite app_nil_r in H2. apply H2.
  - intros r todo st' [Ht Hs]%stalePaths_elem Hn Hi. by apply delete_sound.
  - apply stalePaths_NoDup.
  - constructor; [done|done|]. intros _ rel Ht Hs Hn. destruct Hn. by apply stalePaths_elem.
Qed.
End run.

(** *** From the scans to the plan *)

Lemma load_not_missing cwd env disk root e : loadSyncIgnoreRules cwd env disk root = Err e -> IsNotExist e = false.
Proof.
  unfold loadSyncIgnoreRules. destruct (env_openFails _ _) eqn:Ho; [by intros [= <-]|].
  destruct (disk !! _) as [f|] eqn:Hf; [|done]. unfold load_fuel. cbn [loadSyncIgnoreFile]. cbv zeta.
  rewrite decide_False by set_solver. rewrite Ho, Hf.
  destruct (loadLines _ _ _ _ _ _) as [r s] eqn:El. cbn. intros ->. by eapply loadLines_error.
Qed.

Lemma filesByPath_lookup files rel file : NoDup (ScannedFile_RelativePath <$> files) ->
  filesByPath files !! rel = Some file <-> file ∈ files /\ ScannedFile_RelativePath file = rel.
Proof.
  intros Hnd. unfold filesByPath. split.
  - intros [H|(x & Hx & Hk & <-)]%put_all_from; [by rewrite lookup_empty in H|done].
  - intros [Hf <-]. by apply put_all_NoDup.
Qed.

(** What the plan knows of one folder. *)
Record folder_scanned (sha256 : bytes -> bytes) (otherRegexp : string -> string -> bool) (env : scanEnv) (disk : diskT)
    (root : string) (opts : SyncOptions) (rules : syncIgnoreRules) (files : gmap string ScannedFile) : Prop := {
  fs_listed : forall rel, is_Some (files !! rel) <->
    visible otherRegexp disk root (mkOptions (SyncOptions_BlockSize opts) (SyncOptions_IgnoreSuffixes opts)) rules rel
    /\ env_unreadable env (in_root root rel) = None;
  fs_content : forall rel file f, files !! rel = Some file -> disk !! in_root root rel = Some f ->
    describes sha256 (SyncOptions_BlockSize opts) f (ScannedFile_Manifest file)
}.

Lemma scanned_folder sha256 otherRegexp cwd env disk root opts res :
  0 < SyncOptions_BlockSize opts -> (forall p f, disk !! p = Some f -> file_size f <= maxInt64) ->
  scanOf sha256 otherRegexp cwd env disk root opts = Ok res ->
  exists rules, loadSyncIgnoreRules cwd (se_scan env) disk root = Ok rules /\
    folder_scanned sha256 otherRegexp (se_scan env) disk root opts rules (filesByPath (ScanResult_Files res)).
Proof.
  intros Hbs Hmax H. unfold scanOf in H. apply ScanFolder_spec in H as (rules & Hr & Hsort & Hl & Hc & _); [|done|done].
  apply strictly_NoDup in Hsort. exists rules. split; [done|]. constructor.
  - intros rel. rewrite <- Hl. split.
    + intros [[r m] Hf]. apply filesByPath_lookup in Hf as [Hin Hrel]; [|done]. cbn in Hrel. subst r. by exists m.
    + intros [m Hin]. exists (mkScannedFile rel m). by apply filesByPath_lookup.
  - intros rel [r m] f Hf Hd. apply filesByPath_lookup in Hf as [Hin Hrel]; [|done]. cbn in Hrel. subst r.
    by apply (Hc rel m f).
Qed.

Lemma empty_folder sha256 otherRegexp env disk root opts rules :
  (forall rel, disk !! in_root root rel = None) -> folder_scanned sha256 otherRegexp env disk root opts rules (filesByPath []).
Proof.
  intros Hd. constructor; [|done]. intros rel. split; [by intros [file ?]|]. intros [[[f Hf] _ _ _] _]. change (disk !! in_root root rel = Some f) in Hf.
  by rewrite Hd in Hf.
Qed.

(** The setting of a run: clean names, sizes of Go's [int64], fresh temporary
    names and time stamps, and a target root that is missing only when nothing
    lies below it. *)
Record setting_ok (env : syncEnv) (disk : diskT) (sourceRoot targetRoot : string) (opts : SyncOptions) : Prop := {
  so_temps : temps_ok env;
  so_root : targetRoot <> EmptyString;
  so_names : forall root rel f, root = sourceRoot \/ root = targetRoot -> disk !! in_root root rel = Some f ->
    exists l, l <> [] /\ Forall elem_ok l /\ rel = join "/" l;
  so_size : forall p f, disk !! p = Some f -> file_size f <= maxInt64;
  so_missing : env_root (se_scan env) targetRoot = RootMissing -> forall rel, disk !! in_root targetRoot rel = None;
  so_stamp : forall rel, contains_char (se_stamp env rel) slash = false;
  so_intake : forall rel, rel_ok rel -> disk !! intake env targetRoot rel = None;
  so_suffix : contains_char (conflictSuffix (SyncOptions_ConflictSuffix opts)) slash = false
}.

Lemma prepareRun_planned sha256 otherRegexp cwd env sourceRoot targetRoot opts disk plan start :
  0 < SyncOptions_BlockSize opts -> setting_ok env disk sourceRoot targetRoot opts ->
  prepareRun sha256 otherRegexp cwd env sourceRoot targetRoot opts disk = Ok (plan, start) ->
  sp_source plan = sourceRoot /\ sp_target plan = targetRoot /\ sp_opts plan = opts /\
  run_disk start = disk /\ run_moves start = staleMoveCandidates (sp_sourceByPath plan) (sp_targetByPath plan) /\ run_protected start = ∅ /\
  exists srules, loadSyncIgnoreRules cwd (se_scan env) disk sourceRoot = Ok srules /\
    loadSyncIgnoreRules cwd (se_scan env) disk targetRoot = Ok (sp_matcher plan) /\
    folder_scanned sha256 otherRegexp (se_scan env) disk sourceRoot opts srules (sp_sourceByPath plan) /\
    folder_scanned sha256 otherRegexp (se_scan env) disk targetRoot opts (sp_matcher plan) (sp_targetByPath plan).
Proof.
  intros Hbs Hset. unfold prepareRun. destruct (scanOf _ _ _ _ _ sourceRoot _) as [ss|e] eqn:Es; [|done].
  apply scanned_folder in Es as (srules & Hsr & Hfs); [|done|apply Hset].
  destruct (scanTarget _ _ _ _ _ _ _) as [ts|e] eqn:Et; [|done].
  unfold LoadSyncIgnoreMatcher. destruct (loadSyncIgnoreRules cwd (se_scan env) disk targetRoot) as [trules|e] eqn:Etr; [|done].
  intros [= <- <-]. cbn. do 6 (split; [done|]). exists srules. split; [done|]. split; [done|]. split; [done|].
  unfold scanTarget in Et. destruct (scanOf _ _ _ _ _ targetRoot _) as [ts'|e] eqn:Es'.
  - injection Et as ->. apply scanned_folder in Es' as (trules' & Htr & Hft); [|done|apply Hset]. congruence.
  - destruct (IsNotExist e) eqn:He; [|done]. destruct (se_mkdirRootFails env); [done|]. injection Et as <-. cbn. apply empty_folder.
    apply (so_missing _ _ _ _ _ Hset). unfold scanOf, ScanFolder, scanFolder in Es'. rewrite Etr in Es'. cbn in Es'.
    destruct (env_root (se_scan env) targetRoot); [done|done|]. injection Es' as <-. done.
Qed.

Lemma visible_rel_ok otherRegexp disk root opts rules rel :
  (forall f, disk !! in_root root rel = Some f -> exists l, l <> [] /\ Forall elem_ok l /\ rel = join "/" l) ->
  visible otherRegexp disk root opts rules rel -> rel_ok rel.
Proof. intros Hn [[f Hf] Hs _ _]. constructor; [by apply (Hn f)|done]. Qed.

Lemma planned_ok sha256 otherRegexp env sourceRoot disk plan srules :
  setting_ok env disk sourceRoot (sp_target plan) (sp_opts plan) ->
  folder_scanned sha256 otherRegexp (se_scan env) disk sourceRoot (sp_opts plan) srules (sp_sourceByPath plan) ->
  folder_scanned sha256 otherRegexp (se_scan env) disk (sp_target plan) (sp_opts plan) (sp_matcher plan) (sp_targetByPath plan) ->
  plan_ok sha256 env plan disk.
Proof.
  intros Hset Hfs Hft. constructor; try apply Hset.
  - intros rel file Hf. assert (is_Some (sp_sourceByPath plan !! rel)) as Hv by by exists file. apply (fs_listed _ _ _ _ _ _ _ _ Hfs) in Hv as [Hv _].
    pose proof Hv as [[f Hd] _ _ _]. destruct (fs_content _ _ _ _ _ _ _ _ Hfs rel file f Hf Hd) as [D1 D2 D3].
    split; [|split; [done|]].
    + eapply visible_rel_ok; [|exact Hv]. intros g Hg. apply (so_names _ _ _ _ _ Hset sourceRoot rel g); [by left|done].
    + rewrite D1. by apply (so_size _ _ _ _ _ Hset _ f Hd).
  - intros rel file Hf. assert (is_Some (sp_targetByPath plan !! rel)) as Hv by by exists file. apply (fs_listed _ _ _ _ _ _ _ _ Hft) in Hv as [Hv _].
    pose proof Hv as [[f Hd] _ _ _]. split.
    + eapply visible_rel_ok; [|exact Hv]. intros g Hg. apply (so_names _ _ _ _ _ Hset (sp_target plan) rel g); [by right|done].
    + exists f. split; [done|]. by apply (fs_content _ _ _ _ _ _ _ _ Hft rel file f).
Qed.

(** *** Cleaning leaves every other file *)

(** [disk'] is [disk] without some leftovers. *)
Definition cleaned (disk disk' : diskT) : Prop :=
  disk' ⊆ disk /\ forall p f, disk !! p = Some f -> isTemp p = false -> disk' !! p = Some f.

Lemma cleaned_refl disk : cleaned disk disk.
Proof. by split. Qed.

Lemma cleaned_trans d1 d2 d3 : cleaned d1 d2 -> cleaned d2 d3 -> cleaned d1 d3.
Proof. intros [H1 K1] [H2 K2]. split; [by etransitivity|]. intros p f Hp Ht. apply K2; [by apply K1|done]. Qed.

Lemma CleanFolder_cleaned env root disk disk' n err : CleanFolder env root disk = (disk', n, err) -> cleaned disk disk'.
Proof.
  unfold CleanFolder. destruct (se_cleanWalkFails env root); [intros [= <- _ _]; apply cleaned_refl|].
  generalize (walk_order root disk) as paths, 0 as k. intros paths. revert disk. induction paths as [|p paths IH]; intros disk k; cbn [cleanPaths].
  { intros [= <- _ _]. apply cleaned_refl. }
  destruct (isTemp p) eqn:Ht; [|apply IH]. destruct (se_cleanFails env p); [intros [= <- _ _]; apply cleaned_refl|].
  intros H%IH. eapply cleaned_trans; [|exact H]. split; [apply delete_subseteq|]. intros q f Hq Hq'.
  rewrite lookup_delete_ne; [done|]. intros ->. congruence.
Qed.

Lemma setting_cleaned env disk disk' S T opts : cleaned disk disk' -> setting_ok env disk S T opts -> setting_ok env disk' S T opts.
Proof.
  intros [Hsub _] [H1 H2 H3 H4 H5 H6 H7 H8].
  assert (forall p f, disk' !! p = Some f -> disk !! p = Some f) as Hin by (intros p f Hf; by eapply lookup_weaken).
  assert (forall p, disk !! p = None -> disk' !! p = None) as Hout.
  { intros p Hp. destruct (disk' !! p) as [f|] eqn:E; [|done]. apply Hin in E. congruence. }
  constructor; [done|done| | | |done| |done].
  - intros root rel f Hr Hf. by eapply H3; [|apply Hin].
  - intros p f Hf. by eapply H4, Hin.
  - intros Hm rel. by apply Hout, H5.
  - intros rel Hrel. by apply Hout, H7.
Qed.

Lemma normalized_fields opts : 0 < SyncOptions_BlockSize (normalized opts) /\
  SyncOptions_IgnoreSuffixes (normalized opts) = SyncOptions_IgnoreSuffixes opts /\
  SyncOptions_PreserveTargetConflicts (normalized opts) = SyncOptions_PreserveTargetConflicts opts /\
  SyncOptions_ConflictSuffix (normalized opts) = SyncOptions_ConflictSuffix opts.
Proof. unfold normalized. destruct (Z.leb_spec (SyncOptions_BlockSize opts) 0); cbn; done || lia. Qed.

(** A run: an early error on a cleaned disk, or a plan made of it. *)
Lemma SyncOneWay_cases sha256 otherRegexp cwd env S T opts disk disk' res chmods err :
  SyncOneWay sha256 otherRegexp cwd env S T opts disk = (disk', res, chmods, err) -> setting_ok env disk S T opts ->
  exists disk1, cleaned disk disk1 /\
    ((disk' = disk1 /\ err <> None) \/
     exists plan srules start, plan_ok sha256 env plan disk1 /\ sp_target plan = T /\ sp_opts plan = normalized opts /\
       loadSyncIgnoreRules cwd (se_scan env) disk1 S = Ok srules /\
       loadSyncIgnoreRules cwd (se_scan env) disk1 T = Ok (sp_matcher plan) /\
       folder_scanned sha256 otherRegexp (se_scan env) disk1 S (normalized opts) srules (sp_sourceByPath plan) /\
       folder_scanned sha256 otherRegexp (se_scan env) disk1 T (normalized opts) (sp_matcher plan) (sp_targetByPath plan) /\
       exists st, runPlan sha256 otherRegexp env plan start = (st, err) /\ disk' = run_disk st /\
         sound_step otherRegexp plan disk1 (fun _ => second_inv sha256 otherRegexp env plan disk1 []) [] (st, err)).
Proof.
  intros H Hset. unfold SyncOneWay in H. cbv zeta in H.
  destruct (CleanFolder env S disk) as [[d1 n1] [e1|]] eqn:E1; apply CleanFolder_cleaned in E1.
  { injection H as <- _ _ <-. exists d1. split; [done|]. by left. }
  destruct (CleanFolder env T d1) as [[d2 n2] [e2|]] eqn:E2; apply CleanFolder_cleaned in E2;
    (assert (cleaned disk d2) as Hc by (by eapply cleaned_trans)).
  { injection H as <- _ _ <-. exists d2. split; [done|]. by left. }
  exists d2. split; [done|]. destruct (normalized_fields opts) as (Hbs & Hsuf & Hpres & Hcs).
  assert (setting_ok env d2 S T (normalized opts)) as Hset2.
  { apply (setting_cleaned _ _ _ _ _ _ Hc) in Hset. destruct Hset; constructor; [done..|by rewrite Hcs]. }
  destruct (prepareRun _ _ _ _ _ _ _ _) as [[plan start]|e] eqn:Ep.
  - right. apply prepareRun_planned in Ep as (HS & HT & Ho & Hd & Hm & Hp & srules & Hsr & Htr & Hfs & Hft); [|done|done].
    assert (plan_ok sha256 env plan d2) as Hok.
    { rewrite <- Ho in Hset2, Hfs, Hft. rewrite <- HT in Hset2, Hft. by eapply planned_ok. }
    exists plan, srules, start. do 7 (split; [done|]).
    pose proof (run_sound sha256 otherRegexp env plan d2 Hok start Hd Hm Hp) as Hs.
    destruct (runPlan _ _ _ _ _) as [st err'] eqn:Er. injection H as <- _ _ <-. by exists st.
  - injection H as <- _ _ <-. by left.
Qed.

Lemma sound_safe sha256 otherRegexp env plan disk1 st err : plan_ok sha256 env plan disk1 ->
  sound_step otherRegexp plan disk1 (fun _ => second_inv sha256 otherRegexp env plan disk1 []) [] (st, err) ->
  safe otherRegexp plan disk1 (run_disk st).
Proof.
  intros Hok. unfold sound_step. cbn. destruct err; [done|]. intros [Hc _ _]. eapply core_safe; [done|done|apply persists_refl].
Qed.

(** A target file the plan does not list is one no step touches. *)
Lemma unlisted_untouched sha256 otherRegexp senv disk1 S T plan srules rel f :
  sp_target plan = T ->
  folder_scanned sha256 otherRegexp senv disk1 S (sp_opts plan) srules (sp_sourceByPath plan) ->
  folder_scanned sha256 otherRegexp senv disk1 T (sp_opts plan) (sp_matcher plan) (sp_targetByPath plan) ->
  disk1 !! in_root T rel = Some f -> env_unreadable senv (in_root T rel) = None -> sp_targetByPath plan !! rel = None ->
  untouched otherRegexp plan (in_root T rel).
Proof.
  intros HT Hfs Hft Hf Hu Hn r Hr. rewrite HT in Hr. apply in_root_inj in Hr as <-. split; [done|].
  destruct (sp_sourceByPath plan !! rel) as [file|] eqn:Hs; [right|by left].
  assert (is_Some (sp_sourceByPath plan !! rel)) as Hv by by exists file. apply (fs_listed _ _ _ _ _ _ _ _ Hfs) in Hv as [[_ Hd Hsuf _] _].
  unfold ignoredForTarget. destruct (IsIgnored otherRegexp (sp_matcher plan) rel) eqn:Hi; [by rewrite orb_true_r|].
  assert (is_Some (sp_targetByPath plan !! rel)) as [? Hc]; [|congruence].
  apply (fs_listed _ _ _ _ _ _ _ _ Hft). split; [|done]. by split; [exists f| | |].
Qed.

(** *** What a run does *)

(** [C5] A run of SyncOneWay loses no content that can be read. Whatever system calls
    fail and wherever the run stops, the content of every readable file of the
    target (leftovers of interrupted writes aside) is afterwards still in some file
    of the target - in place, moved, or retained below [.sync/backup-intake] - and
    the files outside the target keep path and content. The names of temporary files
    and the stamps of retained ones are fresh and proper names, and file sizes fit
    64 bits ([setting_ok]). A file that cannot be read is not protected: see
    [move_overwrites_unreadable]. *)
Theorem SyncOneWay_keeps_content sha256 otherRegexp cwd env S T opts disk disk' res chmods err :
  setting_ok env disk S T opts ->
  SyncOneWay sha256 otherRegexp cwd env S T opts disk = (disk', res, chmods, err) ->
  (forall rel f, disk !! in_root T rel = Some f -> isTemp (in_root T rel) = false ->
     env_unreadable (se_scan env) (in_root T rel) = None ->
     exists r g, disk' !! in_root T r = Some g /\ File_data g = File_data f) /\
  (forall p f, disk !! p = Some f -> isTemp p = false -> (forall rel, p <> in_root T rel) -> disk' !! p = Some f).
Proof.
  intros Hset H. apply SyncOneWay_cases in H as (disk1 & [_ Hclean] & H); [|done].
  destruct H as [[-> _]|(plan & srules & start & Hok & HT & Ho & _ & _ & Hfs & Hft & st & _ & -> & Hs)].
  { split; [|intros; by apply Hclean]. intros rel f Hf Ht _. exists rel, f. by split; [apply Hclean|]. }
  apply sound_safe in Hs as [Hk Hfr]; [|done]. rewrite HT in Hk. rewrite <- Ho in Hfs, Hft. split.
  - intros rel f Hf Ht Hu. apply Hclean in Hf; [|done]. destruct (sp_targetByPath plan !! rel) as [file|] eqn:Hl.
    + by apply (Hk rel file f).
    + exists rel, f. split; [|done]. apply Hfr; [done|]. by eapply unlisted_untouched.
  - intros p f Hf Ht Hp. apply Hfr; [by apply Hclean|]. intros rel Hr. rewrite HT in Hr. by apply Hp in Hr.
Qed.

(** The blocks of two contents have the same hashes. *)
Definition same_blocks (sha256 : bytes -> bytes) (bs : Z) (a b : bytes) : Prop :=
  length a = length b /\ digest <$> tiles sha256 a bs = digest <$> tiles sha256 b bs.

Lemma same_blocks_eq sha256 bs a b : 0 < bs -> (forall x y, sha256 x = sha256 y -> x = y) -> same_blocks sha256 bs a b -> a = b.
Proof. intros Hbs Hinj [Hl Hd]. by apply (digest_tiles_covered sha256 _ _ bs). Qed.

(** A file of the folder the scan lists. *)
Definition scannedIn (otherRegexp : string -> string -> bool) (env : scanEnv) (disk : diskT) (root : string) (opts : SyncOptions)
    (rules : syncIgnoreRules) (rel : string) : Prop :=
  visible otherRegexp disk root (mkOptions (SyncOptions_BlockSize (normalized opts)) (SyncOptions_IgnoreSuffixes (normalized opts))) rules rel
  /\ env_unreadable env (in_root root rel) = None.


(** *** A first copy *)

(** No system call fails. *)
Record quiet (env : syncEnv) : Prop := {
  q_open : forall p, env_openFails (se_scan env) p = false;
  q_cleanWalk : forall p, se_cleanWalkFails env p = false;
  q_clean : forall p, se_cleanFails env p = false;
  q_mkdirRoot : se_mkdirRootFails env = false;
  q_mkdir : forall p, se_mkdirFails env p = false;
  q_chmod : forall p, se_chmodFails env p = false;
  q_stat : forall p, se_statFails env p = false;
  q_assemble : forall rel c, se_assembleFails env rel c = false
}.

(** The permission modes of a policy can be read. *)
Definition modes_ok (policy : PermissionPolicy) : Prop :=
  is_ok (parseOptionalMode (PermissionPolicy_FileMode policy)) = true /\ is_ok (parseOptionalMode (PermissionPolicy_DirMode policy)) = true.

Section first_copy.
Context (sha256 : bytes -> bytes) (otherRegexp : string -> string -> bool) (env : syncEnv) (Hq : quiet env).

Lemma cleanPaths_quiet paths disk n : exists disk' n', cleanPaths env paths disk n = (disk', n', None).
Proof.
  revert disk n. induction paths as [|p paths IH]; intros disk n; cbn [cleanPaths]; [by eexists _, _|].
  destruct (isTemp p); [|apply IH]. rewrite (q_clean env Hq). apply IH.
Qed.

Lemma CleanFolder_quiet root disk : exists disk' n, CleanFolder env root disk = (disk', n, None).
Proof. unfold CleanFolder. rewrite (q_cleanWalk env Hq). apply cleanPaths_quiet. Qed.

Lemma chmodUp_quiet fuel root current mode chmods : (chmodUp env fuel root current mode chmods).2 = None.
Proof.
  revert current chmods. induction fuel as [|fuel IH]; intros current chmods; cbn [chmodUp]; [done|].
  rewrite (q_chmod env Hq). cbv zeta. destruct (_ || _); [done|apply IH].
Qed.

Lemma prepare_quiet plan rel st : modes_ok (SyncOptions_Permissions (sp_opts plan)) ->
  exists chmods, prepare env plan rel st = (set_chmods chmods st, None).
Proof.
  intros [_ Hd]. unfold prepare, prepareTargetDirectory. rewrite (q_mkdir env Hq). unfold directoryMode.
  destruct (_ || _); [|by eexists]. destruct (parseOptionalMode _) as [[m|]|]; [|by eexists|done].
  pose proof (chmodUp_quiet (S (S (String.length (targetOf plan rel)))) (sp_target plan) (path_dir (targetOf plan rel)) m (run_chmods st)) as H.
  destruct (chmodUp _ _ _ _ _ _) as [c e]. cbn in H. subst e. by eexists.
Qed.

Lemma permit_quiet plan rel st f : modes_ok (SyncOptions_Permissions (sp_opts plan)) -> run_disk st !! sourceOf plan rel = Some f ->
  exists chmods, permit env plan rel st = (set_chmods chmods st, None).
Proof.
  intros [Hf _] Hs. unfold permit, applyPermissionPolicy, fileMode. rewrite (q_stat env Hq), Hs.
  destruct (bool_decide _); [rewrite (q_chmod env Hq); by eexists|]. destruct (_ || _); [|by eexists].
  destruct (parseOptionalMode _) as [[m|]|]; [rewrite (q_chmod env Hq); by eexists|by eexists|done].
Qed.

Lemma tiles_truthful disk p f m bs : 0 < bs -> disk !! p = Some f -> Manifest_Path m = p -> Manifest_Blocks m = tiles sha256 (File_data f) bs ->
  truthful sha256 disk m.
Proof.
  intros Hbs Hf Hp Hb b. rewrite Hb. unfold tiles. intros (k & -> & Hk%elem_of_seqZ)%list_elem_of_fmap. exists f. rewrite Hp. split; [done|].
  cbn [Block_Offset Block_Size Block_Hash tile]. split; [nia|]. rewrite slice_min by lia. split; [|done].
  assert (k * bs < Z.of_nat (length (File_data f))) by (apply blockCount_bound; [done|lia]).
  unfold slice. rewrite length_take, length_drop. lia.
Qed.

(** A callback that changes nothing changes nothing. *)
Lemma assemble_callback_complete faults fs targetPath tmp now m sources f c :
  (forall call, faults call = false) -> 0 < Manifest_BlockSize m -> Z.of_nat (length c) <= maxInt64 ->
  Manifest_Size m = Z.of_nat (length c) -> Manifest_Blocks m = tiles sha256 c (Manifest_BlockSize m) ->
  Forall (truthful sha256 fs) sources ->
  (forall w, w ∈ Manifest_Blocks m -> exists m' b, m' ∈ sources /\ b ∈ Manifest_Blocks m' /\ digest b = digest w) ->
  fs !! tmp = None -> (forall data, f (Apply.staged tmp data now fs) = (Apply.staged tmp data now fs, None)) ->
  exists data, Apply.AssembleFromLocalBlocksBeforeRename sha256 faults fs targetPath tmp now m sources (Some f)
    = (<[targetPath := mkFile data now]> fs, Ok tt).
Proof.
  intros Hnf Hbs Hmax Hsize Hblocks Htruth Hav Hfresh Hf.
  destruct (stage_complete sha256 faults fs tmp now m sources c) as (data & Hcopy & Hver & _); [done..| |].
  { intros w Hw. by apply truthful_available; [|apply Hav]. } exists data.
  unfold Apply.AssembleFromLocalBlocksBeforeRename, Apply.stageAndVerify.
  rewrite Hcopy, !Hnf. cbn [mbind result_bind]. unfold Apply.sys. rewrite !Hnf. simpl. rewrite Hver, Hf.
  unfold Apply.staged. by rewrite lookup_insert_eq, delete_insert_id.
Qed.

Lemma cleanArchiveSourceRel_safe rel : rel_ok rel -> rel <> ".sync" -> contains_char rel "\"%char = false ->
  cleanArchiveSourceRel rel = Ok rel.
Proof.
  intros [(l & Hne & Hl & ->) Hout] Hsync Hb. unfold cleanArchiveSourceRel.
  rewrite bool_decide_eq_false_2 by (by apply join_nonempty). rewrite join_ok_not_rooted, Hb by done. cbn [orb]. cbv zeta.
  rewrite path_clean_join by done. rewrite Hout, (bool_decide_eq_false_2 (join "/" l = ".sync")) by done. cbn [orb].
  assert (forall x, x = "." \/ x = ".." -> join "/" l <> x) as Hdots.
  { intros x Hx H. assert (l = [x]) as ->.
    - rewrite <- (split_on_join l), H; [by destruct Hx; subst x|done|]. eapply Forall_impl; [done|]. by intros e [].
    - apply Forall_singleton in Hl as [_ H1 H2 _]. naive_solver. }
  rewrite !bool_decide_eq_false_2 by (apply Hdots; tauto). cbn [orb].
  destruct (has_prefix (join "/" l) "../") eqn:Hp; [|done]. exfalso. apply has_prefix_inv in Hp as [t Ht].
  assert (split_on slash (join "/" l) = ".." :: split_on slash t) as Hs by (rewrite Ht; apply (split_on_app slash ".." t)).
  rewrite split_on_join in Hs; [|done|by eapply Forall_impl; [done|]; intros e []]. subst l. apply Forall_cons in Hl as [[_ _ H _] _]. done.
Qed.

Lemma retain_nothing root rel disk : root <> EmptyString -> rel_ok rel -> rel <> ".sync" -> contains_char rel "\"%char = false ->
  disk !! in_root root rel = None -> RetainExistingBackupIntakeFile env root rel disk = (disk, Ok None).
Proof.
  intros Hroot Hrel Hs Hb Hn. unfold RetainExistingBackupIntakeFile. rewrite cleanArchiveSourceRel_safe by done. cbv zeta.
  rewrite (q_stat env Hq), path_join_in, Hn; [done|done|by apply rel_ok_nonempty].
Qed.

(** The sources of a first copy. *)
Context (plan : syncPlan) (disk1 : diskT).
Record first_plan : Prop := {
  fp_ok : plan_ok sha256 env plan disk1;
  fp_modes : modes_ok (SyncOptions_Permissions (sp_opts plan));
  fp_bs : 0 < SyncOptions_BlockSize (sp_opts plan);
  fp_empty : sp_targetByPath plan = ∅;
  fp_sources : forall m, m ∈ sp_assemblySources plan -> exists rel f, disk1 !! in_root (sp_source plan) rel = Some f /\
    Manifest_Path m = in_root (sp_source plan) rel /\ Manifest_Blocks m = tiles sha256 (File_data f) (SyncOptions_BlockSize (sp_opts plan));
  fp_files : forall rel file, sp_sourceByPath plan !! rel = Some file -> ScannedFile_Manifest file ∈ sp_assemblySources plan /\
    exists f, disk1 !! in_root (sp_source plan) rel = Some f /\ file_size f <= maxInt64 /\
      describes sha256 (SyncOptions_BlockSize (sp_opts plan)) f (ScannedFile_Manifest file) /\ contains_char rel "\"%char = false;
  fp_source : sp_source plan <> EmptyString;
  fp_apart : forall r1 r2, in_root (sp_source plan) r1 <> in_root (sp_target plan) r2
}.

Record copy_inv (todo : list string) (st : runState) : Prop := {
  ci_moves : run_moves st = ∅;
  ci_source : forall rel f, disk1 !! in_root (sp_source plan) rel = Some f -> run_disk st !! in_root (sp_source plan) rel = Some f;
  ci_target : forall rel, rel ∈ todo -> run_disk st !! in_root (sp_target plan) rel = None
}.

Lemma copy_step todo rel st : first_plan -> rel ∉ todo -> is_Some (sp_sourceByPath plan !! rel) -> copy_inv (rel :: todo) st ->
  exists st', syncPath sha256 otherRegexp env plan rel st = (st', None) /\ copy_inv todo st'.
Proof.
  intros Hfp Hnd [file Hfile] [Hm Hs Ht]. unfold syncPath.
  destruct (ignoredForTarget otherRegexp (sp_matcher plan) rel) eqn:Hig.
  { exists st. split; [done|]. constructor; [done|done|]. intros r Hr. apply Ht. by right. }
  assert (rel <> ".sync") as Hnsync by (by intros ->). rewrite Hfile, (fp_empty Hfp), lookup_empty. cbv zeta.
  unfold takeMoveCandidate. rewrite Hm, lookup_empty. unfold writeStep.
  destruct (fp_files Hfp rel file Hfile) as (Hin & f & Hf & Hmax & [D1 D2 D3] & Hback).
  destruct (po_src _ _ _ _ (fp_ok Hfp) rel file Hfile) as (Hrok & _). pose proof (po_root _ _ _ _ (fp_ok Hfp)) as HT.
  destruct (prepare_quiet plan rel st (fp_modes Hfp)) as (chmods & ->). cbn [andThen]. unfold assembleStep.
  cbn [count set_chmods run_disk]. unfold targetOf. rewrite path_join_in; [|done|by apply rel_ok_nonempty].
  set (tmp := tempName env (in_root (sp_target plan) rel) ".staging" (run_disk st)).
  assert (tmp <> in_root (sp_target plan) rel) as Htmp by (apply tempName_other; [apply (po_temps _ _ _ _ (fp_ok Hfp))|done|done]).
  assert (run_disk st !! tmp = None) as Hfresh by apply (po_temps _ _ _ _ (fp_ok Hfp)).
  destruct (assemble_callback_complete (se_assembleFails env rel) (run_disk st) (in_root (sp_target plan) rel) tmp (se_now env)
    (ScannedFile_Manifest file) (sp_assemblySources plan) (retainBefore env plan rel) (File_data f)) as (data & ->).
  - apply Hq.
  - rewrite D2. apply (fp_bs Hfp).
  - done.
  - done.
  - by rewrite D2.
  - apply Forall_forall. intros m Hmin. destruct (fp_sources Hfp m Hmin) as (r & g & Hg & Hp & Hb).
    eapply tiles_truthful; [apply (fp_bs Hfp)|by apply Hs|done|done].
  - intros w Hw. by exists (ScannedFile_Manifest file), w.
  - done.
  - intros data. unfold retainBefore. rewrite retain_nothing; [done..|]. unfold Apply.staged. rewrite lookup_insert_ne by done. apply Ht. by left.
  - cbn [andThen]. assert (forall r g, disk1 !! in_root (sp_source plan) r = Some g ->
      <[in_root (sp_target plan) rel := mkFile data (se_now env)]> (run_disk st) !! in_root (sp_source plan) r = Some g) as Hsrc.
    { intros r g Hg. rewrite lookup_insert_ne; [by apply Hs|]. intros H. symmetry in H. by apply (fp_apart Hfp) in H. }
    match goal with |- context [permit env plan rel ?s] => destruct (permit_quiet plan rel s f) as (chmods' & ->) end; [apply (fp_modes Hfp)| |].
    + cbn. unfold sourceOf. rewrite path_join_in; [by apply Hsrc|apply (fp_source Hfp)|by apply rel_ok_nonempty].
    + eexists. split; [done|]. constructor; cbn; [done|done|]. intros r Hr. rewrite lookup_insert_ne; [apply Ht; by right|].
      intros H%in_root_inj. congruence.
Qed.

Lemma copy_run paths st : first_plan -> (forall rel, rel ∈ paths -> is_Some (sp_sourceByPath plan !! rel)) -> NoDup paths ->
  copy_inv paths st -> exists st', eachPath (syncPath sha256 otherRegexp env plan) paths st = (st', None).
Proof.
  intros Hfp. revert st. induction paths as [|rel paths IH]; intros st Hp Hnd Hi; cbn [eachPath]; [by exists st|].
  apply NoDup_cons in Hnd as [Hr Hnd]. destruct (copy_step paths rel st Hfp Hr (Hp rel ltac:(by left)) Hi) as (st' & -> & Hi').
  cbn [andThen]. apply IH; [intros r Hr'; apply Hp; by right|done|done].
Qed.
End first_copy.

Lemma no_files sha256 otherRegexp cwd env disk root opts res :
  (forall rel, disk !! in_root root rel = None) -> scanOf sha256 otherRegexp cwd env disk root opts = Ok res -> ScanResult_Files res = [].
Proof.
  intros Hd H. apply scanFolder_Ok in H as (rules & _ & _ & Hf & _). destruct (ScanResult_Files res) as [|[r m] l]; [done|].
  destruct (proj1 (Hf r m) ltac:(by left)) as [[[f Hr] _ _ _] _]. change (disk !! in_root root r = Some f) in Hr. by rewrite Hd in Hr.
Qed.

Lemma scanTarget_empty sha256 otherRegexp cwd env disk root opts : quiet env ->
  (forall rel, disk !! in_root root rel = None) -> disk !! abs_path cwd (primary root) = None ->
  env_root (se_scan env) root <> RootFails ->
  exists ts, scanTarget sha256 otherRegexp cwd env disk root opts = Ok ts /\ ScanResult_Files ts = [].
Proof.
  intros Hq Hd Hp Hr. unfold scanTarget. destruct (scanOf _ _ _ _ _ _ _) as [ts|e] eqn:E.
  - exists ts. split; [done|]. by eapply no_files.
  - unfold scanOf, ScanFolder, scanFolder, loadSyncIgnoreRules in E. rewrite (q_open env Hq), Hp in E. cbn in E.
    destruct (env_root (se_scan env) root); [done| |done]. injection E as <-. cbn. rewrite (q_mkdirRoot env Hq). eexists. by split.
Qed.

(** A first copy succeeds.  If no system call fails, the rules of the
    source load, the names are ones the retention accepts and nothing lies in
    the target yet, [SyncOneWay] ends without an error (so that the target is
    then an exact copy): every block it needs is found in the source. *)
Theorem SyncOneWay_first_copy sha256 otherRegexp cwd env S T opts disk :
  setting_ok env disk S T opts -> quiet env -> modes_ok (SyncOptions_Permissions opts) ->
  S <> EmptyString -> (forall r1 r2, in_root S r1 <> in_root T r2) ->
  env_root (se_scan env) S = RootDir -> env_root (se_scan env) T <> RootFails ->
  (forall rel, disk !! in_root T rel = None) -> disk !! abs_path cwd (primary T) = None ->
  (forall rel f, disk !! in_root S rel = Some f -> contains_char rel "\"%char = false) ->
  (forall disk1, cleaned disk disk1 -> is_ok (loadSyncIgnoreRules cwd (se_scan env) disk1 S) = true) ->
  exists disk' res chmods, SyncOneWay sha256 otherRegexp cwd env S T opts disk = (disk', res, chmods, None).
Proof.
  intros Hset Hq Hmodes HS Hapart HrS HrT Hempty Hprim Hback Hload. unfold SyncOneWay. cbv zeta.
  destruct (CleanFolder_quiet env Hq S disk) as (d1 & n1 & E1). rewrite E1. apply CleanFolder_cleaned in E1.
  destruct (CleanFolder_quiet env Hq T d1) as (d2 & n2 & E2). rewrite E2. apply CleanFolder_cleaned in E2.
  assert (cleaned disk d2) as Hc by (by eapply cleaned_trans). pose proof Hc as [Hsub _].
  assert (forall p, disk !! p = None -> d2 !! p = None) as Hout.
  { intros p Hp. destruct (d2 !! p) as [f|] eqn:E; [|done]. eapply lookup_weaken in E; [|exact Hsub]. congruence. }
  destruct (normalized_fields opts) as (Hbs & Hsuf & Hpres & Hcs).
  assert (SyncOptions_Permissions (normalized opts) = SyncOptions_Permissions opts) as Hperm.
  { unfold normalized. by destruct (_ <=? 0). }
  assert (setting_ok env d2 S T (normalized opts)) as Hset2.
  { apply (setting_cleaned _ _ _ _ _ _ Hc) in Hset. destruct Hset; constructor; [done..|by rewrite Hcs]. }
  specialize (Hload d2 Hc). destruct (loadSyncIgnoreRules cwd (se_scan env) d2 S) as [srules|] eqn:Hsr; [|done].
  assert (exists ss, scanOf sha256 otherRegexp cwd env d2 S (normalized opts) = Ok ss) as [ss Hss].
  { unfold scanOf, ScanFolder, scanFolder. rewrite Hsr, HrS. cbn. by eexists. }
  destruct (scanTarget_empty sha256 otherRegexp cwd env d2 T (normalized opts) Hq) as (ts & Hts & Hnil); [by intros; apply Hout|by apply Hout|done|].
  assert (loadSyncIgnoreRules cwd (se_scan env) d2 T = Ok []) as Htr.
  { unfold loadSyncIgnoreRules. by rewrite (q_open env Hq), Hout. }
  destruct (prepareRun sha256 otherRegexp cwd env S T (normalized opts) d2) as [[plan start]|e] eqn:Ep;
    [|unfold prepareRun, LoadSyncIgnoreMatcher in Ep; by rewrite Hss, Hts, Htr in Ep].
  pose proof Ep as Ep'. apply prepareRun_planned in Ep' as (HpS & HpT & Ho & Hd & Hm & _ & srules' & _ & _ & Hfs & Hft); [|done|done].
  unfold prepareRun, LoadSyncIgnoreMatcher in Ep. rewrite Hss, Hts, Htr in Ep. injection Ep as Hplan _.
  assert (plan_ok sha256 env plan d2) as Hok.
  { rewrite <- Ho in Hset2, Hfs, Hft. rewrite <- HpT in Hset2, Hft. by eapply planned_ok. }
  assert (sp_targetByPath plan = ∅) as Htgt by (rewrite <- Hplan; cbn; by rewrite Hnil).
  assert (sp_assemblySources plan = manifests (ScanResult_Files ss)) as Hsrc by (rewrite <- Hplan; cbn; by rewrite Hnil).
  assert (forall rel m, mkScannedFile rel m ∈ ScanResult_Files ss -> exists f, d2 !! in_root S rel = Some f /\ file_size f <= maxInt64 /\
    Manifest_Path m = in_root S rel /\ describes sha256 (SyncOptions_BlockSize (normalized opts)) f m) as Hfiles.
  { apply scanFolder_Ok in Hss as (rules & _ & _ & Hf & _). intros rel m Hin. apply Hf in Hin as [[[f Hr] _ _ _] Hman]. exists f. split; [done|].
    pose proof (so_size _ _ _ _ _ Hset2 _ f Hr). split; [done|].
    apply (fileManifest_Ok _ _ _ _ _ _ f) in Hman as (_ & _ & ? & ?); done. }
  assert (first_plan sha256 env plan d2) as Hfp.
  { constructor; rewrite ?Ho, ?HpS, ?HpT; [done|by rewrite Hperm|done|done| | |done|done].
    - intros m Hin. rewrite Hsrc in Hin. unfold manifests in Hin. apply list_elem_of_fmap in Hin as ([r m'] & -> & Hin).
      apply Hfiles in Hin as (f & Hf & _ & Hp & [_ _ Hb]). by exists r, f.
    - intros rel [r m] Hf. rewrite <- Hplan in Hf. cbn in Hf.
      assert ((mkScannedFile r m) ∈ ScanResult_Files ss /\ r = rel) as [Hin ->].
      { apply filesByPath_lookup in Hf; [done|]. apply scanFolder_Ok in Hss as (_ & _ & _ & _ & _ & Hsort). by apply strictly_NoDup. }
      split; [rewrite Hsrc; apply list_elem_of_fmap; by exists (mkScannedFile rel m)|].
      apply Hfiles in Hin as (f & Hf' & Hmax & _ & Hdesc). exists f. split; [done|]. split; [done|]. split; [done|].
      eapply Hback. by eapply lookup_weaken. }
  destruct (copy_run sha256 otherRegexp env Hq plan d2 (sortedKeys (sp_sourceByPath plan)) start Hfp) as (st & Hrun).
  - intros rel. apply sortedKeys_elem.
  - apply sortedKeys_NoDup.
  - constructor; rewrite ?Hd; [|done|intros rel _; rewrite HpT; by apply Hout].
    rewrite Hm, Htgt. apply map_eq. intros k. unfold staleMoveCandidates. 
    assert (stalePaths (sp_sourceByPath plan) ∅ = []) as -> by done. done.
  - unfold runPlan. rewrite Hrun. cbn [andThen]. rewrite Htgt.
    change (stalePaths (sp_sourceByPath plan) ∅) with (@nil string). cbn. by eexists _, _, _.
Qed.

(** *** The search for a conflict name *)

Lemma app_cancel_r_str a b e : a +:+ e = b +:+ e -> a = b.
Proof.
  intros H. assert (String.length a = String.length b) as Hl.
  { apply (f_equal String.length) in H. rewrite !length_app_str in H. lia. }
  destruct (app_split_str a e b e H ltac:(lia)) as (m & -> & _). rewrite length_app_str in Hl.
  destruct m; [by rewrite str_app_nil_r|simpl in Hl; lia].
Qed.

Lemma conflictCandidate_inj rel suffix k1 k2 : conflictCandidate rel suffix k1 = conflictCandidate rel suffix k2 -> k1 = k2.
Proof.
  unfold conflictCandidate. intros H. apply app_cancel_str, app_cancel_r_str in H.
  assert (forall k, conflictSuffix suffix <> conflictSuffix suffix +:+ "-" +:+ itoa (Z.of_nat (S k))) as Hne.
  { intros k Hk. apply (f_equal String.length) in Hk. rewrite !length_app_str in Hk. simpl in Hk. lia. }
  destruct k1 as [|k1], k2 as [|k2]; [done|by apply Hne in H|by symmetry in H; apply Hne in H|].
  do 2 apply app_cancel_str in H. apply itoa_inj in H. lia.
Qed.

(** Everything a path of the disk begins with. *)
Definition prefixes (p : string) : list string := (fun n => take_str n p) <$> seq 0 (S (String.length p)).

Lemma take_str_app a b : take_str (String.length a) (a +:+ b) = a.
Proof. unfold String.app. induction a as [|c a IH]; simpl; [by destruct b|]. by rewrite IH. Qed.

Lemma prefixes_elem a b : a ∈ prefixes (a +:+ b).
Proof.
  unfold prefixes. apply list_elem_of_fmap. exists (String.length a). split; [by rewrite take_str_app|].
  apply elem_of_seq. rewrite length_app_str. lia.
Qed.

Lemma length_all_prefixes l : length (l ≫= prefixes) = list_sum ((fun p => S (String.length p)) <$> l).
Proof.
  induction l as [|p l IH]; [done|]. cbn [mbind list_bind fmap list_fmap]. rewrite length_app, IH. unfold prefixes. rewrite length_fmap, length_seq. done.
Qed.

Lemma taken_prefix env disk p : (forall q, se_statFails env q = false) -> statNotExist env disk p = false ->
  p ∈ ((map_to_list disk).*1 ≫= prefixes).
Proof.
  intros Hq. unfold statNotExist. rewrite Hq. cbn [negb andb]. intros [Hn|Hn]%andb_false_iff; apply list_elem_of_bind.
  - apply bool_decide_eq_false in Hn. destruct (disk !! p) as [f|] eqn:Hf; [|done]. exists p. split.
    + pose proof (prefixes_elem p EmptyString) as H. by rewrite str_app_nil_r in H.
    + apply list_elem_of_fmap. exists (p, f). split; [done|by apply elem_of_map_to_list].
  - apply negb_false_iff, existsb_exists in Hn as (q & Hin & Hp). apply list_elem_of_In in Hin. exists q. split; [|done].
    apply has_prefix_inv in Hp as [t ->]. rewrite str_app_assoc. apply prefixes_elem.
Qed.

Lemma nextConflictRel_None env fuel i disk root rel suffix : nextConflictRel env fuel i disk root rel suffix = None <->
  forall k, (i <= k < i + fuel)%nat -> statNotExist env disk (path_join root (conflictCandidate rel suffix k)) = false.
Proof.
  revert i. induction fuel as [|fuel IH]; intros i; cbn [nextConflictRel]; [split; [lia|done]|].
  destruct (statNotExist env disk (path_join root (conflictCandidate rel suffix i))) eqn:Hs.
  - split; [done|]. intros H. rewrite (H i) in Hs by lia. done.
  - rewrite IH. split; intros H k Hk; [|apply H; lia]. destruct (decide (k = i)) as [->|]; [done|]. apply H. lia.
Qed.

(** [C39] The search for the name of a conflict copy ends, if [os.Stat] fails
    only for missing files: one of the first names, fewer than the paths and
    directories of the disk, is free.  If every name makes [os.Stat] fail
    otherwise - names too long for the file system do - no bound suffices. *)
Theorem nextConflictRel_terminates env disk root rel suffix :
  root <> EmptyString ->
  ((forall p, se_statFails env p = false) ->
     exists c, nextConflictRel env (conflict_fuel disk) 0 disk root rel suffix = Some c /\ disk !! in_root root c = None) /\
  ((forall k, se_statFails env (in_root root (conflictCandidate rel suffix k)) = true) ->
     forall fuel, nextConflictRel env fuel 0 disk root rel suffix = None).
Proof.
  intros Hroot. assert (forall k, path_join root (conflictCandidate rel suffix k) = in_root root (conflictCandidate rel suffix k)) as Hin.
  { intros k. apply path_join_in; [done|apply conflictCandidate_nonempty]. }
  split.
  - intros Hq. destruct (nextConflictRel _ _ _ _ _ _ _) as [c|] eqn:Hc.
    { exists c. split; [done|]. apply nextConflictRel_free in Hc as (Hf & k & ->). by rewrite Hin in Hf. }
    exfalso. set (names := (fun k => in_root root (conflictCandidate rel suffix k)) <$> seq 0 (conflict_fuel disk)).
    assert (NoDup names) as Hnd.
    { apply NoDup_fmap_2; [|apply NoDup_seq]. intros k1 k2 H%in_root_inj. by eapply conflictCandidate_inj. }
    assert (names ⊆ ((map_to_list disk).*1 ≫= prefixes)) as Hsub.
    { intros p (k & -> & Hk%elem_of_seq)%list_elem_of_fmap. rewrite <- Hin. apply (taken_prefix env); [done|].
      apply (proj1 (nextConflictRel_None env (conflict_fuel disk) 0 disk root rel suffix) Hc). lia. }
    apply NoDup_submseteq in Hsub; [|done]. apply submseteq_length in Hsub.
    rewrite length_all_prefixes in Hsub. unfold names in Hsub. rewrite length_fmap, length_seq in Hsub. unfold conflict_fuel in Hsub. lia.
  - intros Hbad fuel. apply nextConflictRel_None. intros k _. unfold statNotExist. by rewrite Hin, Hbad.
Qed.

(** ** A concrete system *)

(** Random parts longer than every path of the disk. *)
Fixpoint ones (n : nat) : string := match n with O => EmptyString | S n' => String "1" (ones n') end.
Definition demo_random (target : string) (disk : diskT) : string := ones (conflict_fuel disk).

Definition demo_policy : PermissionPolicy := mkPermissionPolicy "fixed" "0640" "0750" false false false.

Definition demo_env (unreadable : string -> option string) : syncEnv :=
  mkSyncEnv (mkScanEnv (fun _ => RootDir) (fun _ => false) unreadable (fun _ => 0))
    (fun _ => false) (fun _ => false) false (fun _ => false) (fun _ => false) (fun _ => false) (fun _ => 420) (fun _ => false)
    (fun _ _ => false) (fun _ _ => false) (fun _ _ => false) (fun _ => false) demo_random (fun _ => "20260101T000000.000000000Z") 9.

Definition demo_readable : syncEnv := demo_env (fun _ => None).

Definition demo_opts (preserve : bool) : SyncOptions := mkSyncOptions 2 [] preserve EmptyString demo_policy.

Definition no_regexp : string -> string -> bool := fun _ _ => false.

Definition demo_sync (unreadable : string -> option string) (preserve : bool) (disk : diskT) : diskT * SyncResult * chmodsT * option SyncErr :=
  SyncOneWay id no_regexp "/" (demo_env unreadable) "/s" "/t" (demo_opts preserve) disk.

Definition demo_files (l : list (string * string)) : diskT := list_to_map ((fun x => (x.1, demo_text x.2)) <$> l).
Definition demo_content (disk : diskT) (p : string) : option string := (fun f => String.string_of_list_byte (File_data f)) <$> disk !! p.

Lemma length_ones n : String.length (ones n) = n.
Proof. induction n as [|n IH]; [done|]. cbn. by rewrite IH. Qed.

Lemma ones_no_slash n : contains_char (ones n) slash = false.
Proof. by induction n as [|n IH]. Qed.

Lemma list_sum_elem x l : x ∈ l -> (x <= list_sum l)%nat.
Proof. induction l as [|y l IH]; [by intros ?%elem_of_nil|]. intros [->|H]%elem_of_cons; simpl; [lia|]. specialize (IH H). lia. Qed.

Lemma demo_temps unreadable : temps_ok (demo_env unreadable).
Proof.
  constructor; [|intros; apply ones_no_slash]. intros target suffix disk. destruct (disk !! _) as [f|] eqn:Hf; [|done]. exfalso.
  assert (S (String.length (tempName (demo_env unreadable) target suffix disk)) <= list_sum ((fun p => S (String.length p)) <$> (map_to_list disk).*1))%nat as H.
  { apply list_sum_elem. apply list_elem_of_fmap. eexists. split; [done|]. apply list_elem_of_fmap. eexists (_, f). split; [done|].
    by apply elem_of_map_to_list. }
  unfold tempName in H at 1. rewrite path_join_in in H; [|apply path_dir_nonempty|done]. unfold in_root in H.
  rewrite !length_app_str in H. cbn [demo_env se_random demo_random] in H. unfold demo_random in H. rewrite length_ones in H. unfold conflict_fuel in H. lia.
Qed.

(** The paths of a concrete disk, checked one by one. *)
Definition name_checked (root p : string) : bool :=
  match below_root root p with
  | None => true
  | Some rel => forallb (fun e => negb (bool_decide (e = EmptyString) || bool_decide (e = ".") || bool_decide (e = ".."))) (split_on slash rel)
  end.

Definition path_checked (x : string * File) : bool :=
  name_checked "/s" x.1 && name_checked "/t" x.1 && negb (has_prefix x.1 "/t/.sync/backup-intake/") && (file_size x.2 <=? maxInt64).

Lemma name_checked_ok root rel : name_checked root (in_root root rel) = true -> exists l, l <> [] /\ Forall elem_ok l /\ rel = join "/" l.
Proof.
  unfold name_checked. rewrite (proj2 (below_root_Some root (in_root root rel) rel)) by done. intros H. rewrite List.forallb_forall in H.
  exists (split_on slash rel). split; [apply split_on_nonempty|]. split; [|by rewrite join_split].
  pose proof (split_on_no_char slash rel) as Hn. rewrite Forall_forall in Hn |- *. intros e He. specialize (H e (proj1 (list_elem_of_In _ _) He)). specialize (Hn e He).
  apply negb_true_iff, orb_false_iff in H as [[H1%bool_decide_eq_false H2%bool_decide_eq_false]%orb_false_iff H3%bool_decide_eq_false].
  by constructor.
Qed.

Lemma demo_checked disk : forallb path_checked (map_to_list disk) = true -> forall p f, disk !! p = Some f -> path_checked (p, f) = true.
Proof. intros H p f Hf. rewrite List.forallb_forall in H. apply H, list_elem_of_In. by apply elem_of_map_to_list. Qed.

Lemma demo_setting unreadable preserve disk : forallb path_checked (map_to_list disk) = true ->
  setting_ok (demo_env unreadable) disk "/s" "/t" (demo_opts preserve).
Proof.
  intros Hc. pose proof (demo_checked disk Hc) as Hp. constructor; try done.
  - apply demo_temps.
  - intros root rel f Hr Hf. apply Hp in Hf. unfold path_checked in Hf. apply andb_true_iff in Hf as [[[Hs Ht]%andb_true_iff _]%andb_true_iff _].
    destruct Hr as [-> | ->]; [exact (name_checked_ok _ _ Hs)|exact (name_checked_ok _ _ Ht)].
  - intros p f Hf. apply Hp in Hf. unfold path_checked in Hf. apply andb_true_iff in Hf as [_ Hf]. by apply Z.leb_le.
  - intros rel Hrel. destruct (disk !! _) as [f|] eqn:Hf; [|done]. exfalso. apply Hp in Hf.
    unfold path_checked in Hf. apply andb_true_iff in Hf as [[_ Hf%negb_true_iff]%andb_true_iff _].
    unfold intake in Hf. unfold intakePath in Hf. rewrite path_join_in in Hf by done.
    cbn [fst] in Hf. change (has_prefix ("/t/.sync/backup-intake/" +:+ se_stamp (demo_env unreadable) rel +:+ "/" +:+ rel) "/t/.sync/backup-intake/" = false) in Hf.
    by rewrite has_prefix_app in Hf.
Qed.

(** A source with a moved file, an edited one and a new one. *)
Definition demo_tree : diskT := demo_files
  [("/s/new/x", "hello"); ("/s/e", "zz"); ("/s/n", "fresh"); ("/t/old", "hello"); ("/t/e", "yy"); ("/t/gone", "by")].

Definition outcome (r : diskT * SyncResult * chmodsT * option SyncErr) (paths : list string) : list (option string) * option SyncErr :=
  (demo_content r.1.1.1 <$> paths, r.2).

Definition demo_retained (rel : string) : string := "/t/.sync/backup-intake/20260101T000000.000000000Z/" +:+ rel.

Example demo_run : outcome (demo_sync (fun _ => None) false demo_tree)
    ["/t/new/x"; "/t/e"; "/t/n"; "/t/old"; "/t/gone"; demo_retained "e"; demo_retained "gone"]
  = ([Some "hello"; Some "zz"; Some "fresh"; None; None; Some "yy"; Some "by"], None).
Proof. vm_compute. reflexivity. Qed.

Lemma SyncOneWay_keeps_content_witness :
  exists r g, (demo_sync (fun _ => None) false demo_tree).1.1.1 !! in_root "/t" r = Some g /\ File_data g = File_data (demo_text "by").
Proof.
  assert (setting_ok demo_readable demo_tree "/s" "/t" (demo_opts false)) as Hset by (apply demo_setting; vm_compute; reflexivity).
  destruct (demo_sync (fun _ => None) false demo_tree) as [[[disk res] chmods] err] eqn:E.
  destruct (SyncOneWay_keeps_content id no_regexp "/" demo_readable "/s" "/t" (demo_opts false) demo_tree disk res chmods err Hset E) as [H _].
  apply (H "gone" (demo_text "by")); reflexivity.
Defined.


(** A first copy. *)
Definition demo_fresh : diskT := demo_files [("/s/d/x", "hello"); ("/s/e", "zz")].

Lemma SyncOneWay_first_copy_witness : exists disk' res chmods, demo_sync (fun _ => None) false demo_fresh = (disk', res, chmods, None).
Proof.
  apply (SyncOneWay_first_copy id no_regexp "/" demo_readable "/s" "/t" (demo_opts false) demo_fresh); try reflexivity.
  - apply demo_setting. vm_compute. reflexivity.
  - by constructor.
  - split; reflexivity.
  - discriminate.
  - intros r1 r2. discriminate.
  - discriminate.
  - intros rel f H. assert (forallb (fun x => negb (contains_char x.1 "\"%char)) (map_to_list demo_fresh) = true) as Hc by (vm_compute; reflexivity).
    apply elem_of_map_to_list, list_elem_of_In in H. rewrite List.forallb_forall in Hc. apply Hc, negb_true_iff in H. cbn in H. exact H.
  - intros disk1 [Hsub _]. unfold loadSyncIgnoreRules. cbn. by rewrite (lookup_weaken_None disk1 demo_fresh).
Defined.

Lemma nextConflictRel_terminates_witness :
  (exists c, nextConflictRel demo_readable (conflict_fuel demo_tree) 0 demo_tree "/t" "e" EmptyString = Some c /\ demo_tree !! in_root "/t" c = None) /\
  nextConflictRel demo_readable (conflict_fuel demo_tree) 0 demo_tree "/t" "e" EmptyString = Some "e.sync-conflict".
Proof.
  split; [|vm_compute; reflexivity].
  apply (nextConflictRel_terminates demo_readable demo_tree "/t" "e" EmptyString); [discriminate|reflexivity].
Defined.

(** *** What the code does in special cases *)

(** The contents of two files exchanged in the source: the first write takes the
    blocks of the second file of the target, which the second write finds
    overwritten.  The run fails; the next one succeeds, from the source. *)
Definition demo_swapped : diskT := demo_files [("/s/a", "AAAA"); ("/s/b", "BBBB"); ("/t/a", "BBBB"); ("/t/b", "AAAA")].

Example swapped_contents_fail :
  let first := demo_sync (fun _ => None) false demo_swapped in
  outcome first ["/t/a"; "/t/b"] = ([Some "AAAA"; Some "AAAA"], Some (ErrAssemble (Apply.ErrVerify 0))) /\
  outcome (demo_sync (fun _ => None) false first.1.1.1) ["/t/a"; "/t/b"] = ([Some "AAAA"; Some "BBBB"], None).
Proof. vm_compute. split; reflexivity. Qed.

(** A file of the source with the name of the conflict copy: a move replaces the
    copy just made, without retention; the edit survives below the intake only. *)
Example conflict_copy_overwritten :
  outcome (demo_sync (fun _ => None) true
      (demo_files [("/s/a.md", "src"); ("/s/a.sync-conflict.md", "mine"); ("/t/a.md", "edit"); ("/t/stale", "mine")]))
    ["/t/a.md"; "/t/a.sync-conflict.md"; "/t/stale"; demo_retained "a.md"; demo_retained "a.sync-conflict.md"]
  = ([Some "src"; Some "mine"; None; Some "edit"; None], None).
Proof. vm_compute. reflexivity. Qed.

(** A move replaces a file of the target that could not be read: it is in no
    scan, so the run takes its path for free, and nothing retains it. *)
Example move_overwrites_unreadable :
  outcome (demo_sync (fun p => if bool_decide (p = "/t/x") then Some "permission denied" else None) false
      (demo_files [("/s/x", "mine"); ("/t/x", "secret"); ("/t/old", "mine")]))
    ["/t/x"; "/t/old"; demo_retained "x"; demo_retained "old"]
  = ([Some "mine"; None; None; None], None).
Proof. vm_compute. reflexivity. Qed.

(** A file of the source that cannot be read counts as deleted there. *)
Example unreadable_source_deletes :
  outcome (demo_sync (fun p => if bool_decide (p = "/s/x") then Some "permission denied" else None) false
      (demo_files [("/s/x", "new"); ("/t/x", "old")])) ["/s/x"; "/t/x"; demo_retained "x"]
  = ([Some "new"; None; Some "old"], None).
Proof. vm_compute. reflexivity. Qed.

(** A name with a backslash: retention refuses it, and no run gets past it. *)
Example backslash_blocks :
  outcome (demo_sync (fun _ => None) false (demo_files [("/s/a\b", "x"); ("/s/c", "y")])) ["/t/a\b"; "/t/c"]
  = ([None; None], Some (ErrAssemble (Apply.ErrBeforeRename "retention failed"))).
Proof. vm_compute. reflexivity. Qed.

Definition demo_folder (id path mode : string) : RunnerFolder := mkRunnerFolder id path "group" mode 2 [] demo_policy.

(** A receiving folder without a group of its own takes no part. *)
Example runner_serves_the_group :
  let folders := NewRunner [demo_folder "s" "/s" EmptyString; demo_folder "t" "/t" ModeReceiveOnly;
                            mkRunnerFolder "u" "/u" EmptyString ModeReceiveOnly 2 [] demo_policy] in
  let '(_, res, err) := ScanDue id no_regexp "/" (fun _ => demo_readable) folders "s" demo_tree in
  (RunnerResult_Moves res, RunnerResult_Writes res, RunnerResult_Deletes res, RunnerResult_Targets res, err)
  = (1, 2, 1, 1, Ok None).
Proof. vm_compute. reflexivity. Qed.
