(* ===== verification/PerFolder.v ===== *)
(** * The Badger backend with a store per folder

    Models [internal/state/per_folder_badger_store.go]: a database per configured
    folder, between which a snapshot is divided when it is saved and from which it
    is merged when it is loaded; the choice of the paths in
    [internal/metadatastore/open.go]; and [internal/metadataops/import.go], which
    replaces a store and keeps a backup.

    The clones of maps are the maps themselves; a loop that copies the entries of
    one map into another is their union.  The stores are visited in the order of a
    Go map, which differs from call to call: each definition takes the order of
    its loop as an argument. *)

From S2P Require Import Prelude GoStd Paths Block StoreData Store ApplyGate Jobs Settings Config BadgerKeys BadgerStore BadgerFolder.
From Stdlib Require Import Ascii.

Local Open Scope Z_scope.

(** ** Merging and dividing snapshots *)

(** [for x, inner := range src { make dst[x]; for y, v := range inner { dst[x][y] = v } }] *)
Definition merge2 {V} (dst src : gmap string (gmap string V)) : gmap string (gmap string V) :=
  union_with (fun d s => Some (s ∪ d)) dst src.

Definition mergeManifestHistory (dst src : gmap string (gmap string (gmap Z Manifest))) := merge2 dst src.
Definition mergeFolderUintMaps (dst src : gmap string (gmap string Z)) := merge2 dst src.
Definition mergeRenameHints (dst src : gmap string (gmap string RenameHint)) := merge2 dst src.
Definition mergePeerStates (dst src : gmap string (gmap string FolderSummary)) := merge2 dst src.
Definition mergePeerFolders (dst src : gmap string (gmap string (gmap string Manifest))) := merge2 dst src.
Definition mergePeerUintMaps (dst src : gmap string (gmap string (gmap string Z))) := merge2 dst src.
Definition mergePeerRenameHints (dst src : gmap string (gmap string (gmap string RenameHint))) := merge2 dst src.

Definition mergeSnapshot (dst src : snapshot) : snapshot :=
  let d := snap_local dst in let s := snap_local src in
  let dp := snap_peer dst in let sp := snap_peer src in
  let dj := snap_jobs dst in let sj := snap_jobs src in
  let dg := snap_gate dst in let sg := snap_gate src in
  mkSnapshot
    (mkFolderMeta (merge2 (Folders d) (Folders s)) (mergeManifestHistory (ManifestHistory d) (ManifestHistory s))
       (mergeFolderUintMaps (Revisions d) (Revisions s)) (mergeFolderUintMaps (Tombstones d) (Tombstones s))
       (mergeRenameHints (RenameHints d) (RenameHints s)) (Cursors s ∪ Cursors d))
    (mkPeerMeta (mergePeerStates (PeerStates dp) (PeerStates sp)) (mergePeerFolders (PeerFolders dp) (PeerFolders sp))
       (mergePeerUintMaps (PeerRevisions dp) (PeerRevisions sp)) (mergePeerUintMaps (PeerTombstones dp) (PeerTombstones sp))
       (mergePeerRenameHints (PeerRenameHints dp) (PeerRenameHints sp)) (merge2 (PeerCursors dp) (PeerCursors sp))
       (merge2 (PeerApplyCheckpoints dp) (PeerApplyCheckpoints sp)))
    (CompactionSnapshots src ∪ CompactionSnapshots dst)
    (mkJobMeta (SnapshotMarkers sj ∪ SnapshotMarkers dj) (ArchiveIntakeJobs sj ∪ ArchiveIntakeJobs dj)
       (BackupRestoreJobs dj) (BackupRetentionJobs dj) (BackupRepairJobs dj))
    (mkGateMeta (merge2 (PendingWrites dg) (PendingWrites sg)) (merge2 (SkippedDeletes dg) (SkippedDeletes sg)))
    (snap_settings dst).

(** The entry of a folder, unless it is empty. *)
Definition only_folder {K V} `{Countable K} (folderID : string) (m : gmap string (gmap K V)) : gmap string (gmap K V) :=
  let x := inner m folderID in if decide (x = ∅) then ∅ else {[folderID := x]}.

(** The entry of a folder under every peer that has one. *)
Definition only_entry {V} (folderID : string) (m : gmap string (gmap string V)) : gmap string (gmap string V) :=
  omap (fun folders : gmap string V => match folders !! folderID with Some v => Some {[folderID := v]} | None => None end) m.

Definition copyPeerFolder {K V} `{Countable K} (folderID : string) (m : gmap string (gmap string (gmap K V)))
    : gmap string (gmap string (gmap K V)) :=
  omap (fun folders : gmap string (gmap K V) =>
          let x := inner folders folderID in if decide (x = ∅) then None else Some {[folderID := x]}) m.

Definition snapshotForFolder (src : snapshot) (folderID : string) : snapshot :=
  let l := snap_local src in let p := snap_peer src in let j := snap_jobs src in let g := snap_gate src in
  mkSnapshot
    (mkFolderMeta (only_folder folderID (Folders l)) (only_folder folderID (ManifestHistory l)) (only_folder folderID (Revisions l))
       (only_folder folderID (Tombstones l)) (only_folder folderID (RenameHints l))
       (match Cursors l !! folderID with Some cursor => {[folderID := cursor]} | None => ∅ end))
    (mkPeerMeta (only_entry folderID (PeerStates p)) (copyPeerFolder folderID (PeerFolders p)) (copyPeerFolder folderID (PeerRevisions p))
       (copyPeerFolder folderID (PeerTombstones p)) (copyPeerFolder folderID (PeerRenameHints p)) (only_entry folderID (PeerCursors p))
       (only_entry folderID (PeerApplyCheckpoints p)))
    (match CompactionSnapshots src !! folderID with Some ((_ :: _) as snapshots) => {[folderID := snapshots]} | _ => ∅ end)
    (mkJobMeta (filter (fun e => SnapshotMarker_FolderID e.2 = folderID) (SnapshotMarkers j))
       (omap (fun jobs => match List.filter (fun job => bool_decide (ArchiveIntakeJob_FolderID job = folderID)) jobs with
                          | [] => None | filtered => Some filtered end) (ArchiveIntakeJobs j))
       ∅ ∅ ∅)
    (mkGateMeta (only_folder folderID (PendingWrites g)) (only_folder folderID (SkippedDeletes g)))
    (mkSettingsMeta ∅ ∅).

(** ** The backend *)

Section per_folder.
Context {DB : Type} `{KVStore DB}.

(** The stores by folder. *)
Abbreviation backend := (@badgerSnapshotBackend DB).
Abbreviation perFolder := (gmap string (@badgerSnapshotBackend DB)).

(** [store.load] of one folder. *)
Definition loadChild (store : backend) : result StoreErr snapshot := normalizeLoadedSnapshot <$> Load store.

Fixpoint loadStores (stores : list (string * backend)) (merged : snapshot) : result StoreErr snapshot :=
  match stores with
  | [] => Ok merged
  | (_, store) :: stores' => child ← loadChild store; loadStores stores' (mergeSnapshot merged (normalizeLoadedSnapshot child))
  end.

(** The order in which one loop visits the stores. *)
Definition storeRange : Type := perFolder -> list (string * backend).

Definition LoadPerFolder (range : storeRange) (b : perFolder) : result StoreErr snapshot :=
  normalizeLoadedSnapshot <$> loadStores (range b) snapshot_zero.

(** The stores before the one that fails are saved. *)
Fixpoint saveStores (stores : list (string * backend)) (normalized : snapshot) (b : perFolder) : perFolder * result StoreErr unit :=
  match stores with
  | [] => (b, Ok tt)
  | (folderID, store) :: stores' =>
      match Save store (snapshotForFolder normalized folderID) with
      | (_, Err e) => (b, Err e)
      | (store', Ok _) => saveStores stores' normalized (<[folderID := store']> b)
      end
  end.

Definition SavePerFolder (range : storeRange) (b : perFolder) (snap : snapshot) : perFolder * result StoreErr unit :=
  saveStores (range b) (normalizeLoadedSnapshot snap) b.

Fixpoint collectRefs (read : string -> backend -> result StoreErr (list BlockRef)) (stores : list (string * backend)) (refs : list BlockRef)
    : result StoreErr (list BlockRef) :=
  match stores with
  | [] => Ok refs
  | (folderID, store) :: stores' => matches ← read folderID store; collectRefs read stores' (refs ++ matches)
  end.

Definition FindBlocksPerFolder (range : storeRange) (b : perFolder) (size : Z) (hash : bytes) : result StoreErr (list BlockRef) :=
  sortBlockRefs <$> collectRefs (fun _ store => badger.FindBlocks store size hash) (range b) [].

Definition ListBlockRefsPerFolder (range : storeRange) (b : perFolder) (folderID : string) : result StoreErr (list BlockRef) :=
  if negb (bool_decide (folderID = EmptyString)) then
    match b !! folderID with
    | None => Ok []
    | Some store => sortBlockRefs <$> badger.ListBlockRefs store folderID
    end
  else sortBlockRefs <$> collectRefs (fun currentFolderID store => badger.ListBlockRefs store currentFolderID) (range b) [].

(** *** The methods of [JSONStore] on this backend load, change and save *)

Definition loadPF (range : storeRange) (b : perFolder) : result StoreErr snapshot := normalizeLoadedSnapshot <$> LoadPerFolder range b.

Definition modifyPF (loading saving : storeRange) (b : perFolder) (f : snapshot -> result StoreErr snapshot) : perFolder * result StoreErr unit :=
  match loadPF loading b ≫= f with
  | Ok snap => SavePerFolder saving b snap
  | Err e => (b, Err e)
  end.

Definition checks (folderID : string) (op : folderOp) : result StoreErr unit :=
  match op with
  | OpMove from to _ => _ ← require "folder id" folderID; _ ← require "move paths" from; require "move paths" to
  | _ => Ok tt
  end.

Definition op_pf (loading saving : storeRange) (b : perFolder) (folderID : string) (op : folderOp) : perFolder * result StoreErr unit :=
  match checks folderID op with
  | Err e => (b, Err e)
  | Ok _ => modifyPF loading saving b (fun snap => Ok (with_local (op_snap folderID op (snap_local snap)) snap))
  end.

(** [ImportStoreSnapshot]: the folders and manifests it counted. *)
Definition importCounts (snap : snapshot) : Z * Z :=
  (Z.of_nat (size (Folders (snap_local snap))),
   foldl (fun n e => n + Z.of_nat (size e.2)) 0 (map_to_list (Folders (snap_local snap)))).

Definition importSnapshot (saving : storeRange) (loaded : result StoreErr snapshot) (destination : perFolder) : perFolder * result StoreErr (Z * Z) :=
  match loaded with
  | Err e => (destination, Err e)
  | Ok snap =>
      let snap := normalizeLoadedSnapshot snap in
      match SavePerFolder saving destination snap with
      | (destination', Err e) => (destination', Err e)
      | (destination', Ok _) => (destination', Ok (importCounts snap))
      end
  end.

End per_folder.

(** ** Where the stores are: open.go *)

Definition allowed_char (c : ascii) : bool :=
  let n := N_of_ascii c in
  ((97 <=? n) && (n <=? 122) || (65 <=? n) && (n <=? 90) || (48 <=? n) && (n <=? 57))%N
  || bool_decide (c = "."%char) || bool_decide (c = "-"%char) || bool_decide (c = "_"%char).

(** Every byte of a rune beyond ASCII is outside the alphabet, and a run of them
    becomes one underscore. *)
Fixpoint sanitize (lastUnderscore : bool) (value : string) : string :=
  match value with
  | EmptyString => EmptyString
  | String c value' =>
      if allowed_char c then String c (sanitize false value')
      else if lastUnderscore then sanitize true value'
      else String "_" (sanitize true value')
  end.

Definition SanitizePathSegment (value : string) : string :=
  if bool_decide (value = EmptyString) then "folder"
  else let s := sanitize false value in if bool_decide (s = EmptyString) then "folder" else s.

Definition MetadataBackendJSON : string := "json".
Definition MetadataBackendBadger : string := "badger".

Definition EffectiveBackend (cfg : Config) : string :=
  if bool_decide (MetadataConfig_Backend (Config_Metadata cfg) = EmptyString) then MetadataBackendJSON
  else MetadataConfig_Backend (Config_Metadata cfg).

(** [filepath.Dir]. *)
Definition filepath_Dir (p : string) : string :=
  match removelast (split_on slash p) with
  | [] => "."
  | l => path_clean (join "/" l +:+ "/")
  end.

Definition resolvePathRelativeToConfig (path configPath : string) : string :=
  if has_prefix path "/" then path else path_join (filepath_Dir configPath) path.

Definition DefaultStatePath (configPath : string) : string := configPath +:+ ".state.json".

Definition ConfiguredStorePath (cfg : Config) (configPath : string) : string :=
  let m := Config_Metadata cfg in
  if MetadataConfig_PerFolder m then
    if bool_decide (MetadataConfig_Path m = EmptyString) then configPath +:+ ".state.badger.d"
    else resolvePathRelativeToConfig (MetadataConfig_Path m) configPath
  else if negb (bool_decide (MetadataConfig_Path m = EmptyString)) then resolvePathRelativeToConfig (MetadataConfig_Path m) configPath
  else if bool_decide (MetadataConfig_Backend m = MetadataBackendBadger) then configPath +:+ ".state.badger"
  else DefaultStatePath configPath.

Definition ConfiguredFolderStorePath (cfg : Config) (configPath folderID : string) : string :=
  if MetadataConfig_PerFolder (Config_Metadata cfg)
  then path_join (ConfiguredStorePath cfg configPath) (SanitizePathSegment folderID +:+ ".badger")
  else ConfiguredStorePath cfg configPath.

(** The paths [Open] gives to [NewPerFolderBadgerStore]. *)
Definition storePaths (cfg : Config) (configPath : string) : gmap string string :=
  put_all FolderConfig_ID (fun folder => ConfiguredFolderStorePath cfg configPath (FolderConfig_ID folder)) ∅ (Config_Folders cfg).

(** Whether [Open] accepts the configuration. *)
Definition openable (cfg : Config) : bool :=
  let backend := EffectiveBackend cfg in
  if MetadataConfig_PerFolder (Config_Metadata cfg) then bool_decide (backend = MetadataBackendBadger)
  else bool_decide (backend = MetadataBackendJSON) || bool_decide (backend = MetadataBackendBadger).

Definition CurrentIdentity (cfg : Config) (configPath : string) : string * string := (EffectiveBackend cfg, ConfiguredStorePath cfg configPath).

Definition ReloadNeeded (current : string * string) (next : Config) (configPath : string) : bool :=
  negb (bool_decide (current = CurrentIdentity next configPath)).

(** The store in use after a new configuration; [open] opens one. *)
Definition ReloadStore {S} (open : Config -> string -> result StoreErr (S * string)) (current : string * string) (store : S)
    (next : Config) (configPath : string) : S * string * (string * string) * bool * option StoreErr :=
  if negb (ReloadNeeded current next configPath) then (store, EmptyString, current, false, None)
  else match open next configPath with
       | Err e => (store, EmptyString, current, false, Some e)
       | Ok (next_store, path) => (next_store, path, CurrentIdentity next configPath, true, None)
       end.

(** ** Replacing a store: import.go *)

Section import.
Context {S : Type}.                        (* what lies at a path *)

Record importEnv := mkImportEnv {
  ie_stamp : string;                       (* the time in the name of a backup *)
  ie_statFails : string -> bool;           (* any error but a missing path *)
  ie_renameFails : bool;
  ie_restoreFails : bool                   (* renaming the backup back *)
}.

Inductive ImportErr := ImportStat (p : string) | ImportRename (p : string) | ImportStore (e : StoreErr) | ImportHang.

Context (env : importEnv).

Definition backupCandidate (path : string) (i : nat) : string :=
  let candidate := path +:+ ".backup-" +:+ ie_stamp env in
  match i with O => candidate | _ => candidate +:+ "." +:+ itoa (Z.of_nat i) end.

Fixpoint backupLoop (fuel i : nat) (path : string) (disk : gmap string S) : gmap string S * result ImportErr string :=
  match fuel with
  | O => (disk, Err ImportHang)
  | Datatypes.S fuel' =>
      let candidate := backupCandidate path i in
      if ie_statFails env candidate then (disk, Err (ImportStat candidate))
      else match disk !! candidate with
           | Some _ => backupLoop fuel' (Datatypes.S i) path disk
           | None =>
               if ie_renameFails env then (disk, Err (ImportRename path))
               else match disk !! path with
                    | None => (disk, Err (ImportRename path))
                    | Some x => (<[candidate := x]> (delete path disk), Ok candidate)
                    end
           end
  end.

Definition BackupExistingStore (path : string) (disk : gmap string S) : gmap string S * result ImportErr string :=
  if ie_statFails env path then (disk, Err (ImportStat path))
  else match disk !! path with
       | None => (disk, Ok EmptyString)
       | Some _ => backupLoop (Datatypes.S (size disk)) 0 path disk
       end.

Definition RestoreBackup (path backupPath : string) (disk : gmap string S) : gmap string S :=
  let disk := delete path disk in
  if bool_decide (backupPath = EmptyString) then disk
  else if ie_restoreFails env then disk
  else match disk !! backupPath with
       | None => disk
       | Some x => <[path := x]> (delete backupPath disk)
       end.

(** What follows the checks of both commands: [fill] opens the destination,
    copies the snapshot into it and closes it, and says what then lies at the
    path. *)
Definition replaceStore (fill : option S * result StoreErr (Z * Z)) (path : string) (disk : gmap string S)
    : gmap string S * result ImportErr (string * (Z * Z)) :=
  match BackupExistingStore path disk with
  | (disk, Err e) => (disk, Err e)
  | (disk, Ok backupPath) =>
      let filled := match fill.1 with Some x => <[path := x]> disk | None => disk end in
      match fill.2 with
      | Err e => (RestoreBackup path backupPath filled, Err (ImportStore e))
      | Ok counts => (filled, Ok (backupPath, counts))
      end
  end.

End import.

(** ** Records of parts and of merged snapshots *)

(** The folder a record belongs to. *)
Definition record_folder (k : dbkey) (d : Doc) : option string :=
  match k with
  | KManifest f _ | KHistory f _ _ | KRevision f _ | KTombstone f _ | KRename f _ | KCursor f => Some f
  | KPeerState _ f | KPeerManifest _ f _ | KPeerRevision _ f _ | KPeerTombstone _ f _ | KPeerRename _ f _
  | KPeerCursor _ f | KPeerCheckpoint _ f => Some f
  | KPendingWrite f _ | KSkippedDelete f _ => Some f
  | KMarker _ => match d with DocMarker m => Some (SnapshotMarker_FolderID m) | _ => None end
  | _ => None
  end.

(** The record, if it belongs to one of the folders. *)
Definition kept (D : gset string) (X : snapshot) (k : dbkey) : option Doc :=
  d ← record X k; f ← record_folder k d; if decide (f ∈ D) then Some d else None.

Lemma inner_only_folder {K V} `{Countable K} f (m : gmap string (gmap K V)) g :
  inner (only_folder f m) g = if decide (g = f) then inner m f else ∅.
Proof.
  unfold only_folder. cbv zeta. destruct (decide (inner m f = ∅)) as [He|He].
  - unfold inner at 1. rewrite lookup_empty. by case_decide.
  - unfold inner at 1. rewrite lookup_singleton. repeat case_decide; congruence || done.
Qed.

Lemma inner_only_entry {V} f (m : gmap string (gmap string V)) q g :
  inner (only_entry f m) q !! g = if decide (g = f) then inner m q !! f else None.
Proof.
  unfold only_entry, inner. rewrite lookup_omap. destruct (m !! q) as [fs|]; cbn; [|case_decide; by rewrite !lookup_empty].
  destruct (fs !! f) as [v|]; cbn; [|case_decide; by rewrite lookup_empty].
  rewrite lookup_singleton. repeat case_decide; congruence || done.
Qed.

Lemma inner_copyPeerFolder {K V} `{Countable K} f (m : gmap string (gmap string (gmap K V))) q g :
  inner (inner (copyPeerFolder f m) q) g = if decide (g = f) then inner (inner m q) f else ∅.
Proof.
  assert (inner (copyPeerFolder f m) q = if decide (inner (inner m q) f = ∅) then ∅ else {[f := inner (inner m q) f]}) as ->.
  { unfold copyPeerFolder. unfold inner at 1. rewrite lookup_omap.
    change (inner m q) with (default ∅ (m !! q)). destruct (m !! q) as [fs|]; cbn; [by case_decide|].
    rewrite decide_True; [done|]. unfold inner. by rewrite lookup_empty. }
  destruct (decide (inner (inner m q) f = ∅)) as [He|He].
  - rewrite He. unfold inner. rewrite lookup_empty. by case_decide.
  - unfold inner at 1. rewrite lookup_singleton. repeat case_decide; congruence || done.
Qed.

Lemma inner_merge2 {V} (d s : gmap string (gmap string V)) x : inner (merge2 d s) x = inner s x ∪ inner d x.
Proof.
  unfold merge2, inner. rewrite lookup_union_with. destruct (d !! x), (s !! x); cbn; rewrite ?(left_id_L ∅ (∪)), ?(right_id_L ∅ (∪)); done.
Qed.

Lemma kept_const D X k g : (forall d, record_folder k d = Some g) -> kept D X k = if decide (g ∈ D) then record X k else None.
Proof. intros Hg. unfold kept. destruct (record X k) as [d|]; cbn; [rewrite Hg; cbn; by case_decide|by case_decide]. Qed.

Lemma kept_none D X k : (forall d, record_folder k d = None) -> kept D X k = None.
Proof. intros Hg. unfold kept. destruct (record X k) as [d|]; cbn; [by rewrite Hg|done]. Qed.

Lemma kept_one f X k g : (forall d, record_folder k d = Some g) -> kept {[f]} X k = if decide (g = f) then record X k else None.
Proof. intros Hg. rewrite (kept_const _ _ _ g Hg). repeat case_decide; try done; set_solver. Qed.

(** The fields of a part and of a merged snapshot. *)
Ltac part_fields :=
  unfold mergeSnapshot, mergeManifestHistory, mergeFolderUintMaps, mergeRenameHints, mergePeerStates, mergePeerFolders, mergePeerUintMaps,
    mergePeerRenameHints;
  cbn [record snapshotForFolder mergeSnapshot mergeManifestHistory mergeFolderUintMaps mergeRenameHints mergePeerStates mergePeerFolders
    mergePeerUintMaps mergePeerRenameHints snap_local snap_peer snap_jobs snap_gate snap_settings CompactionSnapshots
    Folders ManifestHistory Revisions Tombstones RenameHints Cursors PeerStates PeerFolders PeerRevisions PeerTombstones PeerRenameHints
    PeerCursors PeerApplyCheckpoints SnapshotMarkers ArchiveIntakeJobs BackupRestoreJobs BackupRetentionJobs BackupRepairJobs PendingWrites
    SkippedDeletes NodeSettings PendingSettings].

Lemma inner_none {K V} `{Countable K} (x : string) (k : K) : inner (∅ : gmap string (gmap K V)) x !! k = None.
Proof. unfold inner. rewrite lookup_empty. apply lookup_empty. Qed.

Lemma record_part X f k : plain k = true -> record (snapshotForFolder X f) k = kept {[f]} X k.
Proof.
  intros Hp. destruct k as [| | | | |g| | | | | | | | |id| | | | | | | | |]; try discriminate Hp.
  all: try (rewrite kept_none by done; part_fields; by rewrite ?lookup_empty, ?inner_none).
  all: try (erewrite kept_one by done; part_fields; rewrite ?inner_only_folder, ?inner_copyPeerFolder, ?inner_only_entry).
  all: try (case_decide; [by subst|by rewrite ?inner_none, ?lookup_empty]; fail).
  - destruct (Cursors (snap_local X) !! f) as [c|] eqn:E; rewrite ?lookup_singleton, ?lookup_empty; repeat case_decide; try done; subst; by rewrite ?E.
  - unfold kept. part_fields. rewrite map_lookup_filter. destruct (SnapshotMarkers (snap_jobs X) !! id) as [m|]; cbn; [|done].
    unfold guard. repeat case_decide; try set_solver; done.
Qed.

(** ** Slices: what is kept of a snapshot for some folders *)

Record slice (D : gset string) (X s : snapshot) : Prop := {
  sl_record k : plain k = true -> record s k = kept D X k;
  sl_full : history_full s;
  sl_archive n : archive_of s n ≡ₚ filter (fun j => ArchiveIntakeJob_FolderID j ∈ D) (archive_of X n);
  sl_compactions f : compactions_of s f ≡ₚ if decide (f ∈ D) then compactions_of X f else []
}.

(** What the entries of a folder's own database do not contain. *)
Record tidy (f : string) (s : snapshot) : Prop := {
  td_folders q g : g <> f -> inner (PeerFolders (snap_peer s)) q !! g = None;
  td_revisions q g : g <> f -> inner (PeerRevisions (snap_peer s)) q !! g = None;
  td_tombstones q g : g <> f -> inner (PeerTombstones (snap_peer s)) q !! g = None;
  td_hints q g : g <> f -> inner (PeerRenameHints (snap_peer s)) q !! g = None;
  td_archive n : ArchiveIntakeJobs (snap_jobs s) !! n <> Some [];
  td_compactions g : CompactionSnapshots s !! g <> Some []
}.

(** The jobs of a snapshot are of one folder. *)
Definition one_folder (X : snapshot) : Prop := forall n, exists f, Forall (fun j => ArchiveIntakeJob_FolderID j = f) (archive_of X n).

Lemma kept_union D D' X k : kept (D ∪ D') X k = match kept D X k with Some d => Some d | None => kept D' X k end.
Proof.
  unfold kept. destruct (record X k) as [d|]; cbn; [|done]. destruct (record_folder k d) as [f|]; cbn; [|done].
  repeat case_decide; set_solver.
Qed.

Lemma filter_nil_all {A} (P : A -> Prop) `{forall x, Decision (P x)} (l : list A) : (forall x, x ∈ l -> ~ P x) -> filter P l = [].
Proof.
  intros Hl. destruct (filter P l) as [|x l'] eqn:E; [done|]. assert (x ∈ x :: l') as Hx by left. rewrite <- E in Hx.
  apply list_elem_of_filter in Hx as [HP Hx]. by destruct (Hl x Hx).
Qed.

Lemma slice_zero X : slice ∅ X snapshot_zero.
Proof.
  split.
  - intros k Hp. assert (kept ∅ X k = None) as ->.
    { unfold kept. destruct (record X k); cbn; [|done]. destruct (record_folder _ _); cbn; [|done]. by rewrite decide_False by set_solver. }
    destruct k; try discriminate Hp; cbn; unfold inner; rewrite ?lookup_empty; cbn; by rewrite ?lookup_empty.
  - intros f p h. cbn. unfold inner. by rewrite lookup_empty.
  - intros n. change (archive_of snapshot_zero n) with (default [] ((∅ : gmap string (list ArchiveIntakeJob)) !! n)). rewrite lookup_empty. cbn.
    rewrite filter_nil_all; [done|]. intros j _. apply not_elem_of_empty.
  - intros f. rewrite decide_False by set_solver. change (compactions_of snapshot_zero f) with (default [] ((∅ : gmap string (list MetadataCompactionSnapshot)) !! f)).
    by rewrite lookup_empty.
Qed.

Lemma list_filter_bool {A} (P : A -> Prop) `{forall x, Decision (P x)} (l : list A) : List.filter (fun x => bool_decide (P x)) l = filter P l.
Proof. induction l as [|x l IH]; [done|]. cbn. rewrite IH. unfold filter at 3. cbn. case_bool_decide; case_decide; done. Qed.

Lemma filter_elem_ext {A} (P Q : A -> Prop) `{forall x, Decision (P x), forall x, Decision (Q x)} (l : list A) :
  (forall x, x ∈ l -> P x <-> Q x) -> filter P l = filter Q l.
Proof.
  induction l as [|x l IH]; intros Hl; [done|]. rewrite !filter_cons. rewrite IH by (intros y Hy; apply Hl; by right).
  specialize (Hl x ltac:(by left)). repeat case_decide; tauto.
Qed.

Lemma slice_part X f : history_full X -> slice {[f]} X (snapshotForFolder X f).
Proof.
  intros Hf. split.
  - intros k. apply record_part.
  - intros g p h. part_fields. rewrite inner_only_folder. case_decide; [apply Hf|]. by rewrite lookup_empty.
  - intros n. unfold archive_of. part_fields. rewrite lookup_omap. destruct (ArchiveIntakeJobs (snap_jobs X) !! n) as [jobs|]; cbn; [|done].
    rewrite list_filter_bool. trans (filter (fun j => ArchiveIntakeJob_FolderID j = f) jobs); [by destruct (filter _ _)|].
    apply reflexive_eq, filter_elem_ext. intros j _. by rewrite elem_of_singleton.
  - intros g. unfold compactions_of. part_fields. destruct (decide (g ∈ {[f]})) as [->%elem_of_singleton|Hg%not_elem_of_singleton].
    + by destruct (CompactionSnapshots X !! f) as [[|c l]|]; rewrite ?lookup_singleton_eq, ?lookup_empty.
    + destruct (CompactionSnapshots X !! f) as [[|c l]|]; by rewrite ?lookup_singleton_ne, ?lookup_empty by done.
Qed.

(** *** Merging slices *)

Lemma lookup_merge2 {V} (d s : gmap string (gmap string V)) x y :
  inner (merge2 d s) x !! y = match inner s x !! y with Some v => Some v | None => inner d x !! y end.
Proof. rewrite inner_merge2, lookup_union. by destruct (inner s x !! y), (inner d x !! y). Qed.

Lemma inner2_merge2 {K V} `{Countable K} (d s : gmap string (gmap string (gmap K V))) x y :
  inner (inner (merge2 d s) x) y = match inner s x !! y with Some m => m | None => inner (inner d x) y end.
Proof.
  change (inner (inner (merge2 d s) x) y) with (default ∅ (inner (merge2 d s) x !! y)). rewrite lookup_merge2.
  by destruct (inner s x !! y).
Qed.

(** An entry the source replaces as a whole, where the destination has none. *)
Lemma lookup3_merge2 {V} (f : string) (d s : gmap string (gmap string (gmap string V))) q g rel :
  (g <> f -> inner s q !! g = None) -> (g = f -> inner (inner d q) g !! rel = None) ->
  inner (inner (merge2 d s) q) g !! rel = match inner (inner s q) g !! rel with Some v => Some v | None => inner (inner d q) g !! rel end.
Proof.
  intros Hs Hd. rewrite inner2_merge2. change (inner (inner s q) g) with (default ∅ (inner s q !! g)).
  destruct (decide (g = f)) as [->|Hg].
  - rewrite Hd by done. destruct (inner s q !! f) as [m|]; cbn; [by destruct (m !! rel)|by rewrite lookup_empty, Hd].
  - rewrite Hs by done. cbn. by rewrite lookup_empty.
Qed.

Lemma kept_other D X k f : (forall d, record_folder k d = Some f) -> f ∉ D -> kept D X k = None.
Proof. intros Hf Hd. rewrite (kept_const _ _ _ f Hf). by rewrite decide_False. Qed.

Section merge.
Context (D : gset string) (f : string) (X a b : snapshot).
Context (Hf : f ∉ D) (Ha : slice D X a) (Hb : slice {[f]} X b) (Ht : tidy f b) (Hone : one_folder X).

Lemma merge_none k : (forall d, record_folder k d = Some f) -> plain k = true -> record a k = None.
Proof. intros Hk Hp. rewrite (sl_record _ _ _ Ha k Hp). by eapply kept_other. Qed.

Lemma merge_nothing {A} (doc : A -> Doc) (o : option A) : doc <$> o = None -> o = None.
Proof. by destruct o. Qed.

Lemma merge_record k : plain k = true -> record (mergeSnapshot a b) k = kept ({[f]} ∪ D) X k.
Proof.
  intros Hp. rewrite kept_union, <- (sl_record _ _ _ Ha k Hp), <- (sl_record _ _ _ Hb k Hp).
  destruct k as [|g p r| | | |g| |q g rel|q g rel|q g rel|q g from| | | |id| | | | | | |n|t id|]; try discriminate Hp.
  all: try (part_fields; rewrite lookup_merge2; destruct (inner _ _ !! _); reflexivity).
  all: try (part_fields; rewrite lookup_union; match goal with |- context [union ?x ?y] => destruct x, y end; reflexivity).
  all: try (assert (record b _ = None) as -> by (rewrite (sl_record _ _ _ Hb) by done; by apply kept_none); reflexivity).
  - (* history *)
    part_fields. rewrite inner2_merge2. change (inner (inner (ManifestHistory (snap_local b)) g) p) with (default ∅ (inner (ManifestHistory (snap_local b)) g !! p)).
    destruct (inner (ManifestHistory (snap_local b)) g !! p) as [h|] eqn:E; cbn [default]; [|by rewrite lookup_empty].
    change (id h !! r) with (h !! r). destruct (h !! r) as [m|] eqn:Er; [done|]. cbn. assert (g = f) as ->.
    { pose proof (sl_full _ _ _ Hb g p h E) as Hne. apply map_choose in Hne as (r' & m & Hm).
      pose proof (sl_record _ _ _ Hb (KHistory g p r') eq_refl) as Hrec. rewrite (kept_one f X _ g) in Hrec by done. case_decide; [done|].
      cbn in Hrec. unfold inner at 1 in Hrec. rewrite E in Hrec. cbn in Hrec. rewrite Hm in Hrec. discriminate Hrec. }
    symmetry. exact (merge_none (KHistory f p r) (fun _ => eq_refl) eq_refl).
  - part_fields. rewrite (lookup3_merge2 f); [by destruct (inner (inner _ q) g !! rel)|apply (td_folders _ _ Ht)|intros ->].
    exact (merge_nothing DocManifest _ (merge_none (KPeerManifest q f rel) (fun _ => eq_refl) eq_refl)).
  - part_fields. rewrite (lookup3_merge2 f); [by destruct (inner (inner _ q) g !! rel)|apply (td_revisions _ _ Ht)|intros ->].
    exact (merge_nothing DocUint _ (merge_none (KPeerRevision q f rel) (fun _ => eq_refl) eq_refl)).
  - part_fields. rewrite (lookup3_merge2 f); [by destruct (inner (inner _ q) g !! rel)|apply (td_tombstones _ _ Ht)|intros ->].
    exact (merge_nothing DocUint _ (merge_none (KPeerTombstone q f rel) (fun _ => eq_refl) eq_refl)).
  - part_fields. rewrite (lookup3_merge2 f); [by destruct (inner (inner _ q) g !! from)|apply (td_hints _ _ Ht)|intros ->].
    exact (merge_nothing DocHint _ (merge_none (KPeerRename q f from) (fun _ => eq_refl) eq_refl)).
Qed.

Lemma merge_full : history_full (mergeSnapshot a b).
Proof.
  intros g p h. part_fields. rewrite lookup_merge2. destruct (inner (ManifestHistory (snap_local b)) g !! p) as [h'|] eqn:E.
  - intros [= <-]. by apply (sl_full _ _ _ Hb g p).
  - apply (sl_full _ _ _ Ha).
Qed.

Lemma merge_archive n : archive_of (mergeSnapshot a b) n ≡ₚ filter (fun j => ArchiveIntakeJob_FolderID j ∈ {[f]} ∪ D) (archive_of X n).
Proof.
  pose proof (sl_archive _ _ _ Hb n) as Hb'. pose proof (sl_archive _ _ _ Ha n) as Ha'. destruct (Hone n) as (g & Hg). rewrite Forall_forall in Hg.
  unfold archive_of at 1 in Hb'. unfold archive_of at 1. part_fields. rewrite lookup_union.
  destruct (ArchiveIntakeJobs (snap_jobs b) !! n) as [[|j l]|] eqn:E; [by apply (td_archive _ _ Ht) in E| |]; cbn [default] in Hb'.
  - trans (j :: l); [by destruct (ArchiveIntakeJobs (snap_jobs a) !! n)|]. change (id (j :: l)) with (j :: l) in Hb'. rewrite Hb'.
    apply reflexive_eq, filter_elem_ext. intros x Hx. assert (g = f) as ->.
    { assert (j ∈ j :: l) as Hj by left. rewrite Hb' in Hj. apply list_elem_of_filter in Hj as [Hj1%elem_of_singleton Hj2]. by rewrite <- (Hg j Hj2). }
    rewrite (Hg x Hx). set_solver.
  - trans (archive_of a n); [unfold archive_of; by destruct (ArchiveIntakeJobs (snap_jobs a) !! n)|]. rewrite Ha'.
    apply reflexive_eq, filter_elem_ext. intros x Hx. assert (ArchiveIntakeJob_FolderID x <> f).
    { intros Hxf. apply Permutation_nil in Hb'. assert (x ∈ filter (fun j => ArchiveIntakeJob_FolderID j ∈ ({[f]} : gset string)) (archive_of X n)) as Hin.
      { apply list_elem_of_filter. split; [by apply elem_of_singleton|done]. }
      rewrite Hb' in Hin. by apply elem_of_nil in Hin. }
    set_solver.
Qed.

Lemma merge_compactions g : compactions_of (mergeSnapshot a b) g ≡ₚ if decide (g ∈ {[f]} ∪ D) then compactions_of X g else [].
Proof.
  pose proof (sl_compactions _ _ _ Hb g) as Hb'. pose proof (sl_compactions _ _ _ Ha g) as Ha'.
  assert (compactions_of (mergeSnapshot a b) g = default (compactions_of a g) (CompactionSnapshots b !! g)) as ->.
  { unfold compactions_of. part_fields. rewrite lookup_union. by destruct (CompactionSnapshots b !! g), (CompactionSnapshots a !! g). }
  unfold compactions_of at 1 in Hb'. destruct (CompactionSnapshots b !! g) as [[|c l]|] eqn:E; [by apply (td_compactions _ _ Ht) in E| |].
  - change (c :: l ≡ₚ if decide (g ∈ ({[f]} : gset string)) then compactions_of X g else []) in Hb'. change (default (compactions_of a g) (Some (c :: l))) with (c :: l).
    destruct (decide (g ∈ ({[f]} : gset string))) as [Hg|Hg].
    + rewrite decide_True; [done|]. apply elem_of_union. by left.
    + symmetry in Hb'. by apply Permutation_nil_cons in Hb'.
  - change ([] ≡ₚ if decide (g ∈ ({[f]} : gset string)) then compactions_of X g else []) in Hb'. change (default (compactions_of a g) None) with (compactions_of a g).
    rewrite Ha'. destruct (decide (g ∈ D)) as [Hg|Hg].
    + rewrite decide_True; [done|]. apply elem_of_union. by right.
    + destruct (decide (g ∈ ({[f]} : gset string))) as [Hg'|Hg'].
      * rewrite decide_True; [done|]. apply elem_of_union. by left.
      * rewrite decide_False; [done|]. by intros [?|?]%elem_of_union.
Qed.

Lemma slice_merge : slice ({[f]} ∪ D) X (mergeSnapshot a b).
Proof. split; [apply merge_record|apply merge_full|apply merge_archive|apply merge_compactions]. Qed.

End merge.

(** *** Loading the database of a folder *)

Lemma inner_ensure2_ne {V} `{Empty V} q f (m : gmap string (gmap string V)) q' g : g <> f -> inner (ensure2 q f m) q' !! g = inner m q' !! g.
Proof.
  intros Hg. unfold ensure2. destruct (decide (q = q')) as [->|Hq]; [|by rewrite inner_insert_ne].
  rewrite inner_insert_eq. unfold ensure. destruct (inner m q' !! f); [done|]. by rewrite lookup_insert_ne.
Qed.

Lemma inner_put3_ne {K V} `{Countable K} q f (x : K) (v : V) (m : gmap string (gmap string (gmap K V))) q' g :
  g <> f -> inner (put3 q f x v m) q' !! g = inner m q' !! g.
Proof.
  intros Hg. unfold put3. destruct (decide (q = q')) as [->|Hq]; [|by rewrite inner_put2_ne].
  rewrite inner_put2_eq. by rewrite lookup_insert_ne.
Qed.

Lemma put_entry_nonempty {A} (m : gmap string (list A)) (n : string) (x : A) :
  (forall n', m !! n' <> Some []) -> forall n', <[n := default [] (m !! n) ++ [x]]> m !! n' <> Some [].
Proof.
  intros Hm n'. rewrite lookup_insert. case_decide; [|apply Hm]. intros [= He]. by destruct (default [] (m !! n)).
Qed.

Section loading.
Context {DB : Type} `{KVLaws DB}.

Lemma load_tidy f snap k d : doc_ok k d -> (forall g, record_folder k d = Some g -> g = f) -> tidy f snap ->
  exists snap', badgerLoadKeyValue snap (key_string k) d = Ok snap' /\ tidy f snap'.
Proof.
  intros Hok Hg Ht. unfold badgerLoadKeyValue. rewrite key_fields_string.
  destruct k; destruct d; cbn [doc_ok] in Hok; try done; cbn [key_parts hd];
    cbn [List.find loaders String.eqb Ascii.eqb Bool.eqb fst snd]; run_loader.
  all: try rewrite ParseUint_itoa by done; cbn [mbind result_bind option_bind valid_key].
  all: repeat (rewrite bool_decide_eq_false_2 by tauto); cbn [orb fail_if mbind result_bind].
  all: eexists; split; [reflexivity|]; try (specialize (Hg _ eq_refl)); try subst.
  all: try (split; snapshot_fields; apply Ht).
  all: try (split; snapshot_fields; intros; rewrite ?inner_put3_ne, ?inner_ensure2_ne by done; by apply Ht).
  - split; snapshot_fields; try apply Ht. apply put_entry_nonempty, Ht.
  - split; snapshot_fields; try apply Ht. apply put_entry_nonempty, Ht.
Qed.

Lemma tidy_zero f : tidy f snapshot_zero.
Proof. split; intros; cbn; unfold inner; rewrite ?lookup_empty; cbn; by rewrite ?lookup_empty. Qed.

Lemma load_items_tidy f l snap : (forall k d, (k, d) ∈ l -> doc_ok k d /\ forall g, record_folder k d = Some g -> g = f) -> tidy f snap ->
  exists snap', load_items (prod_map key_string id <$> l) snap = Ok snap' /\ tidy f snap'.
Proof.
  induction l as [|[k d] l IH] using rev_ind; intros Hl Ht; [by exists snap|].
  destruct IH as (snap1 & E1 & Ht1); [intros; apply Hl; set_solver|done|].
  destruct (Hl k d) as [Hok Hg]; [set_solver|]. destruct (load_tidy f snap1 k d Hok Hg Ht1) as (snap2 & E2 & Ht2).
  exists snap2. split; [|done]. unfold load_items in *. rewrite fmap_app, foldl_app, E1. exact E2.
Qed.

Lemma readSnapshot_tidy f (db : DB) snap : db_wf db -> (forall k d g, get db k = Some d -> record_folder k d = Some g -> g = f) ->
  readSnapshot db = Ok snap -> tidy f snap.
Proof.
  intros W Hg. destruct (scan_records db W) as (l & Hs & Hnd & Hin & Hok & _). unfold readSnapshot. rewrite Hs.
  destruct (load_items_tidy f l snapshot_zero) as (snap' & E & Ht); [|apply tidy_zero|].
  { intros k d Hd. split; [by apply Hok|]. intros g. by apply (Hg k d g), Hin. }
  destruct l as [|e l].
  - cbn. unfold get_doc. rewrite (wf_migrated _ W). intros [= <-]. apply tidy_zero.
  - cbn [fmap list_fmap]. cbn [fmap list_fmap] in E. rewrite E. by intros [= <-].
Qed.

(** *** Normalisation changes nothing that is loadable *)

Lemma local_folder k : is_local k = true -> exists f, forall d, record_folder k d = Some f.
Proof. intros Hk. destruct k; try discriminate Hk; by eexists. Qed.

Lemma view_record snap snap' k f : (forall d, record_folder k d = Some f) -> is_local k = true ->
  view (snap_local snap) f = view (snap_local snap') f -> Cursors (snap_local snap) !! f = Cursors (snap_local snap') !! f ->
  record snap k = record snap' k.
Proof.
  intros Hf Hk Hv Hc. specialize (Hf DocBad). destruct k as [g p|g p r|g p|g p|g p|g| | | | | | | | | | | | | | | | | |]; try discriminate Hk;
    injection Hf as ->; cbn [record]; f_equal.
  - exact (f_equal (fun v => files v !! p) Hv).
  - exact (f_equal (fun v => inner (history v) p !! r) Hv).
  - exact (f_equal (fun v => revs v !! p) Hv).
  - exact (f_equal (fun v => tombs v !! p) Hv).
  - exact (f_equal (fun v => hints v !! p) Hv).
  - exact Hc.
Qed.

Lemma normalized_record s k : loadable_meta (snap_local s) -> plain k = true -> record (normalizeLoadedSnapshot s) k = record s k.
Proof.
  intros Hl Hp. destruct (is_local k) eqn:Hk; [|by destruct k]. destruct (local_folder k Hk) as (f & Hf).
  apply (view_record _ _ k f); [done|done|by apply normalizeSnapshot_id|]. cbn. by rewrite normalizeSnapshot_Cursors.
Qed.

Lemma normalized_loadable s : loadable_meta (snap_local s) -> loadable_meta (snap_local (normalizeLoadedSnapshot s)).
Proof. intros Hl f. cbn. rewrite (normalizeSnapshot_id _ Hl f). apply Hl. Qed.

Lemma normalized_slice D X s : loadable_meta (snap_local s) -> slice D X s -> slice D X (normalizeLoadedSnapshot s).
Proof.
  intros Hl [Hr Hf Ha Hc]. split; [|intros f p h|apply Ha|apply Hc].
  - intros k Hp. by rewrite normalized_record, Hr.
  - pose proof (f_equal history (normalizeSnapshot_id _ Hl f)) as E. cbn [view history] in E. cbn [normalizeLoadedSnapshot with_local snap_local].
    rewrite E. apply Hf.
Qed.

Lemma normalized_tidy f s : tidy f s -> tidy f (normalizeLoadedSnapshot s).
Proof. intros []. by split. Qed.

End loading.

(** ** Saving and loading *)

(** The state of a folder in a slice. *)
Lemma slice_view D X s f : history_full X -> slice D X s ->
  view (snap_local s) f = if decide (f ∈ D) then view (snap_local X) f else folder_empty.
Proof.
  intros HX [Hr Hf _ _]. assert (forall k, is_local k = true -> record s k = kept D X k) as Hr' by (intros k Hk; apply Hr; by destruct k).
  case_decide as HD.
  - assert (forall k, is_local k = true -> record_folder k DocBad = Some f -> record s k = record X k) as Hk.
    { intros k Hl Hk. rewrite Hr' by done. rewrite (kept_const _ _ _ f); [by rewrite decide_True|]. intros d. by destruct k. }
    unfold view. f_equal.
    + apply map_eq. intros p. apply (badger.inj_fmap_Some DocManifest); [by intros ? ? [=]|]. by apply (Hk (KManifest f p)).
    + apply same_history_maps; [apply Hf|apply HX|]. intros p r. apply (badger.inj_fmap_Some DocManifest); [by intros ? ? [=]|]. by apply (Hk (KHistory f p r)).
    + apply map_eq. intros p. apply (badger.inj_fmap_Some DocUint); [by intros ? ? [=]|]. by apply (Hk (KRevision f p)).
    + apply map_eq. intros p. apply (badger.inj_fmap_Some DocUint); [by intros ? ? [=]|]. by apply (Hk (KTombstone f p)).
    + apply map_eq. intros p. apply (badger.inj_fmap_Some DocHint); [by intros ? ? [=]|]. by apply (Hk (KRename f p)).
    + unfold num. f_equal. apply (badger.inj_fmap_Some DocUint); [by intros ? ? [=]|]. by apply (Hk (KCursor f)).
  - assert (forall k, is_local k = true -> record_folder k DocBad = Some f -> record s k = None) as Hk.
    { intros k Hl Hk. rewrite Hr' by done. rewrite (kept_const _ _ _ f); [by rewrite decide_False|]. intros d. by destruct k. }
    unfold view, folder_empty. f_equal.
    + apply map_eq. intros p. rewrite lookup_empty. exact (merge_nothing DocManifest _ (Hk (KManifest f p) eq_refl eq_refl)).
    + apply map_eq. intros p. rewrite lookup_empty. destruct (inner (ManifestHistory (snap_local s)) f !! p) as [h|] eqn:E; [|done]. exfalso.
      pose proof (Hf f p h E) as Hne. apply map_choose in Hne as (r & m & Hm).
      pose proof (Hk (KHistory f p r) eq_refl eq_refl) as Hn. cbn in Hn. unfold inner at 1 in Hn. rewrite E in Hn. cbn in Hn. rewrite Hm in Hn. discriminate Hn.
    + apply map_eq. intros p. rewrite lookup_empty. exact (merge_nothing DocUint _ (Hk (KRevision f p) eq_refl eq_refl)).
    + apply map_eq. intros p. rewrite lookup_empty. exact (merge_nothing DocUint _ (Hk (KTombstone f p) eq_refl eq_refl)).
    + apply map_eq. intros p. rewrite lookup_empty. exact (merge_nothing DocHint _ (Hk (KRename f p) eq_refl eq_refl)).
    + unfold num. by rewrite (merge_nothing DocUint _ (Hk (KCursor f) eq_refl eq_refl)).
Qed.

Lemma slice_loadable D X s : history_full X -> loadable_meta (snap_local X) -> slice D X s -> loadable_meta (snap_local s).
Proof.
  intros HX Hl Hs f. rewrite (slice_view D X s f HX Hs). case_decide; [apply Hl|]. apply wf_loadable, wf_empty.
Qed.

(** *** The snapshots the store keeps *)

Lemma slice_known D X s k d : slice D X s -> plain k = true -> record s k = Some d -> record X k = Some d.
Proof.
  intros Hs Hp. rewrite (sl_record _ _ _ Hs k Hp). unfold kept. destruct (record X k) as [d'|]; cbn; [|done].
  destruct (record_folder k d'); cbn; [|done]. by case_decide.
Qed.

(** A snapshot with some of the records of a well-formed one. *)
Lemma keyed_known X s : keyed_snapshot X -> (forall k d, plain k = true -> record s k = Some d -> record X k = Some d) ->
  history_full s -> (forall n, NoDup (ArchiveIntakeJob_ID <$> archive_of s n)) -> keyed_snapshot s.
Proof.
  intros K Hk Hf Ha.
  split; [intros f p r m Hm|done|intros id m Hm|intros id m Hm|intros id m Hm|intros id m Hm|done|intros n d Hm|intros t id m Hm].
  - specialize (Hk (KHistory f p r) (DocManifest m) eq_refl). cbn [record] in Hk. rewrite Hm in Hk. specialize (Hk eq_refl).
    apply fmap_Some in Hk as (m' & Hm' & _). by eapply (keyed_history _ K).
  - specialize (Hk (KMarker id) (DocMarker m) eq_refl). cbn [record] in Hk. rewrite Hm in Hk. specialize (Hk eq_refl).
    apply fmap_Some in Hk as (m' & Hm' & [= ->]). by eapply (keyed_marker _ K).
  - specialize (Hk (KRestore id) (DocRestore m) eq_refl). cbn [record] in Hk. rewrite Hm in Hk. specialize (Hk eq_refl).
    apply fmap_Some in Hk as (m' & Hm' & [= ->]). by eapply (keyed_restore _ K).
  - specialize (Hk (KRetention id) (DocRetention m) eq_refl). cbn [record] in Hk. rewrite Hm in Hk. specialize (Hk eq_refl).
    apply fmap_Some in Hk as (m' & Hm' & [= ->]). by eapply (keyed_retention _ K).
  - specialize (Hk (KRepair id) (DocRepair m) eq_refl). cbn [record] in Hk. rewrite Hm in Hk. specialize (Hk eq_refl).
    apply fmap_Some in Hk as (m' & Hm' & [= ->]). by eapply (keyed_repair _ K).
  - specialize (Hk (KNodeSettings n) (DocSettings d) eq_refl). cbn [record] in Hk. rewrite Hm in Hk. specialize (Hk eq_refl).
    apply fmap_Some in Hk as (m' & Hm' & [= ->]). by eapply (keyed_document _ K).
  - specialize (Hk (KPendingSettings t id) (DocChange m) eq_refl). cbn [record] in Hk. rewrite Hm in Hk. specialize (Hk eq_refl).
    apply fmap_Some in Hk as (m' & Hm' & [= ->]). by eapply (keyed_change _ K).
Qed.

Lemma keyed_slice D X s : keyed_snapshot X -> slice D X s -> keyed_snapshot s.
Proof.
  intros K Hs. apply (keyed_known X); [done|intros; by eapply slice_known|apply Hs|].
  intros n. rewrite (sl_archive _ _ _ Hs n). eapply sublist_NoDup; [apply (keyed_archive _ K n)|]. apply fmap_sublist, sublist_filter.
Qed.

Lemma one_folder_slice D X s : one_folder X -> slice D X s -> one_folder s.
Proof.
  intros H1 Hs n. destruct (H1 n) as (f & Hf). exists f. rewrite Forall_forall in Hf |- *. intros j Hj.
  rewrite (sl_archive _ _ _ Hs n) in Hj. apply list_elem_of_filter in Hj as [_ Hj]. by apply Hf.
Qed.

(** Two snapshots with the same part for a folder. *)
Record same_part (g : string) (X Y : snapshot) : Prop := {
  sp_record k : plain k = true -> kept {[g]} X k = kept {[g]} Y k;
  sp_archive n : filter (fun j => ArchiveIntakeJob_FolderID j ∈ ({[g]} : gset string)) (archive_of X n)
                 ≡ₚ filter (fun j => ArchiveIntakeJob_FolderID j ∈ ({[g]} : gset string)) (archive_of Y n);
  sp_compactions : compactions_of X g ≡ₚ compactions_of Y g
}.

#[export] Instance same_part_equiv g : Equivalence (same_part g).
Proof.
  split.
  - by split.
  - intros X Y [H1 H2 H3]. split; intros; symmetry; auto.
  - intros X Y Z [H1 H2 H3] [G1 G2 G3]. split; intros; [rewrite H1 by done; auto|by rewrite H2|by rewrite H3].
Qed.

Lemma slice_same_part g X Y s : same_part g X Y -> slice {[g]} X s -> slice {[g]} Y s.
Proof.
  intros Hp Hs. split; [|apply Hs| |].
  - intros k Hk. rewrite (sl_record _ _ _ Hs k Hk). by apply Hp.
  - intros n. rewrite (sl_archive _ _ _ Hs n). apply Hp.
  - intros f. rewrite (sl_compactions _ _ _ Hs f). destruct (decide (f ∈ ({[g]} : gset string))) as [->%elem_of_singleton|]; [apply Hp|done].
Qed.

Lemma slice_part_of D X s g : g ∈ D -> slice D X s -> same_part g s X.
Proof.
  intros Hg Hs. split.
  - intros k Hk. unfold kept at 1. rewrite (sl_record _ _ _ Hs k Hk). unfold kept. destruct (record X k) as [d|]; cbn; [|done].
    destruct (record_folder k d) as [f|] eqn:Ef; cbn; [|done]. destruct (decide (f ∈ D)) as [Hd|Hd]; cbn; [by rewrite Ef|].
    rewrite decide_False; [done|]. intros ->%elem_of_singleton. done.
  - intros n. rewrite (sl_archive _ _ _ Hs n). rewrite list_filter_filter. apply reflexive_eq, filter_elem_ext. intros j _. set_solver.
  - rewrite (sl_compactions _ _ _ Hs g). by rewrite decide_True.
Qed.

Lemma normalized_same_part g s : loadable_meta (snap_local s) -> same_part g (normalizeLoadedSnapshot s) s.
Proof. intros Hl. split; [|done..]. intros k Hk. unfold kept. by rewrite normalized_record. Qed.

(** An operation on a folder leaves the parts of the others. *)
Lemma op_snap_Cursors f op m g : g <> f -> Cursors (op_snap f op m) !! g = Cursors m !! g.
Proof. intros Hg. destruct op; cbn; by rewrite lookup_insert_ne. Qed.

Lemma op_same_part g f op s : g <> f -> same_part g (with_local (op_snap f op (snap_local s)) s) s.
Proof.
  intros Hg. split; [|done..]. intros k Hk. destruct (is_local k) eqn:El; [|by destruct k].
  destruct (local_folder k El) as (h & Hh). rewrite !(kept_one g _ _ h) by done. destruct (decide (h = g)) as [->|]; [|done].
  apply (view_record _ _ k g); [done|done|cbn [with_local snap_local]; rewrite view_op_snap; by rewrite decide_False|by apply op_snap_Cursors].
Qed.

(** ** The backend *)

Section backend.
Context {DB : Type} `{KVLaws DB}.

Local Abbreviation store := (badgerSnapshotBackend (DB := DB)).

(** The database of folder [f] holds the part of [X]. *)
Definition child (X : snapshot) (f : string) (b : store) : Prop :=
  badger_viewFault b = false /\ exists s, readSnapshot (badger_db b) = Ok s /\ slice {[f]} X s /\ tidy f s /\ loadable_meta (snap_local s).

(** The snapshots that are stored: well-formed, and jobs with their folder's snapshot. *)
Record storable (X : snapshot) : Prop := {
  sb_keyed : keyed_snapshot X;
  sb_wf : wf_meta (snap_local X);
  sb_one : one_folder X
}.

Record state_ok (b : gmap string store) (X : snapshot) : Prop := {
  so_storable : storable X;
  so_child f st : b !! f = Some st -> child X f st
}.

Lemma child_same X Y f b : same_part f X Y -> child X f b -> child Y f b.
Proof. intros Hp [Hv (s & E & Hs & Ht)]. split; [done|]. exists s. split; [done|]. split; [by eapply slice_same_part|done]. Qed.

Lemma part_storable X f : storable X -> keyed_snapshot (snapshotForFolder X f) /\ loadable_meta (snap_local (snapshotForFolder X f)).
Proof.
  intros [K W _]. pose proof (slice_part X f (keyed_full _ K)) as Hs. split; [by eapply keyed_slice|].
  eapply slice_loadable; [apply (keyed_full _ K)|by apply wf_loadable_meta|exact Hs].
Qed.

Lemma save_child b X f : storable X -> badger_viewFault b = false -> badger_updateFault b = false ->
  exists b', Save b (snapshotForFolder X f) = (b', Ok tt) /\ child X f b'.
Proof.
  intros HX Hv Hu. destruct (part_storable X f HX) as [Kp Lp]. pose proof (slice_part X f (keyed_full _ (sb_keyed _ HX))) as Hp.
  destruct (saved_records b _ Kp Lp Hu) as (s & Es & Er & Hr & Hf & Hl & Ha & Hc). eexists. split; [exact Es|]. split; [done|].
  exists s. split; [exact Er|]. split; [|split; [|done]].
  - split; [|done| |].
    + intros k Hk. rewrite Hr by done. by apply record_part.
    + intros n. rewrite Ha, archive_read_perm. apply Hp.
    + intros g. rewrite Hc, compactions_read_perm. apply Hp.
  - apply (readSnapshot_tidy f (saved_db (snapshotForFolder X f) (badger_db b))); [by apply saved_db_wf| |exact Er].
    intros k d g Hd Hg. assert (plain k = true) as Hk by (by destruct k). rewrite get_saved_plain, record_part in Hd by done.
    unfold kept in Hd. destruct (record X k) as [d'|]; [|discriminate Hd]. cbn in Hd. destruct (record_folder k d') as [g'|] eqn:Eg; [|discriminate Hd].
    cbn in Hd. case_decide as Hin; [|discriminate Hd]. injection Hd as ->. apply elem_of_singleton in Hin. congruence.
Qed.

(** Whether a commit fails is not a part of the state. *)
Lemma child_fault X f b fault : child X f b -> child X f (with_commit_fault fault b).
Proof. done. Qed.

Lemma save_fault (b : store) snap : badger_updateFault b = true -> Save b snap = (b, Err ErrSave).
Proof. intros Hu. unfold Save, Update. by rewrite Hu. Qed.

(** *** Loading *)

Lemma loadChild_ok X f b : storable X -> child X f b ->
  exists s, loadChild b = Ok s /\ slice {[f]} X s /\ tidy f s /\ loadable_meta (snap_local s).
Proof.
  intros HX [Hv (s & E & Hs & Ht & Hl)]. exists (normalizeLoadedSnapshot (normalizeLoadedSnapshot s)). split_and?.
  - unfold loadChild, Load, View. by rewrite Hv, E.
  - by apply normalized_slice, normalized_slice; [apply normalized_loadable| |].
  - by apply normalized_tidy, normalized_tidy.
  - by apply normalized_loadable, normalized_loadable.
Qed.

Lemma loadStores_ok X D a (l : list (string * store)) : storable X -> slice D X a -> NoDup l.*1 ->
  (forall f b, (f, b) ∈ l -> (f ∉ D) /\ child X f b) ->
  exists s, loadStores l a = Ok s /\ slice (list_to_set l.*1 ∪ D) X s.
Proof.
  intros HX. revert D a. induction l as [|[f b] l IH]; intros D a Ha Hnd Hl; cbn [loadStores].
  - exists a. split; [done|]. cbn. by rewrite (left_id_L ∅ (∪)).
  - destruct (Hl f b) as [Hf Hc]; [by left|]. destruct (loadChild_ok X f b HX Hc) as (s & -> & Hs & Ht & Hls). cbn [mbind result_bind].
    apply NoDup_cons in Hnd as [Hnf Hnd].
    destruct (IH ({[f]} ∪ D) (mergeSnapshot a (normalizeLoadedSnapshot s))) as (s' & E & Hs').
    + apply slice_merge; [done|done|by apply normalized_slice|by apply normalized_tidy|apply HX].
    + done.
    + intros g c Hg. destruct (Hl g c) as [Hgd Hcg]; [by right|]. split; [|done]. intros [->%elem_of_singleton|?]%elem_of_union; [|done].
      apply Hnf. apply list_elem_of_fmap. by exists (f, c).
    + exists s'. split; [done|]. cbn. by rewrite <- (assoc_L (∪)), (comm_L (∪) {[f]}), <- (assoc_L (∪)), (comm_L (∪) D).
Qed.

(** A range visits every store once. *)
Definition range_ok (range : gmap string store -> list (string * store)) : Prop := forall b, range b ≡ₚ map_to_list b.

Lemma range_ok_default : range_ok map_to_list.
Proof. by intros b. Qed.

Lemma storeRange_NoDup range b : range_ok range -> NoDup (range b).*1.
Proof. intros Hr. rewrite (Hr b). apply NoDup_fst_map_to_list. Qed.

Lemma elem_of_range range b f st : range_ok range -> (f, st) ∈ range b <-> b !! f = Some st.
Proof. intros Hr. rewrite (Hr b). apply elem_of_map_to_list. Qed.

Lemma range_dom range b : range_ok range -> list_to_set (range b).*1 = dom b.
Proof.
  intros Hr. apply set_eq. intros f. rewrite elem_of_list_to_set, list_elem_of_fmap, elem_of_dom. split.
  - intros ([f' st] & -> & Hf). apply (elem_of_range range) in Hf; [|done]. by exists st.
  - intros [st Hf]. exists (f, st). split; [done|]. by apply elem_of_range.
Qed.

Lemma loadPF_ok range b X : range_ok range -> state_ok b X -> exists s, loadPF range b = Ok s /\ slice (dom b) X s /\ loadable_meta (snap_local s).
Proof.
  intros Hrange [HX Hc]. destruct (loadStores_ok X ∅ snapshot_zero (range b) HX (slice_zero X)) as (s & E & Hs).
  - by apply storeRange_NoDup.
  - intros f st Hf. apply elem_of_range in Hf; [|done]. split; [apply not_elem_of_empty|by apply Hc].
  - rewrite (right_id_L ∅ (∪)) in Hs. rewrite range_dom in Hs by done.
    assert (loadable_meta (snap_local s)) as Hl.
    { eapply slice_loadable; [apply (keyed_full _ (sb_keyed _ HX))|apply wf_loadable_meta, HX|exact Hs]. }
    exists (normalizeLoadedSnapshot (normalizeLoadedSnapshot s)). split_and?.
    + unfold loadPF, LoadPerFolder. by rewrite E.
    + apply normalized_slice; [by apply normalized_loadable|]. by apply normalized_slice.
    + by apply normalized_loadable, normalized_loadable.
Qed.

End backend.

(** *** Snapshots an operation leaves *)

Definition after_op (f : string) (op : folderOp) (s : snapshot) : snapshot := with_local (op_snap f op (snap_local s)) s.

Lemma history_range v op : (forall p r m, inner (history v) p !! r = Some m -> 0 <= r < 2 ^ 64) ->
  forall p r m, inner (history (apply_op v op)) p !! r = Some m -> 0 <= r < 2 ^ 64.
Proof.
  intros Hv p r m. assert (forall rel rev man, 0 <= rev < 2 ^ 64 -> inner (write_history (history v) rel rev man) p !! r = Some m -> 0 <= r < 2 ^ 64) as Hw.
  { intros rel rev man Hrev. unfold write_history. destruct (decide (rel = p)) as [->|Hp]; [rewrite inner_insert_eq|rewrite inner_insert_ne by done; apply Hv].
    intros [[<- _]|[_ Hr]]%lookup_insert_Some; [done|by eapply Hv]. }
  destruct op; cbn [apply_op history]; [intros Hr; eapply Hw; [apply u64_bounds|exact Hr]|apply Hv|intros Hr; eapply Hw; [apply u64_bounds|exact Hr]].
Qed.

Lemma after_op_storable f op s : storable s -> op_ok op -> cursor (view (snap_local s) f) + 1 < 2 ^ 64 -> storable (after_op f op s).
Proof.
  intros [K W Hone] Hop Hc. split; [|intros g; cbn; rewrite view_op_snap; case_decide; [by apply wf_op|apply W]|exact Hone].
  assert (forall g, history (view (op_snap f op (snap_local s)) g) = history (if decide (g = f) then apply_op (view (snap_local s) f) op else view (snap_local s) g)) as Hh.
  { intros g. by rewrite view_op_snap. }
  split; [intros g p r m Hm|intros g p h Hp|apply (keyed_marker _ K)|apply (keyed_restore _ K)|apply (keyed_retention _ K)|apply (keyed_repair _ K)|
    apply (keyed_archive _ K)|apply (keyed_document _ K)|apply (keyed_change _ K)].
  - change (inner (history (view (op_snap f op (snap_local s)) g)) p !! r = Some m) in Hm. rewrite Hh in Hm. case_decide; [|exact (keyed_history _ K g p r m Hm)].
    revert Hm. apply history_range. intros p' r' m'. exact (keyed_history _ K f p' r' m').
  - change (history (view (op_snap f op (snap_local s)) g) !! p = Some h) in Hp. rewrite Hh in Hp. case_decide; [|exact (keyed_full _ K g p h Hp)].
    revert Hp. apply badger.history_nonempty_op. intros p' h'. exact (keyed_full _ K f p' h').
Qed.

Lemma normalized_storable s : storable s -> storable (normalizeLoadedSnapshot s).
Proof.
  intros [K W Hone]. pose proof (wf_loadable_meta _ W) as Hl. split.
  - apply (keyed_known s); [done| | |apply K].
    + intros k d Hp. by rewrite normalized_record.
    + intros f p h. pose proof (f_equal history (normalizeSnapshot_id _ Hl f)) as E. cbn [view history] in E.
      cbn [normalizeLoadedSnapshot with_local snap_local]. rewrite E. apply (keyed_full _ K).
  - cbn. by rewrite (normalizeSnapshot_id _ Hl).
  - exact Hone.
Qed.

Lemma slice_storable D X s : storable X -> slice D X s -> storable s.
Proof.
  intros [K W Hone] Hs. split; [by eapply keyed_slice| |by eapply one_folder_slice].
  intros f. rewrite (slice_view D X s f (keyed_full _ K) Hs). case_decide; [apply W|apply wf_empty].
Qed.

Lemma kept_again D X s k : record s k = kept D X k -> kept D s k = kept D X k.
Proof.
  intros Hr. unfold kept at 1. rewrite Hr. unfold kept. destruct (record X k) as [d|]; cbn; [|done].
  destruct (record_folder k d) as [f|] eqn:E; cbn; [|done]. case_decide as Hf; cbn; [|done]. rewrite E. cbn. by rewrite decide_True.
Qed.

(** *** Saving *)

Section saving.
Context {DB : Type} `{KVLaws DB}.

Local Abbreviation store := (badgerSnapshotBackend (DB := DB)).

Lemma saveStores_cases Y l (b : gmap string store) b' res : storable Y -> NoDup l.*1 ->
  (forall f st, (f, st) ∈ l -> b !! f = Some st /\ badger_viewFault st = false) ->
  saveStores l Y b = (b', res) ->
  exists saved : gset string, saved ⊆ list_to_set l.*1 /\ (res = Ok tt -> saved = list_to_set l.*1) /\ dom b' = dom b /\
    (forall f, f ∉ saved -> b' !! f = b !! f) /\ (forall f, f ∈ saved -> exists st, b' !! f = Some st /\ child Y f st).
Proof.
  intros HY. revert b. induction l as [|[f st] l IH]; intros b Hnd Hl; cbn [saveStores].
  { intros [= <- <-]. exists ∅. split_and?; try done; intros g; set_solver. }
  destruct (Hl f st) as [Hb Hv]; [by left|]. destruct (badger_updateFault st) eqn:Hu.
  { rewrite save_fault by done. intros [= <- <-]. exists ∅. split_and?; try done; set_solver. }
  destruct (save_child st Y f HY Hv Hu) as (st' & -> & Hc). apply NoDup_cons in Hnd as [Hnf Hnd]. intros E.
  apply IH in E as (saved & Hsub & Hres & Hdom & Hout & Hin); [|done|].
  - assert (f ∉ saved) as Hfs. { intros Hf. apply Hsub, elem_of_list_to_set in Hf. done. }
    exists ({[f]} ∪ saved). cbn. split_and?.
    + set_solver.
    + intros Hr. by rewrite Hres.
    + rewrite Hdom, dom_insert_L. apply elem_of_dom_2 in Hb. set_solver.
    + intros g Hg. rewrite Hout by set_solver. rewrite lookup_insert_ne; [done|set_solver].
    + intros g [->%elem_of_singleton|Hg]%elem_of_union; [|by apply Hin]. exists st'. split; [|done]. rewrite Hout by done. apply lookup_insert_eq.
  - intros g stg Hg. rewrite lookup_insert_ne; [apply Hl; by right|]. intros ->. apply Hnf. apply list_elem_of_fmap. by exists (g, stg).
Qed.

(** The saved stores hold the new snapshot, the others still hold the old one. *)
Lemma SavePerFolder_cases range (b : gmap string store) X Y b' res : range_ok range -> state_ok b X -> storable Y -> SavePerFolder range b Y = (b', res) ->
  exists saved, (res = Ok tt -> saved = dom b) /\ saved ⊆ dom b /\ dom b' = dom b /\
    forall f st, b' !! f = Some st -> if decide (f ∈ saved) then child (normalizeLoadedSnapshot Y) f st else child X f st.
Proof.
  intros Hrange [HX Hc] HY E. unfold SavePerFolder in E. pose proof (storeRange_NoDup range b Hrange) as Hnd.
  apply saveStores_cases in E as (saved & Hsub & Hres & Hdom & Hout & Hin); [|by apply normalized_storable|done|].
  - rewrite range_dom in Hsub, Hres by done. exists saved. split_and?; [done..|].
    intros f st Hf. case_decide as Hs; [|rewrite Hout in Hf by done; by apply Hc]. destruct (Hin f Hs) as (st' & Hf' & Hch). congruence.
  - intros f st Hf. apply elem_of_range in Hf; [|done]. split; [done|]. by apply Hc in Hf as [Hv _].
Qed.
End saving.

(** *** Histories *)

Section history.
Context {DB : Type} `{KVLaws DB}.

Local Abbreviation store := (badgerSnapshotBackend (DB := DB)).

(** The databases, with the next commits failing or not. *)
Definition set_faults (fault : string -> bool) (b : gmap string store) : gmap string store :=
  map_imap (fun f st => Some (with_commit_fault (fault f) st)) b.

(** A call of SaveManifest, DeleteManifest or MoveManifest, the databases whose
    commit fails in it, and the orders of its two loops over the stores. *)
Record pf_call := mkCall {
  call_fault : string -> bool;
  call_folder : string;
  call_op : folderOp;
  call_loading : gmap string store -> list (string * store);
  call_saving : gmap string store -> list (string * store)
}.

Definition pf_call_ok (c : pf_call) : Prop :=
  op_ok (call_op c) /\ call_folder c <> EmptyString /\ empty_path (call_op c) = false /\ range_ok (call_loading c) /\ range_ok (call_saving c).

(** The databases after some calls, and which calls returned no error. *)
Fixpoint pf_run (b : gmap string store) (calls : list pf_call) : gmap string store * list bool :=
  match calls with
  | [] => (b, [])
  | c :: calls' =>
      let '(b1, res) := op_pf (call_loading c) (call_saving c) (set_faults (call_fault c) b) (call_folder c) (call_op c) in
      let '(b2, results) := pf_run b1 calls' in (b2, is_ok res :: results)
  end.

(** The operations of a folder among the calls that took effect. *)
Fixpoint taken (f : string) (calls : list pf_call) (took : list bool) : list folderOp :=
  match calls, took with
  | c :: calls', t :: took' => if t && bool_decide (call_folder c = f) then call_op c :: taken f calls' took' else taken f calls' took'
  | _, _ => []
  end.

Lemma set_faults_ok fault b X : state_ok b X -> state_ok (set_faults fault b) X.
Proof.
  intros [HX Hc]. split; [done|]. intros f st Hf. unfold set_faults in Hf. rewrite map_lookup_imap in Hf.
  destruct (b !! f) as [st0|] eqn:E; [|discriminate Hf]. injection Hf as <-. by apply child_fault, Hc.
Qed.

Lemma dom_set_faults fault b : dom (set_faults fault b) = dom b.
Proof. apply dom_imap_L. intros f. rewrite elem_of_dom. split; [intros [x Hx]; eauto|]. intros (x & Hx & _). eauto. Qed.

Lemma checks_ok f op : f <> EmptyString -> empty_path op = false -> checks f op = Ok tt.
Proof.
  intros Hf Hp. destruct op as [| |from to m]; [done..|]. cbn in *. apply orb_false_iff in Hp as [H1 H2].
  unfold require. by rewrite (bool_decide_eq_false_2 _ Hf), H1, H2.
Qed.

(** The lists of a snapshot that are kept for some folders: jobs and compactions. *)
Definition lists_of (D : gset string) (X s : snapshot) : Prop :=
  (forall n, archive_of s n ≡ₚ filter (fun j => ArchiveIntakeJob_FolderID j ∈ D) (archive_of X n)) /\
  (forall f, compactions_of s f ≡ₚ if decide (f ∈ D) then compactions_of X f else []).

Lemma lists_of_trans D X s s' : lists_of D X s -> lists_of D s s' -> lists_of D X s'.
Proof.
  intros [Ha Hc] [Ha' Hc']. split.
  - intros n. rewrite Ha', Ha, list_filter_filter. apply reflexive_eq, filter_elem_ext. tauto.
  - intros f. rewrite Hc'. case_decide; [|done]. rewrite Hc. by rewrite decide_True.
Qed.

Lemma op_pf_step loading saving b X f op b' res : range_ok loading -> range_ok saving -> state_ok b X -> op_ok op -> f <> EmptyString -> empty_path op = false ->
  (f ∈ dom b -> cursor (view (snap_local X) f) + 1 < 2 ^ 64) -> op_pf loading saving b f op = (b', res) ->
  exists (took : bool) X', state_ok b' X' /\ dom b' = dom b /\ (is_ok res = true -> took = true) /\
    (forall g, g ∈ dom b -> view (snap_local X') g = if took && bool_decide (f = g) then apply_op (view (snap_local X) g) op else view (snap_local X) g) /\
    (forall k, plain k = true -> is_local k = false -> kept (dom b) X' k = kept (dom b) X k) /\
    (X' = X \/ lists_of (dom b) X X').
Proof.
  intros Hloading Hsaving Hst Hop Hf Hp Hcur. pose proof (so_storable _ _ Hst) as HX. unfold op_pf. rewrite checks_ok by done. unfold modifyPF.
  destruct (loadPF_ok loading b X Hloading Hst) as (s & -> & Hs & Hl). cbn [mbind result_bind].
  pose proof (slice_view _ X s f (keyed_full _ (sb_keyed _ HX)) Hs) as Hv. intros E.
  assert (storable (after_op f op s)) as HY.
  { apply after_op_storable; [by eapply slice_storable|done|]. rewrite Hv. case_decide; [by apply Hcur|cbn; lia]. }
  pose proof (normalized_storable _ HY) as HY'. set (Y := normalizeLoadedSnapshot (after_op f op s)) in *.
  assert (forall g, g ∈ dom b -> g <> f -> same_part g Y X) as Hsame.
  { intros g Hg Hne. trans (after_op f op s); [apply normalized_same_part, wf_loadable_meta, HY|].
    trans s; [by apply op_same_part|by apply (slice_part_of (dom b))]. }
  apply (SavePerFolder_cases saving b X) in E as (saved & Hres & Hsub & Hdom & Hch); [|done..]. fold Y in Hch.
  assert (forall g st, b' !! g = Some st -> g ∈ dom b) as Hb' by (intros g st Hg; rewrite <- Hdom; by apply elem_of_dom_2 in Hg).
  destruct (decide (f ∈ saved)) as [Hfs|Hfs].
  - exists true, Y. split; [|split; [done|split; [done|split; [|split]]]].
    + split; [done|]. intros g st Hg. specialize (Hch g st Hg). case_decide; [done|].
      apply (child_same X); [|done]. symmetry. apply Hsame; [by eapply Hb'|]. intros ->. done.
    + intros g Hg. cbn [andb]. unfold Y. cbn [normalizeLoadedSnapshot with_local snap_local].
      rewrite (normalizeSnapshot_id _ (wf_loadable_meta _ (sb_wf _ HY)) g). cbn [after_op with_local snap_local]. rewrite view_op_snap.
      rewrite (slice_view _ X s f (keyed_full _ (sb_keyed _ HX)) Hs), (slice_view _ X s g (keyed_full _ (sb_keyed _ HX)) Hs).
      destruct (decide (g = f)) as [->|Hne]; [by rewrite bool_decide_eq_true_2, decide_True|].
      by rewrite bool_decide_eq_false_2, decide_True by congruence.
    + intros k Hk Hl'. rewrite <- (kept_again (dom b) X s k) by (by apply Hs). unfold kept. by destruct k.
    + right. split; apply Hs.
  - exists (is_ok res), X. split; [|split; [done|split; [done|split; [|split; [done|by left]]]]].
    + split; [done|]. intros g st Hg. specialize (Hch g st Hg). case_decide; [|done].
      apply (child_same Y); [|done]. apply Hsame; [by eapply Hb'|]. intros ->. done.
    + intros g Hg. destruct res as [[]|e]; [|done]. cbn [is_ok andb]. rewrite bool_decide_eq_false_2; [done|].
      intros ->. by rewrite Hres in Hfs.
Qed.

Lemma pf_run_ok b X calls : state_ok b X -> Forall pf_call_ok calls ->
  (forall f, f ∈ dom b -> cursor (view (snap_local X) f) + Z.of_nat (length calls) < 2 ^ 64) ->
  exists took X', length took = length calls /\ Forall2 (fun r t => r = true -> t = true) (pf_run b calls).2 took /\
    state_ok (pf_run b calls).1 X' /\ dom (pf_run b calls).1 = dom b /\
    (forall f, f ∈ dom b -> view (snap_local X') f = run (view (snap_local X) f) (taken f calls took)) /\
    (forall k, plain k = true -> is_local k = false -> kept (dom b) X' k = kept (dom b) X k) /\
    (X' = X \/ lists_of (dom b) X X').
Proof.
  revert b X. induction calls as [|[fault f op loading saving] calls IH]; intros b X Hst Hok Hlen; [exists [], X; split_and?; auto|].
  apply Forall_cons in Hok as [(H1 & H2 & H3 & H4 & H5) Hok]. cbn [length pf_run call_fault call_folder call_op call_loading call_saving] in *.
  destruct (op_pf loading saving (set_faults fault b) f op) as [b1 res] eqn:E.
  apply (op_pf_step _ _ _ X) in E as (t & X1 & Hst1 & Hdom1 & Ht & Hview1 & Hkept1 & Hlists1); [|done|done|by apply set_faults_ok|done|done|done|].
  2: { rewrite dom_set_faults. intros Hf. specialize (Hlen f Hf). lia. }
  rewrite dom_set_faults in Hdom1, Hview1, Hkept1, Hlists1.
  destruct (IH b1 X1 Hst1 Hok) as (took & X2 & Hl2 & Hr2 & Hst2 & Hdom2 & Hview2 & Hkept2 & Hlists2).
  { intros g Hg. rewrite Hdom1 in Hg. rewrite Hview1 by done. specialize (Hlen g Hg). destruct (t && bool_decide (f = g)) eqn:Ef; [|lia].
    pose proof (wf_cursor _ (sb_wf _ (so_storable _ _ Hst) g)). rewrite cursor_apply_op; lia. }
  destruct (pf_run b1 calls) as [b2 results] eqn:E2. cbn [fst snd] in *. exists (t :: took), X2. split_and?.
  - by f_equal/=.
  - by constructor.
  - done.
  - by rewrite Hdom2.
  - intros g Hg. rewrite Hview2 by (by rewrite Hdom1). rewrite Hview1 by done. cbn [taken call_folder call_op].
    destruct (t && bool_decide (f = g)) eqn:Ef; [|done]. by unfold run.
  - intros k Hk Hl. rewrite <- Hkept1 by done. rewrite <- Hdom1. by apply Hkept2.
  - rewrite Hdom1 in Hlists2. destruct Hlists1 as [->|Hlists1], Hlists2 as [->|Hlists2]; auto. right. by eapply lists_of_trans.
Qed.

(** [C11] The per-folder backend implements the abstract folders through any history of
    saves, deletes and renames, whatever commits fail and in whatever orders the
    stores are visited. A save rewrites the databases one after the other and may
    stop half-way; still every call takes effect as a whole or not at all - one that
    reports success always does - so that each configured folder is the result of
    the calls that took effect, in order. Every other record of the configured
    folders stays as it was - peers' states and replicas, markers, gate entries -
    and so do their archive jobs and compactions, up to the order in which the
    databases list them. At the start the databases hold a well-formed snapshot in
    which no two folders share the identifier of archive jobs ([one_folder]); names
    are not empty and revisions fit 64 bits. *)
Theorem per_folder_history b X calls range : state_ok b X -> range_ok range -> Forall pf_call_ok calls ->
  (forall f, f ∈ dom b -> cursor (view (snap_local X) f) + Z.of_nat (length calls) < 2 ^ 64) ->
  exists took snap, length took = length calls /\ Forall2 (fun r t => r = true -> t = true) (pf_run b calls).2 took /\
    loadPF range (pf_run b calls).1 = Ok snap /\
    (forall f, view (snap_local snap) f = if decide (f ∈ dom b) then run (view (snap_local X) f) (taken f calls took) else folder_empty) /\
    (forall k, plain k = true -> is_local k = false -> record snap k = kept (dom b) X k) /\
    (forall n, archive_of snap n ≡ₚ filter (fun j => ArchiveIntakeJob_FolderID j ∈ dom b) (archive_of X n)) /\
    (forall f, compactions_of snap f ≡ₚ if decide (f ∈ dom b) then compactions_of X f else []).
Proof.
  intros Hst Hrange Hok Hlen. destruct (pf_run_ok b X calls Hst Hok Hlen) as (took & X' & Hl & Hr & Hst' & Hdom & Hview & Hkept & Hlists).
  destruct (loadPF_ok range _ X' Hrange Hst') as (snap & E & Hs & _). assert (lists_of (dom b) X snap) as [Ha Hc].
  { assert (lists_of (dom b) X' snap) by (rewrite <- Hdom; split; apply Hs). destruct Hlists as [<-|Hlists]; [done|by eapply lists_of_trans]. }
  exists took, snap. split_and?; [done|done|done| | |exact Ha|exact Hc].
  - intros f. rewrite (slice_view _ X' snap f (keyed_full _ (sb_keyed _ (so_storable _ _ Hst'))) Hs), Hdom.
    case_decide as Hf; [by apply Hview|done].
  - intros k Hk Hlk. rewrite (sl_record _ _ _ Hs k Hk), Hdom. by apply Hkept.
Qed.

(** Saving without faults puts the snapshot into the databases. *)
Lemma SavePerFolder_saved (b : gmap string store) X range : storable X -> range_ok range ->
  (forall f st, b !! f = Some st -> badger_viewFault st = false /\ badger_updateFault st = false) ->
  exists b', SavePerFolder range b X = (b', Ok tt) /\ state_ok b' (normalizeLoadedSnapshot X) /\ dom b' = dom b.
Proof.
  intros HX Hrange Hf. pose proof (normalized_storable _ HX) as HX'. set (Y := normalizeLoadedSnapshot X) in *.
  assert (forall l b0, NoDup l.*1 -> (forall f st, (f, st) ∈ l -> b0 !! f = Some st /\ badger_viewFault st = false /\ badger_updateFault st = false) ->
    exists b1, saveStores l Y b0 = (b1, Ok tt)) as Hsave.
  { intros l. induction l as [|[f st] l IH]; intros b0 Hnd Hl; [by exists b0|]. cbn [saveStores]. destruct (Hl f st) as (_ & Hv & Hu); [by left|].
    destruct (save_child st Y f HX' Hv Hu) as (st' & -> & _). apply NoDup_cons in Hnd as [Hnf Hnd]. apply IH; [done|].
    intros g stg Hg. rewrite lookup_insert_ne; [apply Hl; by right|]. intros ->. apply Hnf. apply list_elem_of_fmap. by exists (g, stg). }
  pose proof (storeRange_NoDup range b Hrange) as Hnd.
  destruct (Hsave (range b) b) as [b' E]; [done|intros f st Hfs; apply elem_of_range in Hfs; [|done]; split; [done|exact (Hf f st Hfs)]|].
  exists b'. assert (E' := E). apply saveStores_cases in E as (saved & Hsub & Hres & Hdom & Hout & Hin); [|done|done|].
  - rewrite range_dom in Hres by done. specialize (Hres eq_refl) as ->. split; [exact E'|]. split; [|done].
    split; [done|]. intros f st Hfs. assert (f ∈ dom b) as Hd by (rewrite <- Hdom; by apply elem_of_dom_2 in Hfs).
    destruct (Hin f Hd) as (st' & Hfs' & Hc). congruence.
  - intros f st Hfs. apply elem_of_range in Hfs; [|done]. split; [done|]. by apply Hf in Hfs as [].
Qed.

(** [C35] Round trip of the per-folder backend: a snapshot that is saved without a fault
    and loaded again, the stores visited in any orders, keeps exactly the records of
    the configured folders - their files, history, cursors, peers' states and
    replicas, markers and gate entries, and, up to their order, archive jobs and
    compactions - and nothing else. The snapshot is well formed, and no two folders
    share the identifier of archive jobs ([one_folder]); where they do, the store
    that is loaded last replaces the jobs of the other ([jobs_of_two_folders]). *)
Theorem Save_Load_exact (b : gmap string store) X saving loading : storable X -> range_ok saving -> range_ok loading ->
  (forall f st, b !! f = Some st -> badger_viewFault st = false /\ badger_updateFault st = false) ->
  exists b' snap, SavePerFolder saving b X = (b', Ok tt) /\ loadPF loading b' = Ok snap /\ slice (dom b) X snap.
Proof.
  intros HX Hsaving Hloading Hf. destruct (SavePerFolder_saved b X saving HX Hsaving Hf) as (b' & E & Hst & Hdom).
  destruct (loadPF_ok loading b' _ Hloading Hst) as (snap & El & Hs & _). rewrite Hdom in Hs.
  exists b', snap. split; [done|]. split; [done|]. destruct Hs as [Hr Hfu Ha Hc]. split; [|done|exact Ha|exact Hc].
  intros k Hk. rewrite Hr by done. unfold kept. by rewrite normalized_record by (done || apply wf_loadable_meta, HX).
Qed.

(** What the merged snapshot never has: settings, and restore, retention and repair jobs. *)
Lemma per_folder_no_settings range (b : gmap string store) snap : loadPF range b = Ok snap ->
  snap_settings snap = mkSettingsMeta ∅ ∅ /\ BackupRestoreJobs (snap_jobs snap) = ∅ /\
  BackupRetentionJobs (snap_jobs snap) = ∅ /\ BackupRepairJobs (snap_jobs snap) = ∅.
Proof.
  unfold loadPF, LoadPerFolder. destruct (loadStores (range b) snapshot_zero) as [s|e] eqn:E; [|discriminate]. intros [= <-].
  assert (forall l a, loadStores l a = Ok s -> snap_settings s = snap_settings a /\ BackupRestoreJobs (snap_jobs s) = BackupRestoreJobs (snap_jobs a) /\
    BackupRetentionJobs (snap_jobs s) = BackupRetentionJobs (snap_jobs a) /\ BackupRepairJobs (snap_jobs s) = BackupRepairJobs (snap_jobs a)) as Hl.
  { intros l. induction l as [|[f st] l IH]; intros a; cbn [loadStores]; [by intros [= ->]|].
    destruct (loadChild st) as [c|]; [|discriminate]. cbn [mbind result_bind]. intros (H1 & H2 & H3 & H4)%IH. by rewrite H1, H2, H3, H4. }
  apply Hl in E. exact E.
Qed.

End history.

(** ** Where the stores are *)

Lemma sanitize_allowed u value c : contains_char (sanitize u value) c = true -> allowed_char c = true.
Proof.
  revert u. induction value as [|d value IH]; intros u; [done|]. cbn. destruct (allowed_char d) eqn:E.
  - cbn. intros [->%bool_decide_eq_true|H]%orb_true_iff; [done|by apply IH in H].
  - destruct u; [apply IH|]. cbn. intros [->%bool_decide_eq_true|H]%orb_true_iff; [done|by apply IH in H].
Qed.

Lemma sanitize_id u value : (forall c, contains_char value c = true -> allowed_char c = true) -> sanitize u value = value.
Proof.
  revert u. induction value as [|c value IH]; intros u Hv; [done|]. cbn. rewrite (Hv c); [|cbn; by rewrite bool_decide_eq_true_2].
  f_equal. apply IH. intros d Hd. apply Hv. cbn. by rewrite Hd, orb_true_r.
Qed.

(** The name of a folder's database is one path element, and identifiers of the
    alphabet are told apart. *)
Lemma SanitizePathSegment_element value : SanitizePathSegment value <> EmptyString /\ contains_char (SanitizePathSegment value) slash = false.
Proof.
  unfold SanitizePathSegment. case_bool_decide; [done|]. cbv zeta. case_bool_decide as He; [done|]. split; [done|].
  destruct (contains_char _ slash) eqn:E; [|done]. by apply sanitize_allowed in E.
Qed.

Lemma SanitizePathSegment_id value : value <> EmptyString -> (forall c, contains_char value c = true -> allowed_char c = true) ->
  SanitizePathSegment value = value.
Proof. intros Hne Hv. unfold SanitizePathSegment. rewrite sanitize_id by done. cbv zeta. by rewrite !bool_decide_eq_false_2. Qed.

(** ** Replacing a store *)

Section import_proofs.
Context {S : Type} (env : importEnv).

Lemma backupCandidate_inj path i j : backupCandidate env path i = backupCandidate env path j -> i = j.
Proof.
  unfold backupCandidate. destruct i as [|i], j as [|j]; cbv zeta; [done|..].
  - intros H%(f_equal String.length). rewrite !length_app_str in H. cbn in H. lia.
  - intros H%(f_equal String.length). rewrite !length_app_str in H. cbn in H. lia.
  - intros H%app_cancel_str%app_cancel_str%itoa_inj. lia.
Qed.

Lemma backupCandidate_ne path i : backupCandidate env path i <> path.
Proof. unfold backupCandidate. destruct i; cbv zeta; intros H%(f_equal String.length); rewrite !length_app_str in H; cbn in H; lia. Qed.

Lemma backupLoop_taken fuel i path (disk : gmap string S) disk' : backupLoop env fuel i path disk = (disk', Err ImportHang) ->
  forall k, (i <= k < i + fuel)%nat -> is_Some (disk !! backupCandidate env path k).
Proof.
  revert i. induction fuel as [|fuel IH]; intros i; cbn [backupLoop]; [lia|]. destruct (ie_statFails env _); [done|].
  destruct (disk !! backupCandidate env path i) as [x|] eqn:E.
  - intros H k Hk. destruct (decide (k = i)) as [->|]; [by rewrite E|]. apply (IH _ H). lia.
  - destruct (ie_renameFails env); [done|]. by destruct (disk !! path).
Qed.

Lemma backupLoop_ends path (disk : gmap string S) disk' : backupLoop env (Datatypes.S (size disk)) 0 path disk <> (disk', Err ImportHang).
Proof.
  intros H. set (names := backupCandidate env path <$> seq 0 (Datatypes.S (size disk))).
  assert (NoDup names) as Hnd by (apply NoDup_fmap_2; [intros ? ?; apply backupCandidate_inj|apply NoDup_seq]).
  assert (names ⊆ (map_to_list disk).*1) as Hsub.
  { intros p (k & -> & Hk%elem_of_seq)%list_elem_of_fmap. destruct (backupLoop_taken _ _ _ _ _ H k) as [x Hx]; [lia|].
    apply list_elem_of_fmap. exists (backupCandidate env path k, x). split; [done|]. by apply elem_of_map_to_list. }
  apply NoDup_submseteq in Hsub; [|done]. apply submseteq_length in Hsub. unfold names in Hsub.
  rewrite !length_fmap, length_seq, length_map_to_list in Hsub. lia.
Qed.

Lemma backupLoop_cases fuel i path (disk : gmap string S) disk' res : backupLoop env fuel i path disk = (disk', res) ->
  match res with
  | Err _ => disk' = disk
  | Ok backup => exists k x, backup = backupCandidate env path k /\ disk !! backup = None /\ disk !! path = Some x /\ disk' = <[backup := x]> (delete path disk)
  end.
Proof.
  revert i. induction fuel as [|fuel IH]; intros i; cbn [backupLoop]; [by intros [= <- <-]|]. destruct (ie_statFails env _); [by intros [= <- <-]|].
  destruct (disk !! backupCandidate env path i) as [x|] eqn:E; [apply IH|]. destruct (ie_renameFails env); [by intros [= <- <-]|].
  destruct (disk !! path) as [x|] eqn:Ep; intros [= <- <-]; [|done]. by exists i, x.
Qed.

(** [C36] An import ([ImportJSON], [SplitBadger]) replaces a store without losing it,
    and ends: if it succeeds, the old store is kept under a name that was free; if
    it fails, the disk is as it was, except that the old store stays under its
    backup name if renaming it back fails as well. *)
Theorem replaceStore_safe fill path (disk : gmap string S) disk' res : replaceStore env fill path disk = (disk', res) ->
  res <> Err ImportHang /\ (forall p, p <> path -> is_Some (disk !! p) -> disk' !! p = disk !! p) /\
  match res with
  | Ok (backup, _) => (forall x, fill.1 = Some x -> disk' !! path = Some x) /\
      (forall x, disk !! path = Some x -> disk !! backup = None /\ disk' !! backup = Some x)
  | Err _ => (ie_restoreFails env = false -> disk' = disk) /\
      forall x, disk !! path = Some x -> exists p, (p = path \/ disk !! p = None) /\ disk' !! p = Some x
  end.
Proof.
  unfold replaceStore, BackupExistingStore. destruct (ie_statFails env path).
  { intros [= <- <-]. split; [done|]. split; [done|]. split; [done|]. intros x Hx. exists path. auto. }
  destruct (disk !! path) as [old|] eqn:Hold.
  - destruct (backupLoop env _ 0 path disk) as [disk1 [backup|e]] eqn:E.
    + apply backupLoop_cases in E as (k & x & -> & Hfree & Hx & ->). assert (x = old) as -> by congruence.
      pose proof (backupCandidate_ne path k) as Hne. set (backup := backupCandidate env path k) in *.
      assert (backup <> EmptyString) as Hb. { intros Hb. assert (disk !! backup = None) by done. unfold backup, backupCandidate in Hb. destruct k; cbv zeta in Hb; by destruct path. }
      set (disk1 := <[backup := old]> (delete path disk)).
      set (filled := match fill.1 with Some x => <[path := x]> disk1 | None => disk1 end).
      assert (forall p, p <> path -> filled !! p = if decide (p = backup) then Some old else disk !! p) as Hfill.
      { intros p Hp. unfold filled, disk1. destruct fill.1; rewrite ?lookup_insert_ne by done; rewrite lookup_insert, lookup_delete_ne by done;
          repeat case_decide; congruence || done. }
      assert (forall p, p <> path -> is_Some (disk !! p) -> filled !! p = disk !! p) as Hother.
      { intros p Hp [y Hy]. rewrite Hfill by done. rewrite decide_False; [done|]. intros ->. congruence. }
      destruct fill.2 as [counts|e].
      * intros [= <- <-]. split; [done|]. split; [done|]. split.
        -- intros y Hy. fold filled. unfold filled. rewrite Hy. apply lookup_insert_eq.
        -- intros y [= <-]. split; [done|]. rewrite Hfill by done. by rewrite decide_True.
      * intros [= <- <-]. split; [done|]. unfold RestoreBackup. rewrite (bool_decide_eq_false_2 _ Hb).
        assert (delete path filled !! backup = Some old) as Hbk by (rewrite lookup_delete_ne, Hfill by done; by rewrite decide_True).
        destruct (ie_restoreFails env).
        -- split; [intros p Hp Hs; rewrite lookup_delete_ne by done; by apply Hother|]. split; [done|]. intros y [= <-]. exists backup. auto.
        -- rewrite Hbk. assert (<[path := old]> (delete backup (delete path filled)) = disk) as ->.
           { apply map_eq. intros p. rewrite lookup_insert. case_decide as Hp; [by subst|]. rewrite lookup_delete. case_decide as Hpb; [by subst|].
             rewrite lookup_delete_ne, Hfill by done. by rewrite decide_False. }
           split; [done|]. split; [done|]. intros y [= <-]. exists path. auto.
    + pose proof (backupLoop_cases _ _ _ _ _ _ E) as H. cbn in H. subst disk1. intros [= <- <-].
      split; [intros [= ->]; by eapply backupLoop_ends|]. split; [done|]. split; [done|]. intros y [= <-]. exists path. auto.
  - set (filled := match fill.1 with Some x => <[path := x]> disk | None => disk end).
    assert (forall p, p <> path -> filled !! p = disk !! p) as Hfill by (intros p Hp; unfold filled; destruct fill.1; by rewrite ?lookup_insert_ne).
    destruct fill.2 as [counts|e]; intros [= <- <-].
    + split; [done|]. split; [intros p Hp _; by apply Hfill|]. split; [|done]. intros y Hy. unfold filled. rewrite Hy. apply lookup_insert_eq.
    + unfold RestoreBackup. cbn [bool_decide]. rewrite bool_decide_eq_true_2 by done.
      assert (delete path filled = disk) as ->.
      { apply map_eq. intros p. rewrite lookup_delete. case_decide as Hp; [by subst|]. by apply Hfill. }
      split; [done|]. split; [done|]. split; [done|]. done.
Qed.
End import_proofs.

(** ** A concrete node with two folders *)

Abbreviation mapStore := (badgerSnapshotBackend (DB := gmap string Doc)).

Definition fresh_store : mapStore := mkBadger ∅ false false.
Definition demo_stores : gmap string mapStore := {["docs" := fresh_store; "pics" := fresh_store]}.

Lemma slice_nothing D : slice D snapshot_zero snapshot_zero.
Proof.
  destruct (slice_zero snapshot_zero) as [Hr Hf _ _]. assert (forall k, plain k = true -> record snapshot_zero k = None) as Hn.
  { intros k Hk. rewrite Hr by done. unfold kept. destruct (record snapshot_zero k); cbn; [|done]. destruct (record_folder _ _); cbn; [|done].
    rewrite decide_False; [done|]. apply not_elem_of_empty. }
  split; [|done| |].
  - intros k Hk. unfold kept. by rewrite Hn.
  - intros n. by unfold archive_of.
  - intros f. by case_decide.
Qed.

Lemma storable_zero : storable snapshot_zero.
Proof.
  split; [|intros f; apply wf_empty|intros n; exists EmptyString; by constructor].
  split; [| |intros *|intros *|intros *|intros *| |intros *|intros *]; try (cbn; by rewrite ?lookup_empty).
  intros n. constructor.
Qed.

Lemma demo_state_ok : state_ok demo_stores snapshot_zero.
Proof.
  split; [apply storable_zero|]. intros f st Hf. assert (st = fresh_store) as ->.
  { unfold demo_stores in Hf. apply lookup_insert_Some in Hf as [[_ <-]|[_ Hf]]; [done|]. by apply lookup_singleton_Some in Hf as [_ <-]. }
  split; [done|]. exists snapshot_zero. split; [reflexivity|]. split; [apply slice_nothing|]. split; [apply tidy_zero|]. intros g. apply wf_loadable, wf_empty.
Qed.

(** The snapshot of BadgerStore.v - a file, a peer's state, a marker, two jobs and two
    compactions of "docs" - lies in the databases. *)
Lemma demo_snapshot_storable : storable demo_snapshot.
Proof.
  split; [apply demo_snapshot_keyed|apply demo_snapshot_wf|]. intros n. exists "docs". unfold archive_of. cbn.
  destruct (decide (n = "s1")) as [->|Hn]; [|rewrite lookup_singleton_ne by done; constructor]. rewrite lookup_singleton_eq. by repeat constructor.
Qed.

Lemma demo_stores_work f st : demo_stores !! f = Some st -> badger_viewFault st = false /\ badger_updateFault st = false.
Proof.
  unfold demo_stores. intros [[_ <-]|[_ Hf]]%lookup_insert_Some; [done|]. by apply lookup_singleton_Some in Hf as [_ <-].
Qed.

Definition backwards (b : gmap string mapStore) : list (string * mapStore) := reverse (map_to_list b).

Lemma backwards_ok : range_ok backwards.
Proof. intros b. apply reverse_Permutation. Qed.

Definition saved_stores : gmap string mapStore := (SavePerFolder map_to_list demo_stores demo_snapshot).1.

Lemma saved_stores_ok : state_ok saved_stores (normalizeLoadedSnapshot demo_snapshot) /\ dom saved_stores = dom demo_stores.
Proof.
  destruct (SavePerFolder_saved demo_stores demo_snapshot map_to_list demo_snapshot_storable range_ok_default demo_stores_work) as (b' & E & Hst & Hdom).
  unfold saved_stores. rewrite E. exact (conj Hst Hdom).
Qed.

(** A save in each folder, one rename whose commit fails in the other folder's
    database, and a call on a folder that is not configured. *)
Definition demo_calls_pf : list pf_call :=
  [mkCall (fun _ => false) "docs" (OpSave "a" (demo_manifest Byte.x61)) map_to_list backwards;
   mkCall (fun _ => false) "pics" (OpSave "p" (demo_manifest Byte.x62)) backwards map_to_list;
   mkCall (fun f => bool_decide (f = "pics")) "docs" (OpMove "a" "b" (demo_manifest Byte.x61)) map_to_list map_to_list;
   mkCall (fun _ => false) "none" (OpSave "lost" (demo_manifest Byte.x61)) backwards backwards].

Lemma demo_calls_pf_ok : Forall pf_call_ok demo_calls_pf.
Proof. repeat (constructor; [by split_and!; [| | |(apply range_ok_default || apply backwards_ok)..]|]). constructor. Qed.

Lemma per_folder_history_witness :
  exists took snap, Forall2 (fun r t => r = true -> t = true) (pf_run saved_stores demo_calls_pf).2 took /\
    loadPF backwards (pf_run saved_stores demo_calls_pf).1 = Ok snap /\ view (snap_local snap) "none" = folder_empty /\
    record snap (KPeerCursor "n2" "docs") = Some (DocUint 3) /\
    archive_of snap "s1" ≡ₚ [demo_archive_job "j2"; demo_archive_job "j1"] /\
    (MetadataCompactionSnapshot_Cursor <$> compactions_of snap "docs") ≡ₚ [4; 9].
Proof.
  destruct (per_folder_history saved_stores (normalizeLoadedSnapshot demo_snapshot) demo_calls_pf backwards (proj1 saved_stores_ok) backwards_ok
    demo_calls_pf_ok) as (took & snap & _ & Hr & E & Hv & Hk & Ha & Hc).
  - intros f Hf. rewrite (proj2 saved_stores_ok) in Hf. apply elem_of_dom in Hf as [st Hf]. unfold demo_stores in Hf.
    apply lookup_insert_Some in Hf as [[<- _]|[_ Hf]]; [vm_compute; reflexivity|]. apply lookup_singleton_Some in Hf as [<- _]. vm_compute. reflexivity.
  - rewrite (proj2 saved_stores_ok) in Hv, Hk, Ha, Hc.
    exists took, snap. split; [exact Hr|]. split; [exact E|]. split; [|split; [|split]].
    + rewrite Hv. rewrite decide_False; [reflexivity|]. vm_compute. discriminate.
    + rewrite Hk by reflexivity. vm_compute. reflexivity.
    + rewrite Ha. apply reflexive_eq. vm_compute. reflexivity.
    + rewrite Hc. apply reflexive_eq. vm_compute. reflexivity.
Defined.

Lemma Save_Load_exact_witness :
  exists b' snap, SavePerFolder map_to_list demo_stores demo_snapshot = (b', Ok tt) /\ loadPF backwards b' = Ok snap /\
    record snap (KManifest "docs" "a/b") = Some (DocManifest (demo_manifest Byte.x61)) /\
    archive_of snap "s1" ≡ₚ [demo_archive_job "j2"; demo_archive_job "j1"].
Proof.
  destruct (Save_Load_exact demo_stores demo_snapshot map_to_list backwards demo_snapshot_storable range_ok_default backwards_ok demo_stores_work)
    as (b' & snap & Es & El & Hs).
  exists b', snap. split; [exact Es|]. split; [exact El|]. split.
  - rewrite (sl_record _ _ _ Hs) by reflexivity. vm_compute. reflexivity.
  - rewrite (sl_archive _ _ _ Hs). apply reflexive_eq. vm_compute. reflexivity.
Defined.

(** The rename took effect although the call failed: "docs" was saved before "pics". *)
Example rename_with_fault :
  let '(b, results) := pf_run demo_stores demo_calls_pf in
  (results, (fun snap => (inner (Folders (snap_local snap)) "docs" !! "b", inner (Folders (snap_local snap)) "pics" !! "p")) <$> loadPF map_to_list b)
  = ([true; true; false; true], Ok (Some (demo_manifest Byte.x61), Some (demo_manifest Byte.x62))).
Proof. vm_compute. reflexivity. Qed.

(** Jobs of two folders under one identifier ([one_folder] fails): the store that
    is loaded last replaces the jobs of the other. *)
Example jobs_of_two_folders :
  let job f := mkArchiveIntakeJob "j" "s1" f "a" (mkBlock 0 0 1 [Byte.x61]) "pending" "t0" 0 "" "" "" "" in
  let snap := mkSnapshot folderMeta_zero (snap_peer snapshot_zero) ∅ (mkJobMeta ∅ {["s1" := [job "docs"; job "pics"]]} ∅ ∅ ∅) (mkGateMeta ∅ ∅) (mkSettingsMeta ∅ ∅) in
  let '(b, res) := SavePerFolder map_to_list demo_stores snap in
  (res, (fun snap => ArchiveIntakeJob_FolderID <$> archive_of snap "s1") <$> loadPF map_to_list b,
   (fun snap => ArchiveIntakeJob_FolderID <$> archive_of snap "s1") <$> loadPF backwards b) = (Ok tt, Ok ["pics"], Ok ["docs"]).
Proof. vm_compute. reflexivity. Qed.

(** A settings document is saved without an error and is gone at the next load. *)
Example settings_lost : forall d,
  let '(b, res) := modifyPF map_to_list map_to_list demo_stores (fun snap => Ok (with_settings (put_document "n" d (snap_settings snap)) snap)) in
  (res, (fun snap => NodeSettings (snap_settings snap) !! "n") <$> loadPF map_to_list b) = (Ok tt, Ok None).
Proof. intros d. vm_compute. reflexivity. Qed.

(** A new configuration with other folders does not reopen the stores, nor does
    one that only switches between one store and a store per folder at a given
    path. *)
Lemma reload_ignores_folders current cfg cfg' configPath :
  EffectiveBackend cfg' = EffectiveBackend cfg -> MetadataConfig_Path (Config_Metadata cfg') = MetadataConfig_Path (Config_Metadata cfg) ->
  MetadataConfig_Path (Config_Metadata cfg) <> EmptyString -> ReloadNeeded current cfg' configPath = ReloadNeeded current cfg configPath.
Proof.
  intros Hb Hp Hne. unfold ReloadNeeded, CurrentIdentity. rewrite Hb. unfold ConfiguredStorePath. rewrite Hp, !(bool_decide_eq_false_2 _ Hne).
  by destruct (MetadataConfig_PerFolder _), (MetadataConfig_PerFolder _).
Qed.

Example two_names_one_store : SanitizePathSegment "my docs" = SanitizePathSegment "my_docs".
Proof. reflexivity. Qed.

Lemma replaceStore_safe_witness :
  let disk := {["m" := 1%nat; "m.backup-S" := 2%nat]} : gmap string nat in
  replaceStore (mkImportEnv "S" (fun _ => false) false false) (Some 3%nat, Err ErrSave) "m" disk = (disk, Err (ImportStore ErrSave)) /\
  exists p, (p = "m" \/ disk !! p = None) /\ disk !! p = Some 1%nat.
Proof.
  intros disk.
  assert (replaceStore (mkImportEnv "S" (fun _ => false) false false) (Some 3%nat, Err ErrSave) "m" disk = (disk, Err (ImportStore ErrSave))) as E by (vm_compute; reflexivity).
  split; [exact E|]. destruct (replaceStore_safe _ _ _ _ _ _ E) as (_ & _ & _ & H). apply H. reflexivity.
Defined.
