(* ===== verification/Engine.v ===== *)
(** * The engine: indexing a folder

    Models [internal/engine]: scans that hash every file or compare file times
    only ([engine.go]), hashing one file at a time afterwards ([lazy_hash.go]),
    adoption of content that was copied by hand ([manual_seed.go]) and the index
    state shown to users ([index_state.go]).

    The engine calls a store through an interface, here the class
    [ManifestStore]; what its theorems need of a store are the laws of
    [ManifestStoreLaws], which the JSON store of [Store] satisfies, with calls
    failing as an argument decides.  A file does not change while an operation
    runs, apart from the times the operation sets.  [range] is the order in
    which Go visits a map. *)

From S2P Require Import Prelude GoStd Block Paths StoreData Config Glob Scanner Store.

Local Open Scope Z_scope.

(** ** The store, as the engine sees it: engine.go *)

Class ManifestStore (S E : Type) := {
  ms_SaveManifest : S -> string -> string -> Manifest -> S * result E unit;
  ms_LoadManifest : S -> string -> string -> S * result E (option Manifest);
  ms_ListManifests : S -> string -> S * result E (gmap string Manifest);
  ms_DeleteManifest : S -> string -> string -> S * result E unit
}.

Inductive EngineErr (E : Type) :=
| ErrStoreCall (e : E)
| ErrScanFolder (e : ScanErr)
| ErrScanFile (e : fileErr)
| ErrNotIndexed (folderID rel : string)
| ErrRelativePath (rel : string)
| ErrLazyHashBaselineChanged
| ErrSeedVerification (folderID rel : string)
| ErrChtimes (path : string).
Arguments ErrStoreCall {E} e.
Arguments ErrScanFolder {E} e.
Arguments ErrScanFile {E} e.
Arguments ErrNotIndexed {E} folderID rel.
Arguments ErrRelativePath {E} rel.
Arguments ErrLazyHashBaselineChanged {E}.
Arguments ErrSeedVerification {E} folderID rel.
Arguments ErrChtimes {E} path.

(** What an operation of the engine reads and changes. *)
Record world (S : Type) := mkWorld { w_store : S; w_disk : gmap string File; w_env : scanEnv }.
Arguments mkWorld {S} w_store w_disk w_env.
Arguments w_store {S} w.
Arguments w_disk {S} w.
Arguments w_env {S} w.

Definition action (S E A : Type) : Type := world S -> world S * result (EngineErr E) A.

#[export] Instance action_ret S E : MRet (action S E) := fun A a w => (w, Ok a).
#[export] Instance action_bind S E : MBind (action S E) := fun A B f c w =>
  match c w with
  | (w', Ok a) => f a w'
  | (w', Err e) => (w', Err e)
  end.

Definition throw {S E A} (e : EngineErr E) : action S E A := fun w => (w, Err e).
Definition lift {S E A} (r : result (EngineErr E) A) : action S E A := fun w => (w, r).

(** A call of the store. *)
Definition call {S E A} (f : S -> S * result E A) : action S E A := fun w =>
  match f (w_store w) with
  | (s, Ok a) => (mkWorld s (w_disk w) (w_env w), Ok a)
  | (s, Err e) => (mkWorld s (w_disk w) (w_env w), Err (ErrStoreCall e))
  end.

Record ChangedFile := mkChangedFile { ChangedFile_Path : string; ChangedFile_NeededBlocks : list Block }.

Record EngineScan := mkEngineScan {
  EngineScan_FolderID : string;
  EngineScan_Changed : list ChangedFile;
  EngineScan_Deleted : list string;
  EngineScan_Inaccessible : list InaccessibleFile
}.

Record LazyHashResult := mkLazyHashResult {
  LazyHashResult_Hashed : bool;
  LazyHashResult_Path : string;
  LazyHashResult_Manifest : Manifest
}.

Definition LazyHashResult_zero : LazyHashResult := mkLazyHashResult false EmptyString Manifest_zero.

Record ManualSeedAdoptionResult := mkAdoption { Adoption_Adopted : Z; Adoption_Skipped : Z }.

Record FolderIndexState := mkIndexState {
  IndexState_Mode : string;
  IndexState_TotalFiles : Z;
  IndexState_VerifiedFiles : Z;
  IndexState_UnknownFiles : Z;
  IndexState_UnverifiedSeedFiles : Z;
  IndexState_KnownBlocks : Z;
  IndexState_BadBlocks : Z;
  IndexState_QueuedHashJobs : Z;
  IndexState_ActiveHashJobs : Z;
  IndexState_DateCorrectionsPending : Z;
  IndexState_ProvisionalReadOnly : bool
}.

Definition IndexModeVerified : string := "verified".
Definition IndexModeLazyHashing : string := "lazy-hashing".
Definition IndexModeQuickMetadata : string := "quick-metadata".
Definition HashStateAssumedValidUnverified : string := "assumed-valid-unverified".

Definition metadataChanged (previous current : Manifest) : bool :=
  bool_decide (Manifest_Size previous <> Manifest_Size current)
  || bool_decide (Manifest_ModTimeUnixNano previous <> Manifest_ModTimeUnixNano current)
  || bool_decide (Manifest_ChangeTimeUnixNano previous <> Manifest_ChangeTimeUnixNano current).

Definition seedBaselineChanged (seed current : Manifest) : bool :=
  bool_decide (Manifest_Size seed <> Manifest_Size current)
  || bool_decide (Manifest_SeedBaselineModTimeUnixNano seed <> Manifest_ModTimeUnixNano current)
  || bool_decide (Manifest_SeedBaselineChangeTimeUnixNano seed <> Manifest_ChangeTimeUnixNano current).

Definition sameBlocks (a b : list Block) : bool :=
  bool_decide (length a = length b) &&
  forallb (fun '(x, y) =>
    bool_decide (Block_Index x = Block_Index y) && bool_decide (Block_Offset x = Block_Offset y)
    && bool_decide (Block_Size x = Block_Size y) && bool_decide (Block_Hash x = Block_Hash y)) (zip a b).

Definition safeFolderPath (root relativePath : string) : option string :=
  if bool_decide (relativePath = EmptyString) || has_prefix relativePath "/" || contains relativePath "\"
  then None
  else
    let clean := path_clean relativePath in
    if bool_decide (clean = ".") || has_prefix clean "../" || bool_decide (clean = "..") then None
    else Some (path_clean (path_join root clean)).

(** The file times an operation sets: whether the call fails, what the file
    system keeps of a time, and the change time the file gets. *)
Record chtimesEnv := mkChtimesEnv { ct_fails : bool; ct_keeps : Z -> Z; ct_stamp : Z }.

Definition os_Chtimes {S E} (ct : chtimesEnv) (path : string) (mtime : Z) : action S E unit := fun w =>
  match w_disk w !! path with
  | Some f =>
      if ct_fails ct then (w, Err (ErrChtimes path))
      else (mkWorld (w_store w) (<[path := mkFile (File_data f) (ct_keeps ct mtime)]> (w_disk w))
              (mkScanEnv (env_root (w_env w)) (env_openFails (w_env w)) (env_unreadable (w_env w))
                 (fun p => if bool_decide (p = path) then ct_stamp ct else env_changeTime (w_env w) p)), Ok tt)
  | None => (w, Err (ErrChtimes path))
  end.

(** ** Operations *)

Section operations.
Context {S E : Type} `{ManifestStore S E}.
Context (sha256 : bytes -> bytes) (otherRegexp : string -> string -> bool) (cwd : string).
Context (range : forall V, gmap string V -> list (string * V)).

Definition SaveManifest (folderID rel : string) (m : Manifest) : action S E unit :=
  call (fun s => ms_SaveManifest s folderID rel m).
Definition LoadManifest (folderID rel : string) : action S E (option Manifest) :=
  call (fun s => ms_LoadManifest s folderID rel).
Definition ListManifests (folderID : string) : action S E (gmap string Manifest) :=
  call (fun s => ms_ListManifests s folderID).
Definition DeleteManifest (folderID rel : string) : action S E unit :=
  call (fun s => ms_DeleteManifest s folderID rel).

Definition folderOptions (folder : FolderConfig) : Options :=
  mkOptions (FolderConfig_BlockSize folder) (FolderConfig_Ignore folder).

Definition walk (folder : FolderConfig) (metadataOnly : bool) : action S E ScanResult := fun w =>
  let run := if metadataOnly then ScanFolderMetadataOnly sha256 otherRegexp cwd (w_env w) (w_disk w)
             else ScanFolder sha256 otherRegexp cwd (w_env w) (w_disk w) in
  match run (FolderConfig_Path folder) (folderOptions folder) with
  | Ok scan => (w, Ok scan)
  | Err e => (w, Err (ErrScanFolder e))
  end.

Definition readManifest (path : string) (blockSize : Z) (hashBlocks : bool) : action S E Manifest := fun w =>
  match (if hashBlocks then ScanFile sha256 (w_env w) (w_disk w) path blockSize
         else ScanFileMetadataOnly sha256 (w_env w) (w_disk w) path blockSize) with
  | Ok m => (w, Ok m)
  | Err e => (w, Err (ErrScanFile e))
  end.

(** One file of a scan: the changed files so far, with this one when it is
    reported. *)
Definition indexFile (folderID : string) (metadataOnly : bool) (changed : list ChangedFile) (file : ScannedFile)
    : action S E (list ChangedFile) :=
  let rel := ScannedFile_RelativePath file in
  let manifest := ScannedFile_Manifest file in
  previous ← LoadManifest folderID rel;
  if metadataOnly then
    if match previous with None => true | Some p => metadataChanged p manifest end
    then _ ← SaveManifest folderID rel manifest; mret (changed ++ [mkChangedFile rel []])
    else mret changed
  else
    let needed := match previous with
                  | None => Manifest_Blocks manifest
                  | Some p => DeltaPlan_Needed (PlanDelta p manifest)
                  end in
    _ ← SaveManifest folderID rel manifest;
    mret (match needed with [] => changed | _ :: _ => changed ++ [mkChangedFile rel needed] end).

Fixpoint indexFiles (folderID : string) (metadataOnly : bool) (changed : list ChangedFile) (files : list ScannedFile)
    : action S E (list ChangedFile) :=
  match files with
  | [] => mret changed
  | file :: files' => changed' ← indexFile folderID metadataOnly changed file; indexFiles folderID metadataOnly changed' files'
  end.

Fixpoint deleteUnseen (folderID : string) (seen : gset string) (deleted rels : list string) : action S E (list string) :=
  match rels with
  | [] => mret deleted
  | rel :: rels' =>
      if bool_decide (rel ∈ seen) then deleteUnseen folderID seen deleted rels'
      else _ ← DeleteManifest folderID rel; deleteUnseen folderID seen (deleted ++ [rel]) rels'
  end.

Definition scan (folder : FolderConfig) (metadataOnly : bool) : action S E EngineScan :=
  let folderID := FolderConfig_ID folder in
  scan ← walk folder metadataOnly;
  let seen := list_to_set ((InaccessibleFile_RelativePath <$> ScanResult_Inaccessible scan)
                           ++ (ScannedFile_RelativePath <$> ScanResult_Files scan)) in
  changed ← indexFiles folderID metadataOnly [] (ScanResult_Files scan);
  previous ← ListManifests folderID;
  deleted ← deleteUnseen folderID seen [] (range Manifest previous).*1;
  mret (mkEngineScan folderID changed deleted (ScanResult_Inaccessible scan)).

Definition Scan (folder : FolderConfig) := scan folder false.
Definition QuickIndex (folder : FolderConfig) := scan folder true.

(** *** lazy_hash.go *)

Definition with_times (m times : Manifest) : Manifest :=
  mkManifest (Manifest_Path m) (Manifest_Size m) (Manifest_BlockSize m) (Manifest_Blocks m) (Manifest_HashState m)
    (Manifest_Damaged m) (Manifest_ModTimeUnixNano times) (Manifest_ChangeTimeUnixNano times)
    (Manifest_SeedBaselineModTimeUnixNano m) (Manifest_SeedBaselineChangeTimeUnixNano m).

(** The file holds the blocks of the seed: its times become those the seed
    stands for. *)
Definition acceptSeed (ct : chtimesEnv) (fullPath : string) (blockSize : Z) (stored manifest : Manifest) : action S E Manifest :=
  if bool_decide (Manifest_ModTimeUnixNano stored <> 0) then
    _ ← os_Chtimes ct fullPath (Manifest_ModTimeUnixNano stored);
    refreshed ← readManifest fullPath blockSize false;
    mret (with_times manifest refreshed)
  else mret manifest.

Definition hashUnknown (ct : chtimesEnv) (folder : FolderConfig) (relativePath fullPath : string) (stored : Manifest) : action S E Manifest :=
  let folderID := FolderConfig_ID folder in
  let blockSize := FolderConfig_BlockSize folder in
  currentMeta ← readManifest fullPath blockSize false;
  if bool_decide (Manifest_HashState stored = HashStateAssumedValidUnverified) then
    if seedBaselineChanged stored currentMeta then
      _ ← SaveManifest folderID relativePath currentMeta; throw ErrLazyHashBaselineChanged
    else
      manifest ← readManifest fullPath blockSize true;
      if negb (sameBlocks (Manifest_Blocks manifest) (Manifest_Blocks stored))
      then throw (ErrSeedVerification folderID relativePath)
      else
        accepted ← acceptSeed ct fullPath blockSize stored manifest;
        _ ← SaveManifest folderID relativePath accepted; mret accepted
  else if metadataChanged stored currentMeta then
    _ ← SaveManifest folderID relativePath currentMeta; throw ErrLazyHashBaselineChanged
  else
    manifest ← readManifest fullPath blockSize true;
    _ ← SaveManifest folderID relativePath manifest; mret manifest.

Definition HashFileOnDemand (ct : chtimesEnv) (folder : FolderConfig) (relativePath : string) : action S E Manifest :=
  stored ← LoadManifest (FolderConfig_ID folder) relativePath;
  match stored with
  | None => throw (ErrNotIndexed (FolderConfig_ID folder) relativePath)
  | Some stored =>
      if bool_decide (Manifest_HashState stored = "complete") then mret stored
      else match safeFolderPath (FolderConfig_Path folder) relativePath with
           | None => throw (ErrRelativePath relativePath)
           | Some fullPath => hashUnknown ct folder relativePath fullPath stored
           end
  end.

Definition unhashedPaths (manifests : gmap string Manifest) : list string :=
  sort_by str_lt (List.filter (fun e => bool_decide (Manifest_HashState e.2 <> "complete")) (range Manifest manifests)).*1.

(** The result is returned with the error when the file has changed; the loop
    over the paths returns in its first round. *)
Definition HashNextUnknown (ct : chtimesEnv) (folder : FolderConfig) (w : world S)
    : world S * (LazyHashResult * option (EngineErr E)) :=
  match ListManifests (FolderConfig_ID folder) w with
  | (w', Err e) => (w', (LazyHashResult_zero, Some e))
  | (w', Ok manifests) =>
      match unhashedPaths manifests with
      | [] => (w', (LazyHashResult_zero, None))
      | rel :: _ =>
          match HashFileOnDemand ct folder rel w' with
          | (w'', Err ErrLazyHashBaselineChanged) =>
              (w'', (mkLazyHashResult false rel Manifest_zero, Some ErrLazyHashBaselineChanged))
          | (w'', Err e) => (w'', (LazyHashResult_zero, Some e))
          | (w'', Ok manifest) => (w'', (mkLazyHashResult true rel manifest, None))
          end
      end
  end.

(** *** manual_seed.go *)

Definition adopted (remote local : Manifest) : Manifest :=
  mkManifest (Manifest_Path remote) (Manifest_Size remote) (Manifest_BlockSize remote) (Manifest_Blocks remote)
    HashStateAssumedValidUnverified (Manifest_Damaged remote) (Manifest_ModTimeUnixNano remote)
    (Manifest_ChangeTimeUnixNano remote) (Manifest_ModTimeUnixNano local) (Manifest_ChangeTimeUnixNano local).

Definition adoptable (local : option Manifest) (remote : Manifest) : option Manifest :=
  match local with
  | None => None
  | Some local =>
      if bool_decide (Manifest_HashState local = "complete") || bool_decide (Manifest_Size local <> Manifest_Size remote)
      then None else Some local
  end.

Fixpoint adoptFiles (folderID : string) (result : ManualSeedAdoptionResult) (files : list (string * ScannedFile))
    : action S E ManualSeedAdoptionResult :=
  match files with
  | [] => mret result
  | (rel, remote) :: files' =>
      local ← LoadManifest folderID rel;
      match adoptable local (ScannedFile_Manifest remote) with
      | None => adoptFiles folderID (mkAdoption (Adoption_Adopted result) (Adoption_Skipped result + 1)) files'
      | Some local =>
          _ ← SaveManifest folderID rel (adopted (ScannedFile_Manifest remote) local);
          adoptFiles folderID (mkAdoption (Adoption_Adopted result + 1) (Adoption_Skipped result)) files'
      end
  end.

Definition AdoptManualSeed (folder : FolderConfig) (authoritative : gmap string ScannedFile) : action S E ManualSeedAdoptionResult :=
  adoptFiles (FolderConfig_ID folder) (mkAdoption 0 0) (range ScannedFile authoritative).

(** *** index_state.go *)

Definition countManifest (state : FolderIndexState) (manifest : Manifest) : FolderIndexState :=
  let '(mkIndexState mode total verified unknown seeds known bad queued active dates readOnly) := state in
  let total := total + 1 in
  let known := known + Z.of_nat (length (Manifest_Blocks manifest)) in
  if bool_decide (Manifest_HashState manifest = "complete")
  then mkIndexState mode total (verified + 1) unknown seeds known bad queued active dates readOnly
  else if bool_decide (Manifest_HashState manifest = HashStateAssumedValidUnverified)
  then mkIndexState mode total verified unknown (seeds + 1) known bad (queued + 1) active
         (if bool_decide (Manifest_ModTimeUnixNano manifest <> 0)
             && bool_decide (Manifest_SeedBaselineModTimeUnixNano manifest <> Manifest_ModTimeUnixNano manifest)
          then dates + 1 else dates) true
  else mkIndexState mode total verified (unknown + 1) seeds known bad (queued + 1) active dates readOnly.

Definition set_Mode (mode : string) (s : FolderIndexState) : FolderIndexState :=
  mkIndexState mode (IndexState_TotalFiles s) (IndexState_VerifiedFiles s) (IndexState_UnknownFiles s)
    (IndexState_UnverifiedSeedFiles s) (IndexState_KnownBlocks s) (IndexState_BadBlocks s) (IndexState_QueuedHashJobs s)
    (IndexState_ActiveHashJobs s) (IndexState_DateCorrectionsPending s) (IndexState_ProvisionalReadOnly s).

Definition getFolderIndexState (folderID : string) : action S E FolderIndexState :=
  manifests ← ListManifests folderID;
  let state := foldl countManifest (mkIndexState IndexModeVerified 0 0 0 0 0 0 0 0 0 false) (range Manifest manifests).*2 in
  mret (if 0 <? IndexState_UnverifiedSeedFiles state then set_Mode IndexModeLazyHashing state
        else if 0 <? IndexState_UnknownFiles state then set_Mode IndexModeQuickMetadata state
        else state).

End operations.

(** *** Paths below a root *)

Lemma clean_step_bottom s e : exists s', clean_step false (s ++ [".."]) e = s' ++ [".."].
Proof.
  unfold clean_step. destruct (_ || _); [by exists s|]. destruct (bool_decide (e = "..")) eqn:He.
  - apply bool_decide_eq_true in He as ->. destruct s as [|x s]; [by exists [".."]|]. cbn [app].
    destruct (bool_decide (x = "..")); [by exists (".." :: x :: s)|by exists s].
  - by exists (e :: s).
Qed.

Lemma clean_steps_bottom s xs : exists s', foldl (clean_step false) (s ++ [".."]) xs = s' ++ [".."].
Proof.
  revert s. induction xs as [|x xs IH]; intros s; [by exists s|]. cbn [foldl].
  destruct (clean_step_bottom s x) as [s' ->]. apply IH.
Qed.

(** A path that stays inside can be cleaned before or after it is joined. *)
Lemma clean_steps_inside rooted st s xs : Forall elem_ok s -> Forall (fun w => contains_char w slash = false) xs ->
  Forall elem_ok (foldl (clean_step false) s xs) ->
  foldl (clean_step rooted) (s ++ st) xs = foldl (clean_step false) s xs ++ st.
Proof.
  revert s. induction xs as [|e xs IH]; intros s Hs Hxs Hall; [done|]. apply Forall_cons in Hxs as [He Hxs]. cbn [foldl] in *.
  assert (e = ".." -> s <> []) as Hroom.
  { intros -> ->. destruct (clean_steps_bottom [] xs) as [s' Hs']. cbn [app] in Hs'. change (clean_step false [] "..") with [".."] in Hall.
    rewrite Hs' in Hall. apply Forall_app in Hall as [_ Hall]. apply Forall_cons in Hall as [[_ _ Hup _] _]. by destruct Hup. }
  assert (clean_step false s e = s /\ clean_step rooted (s ++ st) e = s ++ st \/
          (exists x s', s = x :: s' /\ clean_step false s e = s' /\ clean_step rooted (s ++ st) e = s' ++ st) \/
          (elem_ok e /\ clean_step false s e = e :: s /\ clean_step rooted (s ++ st) e = e :: s ++ st)) as Hstep.
  { unfold clean_step. destruct (bool_decide_reflect (e = EmptyString)) as [|H1]; [by left|].
    destruct (bool_decide_reflect (e = ".")) as [|H2]; [by left|]. cbn [orb] in *.
    destruct (bool_decide_reflect (e = "..")) as [->|H3]; [|right; right; by split].
    destruct s as [|x s']; [by destruct Hroom|]. apply Forall_cons in Hs as [[_ _ Hx _] _].
    right; left. exists x, s'. cbn [app]. by rewrite !bool_decide_eq_false_2. }
  destruct Hstep as [[Ha Hb]|[(x & s' & -> & Ha & Hb)|(Hok & Ha & Hb)]]; rewrite Ha in *; rewrite Hb.
  - by apply IH.
  - apply Forall_cons in Hs as [_ Hs]. by apply IH.
  - change (e :: s ++ st) with ((e :: s) ++ st). apply IH; [by constructor|done|done].
Qed.

Lemma safeFolderPath_clean root rel p : root <> EmptyString -> safeFolderPath root rel = Some p ->
  p = path_clean (root +:+ "/" +:+ rel).
Proof.
  intros Hroot. unfold safeFolderPath. destruct (_ || _) eqn:E1; [done|]. apply orb_false_iff in E1 as [E1 _].
  apply orb_false_iff in E1 as [E1 Habs]. apply bool_decide_eq_false in E1.
  destruct (bool_decide _ || _ || _) eqn:E2; [done|]. apply orb_false_iff in E2 as [E2 E3]. apply orb_false_iff in E2 as [E2 E4].
  apply bool_decide_eq_false in E2, E3. intros [= <-].
  destruct (path_clean_inside rel Habs E2 E3 E4) as (l & Hne & Hl & Hel & Hc). rewrite Hc.
  unfold path_join. rewrite bool_decide_eq_false_2 by done. rewrite bool_decide_eq_false_2.
  2: { destruct l as [|e l]; [done|]. apply Forall_cons in Hl as [[H1 _ _ _] _]. destruct e; [done|]. by destruct l. }
  assert (clean_elems (root +:+ "/" +:+ join "/" l) = clean_elems (root +:+ "/" +:+ rel)) as Heq.
  { rewrite clean_elems_app by done. unfold clean_elems at 2. rewrite rooted_app by done.
    change (root +:+ "/" +:+ rel) with (root +:+ String slash rel). rewrite split_on_app, foldl_app.
    unfold clean_elems in Hel. rewrite Habs in Hel.
    assert (foldl (clean_step false) [] (split_on slash rel) = rev l) as Hrev by (by rewrite <- Hel, rev_involutive).
    pose proof (clean_steps_inside (has_prefix root "/") (foldl (clean_step (has_prefix root "/")) [] (split_on slash root)) [] (split_on slash rel)) as Hin.
    cbn [app] in Hin. rewrite Hin; [|constructor|apply split_on_no_char|by rewrite Hrev; apply Forall_rev].
    rewrite Hrev, rev_app_distr, rev_involutive. done. }
  unfold path_clean. by rewrite !rooted_app, Heq by done.
Qed.

(** ** What the engine relies on *)

Section laws.
Context {St E : Type} (files : St -> string -> gmap string Manifest) (room : nat -> St -> Prop) (reliable : St -> Prop).

(** A call that reads [a] and changes no manifest. *)
Record read_law {A} (s : St) (out : St * result E A) (a : A) : Prop := {
  read_room n : room n s -> room n out.1;
  read_files f : files out.1 f = files s f;
  read_value b : out.2 = Ok b -> b = a;
  read_reliable : reliable s -> reliable out.1 /\ is_ok out.2 = true
}.

Definition wrote (before after : string -> gmap string Manifest) (folderID : string)
    (g : gmap string Manifest -> gmap string Manifest) : Prop :=
  forall f, after f = if decide (f = folderID) then g (before f) else before f.

(** A call that changes one folder, as a whole or - when it reports an error -
    possibly not at all. *)
Record write_law (s : St) (out : St * result E unit) (folderID : string)
    (g : gmap string Manifest -> gmap string Manifest) : Prop := {
  write_room n : room (S n) s -> room n out.1;
  write_files : wrote (files s) (files out.1) folderID g \/ (is_ok out.2 = false /\ forall f, files out.1 f = files s f);
  write_reliable : reliable s -> reliable out.1 /\ is_ok out.2 = true
}.
End laws.

(** [ms_files] are the manifests a store holds, [ms_room n] says that [n] more
    changes are possible before a revision would overflow, and a
    [ms_reliable] store reports no error. *)
Class ManifestStoreLaws (St E : Type) `{ManifestStore St E} := {
  ms_files : St -> string -> gmap string Manifest;
  ms_room : nat -> St -> Prop;
  ms_reliable : St -> Prop;
  ms_room_le n k s : ms_room n s -> (k <= n)%nat -> ms_room k s;
  ms_load_law s f rel : ms_room 0 s ->
    read_law ms_files ms_room ms_reliable s (ms_LoadManifest s f rel) (ms_files s f !! rel);
  ms_list_law s f : ms_room 0 s ->
    read_law ms_files ms_room ms_reliable s (ms_ListManifests s f) (ms_files s f);
  ms_save_law s f rel m : ms_room 1 s ->
    write_law ms_files ms_room ms_reliable s (ms_SaveManifest s f rel m) f (insert rel m);
  ms_delete_law s f rel : ms_room 1 s ->
    write_law ms_files ms_room ms_reliable s (ms_DeleteManifest s f rel) f (delete rel)
}.

(** ** Reasoning about actions *)

(** Every outcome of [c] from [w] satisfies [Q]. *)
Definition post {St E A} (c : action St E A) (w : world St) (Q : world St -> result (EngineErr E) A -> Prop) : Prop :=
  Q (c w).1 (c w).2.

Section post_rules.
Context {St E : Type}.

Lemma post_bind {A B} (c : action St E A) (f : A -> action St E B) w Q :
  post c w (fun w' r => match r with Ok a => post (f a) w' Q | Err e => Q w' (Err e) end) -> post (c ≫= f) w Q.
Proof. unfold post, mbind, action_bind. by destruct (c w) as [w' [a|e]]. Qed.

Lemma post_ret {A} (a : A) w (Q : world St -> result (EngineErr E) A -> Prop) : Q w (Ok a) -> post (mret a) w Q.
Proof. done. Qed.

Lemma post_throw {A} e w (Q : world St -> result (EngineErr E) A -> Prop) : Q w (Err e) -> post (throw e) w Q.
Proof. done. Qed.

Lemma post_weaken {A} (c : action St E A) w (P Q : world St -> result (EngineErr E) A -> Prop) :
  post c w P -> (forall w' r, P w' r -> Q w' r) -> post c w Q.
Proof. unfold post. auto. Qed.
End post_rules.

Section engine_logic.
Context {St E : Type} `{ManifestStoreLaws St E}.
Context (sha256 : bytes -> bytes) (otherRegexp : string -> string -> bool) (cwd : string).
Context (range : forall V, gmap string V -> list (string * V)).

Definition held (w : world St) (folderID : string) : gmap string Manifest := ms_files (w_store w) folderID.
Definition room (n : nat) (w : world St) : Prop := ms_room n (w_store w).
Definition reliable (w : world St) : Prop := ms_reliable (w_store w).

(** What an operation on the index of a folder leaves alone. *)
Record frame (folderID : string) (w w' : world St) : Prop := {
  frame_disk : w_disk w' = w_disk w;
  frame_env : w_env w' = w_env w;
  frame_others f : f <> folderID -> held w' f = held w f;
  frame_reliable : reliable w -> reliable w'
}.

#[local] Instance frame_refl folderID : Reflexive (frame folderID).
Proof. intros w. by split. Qed.

#[local] Instance frame_trans folderID : Transitive (frame folderID).
Proof.
  intros w1 w2 w3 [H1 H2 H3 H4] [H5 H6 H7 H8]. split; [congruence|congruence| |auto].
  intros f Hf. by rewrite H7, H3.
Qed.

Lemma post_read {A} folderID (call_ : St -> St * result E A) (a : A) n w Q : room n w ->
  read_law ms_files ms_room ms_reliable (w_store w) (call_ (w_store w)) a ->
  (forall w', frame folderID w w' -> room n w' -> held w' folderID = held w folderID -> Q w' (Ok a)) ->
  (forall w' e, frame folderID w w' -> room n w' -> held w' folderID = held w folderID -> ~ reliable w -> Q w' (Err (ErrStoreCall e))) ->
  post (call call_) w Q.
Proof.
  intros Hn [Hr Hf Hv Hrel] HOk HErr. unfold post, call. destruct (call_ (w_store w)) as [s r]. cbn [fst snd] in *.
  assert (frame folderID w (mkWorld s (w_disk w) (w_env w))) as Hfr.
  { split; [done|done| |]; [intros f _; apply Hf|]. intros Hw. by destruct (Hrel Hw). }
  destruct r as [b|e]; cbn [fst snd].
  - pose proof (Hv b eq_refl) as ->. apply HOk; [done|by apply Hr|apply Hf].
  - apply HErr; [done|by apply Hr|apply Hf|]. intros Hw. by destruct (Hrel Hw).
Qed.

Lemma post_write folderID (call_ : St -> St * result E unit) g n w Q : room (S n) w ->
  write_law ms_files ms_room ms_reliable (w_store w) (call_ (w_store w)) folderID g ->
  (forall w', frame folderID w w' -> room n w' -> held w' folderID = g (held w folderID) -> Q w' (Ok tt)) ->
  (forall w' e, frame folderID w w' -> room n w' ->
     held w' folderID = g (held w folderID) \/ held w' folderID = held w folderID -> ~ reliable w -> Q w' (Err (ErrStoreCall e))) ->
  post (call call_) w Q.
Proof.
  intros Hn [Hr Hf Hrel] HOk HErr. unfold post, call. destruct (call_ (w_store w)) as [s r]. cbn [fst snd] in *.
  assert (frame folderID w (mkWorld s (w_disk w) (w_env w))) as Hfr.
  { split; [done|done| |]; [|intros Hw; by destruct (Hrel Hw)]. intros f Hne.
    destruct Hf as [Hf|[_ Hf]]; [|apply Hf]. unfold held. cbn. by rewrite Hf, decide_False. }
  destruct r as [[]|e]; cbn [fst snd is_ok] in *.
  - apply HOk; [done|by apply Hr|]. destruct Hf as [Hf|[? _]]; [|done]. unfold held. cbn. by rewrite Hf, decide_True.
  - apply HErr; [done|by apply Hr| |intros Hw; by destruct (Hrel Hw)].
    destruct Hf as [Hf|[_ Hf]]; [left|right; apply Hf]. unfold held. cbn. by rewrite Hf, decide_True.
Qed.

Lemma room_le n k w : room n w -> (k <= n)%nat -> room k w.
Proof. apply ms_room_le. Qed.

Lemma post_LoadManifest folderID rel n w Q : room n w ->
  (forall w', frame folderID w w' -> room n w' -> held w' folderID = held w folderID -> Q w' (Ok (held w folderID !! rel))) ->
  (forall w' e, frame folderID w w' -> room n w' -> held w' folderID = held w folderID -> ~ reliable w -> Q w' (Err (ErrStoreCall e))) ->
  post (LoadManifest folderID rel) w Q.
Proof. intros Hn. eapply post_read; [done|]. apply ms_load_law. eapply room_le; [done|lia]. Qed.

Lemma post_ListManifests folderID n w Q : room n w ->
  (forall w', frame folderID w w' -> room n w' -> held w' folderID = held w folderID -> Q w' (Ok (held w folderID))) ->
  (forall w' e, frame folderID w w' -> room n w' -> held w' folderID = held w folderID -> ~ reliable w -> Q w' (Err (ErrStoreCall e))) ->
  post (ListManifests folderID) w Q.
Proof. intros Hn. eapply post_read; [done|]. apply ms_list_law. eapply room_le; [done|lia]. Qed.

Lemma post_SaveManifest folderID rel m n w Q : room (S n) w ->
  (forall w', frame folderID w w' -> room n w' -> held w' folderID = <[rel := m]> (held w folderID) -> Q w' (Ok tt)) ->
  (forall w' e, frame folderID w w' -> room n w' ->
     held w' folderID = <[rel := m]> (held w folderID) \/ held w' folderID = held w folderID -> ~ reliable w -> Q w' (Err (ErrStoreCall e))) ->
  post (SaveManifest folderID rel m) w Q.
Proof. intros Hn. eapply post_write; [done|]. apply ms_save_law. eapply room_le; [done|lia]. Qed.

Lemma post_DeleteManifest folderID rel n w Q : room (S n) w ->
  (forall w', frame folderID w w' -> room n w' -> held w' folderID = delete rel (held w folderID) -> Q w' (Ok tt)) ->
  (forall w' e, frame folderID w w' -> room n w' ->
     held w' folderID = delete rel (held w folderID) \/ held w' folderID = held w folderID -> ~ reliable w -> Q w' (Err (ErrStoreCall e))) ->
  post (DeleteManifest folderID rel) w Q.
Proof. intros Hn. eapply post_write; [done|]. apply ms_delete_law. eapply room_le; [done|lia]. Qed.

(** ** Scans *)

(** The manifest a scan leaves for a file it could read, and what it reports. *)
Definition indexed (metadataOnly : bool) (old : option Manifest) (m : Manifest) : Manifest :=
  match old with
  | Some p => if metadataOnly && negb (metadataChanged p m) then p else m
  | None => m
  end.

Definition change_of (metadataOnly : bool) (old : option Manifest) (file : ScannedFile) : option ChangedFile :=
  let m := ScannedFile_Manifest file in
  if metadataOnly then
    if match old with None => true | Some p => metadataChanged p m end
    then Some (mkChangedFile (ScannedFile_RelativePath file) []) else None
  else match (match old with None => Manifest_Blocks m | Some p => DeltaPlan_Needed (PlanDelta p m) end) with
       | [] => None
       | (_ :: _) as needed => Some (mkChangedFile (ScannedFile_RelativePath file) needed)
       end.

(** The only errors of indexing are those of the store. *)
Definition store_failure (w : world St) (e : EngineErr E) : Prop := (exists e', e = ErrStoreCall e') /\ ~ reliable w.

Lemma store_failure_earlier folderID w w' e : frame folderID w w' -> store_failure w' e -> store_failure w e.
Proof. intros Hfr [He Hrel]. split; [done|]. intros Hw. apply Hrel. by eapply frame_reliable. Qed.

Lemma post_indexFile folderID metadataOnly changed file n w : room (S n) w ->
  let old := held w folderID !! ScannedFile_RelativePath file in
  let next := <[ScannedFile_RelativePath file := indexed metadataOnly old (ScannedFile_Manifest file)]> (held w folderID) in
  post (indexFile folderID metadataOnly changed file) w (fun w' r =>
    frame folderID w w' /\ room n w' /\
    (held w' folderID = next \/ ~ is_ok r /\ held w' folderID = held w folderID) /\
    match r with
    | Ok changed' => changed' = changed ++ option_list (change_of metadataOnly old file)
    | Err e => store_failure w e
    end).
Proof.
  intros Hn old next. unfold indexFile. apply post_bind. eapply (post_LoadManifest folderID); [exact Hn| |].
  2: { intros w' e Hfr Hr Hh Hrel. split; [done|]. split; [by eapply room_le; [|apply Nat.le_succ_diag_r]|]. split; [|by split; [exists e|]]. right. by split; [intros []|]. }
  intros w1 Hfr1 Hr1 Hh1. fold old.
  assert (forall changed' : list ChangedFile, forall m, indexed metadataOnly old (ScannedFile_Manifest file) = m ->
    changed' = changed ++ option_list (change_of metadataOnly old file) ->
    post (_ ← SaveManifest folderID (ScannedFile_RelativePath file) m; mret changed') w1 (fun w' r =>
      frame folderID w w' /\ room n w' /\ (held w' folderID = next \/ ~ is_ok r /\ held w' folderID = held w folderID) /\
      match r with Ok c => c = changed ++ option_list (change_of metadataOnly old file) | Err e => store_failure w e end)) as Hsave.
  { intros changed' m Hm Hc. apply post_bind. apply (post_SaveManifest _ _ _ n); [done| |].
    - intros w2 Hfr2 Hr2 Hh2. apply post_ret. split; [by trans w1|]. split; [done|]. split; [left|done].
      unfold next. by rewrite Hh2, Hh1, Hm.
    - intros w2 e Hfr2 Hr2 Hh2 Hrel. split; [by trans w1|]. split; [done|]. unfold next. rewrite Hh1, <- Hm in Hh2.
      split; [|by eapply store_failure_earlier; [|split; [exists e|]]]. destruct Hh2 as [Hh2|Hh2]; [by left|right]. by split; [intros []|]. }
  destruct metadataOnly eqn:Hmo.
  - destruct (match old with None => true | Some p => metadataChanged p (ScannedFile_Manifest file) end) eqn:Hc.
    + apply Hsave; [|unfold change_of; by rewrite Hc]. unfold indexed. destruct old as [p|]; [|done]. cbn. by rewrite Hc.
    + apply post_ret. split; [done|]. split; [by eapply room_le; [|apply Nat.le_succ_diag_r]|]. split.
      * left. rewrite Hh1. unfold next. destruct old as [p|] eqn:Ho; [|done]. cbn. rewrite Hc. cbn. by rewrite insert_id.
      * unfold change_of. rewrite Hc. cbn. by rewrite app_nil_r.
  - apply Hsave; [by unfold indexed; destruct old|]. unfold change_of.
    destruct (match old with Some p => _ | None => _ end); cbn; [by rewrite app_nil_r|done].
Qed.

Lemma post_indexFiles folderID metadataOnly files changed n w :
  room (length files + n) w -> NoDup (ScannedFile_RelativePath <$> files) ->
  post (indexFiles folderID metadataOnly changed files) w (fun w' r =>
    frame folderID w w' /\ room n w' /\
    (forall rel, held w' folderID !! rel = held w folderID !! rel \/
       exists m, mkScannedFile rel m ∈ files /\ held w' folderID !! rel = Some (indexed metadataOnly (held w folderID !! rel) m)) /\
    match r with
    | Ok changed' =>
        changed' = changed ++ omap (fun file => change_of metadataOnly (held w folderID !! ScannedFile_RelativePath file) file) files /\
        forall rel m, mkScannedFile rel m ∈ files -> held w' folderID !! rel = Some (indexed metadataOnly (held w folderID !! rel) m)
    | Err e => store_failure w e
    end).
Proof.
  revert changed w. induction files as [|[rel m] files IH]; intros changed w Hn Hnd.
  { apply post_ret. split; [done|]. split; [done|]. split; [by left|]. split; [by rewrite app_nil_r|]. by intros rel m Hm%elem_of_nil. }
  apply NoDup_cons in Hnd as [Hfresh Hnd]. cbn [indexFiles].
  apply post_bind. eapply post_weaken; [apply (post_indexFile _ _ _ (mkScannedFile rel m) (length files + n)); exact Hn|].
  cbn [ScannedFile_RelativePath ScannedFile_Manifest]. intros w1 r1 (Hfr1 & Hr1 & Hh1 & Hout1).
  assert (forall x, x <> rel -> held w1 folderID !! x = held w folderID !! x) as Hother.
  { intros x Hx. destruct Hh1 as [->|[_ ->]]; [by rewrite lookup_insert_ne|done]. }
  destruct r1 as [changed1|e].
  - destruct Hh1 as [Hh1|[Hno _]]; [|by destruct Hno].
    eapply post_weaken; [by apply IH|]. intros w2 r2 (Hfr2 & Hr2 & Hh2 & Hout2).
    assert (held w2 folderID !! rel = Some (indexed metadataOnly (held w folderID !! rel) m)) as Hrel.
    { destruct (Hh2 rel) as [->|(m' & Hm' & _)]; [by rewrite Hh1, lookup_insert_eq|]. destruct Hfresh. apply list_elem_of_fmap. by exists (mkScannedFile rel m'). }
    assert (forall x m', mkScannedFile x m' ∈ files -> x <> rel) as Hdiff.
    { intros x m' Hm' ->. destruct Hfresh. apply list_elem_of_fmap. by exists (mkScannedFile rel m'). }
    split; [by trans w1|]. split; [done|]. split.
    + intros x. destruct (decide (x = rel)) as [->|Hx]; [right; exists m; split; [left|done]|].
      destruct (Hh2 x) as [->|(m' & Hm' & ->)]; [left; by apply Hother|]. right. exists m'. split; [by right|]. by rewrite Hother.
    + destruct r2 as [changed2|e]; [|by eapply store_failure_earlier].
      destruct Hout2 as [-> Hall]. split.
      * subst changed1. rewrite <- app_assoc. f_equal. cbn [omap list_omap ScannedFile_RelativePath].
        assert (omap (fun file => change_of metadataOnly (held w1 folderID !! ScannedFile_RelativePath file) file) files =
                omap (fun file => change_of metadataOnly (held w folderID !! ScannedFile_RelativePath file) file) files) as ->.
        { apply list_omap_ext. rewrite Forall2_same_length_lookup. split; [done|]. intros i x y Hx Hy. rewrite Hx in Hy. injection Hy as <-.
          destruct x as [x m']. cbn. rewrite Hother; [done|]. eapply Hdiff, list_elem_of_lookup_2, Hx. }
        by destruct (change_of _ _ _).
      * intros x m' [[= -> ->]|Hm']%elem_of_cons; [done|]. rewrite (Hall x m' Hm'), Hother; [done|]. by eapply Hdiff.
  - split; [done|]. split; [eapply room_le; [done|lia]|]. split; [|done].
    intros x. destruct (decide (x = rel)) as [->|Hx]; [|left; by apply Hother].
    destruct Hh1 as [->|[_ ->]]; [|by left]. right. exists m. split; [left|]. by rewrite lookup_insert_eq.
Qed.

Lemma post_deleteUnseen folderID (seen : gset string) deleted rels n w :
  room (length rels + n) w -> NoDup rels ->
  post (deleteUnseen folderID seen deleted rels) w (fun w' r =>
    frame folderID w w' /\ room n w' /\
    (forall rel, held w' folderID !! rel = held w folderID !! rel \/
       rel ∈ rels /\ rel ∉ seen /\ held w' folderID !! rel = None) /\
    match r with
    | Ok deleted' => deleted' = deleted ++ filter (fun rel => rel ∉ seen) rels /\
        forall rel, rel ∈ rels -> rel ∉ seen -> held w' folderID !! rel = None
    | Err e => store_failure w e
    end).
Proof.
  revert deleted w. induction rels as [|rel rels IH]; intros deleted w Hn Hnd.
  { apply post_ret. split; [done|]. split; [done|]. split; [by left|]. split; [by rewrite app_nil_r|]. by intros rel Hrel%elem_of_nil. }
  apply NoDup_cons in Hnd as [Hfresh Hnd]. cbn [deleteUnseen]. case_bool_decide as Hseen.
  - eapply post_weaken; [apply IH; [|done]|].
    { eapply room_le; [exact Hn|]. cbn. lia. }
    intros w' r (Hfr & Hr & Hh & Hout). split; [done|]. split; [done|]. split.
    + intros x. destruct (Hh x) as [|(? & ? & ?)]; [by left|right]. split; [by right|done].
    + destruct r as [deleted'|e]; [|done]. destruct Hout as [-> Hall]. rewrite filter_cons_False by (by intros []). split; [done|].
      intros x [->|Hx]%elem_of_cons Hs; [done|by apply Hall].
  - apply post_bind. apply (post_DeleteManifest _ _ (length rels + n)); [done| |].
    + intros w1 Hfr1 Hr1 Hh1. eapply post_weaken; [by apply IH|]. intros w' r (Hfr & Hr & Hh & Hout).
      assert (held w' folderID !! rel = None) as Hrel.
      { destruct (Hh rel) as [->|(? & ? & ?)]; [by rewrite Hh1, lookup_delete_eq|done]. }
      split; [by trans w1|]. split; [done|]. split.
      * intros x. destruct (decide (x = rel)) as [->|Hx]; [right; split; [left|done]|].
        destruct (Hh x) as [->|(? & ? & ?)]; [left; by rewrite Hh1, lookup_delete_ne|right; split; [by right|done]].
      * destruct r as [deleted'|e]; [|by eapply store_failure_earlier].
        destruct Hout as [-> Hall]. rewrite filter_cons_True by done. rewrite <- app_assoc. split; [done|].
        intros x [->|Hx]%elem_of_cons Hs; [done|by apply Hall].
    + intros w1 e Hfr1 Hr1 Hh1 Hrel. split; [done|]. split; [eapply room_le; [done|lia]|]. split; [|by split; [exists e|]].
      intros x. destruct (decide (x = rel)) as [->|Hx].
      * destruct Hh1 as [-> | ->]; [right|by left]. split; [left|]. split; [done|]. apply lookup_delete_eq.
      * left. destruct Hh1 as [-> | ->]; [by rewrite lookup_delete_ne|done].
Qed.

Context (range_perm : forall V (m : gmap string V), range V m ≡ₚ map_to_list m).

Lemma range_keys {V} (m : gmap string V) : (range V m).*1 ≡ₚ (map_to_list m).*1.
Proof. by rewrite range_perm. Qed.

Lemma range_NoDup {V} (m : gmap string V) : NoDup (range V m).*1.
Proof. rewrite range_keys. apply NoDup_fst_map_to_list. Qed.

Lemma elem_of_range_keys {V} (m : gmap string V) k : k ∈ (range V m).*1 <-> is_Some (m !! k).
Proof.
  rewrite range_keys, list_elem_of_fmap. split.
  - intros ([k' v] & -> & Hv). apply elem_of_map_to_list in Hv. by exists v.
  - intros [v Hv]. exists (k, v). split; [done|]. by apply elem_of_map_to_list.
Qed.

Lemma length_range {V} (m : gmap string V) : length (range V m).*1 = size m.
Proof. rewrite range_keys, length_fmap. apply length_map_to_list. Qed.

Section one_scan.
Context (folder : FolderConfig) (metadataOnly : bool).
Abbreviation folderID := (FolderConfig_ID folder).
Abbreviation root := (FolderConfig_Path folder).

(** The file of a folder at a relative path. *)
Definition file_path (rel : string) : string := root +:+ "/" +:+ rel.

(** What a scan is about, and what reading a file of it gives. *)
Definition indexable (w : world St) (rules : syncIgnoreRules) (rel : string) : Prop :=
  visible otherRegexp (w_disk w) root (folderOptions folder) rules rel.

Definition read_now (w : world St) (hashBlocks : bool) (rel : string) : result fileErr Manifest :=
  fileManifest sha256 (w_env w) (w_disk w) (file_path rel) (FolderConfig_BlockSize folder) hashBlocks.

Lemma indexable_path w rules rel : indexable w rules rel -> file_path rel ∈ dom (w_disk w).
Proof. intros [[f Hf] _ _ _]. apply elem_of_dom. by exists f. Qed.

Lemma post_walk w : post (walk (E:=E) sha256 otherRegexp cwd folder metadataOnly) w (fun w' r =>
  w' = w /\ match r with
  | Err e => exists e', e = ErrScanFolder e'
  | Ok scan => exists rules, loadSyncIgnoreRules cwd (w_env w) (w_disk w) root = Ok rules /\
      (forall rel m, mkScannedFile rel m ∈ ScanResult_Files scan <-> indexable w rules rel /\ read_now w (negb metadataOnly) rel = Ok m) /\
      (forall rel e, mkInaccessible rel e ∈ ScanResult_Inaccessible scan <-> indexable w rules rel /\ read_now w (negb metadataOnly) rel = Err e) /\
      StronglySorted (fun a b => str_lt a b = true) (ScannedFile_RelativePath <$> ScanResult_Files scan)
  end).
Proof.
  unfold post, walk. cbv zeta.
  set (run := if metadataOnly then _ else _).
  assert (run root (folderOptions folder) = scanFolder sha256 otherRegexp cwd (w_env w) (w_disk w) root (folderOptions folder) (negb metadataOnly)) as ->
    by (unfold run; by destruct metadataOnly).
  destruct (scanFolder _ _ _ _ _ _ _) as [scan|e] eqn:Hs; cbn [fst snd]; [|split; [done|by exists e]].
  split; [done|]. apply scanFolder_Ok in Hs as (rules & Hrules & _ & Hfiles & Hinacc & Hsort). by exists rules.
Qed.

(** The files of a scan are files of the disk. *)
Lemma scanned_few w rules (files : list ScannedFile) :
  NoDup (ScannedFile_RelativePath <$> files) ->
  (forall rel m, mkScannedFile rel m ∈ files -> indexable w rules rel) -> (length files <= size (w_disk w))%nat.
Proof.
  intros Hnd Hin. rewrite <- (size_dom (w_disk w)).
  replace (length files) with (length ((fun file => file_path (ScannedFile_RelativePath file)) <$> files)) by apply length_fmap.
  rewrite <- (size_list_to_set (C := gset string)).
  - apply subseteq_size. intros p Hp%elem_of_list_to_set. apply list_elem_of_fmap in Hp as ([rel m] & -> & Hm). by eapply indexable_path, Hin.
  - rewrite (list_fmap_compose ScannedFile_RelativePath file_path). apply NoDup_fmap_2; [|done].
    intros x y Hxy. unfold file_path in Hxy. apply (app_cancel_str root) in Hxy. by apply (app_cancel_str "/") in Hxy.
Qed.

(** A manifest of the folder after any part of a scan: as it was, that of the
    file, or removed with the file. *)
Definition index_between (rules : syncIgnoreRules) (w w' : world St) : Prop := forall rel,
  held w' folderID !! rel = held w folderID !! rel \/
  (exists m, indexable w rules rel /\ read_now w (negb metadataOnly) rel = Ok m /\
     held w' folderID !! rel = Some (indexed metadataOnly (held w folderID !! rel) m)) \/
  (~ indexable w rules rel /\ held w' folderID !! rel = None).

(** What a scan that succeeds leaves and reports. *)
Record scan_done (rules : syncIgnoreRules) (w w' : world St) (res : EngineScan) : Prop := {
  done_readable rel m : indexable w rules rel -> read_now w (negb metadataOnly) rel = Ok m ->
    held w' folderID !! rel = Some (indexed metadataOnly (held w folderID !! rel) m);
  done_unreadable rel e : indexable w rules rel -> read_now w (negb metadataOnly) rel = Err e ->
    held w' folderID !! rel = held w folderID !! rel;
  done_gone rel : ~ indexable w rules rel -> held w' folderID !! rel = None;
  done_changed c : c ∈ EngineScan_Changed res <-> exists rel m,
    indexable w rules rel /\ read_now w (negb metadataOnly) rel = Ok m /\
    change_of metadataOnly (held w folderID !! rel) (mkScannedFile rel m) = Some c;
  done_sorted : StronglySorted (fun a b => str_lt a b = true) (ChangedFile_Path <$> EngineScan_Changed res);
  done_deleted rel : rel ∈ EngineScan_Deleted res <-> is_Some (held w folderID !! rel) /\ ~ indexable w rules rel;
  done_deleted_once : NoDup (EngineScan_Deleted res);
  done_inaccessible rel e : mkInaccessible rel e ∈ EngineScan_Inaccessible res <->
    indexable w rules rel /\ read_now w (negb metadataOnly) rel = Err e
}.

Lemma change_of_path old file c : change_of metadataOnly old file = Some c -> ChangedFile_Path c = ScannedFile_RelativePath file.
Proof.
  unfold change_of. destruct metadataOnly.
  - destruct (match old with None => _ | Some _ => _ end); [|done]. by intros [= <-].
  - destruct (match old with None => _ | Some _ => _ end); [done|]. by intros [= <-].
Qed.

(** A list in path order stays so when it is mapped and filtered. *)
Lemma omap_sorted_paths {A B} (f : A -> option B) (key : A -> string) (key' : B -> string) (l : list A) :
  (forall a b, f a = Some b -> key' b = key a) ->
  StronglySorted (fun a b => str_lt a b = true) (key <$> l) ->
  StronglySorted (fun a b => str_lt a b = true) (key' <$> omap f l).
Proof.
  intros Hkey. induction l as [|a l IH]; [done|]. intros Hs. cbn [fmap list_fmap] in Hs. apply StronglySorted_inv in Hs as [Hs Ha].
  cbn [omap list_omap]. destruct (f a) as [b|] eqn:Hf; [|by apply IH]. cbn [fmap list_fmap]. constructor; [by apply IH|].
  rewrite Forall_fmap, Forall_forall. intros b' (a' & Ha' & Hf')%list_elem_of_omap. cbn.
  rewrite (Hkey _ _ Hf), (Hkey _ _ Hf'). rewrite Forall_fmap, Forall_forall in Ha. by apply Ha.
Qed.

Section finished.
Context (w : world St) (rules : syncIgnoreRules) (found : ScanResult).
Context (Hfiles : forall rel m, mkScannedFile rel m ∈ ScanResult_Files found <->
  indexable w rules rel /\ read_now w (negb metadataOnly) rel = Ok m).
Context (Hinacc : forall rel e, mkInaccessible rel e ∈ ScanResult_Inaccessible found <->
  indexable w rules rel /\ read_now w (negb metadataOnly) rel = Err e).

Definition seen_paths : gset string := list_to_set ((InaccessibleFile_RelativePath <$> ScanResult_Inaccessible found)
  ++ (ScannedFile_RelativePath <$> ScanResult_Files found)).

Lemma seen_exactly rel : rel ∈ seen_paths <-> indexable w rules rel.
Proof.
  unfold seen_paths. rewrite elem_of_list_to_set, elem_of_app, !list_elem_of_fmap. split.
  - intros [([r e] & -> & He)|([r m] & -> & Hm)]; [by apply Hinacc in He as []|by apply Hfiles in Hm as []].
  - intros Hv. destruct (read_now w (negb metadataOnly) rel) as [m|e] eqn:Hm.
    + right. exists (mkScannedFile rel m). split; [done|]. by apply Hfiles.
    + left. exists (mkInaccessible rel e). split; [done|]. by apply Hinacc.
Qed.

Lemma indexed_between w1 : (forall rel, held w1 folderID !! rel = held w folderID !! rel \/
    exists m, mkScannedFile rel m ∈ ScanResult_Files found /\ held w1 folderID !! rel = Some (indexed metadataOnly (held w folderID !! rel) m)) ->
  index_between rules w w1.
Proof.
  intros Hh rel. destruct (Hh rel) as [|(m & Hm & Hx)]; [by left|right; left]. apply Hfiles in Hm as [].  by exists m.
Qed.

(** Indexing adds no more manifests than the disk has files. *)
Lemma index_size w1 : (forall rel, held w1 folderID !! rel = held w folderID !! rel \/
    exists m, mkScannedFile rel m ∈ ScanResult_Files found /\ held w1 folderID !! rel = Some (indexed metadataOnly (held w folderID !! rel) m)) ->
  (size (held w1 folderID) <= length (ScanResult_Files found) + size (held w folderID))%nat.
Proof.
  clear Hfiles Hinacc rules. intros Hh. rewrite <- !size_dom.
  trans (size ((list_to_set (ScannedFile_RelativePath <$> ScanResult_Files found) : gset string) ∪ dom (held w folderID))).
  - apply subseteq_size. intros rel [m Hm]%elem_of_dom. apply elem_of_union. destruct (Hh rel) as [Hx|(m' & Hm' & _)].
    + right. apply elem_of_dom. rewrite <- Hx. by exists m.
    + left. apply elem_of_list_to_set, list_elem_of_fmap. by exists (mkScannedFile rel m').
  - trans (size (list_to_set (ScannedFile_RelativePath <$> ScanResult_Files found) : gset string) + size (dom (held w folderID)))%nat.
    + rewrite size_union_alt. apply Nat.add_le_mono_l, subseteq_size. set_solver.
    + apply Nat.add_le_mono_r. clear. induction (ScanResult_Files found) as [|x l IH]; cbn; [by rewrite size_empty|].
      rewrite size_union_alt, size_singleton. cbn. apply le_n_S. trans (size (list_to_set (ScannedFile_RelativePath <$> l) : gset string)); [|done].
      apply subseteq_size. set_solver.
Qed.

Lemma finish_scan w1 w2 changed deleted :
  StronglySorted (fun a b => str_lt a b = true) (ScannedFile_RelativePath <$> ScanResult_Files found) ->
  (forall rel, held w1 folderID !! rel = held w folderID !! rel \/
    exists m, mkScannedFile rel m ∈ ScanResult_Files found /\ held w1 folderID !! rel = Some (indexed metadataOnly (held w folderID !! rel) m)) ->
  changed = omap (fun file => change_of metadataOnly (held w folderID !! ScannedFile_RelativePath file) file) (ScanResult_Files found) ->
  (forall rel m, mkScannedFile rel m ∈ ScanResult_Files found -> held w1 folderID !! rel = Some (indexed metadataOnly (held w folderID !! rel) m)) ->
  (forall rel, held w2 folderID !! rel = held w1 folderID !! rel \/
    rel ∈ (range Manifest (held w1 folderID)).*1 /\ rel ∉ seen_paths /\ held w2 folderID !! rel = None) ->
  deleted = filter (fun rel => rel ∉ seen_paths) (range Manifest (held w1 folderID)).*1 ->
  (forall rel, rel ∈ (range Manifest (held w1 folderID)).*1 -> rel ∉ seen_paths -> held w2 folderID !! rel = None) ->
  scan_done rules w w2 (mkEngineScan folderID changed deleted (ScanResult_Inaccessible found)).
Proof.
  intros Hsort H1 -> H1all H2 -> H2all.
  assert (forall rel, rel ∈ seen_paths -> held w2 folderID !! rel = held w1 folderID !! rel) as Hkeep.
  { intros rel Hs. by destruct (H2 rel) as [|(_ & ? & _)]. }
  assert (forall rel, rel ∉ seen_paths -> held w1 folderID !! rel = held w folderID !! rel) as Hunseen.
  { intros rel Hs. destruct (H1 rel) as [|(m & Hm & _)]; [done|]. destruct Hs. apply seen_exactly. by apply Hfiles in Hm as []. }
  split; cbn [EngineScan_Changed EngineScan_Deleted EngineScan_Inaccessible].
  - intros rel m Hv Hm. rewrite Hkeep by (by apply seen_exactly). apply H1all. by apply Hfiles.
  - intros rel e Hv He. rewrite Hkeep by (by apply seen_exactly). destruct (H1 rel) as [|(m & Hm & _)]; [done|].
    apply Hfiles in Hm as [_ Hm]. congruence.
  - intros rel Hv. assert (rel ∉ seen_paths) as Hs by (by rewrite seen_exactly).
    destruct (held w1 folderID !! rel) as [m|] eqn:Hh; [apply H2all; [apply elem_of_range_keys; by exists m|done]|].
    destruct (H2 rel) as [->|(_ & _ & ?)]; done.
  - intros c. rewrite list_elem_of_omap. split.
    + intros ([rel m] & Hm & Hc). exists rel, m. apply Hfiles in Hm as []. done.
    + intros (rel & m & Hv & Hm & Hc). exists (mkScannedFile rel m). split; [by apply Hfiles|done].
  - apply (omap_sorted_paths _ ScannedFile_RelativePath); [|done]. intros file c. apply change_of_path.
  - intros rel. rewrite list_elem_of_filter, elem_of_range_keys, seen_exactly. split.
    + intros [Hv Hs]. rewrite Hunseen in Hs by (by rewrite seen_exactly). done.
    + intros [Hs Hv]. rewrite Hunseen by (by rewrite seen_exactly). done.
  - apply NoDup_filter, range_NoDup.
  - done.
Qed.
End finished.

(** Every outcome of a scan. *)
Lemma post_scan w n : room (2 * size (w_disk w) + size (held w folderID) + n) w ->
  post (scan sha256 otherRegexp cwd range folder metadataOnly) w (fun w' r =>
    frame folderID w w' /\ room n w' /\
    match r with
    | Ok res => exists rules, loadSyncIgnoreRules cwd (w_env w) (w_disk w) root = Ok rules /\ scan_done rules w w' res
    | Err (ErrScanFolder e) => w' = w
    | Err e => ~ reliable w
    end /\
    (w' = w \/ exists rules, loadSyncIgnoreRules cwd (w_env w) (w_disk w) root = Ok rules /\ index_between rules w w')).
Proof.
  intros Hn. unfold scan. apply post_bind. eapply post_weaken; [apply post_walk|]. intros w0 [found|e] [-> Hwalk].
  2: { destruct Hwalk as [e' ->]. split; [done|]. split; [eapply room_le; [done|lia]|]. split; [done|by left]. }
  destruct Hwalk as (rules & Hrules & Hfiles & Hinacc & Hsort). cbv zeta. fold (seen_paths found).
  assert (NoDup (ScannedFile_RelativePath <$> ScanResult_Files found)) as Hnd by (by apply strictly_NoDup).
  assert (length (ScanResult_Files found) <= size (w_disk w))%nat as Hfew.
  { eapply (scanned_few w rules); [done|]. intros rel m Hm. by apply Hfiles in Hm as []. }
  apply post_bind. eapply post_weaken.
  { apply (post_indexFiles _ _ _ _ (size (w_disk w) + size (held w folderID) + n)); [|done]. eapply room_le; [exact Hn|lia]. }
  intros w1 r1 (Hfr1 & Hr1 & Hh1 & Hout1). pose proof (indexed_between w rules found Hfiles w1 Hh1) as Hb1.
  assert (forall w', frame folderID w1 w' -> room n w' -> held w' folderID = held w1 folderID \/ index_between rules w w' -> ~ reliable w ->
    frame folderID w w' /\ room n w' /\ ~ reliable w /\
    (w' = w \/ exists rules, loadSyncIgnoreRules cwd (w_env w) (w_disk w) root = Ok rules /\ index_between rules w w')) as Hfail.
  { intros w' Hfr' Hr' Hh' Hrel. split; [by trans w1|]. split; [done|]. split; [done|]. right. exists rules. split; [done|].
    destruct Hh' as [Hh'|]; [|done]. intros rel. rewrite Hh'. apply Hb1. }
  destruct r1 as [changed|e]; [|].
  2: { split; [done|]. split; [eapply room_le; [done|lia]|]. split; [by destruct Hout1 as [[e' ->] ?]|]. right. by exists rules. }
  destruct Hout1 as [Hchanged Hall1].
  apply post_bind. apply (post_ListManifests _ (size (w_disk w) + size (held w folderID) + n)); [done| |].
  2: { intros w2 e Hfr2 Hr2 Hh2 Hrel. apply Hfail; [done|eapply room_le; [done|lia]|by left|]. intros Hw. apply Hrel. by eapply frame_reliable. }
  intros w2 Hfr2 Hr2 Hh2. apply post_bind. eapply post_weaken.
  { apply (post_deleteUnseen _ _ _ _ n); [|apply range_NoDup]. eapply room_le; [exact Hr2|].
    rewrite length_range. pose proof (index_size w found w1 Hh1). lia. }
  intros w3 r3 (Hfr3 & Hr3 & Hh3 & Hout3). rewrite Hh2 in Hh3.
  assert (index_between rules w w3) as Hb3.
  { intros rel. destruct (Hh3 rel) as [->|(_ & Hs & Hnone)]; [apply Hb1|]. right. right. split; [|done].
    by rewrite <- (seen_exactly w rules found Hfiles Hinacc). }
  assert (frame folderID w w3) as Hfr by (trans w1; [done|]; by trans w2).
  destruct r3 as [deleted|e].
  - destruct Hout3 as [Hdeleted Hall3]. apply post_ret. split; [done|]. split; [done|]. split; [|right; by exists rules].
    exists rules. split; [done|]. by apply (finish_scan w rules found Hfiles Hinacc w1).
  - split; [done|]. split; [done|]. split; [|right; by exists rules].
    assert (store_failure w e) as [[e' ->] ?] by (eapply store_failure_earlier; [by trans w1|exact Hout3]). done.
Qed.
End one_scan.

(** ** Trust: a complete manifest with the times of its file describes it *)

Lemma read_facts env disk path bs hashBlocks m : fileManifest sha256 env disk path bs hashBlocks = Ok m ->
  exists f, disk !! path = Some f /\ 0 < bs /\ env_unreadable env path = None /\
    Manifest_Size m = file_size f /\ Manifest_BlockSize m = bs /\
    Manifest_ModTimeUnixNano m = File_mtime f /\ Manifest_ChangeTimeUnixNano m = env_changeTime env path /\
    Manifest_HashState m = (if hashBlocks then "complete" else "unknown") /\
    (hashBlocks = true -> file_size f <= maxInt64 -> Manifest_Blocks m = tiles sha256 (File_data f) bs).
Proof.
  unfold fileManifest. destruct (env_unreadable env path) eqn:Hu; [done|]. destruct hashBlocks.
  - destruct (BuildManifest sha256 disk path bs) as [m0|] eqn:HB; [|done]. intros [= <-].
    pose proof HB as HB'. apply BuildManifest_ok in HB' as (f & Hf & Hbs & Hs & Ht). exists f.
    unfold BuildManifest in HB. rewrite (proj2 (Z.leb_gt _ _)) in HB by done. rewrite Hf in HB. injection HB as <-. cbn in *.
    by split_and?.
  - destruct (bs <=? 0) eqn:Hbs; [done|]. apply Z.leb_gt in Hbs. destruct (disk !! path) as [f|]; [|done]. intros [= <-]. by exists f.
Qed.

(** [m] describes the content of [f], in blocks of its own block size. *)
Record faithful (m : Manifest) (f : File) : Prop := {
  faithful_size : Manifest_Size m = file_size f;
  faithful_blocks : Manifest_Blocks m = tiles sha256 (File_data f) (Manifest_BlockSize m)
}.

(** The file system behind a history of the engine: the size, modification time and
    change time that a scan sees at a path identify the content of the file there, so
    that it can be recalled from them.  Which changes of a file keep this true
    depends on the platform ([changeTimeUnixNano] is the inode's change time on
    Linux, the time of creation on macOS, the modification time on Windows); no
    change does that replaces a file without a trace in these times
    ([restored_times_missed]). *)
Section trust.
Context (folder : FolderConfig) (recall : string -> Z -> Z -> Z -> bytes).
Abbreviation folderID := (FolderConfig_ID folder).
Abbreviation root := (FolderConfig_Path folder).

Record identified (disk : gmap string File) (env : scanEnv) : Prop := {
  id_small p f : disk !! p = Some f -> file_size f <= maxInt64;
  id_clean p : is_Some (disk !! p) -> path_clean p = p;
  id_content p f : disk !! p = Some f -> File_data f = recall p (file_size f) (File_mtime f) (env_changeTime env p)
}.

(** The content that the size and times of a manifest stand for. *)
Definition recalled (rel : string) (m : Manifest) : File :=
  mkFile (recall (path_clean (file_path folder rel)) (Manifest_Size m) (Manifest_ModTimeUnixNano m) (Manifest_ChangeTimeUnixNano m))
    (Manifest_ModTimeUnixNano m).

(** Every manifest marked complete describes the content that its size and times stand for. *)
Definition trusted (w : world St) : Prop :=
  forall rel m, held w folderID !! rel = Some m -> Manifest_HashState m = "complete" -> faithful m (recalled rel m).

(** What the steps of the engine and of the world outside have in common. *)
Definition evolves (w w' : world St) : Prop :=
  forall rel m, held w' folderID !! rel = Some m -> Manifest_HashState m = "complete" ->
    held w folderID !! rel = Some m \/ faithful m (recalled rel m).

Lemma evolves_trusted w w' : trusted w -> evolves w w' -> trusted w'.
Proof. intros T G rel m Hm Hc. destruct (G rel m Hm Hc) as [Hold|]; [|done]. by apply T. Qed.

Lemma evolves_refl w w' : held w' folderID = held w folderID -> evolves w w'.
Proof. intros Hh rel m. rewrite Hh. by left. Qed.

(** A manifest with the size and times of a file describes it, if it describes what
    they stand for. *)
Lemma faithful_now disk env rel m f : identified disk env -> disk !! path_clean (file_path folder rel) = Some f ->
  Manifest_Size m = file_size f -> Manifest_ModTimeUnixNano m = File_mtime f ->
  Manifest_ChangeTimeUnixNano m = env_changeTime env (path_clean (file_path folder rel)) ->
  faithful m (recalled rel m) <-> faithful m f.
Proof.
  intros I Hf Hs Hmt Hct. unfold recalled. rewrite Hs, Hmt, Hct, <- (id_content _ _ I _ _ Hf).
  split; intros [H1 H2]; by split.
Qed.

(** A manifest just read is faithful. *)
Lemma read_faithful disk env rel path bs m : identified disk env -> path = path_clean (file_path folder rel) ->
  fileManifest sha256 env disk path bs true = Ok m -> faithful m (recalled rel m).
Proof.
  intros I -> Hm. apply read_facts in Hm as (f & Hf & Hbs & _ & Hs & Hb & Hmt & Hct & _ & Ht).
  apply (faithful_now disk env rel m f); [done..|]. split; [done|]. rewrite Hb. apply Ht; [done|]. by eapply id_small.
Qed.

Lemma scan_evolves metadataOnly w : identified (w_disk w) (w_env w) ->
  room (2 * size (w_disk w) + size (held w folderID)) w -> evolves w (scan sha256 otherRegexp cwd range folder metadataOnly w).1.
Proof.
  intros I Hroom. pose proof (post_scan folder metadataOnly w 0) as H1. rewrite Nat.add_0_r in H1. specialize (H1 Hroom).
  unfold post in H1. destruct H1 as (Hfr & _ & _ & Hb).
  destruct Hb as [->|(rules & _ & Hb)]; [by apply evolves_refl|]. intros rel m Hm Hc.
  destruct (Hb rel) as [Hold|[(m' & Hv & Hread & Hnew)|[_ Hnone]]]; [left; congruence| |congruence].
  rewrite Hnew in Hm. injection Hm as <-. unfold indexed in *. unfold read_now in Hread.
  assert (Manifest_HashState m' = "complete" -> faithful m' (recalled rel m')) as Hfresh.
  { intros Hc'. destruct metadataOnly; [apply read_facts in Hread as (? & _ & _ & _ & _ & _ & _ & _ & Hst & _); by rewrite Hst in Hc'|].
    pose proof Hread as (f & Hf & _)%read_facts.
    apply (read_faithful (w_disk w) (w_env w) rel (file_path folder rel) (FolderConfig_BlockSize folder)); [done| |done].
    symmetry. apply (id_clean _ _ I). by exists f. }
  destruct (held w folderID !! rel) as [p|]; [|by right; apply Hfresh].
  destruct (metadataOnly && negb (metadataChanged p m')); [by left|]. right. by apply Hfresh.
Qed.

(** *** Adopting a copy *)

Lemma adopt_evolves authoritative w : room (size authoritative) w ->
  frame folderID w (AdoptManualSeed range folder authoritative w).1 /\ evolves w (AdoptManualSeed range folder authoritative w).1.
Proof.
  intros Hroom.
  assert (forall files result n w0, room (length files + n) w0 ->
    post (adoptFiles folderID result files) w0 (fun w' r => frame folderID w0 w' /\
      forall rel m, held w' folderID !! rel = Some m -> Manifest_HashState m = "complete" -> held w0 folderID !! rel = Some m)) as Hadopt.
  { induction files as [|[rel remote] files IH]; intros result n w0 Hn; [by apply post_ret|]. cbn [adoptFiles].
    apply post_bind. apply (post_LoadManifest folderID rel (S (length files + n))); [done| |].
    2: { intros w1 e Hfr1 _ Hh1 _. split; [done|]. by rewrite Hh1. }
    intros w1 Hfr1 Hr1 Hh1. destruct (adoptable _ _) as [local|].
    - apply post_bind. apply (post_SaveManifest _ _ _ (length files + n)); [done| |].
      + intros w2 Hfr2 Hr2 Hh2. eapply post_weaken; [by apply (IH _ n)|]. intros w3 r (Hfr3 & Hh3). split; [trans w1; [done|]; by trans w2|].
        intros x m Hm Hc. specialize (Hh3 x m Hm Hc). rewrite Hh2, Hh1 in Hh3. apply lookup_insert_Some in Hh3 as [[_ <-]|[_ ?]]; done.
      + intros w2 e Hfr2 _ Hh2 _. split; [by trans w1|]. intros x m Hm Hc. rewrite Hh1 in Hh2.
        destruct Hh2 as [Hh2|Hh2]; rewrite Hh2 in Hm; [|done]. apply lookup_insert_Some in Hm as [[_ <-]|[_ ?]]; done.
    - eapply post_weaken; [apply (IH _ n); eapply room_le; [done|lia]|]. intros w3 r (Hfr3 & Hh3). split; [by trans w1|].
      intros x m Hm Hc. rewrite <- Hh1. by apply Hh3. }
  destruct (Hadopt (range ScannedFile authoritative) (mkAdoption 0 0) 0%nat w) as [Hfr Hh].
  { rewrite Nat.add_0_r, <- (length_fmap fst), length_range. done. }
  split; [done|]. intros rel m Hm Hc. left. by apply Hh.
Qed.

(** *** Hashing a file *)

(** Saving one manifest: an evolution when the manifest is not complete, or
    describes what it stands for. *)
Lemma save_evolves {A} rel m (r : result (EngineErr E) A) w n : room (S n) w ->
  post (_ ← SaveManifest folderID rel m; lift r) w (fun w' _ => frame folderID w w' /\
    ((Manifest_HashState m = "complete" -> faithful m (recalled rel m)) -> evolves w w')).
Proof.
  intros Hn. apply post_bind.
  assert (forall w1, held w1 folderID = <[rel := m]> (held w folderID) \/ held w1 folderID = held w folderID ->
    (Manifest_HashState m = "complete" -> faithful m (recalled rel m)) -> evolves w w1) as Hev.
  { intros w1 Hh1 Hm x m' Hm' Hc. destruct Hh1 as [Hh1|Hh1]; rewrite Hh1 in Hm'; [|by left].
    apply lookup_insert_Some in Hm' as [[<- <-]|[_ ?]]; [right; by apply Hm|by left]. }
  apply (post_SaveManifest _ _ _ n); [done| |].
  - intros w1 Hfr1 _ Hh1. unfold post, lift. split; [done|]. apply Hev. by left.
  - intros w1 e Hfr1 _ Hh1 _. split; [done|]. by apply Hev.
Qed.

Lemma post_readManifest path bs hashBlocks w (Q : world St -> result (EngineErr E) Manifest -> Prop) :
  (forall m, fileManifest sha256 (w_env w) (w_disk w) path bs hashBlocks = Ok m -> Q w (Ok m)) ->
  (forall e, fileManifest sha256 (w_env w) (w_disk w) path bs hashBlocks = Err e -> Q w (Err (ErrScanFile e))) ->
  post (readManifest sha256 path bs hashBlocks) w Q.
Proof.
  intros HOk HErr. unfold post, readManifest.
  assert ((if hashBlocks then ScanFile sha256 (w_env w) (w_disk w) path bs else ScanFileMetadataOnly sha256 (w_env w) (w_disk w) path bs)
          = fileManifest sha256 (w_env w) (w_disk w) path bs hashBlocks) as -> by by destruct hashBlocks.
  destruct (fileManifest _ _ _ _ _ _); [by apply HOk|by apply HErr].
Qed.

(** What holds of a world whose files are identified holds of one with the same files. *)
Definition when_identified (w0 : world St) (w' : world St) : Prop := identified (w_disk w') (w_env w') -> evolves w0 w'.

(** Accepting a seed: hashing found its blocks, and the times of the peer are set
    if they differ. *)
Lemma accept_evolves ct path mt_stored manifest rel w n : identified (w_disk w) (w_env w) ->
  room (S n) w -> path = path_clean (file_path folder rel) ->
  fileManifest sha256 (w_env w) (w_disk w) path (FolderConfig_BlockSize folder) true = Ok manifest ->
  post (accepted ← acceptSeed sha256 ct path (FolderConfig_BlockSize folder) mt_stored manifest;
        _ ← SaveManifest folderID rel accepted; mret accepted) w (fun w' _ => when_identified w w').
Proof.
  intros I Hn Hp Hm. pose proof Hm as (f & Hf & _ & _ & Hsize & Hbs & _ & _ & _ & Hblocks)%read_facts.
  specialize (Hblocks eq_refl (id_small _ _ I _ _ Hf)).
  apply post_bind. unfold acceptSeed. case_bool_decide.
  - apply post_bind. unfold post at 1, os_Chtimes. rewrite Hf. destruct (ct_fails ct); cbn [fst snd].
    { intros _. by apply evolves_refl. }
    set (w1 := mkWorld _ _ _). apply post_bind. apply post_readManifest; [|intros e _ _; by apply evolves_refl].
    intros times Ht. apply post_ret. eapply post_weaken; [apply (save_evolves _ _ (Ok _) w1 n); done|].
    intros w2 r [Hfr Hev] I2. rewrite (frame_disk _ _ _ Hfr), (frame_env _ _ _ Hfr) in I2.
    apply Hev. intros _. apply read_facts in Ht as (g & Hg & _ & _ & Hs & _ & Hmt & Hct & _).
    assert (g = mkFile (File_data f) (ct_keeps ct (Manifest_ModTimeUnixNano mt_stored))) as ->.
    { unfold w1 in Hg. cbn [w_disk] in Hg. rewrite lookup_insert_eq in Hg. congruence. }
    subst path. apply (faithful_now (w_disk w1) (w_env w1) rel _ (mkFile (File_data f) (ct_keeps ct (Manifest_ModTimeUnixNano mt_stored))));
      [done|done|exact Hsize|done|done|split; [exact Hsize|]].
    cbn [with_times Manifest_Blocks Manifest_BlockSize File_data]. by rewrite Hblocks, Hbs.
  - apply post_ret. eapply post_weaken; [apply (save_evolves _ _ (Ok _) w n); done|].
    intros w2 r [_ Hev] _. apply Hev. intros _. by eapply read_faithful.
Qed.

Lemma hash_evolves ct rel w : root <> EmptyString -> identified (w_disk w) (w_env w) -> room 1 w ->
  when_identified w (HashFileOnDemand sha256 ct folder rel w).1.
Proof.
  intros Hroot I Hn. change (post (HashFileOnDemand sha256 ct folder rel) w (fun w' _ => when_identified w w')).
  apply post_bind. apply (post_LoadManifest folderID rel 1); [done| |].
  2: { intros w1 e Hfr1 _ Hh1 _ _. by apply evolves_refl. }
  intros w1 Hfr1 Hr1 Hh1.
  assert (identified (w_disk w1) (w_env w1)) as I1 by (by rewrite (frame_disk _ _ _ Hfr1), (frame_env _ _ _ Hfr1)).
  assert (when_identified w w1) as Hsame by (intros _; by apply evolves_refl).
  assert (forall w2, when_identified w1 w2 -> when_identified w w2) as Hfrom.
  { intros w2 Hw I2 x m Hm Hc. rewrite <- Hh1. by apply Hw. }
  destruct (held w folderID !! rel) as [stored|]; [|done]. case_bool_decide as Hcomplete; [done|].
  destruct (safeFolderPath root rel) as [path|] eqn:Hpath; [|done]. apply (safeFolderPath_clean _ _ _ Hroot) in Hpath.
  change (path = path_clean (file_path folder rel)) in Hpath.
  eapply post_weaken; [|intros w' r Hev; apply Hfrom, Hev].
  assert (when_identified w1 w1) as Hsame1 by (intros _; by apply evolves_refl).
  apply post_bind. apply post_readManifest; [|done]. intros meta Hmeta.
  assert (post (_ ← SaveManifest folderID rel meta; throw ErrLazyHashBaselineChanged) w1 (fun (w' : world St) (_ : result (EngineErr E) Manifest) => when_identified w1 w')) as Hreset.
  { eapply post_weaken; [apply (save_evolves _ _ (Err _) w1 0); done|]. intros w2 r [_ Hev] _. apply Hev.
    apply read_facts in Hmeta as (? & _ & _ & _ & _ & _ & _ & _ & Hst & _). intros Hc. by rewrite Hst in Hc. }
  case_bool_decide; [destruct (seedBaselineChanged _ _); [done|]|destruct (metadataChanged _ _); [done|]].
  - apply post_bind. apply post_readManifest; [|done]. intros m Hm. destruct (negb _); [done|].
    by apply (accept_evolves _ _ _ _ _ _ 0).
  - apply post_bind. apply post_readManifest; [|done]. intros m Hm.
    eapply post_weaken; [apply (save_evolves _ _ (Ok _) w1 0); done|]. intros w2 r [_ Hev] _. apply Hev. intros _. by eapply read_faithful.
Qed.

Lemma next_evolves ct w : root <> EmptyString -> identified (w_disk w) (w_env w) -> room 1 w ->
  when_identified w (HashNextUnknown sha256 range ct folder w).1.
Proof.
  intros Hroot I Hn. unfold HashNextUnknown.
  assert (post (ListManifests folderID) w (fun w1 _ => frame folderID w w1 /\ room 1 w1 /\ held w1 folderID = held w folderID)) as Hlist.
  { apply (post_ListManifests folderID 1); [done|by intros w1|by intros w1 e]. }
  unfold post in Hlist. destruct (ListManifests folderID w) as [w1 r1]. cbn [fst snd] in Hlist. destruct Hlist as (Hfr1 & Hr1 & Hh1).
  assert (when_identified w w1) as Hsame by (intros _; by apply evolves_refl).
  destruct r1 as [manifests|e]; [|done]. destruct (unhashedPaths range manifests) as [|rel rels]; [done|].
  assert (identified (w_disk w1) (w_env w1)) as I1 by (by rewrite (frame_disk _ _ _ Hfr1), (frame_env _ _ _ Hfr1)).
  pose proof (hash_evolves ct rel w1 Hroot I1 Hr1) as Hev.
  assert (when_identified w (HashFileOnDemand sha256 ct folder rel w1).1) as Hnext.
  { intros I2 x m Hm Hc. rewrite <- Hh1. by apply Hev. }
  destruct (HashFileOnDemand sha256 ct folder rel w1) as [w2 [m|e]]; [done|]. by destruct e.
Qed.

(** *** Histories *)

(** The engine's operations on the folder, whatever their outcome, and what
    happens to the files outside of them.  After each step, size and times still
    identify the contents. *)
Inductive step : world St -> world St -> Prop :=
| step_scan metadataOnly w :
    room (2 * size (w_disk w) + size (held w folderID)) w ->
    step w (scan sha256 otherRegexp cwd range folder metadataOnly w).1
| step_hash ct rel w : room 1 w ->
    identified (w_disk (HashFileOnDemand sha256 ct folder rel w).1) (w_env (HashFileOnDemand sha256 ct folder rel w).1) ->
    step w (HashFileOnDemand sha256 ct folder rel w).1
| step_next ct w : room 1 w ->
    identified (w_disk (HashNextUnknown sha256 range ct folder w).1) (w_env (HashNextUnknown sha256 range ct folder w).1) ->
    step w (HashNextUnknown sha256 range ct folder w).1
| step_adopt authoritative w : room (size authoritative) w ->
    step w (AdoptManualSeed range folder authoritative w).1
| step_outside disk env w : identified disk env -> step w (mkWorld (w_store w) disk env).

Lemma step_trusted w w' : root <> EmptyString -> step w w' ->
  identified (w_disk w) (w_env w) /\ trusted w -> identified (w_disk w') (w_env w') /\ trusted w'.
Proof.
  intros Hroot Hs [I T]. assert (identified (w_disk w') (w_env w') /\ evolves w w') as [I' Hev]; [|split; [done|by eapply evolves_trusted]].
  destruct Hs as [metadataOnly w Hroom|ct rel w Hroom I'|ct w Hroom I'|authoritative w Hroom|disk env w I'].
  - pose proof (post_scan folder metadataOnly w 0) as H1. rewrite Nat.add_0_r in H1. destruct (H1 Hroom) as (Hfr & _).
    rewrite (frame_disk _ _ _ Hfr), (frame_env _ _ _ Hfr). split; [done|]. by apply scan_evolves.
  - split; [done|]. by apply hash_evolves.
  - split; [done|]. by apply next_evolves.
  - destruct (adopt_evolves authoritative w Hroom) as [Hfr Hev]. by rewrite (frame_disk _ _ _ Hfr), (frame_env _ _ _ Hfr).
  - split; [done|]. by apply evolves_refl.
Qed.

Lemma history_trusted w w' : root <> EmptyString -> rtc step w w' ->
  identified (w_disk w) (w_env w) /\ trusted w -> identified (w_disk w') (w_env w') /\ trusted w'.
Proof. intros Hroot. induction 1 as [|w1 w2 w3 Hab _ IH]; [done|]. intros T. apply IH. by eapply step_trusted. Qed.
End trust.

(** A scan needs room for its own changes only. *)
Lemma scan_room folder metadataOnly w n : room (2 * size (w_disk w) + size (held w (FolderConfig_ID folder)) + n) w ->
  room n (scan sha256 otherRegexp cwd range folder metadataOnly w).1.
Proof. intros Hn. by destruct (post_scan folder metadataOnly w n Hn) as (_ & ? & _). Qed.

(** [C12] A quick index can be trusted as far as file times can. Suppose that at every
    moment the size, modification time and change time that a scan sees at a path
    identify the content there, and that files do not change while an operation
    runs. Start from an index in which every manifest marked complete describes the
    content that its size and times stand for, such as an empty one, and let any
    history of the engine's operations run - scans, quick indexes, hashing, adoption
    of seeds, with any outcome and any call of the store failing - with any changes
    of the files between the operations. If a quick index then succeeds, every file
    of the folder that can be read has a manifest with its present size and times,
    and that manifest describes the present content whenever it is marked complete.
    A change that leaves no trace in these times, possible on macOS and Windows, is
    missed: see [restored_times_missed]. *)
Theorem quick_index_trusted folder recall w w' w'' res :
  FolderConfig_Path folder <> EmptyString -> 0 < FolderConfig_BlockSize folder ->
  identified recall (w_disk w) (w_env w) -> trusted folder recall w -> rtc (step folder recall) w w' ->
  room (2 * size (w_disk w') + size (held w' (FolderConfig_ID folder))) w' ->
  QuickIndex sha256 otherRegexp cwd range folder w' = (w'', Ok res) ->
  exists rules, loadSyncIgnoreRules cwd (w_env w') (w_disk w') (FolderConfig_Path folder) = Ok rules /\
    forall rel f, indexable folder w' rules rel -> w_disk w' !! file_path folder rel = Some f ->
      env_unreadable (w_env w') (file_path folder rel) = None ->
      exists m, held w'' (FolderConfig_ID folder) !! rel = Some m /\ Manifest_Size m = file_size f /\
        Manifest_ModTimeUnixNano m = File_mtime f /\
        Manifest_ChangeTimeUnixNano m = env_changeTime (w_env w') (file_path folder rel) /\
        (Manifest_HashState m = "complete" -> faithful m f).
Proof.
  intros Hroot Hbs I T Hs Hroom HQ. destruct (history_trusted folder recall w w' Hroot Hs (conj I T)) as [I' T'].
  pose proof (post_scan folder true w' 0) as Hp. rewrite Nat.add_0_r in Hp. specialize (Hp Hroom).
  unfold post in Hp. unfold QuickIndex in HQ. rewrite HQ in Hp. cbn [fst snd] in Hp. destruct Hp as (Hfr & _ & (rules & Hrules & Hdone) & _).
  exists rules. split; [done|]. intros rel f Hv Hf Hu.
  assert (exists m, read_now folder w' false rel = Ok m) as [m Hm].
  { unfold read_now, fileManifest. rewrite Hu, (proj2 (Z.leb_gt _ _)) by done. rewrite Hf. eauto. }
  eexists. split; [by eapply (done_readable _ _ _ _ _ _ Hdone)|].
  pose proof Hm as (f' & Hf' & _ & _ & Hsz & _ & Hmt & Hct & Hst & _)%read_facts. assert (f' = f) as -> by congruence.
  assert (Manifest_HashState m = "complete" -> False) as Hunknown by (intros Hc; by rewrite Hst in Hc).
  unfold indexed. destruct (held w' (FolderConfig_ID folder) !! rel) as [p|] eqn:Hp; [|by split_and?].
  cbn [andb]. destruct (metadataChanged p m) eqn:Hch; cbn [negb]; [by split_and?|].
  unfold metadataChanged in Hch. apply orb_false_iff in Hch as [Hch H3]. apply orb_false_iff in Hch as [H1 H2].
  apply bool_decide_eq_false, dec_stable in H1, H2, H3.
  split_and?; [by rewrite H1|by rewrite H2|by rewrite H3|]. intros Hc.
  assert (path_clean (file_path folder rel) = file_path folder rel) as Hclean by (apply (id_clean _ _ _ I'); by exists f).
  apply (faithful_now folder recall (w_disk w') (w_env w') rel p f); [done|by rewrite Hclean|by rewrite H1|by rewrite H2|by rewrite Hclean, H3|].
  by apply T'.
Qed.

(** [C24] A scan that succeeds leaves an index that describes the folder: every
    file that can be read has a manifest of its content, files that cannot be
    read keep the manifest they had, and manifests of files that are gone or
    ignored are deleted.  It reports exactly the files that need blocks, with
    the blocks they need and in path order, the deleted paths and the files it
    could not read.  A scan that fails for an error of the store has treated some
    of the manifests so and left the others as they were; nothing else changes. *)
Theorem Scan_exact folder w :
  0 < FolderConfig_BlockSize folder -> (forall p f, w_disk w !! p = Some f -> file_size f <= maxInt64) ->
  room (2 * size (w_disk w) + size (held w (FolderConfig_ID folder))) w ->
  let '(w', r) := Scan sha256 otherRegexp cwd range folder w in
  w_disk w' = w_disk w /\ w_env w' = w_env w /\ (forall f, f <> FolderConfig_ID folder -> held w' f = held w f) /\
  (w' = w \/ exists rules, loadSyncIgnoreRules cwd (w_env w) (w_disk w) (FolderConfig_Path folder) = Ok rules /\ index_between folder false rules w w') /\
  match r with
  | Err e => (exists e', e = ErrScanFolder e' /\ w' = w) \/ ~ reliable w
  | Ok res => exists rules, loadSyncIgnoreRules cwd (w_env w) (w_disk w) (FolderConfig_Path folder) = Ok rules /\
      let old := held w (FolderConfig_ID folder) in
      let unreadable rel := env_unreadable (w_env w) (file_path folder rel) in
      (forall rel f, indexable folder w rules rel -> w_disk w !! file_path folder rel = Some f -> unreadable rel = None ->
         exists m, held w' (FolderConfig_ID folder) !! rel = Some m /\ Manifest_HashState m = "complete" /\
           describes sha256 (FolderConfig_BlockSize folder) f m) /\
      (forall rel, indexable folder w rules rel -> unreadable rel <> None -> held w' (FolderConfig_ID folder) !! rel = old !! rel) /\
      (forall rel, ~ indexable folder w rules rel -> held w' (FolderConfig_ID folder) !! rel = None) /\
      (forall rel needed, mkChangedFile rel needed ∈ EngineScan_Changed res <->
         indexable folder w rules rel /\ unreadable rel = None /\ needed <> [] /\
         exists m, held w' (FolderConfig_ID folder) !! rel = Some m /\
           needed = match old !! rel with None => Manifest_Blocks m | Some p => DeltaPlan_Needed (PlanDelta p m) end) /\
      StronglySorted (fun a b => str_lt a b = true) (ChangedFile_Path <$> EngineScan_Changed res) /\
      NoDup (EngineScan_Deleted res) /\
      (forall rel, rel ∈ EngineScan_Deleted res <-> is_Some (old !! rel) /\ ~ indexable folder w rules rel) /\
      (forall rel, (exists e, mkInaccessible rel e ∈ EngineScan_Inaccessible res) <-> indexable folder w rules rel /\ unreadable rel <> None)
  end.
Proof.
  intros Hbs Hmax Hroom. pose proof (post_scan folder false w 0) as Hp. rewrite Nat.add_0_r in Hp. specialize (Hp Hroom).
  unfold post in Hp. unfold Scan. destruct (scan _ _ _ _ _ _ w) as [w' r]. cbn [fst snd] in Hp. destruct Hp as (Hfr & _ & Hout & Hb).
  split; [apply Hfr|]. split; [apply Hfr|]. split; [apply Hfr|]. split; [done|].
  destruct r as [res|e]; [|destruct e; try (by right); by left; eexists].
  destruct Hout as (rules & Hrules & [D1 D2 D3 D4 D5 D6 D7 D8]). exists rules. split; [done|]. cbv zeta. cbn [negb] in *.
  assert (forall rel, indexable folder w rules rel -> env_unreadable (w_env w) (file_path folder rel) = None ->
    exists m, read_now folder w true rel = Ok m) as Hread.
  { intros rel [[f Hf] _ _ _] Hu. by apply (fileManifest_readable _ _ _ _ _ f). }
  assert (forall rel, env_unreadable (w_env w) (file_path folder rel) <> None -> exists e, read_now folder w true rel = Err e) as Hfails.
  { intros rel Hu. unfold read_now, fileManifest. destruct (env_unreadable _ _); [by eexists|done]. }
  assert (forall rel m, indexable folder w rules rel -> read_now folder w true rel = Ok m -> held w' (FolderConfig_ID folder) !! rel = Some m) as Hstored.
  { intros rel m Hv Hm. rewrite (D1 rel m Hv Hm). unfold indexed. by destruct (held w _ !! rel). }
  split_and?.
  - intros rel f Hv Hf Hu. destruct (Hread rel Hv Hu) as [m Hm]. exists m. split; [by apply Hstored|].
    pose proof Hm as (_ & _ & _ & _ & _ & _ & _ & _ & Hst & _)%read_facts. split; [done|].
    apply (fileManifest_Ok _ _ _ _ _ _ f) in Hm as (_ & _ & _ & ?); [done|done|by eapply Hmax].
  - intros rel Hv Hu. destruct (Hfails rel Hu) as [e He]. by eapply D2.
  - done.
  - intros rel needed. rewrite D4. unfold change_of. cbn [ScannedFile_RelativePath ScannedFile_Manifest]. split.
    + intros (x & m & Hv & Hm & Hc).
      pose proof Hm as (_ & _ & _ & Hu & _)%read_facts. pose proof (Hstored x m Hv Hm) as Hst.
      destruct (match held w (FolderConfig_ID folder) !! x with None => _ | Some _ => _ end) as [|b bs] eqn:Hn; [done|]. injection Hc as -> <-.
      split_and?; [done|done|done|]. exists m. by rewrite Hn.
    + intros (Hv & Hu & Hne & m & Hm & ->). destruct (Hread rel Hv Hu) as [m' Hm']. pose proof (Hstored rel m' Hv Hm') as Hst.
      assert (m' = m) as -> by congruence. exists rel, m. split; [done|]. split; [done|].
      destruct (match held w (FolderConfig_ID folder) !! rel with None => _ | Some _ => _ end); done.
  - done.
  - done.
  - done.
  - intros rel. split.
    + intros [e [Hv He]%D8]. split; [done|]. intros Hu. destruct (Hread rel Hv Hu) as [m Hm]. congruence.
    + intros [Hv Hu]. destruct (Hfails rel Hu) as [e He]. exists e. by apply D8.
Qed.

(** ** Hashing the files of an index *)

Section hashing.
Context (ct : chtimesEnv) (folder : FolderConfig).
Abbreviation folderID := (FolderConfig_ID folder).

Definition complete (m : Manifest) : bool := bool_decide (Manifest_HashState m = "complete").

(** The file of an indexed path, when it can be read. *)
Definition hashable (w : world St) (rel : string) (m : Manifest) : Prop :=
  Manifest_HashState m <> HashStateAssumedValidUnverified /\
  exists path f, safeFolderPath (FolderConfig_Path folder) rel = Some path /\ w_disk w !! path = Some f /\
    env_unreadable (w_env w) path = None /\ file_size f <= maxInt64.

(** [m] describes the file of an indexed path. *)
Definition describes_file (w : world St) (rel : string) (m : Manifest) : Prop :=
  exists path f, safeFolderPath (FolderConfig_Path folder) rel = Some path /\ w_disk w !! path = Some f /\ faithful m f.

(** How many rounds a manifest may still take: one to notice that its file has
    changed, one to hash it. *)
Definition weight (env : scanEnv) (disk : gmap string File) (rel : string) (m : Manifest) : nat :=
  if complete m then 0
  else match safeFolderPath (FolderConfig_Path folder) rel with
       | None => 2
       | Some path => match fileManifest sha256 env disk path (FolderConfig_BlockSize folder) false with
                      | Ok meta => if metadataChanged m meta then 2 else 1
                      | Err _ => 2
                      end
       end.

Definition pending (w : world St) : nat :=
  sum_list_with (fun e => weight (w_env w) (w_disk w) e.1 e.2) (map_to_list (held w folderID)).

Lemma metadataChanged_refl m : metadataChanged m m = false.
Proof. unfold metadataChanged. rewrite !bool_decide_eq_false_2; [done|intros Hne; by apply Hne..]. Qed.

Lemma weight_le env disk rel m : (weight env disk rel m <= 2)%nat.
Proof. unfold weight. destruct (complete m); [lia|]. destruct (safeFolderPath _ _); [|lia]. destruct (fileManifest _ _ _ _ _ _); [|lia]. destruct (metadataChanged _ _); lia. Qed.

Lemma weight_complete env disk rel m : weight env disk rel m = 0%nat -> complete m = true.
Proof.
  unfold weight. destruct (complete m); [done|]. destruct (safeFolderPath _ _); [|done]. destruct (fileManifest _ _ _ _ _ _); [|done].
  by destruct (metadataChanged _ _).
Qed.

(** Replacing a manifest by one of less weight. *)
Lemma pending_insert (f : string * Manifest -> nat) (ms : gmap string Manifest) rel m m' : ms !! rel = Some m ->
  (sum_list_with f (map_to_list (<[rel := m']> ms)) + f (rel, m) = sum_list_with f (map_to_list ms) + f (rel, m'))%nat.
Proof.
  intros Hm. rewrite <- (insert_delete_id ms rel m Hm) at 2. rewrite <- (insert_delete_eq ms rel m').
  rewrite !map_to_list_insert by apply lookup_delete_eq. cbn. lia.
Qed.

Lemma pending_le w : (pending w <= 2 * size (held w folderID))%nat.
Proof.
  unfold pending. rewrite <- length_map_to_list. induction (map_to_list (held w folderID)) as [|[rel m] l IH]; cbn; [lia|].
  pose proof (weight_le (w_env w) (w_disk w) rel m). cbn in IH. lia.
Qed.

Lemma unhashed_first manifests : match unhashedPaths range manifests with
  | [] => forall rel m, manifests !! rel = Some m -> complete m = true
  | rel :: _ => exists m, manifests !! rel = Some m /\ complete m = false /\
      forall rel' m', manifests !! rel' = Some m' -> complete m' = false -> str_lt rel' rel = false
  end.
Proof.
  assert (forall rel, rel ∈ unhashedPaths range manifests <-> exists m, manifests !! rel = Some m /\ complete m = false) as Hin.
  { intros rel. unfold unhashedPaths, complete. rewrite elem_of_sort_by, list_elem_of_fmap. split.
    - intros ([r m] & -> & Hm). apply list_elem_of_In, filter_In in Hm as [Hm Hc]. apply list_elem_of_In in Hm.
      rewrite range_perm in Hm. apply elem_of_map_to_list in Hm. exists m. split; [done|].
      apply bool_decide_eq_true in Hc. by apply bool_decide_eq_false.
    - intros (m & Hm & Hc). exists (rel, m). split; [done|]. apply list_elem_of_In, filter_In. split.
      + apply list_elem_of_In. rewrite range_perm. by apply elem_of_map_to_list.
      + apply bool_decide_eq_false in Hc. by apply bool_decide_eq_true. }
  destruct (unhashedPaths range manifests) as [|rel rels] eqn:Hu.
  - intros rel m Hm. destruct (complete m) eqn:Hc; [done|]. assert (rel ∈ []) as []%elem_of_nil. apply Hin. by exists m.
  - destruct (proj1 (Hin rel)) as (m & Hm & Hc); [left|]. exists m. split; [done|]. split; [done|]. intros rel' m' Hm' Hc'.
    unfold unhashedPaths in Hu. pose proof Hu as Hu'. apply sort_by_head in Hu as [_ Hleast]; [|apply _]. apply Hleast.
    rewrite <- (elem_of_sort_by str_lt), Hu'. apply Hin. by exists m'.
Qed.

(** Hashing a file that can be read. *)
Lemma hash_progress rel m w n : 0 < FolderConfig_BlockSize folder -> reliable w -> room (S n) w ->
  held w folderID !! rel = Some m -> complete m = false -> hashable w rel m ->
  post (HashFileOnDemand sha256 ct folder rel) w (fun w' r => frame folderID w w' /\ room n w' /\
    exists m', (r = Err ErrLazyHashBaselineChanged \/ r = Ok m') /\ held w' folderID = <[rel := m']> (held w folderID) /\
      weight (w_env w) (w_disk w) rel m = S (weight (w_env w) (w_disk w) rel m') /\
      (complete m' = true -> r = Ok m' /\ describes_file w rel m') /\
      (complete m' = false -> hashable w rel m')).
Proof.
  intros Hbs Hrel Hn Hm Hc (Hseed & path & f & Hpath & Hf & Hu & Hsz). apply post_bind.
  apply (post_LoadManifest folderID rel (S n)); [done| |by intros].
  intros w1 Hfr1 Hr1 Hh1. rewrite Hm. unfold complete in Hc. rewrite Hc. apply bool_decide_eq_false in Hc. rewrite Hpath.
  assert (forall hb, exists got, fileManifest sha256 (w_env w) (w_disk w) path (FolderConfig_BlockSize folder) hb = Ok got) as Hread.
  { intros hb. unfold fileManifest, BuildManifest. rewrite Hu, Hf, (proj2 (Z.leb_gt _ _)) by done. destruct hb; eauto. }
  assert (forall m', (complete m' = true -> describes_file w rel m') ->
    (complete m' = false -> hashable w rel m') -> weight (w_env w) (w_disk w) rel m = S (weight (w_env w) (w_disk w) rel m') ->
    forall r : result (EngineErr E) Manifest, r = Err ErrLazyHashBaselineChanged /\ complete m' = false \/ r = Ok m' ->
    post (_ ← SaveManifest folderID rel m'; lift r) w1 (fun w' r => frame folderID w w' /\ room n w' /\
      exists m', (r = Err ErrLazyHashBaselineChanged \/ r = Ok m') /\ held w' folderID = <[rel := m']> (held w folderID) /\
        weight (w_env w) (w_disk w) rel m = S (weight (w_env w) (w_disk w) rel m') /\
        (complete m' = true -> r = Ok m' /\ describes_file w rel m') /\
        (complete m' = false -> hashable w rel m'))) as Hsave.
  { intros m' Hdone Hopen Hw r Hout. apply post_bind. apply (post_SaveManifest _ _ _ n); [done| |].
    2: { intros w2 e _ _ _ Hno. destruct Hno. by eapply frame_reliable. }
    intros w2 Hfr2 Hr2 Hh2. unfold post, lift. cbn [fst snd]. split; [by trans w1|]. split; [done|].
    exists m'. rewrite Hh2, Hh1. split; [by destruct Hout as [[-> _]|]; [left|right]|]. split; [done|]. split; [done|]. split; [|done].
    intros Hcm. split; [|by apply Hdone]. destruct Hout as [[_ Hno]|]; [congruence|done]. }
  unfold hashUnknown. apply post_bind. apply post_readManifest; rewrite (frame_disk _ _ _ Hfr1), (frame_env _ _ _ Hfr1).
  2: { intros e He. destruct (Hread false) as [meta Hmeta]. congruence. }
  intros meta Hmeta. rewrite bool_decide_eq_false_2 by done.
  pose proof Hmeta as (f' & Hf' & _ & _ & Hs & _ & Hmt & Hct & Hst & _)%read_facts. assert (f' = f) as -> by congruence. cbn in Hst.
  assert (weight (w_env w) (w_disk w) rel m = if metadataChanged m meta then 2%nat else 1%nat) as Hw.
  { unfold weight, complete. by rewrite bool_decide_eq_false_2, Hpath, Hmeta by done. }
  destruct (metadataChanged m meta) eqn:Hchange.
  - refine (Hsave meta _ _ _ (Err ErrLazyHashBaselineChanged) _).
    + unfold complete. rewrite Hst. done.
    + intros _. split; [by rewrite Hst|]. by exists path, f.
    + rewrite Hw. f_equal. unfold weight, complete. rewrite Hst, (bool_decide_eq_false_2 ("unknown" = "complete")) by done.
      by rewrite Hpath, Hmeta, metadataChanged_refl.
    + left. split; [done|]. unfold complete. by rewrite Hst.
  - apply post_bind. apply post_readManifest; rewrite (frame_disk _ _ _ Hfr1), (frame_env _ _ _ Hfr1).
    2: { intros e He. destruct (Hread true) as [got Hgot]. congruence. }
    intros got Hgot. pose proof Hgot as (f' & Hf'' & _ & _ & Hs' & Hb' & _ & _ & Hst' & Ht')%read_facts. assert (f' = f) as -> by congruence.
    assert (complete got = true) as Hcg by (unfold complete; by rewrite Hst').
    refine (Hsave got _ _ _ (Ok got) _).
    + intros _. exists path, f. split; [done|]. split; [done|]. split; [done|]. rewrite Hb'. by apply Ht'.
    + congruence.
    + rewrite Hw. unfold weight. by rewrite Hcg.
    + by right.
Qed.

(** One call of HashNextUnknown. *)
Definition round (w : world St) : world St := (HashNextUnknown sha256 range ct folder w).1.

Definition all_hashable (w : world St) : Prop := forall rel m,
  held w folderID !! rel = Some m -> complete m = false -> hashable w rel m.

Lemma frame_hashable w w' rel m : frame folderID w w' -> hashable w rel m -> hashable w' rel m.
Proof. intros Hfr. unfold hashable. by rewrite (frame_disk _ _ _ Hfr), (frame_env _ _ _ Hfr). Qed.

Lemma round_progress w n : 0 < FolderConfig_BlockSize folder -> reliable w -> room (S n) w -> all_hashable w ->
  let '(w', (res, err)) := HashNextUnknown sha256 range ct folder w in
  frame folderID w w' /\ room n w' /\
  ((forall rel m, held w folderID !! rel = Some m -> complete m = true) /\ held w' folderID = held w folderID /\
     res = LazyHashResult_zero /\ err = None \/
   exists rel m m', held w folderID !! rel = Some m /\ complete m = false /\ held w' folderID = <[rel := m']> (held w folderID) /\
     weight (w_env w) (w_disk w) rel m = S (weight (w_env w) (w_disk w) rel m') /\
     (complete m' = true -> describes_file w rel m') /\ (complete m' = false -> hashable w rel m') /\
     (err = Some ErrLazyHashBaselineChanged \/ res = mkLazyHashResult true rel m' /\ err = None)).
Proof.
  intros Hbs Hrel Hn Hall. unfold HashNextUnknown.
  assert (post (ListManifests folderID) w (fun w1 r => frame folderID w w1 /\ room (S n) w1 /\ held w1 folderID = held w folderID /\ r = Ok (held w folderID))) as Hlist.
  { apply (post_ListManifests folderID (S n)); [done|by intros w1|by intros w1 e]. }
  unfold post in Hlist. destruct (ListManifests folderID w) as [w1 r1]. cbn [fst snd] in Hlist. destruct Hlist as (Hfr1 & Hr1 & Hh1 & ->).
  pose proof (unhashed_first (held w folderID)) as Hfirst. destruct (unhashedPaths range (held w folderID)) as [|rel rels].
  { split; [done|]. split; [eapply room_le; [done|lia]|]. left. by split_and?. }
  destruct Hfirst as (m & Hm & Hc & _).
  assert (hashable w1 rel m) as Hable by (eapply frame_hashable; [done|]; by apply Hall).
  pose proof (hash_progress rel m w1 n Hbs) as Hp. rewrite Hh1 in Hp.
  specialize (Hp (frame_reliable _ _ _ Hfr1 Hrel) Hr1 Hm Hc Hable). unfold post in Hp.
  destruct (HashFileOnDemand sha256 ct folder rel w1) as [w2 r2]. cbn [fst snd] in Hp.
  destruct Hp as (Hfr2 & Hr2 & m' & Hout & Hh2 & Hw & Hdone & Hopen).
  rewrite (frame_disk _ _ _ Hfr1), (frame_env _ _ _ Hfr1) in Hw.
  assert (frame folderID w w2) as Hfr by (by trans w1).
  assert (describes_file w1 rel m' -> describes_file w rel m') as Hdescr.
  { unfold describes_file. by rewrite (frame_disk _ _ _ Hfr1). }
  assert (hashable w1 rel m' -> hashable w rel m') as Hback.
  { unfold hashable. by rewrite (frame_disk _ _ _ Hfr1), (frame_env _ _ _ Hfr1). }
  assert (complete m' = true -> describes_file w rel m') as Hfaithful by (intros Hcm; by destruct (Hdone Hcm) as [_ ?%Hdescr]).
  assert (complete m' = false -> hashable w rel m') as Hagain by auto.
  destruct Hout as [-> | ->]; (split; [done|]; split; [done|]; right; exists rel, m, m'; split_and?; try done); [by left|by right].
Qed.

Section rounds.
Context (w : world St) (Hbs : 0 < FolderConfig_BlockSize folder) (Hrel : reliable w).

(** A state between the rounds that started at [w]. *)
Record rounds_from (w1 : world St) : Prop := {
  rounds_frame : frame folderID w w1;
  rounds_dom : dom (held w1 folderID) = dom (held w folderID);
  rounds_held rel m : held w1 folderID !! rel = Some m ->
    held w folderID !! rel = Some m \/ describes_file w rel m \/ complete m = false;
  rounds_hashable : all_hashable w1
}.

Lemma rounds_step n w1 : rounds_from w1 -> room (S n) w1 ->
  (forall rel m, held w1 folderID !! rel = Some m -> complete m = true) /\
    (HashNextUnknown sha256 range ct folder w1).2 = (LazyHashResult_zero, None) \/
  rounds_from (round w1) /\ room n (round w1) /\ pending w1 = S (pending (round w1)).
Proof.
  intros [Hfr Hdom Hheld Hall] Hn. pose proof (round_progress w1 n Hbs (frame_reliable _ _ _ Hfr Hrel) Hn Hall) as Hp. unfold round.
  destruct (HashNextUnknown sha256 range ct folder w1) as [w2 [res err]]. cbn [fst snd]. destruct Hp as (Hfr2 & Hr2 & Hout).
  destruct Hout as [(Hdone & _ & -> & ->)|(rel & m & m' & Hm & Hc & Hh2 & Hw & Hfaith & Hopen & _)]; [by left|right].
  assert (describes_file w1 rel m' -> describes_file w rel m') as Hdescr.
  { unfold describes_file. by rewrite (frame_disk _ _ _ Hfr). }
  split; [split|split; [done|]].
  - by trans w1.
  - rewrite Hh2, dom_insert_lookup_L, Hdom; [done|by exists m].
  - intros x mx Hx. rewrite Hh2 in Hx. apply lookup_insert_Some in Hx as [[<- <-]|[_ Hx]]; [|by apply Hheld].
    right. destruct (complete m') eqn:Hcm; [left; by apply Hdescr, Hfaith|by right].
  - intros x mx Hx Hcx. eapply frame_hashable; [done|]. rewrite Hh2 in Hx.
    apply lookup_insert_Some in Hx as [[<- <-]|[_ Hx]]; [by apply Hopen|by apply Hall].
  - unfold pending. rewrite (frame_disk _ _ _ Hfr2), (frame_env _ _ _ Hfr2), Hh2.
    pose proof (pending_insert (fun e => weight (w_env w1) (w_disk w1) e.1 e.2) (held w1 folderID) rel m m' Hm) as Hsum. cbn [fst snd] in Hsum. lia.
Qed.

Lemma rounds_complete p w1 : rounds_from w1 -> pending w1 = p -> room (S p) w1 ->
  exists k, (k <= p)%nat /\ rounds_from (Nat.iter k round w1) /\
    (forall rel m, held (Nat.iter k round w1) folderID !! rel = Some m -> complete m = true) /\
    (HashNextUnknown sha256 range ct folder (Nat.iter k round w1)).2 = (LazyHashResult_zero, None).
Proof.
  revert w1. induction p as [|p IH]; intros w1 Hfrom Hp Hn.
  - destruct (rounds_step 0 w1 Hfrom Hn) as [[Hdone Hnothing]|(_ & _ & Hp')]; [|lia]. by exists 0%nat.
  - destruct (rounds_step (S p) w1 Hfrom Hn) as [[Hdone Hnothing]|(Hfrom' & Hn' & Hp')]; [exists 0%nat; split_and?; [lia|done..]|].
    destruct (IH (round w1)) as (k & Hk & Hrest); [done|lia|done|]. exists (S k). rewrite Nat.iter_succ_r. split; [lia|done].
Qed.
End rounds.

(** [C37] Hashing catches up. When no call of the store fails, every manifest that is
    not hashed yet is of a readable file below the folder and none of them is a seed
    still to be verified, then after at most two calls of HashNextUnknown for each
    manifest of the folder - those that find a changed file report just that - every
    manifest is complete; those that were not before describe their files, the
    others are as they were, and a further call has nothing to do. A file that
    cannot be read, or a seed that does not verify, stops the hashing of all paths
    after it: see [HashNextUnknown_blocked]. *)
Theorem HashNextUnknown_completes w : 0 < FolderConfig_BlockSize folder -> reliable w ->
  room (S (2 * size (held w folderID))) w -> all_hashable w ->
  exists k, (k <= 2 * size (held w folderID))%nat /\
    let w' := Nat.iter k round w in
    frame folderID w w' /\ dom (held w' folderID) = dom (held w folderID) /\
    (forall rel m, held w' folderID !! rel = Some m -> complete m = true /\
       (held w folderID !! rel = Some m \/ describes_file w rel m)) /\
    (HashNextUnknown sha256 range ct folder w').2 = (LazyHashResult_zero, None).
Proof.
  intros Hbs Hrel Hroom Hall. pose proof (pending_le w) as Hle.
  destruct (rounds_complete w Hbs Hrel (pending w) w) as (k & Hk & [Hfr Hdom Hheld _] & Hdone & Hnothing); [|done|eapply room_le; [done|lia]|].
  { split; [done|done|by left|done]. }
  exists k. split; [lia|]. cbv zeta. split; [done|]. split; [done|]. split; [|done]. intros rel m Hm. split; [by eapply Hdone|].
  destruct (Hheld rel m Hm) as [|[|Hc]]; [by left|by right|]. by rewrite (Hdone rel m Hm) in Hc.
Qed.

(** A file that cannot be read stops the rounds: no path after it is hashed. *)
Theorem HashNextUnknown_blocked w rel m path text : room 0 w -> reliable w ->
  held w folderID !! rel = Some m -> complete m = false ->
  (forall rel' m', held w folderID !! rel' = Some m' -> complete m' = false -> rel' = rel \/ str_lt rel rel' = true) ->
  safeFolderPath (FolderConfig_Path folder) rel = Some path -> env_unreadable (w_env w) path = Some text ->
  forall k, held (Nat.iter k round w) folderID = held w folderID /\
    (HashNextUnknown sha256 range ct folder (Nat.iter k round w)).2 = (LazyHashResult_zero, Some (ErrScanFile (FileUnreadable text))).
Proof.
  intros Hroom Hrel Hm Hc Hfirst Hpath Hu.
  assert (forall w1, frame folderID w w1 -> room 0 w1 -> held w1 folderID = held w folderID ->
    frame folderID w (round w1) /\ room 0 (round w1) /\ held (round w1) folderID = held w folderID /\
    (HashNextUnknown sha256 range ct folder w1).2 = (LazyHashResult_zero, Some (ErrScanFile (FileUnreadable text)))) as Hround.
  { intros w1 Hfr1 Hr1 Hh1. unfold round, HashNextUnknown.
    assert (post (ListManifests folderID) w1 (fun w2 r => frame folderID w w2 /\ room 0 w2 /\ held w2 folderID = held w folderID /\ r = Ok (held w folderID))) as Hlist.
    { apply (post_ListManifests folderID 0); [done| |].
      - intros w2 Hfr2 Hr2 Hh2. rewrite Hh2, Hh1. split; [by trans w1|done].
      - intros w2 e _ _ _ Hno. destruct Hno. by eapply frame_reliable. }
    unfold post in Hlist. destruct (ListManifests folderID w1) as [w2 r2]. cbn [fst snd] in Hlist. destruct Hlist as (Hfr2 & Hr2 & Hh2 & ->).
    pose proof (unhashed_first (held w folderID)) as Hhead. destruct (unhashedPaths range (held w folderID)) as [|rel' rels].
    { specialize (Hhead rel m Hm). congruence. }
    destruct Hhead as (m' & Hm' & Hc' & Hleast). assert (rel' = rel) as ->.
    { destruct (Hfirst rel' m' Hm' Hc') as [|Hlt]; [done|]. specialize (Hleast rel m Hm Hc). congruence. }
    assert (post (HashFileOnDemand sha256 ct folder rel) w2 (fun w3 r => frame folderID w w3 /\ room 0 w3 /\ held w3 folderID = held w folderID /\
      r = Err (ErrScanFile (FileUnreadable text)))) as Hhash.
    { apply post_bind. apply (post_LoadManifest folderID rel 0); [done| |].
      2: { intros w3 e _ _ _ Hno. destruct Hno. by eapply frame_reliable. }
      intros w3 Hfr3 Hr3 Hh3. rewrite Hh2, Hm. unfold complete in Hc. rewrite Hc, Hpath.
      assert (frame folderID w w3) as Hfr by (by trans w2).
      apply post_bind. apply post_readManifest; unfold fileManifest; rewrite (frame_env _ _ _ Hfr), Hu; [done|].
      intros e [= <-]. by rewrite Hh3. }
    unfold post in Hhash. destruct (HashFileOnDemand sha256 ct folder rel w2) as [w3 r3]. cbn [fst snd] in Hhash.
    by destruct Hhash as (Hfr3 & Hr3 & Hh3 & ->). }
  intros k. enough (frame folderID w (Nat.iter k round w) /\ room 0 (Nat.iter k round w) /\ held (Nat.iter k round w) folderID = held w folderID) as (Hfr & Hr & Hh).
  { split; [done|]. by apply Hround. }
  induction k as [|k IH]; [done|]. destruct IH as (Hfr & Hr & Hh). destruct (Hround _ Hfr Hr Hh) as (? & ? & ? & _). done.
Qed.
End hashing.
End engine_logic.

(** ** The JSON store is such a store *)

(** A JSON store whose reads and writes fail as an argument decides, call by
    call. *)
Record faultyStore := mkFaulty {
  faulty_store : JSONStore;
  faulty_calls : nat;
  faulty_faults : nat -> bool * bool
}.

Definition with_faults (read write : bool) (s : JSONStore) : JSONStore :=
  match JSONStore_backend s with
  | Some b => mkStore (Some (mkBackend (backend_file b) read write))
  | None => s
  end.

Definition faulty_now (s : faultyStore) : JSONStore :=
  let '(read, write) := faulty_faults s (faulty_calls s) in with_faults read write (faulty_store s).

Definition faulty_next (s : faultyStore) (store : JSONStore) : faultyStore :=
  mkFaulty store (S (faulty_calls s)) (faulty_faults s).

Definition faulty_write (op : JSONStore -> JSONStore * result StoreErr unit) (s : faultyStore) : faultyStore * result StoreErr unit :=
  let '(store, r) := op (faulty_now s) in (faulty_next s store, r).

Definition faulty_read {A} (op : JSONStore -> result StoreErr A) (s : faultyStore) : faultyStore * result StoreErr A :=
  (faulty_next s (faulty_store s), op (faulty_now s)).

#[export] Instance JSON_ManifestStore : ManifestStore faultyStore StoreErr := {
  ms_SaveManifest s folderID rel m := faulty_write (fun store => Store.SaveManifest store folderID rel m) s;
  ms_LoadManifest s folderID rel := faulty_read (fun store => Store.LoadManifest store folderID rel) s;
  ms_ListManifests s folderID := faulty_read (fun store => Store.ListManifests store folderID) s;
  ms_DeleteManifest s folderID rel := faulty_write (fun store => Store.DeleteManifest store folderID rel) s
}.

(** What the file of the store holds. *)
Definition faulty_content (s : faultyStore) : result StoreErr snapshot := load (with_faults false false (faulty_store s)).

Definition faulty_files (s : faultyStore) (folderID : string) : gmap string Manifest :=
  match faulty_content s with Ok snap => files (view (snap_local snap) folderID) | Err _ => ∅ end.

Definition faulty_room (n : nat) (s : faultyStore) : Prop := exists snap, faulty_content s = Ok snap /\
  wf_meta (snap_local snap) /\ forall f, cursor (view (snap_local snap) f) + Z.of_nat n < 2 ^ 64.

Definition faulty_reliable (s : faultyStore) : Prop := forall i, faulty_faults s i = (false, false).

Lemma load_faulty read write s snap : load (with_faults false false s) = Ok snap ->
  load (with_faults read write s) = if read then Err ErrReadFile else Ok snap.
Proof. unfold load, with_faults. destruct (JSONStore_backend s) as [b|] eqn:Hb; [|by rewrite Hb]. cbn. unfold backend_Load. cbn. by destruct read. Qed.

Lemma with_faults_twice r1 w1 r2 w2 s : with_faults r1 w1 (with_faults r2 w2 s) = with_faults r1 w1 s.
Proof. unfold with_faults. destruct (JSONStore_backend s) as [b|] eqn:Hb; cbn; [done|by rewrite Hb]. Qed.

Lemma faulty_read_law {A} (op : JSONStore -> result StoreErr A) (g : snapshot -> A) s snap : faulty_content s = Ok snap ->
  (forall store, op store = g <$> load store) ->
  read_law faulty_files faulty_room faulty_reliable s (faulty_read op s) (g snap).
Proof.
  intros Hc Hop. unfold faulty_read, faulty_now. destruct (faulty_faults s (faulty_calls s)) as [r w] eqn:Hf. split; cbn [fst snd].
  - intros n Hn. exact Hn.
  - done.
  - intros b. rewrite Hop, (load_faulty r w _ _ Hc). destruct r; [done|]. by intros [= <-].
  - intros Hrel. split; [exact Hrel|]. rewrite (Hrel _) in Hf. injection Hf as <- <-. by rewrite Hop, (load_faulty _ _ _ _ Hc).
Qed.

Lemma faulty_write_law op folderID s (Hop : match op with OpMove _ _ _ => False | _ => True end) : faulty_room 1 s ->
  write_law faulty_files faulty_room faulty_reliable s
    (faulty_write (fun store => modify store (fun snap => Ok (with_local (op_snap folderID op (snap_local snap)) snap))) s) folderID
    (fun fs => files (apply_op (mkFolder fs ∅ ∅ ∅ ∅ 0) op)).
Proof.
  intros (snap & Hc & W & Hroom). unfold faulty_write, faulty_now. destruct (faulty_faults s (faulty_calls s)) as [r w] eqn:Hf.
  set (f := fun snap => Ok (with_local (op_snap folderID op (snap_local snap)) snap)).
  set (snap' := with_local (op_snap folderID op (snap_local snap)) snap).
  assert (modify (with_faults r w (faulty_store s)) f =
    if r || w then (with_faults r w (faulty_store s), Err (if r then ErrReadFile else ErrSave))
    else (mkStore (Some (mkBackend (JSONFile snap') false false)), Ok tt)) as ->.
  { unfold modify. rewrite (load_faulty r w _ _ Hc). destruct r; [done|]. cbn. fold snap'. unfold save, with_faults.
    unfold faulty_content, with_faults, load in Hc. destruct (JSONStore_backend (faulty_store s)) as [b|] eqn:Hb; cbn in *; [by destruct w|by rewrite Hb in Hc]. }
  destruct (r || w) eqn:Hrw.
  - assert (faulty_content (faulty_next s (with_faults r w (faulty_store s))) = Ok snap) as Hc'.
    { unfold faulty_content. cbn. by rewrite with_faults_twice. }
    split; cbn [fst snd].
    + intros n (snap0 & Hc0 & W0 & Hn). exists snap. assert (snap0 = snap) as -> by congruence. split; [done|]. split; [done|]. intros g. specialize (Hn g). lia.
    + right. split; [done|]. intros g. unfold faulty_files. by rewrite Hc', Hc.
    + intros Hrel. rewrite (Hrel _) in Hf. by injection Hf as <- <-.
  - assert (wf_meta (snap_local snap')) as W'.
    { intros g. cbn. rewrite view_op_snap. case_decide; [|apply W]. apply wf_op; [apply W|apply Hroom|by destruct op]. }
    pose proof (normalizeSnapshot_id _ (wf_loadable_meta _ W')) as Hnorm.
    assert (faulty_content (faulty_next s (mkStore (Some (mkBackend (JSONFile snap') false false)))) = Ok (normalizeLoadedSnapshot snap')) as Hc' by done.
    assert (forall g, view (snap_local (normalizeLoadedSnapshot snap')) g = if decide (g = folderID) then apply_op (view (snap_local snap) folderID) op else view (snap_local snap) g) as Hview.
    { intros g. change (snap_local (normalizeLoadedSnapshot snap')) with (normalizeSnapshot (snap_local snap')). rewrite (Hnorm g). apply view_op_snap. }
    split; cbn [fst snd].
    + intros n (snap0 & Hc0 & W0 & Hn). exists (normalizeLoadedSnapshot snap'). assert (snap0 = snap) as -> by congruence. split; [done|]. split.
      * intros g. change (snap_local (normalizeLoadedSnapshot snap')) with (normalizeSnapshot (snap_local snap')). rewrite (Hnorm g). apply W'.
      * intros g. rewrite Hview. case_decide; [|specialize (Hn g); lia]. pose proof (Hn folderID).
        rewrite cursor_apply_op; [lia|apply W|lia].
    + left. intros g. unfold faulty_files. rewrite Hc', Hc, Hview. case_decide; [subst g|done]. by destruct op.
    + intros Hrel. split; [exact Hrel|done].
Qed.

#[export] Program Instance JSON_ManifestStoreLaws : ManifestStoreLaws faultyStore StoreErr := {
  ms_files := faulty_files;
  ms_room := faulty_room;
  ms_reliable := faulty_reliable
}.
Next Obligation. intros n k s (snap & Hc & W & Hn) Hk. exists snap. split; [done|]. split; [done|]. intros f. specialize (Hn f). lia. Qed.
Next Obligation.
  intros s f rel (snap & Hc & _). pose proof (faulty_read_law (fun store => Store.LoadManifest store f rel)
    (fun snap => inner (Folders (snap_local snap)) f !! rel) s snap Hc) as Hr.
  unfold faulty_files at 2. rewrite Hc. by apply Hr.
Qed.
Next Obligation.
  intros s f (snap & Hc & _). pose proof (faulty_read_law (fun store => Store.ListManifests store f)
    (fun snap => inner (Folders (snap_local snap)) f) s snap Hc) as Hr.
  unfold faulty_files at 2. rewrite Hc. by apply Hr.
Qed.
Next Obligation. intros s f rel m Hroom. exact (faulty_write_law (OpSave rel m) f s I Hroom). Qed.
Next Obligation. intros s f rel Hroom. exact (faulty_write_law (OpDelete rel) f s I Hroom). Qed.

(** ** The index state *)

Definition count (p : Manifest -> bool) (l : list Manifest) : Z := Z.of_nat (length (List.filter p l)).

Definition is_seed (m : Manifest) : bool :=
  negb (complete m) && bool_decide (Manifest_HashState m = HashStateAssumedValidUnverified).
Definition is_unknown (m : Manifest) : bool :=
  negb (complete m) && bool_decide (Manifest_HashState m <> HashStateAssumedValidUnverified).
Definition date_pending (m : Manifest) : bool :=
  is_seed m && bool_decide (Manifest_ModTimeUnixNano m <> 0)
  && bool_decide (Manifest_SeedBaselineModTimeUnixNano m <> Manifest_ModTimeUnixNano m).

Lemma foldl_countManifest l st : foldl countManifest st l =
  mkIndexState (IndexState_Mode st) (IndexState_TotalFiles st + Z.of_nat (length l))
    (IndexState_VerifiedFiles st + count complete l) (IndexState_UnknownFiles st + count is_unknown l)
    (IndexState_UnverifiedSeedFiles st + count is_seed l)
    (IndexState_KnownBlocks st + Z.of_nat (sum_list_with (fun m => length (Manifest_Blocks m)) l))
    (IndexState_BadBlocks st) (IndexState_QueuedHashJobs st + count is_unknown l + count is_seed l)
    (IndexState_ActiveHashJobs st) (IndexState_DateCorrectionsPending st + count date_pending l)
    (IndexState_ProvisionalReadOnly st || existsb is_seed l).
Proof.
  revert st. induction l as [|m l IH]; intros st.
  { destruct st. cbn. rewrite orb_false_r. f_equal; unfold count; cbn; lia. }
  cbn [foldl]. rewrite IH. destruct st. unfold countManifest, count, date_pending, is_unknown, is_seed, complete.
  destruct (bool_decide_reflect (Manifest_HashState m = "complete")) as [Hc|Hc];
    [|destruct (bool_decide_reflect (Manifest_HashState m = HashStateAssumedValidUnverified)) as [Hs|Hs]];
    cbn -[Z.add Z.of_nat bool_decide].
  - rewrite !(bool_decide_eq_true_2 _ Hc). cbn -[Z.add Z.of_nat bool_decide]. f_equal; lia.
  - rewrite !(bool_decide_eq_false_2 _ Hc), !(bool_decide_eq_true_2 _ Hs). rewrite (bool_decide_eq_false_2 (_ <> HashStateAssumedValidUnverified)) by (intros Hn; by apply Hn).
    cbn -[Z.add Z.of_nat bool_decide]. destruct (bool_decide (Manifest_ModTimeUnixNano m <> 0) && _); cbn -[Z.add Z.of_nat bool_decide]; rewrite ?orb_true_r; f_equal; lia.
  - rewrite !(bool_decide_eq_false_2 _ Hc), !(bool_decide_eq_false_2 _ Hs), !(bool_decide_eq_true_2 (_ <> HashStateAssumedValidUnverified)) by done.
    cbn -[Z.add Z.of_nat bool_decide]. f_equal; lia.
Qed.

Lemma count_split l : Z.of_nat (length l) = count complete l + count is_unknown l + count is_seed l.
Proof.
  unfold count. induction l as [|m l IH]; [done|]. cbn [List.filter length]. unfold is_unknown, is_seed in *.
  destruct (complete m); cbn [negb andb length] in *; [lia|].
  destruct (bool_decide_reflect (Manifest_HashState m = HashStateAssumedValidUnverified)) as [Hs|Hs].
  - rewrite (bool_decide_eq_false_2 (_ <> _)) by (intros Hn; by apply Hn). cbn [length]. lia.
  - rewrite (bool_decide_eq_true_2 (_ <> _)) by done. cbn [length]. lia.
Qed.

Lemma count_zero p l : count p l = 0 <-> forall m, m ∈ l -> p m = false.
Proof.
  unfold count. induction l as [|m l IH]; [split; [by intros _ m Hm%elem_of_nil|done]|]. cbn [List.filter].
  destruct (p m) eqn:Hp; cbn [length].
  - split; [lia|]. intros Hall. specialize (Hall m ltac:(left)). congruence.
  - rewrite IH. split; [intros Hall x [->|Hx]%elem_of_cons; [done|by apply Hall]|intros Hall x Hx; apply Hall; by right].
Qed.

Lemma not_unknown_not_seed m : complete m = negb (is_unknown m || is_seed m).
Proof.
  unfold is_unknown, is_seed. destruct (complete m); [done|]. cbn [negb andb].
  destruct (bool_decide_reflect (Manifest_HashState m = HashStateAssumedValidUnverified)) as [Hs|Hs];
    [by rewrite orb_true_r|by rewrite (bool_decide_eq_true_2 (_ <> _))].
Qed.

Section index_state.
Context {St E : Type} `{ManifestStoreLaws St E} (range : forall V, gmap string V -> list (string * V)).
Context (range_perm : forall V (m : gmap string V), range V m ≡ₚ map_to_list m).

(** The index state of a folder counts each manifest once, as verified, unknown
    or an unverified seed; the last two are the queued jobs, and the mode says
    which of them there are.  Damaged blocks are never counted, and nothing
    reports an active job or the mode "repairing". *)
Theorem FolderIndexState_exact folderID w : room 0 w ->
  post (getFolderIndexState range folderID) w (fun w' r => frame folderID w w' /\ held w' folderID = held w folderID /\
    match r with
    | Err _ => ~ reliable w
    | Ok st =>
        let manifests p := exists rel m, held w folderID !! rel = Some m /\ p m = true in
        IndexState_TotalFiles st = Z.of_nat (size (held w folderID)) /\
        IndexState_TotalFiles st = IndexState_VerifiedFiles st + IndexState_UnknownFiles st + IndexState_UnverifiedSeedFiles st /\
        IndexState_QueuedHashJobs st = IndexState_UnknownFiles st + IndexState_UnverifiedSeedFiles st /\
        (manifests is_seed -> IndexState_Mode st = IndexModeLazyHashing /\ IndexState_ProvisionalReadOnly st = true) /\
        (~ manifests is_seed -> IndexState_ProvisionalReadOnly st = false) /\
        (~ manifests is_seed -> manifests is_unknown -> IndexState_Mode st = IndexModeQuickMetadata) /\
        (~ manifests is_seed -> ~ manifests is_unknown -> IndexState_Mode st = IndexModeVerified /\
           IndexState_VerifiedFiles st = IndexState_TotalFiles st) /\
        IndexState_BadBlocks st = 0 /\ IndexState_ActiveHashJobs st = 0
    end).
Proof.
  intros Hn. apply post_bind. apply (post_ListManifests folderID 0); [done| |by intros w1 e Hfr _ Hh Hrel].
  intros w1 Hfr1 _ Hh1. apply post_ret. split; [done|]. split; [done|]. cbv zeta.
  set (l := (range Manifest (held w folderID)).*2). rewrite foldl_countManifest. cbn -[Z.add Z.of_nat count existsb].
  assert (forall m, m ∈ l <-> exists rel, held w folderID !! rel = Some m) as Hin.
  { intros m. unfold l. rewrite list_elem_of_fmap. split.
    - intros ([rel m'] & -> & Hm). rewrite range_perm in Hm. apply elem_of_map_to_list in Hm. by exists rel.
    - intros [rel Hm]. exists (rel, m). split; [done|]. rewrite range_perm. by apply elem_of_map_to_list. }
  assert (Z.of_nat (length l) = Z.of_nat (size (held w folderID))) as Hlen.
  { f_equal. unfold l. rewrite length_fmap, range_perm. apply length_map_to_list. }
  pose proof (count_split l) as Hsplit.
  assert (forall p, 0 <= count p l) as Hpos by (intros p; unfold count; lia).
  assert (forall p, count p l = 0 <-> ~ exists rel m, held w folderID !! rel = Some m /\ p m = true) as Hzero.
  { intros p. rewrite count_zero. split.
    - intros Hall (rel & m & Hm & Hp). rewrite Hall in Hp; [done|]. apply Hin. by exists rel.
    - intros Hno m [rel Hm]%Hin. destruct (p m) eqn:Hp; [|done]. destruct Hno. by exists rel, m. }
  assert (existsb is_seed l = true <-> exists rel m, held w folderID !! rel = Some m /\ is_seed m = true) as Hseed.
  { rewrite existsb_exists. split.
    - intros (m & Hm%list_elem_of_In & Hs). apply Hin in Hm as [rel Hm]. by exists rel, m.
    - intros (rel & m & Hm & Hs). exists m. split; [|done]. apply list_elem_of_In, Hin. by exists rel. }
  pose proof (Hpos is_seed) as Hp1. pose proof (Hpos is_unknown) as Hp2. pose proof (Hzero is_seed) as Hz1. pose proof (Hzero is_unknown) as Hz2.
  change (0 + count is_seed l) with (count is_seed l). change (0 + count is_unknown l) with (count is_unknown l).
  destruct (Z.ltb_spec 0 (count is_seed l)) as [Hs|Hs]; [|destruct (Z.ltb_spec 0 (count is_unknown l)) as [Hu|Hu]];
    cbn -[Z.add Z.of_nat count existsb].
  - assert (existsb is_seed l = true) as Hex.
    { destruct (existsb is_seed l) eqn:Hb; [done|]. assert (count is_seed l = 0) as Hz; [|lia]. apply Hz1. intros Hyes%Hseed. congruence. }
    apply Hseed in Hex as Hyes. split_and?; [lia..| | | | | |]; done.
  - assert (~ exists rel m, held w folderID !! rel = Some m /\ is_seed m = true) as Hno by (apply Hz1; lia).
    split_and?; [lia..| | | | | |]; try done.
    + intros _. destruct (existsb is_seed l) eqn:Hb; [|done]. by destruct Hno; apply Hseed.
    + intros _ Hnu. apply Hz2 in Hnu. lia.
  - assert (~ exists rel m, held w folderID !! rel = Some m /\ is_seed m = true) as Hno by (apply Hz1; lia).
    split_and?; [lia..| | | | | |]; try done.
    + intros _. destruct (existsb is_seed l) eqn:Hb; [|done]. by destruct Hno; apply Hseed.
    + intros _ Hex. assert (count is_unknown l = 0) as Hcu by lia. by apply Hz2 in Hcu.
    + intros _ _. split; [done|lia].
Qed.
End index_state.

(** ** A folder with two files *)

Definition demo_range (V : Type) (m : gmap string V) : list (string * V) := map_to_list m.
Definition demo_scanEnv2 : scanEnv := mkScanEnv (fun _ => RootDir) (fun _ => false) (fun _ => None) (fun _ => 3).
Definition demo_files : gmap string File := {["/f/a" := demo_text "xy"; "/f/d/b" := demo_text "z"]}.
Definition demo_folder2 : FolderConfig :=
  mkFolderConfig "docs" "/f" true EmptyString EmptyString EmptyString EmptyString 1 [] []
    (FolderConfig_Permissions (demo_folder "docs")) demo_maintenance false.
Definition demo_world (disk : gmap string File) : world faultyStore :=
  mkWorld (mkFaulty demo_store 0 (fun _ => (false, false))) disk demo_scanEnv2.
Definition demo_ct : chtimesEnv := mkChtimesEnv false id 100.
Abbreviation demo_quick w := (QuickIndex id (fun _ _ => false) "/" demo_range demo_folder2 w).
Abbreviation demo_fullscan w := (Scan id (fun _ _ => false) "/" demo_range demo_folder2 w).
Abbreviation demo_hash rel w := (HashFileOnDemand id demo_ct demo_folder2 rel w).
Abbreviation demo_adopt authoritative w := (AdoptManualSeed demo_range demo_folder2 authoritative w).

(** What a peer says of the file "a": the same content, an older time. *)
Definition demo_remote : gmap string ScannedFile :=
  {["a" := mkScannedFile "a" (mkManifest "/p/a" 2 1 [mkBlock 0 0 1 [Byte.x78]; mkBlock 1 1 1 [Byte.x79]] "complete" false 5 6 0 0)]}.

(** A seed that is adopted and hashed is accepted, with the time of the peer. *)
Example seed_accepted :
  let w1 := (demo_quick (demo_world demo_files)).1 in
  let w2 := (demo_adopt demo_remote w1).1 in
  (demo_hash "a" w2).2 = Ok (mkManifest "/f/a" 2 1 [mkBlock 0 0 1 [Byte.x78]; mkBlock 1 1 1 [Byte.x79]] "complete" false 5 100 0 0).
Proof. vm_compute. reflexivity. Qed.

(** A seed that is adopted twice loses the times of the local file: hashing it
    reports a change that did not happen and forgets the seed. *)
Theorem adopted_twice_lost :
  let w1 := (demo_quick (demo_world demo_files)).1 in
  let w2 := (demo_adopt demo_remote (demo_adopt demo_remote w1).1).1 in
  (demo_hash "a" w2).2 = Err ErrLazyHashBaselineChanged /\
  Manifest_HashState <$> held (demo_hash "a" w2).1 "docs" !! "a" = Some "unknown".
Proof. split; vm_compute; reflexivity. Qed.

(** A quick index after an adoption takes the time of the seed for a change of
    the file: the seed is forgotten before it was hashed. *)
Theorem quick_index_forgets_seed :
  let w1 := (demo_quick (demo_world demo_files)).1 in
  let w2 := (demo_quick (demo_adopt demo_remote w1).1) in
  EngineScan_Changed <$> w2.2 = Ok [mkChangedFile "a" []] /\
  Manifest_HashState <$> held w2.1 "docs" !! "a" = Some "unknown".
Proof. split; vm_compute; reflexivity. Qed.

(** A file that became shorter needs no blocks: a scan stores its manifest and
    does not report it as changed. *)
Theorem truncation_unreported :
  let w1 := (demo_fullscan (demo_world demo_files)).1 in
  let w2 := demo_fullscan (mkWorld (w_store w1) (<["/f/a" := demo_text "x"]> demo_files) demo_scanEnv2) in
  EngineScan_Changed <$> w2.2 = Ok [] /\
  Manifest_Size <$> held w1 "docs" !! "a" = Some 2 /\ Manifest_Size <$> held w2.1 "docs" !! "a" = Some 1.
Proof. split_and!; vm_compute; reflexivity. Qed.

Lemma demo_range_perm V (m : gmap string V) : demo_range V m ≡ₚ map_to_list m.
Proof. done. Qed.

Lemma demo_room n disk : Z.of_nat n < 2 ^ 64 -> room n (demo_world disk).
Proof. intros Hn. exists snapshot_zero. split; [reflexivity|]. split; [apply wf_meta_zero|]. intros f. exact Hn. Qed.

Lemma demo_lookup (P : string -> File -> Prop) :
  P "/f/a" (demo_text "xy") -> P "/f/d/b" (demo_text "z") -> forall p f, demo_files !! p = Some f -> P p f.
Proof.
  intros H1 H2 p f Hf. unfold demo_files in Hf. apply lookup_insert_Some in Hf as [[<- <-]|[_ Hf]]; [done|].
  by apply lookup_singleton_Some in Hf as [<- <-].
Qed.

(** The contents behind the history of the witness: "a" is changed at the time 4. *)
Definition demo_recall (p : string) (_ _ ct : Z) : bytes :=
  if bool_decide (p = "/f/a") then if ct <? 4 then File_data (demo_text "xy") else File_data (demo_text "wv") else File_data (demo_text "z").
Definition demo_files_later : gmap string File := {["/f/a" := demo_text "wv"; "/f/d/b" := demo_text "z"]}.
Definition demo_scanEnv3 : scanEnv :=
  mkScanEnv (fun _ => RootDir) (fun _ => false) (fun _ => None) (fun p => if bool_decide (p = "/f/a") then 4 else 3).

Lemma demo_lookup_later (P : string -> File -> Prop) :
  P "/f/a" (demo_text "wv") -> P "/f/d/b" (demo_text "z") -> forall p f, demo_files_later !! p = Some f -> P p f.
Proof.
  intros H1 H2 p f Hf. unfold demo_files_later in Hf. apply lookup_insert_Some in Hf as [[<- <-]|[_ Hf]]; [done|].
  by apply lookup_singleton_Some in Hf as [<- <-].
Qed.

Lemma demo_identified : identified demo_recall demo_files demo_scanEnv2.
Proof.
  split.
  - apply (demo_lookup (fun _ f => file_size f <= maxInt64)); vm_compute; discriminate.
  - intros p [f Hf]. revert p f Hf. apply (demo_lookup (fun p _ => path_clean p = p)); reflexivity.
  - apply (demo_lookup (fun p f => File_data f = demo_recall p (file_size f) (File_mtime f) (env_changeTime demo_scanEnv2 p))); reflexivity.
Qed.

Lemma demo_identified_later : identified demo_recall demo_files_later demo_scanEnv3.
Proof.
  split.
  - apply (demo_lookup_later (fun _ f => file_size f <= maxInt64)); vm_compute; discriminate.
  - intros p [f Hf]. revert p f Hf. apply (demo_lookup_later (fun p _ => path_clean p = p)); reflexivity.
  - apply (demo_lookup_later (fun p f => File_data f = demo_recall p (file_size f) (File_mtime f) (env_changeTime demo_scanEnv3 p))); reflexivity.
Qed.

Lemma demo_trusted : trusted id demo_folder2 demo_recall (demo_world demo_files).
Proof.
  intros rel m Hm. change (held (demo_world demo_files) _) with (∅ : gmap string Manifest) in Hm. by rewrite lookup_empty in Hm.
Qed.

Lemma demo_scan_room metadataOnly : room 10 (scan id (fun _ _ => false) "/" demo_range demo_folder2 metadataOnly (demo_world demo_files)).1.
Proof. apply scan_room; [exact demo_range_perm|]. apply demo_room. vm_compute. reflexivity. Qed.

(** A scan, then a change of "a": the quick index marks "a" unknown, and "b" is
    complete and describes its file. *)
Lemma quick_index_trusted_witness :
  let w1 := (demo_fullscan (demo_world demo_files)).1 in
  let w' := mkWorld (w_store w1) demo_files_later demo_scanEnv3 in
  (exists m, held (demo_quick w').1 "docs" !! "d/b" = Some m /\ faithful id m (demo_text "z")) /\
  Manifest_HashState <$> held (demo_quick w').1 "docs" !! "a" = Some "unknown".
Proof.
  intros w1 w'. destruct (demo_quick w') as [w'' [res|]] eqn:E; [|vm_compute in E; discriminate E].
  assert (forall rel, Manifest_HashState <$> held (demo_quick w').1 "docs" !! rel = Manifest_HashState <$> held w'' "docs" !! rel) as Hw
    by (intros rel; by rewrite E).
  split; [|cbn [fst]; rewrite <- Hw; vm_compute; reflexivity].
  destruct (quick_index_trusted id (fun _ _ => false) "/" demo_range demo_range_perm demo_folder2 demo_recall
    (demo_world demo_files) w' w'' res) as (rules & Hr & H).
  - discriminate.
  - reflexivity.
  - exact demo_identified.
  - exact demo_trusted.
  - apply (rtc_l _ _ w1).
    + apply (step_scan id (fun _ _ => false) "/" demo_range demo_folder2 demo_recall false). apply demo_room. vm_compute. reflexivity.
    + apply rtc_once. apply (step_outside id (fun _ _ => false) "/" demo_range demo_folder2 demo_recall demo_files_later demo_scanEnv3 w1).
      exact demo_identified_later.
  - apply (room_le 10); [exact (demo_scan_room false)|]. apply Nat.leb_le. vm_compute. reflexivity.
  - exact E.
  - vm_compute in Hr. injection Hr as <-. destruct (H "d/b" (demo_text "z")) as (m & Hm & _ & _ & _ & Hf).
    + split; [eexists; reflexivity|reflexivity..].
    + reflexivity.
    + reflexivity.
    + change (FolderConfig_ID demo_folder2) with "docs" in Hm. exists m. split; [exact Hm|]. apply Hf.
      assert ((fun m => Manifest_HashState m) <$> held w'' "docs" !! "d/b" = Some "complete") as Hst.
      { rewrite <- Hw. vm_compute. reflexivity. }
      rewrite Hm in Hst. by injection Hst.
Defined.

(** Where the change time is that of the creation (macOS) or the modification time
    (Windows), a file that gets another content of the same size and its old
    modification time looks the same: a quick index keeps the manifest of the old
    content, marked complete. *)
Theorem restored_times_missed :
  let w1 := (demo_fullscan (demo_world demo_files)).1 in
  let w2 := demo_quick (mkWorld (w_store w1) demo_files_later demo_scanEnv2) in
  EngineScan_Changed <$> w2.2 = Ok [] /\
  (fun m => (Manifest_HashState m, Block_Hash <$> Manifest_Blocks m)) <$> held w2.1 "docs" !! "a" = Some ("complete", [[Byte.x78]; [Byte.x79]]).
Proof. split; vm_compute; reflexivity. Qed.

Lemma Scan_exact_witness :
  let '(w', r) := demo_fullscan (demo_world demo_files) in
  exists m, held w' "docs" !! "d/b" = Some m /\ Manifest_HashState m = "complete" /\ describes id 1 (demo_text "z") m.
Proof.
  pose proof (Scan_exact id (fun _ _ => false) "/" demo_range demo_range_perm demo_folder2 (demo_world demo_files)
    ltac:(reflexivity) (demo_lookup (fun _ f => file_size f <= maxInt64) ltac:(vm_compute; discriminate) ltac:(vm_compute; discriminate))
    ltac:(apply demo_room; vm_compute; reflexivity)) as H.
  destruct (demo_fullscan (demo_world demo_files)) as [w' [res|e]] eqn:E; [|vm_compute in E; discriminate E].
  destruct H as (_ & _ & _ & _ & rules & Hr & H & _). vm_compute in Hr. injection Hr as <-.
  apply (H "d/b" (demo_text "z")); [|reflexivity..]. split; [eexists; reflexivity|reflexivity..].
Defined.

Lemma HashNextUnknown_completes_witness :
  let w := (demo_quick (demo_world demo_files)).1 in
  exists k, (k <= 4)%nat /\ forall rel m, held (Nat.iter k (round id demo_range demo_ct demo_folder2) w) "docs" !! rel = Some m -> complete m = true.
Proof.
  intros w.
  assert (size (held w "docs") = 2%nat) as Hsize by (vm_compute; reflexivity).
  destruct (HashNextUnknown_completes id demo_range demo_range_perm demo_ct demo_folder2 w) as (k & Hk & _ & _ & Hdone & _).
  - reflexivity.
  - intros i. reflexivity.
  - apply (room_le 10); [exact (demo_scan_room true)|]. change (FolderConfig_ID demo_folder2) with "docs". rewrite Hsize. lia.
  - intros rel m Hm _. change (FolderConfig_ID demo_folder2) with "docs" in Hm.
    assert (held w "docs" = {["a" := default Manifest_zero (held w "docs" !! "a"); "d/b" := default Manifest_zero (held w "docs" !! "d/b")]}) as Hall by (vm_compute; reflexivity).
    rewrite Hall in Hm. apply lookup_insert_Some in Hm as [[<- <-]|[_ Hm]]; [|apply lookup_singleton_Some in Hm as [<- <-]].
    + split; [vm_compute; discriminate|]. exists "/f/a", (demo_text "xy"). split_and!; [reflexivity..|vm_compute; discriminate].
    + split; [vm_compute; discriminate|]. exists "/f/d/b", (demo_text "z"). split_and!; [reflexivity..|vm_compute; discriminate].
  - exists k. split; [change (FolderConfig_ID demo_folder2) with "docs" in Hk; rewrite Hsize in Hk; exact Hk|].
    intros rel m Hm. by apply (Hdone rel m).
Defined.
